(* ===== verification/_CoqProject ===== *)
-Q . S2P
Prelude.v
VfsPath.v
PageSlice.v
SliceTable.v
DirNames.v
VfsInode.v
VfsHandle.v
KHeap.v
RamFs.v
RamFsSpec.v
RamFsThm.v
Cpio.v
Mount.v
Namespace.v
NamespaceSpec.v
NamespaceThm.v
NamespaceProps.v
PortNames.v
VfsOpen.v
VfsCoop.v
VfsCoopThm.v
VfsCoopProps.v
VfsRead.v
Pipe.v
FdSlice.v
FdTable.v
FdVfs.v
SigSet.v
SignalState.v
SignalDeliver.v
PageCache.v
BackendSvc.v
PageCacheThm.v
CacheProps.v
Proc.v
ProcLife.v
ProcThm.v
ProcLifeThm.v
ProcProps.v
ExecStack.v
ExecStackThm.v
Exec.v
ExecLoad.v
ExecProps.v
Mm.v
MmSys.v
MmSpec.v
MmSim.v
MmInv.v
MmView.v
MmThm.v
MmCow.v
MmCopy.v
MmProps.v
MmRemap.v
MmSafe.v
Rpc.v
RpcCoop.v
RpcThm.v
RpcCoopInv.v
RpcCoopStep.v
RpcCoopThm.v
RpcCoopLive.v
BackendIpc.v
BackendIpcThm.v
RpcDemo.v
RpcProps.v
Time.v
TimeThm.v
VfsIpc.v
VfsIpcThm.v
SysFs.v
SysFsThm.v
