(* ===== verification/Prelude.v ===== *)
(** * RendezvOS_Linux: a verification library for the Linux compatibility layer

    RendezvOS_Linux runs Linux programs on the RendezvOS core kernel.  It has
    two halves: [linux_layer/], which runs in the context of the calling thread
    and implements the system calls, and [servers/], kernel threads that own
    shared state and are reached by messages (the VFS server, which owns the
    mount table, the open-file table and the file-system backends, and the
    clean-up server).  The core kernel ([core/], a submodule that is not part of
    the repository) provides page slices, the allocator, threads and message
    ports; what is used of it is a class with laws here, and each class has a
    concrete instance that the witnesses run on.

    ** Files, the code they model, and what they show

    - [Prelude]: C integers at their width, error codes, C strings, the
      [strcmp_s] class of the core kernel, shared tactics and lemmas.
    - [VfsPath] ([linux_layer/fs/vfs_path.c]): all path helpers.  Paths are
      lists of bytes; the output buffers are returned strings, with the
      truncations of the C code written out.  Normalisation is lexical
      resolution and its result canonical; parent, basename and join fit
      together; which children [vfs_path_direct_child_name] finds.
    - [PageSlice]: the page slices of the core kernel, as a class with laws.
    - [SliceTable] ([servers/fs/vfs_slice_table.c]): growable tables of records
      in page slices.  They refine a list of records (class [RecordTable], the
      interface every table of the VFS server is proved against), pointers stay
      valid across growth, and the largest capacity is exact.
    - [DirNames] ([vfs_dir_names_insert] of the same file): sorted, duplicate-free
      directory listings refine ordered sets.
    - [VfsInode] ([vfs_backend_ops.c], [vfs_perm.c], [vfs_kstat.c]): inodes,
      permission checks, stat records.
    - [VfsHandle] ([servers/fs/vfs_handle.c]): the reference-counted open-file
      table; for every client trace counts are exact and handles are not reused
      while referenced.
    - [KHeap], [RamFs], [RamFsSpec], [RamFsThm] ([servers/fs/ramfs_layer.c]):
      the RAM file system over an explicit kernel heap, so that sharing of
      buffers by hard links is visible.  It refines a map from paths to files
      and directories; reads return what was written; a growing write through a
      hard link leaves a dangling pointer.
    - [Cpio] ([servers/fs/cpio_rofs.c]): the parser of the initial RAM disk and
      the read-only file system on top of it.
      Its catalogue gives back what a reference encoder packed, and on
      arbitrary image bytes every later read stays in the image.
    - [Mount] ([servers/fs/vfs_backend.c], [servers/fs/vfs_mount.c]): the
      backend registry and the mount table; a path goes to the mount with the
      longest matching target.
    - [Namespace], [NamespaceSpec], [NamespaceThm], [NamespaceProps]
      ([servers/fs/vfs_namespace.c], [vfs_root.c]): the directory tree of the
      VFS server as nodes linked by pointers.  [NamespaceSpec] has the
      well-formedness of the tree and its meaning, a map from paths to
      attributes; the other two show that every commit keeps the tree well
      formed and what it does to the map.
    - [PortNames] (name functions of [linux_layer/ipc/rpc.c],
      [sys_proc_registry.c], [vfs_backend_ipc.c], [vfs_rpc.c]): port names and
      nested-call tokens; the reading functions invert the writing ones.
    - [VfsOpen] ([servers/fs/vfs_open.c], [vfs_kern_load.c], the user records
      of [vfs_kstat.c]): symbolic links, installing an open file, seek, stat.
    - [VfsCoop] ([servers/fs/vfs_coop.c], [vfs_coop_path.c]): the request
      machine of the VFS server.  A message is answered at once or parked with
      a request to a backend; the answer of the backend resumes it.  Every
      handler is a function on the whole server state (tree, mounts, open
      files, credentials); what lies outside (allocation, sending, the caller's
      memory) is the record [coop_env].
    - [VfsCoopThm], [VfsCoopProps], [VfsRead]: the server stays well formed for
      every interleaving of messages and answers, an answer to a request whose
      file has been closed meanwhile included; every request ends after a
      bounded number of answers (one kind of open excepted, which need not);
      a read delivers the bytes of the file; an exclusive creation never
      succeeds.
    - [PageCache], [PageCacheThm] ([servers/fs/vfs_page_cache.c]): the page
      cache of the backends, with its lists, eviction, write-back and the
      sharing of the ramfs heap; its invariant says that every cached ramfs
      file has the bytes of the file and links nodes of its own pages only
      (walking a list through a node of a destroyed slice is undefined).
    - [BackendSvc] ([vfs_backend_ramfs.c], [vfs_backend_cpio.c],
      [vfs_backend_blkdev.c]): the services that answer backend requests.
    - [CacheProps]: through the service and its cache, reads and overwrites
      give what the file system gives without a cache, unless a fill fails
      after its first page, which is a use after free; extending a file whose
      cached pages are dirty is undone; the block device is an array of bytes.
    - [Pipe] ([linux_layer/fs/linux_pipe.c]): pipes; other tasks act between
      the iterations of a blocking call through a function argument, and what
      lies behind the ring in memory is another one.  Writes put bytes in
      order; an iteration of a read delivers the bytes next in line exactly
      when it does not cross the end of the ring, and reads past it otherwise;
      end counts are exact.
    - [FdSlice] (lower half of [linux_layer/fs/linux_fd_table.c]): the
      descriptor table as bytes in pages; it refines an array of entries (class
      [FdStore]).
    - [FdTable] (upper half of the same file, [sys_fcntl.c],
      [linux_vfs_path.c], [linux_pipe_create2]): the descriptor operations over
      [FdStore].  Requests to the VFS server are a message log.
    - [FdVfs]: both sides joined: the requests of the descriptor layer are
      served on the open-file table and the reference
      counts are followed through fork, exit, reaping and dup.
    - [SigSet], [SignalState], [SignalDeliver] ([linux_layer/signal/] and the
      signal system calls in [linux_layer/proc/]): signal sets, generation,
      masks and actions, the choice of a signal, its default action, entering a
      handler and returning from it, on x86_64.

    - [Proc], [ProcLife] ([linux_layer/proc/linux_proc.c],
      [sys_proc_registry.c], [proc_wait_ipc.c]; [thread_syscall.c],
      [clean_ipc.c], [servers/clean_server.c], [sys_wait.c], [sys_fork.c],
      [sys_clone.c], [sys_proc.c], [sys_id.c]): processes as reference-counted
      objects, the pid registry, wait ports, exit, the clean-up server, wait,
      fork and clone.  Message ports and the name index of the core kernel are
      classes; following a pointer to a freed process makes the operation
      undefined ([None]).
    - [ProcThm], [ProcLifeThm], [ProcProps]: the invariant of the process state
      (exact counts, threads and processes point to each other, announcements
      are of ended children and never doubled), kept by every call with every
      failure; an exit code reaches the parent; fork makes a complete child or
      nothing; a wait with a bad address loses the child.
    - [ExecStack], [ExecStackThm] ([linux_layer/proc/linux_exec_stack.c]): the
      stack a new program starts with; a reader of the System V layout finds
      arguments, auxiliary vector, path and random bytes on it.
    - [Exec], [ExecLoad], [ExecProps] ([sys_execve.c], [linux_exec.c],
      [linux_exec_proc.c], [vfs_exec_load.c], [vfs_exec_path.c]): execve and the
      reading of program files.  The new program gets the caller's arguments;
      a failing execve returns with everything unchanged or ends the thread.
    - [Mm], [MmSys] ([linux_layer/mm/]): mapping, unmapping, copy-on-write,
      mmap, munmap, mprotect, mremap, brk, the copy of an address space for
      fork and the page-fault handler.  Page tables, radix tree and page
      allocator of the core kernel are the class [CoreMM].
    - [MmSpec], [MmSim]: the contract of that class over a view (page table
      entries, radix leaves, frames with owners and bytes, locks held), and an
      implementation of it to evaluate.
    - [MmInv], [MmView], [MmThm], [MmCow], [MmCopy], [MmProps], [MmRemap],
      [MmSafe]: the memory invariant and what each function does to the view:
      no writable page is shared, no frame is lost or freed early, no lock
      stays held, along every sequence of calls, faults and forks; mapping is
      all or nothing; a fork isolates parent and child; mremap keeps the
      bytes; mprotect does not respect sharing.
    - [Rpc], [RpcThm] ([linux_layer/ipc/rpc.c], [ipc_block_wake.c]): requests
      and replies on ports: the wire format, calls, replies, the one-way server
      loop.  The serializer is the class [IpcSerial] with the documented format
      as laws, ports and queues the class [Core] with arbitrary answers.  A
      call returns the first reply of the server it asked.
    - [RpcCoop] (the cooperative server of [rpc.c]): jobs, the send slot, nested
      calls, passes over the queue, the server loop.  [RpcCoopInv] to
      [RpcCoopLive] describe the operations as steps of one job on a view of
      the queue, with the invariant of the send slot: answers reach the clients
      that asked as long as no request is refused, and are sent once ports take
      them.
    - [BackendIpc], [BackendIpcThm] ([servers/fs/vfs_backend_ipc.c]): requests to
      backends arrive as they were sent, and their answers resume the job that
      asked; a busy send slot makes a request fail.
    - [RpcDemo], [RpcProps]: a serializer and cores that satisfy the laws, and
      the theorems with runs on them; what goes wrong when the send slot is
      busy or a request is refused is shown in lemmas on their own.
    - [Time], [TimeThm] ([linux_layer/time/], [linux_layer/misc/sys_poll.c]):
      clocks, sleeping and polling over the readings of the clock and the
      messages of the timer; a sleep whose time fits the 64-bit arithmetic does
      not end early, an interrupted one that is seen before its deadline reports
      the time that is left, and one seen later a difference that has wrapped.
    - [VfsIpc], [VfsIpcThm] ([linux_layer/fs/fs_ipc.c], [vfs_protocol.h], the
      decoding of [servers/fs/vfs_coop.c]): requests to the VFS server arrive as
      they were made, attributed to the process that made them.
    - [SysFs], [SysFsThm] ([linux_layer/fs/sys_fs_impl.c], [sys_mount.c],
      [linux_layer/io/sys_write.c]): the file system calls over descriptors,
      user memory and those requests; what openat and chdir do, which bytes a
      console write copies.

    ** Conventions

    A [w]-bit integer is a [Z] kept in range with [uw w] / [iw w]; a pointer the
    code compares with NULL is an [option] ([ptr]); failing operations return
    [error_t] or the negative errno of the source.  Memory allocation and other
    outcomes the code cannot control are arguments (an oracle, or a boolean that
    says whether the call succeeds), so that every theorem covers every failure.
    Loops are structural recursion on the number of iterations the C loop makes,
    or on fuel that the theorems show to be enough ([normalize_lexical] and the
    others hold for the fuel the definitions pass, without a side condition); a
    blocking loop, which may run for ever, takes its fuel as an argument and the
    theorems state what happens for every fuel.

    ** Not modelled

    Concurrency inside one operation (the code takes a lock around each of the
    table operations modelled here; the VFS server handles one message at a
    time).  The start of the server threads; the table of system calls
    ([syscall_entry.c]), which passes registers on; boot and traps.  The AArch64
    variants of architecture-specific code (the folding of [O_DIRECTORY] into
    the open flags is one); logging.  Delivery of signals from a page fault
    ([linux_page_fault_irq.c] calls the same function with an interrupt frame):
    only frames of system calls are.  Loading a program is a result of the
    environment of [Exec] ([xe_load]), which does not show the scratch page that
    [vfs_exec_load.c] maps and unmaps in the caller meanwhile; what it reads is
    modelled in [ExecLoad].  The requests to the VFS server inside a file
    mapping are a class whose laws say that they keep the memory invariant, the
    balance of frames and the locks ([VfsFileLaws]). *)

From stdpp Require Import base numbers list list_numbers strings gmap option.
From Stdlib Require Import Ascii.

Global Set Default Goal Selector "!".
Global Generalizable All Variables.

Open Scope Z_scope.

(** ** Scope and notations of the development *)

Declare Scope rdv_scope.
Delimit Scope rdv_scope with rdv.

(** A C pointer that the code compares with NULL. *)
Abbreviation ptr := option (only parsing).
Abbreviation NULL := None (only parsing).

(** ** Machine integers

    A [w]-bit unsigned value is an integer kept in range by [uw w]; the casts
    of the code are written out with the functions below. *)

Definition uw (w : Z) (z : Z) : Z := z `mod` 2 ^ w.
Abbreviation u8 := (uw 8).
Abbreviation u16 := (uw 16).
Abbreviation u32 := (uw 32).
Abbreviation u64 := (uw 64).

(** An unsigned sum is exact, or smaller than either operand. *)
Lemma uw_add_wrap w a b : 0 ≤ a < 2 ^ w → 0 ≤ b < 2 ^ w →
  (uw w (a + b) = a + b ∧ a + b < 2 ^ w) ∨ (uw w (a + b) < a ∧ 2 ^ w ≤ a + b).
Proof.
  intros Ha Hb. unfold uw. destruct (decide (a + b < 2 ^ w)).
  - left. split; [apply Z.mod_small; lia|done].
  - right. split; [|lia]. rewrite (Z.mod_eq _ (2 ^ w)) by lia.
    assert ((a + b) `div` 2 ^ w = 1) as ->; [|lia].
    symmetry. apply Z.div_unique_pos with (a + b - 2 ^ w); lia.
Qed.

(** Signed cast [(i32)z], [(i64)z]: two's complement. *)
Definition iw (w : Z) (z : Z) : Z :=
  (z + 2 ^ (w - 1)) `mod` 2 ^ w - 2 ^ (w - 1).
Abbreviation i32 := (iw 32).
Abbreviation i64 := (iw 64).

Lemma uw_small w z : 0 ≤ z < 2 ^ w → uw w z = z.
Proof. intros. by apply Z.mod_small. Qed.

Lemma uw_range w z : 0 ≤ w → 0 ≤ uw w z < 2 ^ w.
Proof. intros. apply Z.mod_pos_bound. lia. Qed.

Lemma iw_small w z : 0 < w → - 2 ^ (w - 1) ≤ z < 2 ^ (w - 1) → iw w z = z.
Proof.
  intros Hw Hz. unfold iw.
  assert (2 ^ w = 2 * 2 ^ (w - 1)) as Hp.
  { rewrite <- Z.pow_succ_r by lia. f_equal. lia. }
  rewrite Z.mod_small by lia. lia.
Qed.

(** [~x] on a [u32] and on an [unsigned long]. *)
Definition not32 (x : Z) : Z := Z.lxor x 0xffffffff.
Definition not64 (x : Z) : Z := Z.lxor x 0xffffffffffffffff.

(** A flag test [x & m] used as a condition. *)
Definition has (x m : Z) : bool := negb (Z.land x m =? 0).

Lemma has_bit x (k : Z) : 0 ≤ k → has x (2 ^ k) = Z.testbit x k.
Proof.
  intros Hk. unfold has. destruct (Z.testbit x k) eqn:E.
  - apply negb_true_iff, Z.eqb_neq. intros H0.
    assert (Z.testbit (Z.land x (2 ^ k)) k = false) as Hf by (rewrite H0; apply Z.bits_0).
    rewrite Z.land_spec, E, Z.pow2_bits_true in Hf by done. done.
  - apply negb_false_iff, Z.eqb_eq, Z.bits_inj'. intros n Hn.
    rewrite Z.land_spec, Z.bits_0, Z.pow2_bits_eqb by done.
    destruct (Z.eqb_spec k n) as [->|]; [by rewrite E|apply andb_false_r].
Qed.

Lemma land_bound x y w : 0 ≤ w → 0 ≤ x < 2 ^ w → 0 ≤ Z.land x y < 2 ^ w.
Proof.
  intros Hw Hx. replace (Z.land x y) with (Z.land (Z.land x y) (Z.ones w)).
  - rewrite Z.land_ones by done. apply Z.mod_pos_bound. lia.
  - rewrite <- Z.land_assoc, (Z.land_comm y), Z.land_assoc, Z.land_ones by done.
    by rewrite Z.mod_small.
Qed.

Lemma lor_bound x y w : 0 ≤ w → 0 ≤ x < 2 ^ w → 0 ≤ y < 2 ^ w → 0 ≤ Z.lor x y < 2 ^ w.
Proof.
  intros Hw Hx Hy. replace (Z.lor x y) with (Z.land (Z.lor x y) (Z.ones w)).
  - rewrite Z.land_ones by done. apply Z.mod_pos_bound. lia.
  - rewrite Z.land_lor_distr_l, !Z.land_ones, !Z.mod_small by done. done.
Qed.

(** ** Errors

    [error_t] is the error type of the core kernel; its codes are only ever
    compared, so they are constructors here. *)

Inductive error_t : Type :=
  | REND_SUCCESS
  | E_IN_PARAM
  | E_RENDEZVOS
  | E_REND_NO_MEM
  | E_REND_AGAIN
  | E_REND_NOFOUND
  | E_REND_NO_MSG
  | E_REND_PORT_CLOSED.

#[global] Instance error_t_eq_dec : EqDecision error_t.
Proof. solve_decision. Defined.

(** Linux errno values ([include/linux_compat/errno.h]). *)
Definition LINUX_EPERM : Z := 1.
Definition LINUX_ENOENT : Z := 2.
Definition LINUX_ESRCH : Z := 3.
Definition LINUX_EAGAIN : Z := 11.
Definition LINUX_EINTR : Z := 4.
Definition LINUX_EIO : Z := 5.
Definition LINUX_EBADF : Z := 9.
Definition LINUX_ENOMEM : Z := 12.
Definition LINUX_EACCES : Z := 13.
Definition LINUX_EFAULT : Z := 14.
Definition LINUX_EBUSY : Z := 16.
Definition LINUX_ENODEV : Z := 19.
Definition LINUX_ENOTDIR : Z := 20.
Definition LINUX_EINVAL : Z := 22.
Definition LINUX_EMFILE : Z := 24.
Definition LINUX_EPIPE : Z := 32.
Definition LINUX_ENAMETOOLONG : Z := 36.
Definition LINUX_ENOSYS : Z := 38.

(** ** C strings

    A NUL-terminated string is the list of its bytes before the NUL. *)

Abbreviation cstr := (list ascii).

Definition str (s : string) : cstr := String.list_ascii_of_string s.

(** The byte of a character, and the character of a byte. *)
Definition byte_of (c : ascii) : Z := Z.of_N (N_of_ascii c).
Definition char_of (b : Z) : ascii := ascii_of_N (Z.to_N b).

Lemma byte_of_range c : 0 ≤ byte_of c < 256.
Proof. unfold byte_of. pose proof (N_ascii_bounded c). lia. Qed.

Lemma char_of_byte c : char_of (byte_of c) = c.
Proof. unfold char_of, byte_of. by rewrite N2Z.id, ascii_N_embedding. Qed.

Lemma byte_of_nul c : byte_of c = 0 → c = zero.
Proof. intros E. rewrite <- (char_of_byte c), E. done. Qed.

(** [n] bytes of a little-endian integer. *)
Fixpoint le_bytes (n : nat) (x : Z) : list Z :=
  match n with
  | O => []
  | S n' => x `mod` 256 :: le_bytes n' (x `div` 256)
  end.

Lemma le_bytes_length n x : length (le_bytes n x) = n.
Proof. revert x. induction n as [|n IH]; intros x; cbn; [done|]. by rewrite IH. Qed.

(** [s !! i = None] at [i = strlen(s)] stands for the test [s[i] == 0]. *)
Definition is_char (s : cstr) (i : nat) (c : ascii) : bool :=
  bool_decide (s !! i = Some c).
Definition is_nul (s : cstr) (i : nat) : bool := bool_decide (s !! i = None).

(** The copy loop [while (src[j] != 0 && i + 1 < cap) out[i++] = src[j++]]:
    [out] holds the [i] bytes written so far. *)
Fixpoint copy_bounded (cap : nat) (out src : cstr) : cstr :=
  match src with
  | [] => out
  | c :: src' =>
      if decide (length out + 1 < cap)%nat
      then copy_bounded cap (out ++ [c]) src'
      else out
  end.

(** [strncpy(dst, src, n)] into a buffer whose byte [n] is set to NUL. *)
Definition strncpy_term (src : cstr) (n : nat) : cstr := take n src.

(** Unsigned comparison of the first [n] bytes, as ISO C's [strncmp]. *)
Fixpoint strncmp (a b : cstr) (n : nat) : Z :=
  match n with
  | O => 0
  | S n' =>
      match a, b with
      | [], [] => 0
      | [], _ :: _ => -1
      | _ :: _, [] => 1
      | x :: a', y :: b' =>
          if decide (x = y) then strncmp a' b' n'
          else if (Z.of_N (N_of_ascii x) <? Z.of_N (N_of_ascii y)) then -1 else 1
      end
  end.

(** [strcmp_s] belongs to the core kernel's string library.  The code relies
    on its sign only: the sign of the bounded comparison. *)
Class StrcmpS : Type := strcmp_s : cstr → cstr → nat → Z.
Class StrcmpSLaws `{SC : StrcmpS} : Prop :=
  strcmp_s_sgn : ∀ a b n, Z.sgn (strcmp_s a b n) = Z.sgn (strncmp a b n).
#[global] Hint Mode StrcmpSLaws - : typeclass_instances.

(** ** Tactics of the development *)

Ltac destruct_if :=
  match goal with
  | |- context [if ?b then _ else _] => destruct b eqn:?
  | H : context [if ?b then _ else _] |- _ => destruct b eqn:?
  end.

(** Boolean tests on integers in the context, as inequalities. *)
Ltac zbool :=
  repeat match goal with
  | H : (_ <? _) = true |- _ => apply Z.ltb_lt in H
  | H : (_ <? _) = false |- _ => apply Z.ltb_ge in H
  | H : (_ <=? _) = true |- _ => apply Z.leb_le in H
  | H : (_ <=? _) = false |- _ => apply Z.leb_gt in H
  | H : (_ =? _) = true |- _ => apply Z.eqb_eq in H
  | H : (_ =? _) = false |- _ => apply Z.eqb_neq in H
  | H : _ && _ = true |- _ => apply andb_true_iff in H as [? ?]
  | H : _ || _ = false |- _ => apply orb_false_iff in H as [? ?]
  | H : negb _ = true |- _ => apply negb_true_iff in H
  | H : negb _ = false |- _ => apply negb_false_iff in H
  end.

(** Case analysis on an integer [x] known to be in [0 .. n-1]. *)
Ltac enumerate x n :=
  match n with
  | O => exfalso; lia
  | S ?n' =>
      destruct (decide (x = Z.of_nat n'));
      [ subst x; try match goal with |- context [Z.of_nat n'] =>
          let v := eval vm_compute in (Z.of_nat n') in change (Z.of_nat n') with v in * end
      | enumerate x n' ]
  end.

Create HintDb rdv.

(** ** Generic lemmas *)

Lemma copy_bounded_take cap out src :
  copy_bounded cap out src = out ++ take (cap - 1 - length out) src.
Proof.
  revert out. induction src as [|c src IH]; intros out; simpl.
  - by rewrite take_nil, app_nil_r.
  - case_decide.
    + rewrite IH, length_app; simpl.
      replace (cap - 1 - length out)%nat
        with (S (cap - 1 - (length out + 1)))%nat by lia.
      simpl. by rewrite <- app_assoc.
    + replace (cap - 1 - length out)%nat with O by lia.
      by rewrite take_0, app_nil_r.
Qed.

Lemma copy_bounded_length cap out src :
  (length out < cap)%nat → (length (copy_bounded cap out src) < cap)%nat.
Proof.
  intros. rewrite copy_bounded_take, length_app, length_take. lia.
Qed.

Lemma copy_bounded_all cap out src :
  (length out + length src < cap)%nat → copy_bounded cap out src = out ++ src.
Proof. intros. rewrite copy_bounded_take. by rewrite take_ge by lia. Qed.

Lemma list_insert_middle {A} (l r : list A) x y :
  <[length l := y]> (l ++ x :: r) = l ++ y :: r.
Proof. induction l as [|z l IH]; cbn; [done|]. f_equal. exact IH. Qed.

Lemma strncmp_sgn_0 a b n : strncmp a b n = 0 ↔ take n a = take n b.
Proof.
  revert a b. induction n as [|n IH]; intros [|x a] [|y b]; simpl;
    try (split; [lia|discriminate]); try done.
  case_decide as Hxy.
  - subst. rewrite IH. split; [congruence|]. by intros [= ->].
  - split; [destruct_if; discriminate|]. intros [= ? ?]. congruence.
Qed.

Lemma strcmp_s_0 `{StrcmpSLaws} a b n :
  strcmp_s a b n = 0 ↔ take n a = take n b.
Proof.
  rewrite <- strncmp_sgn_0. pose proof (strcmp_s_sgn a b n) as Hs.
  split; intros E; rewrite E in Hs; simpl in Hs; by apply Z.sgn_null_iff.
Qed.

#[global] Instance strncmp_StrcmpS : StrcmpS | 100 := strncmp.
#[global] Instance strncmp_laws : @StrcmpSLaws strncmp_StrcmpS.
Proof. done. Qed.

#[export] Hint Resolve uw_range copy_bounded_length : rdv.
