(* ===== verification/VfsPath.v ===== *)
(** * Path normalisation ([linux_layer/fs/vfs_path.c])

    The definitions follow the C functions; an output buffer [out] of size
    [out_cap] is the returned string ([None] when nothing is written or the
    function returns false).  The specification side works on the list of
    components of a path. *)

From stdpp Require Import base numbers list strings option.
From Stdlib Require Import Ascii.
From S2P Require Import Prelude.

Definition slash : ascii := "/"%char.
Definition dot : ascii := "."%char.

Definition VFS_PATH_MAX : nat := 256.
Definition VFS_PATH_MAX_COMPONENTS : nat := 32.
Definition VFS_PATH_MAX_COMPONENT_LEN : nat := 64.

Local Open Scope nat_scope.

(** ** The C functions *)

Definition vfs_path_is_root_norm (norm : cstr) : bool :=
  is_char norm 0 slash && is_nul norm 1.

(** [clen]: bytes up to the next separator. *)
Fixpoint clen_of (src : cstr) : nat :=
  match src with
  | [] => 0
  | c :: src' => if decide (c = slash) then 0 else S (clen_of src')
  end.

(** The body of the scan loop for one component of [clen] bytes at [off]. *)
Definition collapse_component (off clen : nat) (src : cstr) (comps : list (Z * Z))
  : list (Z * Z) :=
  if 0 <? clen then
    if (clen =? 1) && is_char src 0 dot then comps
    else if (clen =? 2) && is_char src 0 dot && is_char src 1 dot then
      if 0 <? length comps then removelast comps else comps
    else
      let copy := if VFS_PATH_MAX_COMPONENT_LEN <=? clen
                  then VFS_PATH_MAX_COMPONENT_LEN - 1 else clen in
      comps ++ [(u16 (Z.of_nat off), u8 (Z.of_nat copy))]
  else comps.

(** The scan loop of [vfs_path_collapse]: [off] is [src - raw], the arrays
    [comp_off] and [comp_len] are a list of pairs of length [depth]. *)
Fixpoint collapse_scan (fuel off : nat) (src : cstr) (comps : list (Z * Z))
  : list (Z * Z) :=
  match fuel with
  | O => comps
  | S fuel' =>
      if is_nul src 0 || (VFS_PATH_MAX_COMPONENTS <=? length comps) then comps
      else
        let clen := clen_of src in
        let comps' := collapse_component off clen src comps in
        let src1 := drop clen src in
        if is_char src1 0 slash
        then collapse_scan fuel' (off + clen + 1) (drop 1 src1) comps'
        else collapse_scan fuel' (off + clen) src1 comps'
  end.

(** The emission loop; [out] holds the [i] bytes written so far. *)
Fixpoint collapse_emit (raw : cstr) (out_cap : nat) (comps : list (Z * Z))
    (out : cstr) : cstr :=
  match comps with
  | [] => out
  | (o, l) :: rest =>
      let out1 := copy_bounded out_cap out
                    (take (Z.to_nat l) (drop (Z.to_nat o) raw)) in
      let out2 := match rest with
                  | [] => out1
                  | _ :: _ => if length out1 + 1 <? out_cap
                              then out1 ++ [slash] else out1
                  end in
      collapse_emit raw out_cap rest out2
  end.

Definition vfs_path_collapse (raw : cstr) (out_cap : nat) : option cstr :=
  if out_cap =? 0 then None
  else
    let '(off, src) := if is_char raw 0 slash then (1, drop 1 raw) else (0, raw) in
    let comps := collapse_scan (S (length src)) off src [] in
    match comps with
    | [] => Some [slash]
    | _ :: _ => Some (collapse_emit raw out_cap comps [slash])
    end.

Definition vfs_path_normalize (in_ : ptr cstr) (out_cap : nat) : option cstr :=
  if out_cap =? 0 then None
  else
    let src := default [] in_ in
    let rest src :=
      let src := if is_char src 0 slash then drop 1 src else src in
      vfs_path_collapse (copy_bounded VFS_PATH_MAX [slash] src) out_cap in
    if is_char src 0 dot && is_char src 1 slash then rest (drop 2 src)
    else if is_char src 0 dot && is_nul src 1 then vfs_path_collapse [slash] out_cap
    else rest src.

(** [vfs_path_normalize(p, buf, sizeof(buf))] with a [char buf[VFS_PATH_MAX]]:
    the contents of the buffer afterwards. *)
Definition path_norm (p : cstr) : cstr :=
  default [] (vfs_path_normalize (Some p) VFS_PATH_MAX).

Definition vfs_path_is_root (path : ptr cstr) : bool :=
  match path with
  | None => false
  | Some path => vfs_path_is_root_norm (path_norm path)
  end.

(** [while (i > 1 && norm[i - 1] != '/') i--]. *)
Fixpoint back_to_slash (norm : cstr) (i : nat) : nat :=
  match i with
  | O => 0
  | S i' => if (1 <? i) && negb (is_char norm i' slash)
            then back_to_slash norm i' else i
  end.

Definition vfs_path_basename (path : ptr cstr) (out_cap : nat) : option cstr :=
  match path with
  | None => None
  | Some path =>
      if out_cap =? 0 then None
      else
        let norm := path_norm path in
        if vfs_path_is_root_norm norm then None
        else
          let start := back_to_slash norm (length norm) in
          let out := copy_bounded out_cap [] (drop start norm) in
          if length out =? 0 then None else Some out
  end.

Definition vfs_path_direct_child_name (parent full : ptr cstr) (name_cap : nat)
  : option cstr :=
  match parent, full with
  | Some parent, Some full =>
      if name_cap =? 0 then None
      else
        let parent_norm := path_norm parent in
        let full_norm := path_norm full in
        let parent_len := length parent_norm in
        if negb (bool_decide (take parent_len full_norm = parent_norm)) then None
        else if negb (is_nul full_norm parent_len)
             && negb (is_char full_norm parent_len slash) then None
        else
          let suffix := drop parent_len full_norm in
          if is_nul suffix 0 then None
          else
            let suffix := if is_char suffix 0 slash then drop 1 suffix else suffix in
            if is_nul suffix 0 then None
            else if existsb (fun c => bool_decide (c = slash)) suffix then None
            else if name_cap <=? length suffix + 1 then None
            else Some suffix
  | _, _ => None
  end.

Definition vfs_path_parent (path : ptr cstr) (out_cap : nat) : option cstr :=
  match path with
  | None => None
  | Some path =>
      if out_cap =? 0 then None
      else
        let norm := path_norm path in
        if vfs_path_is_root_norm norm then None
        else
          let i := back_to_slash norm (length norm) in
          if i <=? 1 then Some [slash]
          else if out_cap <=? i then None
          else Some (take i norm)
  end.

Fixpoint append_loop (scratch_cap : nat) (scratch suffix : cstr) : option cstr :=
  match suffix with
  | [] => Some scratch
  | c :: suffix' =>
      if scratch_cap <=? length scratch + 1 then None
      else append_loop scratch_cap (scratch ++ [c]) suffix'
  end.

Definition vfs_path_append_to_scratch (scratch : cstr) (scratch_cap : nat)
    (suffix : cstr) : option cstr :=
  let i := length scratch in
  if (0 <? i) && negb (is_char scratch (i - 1) slash) then
    if scratch_cap <=? i + 1 then None
    else append_loop scratch_cap (scratch ++ [slash]) suffix
  else append_loop scratch_cap scratch suffix.

Definition vfs_path_join (base rel : ptr cstr) (out_cap : nat) : option cstr :=
  match base, rel with
  | Some base, Some rel =>
      if out_cap =? 0 then None
      else if is_char rel 0 slash then vfs_path_normalize (Some rel) out_cap
      else
        let base_norm := path_norm base in
        let general r :=
          let scratch := copy_bounded VFS_PATH_MAX [] base_norm in
          let i := length scratch in
          if i =? 0 then None
          else
            let scratch := if negb (is_char scratch (i - 1) slash)
                              && (i + 1 <? VFS_PATH_MAX)
                           then scratch ++ [slash] else scratch in
            vfs_path_normalize (Some (copy_bounded VFS_PATH_MAX scratch r)) out_cap in
        if is_char rel 0 dot && is_char rel 1 slash then general (drop 2 rel)
        else if is_char rel 0 dot && is_nul rel 1 then
          Some (strncpy_term base_norm (out_cap - 1))
        else if is_char rel 0 dot && is_char rel 1 dot
                && (is_nul rel 2 || is_char rel 2 slash) then
          let scratch := match vfs_path_parent (Some base_norm) VFS_PATH_MAX with
                         | Some s => s
                         | None => strncpy_term base_norm (VFS_PATH_MAX - 1)
                         end in
          if is_char rel 2 slash then
            match vfs_path_append_to_scratch scratch VFS_PATH_MAX (drop 3 rel) with
            | None => None
            | Some scratch => vfs_path_normalize (Some scratch) out_cap
            end
          else vfs_path_normalize (Some scratch) out_cap
        else general rel
  | _, _ => None
  end.

Definition vfs_path_equal `{StrcmpS} (a b : ptr cstr) : bool :=
  match a, b with
  | Some a, Some b => (strcmp_s (path_norm a) (path_norm b) VFS_PATH_MAX =? 0)%Z
  | _, _ => false
  end.

Example norm_ex1 : path_norm (str "a/./b/../c//d/") = str "/a/c/d".
Proof. reflexivity. Qed.
Example norm_ex2 : path_norm (str "../..") = str "/".
Proof. reflexivity. Qed.
Example parent_ex : vfs_path_parent (Some (str "/a/b")) 256 = Some (str "/a/").
Proof. reflexivity. Qed.
Example join_ex : vfs_path_join (Some (str "/a/b")) (Some (str "../c")) 256
                  = Some (str "/a/c").
Proof. reflexivity. Qed.

(** ** Specification: a path as its list of components *)

(** The segments between separators. *)
Fixpoint split_path (s : cstr) : list cstr :=
  match s with
  | [] => [[]]
  | c :: s' =>
      if decide (c = slash) then [] :: split_path s'
      else match split_path s' with
           | seg :: rest => (c :: seg) :: rest
           | [] => [[c]]
           end
  end.

(** Joining components with separators, and the absolute path they name. *)
Fixpoint join_path (cs : list cstr) : cstr :=
  match cs with
  | [] => []
  | [c] => c
  | c :: cs' => c ++ slash :: join_path cs'
  end.

Definition render (cs : list cstr) : cstr := slash :: join_path cs.

(** Lexical resolution of one segment (POSIX: [.] stays, [..] goes up). *)
Definition lex_step (stk : list cstr) (c : cstr) : list cstr :=
  if decide (c = []) then stk
  else if decide (c = [dot]) then stk
  else if decide (c = [dot; dot]) then removelast stk
  else stk ++ [c].

Definition lex_resolve (s : cstr) : list cstr := foldl lex_step [] (split_path s).

(** The same with the limits of the implementation. *)
Definition path_step (stk : list cstr) (c : cstr) : list cstr :=
  if decide (VFS_PATH_MAX_COMPONENTS ≤ length stk) then stk
  else if decide (c = []) then stk
  else if decide (c = [dot]) then stk
  else if decide (c = [dot; dot]) then removelast stk
  else stk ++ [take (VFS_PATH_MAX_COMPONENT_LEN - 1) c].

(** What [vfs_path_normalize] skips at the start of its argument. *)
Definition strip_lead (p : cstr) : cstr :=
  let strip_slash s := if is_char s 0 slash then drop 1 s else s in
  if is_char p 0 dot && is_char p 1 slash then strip_slash (drop 2 p)
  else if is_char p 0 dot && is_nul p 1 then []
  else strip_slash p.

Definition path_comps (p : cstr) : list cstr :=
  foldl path_step [] (split_path (take (VFS_PATH_MAX - 2) (strip_lead p))).

Definition weight (cs : list cstr) : nat := sum_list ((λ c, S (length c)) <$> cs).

Definition good_comp (c : cstr) : Prop :=
  c ≠ [] ∧ (slash ∉ c) ∧ c ≠ [dot] ∧ c ≠ [dot; dot]
  ∧ length c < VFS_PATH_MAX_COMPONENT_LEN.

Record canonical (cs : list cstr) : Prop := {
  canonical_good : Forall good_comp cs;
  canonical_depth : length cs ≤ VFS_PATH_MAX_COMPONENTS;
  canonical_weight : weight cs < VFS_PATH_MAX;
}.

Arguments weight : simpl never.

(** Arithmetic over the limits of the implementation. *)
Ltac plia := unfold VFS_PATH_MAX, VFS_PATH_MAX_COMPONENTS,
  VFS_PATH_MAX_COMPONENT_LEN in *; lia.

(** ** Splitting and joining *)

Lemma split_path_ne s : split_path s ≠ [].
Proof.
  destruct s as [|c s]; simpl; [done|]. case_decide; [done|].
  by destruct (split_path s).
Qed.

Lemma split_path_app a b :
  split_path (a ++ slash :: b) = split_path a ++ split_path b.
Proof.
  induction a as [|c a IH]; simpl.
  - done.
  - case_decide; rewrite IH; [done|].
    destruct (split_path a) as [|seg rest] eqn:E; [|done].
    by apply split_path_ne in E.
Qed.

Lemma split_path_noslash c : slash ∉ c → split_path c = [c].
Proof.
  induction c as [|x c IH]; intros Hc; simpl; [done|].
  apply not_elem_of_cons in Hc as [Hx Hc].
  case_decide; [congruence|]. by rewrite IH.
Qed.

Lemma split_path_no_slash s : Forall (λ c, (slash ∉ c)) (split_path s).
Proof.
  induction s as [|c s IH]; simpl; [repeat constructor; by apply not_elem_of_nil|].
  case_decide; [constructor; [by apply not_elem_of_nil|done]|].
  destruct (split_path s) as [|seg rest] eqn:E; [by apply split_path_ne in E|].
  apply Forall_cons_1 in IH as [Hseg Hrest]. constructor; [|done].
  rewrite not_elem_of_cons. split; [congruence|done].
Qed.

Lemma split_join cs :
  cs ≠ [] → Forall (λ c, (slash ∉ c)) cs → split_path (join_path cs) = cs.
Proof.
  induction cs as [|c cs IH]; intros Hne Hcs; [done|].
  apply Forall_cons_1 in Hcs as [Hc Hcs]. destruct cs as [|c' cs].
  - by apply split_path_noslash.
  - change (join_path (c :: c' :: cs)) with (c ++ slash :: join_path (c' :: cs)).
    rewrite split_path_app, split_path_noslash by done. by rewrite IH.
Qed.

Lemma weight_cons c cs : weight (c :: cs) = S (length c + weight cs).
Proof. done. Qed.

Lemma weight_split s : weight (split_path s) = S (length s).
Proof.
  induction s as [|c s IH]; [done|]. simpl. case_decide.
  - rewrite weight_cons, IH. cbn [length]. lia.
  - destruct (split_path s) as [|seg rest] eqn:E; [by apply split_path_ne in E|].
    rewrite weight_cons in *. cbn [length]. lia.
Qed.

Lemma weight_app cs ds : weight (cs ++ ds) = weight cs + weight ds.
Proof.
  induction cs as [|c cs IH]; [done|].
  rewrite <- app_comm_cons, !weight_cons, IH. lia.
Qed.

Lemma length_join cs : cs ≠ [] → S (length (join_path cs)) = weight cs.
Proof.
  induction cs as [|c cs IH]; intros; [done|]. destruct cs as [|c' cs].
  - rewrite weight_cons. unfold weight. simpl. lia.
  - change (join_path (c :: c' :: cs)) with (c ++ slash :: join_path (c' :: cs)).
    rewrite length_app; cbn [length]. rewrite IH by done.
    rewrite (weight_cons c). lia.
Qed.

Lemma join_app cs ds :
  cs ≠ [] → ds ≠ [] → join_path (cs ++ ds) = join_path cs ++ slash :: join_path ds.
Proof.
  induction cs as [|c cs IH]; intros Hcs Hds; [done|].
  destruct cs as [|c' cs]; simpl.
  - by destruct ds.
  - simpl in IH. rewrite IH by done. by rewrite <- app_assoc.
Qed.

(** ** The scan and emission loops *)

Lemma clen_of_split src :
  split_path src = take (clen_of src) src ::
    (if is_char (drop (clen_of src) src) 0 slash
     then split_path (drop 1 (drop (clen_of src) src)) else []).
Proof.
  induction src as [|c src IH]; [done|]. simpl.
  case_decide as Hc; simpl.
  - subst. by rewrite drop_0.
  - rewrite IH. done.
Qed.

Lemma clen_of_le src : clen_of src ≤ length src.
Proof. induction src as [|c src IH]; simpl; [done|]. case_decide; lia. Qed.

Lemma clen_of_0 src : clen_of src = 0 → src = [] ∨ is_char src 0 slash = true.
Proof.
  destruct src as [|c src]; [by left|]. simpl. case_decide; [|done].
  intros _. right. subst. by apply bool_decide_eq_true.
Qed.

(** The bytes a recorded component stands for. *)
Definition comp_at (raw : cstr) (ol : Z * Z) : cstr :=
  take (Z.to_nat ol.2) (drop (Z.to_nat ol.1) raw).

Lemma path_step_full stk c :
  VFS_PATH_MAX_COMPONENTS ≤ length stk → path_step stk c = stk.
Proof. intros. unfold path_step. by rewrite decide_True. Qed.

Lemma foldl_path_step_full stk cs :
  VFS_PATH_MAX_COMPONENTS ≤ length stk → foldl path_step stk cs = stk.
Proof.
  intros. induction cs as [|c cs IH]; simpl; [done|]. by rewrite path_step_full.
Qed.

Lemma path_step_nil stk : path_step stk [] = stk.
Proof. unfold path_step. by repeat case_decide. Qed.

Lemma fmap_removelast {A B} (f : A → B) (l : list A) :
  f <$> removelast l = removelast (f <$> l).
Proof.
  induction l as [|x [|y l] IH]; [done|done|].
  change (f x :: (f <$> removelast (y :: l)) = f x :: removelast (f <$> (y :: l))).
  by rewrite IH.
Qed.

(** A component of [clen > 0] bytes is "." or ".." exactly when the C tests
    on [src] say so. *)
Lemma take_clen_dot src : is_char src 0 dot = true → take 1 src = [dot].
Proof.
  intros ?%bool_decide_eq_true. destruct src as [|c src]; simplify_eq/=. done.
Qed.

Lemma take_clen_dotdot src :
  is_char src 0 dot = true → is_char src 1 dot = true → take 2 src = [dot; dot].
Proof.
  intros ?%bool_decide_eq_true ?%bool_decide_eq_true.
  destruct src as [|c [|c' src]]; simplify_eq/=. done.
Qed.

Lemma collapse_component_spec raw off src comps :
  drop off raw = src → (Z.of_nat off < 2 ^ 16)%Z → src ≠ [] →
  length comps < VFS_PATH_MAX_COMPONENTS →
  comp_at raw <$> collapse_component off (clen_of src) src comps
  = path_step (comp_at raw <$> comps) (take (clen_of src) src).
Proof.
  intros Hraw Hoff Hne Hlen. set (n := clen_of src).
  assert (n ≤ length src) as Hn by apply clen_of_le.
  unfold path_step. rewrite decide_False by (rewrite length_fmap; lia).
  unfold collapse_component. destruct (Nat.ltb_spec 0 n); cycle 1.
  { rewrite decide_True; [done|]. by replace n with 0 by lia. }
  rewrite decide_False.
  2: { intros E%(f_equal length). rewrite length_take in E. simpl in E. lia. }
  destruct ((n =? 1) && is_char src 0 dot) eqn:E1.
  { apply andb_true_iff in E1 as [E1%Nat.eqb_eq Ha].
    rewrite E1, decide_True by (by apply take_clen_dot). done. }
  rewrite decide_False.
  2: { intros E. apply not_true_iff_false in E1. apply E1.
       assert (n = 1) as ->.
       { apply (f_equal length) in E. rewrite length_take in E. simpl in E. lia. }
       by destruct src as [|c src]; simplify_eq/=. }
  destruct ((n =? 2) && is_char src 0 dot && is_char src 1 dot) eqn:E2.
  { apply andb_true_iff in E2 as [[E2%Nat.eqb_eq Ha]%andb_true_iff Hb].
    rewrite E2, decide_True by (by apply take_clen_dotdot).
    destruct comps; [done|]. by rewrite <- fmap_removelast. }
  rewrite decide_False.
  2: { intros E. apply not_true_iff_false in E2. apply E2.
       assert (n = 2) as ->.
       { apply (f_equal length) in E. rewrite length_take in E. simpl in E. lia. }
       by destruct src as [|c [|c' src]]; simplify_eq/=. }
  rewrite fmap_app. f_equal. cbn [fmap list_fmap]. f_equal.
  unfold comp_at; cbn [fst snd]. rewrite (uw_small 16) by lia. rewrite Nat2Z.id, Hraw, take_take.
  f_equal. unfold VFS_PATH_MAX_COMPONENT_LEN in *.
  destruct (Nat.leb_spec 64 n); rewrite uw_small by lia; lia.
Qed.

Lemma is_nul_0 (src : cstr) : is_nul src 0 = true ↔ src = [].
Proof. unfold is_nul. rewrite bool_decide_eq_true. by destruct src. Qed.

Lemma is_char_0_cons s c : is_char s 0 c = true → s = c :: drop 1 s.
Proof.
  intros ?%bool_decide_eq_true. destruct s; simplify_eq/=. by rewrite drop_0.
Qed.

Lemma collapse_scan_spec raw fuel off src comps :
  (Z.of_nat (length raw) < 2 ^ 16)%Z → length src < fuel →
  drop off raw = src → off ≤ length raw →
  comp_at raw <$> collapse_scan fuel off src comps
  = foldl path_step (comp_at raw <$> comps) (split_path src).
Proof.
  intros Hr. revert off src comps.
  induction fuel as [|fuel IH]; intros off src comps Hfuel Hraw Hoff; [lia|].
  cbn [collapse_scan]. destruct (is_nul src 0) eqn:Hnul; cbn [orb].
  { apply is_nul_0 in Hnul as ->. cbn [split_path foldl]. by rewrite path_step_nil. }
  assert (src ≠ []) as Hne by (intros ?%is_nul_0; congruence).
  destruct (Nat.leb_spec VFS_PATH_MAX_COMPONENTS (length comps)).
  { rewrite foldl_path_step_full; [done|]. by rewrite length_fmap. }
  rewrite (clen_of_split src). cbn [foldl].
  rewrite <- (collapse_component_spec raw off src comps) by (done || lia).
  pose proof (clen_of_le src) as Hle.
  assert (length src = length raw - off) as Hlen by (rewrite <- Hraw; apply length_drop).
  destruct (is_char _ 0 slash) eqn:Hs.
  - assert (length (drop (clen_of src) src) ≠ 0) as Hd.
    { apply is_char_0_cons in Hs. rewrite Hs. done. }
    rewrite length_drop in Hd.
    apply IH.
    + rewrite !length_drop. lia.
    + rewrite <- Hraw, !drop_drop. f_equal. lia.
    + lia.
  - assert (clen_of src ≠ 0) as Hc.
    { intros E. destruct (clen_of_0 _ E) as [?|Hc]; [done|]. rewrite E, drop_0 in Hs.
      congruence. }
    rewrite IH; [|rewrite length_drop; lia|by rewrite <- Hraw, drop_drop|lia].
    assert (drop (clen_of src) src = []) as ->.
    { clear -Hs. induction src as [|c src IH]; [done|]. simpl in *.
      case_decide; simpl in *; [|by apply IH]. by subst. }
    cbn [split_path foldl]. by rewrite path_step_nil.
Qed.

Lemma collapse_emit_spec raw cap comps out :
  2 ≤ cap → length out < cap →
  collapse_emit raw cap comps out
  = take (cap - 1) (out ++ join_path (comp_at raw <$> comps)).
Proof.
  intros Hcap. revert out. induction comps as [|[o l] comps IH]; intros out Hout.
  - simpl. rewrite app_nil_r, take_ge by lia. done.
  - cbn [collapse_emit].
    change (take (Z.to_nat l) (drop (Z.to_nat o) raw)) with (comp_at raw (o, l)).
    set (c := comp_at raw (o, l)). rewrite copy_bounded_take.
    destruct comps as [|ol comps].
    + cbn [collapse_emit fmap list_fmap join_path].
      by rewrite take_app, (take_ge out) by lia.
    + rewrite IH; cycle 1.
      { destruct_if; rewrite !length_app, ?length_take; simpl.
        - apply Nat.ltb_lt in Heqb. rewrite length_app, length_take in Heqb. lia.
        - lia. }
      set (rest := comp_at raw <$> ol :: comps).
      change (comp_at raw <$> (o, l) :: ol :: comps) with (c :: rest).
      assert (join_path (c :: rest) = c ++ slash :: join_path rest) as -> by done.
      destruct (Nat.ltb_spec (length (out ++ take (cap - 1 - length out) c) + 1) cap) as [Hlt|Hge].
      * rewrite length_app, length_take in Hlt.
        rewrite (take_ge c) by lia. f_equal. by rewrite <- !app_assoc.
      * rewrite length_app, length_take in Hge.
        rewrite (app_assoc out c), (take_app_le (out ++ c)) by (rewrite length_app; lia).
        rewrite take_app_le by (rewrite length_app, length_take; lia).
        by rewrite !take_app, take_take, Nat.min_id.
Qed.

(** ** Normalisation in terms of components *)

Lemma render_length cs : length (render cs) = Nat.max 1 (weight cs).
Proof.
  destruct cs as [|c cs]; [done|]. unfold render. cbn [length].
  rewrite length_join by done. rewrite weight_cons. lia.
Qed.

Lemma collapse_render src cap :
  2 ≤ cap → (Z.of_nat (length src) < 2 ^ 16 - 1)%Z →
  vfs_path_collapse (slash :: src) cap
  = Some (take (cap - 1) (render (foldl path_step [] (split_path src)))).
Proof.
  intros Hcap Hlen. unfold vfs_path_collapse.
  destruct (Nat.eqb_spec cap 0) as [|_]; [lia|].
  replace (is_char (slash :: src) 0 slash) with true by done.
  cbn [drop]. rewrite drop_0. set (comps := collapse_scan _ _ _ _).
  assert (comp_at (slash :: src) <$> comps = foldl path_step [] (split_path src)) as <-.
  { apply (collapse_scan_spec (slash :: src) _ 1 src []); cbn [length drop]; try lia.
    apply drop_0. }
  destruct comps as [|ol comps].
  - by rewrite take_ge by (cbn; lia).
  - rewrite collapse_emit_spec by (cbn [length]; lia). done.
Qed.

Lemma normalize_take p cap :
  2 ≤ cap → vfs_path_normalize (Some p) cap
            = Some (take (cap - 1) (render (path_comps p))).
Proof.
  intros Hcap. unfold vfs_path_normalize, path_comps, strip_lead. cbn [default id].
  change (id p) with p.
  destruct (Nat.eqb_spec cap 0) as [|_]; [lia|].
  assert (∀ s, vfs_path_collapse (copy_bounded VFS_PATH_MAX [slash] s) cap
    = Some (take (cap - 1)
        (render (foldl path_step [] (split_path (take (VFS_PATH_MAX - 2) s)))))) as Hc.
  { intros s. rewrite copy_bounded_take. apply collapse_render; [done|].
    rewrite length_take. plia. }
  destruct (is_char p 0 dot && is_char p 1 slash); [apply Hc|].
  destruct (is_char p 0 dot && is_nul p 1); [|apply Hc].
  rewrite collapse_render by (cbn; lia). by rewrite take_nil.
Qed.

Lemma weight_step stk c : weight (path_step stk c) ≤ weight stk + S (length c).
Proof.
  unfold path_step. repeat case_decide; try lia.
  - clear. induction stk as [|x [|y stk] IH]; [cbn; lia|rewrite weight_cons; cbn; lia|].
    change (removelast (x :: y :: stk)) with (x :: removelast (y :: stk)).
    rewrite !(weight_cons x). lia.
  - rewrite weight_app, weight_cons, length_take. change (weight []) with 0. lia.
Qed.

Lemma weight_fold stk cs :
  weight (foldl path_step stk cs) ≤ weight stk + weight cs.
Proof.
  revert stk. induction cs as [|c cs IH]; intros stk; cbn [foldl]; [lia|].
  etrans; [apply IH|]. rewrite weight_cons. pose proof (weight_step stk c). lia.
Qed.

Lemma path_step_canon stk c :
  slash ∉ c →
  Forall good_comp stk ∧ length stk ≤ VFS_PATH_MAX_COMPONENTS →
  Forall good_comp (path_step stk c)
  ∧ length (path_step stk c) ≤ VFS_PATH_MAX_COMPONENTS.
Proof.
  intros Hc [Hg Hl]. unfold path_step. repeat case_decide; try done.
  - clear -Hg Hl. assert (∀ l : list cstr, removelast l = take (length l - 1) l) as ->.
    { intros l. induction l as [|x [|y l] IH]; [done|done|].
      change (removelast (x :: y :: l)) with (x :: removelast (y :: l)).
      rewrite IH. cbn [length]. by rewrite Nat.sub_succ, !Nat.sub_0_r. }
    split; [by apply Forall_take|rewrite length_take; lia].
  - rewrite length_app; cbn [length]. split; [|lia].
    apply Forall_app_2; [done|]. constructor; [|done].
    assert (∀ x : cstr, x ≠ c → length x < 63 → take (VFS_PATH_MAX_COMPONENT_LEN - 1) c ≠ x) as Ht.
    { intros x Hx Hlx E. destruct (decide (length c ≤ 63)).
      - rewrite take_ge in E by done. congruence.
      - apply (f_equal length) in E. rewrite length_take in E.
        unfold VFS_PATH_MAX_COMPONENT_LEN in E. lia. }
    unfold good_comp. repeat split; try (apply Ht; [congruence|cbn; lia]).
    + intros Hin. apply Hc. eapply elem_of_submseteq; [exact Hin|].
      apply sublist_submseteq, sublist_take.
    + rewrite length_take. plia.
Qed.

Lemma foldl_path_canon cs stk :
  Forall (λ c, (slash ∉ c)) cs →
  Forall good_comp stk ∧ length stk ≤ VFS_PATH_MAX_COMPONENTS →
  Forall good_comp (foldl path_step stk cs)
  ∧ length (foldl path_step stk cs) ≤ VFS_PATH_MAX_COMPONENTS.
Proof.
  revert stk. induction cs as [|c cs IH]; intros stk Hcs Hstk; [done|].
  apply Forall_cons_1 in Hcs as [Hc Hcs]. by apply IH, path_step_canon.
Qed.

Lemma path_comps_canonical p : canonical (path_comps p).
Proof.
  unfold path_comps. set (s := take _ _).
  assert (length s ≤ 254) as Hs by (unfold s, VFS_PATH_MAX; rewrite length_take; lia).
  destruct (foldl_path_canon (split_path s) []) as [Hg Hl].
  { apply split_path_no_slash. }
  { split; [constructor|cbn; lia]. }
  split; [done|done|]. pose proof (weight_fold [] (split_path s)) as Hw.
  rewrite weight_split in Hw. change (weight []) with 0 in Hw.
  plia.
Qed.

Lemma render_short cs : canonical cs → length (render cs) < VFS_PATH_MAX.
Proof.
  intros [_ _ Hw]. rewrite render_length. plia.
Qed.

Lemma path_norm_render p : path_norm p = render (path_comps p).
Proof.
  unfold path_norm. rewrite normalize_take by (cbv; lia).
  cbn [default]. rewrite take_ge; [done|].
  pose proof (render_short _ (path_comps_canonical p)). lia.
Qed.

Lemma normalize_wide p cap :
  VFS_PATH_MAX ≤ cap → vfs_path_normalize (Some p) cap = Some (path_norm p).
Proof.
  intros Hcap. rewrite path_norm_render, normalize_take by (plia).
  rewrite take_ge; [done|].
  pose proof (render_short _ (path_comps_canonical p)). lia.
Qed.

Lemma good_comp_step stk c :
  good_comp c → length stk < VFS_PATH_MAX_COMPONENTS → path_step stk c = stk ++ [c].
Proof.
  intros (? & ? & ? & ? & Hl) ?. unfold path_step.
  rewrite !decide_False by (done || lia). rewrite take_ge; [done|].
  plia.
Qed.

Lemma foldl_good stk cs :
  Forall good_comp cs → length stk + length cs ≤ VFS_PATH_MAX_COMPONENTS →
  foldl path_step stk cs = stk ++ cs.
Proof.
  revert stk. induction cs as [|c cs IH]; intros stk Hcs Hl; cbn [foldl].
  - by rewrite app_nil_r.
  - apply Forall_cons_1 in Hcs as [Hc Hcs]. cbn [length] in Hl.
    rewrite good_comp_step by (done || lia).
    rewrite IH by (done || (rewrite length_app; cbn [length]; lia)).
    by rewrite <- app_assoc.
Qed.

Lemma good_no_slash cs : Forall good_comp cs → Forall (λ c, (slash ∉ c)) cs.
Proof. apply Forall_impl. by intros c (? & ? & ?). Qed.

Lemma strip_lead_render cs : strip_lead (render cs) = join_path cs.
Proof. unfold strip_lead, render. cbn. by rewrite drop_0. Qed.

Lemma path_comps_render cs : canonical cs → path_comps (render cs) = cs.
Proof.
  intros [Hg Hl Hw]. unfold path_comps. rewrite strip_lead_render.
  destruct (decide (cs = [])) as [->|Hne]; [done|].
  rewrite take_ge.
  2: { pose proof (length_join cs Hne). plia. }
  rewrite split_join by (done || by apply good_no_slash).
  by rewrite foldl_good.
Qed.

Lemma path_comps_norm p : path_comps (path_norm p) = path_comps p.
Proof. rewrite path_norm_render. apply path_comps_render, path_comps_canonical. Qed.

Lemma path_norm_norm p : path_norm (path_norm p) = path_norm p.
Proof. by rewrite (path_norm_render (path_norm p)), path_comps_norm, <- path_norm_render. Qed.

Lemma path_norm_inj p q : path_norm p = path_norm q ↔ path_comps p = path_comps q.
Proof.
  split; [|intros E; by rewrite !path_norm_render, E].
  intros E. by rewrite <- (path_comps_norm p), E, path_comps_norm.
Qed.

Lemma vfs_path_equal_comps `{StrcmpSLaws} p q :
  vfs_path_equal (Some p) (Some q) = true ↔ path_comps p = path_comps q.
Proof.
  unfold vfs_path_equal. rewrite Z.eqb_eq, strcmp_s_0, <- path_norm_inj.
  rewrite !path_norm_render.
  pose proof (render_short _ (path_comps_canonical p)).
  pose proof (render_short _ (path_comps_canonical q)).
  by rewrite !take_ge by lia.
Qed.

Lemma is_root_norm_comps p :
  vfs_path_is_root_norm (path_norm p) = true ↔ path_comps p = [].
Proof.
  rewrite path_norm_render. unfold vfs_path_is_root_norm, render.
  pose proof (path_comps_canonical p) as [Hg _ _].
  destruct (path_comps p) as [|c cs]; [done|].
  split; [|done]. intros [_ Hn]%andb_true_iff.
  apply bool_decide_eq_true in Hn. cbn in Hn.
  apply Forall_cons_1 in Hg as [(Hc & _) _].
  destruct c, cs; done.
Qed.

(** ** Parent, base name and direct children *)

Lemma back_to_slash_app pre c k :
  slash ∉ c → k ≤ length c →
  back_to_slash (pre ++ slash :: c) (S (length pre) + k) = S (length pre).
Proof.
  intros Hc. induction k as [|k IH]; intros Hk.
  - rewrite Nat.add_0_r. cbn [back_to_slash].
    assert (is_char (pre ++ slash :: c) (length pre) slash = true) as ->.
    { apply bool_decide_eq_true. rewrite lookup_app_r by lia. by rewrite Nat.sub_diag. }
    by rewrite andb_false_r.
  - replace (S (length pre) + S k) with (S (S (length pre) + k)) by lia.
    cbn [back_to_slash].
    assert (is_char (pre ++ slash :: c) (S (length pre) + k) slash = false) as ->.
    { apply bool_decide_eq_false. intros E. rewrite lookup_app_r in E by lia.
      replace (S (length pre) + k - length pre) with (S k) in E by lia.
      apply Hc. cbn in E. by eapply list_elem_of_lookup_2. }
    cbn [negb andb Nat.ltb Nat.leb]. apply IH. lia.
Qed.

Lemma render_snoc cs c :
  render (cs ++ [c]) = (if decide (cs = []) then [] else render cs) ++ slash :: c.
Proof.
  case_decide as E; [by subst|]. unfold render. by rewrite join_app.
Qed.

Lemma path_comps_snoc_back p cs c :
  path_comps p = cs ++ [c] →
  vfs_path_is_root_norm (path_norm p) = false
  ∧ back_to_slash (path_norm p) (length (path_norm p))
    = S (length (if decide (cs = []) then [] else render cs))
  ∧ path_norm p = (if decide (cs = []) then [] else render cs) ++ slash :: c.
Proof.
  intros E. pose proof (path_comps_canonical p) as [Hg _ _]. rewrite E in Hg.
  apply Forall_app in Hg as [_ [(Hne & Hc & _) _]%Forall_cons_1].
  repeat split.
  - apply not_true_iff_false. rewrite is_root_norm_comps, E. by destruct cs.
  - rewrite path_norm_render, E, render_snoc. set (pre := if decide _ then _ else _).
    rewrite length_app. cbn [length].
    replace (length pre + S (length c)) with (S (length pre) + length c) by lia.
    by apply back_to_slash_app.
  - by rewrite path_norm_render, E, render_snoc.
Qed.

(** The directory [cs] written with a trailing separator. *)
Definition dir_prefix (cs : list cstr) : cstr :=
  if decide (cs = []) then [slash] else render cs ++ [slash].

Lemma removelast_snoc {A} (l : list A) x : removelast (l ++ [x]) = l.
Proof. by rewrite removelast_last. Qed.

Lemma canonical_app_l cs ds : canonical (cs ++ ds) → canonical cs.
Proof.
  intros [Hg Hl Hw]. rewrite length_app in Hl. rewrite weight_app in Hw.
  apply Forall_app in Hg as [Hg _]. split; [done|lia|lia].
Qed.

Lemma dir_prefix_length cs : length (dir_prefix cs) = S (weight cs).
Proof.
  unfold dir_prefix. case_decide as E; [by subst|].
  rewrite length_app, render_length. destruct cs; [done|].
  rewrite weight_cons. cbn [length]. lia.
Qed.

Lemma path_comps_dir_prefix cs r :
  canonical cs → length (dir_prefix cs ++ r) < VFS_PATH_MAX →
  path_comps (dir_prefix cs ++ r) = foldl path_step cs (split_path r).
Proof.
  intros [Hg Hl _] Hlen. unfold path_comps.
  rewrite length_app, dir_prefix_length in Hlen.
  assert (strip_lead (dir_prefix cs ++ r)
          = if decide (cs = []) then r else join_path cs ++ slash :: r) as ->.
  { unfold dir_prefix, strip_lead. case_decide; cbn.
    - by rewrite drop_0.
    - by rewrite drop_0, <- app_assoc. }
  rewrite take_ge.
  2: { case_decide as E; [subst; plia|].
       rewrite length_app. cbn [length]. pose proof (length_join cs E).
       plia. }
  case_decide as E; [by subst|].
  rewrite split_path_app, foldl_app, split_join by (done || by apply good_no_slash).
  by rewrite (foldl_good [] cs).
Qed.

Lemma vfs_path_parent_comps p cs c cap :
  VFS_PATH_MAX ≤ cap → path_comps p = cs ++ [c] →
  vfs_path_parent (Some p) cap = Some (dir_prefix cs).
Proof.
  intros Hcap E. destruct (path_comps_snoc_back p cs c E) as (Hr & Hb & Hn).
  unfold vfs_path_parent. destruct (Nat.eqb_spec cap 0); [plia|].
  rewrite Hr, Hb. unfold dir_prefix. case_decide as Ec; [done|].
  destruct (Nat.leb_spec (S (length (render cs))) 1) as [Hle|_]; [cbn in Hle; destruct (join_path cs) eqn:Ej|].
  - pose proof (length_join cs Ec) as Hj. rewrite Ej in Hj. cbn in Hj.
    destruct cs as [|x cs]; [done|]. rewrite weight_cons in Hj.
    pose proof (path_comps_canonical p) as [Hg _ _]. rewrite E in Hg.
    apply Forall_cons_1 in Hg as [(Hx & _) _]. destruct x; cbn in *; [done|lia].
  - cbn in Hle. lia.
  - pose proof (render_short _ (path_comps_canonical p)) as Hs.
    rewrite <- path_norm_render, Hn, length_app in Hs. cbn [length] in Hs.
    destruct (Nat.leb_spec cap (S (length (render cs)))); [lia|].
    rewrite Hn. f_equal. replace (S (length (render cs))) with (length (render cs) + 1) by lia.
    by rewrite take_app_add.
Qed.

Lemma vfs_path_parent_root p cap : path_comps p = [] → vfs_path_parent (Some p) cap = None.
Proof.
  intros E%is_root_norm_comps. unfold vfs_path_parent. rewrite E. by destruct (cap =? 0).
Qed.

Lemma vfs_path_basename_comps p cs c cap :
  2 ≤ cap → path_comps p = cs ++ [c] →
  vfs_path_basename (Some p) cap = Some (take (cap - 1) c).
Proof.
  intros Hcap E. destruct (path_comps_snoc_back p cs c E) as (Hr & Hb & Hn).
  unfold vfs_path_basename. destruct (Nat.eqb_spec cap 0); [lia|].
  rewrite Hr, Hb. set (pre := if decide _ then _ else _) in *.
  rewrite Hn, drop_app_ge by lia.
  replace (S (length pre) - length pre) with 1 by lia. cbn [drop].
  rewrite drop_0, copy_bounded_take. cbn [length app]. rewrite Nat.sub_0_r.
  pose proof (path_comps_canonical p) as [Hg _ _]. rewrite E in Hg.
  apply Forall_app in Hg as [_ [(Hx & _) _]%Forall_cons_1].
  destruct (Nat.eqb_spec (length (take (cap - 1) c)) 0) as [E0|]; [|done].
  rewrite length_take in E0. destruct c; [done|]. cbn in E0. lia.
Qed.

Lemma join_path_hd cs s : Forall good_comp cs → join_path cs ≠ slash :: s.
Proof.
  intros Hg E. destruct cs as [|c cs]; [done|].
  apply Forall_cons_1 in Hg as [(Hne & Hs & _) _].
  destruct c as [|x c]; [done|]. apply not_elem_of_cons in Hs as [Hx _].
  destruct cs; cbn in E; congruence.
Qed.

Lemma existsb_slash s :
  existsb (λ c, bool_decide (c = slash)) s = false ↔ slash ∉ s.
Proof.
  induction s as [|c s IH]; cbn; [split; [intros _; apply not_elem_of_nil|done]|].
  rewrite orb_false_iff, bool_decide_eq_false, not_elem_of_cons, IH.
  by split; intros [? ?]; split; [congruence|..].
Qed.

(** A path below another one extends its rendering after a separator. *)
Lemma render_below ps fs s :
  canonical ps → canonical fs → render fs = render ps ++ slash :: s →
  ps ≠ [] ∧ fs = ps ++ split_path s.
Proof.
  intros [Hp _ _] [Hf _ _] [= E].
  destruct (decide (ps = [])) as [->|Hne].
  { by apply join_path_hd in E. }
  split; [done|]. rewrite <- (split_join fs).
  - by rewrite E, split_path_app, split_join by (done || by apply good_no_slash).
  - intros ->. cbn in E. by destruct (join_path ps).
  - by apply good_no_slash.
Qed.

Lemma direct_child_comps parent full cap n :
  vfs_path_direct_child_name (Some parent) (Some full) cap = Some n ↔
  path_comps parent ≠ [] ∧ path_comps full = path_comps parent ++ [n]
  ∧ length n + 1 < cap.
Proof.
  unfold vfs_path_direct_child_name. rewrite !path_norm_render.
  pose proof (path_comps_canonical parent) as Hp.
  pose proof (path_comps_canonical full) as Hf.
  set (ps := path_comps parent) in *. set (fs := path_comps full) in *.
  split.
  - destruct (Nat.eqb_spec cap 0); [done|].
    destruct (bool_decide (take (length (render ps)) (render fs) = render ps)) eqn:Et;
      cbn [negb]; [|done].
    apply bool_decide_eq_true in Et.
    pose proof (take_drop (length (render ps)) (render fs)) as Etd. rewrite Et in Etd.
    set (suf := drop (length (render ps)) (render fs)) in *.
    assert (render fs !! length (render ps) = suf !! 0) as El.
    { unfold suf. by rewrite lookup_drop, Nat.add_0_r. }
    unfold is_nul at 1, is_char at 1. rewrite El.
    fold (is_nul suf 0). fold (is_char suf 0 slash).
    destruct (is_nul suf 0) eqn:En; [done|]. cbn [negb andb].
    destruct (is_char suf 0 slash) eqn:Es; cbn [negb]; [|done].
    apply is_char_0_cons in Es. rewrite Es in Etd.
    destruct (render_below ps fs (drop 1 suf) Hp Hf) as [Hne Efs]; [done|].
    destruct (is_nul (drop 1 suf) 0) eqn:En1; [done|].
    destruct (existsb _ _) eqn:Ex; [done|]. apply existsb_slash in Ex.
    destruct (Nat.leb_spec cap (length (drop 1 suf) + 1)); [done|].
    intros [= <-]. rewrite split_path_noslash in Efs by done. by rewrite Efs.
  - intros (Hne & Efs & Hc).
    destruct (Nat.eqb_spec cap 0); [lia|].
    assert (render fs = render ps ++ slash :: n) as Er.
    { rewrite Efs, render_snoc. by rewrite decide_False. }
    destruct Hf as [Hg _ _]. rewrite Efs in Hg.
    apply Forall_app in Hg as [_ [(Hn & Hns & _) _]%Forall_cons_1].
    rewrite Er, take_app_length, bool_decide_true by done. cbn [negb].
    rewrite drop_app_length.
    assert (is_char (render ps ++ slash :: n) (length (render ps)) slash = true) as ->.
    { apply bool_decide_eq_true. rewrite lookup_app_r by lia. by rewrite Nat.sub_diag. }
    rewrite andb_false_r. replace (is_nul (slash :: n) 0) with false by done.
    replace (is_char (slash :: n) 0 slash) with true by done. cbn [drop]. rewrite drop_0.
    destruct (is_nul n 0) eqn:E0; [by apply is_nul_0 in E0|].
    rewrite (proj2 (existsb_slash n)) by done.
    by destruct (Nat.leb_spec cap (length n + 1)); [lia|].
Qed.

(** ** Joining a relative path *)

Lemma foldl_path_lex stk cs :
  length stk + length cs ≤ VFS_PATH_MAX_COMPONENTS →
  Forall (λ c, length c < VFS_PATH_MAX_COMPONENT_LEN) cs →
  foldl path_step stk cs = foldl lex_step stk cs.
Proof.
  revert stk. induction cs as [|c cs IH]; intros stk Hl Hcs; [done|].
  apply Forall_cons_1 in Hcs as [Hc Hcs]. cbn [foldl length] in *.
  assert (path_step stk c = lex_step stk c) as ->.
  { unfold path_step, lex_step. rewrite decide_False by lia.
    repeat case_decide; try done. rewrite take_ge; [done|].
    plia. }
  apply IH; [|done]. unfold lex_step. repeat case_decide; try lia.
  - destruct stk as [|x stk] using rev_ind; [cbn; lia|].
    rewrite removelast_snoc. rewrite length_app in Hl. cbn in Hl. lia.
  - rewrite length_app. cbn. lia.
Qed.

Lemma dir_prefix_scratch cs :
  canonical cs → length (dir_prefix cs) < VFS_PATH_MAX →
  (if negb (is_char (render cs) (length (render cs) - 1) slash)
      && (length (render cs) + 1 <? VFS_PATH_MAX)
   then render cs ++ [slash] else render cs) = dir_prefix cs.
Proof.
  intros [Hg _ _] Hl. unfold dir_prefix in *.
  destruct cs as [|c cs] using rev_ind; [done|]. clear IHcs.
  rewrite decide_False in * by (by destruct cs).
  rewrite length_app in Hl. cbn [length] in Hl.
  destruct (Nat.ltb_spec (length (render (cs ++ [c])) + 1) VFS_PATH_MAX); [|lia].
  rewrite andb_true_r.
  apply Forall_app in Hg as [_ [(Hne & Hs & _) _]%Forall_cons_1].
  destruct (is_char _ _ slash) eqn:E; [exfalso|done].
  apply bool_decide_eq_true in E. rewrite render_snoc, length_app in E.
  set (pre := if decide _ then _ else _) in *. cbn [length] in E.
  rewrite lookup_app_r in E by (destruct c; cbn in *; [done|lia]).
  replace (length pre + S (length c) - 1 - length pre) with (length c) in E by lia.
  destruct c as [|x c]; [done|]. apply Hs. cbn [length] in E.
  change ((slash :: x :: c) !! S (length c)) with ((x :: c) !! length c) in E.
  by eapply list_elem_of_lookup_2.
Qed.

(** The scratch buffer of the general case holds the base directory, a
    separator and the rest. *)
Lemma join_scratch base r cap :
  VFS_PATH_MAX ≤ cap → length (path_norm base) + length r < VFS_PATH_MAX - 1 →
  vfs_path_normalize (Some (copy_bounded VFS_PATH_MAX (dir_prefix (path_comps base)) r)) cap
  = Some (render (foldl path_step (path_comps base) (split_path r))).
Proof.
  intros Hcap Hl. rewrite path_norm_render, render_length in Hl.
  assert (length (dir_prefix (path_comps base) ++ r) < VFS_PATH_MAX).
  { rewrite length_app, dir_prefix_length. plia. }
  rewrite copy_bounded_all by (rewrite length_app in *; lia).
  rewrite normalize_wide, path_norm_render by done.
  rewrite path_comps_dir_prefix; auto using path_comps_canonical.
Qed.

Lemma append_loop_all cap s r :
  length s + length r < cap → append_loop cap s r = Some (s ++ r).
Proof.
  revert s. induction r as [|c r IH]; intros s Hl; cbn [append_loop].
  - by rewrite app_nil_r.
  - cbn [length] in Hl. destruct (Nat.leb_spec cap (length s + 1)); [lia|].
    rewrite IH by (rewrite length_app; cbn [length]; lia). by rewrite <- app_assoc.
Qed.

Lemma append_to_dir_prefix cs cap r :
  length (dir_prefix cs) + length r < cap →
  vfs_path_append_to_scratch (dir_prefix cs) cap r = Some (dir_prefix cs ++ r).
Proof.
  intros Hl. unfold vfs_path_append_to_scratch.
  assert (is_char (dir_prefix cs) (length (dir_prefix cs) - 1) slash = true) as ->.
  { unfold dir_prefix. case_decide; [done|]. apply bool_decide_eq_true.
    rewrite length_app. cbn [length]. rewrite lookup_app_r by lia.
    by replace (length (render cs) + 1 - 1 - length (render cs)) with 0 by lia. }
  cbn [negb]. rewrite andb_false_r. by apply append_loop_all.
Qed.

(** The scratch buffer of the ".." case holds the parent directory. *)
Lemma join_parent_scratch base :
  match vfs_path_parent (Some (path_norm base)) VFS_PATH_MAX with
  | Some s => s
  | None => strncpy_term (path_norm base) (VFS_PATH_MAX - 1)
  end = dir_prefix (removelast (path_comps base)).
Proof.
  destruct (path_comps base) as [|c cs _] eqn:E using rev_ind.
  - rewrite vfs_path_parent_root by (by rewrite path_comps_norm).
    by rewrite path_norm_render, E.
  - rewrite (vfs_path_parent_comps _ cs c) by (by rewrite ?path_comps_norm).
    by rewrite removelast_snoc.
Qed.

Lemma canonical_removelast cs : canonical cs → canonical (removelast cs).
Proof.
  destruct cs as [|c cs _] using rev_ind; [done|].
  rewrite removelast_snoc. apply canonical_app_l.
Qed.

Lemma weight_removelast cs : weight (removelast cs) ≤ weight cs.
Proof.
  destruct cs as [|c cs _] using rev_ind; [done|].
  rewrite removelast_snoc, weight_app. lia.
Qed.

Lemma join_general base r cap :
  VFS_PATH_MAX ≤ cap → length (path_norm base) + length r < VFS_PATH_MAX - 1 →
  (let scratch := copy_bounded VFS_PATH_MAX [] (path_norm base) in
   let i := length scratch in
   if i =? 0 then None
   else
     let scratch := if negb (is_char scratch (i - 1) slash)
                       && (i + 1 <? VFS_PATH_MAX)
                    then scratch ++ [slash] else scratch in
     vfs_path_normalize (Some (copy_bounded VFS_PATH_MAX scratch r)) cap)
  = Some (render (foldl path_step (path_comps base) (split_path r))).
Proof.
  intros Hcap Hl.
  assert (copy_bounded VFS_PATH_MAX [] (path_norm base) = path_norm base) as ->.
  { apply copy_bounded_all. cbn [length]. plia. }
  cbv zeta. rewrite <- (join_scratch base r cap) by done.
  rewrite path_norm_render in *.
  destruct (Nat.eqb_spec (length (render (path_comps base))) 0); [done|].
  rewrite dir_prefix_scratch; [done|apply path_comps_canonical|].
  rewrite render_length in Hl. rewrite dir_prefix_length.
  plia.
Qed.

Lemma join_comps base rel cap :
  VFS_PATH_MAX ≤ cap → is_char rel 0 slash = false →
  length (path_norm base) + length rel < VFS_PATH_MAX - 1 →
  length (path_comps base) + length (split_path rel) ≤ VFS_PATH_MAX_COMPONENTS →
  Forall (λ c, length c < VFS_PATH_MAX_COMPONENT_LEN) (split_path rel) →
  vfs_path_join (Some base) (Some rel) cap
  = Some (render (foldl lex_step (path_comps base) (split_path rel))).
Proof.
  intros Hcap Habs Hl Hd Hc. unfold vfs_path_join.
  destruct (Nat.eqb_spec cap 0); [plia|]. rewrite Habs.
  destruct (is_char rel 0 dot && is_char rel 1 slash) eqn:E1.
  { apply andb_true_iff in E1 as [E1%bool_decide_eq_true E2%bool_decide_eq_true].
    destruct rel as [|x [|y r]]; simplify_eq/=.
    apply Forall_cons_1 in Hc as [_ Hc]. rewrite drop_0, join_general by (done || plia).
    by rewrite foldl_path_lex by (done || plia). }
  destruct (is_char rel 0 dot && is_nul rel 1) eqn:E2.
  { apply andb_true_iff in E2 as [E2%bool_decide_eq_true E3%bool_decide_eq_true].
    destruct rel as [|x [|y r]]; simplify_eq/=.
    unfold strncpy_term. rewrite take_ge by (plia).
    by rewrite path_norm_render. }
  destruct (_ && _ && _) eqn:E3.
  2: { rewrite <- foldl_path_lex by done. by apply join_general. }
  apply andb_true_iff in E3 as [[Ea%bool_decide_eq_true Eb%bool_decide_eq_true]%andb_true_iff E3].
  rewrite join_parent_scratch.
  set (cs := removelast (path_comps base)).
  assert (length (dir_prefix cs) + (length rel - 3) < VFS_PATH_MAX) as Hs.
  { rewrite dir_prefix_length. pose proof (weight_removelast (path_comps base)).
    rewrite path_norm_render, render_length in Hl. unfold cs in *. plia. }
  assert (canonical cs) as Hcs by apply canonical_removelast, path_comps_canonical.
  destruct rel as [|x [|y [|z r]]]; simplify_eq/=.
  - rewrite normalize_wide, path_norm_render by done.
    rewrite <- (app_nil_r (dir_prefix cs)), path_comps_dir_prefix
      by (done || (rewrite app_nil_r; plia)).
    cbn [split_path foldl]. by rewrite path_step_nil.
  - destruct (is_char _ 2 slash) eqn:Ez; [|done].
    apply bool_decide_eq_true in Ez. simplify_eq/=.
    apply Forall_cons_1 in Hc as [_ Hc]. rewrite drop_0.
    rewrite append_to_dir_prefix by plia.
    rewrite normalize_wide, path_norm_render, path_comps_dir_prefix; [|done|rewrite length_app; plia|done].
    assert (length cs ≤ length (path_comps base)).
    { unfold cs. destruct (path_comps base) as [|c' l _] using rev_ind; [done|].
      rewrite removelast_snoc, length_app. lia. }
    by rewrite foldl_path_lex by (done || plia).
Qed.

Lemma comps_last_good p ds n : path_comps p = ds ++ [n] → good_comp n.
Proof.
  intros E. pose proof (canonical_good _ (path_comps_canonical p)) as Hg. rewrite E in Hg.
  by apply Forall_app in Hg as [_ [? _]%Forall_cons_1].
Qed.

(** The path of a child of a normalised directory. *)
Lemma join_child p n q : path_comps q = path_comps p ++ [n] →
  vfs_path_join (Some (path_norm p)) (Some n) VFS_PATH_MAX = Some (render (path_comps p ++ [n])).
Proof.
  intros E. pose proof (path_comps_canonical q) as Hc. rewrite E in Hc.
  destruct (comps_last_good _ _ _ E) as (Hne & Hns & Hd & Hdd & Hl).
  pose proof Hc as [_ Hdep Hw]. rewrite length_app in Hdep. rewrite weight_app, weight_cons in Hw.
  cbn [length] in Hdep. rewrite join_comps; rewrite ?path_comps_norm, ?split_path_noslash by done.
  - cbn [foldl]. unfold lex_step. by rewrite !decide_False by done.
  - done.
  - apply bool_decide_eq_false. destruct n as [|x n]; [done|]. cbn. intros [= ->].
    apply Hns. constructor.
  - rewrite path_norm_norm, path_norm_render, render_length.
    assert (1 ≤ length n)%nat by (destruct n; cbn; [done|lia]).
    unfold VFS_PATH_MAX_COMPONENT_LEN, VFS_PATH_MAX in *. lia.
  - cbn [length]. lia.
  - by constructor.
Qed.

Lemma dir_prefix_comps p cs c : path_comps p = cs ++ [c] → path_comps (dir_prefix cs) = cs.
Proof.
  intros E. pose proof (path_comps_canonical p) as Hc. rewrite E in Hc.
  pose proof (canonical_weight _ Hc) as Hw. rewrite weight_app, weight_cons in Hw.
  rewrite <- (app_nil_r (dir_prefix cs)), path_comps_dir_prefix.
  - cbn [split_path foldl]. apply path_step_nil.
  - by apply canonical_app_l in Hc.
  - rewrite app_nil_r, dir_prefix_length. plia.
Qed.

(** The joined path is already normalised. *)
Lemma join_normal base rel :
  length (path_norm base) + length rel < VFS_PATH_MAX - 1 →
  length (path_comps base) + length (split_path rel) ≤ VFS_PATH_MAX_COMPONENTS →
  Forall (λ c, length c < VFS_PATH_MAX_COMPONENT_LEN) (split_path rel) →
  path_norm (render (foldl lex_step (path_comps base) (split_path rel)))
  = render (foldl lex_step (path_comps base) (split_path rel)).
Proof.
  intros Hl Hd Hc. rewrite <- foldl_path_lex by done. rewrite path_norm_render. f_equal.
  apply path_comps_render. destruct (path_comps_canonical base) as [Hg Hn _].
  destruct (foldl_path_canon (split_path rel) (path_comps base)) as [Hg' Hn'];
    [apply split_path_no_slash|done|].
  split; [done|done|]. pose proof (weight_fold (path_comps base) (split_path rel)) as Hw.
  rewrite weight_split in Hw. rewrite path_norm_render, render_length in Hl. plia.
Qed.

Lemma lex_resolve_strip p : lex_resolve (strip_lead p) = lex_resolve p.
Proof.
  assert (∀ s, lex_resolve (if is_char s 0 slash then drop 1 s else s) = lex_resolve s) as Hs.
  { intros s. destruct (is_char s 0 slash) eqn:E; [|done].
    apply is_char_0_cons in E. rewrite E at 2. done. }
  unfold strip_lead. destruct (is_char p 0 dot && is_char p 1 slash) eqn:E1.
  { rewrite Hs. apply andb_true_iff in E1 as [E1%bool_decide_eq_true E2%bool_decide_eq_true].
    destruct p as [|x [|y p]]; simplify_eq/=. by rewrite drop_0. }
  destruct (is_char p 0 dot && is_nul p 1) eqn:E2; [|apply Hs].
  apply andb_true_iff in E2 as [E2%bool_decide_eq_true E3%bool_decide_eq_true].
  by destruct p as [|x [|y p]]; simplify_eq/=.
Qed.

Lemma path_comps_lexical p :
  length (strip_lead p) ≤ VFS_PATH_MAX - 2 →
  length (split_path (strip_lead p)) ≤ VFS_PATH_MAX_COMPONENTS →
  Forall (λ c, length c < VFS_PATH_MAX_COMPONENT_LEN) (split_path (strip_lead p)) →
  path_comps p = lex_resolve p.
Proof.
  intros Hl Hd Hc. rewrite <- lex_resolve_strip. unfold path_comps, lex_resolve.
  rewrite take_ge by done. by apply foldl_path_lex.
Qed.

(** ** Properties *)

(** C28. Within the limits of the implementation (254 bytes, 32 segments, 63
    bytes per segment) [vfs_path_normalize] computes lexical resolution: the
    rendering of the segments with empty ones and "." dropped and ".." going
    up, stopping at the root. *)
Theorem normalize_lexical p :
  length (strip_lead p) ≤ VFS_PATH_MAX - 2 →
  length (split_path (strip_lead p)) ≤ VFS_PATH_MAX_COMPONENTS →
  Forall (λ c, length c < VFS_PATH_MAX_COMPONENT_LEN) (split_path (strip_lead p)) →
  vfs_path_normalize (Some p) VFS_PATH_MAX = Some (render (lex_resolve p)).
Proof.
  intros. rewrite normalize_wide, path_norm_render by done.
  by rewrite path_comps_lexical.
Qed.

Lemma normalize_lexical_witness :
  vfs_path_normalize (Some (str "./a/../b/./c/")) VFS_PATH_MAX = Some (str "/b/c").
Proof.
  refine (normalize_lexical (str "./a/../b/./c/") _ _ _);
    [cbv; lia|cbv; lia|]. cbn. repeat constructor; cbv; lia.
Defined.

(** C31. For every input, whatever its length, the normalised path is a
    canonical absolute path (no empty, "." or ".." component, at most 32
    components of at most 63 bytes, at most 255 bytes in all), and a buffer
    of [out_cap >= 2] bytes receives its first [out_cap - 1] bytes. *)
Theorem normalize_canonical p out_cap :
  2 ≤ out_cap →
  ∃ cs, canonical cs
        ∧ vfs_path_normalize (Some p) VFS_PATH_MAX = Some (render cs)
        ∧ vfs_path_normalize (Some p) out_cap = Some (take (out_cap - 1) (render cs)).
Proof.
  intros Hcap. exists (path_comps p). split; [apply path_comps_canonical|].
  rewrite normalize_wide, path_norm_render by done.
  by rewrite normalize_take.
Qed.

Lemma normalize_canonical_witness :
  ∃ cs, canonical cs
        ∧ vfs_path_normalize (Some (str "x//../y")) VFS_PATH_MAX = Some (render cs)
        ∧ vfs_path_normalize (Some (str "x//../y")) 2 = Some (take (2 - 1) (render cs)).
Proof. apply (normalize_canonical (str "x//../y") 2). lia. Defined.

(** Normalisation is idempotent for every input, so normalised paths can
    be normalised again at any layer without changing. *)
Theorem normalize_idempotent p q :
  vfs_path_normalize p VFS_PATH_MAX = Some q →
  vfs_path_normalize (Some q) VFS_PATH_MAX = Some q.
Proof.
  intros E. assert (∃ s, q = path_norm s) as [s ->].
  { destruct p as [p|].
    - exists p. rewrite normalize_wide in E by done. congruence.
    - exists []. change (vfs_path_normalize None VFS_PATH_MAX)
        with (vfs_path_normalize (Some []) VFS_PATH_MAX) in E.
      rewrite normalize_wide in E by done. congruence. }
  by rewrite normalize_wide, path_norm_norm.
Qed.

Lemma normalize_idempotent_witness :
  vfs_path_normalize (Some (str "/b/c")) VFS_PATH_MAX = Some (str "/b/c").
Proof. apply (normalize_idempotent (Some (str "b//c/."))). reflexivity. Defined.

(** A path that is not the root splits into the directory that
    [vfs_path_parent] returns (always with a trailing separator) and the last
    component that [vfs_path_basename] returns; joining the two again with
    [vfs_path_join] gives the normalised path back. *)
Theorem parent_basename_roundtrip p :
  vfs_path_is_root (Some p) = false →
  ∃ d b, vfs_path_parent (Some p) VFS_PATH_MAX = Some d
         ∧ vfs_path_basename (Some p) VFS_PATH_MAX = Some b
         ∧ d ++ b = path_norm p
         ∧ [slash] `suffix_of` d
         ∧ vfs_path_join (Some d) (Some b) VFS_PATH_MAX = Some (path_norm p).
Proof.
  intros Hr. pose proof (path_comps_canonical p) as Hcan.
  destruct (path_comps p) as [|c cs _] eqn:E using rev_ind.
  { apply is_root_norm_comps in E. unfold vfs_path_is_root in Hr. congruence. }
  pose proof (canonical_app_l _ _ Hcan) as Hcs.
  destruct Hcan as [Hg Hl Hw].
  apply Forall_app in Hg as [Hg [(Hne & Hs & Hd & Hdd & Hlen) _]%Forall_cons_1].
  rewrite weight_app, weight_cons in Hw. rewrite length_app in Hl. cbn in Hl.
  exists (dir_prefix cs), c. split_and!.
  - by apply (vfs_path_parent_comps _ _ c).
  - rewrite (vfs_path_basename_comps _ cs c) by (done || plia).
    rewrite take_ge; [done|plia].
  - rewrite path_norm_render, E, render_snoc. unfold dir_prefix.
    case_decide; [done|]. by rewrite <- app_assoc.
  - unfold dir_prefix. case_decide; [done|]. by exists (render cs).
  - assert (path_comps (dir_prefix cs) = cs) as Ed.
    { rewrite <- (app_nil_r (dir_prefix cs)), path_comps_dir_prefix; [|done|].
      - cbn [split_path foldl]. by rewrite path_step_nil.
      - rewrite app_nil_r, dir_prefix_length. plia. }
    rewrite join_comps.
    + rewrite Ed, split_path_noslash by done. cbn [foldl]. unfold lex_step.
      rewrite !decide_False by done. by rewrite path_norm_render, E.
    + done.
    + apply bool_decide_eq_false. destruct c; [done|].
      apply not_elem_of_cons in Hs as [? _]. cbn. congruence.
    + rewrite path_norm_render, Ed, render_length. plia.
    + rewrite Ed, split_path_noslash by done. cbn. plia.
    + rewrite split_path_noslash by done. by apply Forall_singleton.
Qed.

Lemma parent_basename_roundtrip_witness :
  vfs_path_is_root (Some (str "/usr/lib/x")) = false
  ∧ ∃ d b, vfs_path_parent (Some (str "/usr/lib/x")) VFS_PATH_MAX = Some d
         ∧ vfs_path_basename (Some (str "/usr/lib/x")) VFS_PATH_MAX = Some b
         ∧ d ++ b = path_norm (str "/usr/lib/x")
         ∧ [slash] `suffix_of` d
         ∧ vfs_path_join (Some d) (Some b) VFS_PATH_MAX
           = Some (path_norm (str "/usr/lib/x")).
Proof. split; [reflexivity|apply (parent_basename_roundtrip (str "/usr/lib/x")); reflexivity]. Defined.

(** [vfs_path_join base rel] of a relative path is lexical resolution of
    [rel] starting in the normalised base directory, on every one of its four
    branches (the general one and those for "./", "." and ".."), within the
    limits of the buffers. *)
Theorem join_lexical base rel out_cap :
  VFS_PATH_MAX ≤ out_cap → is_char rel 0 slash = false →
  length (path_norm base) + length rel < VFS_PATH_MAX - 1 →
  length (path_comps base) + length (split_path rel) ≤ VFS_PATH_MAX_COMPONENTS →
  Forall (λ c, length c < VFS_PATH_MAX_COMPONENT_LEN) (split_path rel) →
  vfs_path_join (Some base) (Some rel) out_cap
  = Some (render (foldl lex_step (path_comps base) (split_path rel))).
Proof. apply join_comps. Qed.

Lemma join_lexical_witness :
  vfs_path_join (Some (str "/usr/lib")) (Some (str "../bin/./ls")) VFS_PATH_MAX
  = Some (str "/usr/bin/ls").
Proof.
  refine (join_lexical (str "/usr/lib") (str "../bin/./ls") VFS_PATH_MAX _ _ _ _ _);
    [lia|reflexivity|cbv; lia|cbv; lia|]. cbn. repeat constructor; cbv; lia.
Defined.

(** [vfs_path_direct_child_name parent full] succeeds exactly when [full]
    is one component below [parent], that component plus its NUL leaves at
    least one spare byte in the buffer, and [parent] is not the root. *)
Theorem direct_child_iff parent full name_cap n :
  vfs_path_direct_child_name (Some parent) (Some full) name_cap = Some n ↔
  path_comps parent ≠ [] ∧ path_comps full = path_comps parent ++ [n]
  ∧ length n + 1 < name_cap.
Proof. apply direct_child_comps. Qed.

(** No path is ever a direct child of the root for
    [vfs_path_direct_child_name], whatever its buffer: the separator is
    looked for after the root's own "/". *)
Theorem direct_child_of_root_none full name_cap :
  vfs_path_direct_child_name (Some (str "/")) full name_cap = None.
Proof.
  destruct full as [full|]; [|done].
  destruct (vfs_path_direct_child_name _ _ _) as [n|] eqn:E; [|done].
  apply direct_child_comps in E as [H _]. by destruct H.
Qed.
