(* ===== verification/PageSlice.v ===== *)
(** * The core kernel's page slices, as an interface

    [struct page_slice] and its operations belong to the core kernel, which is
    a git submodule: here they are a class of operations with the behaviour
    the compatibility layer relies on.  A page is mapped at a page offset and
    holds records at byte offsets; a freshly zeroed page is the empty map, and
    reading a byte offset nobody has written gives the all-zero record. *)

From stdpp Require Import base numbers list gmap option.
From S2P Require Import Prelude.

(** Page size of the core kernel (8 KiB kernel stacks are two pages). *)
Definition PAGE_SIZE : Z := 4096.

Definition PAGE_SLICE_BYTE_TO_PGOFF (off : Z) : Z := off `div` PAGE_SIZE.
Definition PAGE_SLICE_IN_PAGE_OFF (off : Z) : Z := off `mod` PAGE_SIZE.
Definition PAGE_SLICE_SIZE_TO_PAGE_COUNT (bytes : Z) : Z :=
  (bytes + PAGE_SIZE - 1) `div` PAGE_SIZE.

(** [ROUND_UP(x, PAGE_SIZE)] and [ROUND_DOWN(x, PAGE_SIZE)] on addresses. *)
Definition page_round_up (x : Z) : Z := Z.land (u64 (x + (PAGE_SIZE - 1))) (not64 (PAGE_SIZE - 1)).
Definition page_round_down (x : Z) : Z := Z.land x (not64 (PAGE_SIZE - 1)).

(** The record whose bytes are all zero ([memset(p, 0, sizeof)]). *)
Class Zeroed (R : Type) : Type := zero_rec : R.

(** Allocation oracle of one call: which of the page allocations it attempts
    (by page offset) succeed. *)
Abbreviation alloc_oracle := (Z → bool).

Class PageSlice (P : Type) : Type := {
  page_slice : Type;
  page_slice_create : Z → Z → option page_slice;
  page_slice_get_size : page_slice → Z;
  page_slice_set_size : page_slice → Z → error_t * page_slice;
  page_slice_lookup : page_slice → Z → option P;
  page_slice_insert_page : page_slice → Z → P → error_t * page_slice;
  (** writing through the kernel virtual address of a mapped page *)
  page_slice_store : page_slice → Z → P → page_slice;
}.

(** Same size and same pages. *)
Definition slice_same `{PageSlice P} (s s' : page_slice) : Prop :=
  page_slice_get_size s' = page_slice_get_size s
  ∧ ∀ p, page_slice_lookup s' p = page_slice_lookup s p.

Class PageSliceLaws (P : Type) `{PS : PageSlice P} : Prop := {
  create_empty f n s :
    page_slice_create f n = Some s →
    page_slice_get_size s = n ∧ ∀ p, page_slice_lookup s p = None;
  set_size_fail s n e s' :
    page_slice_set_size s n = (e, s') → e ≠ REND_SUCCESS → slice_same s s';
  set_size_size s n s' :
    page_slice_set_size s n = (REND_SUCCESS, s') → page_slice_get_size s' = n;
  (** pages inside the new size stay, and resizing never maps a page *)
  set_size_keeps s n s' p :
    page_slice_set_size s n = (REND_SUCCESS, s') →
    0 ≤ p < PAGE_SLICE_SIZE_TO_PAGE_COUNT n →
    page_slice_lookup s' p = page_slice_lookup s p;
  set_size_sub s n s' p c :
    page_slice_set_size s n = (REND_SUCCESS, s') →
    page_slice_lookup s' p = Some c → page_slice_lookup s p = Some c;
  set_size_shrink s n :
    0 ≤ n ≤ page_slice_get_size s →
    ∃ s', page_slice_set_size s n = (REND_SUCCESS, s');
  insert_fail s p c e s' :
    page_slice_insert_page s p c = (e, s') → e ≠ REND_SUCCESS → slice_same s s';
  insert_ok s p c s' :
    page_slice_insert_page s p c = (REND_SUCCESS, s') →
    page_slice_get_size s' = page_slice_get_size s
    ∧ page_slice_lookup s' p = Some c
    ∧ ∀ q, q ≠ p → page_slice_lookup s' q = page_slice_lookup s q;
  store_ok s p c c' :
    page_slice_lookup s p = Some c →
    page_slice_get_size (page_slice_store s p c') = page_slice_get_size s
    ∧ page_slice_lookup (page_slice_store s p c') p = Some c'
    ∧ ∀ q, q ≠ p → page_slice_lookup (page_slice_store s p c') q = page_slice_lookup s q;
}.

(** ** A concrete page slice, for evaluation

    A map of pages with a byte size: the laws can hold. *)

Module MapSlice.

Record mslice (P : Type) := MSlice { ms_size : Z; ms_pages : gmap Z P }.
Arguments MSlice {P} _ _.
Arguments ms_size {P} _.
Arguments ms_pages {P} _.

Section with_page.
Context {P : Type}.

Definition create (f n : Z) : option (mslice P) := Some (MSlice n ∅).
Definition set_size (s : mslice P) (n : Z) : error_t * mslice P :=
  (REND_SUCCESS,
   MSlice n (filter (λ kv, kv.1 < PAGE_SLICE_SIZE_TO_PAGE_COUNT n) (ms_pages s))).
Definition lookup_page (s : mslice P) (p : Z) : option P := ms_pages s !! p.
Definition insert_page (s : mslice P) (p : Z) (c : P) : error_t * mslice P :=
  (REND_SUCCESS, MSlice (ms_size s) (<[p := c]> (ms_pages s))).
Definition store_page (s : mslice P) (p : Z) (c : P) : mslice P :=
  MSlice (ms_size s) (<[p := c]> (ms_pages s)).

#[export] Instance map_slice : PageSlice P := {
  page_slice := mslice P;
  page_slice_create := create;
  page_slice_get_size := ms_size;
  page_slice_set_size := set_size;
  page_slice_lookup := lookup_page;
  page_slice_insert_page := insert_page;
  page_slice_store := store_page;
}.

#[export] Instance map_slice_laws : PageSliceLaws P.
Proof.
  split; cbn; unfold set_size, create, insert_page, store_page, lookup_page.
  - intros f n s [= <-]. done.
  - intros s n e s' [= <- <-]. done.
  - intros s n s' [= <-]. done.
  - intros s n s' p [= <-] Hp. cbn.
    destruct (ms_pages s !! p) as [c|] eqn:E.
    + apply map_lookup_filter_Some_2; [done|cbn; lia].
    + apply map_lookup_filter_None_2. by left.
  - intros s n s' p c [= <-] Hp. cbn in Hp. by apply map_lookup_filter_Some in Hp as [? _].
  - intros s n _. eauto.
  - intros s p c e s' [= <- <-]. done.
  - intros s p c s' [= <-]. cbn. split_and!; [done|apply lookup_insert_eq|].
    intros q Hq. by apply lookup_insert_ne.
  - intros s p c c' _. cbn. split_and!; [done|apply lookup_insert_eq|].
    intros q Hq. by apply lookup_insert_ne.
Qed.

End with_page.
End MapSlice.
