(* ===== verification/SliceTable.v ===== *)
(** * Growable record tables ([servers/fs/vfs_slice_table.c])

    [vfs_slice_table_t] packs records of [elem_size] bytes into the pages of a
    page slice.  The handle table, ramfs, the cpio catalogue and the mount
    table are all such tables; they are proved against the interface
    [RecordTable] below, and this file shows that the slice table implements
    it: a table is a list of records, whatever the allocator does. *)

From stdpp Require Import base numbers list gmap option.
From S2P Require Import Prelude PageSlice.

Definition VFS_SLICE_TABLE_SOFT_MAX : Z := Z.shiftl 1 20.

(** ** The interface the clients use *)

Class RecordTable (R T : Type) : Type := {
  rt_count : T → Z;
  (** dereference of [vfs_slice_table_ptr]; [None] for NULL *)
  rt_get : T → Z → option R;
  rt_set : T → Z → R → T;
  (** error code, table, [*idx_out] *)
  rt_push_zero : alloc_oracle → T → error_t * T * Z;
  rt_pop_last : T → T;
  rt_init : alloc_oracle → Z → error_t * T;
  rt_destroy : T → T;
}.

Class RecordTableLaws (R T : Type) `{Zeroed R} `{RT : RecordTable R T} : Type := {
  rt_ok : T → Prop;
  rt_view : T → list R;
  rt_count_view t : rt_ok t → rt_count t = Z.of_nat (length (rt_view t));
  rt_count_bound t : rt_ok t → rt_count t < 2 ^ 31;
  rt_get_view t (i : nat) r :
    rt_ok t → rt_view t !! i = Some r → rt_get t (Z.of_nat i) = Some r;
  (** past the last record there is no memory, or zeroed memory *)
  rt_get_past t i r :
    rt_ok t → rt_count t ≤ i → rt_get t i = Some r → r = zero_rec;
  rt_set_ok t (i : nat) r :
    rt_ok t → (i < length (rt_view t))%nat →
    rt_ok (rt_set t (Z.of_nat i) r)
    ∧ rt_view (rt_set t (Z.of_nat i) r) = <[i := r]> (rt_view t);
  rt_push_ok al t e t' idx :
    rt_ok t → rt_push_zero al t = (e, t', idx) →
    rt_ok t'
    ∧ (e = REND_SUCCESS → rt_view t' = rt_view t ++ [zero_rec] ∧ idx = rt_count t)
    ∧ (e ≠ REND_SUCCESS → rt_view t' = rt_view t);
  rt_pop_ok t l r :
    rt_ok t → rt_view t = l ++ [r] →
    rt_ok (rt_pop_last t) ∧ rt_view (rt_pop_last t) = l;
  rt_init_ok al n e t :
    0 ≤ n < 2 ^ 32 → rt_init al n = (e, t) → rt_ok t ∧ rt_view t = [];
  rt_destroy_ok t : rt_ok (rt_destroy t) ∧ rt_view (rt_destroy t) = [];
}.

(** ** Linear scans

    The clients look records up with
    [for (i = from; i < count; i++) { r = at(i); if (r && test) return i; }]. *)

Section scan.
Context {R T : Type} `{RTL : RecordTableLaws R T}.

Fixpoint rt_scan_from (test : R → bool) (t : T) (i : Z) (fuel : nat) : option Z :=
  match fuel with
  | O => None
  | S fuel' =>
      match rt_get t i with
      | Some r => if test r then Some i else rt_scan_from test t (i + 1) fuel'
      | None => rt_scan_from test t (i + 1) fuel'
      end
  end.

Definition rt_scan (test : R → bool) (t : T) (from : Z) : option Z :=
  rt_scan_from test t from (Z.to_nat (rt_count t - from)).

Lemma rt_scan_from_Some test t i fuel k :
  rt_ok t → (i + fuel)%nat = length (rt_view t) →
  rt_scan_from test t (Z.of_nat i) fuel = Some k →
  ∃ j r, k = Z.of_nat j ∧ (i ≤ j)%nat ∧ rt_view t !! j = Some r ∧ test r = true
    ∧ ∀ j' r', (i ≤ j' < j)%nat → rt_view t !! j' = Some r' → test r' = false.
Proof.
  intros Hok. revert i. induction fuel as [|fuel IH]; intros i Hi; cbn; [done|].
  destruct (lookup_lt_is_Some_2 (rt_view t) i) as [r Hr]; [lia|].
  rewrite (rt_get_view t i r Hok Hr). replace (Z.of_nat i + 1) with (Z.of_nat (S i)) by lia.
  destruct (test r) eqn:Et.
  - intros [= <-]. exists i, r. split_and!; [done|lia|done|done|]. lia.
  - intros (j & r' & -> & Hij & Hj & Ht & Hbefore)%IH; [|lia].
    exists j, r'. split_and!; [done|lia|done|done|]. intros j' r'' Hj' Hr''.
    destruct (decide (j' = i)) as [->|]; [congruence|]. apply (Hbefore j'); [lia|done].
Qed.

Lemma rt_scan_from_None test t i fuel :
  rt_ok t → (i + fuel)%nat = length (rt_view t) →
  rt_scan_from test t (Z.of_nat i) fuel = None →
  ∀ j r, (i ≤ j)%nat → rt_view t !! j = Some r → test r = false.
Proof.
  intros Hok. revert i. induction fuel as [|fuel IH]; intros i Hi; cbn.
  - intros _ j r Hj Hr. apply lookup_lt_Some in Hr. lia.
  - destruct (lookup_lt_is_Some_2 (rt_view t) i) as [r Hr]; [lia|].
    rewrite (rt_get_view t i r Hok Hr). replace (Z.of_nat i + 1) with (Z.of_nat (S i)) by lia.
    destruct (test r) eqn:Et; [done|]. intros Hn j r' Hj Hr'.
    destruct (decide (j = i)) as [->|]; [congruence|].
    apply (IH (S i) ltac:(lia) Hn j); [lia|done].
Qed.

(** A scan finds the first record that passes the test. *)
Lemma rt_scan_Some test t (from : nat) k :
  rt_ok t → rt_scan test t (Z.of_nat from) = Some k →
  ∃ j r, k = Z.of_nat j ∧ (from ≤ j)%nat ∧ rt_view t !! j = Some r ∧ test r = true
    ∧ ∀ j' r', (from ≤ j' < j)%nat → rt_view t !! j' = Some r' → test r' = false.
Proof.
  intros Hok. unfold rt_scan. rewrite rt_count_view by done.
  destruct (decide (from ≤ length (rt_view t))%nat).
  - apply rt_scan_from_Some; [done|lia].
  - replace (Z.to_nat _) with O by lia. done.
Qed.

Lemma rt_scan_None test t (from : nat) :
  rt_ok t → rt_scan test t (Z.of_nat from) = None →
  ∀ j r, (from ≤ j)%nat → rt_view t !! j = Some r → test r = false.
Proof.
  intros Hok. unfold rt_scan. rewrite rt_count_view by done.
  destruct (decide (from ≤ length (rt_view t))%nat).
  - apply rt_scan_from_None; [done|lia].
  - intros _ j r Hj Hr%lookup_lt_Some. lia.
Qed.

Lemma rt_get_lookup t (i : nat) : rt_ok t →
  (i < length (rt_view t))%nat → rt_get t (Z.of_nat i) = rt_view t !! i.
Proof.
  intros Hok [r Hr]%lookup_lt_is_Some. rewrite Hr. by apply rt_get_view.
Qed.
End scan.

(** ** A list as a record table, for evaluating the clients *)

Module ListTable.
Section with_record.
Context {R : Type} `{Zeroed R}.

#[export] Instance list_table : RecordTable R (list R) := {
  rt_count l := Z.of_nat (length l);
  rt_get l i := l !! Z.to_nat i;
  rt_set l i r := <[Z.to_nat i := r]> l;
  rt_push_zero al l :=
    if al 0 && (Z.of_nat (length l) + 1 <? 2 ^ 31)
    then (REND_SUCCESS, l ++ [zero_rec], Z.of_nat (length l))
    else (E_REND_NO_MEM, l, 0);
  rt_pop_last l := take (length l - 1) l;
  rt_init al n := (REND_SUCCESS, []);
  rt_destroy l := [];
}.

#[export] Instance list_table_laws : RecordTableLaws R (list R).
Proof.
  refine {| rt_ok l := Z.of_nat (length l) < 2 ^ 31; rt_view l := l |}; cbn.
  - done.
  - done.
  - intros l i r _ Hl. by rewrite Nat2Z.id.
  - intros l i r _ Hi Hl. apply lookup_lt_Some in Hl. lia.
  - intros l i r Hl Hi. rewrite Nat2Z.id, length_insert. done.
  - intros al l e l' idx Hl E. destruct (al 0) in E; cbn in E.
    + destruct (Z.ltb_spec (Z.of_nat (length l) + 1) (2 ^ 31)); simplify_eq.
      * rewrite length_app. cbn. split_and!; [lia|done|done].
      * done.
    + by simplify_eq.
  - intros l l' r Hl ->. rewrite length_app in *. cbn in *.
    assert (length l' + 1 - 1 = length l')%nat as -> by lia. rewrite take_app_length. split; [lia|done].
  - intros al n e l _ [= <- <-]. done.
  - done.
Defined.
End with_record.
End ListTable.

(** ** The slice table *)

Section slice_table.
Context {R : Type} `{Zeroed R} `{PS : PageSlice (gmap Z R)}.

Record vfs_slice_table : Type := SliceTable {
  slice : ptr page_slice;
  elem_size : Z;
  per_page : Z;
  count : Z;
  capacity : Z;
  soft_max : Z;
}.

(** [memset(t, 0, sizeof( *t))]. *)
Definition zero_table : vfs_slice_table := SliceTable None 0 0 0 0 0.

Definition with_slice (t : vfs_slice_table) (s : page_slice) : vfs_slice_table :=
  SliceTable (Some s) (elem_size t) (per_page t) (count t) (capacity t) (soft_max t).
Definition with_capacity (t : vfs_slice_table) (c : Z) : vfs_slice_table :=
  SliceTable (slice t) (elem_size t) (per_page t) (count t) c (soft_max t).
Definition with_count (t : vfs_slice_table) (n : Z) : vfs_slice_table :=
  SliceTable (slice t) (elem_size t) (per_page t) n (capacity t) (soft_max t).

Definition vfs_st_byte_off (t : vfs_slice_table) (index : Z) : Z :=
  let page_i := index `div` per_page t in
  let slot := index `mod` per_page t in
  u64 (page_i * PAGE_SIZE + slot * elem_size t).

Definition vfs_st_bytes_for_cap (t : vfs_slice_table) (cap : Z) : Z :=
  if cap =? 0 then 0
  else
    let pages := u32 (cap + per_page t - 1) `div` per_page t in
    u64 (pages * PAGE_SIZE).

Definition vfs_st_ensure_pgoff (al : alloc_oracle) (s : page_slice) (pgoff : Z)
  : error_t * page_slice :=
  match page_slice_lookup s pgoff with
  | Some _ => (REND_SUCCESS, s)
  | None => if al pgoff then page_slice_insert_page s pgoff ∅
            else (E_REND_NO_MEM, s)
  end.

(** [for (pgoff = from; pgoff < from + n; pgoff++)], stopping at an error. *)
Fixpoint ensure_pages (al : alloc_oracle) (s : page_slice) (from : Z) (n : nat)
  : error_t * page_slice :=
  match n with
  | O => (REND_SUCCESS, s)
  | S n' =>
      match vfs_st_ensure_pgoff al s from with
      | (REND_SUCCESS, s') => ensure_pages al s' (from + 1) n'
      | (e, s') => (e, s')
      end
  end.

(** Rounding up to whole pages, [((cap + pp - 1) / pp) * pp]. *)
Definition round_up_cap (cap pp : Z) : Z :=
  u32 (u32 (cap + pp - 1) `div` pp * pp).

Definition vfs_slice_table_init (al : alloc_oracle) (elem initial_cap : Z)
  : error_t * vfs_slice_table :=
  if (elem =? 0) || (PAGE_SIZE <? elem) then (E_IN_PARAM, zero_table)
  else
    let t := SliceTable None elem (u32 (PAGE_SIZE `div` elem)) 0 0
                        VFS_SLICE_TABLE_SOFT_MAX in
    if per_page t =? 0 then (E_IN_PARAM, t)
    else
      let initial_cap := if initial_cap =? 0 then per_page t else initial_cap in
      if soft_max t <? initial_cap then (E_IN_PARAM, t)
      else
        let initial_cap := round_up_cap initial_cap (per_page t) in
        let bytes := vfs_st_bytes_for_cap t initial_cap in
        match page_slice_create 0 bytes with
        | None => (E_REND_NO_MEM, t)
        | Some s =>
            let pages := PAGE_SLICE_SIZE_TO_PAGE_COUNT bytes in
            match ensure_pages al s 0 (Z.to_nat pages) with
            | (REND_SUCCESS, s') =>
                (REND_SUCCESS, with_count (with_capacity (with_slice t s') initial_cap) 0)
            | (e, _) => (e, zero_table)
            end
        end.

Definition vfs_slice_table_destroy (t : vfs_slice_table) : vfs_slice_table :=
  zero_table.

(** [while (new_cap < need)] of [vfs_slice_table_ensure_cap]; the capacity at
    least doubles, so 33 iterations cover every [u32]. *)
Fixpoint grow_cap (fuel : nat) (smax need new_cap : Z) : Z :=
  match fuel with
  | O => new_cap
  | S fuel' =>
      if new_cap <? need then
        if smax `div` 2 <? new_cap then smax
        else grow_cap fuel' smax need (u32 (new_cap * 2))
      else new_cap
  end.

(** The capacity a growing table aims at: doubled, rounded to whole pages,
    clamped to the soft maximum. *)
Definition next_cap (t : vfs_slice_table) (need : Z) : Z :=
  let new_cap := if capacity t =? 0 then per_page t else capacity t in
  let new_cap := grow_cap 33 (soft_max t) need new_cap in
  let new_cap := round_up_cap new_cap (per_page t) in
  if soft_max t <? new_cap
  then soft_max t `div` per_page t * per_page t else new_cap.

Definition vfs_slice_table_ensure_cap (al : alloc_oracle) (t : vfs_slice_table)
    (need : Z) : error_t * vfs_slice_table :=
  match slice t with
  | None => (E_IN_PARAM, t)
  | Some s =>
      if need <=? capacity t then (REND_SUCCESS, t)
      else if soft_max t <? need then (E_REND_NO_MEM, t)
      else
        let new_cap := next_cap t need in
        if new_cap <? need then (E_REND_NO_MEM, t)
        else
          let old_size := page_slice_get_size s in
          let new_size := vfs_st_bytes_for_cap t new_cap in
          match page_slice_set_size s new_size with
          | (REND_SUCCESS, s1) =>
              let old_pages := PAGE_SLICE_SIZE_TO_PAGE_COUNT old_size in
              let new_pages := PAGE_SLICE_SIZE_TO_PAGE_COUNT new_size in
              match ensure_pages al s1 old_pages (Z.to_nat (new_pages - old_pages)) with
              | (REND_SUCCESS, s2) => (REND_SUCCESS, with_capacity (with_slice t s2) new_cap)
              | (e, s2) => (e, with_slice t (page_slice_set_size s2 old_size).2)
              end
          | (e, s1) => (e, with_slice t s1)
          end
  end.

(** The address of a record: page offset and offset inside the page. *)
Definition vfs_slice_table_ptr (t : vfs_slice_table) (index : Z) : ptr (Z * Z) :=
  match slice t with
  | None => None
  | Some s =>
      if capacity t <=? index then None
      else
        let off := vfs_st_byte_off t index in
        match page_slice_lookup s (PAGE_SLICE_BYTE_TO_PGOFF off) with
        | None => None
        | Some _ => Some (PAGE_SLICE_BYTE_TO_PGOFF off, PAGE_SLICE_IN_PAGE_OFF off)
        end
  end.

(** Reading and writing the record at an address. *)
Definition slot_load (t : vfs_slice_table) (a : Z * Z) : R :=
  default zero_rec (slice t ≫= λ s, page_slice_lookup s a.1 ≫= λ pg, pg !! a.2).

Definition slot_store (t : vfs_slice_table) (a : Z * Z) (r : R) : vfs_slice_table :=
  match slice t with
  | None => t
  | Some s =>
      match page_slice_lookup s a.1 with
      | None => t
      | Some pg => with_slice t (page_slice_store s a.1 (<[a.2 := r]> pg))
      end
  end.

Definition vfs_slice_table_count (t : vfs_slice_table) : Z := count t.

Definition vfs_slice_table_push_zero (al : alloc_oracle) (t : vfs_slice_table)
  : error_t * vfs_slice_table * Z :=
  match vfs_slice_table_ensure_cap al t (u32 (count t + 1)) with
  | (REND_SUCCESS, t1) =>
      let idx := count t1 in
      match vfs_slice_table_ptr t1 idx with
      | None => (E_RENDEZVOS, t1, 0)
      | Some a =>
          let t2 := slot_store t1 a zero_rec in
          (REND_SUCCESS, with_count t2 (u32 (count t2 + 1)), idx)
      end
  | (e, t1) => (e, t1, 0)
  end.

Definition vfs_slice_table_pop_last (t : vfs_slice_table) : vfs_slice_table :=
  if count t =? 0 then t
  else
    let t1 := match vfs_slice_table_ptr t (count t - 1) with
              | Some a => slot_store t a zero_rec
              | None => t
              end in
    with_count t1 (count t1 - 1).

End slice_table.

Arguments vfs_slice_table R {_}.

(** ** Well-formed tables *)

Section slice_table_proofs.
Context {R : Type} `{Z0 : Zeroed R} `{PSL : PageSliceLaws (gmap Z R)}.
Implicit Types (t : vfs_slice_table R) (s : page_slice) (i j : Z).

(** Where record [i] lives. *)
Definition slot_addr t i : Z * Z :=
  (i `div` per_page t, i `mod` per_page t * elem_size t).

Record table_wf t s : Prop := {
  wf_slice : slice t = Some s;
  wf_elem : 0 < elem_size t ≤ PAGE_SIZE;
  wf_pp : per_page t = PAGE_SIZE `div` elem_size t;
  wf_count : 0 ≤ count t ≤ capacity t;
  wf_mult : capacity t = capacity t `div` per_page t * per_page t;
  wf_cap : capacity t ≤ 2 ^ 21;
  wf_smax : 0 ≤ soft_max t ≤ 2 ^ 20;
  wf_size : page_slice_get_size s = capacity t `div` per_page t * PAGE_SIZE;
  wf_mapped p : 0 ≤ p < capacity t `div` per_page t → is_Some (page_slice_lookup s p);
  wf_zero p pg i :
    page_slice_lookup s p = Some pg → count t ≤ i → i `div` per_page t = p →
    default zero_rec (pg !! (i `mod` per_page t * elem_size t)) = zero_rec;
}.

Lemma wf_pp_range t s : table_wf t s → 1 ≤ per_page t ∧ per_page t * elem_size t ≤ PAGE_SIZE.
Proof.
  intros [_ He Hpp _ _ _ _ _ _ _]. rewrite Hpp. split.
  - apply Z.div_le_lower_bound; lia.
  - rewrite Z.mul_comm. apply Z.mul_div_le. lia.
Qed.

Lemma slot_in_page t s i :
  table_wf t s → 0 ≤ i mod per_page t * elem_size t
                 ∧ i mod per_page t * elem_size t + elem_size t ≤ PAGE_SIZE.
Proof.
  intros Hwf. pose proof (wf_pp_range _ _ Hwf) as [Hp1 Hp2].
  pose proof (wf_elem _ _ Hwf). pose proof (Z.mod_pos_bound i (per_page t)). nia.
Qed.

Lemma byte_off_addr t s i :
  table_wf t s → 0 ≤ i ≤ 2 ^ 21 →
  (PAGE_SLICE_BYTE_TO_PGOFF (vfs_st_byte_off t i),
   PAGE_SLICE_IN_PAGE_OFF (vfs_st_byte_off t i)) = slot_addr t i.
Proof.
  intros Hwf Hi. pose proof (wf_pp_range _ _ Hwf) as [Hp1 _].
  pose proof (slot_in_page t s i Hwf) as [Hs1 Hs2]. pose proof (wf_elem _ _ Hwf).
  unfold vfs_st_byte_off, PAGE_SLICE_BYTE_TO_PGOFF, PAGE_SLICE_IN_PAGE_OFF, slot_addr.
  assert (0 ≤ i `div` per_page t ≤ i) as Hd.
  { split; [apply Z.div_pos; lia|]. apply Z.div_le_upper_bound; nia. }
  rewrite uw_small by (unfold PAGE_SIZE in *; lia).
  rewrite Z.div_add_l by done.
  rewrite (Z.div_small (i mod per_page t * elem_size t)) by lia.
  rewrite (Z.add_comm (_ * PAGE_SIZE)), Z_mod_plus_full.
  rewrite (Z.mod_small (i mod per_page t * elem_size t)) by lia. f_equal. lia.
Qed.

Lemma slot_addr_inj t s i j :
  table_wf t s → slot_addr t i = slot_addr t j → i = j.
Proof.
  intros Hwf [= Hd Hm]. pose proof (wf_pp_range _ _ Hwf). pose proof (wf_elem _ _ Hwf).
  apply Z.mul_cancel_r in Hm; [|lia].
  rewrite (Z.div_mod i (per_page t)), (Z.div_mod j (per_page t)) by lia. congruence.
Qed.

Lemma div_cap_lt t s i :
  table_wf t s → 0 ≤ i < capacity t →
  0 ≤ i `div` per_page t < capacity t `div` per_page t.
Proof.
  intros Hwf Hi. pose proof (wf_pp_range _ _ Hwf). pose proof (wf_mult _ _ Hwf).
  split; [apply Z.div_pos; lia|]. apply Z.div_lt_upper_bound; nia.
Qed.

Lemma ptr_wf t s i :
  table_wf t s → 0 ≤ i < capacity t → vfs_slice_table_ptr t i = Some (slot_addr t i).
Proof.
  intros Hwf Hi. unfold vfs_slice_table_ptr. rewrite (wf_slice _ _ Hwf).
  destruct (Z.leb_spec (capacity t) i); [lia|].
  pose proof (wf_cap _ _ Hwf).
  pose proof (byte_off_addr t s i Hwf ltac:(lia)) as Ha.
  rewrite <- Ha. injection Ha as Ha1 _. rewrite Ha1.
  destruct (wf_mapped _ _ Hwf (i `div` per_page t)) as [pg ->]; [|done].
  by eapply div_cap_lt.
Qed.

Lemma slot_load_wf t s i :
  table_wf t s → 0 ≤ i < capacity t → ∃ pg,
  page_slice_lookup s (i `div` per_page t) = Some pg
  ∧ slot_load t (slot_addr t i)
    = default zero_rec (pg !! (i `mod` per_page t * elem_size t)).
Proof.
  intros Hwf Hi. destruct (wf_mapped _ _ Hwf (i `div` per_page t)) as [pg Hpg].
  { by eapply div_cap_lt. }
  exists pg. split; [done|]. unfold slot_load. rewrite (wf_slice _ _ Hwf). cbn.
  by rewrite Hpg.
Qed.

(** Writing one record changes that record only. *)
Lemma slot_store_wf t s i r :
  table_wf t s → 0 ≤ i < capacity t → (i < count t ∨ r = zero_rec) →
  ∃ s', let t' := slot_store t (slot_addr t i) r in
    t' = with_slice t s' ∧ table_wf t' s'
    ∧ ∀ j, 0 ≤ j < capacity t →
           slot_load t' (slot_addr t j)
           = if decide (i = j) then r else slot_load t (slot_addr t j).
Proof.
  intros Hwf Hi Hr. destruct (slot_load_wf t s i Hwf Hi) as (pg & Hpg & _).
  cbv zeta. unfold slot_store. rewrite (wf_slice _ _ Hwf). cbn [slot_addr fst snd].
  rewrite Hpg. set (s' := page_slice_store s _ _).
  destruct (store_ok s (i `div` per_page t) pg
    (<[i `mod` per_page t * elem_size t := r]> pg) Hpg) as (Hsz & Hsame & Hother).
  fold s' in Hsz, Hsame, Hother.
  exists s'. split; [done|]. split.
  - destruct Hwf as [Hsl He Hpp Hc Hm Hcap Hsm Hsize Hmap Hz].
    split; cbn; try done.
    + congruence.
    + intros p Hp. destruct (decide (p = i `div` per_page t)) as [->|Hne].
      * by rewrite Hsame.
      * rewrite Hother by done. by apply Hmap.
    + intros p pg' j Hpg' Hj Hjp.
      destruct (decide (p = i `div` per_page t)) as [->|Hne].
      * rewrite Hsame in Hpg'. simplify_eq.
        rewrite lookup_insert. case_decide as E; [|by eapply Hz].
        cbn. destruct Hr as [Hr|]; [|done]. exfalso.
        assert (j = i) as ->; [|lia].
        apply Z.mul_cancel_r in E; [|lia].
        assert (per_page t ≠ 0) by (intros E0; rewrite E0, Z.div_0_r in Hm; lia).
        rewrite (Z.div_mod i (per_page t)), (Z.div_mod j (per_page t)) by done.
        congruence.
      * rewrite Hother in Hpg' by done. by eapply Hz.
  - intros j Hj. unfold slot_load at 1. cbn.
    destruct (slot_load_wf t s j Hwf Hj) as (pgj & Hpgj & Hlj).
    destruct (decide (j `div` per_page t = i `div` per_page t)) as [Ed|Ed].
    + rewrite Ed, Hsame. cbn. rewrite lookup_insert.
      rewrite Ed, Hpg in Hpgj. simplify_eq.
      destruct (decide (i = j)) as [->|Hij]; [by rewrite decide_True|].
      rewrite decide_False; [done|]. intros E. apply Hij.
      eapply slot_addr_inj; [done|]. unfold slot_addr. congruence.
    + rewrite Hother, Hpgj by done. cbn. rewrite Hlj.
      rewrite decide_False; [done|]. congruence.
Qed.

(** ** Growth *)

(** [s'] has the pages of [s] and possibly new zeroed ones. *)
Definition slice_ext s s' : Prop :=
  page_slice_get_size s' = page_slice_get_size s
  ∧ ∀ p, page_slice_lookup s' p = page_slice_lookup s p
         ∨ (page_slice_lookup s p = None ∧ page_slice_lookup s' p = Some ∅).

#[local] Instance slice_ext_preorder : PreOrder slice_ext.
Proof.
  split.
  - intros s. split; [done|]. intros p. by left.
  - intros s1 s2 s3 [H1 H1'] [H2 H2']. split; [congruence|]. intros p.
    destruct (H1' p) as [E|[E E']], (H2' p) as [F|[F F']]; rewrite ?F, ?E, ?E'; auto.
    right. split; congruence.
Qed.

Lemma slice_same_ext s s' : slice_same s s' → slice_ext s s'.
Proof. intros [Hs Hl]. split; [done|]. intros p. left. apply Hl. Qed.

Lemma ensure_pgoff_ext al s p e s' :
  vfs_st_ensure_pgoff al s p = (e, s') →
  slice_ext s s' ∧ (e = REND_SUCCESS → is_Some (page_slice_lookup s' p)).
Proof.
  unfold vfs_st_ensure_pgoff. destruct (page_slice_lookup s p) as [c|] eqn:E.
  { intros [= <- <-]. split; [done|]. by rewrite E. }
  destruct (al p); [|intros [= <- <-]; split; [done|discriminate]].
  intros Hi. destruct (decide (e = REND_SUCCESS)) as [->|Hne].
  - apply insert_ok in Hi as (Hsz & Hp & Ho). split; [|by rewrite Hp].
    split; [done|]. intros q. destruct (decide (q = p)) as [->|Hq]; [|left; by apply Ho].
    right. split; [done|]. by rewrite Hp.
  - split; [|done]. apply slice_same_ext. by eapply insert_fail.
Qed.

Lemma ensure_pages_ext al s from n e s' :
  ensure_pages al s from n = (e, s') →
  slice_ext s s'
  ∧ (e = REND_SUCCESS → ∀ p, from ≤ p < from + Z.of_nat n →
                             is_Some (page_slice_lookup s' p)).
Proof.
  revert s from. induction n as [|n IH]; intros s from; cbn [ensure_pages].
  { intros [= <- <-]. split; [done|]. intros. lia. }
  destruct (vfs_st_ensure_pgoff al s from) as [e1 s1] eqn:E1.
  apply ensure_pgoff_ext in E1 as [Hext Hok].
  destruct e1; try (intros [= <- <-]; split; [done|discriminate]).
  intros [Hext' Hok']%IH. split; [by etrans|]. intros He p Hp.
  destruct (decide (p = from)) as [->|]; [|apply Hok'; [done|lia]].
  destruct Hok as [c Hc]; [done|]. destruct Hext' as [_ Hl].
  destruct (Hl from) as [->|[? _]]; [by rewrite Hc|congruence].
Qed.

Lemma page_count_mul n : 0 ≤ n → PAGE_SLICE_SIZE_TO_PAGE_COUNT (n * PAGE_SIZE) = n.
Proof.
  intros. unfold PAGE_SLICE_SIZE_TO_PAGE_COUNT.
  replace (n * PAGE_SIZE + PAGE_SIZE - 1) with (n * PAGE_SIZE + (PAGE_SIZE - 1)) by lia.
  rewrite Z.div_add_l by done. change ((PAGE_SIZE - 1) `div` PAGE_SIZE) with 0. lia.
Qed.

Lemma bytes_for_cap_mul t n :
  1 ≤ per_page t ≤ PAGE_SIZE → 0 ≤ n → n * per_page t ≤ 2 ^ 21 →
  vfs_st_bytes_for_cap t (n * per_page t) = n * PAGE_SIZE.
Proof.
  intros Hp Hn Hb. unfold vfs_st_bytes_for_cap.
  assert (PAGE_SIZE = 2 ^ 12) as HP by done.
  destruct (Z.eqb_spec (n * per_page t) 0); [nia|].
  rewrite (uw_small 32) by lia.
  replace (n * per_page t + per_page t - 1)
    with (n * per_page t + (per_page t - 1)) by lia.
  rewrite Z.div_add_l by lia. rewrite (Z.div_small (per_page t - 1)) by lia.
  rewrite uw_small by nia. lia.
Qed.

(** Replacing the slice by one with the same pages below the capacity. *)
Lemma evolve_wf t s s' cap :
  table_wf t s → capacity t ≤ cap ≤ 2 ^ 21 →
  cap = cap `div` per_page t * per_page t →
  page_slice_get_size s' = cap `div` per_page t * PAGE_SIZE →
  (∀ p, 0 ≤ p < capacity t `div` per_page t →
        page_slice_lookup s' p = page_slice_lookup s p) →
  (∀ p, capacity t `div` per_page t ≤ p < cap `div` per_page t →
        is_Some (page_slice_lookup s' p)) →
  (∀ p pg, page_slice_lookup s' p = Some pg →
           page_slice_lookup s p = Some pg ∨ pg = ∅) →
  let t' := with_capacity (with_slice t s') cap in
  table_wf t' s'
  ∧ ∀ j, 0 ≤ j < capacity t → slot_load t' (slot_addr t j) = slot_load t (slot_addr t j).
Proof.
  intros Hwf Hcap Hm Hsz Hkeep Hnew Hsub t'. split.
  - destruct Hwf as [Hsl He Hpp Hc Hmu Hca Hsm Hsize Hmap Hz].
    split; cbn; try done; try lia.
    + intros p Hp. destruct (decide (p < capacity t `div` per_page t)).
      * rewrite Hkeep by lia. apply Hmap. lia.
      * apply Hnew. lia.
    + intros p pg i Hpg Hi Hip. destruct (Hsub p pg Hpg) as [Hpg'| ->].
      * by eapply Hz.
      * by rewrite lookup_empty.
  - intros j Hj. destruct (slot_load_wf t s j Hwf Hj) as (pg & Hpg & ->).
    unfold slot_load. cbn. rewrite Hkeep, Hpg; [done|]. by eapply div_cap_lt.
Qed.

Lemma round_up_cap_spec x pp :
  1 ≤ pp ≤ PAGE_SIZE → 0 ≤ x ≤ 2 ^ 21 →
  ∃ q, round_up_cap x pp = q * pp ∧ x ≤ q * pp < x + pp ∧ 0 ≤ q.
Proof.
  intros Hp Hx. assert (PAGE_SIZE = 2 ^ 12) as HP by done.
  exists ((x + pp - 1) `div` pp). unfold round_up_cap.
  rewrite (uw_small 32 (x + pp - 1)) by lia.
  pose proof (Z.div_mod (x + pp - 1) pp ltac:(lia)) as Hd.
  pose proof (Z.mod_pos_bound (x + pp - 1) pp ltac:(lia)).
  assert (0 ≤ (x + pp - 1) `div` pp) by (apply Z.div_pos; lia).
  rewrite uw_small by nia. split_and!; [done|nia..].
Qed.

Lemma grow_cap_bound fuel smax need c b :
  0 ≤ c ≤ b → 0 ≤ smax ≤ b → b < 2 ^ 31 → 0 ≤ grow_cap fuel smax need c ≤ b.
Proof.
  revert c. induction fuel as [|fuel IH]; intros c Hc Hs Hb; cbn [grow_cap]; [lia|].
  destruct (c <? need); [|lia]. destruct (Z.ltb_spec (smax `div` 2) c) as [|Hle]; [lia|].
  assert (c * 2 ≤ smax) by (pose proof (Z.mul_div_le smax 2); lia).
  rewrite uw_small by lia. apply IH; lia.
Qed.

Definition same_shape t t' : Prop :=
  elem_size t' = elem_size t ∧ per_page t' = per_page t
  ∧ count t' = count t ∧ soft_max t' = soft_max t ∧ capacity t ≤ capacity t'.

(** The failure path of [vfs_slice_table_ensure_cap] restores the slice. *)
Lemma ensure_cap_rollback t s s1 s2 s3 e3 nsz :
  table_wf t s → page_slice_get_size s ≤ nsz * PAGE_SIZE → 0 ≤ nsz →
  page_slice_set_size s (nsz * PAGE_SIZE) = (REND_SUCCESS, s1) → slice_ext s1 s2 →
  page_slice_set_size s2 (page_slice_get_size s) = (e3, s3) →
  table_wf (with_slice t s3) s3
  ∧ ∀ j, 0 ≤ j < capacity t →
         slot_load (with_slice t s3) (slot_addr t j) = slot_load t (slot_addr t j).
Proof.
  intros Hwf Hsz Hn0 H1 [Hsz2 Hl2] H3.
  pose proof (wf_size _ _ Hwf) as Hsize. pose proof (wf_pp_range _ _ Hwf) as [Hpp _].
  assert (0 ≤ capacity t `div` per_page t) as Hcd.
  { pose proof (wf_count _ _ Hwf). apply Z.div_pos; lia. }
  pose proof (set_size_size _ _ _ H1) as Hsz1.
  destruct (set_size_shrink s2 (page_slice_get_size s)) as [s3' Hs3].
  { rewrite Hsz2, Hsz1, Hsize in *. unfold PAGE_SIZE in *. lia. }
  rewrite Hs3 in H3. simplify_eq.
  assert (∀ p, 0 ≤ p < capacity t `div` per_page t →
               page_slice_lookup s3 p = page_slice_lookup s p) as Hkeep.
  { intros p Hp. rewrite (set_size_keeps _ _ _ _ Hs3)
      by (rewrite Hsize, page_count_mul by done; lia).
    assert (page_slice_lookup s1 p = page_slice_lookup s p) as Hp1.
    { apply (set_size_keeps _ _ _ _ H1). rewrite page_count_mul by done.
      unfold PAGE_SIZE in *. lia. }
    destruct (Hl2 p) as [->|[E _]]; [done|].
    rewrite Hp1 in E. destruct (wf_mapped _ _ Hwf p Hp) as [? ?]. congruence. }
  change (with_slice t s3) with (with_capacity (with_slice t s3) (capacity t)).
  eapply evolve_wf; try done.
  - pose proof (wf_cap _ _ Hwf). lia.
  - apply (wf_mult _ _ Hwf).
  - rewrite (set_size_size _ _ _ Hs3). done.
  - intros p Hp. lia.
  - intros p pg Hpg. apply (set_size_sub _ _ _ _ _ Hs3) in Hpg.
    destruct (Hl2 p) as [E|[_ E]]; [left|right; congruence].
    rewrite E in Hpg. by apply (set_size_sub _ _ _ _ _ H1) in Hpg.
Qed.

(** The success path. *)
Lemma ensure_cap_commit t s s1 s2 q :
  table_wf t s → capacity t ≤ q * per_page t ≤ 2 ^ 21 →
  page_slice_set_size s (q * PAGE_SIZE) = (REND_SUCCESS, s1) → slice_ext s1 s2 →
  (∀ p, capacity t `div` per_page t ≤ p < q → is_Some (page_slice_lookup s2 p)) →
  let t' := with_capacity (with_slice t s2) (q * per_page t) in
  table_wf t' s2
  ∧ ∀ j, 0 ≤ j < capacity t → slot_load t' (slot_addr t j) = slot_load t (slot_addr t j).
Proof.
  intros Hwf Hq H1 [Hsz2 Hl2] Hnew. pose proof (wf_pp_range _ _ Hwf) as [Hpp _].
  pose proof (wf_count _ _ Hwf). pose proof (wf_mult _ _ Hwf).
  assert (0 ≤ q) by nia.
  assert (capacity t `div` per_page t ≤ q) by nia.
  eapply evolve_wf; try done; rewrite ?Z.div_mul by lia; try done.
  - rewrite Hsz2. by apply (set_size_size _ _ _ H1).
  - intros p Hp. assert (page_slice_lookup s1 p = page_slice_lookup s p) as Hp1.
    { apply (set_size_keeps _ _ _ _ H1). rewrite page_count_mul by done. lia. }
    destruct (Hl2 p) as [->|[E _]]; [done|].
    rewrite Hp1 in E. destruct (wf_mapped _ _ Hwf p Hp) as [? ?]. congruence.
  - intros p pg Hpg. destruct (Hl2 p) as [E|[_ E]]; [left|right; congruence].
    rewrite E in Hpg. by apply (set_size_sub _ _ _ _ _ H1) in Hpg.
Qed.

Lemma next_cap_spec t s need :
  table_wf t s → ∃ q, next_cap t need = q * per_page t ∧ 0 ≤ q ∧ q * per_page t ≤ soft_max t.
Proof.
  intros Hwf. pose proof (wf_pp_range _ _ Hwf) as [Hp1 Hp2].
  pose proof (wf_elem _ _ Hwf). pose proof (wf_count _ _ Hwf).
  pose proof (wf_cap _ _ Hwf). pose proof (wf_smax _ _ Hwf).
  assert (PAGE_SIZE = 2 ^ 12) as HP by done.
  unfold next_cap. set (c0 := if capacity t =? 0 then _ else _).
  assert (0 ≤ c0 ≤ 2 ^ 21) by (unfold c0; destruct (_ =? _); nia).
  pose proof (grow_cap_bound 33 (soft_max t) need c0 (2 ^ 21)) as Hg.
  destruct (round_up_cap_spec (grow_cap 33 (soft_max t) need c0) (per_page t))
    as (q & -> & Hq & Hq0); [nia|lia|].
  destruct (Z.ltb_spec (soft_max t) (q * per_page t)).
  - exists (soft_max t `div` per_page t). split_and!; [done|apply Z.div_pos; lia|].
    rewrite Z.mul_comm. apply Z.mul_div_le. lia.
  - by exists q.
Qed.

Lemma same_slice_wf t s s1 :
  table_wf t s → slice_same s s1 →
  table_wf (with_slice t s1) s1
  ∧ ∀ j, 0 ≤ j < capacity t →
         slot_load (with_slice t s1) (slot_addr t j) = slot_load t (slot_addr t j).
Proof.
  intros Hwf [Hsz1 Hl1].
  change (with_slice t s1) with (with_capacity (with_slice t s1) (capacity t)).
  apply (evolve_wf t s); try done.
  - pose proof (wf_cap _ _ Hwf). lia.
  - apply (wf_mult _ _ Hwf).
  - rewrite Hsz1. apply (wf_size _ _ Hwf).
  - intros p Hp. lia.
  - intros p pg Hpg. left. by rewrite <- Hl1.
Qed.

Lemma ensure_cap_wf al t s need e t' :
  table_wf t s → vfs_slice_table_ensure_cap al t need = (e, t') →
  ∃ s', table_wf t' s' ∧ same_shape t t'
        ∧ (e = REND_SUCCESS → need ≤ capacity t')
        ∧ ∀ j, 0 ≤ j < capacity t →
               slot_load t' (slot_addr t j) = slot_load t (slot_addr t j).
Proof.
  intros Hwf. unfold vfs_slice_table_ensure_cap. rewrite (wf_slice _ _ Hwf).
  destruct (Z.leb_spec need (capacity t)).
  { intros [= <- <-]. exists s. split_and!; [done|done..]. }
  destruct (soft_max t <? need).
  { intros [= <- <-]. exists s. by split_and!. }
  cbv zeta. destruct (next_cap_spec t s need Hwf) as (q & -> & Hq0 & Hqs).
  destruct (Z.ltb_spec (q * per_page t) need).
  { intros [= <- <-]. exists s. by split_and!. }
  pose proof (wf_pp_range _ _ Hwf) as [Hp1 Hp2]. pose proof (wf_smax _ _ Hwf).
  pose proof (wf_elem _ _ Hwf). pose proof (wf_count _ _ Hwf).
  pose proof (wf_mult _ _ Hwf) as Hmul. pose proof (wf_size _ _ Hwf) as Hsize.
  rewrite bytes_for_cap_mul by nia.
  assert (0 ≤ capacity t `div` per_page t) by (apply Z.div_pos; lia).
  rewrite Hsize, !page_count_mul by done. rewrite <- Hsize.
  destruct (page_slice_set_size s (q * PAGE_SIZE)) as [e1 s1] eqn:E1.
  destruct (decide (e1 = REND_SUCCESS)) as [->|He1]; cycle 1.
  { destruct (same_slice_wf t s s1 Hwf (set_size_fail _ _ _ _ E1 He1)) as [? ?].
    destruct e1; [done|..]; intros [= <- <-]; exists s1; by split_and!. }
  destruct (ensure_pages al s1 _ _) as [e2 s2] eqn:E2.
  apply ensure_pages_ext in E2 as [Hext Hnew].
  destruct (decide (e2 = REND_SUCCESS)) as [->|He2].
  - intros [= <- <-]. exists s2.
    destruct (ensure_cap_commit t s s1 s2 q) as [Hw Hl]; try done.
    { lia. }
    { intros p Hp. apply Hnew; [done|lia]. }
    split_and!; [done| |cbn; lia|done]. split_and!; cbn; try done; lia.
  - destruct (page_slice_set_size s2 (page_slice_get_size s)) as [e3 s3] eqn:E3.
    destruct (ensure_cap_rollback t s s1 s2 s3 e3 q) as [Hw Hl]; try done.
    { rewrite Hsize. unfold PAGE_SIZE. nia. }
    destruct e2; [done|..]; intros [= <- <-]; exists s3; by split_and!.
Qed.

(** ** The abstract contents of a table *)

Definition table_view t : list R :=
  (λ i : nat, slot_load t (slot_addr t (Z.of_nat i))) <$> seq 0 (Z.to_nat (count t)).

(** A table that was never set up or was destroyed, or a well-formed one. *)
Definition table_ok t : Prop :=
  (slice t = None ∧ count t = 0) ∨ ∃ s, table_wf t s.

Lemma table_view_lookup t (i : nat) :
  (i < Z.to_nat (count t))%nat →
  table_view t !! i = Some (slot_load t (slot_addr t (Z.of_nat i))).
Proof.
  intros Hi. unfold table_view. rewrite list_lookup_fmap, lookup_seq_lt by done. done.
Qed.

Lemma table_view_length t : length (table_view t) = Z.to_nat (count t).
Proof. unfold table_view. by rewrite length_fmap, length_seq. Qed.

(** Two tables with the same records in the same places. *)
Lemma table_view_ext t t' :
  count t' = count t → (∀ i, slot_addr t' i = slot_addr t i) →
  (∀ j, 0 ≤ j < count t → slot_load t' (slot_addr t j) = slot_load t (slot_addr t j)) →
  table_view t' = table_view t.
Proof.
  intros Hc Ha Hl. unfold table_view. rewrite Hc.
  apply list_fmap_ext. intros k x [-> Hx]%lookup_seq. rewrite Ha. apply Hl. lia.
Qed.

Lemma same_shape_addr t t' i : same_shape t t' → slot_addr t' i = slot_addr t i.
Proof. intros (He & Hp & _). unfold slot_addr. by rewrite He, Hp. Qed.

Lemma with_count_wf t s n :
  table_wf t s → 0 ≤ n ≤ capacity t →
  (∀ j, n ≤ j < count t → slot_load t (slot_addr t j) = zero_rec) →
  table_wf (with_count t n) s.
Proof.
  intros Hwf Hn Hz0. pose proof Hwf as [Hsl He Hpp Hc Hm Hcap Hsm Hsize Hmap Hz].
  split; cbn; try done. intros p pg i Hpg Hi Hip.
  destruct (decide (count t ≤ i)); [by eapply Hz|].
  etrans; [|apply (Hz0 i); lia].
  destruct (slot_load_wf t s i Hwf ltac:(lia)) as (pg' & Hpg' & ->).
  congruence.
Qed.

Lemma push_zero_ok al t s e t' idx :
  table_wf t s → vfs_slice_table_push_zero al t = (e, t', idx) →
  table_ok t'
  ∧ (e = REND_SUCCESS → table_view t' = table_view t ++ [zero_rec] ∧ idx = count t)
  ∧ (e ≠ REND_SUCCESS → table_view t' = table_view t).
Proof.
  intros Hwf. unfold vfs_slice_table_push_zero.
  destruct (vfs_slice_table_ensure_cap _ _ _) as [e1 t1] eqn:E1.
  destruct (ensure_cap_wf _ _ _ _ _ _ Hwf E1) as (s1 & Hwf1 & Hsh & Hneed & Hload).
  pose proof (wf_count _ _ Hwf) as Hcount. pose proof (wf_cap _ _ Hwf) as Hcap.
  rewrite uw_small in Hneed by lia.
  assert (table_view t1 = table_view t) as Hv.
  { destruct Hsh as (? & ? & ? & ?). apply table_view_ext; [done| |].
    - intros i. by apply same_shape_addr.
    - intros j Hj. apply Hload. lia. }
  destruct (decide (e1 = REND_SUCCESS)) as [->|He1]; cycle 1.
  { destruct e1; [done|..]; intros [= <- <- <-];
      (split_and!; [right; by exists s1|done|done]). }
  pose proof Hsh as (_ & _ & Hc1 & _).
  rewrite (ptr_wf t1 s1) by (done || (specialize (Hneed eq_refl); lia)).
  destruct (slot_store_wf t1 s1 (count t1) zero_rec Hwf1) as (s2 & E2 & Hwf2 & Hl2).
  { specialize (Hneed eq_refl). lia. }
  { by right. }
  intros [= <- <- <-]. rewrite E2 in *. cbn [count with_slice with_count].
  rewrite uw_small by lia. specialize (Hneed eq_refl).
  split_and!; [|intros _; split; [|done]|done].
  - right. exists s2. apply with_count_wf; [done|cbn; lia|cbn; intros; lia].
  - rewrite <- Hv. unfold table_view at 1. cbn [count with_count].
    replace (Z.to_nat (count t1 + 1)) with (S (Z.to_nat (count t1))) by lia.
    rewrite seq_S, fmap_app. cbn [fmap list_fmap Nat.add]. f_equal.
    + apply list_fmap_ext. intros k x [-> Hx]%lookup_seq.
      etrans; [apply Hl2; lia|]. rewrite decide_False by lia. done.
    + f_equal. etrans; [apply Hl2; lia|]. rewrite decide_True by lia. done.
Qed.

Lemma pop_last_ok t s l r :
  table_wf t s → table_view t = l ++ [r] →
  table_ok (vfs_slice_table_pop_last t) ∧ table_view (vfs_slice_table_pop_last t) = l.
Proof.
  intros Hwf Hv. pose proof (wf_count _ _ Hwf) as Hcount.
  pose proof (table_view_length t) as Hlen. rewrite Hv, length_app in Hlen. cbn in Hlen.
  unfold vfs_slice_table_pop_last. destruct (Z.eqb_spec (count t) 0); [lia|].
  rewrite (ptr_wf t s) by (done || lia).
  destruct (slot_store_wf t s (count t - 1) zero_rec Hwf) as (s2 & E2 & Hwf2 & Hl2); [lia|by left; lia|].
  rewrite E2 in *. cbn [count with_slice]. split.
  - right. exists s2. apply with_count_wf; [done|cbn; lia|].
    cbn. intros j Hj. etrans; [apply Hl2; lia|]. rewrite decide_True by lia. done.
  - unfold table_view. cbn [count with_count].
    apply (inj (.++ [r])). rewrite <- Hv. unfold table_view.
    replace (Z.to_nat (count t)) with (S (Z.to_nat (count t - 1))) by lia.
    rewrite seq_S, fmap_app. cbn [fmap list_fmap Nat.add]. f_equal.
    + apply list_fmap_ext. intros k x [-> Hx]%lookup_seq.
      etrans; [apply Hl2; lia|]. rewrite decide_False by lia. done.
    + assert (table_view t !! Z.to_nat (count t - 1) = Some r) as Hr.
      { rewrite Hv, lookup_app_r by lia.
        by replace (Z.to_nat (count t - 1) - length l)%nat with O by lia. }
      rewrite table_view_lookup in Hr by lia. congruence.
Qed.

Lemma table_view_empty t : count t = 0 → table_view t = [].
Proof. intros Hc. unfold table_view. by rewrite Hc. Qed.

(** What [vfs_slice_table_init] sets once and for all. *)
Definition table_fresh t (elem : Z) : Prop :=
  is_Some (slice t) ∧ elem_size t = elem ∧ soft_max t = VFS_SLICE_TABLE_SOFT_MAX ∧ 0 < capacity t.

Lemma table_fresh_wf t elem : table_ok t → table_fresh t elem → ∃ s, table_wf t s.
Proof. intros [[Hs _]|?] [Hn _]; [rewrite Hs in Hn; by destruct Hn|done]. Qed.

Lemma init_ok al elem n e t :
  0 ≤ n < 2 ^ 32 → 0 ≤ elem → vfs_slice_table_init al elem n = (e, t) →
  table_ok t ∧ table_view t = [] ∧ (e = REND_SUCCESS → ∃ s, table_wf t s ∧ n ≤ capacity t ∧ table_fresh t elem).
Proof.
  intros Hn He. unfold vfs_slice_table_init.
  assert (∀ e0 t0, e0 ≠ REND_SUCCESS → slice t0 = None → count t0 = 0 → (e0, t0) = (e, t) →
    table_ok t ∧ table_view t = [] ∧ (e = REND_SUCCESS → ∃ s, table_wf t s ∧ n ≤ capacity t ∧ table_fresh t elem)) as Hbad.
  { intros e0 t0 He0 Hs Hc [= <- <-]. split_and!; [by left|by apply table_view_empty|done]. }
  destruct (Z.eqb_spec elem 0); cbn [orb]; [by apply Hbad|].
  destruct (Z.ltb_spec PAGE_SIZE elem); [by apply Hbad|]. cbv zeta. cbn [per_page soft_max].
  assert (PAGE_SIZE = 2 ^ 12) as HP by done.
  assert (1 ≤ PAGE_SIZE `div` elem ≤ PAGE_SIZE) as Hpp.
  { split; [apply Z.div_le_lower_bound; lia|apply Z.div_le_upper_bound; nia]. }
  rewrite (uw_small 32 (PAGE_SIZE `div` elem)) by lia.
  destruct (_ =? 0) eqn:E0; [by apply Hbad|]. clear E0.
  set (n1 := if n =? 0 then _ else n).
  destruct (Z.ltb_spec VFS_SLICE_TABLE_SOFT_MAX n1) as [|Hmax]; [by apply Hbad|].
  assert (VFS_SLICE_TABLE_SOFT_MAX = 2 ^ 20) as HSM by done.
  assert (0 < n1 ∧ n ≤ n1) as [Hn1 Hn1'] by (unfold n1; destruct (Z.eqb_spec n 0); lia).
  destruct (round_up_cap_spec n1 (PAGE_SIZE `div` elem)) as (q & -> & Hq & Hq0); [lia|lia|].
  set (t0 := SliceTable None elem (PAGE_SIZE `div` elem) 0 0 _).
  rewrite (bytes_for_cap_mul t0) by (cbn; lia).
  destruct (page_slice_create 0 (q * PAGE_SIZE)) as [s|] eqn:Ec; [|by apply Hbad].
  apply create_empty in Ec as [Hsz Hemp]. rewrite page_count_mul by done.
  destruct (ensure_pages al s 0 (Z.to_nat q)) as [e1 s1] eqn:E1.
  apply ensure_pages_ext in E1 as [[Hsz1 Hl1] Hnew].
  destruct e1; [|by apply Hbad..]. intros [= <- <-].
  assert (table_wf (with_count (with_capacity (with_slice t0 s1)
    (q * PAGE_SIZE `div` elem)) 0) s1) as Hwf.
  { split; cbn; try done; try lia; rewrite ?Z.div_mul by lia; try done.
    - congruence.
    - intros p Hp. apply Hnew; [done|lia].
    - intros p pg i Hpg _ _. destruct (Hl1 p) as [E|[_ E]].
      + rewrite Hemp in E. congruence.
      + rewrite E in Hpg. injection Hpg as <-. by rewrite lookup_empty. }
  split_and!; [right; by exists s1|by apply table_view_empty|].
  intros _. exists s1. unfold table_fresh. cbn. split_and!; done || lia.
Qed.

(** ** Implementation of the interface *)

Definition table_get t i : option R := slot_load t <$> vfs_slice_table_ptr t i.

Definition table_set t i (r : R) : vfs_slice_table R :=
  match vfs_slice_table_ptr t i with
  | Some a => slot_store t a r
  | None => t
  end.

Lemma table_get_past t s i r :
  table_wf t s → count t ≤ i → table_get t i = Some r → r = zero_rec.
Proof.
  intros Hwf Hi. pose proof (wf_count _ _ Hwf).
  destruct (decide (i < capacity t)).
  - unfold table_get. rewrite (ptr_wf t s) by (done || lia). cbn. intros [= <-].
    destruct (slot_load_wf t s i Hwf ltac:(lia)) as (pg & Hpg & ->).
    by eapply wf_zero.
  - unfold table_get, vfs_slice_table_ptr. rewrite (wf_slice _ _ Hwf).
    destruct (Z.leb_spec (capacity t) i); [done|lia].
Qed.

Lemma table_set_ok t s (i : nat) r :
  table_wf t s → (i < length (table_view t))%nat →
  table_ok (table_set t (Z.of_nat i) r)
  ∧ table_view (table_set t (Z.of_nat i) r) = <[i := r]> (table_view t).
Proof.
  intros Hwf Hi. pose proof (wf_count _ _ Hwf). rewrite table_view_length in Hi.
  unfold table_set. rewrite (ptr_wf t s) by (done || lia).
  destruct (slot_store_wf t s (Z.of_nat i) r Hwf) as (s2 & E2 & Hwf2 & Hl2); [lia|left; lia|].
  split; [right; by exists s2|]. rewrite E2 in *. apply list_eq. intros k.
  destruct (decide (k < Z.to_nat (count t))%nat).
  - rewrite table_view_lookup by (cbn; lia).
    replace (slot_addr (with_slice t s2) (Z.of_nat k)) with (slot_addr t (Z.of_nat k)) by done.
    rewrite Hl2 by lia. rewrite list_lookup_insert, table_view_length.
    destruct (decide (i = k)) as [->|Hne].
    + by rewrite !decide_True by (done || lia).
    + rewrite !decide_False by (lia || naive_solver). by rewrite table_view_lookup.
  - rewrite !lookup_ge_None_2; [done|rewrite length_insert, table_view_length; lia|].
    rewrite table_view_length. cbn. lia.
Qed.

End slice_table_proofs.

(** The size of a record in bytes ([sizeof]), at most one page. *)
Class SizeOf (R : Type) : Type := {
  sizeof : Z;
  sizeof_range : 0 < sizeof ≤ PAGE_SIZE;
}.
Arguments sizeof R {_}.

Section slice_instance.
Context {R : Type} `{Z0 : Zeroed R} `{SZ : SizeOf R} `{PSL : PageSliceLaws (gmap Z R)}.

#[global] Instance slice_record_table : RecordTable R (vfs_slice_table R) := {
  rt_count := vfs_slice_table_count;
  rt_get := table_get;
  rt_set := table_set;
  rt_push_zero := vfs_slice_table_push_zero;
  rt_pop_last := vfs_slice_table_pop_last;
  rt_init al n := vfs_slice_table_init al (sizeof R) n;
  rt_destroy := vfs_slice_table_destroy;
}.

#[global] Instance slice_record_table_laws :
  RecordTableLaws R (vfs_slice_table R).
Proof.
  refine {| rt_ok := table_ok; rt_view := table_view |}; cbn.
  - intros t [[_ Hc]|[s Hwf]]; rewrite table_view_length; unfold vfs_slice_table_count.
    + by rewrite Hc.
    + pose proof (wf_count _ _ Hwf). lia.
  - intros t [[_ Hc]|[s Hwf]]; unfold vfs_slice_table_count; [lia|].
    pose proof (wf_count _ _ Hwf). pose proof (wf_cap _ _ Hwf). lia.
  - intros t i r [[_ Hc]|[s Hwf]] Hi.
    + by rewrite table_view_empty in Hi.
    + pose proof (lookup_lt_Some _ _ _ Hi) as Hlt. rewrite table_view_length in Hlt.
      rewrite table_view_lookup in Hi by done. pose proof (wf_count _ _ Hwf).
      unfold table_get. rewrite (ptr_wf t s) by (done || lia). cbn. congruence.
  - intros t i r [[Hs _]|[s Hwf]] Hi.
    + unfold table_get, vfs_slice_table_ptr. by rewrite Hs.
    + by eapply table_get_past.
  - intros t i r [[_ Hc]|[s Hwf]] Hi.
    + rewrite table_view_length, Hc in Hi. cbn in Hi. lia.
    + by eapply table_set_ok.
  - intros al t e t' idx [[Hs Hc]|[s Hwf]].
    + unfold vfs_slice_table_push_zero, vfs_slice_table_ensure_cap. rewrite Hs.
      intros [= <- <- <-]. split_and!; [by left|done|done].
    + by apply (push_zero_ok al t s).
  - intros t l r [[_ Hc]|[s Hwf]] Hv.
    + rewrite table_view_empty in Hv by done. by destruct l.
    + by eapply pop_last_ok.
  - intros al n e t Hn Hi. pose proof (sizeof_range (R := R)).
    destruct (init_ok al (sizeof R) n e t) as (? & ? & _); [done|lia|done|done].
  - intros t. split; [by left|done].
Defined.

End slice_instance.

(** ** Sequences of operations against the abstract list

    What a client may do with a table and what it gets back, and what both mean
    for a list of records. *)

Inductive table_cmd (R : Type) : Type :=
  | CPush (al : alloc_oracle)
  | CGet (i : nat)
  | CSet (i : nat) (r : R)
  | CPop.
Arguments CPush {R} _.
Arguments CGet {R} _.
Arguments CSet {R} _ _.
Arguments CPop {R}.

(** The index a push gives out or its error code; the record read. *)
Inductive cmd_result (R : Type) : Type :=
  | RPushed (idx : Z)
  | RFailed (e : error_t)
  | RRecord (r : option R)
  | RDone.
Arguments RPushed {R} _.
Arguments RFailed {R} _.
Arguments RRecord {R} _.
Arguments RDone {R}.

Definition run_cmd `{RecordTable R T} (t : T) (c : table_cmd R) : T * cmd_result R :=
  match c with
  | CPush al =>
      match rt_push_zero al t with
      | (REND_SUCCESS, t', idx) => (t', RPushed idx)
      | (e, t', _) => (t', RFailed e)
      end
  | CGet i => (t, RRecord (if Z.of_nat i <? rt_count t then rt_get t (Z.of_nat i) else None))
  | CSet i r => (if Z.of_nat i <? rt_count t then rt_set t (Z.of_nat i) r else t, RDone)
  | CPop => (if rt_count t =? 0 then t else rt_pop_last t, RDone)
  end.

Fixpoint run_cmds `{RecordTable R T} (t : T) (cs : list (table_cmd R)) : T * list (cmd_result R) :=
  match cs with
  | [] => (t, [])
  | c :: cs' => let '(t1, r) := run_cmd t c in let '(t2, rs) := run_cmds t1 cs' in (t2, r :: rs)
  end.

(** The list: a push appends a zeroed record and gives its index, or reports an
    error and leaves the list, which it may only do without [room]. *)
Inductive list_cmd `{Zeroed R} (room : alloc_oracle → list R → Prop)
    : list R → table_cmd R → cmd_result R → list R → Prop :=
  | LPush al l : list_cmd room l (CPush al) (RPushed (Z.of_nat (length l))) (l ++ [zero_rec])
  | LPushFail al l e : e ≠ REND_SUCCESS → ¬ room al l → list_cmd room l (CPush al) (RFailed e) l
  | LGet i l : list_cmd room l (CGet i) (RRecord (l !! i)) l
  | LSet i r l : list_cmd room l (CSet i r) RDone (<[i := r]> l)
  | LPop l r : list_cmd room (l ++ [r]) CPop RDone l
  | LPopEmpty : list_cmd room [] CPop RDone [].

Inductive list_cmds `{Zeroed R} (room : alloc_oracle → list R → Prop)
    : list R → list (table_cmd R) → list (cmd_result R) → list R → Prop :=
  | LNil l : list_cmds room l [] [] l
  | LCons l l' l'' c cs r rs :
      list_cmd room l c r l' → list_cmds room l' cs rs l'' → list_cmds room l (c :: cs) (r :: rs) l''.

Section refinement.
Context {R T : Type} `{RTL : RecordTableLaws R T}.
Context (room : alloc_oracle → list R → Prop) (I : T → Prop).
Hypothesis I_cmd : ∀ t c, rt_ok t → I t → I (run_cmd t c).1.
Hypothesis I_room : ∀ al t, rt_ok t → I t → room al (rt_view t) → (rt_push_zero al t).1.1 = REND_SUCCESS.

Lemma run_cmd_simulates t c : rt_ok t → I t →
  rt_ok (run_cmd t c).1 ∧ list_cmd room (rt_view t) c (run_cmd t c).2 (rt_view (run_cmd t c).1).
Proof.
  intros Hok HI. pose proof (rt_count_view t Hok) as Hc. destruct c as [al|i|i r|]; cbn.
  - pose proof (I_room al t Hok HI) as Hroom.
    destruct (rt_push_zero al t) as [[e t'] idx] eqn:E. cbn in Hroom.
    destruct (rt_push_ok al t e t' idx Hok E) as (Hok' & Hs & Hf).
    destruct (decide (e = REND_SUCCESS)) as [->|He].
    + destruct (Hs eq_refl) as [Hv ->]. split; [done|]. cbn. rewrite Hv, Hc. constructor.
    + assert (list_cmd room (rt_view t) (CPush al) (RFailed e) (rt_view t')) as Hl.
      { rewrite (Hf He). constructor; [done|]. intros Hr. by apply He, Hroom. }
      by destruct e.
  - split; [done|]. destruct (Z.ltb_spec (Z.of_nat i) (rt_count t)).
    + rewrite rt_get_lookup by (done || lia). constructor.
    + rewrite <- (lookup_ge_None_2 (rt_view t) i) by lia. constructor.
  - destruct (Z.ltb_spec (Z.of_nat i) (rt_count t)).
    + destruct (rt_set_ok t i r Hok) as [? ->]; [lia|]. split; [done|constructor].
    + split; [done|]. rewrite <- (list_insert_ge (rt_view t) i r) at 2 by lia. constructor.
  - destruct (Z.eqb_spec (rt_count t) 0) as [E0|E0].
    + split; [done|]. destruct (rt_view t); [constructor|cbn in Hc; lia].
    + destruct (rt_view t) as [|r l _] eqn:Ev using rev_ind; [cbn in Hc; lia|].
      destruct (rt_pop_ok t l r Hok Ev) as [? ->]. split; [done|constructor].
Qed.

Lemma run_cmds_simulates t cs t' rs : rt_ok t → I t → run_cmds t cs = (t', rs) →
  rt_ok t' ∧ list_cmds room (rt_view t) cs rs (rt_view t').
Proof.
  revert t rs. induction cs as [|c cs IH]; intros t rs Hok HI; cbn [run_cmds].
  { intros [= <- <-]. split; [done|constructor]. }
  destruct (run_cmd_simulates t c Hok HI) as [Hok' Hc]. pose proof (I_cmd t c Hok HI) as HI'.
  destruct (run_cmd t c) as [t1 r]. destruct (run_cmds t1 cs) as [t2 rs'] eqn:E. intros [= <- <-].
  destruct (IH t1 rs' Hok' HI' E) as [? ?]. split; [done|]. by econstructor.
Qed.
End refinement.

(** ** Properties *)

Section properties.
Context {R : Type} `{Z0 : Zeroed R}.

Lemma grow_cap_reaches fuel smax need c :
  1 ≤ c → need ≤ smax < 2 ^ 31 → need ≤ c * 2 ^ Z.of_nat fuel →
  need ≤ grow_cap fuel smax need c.
Proof.
  revert c. induction fuel as [|fuel IH]; intros c Hc Hs Hf; cbn [grow_cap].
  { change (2 ^ Z.of_nat 0) with 1 in Hf. lia. }
  destruct (Z.ltb_spec c need); [|lia].
  destruct (Z.ltb_spec (smax `div` 2) c) as [|Hle]; [lia|].
  assert (c * 2 ≤ smax) by (pose proof (Z.mul_div_le smax 2); lia).
  rewrite uw_small by lia. apply IH; [lia|lia|].
  rewrite Nat2Z.inj_succ, Z.pow_succ_r in Hf by lia. lia.
Qed.

Section page_slice.
Context `{PSL : PageSliceLaws (gmap Z R)}.

Lemma next_cap_limit (t : vfs_slice_table R) s need :
  table_wf t s → 0 < capacity t → need ≤ soft_max t →
  need ≤ next_cap t need ↔ need ≤ soft_max t `div` per_page t * per_page t.
Proof.
  intros Hwf Hc0 Hneed. pose proof (wf_pp_range _ _ Hwf) as [Hp1 Hp2].
  pose proof (wf_smax _ _ Hwf). pose proof (wf_elem _ _ Hwf). pose proof (wf_cap _ _ Hwf).
  assert (PAGE_SIZE = 2 ^ 12) as HP by done.
  destruct (next_cap_spec t s need Hwf) as (q & Eq & Hq0 & Hqs). split.
  - rewrite Eq. intros Hle. etrans; [done|]. apply Z.mul_le_mono_nonneg_r; [lia|].
    apply Z.div_le_lower_bound; lia.
  - intros Hle. unfold next_cap. destruct (Z.eqb_spec (capacity t) 0); [lia|].
    pose proof (grow_cap_reaches 33 (soft_max t) need (capacity t)) as Hr.
    pose proof (grow_cap_bound 33 (soft_max t) need (capacity t) (2 ^ 21)) as Hg.
    change (2 ^ Z.of_nat 33) with 8589934592 in Hr.
    destruct (round_up_cap_spec (grow_cap 33 (soft_max t) need (capacity t)) (per_page t))
      as (q' & -> & Hq' & _); [nia|lia|].
    destruct (soft_max t <? q' * per_page t); lia.
Qed.

Lemma ensure_pages_total al (s : page_slice) from n :
  (∀ p, al p = true) →
  (∀ s p c, (page_slice_insert_page s p c).1 = REND_SUCCESS) →
  (ensure_pages al s from n).1 = REND_SUCCESS.
Proof.
  intros Hal Hins. revert s from.
  induction n as [|n IH]; intros s from; cbn; [done|].
  unfold vfs_st_ensure_pgoff. rewrite Hal. destruct (page_slice_lookup s from); [apply IH|].
  specialize (Hins s from ∅). destruct (page_slice_insert_page s from ∅) as [e s'].
  cbn in Hins. subst e. apply IH.
Qed.

(** Record packing: a record never crosses a page boundary, and the bytes
    of two different records never overlap. *)
Theorem slots_disjoint (t : vfs_slice_table R) s i j :
  table_wf t s → 0 ≤ i < j → j < capacity t →
  PAGE_SLICE_IN_PAGE_OFF (vfs_st_byte_off t i) + elem_size t ≤ PAGE_SIZE
  ∧ vfs_st_byte_off t i + elem_size t ≤ vfs_st_byte_off t j.
Proof.
  intros Hwf Hi Hj. pose proof (wf_cap _ _ Hwf). pose proof (wf_elem _ _ Hwf).
  pose proof (wf_pp_range _ _ Hwf) as [Hp1 _].
  pose proof (slot_in_page t s i Hwf) as [Hi1 Hi2].
  pose proof (slot_in_page t s j Hwf) as [Hj1 Hj2].
  pose proof (byte_off_addr t s i Hwf ltac:(lia)) as [= Hai Hbi].
  pose proof (byte_off_addr t s j Hwf ltac:(lia)) as [= Haj Hbj].
  unfold PAGE_SLICE_BYTE_TO_PGOFF, PAGE_SLICE_IN_PAGE_OFF in *. rewrite Hbi. split; [lia|].
  rewrite (Z.div_mod (vfs_st_byte_off t i) PAGE_SIZE), Hai, Hbi by done.
  rewrite (Z.div_mod (vfs_st_byte_off t j) PAGE_SIZE), Haj, Hbj by done.
  pose proof (Z.div_le_mono i j (per_page t)).
  destruct (decide (i `div` per_page t = j `div` per_page t)) as [E|E].
  - pose proof (Z.div_mod i (per_page t)). pose proof (Z.div_mod j (per_page t)).
    rewrite E in *. nia.
  - assert (i `div` per_page t + 1 ≤ j `div` per_page t) by lia. nia.
Qed.

(** Growing never moves or changes a record: whatever the allocator and
    the page slice answer, [vfs_slice_table_ensure_cap] leaves a well-formed
    table in which every old slot has its address and contents, and success
    means that the requested capacity is there. *)
Theorem ensure_cap_stable al (t : vfs_slice_table R) s need e t' :
  table_wf t s → vfs_slice_table_ensure_cap al t need = (e, t') →
  (∃ s', table_wf t' s')
  ∧ (e = REND_SUCCESS → need ≤ capacity t')
  ∧ ∀ i, 0 ≤ i < capacity t →
         vfs_slice_table_ptr t' i = vfs_slice_table_ptr t i
         ∧ table_get t' i = table_get t i.
Proof.
  intros Hwf E. destruct (ensure_cap_wf _ _ _ _ _ _ Hwf E) as (s' & Hwf' & Hsh & Hn & Hl).
  split_and!; [by exists s'|done|]. intros i Hi.
  pose proof Hsh as (_ & _ & _ & _ & Hcap).
  assert (vfs_slice_table_ptr t' i = vfs_slice_table_ptr t i) as Hp.
  { rewrite (ptr_wf t s), (ptr_wf t' s') by (done || lia). by rewrite (same_shape_addr t t'). }
  split; [done|]. unfold table_get. rewrite Hp, (ptr_wf t s) by done.
  cbn. f_equal. by apply Hl.
Qed.

(** When memory never runs out, a table accepts exactly the capacities
    up to the largest multiple of the records per page below its soft
    maximum; in particular a soft maximum that is not such a multiple is never
    reached. *)
Theorem ensure_cap_limit al (t : vfs_slice_table R) s need :
  table_wf t s → capacity t < need → 0 < capacity t →
  (∀ p, al p = true) →
  (∀ s n, (page_slice_set_size s n).1 = REND_SUCCESS) →
  (∀ s p c, (page_slice_insert_page s p c).1 = REND_SUCCESS) →
  (vfs_slice_table_ensure_cap al t need).1 = REND_SUCCESS
  ↔ need ≤ soft_max t `div` per_page t * per_page t.
Proof.
  intros Hwf Hneed Hc0 Hal Hset Hins. unfold vfs_slice_table_ensure_cap.
  rewrite (wf_slice _ _ Hwf). destruct (Z.leb_spec need (capacity t)); [lia|].
  pose proof (wf_pp_range _ _ Hwf) as [Hp1 Hp2]. pose proof (wf_smax _ _ Hwf).
  pose proof (wf_elem _ _ Hwf). pose proof (wf_cap _ _ Hwf).
  assert (soft_max t `div` per_page t * per_page t ≤ soft_max t) as Hfl.
  { rewrite Z.mul_comm. apply Z.mul_div_le. lia. }
  destruct (Z.ltb_spec (soft_max t) need); [cbn; split; [discriminate|lia]|]. cbv zeta.
  pose proof (next_cap_limit t s need Hwf Hc0 ltac:(lia)) as Hnc.
  destruct (Z.ltb_spec (next_cap t need) need); [cbn; split; [discriminate|lia]|].
  split; [tauto|]. intros _. set (nsz := vfs_st_bytes_for_cap _ _).
  specialize (Hset s nsz). destruct (page_slice_set_size s nsz) as [e1 s1].
  cbn in Hset. subst e1. set (n := Z.to_nat _). set (from := PAGE_SLICE_SIZE_TO_PAGE_COUNT _).
  pose proof (ensure_pages_total al s1 from n Hal Hins) as Hpages. destruct (ensure_pages al s1 from n) as [e2 s2].
  cbn in Hpages. by subst e2.
Qed.

(** Memory is there: the allocator gives a page whenever it is asked for one and
    the page slice takes it. *)
Definition memory_works (al : alloc_oracle) : Prop :=
  (∀ p, al p = true) ∧ (∀ s n, (page_slice_set_size s n).1 = REND_SUCCESS)
  ∧ (∀ s p c, (page_slice_insert_page s p c).1 = REND_SUCCESS).

(** The number of records every table can grow to: the soft maximum, rounded
    down to whole pages. *)
Definition table_limit `{SizeOf R} : Z :=
  VFS_SLICE_TABLE_SOFT_MAX `div` (PAGE_SIZE `div` sizeof R) * (PAGE_SIZE `div` sizeof R).

Lemma slot_store_shape (t : vfs_slice_table R) a r elem : table_fresh t elem → table_fresh (slot_store t a r) elem.
Proof.
  unfold slot_store. destruct (slice t); [|done]. destruct (page_slice_lookup _ _); [|done].
  intros (_ & ? & ? & ?). by split; [eexists|].
Qed.

Lemma cmd_fresh `{SizeOf R} (t : vfs_slice_table R) s c elem : table_wf t s → table_fresh t elem → table_fresh (run_cmd t c).1 elem.
Proof.
  intros Hwf Hf. destruct c as [al|i|i r|]; cbn [run_cmd rt_push_zero rt_get rt_set rt_pop_last rt_count slice_record_table]; [|done|..].
  - unfold vfs_slice_table_push_zero. destruct (vfs_slice_table_ensure_cap _ _ _) as [e t1] eqn:E.
    destruct (ensure_cap_wf _ _ _ _ _ _ Hwf E) as (s1 & Hwf1 & (He & _ & _ & Hm & Hc) & _).
    assert (table_fresh t1 elem) as Hf1.
    { destruct Hf as (? & ? & ? & ?). split_and!; [rewrite (wf_slice _ _ Hwf1); by eexists|congruence|congruence|lia]. }
    destruct e; try done. destruct (vfs_slice_table_ptr t1 _) as [a|]; [|done]. cbn.
    by apply (slot_store_shape t1 a zero_rec) in Hf1.
  - destruct (_ <? _); [|done]. unfold table_set. destruct (vfs_slice_table_ptr _ _); [|done]. by apply slot_store_shape.
  - destruct (_ =? _); [done|]. cbn. unfold vfs_slice_table_pop_last. destruct (_ =? 0); [done|].
    destruct (vfs_slice_table_ptr _ _) as [a|]; [|done]. by apply (slot_store_shape t a zero_rec) in Hf.
Qed.

Lemma push_succeeds al (t : vfs_slice_table R) s : table_wf t s → 0 < capacity t → memory_works al →
  count t < soft_max t `div` per_page t * per_page t → (vfs_slice_table_push_zero al t).1.1 = REND_SUCCESS.
Proof.
  intros Hwf Hc (Hal & Hset & Hins) Hlt. unfold vfs_slice_table_push_zero.
  pose proof (wf_count _ _ Hwf). pose proof (wf_cap _ _ Hwf). rewrite uw_small by lia.
  assert ((vfs_slice_table_ensure_cap al t (count t + 1)).1 = REND_SUCCESS) as He.
  { destruct (Z.leb_spec (count t + 1) (capacity t)).
    - unfold vfs_slice_table_ensure_cap. rewrite (wf_slice _ _ Hwf). by rewrite (proj2 (Z.leb_le _ _)) by lia.
    - apply (ensure_cap_limit al t s (count t + 1)); (done || lia). }
  destruct (vfs_slice_table_ensure_cap al t (count t + 1)) as [e t1] eqn:E. cbn in He. subst e.
  destruct (ensure_cap_wf _ _ _ _ _ _ Hwf E) as (s1 & Hwf1 & (_ & _ & Hc1 & _) & Hn & _).
  specialize (Hn eq_refl). by rewrite (ptr_wf t1 s1) by (done || lia).
Qed.

(** C25. Refinement: a slice table of [sizeof]-byte records is a list of records.
    After any sequence of pushes, reads and writes of records and pops, under
    any behaviour of the allocator, the table holds the list that the same
    operations produce, and each of them returned what it returns for the list:
    a push the index of the new record, or an error without changing anything,
    which it does only if the table could not be set up, has reached its limit
    or memory has run out; a read the record last written there. *)
Theorem slice_table_refines_list `{SZ : SizeOf R} al n cs e (t : vfs_slice_table R) t' rs :
  0 ≤ n < 2 ^ 32 → rt_init al n = (e, t) → run_cmds t cs = (t', rs) →
  rt_ok t'
  ∧ list_cmds (λ al l, e = REND_SUCCESS ∧ Z.of_nat (length l) < table_limit ∧ memory_works al) [] cs rs (rt_view t').
Proof.
  intros Hn Hi. destruct (rt_init_ok al n e t Hn Hi) as [Hok Hv]. rewrite <- Hv.
  apply (run_cmds_simulates _ (λ t, e = REND_SUCCESS → table_fresh t (sizeof R))).
  - intros t1 c Hok1 HI He. destruct (table_fresh_wf t1 _ Hok1 (HI He)) as [s Hwf]. apply (cmd_fresh t1 s c _ Hwf), HI, He.
  - intros al1 t1 Hok1 HI (He & Hlt & Hmem). destruct (table_fresh_wf t1 _ Hok1 (HI He)) as [s Hwf].
    destruct (HI He) as (_ & Hel & Hsm & Hc). apply (push_succeeds al1 t1 s Hwf Hc Hmem).
    rewrite (wf_pp _ _ Hwf), Hel, Hsm. pose proof (rt_count_view t1 Hok1) as Hcv. unfold table_limit in Hlt.
    cbn in Hcv, Hlt |- *. unfold vfs_slice_table_count in Hcv. lia.
  - done.
  - intros ->. pose proof (sizeof_range (R := R)) as Hsz. assert (0 ≤ sizeof R) as Hsz0 by lia.
    destruct (init_ok al (sizeof R) n _ t Hn Hsz0 Hi) as (_ & _ & Hs). by destruct (Hs eq_refl) as (s & _ & _ & ?).
Qed.
End page_slice.
End properties.

(** ** Witnesses: a table of four records of 1024 bytes per page *)

Module Demo.
Import MapSlice.
#[local] Instance zero_Z : Zeroed Z := 0.
#[local] Instance size_Z : SizeOf Z.
Proof. refine {| sizeof := 1024 |}. done. Defined.

Definition demo_table : vfs_slice_table Z :=
  (vfs_slice_table_init (λ _, true) 1024 4).2.

Lemma demo_wf : ∃ s, table_wf demo_table s.
Proof.
  destruct (init_ok (R := Z) (λ _, true) 1024 4 _ demo_table ltac:(lia) ltac:(lia)
    (surjective_pairing _)) as (_ & _ & Hs).
  destruct (Hs ltac:(vm_compute; reflexivity)) as (s & Hwf & _). by exists s.
Qed.

Lemma slots_disjoint_witness : ∃ s, table_wf demo_table s
  ∧ PAGE_SLICE_IN_PAGE_OFF (vfs_st_byte_off demo_table 1) + elem_size demo_table ≤ PAGE_SIZE
  ∧ vfs_st_byte_off demo_table 1 + elem_size demo_table ≤ vfs_st_byte_off demo_table 3.
Proof.
  destruct demo_wf as [s Hs]. exists s. split; [exact Hs|].
  apply (slots_disjoint demo_table s 1 3 Hs); vm_compute; intuition discriminate.
Defined.

Lemma ensure_cap_stable_witness :
  let r := vfs_slice_table_ensure_cap (λ _, true) demo_table 5 in
  (∃ s', table_wf r.2 s')
  ∧ (r.1 = REND_SUCCESS → 5 ≤ capacity r.2)
  ∧ ∀ i, 0 ≤ i < capacity demo_table →
         vfs_slice_table_ptr r.2 i = vfs_slice_table_ptr demo_table i
         ∧ table_get r.2 i = table_get demo_table i.
Proof.
  destruct demo_wf as [s Hs].
  exact (ensure_cap_stable (λ _, true) demo_table s 5 _ _ Hs eq_refl).
Defined.

Lemma ensure_cap_limit_witness :
  (vfs_slice_table_ensure_cap (λ _, true) demo_table 9).1 = REND_SUCCESS
  ↔ 9 ≤ soft_max demo_table `div` per_page demo_table * per_page demo_table.
Proof.
  destruct demo_wf as [s Hs].
  apply (ensure_cap_limit (λ _, true) demo_table s 9 Hs); [reflexivity|reflexivity|reflexivity..].
Defined.

Lemma slice_table_refines_list_witness :
  let t := (rt_init (R := Z) (T := vfs_slice_table Z) (λ _, true) 4).2 in
  let cs := [CPush (λ _, true); CSet 0 7; CPush (λ _, true); CPop; CGet 0; CGet 1] in
  let rs := [RPushed 0; RDone; RPushed 1; RDone; RRecord (Some 7); RRecord None] in
  rt_ok (run_cmds t cs).1
  ∧ list_cmds (λ al l, (rt_init (R := Z) (T := vfs_slice_table Z) (λ _, true) 4).1 = REND_SUCCESS
                 ∧ Z.of_nat (length l) < table_limit (R := Z) ∧ memory_works (R := Z) al) [] cs rs (rt_view (run_cmds t cs).1).
Proof.
  intros t cs rs.
  apply (slice_table_refines_list (λ _, true) 4 cs (rt_init (λ _, true) 4).1 t).
  - lia.
  - exact (surjective_pairing _).
  - assert ((run_cmds t cs).2 = rs) as <- by (vm_compute; reflexivity). exact (surjective_pairing _).
Defined.
End Demo.
