(* ===== verification/DirNames.v ===== *)
(** * Sorted directory listings ([vfs_dir_names_insert], [vfs_slice_table.c])

    A scratch table of 64-byte name slots that readdir fills one child name
    at a time; it is kept sorted and free of duplicates. *)

From stdpp Require Import base numbers list strings gmap option sorting.
From Stdlib Require Import Ascii.
From S2P Require Import Prelude PageSlice SliceTable.

Definition VFS_DIR_NAME_SLOT : nat := 64.

Import ListTable.

(** A zeroed slot holds the empty string. *)
#[global] Instance name_zeroed : Zeroed cstr := [].

Section dir_names.
Context {T : Type} `{SC : StrcmpS} `{RT : RecordTable cstr T}.

(** [for (i = 0; i < count; i++)]: the name is already there. *)
Fixpoint dir_names_find (names : T) (name : cstr) (i : Z) (fuel : nat) : bool :=
  match fuel with
  | O => false
  | S fuel' =>
      match rt_get names i with
      | Some p => if strcmp_s p name VFS_DIR_NAME_SLOT =? 0 then true
                  else dir_names_find names name (i + 1) fuel'
      | None => dir_names_find names name (i + 1) fuel'
      end
  end.

(** [for (i = count - 1; i > 0; i--)]: move the last name down to its place. *)
Fixpoint dir_names_sink (names : T) (i : nat) : bool * T :=
  match i with
  | O => (true, names)
  | S i' =>
      match rt_get names (Z.of_nat i'), rt_get names (Z.of_nat i) with
      | Some a, Some b =>
          if strcmp_s a b VFS_DIR_NAME_SLOT <=? 0 then (true, names)
          else
            dir_names_sink
              (rt_set (rt_set names (Z.of_nat i') b) (Z.of_nat i) a) i'
      | _, _ => (false, rt_pop_last names)
      end
  end.

Definition vfs_dir_names_insert (al : alloc_oracle) (names : T) (name : ptr cstr)
  : bool * T :=
  match name with
  | None => (false, names)
  | Some name =>
      if is_nul name 0 then (false, names)
      else if dir_names_find names name 0 (Z.to_nat (rt_count names))
      then (true, names)
      else
        match rt_push_zero al names with
        | (REND_SUCCESS, names1, idx) =>
            match rt_get names1 idx with
            | None => (false, rt_pop_last names1)
            | Some _ =>
                let names2 :=
                  rt_set names1 idx (strncpy_term name (VFS_DIR_NAME_SLOT - 1)) in
                dir_names_sink names2 (Z.to_nat (rt_count names2 - 1))
            end
        | (_, names1, _) => (false, names1)
        end
  end.
End dir_names.

(** ** The order on names *)

Definition name_lt (a b : cstr) : Prop := strncmp a b VFS_DIR_NAME_SLOT < 0.

(** Strictly increasing: sorted and without duplicates. *)
Definition names_sorted (l : list cstr) : Prop := StronglySorted name_lt l.

Lemma strncmp_antisym a b n : strncmp b a n = - strncmp a b n.
Proof.
  revert a b. induction n as [|n IH]; intros [|x a] [|y b]; cbn; try done.
  destruct (decide (x = y)) as [->|Hne].
  - rewrite decide_True by done. apply IH.
  - rewrite decide_False by congruence.
    destruct (Z.ltb_spec (Z.of_N (N_of_ascii x)) (Z.of_N (N_of_ascii y)));
      destruct (Z.ltb_spec (Z.of_N (N_of_ascii y)) (Z.of_N (N_of_ascii x))); try lia.
    exfalso. apply Hne. assert (N_of_ascii x = N_of_ascii y) as E by lia.
    rewrite <- (ascii_N_embedding x), <- (ascii_N_embedding y). congruence.
Qed.

Lemma strncmp_trans a b c n :
  strncmp a b n < 0 → strncmp b c n < 0 → strncmp a c n < 0.
Proof.
  revert a b c. induction n as [|n IH]; intros [|x a] [|y b] [|z c]; cbn; try lia.
  repeat case_decide; subst; try done; [by apply IH|..];
    repeat destruct_if; zbool; try lia; done.
Qed.

Lemma strncmp_take_r a b n : strncmp a b n = strncmp a (take n b) n.
Proof.
  revert a b. induction n as [|n IH]; intros [|x a] [|y b]; cbn; try done.
  case_decide; [apply IH|done].
Qed.

#[global] Instance name_lt_trans : Transitive name_lt.
Proof. intros a b c. apply strncmp_trans. Qed.

Lemma names_sorted_snoc l x :
  names_sorted (l ++ [x]) ↔ names_sorted l ∧ Forall (λ y, name_lt y x) l.
Proof.
  unfold names_sorted. induction l as [|y l IH]; cbn.
  - split; [by repeat constructor|by repeat constructor].
  - split.
    + intros [Hs Hf]%StronglySorted_inv. apply IH in Hs as [Hs Hl].
      apply Forall_app in Hf as [Hf [Hy _]%Forall_cons_1].
      split; [by constructor|by constructor].
    + intros [[Hs Hf]%StronglySorted_inv [Hy Hl]%Forall_cons_1].
      constructor; [by apply IH|]. apply Forall_app_2; [done|]. by constructor.
Qed.

(** ** The insertion is an ordered-set insertion *)

Section insert_proofs.
Context {T : Type} `{SCL : StrcmpSLaws} `{RT : RecordTable cstr T}
        {RTL : RecordTableLaws cstr T}.
Implicit Types (names : T) (l r : list cstr).

Lemma strcmp_s_leb a b n : (strcmp_s a b n <=? 0) = (strncmp a b n <=? 0).
Proof.
  pose proof (strcmp_s_sgn a b n).
  destruct (Z.leb_spec (strcmp_s a b n) 0), (Z.leb_spec (strncmp a b n) 0); lia.
Qed.

Lemma view_get names l x r :
  rt_ok names → rt_view names = l ++ x :: r →
  rt_get names (Z.of_nat (length l)) = Some x.
Proof.
  intros Hok Hv. apply rt_get_view; [done|]. rewrite Hv. by apply list_lookup_middle.
Qed.

(** Names up to [x] stay before it, larger ones move behind it. *)
Lemma dir_names_sink_spec l : ∀ names x r,
  rt_ok names → rt_view names = l ++ x :: r → names_sorted l →
  ∃ l1 l2 names', dir_names_sink names (length l) = (true, names')
    ∧ rt_ok names' ∧ rt_view names' = l1 ++ x :: l2 ++ r ∧ l = l1 ++ l2
    ∧ Forall (λ y, strncmp y x VFS_DIR_NAME_SLOT ≤ 0) l1 ∧ Forall (name_lt x) l2.
Proof.
  induction l as [|y l IH] using rev_ind; intros names x r Hok Hv Hs.
  { exists [], [], names. by rewrite Hv. }
  rewrite length_app, Nat.add_comm. cbn [length Nat.add dir_names_sink].
  rewrite <- app_assoc in Hv. cbn in Hv.
  rewrite (view_get names l y (x :: r)) by done.
  pose proof (view_get names (l ++ [y]) x r Hok) as Hx.
  rewrite <- app_assoc, length_app, Nat.add_comm in Hx. cbn [length Nat.add app] in Hx.
  rewrite (Hx Hv). clear Hx. rewrite strcmp_s_leb.
  apply names_sorted_snoc in Hs as [Hs Hly].
  destruct (Z.leb_spec (strncmp y x VFS_DIR_NAME_SLOT) 0) as [Hle|Hgt].
  - exists (l ++ [y]), [], names. rewrite app_nil_r, <- app_assoc. cbn.
    split_and!; [done..| |done]. apply Forall_app_2; [|by constructor].
    eapply Forall_impl; [exact Hly|]. unfold name_lt. cbn. intros z Hz.
    destruct (decide (strncmp y x VFS_DIR_NAME_SLOT = 0)) as [E|E].
    + apply strncmp_sgn_0 in E.
      rewrite (strncmp_take_r z x), <- E, <- strncmp_take_r. lia.
    + pose proof (strncmp_trans z y x VFS_DIR_NAME_SLOT). lia.
  - destruct (rt_set_ok names (length l) x Hok) as [Hok1 Hv1].
    { rewrite Hv, length_app. cbn. lia. }
    rewrite Hv, list_insert_middle in Hv1.
    destruct (rt_set_ok (rt_set names (Z.of_nat (length l)) x) (S (length l)) y Hok1)
      as [Hok2 Hv2]. { rewrite Hv1, length_app. cbn. lia. }
    rewrite Hv1 in Hv2.
    replace (l ++ x :: x :: r) with ((l ++ [x]) ++ x :: r) in Hv2 by by rewrite <- app_assoc.
    replace (S (length l)) with (length (l ++ [x])) in Hv2 by (rewrite length_app; cbn; lia).
    rewrite list_insert_middle, length_app, Nat.add_comm, <- app_assoc in Hv2.
    cbn [length Nat.add app] in Hv2.
    destruct (IH _ x (y :: r) Hok2 Hv2 Hs) as (l1 & l2 & names' & E & ? & Hv' & -> & ? & ?).
    exists l1, (l2 ++ [y]), names'. rewrite E, <- !app_assoc. cbn.
    split_and!; [done|done|done|done|done|].
    apply Forall_app_2; [done|]. constructor; [|done]. unfold name_lt.
    rewrite strncmp_antisym. lia.
Qed.

Lemma dir_names_find_spec names name fuel i :
  rt_ok names → (i + fuel = length (rt_view names))%nat →
  dir_names_find names name (Z.of_nat i) fuel = true
  ↔ ∃ y, y ∈ drop i (rt_view names) ∧ strncmp y name VFS_DIR_NAME_SLOT = 0.
Proof.
  intros Hok. revert i. induction fuel as [|fuel IH]; intros i Hi; cbn [dir_names_find].
  - rewrite drop_ge by lia. split; [done|]. intros (y & []%not_elem_of_nil & _).
  - destruct (lookup_lt_is_Some_2 (rt_view names) i) as [p Hp]; [lia|].
    rewrite (rt_get_view _ _ _ Hok Hp), (drop_S _ _ _ Hp).
    assert (Z.of_nat i + 1 = Z.of_nat (S i)) as -> by lia.
    destruct (Z.eqb_spec (strcmp_s p name VFS_DIR_NAME_SLOT) 0) as [E|E];
      rewrite strcmp_s_0, <- strncmp_sgn_0 in E.
    + split; [|done]. intros _. exists p. split; [constructor|done].
    + rewrite IH by lia. split.
      * intros (y & ? & ?). exists y. split; [by constructor|done].
      * intros (y & [->|]%elem_of_cons & ?); [done|]. by exists y.
Qed.

Lemma sorted_insert l1 l2 x :
  names_sorted (l1 ++ l2) →
  Forall (λ y, strncmp y x VFS_DIR_NAME_SLOT ≤ 0) l1 →
  (∀ y, y ∈ l1 ++ l2 → strncmp y x VFS_DIR_NAME_SLOT ≠ 0) → Forall (name_lt x) l2 →
  names_sorted (l1 ++ x :: l2).
Proof.
  unfold names_sorted. induction l1 as [|y l1 IH]; cbn; intros Hs H1 Hne H2.
  - by constructor.
  - apply StronglySorted_inv in Hs as [Hs Hf]. apply Forall_cons_1 in H1 as [Hy H1].
    constructor.
    + apply IH; [done|done| |done]. intros z Hz. apply Hne. by constructor.
    + assert (name_lt y x) as Hyx.
      { unfold name_lt. specialize (Hne y (list_elem_of_here _ _)). lia. }
      apply Forall_app in Hf as [? ?]. apply Forall_app_2; [done|]. by constructor.
Qed.

Lemma dir_names_insert_spec al names name ok names' :
  rt_ok names → names_sorted (rt_view names) →
  (0 < length name < VFS_DIR_NAME_SLOT)%nat →
  Forall (λ y, length y < VFS_DIR_NAME_SLOT)%nat (rt_view names) →
  vfs_dir_names_insert al names (Some name) = (ok, names') →
  rt_ok names' ∧ names_sorted (rt_view names')
  ∧ (ok = true → name ∈ rt_view names'
       ∧ rt_view names' ≡ₚ (if decide (name ∈ rt_view names) then rt_view names
                            else name :: rt_view names))
  ∧ (ok = false → rt_view names' = rt_view names).
Proof.
  intros Hok Hs Hn Hlen. unfold vfs_dir_names_insert, is_nul.
  rewrite bool_decide_false by (destruct name; cbn in *; [lia|done]).
  pose proof (dir_names_find_spec names name (length (rt_view names)) 0 Hok eq_refl) as Hfind.
  rewrite drop_0 in Hfind. rewrite rt_count_view, Nat2Z.id by done.
  assert (∀ y, y ∈ rt_view names → strncmp y name VFS_DIR_NAME_SLOT = 0 ↔ y = name) as Heq.
  { intros y Hy. rewrite strncmp_sgn_0. rewrite Forall_forall in Hlen.
    specialize (Hlen y Hy). cbn in Hlen. rewrite !take_ge by lia. done. }
  change (Z.of_nat 0) with 0 in Hfind.
  destruct (dir_names_find names name 0 _).
  { intros [= <- <-]. destruct Hfind as [(y & Hy & E) _]; [done|].
    apply (Heq y Hy) in E as ->. rewrite decide_True by done. done. }
  assert (name ∉ rt_view names) as Hnew.
  { intros Hin. destruct Hfind as [_ Hf]. discriminate Hf. exists name.
    by split; [|apply Heq]. }
  destruct (rt_push_zero al names) as [[e names1] idx] eqn:Ep.
  destruct (rt_push_ok _ _ _ _ _ Hok Ep) as (Hok1 & Hsucc & Hfail).
  destruct e; [|intros [= <- <-]; rewrite Hfail by done; done..].
  destruct Hsucc as [Hv1 ->]; [done|]. rewrite rt_count_view by done.
  rewrite (view_get names1 (rt_view names) zero_rec []) by done.
  destruct (rt_set_ok names1 (length (rt_view names))
              (strncpy_term name (VFS_DIR_NAME_SLOT - 1)) Hok1) as [Hok2 Hv2].
  { rewrite Hv1, length_app. cbn. lia. }
  unfold strncpy_term in *. rewrite (take_ge name) in * by lia.
  rewrite Hv1, list_insert_middle in Hv2. cbv zeta. rewrite rt_count_view, Hv2 by done.
  rewrite length_app. cbn [length].
  replace (Z.to_nat (Z.of_nat (length (rt_view names) + 1) - 1))
    with (length (rt_view names)) by lia.
  destruct (dir_names_sink_spec _ _ _ _ Hok2 Hv2 Hs)
    as (l1 & l2 & t' & -> & Hok' & Hv' & Esplit & H1 & H2).
  rewrite app_nil_r in Hv'. intros [= <- <-]. rewrite decide_False by done.
  rewrite Hv', Esplit in *. split_and!; [done| | |done].
  - apply sorted_insert; [done|done| |done]. intros y Hy E. apply (Heq y Hy) in E as ->. done.
  - intros _. split; [set_solver|]. by rewrite Permutation_middle.
Qed.

(** [vfs_dir_names_insert] is insertion into an ordered set: for a name
    that fits a slot, a sorted listing stays sorted, success means that the
    name is listed exactly once and every other entry is kept, and failure
    (no memory) leaves the listing as it was. *)
Theorem dir_names_insert_ordered_set al names name ok names' :
  rt_ok names → names_sorted (rt_view names) →
  (0 < length name < VFS_DIR_NAME_SLOT)%nat →
  Forall (λ y, length y < VFS_DIR_NAME_SLOT)%nat (rt_view names) →
  vfs_dir_names_insert al names (Some name) = (ok, names') →
  rt_ok names' ∧ names_sorted (rt_view names')
  ∧ (ok = true → name ∈ rt_view names'
       ∧ rt_view names' ≡ₚ (if decide (name ∈ rt_view names) then rt_view names
                            else name :: rt_view names))
  ∧ (ok = false → rt_view names' = rt_view names).
Proof. apply dir_names_insert_spec. Qed.
End insert_proofs.

Lemma dir_names_insert_ordered_set_witness :
  let r := vfs_dir_names_insert (T := list cstr) (λ _, true) [str "bin"; str "etc"]
             (Some (str "dev")) in
  r = (true, [str "bin"; str "dev"; str "etc"]) ∧ names_sorted r.2.
Proof.
  split; [vm_compute; reflexivity|].
  refine (proj1 (proj2 (dir_names_insert_ordered_set (T := list cstr) (λ _, true)
    [str "bin"; str "etc"] (str "dev") true _ _ _ _ _ _))).
  - cbn. lia.
  - repeat constructor.
  - cbn. unfold VFS_DIR_NAME_SLOT. lia.
  - repeat constructor; cbn; unfold VFS_DIR_NAME_SLOT; lia.
  - vm_compute. reflexivity.
Defined.
