(* ===== verification/VfsInode.v ===== *)
(** * Inodes of the VFS middle layer, permissions and stat data

    [servers/fs/vfs_backend_ops.c] (inode helpers), [vfs_perm.c] (mode bits)
    and [vfs_kstat.c] (inode numbers and stat records). *)

From stdpp Require Import base numbers list strings option.
From Stdlib Require Import Ascii.
From S2P Require Import Prelude PageSlice VfsPath.

(** ** Inodes *)

(** [storage] is the address of the backend's record, 0 for NULL;
    [backend_port] is the name of the backend's port. *)
Record vfs_inode : Type := VfsInode {
  ino_path : cstr;
  backend_port : ptr cstr;
  backend_caps : Z;
  storage : Z;
  ino_mode : Z;
  ino_size : Z;
  nlink : Z;
  is_dir : bool;
  is_symlink : bool;
  writable : bool;
}.

#[global] Instance zero_inode : Zeroed vfs_inode :=
  VfsInode [] None 0 0 0 0 0 false false false.

Definition VFS_S_IFDIR : Z := 0x4000.

Definition vfs_inode_fill_path (ino : vfs_inode) (path : ptr cstr) : vfs_inode :=
  match path with
  | None => ino
  | Some p =>
      VfsInode (strncpy_term p (VFS_PATH_MAX - 1)) (backend_port ino) (backend_caps ino)
        (storage ino) (ino_mode ino) (ino_size ino) (nlink ino) (is_dir ino)
        (is_symlink ino) (writable ino)
  end.

Definition vfs_inode_init_synthetic_root : vfs_inode :=
  VfsInode [slash] None 0 0 (Z.lor VFS_S_IFDIR 0x1ed) 0 2 true false false.

(** ** Permissions *)

Definition VFS_PERM_R : Z := 4.
Definition VFS_PERM_W : Z := 2.
Definition VFS_PERM_X : Z := 1.

Record vfs_req_cred : Type := VfsReqCred { cred_uid : Z; cred_gid : Z }.

Definition vfs_perm_set_request (uid gid : Z) : vfs_req_cred := VfsReqCred uid gid.
Definition vfs_perm_get_request (cred : vfs_req_cred) : Z * Z :=
  (cred_uid cred, cred_gid cred).

Definition vfs_perm_check_mode (mode mask uid gid : Z) : Z :=
  if uid =? 0 then 0
  else
    let perm := Z.land (Z.shiftr mode 6) 7 in
    let perm := if perm =? 0 then 7 else perm in
    if has mask VFS_PERM_R && negb (has perm 4) then - LINUX_EACCES
    else if has mask VFS_PERM_W && negb (has perm 2) then - LINUX_EACCES
    else if has mask VFS_PERM_X && negb (has perm 1) then - LINUX_EACCES
    else 0.

Definition vfs_perm_check_mode_request (cred : vfs_req_cred) (mode mask : Z) : Z :=
  vfs_perm_check_mode mode mask (cred_uid cred) (cred_gid cred).

(** ** Inode numbers: FNV-1a of the path *)

Definition fnv_offset : Z := 14695981039346656037.
Definition fnv_prime : Z := 1099511628211.

Definition ino_step (h : Z) (c : ascii) : Z :=
  u64 (Z.lxor h (Z.of_N (N_of_ascii c)) * fnv_prime).

Definition vfs_path_to_ino (path : ptr cstr) : Z :=
  match path with
  | None => 1
  | Some p => let h := foldl ino_step fnv_offset p in if h =? 0 then 1 else h
  end.

(** ** Stat records *)

Record vfs_kstat : Type := VfsKstat {
  st_dev : Z; st_ino : Z; st_mode : Z; st_nlink : Z; st_uid : Z; st_gid : Z;
  st_rdev : Z; st_size : Z; st_blksize : Z; st_blocks : Z;
  st_atime_sec : Z; st_atime_nsec : Z; st_mtime_sec : Z; st_mtime_nsec : Z;
  st_ctime_sec : Z; st_ctime_nsec : Z;
}.

Definition vfs_kstat_from_inode (ino : vfs_inode) : vfs_kstat :=
  {| st_dev := 1;
     st_ino := vfs_path_to_ino (Some (ino_path ino));
     st_mode := ino_mode ino;
     st_nlink := if nlink ino =? 0 then 1 else nlink ino;
     st_uid := 0; st_gid := 0; st_rdev := 0;
     st_size := i64 (ino_size ino);
     st_blksize := 4096;
     st_blocks := u64 (ino_size ino + 511) `div` 512;
     st_atime_sec := 0; st_atime_nsec := 0; st_mtime_sec := 0; st_mtime_nsec := 0;
     st_ctime_sec := 0; st_ctime_nsec := 0 |}.

Definition VFS_DT_UNKNOWN : Z := 0.
Definition VFS_DT_DIR : Z := 4.
Definition VFS_DT_REG : Z := 8.
Definition VFS_DT_LNK : Z := 10.

Record vfs_dirent : Type := VfsDirent { d_name : cstr; d_type : Z; d_ino : Z }.

(** ** Properties *)

(** The permissions a non-root caller is given: the owner's bits, or all of
    them when the owner has none. *)
Definition effective_perm (mode : Z) : Z :=
  let p := Z.land (Z.shiftr mode 6) 7 in if p =? 0 then 7 else p.

(** Permission check: root is always allowed; any other caller is allowed
    exactly the access modes among the owner's bits (of the nine permission
    bits only these count), except that a mode without any owner bit allows
    everything.  The only error is EACCES. *)
Theorem perm_check_mode_spec mode mask uid gid :
  0 ≤ mask < 8 →
  (vfs_perm_check_mode mode mask uid gid = 0
   ↔ uid = 0 ∨ Z.land mask (effective_perm mode) = mask)
  ∧ (vfs_perm_check_mode mode mask uid gid = 0
     ∨ vfs_perm_check_mode mode mask uid gid = - LINUX_EACCES).
Proof.
  intros Hm. unfold vfs_perm_check_mode.
  change (if Z.land (Z.shiftr mode 6) 7 =? 0 then 7 else Z.land (Z.shiftr mode 6) 7)
    with (effective_perm mode).
  assert (0 ≤ effective_perm mode < 8) as Hp.
  { unfold effective_perm. pose proof (Z.land_ones (Z.shiftr mode 6) 3 ltac:(lia)) as E.
    change (Z.ones 3) with 7 in E. rewrite E.
    pose proof (Z.mod_pos_bound (Z.shiftr mode 6) (2 ^ 3) ltac:(lia)).
    destruct_if; zbool; lia. }
  destruct (Z.eqb_spec uid 0) as [->|Hu]; [tauto|].
  cbv zeta. generalize dependent (effective_perm mode). intros p Hp.
  enumerate mask 8%nat; enumerate p 8%nat; vm_compute; intuition congruence.
Qed.

Lemma perm_check_mode_spec_witness :
  (vfs_perm_check_mode 0x1a4 VFS_PERM_X 1000 1000 = 0
   ↔ 1000 = 0 ∨ Z.land VFS_PERM_X (effective_perm 0x1a4) = VFS_PERM_X)
  ∧ (vfs_perm_check_mode 0x1a4 VFS_PERM_X 1000 1000 = 0
     ∨ vfs_perm_check_mode 0x1a4 VFS_PERM_X 1000 1000 = - LINUX_EACCES).
Proof. apply perm_check_mode_spec. unfold VFS_PERM_X. lia. Defined.

Lemma foldl_ino_range p h : 0 ≤ h < 2 ^ 64 → 0 ≤ foldl ino_step h p < 2 ^ 64.
Proof.
  revert h. induction p as [|c p IH]; intros h Hh; cbn; [done|].
  apply IH. by apply uw_range.
Qed.

(** Stat data: an inode number is a non-zero 64-bit value that depends on
    the path only; for a file of less than [2^63] bytes [st_size] is the size and
    [st_blocks] the least number of 512-byte blocks that hold it, and the
    link count is never 0. *)
Theorem kstat_from_inode_spec ino :
  0 ≤ ino_size ino < 2 ^ 63 → 0 ≤ nlink ino →
  let st := vfs_kstat_from_inode ino in
  0 < st_ino st < 2 ^ 64
  ∧ st_size st = ino_size ino
  ∧ 512 * (st_blocks st - 1) < ino_size ino ≤ 512 * st_blocks st
  ∧ 1 ≤ st_nlink st ∧ st_mode st = ino_mode ino.
Proof.
  intros Hs Hn. cbn. split_and!.
  - pose proof (foldl_ino_range (ino_path ino) fnv_offset ltac:(done)) as Hf.
    unfold vfs_path_to_ino, fnv_offset in *. cbv zeta. destruct_if; zbool; lia.
  - unfold vfs_path_to_ino. pose proof (foldl_ino_range (ino_path ino) fnv_offset ltac:(done)) as Hf.
    unfold fnv_offset in *. cbv zeta. destruct_if; zbool; lia.
  - apply iw_small; lia.
  - rewrite uw_small by lia. pose proof (Z.div_mod (ino_size ino + 511) 512).
    pose proof (Z.mod_pos_bound (ino_size ino + 511) 512). lia.
  - rewrite uw_small by lia. pose proof (Z.div_mod (ino_size ino + 511) 512).
    pose proof (Z.mod_pos_bound (ino_size ino + 511) 512). lia.
  - destruct_if; zbool; lia.
  - done.
Qed.

Lemma kstat_from_inode_spec_witness :
  let ino := VfsInode (str "/bin/sh") None 0 0 0x81ed 513 0 false false false in
  let st := vfs_kstat_from_inode ino in
  st_blocks st = 2 ∧ 0 < st_ino st < 2 ^ 64
  ∧ st_size st = ino_size ino
  ∧ 512 * (st_blocks st - 1) < ino_size ino ≤ 512 * st_blocks st
  ∧ 1 ≤ st_nlink st ∧ st_mode st = ino_mode ino.
Proof.
  intros ino st. split; [reflexivity|]. apply (kstat_from_inode_spec ino); cbn; lia.
Defined.
