(* ===== verification/VfsHandle.v ===== *)
(** * The open-file handle table ([servers/fs/vfs_handle.c])

    One global table of reference-counted open files; the file descriptors of
    all processes are handles into it.  The table is any record table; its
    contents are the finite map [live] from handle numbers to open files, and
    every operation is shown to be the map operation it promises. *)

From stdpp Require Import base numbers list strings gmap option.
From Stdlib Require Import Ascii.
From S2P Require Import Prelude PageSlice SliceTable VfsPath VfsInode.

Definition VFS_HANDLE_INVALID : Z := 0.

Record vfs_open_handle : Type := VfsOpenHandle {
  in_use : bool;
  refcnt : Z;
  h_ino : vfs_inode;
  h_offset : Z;
  open_flags : Z;
}.

#[global] Instance zero_handle : Zeroed vfs_open_handle :=
  VfsOpenHandle false 0 zero_inode 0 0.

Definition with_refcnt (h : vfs_open_handle) (n : Z) : vfs_open_handle :=
  VfsOpenHandle (in_use h) n (h_ino h) (h_offset h) (open_flags h).

Section handles.
Context {T : Type} `{SC : StrcmpS} `{RT : RecordTable vfs_open_handle T}.

Definition vfs_handle_at (t : T) (i : Z) : ptr vfs_open_handle := rt_get t i.

Definition vfs_handle_init (al : alloc_oracle) : error_t * T :=
  match rt_init al 32 with
  | (REND_SUCCESS, t) =>
      match rt_push_zero al t with
      | (REND_SUCCESS, t1, _) => (REND_SUCCESS, t1)
      | (e, t1, _) => (e, rt_destroy t1)
      end
  | (e, t) => (e, t)
  end.

Definition vfs_handle_alloc_slot (al : alloc_oracle) (t : T) : T * Z :=
  match rt_scan (λ h, negb (in_use h)) t 1 with
  | Some i => (t, i)
  | None =>
      match rt_push_zero al t with
      | (REND_SUCCESS, t1, idx) =>
          match vfs_handle_at t1 idx with
          | None => (rt_pop_last t1, VFS_HANDLE_INVALID)
          | Some _ => (t1, idx)
          end
      | (_, t1, _) => (t1, VFS_HANDLE_INVALID)
      end
  end.

Definition vfs_handle_open (al : alloc_oracle) (t : T) (ino : ptr vfs_inode) (flags : Z)
  : T * Z :=
  match ino with
  | None => (t, VFS_HANDLE_INVALID)
  | Some ino =>
      let '(t1, id) := vfs_handle_alloc_slot al t in
      if id =? VFS_HANDLE_INVALID then (t1, VFS_HANDLE_INVALID)
      else
        match vfs_handle_at t1 id with
        | None => (t1, VFS_HANDLE_INVALID)
        | Some _ => (rt_set t1 id (VfsOpenHandle true 1 ino 0 flags), id)
        end
  end.

Definition vfs_handle_get (t : T) (handle : Z) : ptr vfs_open_handle :=
  if handle =? 0 then None
  else
    match vfs_handle_at t handle with
    | Some h => if in_use h then Some h else None
    | None => None
    end.

Definition vfs_handle_retain (t : T) (handle : Z) : T * Z :=
  match vfs_handle_get t handle with
  | None => (t, - LINUX_EBADF)
  | Some h =>
      if 0xffffffff <=? refcnt h then (t, - LINUX_EMFILE)
      else (rt_set t handle (with_refcnt h (u32 (refcnt h + 1))), 0)
  end.

Definition vfs_handle_close (t : T) (handle : Z) : T * Z :=
  match vfs_handle_get t handle with
  | None => (t, - LINUX_EBADF)
  | Some h =>
      if refcnt h =? 0 then (t, - LINUX_EBADF)
      else
        let h' := with_refcnt h (u32 (refcnt h - 1)) in
        if 0 <? refcnt h' then (rt_set t handle h', 0)
        else (rt_set t handle zero_rec, 0)
  end.

Definition vfs_handle_path_under_mount (handle_path mount_path : cstr) (mlen : nat) : bool :=
  if strcmp_s handle_path mount_path VFS_PATH_MAX =? 0 then true
  else if (mlen =? 0)%nat then false
  else if negb (strcmp_s handle_path mount_path mlen =? 0) then false
  else is_char handle_path mlen slash.

Definition vfs_handle_busy_under_path (t : T) (path : ptr cstr) : bool :=
  match path with
  | None => false
  | Some path =>
      let norm := path_norm path in
      let mlen := length norm in
      match rt_scan (λ h, in_use h
                          && (vfs_path_is_root (Some norm)
                              || vfs_handle_path_under_mount (ino_path (h_ino h)) norm mlen))
              t 1 with
      | Some _ => true
      | None => false
      end
  end.
End handles.

(** ** The abstract open-file table *)

Section abstract.
Context {T : Type} `{RT : RecordTable vfs_open_handle T}
        {RTL : RecordTableLaws vfs_open_handle T}.
Implicit Types t : T.

(** The open files, by handle number. *)
Definition live (t : T) : gmap Z vfs_open_handle :=
  filter (λ kh, in_use kh.2 = true)
    (list_to_map (imap (λ i h, (Z.of_nat i, h)) (rt_view t))).

(** Slot 0 is reserved; a slot is free or holds an open file that at least one
    and at most [2^32 - 1] references name.  A free slot need not be zeroed: the
    answer to a write that was under way when its file was closed still sets the
    size there. *)
Definition slot_wf (h : vfs_open_handle) : Prop :=
  in_use h = false ∨ (in_use h = true ∧ 1 ≤ refcnt h < 2 ^ 32).

Record handles_wf (t : T) : Prop := {
  hw_ok : rt_ok t;
  hw_slot0 : ∃ h, rt_view t !! 0%nat = Some h ∧ in_use h = false;
  hw_slots : Forall slot_wf (rt_view t);
}.

Lemma list_to_map_imap_lookup {A} (l : list A) (k : Z) :
  (list_to_map (imap (λ i h, (Z.of_nat i, h)) l) : gmap Z A) !! k
  = if 0 <=? k then l !! Z.to_nat k else None.
Proof.
  assert (∀ l (off : nat), (list_to_map (imap (λ i h, (Z.of_nat (off + i), h)) l) : gmap Z A) !! k
    = if Z.of_nat off <=? k then l !! Z.to_nat (k - Z.of_nat off) else None) as Hg.
  { clear l. induction l as [|x l IH]; intros off; cbn; [by destruct_if|].
    rewrite Nat.add_0_r. destruct (decide (k = Z.of_nat off)) as [->|Hne].
    - rewrite lookup_insert_eq, Z.leb_refl, Z.sub_diag. done.
    - rewrite lookup_insert_ne by done.
      erewrite imap_ext; [rewrite (IH (S off))|].
      2:{ intros i x' _. cbn. by replace (off + S i)%nat with (S (off + i)) by lia. }
      destruct (Z.leb_spec (Z.of_nat (S off)) k), (Z.leb_spec (Z.of_nat off) k); try lia; try done.
      replace (Z.to_nat (k - Z.of_nat off)) with (S (Z.to_nat (k - Z.of_nat (S off)))) by lia.
      done. }
  etrans; [apply (Hg l 0%nat)|]. by rewrite Z.sub_0_r.
Qed.

Lemma live_lookup t k h :
  live t !! k = Some h ↔ 0 ≤ k ∧ rt_view t !! Z.to_nat k = Some h ∧ in_use h = true.
Proof.
  unfold live. rewrite map_lookup_filter_Some, list_to_map_imap_lookup. cbn.
  destruct (Z.leb_spec 0 k); naive_solver lia.
Qed.

Lemma live_lookup_nat t (i : nat) h :
  live t !! Z.of_nat i = Some h ↔ rt_view t !! i = Some h ∧ in_use h = true.
Proof. rewrite live_lookup, Nat2Z.id. naive_solver lia. Qed.

Lemma live_not_0 t : handles_wf t → live t !! 0 = None.
Proof.
  intros Hwf. apply eq_None_not_Some. intros [h Hh]. apply (live_lookup_nat t 0) in Hh as [Eh Hu].
  destruct (hw_slot0 t Hwf) as (h0 & E0 & Hu0). congruence.
Qed.

(** Writing a slot inserts the file, or deletes it when the slot is freed. *)
Lemma live_set t (i : nat) h :
  rt_ok t → (i < length (rt_view t))%nat →
  live (rt_set t (Z.of_nat i) h)
  = if in_use h then <[Z.of_nat i := h]> (live t) else delete (Z.of_nat i) (live t).
Proof.
  intros Hok Hi. destruct (rt_set_ok t i h Hok Hi) as [_ Hv].
  apply map_eq_iff. intros k. apply option_eq. intros h'.
  rewrite live_lookup, Hv. destruct (decide (k = Z.of_nat i)) as [->|Hk].
  - rewrite Nat2Z.id, list_lookup_insert_eq by done.
    destruct (in_use h) eqn:Eu; [rewrite lookup_insert_eq|rewrite lookup_delete_eq].
    + split; [naive_solver|]. intros [= <-]. split; [lia|done].
    + split; [|done]. intros (_ & [= <-] & ?). congruence.
  - transitivity (live t !! k = Some h'); [rewrite live_lookup|].
    + destruct (Z.leb_spec 0 k); [|naive_solver lia].
      rewrite list_lookup_insert_ne by lia. done.
    + destruct (in_use h); [rewrite lookup_insert_ne by done|rewrite lookup_delete_ne by done]; done.
Qed.

Lemma live_push t t' :
  rt_view t' = rt_view t ++ [zero_rec] → live t' = live t.
Proof.
  intros Hv. apply map_eq_iff. intros k. apply option_eq. intros h.
  rewrite !live_lookup, Hv, lookup_app_Some, list_lookup_singleton_Some. split.
  - intros (? & [?|(? & ? & <-)] & ?); [done|]. done.
  - intros (? & ? & ?). naive_solver.
Qed.

Lemma handles_wf_set t (i : nat) h :
  handles_wf t → (0 < i < length (rt_view t))%nat → slot_wf h →
  handles_wf (rt_set t (Z.of_nat i) h).
Proof.
  intros [Hok H0 Hs] Hi Hh. destruct (rt_set_ok t i h Hok) as [? Hv]; [lia|].
  split; [done| |]; rewrite Hv.
  - by rewrite list_lookup_insert_ne by lia.
  - by apply Forall_insert.
Qed.

Lemma rt_set_length t (i : nat) h : rt_ok t → (i < length (rt_view t))%nat →
  length (rt_view (rt_set t (Z.of_nat i) h)) = length (rt_view t).
Proof. intros Hok Hi. destruct (rt_set_ok t i h Hok Hi) as [_ ->]. apply length_insert. Qed.

(** Changing a slot without opening or closing it, the reserved one included. *)
Lemma handles_wf_update t (i : nat) h h' : handles_wf t → rt_view t !! i = Some h →
  in_use h' = in_use h → refcnt h' = refcnt h → handles_wf (rt_set t (Z.of_nat i) h').
Proof.
  intros [Hok (h0 & H0 & Hu0) Hs] Hi Hu Hr. destruct (rt_set_ok t i h' Hok) as [? Hv]; [by eapply lookup_lt_Some|].
  split; [done| |]; rewrite Hv.
  - destruct i as [|i].
    + exists h'. rewrite list_lookup_insert_eq by by eapply lookup_lt_Some. split; [done|congruence].
    + exists h0. by rewrite list_lookup_insert_ne by done.
  - apply Forall_insert; [done|]. pose proof (Forall_lookup_1 _ _ _ _ Hs Hi) as Hsl. unfold slot_wf in *. by rewrite Hu, Hr.
Qed.

Lemma handles_wf_push t t' :
  handles_wf t → rt_ok t' → rt_view t' = rt_view t ++ [zero_rec] → handles_wf t'.
Proof.
  intros [Hok (h0 & H0 & Hu0) Hs] Hok' Hv. split; [done| |]; rewrite Hv.
  - exists h0. split; [by apply lookup_app_l_Some|done].
  - apply Forall_app_2; [done|]. constructor; [by left|done].
Qed.

Lemma handle_get_live t k : handles_wf t → 0 ≤ k → vfs_handle_get t k = live t !! k.
Proof.
  intros Hwf Hk. unfold vfs_handle_get, vfs_handle_at.
  destruct (Z.eqb_spec k 0) as [->|Hk0]; [by rewrite live_not_0|].
  rewrite <- (Z2Nat.id k) by done. set (i := Z.to_nat k).
  destruct (rt_view t !! i) as [h|] eqn:Ei.
  - rewrite (rt_get_view t i h (hw_ok _ Hwf) Ei). destruct (in_use h) eqn:Eu; symmetry.
    + by apply live_lookup_nat.
    + apply eq_None_not_Some. intros [h' Hh']. apply live_lookup_nat in Hh' as [? ?].
      congruence.
  - assert (live t !! Z.of_nat i = None) as ->.
    { apply eq_None_not_Some. intros [h' Hh']. apply live_lookup_nat in Hh' as [? _].
      congruence. }
    destruct (rt_get t (Z.of_nat i)) as [h|] eqn:Eg; [|done].
    apply lookup_ge_None in Ei. pose proof (rt_count_view t (hw_ok _ Hwf)).
    rewrite (rt_get_past t (Z.of_nat i) h (hw_ok _ Hwf)) by (done || lia). done.
Qed.

Lemma live_pos t k h : handles_wf t → live t !! k = Some h →
  0 < k ∧ (0 < Z.to_nat k < length (rt_view t))%nat ∧ slot_wf h ∧ 1 ≤ refcnt h < 2 ^ 32.
Proof.
  intros Hwf Hl. assert (k ≠ 0). { intros ->. by rewrite live_not_0 in Hl. }
  apply live_lookup in Hl as (Hk & Hv & Hu). pose proof (lookup_lt_Some _ _ _ Hv).
  pose proof (Forall_lookup_1 _ _ _ _ (hw_slots t Hwf) Hv) as Hs.
  split_and!; [lia..|done| |]; destruct Hs as [?|[_ ?]]; (congruence || lia).
Qed.

(** What each operation does to the open files. *)
Lemma handle_alloc_slot_spec al t t' id :
  handles_wf t → vfs_handle_alloc_slot al t = (t', id) →
  handles_wf t' ∧ live t' = live t
  ∧ (id = VFS_HANDLE_INVALID
     ∨ (0 < Z.to_nat id < length (rt_view t'))%nat ∧ 0 < id ∧ live t' !! id = None).
Proof.
  intros Hwf. unfold vfs_handle_alloc_slot, vfs_handle_at.
  destruct (rt_scan _ t 1) as [k|] eqn:Escan.
  - intros [= <- <-].
    destruct (rt_scan_Some _ t 1 k (hw_ok _ Hwf) Escan) as (j & r & -> & Hj & Hr & Ht & _).
    split_and!; [done|done|right]. rewrite Nat2Z.id. pose proof (lookup_lt_Some _ _ _ Hr).
    split_and!; [lia|lia|lia|]. apply eq_None_not_Some. intros [h Hh].
    apply live_lookup_nat in Hh as [? ?]. apply negb_true_iff in Ht. congruence.
  - destruct (rt_push_zero al t) as [[e t1] idx] eqn:Ep.
    destruct (rt_push_ok _ _ _ _ _ (hw_ok _ Hwf) Ep) as (Hok1 & Hs & Hf).
    destruct (decide (e = REND_SUCCESS)) as [->|He].
    + destruct (Hs eq_refl) as [Hv ->]. clear Hs Hf.
      pose proof (handles_wf_push t t1 Hwf Hok1 Hv) as Hwf1.
      pose proof (live_push t t1 Hv) as Hl1.
      destruct (hw_slot0 _ Hwf) as (h0 & Hlen%lookup_lt_Some & _).
      rewrite rt_count_view by apply Hwf.
      rewrite (rt_get_view t1 (length (rt_view t)) zero_rec Hok1).
      2:{ rewrite Hv. by apply list_lookup_middle. }
      intros [= <- <-]. split_and!; [done|done|right]. rewrite Nat2Z.id, Hv, length_app. cbn.
      split_and!; [lia|lia|lia|]. rewrite Hl1. apply eq_None_not_Some. intros [h Hh].
      apply live_lookup_nat in Hh as [Hh%lookup_lt_Some _]. lia.
    + specialize (Hf He). assert (handles_wf t1) as Hwf1.
      { destruct Hwf. split; rewrite ?Hf; done. }
      assert (live t1 = live t) as Hl by (unfold live; by rewrite Hf).
      destruct e; [done|..]; intros [= <- <-]; by split_and!; [..|left].
Qed.

Definition fresh_handle (ino : vfs_inode) (flags : Z) : vfs_open_handle :=
  VfsOpenHandle true 1 ino 0 flags.

Lemma handle_open_spec al t ino flags t' id :
  handles_wf t → vfs_handle_open al t (Some ino) flags = (t', id) →
  handles_wf t'
  ∧ (id = VFS_HANDLE_INVALID ∧ live t' = live t
     ∨ 0 < id ∧ live t !! id = None ∧ live t' = <[id := fresh_handle ino flags]> (live t)).
Proof.
  intros Hwf. unfold vfs_handle_open. destruct (vfs_handle_alloc_slot al t) as [t1 id1] eqn:Ea.
  destruct (handle_alloc_slot_spec _ _ _ _ Hwf Ea) as (Hwf1 & Hl1 & Hid).
  destruct (Z.eqb_spec id1 VFS_HANDLE_INVALID) as [->|Hne].
  { intros [= <- <-]. split; [done|by left]. }
  destruct Hid as [?|(Hi & Hpos & Hfree)]; [done|]. unfold vfs_handle_at.
  destruct (Z_of_nat_complete id1) as [i ->]; [lia|]. rewrite Nat2Z.id in Hi.
  destruct (lookup_lt_is_Some_2 (rt_view t1) i) as [h Hh]; [lia|].
  rewrite (rt_get_view t1 i h (hw_ok _ Hwf1) Hh). intros [= <- <-]. split.
  - apply handles_wf_set; [done|done|]. right. cbn. lia.
  - right. split_and!; [done|by rewrite <- Hl1|]. rewrite live_set by (apply Hwf1 || lia).
    by rewrite Hl1.
Qed.

Lemma handle_write_spec t k h h' :
  handles_wf t → live t !! k = Some h → slot_wf h' →
  handles_wf (rt_set t k h')
  ∧ live (rt_set t k h') = if in_use h' then <[k := h']> (live t) else delete k (live t).
Proof.
  intros Hwf Hl Hs. destruct (live_pos t k h Hwf Hl) as (Hk & Hi & _).
  rewrite <- (Z2Nat.id k) by lia. split.
  - by apply handles_wf_set.
  - apply live_set; [apply Hwf|lia].
Qed.

Lemma handle_retain_spec t k :
  handles_wf t → 0 ≤ k →
  handles_wf (vfs_handle_retain t k).1
  ∧ match live t !! k with
    | None => vfs_handle_retain t k = (t, - LINUX_EBADF)
    | Some h =>
        if refcnt h =? 2 ^ 32 - 1 then vfs_handle_retain t k = (t, - LINUX_EMFILE)
        else (vfs_handle_retain t k).2 = 0
             ∧ live (vfs_handle_retain t k).1
               = <[k := with_refcnt h (refcnt h + 1)]> (live t)
    end.
Proof.
  intros Hwf Hk. unfold vfs_handle_retain. rewrite handle_get_live by done.
  destruct (live t !! k) as [h|] eqn:El; [|done].
  destruct (live_pos t k h Hwf El) as (_ & _ & Hs & Hr).
  destruct (Z.leb_spec 0xffffffff (refcnt h)), (Z.eqb_spec (refcnt h) (2 ^ 32 - 1)); try lia; [done|].
  cbn [fst snd]. rewrite uw_small by lia.
  pose proof El as (_ & _ & Hu)%live_lookup.
  destruct (handle_write_spec t k h (with_refcnt h (refcnt h + 1)) Hwf El) as [? ->].
  - right. cbn. split; [done|lia].
  - cbn [with_refcnt in_use]. by rewrite Hu.
Qed.

Lemma handle_close_spec t k :
  handles_wf t → 0 ≤ k →
  handles_wf (vfs_handle_close t k).1
  ∧ match live t !! k with
    | None => vfs_handle_close t k = (t, - LINUX_EBADF)
    | Some h =>
        (vfs_handle_close t k).2 = 0
        ∧ live (vfs_handle_close t k).1
          = if refcnt h =? 1 then delete k (live t)
            else <[k := with_refcnt h (refcnt h - 1)]> (live t)
    end.
Proof.
  intros Hwf Hk. unfold vfs_handle_close. rewrite handle_get_live by done.
  destruct (live t !! k) as [h|] eqn:El; [|done].
  destruct (live_pos t k h Hwf El) as (_ & _ & Hs & Hr).
  destruct (Z.eqb_spec (refcnt h) 0); [lia|]. cbv zeta. cbn [with_refcnt refcnt].
  rewrite uw_small by lia. pose proof El as (_ & _ & Hu)%live_lookup.
  destruct (Z.ltb_spec 0 (refcnt h - 1)), (Z.eqb_spec (refcnt h) 1); try lia; cbn [fst snd].
  - destruct (handle_write_spec t k h (with_refcnt h (refcnt h - 1)) Hwf El) as [? ->].
    + right. cbn. split; [done|lia].
    + cbn [with_refcnt in_use]. by rewrite Hu.
  - destruct (handle_write_spec t k h zero_rec Hwf El) as [? ->]; [by left|]. done.
Qed.

(** The table never gets shorter. *)
Lemma live_set_length t k h h' : handles_wf t → live t !! k = Some h →
  length (rt_view (rt_set t k h')) = length (rt_view t).
Proof.
  intros Hwf Hl. destruct (live_pos t k h Hwf Hl) as (Hk & Hi & _). rewrite <- (Z2Nat.id k) by lia.
  apply rt_set_length; [apply Hwf|lia].
Qed.

Lemma handle_open_length al t ino flags : handles_wf t →
  (length (rt_view t) ≤ length (rt_view (vfs_handle_open al t ino flags).1))%nat.
Proof.
  intros Hwf. unfold vfs_handle_open. destruct ino as [ino|]; [|done].
  assert (length (rt_view t) ≤ length (rt_view (vfs_handle_alloc_slot al t).1))%nat as Hle.
  { unfold vfs_handle_alloc_slot, vfs_handle_at. destruct (rt_scan _ t 1); [done|].
    destruct (rt_push_zero al t) as [[e t1] idx] eqn:Ep.
    destruct (rt_push_ok _ _ _ _ _ (hw_ok _ Hwf) Ep) as (Hok1 & Hs & Hf).
    destruct (decide (e = REND_SUCCESS)) as [->|He].
    - destruct (Hs eq_refl) as [Hv ->]. rewrite rt_count_view by apply Hwf.
      rewrite (rt_get_view t1 (length (rt_view t)) zero_rec Hok1) by (rewrite Hv; by apply list_lookup_middle).
      cbn. rewrite Hv, length_app. lia.
    - rewrite (Hf He) in *. destruct e; [done|..]; cbn; by rewrite Hf. }
  destruct (vfs_handle_alloc_slot al t) as [t1 id] eqn:Ea. cbn [fst] in Hle.
  destruct (handle_alloc_slot_spec _ _ _ _ Hwf Ea) as (Hwf1 & _ & Hid).
  destruct (Z.eqb_spec id VFS_HANDLE_INVALID); [done|]. destruct Hid as [?|(Hi & Hpos & _)]; [done|].
  destruct (vfs_handle_at t1 id); [|done]. cbn [fst]. rewrite <- (Z2Nat.id id) by lia.
  rewrite rt_set_length by (apply Hwf1 || lia). done.
Qed.

Lemma handle_retain_length t k : handles_wf t → 0 ≤ k →
  length (rt_view (vfs_handle_retain t k).1) = length (rt_view t).
Proof.
  intros Hwf Hk. unfold vfs_handle_retain. rewrite handle_get_live by done.
  destruct (live t !! k) as [h|] eqn:El; [|done]. destruct (_ <=? _); [done|]. by eapply live_set_length.
Qed.

Lemma handle_close_length t k : handles_wf t → 0 ≤ k →
  length (rt_view (vfs_handle_close t k).1) = length (rt_view t).
Proof.
  intros Hwf Hk. unfold vfs_handle_close. rewrite handle_get_live by done.
  destruct (live t !! k) as [h|] eqn:El; [|done]. cbv zeta. repeat case_match; try done; by eapply live_set_length.
Qed.
End abstract.

(** ** Clients holding references *)

Section clients.
Context {T : Type} `{SCL : StrcmpSLaws} `{RT : RecordTable vfs_open_handle T}
        {RTL : RecordTableLaws vfs_open_handle T}.
Implicit Types (t : T) (held : list Z).

(** The file-descriptor layer as a client: it owns a bag of references, and
    retains or closes only handles it holds. *)
Inductive client_step : T * list Z → T * list Z → Prop :=
  | ClientOpen al t t' held ino flags id :
      vfs_handle_open al t (Some ino) flags = (t', id) →
      client_step (t, held)
        (t', if id =? VFS_HANDLE_INVALID then held else id :: held)
  | ClientRetain t t' held k r :
      k ∈ held → vfs_handle_retain t k = (t', r) →
      client_step (t, held) (t', if r =? 0 then k :: held else held)
  | ClientClose t t' held held' k r :
      held ≡ₚ k :: held' → vfs_handle_close t k = (t', r) →
      client_step (t, held) (t', held').

Definition references t (k : Z) : Z :=
  match live t !! k with Some h => refcnt h | None => 0 end.

Definition refs_exact t held : Prop :=
  handles_wf t ∧ ∀ k, references t k = Z.of_nat (count_occ Z.eq_dec held k).

Lemma init_refs_exact al t :
  vfs_handle_init al = (REND_SUCCESS, t) → refs_exact t [].
Proof.
  unfold vfs_handle_init. destruct (rt_init al 32) as [e t0] eqn:Ei.
  destruct (rt_init_ok al 32 e t0 ltac:(lia) Ei) as [Hok0 Hv0].
  destruct e; try done. destruct (rt_push_zero al t0) as [[e1 t1] idx] eqn:Ep.
  destruct (rt_push_ok _ _ _ _ _ Hok0 Ep) as (Hok1 & Hs & _).
  destruct e1; try done. intros [= <-]. destruct (Hs eq_refl) as [Hv _].
  rewrite Hv0 in Hv. cbn in Hv. split.
  - split; [done|rewrite Hv; by eexists|]. rewrite Hv. constructor; [by left|done].
  - intros k. unfold references. rewrite (live_push t0 t1) by by rewrite Hv, Hv0.
    destruct (live t0 !! k) eqn:E; [|done]. apply live_lookup in E as (_ & E & _).
    by rewrite Hv0 in E.
Qed.

Lemma held_live t held k :
  refs_exact t held → k ∈ held → ∃ h, live t !! k = Some h ∧ 0 ≤ k.
Proof.
  intros [Hwf Hr] Hk. specialize (Hr k). unfold references in Hr.
  apply list_elem_of_In, (count_occ_In Z.eq_dec) in Hk.
  destruct (live t !! k) as [h|] eqn:E; [|lia]. exists h.
  destruct (live_pos t k h Hwf E). split; [done|lia].
Qed.

Lemma count_occ_perm (l l' : list Z) k :
  l ≡ₚ l' → count_occ Z.eq_dec l k = count_occ Z.eq_dec l' k.
Proof. intros Hp. exact (proj1 (Permutation_count_occ Z.eq_dec l l') Hp k). Qed.

Lemma client_step_exact s s' :
  client_step s s' → refs_exact s.1 s.2 → refs_exact s'.1 s'.2.
Proof.
  intros Hst Hex. pose proof Hex as [Hwf Hr].
  destruct Hst as [al t t' held ino flags id E|t t' held k r Hk E|t t' held held' k r Hp E];
    cbn in *.
  - destruct (handle_open_spec _ _ _ _ _ _ Hwf E) as (Hwf' & [(-> & Hl)|(Hid & Hn & Hl)]).
    + split; [done|]. intros j. unfold references. rewrite Hl. exact (Hr j).
    + assert ((id =? VFS_HANDLE_INVALID) = false) as -> by (apply Z.eqb_neq; unfold VFS_HANDLE_INVALID; lia).
      split; [done|]. intros j. specialize (Hr j). unfold references in *. rewrite Hl. cbn.
      destruct (Z.eq_dec id j) as [->|].
      * rewrite lookup_insert_eq. rewrite Hn in Hr. cbn. lia.
      * by rewrite lookup_insert_ne.
  - destruct (held_live t held k Hex Hk) as (h & Hh & Hk0).
    destruct (handle_retain_spec t k Hwf Hk0) as [Hwf' Hs]. rewrite Hh in Hs.
    destruct (refcnt h =? 2 ^ 32 - 1).
    + rewrite E in Hs. injection Hs as -> ->. done.
    + rewrite E in Hwf', Hs. destruct Hs as [Hr0 Hl]. cbn in Hr0, Hl, Hwf'. subst r. cbn.
      split; [done|]. intros j. specialize (Hr j). unfold references in *. rewrite Hl. cbn.
      destruct (Z.eq_dec k j) as [->|].
      * rewrite lookup_insert_eq. rewrite Hh in Hr. cbn. lia.
      * by rewrite lookup_insert_ne.
  - destruct (held_live t held k Hex) as (h & Hh & Hk0); [rewrite Hp; constructor|].
    destruct (handle_close_spec t k Hwf Hk0) as [Hwf' Hs]. rewrite Hh in Hs.
    rewrite E in Hwf', Hs. cbn in Hwf', Hs. destruct Hs as [_ Hl].
    split; [done|]. intros j. specialize (Hr j).
    rewrite (count_occ_perm _ _ j Hp) in Hr. unfold references in *. rewrite Hl. cbn in Hr.
    destruct (Z.eq_dec k j) as [->|].
    + rewrite Hh in Hr. destruct (Z.eqb_spec (refcnt h) 1).
      * rewrite lookup_delete_eq. lia.
      * rewrite lookup_insert_eq. cbn. lia.
    + destruct (refcnt h =? 1); [rewrite lookup_delete_ne by done|rewrite lookup_insert_ne by done];
        done.
Qed.

Lemma clients_exact s s' :
  rtc client_step s s' → refs_exact s.1 s.2 → refs_exact s'.1 s'.2.
Proof. induction 1 as [|s s1 s' Hs _ IH]; [done|]. eauto using client_step_exact. Qed.

(** C21. Reference counting: starting from an initialised table, whatever
    clients do with the references they hold, a file is open exactly while
    some reference to it is held and its counter is the number of references;
    so a handle that is still referenced is never handed out by another open,
    and each reference can be closed. *)
Theorem handle_refs_exact al t0 t held :
  vfs_handle_init al = (REND_SUCCESS, t0) → rtc client_step (t0, []) (t, held) →
  (∀ k, references t k = Z.of_nat (count_occ Z.eq_dec held k))
  ∧ (∀ k, k ∈ held → (vfs_handle_close t k).2 = 0)
  ∧ (∀ al ino flags, (vfs_handle_open al t (Some ino) flags).2 ∉ held).
Proof.
  intros Hi Hs. assert (refs_exact t held) as Hex.
  { apply (clients_exact (t0, []) (t, held) Hs). by apply (init_refs_exact al). }
  pose proof Hex as [Hwf Hr]. split_and!; [done| |].
  - intros k Hk. destruct (held_live t held k Hex Hk) as (h & Hh & Hk0).
    destruct (handle_close_spec t k Hwf Hk0) as [_ Hc]. rewrite Hh in Hc. apply Hc.
  - intros al' ino flags Hin.
    destruct (vfs_handle_open al' t (Some ino) flags) as [t' id] eqn:E.
    destruct (held_live t held id Hex Hin) as (h & Hh & _).
    destruct (handle_open_spec _ _ _ _ _ _ Hwf E) as (_ & [(-> & _)|(_ & Hn & _)]).
    + by rewrite (live_not_0 t Hwf : live t !! VFS_HANDLE_INVALID = None) in Hh.
    + congruence.
Qed.

(** Error paths: on a handle that is not open both retain and close answer
    EBADF and change nothing; a retain that would overflow the 32-bit counter
    answers EMFILE and changes nothing; a close drops one reference and frees
    the slot with the last one. *)
Theorem handle_retain_close_spec t k :
  handles_wf t → 0 ≤ k →
  match live t !! k with
  | None => vfs_handle_retain t k = (t, - LINUX_EBADF)
            ∧ vfs_handle_close t k = (t, - LINUX_EBADF)
  | Some h =>
      (if refcnt h =? 2 ^ 32 - 1 then vfs_handle_retain t k = (t, - LINUX_EMFILE)
       else (vfs_handle_retain t k).2 = 0
            ∧ live (vfs_handle_retain t k).1 = <[k := with_refcnt h (refcnt h + 1)]> (live t))
      ∧ (vfs_handle_close t k).2 = 0
      ∧ live (vfs_handle_close t k).1
        = if refcnt h =? 1 then delete k (live t)
          else <[k := with_refcnt h (refcnt h - 1)]> (live t)
  end.
Proof.
  intros Hwf Hk. destruct (handle_retain_spec t k Hwf Hk) as [_ Hr].
  destruct (handle_close_spec t k Hwf Hk) as [_ Hc]. by destruct (live t !! k).
Qed.

Lemma under_mount_prefix hp mp :
  path_comps mp ≠ [] →
  vfs_handle_path_under_mount (path_norm hp) (path_norm mp) (length (path_norm mp)) = true
  ↔ path_comps mp `prefix_of` path_comps hp.
Proof.
  intros Hne. pose proof (path_comps_canonical mp) as Hm. pose proof (path_comps_canonical hp) as Hh.
  rewrite !path_norm_render. set (ms := path_comps mp) in *. set (hs := path_comps hp) in *.
  unfold vfs_handle_path_under_mount.
  pose proof (render_short ms Hm). pose proof (render_short hs Hh).
  destruct (Z.eqb_spec (strcmp_s (render hs) (render ms) VFS_PATH_MAX) 0) as [E|E].
  { rewrite strcmp_s_0, !take_ge in E by lia. split; [intros _|done].
    rewrite <- (path_comps_render hs Hh), E, path_comps_render by done. done. }
  rewrite strcmp_s_0, !take_ge in E by lia. cbn [Nat.eqb render length].
  destruct (Z.eqb_spec (strcmp_s (render hs) (render ms) (S (length (join_path ms)))) 0) as [E1|E1];
    cbn [negb]; rewrite strcmp_s_0, (take_ge (render ms)) in E1 by done.
  - unfold is_char. rewrite bool_decide_eq_true. split.
    + intros Hs. pose proof (take_drop (length (render ms)) (render hs)) as Etd.
      cbn [render length] in Etd. rewrite E1 in Etd.
      erewrite (drop_S _ slash) in Etd by done.
      destruct (render_below ms hs _ Hm Hh (eq_sym Etd)) as [_ ->]. by eexists.
    + intros [ds Eds]. assert (ds ≠ []). { intros ->. rewrite app_nil_r in Eds. congruence. }
      assert (render hs = render ms ++ slash :: join_path ds) as ->.
      { rewrite Eds. unfold render. by rewrite join_app. }
      change (S (length (join_path ms))) with (length (render ms)).
      by apply list_lookup_middle.
  - split; [done|]. intros [ds Eds]. exfalso. apply E1.
    assert (ds ≠ []). { intros ->. rewrite app_nil_r in Eds. congruence. }
    rewrite Eds. unfold render. rewrite join_app by done.
    change (S (length (join_path ms))) with (length (slash :: join_path ms)).
    change (slash :: join_path ms ++ slash :: join_path ds)
      with ((slash :: join_path ms) ++ slash :: join_path ds).
    by rewrite take_app_length.
Qed.

(** Unmount guard: [vfs_handle_busy_under_path] is true exactly when some
    open file lies in the subtree of the path, component by component (so
    [/mnt2] is not under [/mnt]), and for the root when any file is open. *)
Theorem busy_under_path_iff t p :
  handles_wf t →
  (∀ k h, live t !! k = Some h → path_norm (ino_path (h_ino h)) = ino_path (h_ino h)) →
  vfs_handle_busy_under_path t (Some p) = true
  ↔ ∃ k h, live t !! k = Some h ∧ path_comps p `prefix_of` path_comps (ino_path (h_ino h)).
Proof.
  intros Hwf Hnorm. unfold vfs_handle_busy_under_path. cbv zeta.
  set (test := λ h : vfs_open_handle, in_use h && _).
  assert (∀ k h, live t !! k = Some h →
    test h = true ↔ path_comps p `prefix_of` path_comps (ino_path (h_ino h))) as Htest.
  { intros k h Hl. pose proof Hl as (_ & _ & Hu)%live_lookup. subst test. cbn beta. rewrite Hu. cbn [andb].
    unfold vfs_path_is_root. rewrite path_norm_norm.
    destruct (vfs_path_is_root_norm (path_norm p)) eqn:Er; cbn [orb].
    - apply is_root_norm_comps in Er as ->. split; [intros _; apply prefix_nil|done].
    - rewrite <- (Hnorm k h Hl) at 1. apply under_mount_prefix.
      intros E0. apply is_root_norm_comps in E0. congruence. }
  destruct (rt_scan test t 1) as [k|] eqn:Es; (split; [intros Ht|]).
  - destruct (rt_scan_Some test t 1 k (hw_ok _ Hwf) Es) as (j & h & -> & _ & Hj & Hth & _).
    exists (Z.of_nat j), h. assert (live t !! Z.of_nat j = Some h) as Hl.
    { apply live_lookup_nat. split; [done|]. by apply andb_true_iff in Hth as [? _]. }
    split; [done|]. by apply (Htest _ _ Hl).
  - done.
  - done.
  - intros (k & h & Hl & Hp). exfalso. pose proof (live_pos t k h Hwf Hl) as (Hk & Hi & _).
    pose proof (rt_scan_None test t 1 (hw_ok _ Hwf) Es (Z.to_nat k) h ltac:(lia)) as Hf.
    apply (Htest _ _ Hl) in Hp. rewrite Hf in Hp; [done|]. by apply live_lookup in Hl as (_ & ? & _).
Qed.
End clients.

(** ** Witnesses, on a list of handles *)

Module HandleDemo.
Import ListTable.

Definition file (p : string) : vfs_inode :=
  VfsInode (str p) None 0 0 0x81a4 0 1 false false true.
Definition t0 : list vfs_open_handle := (vfs_handle_init (λ _, true)).2.
Definition t1 := (vfs_handle_open (λ _, true) t0 (Some (file "/mnt/a")) 0).1.
Definition t2 := (vfs_handle_retain t1 1).1.

Lemma t2_refs : refs_exact t2 [1; 1].
Proof.
  assert (refs_exact t0 []) as H0 by by apply (init_refs_exact (λ _, true)).
  apply (clients_exact (t0, []) (t2, [1; 1])); [|done].
  eapply rtc_l; [exact (ClientOpen (λ _, true) t0 t1 [] (file "/mnt/a") 0 1 eq_refl)|].
  eapply rtc_l; [|apply rtc_refl].
  exact (ClientRetain t1 t2 [1] 1 0 (list_elem_of_here _ _) eq_refl).
Qed.

Lemma handle_refs_exact_witness :
  (∀ k, references t2 k = Z.of_nat (count_occ Z.eq_dec [1; 1] k))
  ∧ (∀ k, k ∈ [1; 1] → (vfs_handle_close t2 k).2 = 0)
  ∧ (∀ al ino flags, (vfs_handle_open al t2 (Some ino) flags).2 ∉ [1; 1]).
Proof.
  apply (handle_refs_exact (λ _, true) t0 t2 [1; 1]); [reflexivity|].
  eapply rtc_l; [exact (ClientOpen (λ _, true) t0 t1 [] (file "/mnt/a") 0 1 eq_refl)|].
  eapply rtc_l; [|apply rtc_refl].
  exact (ClientRetain t1 t2 [1] 1 0 (list_elem_of_here _ _) eq_refl).
Defined.

Lemma handle_retain_close_spec_witness :
  vfs_handle_retain t2 7 = (t2, - LINUX_EBADF) ∧ vfs_handle_close t2 7 = (t2, - LINUX_EBADF).
Proof.
  pose proof (handle_retain_close_spec t2 7 (proj1 t2_refs) ltac:(lia)) as H.
  exact H.
Defined.

Lemma busy_under_path_iff_witness :
  vfs_handle_busy_under_path t2 (Some (str "/mnt/")) = true
  ↔ ∃ k h, live t2 !! k = Some h
      ∧ path_comps (str "/mnt/") `prefix_of` path_comps (ino_path (h_ino h)).
Proof.
  apply (busy_under_path_iff t2 (str "/mnt/") (proj1 t2_refs)).
  intros k h Hl. apply live_lookup in Hl as (Hk & Hl & Hu).
  assert (Forall (λ h, path_norm (ino_path (h_ino h)) = ino_path (h_ino h) ∨ in_use h = false)
            (rt_view t2)) as Hf by (repeat constructor; vm_compute; auto).
  destruct (Forall_lookup_1 _ _ _ _ Hf Hl); [done|congruence].
Defined.
End HandleDemo.
