(* ===== verification/KHeap.v ===== *)
(** * The kernel heap

    [struct allocator] ([m_alloc], [m_free]) belongs to the core kernel.  The
    heap maps the address of each allocated buffer to its bytes; a load, a
    store or a free of memory that is not allocated, or outside a buffer, is
    undefined behaviour and gives [None]. *)

From stdpp Require Import base numbers list gmap option.
From S2P Require Import Prelude.

Abbreviation heap := (gmap Z (list Z)).

(** [m_alloc h n]: the address of a new buffer with its (arbitrary) initial
    bytes, or NULL. *)
Class Allocator : Type := m_alloc : heap → Z → option (Z * list Z).

Class AllocatorLaws `{A : Allocator} : Prop :=
  m_alloc_fresh : ∀ h n a b,
    m_alloc h n = Some (a, b) → a ≠ 0 ∧ h !! a = None ∧ Z.of_nat (length b) = n.
#[global] Hint Mode AllocatorLaws - : typeclass_instances.

Definition m_free (h : heap) (a : Z) : option heap :=
  match h !! a with Some _ => Some (delete a h) | None => None end.

(** [memcpy] from [a + off], [n] bytes. *)
Definition mem_load (h : heap) (a off n : Z) : option (list Z) :=
  match h !! a with
  | Some b =>
      if (0 <=? off) && (0 <=? n) && (off + n <=? Z.of_nat (length b))
      then Some (take (Z.to_nat n) (drop (Z.to_nat off) b)) else None
  | None => None
  end.

(** Overwriting the bytes of [b] from [off] on. *)
Definition splice (off : nat) (bytes b : list Z) : list Z :=
  take off b ++ bytes ++ drop (off + length bytes) b.

(** [memcpy] or [memset] to [a + off]. *)
Definition mem_store (h : heap) (a off : Z) (bytes : list Z) : option heap :=
  match h !! a with
  | Some b =>
      if (0 <=? off) && (off + Z.of_nat (length bytes) <=? Z.of_nat (length b))
      then Some (<[a := splice (Z.to_nat off) bytes b]> h) else None
  | None => None
  end.

Lemma splice_length off bytes b :
  (off + length bytes ≤ length b)%nat → length (splice off bytes b) = length b.
Proof. intros. unfold splice. rewrite !length_app, length_take, length_drop. lia. Qed.

Lemma splice_lookup d off bytes (i : nat) :
  (off + length bytes ≤ length d)%nat →
  splice off bytes d !! i =
    if decide (off ≤ i < off + length bytes)%nat then bytes !! (i - off)%nat else d !! i.
Proof.
  intros Hl. unfold splice. case_decide as Hi.
  - rewrite lookup_app_r by (rewrite length_take; lia).
    rewrite length_take, Nat.min_l by lia. by rewrite lookup_app_l by lia.
  - destruct (decide (i < off)%nat).
    + rewrite lookup_app_l by (rewrite length_take; lia). by apply lookup_take_lt.
    + rewrite lookup_app_r by (rewrite length_take; lia).
      rewrite length_take, Nat.min_l by lia. rewrite lookup_app_r by lia.
      rewrite lookup_drop. f_equal. lia.
Qed.

Lemma mem_load_ok h a b off n :
  h !! a = Some b → 0 ≤ off → 0 ≤ n → off + n ≤ Z.of_nat (length b) →
  mem_load h a off n = Some (take (Z.to_nat n) (drop (Z.to_nat off) b)).
Proof.
  intros Hb ? ? ?. unfold mem_load. rewrite Hb.
  rewrite !(proj2 (Z.leb_le _ _)) by lia. done.
Qed.

Lemma mem_store_ok h a b off bytes :
  h !! a = Some b → 0 ≤ off → off + Z.of_nat (length bytes) ≤ Z.of_nat (length b) →
  mem_store h a off bytes = Some (<[a := splice (Z.to_nat off) bytes b]> h).
Proof.
  intros Hb ? ?. unfold mem_store. rewrite Hb.
  rewrite !(proj2 (Z.leb_le _ _)) by lia. done.
Qed.

(** ** A concrete allocator, for evaluation: bump allocation of 0xa5 bytes *)

Module BumpAlloc.
Definition next_addr (h : heap) : Z := 1 + foldr Z.max 0 (map_to_list h).*1.

Lemma foldr_max_ge l x : x ∈ l → x ≤ foldr Z.max 0 l.
Proof. induction 1; cbn; lia. Qed.
Lemma foldr_max_pos l : 0 ≤ foldr Z.max 0 l.
Proof. induction l; cbn; lia. Qed.

(** Requests are sizes, hence not negative. *)
#[export] Instance bump_sized : Allocator :=
  λ h n, if n <? 0 then None else Some (next_addr h, replicate (Z.to_nat n) 0xa5).

#[export] Instance bump_laws : @AllocatorLaws bump_sized.
Proof.
  intros h n a b. unfold m_alloc, bump_sized. destruct (Z.ltb_spec n 0); [done|].
  intros [= <- <-]. rewrite length_replicate. unfold next_addr. split_and!; [|  |lia].
  - pose proof (foldr_max_pos (map_to_list h).*1). lia.
  - apply eq_None_not_Some. intros [b Hb].
    pose proof (foldr_max_ge (map_to_list h).*1 (1 + foldr Z.max 0 (map_to_list h).*1)) as Hm.
    enough (1 + foldr Z.max 0 (map_to_list h).*1 ≤ foldr Z.max 0 (map_to_list h).*1) by lia.
    apply Hm. apply list_elem_of_fmap. exists (1 + foldr Z.max 0 (map_to_list h).*1, b).
    split; [done|]. by apply elem_of_map_to_list.
Qed.
End BumpAlloc.
