(* ===== verification/RamFs.v ===== *)
(** * ramfs, the writable storage backend ([servers/fs/ramfs_layer.c])

    Files and directories are records of a growable table; the bytes of a
    file live in a kernel-heap buffer the record points to.  A record's
    address is its index (growing never moves it), and operations that would
    touch memory that is not allocated give [None].  A hard link is a second
    record with the same buffer pointer, so buffers are shared, not copied. *)

From stdpp Require Import base numbers list strings gmap option.
From Stdlib Require Import Ascii.
From S2P Require Import Prelude PageSlice SliceTable VfsPath VfsInode KHeap DirNames.

Definition RAMFS_MAX_FILE_SIZE : Z := 256 * 1024.
Definition RAMFS_FLAG_DIR : Z := 0x01.
Definition RAMFS_S_IFMT : Z := 0xf000.
Definition RAMFS_S_IFDIR : Z := 0x4000.
Definition RAMFS_S_IFREG : Z := 0x8000.

Record ramfs_entry : Type := RamfsEntry {
  r_path : cstr;
  r_mode : Z;
  r_size : Z;
  r_capacity : Z;
  r_data : Z;          (* address of the buffer, 0 for NULL *)
  r_flags : Z;
  r_alive : bool;
}.

#[global] Instance zero_entry : Zeroed ramfs_entry := RamfsEntry [] 0 0 0 0 0 false.

Definition with_buffer (e : ramfs_entry) (data size capacity : Z) : ramfs_entry :=
  RamfsEntry (r_path e) (r_mode e) size capacity data (r_flags e) (r_alive e).
Definition with_size (e : ramfs_entry) (size : Z) : ramfs_entry :=
  with_buffer e (r_data e) size (r_capacity e).
Definition with_path (e : ramfs_entry) (p : cstr) : ramfs_entry :=
  RamfsEntry p (r_mode e) (r_size e) (r_capacity e) (r_data e) (r_flags e) (r_alive e).

(** The entry table and the heap its buffers live in. *)
Record ramfs (T : Type) : Type := RamFs { rtab : T; rmem : heap }.
Arguments RamFs {T} _ _.
Arguments rtab {T} _.
Arguments rmem {T} _.

Section ramfs_ops.
Context {T TN : Type} `{SC : StrcmpS} `{RT : RecordTable ramfs_entry T}
        `{RTN : RecordTable cstr TN} `{A : Allocator}.
Implicit Types (fs : ramfs T) (ent : Z).

Definition ramfs_entry_at fs (i : Z) : ptr ramfs_entry := rt_get (rtab fs) i.

(** Assigning the fields of the entry a pointer names. *)
Definition ent_write fs ent (e : ramfs_entry) : ramfs T :=
  RamFs (rt_set (rtab fs) ent e) (rmem fs).

(** [refs]: alive entries with this buffer. *)
Fixpoint count_refs fs (data i : Z) (fuel : nat) : Z :=
  match fuel with
  | O => 0
  | S fuel' =>
      (match ramfs_entry_at fs i with
       | Some e => if r_alive e && (r_data e =? data) then 1 else 0
       | None => 0
       end) + count_refs fs data (i + 1) fuel'
  end.

Definition ramfs_free_entry_data fs ent : option (ramfs T) :=
  match ramfs_entry_at fs ent with
  | None => Some fs
  | Some e =>
      if r_data e =? 0 then Some fs
      else
        let refs := count_refs fs (r_data e) 0 (Z.to_nat (rt_count (rtab fs))) in
        if 1 <? refs then Some (ent_write fs ent (with_buffer e 0 0 0))
        else
          match m_free (rmem fs) (r_data e) with
          | None => None
          | Some mem' =>
              Some (RamFs (rt_set (rtab fs) ent (with_buffer e 0 0 0)) mem')
          end
  end.

Definition ramfs_find_mutable fs (path : ptr cstr) : ptr Z :=
  match path with
  | None => None
  | Some _ =>
      rt_scan (λ e, r_alive e && vfs_path_equal (Some (r_path e)) path) (rtab fs) 0
  end.

Definition ramfs_alloc_slot (al : alloc_oracle) fs : ramfs T * ptr Z :=
  match rt_scan (λ e, negb (r_alive e)) (rtab fs) 0 with
  | Some i => (ent_write fs i zero_rec, Some i)
  | None =>
      match rt_push_zero al (rtab fs) with
      | (REND_SUCCESS, t1, idx) =>
          match rt_get t1 idx with
          | None => (RamFs (rt_pop_last t1) (rmem fs), None)
          | Some _ => (RamFs t1 (rmem fs), Some idx)
          end
      | (_, t1, _) => (RamFs t1 (rmem fs), None)
      end
  end.

Definition ramfs_insert (al : alloc_oracle) fs (path : ptr cstr) (mode flags : Z)
  : ramfs T * (error_t + Z) :=
  match path with
  | None => (fs, inl E_IN_PARAM)
  | Some p =>
      match ramfs_find_mutable fs path with
      | Some _ => (fs, inl E_RENDEZVOS)
      | None =>
          match ramfs_alloc_slot al fs with
          | (fs1, None) => (fs1, inl E_REND_NO_MEM)
          | (fs1, Some ent) =>
              let e := default zero_rec (ramfs_entry_at fs1 ent) in
              (ent_write fs1 ent
                 (RamfsEntry (path_norm p) mode (r_size e) (r_capacity e) (r_data e)
                             flags true), inr ent)
          end
      end
  end.

Definition ramfs_lookup fs (path : ptr cstr) : ptr Z := ramfs_find_mutable fs path.

Definition ramfs_ensure_parent_dir fs (path : ptr cstr) : error_t :=
  if vfs_path_is_root path then E_IN_PARAM
  else
    match vfs_path_parent path VFS_PATH_MAX with
    | None => E_IN_PARAM
    | Some parent =>
        if vfs_path_is_root (Some parent) then REND_SUCCESS
        else
          match ramfs_lookup fs (Some parent) with
          | None => REND_SUCCESS
          | Some i =>
              match ramfs_entry_at fs i with
              | Some e => if has (r_flags e) RAMFS_FLAG_DIR then REND_SUCCESS else E_IN_PARAM
              | None => E_IN_PARAM
              end
          end
    end.

(** [while (new_cap < need_size)]: doubling, clamped to the maximum. *)
Fixpoint grow_file_cap (fuel : nat) (need new_cap : Z) : Z :=
  match fuel with
  | O => new_cap
  | S fuel' =>
      if new_cap <? need then
        let c := u64 (new_cap * 2) in
        grow_file_cap fuel' need (if RAMFS_MAX_FILE_SIZE <? c then RAMFS_MAX_FILE_SIZE else c)
      else new_cap
  end.

Definition GROW_FUEL : nat := 20.

(** The [memcpy] of the old contents to the new buffer and the free of the
    old buffer, in [ramfs_grow]. *)
Definition move_buffer (mem : heap) (old_data old_size new_data : Z) : option heap :=
  match (if negb (old_data =? 0) && (0 <? old_size)
         then mem_load mem old_data 0 old_size ≫= mem_store mem new_data 0
         else Some mem) with
  | None => None
  | Some mem' => if negb (old_data =? 0) then m_free mem' old_data else Some mem'
  end.

Definition ramfs_grow fs ent (need_size : Z) : option (ramfs T * error_t) :=
  match ramfs_entry_at fs ent with
  | None => Some (fs, E_IN_PARAM)
  | Some e =>
      if has (r_flags e) RAMFS_FLAG_DIR then Some (fs, E_IN_PARAM)
      else if RAMFS_MAX_FILE_SIZE <? need_size then Some (fs, E_RENDEZVOS)
      else if need_size <=? r_capacity e then Some (fs, REND_SUCCESS)
      else
        let new_cap := grow_file_cap GROW_FUEL need_size
                         (if r_capacity e =? 0 then 64 else r_capacity e) in
        match m_alloc (rmem fs) new_cap with
        | None => Some (fs, E_RENDEZVOS)
        | Some (new_data, junk) =>
            match move_buffer (<[new_data := junk]> (rmem fs)) (r_data e) (r_size e) new_data with
            | None => None
            | Some mem' =>
                Some (RamFs (rt_set (rtab fs) ent (with_buffer e new_data (r_size e) new_cap))
                            mem', REND_SUCCESS)
            end
        end
  end.

Definition ramfs_init (al : alloc_oracle) fs : ramfs T := RamFs (rt_init al 32).2 (rmem fs).

Definition ramfs_entry_count fs : Z := rt_count (rtab fs).

(** The common part of [ramfs_mkdir] and [ramfs_create_file]. *)
Definition ramfs_add (al : alloc_oracle) fs (path : ptr cstr) (mode flags : Z)
  : ramfs T * error_t :=
  match ramfs_ensure_parent_dir fs path with
  | REND_SUCCESS =>
      match ramfs_lookup fs path with
      | Some _ => (fs, E_RENDEZVOS)
      | None =>
          match ramfs_insert al fs path mode flags with
          | (fs1, inl e) => (fs1, e)
          | (fs1, inr ent) =>
              match ramfs_entry_at fs1 ent with
              | Some e => (ent_write fs1 ent (with_size e 0), REND_SUCCESS)
              | None => (fs1, REND_SUCCESS)
              end
          end
      end
  | e => (fs, e)
  end.

Definition ramfs_mkdir (al : alloc_oracle) fs (path : ptr cstr) (mode : Z)
  : ramfs T * error_t :=
  let dir_mode := Z.lor (Z.land mode (Z.lxor RAMFS_S_IFMT 0xffffffff)) RAMFS_S_IFDIR in
  ramfs_add al fs path dir_mode RAMFS_FLAG_DIR.

Definition ramfs_create_file (al : alloc_oracle) fs (path : ptr cstr) (mode : Z)
  : ramfs T * error_t :=
  let file_mode := Z.lor (Z.land mode (Z.lxor RAMFS_S_IFMT 0xffffffff)) RAMFS_S_IFREG in
  ramfs_add al fs path file_mode 0.

Definition ramfs_unlink fs (path : ptr cstr) : option (ramfs T * error_t) :=
  match ramfs_find_mutable fs path with
  | None => Some (fs, E_IN_PARAM)
  | Some ent =>
      match ramfs_free_entry_data fs ent with
      | None => None
      | Some fs1 => Some (ent_write fs1 ent zero_rec, REND_SUCCESS)
      end
  end.

Definition ramfs_rename fs (oldpath newpath : ptr cstr) : ramfs T * error_t :=
  match oldpath, newpath with
  | Some oldpath, Some newpath =>
      let norm_old := path_norm oldpath in
      let norm_new := path_norm newpath in
      match ramfs_find_mutable fs (Some norm_old) with
      | None => (fs, E_IN_PARAM)
      | Some ent =>
          match ramfs_lookup fs (Some norm_new) with
          | Some _ => (fs, E_RENDEZVOS)
          | None =>
              match ramfs_ensure_parent_dir fs (Some norm_new) with
              | REND_SUCCESS =>
                  match ramfs_entry_at fs ent with
                  | Some e => (ent_write fs ent (with_path e (path_norm norm_new)), REND_SUCCESS)
                  | None => (fs, REND_SUCCESS)
                  end
              | e => (fs, e)
              end
          end
      end
  | _, _ => (fs, E_IN_PARAM)
  end.

Definition ramfs_link (al : alloc_oracle) fs (oldpath newpath : ptr cstr)
  : ramfs T * error_t :=
  match oldpath, newpath with
  | Some _, Some _ =>
      match ramfs_find_mutable fs oldpath with
      | None => (fs, E_IN_PARAM)
      | Some src =>
          match ramfs_entry_at fs src with
          | None => (fs, E_IN_PARAM)
          | Some s =>
              if has (r_flags s) RAMFS_FLAG_DIR then (fs, E_IN_PARAM)
              else
                match ramfs_lookup fs newpath with
                | Some _ => (fs, E_RENDEZVOS)
                | None =>
                    match ramfs_ensure_parent_dir fs newpath with
                    | REND_SUCCESS =>
                        match ramfs_insert al fs newpath (r_mode s) (r_flags s) with
                        | (fs1, inl e) => (fs1, e)
                        | (fs1, inr dst) =>
                            match ramfs_entry_at fs1 dst with
                            | Some d =>
                                (ent_write fs1 dst
                                   (with_buffer d (r_data s) (r_size s) (r_capacity s)),
                                 REND_SUCCESS)
                            | None => (fs1, REND_SUCCESS)
                            end
                        end
                    | e => (fs, e)
                    end
                end
          end
      end
  | _, _ => (fs, E_IN_PARAM)
  end.

(** [inr (n, bytes)]: returns [n] and has copied [bytes] to the caller. *)
Definition ramfs_read fs ent (offset len : Z) : option (error_t + Z * list Z) :=
  match ramfs_entry_at fs ent with
  | None => Some (inl E_IN_PARAM)
  | Some e =>
      if negb (r_alive e) || has (r_flags e) RAMFS_FLAG_DIR then Some (inl E_IN_PARAM)
      else if r_size e <=? offset then Some (inr (0, []))
      else
        let avail := r_size e - offset in
        let len := if avail <? len then avail else len in
        if (0 <? len) && negb (r_data e =? 0) then
          match mem_load (rmem fs) (r_data e) offset len with
          | None => None
          | Some bytes => Some (inr (len, bytes))
          end
        else Some (inr (len, []))
  end.

Definition ramfs_write fs ent (offset : Z) (buf : list Z) : option (ramfs T * (error_t + Z)) :=
  let len := Z.of_nat (length buf) in
  match ramfs_entry_at fs ent with
  | None => Some (fs, inl E_IN_PARAM)
  | Some e =>
      if negb (r_alive e) || has (r_flags e) RAMFS_FLAG_DIR then Some (fs, inl E_IN_PARAM)
      else if len =? 0 then Some (fs, inr 0)
      else
        let end_ := u64 (offset + len) in
        if (end_ <? offset) || (RAMFS_MAX_FILE_SIZE <? end_) then Some (fs, inl E_IN_PARAM)
        else
          match ramfs_grow fs ent end_ with
          | None => None
          | Some (fs1, REND_SUCCESS) =>
              let e1 := default zero_rec (ramfs_entry_at fs1 ent) in
              match mem_store (rmem fs1) (r_data e1) offset buf with
              | None => None
              | Some mem' =>
                  let t' := if r_size e1 <? end_
                            then rt_set (rtab fs1) ent (with_size e1 end_) else rtab fs1 in
                  Some (RamFs t' mem', inr len)
              end
          | Some (fs1, err) => Some (fs1, inl err)
          end
  end.

Definition ramfs_truncate fs ent (size : Z) : option (ramfs T * error_t) :=
  match ramfs_entry_at fs ent with
  | None => Some (fs, E_IN_PARAM)
  | Some e =>
      if negb (r_alive e) || has (r_flags e) RAMFS_FLAG_DIR then Some (fs, E_IN_PARAM)
      else if RAMFS_MAX_FILE_SIZE <? size then Some (fs, E_IN_PARAM)
      else if size <? r_size e then Some (ent_write fs ent (with_size e size), REND_SUCCESS)
      else
        match ramfs_grow fs ent size with
        | None => None
        | Some (fs1, REND_SUCCESS) =>
            let e1 := default zero_rec (ramfs_entry_at fs1 ent) in
            match (if (r_size e1 <? size) && negb (r_data e1 =? 0)
                   then mem_store (rmem fs1) (r_data e1) (r_size e1)
                          (replicate (Z.to_nat (size - r_size e1)) 0)
                   else Some (rmem fs1)) with
            | None => None
            | Some mem' =>
                Some (RamFs (rt_set (rtab fs1) ent (with_size e1 size)) mem', REND_SUCCESS)
            end
        | Some (fs1, err) => Some (fs1, err)
        end
  end.

(** The loop of [ramfs_readdir] that collects the child names; [None] when
    an insertion fails. *)
Fixpoint readdir_collect (al : alloc_oracle) fs (norm : cstr) (names : TN) (i : Z)
    (fuel : nat) : option TN :=
  match fuel with
  | O => Some names
  | S fuel' =>
      match ramfs_entry_at fs i with
      | Some ent =>
          if r_alive ent then
            match vfs_path_direct_child_name (Some norm) (Some (r_path ent))
                    VFS_DIR_NAME_SLOT with
            | Some child_name =>
                match vfs_dir_names_insert al names (Some child_name) with
                | (true, names') => readdir_collect al fs norm names' (i + 1) fuel'
                | (false, _) => None
                end
            | None => readdir_collect al fs norm names (i + 1) fuel'
            end
          else readdir_collect al fs norm names (i + 1) fuel'
      | None => readdir_collect al fs norm names (i + 1) fuel'
      end
  end.

Definition ramfs_readdir (al : alloc_oracle) fs (dirpath : ptr cstr) (index : Z)
  : Z * option vfs_dirent :=
  match dirpath with
  | None => (- LINUX_EINVAL, None)
  | Some dirpath =>
      let norm := path_norm dirpath in
      if index =? 0 then
        (0, Some (VfsDirent [dot] VFS_DT_DIR (vfs_path_to_ino (Some norm))))
      else if index =? 1 then
        (0, Some (VfsDirent [dot; dot] VFS_DT_DIR
              (vfs_path_to_ino
                 (match vfs_path_parent (Some norm) VFS_PATH_MAX with
                  | Some parent => Some parent
                  | None => Some [slash]
                  end))))
      else
        let index := index - 2 in
        match rt_init al 16 with
        | (REND_SUCCESS, names) =>
            match readdir_collect al fs norm names 0 (Z.to_nat (rt_count (rtab fs))) with
            | None => (- LINUX_ENOMEM, None)
            | Some names =>
                if rt_count names <=? index then (1, None)
                else
                  match rt_get names (u32 index) with
                  | None => (- LINUX_EIO, None)
                  | Some picked =>
                      match vfs_path_join (Some norm) (Some picked) VFS_PATH_MAX with
                      | None => (- LINUX_EIO, None)
                      | Some child_path =>
                          let ty :=
                            match ramfs_lookup fs (Some child_path) ≫= ramfs_entry_at fs with
                            | Some e => if has (r_flags e) RAMFS_FLAG_DIR
                                        then VFS_DT_DIR else VFS_DT_REG
                            | None => VFS_DT_UNKNOWN
                            end in
                          (0, Some (VfsDirent (strncpy_term picked (VFS_PATH_MAX - 1)) ty
                                      (vfs_path_to_ino (Some child_path))))
                      end
                  end
            end
        | (_, _) => (- LINUX_ENOMEM, None)
        end
  end.
End ramfs_ops.
