(* ===== verification/RamFsSpec.v ===== *)
(** * ramfs refines a map from paths to files and directories

    In a state without hard links every operation of [ramfs_layer.c] is the
    operation of an abstract file system, it never touches memory that is not
    allocated, and it loses no buffer; with a hard link, growing one of the
    names frees the buffer the other name still points to. *)

From stdpp Require Import base numbers list strings gmap option.
From Stdlib Require Import Ascii.
From S2P Require Import Prelude PageSlice SliceTable VfsPath VfsInode KHeap DirNames RamFs.

(** ** The abstract file system *)

Inductive node : Type :=
  | NDir (mode : Z)
  | NFile (mode : Z) (bytes : list Z).

Definition node_of (mem : heap) (e : ramfs_entry) : node :=
  if has (r_flags e) RAMFS_FLAG_DIR then NDir (r_mode e)
  else NFile (r_mode e) (take (Z.to_nat (r_size e)) (default [] (mem !! r_data e))).

Definition ent_comps (e : ramfs_entry) : list cstr := path_comps (r_path e).

Section spec.
Context {T : Type} `{SCL : StrcmpSLaws} `{RT : RecordTable ramfs_entry T}
        {RTL : RecordTableLaws ramfs_entry T} `{AL : AllocatorLaws}.
Implicit Types (fs : ramfs T) (e : ramfs_entry) (cs : list cstr).

Definition entries fs : list ramfs_entry := rt_view (rtab fs).

Definition fs_lookup fs cs : option node :=
  node_of (rmem fs)
    <$> find (λ e, r_alive e && bool_decide (ent_comps e = cs)) (entries fs).

Record ent_ok (mem : heap) e : Prop := {
  eo_alive : r_alive e = true;
  eo_path : path_norm (r_path e) = r_path e;
  eo_size : 0 ≤ r_size e ≤ r_capacity e;
  eo_cap : r_capacity e ≤ RAMFS_MAX_FILE_SIZE;
  eo_dir : has (r_flags e) RAMFS_FLAG_DIR = true → r_data e = 0;
  eo_null : r_data e = 0 → r_capacity e = 0;
  eo_buf : r_data e ≠ 0 → ∃ b, mem !! r_data e = Some b ∧ Z.of_nat (length b) = r_capacity e;
}.

(** No two entries share a name or a buffer, and each buffer has an owner. *)
Record fs_wf fs : Prop := {
  fw_ok : rt_ok (rtab fs);
  fw_ent i e : entries fs !! i = Some e → e = zero_rec ∨ ent_ok (rmem fs) e;
  fw_names i j e e' : entries fs !! i = Some e → entries fs !! j = Some e' →
    r_alive e = true → r_alive e' = true → ent_comps e = ent_comps e' → i = j;
  fw_bufs i j e e' : entries fs !! i = Some e → entries fs !! j = Some e' →
    r_data e ≠ 0 → r_data e = r_data e' → i = j;
  fw_null : rmem fs !! 0 = None;
  fw_owned a b : rmem fs !! a = Some b → ∃ i e, entries fs !! i = Some e ∧ r_data e = a;
}.

Lemma ent_dec fs i e : fs_wf fs → entries fs !! i = Some e →
  e = zero_rec ∨ r_alive e = true ∧ ent_ok (rmem fs) e.
Proof. intros Hwf He. destruct (fw_ent fs Hwf i e He) as [->|Ho]; [by left|right]. by split; [apply Ho|]. Qed.

Lemma find_lookup {X} (f : X → bool) l x :
  find f l = Some x → ∃ i, l !! i = Some x ∧ f x = true.
Proof.
  induction l as [|y l IH]; cbn; [done|]. destruct (f y) eqn:E.
  - intros [= <-]. by exists 0%nat.
  - intros (i & ? & ?)%IH. by exists (S i).
Qed.

Lemma find_exists {X} (f : X → bool) l i x :
  l !! i = Some x → f x = true → ∃ y, find f l = Some y.
Proof.
  revert i. induction l as [|y l IH]; intros [|i]; cbn; try done.
  - intros [= <-] ->. eauto.
  - intros Hi Hx. destruct (f y); eauto.
Qed.

Lemma find_snoc {X} (f : X → bool) l x : f x = false → find f (l ++ [x]) = find f l.
Proof. intros Hx. induction l as [|y l IH]; cbn; [by rewrite Hx|]. by rewrite IH. Qed.

Lemma fs_lookup_Some fs cs n : fs_wf fs →
  fs_lookup fs cs = Some n ↔
  ∃ i e, entries fs !! i = Some e ∧ r_alive e = true ∧ ent_comps e = cs
         ∧ node_of (rmem fs) e = n.
Proof.
  intros Hwf. unfold fs_lookup. rewrite fmap_Some. split.
  - intros (e & (i & Hi & [Ha Hc]%andb_true_iff)%find_lookup & ->).
    apply bool_decide_eq_true in Hc. eauto 10.
  - intros (i & e & Hi & Ha & Hc & <-).
    destruct (find_exists (λ e, r_alive e && bool_decide (ent_comps e = cs)) _ i e Hi) as [e' He'].
    { rewrite Ha. by apply bool_decide_eq_true. }
    exists e'. split; [done|].
    apply find_lookup in He' as (j & Hj & [Ha' Hc']%andb_true_iff).
    apply bool_decide_eq_true in Hc'.
    assert (i = j) as -> by (eapply fw_names; eauto; congruence). congruence.
Qed.

Lemma fs_lookup_None fs cs :
  fs_lookup fs cs = None ↔
  ∀ i e, entries fs !! i = Some e → r_alive e = true → ent_comps e ≠ cs.
Proof.
  unfold fs_lookup. rewrite fmap_None. split.
  - intros Hf i e Hi Ha Hc.
    destruct (find_exists (λ e, r_alive e && bool_decide (ent_comps e = cs)) _ i e Hi) as [e' He'].
    { rewrite Ha. by apply bool_decide_eq_true. }
    congruence.
  - intros Hn. destruct (find _ _) as [e|] eqn:E; [|done].
    apply find_lookup in E as (j & Hj & [Ha' Hc']%andb_true_iff).
    apply bool_decide_eq_true in Hc'. by destruct (Hn j e Hj Ha').
Qed.

(** One entry [e] becomes [e'], and memory changes only in their buffers. *)
Record ent_update fs (i : nat) e e' (mem' : heap) : Prop := {
  eu_old : entries fs !! i = Some e;
  eu_new : e' = zero_rec ∨ ent_ok mem' e';
  eu_name j ej : r_alive e' = true → j ≠ i → entries fs !! j = Some ej →
    r_alive ej = true → ent_comps ej ≠ ent_comps e';
  eu_mem a : a ≠ r_data e → a ≠ r_data e' → mem' !! a = rmem fs !! a;
  eu_fresh : r_data e' = r_data e ∨ r_data e' = 0 ∨ rmem fs !! r_data e' = None;
  eu_freed : r_data e' ≠ r_data e → mem' !! r_data e = None;
  eu_null : mem' !! 0 = None;
}.

Lemma update_others fs i e e' mem' j ej :
  fs_wf fs → ent_update fs i e e' mem' → j ≠ i → entries fs !! j = Some ej →
  r_data ej ≠ 0 → mem' !! r_data ej = rmem fs !! r_data ej ∧ r_data ej ≠ r_data e'.
Proof.
  intros Hwf Hu Hj Hej Hd.
  assert (r_data ej ≠ r_data e) as Hne.
  { intros E. apply Hj. eapply fw_bufs; [done|exact Hej|exact (eu_old _ _ _ _ _ Hu)|done|done]. }
  assert (r_data ej ≠ r_data e') as Hne'.
  { intros E. destruct (eu_fresh _ _ _ _ _ Hu) as [E1|[E1|E1]]; [congruence..|].
    destruct (fw_ent fs Hwf j ej Hej) as [->|Ho]; [done|].
    destruct (eo_buf _ _ Ho Hd) as (b & Hb & _). congruence. }
  split; [|done]. by apply (eu_mem _ _ _ _ _ Hu).
Qed.

Lemma update_node fs i e e' mem' j ej :
  fs_wf fs → ent_update fs i e e' mem' → j ≠ i → entries fs !! j = Some ej →
  node_of mem' ej = node_of (rmem fs) ej.
Proof.
  intros Hwf Hu Hj Hej. unfold node_of. destruct (has _ _); [done|]. do 2 f_equal.
  destruct (decide (r_data ej = 0)) as [E|E].
  - by rewrite E, (eu_null _ _ _ _ _ Hu), (fw_null fs Hwf).
  - by destruct (update_others fs i e e' mem' j ej) as [-> _].
Qed.

Lemma update_wf fs i e e' mem' t' :
  fs_wf fs → ent_update fs i e e' mem' → rt_ok t' → rt_view t' = <[i := e']> (entries fs) →
  fs_wf (RamFs t' mem').
Proof.
  intros Hwf Hu Hok Hv. pose proof (eu_old _ _ _ _ _ Hu) as Hi.
  pose proof (lookup_lt_Some _ _ _ Hi) as Hlt.
  assert (∀ j x, rt_view t' !! j = Some x → j = i ∧ x = e' ∨ j ≠ i ∧ entries fs !! j = Some x) as Hl.
  { intros j x. rewrite Hv. intros [(-> & -> & _)|[? ?]]%list_lookup_insert_Some; [by left|by right]. }
  split; unfold entries; cbn.
  - done.
  - intros j x [(-> & ->)|[Hj Hx]]%Hl; [exact (eu_new _ _ _ _ _ Hu)|].
    destruct (fw_ent fs Hwf j x Hx) as [->|Ho]; [by left|right].
    destruct Ho as [? ? ? ? ? ? Hb]. split; try done. intros Hd.
    destruct (update_others fs i e e' mem' j x) as [-> _]; [done..|]. by apply Hb.
  - intros j k x y [(-> & ->)|[Hj Hx]]%Hl [(-> & ->)|[Hk Hy]]%Hl Hax Hay Hc.
    + done.
    + by destruct (eu_name _ _ _ _ _ Hu k y).
    + by destruct (eu_name _ _ _ _ _ Hu j x).
    + by eapply fw_names.
  - intros j k x y [(-> & ->)|[Hj Hx]]%Hl [(-> & ->)|[Hk Hy]]%Hl Hd Hc.
    + done.
    + rewrite Hc in Hd. by destruct (update_others fs i e e' mem' k y) as [_ []].
    + by destruct (update_others fs i e e' mem' j x) as [_ []].
    + by eapply fw_bufs.
  - exact (eu_null _ _ _ _ _ Hu).
  - intros a b Hab. destruct (decide (a = r_data e')) as [->|Hne].
    { exists i, e'. rewrite Hv. split; [|done]. by apply list_lookup_insert_eq. }
    assert (a ≠ r_data e) as Hne2.
    { intros ->. rewrite (eu_freed _ _ _ _ _ Hu) in Hab; done. }
    rewrite (eu_mem _ _ _ _ _ Hu) in Hab by done.
    destruct (fw_owned fs Hwf a b Hab) as (j & x & Hx & Hd). exists j, x. split; [|done].
    rewrite Hv, list_lookup_insert_ne; [done|]. intros ->. congruence.
Qed.

(** The effect on the abstract file system: the old name goes, the new comes. *)
Lemma update_lookup fs i e e' mem' t' cs :
  fs_wf fs → ent_update fs i e e' mem' → rt_ok t' → rt_view t' = <[i := e']> (entries fs) →
  fs_lookup (RamFs t' mem') cs =
    if r_alive e' && bool_decide (ent_comps e' = cs) then Some (node_of mem' e')
    else if r_alive e && bool_decide (ent_comps e = cs) then None
    else fs_lookup fs cs.
Proof.
  intros Hwf Hu Hok Hv. pose proof (update_wf _ _ _ _ _ _ Hwf Hu Hok Hv) as Hwf'.
  pose proof (eu_old _ _ _ _ _ Hu) as Hi. pose proof (lookup_lt_Some _ _ _ Hi) as Hlt.
  assert (entries (RamFs t' mem') !! i = Some e') as Hi'.
  { unfold entries. cbn. rewrite Hv. by apply list_lookup_insert_eq. }
  destruct (r_alive e' && bool_decide (ent_comps e' = cs)) eqn:E'.
  { apply andb_true_iff in E' as [Ha Hc%bool_decide_eq_true].
    apply fs_lookup_Some; [done|]. exists i, e'. done. }
  assert (∀ j x, entries (RamFs t' mem') !! j = Some x → r_alive x = true → ent_comps x = cs →
    j ≠ i ∧ entries fs !! j = Some x) as Hother.
  { intros j x Hx Ha Hc. unfold entries in Hx. cbn in Hx. rewrite Hv in Hx.
    apply list_lookup_insert_Some in Hx as [(-> & -> & _)|[? ?]]; [|done].
    rewrite Ha, bool_decide_true in E' by done. done. }
  destruct (r_alive e && bool_decide (ent_comps e = cs)) eqn:E.
  { apply andb_true_iff in E as [Ha Hc%bool_decide_eq_true]. apply fs_lookup_None.
    intros j x Hx Hax Hcx. destruct (Hother j x Hx Hax Hcx) as [Hj Hx'].
    apply Hj. apply (fw_names fs Hwf j i x e); congruence. }
  apply option_eq. intros n. rewrite !fs_lookup_Some by done. split.
  - intros (j & x & Hx & Ha & Hc & Hn). destruct (Hother j x Hx Ha Hc) as [Hj Hx'].
    exists j, x. split_and!; [done..|]. cbn in Hn. by rewrite <- (update_node fs i e e' mem' j x).
  - intros (j & x & Hx & Ha & Hc & Hn). assert (j ≠ i).
    { intros ->. assert (x = e) as -> by congruence.
      rewrite Ha, bool_decide_true in E by done. done. }
    exists j, x. split_and!; [|done..|].
    + unfold entries. cbn. rewrite Hv. by rewrite list_lookup_insert_ne.
    + cbn. by rewrite (update_node fs i e e' mem' j x).
Qed.

(** [fs] and [fs'] hold the same files and directories. *)
Definition fs_same fs fs' : Prop := ∀ cs, fs_lookup fs' cs = fs_lookup fs cs.

(** ** Lookup, slots and parents *)

Lemma find_mutable_Some fs p k : fs_wf fs →
  ramfs_find_mutable fs (Some p) = Some k →
  ∃ i e, k = Z.of_nat i ∧ entries fs !! i = Some e ∧ r_alive e = true
    ∧ ent_comps e = path_comps p ∧ ramfs_entry_at fs k = Some e.
Proof.
  intros Hwf Hs. apply (rt_scan_Some _ _ 0) in Hs; [|apply Hwf].
  destruct Hs as (i & e & -> & _ & Hi & [Ha Heq]%andb_true_iff & _).
  exists i, e. split_and!; [done..| |].
  - by apply vfs_path_equal_comps in Heq.
  - apply rt_get_view; [apply Hwf|done].
Qed.

Lemma find_mutable_None fs p : fs_wf fs →
  ramfs_find_mutable fs (Some p) = None ↔ fs_lookup fs (path_comps p) = None.
Proof.
  intros Hwf. split.
  - intros Hs. apply fs_lookup_None. intros i e Hi Ha Hc.
    pose proof (rt_scan_None _ _ 0 (fw_ok fs Hwf) Hs i e ltac:(lia) Hi) as Hf. cbn beta in Hf.
    rewrite Ha, (proj2 (vfs_path_equal_comps (r_path e) p)) in Hf by done. done.
  - intros Hn. rewrite fs_lookup_None in Hn.
    destruct (ramfs_find_mutable fs (Some p)) as [k|] eqn:E; [|done].
    destruct (find_mutable_Some fs p k Hwf E) as (i & e & _ & Hi & Ha & Hc & _).
    by destruct (Hn i e Hi Ha).
Qed.

Lemma find_mutable_node fs p k e : fs_wf fs →
  ramfs_find_mutable fs (Some p) = Some k → ramfs_entry_at fs k = Some e →
  fs_lookup fs (path_comps p) = Some (node_of (rmem fs) e).
Proof.
  intros Hwf Hf He. destruct (find_mutable_Some fs p k Hwf Hf) as (i & e' & -> & Hi & Ha & Hc & He').
  assert (e' = e) as -> by congruence. apply fs_lookup_Some; [done|]. by exists i, e.
Qed.

Lemma set_entry fs (i : nat) e' : fs_wf fs → (i < length (entries fs))%nat →
  rt_ok (rt_set (rtab fs) (Z.of_nat i) e')
  ∧ rt_view (rt_set (rtab fs) (Z.of_nat i) e') = <[i := e']> (entries fs).
Proof. intros Hwf Hi. apply rt_set_ok; [apply Hwf|done]. Qed.

(** A state whose table holds one more zeroed slot. *)
Lemma push_wf fs t1 : fs_wf fs → rt_ok t1 → rt_view t1 = entries fs ++ [zero_rec] →
  fs_wf (RamFs t1 (rmem fs)) ∧ fs_same fs (RamFs t1 (rmem fs)).
Proof.
  intros Hwf Hok Hv.
  assert (∀ j x, rt_view t1 !! j = Some x → entries fs !! j = Some x ∨ x = zero_rec) as Hl.
  { intros j x. rewrite Hv, lookup_app_Some, list_lookup_singleton_Some.
    intros [?|(_ & _ & <-)]; [by left|by right]. }
  split.
  - split; unfold entries; cbn.
    + done.
    + intros j x [Hx| ->]%Hl; [by apply (fw_ent fs Hwf j)|by left].
    + intros j k x y [Hx| ->]%Hl [Hy| ->]%Hl ? ? ?; try done. by eapply fw_names.
    + intros j k x y [Hx| ->]%Hl [Hy| ->]%Hl Hd ?; try done. by eapply fw_bufs.
    + apply Hwf.
    + intros a b (i & e & Hi & ?)%(fw_owned fs Hwf). exists i, e. split; [|done].
      rewrite Hv. by apply lookup_app_l_Some.
  - intros cs. unfold fs_lookup. f_equal. rewrite <- (find_snoc _ (entries fs) zero_rec) by done.
    by rewrite <- Hv.
Qed.

(** Entries in use keep their slot and contents. *)
Definition alive_kept fs fs' : Prop :=
  ∀ k e, entries fs !! k = Some e → r_alive e = true → entries fs' !! k = Some e.

Lemma alloc_slot_spec al fs fs' r : fs_wf fs → ramfs_alloc_slot al fs = (fs', r) →
  fs_wf fs' ∧ fs_same fs fs' ∧ rmem fs' = rmem fs ∧ alive_kept fs fs'
  ∧ ∀ k, r = Some k → ∃ i, k = Z.of_nat i ∧ entries fs' !! i = Some zero_rec.
Proof.
  intros Hwf. unfold ramfs_alloc_slot. destruct (rt_scan _ _ 0) as [k|] eqn:Es.
  - apply (rt_scan_Some _ _ 0) in Es; [|apply Hwf].
    destruct Es as (i & e & -> & _ & Hi & Ha%negb_true_iff & _). fold (entries fs) in Hi.
    destruct (fw_ent fs Hwf i e Hi) as [->|Ho]; [|by rewrite (eo_alive _ _ Ho) in Ha].
    pose proof (lookup_lt_Some _ _ _ Hi) as Hlt.
    destruct (set_entry fs i zero_rec Hwf Hlt) as [Hok Hv].
    intros [= <- <-]. assert (ent_update fs i zero_rec zero_rec (rmem fs)) as Hu.
    { split; try done; [by left|by left|apply Hwf]. }
    split_and!; [exact (update_wf _ _ _ _ _ _ Hwf Hu Hok Hv)| |done| |].
    + intros cs. exact (update_lookup _ _ _ _ _ _ cs Hwf Hu Hok Hv).
    + intros k e Hk Hak. unfold entries. cbn. rewrite Hv, list_lookup_insert_ne; [done|].
      intros ->. by assert (e = zero_rec) as -> by congruence.
    + intros k [= <-]. exists i. split; [done|]. unfold entries. cbn. rewrite Hv.
      by apply list_lookup_insert_eq.
  - destruct (rt_push_zero al (rtab fs)) as [[e t1] idx] eqn:Ep.
    destruct (rt_push_ok _ _ _ _ _ (fw_ok fs Hwf) Ep) as (Hok1 & Hs & Hf).
    destruct (decide (e = REND_SUCCESS)) as [->|He].
    + destruct (Hs eq_refl) as [Hv ->]. destruct (push_wf fs t1 Hwf Hok1 Hv) as [Hwf1 Hsame].
      rewrite rt_count_view by apply Hwf. fold (entries fs).
      assert (rt_view t1 !! length (entries fs) = Some zero_rec) as Hz.
      { rewrite Hv. by apply list_lookup_middle. }
      rewrite (rt_get_view t1 _ _ Hok1 Hz). intros [= <- <-]. split_and!; [done..| |].
      * intros k e Hk _. unfold entries. cbn. rewrite Hv. by apply lookup_app_l_Some.
      * intros k [= <-]. eauto.
    + specialize (Hf He). assert (fs_wf (RamFs t1 (rmem fs)) ∧ fs_same fs (RamFs t1 (rmem fs))) as [? ?].
      { split; [|intros cs; unfold fs_lookup, entries; cbn; by rewrite Hf].
        destruct Hwf; split; unfold entries in *; cbn; rewrite ?Hf; done. }
      assert (alive_kept fs (RamFs t1 (rmem fs))) as Hk.
      { intros k x Hx _. unfold entries. cbn. by rewrite Hf. }
      destruct e; [done|..]; intros [= <- <-]; split_and!; done.
Qed.

(** The parent is the root, a directory, or not known to ramfs. *)
Definition parent_ok fs (cs : list cstr) : Prop :=
  cs ≠ [] ∧ ∀ m b, fs_lookup fs (removelast cs) = Some (NFile m b) → removelast cs = [].

Lemma path_comps_parent p cs c :
  path_comps p = cs ++ [c] → path_comps (dir_prefix cs) = cs.
Proof.
  intros E. pose proof (path_comps_canonical p) as Hc. rewrite E in Hc.
  pose proof Hc as [_ _ Hw]. rewrite weight_app, weight_cons in Hw.
  rewrite <- (app_nil_r (dir_prefix cs)). rewrite path_comps_dir_prefix.
  - apply path_step_nil.
  - by eapply canonical_app_l.
  - rewrite app_nil_r, dir_prefix_length. lia.
Qed.

Lemma ensure_parent_dir_spec fs p : fs_wf fs →
  (ramfs_ensure_parent_dir fs (Some p) = REND_SUCCESS ∧ parent_ok fs (path_comps p))
  ∨ (ramfs_ensure_parent_dir fs (Some p) = E_IN_PARAM ∧ ¬ parent_ok fs (path_comps p)).
Proof.
  intros Hwf. unfold ramfs_ensure_parent_dir, parent_ok.
  destruct (path_comps p) as [|c cs _] eqn:E using rev_ind.
  { right. unfold vfs_path_is_root. rewrite (proj2 (is_root_norm_comps p)) by done.
    split; [done|]. by intros [[] _]. }
  assert (vfs_path_is_root (Some p) = false) as ->.
  { apply not_true_iff_false. unfold vfs_path_is_root. rewrite is_root_norm_comps, E. by destruct cs. }
  rewrite (vfs_path_parent_comps p cs c) by done. rewrite removelast_snoc.
  pose proof (path_comps_parent p cs c E) as Ep.
  assert (vfs_path_is_root (Some (dir_prefix cs)) = true ↔ cs = []) as Hroot.
  { unfold vfs_path_is_root. by rewrite is_root_norm_comps, Ep. }
  destruct (vfs_path_is_root (Some (dir_prefix cs))).
  { left. split; [done|]. split; [by destruct cs|]. intros _ _ _. by apply Hroot. }
  unfold ramfs_lookup. destruct (ramfs_find_mutable fs _) as [k|] eqn:Ef.
  - destruct (find_mutable_Some fs _ k Hwf Ef) as (i & e & -> & Hi & Ha & Hc & He).
    pose proof (find_mutable_node fs _ _ e Hwf Ef He) as Hn. rewrite Ep in Hn. rewrite He.
    unfold node_of in Hn. destruct (has (r_flags e) RAMFS_FLAG_DIR).
    + left. split; [done|]. split; [by destruct cs|]. intros m b Hm. congruence.
    + right. split; [done|]. intros [_ Hp]. specialize (Hp _ _ Hn).
      apply Hroot in Hp. done.
  - apply find_mutable_None in Ef; [|done]. rewrite Ep in Ef. left. split; [done|].
    split; [by destruct cs|]. intros m b Hm. congruence.
Qed.

(** ** Adding and removing names *)

(** Replacing entry [i] of [fs], with the memory [mem']. *)
Lemma entry_set_spec fs (i : nat) e e' mem' cs :
  fs_wf fs → ent_update fs i e e' mem' →
  let fs' := RamFs (rt_set (rtab fs) (Z.of_nat i) e') mem' in
  fs_wf fs' ∧ entries fs' !! i = Some e'
  ∧ fs_lookup fs' cs =
      if r_alive e' && bool_decide (ent_comps e' = cs) then Some (node_of mem' e')
      else if r_alive e && bool_decide (ent_comps e = cs) then None
      else fs_lookup fs cs.
Proof.
  intros Hwf Hu. pose proof (lookup_lt_Some _ _ _ (eu_old _ _ _ _ _ Hu)) as Hlt.
  destruct (set_entry fs i e' Hwf Hlt) as [Hok Hv]. cbv zeta. split_and!.
  - exact (update_wf _ _ _ _ _ _ Hwf Hu Hok Hv).
  - unfold entries. cbn. rewrite Hv. by apply list_lookup_insert_eq.
  - by apply (update_lookup fs i e).
Qed.

(** Two assignments to the same entry are one. *)
Lemma entry_set_set_spec fs (i : nat) e e1 e' mem' cs :
  fs_wf fs → ent_update fs i e e' mem' →
  let fs' := RamFs (rt_set (rt_set (rtab fs) (Z.of_nat i) e1) (Z.of_nat i) e') mem' in
  fs_wf fs'
  ∧ fs_lookup fs' cs =
      if r_alive e' && bool_decide (ent_comps e' = cs) then Some (node_of mem' e')
      else if r_alive e && bool_decide (ent_comps e = cs) then None
      else fs_lookup fs cs.
Proof.
  intros Hwf Hu. pose proof (lookup_lt_Some _ _ _ (eu_old _ _ _ _ _ Hu)) as Hlt.
  destruct (set_entry fs i e1 Hwf Hlt) as [Hok1 Hv1].
  destruct (rt_set_ok _ i e' Hok1) as [Hok Hv]; [by rewrite Hv1, length_insert|].
  rewrite Hv1, list_insert_insert_eq in Hv. cbv zeta.
  split; [exact (update_wf _ _ _ _ _ _ Hwf Hu Hok Hv)|by apply (update_lookup fs i e)].
Qed.

Definition new_entry (p : cstr) (mode flags : Z) : ramfs_entry :=
  RamfsEntry (path_norm p) mode 0 0 0 flags true.

Definition new_node (mode flags : Z) : node :=
  if has flags RAMFS_FLAG_DIR then NDir mode else NFile mode [].

Lemma insert_spec al fs p mode flags fs' r : fs_wf fs →
  fs_lookup fs (path_comps p) = None →
  ramfs_insert al fs (Some p) mode flags = (fs', r) →
  fs_wf fs' ∧ rmem fs' = rmem fs ∧ alive_kept fs fs'
  ∧ match r with
    | inr k => ∃ i, k = Z.of_nat i ∧ entries fs' !! i = Some (new_entry p mode flags)
        ∧ ∀ cs, fs_lookup fs' cs =
            if decide (cs = path_comps p) then Some (new_node mode flags) else fs_lookup fs cs
    | inl e => e = E_REND_NO_MEM ∧ fs_same fs fs'
    end.
Proof.
  intros Hwf Hnone. unfold ramfs_insert. rewrite (proj2 (find_mutable_None fs p Hwf)) by done.
  destruct (ramfs_alloc_slot al fs) as [fs1 o] eqn:Ea.
  destruct (alloc_slot_spec al fs fs1 o Hwf Ea) as (Hwf1 & Hsame & Hmem & Hkept & Hslot).
  destruct o as [k|]; [|by intros [= <- <-]].
  destruct (Hslot k eq_refl) as (i & -> & Hi).
  unfold ramfs_entry_at. rewrite (rt_get_view _ i zero_rec (fw_ok _ Hwf1) Hi). cbn [default].
  intros [= <- <-]. change (RamfsEntry _ _ _ _ _ _ _) with (new_entry p mode flags).
  assert (ent_update fs1 i zero_rec (new_entry p mode flags) (rmem fs1)) as Hu.
  { split; try done; [|intros j ej _ Hj Hej Ha Hc|by left|apply Hwf1].
    - right. split; cbn; try done. apply path_norm_norm.
    - rewrite <- (Hsame (path_comps p)), fs_lookup_None in Hnone. apply (Hnone j ej Hej Ha).
      rewrite Hc. unfold ent_comps. cbn. apply path_comps_norm. }
  unfold ent_write. split_and!.
  - by destruct (entry_set_spec _ _ _ _ _ [] Hwf1 Hu).
  - done.
  - intros k e Hk Hak. specialize (Hkept k e Hk Hak). unfold entries. cbn.
    destruct (set_entry fs1 i (new_entry p mode flags) Hwf1) as [_ ->]; [by eapply lookup_lt_Some|].
    rewrite list_lookup_insert_ne; [done|]. intros ->. by assert (e = zero_rec) as -> by congruence.
  - exists i. destruct (entry_set_spec _ _ _ _ _ [] Hwf1 Hu) as (_ & He & _).
    split_and!; [done..|]. intros cs.
    destruct (entry_set_spec _ _ _ _ _ cs Hwf1 Hu) as (_ & _ & ->).
    cbn [new_entry r_alive andb zero_rec zero_entry]. unfold ent_comps. cbn [new_entry r_path].
    rewrite path_comps_norm. destruct (decide (cs = path_comps p)) as [->|Hne].
    + by rewrite bool_decide_true.
    + rewrite bool_decide_false by congruence. apply Hsame.
Qed.

Lemma add_spec al fs p mode flags fs' r : fs_wf fs →
  ramfs_add al fs (Some p) mode flags = (fs', r) →
  fs_wf fs'
  ∧ match r with
    | REND_SUCCESS =>
        parent_ok fs (path_comps p) ∧ fs_lookup fs (path_comps p) = None
        ∧ ∀ cs, fs_lookup fs' cs =
            if decide (cs = path_comps p) then Some (new_node mode flags) else fs_lookup fs cs
    | E_IN_PARAM => ¬ parent_ok fs (path_comps p) ∧ fs' = fs
    | E_RENDEZVOS =>
        parent_ok fs (path_comps p) ∧ fs_lookup fs (path_comps p) ≠ None ∧ fs' = fs
    | E_REND_NO_MEM =>
        parent_ok fs (path_comps p) ∧ fs_lookup fs (path_comps p) = None ∧ fs_same fs fs'
    | E_REND_AGAIN | E_REND_NOFOUND | E_REND_NO_MSG | E_REND_PORT_CLOSED => False
    end.
Proof.
  intros Hwf. unfold ramfs_add, ramfs_lookup.
  destruct (ensure_parent_dir_spec fs p Hwf) as [[-> Hp]|[-> Hp]]; [|by intros [= <- <-]].
  pose proof (find_mutable_None fs p Hwf) as Hnone.
  destruct (ramfs_find_mutable fs (Some p)).
  { intros [= <- <-]. split_and!; [done..| |done]. by intros ?%Hnone. }
  assert (fs_lookup fs (path_comps p) = None) as Hn by by apply Hnone.
  destruct (ramfs_insert al fs (Some p) mode flags) as [fs1 [e|k]] eqn:Ei;
    destruct (insert_spec al fs p mode flags fs1 _ Hwf Hn Ei) as (Hwf1 & Hmem & Hkept & Hr).
  { destruct Hr as [-> ?]. by intros [= <- <-]. }
  destruct Hr as (i & -> & Hi & Hl). unfold ramfs_entry_at.
  rewrite (rt_get_view _ i _ (fw_ok _ Hwf1) Hi). intros [= <- <-].
  change (with_size (new_entry p mode flags) 0) with (new_entry p mode flags).
  assert (ent_update fs1 i (new_entry p mode flags) (new_entry p mode flags) (rmem fs1)) as Hu.
  { split; try done; [by apply (fw_ent fs1 Hwf1 i)| |by left|apply Hwf1].
    intros j ej _ Hj Hej Ha Hc. apply Hj. by apply (fw_names fs1 Hwf1 j i ej (new_entry p mode flags)). }
  unfold ent_write. split_and!; [by destruct (entry_set_spec _ _ _ _ _ [] Hwf1 Hu)|done..|].
  intros cs. destruct (entry_set_spec _ _ _ _ _ cs Hwf1 Hu) as (_ & _ & ->). rewrite <- Hl.
  destruct (_ && _) eqn:E; [|done]. apply andb_true_iff in E as [_ E%bool_decide_eq_true].
  symmetry. apply fs_lookup_Some; [done|]. by exists i, (new_entry p mode flags).
Qed.

Lemma count_refs_0 fs d fuel i : fs_wf fs →
  (i + fuel)%nat = length (entries fs) →
  (∀ j e, (i ≤ j)%nat → entries fs !! j = Some e → r_data e ≠ d) →
  count_refs fs d (Z.of_nat i) fuel = 0.
Proof.
  intros Hwf. revert i. induction fuel as [|fuel IH]; intros i Hi Hn; cbn; [done|].
  destruct (lookup_lt_is_Some_2 (entries fs) i) as [e He]; [lia|].
  unfold ramfs_entry_at. rewrite (rt_get_view _ i e (fw_ok _ Hwf) He).
  rewrite (proj2 (Z.eqb_neq _ _)) by by apply (Hn i). rewrite andb_false_r.
  replace (Z.of_nat i + 1) with (Z.of_nat (S i)) by lia. rewrite IH; [done|lia|].
  intros j x Hj. apply Hn. lia.
Qed.

Lemma count_refs_le fs d fuel i : fs_wf fs → d ≠ 0 →
  (i + fuel)%nat = length (entries fs) → count_refs fs d (Z.of_nat i) fuel ≤ 1.
Proof.
  intros Hwf Hd. revert i. induction fuel as [|fuel IH]; intros i Hi; cbn; [lia|].
  destruct (lookup_lt_is_Some_2 (entries fs) i) as [e He]; [lia|].
  unfold ramfs_entry_at. rewrite (rt_get_view _ i e (fw_ok _ Hwf) He).
  replace (Z.of_nat i + 1) with (Z.of_nat (S i)) by lia.
  destruct (r_alive e && (r_data e =? d)) eqn:E.
  - zbool. subst d. rewrite count_refs_0; [lia|done|lia|].
    intros j x Hj Hx Hdx. assert (j = i) by by apply (fw_bufs fs Hwf j i x e); congruence. lia.
  - specialize (IH (S i)). lia.
Qed.

Lemma unlink_spec fs p : fs_wf fs →
  ∃ fs' r, ramfs_unlink fs (Some p) = Some (fs', r) ∧ fs_wf fs'
  ∧ match fs_lookup fs (path_comps p) with
    | None => r = E_IN_PARAM ∧ fs' = fs
    | Some _ => r = REND_SUCCESS
        ∧ ∀ cs, fs_lookup fs' cs = if decide (cs = path_comps p) then None else fs_lookup fs cs
    end.
Proof.
  intros Hwf. unfold ramfs_unlink. destruct (ramfs_find_mutable fs (Some p)) as [k|] eqn:Ef.
  2:{ exists fs, E_IN_PARAM. by rewrite (proj1 (find_mutable_None fs p Hwf)). }
  destruct (find_mutable_Some fs p k Hwf Ef) as (i & e & -> & Hi & Ha & Hc & He).
  rewrite (find_mutable_node fs p _ e Hwf Ef He).
  destruct (fw_ent fs Hwf i e Hi) as [->|Ho]; [done|]. unfold ramfs_free_entry_data. rewrite He.
  assert (∀ cs, (if r_alive zero_rec && bool_decide (ent_comps zero_rec = cs)
                 then Some (node_of (rmem fs) zero_rec)
                 else if r_alive e && bool_decide (ent_comps e = cs) then None
                 else fs_lookup fs cs)
                = if decide (cs = path_comps p) then None else fs_lookup fs cs) as Hcs.
  { intros cs. rewrite Ha, Hc. cbn [r_alive zero_rec zero_entry andb]. by destruct (decide (cs = path_comps p)) as [->|];
      [rewrite bool_decide_true|rewrite bool_decide_false by congruence]. }
  destruct (Z.eqb_spec (r_data e) 0) as [Hd|Hd].
  - assert (ent_update fs i e zero_rec (rmem fs)) as Hu.
    { split; try done; [by left|by left|apply Hwf]. }
    eexists _, _. split; [done|]. unfold ent_write. split; [|split; [done|]].
    + by destruct (entry_set_spec _ _ _ _ _ [] Hwf Hu).
    + intros cs. destruct (entry_set_spec _ _ _ _ _ cs Hwf Hu) as (_ & _ & ->). apply Hcs.
  - cbv zeta. rewrite rt_count_view, Nat2Z.id by apply Hwf. fold (entries fs).
    pose proof (count_refs_le fs (r_data e) (length (entries fs)) 0 Hwf Hd eq_refl) as Hle.
    change (Z.of_nat 0) with 0 in Hle.
    destruct (Z.ltb_spec 1 (count_refs fs (r_data e) 0 (length (entries fs)))); [lia|].
    destruct (eo_buf _ _ Ho Hd) as (b & Hb & _). unfold m_free. rewrite Hb.
    assert (ent_update fs i e zero_rec (delete (r_data e) (rmem fs))) as Hu.
    { split; try done; [by left|..].
      - intros a Hae _. by rewrite lookup_delete_ne.
      - by right; left.
      - intros _. apply lookup_delete_eq.
      - rewrite lookup_delete_ne by done. apply Hwf. }
    eexists _, _. split; [done|]. unfold ent_write. cbn [rtab rmem]. split; [|split; [done|]].
    + by destruct (entry_set_set_spec _ _ _ (with_buffer e 0 0 0) _ _ [] Hwf Hu).
    + intros cs. destruct (entry_set_set_spec _ _ _ (with_buffer e 0 0 0) _ _ cs Hwf Hu) as [_ ->].
      apply Hcs.
Qed.

Lemma rename_spec fs p q fs' r : fs_wf fs →
  ramfs_rename fs (Some p) (Some q) = (fs', r) →
  fs_wf fs'
  ∧ match fs_lookup fs (path_comps p) with
    | None => r = E_IN_PARAM ∧ fs' = fs
    | Some n =>
        (fs_lookup fs (path_comps q) ≠ None ∧ r = E_RENDEZVOS ∧ fs' = fs)
        ∨ (fs_lookup fs (path_comps q) = None ∧ ¬ parent_ok fs (path_comps q)
           ∧ r = E_IN_PARAM ∧ fs' = fs)
        ∨ (fs_lookup fs (path_comps q) = None ∧ parent_ok fs (path_comps q) ∧ r = REND_SUCCESS
           ∧ ∀ cs, fs_lookup fs' cs = if decide (cs = path_comps q) then Some n
                     else if decide (cs = path_comps p) then None else fs_lookup fs cs)
    end.
Proof.
  intros Hwf. unfold ramfs_rename, ramfs_lookup. cbv zeta.
  pose proof (find_mutable_None fs (path_norm q) Hwf) as Hq. rewrite path_comps_norm in Hq.
  destruct (ramfs_find_mutable fs (Some (path_norm p))) as [k|] eqn:Ef.
  2:{ intros [= <- <-]. apply find_mutable_None in Ef; [|done]. rewrite path_comps_norm in Ef.
      by rewrite Ef. }
  destruct (find_mutable_Some fs _ k Hwf Ef) as (i & e & -> & Hi & Ha & Hc & He).
  pose proof (find_mutable_node fs _ _ e Hwf Ef He) as Hn.
  rewrite path_comps_norm in Hn, Hc. rewrite Hn.
  destruct (ramfs_find_mutable fs (Some (path_norm q))).
  { intros [= <- <-]. split; [done|left]. split_and!; [|done..]. by intros ?%Hq. }
  destruct Hq as [Hq _]. specialize (Hq eq_refl).
  pose proof (ensure_parent_dir_spec fs (path_norm q) Hwf) as Hp. rewrite path_comps_norm in Hp.
  destruct Hp as [[-> Hp]|[-> Hp]].
  2:{ intros [= <- <-]. split; [done|right; left]. done. }
  rewrite He, path_norm_norm. intros [= <- <-].
  destruct (fw_ent fs Hwf i e Hi) as [->|Ho]; [done|].
  assert (ent_update fs i e (with_path e (path_norm q)) (rmem fs)) as Hu.
  { split; try done; [|intros j ej _ Hj Hej Haj Hcj|by left|apply Hwf].
    - right. destruct Ho. split; cbn; try done. apply path_norm_norm.
    - rewrite fs_lookup_None in Hq. apply (Hq j ej Hej Haj). rewrite Hcj. apply path_comps_norm. }
  unfold ent_write. split; [by destruct (entry_set_spec _ _ _ _ _ [] Hwf Hu)|].
  right; right. split_and!; [done..|]. intros cs.
  destruct (entry_set_spec _ _ _ _ _ cs Hwf Hu) as (_ & _ & ->).
  rewrite Hc. unfold ent_comps. cbn [with_path r_alive r_path]. rewrite Ha, path_comps_norm. cbn [andb].
  destruct (decide (cs = path_comps q)) as [->|]; [by rewrite bool_decide_true|].
  rewrite bool_decide_false by congruence.
  destruct (decide (cs = path_comps p)) as [->|]; [by rewrite bool_decide_true|].
  by rewrite bool_decide_false by congruence.
Qed.

(** ** Growing, reading and writing a file *)

Lemma grow_file_cap_spec fuel need c :
  1 ≤ c ≤ RAMFS_MAX_FILE_SIZE → need ≤ RAMFS_MAX_FILE_SIZE → need ≤ c * 2 ^ Z.of_nat fuel →
  need ≤ grow_file_cap fuel need c ≤ RAMFS_MAX_FILE_SIZE ∧ c ≤ grow_file_cap fuel need c.
Proof.
  revert c. induction fuel as [|fuel IH]; intros c Hc Hn Hf; cbn [grow_file_cap].
  { change (2 ^ Z.of_nat 0) with 1 in Hf. lia. }
  destruct (Z.ltb_spec c need); [|lia]. cbv zeta.
  rewrite uw_small by (unfold RAMFS_MAX_FILE_SIZE in *; lia).
  rewrite Nat2Z.inj_succ, Z.pow_succ_r in Hf by lia.
  destruct (Z.ltb_spec RAMFS_MAX_FILE_SIZE (c * 2)).
  - pose proof (IH RAMFS_MAX_FILE_SIZE) as IH'.
    assert (1 ≤ 2 ^ Z.of_nat fuel) by (apply Z.lt_pred_le, Z.pow_pos_nonneg; lia).
    unfold RAMFS_MAX_FILE_SIZE in *. nia.
  - pose proof (IH (c * 2)). lia.
Qed.

Definition is_file e : bool := r_alive e && negb (has (r_flags e) RAMFS_FLAG_DIR).

(** The bytes of an open file. *)
Definition file_bytes fs e : list Z :=
  take (Z.to_nat (r_size e)) (default [] (rmem fs !! r_data e)).

Lemma file_bytes_length fs i e : fs_wf fs → entries fs !! i = Some e →
  Z.of_nat (length (file_bytes fs e)) = r_size e.
Proof.
  intros Hwf Hi. unfold file_bytes. rewrite length_take.
  destruct (fw_ent fs Hwf i e Hi) as [->|Ho]; [done|]. pose proof (eo_size _ _ Ho).
  destruct (decide (r_data e = 0)) as [Hd|Hd].
  - pose proof (eo_null _ _ Ho Hd). lia.
  - destruct (eo_buf _ _ Ho Hd) as (b & -> & Hb). cbn. lia.
Qed.

(** Only buffer, size and capacity of a file change. *)
Definition same_file e e' : Prop :=
  r_path e' = r_path e ∧ r_mode e' = r_mode e ∧ r_flags e' = r_flags e ∧ r_alive e' = r_alive e.

Lemma same_file_update fs i e e' mem' :
  fs_wf fs → entries fs !! i = Some e → is_file e = true → same_file e e' →
  ent_ok mem' e' →
  (∀ a, a ≠ r_data e → a ≠ r_data e' → mem' !! a = rmem fs !! a) →
  r_data e' = r_data e ∨ (rmem fs !! r_data e' = None ∧ mem' !! r_data e = None) →
  mem' !! 0 = None →
  ent_update fs i e e' mem'.
Proof.
  intros Hwf Hi Hf (Hp & Hm & Hfl & Hal) Ho Hmem Hd H0. split; try done; [by right|..].
  - intros j ej Ha Hj Hej Haj Hc. apply Hj. unfold ent_comps in Hc. rewrite Hp in Hc.
    rewrite Hal in Ha. by apply (fw_names fs Hwf j i ej e).
  - destruct Hd as [|[? _]]; [by left|by right; right].
  - intros Hne. by destruct Hd as [|[_ ?]].
Qed.

(** The same file with new contents. *)
Lemma file_set_spec fs (i : nat) e e' mem' :
  fs_wf fs → is_file e = true → same_file e e' → ent_update fs i e e' mem' →
  let fs' := RamFs (rt_set (rtab fs) (Z.of_nat i) e') mem' in
  fs_wf fs' ∧ entries fs' !! i = Some e'
  ∧ ∀ cs, fs_lookup fs' cs =
      if decide (cs = ent_comps e) then Some (NFile (r_mode e) (file_bytes fs' e'))
      else fs_lookup fs cs.
Proof.
  intros Hwf [Ha Hnd]%andb_true_iff (Hp & Hm & Hfl & Hal) Hu. cbv zeta.
  destruct (entry_set_spec _ _ _ _ _ [] Hwf Hu) as (? & ? & _). split_and!; [done..|].
  intros cs. destruct (entry_set_spec _ _ _ _ _ cs Hwf Hu) as (_ & _ & ->).
  unfold ent_comps. rewrite Hp, Hal, Ha. cbn [andb].
  destruct (decide (cs = path_comps (r_path e))) as [->|].
  - rewrite bool_decide_true by done. unfold node_of, file_bytes. rewrite Hfl, Hm.
    by apply negb_true_iff in Hnd as ->.
  - by rewrite !bool_decide_false by congruence.
Qed.

Lemma same_contents fs fs' i e :
  fs_wf fs → entries fs !! i = Some e → is_file e = true →
  (∀ cs, fs_lookup fs' cs = if decide (cs = ent_comps e)
     then Some (NFile (r_mode e) (file_bytes fs e)) else fs_lookup fs cs) →
  fs_same fs fs'.
Proof.
  intros Hwf Hi [Ha Hnd%negb_true_iff]%andb_true_iff Hl cs. rewrite Hl. destruct (decide _) as [->|]; [|done].
  symmetry. apply fs_lookup_Some; [done|]. exists i, e. split_and!; [done..|].
  unfold node_of. by rewrite Hnd.
Qed.

Lemma move_buffer_spec fs i e a junk :
  fs_wf fs → entries fs !! i = Some e → ent_ok (rmem fs) e →
  a ≠ 0 → rmem fs !! a = None → r_size e ≤ Z.of_nat (length junk) →
  ∃ bytes mem',
    move_buffer (<[a := junk]> (rmem fs)) (r_data e) (r_size e) a = Some mem'
    ∧ mem' !! a = Some bytes ∧ length bytes = length junk
    ∧ take (Z.to_nat (r_size e)) bytes = file_bytes fs e
    ∧ (∀ x, x ≠ r_data e → x ≠ a → mem' !! x = rmem fs !! x)
    ∧ mem' !! r_data e = None.
Proof.
  intros Hwf Hi Ho Ha0 Hfresh Hlen. pose proof (eo_size _ _ Ho) as Hsz.
  unfold file_bytes, move_buffer. destruct (Z.eqb_spec (r_data e) 0) as [Hd|Hd]; cbn [negb andb].
  - pose proof (eo_null _ _ Ho Hd). eexists junk, _. split; [done|].
    rewrite lookup_insert_eq, Hd. split_and!; [done|done| | |].
    + rewrite (fw_null fs Hwf). by replace (r_size e) with 0 by lia.
    + intros x _ Hx. by apply lookup_insert_ne.
    + rewrite lookup_insert_ne by done. apply Hwf.
  - destruct (eo_buf _ _ Ho Hd) as (b & Hb & Hbl).
    assert (a ≠ r_data e) as Hne by congruence.
    destruct (Z.ltb_spec 0 (r_size e)) as [Hpos|Hz].
    + rewrite (mem_load_ok _ _ b) by (rewrite ?lookup_insert_ne by done; done || lia).
      cbn [mbind option_bind]. change (Z.to_nat 0) with 0%nat. rewrite drop_0.
      rewrite (mem_store_ok _ _ junk).
      2: by rewrite lookup_insert_eq. 2: lia. 2: (rewrite length_take; lia).
      rewrite insert_insert_eq. unfold m_free. rewrite lookup_insert_ne, Hb by done.
      eexists _, _. split; [done|]. rewrite lookup_delete_ne, lookup_insert_eq by done.
      split_and!; [done| | | |apply lookup_delete_eq].
      * rewrite splice_length; [done|]. rewrite length_take. lia.
      * unfold splice. rewrite take_0. cbn [app default from_option].
        rewrite take_app_le by (rewrite length_take; lia). by rewrite take_take, Nat.min_id.
      * intros x Hx Hxa. by rewrite lookup_delete_ne, lookup_insert_ne.
    + unfold m_free. rewrite lookup_insert_ne, Hb by done.
      eexists junk, _. split; [done|]. rewrite lookup_delete_ne, lookup_insert_eq by done.
      split_and!; [done|done| | |apply lookup_delete_eq].
      * by replace (r_size e) with 0 by lia.
      * intros x Hx Hxa. by rewrite lookup_delete_ne, lookup_insert_ne.
Qed.

Lemma next_file_cap e mem need :
  ent_ok mem e → r_capacity e < need ≤ RAMFS_MAX_FILE_SIZE →
  need ≤ grow_file_cap GROW_FUEL need (if r_capacity e =? 0 then 64 else r_capacity e)
       ≤ RAMFS_MAX_FILE_SIZE.
Proof.
  intros Ho Hn. pose proof (eo_size _ _ Ho). unfold GROW_FUEL.
  apply grow_file_cap_spec; change (2 ^ Z.of_nat 20) with 1048576;
    unfold RAMFS_MAX_FILE_SIZE in *; destruct (Z.eqb_spec (r_capacity e) 0); lia.
Qed.

Lemma grow_spec fs (i : nat) e need : fs_wf fs → entries fs !! i = Some e → is_file e = true →
  0 ≤ need →
  ∃ fs' r, ramfs_grow fs (Z.of_nat i) need = Some (fs', r)
  ∧ ((r = E_RENDEZVOS ∧ fs' = fs)
     ∨ (r = REND_SUCCESS ∧ need ≤ RAMFS_MAX_FILE_SIZE ∧ fs_wf fs' ∧ fs_same fs fs'
        ∧ ∃ e', entries fs' !! i = Some e' ∧ same_file e e' ∧ r_size e' = r_size e
            ∧ need ≤ r_capacity e' ∧ file_bytes fs' e' = file_bytes fs e)).
Proof.
  intros Hwf Hi Hf Hneed. unfold ramfs_grow, ramfs_entry_at.
  rewrite (rt_get_view _ i e (fw_ok _ Hwf) Hi).
  pose proof Hf as [Ha Hnd%negb_true_iff]%andb_true_iff. rewrite Hnd.
  destruct (Z.ltb_spec RAMFS_MAX_FILE_SIZE need) as [|Hmax]; [eauto 10|].
  destruct (Z.leb_spec need (r_capacity e)) as [Hle|Hgt].
  { exists fs, REND_SUCCESS. split; [done|right]. split_and!; [done..|]. exists e. done. }
  destruct (fw_ent fs Hwf i e Hi) as [->|Ho]; [done|].
  pose proof (next_file_cap e _ need Ho (conj Hgt Hmax)) as Hnc. pose proof (eo_size _ _ Ho) as Hsz.
  set (nc := grow_file_cap _ _ _) in *. clearbody nc. cbv zeta.
  destruct (m_alloc (rmem fs) nc) as [[a junk]|] eqn:Em; [|eauto 10].
  destruct (m_alloc_fresh _ _ _ _ Em) as (Ha0 & Hfresh & Hlen).
  set (e' := with_buffer e a (r_size e) nc).
  destruct (move_buffer_spec fs i e a junk Hwf Hi Ho Ha0 Hfresh ltac:(lia))
    as (bytes & mem' & -> & Hab & Hbl & Hbytes & Hmem & Hold).
  eexists _, _. split; [done|right]. split; [done|]. split; [done|].
  assert (same_file e e') as Hsame by done.
  assert (ent_update fs i e e' mem') as Hu.
  { apply same_file_update; try done; cbn.
    - destruct Ho. split; cbn; try done; try lia; [congruence|]. intros _. exists bytes.
      split; [done|lia].
    - by right.
    - destruct (decide (r_data e = 0)) as [<-|]; [done|]. rewrite Hmem by done. apply Hwf. }
  destruct (file_set_spec fs i e e' mem' Hwf Hf Hsame Hu) as (Hwf' & Hi' & Hl).
  assert (file_bytes (RamFs (rt_set (rtab fs) (Z.of_nat i) e') mem') e' = file_bytes fs e) as Hfb.
  { unfold file_bytes at 1. cbn. by rewrite Hab. }
  rewrite Hfb in Hl. split_and!; [done|by eapply same_contents|]. exists e'. split_and!; try done.
  cbn. lia.
Qed.

(** Contents after a write of [buf] at [off]: a hole between the old end of
    the file and [off] holds the bytes [gap]. *)
Definition write_at (off : nat) (gap buf c : list Z) : list Z :=
  take off c ++ gap ++ buf ++ drop (off + length buf) c.

Lemma write_at_splice (b buf : list Z) (o s : nat) :
  (o + length buf ≤ length b)%nat →
  take (Nat.max s (o + length buf)) (splice o buf b)
  = write_at o (drop s (take o b)) buf (take s b).
Proof.
  intros Hl. unfold write_at, splice.
  rewrite (app_assoc (take o (take s b))), take_take, (Nat.min_comm o s), <- take_take, take_drop.
  rewrite !take_app. rewrite length_take, Nat.min_l by lia. f_equal.
  { apply take_ge. rewrite length_take. lia. }
  f_equal; [apply take_ge; lia|]. rewrite skipn_firstn_comm. f_equal. lia.
Qed.

(** A store into the buffer of file [i] followed by a new size. *)
Lemma store_spec fs (i : nat) e off bytes size :
  fs_wf fs → entries fs !! i = Some e → is_file e = true → r_data e ≠ 0 →
  0 ≤ off → off + Z.of_nat (length bytes) ≤ r_capacity e → 0 ≤ size ≤ r_capacity e →
  ∃ b mem', rmem fs !! r_data e = Some b ∧ Z.of_nat (length b) = r_capacity e
  ∧ mem_store (rmem fs) (r_data e) off bytes = Some mem'
  ∧ let fs' := RamFs (rt_set (rtab fs) (Z.of_nat i) (with_size e size)) mem' in
    fs_wf fs'
    ∧ ∀ cs, fs_lookup fs' cs =
        if decide (cs = ent_comps e)
        then Some (NFile (r_mode e) (take (Z.to_nat size) (splice (Z.to_nat off) bytes b)))
        else fs_lookup fs cs.
Proof.
  intros Hwf Hi Hf Hd Hoff Hend Hsize.
  destruct (fw_ent fs Hwf i e Hi) as [->|Ho]; [done|].
  destruct (eo_buf _ _ Ho Hd) as (b & Hb & Hbl). rewrite (mem_store_ok _ _ b) by (done || lia).
  set (mem' := <[r_data e := _]> _). exists b, mem'. split_and!; [done..|]. cbv zeta.
  assert (ent_update fs i e (with_size e size) mem') as Hu.
  { apply same_file_update; try done; cbn.
    - destruct Ho. split; cbn; try done. intros _. exists (splice (Z.to_nat off) bytes b).
      unfold mem'. rewrite lookup_insert_eq, splice_length by lia. done.
    - intros a Ha _. unfold mem'. by rewrite lookup_insert_ne.
    - by left.
    - unfold mem'. rewrite lookup_insert_ne by done. apply Hwf. }
  destruct (file_set_spec fs i e (with_size e size) mem' Hwf Hf) as (? & _ & Hl); [done|done|].
  split; [done|]. intros cs. rewrite Hl. unfold file_bytes. cbn [rmem with_size with_buffer r_size r_data].
  unfold mem'. by rewrite lookup_insert_eq.
Qed.

Lemma is_file_spec e : is_file e = true →
  negb (r_alive e) || has (r_flags e) RAMFS_FLAG_DIR = false.
Proof. intros [-> ->%negb_true_iff]%andb_true_iff. done. Qed.

Lemma same_file_is e e' : same_file e e' → is_file e' = is_file e ∧ ent_comps e' = ent_comps e.
Proof. intros (Hp & _ & Hf & Ha). unfold is_file, ent_comps. by rewrite Hp, Hf, Ha. Qed.

Lemma rt_set_same t (i : nat) e :
  rt_ok t → rt_view t !! i = Some e →
  rt_ok (rt_set t (Z.of_nat i) e) ∧ rt_view (rt_set t (Z.of_nat i) e) = rt_view t.
Proof.
  intros Hok Hi. destruct (rt_set_ok t i e Hok) as [? Hv]; [by eapply lookup_lt_Some|].
  split; [done|]. rewrite Hv. by apply list_insert_id.
Qed.

Lemma fs_wf_view fs t' : fs_wf fs → rt_ok t' → rt_view t' = entries fs →
  fs_wf (RamFs t' (rmem fs)) ∧ fs_same fs (RamFs t' (rmem fs)).
Proof.
  intros Hwf Hok Hv. split.
  - destruct Hwf; split; unfold entries in *; cbn; rewrite ?Hv; done.
  - intros cs. unfold fs_lookup, entries. cbn. by rewrite Hv.
Qed.

(** [if (end > ent->size) ent->size = end] is an assignment of the maximum. *)
Lemma grow_size_view fs (i : nat) e n : fs_wf fs → entries fs !! i = Some e →
  let t1 := rt_set (rtab fs) (Z.of_nat i) (with_size e (Z.max (r_size e) n)) in
  let t2 := if r_size e <? n then rt_set (rtab fs) (Z.of_nat i) (with_size e n) else rtab fs in
  rt_ok t1 → rt_ok t2 ∧ rt_view t2 = rt_view t1.
Proof.
  intros Hwf Hi. cbv zeta. intros Hok. destruct (Z.ltb_spec (r_size e) n).
  - by rewrite Z.max_r in * by lia.
  - rewrite Z.max_l by lia. replace (with_size e (r_size e)) with e by by destruct e.
    split; [apply Hwf|]. symmetry. apply rt_set_same; [apply Hwf|done].
Qed.

(** What a write of [buf] at [off] to a file does. *)
Definition write_result fs fs' e (off : Z) (buf : list Z) (r : error_t + Z) : Prop :=
  match r with
  | inr n => n = Z.of_nat (length buf)
      ∧ (buf = [] → fs_same fs fs')
      ∧ (buf ≠ [] → off + n ≤ RAMFS_MAX_FILE_SIZE
         ∧ ∃ gap, length gap = (Z.to_nat off - length (file_bytes fs e))%nat
           ∧ ∀ cs, fs_lookup fs' cs =
               if decide (cs = ent_comps e)
               then Some (NFile (r_mode e)
                            (write_at (Z.to_nat off) gap buf (file_bytes fs e)))
               else fs_lookup fs cs)
  | inl err => fs_same fs fs'
      ∧ (err = E_IN_PARAM ∧ RAMFS_MAX_FILE_SIZE < off + Z.of_nat (length buf)
         ∨ err = E_RENDEZVOS)
  end.

Lemma write_spec fs (i : nat) e off buf :
  fs_wf fs → entries fs !! i = Some e → is_file e = true →
  0 ≤ off < 2 ^ 64 → Z.of_nat (length buf) < 2 ^ 64 →
  ∃ fs' r, ramfs_write fs (Z.of_nat i) off buf = Some (fs', r)
    ∧ fs_wf fs' ∧ (∃ e', entries fs' !! i = Some e' ∧ same_file e e')
    ∧ write_result fs fs' e off buf r.
Proof.
  intros Hwf Hi Hf Hoff Hlen. unfold ramfs_write, ramfs_entry_at.
  rewrite (rt_get_view _ i e (fw_ok _ Hwf) Hi), is_file_spec by done.
  destruct (Z.eqb_spec (Z.of_nat (length buf)) 0) as [E0|E0].
  { exists fs, (inr 0). split_and!; [done..|by exists e|]. cbn. split_and!; [lia|done|].
    by destruct buf. }
  pose proof (uw_add_wrap 64 off (Z.of_nat (length buf)) Hoff ltac:(lia)) as Hend.
  cbv zeta. set (end_ := u64 _) in *. clearbody end_.
  destruct ((end_ <? off) || (RAMFS_MAX_FILE_SIZE <? end_)) eqn:Eb.
  { exists fs, (inl E_IN_PARAM). split_and!; [done..|by exists e|]. cbn. split; [done|left].
    split; [done|]. apply orb_true_iff in Eb. unfold RAMFS_MAX_FILE_SIZE in *.
    destruct Eb; zbool; lia. }
  zbool. destruct Hend as [[-> _]|?]; [|lia].
  destruct (grow_spec fs i e (off + Z.of_nat (length buf)) Hwf Hi Hf ltac:(lia))
    as (fs1 & r1 & -> & [[-> ->]|(-> & Hmax & Hwf1 & Hsame & e1 & Hi1 & Hse & Hsz & Hcap & Hfb)]).
  { exists fs, (inl E_RENDEZVOS). split_and!; [done..|by exists e|]. cbn. split; [done|by right]. }
  rewrite (rt_get_view _ i e1 (fw_ok _ Hwf1) Hi1). cbn [default from_option id].
  destruct (same_file_is e e1 Hse) as [Hf1 Hc1]. rewrite Hf in Hf1.
  assert (ent_ok (rmem fs1) e1) as Ho1.
  { destruct (fw_ent fs1 Hwf1 i e1 Hi1) as [->|]; [done|done]. }
  pose proof (eo_size _ _ Ho1) as Hs1.
  assert (r_data e1 ≠ 0) as Hd1. { intros ?%(eo_null _ _ Ho1). lia. }
  destruct (store_spec fs1 i e1 off buf (Z.max (r_size e1) (off + Z.of_nat (length buf))) Hwf1 Hi1 Hf1 Hd1)
    as (b & mem' & Hb & Hbl & -> & Hwf' & Hl); [lia..|].
  eexists _, _. split; [done|].
  destruct (grow_size_view fs1 i e1 (off + Z.of_nat (length buf)) Hwf1 Hi1 (fw_ok _ Hwf'))
    as [Hok' Hv']. set (t' := if r_size e1 <? _ then _ else _) in *.
  destruct (fs_wf_view _ t' Hwf' Hok' Hv') as [Hwf2 Hsame2]. split; [exact Hwf2|].
  split; [exists (with_size e1 (Z.max (r_size e1) (off + Z.of_nat (length buf))));
          split; [|exact Hse]; unfold entries; cbn; rewrite Hv'|].
  { destruct (set_entry fs1 i (with_size e1 (Z.max (r_size e1) (off + Z.of_nat (length buf)))) Hwf1)
      as [_ ->]; [by eapply lookup_lt_Some|].
    apply list_lookup_insert_eq. by eapply lookup_lt_Some. }
  cbn. split_and!; [done|by destruct buf|]. intros _. split; [lia|].
  exists (drop (Z.to_nat (r_size e)) (take (Z.to_nat off) b)). split.
  - rewrite length_drop, length_take. pose proof (file_bytes_length fs i e Hwf Hi). lia.
  - intros cs. rewrite Hsame2, Hl, Hsame, Hc1. destruct (decide _); [|done].
    destruct Hse as (_ & -> & _). do 2 f_equal.
    rewrite <- Hfb. unfold file_bytes. rewrite Hb. cbn [default from_option id]. rewrite Hsz.
    rewrite <- write_at_splice by lia. f_equal. lia.
Qed.

(** Contents after a truncation or extension to [n] bytes. *)
Definition resize (n : nat) (c : list Z) : list Z := take n c ++ replicate (n - length c) 0.

Lemma resize_splice (b : list Z) (s n : nat) :
  (s ≤ n ≤ length b)%nat → take n (splice s (replicate (n - s) 0) b) = resize n (take s b).
Proof.
  intros Hn. unfold splice, resize. rewrite length_replicate, length_take, Nat.min_l by lia.
  rewrite (take_ge (take s b)) by (rewrite length_take; lia).
  rewrite app_assoc, take_app_le by (rewrite length_app, length_take, length_replicate; lia).
  apply take_ge. rewrite length_app, length_take, length_replicate. lia.
Qed.

Definition truncate_result fs fs' e (size : Z) (r : error_t) : Prop :=
  (r = E_IN_PARAM ∧ RAMFS_MAX_FILE_SIZE < size ∧ fs_same fs fs')
  ∨ (r = E_RENDEZVOS ∧ fs_same fs fs')
  ∨ (r = REND_SUCCESS ∧ size ≤ RAMFS_MAX_FILE_SIZE
     ∧ ∀ cs, fs_lookup fs' cs =
         if decide (cs = ent_comps e)
         then Some (NFile (r_mode e) (resize (Z.to_nat size) (file_bytes fs e)))
         else fs_lookup fs cs).

(** Assigning only the size of a file. *)
Lemma set_size_spec fs (i : nat) e size :
  fs_wf fs → entries fs !! i = Some e → is_file e = true → 0 ≤ size ≤ r_capacity e →
  let fs' := RamFs (rt_set (rtab fs) (Z.of_nat i) (with_size e size)) (rmem fs) in
  fs_wf fs'
  ∧ ∀ cs, fs_lookup fs' cs =
      if decide (cs = ent_comps e)
      then Some (NFile (r_mode e) (take (Z.to_nat size) (default [] (rmem fs !! r_data e))))
      else fs_lookup fs cs.
Proof.
  intros Hwf Hi Hf Hsize. destruct (fw_ent fs Hwf i e Hi) as [->|Ho]; [done|].
  assert (ent_update fs i e (with_size e size) (rmem fs)) as Hu.
  { apply same_file_update; try done; cbn; [|by left|apply Hwf]. by destruct Ho; split. }
  by destruct (file_set_spec fs i e (with_size e size) (rmem fs) Hwf Hf) as (? & _ & ?).
Qed.

Lemma truncate_spec fs (i : nat) e size :
  fs_wf fs → entries fs !! i = Some e → is_file e = true → 0 ≤ size →
  ∃ fs' r, ramfs_truncate fs (Z.of_nat i) size = Some (fs', r)
    ∧ fs_wf fs' ∧ truncate_result fs fs' e size r.
Proof.
  intros Hwf Hi Hf Hsize. unfold ramfs_truncate, ramfs_entry_at, truncate_result.
  rewrite (rt_get_view _ i e (fw_ok _ Hwf) Hi), is_file_spec by done.
  pose proof (file_bytes_length fs i e Hwf Hi) as Hfl.
  destruct (Z.ltb_spec RAMFS_MAX_FILE_SIZE size) as [|Hmax].
  { exists fs, E_IN_PARAM. split_and!; [done..|]. by left. }
  destruct (Z.ltb_spec size (r_size e)) as [Hlt|Hge].
  { assert (ent_ok (rmem fs) e) as Ho by by destruct (fw_ent fs Hwf i e Hi) as [->|].
    pose proof (eo_size _ _ Ho) as Hsz.
    destruct (set_size_spec fs i e size Hwf Hi Hf ltac:(lia)) as [Hwf' Hl].
    eexists _, _. split; [done|]. split; [exact Hwf'|]. right; right. split_and!; [done..|].
    intros cs. unfold ent_write. rewrite Hl. destruct (decide _); [|done]. do 2 f_equal.
    unfold resize. replace (Z.to_nat size - _)%nat with 0%nat by lia. rewrite app_nil_r.
    unfold file_bytes. rewrite take_take. f_equal. lia. }
  destruct (grow_spec fs i e size Hwf Hi Hf Hsize)
    as (fs1 & r1 & -> & [[-> ->]|(-> & _ & Hwf1 & Hsame & e1 & Hi1 & Hse & Hsz & Hcap & Hfb)]).
  { exists fs, E_RENDEZVOS. split_and!; [done..|]. right; by left. }
  rewrite (rt_get_view _ i e1 (fw_ok _ Hwf1) Hi1). cbn [default from_option id]. cbv zeta.
  destruct (same_file_is e e1 Hse) as [Hf1 Hc1]. rewrite Hf in Hf1. rewrite Hsz.
  assert (ent_ok (rmem fs1) e1) as Ho1 by by destruct (fw_ent fs1 Hwf1 i e1 Hi1) as [->|].
  pose proof (eo_size _ _ Ho1) as Hs1. destruct Hse as (_ & Hm1 & _).
  destruct ((r_size e <? size) && negb (r_data e1 =? 0)) eqn:Eb.
  - zbool. destruct (store_spec fs1 i e1 (r_size e) (replicate (Z.to_nat (size - r_size e)) 0) size Hwf1 Hi1 Hf1)
      as (b & mem' & Hb & Hbl & -> & Hwf' & Hl); [done|lia|rewrite length_replicate; lia|lia|].
    eexists _, _. split; [done|]. split; [exact Hwf'|]. right; right. split_and!; [done..|].
    intros cs. rewrite Hl, Hc1, Hm1, Hsame. destruct (decide _); [|done]. do 2 f_equal.
    rewrite Z2Nat.inj_sub, resize_splice by lia. rewrite <- Hfb. unfold file_bytes.
    by rewrite Hb, Hsz.
  - destruct (set_size_spec fs1 i e1 size Hwf1 Hi1 Hf1 ltac:(lia)) as [Hwf' Hl].
    eexists _, _. split; [done|]. split; [exact Hwf'|]. right; right. split_and!; [done..|].
    intros cs. rewrite Hl, Hc1, Hm1, Hsame. destruct (decide _); [|done]. do 2 f_equal.
    assert (size = r_size e) as ->.
    { apply andb_false_iff in Eb as [?|Eb]; zbool; [lia|]. pose proof (eo_null _ _ Ho1 Eb). lia. }
    unfold resize. replace (Z.to_nat (r_size e) - _)%nat with 0%nat by lia.
    rewrite app_nil_r, (take_ge (file_bytes fs e)) by lia. rewrite <- Hfb. unfold file_bytes. by rewrite Hsz.
Qed.

(** A read returns the bytes of the file from [off] on, at most [len]. *)
Lemma read_spec fs (i : nat) e off len :
  fs_wf fs → entries fs !! i = Some e → is_file e = true → 0 ≤ off → 0 ≤ len →
  let bytes := take (Z.to_nat len) (drop (Z.to_nat off) (file_bytes fs e)) in
  ramfs_read fs (Z.of_nat i) off len = Some (inr (Z.of_nat (length bytes), bytes)).
Proof.
  intros Hwf Hi Hf Hoff Hlen. cbv zeta. unfold ramfs_read, ramfs_entry_at.
  rewrite (rt_get_view _ i e (fw_ok _ Hwf) Hi), is_file_spec by done.
  pose proof (file_bytes_length fs i e Hwf Hi) as Hfl.
  destruct (Z.leb_spec (r_size e) off) as [Hle|Hgt].
  { rewrite drop_ge by lia. by rewrite take_nil. }
  assert (ent_ok (rmem fs) e) as Ho by by destruct (fw_ent fs Hwf i e Hi) as [->|].
  pose proof (eo_size _ _ Ho) as Hsz.
  assert (r_data e ≠ 0) as Hd. { intros ?%(eo_null _ _ Ho). lia. }
  destruct (eo_buf _ _ Ho Hd) as (b & Hb & Hbl). cbv zeta.
  rewrite (proj2 (Z.eqb_neq _ _) Hd). cbn [negb]. rewrite andb_true_r.
  set (n := if r_size e - off <? len then r_size e - off else len).
  assert (n = Z.min len (r_size e - off)) as Hn.
  { unfold n. destruct (Z.ltb_spec (r_size e - off) len); lia. }
  assert (take (Z.to_nat len) (drop (Z.to_nat off) (file_bytes fs e))
          = take (Z.to_nat n) (drop (Z.to_nat off) b)) as E.
  { unfold file_bytes. rewrite Hb. cbn. rewrite skipn_firstn_comm, take_take. f_equal. lia. }
  rewrite E, length_take, length_drop. rewrite Nat.min_l, Z2Nat.id by lia.
  destruct (Z.ltb_spec 0 n).
  - by rewrite (mem_load_ok _ _ b) by (done || lia).
  - by replace n with 0 by lia.
Qed.

End spec.
