(* ===== verification/RamFsThm.v ===== *)
(** * ramfs: traces, hard links and directory listings *)

From stdpp Require Import base numbers list strings gmap option sorting.
From Stdlib Require Import Ascii.
From S2P Require Import Prelude PageSlice SliceTable VfsPath VfsInode KHeap DirNames RamFs RamFsSpec.

Definition lookup_fn := list cstr → option node.

(** One operation of a client, by path. *)
Inductive fs_cmd : Type :=
  | FMkdir (al : alloc_oracle) (p : cstr) (mode : Z)
  | FCreate (al : alloc_oracle) (p : cstr) (mode : Z)
  | FUnlink (p : cstr)
  | FRename (p q : cstr)
  | FWrite (p : cstr) (off : Z) (buf : list Z)
  | FTruncate (p : cstr) (size : Z).

(** The arguments fit the C types. *)
Definition cmd_ok (c : fs_cmd) : Prop :=
  match c with
  | FWrite _ off buf => 0 ≤ off < 2 ^ 64 ∧ Z.of_nat (length buf) < 2 ^ 64
  | FTruncate _ size => 0 ≤ size < 2 ^ 64
  | _ => True
  end.

Definition no_value (r : error_t) : error_t + Z :=
  match r with REND_SUCCESS => inr 0 | e => inl e end.

Definition file_mode (mode type : Z) : Z :=
  Z.lor (Z.land mode (Z.lxor RAMFS_S_IFMT 0xffffffff)) type.

Section run.
Context {T : Type} `{SC : StrcmpS} `{RT : RecordTable ramfs_entry T} `{A : Allocator}.

Definition run_fs (fs : ramfs T) (c : fs_cmd) : option (ramfs T * (error_t + Z)) :=
  match c with
  | FMkdir al p mode => let '(fs', r) := ramfs_mkdir al fs (Some p) mode in Some (fs', no_value r)
  | FCreate al p mode =>
      let '(fs', r) := ramfs_create_file al fs (Some p) mode in Some (fs', no_value r)
  | FUnlink p => prod_map id no_value <$> ramfs_unlink fs (Some p)
  | FRename p q =>
      let '(fs', r) := ramfs_rename fs (Some p) (Some q) in Some (fs', no_value r)
  | FWrite p off buf =>
      match ramfs_lookup fs (Some p) with
      | Some ent => ramfs_write fs ent off buf
      | None => Some (fs, inl E_IN_PARAM)
      end
  | FTruncate p size =>
      match ramfs_lookup fs (Some p) with
      | Some ent => prod_map id no_value <$> ramfs_truncate fs ent size
      | None => Some (fs, inl E_IN_PARAM)
      end
  end.

Fixpoint run_fs_all (fs : ramfs T) (cs : list fs_cmd)
  : option (ramfs T * list (error_t + Z)) :=
  match cs with
  | [] => Some (fs, [])
  | c :: cs' =>
      match run_fs fs c with
      | None => None
      | Some (fs', r) =>
          match run_fs_all fs' cs' with
          | None => None
          | Some (fs'', rs) => Some (fs'', r :: rs)
          end
      end
  end.
End run.

(** ** The abstract operations on a map from component lists to nodes *)

Definition unchanged (L L' : lookup_fn) : Prop := ∀ cs, L' cs = L cs.
Definition updated (L L' : lookup_fn) (cs0 : list cstr) (n : option node) : Prop :=
  ∀ cs, L' cs = if decide (cs = cs0) then n else L cs.

(** The parent is the root, a directory, or unknown to ramfs. *)
Definition may_contain (L : lookup_fn) (cs : list cstr) : Prop :=
  cs ≠ [] ∧ ∀ m b, L (removelast cs) = Some (NFile m b) → removelast cs = [].

Definition abs_add (L : lookup_fn) (cs : list cstr) (n : node) (r : error_t + Z) (L' : lookup_fn)
  : Prop :=
  match r with
  | inr _ => may_contain L cs ∧ L cs = None ∧ updated L L' cs (Some n)
  | inl E_IN_PARAM => ¬ may_contain L cs ∧ unchanged L L'
  | inl E_RENDEZVOS => may_contain L cs ∧ L cs ≠ None ∧ unchanged L L'
  | inl _ => may_contain L cs ∧ L cs = None ∧ unchanged L L'
  end.

(** [abs_step L c r L']: command [c] answers [r] and turns [L] into [L']. *)
Definition abs_step (L : lookup_fn) (c : fs_cmd) (r : error_t + Z) (L' : lookup_fn) : Prop :=
  match c with
  | FMkdir _ p mode => abs_add L (path_comps p) (NDir (file_mode mode RAMFS_S_IFDIR)) r L'
  | FCreate _ p mode => abs_add L (path_comps p) (NFile (file_mode mode RAMFS_S_IFREG) []) r L'
  | FUnlink p =>
      match L (path_comps p) with
      | None => r = inl E_IN_PARAM ∧ unchanged L L'
      | Some _ => r = inr 0 ∧ updated L L' (path_comps p) None
      end
  | FRename p q =>
      match L (path_comps p) with
      | None => r = inl E_IN_PARAM ∧ unchanged L L'
      | Some n =>
          (r = inl E_RENDEZVOS ∧ L (path_comps q) ≠ None ∧ unchanged L L')
          ∨ (r = inl E_IN_PARAM ∧ L (path_comps q) = None ∧ ¬ may_contain L (path_comps q)
             ∧ unchanged L L')
          ∨ (r = inr 0 ∧ L (path_comps q) = None ∧ may_contain L (path_comps q)
             ∧ ∃ L1, updated L L1 (path_comps p) None ∧ updated L1 L' (path_comps q) (Some n))
      end
  | FWrite p off buf =>
      match L (path_comps p), r with
      | Some (NFile m c), inr n =>
          n = Z.of_nat (length buf)
          ∧ (buf = [] → unchanged L L')
          ∧ (buf ≠ [] → off + n ≤ RAMFS_MAX_FILE_SIZE
             ∧ ∃ gap, length gap = (Z.to_nat off - length c)%nat
               ∧ updated L L' (path_comps p) (Some (NFile m (write_at (Z.to_nat off) gap buf c))))
      | Some (NFile m c), inl e =>
          unchanged L L'
          ∧ (e = E_IN_PARAM ∧ RAMFS_MAX_FILE_SIZE < off + Z.of_nat (length buf) ∨ e = E_RENDEZVOS)
      | _, _ => r = inl E_IN_PARAM ∧ unchanged L L'
      end
  | FTruncate p size =>
      match L (path_comps p) with
      | Some (NFile m c) =>
          (r = inl E_IN_PARAM ∧ RAMFS_MAX_FILE_SIZE < size ∧ unchanged L L')
          ∨ (r = inl E_RENDEZVOS ∧ unchanged L L')
          ∨ (r = inr 0 ∧ size ≤ RAMFS_MAX_FILE_SIZE
             ∧ updated L L' (path_comps p) (Some (NFile m (resize (Z.to_nat size) c))))
      | _ => r = inl E_IN_PARAM ∧ unchanged L L'
      end
  end.

Inductive abs_steps : lookup_fn → list fs_cmd → list (error_t + Z) → lookup_fn → Prop :=
  | AbsNil L L' : unchanged L L' → abs_steps L [] [] L'
  | AbsCons L L1 L' c cs r rs :
      abs_step L c r L1 → abs_steps L1 cs rs L' → abs_steps L (c :: cs) (r :: rs) L'.

Section refine.
Context {T : Type} `{SCL : StrcmpSLaws} `{RT : RecordTable ramfs_entry T}
        {RTL : RecordTableLaws ramfs_entry T} `{AL : AllocatorLaws}.
Implicit Types (fs : ramfs T).

(** A found entry is a file with its bytes, or a directory on which reading
    and writing are refused. *)
Lemma lookup_cases fs p : fs_wf fs →
  (fs_lookup fs (path_comps p) = None ∧ ramfs_lookup fs (Some p) = None)
  ∨ ∃ i e, ramfs_lookup fs (Some p) = Some (Z.of_nat i) ∧ entries fs !! i = Some e
      ∧ ramfs_entry_at fs (Z.of_nat i) = Some e ∧ ent_comps e = path_comps p
      ∧ ((is_file e = true
          ∧ fs_lookup fs (path_comps p) = Some (NFile (r_mode e) (file_bytes fs e)))
         ∨ (has (r_flags e) RAMFS_FLAG_DIR = true
            ∧ fs_lookup fs (path_comps p) = Some (NDir (r_mode e)))).
Proof.
  intros Hwf. unfold ramfs_lookup.
  destruct (ramfs_find_mutable fs (Some p)) as [k|] eqn:Ef.
  - right. destruct (find_mutable_Some fs p k Hwf Ef) as (i & e & -> & Hi & Ha & Hc & He).
    pose proof (find_mutable_node fs p _ e Hwf Ef He) as Hn. exists i, e. split_and!; [done..|].
    rewrite Hn. unfold node_of, is_file, file_bytes. rewrite Ha.
    destruct (has (r_flags e) RAMFS_FLAG_DIR); [by right|by left].
  - left. split; [|done]. by apply find_mutable_None.
Qed.

Lemma abs_add_sound al fs p mode flags fs' r :
  fs_wf fs → ramfs_add al fs (Some p) mode flags = (fs', r) →
  fs_wf fs' ∧ abs_add (fs_lookup fs) (path_comps p) (new_node mode flags) (no_value r) (fs_lookup fs').
Proof.
  intros Hwf E. destruct (add_spec al fs p mode flags fs' r Hwf E) as [Hwf' Hr].
  split; [done|]. destruct r; cbn; [exact Hr| | |exact Hr|done..].
  - by destruct Hr as [? ->].
  - by destruct Hr as (? & ? & ->).
Qed.

Lemma write_dir fs i e off buf :
  ramfs_entry_at fs i = Some e → has (r_flags e) RAMFS_FLAG_DIR = true →
  ramfs_write fs i off buf = Some (fs, inl E_IN_PARAM).
Proof. intros He Hd. unfold ramfs_write. by rewrite He, Hd, orb_true_r. Qed.

Lemma truncate_dir fs i e size :
  ramfs_entry_at fs i = Some e → has (r_flags e) RAMFS_FLAG_DIR = true →
  ramfs_truncate fs i size = Some (fs, E_IN_PARAM).
Proof. intros He Hd. unfold ramfs_truncate. by rewrite He, Hd, orb_true_r. Qed.

Lemma run_fs_sound fs c : fs_wf fs → cmd_ok c →
  ∃ fs' r, run_fs fs c = Some (fs', r) ∧ fs_wf fs' ∧ abs_step (fs_lookup fs) c r (fs_lookup fs').
Proof.
  intros Hwf Hc. destruct c as [al p mode|al p mode|p|p q|p off buf|p size]; cbn [run_fs abs_step].
  - unfold ramfs_mkdir. fold (file_mode mode RAMFS_S_IFDIR). destruct (ramfs_add _ _ _ _ _) as [fs' r] eqn:E.
    destruct (abs_add_sound _ _ _ _ _ _ _ Hwf E). by exists fs', (no_value r).
  - unfold ramfs_create_file. fold (file_mode mode RAMFS_S_IFREG). destruct (ramfs_add _ _ _ _ _) as [fs' r] eqn:E.
    destruct (abs_add_sound _ _ _ _ _ _ _ Hwf E). by exists fs', (no_value r).
  - destruct (unlink_spec fs p Hwf) as (fs' & r & -> & Hwf' & Hr).
    exists fs', (no_value r). split_and!; [done..|].
    destruct (fs_lookup fs (path_comps p)); destruct Hr as [-> Hr]; [done|by subst].
  - destruct (ramfs_rename fs (Some p) (Some q)) as [fs' r] eqn:E.
    destruct (rename_spec fs p q fs' r Hwf E) as [Hwf' Hr]. exists fs', (no_value r).
    split_and!; [done..|]. destruct (fs_lookup fs (path_comps p)) as [n|]; [|by destruct Hr as [-> ->]].
    destruct Hr as [(? & -> & ->)|[(? & ? & -> & ->)|(? & ? & -> & Hl)]]; [by left|by right; left|].
    right; right. split_and!; [done..|].
    exists (λ cs, if decide (cs = path_comps p) then None else fs_lookup fs cs).
    split; [done|]. intros cs. by rewrite Hl.
  - destruct Hc as [Ho Hb].
    destruct (lookup_cases fs p Hwf) as [[-> ->]|(i & e & -> & Hi & He & Hcs & [[Hf ->]|[Hd ->]])].
    + by exists fs, (inl E_IN_PARAM).
    + destruct (write_spec fs i e off buf Hwf Hi Hf Ho Hb) as (fs' & r & E & Hwf' & _ & Hr).
      exists fs', r. split_and!; [done..|]. unfold write_result in Hr. rewrite Hcs in Hr.
      by destruct r.
    + exists fs, (inl E_IN_PARAM). by rewrite (write_dir fs _ e).
  - cbn in Hc.
    destruct (lookup_cases fs p Hwf) as [[-> ->]|(i & e & -> & Hi & He & Hcs & [[Hf ->]|[Hd ->]])].
    + by exists fs, (inl E_IN_PARAM).
    + destruct (truncate_spec fs i e size Hwf Hi Hf ltac:(lia)) as (fs' & r & -> & Hwf' & Hr).
      exists fs', (no_value r). split_and!; [done..|]. unfold truncate_result in Hr. rewrite Hcs in Hr.
      destruct Hr as [(-> & ?)|[(-> & ?)|(-> & ?)]]; [by left|by right; left|by right; right].
    + exists fs, (inl E_IN_PARAM). by rewrite (truncate_dir fs _ e).
Qed.

Lemma run_fs_all_sound fs cs : fs_wf fs → Forall cmd_ok cs →
  ∃ fs' rs, run_fs_all fs cs = Some (fs', rs) ∧ fs_wf fs'
    ∧ abs_steps (fs_lookup fs) cs rs (fs_lookup fs').
Proof.
  intros Hwf Hcs. revert fs Hwf. induction Hcs as [|c cs Hc _ IH]; intros fs Hwf.
  - exists fs, []. split_and!; [done..|]. by constructor.
  - destruct (run_fs_sound fs c Hwf Hc) as (fs1 & r & E1 & Hwf1 & Hs).
    destruct (IH fs1 Hwf1) as (fs' & rs & E2 & Hwf' & Hss). cbn. rewrite E1, E2.
    exists fs', (r :: rs). split_and!; [done..|]. by econstructor.
Qed.

Lemma init_wf al fs : rmem fs = ∅ → fs_wf (ramfs_init al fs) ∧ ∀ cs, fs_lookup (ramfs_init al fs) cs = None.
Proof.
  intros Hm. unfold ramfs_init. destruct (rt_init al 32) as [e t] eqn:Ei.
  destruct (rt_init_ok al 32 e t ltac:(lia) Ei) as [Hok Hv]. rewrite Hm.
  split; [|intros cs; unfold fs_lookup, entries; cbn; by rewrite Hv].
  split; unfold entries; cbn; rewrite ?Hv; done.
Qed.

(** C1. Refinement of ramfs: any sequence of mkdir, create, unlink, rename,
    write and truncate, under any behaviour of the allocators, never touches
    unallocated memory, keeps every entry and buffer well formed (no shared
    buffer, no leaked buffer), and answers and behaves as the operations on a
    map from component lists to files and directories. *)
Theorem ramfs_refines_fs al fs cs :
  rmem fs = ∅ → Forall cmd_ok cs →
  (∀ ds, fs_lookup (ramfs_init al fs) ds = None)
  ∧ ∃ fs' rs, run_fs_all (ramfs_init al fs) cs = Some (fs', rs) ∧ fs_wf fs'
      ∧ abs_steps (fs_lookup (ramfs_init al fs)) cs rs (fs_lookup fs').
Proof.
  intros Hm Hcs. destruct (init_wf al fs Hm) as [Hwf Hn]. split; [done|].
  by apply run_fs_all_sound.
Qed.

(** Round trip: after a successful write the bytes written are read back
    at the same offset, and the rest of the file is as before the write. *)
Theorem ramfs_read_after_write fs fs' p off buf i :
  fs_wf fs → ramfs_lookup fs (Some p) = Some i →
  0 ≤ off < 2 ^ 64 → Z.of_nat (length buf) < 2 ^ 64 → buf ≠ [] →
  ramfs_write fs i off buf = Some (fs', inr (Z.of_nat (length buf))) →
  ∃ m c gap,
    fs_lookup fs (path_comps p) = Some (NFile m c)
    ∧ fs_lookup fs' (path_comps p) = Some (NFile m (write_at (Z.to_nat off) gap buf c))
    ∧ length gap = (Z.to_nat off - length c)%nat
    ∧ ramfs_lookup fs' (Some p) = Some i
    ∧ ramfs_read fs' i off (Z.of_nat (length buf)) = Some (inr (Z.of_nat (length buf), buf)).
Proof.
  intros Hwf Hl Hoff Hlen Hne Hw.
  destruct (lookup_cases fs p Hwf) as [[_ ?]|(j & e & Hj & Hi & He & Hcs & Hcase)]; [congruence|].
  assert (i = Z.of_nat j) as -> by congruence.
  destruct Hcase as [[Hf Hn]|[Hd _]]; [|by rewrite (write_dir fs _ e) in Hw].
  destruct (write_spec fs j e off buf Hwf Hi Hf Hoff Hlen) as (fs2 & r & E & Hwf' & (e' & Hi' & Hse) & Hr).
  rewrite Hw in E. injection E as <- <-. destruct Hr as (_ & _ & Hr).
  destruct (Hr Hne) as (Hmax & gap & Hgap & Hl'). rewrite Hcs in Hl'.
  exists (r_mode e), (file_bytes fs e), gap. pose proof (Hl' (path_comps p)) as Hl2.
  rewrite decide_True in Hl2 by done.
  assert (∃ e2, ramfs_lookup fs' (Some p) = Some (Z.of_nat j) ∧ entries fs' !! j = Some e2
    ∧ is_file e2 = true
    ∧ fs_lookup fs' (path_comps p) = Some (NFile (r_mode e2) (file_bytes fs' e2))) as Hk.
  { destruct (lookup_cases fs' p Hwf') as [[? _]|(k & e2 & Hk & Hi2 & _ & Hcs2 & Hcase)]; [congruence|].
    destruct Hcase as [[Hf2 Hn2]|[_ ?]]; [|congruence].
    destruct (same_file_is e e' Hse) as [Hf' Hc']. rewrite Hf in Hf'.
    apply andb_true_iff in Hf' as [Ha' _]. pose proof Hf2 as [Ha2 _]%andb_true_iff.
    assert (k = j) as -> by (apply (fw_names fs' Hwf' k j e2 e'); congruence). by exists e2. }
  split_and!; [done..| |].
  - destruct Hk as (e2 & -> & _). done.
  - destruct Hk as (e2 & _ & Hi2 & Hf2 & Hn').
    rewrite Hl2 in Hn'. injection Hn' as Hm Hb.
    rewrite (read_spec fs' j e2) by (done || lia). rewrite <- Hb, Nat2Z.id. unfold write_at.
    rewrite app_assoc, drop_app_length'.
    + by rewrite take_app_length.
    + rewrite length_app, length_take. lia.
Qed.

(** ** Hard links share the buffer *)

Lemma link_spec al fs p q fs1 : fs_wf fs →
  ramfs_link al fs (Some p) (Some q) = (fs1, REND_SUCCESS) →
  ∃ i j e e', i ≠ j ∧ rt_ok (rtab fs1) ∧ rmem fs1 = rmem fs
    ∧ entries fs1 !! i = Some e ∧ entries fs1 !! j = Some e'
    ∧ is_file e = true ∧ is_file e' = true ∧ ent_ok (rmem fs) e
    ∧ ent_comps e = path_comps p ∧ ent_comps e' = path_comps q
    ∧ r_data e' = r_data e ∧ r_size e' = r_size e
    ∧ fs_lookup fs (path_comps p) = Some (NFile (r_mode e) (file_bytes fs e)).
Proof.
  intros Hwf. unfold ramfs_link. change (ramfs_find_mutable fs (Some p)) with (ramfs_lookup fs (Some p)).
  destruct (lookup_cases fs p Hwf) as [[_ ->]|(i & e & -> & Hi & He & Hcs & Hcase)]; [done|].
  rewrite He. destruct Hcase as [[Hf Hn]|[-> _]]; [|done].
  pose proof Hf as [Ha Hnd%negb_true_iff]%andb_true_iff. rewrite Hnd.
  destruct (lookup_cases fs q Hwf) as [[Hq ->]|(k & ? & -> & _)]; [|done].
  destruct (ramfs_ensure_parent_dir fs (Some q)); try done.
  destruct (ramfs_insert al fs (Some q) (r_mode e) (r_flags e)) as [fs2 [err|k]] eqn:Ei;
    destruct (insert_spec _ _ _ _ _ _ _ Hwf Hq Ei) as (Hwf2 & Hmem & Hkept & Hr).
  { destruct Hr as [-> _]. done. }
  destruct Hr as (j & -> & Hj & _). unfold ramfs_entry_at.
  rewrite (rt_get_view _ j _ (fw_ok _ Hwf2) Hj). intros [= <-].
  set (e' := with_buffer _ _ _ _). pose proof (Hkept i e Hi Ha) as Hi2.
  assert (ent_ok (rmem fs) e) as Ho by by destruct (fw_ent fs Hwf i e Hi) as [->|].
  assert (i ≠ j) as Hne.
  { intros ->. rewrite fs_lookup_None in Hq. apply (Hq j e Hi Ha).
    assert (e = new_entry q (r_mode e) (r_flags e)) as -> by congruence.
    apply path_comps_norm. }
  destruct (set_entry fs2 j e' Hwf2) as [Hok Hv]; [by eapply lookup_lt_Some|].
  exists i, j, e, e'. unfold entries at 1 2. cbn [rtab rmem ent_write]. rewrite Hv.
  rewrite list_lookup_insert_ne by done. rewrite list_lookup_insert_eq by by eapply lookup_lt_Some.
  split_and!; try done.
  - unfold is_file. cbn. by rewrite Hnd.
  - unfold ent_comps. cbn. apply path_comps_norm.
Qed.

Lemma write_grows_frees fs i e off buf fs' n :
  rt_ok (rtab fs) → entries fs !! i = Some e → r_data e ≠ 0 →
  0 ≤ off < 2 ^ 64 → Z.of_nat (length buf) < 2 ^ 64 → buf ≠ [] →
  r_capacity e < off + Z.of_nat (length buf) → is_Some (rmem fs !! r_data e) →
  ramfs_write fs (Z.of_nat i) off buf = Some (fs', inr n) →
  rmem fs' !! r_data e = None
  ∧ ∀ j, j ≠ i → (j < length (entries fs))%nat → rt_get (rtab fs') (Z.of_nat j) = entries fs !! j.
Proof.
  intros Hok Hi Hd Hoff Hlen Hne Hcap [b0 Hb0]. pose proof (lookup_lt_Some _ _ _ Hi) as Hlt.
  unfold ramfs_write, ramfs_entry_at at 1. rewrite (rt_get_view _ i e Hok Hi).
  destruct (negb _ || _); [done|]. destruct (Z.eqb_spec (Z.of_nat (length buf)) 0); [by destruct buf|].
  cbv zeta. pose proof (uw_add_wrap 64 off (Z.of_nat (length buf)) Hoff ltac:(lia)) as Hend.
  set (end_ := u64 _) in *. clearbody end_. destruct (_ || _) eqn:Eb; [done|]. zbool.
  destruct Hend as [[-> _]|?]; [|lia]. unfold ramfs_grow, ramfs_entry_at at 1.
  rewrite (rt_get_view _ i e Hok Hi). destruct (has _ _); [done|].
  destruct (_ <? _); [done|]. destruct (Z.leb_spec (off + Z.of_nat (length buf)) (r_capacity e)); [lia|].
  set (nc := grow_file_cap _ _ _). clearbody nc. cbv zeta.
  destruct (m_alloc (rmem fs) nc) as [[a junk]|] eqn:Em; [|done].
  destruct (m_alloc_fresh _ _ _ _ Em) as (Ha0 & Hfresh & _).
  assert (a ≠ r_data e) as Hae by congruence.
  destruct (move_buffer _ _ _ _) as [mem1|] eqn:Emv; [|done].
  assert (mem1 !! r_data e = None) as Hm1.
  { unfold move_buffer in Emv. rewrite (proj2 (Z.eqb_neq _ _) Hd) in Emv. cbn [negb] in Emv.
    unfold m_free in Emv. repeat case_match; simplify_eq; apply lookup_delete_eq. }
  set (e1 := with_buffer e a (r_size e) nc). destruct (rt_set_ok (rtab fs) i e1 Hok Hlt) as [Hok1 Hv1].
  unfold ramfs_entry_at. cbn [rtab rmem]. rewrite (rt_get_view _ i e1 Hok1) by
    (rewrite Hv1; by apply list_lookup_insert_eq).
  cbn [default from_option id]. unfold mem_store. cbn [e1 with_buffer r_data r_size].
  destruct (mem1 !! a) as [b|] eqn:Eba; [|done]. destruct (_ && _); [|done].
  intros [= <- _]. cbn [rtab rmem]. split; [by rewrite lookup_insert_ne|]. intros j Hj Hjl.
  destruct (r_size e <? _).
  - destruct (rt_set_ok (rt_set (rtab fs) (Z.of_nat i) e1) i (with_size e1 (off + Z.of_nat (length buf))) Hok1)
      as [Hok2 Hv2]; [by rewrite Hv1, length_insert|].
    rewrite Hv1, list_insert_insert_eq in Hv2.
    rewrite (rt_get_lookup _ j Hok2) by by rewrite Hv2, length_insert.
    by rewrite Hv2, list_lookup_insert_ne.
  - rewrite (rt_get_lookup _ j Hok1) by by rewrite Hv1, length_insert.
    by rewrite Hv1, list_lookup_insert_ne.
Qed.

(** Hard links and growth: [ramfs_link] lets two entries share a buffer,
    and a write through one of the names that outgrows the buffer frees it;
    reading through the other name then dereferences freed memory. *)
Theorem link_write_use_after_free al fs p q fs1 m c :
  fs_wf fs → fs_lookup fs (path_comps p) = Some (NFile m c) → c ≠ [] →
  ramfs_link al fs (Some p) (Some q) = (fs1, REND_SUCCESS) →
  ∃ i j e e', entries fs1 !! i = Some e ∧ ent_comps e = path_comps p
    ∧ entries fs1 !! j = Some e' ∧ ent_comps e' = path_comps q
    ∧ ∀ off buf fs2 n,
        0 ≤ off < 2 ^ 64 → Z.of_nat (length buf) < 2 ^ 64 → buf ≠ [] →
        r_capacity e < off + Z.of_nat (length buf) →
        ramfs_write fs1 (Z.of_nat i) off buf = Some (fs2, inr n) →
        ramfs_read fs2 (Z.of_nat j) 0 1 = None.
Proof.
  intros Hwf Hc Hne Hl. destruct (link_spec al fs p q fs1 Hwf Hl)
    as (i & j & e & e' & Hij & Hok & Hmem & Hi & Hj & Hf & Hf' & Ho & Hp & Hq & Hd & Hs & Hn).
  exists i, j, e, e'. split_and!; [done..|]. intros off buf fs2 n Hoff Hlen Hb Hcap Hw.
  assert (0 < r_size e) as Hpos.
  { pose proof (eo_size _ _ Ho). destruct (decide (r_size e = 0)) as [E|]; [|lia].
    rewrite Hc in Hn. injection Hn as _ ->. unfold file_bytes in Hne. by rewrite E in Hne. }
  assert (r_data e ≠ 0) as Hd0.
  { intros E%(eo_null _ _ Ho). pose proof (eo_size _ _ Ho). lia. }
  destruct (eo_buf _ _ Ho Hd0) as (b & Hbuf & _). rewrite <- Hmem in Hbuf.
  destruct (write_grows_frees fs1 i e off buf fs2 n Hok Hi Hd0 Hoff Hlen Hb Hcap) as [Hfree Hget];
    [by eexists|done|].
  unfold ramfs_read, ramfs_entry_at. rewrite (Hget j) by (done || by eapply lookup_lt_Some).
  rewrite Hj, is_file_spec, Hs, Hd by done. destruct (Z.leb_spec (r_size e) 0); [lia|].
  cbv zeta. rewrite (proj2 (Z.eqb_neq _ _) Hd0).
  destruct (Z.ltb_spec (r_size e - 0) 1); [lia|]. cbn [negb andb Z.ltb Z.compare].
  unfold mem_load. by rewrite Hfree.
Qed.
End refine.

(** ** Directory listings *)

Section listing.
Context {T TN : Type} `{SCL : StrcmpSLaws} `{RT : RecordTable ramfs_entry T}
        {RTL : RecordTableLaws ramfs_entry T} `{RTN : RecordTable cstr TN}
        {RTNL : RecordTableLaws cstr TN}.
Implicit Types (fs : ramfs T) (names : TN).

(** [n] is a name readdir can list below the directory [ds]. *)
Definition listed fs (ds : list cstr) (n : cstr) : Prop :=
  ds ≠ [] ∧ fs_lookup fs (ds ++ [n]) ≠ None ∧ (length n + 1 < VFS_DIR_NAME_SLOT)%nat.

(** A listing under construction: sorted, without duplicates, fitting the slots. *)
Record listing_ok names : Prop := {
  lo_ok : rt_ok names;
  lo_sorted : names_sorted (rt_view names);
  lo_short : Forall (λ y, length y < VFS_DIR_NAME_SLOT)%nat (rt_view names);
}.

Lemma insert_listing al names n names' :
  listing_ok names → n ≠ [] → (length n + 1 < VFS_DIR_NAME_SLOT)%nat →
  vfs_dir_names_insert al names (Some n) = (true, names') →
  listing_ok names' ∧ ∀ m, m ∈ rt_view names' ↔ m = n ∨ m ∈ rt_view names.
Proof.
  intros [Hok Hs Hsh] Hn Hl E.
  destruct (dir_names_insert_spec al names n true names' Hok Hs) as (Hok' & Hs' & Hp & _);
    [destruct n; cbn in *; [done|lia]|done|done|].
  destruct (Hp eq_refl) as [Hin Hperm].
  assert (∀ m, m ∈ rt_view names' ↔ m = n ∨ m ∈ rt_view names) as Hiff.
  { intros m. rewrite Hperm. destruct (decide (n ∈ rt_view names)).
    - split; [by right|]. by intros [->|].
    - by rewrite elem_of_cons. }
  split; [|done]. split; [done..|]. apply Forall_forall. intros y [->|Hy]%Hiff; [lia|].
  by apply (Forall_forall _ _) with (x := y) in Hsh.
Qed.

Lemma collect_spec al fs norm fuel : ∀ i names names',
  fs_wf fs → listing_ok names → (i + fuel)%nat = length (entries fs) →
  readdir_collect al fs norm names (Z.of_nat i) fuel = Some names' →
  listing_ok names'
  ∧ ∀ n, n ∈ rt_view names' ↔ n ∈ rt_view names
      ∨ ∃ j e, (i ≤ j)%nat ∧ entries fs !! j = Some e ∧ r_alive e = true
          ∧ path_comps norm ≠ [] ∧ ent_comps e = path_comps norm ++ [n]
          ∧ (length n + 1 < VFS_DIR_NAME_SLOT)%nat.
Proof.
  induction fuel as [|fuel IH]; intros i names names' Hwf Hlo Hi; cbn [readdir_collect].
  { intros [= <-]. split; [done|]. intros n. split; [by left|].
    intros [?|(j & e & Hj & Hl%lookup_lt_Some & _)]; [done|lia]. }
  destruct (lookup_lt_is_Some_2 (entries fs) i) as [e He]; [lia|].
  unfold ramfs_entry_at. rewrite (rt_get_view _ i e (fw_ok _ Hwf) He).
  replace (Z.of_nat i + 1) with (Z.of_nat (S i)) by lia.
  set (child := vfs_path_direct_child_name (Some norm) (Some (r_path e)) VFS_DIR_NAME_SLOT).
  assert (∀ n, child = Some n ↔ path_comps norm ≠ [] ∧ ent_comps e = path_comps norm ++ [n]
                ∧ (length n + 1 < VFS_DIR_NAME_SLOT)%nat) as Hchild
    by (intros n; apply direct_child_comps).
  assert (∀ X, X = Some names' → X = readdir_collect al fs norm names (Z.of_nat (S i)) fuel →
    (r_alive e = true → child = None) → listing_ok names'
    ∧ ∀ n, n ∈ rt_view names' ↔ n ∈ rt_view names
      ∨ ∃ j e, (i ≤ j)%nat ∧ entries fs !! j = Some e ∧ r_alive e = true
          ∧ path_comps norm ≠ [] ∧ ent_comps e = path_comps norm ++ [n]
          ∧ (length n + 1 < VFS_DIR_NAME_SLOT)%nat) as Hskip.
  { intros X HX EX Hno. rewrite EX in HX.
    destruct (IH (S i) names names' Hwf Hlo ltac:(lia) HX) as [Hlo' Hn]. split; [done|].
    intros n. rewrite Hn. split; (intros [?|(j & x & Hj & Hx & Ha & Hrest)]; [by left|right]).
    - exists j, x. split; [lia|done].
    - exists j, x. split; [|done]. destruct (decide (j = i)) as [->|]; [|lia].
      assert (x = e) as -> by congruence. apply Hchild in Hrest. rewrite Hno in Hrest; done. }
  destruct (r_alive e) eqn:Ha; [|intros E; by apply (Hskip _ E)].
  destruct child as [n0|] eqn:Ec; [|intros E; by apply (Hskip _ E)].
  destruct (proj1 (Hchild n0) eq_refl) as (Hds & Hcs & Hlen).
  destruct (vfs_dir_names_insert al names (Some n0)) as [[] names1] eqn:Eins; [|done].
  destruct (comps_last_good _ _ _ Hcs) as (Hn0 & _).
  destruct (insert_listing al names n0 names1 Hlo Hn0 Hlen Eins) as [Hlo1 Hin1].
  intros E. destruct (IH (S i) names1 names' Hwf Hlo1 ltac:(lia) E) as [Hlo' Hn].
  split; [done|]. intros n. rewrite Hn, Hin1. split.
  - intros [[->|?]|(j & x & Hj & Hrest)]; [|by left|].
    + right. exists i, e. split_and!; done || lia.
    + right. exists j, x. split; [lia|done].
  - intros [?|(j & x & Hj & Hx & Hax & Hd & Hc & Hl)]; [by left; right|].
    destruct (decide (j = i)) as [->|].
    + left; left. assert (x = e) as -> by congruence. rewrite Hcs in Hc.
      by apply app_inj_tail in Hc as [_ ->].
    + right. exists j, x. split_and!; done || lia.
Qed.

(** What readdir reports for the child [n]. *)
Definition child_dirent fs (ds : list cstr) (n : cstr) : vfs_dirent :=
  VfsDirent n (match fs_lookup fs (ds ++ [n]) with
               | Some (NDir _) => VFS_DT_DIR
               | Some (NFile _ _) => VFS_DT_REG
               | None => VFS_DT_UNKNOWN
               end) (vfs_path_to_ino (Some (render (ds ++ [n])))).

(** The answer once the names are collected. *)
Lemma readdir_pick al fs p names index :
  fs_wf fs → 2 ≤ index < 2 ^ 32 → rt_ok names →
  (∀ n, n ∈ rt_view names ↔ listed fs (path_comps p) n) →
  (rt_init (T := TN) al 16).1 = REND_SUCCESS →
  readdir_collect al fs (path_norm p) (rt_init al 16).2 0 (length (entries fs)) = Some names →
  ramfs_readdir al fs (Some p) index =
    match rt_view names !! Z.to_nat (index - 2) with
    | Some n => (0, Some (child_dirent fs (path_comps p) n))
    | None => (1, None)
    end.
Proof.
  intros Hwf Hidx Hok Hin Hinit Hc. unfold ramfs_readdir.
  rewrite (proj2 (Z.eqb_neq index 0)), (proj2 (Z.eqb_neq index 1)) by lia. cbv zeta.
  destruct (rt_init al 16) as [e0 names0]. cbn [fst snd] in Hinit, Hc. subst e0.
  rewrite rt_count_view, Nat2Z.id by apply Hwf. fold (entries fs). rewrite Hc.
  rewrite rt_count_view by done.
  destruct (rt_view names !! Z.to_nat (index - 2)) as [n|] eqn:El.
  2:{ apply lookup_ge_None in El.
      by destruct (Z.leb_spec (Z.of_nat (length (rt_view names))) (index - 2)); [|lia]. }
  pose proof (lookup_lt_Some _ _ _ El).
  destruct (Z.leb_spec (Z.of_nat (length (rt_view names))) (index - 2)); [lia|].
  rewrite uw_small by lia. rewrite <- (Z2Nat.id (index - 2)) by lia.
  rewrite (rt_get_view names _ n Hok El).
  destruct (proj1 (Hin n) (list_elem_of_lookup_2 _ _ _ El)) as (Hds & Hn & Hlen).
  destruct (fs_lookup fs (path_comps p ++ [n])) as [nd|] eqn:Efs; [|done].
  pose proof Efs as (j & e & Hj & Ha & Hcs & _)%fs_lookup_Some; [|done].
  rewrite (join_child p n (r_path e)) by done.
  set (cp := render _). assert (path_comps cp = path_comps p ++ [n]) as Ecp.
  { apply path_comps_render. rewrite <- Hcs. apply path_comps_canonical. }
  unfold child_dirent. rewrite Efs. fold cp.
  assert (strncpy_term n (VFS_PATH_MAX - 1) = n) as ->.
  { apply take_ge. unfold VFS_DIR_NAME_SLOT, VFS_PATH_MAX in *. lia. }
  destruct (lookup_cases fs cp Hwf) as [[E0 _]|(k & e' & -> & _ & He' & _ & Hcase)].
  { rewrite Ecp in E0. congruence. }
  cbn [mbind option_bind]. rewrite He'. rewrite Ecp, Efs in Hcase.
  destruct Hcase as [[[_ Hnd%negb_true_iff]%andb_true_iff [= ->]]|[Hd [= ->]]].
  - by rewrite Hnd.
  - by rewrite Hd.
Qed.

(** Directory listing: unless memory runs out, readdir enumerates, from
    index 2 on and in strictly increasing order, exactly the children of the
    directory whose names are at most 62 bytes, each with its type and inode
    number, and answers 1 past the last one; for the root it lists nothing. *)
Theorem ramfs_readdir_lists al fs p :
  fs_wf fs →
  ∃ l, names_sorted l ∧ (∀ n, n ∈ l → listed fs (path_comps p) n)
  ∧ (∀ index, 2 ≤ index < 2 ^ 32 →
      let r := ramfs_readdir (TN := TN) al fs (Some p) index in
      r.1 = - LINUX_ENOMEM
      ∨ (∀ n, listed fs (path_comps p) n → n ∈ l)
        ∧ match l !! Z.to_nat (index - 2) with
          | Some n => r = (0, Some (child_dirent fs (path_comps p) n))
          | None => r = (1, None)
          end).
Proof.
  intros Hwf. destruct (rt_init al 16) as [e0 names0] eqn:Ei.
  destruct (rt_init_ok al 16 e0 names0 ltac:(lia) Ei) as [Hok0 Hv0].
  destruct (decide (e0 = REND_SUCCESS)) as [->|He0].
  2:{ exists []. split_and!; [constructor|by intros n ?%not_elem_of_nil|].
      intros index Hi. left. unfold ramfs_readdir.
      destruct (Z.eqb_spec index 0); [lia|]. destruct (Z.eqb_spec index 1); [lia|].
      rewrite Ei. by destruct e0. }
  assert (listing_ok names0) as Hlo0 by (split; rewrite ?Hv0; [done|constructor|done]).
  destruct (readdir_collect al fs (path_norm p) names0 0 (length (entries fs))) as [names|] eqn:Ec.
  2:{ exists []. split_and!; [constructor|by intros n ?%not_elem_of_nil|].
      intros index Hi. left. unfold ramfs_readdir.
      destruct (Z.eqb_spec index 0); [lia|]. destruct (Z.eqb_spec index 1); [lia|]. cbv zeta.
      rewrite Ei, rt_count_view, Nat2Z.id by apply Hwf. fold (entries fs). by rewrite Ec. }
  destruct (collect_spec al fs (path_norm p) (length (entries fs)) 0 names0 names Hwf Hlo0 eq_refl Ec)
    as [[Hok Hs _] Hn]. rewrite path_comps_norm, Hv0 in Hn.
  assert (∀ n, n ∈ rt_view names ↔ listed fs (path_comps p) n) as Hin.
  { intros n. rewrite Hn. unfold listed. split.
    - intros [[]%not_elem_of_nil|(j & e & _ & Hj & Ha & Hd & Hc & Hl)]. split_and!; [done| |done].
      intros E0. rewrite fs_lookup_None in E0. by apply (E0 j e).
    - intros (Hd & Hne & Hl). right. destruct (fs_lookup fs (path_comps p ++ [n])) as [nd|] eqn:E; [|done].
      apply fs_lookup_Some in E as (j & e & Hj & Ha & Hc & _); [|done].
      exists j, e. split_and!; done || lia. }
  exists (rt_view names). split_and!; [done|intros n; apply Hin|].
  intros index Hi. right. split; [intros n; apply Hin|].
  rewrite (readdir_pick al fs p names index) by (done || by rewrite Ei).
  by destruct (rt_view names !! _).
Qed.
End listing.

(** ** Witnesses and concrete runs *)

Module RamDemo.
Import ListTable BumpAlloc.

Definition al : alloc_oracle := λ _, true.
Definition fs0 : ramfs (list ramfs_entry) := RamFs [] ∅.
Definition demo_cmds : list fs_cmd :=
  [FMkdir al (str "/d") 0x1ed; FCreate al (str "/d/f") 0x1a4;
   FWrite (str "/d/f") 0 [1; 2; 3]; FRename (str "/d/f") (str "/g"); FUnlink (str "/x")].

Lemma demo_cmds_ok : Forall cmd_ok demo_cmds.
Proof. repeat constructor; cbn; lia. Qed.

(** The state after the commands: [/d] and the three-byte file [/g]. *)
Definition fs1 : ramfs (list ramfs_entry) :=
  match run_fs_all (ramfs_init al fs0) demo_cmds with Some (fs, _) => fs | None => fs0 end.

Lemma fs1_wf : fs_wf fs1.
Proof.
  destruct (run_fs_all_sound (ramfs_init al fs0) demo_cmds) as (fs' & rs & E & Hwf & _).
  - by apply init_wf.
  - apply demo_cmds_ok.
  - unfold fs1. by rewrite E.
Qed.

Example fs1_g : fs_lookup fs1 [str "g"] = Some (NFile 0x81a4 [1; 2; 3]).
Proof. vm_compute. reflexivity. Qed.

Lemma ramfs_refines_fs_witness :
  (∀ ds, fs_lookup (ramfs_init al fs0) ds = None)
  ∧ ∃ fs' rs, run_fs_all (ramfs_init al fs0) demo_cmds = Some (fs', rs) ∧ fs_wf fs'
      ∧ abs_steps (fs_lookup (ramfs_init al fs0)) demo_cmds rs (fs_lookup fs').
Proof. apply (ramfs_refines_fs al fs0 demo_cmds); [reflexivity|apply demo_cmds_ok]. Defined.

Lemma ramfs_read_after_write_witness :
  ∃ m c gap fs',
    fs_lookup fs1 (path_comps (str "/g")) = Some (NFile m c)
    ∧ fs_lookup fs' (path_comps (str "/g")) = Some (NFile m (write_at 2 gap [7; 8] c))
    ∧ ramfs_read fs' 1 2 2 = Some (inr (2, [7; 8])).
Proof.
  destruct (ramfs_read_after_write fs1
    (match ramfs_write fs1 1 2 [7; 8] with Some (fs, _) => fs | None => fs1 end)
    (str "/g") 2 [7; 8] 1 fs1_wf) as (m & c & gap & H1 & H2 & _ & _ & H3).
  - vm_compute. reflexivity.
  - lia.
  - cbn. lia.
  - discriminate.
  - vm_compute. reflexivity.
  - exists m, c, gap. eexists. split; [exact H1|]. split; [exact H2|exact H3].
Defined.

Lemma link_write_use_after_free_witness :
  let fsl := (ramfs_link al fs1 (Some (str "/g")) (Some (str "/h"))).1 in
  ∃ i j e e', entries fsl !! i = Some e ∧ ent_comps e = path_comps (str "/g")
    ∧ entries fsl !! j = Some e' ∧ ent_comps e' = path_comps (str "/h")
    ∧ ∀ off buf fs2 n,
        0 ≤ off < 2 ^ 64 → Z.of_nat (length buf) < 2 ^ 64 → buf ≠ [] →
        r_capacity e < off + Z.of_nat (length buf) →
        ramfs_write fsl (Z.of_nat i) off buf = Some (fs2, inr n) →
        ramfs_read fs2 (Z.of_nat j) 0 1 = None.
Proof.
  apply (link_write_use_after_free al fs1 (str "/g") (str "/h") _ 0x81a4 [1; 2; 3] fs1_wf).
  - vm_compute. reflexivity.
  - discriminate.
  - vm_compute. reflexivity.
Defined.

(** A directory with two files. *)
Definition fs2 : ramfs (list ramfs_entry) :=
  match run_fs_all fs1 [FCreate al (str "/d/z") 0; FMkdir al (str "/d/a") 0] with
  | Some (fs, _) => fs | None => fs0 end.

Lemma fs2_wf : fs_wf fs2.
Proof.
  destruct (run_fs_all_sound fs1 [FCreate al (str "/d/z") 0; FMkdir al (str "/d/a") 0] fs1_wf)
    as (fs' & rs & E & Hwf & _); [by repeat constructor|].
  unfold fs2. by rewrite E.
Qed.

Example fs2_readdir :
  fst <$> [ramfs_readdir (TN := list cstr) al fs2 (Some (str "/d")) 2;
           ramfs_readdir (TN := list cstr) al fs2 (Some (str "/d")) 4;
           ramfs_readdir (TN := list cstr) al fs2 (Some (str "/")) 2] = [0; 1; 1].
Proof. vm_compute. reflexivity. Qed.

Lemma ramfs_readdir_lists_witness :
  ∃ l, names_sorted l ∧ (∀ n, n ∈ l → listed fs2 (path_comps (str "/d")) n)
  ∧ (∀ index, 2 ≤ index < 2 ^ 32 →
      let r := ramfs_readdir (TN := list cstr) al fs2 (Some (str "/d")) index in
      r.1 = - LINUX_ENOMEM
      ∨ (∀ n, listed fs2 (path_comps (str "/d")) n → n ∈ l)
        ∧ match l !! Z.to_nat (index - 2) with
          | Some n => r = (0, Some (child_dirent fs2 (path_comps (str "/d")) n))
          | None => r = (1, None)
          end).
Proof. apply (ramfs_readdir_lists (TN := list cstr) al fs2 (str "/d") fs2_wf). Defined.

(** The run itself: [/g] has 3 of 64 bytes, is linked as [/h], grows to 70
    bytes, and reading [/h] faults. *)
Example link_uaf_run :
  let fsl := (ramfs_link al fs1 (Some (str "/g")) (Some (str "/h"))).1 in
  ∃ fs2, ramfs_write fsl 1 60 (replicate 10 9) = Some (fs2, inr 10)
         ∧ ramfs_read fs2 2 0 1 = None.
Proof. eexists. split; vm_compute; reflexivity. Qed.

(** A write past the end leaves the hole with whatever the heap held. *)
Example write_hole_stale :
  ∃ fs2, ramfs_write fs1 1 6 [5] = Some (fs2, inr 1)
         ∧ fs_lookup fs2 [str "g"] = Some (NFile 0x81a4 [1; 2; 3; 0xa5; 0xa5; 0xa5; 5]).
Proof. eexists. split; vm_compute; reflexivity. Qed.

End RamDemo.
