(* ===== verification/Cpio.v ===== *)
(** * The read-only initramfs catalogue ([servers/fs/cpio_rofs.c])

    [cpio_rofs_init] walks a "newc" cpio image and records one catalogue entry
    per member; lookups and reads then go straight to the image bytes.  The
    image is a block of bytes at an address; pointers into it are addresses,
    and their arithmetic wraps at 64 bits as compiled code does.  A read
    outside the image is [Overread]; a walk that has not ended is [NoFuel]. *)

From stdpp Require Import base numbers list strings gmap option.
From Stdlib Require Import Ascii.
From S2P Require Import Prelude PageSlice SliceTable VfsPath VfsInode DirNames.

Definition CPIO_NEWC_MAGIC : cstr := str "070701".
Definition CPIO_NEWC_HDR_LEN : Z := 110.
Definition CPIO_ROFS_PATH_MAX : nat := VFS_PATH_MAX.
Definition CPIO_S_IFMT : Z := 0xf000.
Definition CPIO_S_IFDIR : Z := 0x4000.
Definition CPIO_S_IFLNK : Z := 0xa000.

Record cpio_rofs_entry : Type := CpioEntry {
  e_path : cstr;
  e_mode : Z;
  e_nlink : Z;
  e_filesize : Z;
  e_data : Z;          (* address of the first byte *)
  e_is_dir : bool;
  e_is_symlink : bool;
}.

#[global] Instance zero_cpio_entry : Zeroed cpio_rofs_entry :=
  CpioEntry [] 0 0 0 0 false false.

Record cpio_rofs_stat : Type := CpioStat {
  st_mode : Z;
  st_size : Z;
  st_is_dir : bool;
  st_is_symlink : bool;
  st_data : Z;
  st_nlink : Z;
}.

(** The image: its address [cpio_image] and its bytes; [cpio_image_len] is
    their number. *)
Record cpio_img : Type := CpioImg { cpio_image : Z; cpio_bytes : list ascii }.
Definition cpio_image_len (im : cpio_img) : Z := Z.of_nat (length (cpio_bytes im)).

(** [p + n] on pointers. *)
Definition padd (p n : Z) : Z := u64 (p + n).

Inductive outcome (A : Type) : Type :=
  | Ret (a : A)
  | Overread
  | NoFuel.
Arguments Ret {A} _.
Arguments Overread {A}.
Arguments NoFuel {A}.

(** The bytes from address [a] to the end of the image. *)
Definition img_from (im : cpio_img) (a : Z) : option (list ascii) :=
  if (cpio_image im <=? a) && (a <=? cpio_image im + cpio_image_len im)
  then Some (drop (Z.to_nat (a - cpio_image im)) (cpio_bytes im))
  else None.

(** [n] bytes at [a], all inside the image. *)
Definition img_read (im : cpio_img) (a n : Z) : option (list ascii) :=
  match img_from im a with
  | Some l => if n <=? Z.of_nat (length l) then Some (take (Z.to_nat n) l) else None
  | None => None
  end.

Fixpoint until_nul (l : list ascii) : option cstr :=
  match l with
  | [] => None
  | c :: l' => if decide (c = zero) then Some [] else cons c <$> until_nul l'
  end.

(** The C string at address [a], if it ends inside the image. *)
Definition string_at (im : cpio_img) (a : Z) : option cstr := img_from im a ≫= until_nul.

(** ** Header fields *)

Definition hdr_magic : nat := 0.
Definition hdr_mode : nat := 14.
Definition hdr_nlink : nat := 38.
Definition hdr_filesize : nat := 54.
Definition hdr_namesize : nat := 94.

Definition field (hdr : list ascii) (off n : nat) : list ascii := take n (drop off hdr).

Definition cpio_header_magic_ok (hdr : list ascii) : bool :=
  bool_decide (field hdr hdr_magic 6 = CPIO_NEWC_MAGIC).

Definition hex_digit (c : ascii) : Z :=
  let c := Z.of_N (N_of_ascii c) in
  if (48 <=? c) && (c <=? 57) then c - 48
  else if (97 <=? c) && (c <=? 102) then c - 97 + 10
  else if (65 <=? c) && (c <=? 70) then c - 65 + 10
  else 0.

Definition cpio_hex_field8 (f : list ascii) : Z :=
  foldl (λ value c, Z.lor (u64 (Z.shiftl value 4)) (hex_digit c)) 0 f.

Definition cpio_align4 (value : Z) : Z := Z.land (u64 (value + 3)) (not64 3).

Definition cpio_name_field_len (namesize : Z) : Z :=
  u64 (cpio_align4 (u64 (CPIO_NEWC_HDR_LEN + namesize)) - CPIO_NEWC_HDR_LEN).

Section cpio_ops.
Context {T TN : Type} `{SC : StrcmpS} `{RT : RecordTable cpio_rofs_entry T}
        `{RTN : RecordTable cstr TN}.

Definition trailer_name : cstr := str "TRAILER!!!".

Definition cpio_name_skip (name : cstr) : bool :=
  if is_nul name 0 then true
  else if strcmp_s name [dot] 2 =? 0 then true
  else if strcmp_s name [dot; dot] 3 =? 0 then true
  else strcmp_s name trailer_name 11 =? 0.

Definition cpio_normalize_path (name : cstr) (out_cap : nat) : cstr :=
  let src :=
    if is_char name 0 dot && is_char name 1 slash then drop 2 name
    else if is_char name 0 dot && is_nul name 1 then drop 1 name
    else name in
  let src := if is_char src 0 slash then drop 1 src else src in
  let out := copy_bounded out_cap [slash] src in
  if strcmp_s out [slash] 2 =? 0 then [slash] else out.

Definition cpio_rofs_add_entry (al : alloc_oracle) (tab : T) (name : cstr)
    (mode nlink filesize data : Z) (is_dir is_symlink : bool) : error_t * T :=
  if cpio_name_skip name then (REND_SUCCESS, tab)
  else
    match rt_push_zero al tab with
    | (REND_SUCCESS, tab1, idx) =>
        match rt_get tab1 idx with
        | None => (E_RENDEZVOS, rt_pop_last tab1)
        | Some _ =>
            (REND_SUCCESS,
             rt_set tab1 idx
               (CpioEntry (cpio_normalize_path name CPIO_ROFS_PATH_MAX) mode nlink
                  filesize data is_dir is_symlink))
        end
    | (err, tab1, _) => (err, tab1)
    end.

(** The [while] loop of [cpio_rofs_init]. *)
Fixpoint cpio_parse (al : alloc_oracle) (im : cpio_img) (tab : T) (cursor : Z) (fuel : nat)
  : outcome (error_t * T) :=
  let end_ := padd (cpio_image im) (cpio_image_len im) in
  match fuel with
  | O => NoFuel
  | S fuel' =>
      if negb (padd cursor CPIO_NEWC_HDR_LEN <=? end_) then Ret (REND_SUCCESS, tab)
      else
        match img_read im cursor CPIO_NEWC_HDR_LEN with
        | None => Overread
        | Some hdr =>
            if negb (cpio_header_magic_ok hdr) then Ret (E_IN_PARAM, rt_destroy tab)
            else
              let namesize := cpio_hex_field8 (field hdr hdr_namesize 8) in
              let filesize := cpio_hex_field8 (field hdr hdr_filesize 8) in
              let mode := cpio_hex_field8 (field hdr hdr_mode 8) in
              let nlink := u32 (cpio_hex_field8 (field hdr hdr_nlink 8)) in
              let cursor := padd cursor CPIO_NEWC_HDR_LEN in
              if end_ <? padd cursor namesize then Ret (E_IN_PARAM, rt_destroy tab)
              else
                match string_at im cursor with
                | None => Overread
                | Some name =>
                    if strcmp_s name trailer_name 11 =? 0 then Ret (REND_SUCCESS, tab)
                    else
                      let cursor := padd cursor (cpio_name_field_len namesize) in
                      let data := cursor in
                      if end_ <? padd cursor filesize then Ret (E_IN_PARAM, rt_destroy tab)
                      else
                        let is_symlink := Z.land mode CPIO_S_IFMT =? CPIO_S_IFLNK in
                        let is_dir := Z.land mode CPIO_S_IFMT =? CPIO_S_IFDIR in
                        match cpio_rofs_add_entry al tab name (u32 mode) nlink filesize
                                data is_dir is_symlink with
                        | (REND_SUCCESS, tab1) =>
                            cpio_parse al im tab1 (padd cursor (cpio_align4 filesize)) fuel'
                        | (err, tab1) => Ret (err, rt_destroy tab1)
                        end
                end
        end
  end.

Record cpio_rofs : Type := CpioRofs { cpio_entry_tab : T; cpio_img_ptr : ptr cpio_img }.

(** Enough for every image: a member takes at least its header. *)
Definition parse_fuel (im : cpio_img) : nat := S (length (cpio_bytes im)).

Definition cpio_rofs_init (al : alloc_oracle) (cp : cpio_rofs) (image : ptr cpio_img)
  : outcome (error_t * cpio_rofs) :=
  match rt_init al 64 with
  | (REND_SUCCESS, tab) =>
      match image with
      | None => Ret (E_IN_PARAM, CpioRofs (rt_destroy tab) None)
      | Some im =>
          if cpio_image_len im <? CPIO_NEWC_HDR_LEN
          then Ret (E_IN_PARAM, CpioRofs (rt_destroy tab) (Some im))
          else
            match cpio_parse al im tab (cpio_image im) (parse_fuel im) with
            | Ret (err, tab1) => Ret (err, CpioRofs tab1 (Some im))
            | Overread => Overread
            | NoFuel => NoFuel
            end
      end
  | (err, tab) => Ret (err, CpioRofs tab (cpio_img_ptr cp))
  end.

Definition cpio_rofs_parsed_count (cp : cpio_rofs) : Z := rt_count (cpio_entry_tab cp).

Definition cpio_path_equal (a b : cstr) : bool :=
  strcmp_s (cpio_normalize_path a CPIO_ROFS_PATH_MAX)
    (cpio_normalize_path b CPIO_ROFS_PATH_MAX) CPIO_ROFS_PATH_MAX =? 0.

(** The fields of [out] that a match fills. *)
Definition stat_of (ent : cpio_rofs_entry) : cpio_rofs_stat :=
  CpioStat (e_mode ent) (e_filesize ent) (e_is_dir ent) (e_is_symlink ent) (e_data ent)
    (if e_nlink ent =? 0 then 1 else e_nlink ent).

Definition cpio_rofs_lookup (cp : cpio_rofs) (path : ptr cstr) : option cpio_rofs_stat :=
  match path with
  | None => None
  | Some path =>
      stat_of <$> (rt_scan (λ ent, cpio_path_equal (e_path ent) path)
                     (cpio_entry_tab cp) 0 ≫= rt_get (cpio_entry_tab cp))
  end.

Definition cpio_rofs_ptr_in_image (cp : cpio_rofs) (p : Z) : bool :=
  match cpio_img_ptr cp with
  | None => false
  | Some im =>
      if p =? 0 then false
      else (cpio_image im <=? p) && (p <? padd (cpio_image im) (cpio_image_len im))
  end.

(** An error, or the number of bytes read with the bytes stored in [buf];
    [None] when the copy leaves the image. *)
Definition cpio_rofs_read (im : cpio_img) (st : ptr cpio_rofs_stat) (offset : Z)
    (buf_null : bool) (len : Z) : option (error_t + Z * list ascii) :=
  match st with
  | None => Some (inl E_IN_PARAM)
  | Some st =>
      if st_is_dir st || buf_null then Some (inl E_IN_PARAM)
      else if st_size st <=? offset then Some (inr (0, []))
      else
        let avail := st_size st - offset in
        let len := if avail <? len then avail else len in
        if (0 <? len) && negb (st_data st =? 0)
        then (λ bs, inr (i64 len, bs)) <$> img_read im (padd (st_data st) offset) len
        else Some (inr (i64 len, []))
  end.

(** [fn] threads the caller's context and says whether to go on. *)
Fixpoint visit_from {C : Type} (fn : cstr → cpio_rofs_stat → C → bool * C) (cp : cpio_rofs)
    (ctx : C) (i : Z) (fuel : nat) : C :=
  match fuel with
  | O => ctx
  | S fuel' =>
      match rt_get (cpio_entry_tab cp) i with
      | None => visit_from fn cp ctx (i + 1) fuel'
      | Some ent =>
          match fn (e_path ent) (stat_of ent) ctx with
          | (true, ctx') => visit_from fn cp ctx' (i + 1) fuel'
          | (false, ctx') => ctx'
          end
      end
  end.
Definition cpio_rofs_visit {C : Type} (fn : ptr (cstr → cpio_rofs_stat → C → bool * C))
    (cp : cpio_rofs) (ctx : C) : C :=
  match fn with
  | None => ctx
  | Some fn => visit_from fn cp ctx 0 (Z.to_nat (rt_count (cpio_entry_tab cp)))
  end.

Definition cpio_readdir_dtype (cp : cpio_rofs) (child_path : cstr) : Z :=
  match cpio_rofs_lookup cp (Some child_path) with
  | None => VFS_DT_UNKNOWN
  | Some st => if st_is_symlink st then VFS_DT_LNK
               else if st_is_dir st then VFS_DT_DIR else VFS_DT_REG
  end.

(** The loop of [cpio_rofs_readdir] over the catalogue. *)
Fixpoint cpio_collect (al : alloc_oracle) (cp : cpio_rofs) (norm : cstr) (names : TN) (i : Z)
    (fuel : nat) : option TN :=
  match fuel with
  | O => Some names
  | S fuel' =>
      match rt_get (cpio_entry_tab cp) i with
      | Some ent =>
          match vfs_path_direct_child_name (Some norm) (Some (e_path ent))
                  VFS_DIR_NAME_SLOT with
          | Some child_name =>
              match vfs_dir_names_insert al names (Some child_name) with
              | (true, names') => cpio_collect al cp norm names' (i + 1) fuel'
              | (false, _) => None
              end
          | None => cpio_collect al cp norm names (i + 1) fuel'
          end
      | None => cpio_collect al cp norm names (i + 1) fuel'
      end
  end.

Definition cpio_rofs_readdir (al : alloc_oracle) (cp : cpio_rofs) (dirpath : ptr cstr)
    (index : Z) : Z * option vfs_dirent :=
  match dirpath with
  | None => (- LINUX_EINVAL, None)
  | Some dirpath =>
      let norm := path_norm dirpath in
      if index =? 0 then
        (0, Some (VfsDirent [dot] VFS_DT_DIR (vfs_path_to_ino (Some norm))))
      else if index =? 1 then
        (0, Some (VfsDirent [dot; dot] VFS_DT_DIR
              (vfs_path_to_ino
                 (match vfs_path_parent (Some norm) VFS_PATH_MAX with
                  | Some parent => Some parent
                  | None => Some [slash]
                  end))))
      else
        let index := index - 2 in
        match rt_init al 16 with
        | (REND_SUCCESS, names) =>
            match cpio_collect al cp norm names 0
                    (Z.to_nat (rt_count (cpio_entry_tab cp))) with
            | None => (- LINUX_ENOMEM, None)
            | Some names =>
                if rt_count names <=? index then (1, None)
                else
                  match rt_get names (u32 index) with
                  | None => (- LINUX_EIO, None)
                  | Some picked =>
                      match vfs_path_join (Some norm) (Some picked) VFS_PATH_MAX with
                      | None => (- LINUX_EIO, None)
                      | Some child_path =>
                          (0, Some (VfsDirent (strncpy_term picked (VFS_PATH_MAX - 1))
                                      (cpio_readdir_dtype cp child_path)
                                      (vfs_path_to_ino (Some child_path))))
                      end
                  end
            end
        | (_, _) => (- LINUX_ENOMEM, None)
        end
  end.
End cpio_ops.
Arguments cpio_rofs T : clear implicits.
Arguments CpioRofs {T} _ _.

(** ** Arithmetic of the fields *)

Lemma land_not64_3 x : 0 ≤ x < 2 ^ 64 → Z.land x (not64 3) = 4 * (x `div` 4).
Proof.
  intros Hx. replace (Z.land x (not64 3)) with (Z.ldiff x (Z.ones 2)).
  - rewrite Z.ldiff_ones_r, Z.shiftl_mul_pow2, Z.shiftr_div_pow2 by lia.
    change (2 ^ 2) with 4. lia.
  - apply Z.bits_inj'. intros n Hn. unfold not64.
    rewrite Z.ldiff_spec, Z.land_spec, Z.lxor_spec.
    destruct (decide (n < 64)).
    + change 0xffffffffffffffff with (Z.ones 64). rewrite (Z.ones_spec_low 64) by lia.
      by destruct (Z.testbit 3 n) eqn:E; change (Z.ones 2) with 3; rewrite E.
    + rewrite <- (Z.mod_small x (2 ^ 64)), Z.mod_pow2_bits_high by lia. done.
Qed.

Lemma align4_eq v : 0 ≤ v < 2 ^ 63 → cpio_align4 v = 4 * ((v + 3) `div` 4).
Proof.
  intros Hv. unfold cpio_align4. rewrite uw_small by lia. apply land_not64_3. lia.
Qed.

Lemma align4_bounds v : 0 ≤ v < 2 ^ 63 → v ≤ cpio_align4 v ≤ v + 3.
Proof.
  intros Hv. rewrite align4_eq by done. pose proof (Z.mod_pos_bound (v + 3) 4).
  pose proof (Z.div_mod (v + 3) 4). lia.
Qed.

Lemma name_field_len_eq n : 0 ≤ n < 2 ^ 62 →
  cpio_name_field_len n = cpio_align4 (110 + n) - 110
  ∧ n ≤ cpio_name_field_len n ≤ n + 3.
Proof.
  intros Hn. unfold cpio_name_field_len, CPIO_NEWC_HDR_LEN.
  pose proof (align4_bounds (110 + n) ltac:(lia)).
  rewrite (uw_small _ (110 + n)) by lia. rewrite uw_small by lia. lia.
Qed.

Lemma hex_digit_range c : 0 ≤ hex_digit c < 16.
Proof.
  unfold hex_digit.
  repeat match goal with |- context [if ?b then _ else _] => destruct b eqn:? end; zbool; lia.
Qed.

Lemma hex_step v d : 0 ≤ v < 2 ^ 60 → 0 ≤ d < 16 →
  Z.lor (u64 (Z.shiftl v 4)) d = 16 * v + d.
Proof.
  intros Hv Hd. rewrite Z.shiftl_mul_pow2 by lia. change (2 ^ 4) with 16.
  rewrite uw_small by lia.
  assert (Z.land (v * 16) d = 0) as Hl.
  { apply Z.bits_inj'. intros n Hn. rewrite Z.land_spec, Z.bits_0. change 16 with (2 ^ 4).
    destruct (decide (n < 4)).
    - by rewrite Z.mul_pow2_bits_low by lia.
    - rewrite <- (Z.mod_small d (2 ^ 4)), Z.mod_pow2_bits_high by lia. apply andb_false_r. }
  rewrite <- Z.lxor_lor, <- Z.add_nocarry_lxor by done. lia.
Qed.

Abbreviation hex_fold := (foldl (λ value c, Z.lor (u64 (Z.shiftl value 4)) (hex_digit c))).

Lemma hex_fold_range f v k : (k + length f ≤ 15)%nat →
  0 ≤ v < 16 ^ Z.of_nat k → 0 ≤ hex_fold v f < 16 ^ Z.of_nat (k + length f).
Proof.
  revert v k. induction f as [|c f IH]; intros v k Hk Hv; cbn [foldl length] in *.
  - by replace (k + 0)%nat with k by lia.
  - assert (16 ^ Z.of_nat k ≤ 16 ^ 14) by (apply Z.pow_le_mono_r; lia).
    change (16 ^ 14) with (2 ^ 56) in *. pose proof (hex_digit_range c).
    rewrite hex_step by lia. replace (k + S (length f))%nat with (S k + length f)%nat by lia.
    apply IH; [lia|]. rewrite Nat2Z.inj_succ, Z.pow_succ_r by lia. lia.
Qed.

Lemma hex_field_range hdr off : 0 ≤ cpio_hex_field8 (field hdr off 8) < 2 ^ 32.
Proof.
  assert (length (field hdr off 8) ≤ 8)%nat as Hl by (unfold field; rewrite length_take; lia).
  destruct (hex_fold_range (field hdr off 8) 0 0) as [H1 H2]; [lia|cbn; lia|].
  split; [exact H1|]. eapply Z.lt_le_trans; [exact H2|].
  change (2 ^ 32) with (16 ^ 8). apply Z.pow_le_mono_r; lia.
Qed.

(** ** One member

    What one turn of the loop finds at the cursor. *)

Inductive member_step : Type :=
  | MEnd
  | MBad
  | MOver
  | MEntry (name : cstr) (mode nlink filesize data next : Z).

(** Pointers into the image, and up to two [u32] sizes past it, do not wrap. *)
Definition image_ok (im : cpio_img) : Prop :=
  0 < cpio_image im ∧ cpio_image im + cpio_image_len im + 2 ^ 34 ≤ 2 ^ 64.

Section member.
Context `{SCL : StrcmpSLaws}.

Definition member_at (im : cpio_img) (cursor : Z) : member_step :=
  let end_ := cpio_image im + cpio_image_len im in
  if end_ <? cursor + 110 then MEnd
  else
    let hdr := take 110 (drop (Z.to_nat (cursor - cpio_image im)) (cpio_bytes im)) in
    if negb (cpio_header_magic_ok hdr) then MBad
    else
      let namesize := cpio_hex_field8 (field hdr hdr_namesize 8) in
      let filesize := cpio_hex_field8 (field hdr hdr_filesize 8) in
      let mode := cpio_hex_field8 (field hdr hdr_mode 8) in
      let nlink := cpio_hex_field8 (field hdr hdr_nlink 8) in
      if end_ <? cursor + 110 + namesize then MBad
      else
        match string_at im (cursor + 110) with
        | None => MOver
        | Some name =>
            if strcmp_s name trailer_name 11 =? 0 then MEnd
            else
              let data := cursor + 110 + cpio_name_field_len namesize in
              if end_ <? data + filesize then MBad
              else MEntry name mode nlink filesize data (data + cpio_align4 filesize)
        end.

Lemma member_at_bounds im cursor name mode nlink filesize data next :
  image_ok im → cpio_image im ≤ cursor →
  member_at im cursor = MEntry name mode nlink filesize data next →
  cpio_image im ≤ data ∧ 0 ≤ filesize < 2 ^ 32 ∧ 0 ≤ mode < 2 ^ 32
  ∧ data + filesize ≤ cpio_image im + cpio_image_len im
  ∧ cursor + 110 ≤ next ≤ cpio_image im + cpio_image_len im + 3
  ∧ cursor + 110 ≤ cpio_image im + cpio_image_len im.
Proof.
  intros [Hb Hw] Hc. unfold member_at.
  set (hdr := take 110 _). pose proof (hex_field_range hdr hdr_namesize) as Hns.
  pose proof (hex_field_range hdr hdr_filesize) as Hfs.
  pose proof (hex_field_range hdr hdr_mode) as Hm.
  destruct (name_field_len_eq (cpio_hex_field8 (field hdr hdr_namesize 8))) as [_ Hnl]; [lia|].
  pose proof (align4_bounds (cpio_hex_field8 (field hdr hdr_filesize 8)) ltac:(lia)) as Hal.
  destruct (_ <? cursor + 110) eqn:E1; [done|].
  destruct (cpio_header_magic_ok hdr); cbn [negb]; [|done].
  destruct (_ <? cursor + 110 + _) eqn:E2; [done|].
  destruct (string_at _ _) as [nm|]; [|done].
  destruct (strcmp_s nm _ _ =? 0); [done|].
  destruct (_ <? cursor + 110 + cpio_name_field_len _ + _) eqn:E3; [done|]. intros Heq. injection Heq as _ <- _ <- <- <-. zbool. lia.
Qed.
End member.

Section parse.
Context {T TN : Type} `{SCL : StrcmpSLaws} `{RT : RecordTable cpio_rofs_entry T}
        {RTL : RecordTableLaws cpio_rofs_entry T}.

Lemma parse_step al im tab cursor fuel :
  image_ok im → cpio_image im ≤ cursor ≤ cpio_image im + cpio_image_len im + 3 →
  cpio_parse al im tab cursor (S fuel) =
    match member_at im cursor with
    | MEnd => Ret (REND_SUCCESS, tab)
    | MBad => Ret (E_IN_PARAM, rt_destroy tab)
    | MOver => Overread
    | MEntry name mode nlink filesize data next =>
        match cpio_rofs_add_entry al tab name mode nlink filesize data
                (Z.land mode CPIO_S_IFMT =? CPIO_S_IFDIR)
                (Z.land mode CPIO_S_IFMT =? CPIO_S_IFLNK) with
        | (REND_SUCCESS, tab1) => cpio_parse al im tab1 next fuel
        | (err, tab1) => Ret (err, rt_destroy tab1)
        end
    end.
Proof.
  intros [Hb Hw] Hc. cbn [cpio_parse]. unfold member_at.
  assert (0 ≤ cpio_image_len im) as Hlen by
      (unfold cpio_image_len; lia).
  unfold padd at 1 2, CPIO_NEWC_HDR_LEN at 1. rewrite !(uw_small 64) by lia.
  rewrite <- Z.ltb_antisym.
  destruct (_ <? cursor + 110) eqn:E1; [done|]. zbool.
  assert (img_read im cursor CPIO_NEWC_HDR_LEN =
    Some (take 110 (drop (Z.to_nat (cursor - cpio_image im)) (cpio_bytes im)))) as ->.
  { unfold img_read, img_from. unfold cpio_image_len in *.
    rewrite (proj2 (Z.leb_le _ _)), (proj2 (Z.leb_le cursor _)) by lia. cbn [andb].
    rewrite length_drop. rewrite (proj2 (Z.leb_le _ _)) by (unfold CPIO_NEWC_HDR_LEN; lia).
    done. }
  set (hdr := take 110 _). pose proof (hex_field_range hdr hdr_namesize) as Hns.
  pose proof (hex_field_range hdr hdr_filesize) as Hfs.
  pose proof (hex_field_range hdr hdr_mode) as Hm.
  pose proof (hex_field_range hdr hdr_nlink) as Hnk.
  destruct (name_field_len_eq (cpio_hex_field8 (field hdr hdr_namesize 8))) as [_ Hnl]; [lia|].
  pose proof (align4_bounds (cpio_hex_field8 (field hdr hdr_filesize 8)) ltac:(lia)) as Hal.
  destruct (cpio_header_magic_ok hdr); cbn [negb]; [|done]. cbv zeta.
  unfold padd, CPIO_NEWC_HDR_LEN.
  rewrite !(uw_small 64 (cursor + 110)), !(uw_small 64 (cpio_image im + _)) by lia.
  rewrite (uw_small 64 (cursor + 110 + _)) by lia.
  destruct (_ <? cursor + 110 + _) eqn:E2; [done|]. zbool.
  destruct (string_at _ _) as [nm|]; [|done].
  destruct (strcmp_s nm _ _ =? 0); [done|].
  rewrite !(uw_small 64 (cursor + 110 + cpio_name_field_len _)) by lia.
  rewrite !(uw_small 32) by lia.
  rewrite (uw_small 64 (cursor + 110 + _ + _)) by lia.
  destruct (_ <? cursor + 110 + cpio_name_field_len _ + _) eqn:E3; [done|]. zbool.
  rewrite (uw_small 64 (cursor + 110 + _ + _)) by lia. done.
Qed.

(** The bytes of an entry lie in the image, and its path fits its field. *)
Record entry_ok (im : cpio_img) (ent : cpio_rofs_entry) : Prop := {
  eo_data : cpio_image im ≤ e_data ent;
  eo_size : 0 ≤ e_filesize ent < 2 ^ 32;
  eo_end : e_data ent + e_filesize ent ≤ cpio_image im + cpio_image_len im;
  eo_path : (length (e_path ent) < CPIO_ROFS_PATH_MAX)%nat;
  eo_abs : ∃ s, e_path ent = slash :: s;
}.

Lemma normalize_path_cases name :
  ∃ s, cpio_normalize_path name CPIO_ROFS_PATH_MAX = slash :: take 254 s
       ∧ (s = name ∨ s = drop 1 name ∨ s = drop 2 name ∨ s = drop 3 name).
Proof.
  unfold cpio_normalize_path. set (src := if is_char name 0 dot && is_char name 1 slash then _ else _).
  assert (src = name ∨ src = drop 1 name ∨ src = drop 2 name) as Hs.
  { unfold src. destruct (is_char name 0 dot), (is_char name 1 slash), (is_nul name 1); cbn; tauto. }
  set (src' := if is_char src 0 slash then _ else _).
  assert (src' = name ∨ src' = drop 1 name ∨ src' = drop 2 name ∨ src' = drop 3 name) as Hs'.
  { unfold src'. destruct (is_char src 0 slash); [|tauto].
    destruct Hs as [->|[->| ->]]; rewrite ?drop_drop; cbn; tauto. }
  exists src'. split; [|done]. rewrite copy_bounded_take. cbn [length app].
  change (CPIO_ROFS_PATH_MAX - 1 - 1)%nat with 254%nat.
  destruct (Z.eqb_spec (strcmp_s (slash :: take 254 src') [slash] 2) 0) as [E|]; [|done].
  apply strcmp_s_0 in E. destruct src'; [done|]. discriminate E.
Qed.

Lemma normalize_path_short name :
  (length (cpio_normalize_path name CPIO_ROFS_PATH_MAX) < CPIO_ROFS_PATH_MAX)%nat.
Proof.
  destruct (normalize_path_cases name) as (s & -> & _). cbn [length].
  rewrite length_take. unfold CPIO_ROFS_PATH_MAX, VFS_PATH_MAX. lia.
Qed.

Lemma add_entry_spec al tab name mode nlink filesize data d s e tab' :
  rt_ok tab →
  cpio_rofs_add_entry al tab name mode nlink filesize data d s = (e, tab') →
  rt_ok tab'
  ∧ (e = REND_SUCCESS →
     rt_view tab' = rt_view tab ++
       (if cpio_name_skip name then []
        else [CpioEntry (cpio_normalize_path name CPIO_ROFS_PATH_MAX) mode nlink filesize
                data d s])).
Proof.
  intros Hok. unfold cpio_rofs_add_entry. destruct (cpio_name_skip name).
  { intros [= <- <-]. by rewrite app_nil_r. }
  destruct (rt_push_zero al tab) as [[e0 tab1] idx] eqn:Ep.
  destruct (rt_push_ok al tab e0 tab1 idx Hok Ep) as (Hok1 & Hs & Hf).
  destruct (decide (e0 = REND_SUCCESS)) as [->|Hne].
  2:{ intros E. assert (e = e0 ∧ tab' = tab1) as [-> ->] by (destruct e0; simplify_eq; done).
      done. }
  destruct Hs as [Hv ->]; [done|]. rewrite (rt_count_view tab) by done.
  set (n := length (rt_view tab)) in *.
  assert (rt_view tab1 !! n = Some zero_rec) as Hn.
  { rewrite Hv. by apply list_lookup_middle. }
  rewrite (rt_get_view tab1 n _ Hok1 Hn). intros [= <- <-].
  destruct (rt_set_ok tab1 n (CpioEntry (cpio_normalize_path name CPIO_ROFS_PATH_MAX) mode
    nlink filesize data d s) Hok1 (lookup_lt_Some _ _ _ Hn)) as [Hok2 Hv2].
  split; [done|]. intros _. rewrite Hv2, Hv. by apply list_insert_middle.
Qed.

Lemma parse_inv al im fuel : image_ok im → ∀ tab cursor,
  cpio_image im ≤ cursor ≤ cpio_image im + cpio_image_len im + 3 →
  (Z.to_nat (cpio_image im + cpio_image_len im - cursor) < fuel)%nat →
  rt_ok tab → Forall (entry_ok im) (rt_view tab) →
  match cpio_parse al im tab cursor fuel with
  | NoFuel => False
  | Overread => True
  | Ret (e, tab') => rt_ok tab' ∧ Forall (entry_ok im) (rt_view tab')
                     ∧ (e ≠ REND_SUCCESS → rt_view tab' = [])
  end.
Proof.
  intros Him. induction fuel as [|fuel IH]; intros tab cursor Hc Hf Hok Hall; [lia|].
  rewrite parse_step by done.
  destruct (member_at im cursor) as [| | |name mode nlink filesize data next] eqn:Em.
  - done.
  - destruct (rt_destroy_ok tab) as [? ->]. done.
  - done.
  - destruct (member_at_bounds _ _ _ _ _ _ _ _ Him (proj1 Hc) Em) as (? & ? & ? & ? & ? & ?).
    destruct (cpio_rofs_add_entry _ _ _ _ _ _ _ _ _) as [e tab1] eqn:Ea.
    destruct (add_entry_spec _ _ _ _ _ _ _ _ _ _ _ Hok Ea) as [Hok1 Hv1].
    destruct (decide (e = REND_SUCCESS)) as [->|Hne].
    + apply IH; [lia|lia|done|]. rewrite Hv1 by done. apply Forall_app. split; [done|].
      destruct (cpio_name_skip name); [done|]. apply Forall_singleton.
      split; cbn; [lia|lia|lia|apply normalize_path_short|].
      destruct (normalize_path_cases name) as (x & -> & _). by eexists.
    + destruct (rt_destroy_ok tab1) as [? Hd]. by destruct e; rewrite ?Hd.
Qed.

Lemma parse_more al im fuel : image_ok im → ∀ tab cursor fuel',
  cpio_image im ≤ cursor ≤ cpio_image im + cpio_image_len im + 3 →
  (Z.to_nat (cpio_image im + cpio_image_len im - cursor) < fuel)%nat → (fuel ≤ fuel')%nat →
  cpio_parse al im tab cursor fuel' = cpio_parse al im tab cursor fuel.
Proof.
  intros Him. induction fuel as [|fuel IH]; intros tab cursor fuel' Hc Hf Hle; [lia|].
  destruct fuel' as [|fuel']; [lia|]. rewrite !parse_step by done.
  destruct (member_at im cursor) as [| | |name mode nlink filesize data next] eqn:Em; try done.
  destruct (member_at_bounds _ _ _ _ _ _ _ _ Him (proj1 Hc) Em) as (? & ? & ? & ? & ? & ?).
  destruct (cpio_rofs_add_entry _ _ _ _ _ _ _ _ _) as [[] tab1]; try done. apply IH; lia.
Qed.
End parse.

(** ** Reference encoder of the "newc" format

    A member is a 110-byte header of hexadecimal fields, the name with its
    NUL padded so that header and name fill whole words, and the contents
    padded to a word. *)

Record member : Type := Member {
  m_ino : list ascii;
  m_mode : Z;
  m_uid_gid : list ascii;
  m_nlink : Z;
  m_mtime : list ascii;
  m_dev : list ascii;
  m_check : list ascii;
  m_name : cstr;
  m_data : list ascii;
}.

Definition hex_char (d : Z) : ascii := ascii_of_N (Z.to_N (if d <? 10 then 48 + d else 87 + d)).

Fixpoint hexn (n : nat) (v : Z) : list ascii :=
  match n with
  | O => []
  | S n' => hexn n' (v `div` 16) ++ [hex_char (v `mod` 16)]
  end.

Definition pad (n : nat) : list ascii := replicate (Z.to_nat ((- Z.of_nat n) `mod` 4)) zero.

Definition header (m : member) : list ascii :=
  CPIO_NEWC_MAGIC ++ m_ino m ++ hexn 8 (m_mode m) ++ m_uid_gid m ++ hexn 8 (m_nlink m)
  ++ m_mtime m ++ hexn 8 (Z.of_nat (length (m_data m))) ++ m_dev m
  ++ hexn 8 (Z.of_nat (S (length (m_name m)))) ++ m_check m.

Definition encode (m : member) : list ascii :=
  header m ++ (m_name m ++ [zero]) ++ pad (110 + S (length (m_name m)))
  ++ m_data m ++ pad (length (m_data m)).

Record member_ok (m : member) : Prop := {
  mo_ino : length (m_ino m) = 8%nat;
  mo_mode : 0 ≤ m_mode m < 2 ^ 32;
  mo_uid_gid : length (m_uid_gid m) = 16%nat;
  mo_nlink : 0 ≤ m_nlink m < 2 ^ 32;
  mo_mtime : length (m_mtime m) = 8%nat;
  mo_dev : length (m_dev m) = 32%nat;
  mo_check : length (m_check m) = 8%nat;
  mo_nonul : zero ∉ m_name m;
  mo_name : Z.of_nat (S (length (m_name m))) < 2 ^ 32;
  mo_data : Z.of_nat (length (m_data m)) < 2 ^ 32;
}.

(** Members up to the trailer, then anything. *)
Definition archive (ms : list member) (trailer : member) (rest : list ascii) : list ascii :=
  concat (encode <$> ms) ++ encode trailer ++ rest.

Lemma hexn_length n v : length (hexn n v) = n.
Proof. revert v. induction n as [|n IH]; intros v; cbn; [done|]. rewrite length_app, IH. cbn. lia. Qed.

Lemma hex_digit_char d : 0 ≤ d < 16 → hex_digit (hex_char d) = d.
Proof. intros. enumerate d 16%nat; reflexivity. Qed.

Lemma hex_fold_hexn n v : (n ≤ 15)%nat → 0 ≤ v < 16 ^ Z.of_nat n → hex_fold 0 (hexn n v) = v.
Proof.
  revert v. induction n as [|n IH]; intros v Hn Hv.
  - cbn in *. lia.
  - cbn [hexn]. rewrite foldl_app. cbn [foldl].
    rewrite Nat2Z.inj_succ, Z.pow_succ_r in Hv by lia.
    assert (0 ≤ v `div` 16 < 16 ^ Z.of_nat n) as Hd.
    { split; [apply Z.div_pos; lia|apply Z.div_lt_upper_bound; lia]. }
    rewrite IH by (done || lia).
    assert (16 ^ Z.of_nat n ≤ 16 ^ 14) by (apply Z.pow_le_mono_r; lia).
    change (16 ^ 14) with (2 ^ 56) in *. pose proof (Z.mod_pos_bound v 16 ltac:(lia)).
    rewrite hex_digit_char, hex_step by lia. pose proof (Z.div_mod v 16). lia.
Qed.

Lemma hex_field_hexn v : 0 ≤ v < 2 ^ 32 → cpio_hex_field8 (hexn 8 v) = v.
Proof. intros. by apply (hex_fold_hexn 8); [lia|]. Qed.

Lemma field_app (pre f post : list ascii) off n :
  length pre = off → length f = n → field (pre ++ f ++ post) off n = f.
Proof.
  intros <- <-. unfold field. rewrite drop_app_length. apply take_app_length.
Qed.

Lemma until_nul_app s rest : zero ∉ s → until_nul (s ++ zero :: rest) = Some s.
Proof.
  induction s as [|c s IH]; intros Hn; cbn.
  - done.
  - apply not_elem_of_cons in Hn as [Hc Hs]. rewrite decide_False by done.
    by rewrite (IH Hs).
Qed.

Lemma header_length m : member_ok m → length (header m) = 110%nat.
Proof.
  intros []. unfold header. rewrite !length_app, !hexn_length. cbn. lia.
Qed.

Lemma pad_length n : Z.of_nat n + Z.of_nat (length (pad n)) = 4 * ((Z.of_nat n + 3) `div` 4).
Proof.
  unfold pad. rewrite length_replicate.
  pose proof (Z.mod_pos_bound (- Z.of_nat n) 4). pose proof (Z.div_mod (- Z.of_nat n) 4).
  pose proof (Z.mod_pos_bound (Z.of_nat n + 3) 4). pose proof (Z.div_mod (Z.of_nat n + 3) 4).
  lia.
Qed.

(** Where the contents of a member start, from the member's first byte. *)
Definition data_off (m : member) : Z :=
  110 + Z.of_nat (S (length (m_name m)) + length (pad (110 + S (length (m_name m))))).

Lemma encode_length m : member_ok m →
  Z.of_nat (length (encode m)) =
    data_off m + Z.of_nat (length (m_data m) + length (pad (length (m_data m)))).
Proof.
  intros Hm. unfold encode, data_off. rewrite !length_app, header_length by done. cbn [length]. lia.
Qed.

Lemma header_fields m : member_ok m →
  cpio_header_magic_ok (header m) = true
  ∧ cpio_hex_field8 (field (header m) hdr_mode 8) = m_mode m
  ∧ cpio_hex_field8 (field (header m) hdr_nlink 8) = m_nlink m
  ∧ cpio_hex_field8 (field (header m) hdr_filesize 8) = Z.of_nat (length (m_data m))
  ∧ cpio_hex_field8 (field (header m) hdr_namesize 8) = Z.of_nat (S (length (m_name m))).
Proof.
  intros []. unfold header, hdr_mode, hdr_nlink, hdr_filesize, hdr_namesize. split_and!.
  - by apply bool_decide_eq_true_2.
  - rewrite app_assoc, field_app by (rewrite ?length_app, ?hexn_length; cbn; lia).
    by apply hex_field_hexn.
  - do 3 rewrite app_assoc. rewrite field_app by (rewrite ?length_app, ?hexn_length; cbn; lia).
    by apply hex_field_hexn.
  - do 5 rewrite app_assoc. rewrite field_app by (rewrite ?length_app, ?hexn_length; cbn; lia).
    apply hex_field_hexn. lia.
  - do 7 rewrite app_assoc. rewrite field_app by (rewrite ?length_app, ?hexn_length; cbn; lia).
    apply hex_field_hexn. lia.
Qed.

Section roundtrip.
Context {T TN : Type} `{SCL : StrcmpSLaws} `{RT : RecordTable cpio_rofs_entry T}
        {RTL : RecordTableLaws cpio_rofs_entry T}.

Lemma trailer_iff name : strcmp_s name trailer_name 11 =? 0 = bool_decide (name = trailer_name).
Proof.
  apply eq_bool_prop_intro. rewrite Is_true_true, Z.eqb_eq, strcmp_s_0, Is_true_true, bool_decide_eq_true.
  split; [|by intros ->]. change (take 11 trailer_name) with trailer_name. intros E.
  destruct (decide (length name ≤ 11)%nat); [by rewrite take_ge in E|].
  apply (f_equal length) in E. rewrite length_take in E.
  change (length trailer_name) with 10%nat in E. lia.
Qed.

Lemma member_at_encode im pre m post :
  image_ok im → cpio_bytes im = pre ++ encode m ++ post → member_ok m →
  let a := cpio_image im + Z.of_nat (length pre) in
  member_at im a =
    if bool_decide (m_name m = trailer_name) then MEnd
    else MEntry (m_name m) (m_mode m) (m_nlink m) (Z.of_nat (length (m_data m)))
           (a + data_off m) (a + Z.of_nat (length (encode m))).
Proof.
  intros [Hb Hw] Hbs Hm a. unfold member_at. pose proof (encode_length m Hm) as Hel.
  assert (cpio_image_len im = Z.of_nat (length pre) + Z.of_nat (length (encode m))
            + Z.of_nat (length post)) as Hlen.
  { unfold cpio_image_len. rewrite Hbs, !length_app. lia. }
  unfold data_off in *.
  rewrite (proj2 (Z.ltb_ge _ _)) by lia.
  replace (Z.to_nat (a - cpio_image im)) with (length pre) by lia.
  assert (take 110 (drop (length pre) (cpio_bytes im)) = header m) as ->.
  { rewrite Hbs, drop_app_length. unfold encode. rewrite <- app_assoc.
    rewrite <- (header_length m Hm). apply take_app_length. }
  destruct (header_fields m Hm) as (-> & -> & -> & -> & ->). cbn [negb].
  rewrite (proj2 (Z.ltb_ge _ _)) by lia.
  assert (string_at im (a + 110) = Some (m_name m)) as ->.
  { unfold string_at, img_from.
    rewrite (proj2 (Z.leb_le (cpio_image im) _)), (proj2 (Z.leb_le (a + 110) _)) by lia.
    cbn [andb mbind option_bind].
    assert (drop (Z.to_nat (a + 110 - cpio_image im)) (cpio_bytes im) =
      m_name m ++ zero :: (pad (110 + S (length (m_name m))) ++ m_data m
        ++ pad (length (m_data m)) ++ post)) as ->.
    { rewrite Hbs. replace (Z.to_nat _) with (length (pre ++ header m))%nat
        by (rewrite length_app, header_length by done; lia).
      unfold encode. rewrite <- !(app_assoc (header m)), (app_assoc pre), drop_app_length.
      by rewrite <- !app_assoc. }
    apply until_nul_app. apply Hm. }
  rewrite trailer_iff. destruct (bool_decide (m_name m = trailer_name)); [done|].
  destruct Hm.
  assert (cpio_name_field_len (Z.of_nat (S (length (m_name m)))) =
    Z.of_nat (S (length (m_name m)) + length (pad (110 + S (length (m_name m)))))) as ->.
  { destruct (name_field_len_eq (Z.of_nat (S (length (m_name m))))) as [-> _]; [lia|].
    rewrite align4_eq by lia. pose proof (pad_length (110 + S (length (m_name m)))) as Hp.
    rewrite Nat2Z.inj_add in Hp. change (Z.of_nat 110) with 110 in Hp. lia. }
  rewrite (proj2 (Z.ltb_ge _ _)) by lia.
  rewrite align4_eq by lia. pose proof (pad_length (length (m_data m))). f_equal; lia.
Qed.

(** The catalogue of an archive at address [a]: every member but those whose
    names are skipped, with its contents in place. *)
Definition entry_of (a : Z) (m : member) : cpio_rofs_entry :=
  CpioEntry (cpio_normalize_path (m_name m) CPIO_ROFS_PATH_MAX) (m_mode m) (m_nlink m)
    (Z.of_nat (length (m_data m))) (a + data_off m)
    (Z.land (m_mode m) CPIO_S_IFMT =? CPIO_S_IFDIR)
    (Z.land (m_mode m) CPIO_S_IFMT =? CPIO_S_IFLNK).

Fixpoint catalogue (a : Z) (ms : list member) : list cpio_rofs_entry :=
  match ms with
  | [] => []
  | m :: ms' =>
      (if cpio_name_skip (m_name m) then [] else [entry_of a m])
      ++ catalogue (a + Z.of_nat (length (encode m))) ms'
  end.

Lemma parse_archive al im trailer rest ms : ∀ pre tab fuel,
  image_ok im → Forall member_ok ms → Forall (λ m, m_name m ≠ trailer_name) ms →
  member_ok trailer → m_name trailer = trailer_name →
  cpio_bytes im = pre ++ archive ms trailer rest →
  (length ms < fuel)%nat → rt_ok tab →
  let a := cpio_image im + Z.of_nat (length pre) in
  ∃ e tab', cpio_parse al im tab a fuel = Ret (e, tab') ∧ rt_ok tab'
    ∧ (e = REND_SUCCESS → rt_view tab' = rt_view tab ++ catalogue a ms)
    ∧ (e ≠ REND_SUCCESS → rt_view tab' = []).
Proof.
  induction ms as [|m ms IH]; intros pre tab fuel Him Hms Hnt Htr Htn Hbs Hf Hok a;
    (destruct fuel as [|fuel]; [cbn in Hf; lia|]);
    (assert (Z.of_nat (length pre) ≤ cpio_image_len im) as Hlen by
      (unfold cpio_image_len; rewrite Hbs, length_app; lia));
    rewrite parse_step by (done || lia).
  - cbn in Hbs. pose proof (member_at_encode im pre trailer rest Him Hbs Htr) as Hat.
    cbv zeta in Hat. fold a in Hat. rewrite Hat.
    rewrite bool_decide_eq_true_2 by done.
    exists REND_SUCCESS, tab. split_and!; [done|done| |done]. by rewrite app_nil_r.
  - apply Forall_cons_1 in Hms as [Hm Hms]. apply Forall_cons_1 in Hnt as [Hn Hnt].
    assert (archive (m :: ms) trailer rest = encode m ++ archive ms trailer rest) as Hcons
      by (unfold archive; cbn; by rewrite <- app_assoc).
    rewrite Hcons in Hbs. pose proof (member_at_encode im pre m _ Him Hbs Hm) as Hat.
    cbv zeta in Hat. fold a in Hat. rewrite Hat.
    rewrite bool_decide_eq_false_2 by done.
    destruct (cpio_rofs_add_entry _ _ _ _ _ _ _ _ _) as [e tab1] eqn:Ea.
    destruct (add_entry_spec _ _ _ _ _ _ _ _ _ _ _ Hok Ea) as [Hok1 Hv1].
    destruct (decide (e = REND_SUCCESS)) as [->|Hne].
    + destruct (IH (pre ++ encode m) tab1 fuel) as (e & tab' & Hp & Hok' & Hs & Hn');
        try done; [by rewrite <- app_assoc|cbn in Hf; lia|].
      rewrite length_app, Nat2Z.inj_add, Z.add_assoc in Hp, Hs. fold a in Hp, Hs.
      exists e, tab'. split_and!; [done|done| |done].
      intros He. rewrite Hs, Hv1 by done. cbn [catalogue]. by rewrite <- app_assoc.
    + exists e, (rt_destroy tab1). destruct (rt_destroy_ok tab1) as [? ?].
      split_and!; [by destruct e|done|done|done].
Qed.
End roundtrip.

(** ** What the catalogue promises *)

Section theorems.
Context {T : Type} `{SCL : StrcmpSLaws} `{RT : RecordTable cpio_rofs_entry T}
        {RTL : RecordTableLaws cpio_rofs_entry T}.

Lemma normalize_path_idem name :
  let p := cpio_normalize_path name CPIO_ROFS_PATH_MAX in
  cpio_normalize_path p CPIO_ROFS_PATH_MAX = p.
Proof.
  destruct (normalize_path_cases name) as (s & -> & _). unfold cpio_normalize_path.
  cbv zeta. change (is_char (slash :: take 254 s) 0 dot) with false. cbn [andb].
  change (is_char (slash :: take 254 s) 0 slash) with true. cbn [drop].
  rewrite copy_bounded_take. cbn [length app].
  change (CPIO_ROFS_PATH_MAX - 1 - 1)%nat with 254%nat. rewrite drop_0, take_take, Nat.min_id.
  destruct (Z.eqb_spec (strcmp_s (slash :: take 254 s) [slash] 2) 0) as [E|]; [|done].
  apply strcmp_s_0 in E. destruct s; [done|]. discriminate E.
Qed.

Lemma path_equal_iff name path :
  cpio_path_equal (cpio_normalize_path name CPIO_ROFS_PATH_MAX) path = true
  ↔ cpio_normalize_path name CPIO_ROFS_PATH_MAX = cpio_normalize_path path CPIO_ROFS_PATH_MAX.
Proof.
  unfold cpio_path_equal. rewrite Z.eqb_eq, strcmp_s_0, normalize_path_idem.
  pose proof (normalize_path_short name). pose proof (normalize_path_short path).
  by rewrite !take_ge by lia.
Qed.

Lemma cpio_init_ok al cp im :
  image_ok im →
  match cpio_rofs_init al cp (Some im) with
  | NoFuel => False
  | Overread => True
  | Ret (e, cp') => rt_ok (cpio_entry_tab cp')
      ∧ Forall (entry_ok im) (rt_view (cpio_entry_tab cp'))
      ∧ (e ≠ REND_SUCCESS → rt_view (cpio_entry_tab cp') = [])
  end.
Proof.
  intros Him. unfold cpio_rofs_init. destruct (rt_init al 64) as [e0 tab] eqn:Ei.
  destruct (rt_init_ok al 64 e0 tab ltac:(lia) Ei) as [Hok Hv].
  destruct (decide (e0 = REND_SUCCESS)) as [->|Hne].
  2:{ destruct e0; cbn; rewrite ?Hv; done. }
  destruct (_ <? _).
  { destruct (rt_destroy_ok tab) as [? Hd]. cbn. rewrite Hd. done. }
  pose proof (parse_inv al im (parse_fuel im) Him tab (cpio_image im)) as Hp.
  assert (0 ≤ cpio_image_len im) by (unfold cpio_image_len; lia).
  specialize (Hp ltac:(lia) ltac:(unfold parse_fuel, cpio_image_len; lia) Hok ltac:(by rewrite Hv)).
  destruct (cpio_parse _ _ _ _ _) as [[e tab']| |]; done.
Qed.


Lemma read_entry im ent off b len :
  image_ok im → entry_ok im ent → 0 ≤ off < 2 ^ 64 → 0 ≤ len < 2 ^ 64 →
  e_is_dir ent || b = false →
  let bs := take (Z.to_nat (e_filesize ent)) (drop (Z.to_nat (e_data ent - cpio_image im)) (cpio_bytes im)) in
  let got := take (Z.to_nat len) (drop (Z.to_nat off) bs) in
  cpio_rofs_read im (Some (stat_of ent)) off b len =
    Some (inr (Z.of_nat (length got), got)).
Proof.
  intros [Hb Hw] [Hd Hs He _ _] Ho Hl Hdir bs got. unfold cpio_rofs_read. cbn [stat_of st_is_dir st_size st_data].
  rewrite Hdir. assert (Z.of_nat (length bs) = e_filesize ent) as Hbs.
  { unfold bs. rewrite length_take, length_drop. unfold cpio_image_len in *. lia. }
  destruct (Z.leb_spec (e_filesize ent) off).
  { unfold got. by rewrite drop_ge, take_nil by lia. }
  set (len' := if _ <? len then _ else len).
  assert (0 ≤ len' ≤ e_filesize ent - off ∧ got = take (Z.to_nat len') (drop (Z.to_nat off) bs)) as [Hl' Hg].
  { unfold len'. destruct (Z.ltb_spec (e_filesize ent - off) len); [|split; [lia|done]].
    split; [lia|]. unfold got. rewrite !take_ge; [done|rewrite length_drop; lia|rewrite length_drop; lia]. }
  assert (Z.of_nat (length got) = len') as Hgl.
  { rewrite Hg, length_take, length_drop. lia. }
  rewrite (proj2 (Z.eqb_neq (e_data ent) 0)) by lia. rewrite andb_true_r.
  rewrite iw_small by lia. rewrite Hgl.
  destruct (Z.ltb_spec 0 len').
  2:{ assert (got = []) as -> by (apply length_zero_iff_nil; lia). done. }
  unfold img_read, img_from, padd. rewrite uw_small by lia.
  rewrite (proj2 (Z.leb_le (cpio_image im) _)), (proj2 (Z.leb_le (e_data ent + off) _)) by lia.
  cbn [andb]. rewrite length_drop.
  rewrite (proj2 (Z.leb_le len' _)) by (unfold cpio_image_len in *; lia).
  cbn [fmap option_fmap option_map]. do 3 f_equal. rewrite Hg. unfold bs.
  replace (Z.to_nat (e_data ent + off - cpio_image im))
    with (Z.to_nat (e_data ent - cpio_image im) + Z.to_nat off)%nat by lia.
  rewrite <- drop_drop, skipn_firstn_comm, take_take. f_equal. lia.
Qed.

Lemma catalogue_app a ms1 m ms2 :
  cpio_name_skip (m_name m) = false →
  ∃ rest, catalogue a (ms1 ++ m :: ms2) =
    catalogue a ms1 ++ entry_of (a + Z.of_nat (length (concat (encode <$> ms1)))) m :: rest.
Proof.
  intros Hm. revert a. induction ms1 as [|m1 ms1 IH]; intros a; cbn [app catalogue].
  - rewrite Hm. eexists. cbn. by rewrite Z.add_0_r.
  - destruct (IH (a + Z.of_nat (length (encode m1)))) as [rest ->]. exists rest.
    rewrite <- app_assoc. f_equal. cbn [fmap list_fmap concat].
    rewrite length_app, Nat2Z.inj_add, Z.add_assoc. done.
Qed.

Lemma catalogue_paths a ms i ent :
  catalogue a ms !! i = Some ent →
  ∃ m, m ∈ ms ∧ e_path ent = cpio_normalize_path (m_name m) CPIO_ROFS_PATH_MAX.
Proof.
  revert a i. induction ms as [|m ms IH]; intros a i; cbn [catalogue]; [done|].
  destruct (cpio_name_skip (m_name m)); [|destruct i as [|i]]; cbn [app lookup list_lookup].
  - intros (m' & ? & ?)%IH. exists m'. split; [by right|done].
  - intros [= <-]. exists m. split; [by left|done].
  - intros (m' & ? & ?)%IH. exists m'. split; [by right|done].
Qed.

Lemma archive_init al cp im ms trailer rest :
  image_ok im → Forall member_ok ms → Forall (λ m', m_name m' ≠ trailer_name) ms →
  member_ok trailer → m_name trailer = trailer_name →
  cpio_bytes im = archive ms trailer rest →
  ∃ e cp', cpio_rofs_init al cp (Some im) = Ret (e, cp') ∧ rt_ok (cpio_entry_tab cp')
    ∧ (e = REND_SUCCESS → rt_view (cpio_entry_tab cp') = catalogue (cpio_image im) ms)
    ∧ (e ≠ REND_SUCCESS → rt_view (cpio_entry_tab cp') = []).
Proof.
  intros Him Hms Hnt Htr Htn Hbs. unfold cpio_rofs_init.
  destruct (rt_init al 64) as [e0 tab] eqn:Ei.
  destruct (rt_init_ok al 64 e0 tab ltac:(lia) Ei) as [Hok Hv].
  destruct (decide (e0 = REND_SUCCESS)) as [->|Hne].
  2:{ destruct e0; [done|..]; (eexists _, _; split_and!; [done|done|done|]; cbn; done). }
  pose proof (encode_length trailer Htr) as Hel. unfold data_off in Hel.
  assert (length ms ≤ length (concat (encode <$> ms)))%nat as Hcount.
  { clear Hnt Hbs. induction Hms as [|m ms Hm Hms IH]; cbn; [lia|]. rewrite length_app.
    pose proof (encode_length m Hm) as Hm'. unfold data_off in Hm'. lia. }
  assert (length (cpio_bytes im) = length (concat (encode <$> ms)) + (length (encode trailer) + length rest))%nat
    as Hlen by (rewrite Hbs; unfold archive; by rewrite !length_app).
  rewrite (proj2 (Z.ltb_ge _ _)) by (unfold cpio_image_len, CPIO_NEWC_HDR_LEN; lia).
  destruct (parse_archive al im trailer rest ms [] tab (parse_fuel im))
    as (e & tab' & Hp & Hok' & Hs & Hf); try done; [unfold parse_fuel; lia|].
  cbn [length] in Hp, Hs. rewrite Z.add_0_r in Hp, Hs. rewrite Hp, Hv in *.
  by exists e, (CpioRofs tab' (Some im)).
Qed.

Lemma lookup_first cp path l ent r :
  rt_ok (cpio_entry_tab cp) → rt_view (cpio_entry_tab cp) = l ++ ent :: r →
  cpio_path_equal (e_path ent) path = true →
  (∀ ent', ent' ∈ l → cpio_path_equal (e_path ent') path = false) →
  cpio_rofs_lookup cp (Some path) = Some (stat_of ent).
Proof.
  intros Hok Hv Hp Hbefore. unfold cpio_rofs_lookup.
  assert (rt_view (cpio_entry_tab cp) !! length l = Some ent) as Hl
    by (rewrite Hv; by apply list_lookup_middle).
  destruct (rt_scan _ _ 0) as [k|] eqn:Es.
  2:{ pose proof (rt_scan_None _ _ 0 Hok Es (length l) ent ltac:(lia) Hl) as Hn. cbv beta in Hn.
      congruence. }
  apply (rt_scan_Some _ _ 0) in Es as (j & ent' & -> & _ & Hj & Ht & Hmin); [|done].
  assert (j = length l) as ->.
  { destruct (lt_eq_lt_dec j (length l)) as [[Hlt| ->]|Hgt]; [|done|].
    - rewrite Hv, lookup_app_l in Hj by done.
      rewrite (Hbefore ent') in Ht; [done|]. by eapply list_elem_of_lookup_2.
    - pose proof (Hmin (length l) ent ltac:(lia) Hl) as Hn. cbv beta in Hn. congruence. }
  cbn [mbind option_bind]. by rewrite (rt_get_view _ _ _ Hok Hl), Hl in *; simplify_eq.
Qed.

Lemma entry_bytes im ms1 m ms2 trailer rest :
  cpio_bytes im = archive (ms1 ++ m :: ms2) trailer rest → member_ok m →
  let ent := entry_of (cpio_image im + Z.of_nat (length (concat (encode <$> ms1)))) m in
  take (Z.to_nat (e_filesize ent))
    (drop (Z.to_nat (e_data ent - cpio_image im)) (cpio_bytes im)) = m_data m.
Proof.
  intros Hbs Hm ent. cbn [ent entry_of e_filesize e_data]. rewrite Hbs. unfold archive.
  rewrite fmap_app, concat_app, fmap_cons. cbn [concat].
  set (l1 := concat (encode <$> ms1)). unfold encode at 1. rewrite <- !app_assoc.
  set (X := l1 ++ header m ++ m_name m ++ [zero] ++ pad (110 + S (length (m_name m)))).
  match goal with |- take _ (drop _ ?l) = _ =>
    assert (∃ Y, l = X ++ m_data m ++ Y) as [Y ->]
      by (eexists; unfold X; rewrite <- !app_assoc; reflexivity) end.
  replace (Z.to_nat (_ - _)) with (length X).
  - rewrite drop_app_length, Nat2Z.id. apply take_app_length.
  - unfold X. rewrite !length_app, header_length by done. unfold data_off. cbn [length]. lia.
Qed.

(** The walk over an image always ends: whatever the bytes, [parse_fuel]
    turns of the loop are enough, more turns give the same result, and
    [cpio_rofs_init] never runs out of them. *)
Theorem cpio_parse_terminates al cp im tab fuel :
  image_ok im → (parse_fuel im ≤ fuel)%nat →
  cpio_parse al im tab (cpio_image im) fuel
    = cpio_parse al im tab (cpio_image im) (parse_fuel im)
  ∧ cpio_rofs_init al cp (Some im) ≠ NoFuel.
Proof.
  intros Him Hf. assert (0 ≤ cpio_image_len im) by (unfold cpio_image_len; lia). split.
  - apply parse_more; [done|lia|unfold parse_fuel, cpio_image_len; lia|done].
  - pose proof (cpio_init_ok al cp im Him) as Hi. intros E. by rewrite E in Hi.
Qed.


(** C22. Round trip through the archive format: initialising from an archive
    built by the reference encoder succeeds (or fails for lack of memory, with
    an empty catalogue); each file of the archive is then found under any
    spelling of its name, as the first member of that name, and reading it at
    any offset returns the bytes that were put in. *)
Theorem cpio_archive_roundtrip al cp im ms1 m ms2 trailer rest path :
  image_ok im → Forall member_ok (ms1 ++ m :: ms2) →
  Forall (λ m', m_name m' ≠ trailer_name) (ms1 ++ m :: ms2) →
  member_ok trailer → m_name trailer = trailer_name →
  cpio_bytes im = archive (ms1 ++ m :: ms2) trailer rest →
  cpio_name_skip (m_name m) = false →
  Z.land (m_mode m) CPIO_S_IFMT ≠ CPIO_S_IFDIR →
  cpio_normalize_path (m_name m) CPIO_ROFS_PATH_MAX
    = cpio_normalize_path path CPIO_ROFS_PATH_MAX →
  (∀ m', m' ∈ ms1 → cpio_normalize_path (m_name m') CPIO_ROFS_PATH_MAX
                    ≠ cpio_normalize_path path CPIO_ROFS_PATH_MAX) →
  ∃ e cp', cpio_rofs_init al cp (Some im) = Ret (e, cp')
    ∧ (e ≠ REND_SUCCESS → cpio_rofs_parsed_count cp' = 0)
    ∧ (e = REND_SUCCESS →
       ∃ st, cpio_rofs_lookup cp' (Some path) = Some st
         ∧ st_mode st = m_mode m
         ∧ ∀ off len, 0 ≤ off < 2 ^ 64 → 0 ≤ len < 2 ^ 64 →
           let got := take (Z.to_nat len) (drop (Z.to_nat off) (m_data m)) in
           cpio_rofs_read im (Some st) off false len
             = Some (inr (Z.of_nat (length got), got))).
Proof.
  intros Him Hms Hnt Htr Htn Hbs Hskip Hnd Hpath Hfirst.
  destruct (archive_init al cp im (ms1 ++ m :: ms2) trailer rest)
    as (e & cp' & Hi & Hok & Hs & Hf); [done..|].
  exists e, cp'. split_and!; [done| |].
  { intros Hne. unfold cpio_rofs_parsed_count. by rewrite rt_count_view, (Hf Hne). }
  intros He. specialize (Hs He). destruct (catalogue_app (cpio_image im) ms1 m ms2 Hskip) as [r Hr].
  rewrite Hr in Hs. set (ent := entry_of _ m) in *.
  pose proof (cpio_init_ok al cp im Him) as Hinv. rewrite Hi in Hinv. destruct Hinv as (_ & Hall & _).
  exists (stat_of ent). split_and!; [|done|].
  - apply (lookup_first _ _ (catalogue (cpio_image im) ms1) ent r); [done|done| |].
    + by apply path_equal_iff.
    + intros ent' [i Hi']%list_elem_of_lookup.
      destruct (catalogue_paths _ _ _ _ Hi') as (m' & Hm' & Hp').
      destruct (cpio_path_equal (e_path ent') path) eqn:Eq; [|done].
      rewrite Hp' in Eq. apply path_equal_iff in Eq. by destruct (Hfirst m' Hm').
  - intros off len Ho Hl got.
    assert (entry_ok im ent) as Hent
      by (rewrite Hs in Hall; by apply Forall_app in Hall as [_ [? _]%Forall_cons_1]).
    assert (e_is_dir ent || false = false) as Hdir
      by (rewrite orb_false_r; by apply Z.eqb_neq).
    rewrite (read_entry im ent off false len) by done.
    apply Forall_app in Hms as [_ [Hm _]%Forall_cons_1].
    unfold ent. rewrite (entry_bytes im ms1 m ms2 trailer rest) by done. done.
Qed.
End theorems.

(** ** An archive *)

Module CpioDemo.
Import ListTable.
Definition al : alloc_oracle := λ _, true.
Definition f8 : list ascii := hexn 8 0.
Definition f16 : list ascii := f8 ++ f8.
Definition mk (name : string) (mode : Z) (data : string) : member :=
  Member f8 mode f16 1 f8 (f16 ++ f16) f8 (str name) (str data).
Definition bin : member := mk "bin" 0x41ed "".
Definition init : member := mk "./bin/init" 0x81ed "hello".
Definition motd : member := mk "motd" 0x81a4 "x".
Definition tail : member := mk "TRAILER!!!" 0 "".
Definition im : cpio_img := CpioImg 0x100000 (archive [bin; init; motd] tail []).
Definition cp0 : cpio_rofs (list cpio_rofs_entry) := CpioRofs [] None.

Lemma im_ok : image_ok im.
Proof. split; vm_compute; [reflexivity|discriminate]. Qed.

Lemma mk_ok name mode data : 0 ≤ mode < 2 ^ 32 → zero ∉ str name →
  Z.of_nat (S (length (str name))) < 2 ^ 32 → Z.of_nat (length (str data)) < 2 ^ 32 →
  member_ok (mk name mode data).
Proof. intros. split; done. Qed.

Lemma members_ok : Forall member_ok [bin; init; motd; tail].
Proof.
  repeat constructor; try (vm_compute; reflexivity || discriminate);
    apply (bool_decide_unpack _); vm_compute; exact I.
Qed.



Lemma cpio_parse_terminates_witness :
  cpio_parse al im ([] : list cpio_rofs_entry) (cpio_image im) (parse_fuel im + 1)
    = cpio_parse al im [] (cpio_image im) (parse_fuel im)
  ∧ cpio_rofs_init al cp0 (Some im) ≠ NoFuel.
Proof. apply (cpio_parse_terminates al cp0 im [] (parse_fuel im + 1) im_ok). lia. Defined.


Lemma cpio_archive_roundtrip_witness :
  ∃ e cp', cpio_rofs_init al cp0 (Some im) = Ret (e, cp')
    ∧ (e ≠ REND_SUCCESS → cpio_rofs_parsed_count cp' = 0)
    ∧ (e = REND_SUCCESS →
       ∃ st, cpio_rofs_lookup cp' (Some (str "/bin/init")) = Some st
         ∧ st_mode st = m_mode init
         ∧ ∀ off len, 0 ≤ off < 2 ^ 64 → 0 ≤ len < 2 ^ 64 →
           let got := take (Z.to_nat len) (drop (Z.to_nat off) (m_data init)) in
           cpio_rofs_read im (Some st) off false len
             = Some (inr (Z.of_nat (length got), got))).
Proof.
  pose proof members_ok as Hok.
  apply (cpio_archive_roundtrip al cp0 im [bin] init [motd] tail [] (str "/bin/init") im_ok);
    try (vm_compute; reflexivity).
  - by apply (Forall_app _ [bin; init; motd] [tail]) in Hok as [? _].
  - repeat constructor; vm_compute; discriminate.
  - by apply (Forall_app _ [bin; init; motd] [tail]) in Hok as [_ [? _]%Forall_cons_1].
  - vm_compute. discriminate.
  - intros m' ->%list_elem_of_singleton. vm_compute. discriminate.
Defined.
End CpioDemo.
