(* ===== verification/Mount.v ===== *)
(** * Backend registry and mount table
    ([servers/fs/vfs_backend.c], [servers/fs/vfs_mount.c])

    Storage backends register the IPC port they serve; the mount table binds a
    directory to the port of a registered backend.  Both are growable record
    tables.  Every path operation of the VFS asks the mount table which port
    serves a path: the mount whose target is the longest prefix of the path,
    or the overlay backend when there is none. *)

From stdpp Require Import base numbers list strings gmap option.
From Stdlib Require Import Ascii.
From S2P Require Import Prelude PageSlice SliceTable VfsPath VfsInode VfsHandle.

Definition LINUX_ENXIO : Z := 6.
Definition LINUX_EEXIST : Z := 17.
Definition VFS_BACKEND_FSTYPE_MAX : nat := 16.
Definition VFS_BACKEND_FSTYPE_RAMFS : cstr := str "ramfs".
Definition VFS_BACKEND_REG_ROOT : Z := 1.
Definition VFS_BACKEND_REG_OVERLAY : Z := 2.
Definition VFS_BACKEND_BOOT_IO_READY : Z :=
  Z.lor VFS_BACKEND_REG_ROOT VFS_BACKEND_REG_OVERLAY.
Definition VFS_MOUNT_PORT_NAME_MAX : nat := 32.
Definition LINUX_MNT_DETACH : Z := 2.

(** ** Backend registry *)

Record vfs_backend_entry : Type := BackendEntry {
  be_port_name : cstr;
  be_fstype : cstr;
  be_caps : Z;
  be_reg_flags : Z;
  be_active : bool;
}.

#[global] Instance zero_backend : Zeroed vfs_backend_entry := BackendEntry [] [] 0 0 false.

Record backend_state (T : Type) : Type := BackendState {
  vfs_backend_tab : T;
  vfs_backend_root_port_ptr : ptr cstr;
  vfs_backend_overlay_port_ptr : ptr cstr;
  vfs_backend_online_flags : Z;
  vfs_backend_tab_ready : bool;
}.
Arguments BackendState {T} _ _ _ _ _.
Arguments vfs_backend_tab {T} _.
Arguments vfs_backend_root_port_ptr {T} _.
Arguments vfs_backend_overlay_port_ptr {T} _.
Arguments vfs_backend_online_flags {T} _.
Arguments vfs_backend_tab_ready {T} _.

Section registry.
Context {T : Type} `{SC : StrcmpS} `{RT : RecordTable vfs_backend_entry T}.
Implicit Types s : backend_state T.

Definition with_tab s (t : T) (ready : bool) : backend_state T :=
  BackendState t (vfs_backend_root_port_ptr s) (vfs_backend_overlay_port_ptr s)
    (vfs_backend_online_flags s) ready.
Definition set_entry s (i : Z) (e : vfs_backend_entry) : backend_state T :=
  with_tab s (rt_set (vfs_backend_tab s) i e) (vfs_backend_tab_ready s).
Definition set_root_port s (p : cstr) : backend_state T :=
  BackendState (vfs_backend_tab s) (Some p) (vfs_backend_overlay_port_ptr s)
    (vfs_backend_online_flags s) (vfs_backend_tab_ready s).
Definition set_overlay_port s (p : cstr) : backend_state T :=
  BackendState (vfs_backend_tab s) (vfs_backend_root_port_ptr s) (Some p)
    (vfs_backend_online_flags s) (vfs_backend_tab_ready s).

(** The registry's limit of entries is one of the reasons [rt_push_zero]
    may fail. *)
Definition vfs_backend_tab_ensure (al : alloc_oracle) s : backend_state T :=
  if vfs_backend_tab_ready s then s
  else
    match rt_init al 8 with
    | (REND_SUCCESS, t) => with_tab s t true
    | (_, t) => with_tab s t false
    end.

Definition vfs_backend_find_port (al : alloc_oracle) s (port_name : ptr cstr)
  : backend_state T * ptr Z :=
  match port_name with
  | None => (s, None)
  | Some p =>
      let s := vfs_backend_tab_ensure al s in
      (s, rt_scan (λ e, be_active e && (strcmp_s (be_port_name e) p VFS_PATH_MAX =? 0))
            (vfs_backend_tab s) 0)
  end.

Definition vfs_backend_alloc_slot (al : alloc_oracle) s : backend_state T * ptr Z :=
  let s := vfs_backend_tab_ensure al s in
  if negb (vfs_backend_tab_ready s) then (s, None)
  else
    match rt_scan (λ e, negb (be_active e)) (vfs_backend_tab s) 0 with
    | Some i => (set_entry s i zero_rec, Some i)
    | None =>
        match rt_push_zero al (vfs_backend_tab s) with
        | (REND_SUCCESS, t1, idx) =>
            match rt_get t1 idx with
            | None => (with_tab s (rt_pop_last t1) true, None)
            | Some _ => (with_tab s t1 true, Some idx)
            end
        | (_, t1, _) => (with_tab s t1 true, None)
        end
    end.

(** [strncpy(dst, src, n - 1)] over a field of [n] bytes, terminated. *)
Definition copy_field (src : cstr) (n : nat) : cstr := strncpy_term src (n - 1).

Definition vfs_backend_register (al : alloc_oracle) s (port_name fstype : ptr cstr)
    (caps reg_flags : Z) : backend_state T * Z :=
  match port_name with
  | None => (s, - LINUX_EINVAL)
  | Some p =>
      if is_nul p 0 then (s, - LINUX_EINVAL)
      else
        let '(s1, found) := vfs_backend_find_port al s port_name in
        let '(s2, entry) :=
          match found with
          | Some i => (s1, Some i)
          | None =>
              match vfs_backend_alloc_slot al s1 with
              | (s2, None) => (s2, None)
              | (s2, Some i) =>
                  let e := default zero_rec (rt_get (vfs_backend_tab s2) i) in
                  (set_entry s2 i (BackendEntry p (be_fstype e) (be_caps e) (be_reg_flags e) true),
                   Some i)
              end
          end in
        match entry with
        | None => (s2, - LINUX_ENOMEM)
        | Some i =>
            let e := default zero_rec (rt_get (vfs_backend_tab s2) i) in
            let ft := match fstype with
                      | Some f => copy_field f VFS_BACKEND_FSTYPE_MAX
                      | None => []
                      end in
            let s3 := set_entry s2 i (BackendEntry (be_port_name e) ft caps reg_flags (be_active e)) in
            let clash cur := match cur with
                             | Some q => negb (strcmp_s q p VFS_PATH_MAX =? 0)
                             | None => false
                             end in
            if has reg_flags VFS_BACKEND_REG_ROOT && clash (vfs_backend_root_port_ptr s3)
            then (s3, - LINUX_EEXIST)
            else
              let s4 := if has reg_flags VFS_BACKEND_REG_ROOT then set_root_port s3 p else s3 in
              if has reg_flags VFS_BACKEND_REG_OVERLAY && clash (vfs_backend_overlay_port_ptr s4)
              then (s4, - LINUX_EEXIST)
              else
                (if has reg_flags VFS_BACKEND_REG_OVERLAY then set_overlay_port s4 p else s4, 0)
        end
  end.

Definition vfs_backend_caps_for_port (al : alloc_oracle) s (port_name : ptr cstr)
  : backend_state T * Z :=
  let '(s, entry) := vfs_backend_find_port al s port_name in
  (s, match entry ≫= rt_get (vfs_backend_tab s) with Some e => be_caps e | None => 0 end).

Definition vfs_backend_port_for_fstype (al : alloc_oracle) s (fstype : ptr cstr)
  : backend_state T * ptr cstr :=
  match fstype with
  | None => (s, None)
  | Some f =>
      if is_nul f 0 then (s, None)
      else
        let s := vfs_backend_tab_ensure al s in
        (s, be_port_name <$>
              (rt_scan (λ e, be_active e && negb (is_nul (be_fstype e) 0)
                             && (strcmp_s (be_fstype e) f VFS_BACKEND_FSTYPE_MAX =? 0))
                 (vfs_backend_tab s) 0 ≫= rt_get (vfs_backend_tab s)))
  end.

Definition vfs_backend_root_port s : ptr cstr := vfs_backend_root_port_ptr s.
Definition vfs_backend_overlay_port s : ptr cstr := vfs_backend_overlay_port_ptr s.

Definition vfs_backend_port_known (al : alloc_oracle) s (port_name : ptr cstr)
  : backend_state T * bool :=
  let '(s, entry) := vfs_backend_find_port al s port_name in
  (s, match entry with Some _ => true | None => false end).

Definition vfs_backend_mark_online s (reg_flags : Z) : backend_state T :=
  BackendState (vfs_backend_tab s) (vfs_backend_root_port_ptr s)
    (vfs_backend_overlay_port_ptr s) (Z.lor (vfs_backend_online_flags s) reg_flags)
    (vfs_backend_tab_ready s).

Definition vfs_backend_boot_io_ready s : bool :=
  Z.land (vfs_backend_online_flags s) VFS_BACKEND_BOOT_IO_READY =? VFS_BACKEND_BOOT_IO_READY.
End registry.

(** ** Mount table *)

Record vfs_mount_rec : Type := MountRec {
  mt_target : cstr;
  mt_fstype : cstr;
  mt_backend_port : cstr;
  mt_flags : Z;
  mt_active : bool;
}.

#[global] Instance zero_mount : Zeroed vfs_mount_rec := MountRec [] [] [] 0 false.

Section mount.
Context {T : Type} `{SC : StrcmpS} `{RT : RecordTable vfs_mount_rec T}.
Implicit Types mt : T.

Definition vfs_mount_at mt (i : Z) : ptr vfs_mount_rec := rt_get mt i.

Definition vfs_mount_path_under_or_equal (path mount : ptr cstr) : bool :=
  match path, mount with
  | Some path, Some mount =>
      let norm_path := path_norm path in
      let norm_mount := path_norm mount in
      if vfs_path_equal (Some norm_path) (Some norm_mount) then true
      else
        let mlen := length norm_mount in
        if (mlen <=? 1)%nat then is_char norm_path 0 slash && negb (is_nul norm_path 1)
        else if negb (strcmp_s norm_path norm_mount mlen =? 0) then false
        else is_char norm_path mlen slash
  | _, _ => false
  end.

Definition vfs_mount_reset (al : alloc_oracle) mt : T := (rt_init al 8).2.

(** The loop of [vfs_mount_view_for_path]: [best] is the best record so far,
    of target length [best_len]. *)
Fixpoint mount_best mt (norm : cstr) (best_len : nat) (best : ptr vfs_mount_rec) (i : Z)
    (fuel : nat) : ptr vfs_mount_rec :=
  match fuel with
  | O => best
  | S fuel' =>
      match vfs_mount_at mt i with
      | None => mount_best mt norm best_len best (i + 1) fuel'
      | Some m =>
          if negb (mt_active m) || is_nul (mt_backend_port m) 0
          then mount_best mt norm best_len best (i + 1) fuel'
          else if negb (vfs_mount_path_under_or_equal (Some norm) (Some (mt_target m)))
          then mount_best mt norm best_len best (i + 1) fuel'
          else
            let mlen := length (mt_target m) in
            if (best_len <? mlen)%nat then mount_best mt norm mlen (Some m) (i + 1) fuel'
            else mount_best mt norm best_len best (i + 1) fuel'
      end
  end.

(** The record whose fields [*out] points into. *)
Definition vfs_mount_view_for_path mt (path : ptr cstr) : ptr vfs_mount_rec :=
  match path with
  | None => None
  | Some path => mount_best mt (path_norm path) 0 None 0 (Z.to_nat (rt_count mt))
  end.

Definition vfs_mount_backend_port_for_path mt (path : ptr cstr) : ptr cstr :=
  mt_backend_port <$> vfs_mount_view_for_path mt path.

Definition vfs_mount_is_mountpoint mt (path : ptr cstr) : bool :=
  match path with
  | None => false
  | Some _ =>
      match rt_scan (λ m, mt_active m && vfs_path_equal (Some (mt_target m)) path) mt 0 with
      | Some _ => true
      | None => false
      end
  end.

(** The outputs of [vfs_mount_register_prepare]. *)
Record mount_prep : Type := MountPrep {
  mp_port : ptr cstr;
  mp_norm : cstr;
  mp_need_mkdir : bool;
}.
End mount.

Section mount_register.
Context {TB T : Type} `{SC : StrcmpS} `{RTB : RecordTable vfs_backend_entry TB}
        `{RT : RecordTable vfs_mount_rec T}.

Definition vfs_mount_register_prepare (al : alloc_oracle) (bs : backend_state TB) (mt : T)
    (target fstype : ptr cstr) (flags : Z) (norm_cap : nat)
  : backend_state TB * T * Z * mount_prep :=
  let out0 := MountPrep None [] false in
  match target, fstype with
  | Some tgt, Some ft =>
      if (norm_cap =? 0)%nat then (bs, mt, - LINUX_EINVAL, out0)
      else
        let '(bs, port) := vfs_backend_port_for_fstype al bs fstype in
        match port with
        | None => (bs, mt, - LINUX_ENODEV, out0)
        | Some backend_port =>
            let norm := path_norm tgt in
            if negb (vfs_path_is_root (Some norm)) && is_nul norm 0
            then (bs, mt, - LINUX_EINVAL, out0)
            else if (norm_cap <? length norm + 1)%nat
            then (bs, mt, - LINUX_ENAMETOOLONG, out0)
            else
              let out1 := MountPrep None (strncpy_term norm (norm_cap - 1)) false in
              match rt_scan (λ m, mt_active m && vfs_path_equal (Some (mt_target m)) (Some norm))
                      mt 0 with
              | Some _ => (bs, mt, 0, out1)
              | None =>
                  let '(mt1, slot) :=
                    match rt_scan (λ m, negb (mt_active m)) mt 0 with
                    | Some i => (mt, Some i)
                    | None =>
                        match rt_push_zero al mt with
                        | (REND_SUCCESS, mt1, idx) =>
                            match rt_get mt1 idx with
                            | None => (rt_pop_last mt1, None)
                            | Some _ => (mt1, Some idx)
                            end
                        | (_, mt1, _) => (mt1, None)
                        end
                    end in
                  match slot with
                  | None => (bs, mt1, - LINUX_ENOMEM, out1)
                  | Some i =>
                      let mt2 := rt_set mt1 i
                        (MountRec (copy_field norm VFS_PATH_MAX)
                           (copy_field ft VFS_BACKEND_FSTYPE_MAX)
                           (copy_field backend_port VFS_MOUNT_PORT_NAME_MAX) flags true) in
                      if strcmp_s ft VFS_BACKEND_FSTYPE_RAMFS VFS_BACKEND_FSTYPE_MAX =? 0
                      then (bs, mt2, 1, MountPrep (Some backend_port) (mp_norm out1) true)
                      else (bs, mt2, 1, out1)
                  end
              end
        end
  | _, _ => (bs, mt, - LINUX_EINVAL, out0)
  end.

Definition vfs_backend_port_for_path (bs : backend_state TB) (mt : T) (path : ptr cstr)
  : ptr cstr :=
  match vfs_mount_view_for_path mt path with
  | Some view => Some (mt_backend_port view)
  | None => vfs_backend_overlay_port bs
  end.
End mount_register.

Section mount_unregister.
Context {T TH N : Type} `{SC : StrcmpS} `{RT : RecordTable vfs_mount_rec T}
        `{RTH : RecordTable vfs_open_handle TH}.
(** The namespace, with [vfs_namespace_set_mount_cover]. *)
Variable set_mount_cover : N → cstr → bool → N * Z.

Definition vfs_mount_unregister (ns : N) (mt : T) (handles : TH) (target : ptr cstr) (flags : Z)
  : N * T * Z :=
  match target with
  | None => (ns, mt, - LINUX_EINVAL)
  | Some tgt =>
      let norm := path_norm tgt in
      match rt_scan (λ m, mt_active m && vfs_path_equal (Some (mt_target m)) (Some norm)) mt 0 with
      | Some i =>
          if negb (has flags LINUX_MNT_DETACH) && vfs_handle_busy_under_path handles (Some norm)
          then (ns, mt, - LINUX_EBUSY)
          else ((set_mount_cover ns norm false).1, rt_set mt i zero_rec, 0)
      | None => (ns, mt, - LINUX_EINVAL)
      end
  end.

Definition vfs_mount_apply_cover (ns : N) (target : cstr) (covered : bool) : N * Z :=
  set_mount_cover ns target covered.
End mount_unregister.

(** ** Which mounts there are

    Two tables are equivalent when they hold the same mounts, in whatever
    slots. *)

Section mounts.
Context {T : Type} `{SCL : StrcmpSLaws} `{RT : RecordTable vfs_mount_rec T}
        {RTL : RecordTableLaws vfs_mount_rec T}.
Implicit Types mt : T.

Definition mounted mt (m : vfs_mount_rec) : Prop := m ∈ rt_view mt ∧ mt_active m = true.

Abbreviation mt_comps m := (path_comps (mt_target m)).

(** Active targets are normalized, and no directory is mounted on twice. *)
Record mounts_wf mt : Prop := {
  mw_ok : rt_ok mt;
  mw_norm : ∀ m, mounted mt m → path_norm (mt_target m) = mt_target m;
  mw_once : ∀ i j m m', rt_view mt !! i = Some m → rt_view mt !! j = Some m' →
    mt_active m = true → mt_active m' = true → mt_comps m = mt_comps m' → i = j;
}.

(** A mount that routes requests: its port is named. *)
Definition serving m : bool := mt_active m && negb (is_nul (mt_backend_port m) 0).

Lemma under_or_equal_prefix p q :
  vfs_mount_path_under_or_equal (Some p) (Some q) = true
  ↔ path_comps q `prefix_of` path_comps p.
Proof.
  destruct (decide (path_comps q = [])) as [E0|Hne].
  - rewrite E0. split; [intros _; apply prefix_nil|intros _].
    unfold vfs_mount_path_under_or_equal. destruct (vfs_path_equal _ _) eqn:E; [done|].
    assert (path_norm q = [slash]) as -> by (rewrite path_norm_render, E0; done).
    cbn [length Nat.leb]. rewrite path_norm_render. apply andb_true_iff. split; [done|].
    apply negb_true_iff, not_true_iff_false. intros Hn.
    assert (path_comps p = path_comps q) as Hpq; [|].
    { rewrite E0. apply bool_decide_eq_true in Hn. unfold render in Hn.
      destruct (path_comps p) as [|c cs] eqn:Ep; [done|]. exfalso.
      pose proof (path_comps_canonical p) as [Hg _ _]. rewrite Ep in Hg.
      apply Forall_cons_1 in Hg as [(Hc & _) _]. destruct c; [done|]. by destruct cs. }
    assert (vfs_path_equal (Some (path_norm p)) (Some [slash]) = true) as Ht; [|].
    { apply vfs_path_equal_comps. by rewrite path_comps_norm, Hpq, E0. }
    replace (path_norm q) with [slash] in E; [congruence|].
    by rewrite path_norm_render, E0.
  - rewrite <- (under_mount_prefix p q Hne).
    unfold vfs_mount_path_under_or_equal, vfs_handle_path_under_mount.
    assert (strcmp_s (path_norm p) (path_norm q) VFS_PATH_MAX =? 0
      = vfs_path_equal (Some (path_norm p)) (Some (path_norm q))) as ->.
    { apply eq_bool_prop_intro. rewrite !Is_true_true, vfs_path_equal_comps, !path_comps_norm.
      rewrite Z.eqb_eq, strcmp_s_0, <- path_norm_inj.
      pose proof (render_short _ (path_comps_canonical p)).
      pose proof (render_short _ (path_comps_canonical q)).
      by rewrite !take_ge by (rewrite path_norm_render; lia). }
    destruct (vfs_path_equal _ _); [done|].
    assert (1 < length (path_norm q))%nat.
    { rewrite path_norm_render, render_length. pose proof (path_comps_canonical q) as [Hg _ _].
      destruct (path_comps q) as [|c cs]; [done|]. rewrite weight_cons.
      apply Forall_cons_1 in Hg as [(Hc & _) _]. destruct c; [done|]. cbn. lia. }
    rewrite (proj2 (Nat.leb_gt _ _)), (proj2 (Nat.eqb_neq _ _)) by lia. done.
Qed.

Lemma render_prefix_lt cs1 cs2 : Forall good_comp cs1 →
  cs2 `prefix_of` cs1 → (length cs2 < length cs1)%nat →
  (length (render cs2) < length (render cs1))%nat.
Proof.
  intros Hg [ds ->] Hl. rewrite !render_length, weight_app. rewrite length_app in Hl.
  destruct ds as [|d ds]; [cbn in Hl; lia|]. rewrite weight_cons.
  apply Forall_app in Hg as [_ [(Hd & _) _]%Forall_cons_1]. destruct d; [done|].
  cbn [length]. lia.
Qed.

Lemma mount_best_spec mt p fuel : mounts_wf mt → ∀ i best best_len,
  (i + fuel)%nat = length (rt_view mt) →
  match best with
  | None => best_len = 0%nat
  | Some b => mounted mt b ∧ serving b = true ∧ mt_comps b `prefix_of` path_comps p
              ∧ best_len = length (mt_target b)
  end →
  (∀ j m, (j < i)%nat → rt_view mt !! j = Some m → serving m = true →
     mt_comps m `prefix_of` path_comps p →
     (length (mt_target m) ≤ best_len)%nat) →
  match mount_best mt (path_norm p) best_len best (Z.of_nat i) fuel with
  | None => ∀ m, mounted mt m → serving m = true → ¬ mt_comps m `prefix_of` path_comps p
  | Some b => mounted mt b ∧ serving b = true ∧ mt_comps b `prefix_of` path_comps p
      ∧ ∀ m, mounted mt m → serving m = true → mt_comps m `prefix_of` path_comps p →
          (length (mt_target m) ≤ length (mt_target b))%nat
  end.
Proof.
  intros Hwf. induction fuel as [|fuel IH]; intros i best best_len Hi Hb Hall; cbn [mount_best].
  - assert (∀ m, mounted mt m → serving m = true → mt_comps m `prefix_of` path_comps p →
      (length (mt_target m) ≤ best_len)%nat) as Hall'.
    { intros m [[j Hj]%list_elem_of_lookup Ha]. apply (Hall j m); [|done].
      apply lookup_lt_Some in Hj. lia. }
    destruct best as [b|].
    + destruct Hb as (? & ? & ? & ->). done.
    + subst. intros m Hm Hs Hp. pose proof (Hall' m Hm Hs Hp) as Hle.
      rewrite <- (mw_norm _ Hwf m Hm), path_norm_render in Hle. cbn in Hle. lia.
  - destruct (lookup_lt_is_Some_2 (rt_view mt) i) as [m Hm]; [lia|]. unfold vfs_mount_at.
    rewrite (rt_get_view mt i m (mw_ok _ Hwf) Hm).
    replace (Z.of_nat i + 1) with (Z.of_nat (S i)) by lia.
    assert (∀ bl, (best_len ≤ bl)%nat →
      (serving m = true → mt_comps m `prefix_of` path_comps p → (length (mt_target m) ≤ bl)%nat) →
      ∀ j m', (j < S i)%nat → rt_view mt !! j = Some m' → serving m' = true →
        mt_comps m' `prefix_of` path_comps p → (length (mt_target m') ≤ bl)%nat) as Hstep.
    { intros bl Hbl Hnew j m' Hj Hm' Hs' Hp'. destruct (decide (j = i)) as [->|].
      - assert (m' = m) as -> by congruence. by apply Hnew.
      - specialize (Hall j m' ltac:(lia) Hm' Hs' Hp'). lia. }
    assert (negb (mt_active m) || is_nul (mt_backend_port m) 0 = negb (serving m)) as ->
      by (unfold serving; by rewrite negb_andb, negb_involutive).
    destruct (serving m) eqn:Es; cbn [negb].
    2:{ apply IH; [lia|done|]. by apply Hstep. }
    destruct (vfs_mount_path_under_or_equal _ _) eqn:Eu; cbn [negb].
    + apply under_or_equal_prefix in Eu. rewrite path_comps_norm in Eu.
      destruct (Nat.ltb_spec best_len (length (mt_target m))).
      * apply IH; [lia| |].
        -- split_and!; [|done..]. split; [by eapply list_elem_of_lookup_2|].
           by apply andb_true_iff in Es as [? _].
        -- apply Hstep; [lia|done].
      * apply IH; [lia|done|]. apply Hstep; [lia|done].
    + apply IH; [lia|done|]. apply Hstep; [lia|]. intros _ Hp. exfalso.
      rewrite <- (path_comps_norm p) in Hp. apply under_or_equal_prefix in Hp. congruence.
Qed.

(** The mount that serves a path: the one with the longest target among those
    the path lies under. *)
Definition route mt (p : cstr) (r : ptr vfs_mount_rec) : Prop :=
  match r with
  | None => ∀ m, mounted mt m → serving m = true → ¬ mt_comps m `prefix_of` path_comps p
  | Some b => mounted mt b ∧ serving b = true ∧ mt_comps b `prefix_of` path_comps p
      ∧ ∀ m, mounted mt m → serving m = true → mt_comps m `prefix_of` path_comps p →
          (length (mt_comps m) ≤ length (mt_comps b))%nat
  end.

Lemma view_route mt p : mounts_wf mt → route mt p (vfs_mount_view_for_path mt (Some p)).
Proof.
  intros Hwf. unfold vfs_mount_view_for_path. rewrite rt_count_view, Nat2Z.id by apply Hwf.
  pose proof (mount_best_spec mt p (length (rt_view mt)) Hwf 0 None 0 eq_refl eq_refl) as Hs.
  specialize (Hs ltac:(lia)). change (Z.of_nat 0) with 0 in Hs.
  destruct (mount_best _ _ _ _ _ _) as [b|]; [|done].
  destruct Hs as (Hb & Hsv & Hp & Hmax). split_and!; [done..|].
  intros m Hm Hsm Hpm. apply Nat.nlt_ge. intros Hlt.
  assert (mt_comps b `prefix_of` mt_comps m) as Hbm.
  { destruct (prefix_weak_total _ _ _ Hp Hpm) as [|[l E]]; [done|].
    rewrite E, length_app in Hlt. lia. }
  pose proof (path_comps_canonical (mt_target m)) as [Hg _ _].
  pose proof (render_prefix_lt _ _ Hg Hbm Hlt) as Hr.
  rewrite <- !path_norm_render, !(mw_norm _ Hwf) in Hr by done.
  specialize (Hmax m Hm Hsm Hpm). lia.
Qed.

Lemma route_unique mt p r r' : mounts_wf mt → route mt p r → route mt p r' → r = r'.
Proof.
  intros Hwf. destruct r as [b|], r' as [b'|]; cbn [route]; try naive_solver.
  intros (Hb & Hs & Hp & Hm) (Hb' & Hs' & Hp' & Hm'). f_equal.
  specialize (Hm b' Hb' Hs' Hp'). specialize (Hm' b Hb Hs Hp).
  assert (mt_comps b = mt_comps b') as E.
  { destruct (prefix_weak_total _ _ _ Hp Hp') as [[l E]|[l E]];
      rewrite E, length_app in Hm, Hm'; (assert (l = []) as -> by (destruct l; [done|cbn [length] in Hm, Hm'; lia]));
      by rewrite E, app_nil_r. }
  destruct Hb as [[i Hi]%list_elem_of_lookup Ha], Hb' as [[j Hj]%list_elem_of_lookup Ha'].
  assert (i = j) as -> by by eapply (mw_once _ Hwf). congruence.
Qed.

Definition mount_equiv mt mt' : Prop := ∀ m, mounted mt m ↔ mounted mt' m.

#[export] Instance mount_equiv_equivalence : Equivalence mount_equiv.
Proof.
  split.
  - by intros mt m.
  - intros mt mt' E m. by rewrite (E m).
  - intros mt1 mt2 mt3 E1 E2 m. by rewrite (E1 m).
Qed.

#[export] Instance route_proper : Proper (mount_equiv ==> eq ==> eq ==> iff) route.
Proof.
  intros mt mt' E p ? <- r ? <-. unfold route. destruct r as [b|].
  - rewrite (E b). by setoid_rewrite (E : ∀ m, mounted mt m ↔ mounted mt' m).
  - by setoid_rewrite (E : ∀ m, mounted mt m ↔ mounted mt' m).
Qed.

Lemma view_equiv mt mt' p : mounts_wf mt → mounts_wf mt' → mount_equiv mt mt' →
  vfs_mount_view_for_path mt p = vfs_mount_view_for_path mt' p.
Proof.
  intros Hwf Hwf' E. destruct p as [p|]; [|done].
  apply (route_unique mt' p); [done| |by apply view_route].
  rewrite <- E. by apply view_route.
Qed.

Lemma mounted_once mt m m' : mounts_wf mt → mounted mt m → mounted mt m' →
  mt_comps m = mt_comps m' → m = m'.
Proof.
  intros Hwf [[i Hi]%list_elem_of_lookup Ha] [[j Hj]%list_elem_of_lookup Ha'] E.
  assert (i = j) as -> by by eapply (mw_once _ Hwf). congruence.
Qed.

(** Filling a free slot, and clearing a used one. *)
Lemma set_mount mt (i : nat) old new : mounts_wf mt →
  rt_view mt !! i = Some old → mt_active old = false →
  mt_active new = true → path_norm (mt_target new) = mt_target new →
  (∀ m, mounted mt m → mt_comps m ≠ mt_comps new) →
  mounts_wf (rt_set mt (Z.of_nat i) new)
  ∧ ∀ m, mounted (rt_set mt (Z.of_nat i) new) m ↔ m = new ∨ mounted mt m.
Proof.
  intros [Hok Hnorm Honce] Hi Hold Hnew Hnn Hfresh.
  destruct (rt_set_ok mt i new Hok (lookup_lt_Some _ _ _ Hi)) as [Hok' Hv].
  pose proof (lookup_lt_Some _ _ _ Hi) as Hlt.
  assert (∀ m, mounted (rt_set mt (Z.of_nat i) new) m ↔ m = new ∨ mounted mt m) as Hm.
  { intros m. unfold mounted. rewrite Hv, !list_elem_of_lookup. split.
    - intros [[j Hj] Ha]. destruct (decide (j = i)) as [->|Hne].
      + rewrite list_lookup_insert_eq in Hj by done. left. congruence.
      + rewrite list_lookup_insert_ne in Hj by done. right. split; [by exists j|done].
    - intros [->|[[j Hj] Ha]].
      + split; [|done]. exists i. by apply list_lookup_insert_eq.
      + split; [|done]. exists j. rewrite list_lookup_insert_ne; [done|]. congruence. }
  split; [|done]. split; [done| |].
  - intros m [->|Hm']%Hm; [done|by apply Hnorm].
  - intros j k m m'. rewrite Hv. intros Hj Hk Ha Ha' E.
    assert (∀ j m, <[i:=new]> (rt_view mt) !! j = Some m → mt_active m = true →
      (j = i ∧ m = new) ∨ (rt_view mt !! j = Some m ∧ mounted mt m)) as Hcase.
    { intros j' m'' Hj' Ha''. destruct (decide (j' = i)) as [->|Hne].
      - rewrite list_lookup_insert_eq in Hj' by done. left. split; congruence.
      - rewrite list_lookup_insert_ne in Hj' by done. right. split; [done|]. split; [|done].
        by eapply list_elem_of_lookup_2. }
    destruct (Hcase j m Hj Ha) as [[-> ->]|[Hj' Hmm]], (Hcase k m' Hk Ha') as [[-> ->]|[Hk' Hmm']].
    + done.
    + by destruct (Hfresh m' Hmm').
    + by destruct (Hfresh m Hmm).
    + by apply (Honce j k m m').
Qed.

Lemma clear_mount mt (i : nat) old : mounts_wf mt →
  rt_view mt !! i = Some old → mt_active old = true →
  mounts_wf (rt_set mt (Z.of_nat i) zero_rec)
  ∧ ∀ m, mounted (rt_set mt (Z.of_nat i) zero_rec) m ↔ mounted mt m ∧ m ≠ old.
Proof.
  intros [Hok Hnorm Honce] Hi Hold. pose proof (lookup_lt_Some _ _ _ Hi) as Hlt.
  destruct (rt_set_ok mt i zero_rec Hok Hlt) as [Hok' Hv].
  assert (∀ j m, <[i:=zero_rec]> (rt_view mt) !! j = Some m → mt_active m = true →
    j ≠ i ∧ rt_view mt !! j = Some m) as Hcase.
  { intros j m Hj Ha. destruct (decide (j = i)) as [->|Hne].
    - rewrite list_lookup_insert_eq in Hj by done. by simplify_eq.
    - by rewrite list_lookup_insert_ne in Hj by done. }
  assert (∀ m, mounted (rt_set mt (Z.of_nat i) zero_rec) m ↔ mounted mt m ∧ m ≠ old) as Hm.
  { intros m. unfold mounted. rewrite Hv, !list_elem_of_lookup. split.
    - intros [[j Hj] Ha]. destruct (Hcase j m Hj Ha) as [Hne Hj'].
      split; [split; [by exists j|done]|]. intros ->. apply Hne. by eapply Honce.
    - intros [[[j Hj] Ha] Hne]. split; [|done]. exists j.
      rewrite list_lookup_insert_ne; [done|]. congruence. }
  split; [|done]. split; [done|by intros m [? _]%Hm; apply Hnorm|].
  intros j k m m'. rewrite Hv. intros Hj Hk Ha Ha' E.
  apply Hcase in Hj as [_ Hj]; [|done]. apply Hcase in Hk as [_ Hk]; [|done].
  by apply (Honce j k m m').
Qed.

(** The scan for a record mounted on a path. *)
Lemma scan_mounted mt tgt : mounts_wf mt →
  match rt_scan (λ m, mt_active m && vfs_path_equal (Some (mt_target m)) (Some (path_norm tgt))) mt 0 with
  | Some k => ∃ (i : nat) m, k = Z.of_nat i ∧ rt_view mt !! i = Some m ∧ mt_active m = true
                 ∧ mt_comps m = path_comps tgt
  | None => ∀ m, mounted mt m → mt_comps m ≠ path_comps tgt
  end.
Proof.
  intros Hwf. destruct (rt_scan _ mt 0) as [k|] eqn:Es.
  - apply (rt_scan_Some _ _ 0) in Es as (i & m & -> & _ & Hi & [Ha He]%andb_true_iff & _);
      [|apply Hwf].
    apply vfs_path_equal_comps in He. rewrite path_comps_norm in He. by exists i, m.
  - intros m [[i Hi]%list_elem_of_lookup Ha] E.
    pose proof (rt_scan_None _ _ 0 (mw_ok _ Hwf) Es i m ltac:(lia) Hi) as Hn. cbv beta in Hn.
    rewrite Ha in Hn. apply not_true_iff_false in Hn. apply Hn.
    apply andb_true_iff. split; [done|]. apply vfs_path_equal_comps. by rewrite path_comps_norm.
Qed.
End mounts.

Section mount_theorems.
Context {TB T TH N : Type} `{SCL : StrcmpSLaws} `{RTB : RecordTable vfs_backend_entry TB}
        `{RT : RecordTable vfs_mount_rec T} {RTL : RecordTableLaws vfs_mount_rec T}
        `{RTH : RecordTable vfs_open_handle TH}.
Variable set_mount_cover : N → cstr → bool → N * Z.
Implicit Types mt : T.

(** The record a registration writes. *)
Definition mount_record (tgt ft port : cstr) (flags : Z) : vfs_mount_rec :=
  MountRec (path_norm tgt) (copy_field ft VFS_BACKEND_FSTYPE_MAX)
    (copy_field port VFS_MOUNT_PORT_NAME_MAX) flags true.

Lemma copy_norm tgt : copy_field (path_norm tgt) VFS_PATH_MAX = path_norm tgt.
Proof.
  apply take_ge. rewrite path_norm_render.
  pose proof (render_short _ (path_comps_canonical tgt)). unfold VFS_PATH_MAX in *. lia.
Qed.

(** The slot a registration takes: a free record, or a new one at the end. *)
Lemma free_slot al mt mt1 slot : mounts_wf mt →
  match rt_scan (λ m, negb (mt_active m)) mt 0 with
  | Some i => (mt, Some i)
  | None =>
      match rt_push_zero al mt with
      | (REND_SUCCESS, mt1, idx) =>
          match rt_get mt1 idx with
          | None => (rt_pop_last mt1, None)
          | Some _ => (mt1, Some idx)
          end
      | (_, mt1, _) => (mt1, None)
      end
  end = (mt1, slot) →
  mounts_wf mt1 ∧ mount_equiv mt1 mt
  ∧ ∀ k, slot = Some k → ∃ (i : nat) old, k = Z.of_nat i ∧ rt_view mt1 !! i = Some old
                                   ∧ mt_active old = false.
Proof.
  intros Hwf. destruct (rt_scan _ mt 0) as [k|] eqn:Es.
  { intros [= <- <-]. split_and!; [done|done|]. intros ? [= <-].
    apply (rt_scan_Some _ _ 0) in Es as (i & m & -> & _ & Hi & Ha & _); [|apply Hwf].
    exists i, m. by apply negb_true_iff in Ha. }
  destruct (rt_push_zero al mt) as [[e t1] idx] eqn:Ep.
  destruct (rt_push_ok al mt e t1 idx (mw_ok _ Hwf) Ep) as (Hok1 & Hs & Hf).
  assert (rt_view t1 = rt_view mt ∨ rt_view t1 = rt_view mt ++ [zero_rec]) as Hv.
  { destruct (decide (e = REND_SUCCESS)); [right; by apply Hs|left; by apply Hf]. }
  assert (mount_equiv t1 mt) as Heq.
  { intros m. unfold mounted. destruct Hv as [-> | ->]; [done|]. rewrite elem_of_app.
    rewrite list_elem_of_singleton. split; [|tauto]. by intros [[?| ->] ?]. }
  assert (mounts_wf t1) as Hwf1.
  { split; [done|intros m Hm; apply Hwf; by apply Heq|].
    intros i j m m'. destruct Hv as [-> | ->]; [by apply (mw_once _ Hwf)|].
    rewrite !lookup_app_Some. intros [?|[_ Hi%list_elem_of_lookup_2]] [?|[_ Hj%list_elem_of_lookup_2]];
      [by apply (mw_once _ Hwf)|..].
    - apply list_elem_of_singleton in Hj. by subst.
    - apply list_elem_of_singleton in Hi. by subst.
    - apply list_elem_of_singleton in Hi. by subst. }
  destruct (decide (e = REND_SUCCESS)) as [->|Hne].
  2:{ intros E. assert (mt1 = t1 ∧ slot = None) as [-> ->] by (destruct e; by simplify_eq).
      done. }
  destruct Hs as [Hv1 ->]; [done|]. rewrite (rt_count_view mt) by apply Hwf.
  assert (rt_view t1 !! length (rt_view mt) = Some zero_rec) as Hl
    by (rewrite Hv1; by apply list_lookup_middle).
  rewrite (rt_get_view t1 _ _ Hok1 Hl). intros [= <- <-].
  split_and!; [done|done|]. intros ? [= <-]. by exists (length (rt_view mt)), zero_rec.
Qed.

Lemma register_spec al bs mt tgt ft flags cap bs' mt' r out : mounts_wf mt →
  vfs_mount_register_prepare al bs mt (Some tgt) (Some ft) flags cap = (bs', mt', r, out) →
  mounts_wf mt'
  ∧ (r = 1 → ∃ port, (vfs_backend_port_for_fstype al bs (Some ft)).2 = Some port
      ∧ (∀ m, mounted mt m → path_comps (mt_target m) ≠ path_comps tgt)
      ∧ (∀ m, mounted mt' m ↔ m = mount_record tgt ft port flags ∨ mounted mt m)
      ∧ mp_norm out = path_norm tgt)
  ∧ (r ≠ 1 → mount_equiv mt' mt)
  ∧ (r = 0 → ∃ m, mounted mt m ∧ path_comps (mt_target m) = path_comps tgt).
Proof.
  intros Hwf. unfold vfs_mount_register_prepare.
  destruct (Nat.eqb_spec cap 0).
  { intros [= <- <- <- <-]. done. }
  destruct (vfs_backend_port_for_fstype al bs (Some ft)) as [bs1 port] eqn:Eb. cbn [snd].
  destruct port as [port|]; [|by intros [= <- <- <- <-]].
  destruct (negb _ && _); [by intros [= <- <- <- <-]|].
  destruct (Nat.ltb_spec cap (length (path_norm tgt) + 1)); [by intros [= <- <- <- <-]|].
  cbv zeta. pose proof (scan_mounted mt tgt Hwf) as Hsc.
  destruct (rt_scan _ mt 0) as [k|] in Hsc |- *.
  { intros [= <- <- <- <-]. split_and!; [done|done|done|]. intros _.
    destruct Hsc as (i & m & -> & Hi & Ha & Hc). exists m. split; [|done].
    split; [by eapply list_elem_of_lookup_2|done]. }
  destruct (match rt_scan (λ m, negb (mt_active m)) mt 0 with Some i => _ | None => _ end)
    as [mt1 slot] eqn:Esl.
  destruct (free_slot al mt mt1 slot Hwf Esl) as (Hwf1 & Heq & Hslot).
  destruct slot as [k|]; [|by intros [= <- <- <- <-]].
  destruct (Hslot k eq_refl) as (i & old & -> & Hi & Hold).
  rewrite copy_norm. fold (mount_record tgt ft port flags).
  destruct (set_mount mt1 i old (mount_record tgt ft port flags) Hwf1 Hi Hold eq_refl)
    as [Hwf2 Hm2].
  { cbn [mount_record mt_target]. apply path_norm_norm. }
  { intros m Hm. cbn [mount_record mt_target]. rewrite path_comps_norm. by apply Hsc, Heq. }
  assert (strncpy_term (path_norm tgt) (cap - 1) = path_norm tgt) as Hn by (apply take_ge; lia).
  intros E. assert (mt' = rt_set mt1 (Z.of_nat i) (mount_record tgt ft port flags) ∧ r = 1
    ∧ mp_norm out = path_norm tgt) as (-> & -> & Hout).
  { destruct (_ =? 0) in E; simplify_eq; rewrite ?Hn; done. }
  split_and!; [done| |done|done]. intros _. exists port.
  split_and!; [done|done| |done]. intros m. by rewrite Hm2, (Heq m).
Qed.

Lemma unregister_spec ns mt handles tgt flags ns' mt' r : mounts_wf mt →
  vfs_mount_unregister set_mount_cover ns mt handles (Some tgt) flags = (ns', mt', r) →
  mounts_wf mt'
  ∧ (r = 0 → ∃ m, mounted mt m ∧ path_comps (mt_target m) = path_comps tgt
      ∧ (has flags LINUX_MNT_DETACH = true
         ∨ vfs_handle_busy_under_path handles (Some (path_norm tgt)) = false)
      ∧ ns' = (set_mount_cover ns (path_norm tgt) false).1
      ∧ ∀ m', mounted mt' m' ↔ mounted mt m' ∧ m' ≠ m)
  ∧ (r ≠ 0 → mt' = mt ∧ ns' = ns)
  ∧ (r = - LINUX_EINVAL ↔ ∀ m, mounted mt m → path_comps (mt_target m) ≠ path_comps tgt).
Proof.
  intros Hwf. unfold vfs_mount_unregister. cbv zeta.
  pose proof (scan_mounted mt tgt Hwf) as Hsc. destruct (rt_scan _ mt 0) as [k|] in Hsc |- *.
  2:{ intros [= <- <- <-]. done. }
  destruct Hsc as (i & m & -> & Hi & Ha & Hc).
  assert (mounted mt m) as Hm by (split; [by eapply list_elem_of_lookup_2|done]).
  destruct (negb _ && _) eqn:Eb.
  { intros [= <- <- <-]. split_and!; [done|done|done|]. split; [done|]. naive_solver. }
  destruct (clear_mount mt i m Hwf Hi Ha) as [Hwf' Hm'].
  intros [= <- <- <-]. split_and!; [done| |done|].
  - intros _. exists m. split_and!; [done|done| |done|done].
    apply andb_false_iff in Eb as [?%negb_false_iff|?]; tauto.
  - split; [done|]. naive_solver.
Qed.

(** C27. Routing by longest prefix: the mount that serves a path is active, has
    a port, has a target the path lies under component by component (so [/mnt2]
    is not under [/mnt]), and no other such mount has a longer target; if none
    is found, the path lies under no active mount. *)
Theorem mount_view_longest_prefix mt p : mounts_wf mt →
  match vfs_mount_view_for_path mt (Some p) with
  | None => ∀ m, mounted mt m → serving m = true →
      ¬ path_comps (mt_target m) `prefix_of` path_comps p
  | Some b => mounted mt b ∧ serving b = true
      ∧ path_comps (mt_target b) `prefix_of` path_comps p
      ∧ ∀ m, mounted mt m → serving m = true →
          path_comps (mt_target m) `prefix_of` path_comps p →
          (length (path_comps (mt_target m)) ≤ length (path_comps (mt_target b)))%nat
  end.
Proof. intros Hwf. apply (view_route mt p Hwf). Qed.

(** Mounting and unmounting: a registration that answers 1 makes its record
    the route of its target; unmounting it again succeeds when asked to detach
    (or when no open file is below), and every path is then routed as before
    the mount. *)
Theorem mount_unmount_roundtrip al bs mt tgt ft flags cap bs' mt1 out ns handles uflags :
  mounts_wf mt →
  vfs_mount_register_prepare al bs mt (Some tgt) (Some ft) flags cap = (bs', mt1, 1, out) →
  has uflags LINUX_MNT_DETACH = true
  ∨ vfs_handle_busy_under_path handles (Some (path_norm tgt)) = false →
  (∃ port, (vfs_backend_port_for_fstype al bs (Some ft)).2 = Some port
    ∧ (take 1 port ≠ [] →
       vfs_mount_view_for_path mt1 (Some tgt) = Some (mount_record tgt ft port flags)))
  ∧ ∃ mt2, vfs_mount_unregister set_mount_cover ns mt1 handles (Some tgt) uflags
             = ((set_mount_cover ns (path_norm tgt) false).1, mt2, 0)
    ∧ mounts_wf mt2
    ∧ ∀ q, vfs_mount_view_for_path mt2 q = vfs_mount_view_for_path mt q.
Proof.
  intros Hwf Hr Hbusy.
  destruct (register_spec al bs mt tgt ft flags cap bs' mt1 1 out Hwf Hr) as (Hwf1 & H1 & _ & _).
  destruct (H1 eq_refl) as (port & Hport & Hfresh & Hm1 & _).
  set (new := mount_record tgt ft port flags) in *.
  assert (path_comps (mt_target new) = path_comps tgt) as Hc by apply path_comps_norm.
  assert (mounted mt1 new) as Hnew by (apply Hm1; by left). split.
  - exists port. split; [done|]. intros Hp. fold new.
    apply (route_unique mt1 tgt); [done|by apply view_route|]. cbn [route]. split_and!; [done| | |].
    + unfold serving, new, mount_record. cbn [mt_active mt_backend_port andb].
      unfold copy_field, strncpy_term. by destruct port.
    + by rewrite Hc.
    + intros m _ _ Hpre. rewrite Hc. by apply prefix_length.
  - destruct (vfs_mount_unregister set_mount_cover ns mt1 handles (Some tgt) uflags)
      as [[ns2 mt2] r2] eqn:Eu.
    destruct (unregister_spec ns mt1 handles tgt uflags ns2 mt2 r2 Hwf1 Eu) as (Hwf2 & H0 & Hne & Hin).
    assert (r2 = 0) as ->.
    { unfold vfs_mount_unregister in Eu. pose proof (scan_mounted mt1 tgt Hwf1) as Hsc.
      destruct (rt_scan _ mt1 0) as [k|] in Hsc, Eu; [|by destruct (Hsc new)].
      cbv zeta in Eu. destruct (negb _ && _) eqn:Eb in Eu; [|by simplify_eq].
      apply andb_true_iff in Eb as [?%negb_true_iff ?]. destruct Hbusy; congruence. }
    destruct (H0 eq_refl) as (m & Hm & Hmc & _ & -> & Hm2).
    assert (m = new) as -> by (apply (mounted_once mt1); [done..|congruence]).
    exists mt2. split_and!; [done|done|]. intros q. apply view_equiv; [done|done|].
    intros m. rewrite Hm2, Hm1. split; [tauto|]. intros Hm'. split; [by right|].
    intros ->. by apply (Hfresh new).
Qed.
End mount_theorems.

(** ** A registry, a mount and its routes *)

Module MountDemo.
Import ListTable.
Definition al : alloc_oracle := λ _, true.
Definition bs0 : backend_state (list vfs_backend_entry) := BackendState [] None None 0 false.
Definition bs1 := (vfs_backend_register al bs0 (Some (str "vfs_ramfs_backend_port"))
                     (Some (str "ramfs")) 2 VFS_BACKEND_REG_OVERLAY).1.
Definition mount_on (mt : list vfs_mount_rec) (tgt : string) :=
  vfs_mount_register_prepare al bs1 mt (Some (str tgt)) (Some (str "ramfs")) 0 256.
Definition mt1 : list vfs_mount_rec := (mount_on [] "/mnt").1.1.2.
Definition mt2 : list vfs_mount_rec := (mount_on mt1 "/mnt/usb").1.1.2.
Definition cover (ns : unit) (p : cstr) (c : bool) : unit * Z := (ns, 0).

Lemma wf_nil : mounts_wf ([] : list vfs_mount_rec).
Proof. split; cbn; [done|by intros m [[]%not_elem_of_nil _]|done]. Qed.

Lemma mount_on_wf mt tgt : mounts_wf mt → mounts_wf (mount_on mt tgt).1.1.2.
Proof.
  intros Hwf. unfold mount_on.
  destruct (vfs_mount_register_prepare _ _ _ _ _ _ _) as [[[bs' mt'] r] out] eqn:E.
  by apply (register_spec al bs1 mt _ _ _ _ _ _ _ _ Hwf) in E as [? _].
Qed.

Lemma mounts2_wf : mounts_wf mt2.
Proof. apply mount_on_wf, mount_on_wf, wf_nil. Qed.

Example routes :
  (λ p, mt_target <$> vfs_mount_view_for_path mt2 (Some (str p)))
    <$> ["/mnt/usb/a"; "/mnt/x"; "/mnt2"; "/mnt"; "/"]%string
  = [Some (str "/mnt/usb"); Some (str "/mnt"); None; Some (str "/mnt"); None].
Proof. vm_compute. reflexivity. Qed.

Lemma mount_view_longest_prefix_witness :
  match vfs_mount_view_for_path mt2 (Some (str "/mnt/usb/a")) with
  | None => False
  | Some b => path_comps (mt_target b) `prefix_of` path_comps (str "/mnt/usb/a")
  end.
Proof.
  pose proof (mount_view_longest_prefix mt2 (str "/mnt/usb/a") mounts2_wf) as H.
  destruct (vfs_mount_view_for_path mt2 (Some (str "/mnt/usb/a"))) as [b|] eqn:E.
  - exact (proj1 (proj2 (proj2 H))).
  - vm_compute in E. discriminate E.
Defined.

Lemma mount_unmount_roundtrip_witness :
  ∃ mt', vfs_mount_unregister cover tt mt2 ([] : list vfs_open_handle)
           (Some (str "/mnt/usb")) 0 = (tt, mt', 0)
    ∧ mounts_wf mt'
    ∧ ∀ q, vfs_mount_view_for_path mt' q = vfs_mount_view_for_path mt1 q.
Proof.
  apply (mount_unmount_roundtrip cover al bs1 mt1 (str "/mnt/usb") (str "ramfs") 0 256
           (mount_on mt1 "/mnt/usb").1.1.1 mt2 (mount_on mt1 "/mnt/usb").2 tt [] 0).
  - apply mount_on_wf, wf_nil.
  - vm_compute. reflexivity.
  - right. vm_compute. reflexivity.
Defined.
End MountDemo.
