(* ===== verification/Namespace.v ===== *)
(** * The directory tree ([servers/fs/vfs_namespace.c], [servers/fs/vfs_root.c])

    The namespace is a tree of nodes linked by [parent], [first_child] and
    [next_sibling] pointers: the root is a static variable, the others are
    records of a growable table that never move.  A node pointer is [NRoot] or
    the index of a record.  Path operations come in two halves: [prepare]
    checks and picks the backend to ask, [commit] changes the tree after the
    backend has answered.  What a commit asks of other components (dropping
    cached pages, undoing a backend operation) is the list of its effects. *)

From stdpp Require Import base numbers list strings gmap option.
From Stdlib Require Import Ascii.
From S2P Require Import Prelude PageSlice SliceTable VfsPath VfsInode VfsHandle Cpio Mount.

Definition LINUX_EXDEV : Z := 18.
Definition LINUX_EISDIR : Z := 21.
Definition LINUX_EROFS : Z := 30.

(** Mode words of new nodes: [0755 | S_IFDIR] and [0644 | S_IFREG]. *)
Definition NS_DIR_MODE : Z := Z.lor 0x1ed 0x4000.
Definition NS_FILE_MODE : Z := Z.lor 0x1a4 0x8000.
Definition NS_NAME_MAX : nat := 64.
Definition VFS_NS_PATH_DEPTH_MAX : nat := 64.

Inductive nref : Type :=
  | NRoot
  | NNode (i : nat).

#[global] Instance nref_eq_dec : EqDecision nref.
Proof. solve_decision. Defined.

Record vfs_ns_node : Type := NsNode {
  n_name : cstr;
  n_parent : ptr nref;
  n_first_child : ptr nref;
  n_next_sibling : ptr nref;
  n_mode : Z;
  n_is_dir : bool;
  n_deleted : bool;
  n_in_cpio : bool;
  n_overlay : bool;
  n_is_symlink : bool;
  n_mount_covered : bool;
}.

#[global] Instance zero_ns_node : Zeroed vfs_ns_node :=
  NsNode [] None None None 0 false false false false false false.

(** Assigning fields of a node. *)
Definition with_first n (p : ptr nref) : vfs_ns_node :=
  NsNode (n_name n) (n_parent n) p (n_next_sibling n) (n_mode n) (n_is_dir n)
    (n_deleted n) (n_in_cpio n) (n_overlay n) (n_is_symlink n) (n_mount_covered n).
Definition with_next n (p : ptr nref) : vfs_ns_node :=
  NsNode (n_name n) (n_parent n) (n_first_child n) p (n_mode n) (n_is_dir n)
    (n_deleted n) (n_in_cpio n) (n_overlay n) (n_is_symlink n) (n_mount_covered n).
Definition with_name_parent n (nm : cstr) (p : ptr nref) : vfs_ns_node :=
  NsNode nm p (n_first_child n) (n_next_sibling n) (n_mode n) (n_is_dir n)
    (n_deleted n) (n_in_cpio n) (n_overlay n) (n_is_symlink n) (n_mount_covered n).
(** Everything but the name and the links. *)
Definition with_attrs n (mode : Z) (is_dir deleted in_cpio overlay is_symlink covered : bool) :=
  NsNode (n_name n) (n_parent n) (n_first_child n) (n_next_sibling n) mode is_dir
    deleted in_cpio overlay is_symlink covered.

Record ns_state (T : Type) : Type := NsState {
  vfs_ns_root : vfs_ns_node;
  vfs_ns_node_tab : T;
  vfs_ns_initialized : bool;
}.
Arguments NsState {T} _ _ _.
Arguments vfs_ns_root {T} _.
Arguments vfs_ns_node_tab {T} _.
Arguments vfs_ns_initialized {T} _.

Inductive ns_effect : Type :=
  | PageCacheDrop (path : cstr)
  | PageCacheReset
  | BackendUnlink (port path : cstr).

(** What a prepare step hands to the caller: the port to ask, the path to ask
    it about, the mode, and whether a commit has to follow. *)
Record ns_prep : Type := NsPrep {
  pr_port : ptr cstr;
  pr_path : cstr;
  pr_path2 : cstr;
  pr_mode : Z;
  pr_need_backend : bool;
  pr_need_commit : bool;
}.
Definition no_prep : ns_prep := NsPrep None [] [] 0 false false.

Section ns_ops.
Context {T TB TM : Type} `{SC : StrcmpS} `{RT : RecordTable vfs_ns_node T}
        `{RTB : RecordTable vfs_backend_entry TB} `{RTM : RecordTable vfs_mount_rec TM}.
Implicit Types s : ns_state T.

Definition node_at s (r : nref) : ptr vfs_ns_node :=
  match r with
  | NRoot => Some (vfs_ns_root s)
  | NNode i => rt_get (vfs_ns_node_tab s) (Z.of_nat i)
  end.
Definition node_set s (r : nref) (n : vfs_ns_node) : ns_state T :=
  match r with
  | NRoot => NsState n (vfs_ns_node_tab s) (vfs_ns_initialized s)
  | NNode i => NsState (vfs_ns_root s) (rt_set (vfs_ns_node_tab s) (Z.of_nat i) n)
                 (vfs_ns_initialized s)
  end.
(** A dereference of a pointer the code has checked. *)
Definition node s (r : nref) : vfs_ns_node := default zero_rec (node_at s r).

Definition vfs_ns_name_cmp (a b : cstr) : Z := strcmp_s a b NS_NAME_MAX.

Definition vfs_ns_child_visible (parent child : vfs_ns_node) (allow_deleted : bool) : bool :=
  if negb allow_deleted && n_deleted child then false
  else if n_mount_covered parent && n_in_cpio child && negb (n_overlay child) then false
  else true.

Definition vfs_ns_alloc_node (al : alloc_oracle) s (parent : ptr nref) (name : cstr)
    (is_dir : bool) : ns_state T * ptr nref :=
  match parent with
  | None => (s, None)
  | Some par =>
      if is_nul name 0 then (s, None)
      else
        match rt_push_zero al (vfs_ns_node_tab s) with
        | (REND_SUCCESS, t1, idx) =>
            match rt_get t1 idx with
            | None => (NsState (vfs_ns_root s) (rt_pop_last t1) (vfs_ns_initialized s), None)
            | Some _ =>
                (NsState (vfs_ns_root s)
                   (rt_set t1 idx
                      (NsNode (strncpy_term name (NS_NAME_MAX - 1)) (Some par) None None
                         (if is_dir then NS_DIR_MODE else NS_FILE_MODE) is_dir
                         false false false false false))
                   (vfs_ns_initialized s),
                 Some (NNode (Z.to_nat idx)))
            end
        | (_, t1, _) => (NsState (vfs_ns_root s) t1 (vfs_ns_initialized s), None)
        end
  end.

(** The parent chain of a node below the root; [None] past the depth limit. *)
Fixpoint parent_chain s (node : ptr nref) (chain : list nref) (depth : nat)
  : option (list nref) :=
  match node with
  | None => Some chain
  | Some NRoot => Some chain
  | Some r =>
      match depth with
      | O => None
      | S depth' => parent_chain s (match node_at s r with Some n => n_parent n | None => None end)
                      (r :: chain) depth'
      end
  end.

Fixpoint join_names s (cur : cstr) (chain : list nref) : option cstr :=
  match chain with
  | [] => Some cur
  | r :: chain' =>
      match vfs_path_join (Some cur) (Some (n_name (node s r))) VFS_PATH_MAX with
      | None => None
      | Some next => join_names s (strncpy_term next (VFS_PATH_MAX - 1)) chain'
      end
  end.

Definition vfs_ns_path_of s (nd : ptr nref) (out_cap : nat) : option cstr :=
  match nd with
  | None => None
  | Some r =>
      if (out_cap <? 2)%nat then None
      else if decide (r = NRoot) then Some [slash]
      else
        match parent_chain s nd [] VFS_NS_PATH_DEPTH_MAX with
        | None => None
        | Some chain => (λ p, strncpy_term p (out_cap - 1)) <$> join_names s [slash] chain
        end
  end.

(** ** Sibling lists

    [vfs_ns_node_t **cursor]: the [first_child] field of a node or the
    [next_sibling] field of one. *)
Inductive cursor : Type :=
  | FirstOf (r : nref)
  | NextOf (r : nref).

Definition cur_get s (c : cursor) : ptr nref :=
  match c with
  | FirstOf r => n_first_child (node s r)
  | NextOf r => n_next_sibling (node s r)
  end.
Definition cur_set s (c : cursor) (p : ptr nref) : ns_state T :=
  match c with
  | FirstOf r => node_set s r (with_first (node s r) p)
  | NextOf r => node_set s r (with_next (node s r) p)
  end.

(** No list is longer than the table. *)
Definition sib_fuel s : nat := S (Z.to_nat (rt_count (vfs_ns_node_tab s))).

(** The insertion point of [vfs_ns_link_child]; [None] for the early return
    on an equal name. *)
Fixpoint link_walk s (c : cursor) (name : cstr) (fuel : nat) : option cursor :=
  match fuel with
  | O => None
  | S fuel' =>
      match cur_get s c with
      | None => Some c
      | Some r =>
          let cmp := vfs_ns_name_cmp (n_name (node s r)) name in
          if cmp =? 0 then None
          else if 0 <? cmp then Some c
          else link_walk s (NextOf r) name fuel'
      end
  end.

Definition vfs_ns_link_child s (parent child : nref) : ns_state T :=
  match link_walk s (FirstOf parent) (n_name (node s child)) (sib_fuel s) with
  | None => s
  | Some c =>
      let s1 := node_set s child (with_next (node s child) (cur_get s c)) in
      cur_set s1 c (Some child)
  end.

Fixpoint find_walk s (child : ptr nref) (name : cstr) (fuel : nat) : ptr nref :=
  match fuel with
  | O => None
  | S fuel' =>
      match child with
      | None => None
      | Some r =>
          if vfs_ns_name_cmp (n_name (node s r)) name =? 0 then Some r
          else find_walk s (n_next_sibling (node s r)) name fuel'
      end
  end.

Definition vfs_ns_find_child s (parent : nref) (name : cstr) (allow_deleted : bool) : ptr nref :=
  match find_walk s (n_first_child (node s parent)) name (sib_fuel s) with
  | None => None
  | Some r =>
      if vfs_ns_child_visible (node s parent) (node s r) allow_deleted then Some r else None
  end.

(** The copy loop into [component[64]]. *)
Fixpoint component_of (n : nat) (cursor : cstr) : cstr :=
  match n, cursor with
  | S n', c :: rest => if decide (c = slash) then [] else c :: component_of n' rest
  | _, _ => []
  end.

(** [cursor += i; if ( *cursor == '/') cursor++]. *)
Definition after_component (cursor component : cstr) : cstr :=
  let rest := drop (length component) cursor in
  if is_char rest 0 slash then drop 1 rest else rest.

Fixpoint lookup_walk s (nd : nref) (cursor : cstr) (allow_deleted : bool) (fuel : nat)
  : ptr nref :=
  match fuel with
  | O => None
  | S fuel' =>
      if is_nul cursor 0 then Some nd
      else
        let component := component_of (NS_NAME_MAX - 1) cursor in
        if is_nul component 0 then None
        else
          match vfs_ns_find_child s nd component allow_deleted with
          | None => None
          | Some next => lookup_walk s next (after_component cursor component) allow_deleted fuel'
          end
  end.

Definition vfs_ns_lookup_node s (path : ptr cstr) (allow_deleted : bool) : ptr nref :=
  match path with
  | None => None
  | Some path =>
      let norm := path_norm path in
      if vfs_path_is_root (Some norm) then Some NRoot
      else lookup_walk s NRoot (drop 1 norm) allow_deleted (length norm)
  end.

Definition vfs_ns_ensure_child (al : alloc_oracle) s (parent : nref) (name : cstr)
    (is_dir : bool) : ns_state T * ptr nref :=
  match vfs_ns_find_child s parent name true with
  | Some child =>
      let n := node s child in
      (node_set s child
         (with_attrs n (n_mode n) (if is_dir then true else n_is_dir n) false
            (n_in_cpio n) (n_overlay n) (n_is_symlink n) (n_mount_covered n)), Some child)
  | None =>
      match vfs_ns_alloc_node al s (Some parent) name is_dir with
      | (s1, None) => (s1, None)
      | (s1, Some child) => (vfs_ns_link_child s1 parent child, Some child)
      end
  end.

Fixpoint ensure_walk (al : alloc_oracle) s (nd : nref) (cursor : cstr) (is_dir : bool)
    (fuel : nat) : ns_state T * ptr nref :=
  match fuel with
  | O => (s, None)
  | S fuel' =>
      if is_nul cursor 0 then (s, Some nd)
      else
        let component := component_of (NS_NAME_MAX - 1) cursor in
        let last := is_nul (drop (length component) cursor) 0 in
        match vfs_ns_ensure_child al s nd component (if last then is_dir else true) with
        | (s1, None) => (s1, None)
        | (s1, Some nd1) => ensure_walk al s1 nd1 (after_component cursor component) is_dir fuel'
        end
  end.

Definition vfs_ns_ensure_path_nodes (al : alloc_oracle) s (path : cstr) (is_dir : bool)
  : ns_state T * ptr nref :=
  let norm := path_norm path in
  if vfs_path_is_root (Some norm) then (s, Some NRoot)
  else ensure_walk al s NRoot (drop 1 norm) is_dir (length norm).

Definition vfs_ns_check_parent_writable s (cred : vfs_req_cred) (path : cstr) : Z :=
  match vfs_path_parent (Some path) VFS_PATH_MAX with
  | None => - LINUX_EINVAL
  | Some parent =>
      if vfs_path_is_root (Some parent)
      then vfs_perm_check_mode_request cred (n_mode (vfs_ns_root s)) VFS_PERM_W
      else
        match vfs_ns_lookup_node s (Some parent) false with
        | None => - LINUX_ENOENT
        | Some r =>
            if negb (n_is_dir (node s r)) then - LINUX_ENOENT
            else vfs_perm_check_mode_request cred (n_mode (node s r)) VFS_PERM_W
        end
  end.

Definition vfs_ns_backend_port (bs : backend_state TB) (mt : TM) (path : cstr) : ptr cstr :=
  match vfs_backend_port_for_path bs mt (Some path) with
  | None => None
  | Some port => if is_nul port 0 then None else Some port
  end.

(** ** Building the tree from the catalogue *)

(** The context of the visit: the tree and [vfs_ns_populate_failed]. *)
Definition vfs_ns_populate_cb (al : alloc_oracle) (path : cstr) (st : cpio_rofs_stat)
    (ctx : ns_state T * bool) : bool * (ns_state T * bool) :=
  let '(s, failed) := ctx in
  if vfs_path_is_root (Some path) then (true, (s, failed))
  else
    match vfs_ns_ensure_path_nodes al s path (st_is_dir st) with
    | (s1, None) => (false, (s1, true))
    | (s1, Some r) =>
        let n := node s1 r in
        (true,
         (node_set s1 r
            (with_attrs n
               (if negb (st_mode st =? 0) then st_mode st
                else if st_is_dir st then NS_DIR_MODE else NS_FILE_MODE)
               (st_is_dir st) false true (n_overlay n) (st_is_symlink st)
               (n_mount_covered n)),
          failed))
    end.

(** Depth-first; the recursion depth is bounded by the table. *)
Fixpoint count_live s (fuel : nat) (nd : nref) : Z :=
  match fuel with
  | O => 0
  | S fuel' =>
      let fix siblings (n : nat) (child : ptr nref) : Z :=
        match n, child with
        | S n', Some r => count_live s fuel' r + siblings n' (n_next_sibling (node s r))
        | _, _ => 0
        end in
      (if negb (bool_decide (nd = NRoot)) && negb (n_deleted (node s nd)) then 1 else 0)
      + siblings (sib_fuel s) (n_first_child (node s nd))
  end.

Definition vfs_ns_count_live_nodes s (nd : nref) : Z := u32 (count_live s (sib_fuel s) nd).

Definition vfs_namespace_reset (al : alloc_oracle) (mt : TM)
  : ns_state T * TM * list ns_effect :=
  (NsState (NsNode [] None None None NS_DIR_MODE true false false false false false)
     (rt_init al 32).2 false,
   vfs_mount_reset al mt,
   [PageCacheReset]).

Definition vfs_namespace_init {TC : Type} `{RTC : RecordTable cpio_rofs_entry TC}
    (al : alloc_oracle) s (mt : TM) (cp : cpio_rofs TC)
  : error_t * ns_state T * TM * list ns_effect :=
  if vfs_ns_initialized s then (REND_SUCCESS, s, mt, [])
  else
    let '(s0, mt0, eff) := vfs_namespace_reset al mt in
    let '(s1, failed) := cpio_rofs_visit (Some (vfs_ns_populate_cb al)) cp (s0, false) in
    if failed : bool then (E_RENDEZVOS, s1, mt0, eff)
    else (REND_SUCCESS, NsState (vfs_ns_root s1) (vfs_ns_node_tab s1) true, mt0, eff).

Definition vfs_namespace_count s : Z := vfs_ns_count_live_nodes s NRoot.

(** ** Lookup *)

(** Result code, inode when it is known, port and path to ask otherwise. *)
Definition vfs_namespace_lookup_prepare s (bs : backend_state TB) (mt : TM) (path : ptr cstr)
    (be_path_cap : nat) : Z * vfs_inode * ptr cstr * cstr :=
  match path with
  | None => (- LINUX_EINVAL, zero_rec, None, [])
  | Some path =>
      if (be_path_cap =? 0)%nat then (- LINUX_EINVAL, zero_rec, None, [])
      else
        let norm := path_norm path in
        if vfs_path_is_root (Some norm)
        then (0, vfs_inode_init_synthetic_root, None, [])
        else
          match vfs_mount_view_for_path mt (Some norm) with
          | Some view =>
              if (be_path_cap <? length norm + 1)%nat
              then (- LINUX_ENAMETOOLONG, zero_rec, None, [])
              else (1, zero_rec, Some (mt_backend_port view), strncpy_term norm (be_path_cap - 1))
          | None =>
              match vfs_ns_lookup_node s (Some norm) false with
              | None => (- LINUX_ENOENT, zero_rec, None, [])
              | Some r =>
                  match vfs_ns_path_of s (Some r) VFS_PATH_MAX with
                  | None => (- LINUX_ENAMETOOLONG, zero_rec, None, [])
                  | Some path_buf =>
                      if (be_path_cap <? length path_buf + 1)%nat
                      then (- LINUX_ENAMETOOLONG, zero_rec, None, [])
                      else
                        let be_path := strncpy_term path_buf (be_path_cap - 1) in
                        let ask port :=
                          match port with
                          | None => (- LINUX_ENXIO, zero_rec, None, be_path)
                          | Some p => (1, zero_rec, Some p, be_path)
                          end in
                        if n_overlay (node s r) then ask (vfs_backend_overlay_port bs)
                        else if n_in_cpio (node s r) then ask (vfs_backend_root_port bs)
                        else (- LINUX_ENOENT, zero_rec, None, be_path)
                  end
              end
          end
  end.

(** [backend_lookup] is the answer of the backend asked. *)
Definition vfs_namespace_lookup (backend_lookup : ptr cstr → cstr → option vfs_inode) s
    (bs : backend_state TB) (mt : TM) (path : ptr cstr) : Z * vfs_inode :=
  let '(prep, out, port, be_path) :=
    vfs_namespace_lookup_prepare s bs mt path VFS_PATH_MAX in
  if prep <=? 0 then (prep, out)
  else
    match backend_lookup port be_path with
    | Some ino => (0, ino)
    | None => (- LINUX_ENOENT, out)
    end.

(** ** Directories and files *)

Definition vfs_namespace_mkdir_prepare s (cred : vfs_req_cred) (bs : backend_state TB) (mt : TM)
    (path : ptr cstr) (mode : Z) (norm_cap : nat) : Z * ns_prep :=
  match path with
  | None => (- LINUX_EINVAL, no_prep)
  | Some path =>
      if (norm_cap =? 0)%nat then (- LINUX_EINVAL, no_prep)
      else
        let norm := path_norm path in
        if (norm_cap <? length norm + 1)%nat then (- LINUX_ENAMETOOLONG, no_prep)
        else
          let norm_out := strncpy_term norm (norm_cap - 1) in
          let out := NsPrep None norm_out [] 0 false false in
          if vfs_path_is_root (Some norm) then (- LINUX_EEXIST, out)
          else
            match vfs_ns_backend_port bs mt norm with
            | None => (- LINUX_ENXIO, out)
            | Some port =>
                match vfs_mount_view_for_path mt (Some norm) with
                | Some _ => (1, NsPrep (Some port) norm_out [] mode true false)
                | None =>
                    let exists_ :=
                      match vfs_ns_lookup_node s (Some norm) true with
                      | Some r => negb (n_deleted (node s r))
                      | None => false
                      end in
                    if exists_ then (- LINUX_EEXIST, out)
                    else
                      let ret := vfs_ns_check_parent_writable s cred norm in
                      if ret <? 0 then (ret, out)
                      else (1, NsPrep (Some port) norm_out [] mode true true)
                end
            end
  end.

(** The undo of a commit that has no memory for its nodes. *)
Definition undo_create (bs : backend_state TB) (mt : TM) (asked path : cstr) : list ns_effect :=
  match vfs_ns_backend_port bs mt asked with
  | Some port => [BackendUnlink port path]
  | None => []
  end.

Definition vfs_namespace_mkdir_commit (al : alloc_oracle) s (bs : backend_state TB) (mt : TM)
    (norm : ptr cstr) (mode : Z) : ns_state T * Z * list ns_effect :=
  match norm with
  | None => (s, - LINUX_EINVAL, [])
  | Some norm =>
      match vfs_ns_ensure_path_nodes al s norm true with
      | (s1, None) => (s1, - LINUX_ENOMEM, undo_create bs mt norm norm)
      | (s1, Some r) =>
          let n := node s1 r in
          (node_set s1 r
             (with_attrs n (Z.lor (Z.land mode 0x1ff) 0x4000) true false false true
                (n_is_symlink n) (n_mount_covered n)), 0, [])
      end
  end.

Definition vfs_namespace_create_prepare s (cred : vfs_req_cred) (bs : backend_state TB) (mt : TM)
    (path : ptr cstr) (mode : Z) (norm_cap : nat) : Z * ns_prep :=
  match path with
  | None => (- LINUX_EINVAL, no_prep)
  | Some path =>
      if (norm_cap =? 0)%nat then (- LINUX_EINVAL, no_prep)
      else
        let norm := path_norm path in
        if (norm_cap <? length norm + 1)%nat then (- LINUX_ENAMETOOLONG, no_prep)
        else
          let norm_out := strncpy_term norm (norm_cap - 1) in
          let out := NsPrep None norm_out [] 0 false false in
          match vfs_ns_backend_port bs mt norm with
          | None => (- LINUX_ENXIO, out)
          | Some port =>
              match vfs_mount_view_for_path mt (Some norm) with
              | Some _ => (1, NsPrep (Some port) norm_out [] mode true false)
              | None =>
                  let create :=
                    let ret := vfs_ns_check_parent_writable s cred norm in
                    if ret <? 0 then (ret, out)
                    else (1, NsPrep (Some port) norm_out [] mode true true) in
                  match vfs_ns_lookup_node s (Some norm) true with
                  | None => create
                  | Some r =>
                      if n_deleted (node s r) then create
                      else if n_is_dir (node s r) then (- LINUX_EISDIR, out)
                      else
                        match vfs_ns_path_of s (Some r) VFS_PATH_MAX with
                        | None => (- LINUX_ENAMETOOLONG, out)
                        | Some path_buf =>
                            if (norm_cap <? length path_buf + 1)%nat
                            then (- LINUX_ENAMETOOLONG, out)
                            else
                              let norm_out := strncpy_term path_buf (norm_cap - 1) in
                              let out := NsPrep None norm_out [] 0 false false in
                              let ask port :=
                                match port with
                                | None => (- LINUX_ENXIO, out)
                                | Some _ => (2, NsPrep port norm_out [] mode true false)
                                end in
                              if n_overlay (node s r) then ask (vfs_backend_overlay_port bs)
                              else if n_in_cpio (node s r) then ask (vfs_backend_root_port bs)
                              else (- LINUX_ENOENT, out)
                        end
                  end
              end
          end
  end.

Definition vfs_namespace_create_commit (al : alloc_oracle) s (bs : backend_state TB) (mt : TM)
    (norm : ptr cstr) (mode : Z) : ns_state T * Z * list ns_effect :=
  match norm with
  | None => (s, - LINUX_EINVAL, [])
  | Some norm =>
      match vfs_ns_ensure_path_nodes al s norm false with
      | (s1, None) => (s1, - LINUX_ENOMEM, undo_create bs mt norm norm)
      | (s1, Some r) =>
          let n := node s1 r in
          (node_set s1 r
             (with_attrs n (Z.lor (Z.land mode 0x1ff) 0x8000) false false false true
                (n_is_symlink n) (n_mount_covered n)), 0, [])
      end
  end.

Definition vfs_namespace_unlink_prepare s (cred : vfs_req_cred) (bs : backend_state TB) (mt : TM)
    (path : ptr cstr) (norm_cap : nat) : Z * ns_prep :=
  match path with
  | None => (- LINUX_EINVAL, no_prep)
  | Some path =>
      if (norm_cap =? 0)%nat then (- LINUX_EINVAL, no_prep)
      else
        let norm := path_norm path in
        if (norm_cap <? length norm + 1)%nat then (- LINUX_ENAMETOOLONG, no_prep)
        else
          let norm_out := strncpy_term norm (norm_cap - 1) in
          let out := NsPrep None norm_out [] 0 false false in
          if vfs_path_is_root (Some norm) then (- LINUX_EINVAL, out)
          else
            match vfs_ns_lookup_node s (Some norm) false with
            | None => (- LINUX_ENOENT, out)
            | Some r =>
                if n_is_dir (node s r) then (- LINUX_EISDIR, out)
                else
                  let ret := vfs_perm_check_mode_request cred (n_mode (node s r)) VFS_PERM_W in
                  if ret <? 0 then (ret, out)
                  else if n_overlay (node s r) then
                    match vfs_ns_backend_port bs mt norm with
                    | None => (- LINUX_ENXIO, out)
                    | Some port => (1, NsPrep (Some port) norm_out [] 0 true true)
                    end
                  else (0, NsPrep None norm_out [] 0 false true)
            end
  end.

Definition vfs_namespace_unlink_commit s (norm : ptr cstr) : ns_state T * Z * list ns_effect :=
  match norm with
  | None => (s, - LINUX_EINVAL, [])
  | Some norm =>
      match vfs_ns_lookup_node s (Some norm) false with
      | None => (s, - LINUX_ENOENT, [])
      | Some r =>
          let n := node s r in
          (node_set s r
             (with_attrs n (n_mode n) (n_is_dir n) true (n_in_cpio n) false (n_is_symlink n)
                (n_mount_covered n)), 0, [PageCacheDrop norm])
      end
  end.

(** The loop of [vfs_namespace_readdir_prepare] over the visible children. *)
Fixpoint readdir_walk s (dir : nref) (child : ptr nref) (i index : Z) (fuel : nat) : ptr nref :=
  match fuel with
  | O => None
  | S fuel' =>
      match child with
      | None => None
      | Some r =>
          if negb (vfs_ns_child_visible (node s dir) (node s r) false)
          then readdir_walk s dir (n_next_sibling (node s r)) i index fuel'
          else if i =? index then Some r
          else readdir_walk s dir (n_next_sibling (node s r)) (i + 1) index fuel'
      end
  end.

Definition vfs_namespace_readdir_prepare s (mt : TM) (dirpath : ptr cstr) (index : Z)
    (be_path_cap : nat) : Z * option vfs_dirent * ptr cstr * cstr :=
  match dirpath with
  | None => (- LINUX_EINVAL, None, None, [])
  | Some dirpath =>
      if (be_path_cap =? 0)%nat then (- LINUX_EINVAL, None, None, [])
      else
        let norm := path_norm dirpath in
        match vfs_mount_view_for_path mt (Some norm) with
        | Some view =>
            if (be_path_cap <? length norm + 1)%nat then (- LINUX_ENAMETOOLONG, None, None, [])
            else (2, None, Some (mt_backend_port view), strncpy_term norm (be_path_cap - 1))
        | None =>
            match vfs_ns_lookup_node s (Some norm) false with
            | None => (- LINUX_ENOENT, None, None, [])
            | Some dir =>
                if negb (n_is_dir (node s dir)) then (- LINUX_ENOTDIR, None, None, [])
                else if index =? 0 then
                  match vfs_ns_path_of s (Some dir) VFS_PATH_MAX with
                  | None => (- LINUX_ENAMETOOLONG, None, None, [])
                  | Some path_buf =>
                      (0, Some (VfsDirent [dot] VFS_DT_DIR (vfs_path_to_ino (Some path_buf))),
                       None, [])
                  end
                else if index =? 1 then
                  (0, Some (VfsDirent [dot; dot] VFS_DT_DIR
                        (vfs_path_to_ino
                           (match vfs_path_parent (Some norm) VFS_PATH_MAX with
                            | Some parent => Some parent
                            | None => Some [slash]
                            end))), None, [])
                else
                  match readdir_walk s dir (n_first_child (node s dir)) 0 (index - 2)
                          (sib_fuel s) with
                  | None => (1, None, None, [])
                  | Some child =>
                      let c := node s child in
                      match vfs_ns_path_of s (Some child) VFS_PATH_MAX with
                      | None => (- LINUX_ENAMETOOLONG, None, None, [])
                      | Some path_buf =>
                          (0, Some (VfsDirent (strncpy_term (n_name c) (VFS_PATH_MAX - 1))
                                (if n_is_symlink c then VFS_DT_LNK
                                 else if n_is_dir c then VFS_DT_DIR else VFS_DT_REG)
                                (vfs_path_to_ino (Some path_buf))), None, [])
                      end
                  end
            end
        end
  end.

(** ** Moving nodes *)

(** The cursor that points at [node] among the children of [parent]. *)
Fixpoint detach_walk s (c : cursor) (nd : nref) (fuel : nat) : option cursor :=
  match fuel with
  | O => None
  | S fuel' =>
      match cur_get s c with
      | None => None
      | Some r => if decide (r = nd) then Some c else detach_walk s (NextOf r) nd fuel'
      end
  end.

Definition vfs_ns_detach s (nd : nref) : ns_state T :=
  match n_parent (node s nd) with
  | None => s
  | Some parent =>
      match detach_walk s (FirstOf parent) nd (sib_fuel s) with
      | None => s
      | Some c =>
          let s1 := cur_set s c (n_next_sibling (node s nd)) in
          let n := node s1 nd in
          node_set s1 nd (with_name_parent (with_next n None) (n_name n) None)
      end
  end.

Definition vfs_namespace_set_mount_cover s (target : ptr cstr) (covered : bool)
  : ns_state T * Z :=
  match target with
  | None => (s, - LINUX_EINVAL)
  | Some target =>
      match vfs_ns_lookup_node s (Some (path_norm target)) true with
      | None => (s, - LINUX_ENOTDIR)
      | Some r =>
          let n := node s r in
          if negb (n_is_dir n) then (s, - LINUX_ENOTDIR)
          else
            (node_set s r
               (with_attrs n (n_mode n) (n_is_dir n) (n_deleted n) (n_in_cpio n) (n_overlay n)
                  (n_is_symlink n) covered), 0)
      end
  end.

(** The destination of a rename or link: a name in a live directory. *)
Definition check_destination s (cred : vfs_req_cred) (new_norm : cstr) : Z :=
  match vfs_ns_lookup_node s (Some new_norm) false with
  | Some _ => - LINUX_EEXIST
  | None =>
      let perm_err := vfs_ns_check_parent_writable s cred new_norm in
      if perm_err <? 0 then perm_err
      else
        match vfs_path_basename (Some new_norm) NS_NAME_MAX with
        | None => - LINUX_EINVAL
        | Some _ =>
            match vfs_path_parent (Some new_norm) VFS_PATH_MAX with
            | None => - LINUX_EINVAL
            | Some parent_path =>
                match vfs_ns_lookup_node s (Some parent_path) false with
                | None => - LINUX_ENOENT
                | Some d => if n_is_dir (node s d) then 0 else - LINUX_ENOENT
                end
            end
        end
  end.

Definition vfs_namespace_rename_prepare s (cred : vfs_req_cred) (bs : backend_state TB) (mt : TM)
    (oldpath newpath : ptr cstr) (old_cap new_cap : nat) : Z * ns_prep :=
  match oldpath, newpath with
  | Some oldpath, Some newpath =>
      if (old_cap =? 0)%nat || (new_cap =? 0)%nat then (- LINUX_EINVAL, no_prep)
      else
        let old_norm := path_norm oldpath in
        let new_norm := path_norm newpath in
        if (old_cap <? length old_norm + 1)%nat || (new_cap <? length new_norm + 1)%nat
        then (- LINUX_ENAMETOOLONG, no_prep)
        else
          let o := strncpy_term old_norm (old_cap - 1) in
          let n := strncpy_term new_norm (new_cap - 1) in
          let out := NsPrep None o n 0 false false in
          if vfs_path_is_root (Some old_norm) || vfs_path_is_root (Some new_norm)
          then (- LINUX_EINVAL, out)
          else
            match vfs_ns_lookup_node s (Some old_norm) false with
            | None => (- LINUX_ENOENT, out)
            | Some r =>
                let err := check_destination s cred new_norm in
                if negb (err =? 0) then (err, out)
                else if n_overlay (node s r) then
                  match vfs_ns_backend_port bs mt old_norm with
                  | None => (- LINUX_ENXIO, out)
                  | Some port => (1, NsPrep (Some port) o n 0 true true)
                  end
                else if n_in_cpio (node s r) then (- LINUX_EROFS, out)
                else (- LINUX_ENOENT, out)
            end
  | _, _ => (- LINUX_EINVAL, no_prep)
  end.

(** The name and the directory of a destination path. *)
Definition destination s (new_norm : cstr) : Z + cstr * nref :=
  match vfs_path_basename (Some new_norm) NS_NAME_MAX with
  | None => inl (- LINUX_EINVAL)
  | Some new_name =>
      match vfs_path_parent (Some new_norm) VFS_PATH_MAX with
      | None => inl (- LINUX_EINVAL)
      | Some parent_path =>
          match vfs_ns_lookup_node s (Some parent_path) false with
          | None => inl (- LINUX_ENOENT)
          | Some d => if n_is_dir (node s d) then inr (new_name, d) else inl (- LINUX_ENOENT)
          end
      end
  end.

Definition vfs_namespace_rename_commit s (old_norm new_norm : ptr cstr)
  : ns_state T * Z * list ns_effect :=
  match old_norm, new_norm with
  | Some old_norm, Some new_norm =>
      match vfs_ns_lookup_node s (Some old_norm) false with
      | None => (s, - LINUX_ENOENT, [])
      | Some r =>
          match destination s new_norm with
          | inl err => (s, err, [])
          | inr (new_name, dest_parent) =>
              let s1 := vfs_ns_detach s r in
              let s2 := node_set s1 r
                (with_name_parent (node s1 r) (strncpy_term new_name (NS_NAME_MAX - 1))
                   (Some dest_parent)) in
              (vfs_ns_link_child s2 dest_parent r, 0,
               [PageCacheDrop old_norm; PageCacheDrop new_norm])
          end
      end
  | _, _ => (s, - LINUX_EINVAL, [])
  end.

Definition vfs_namespace_link_prepare s (cred : vfs_req_cred) (bs : backend_state TB) (mt : TM)
    (oldpath newpath : ptr cstr) (old_cap new_cap : nat) : Z * ns_prep :=
  match oldpath, newpath with
  | Some oldpath, Some newpath =>
      if (old_cap =? 0)%nat || (new_cap =? 0)%nat then (- LINUX_EINVAL, no_prep)
      else
        let old_norm := path_norm oldpath in
        let new_norm := path_norm newpath in
        if (old_cap <? length old_norm + 1)%nat || (new_cap <? length new_norm + 1)%nat
        then (- LINUX_ENAMETOOLONG, no_prep)
        else
          let o := strncpy_term old_norm (old_cap - 1) in
          let n := strncpy_term new_norm (new_cap - 1) in
          let out := NsPrep None o n 0 false false in
          if vfs_path_is_root (Some old_norm) || vfs_path_is_root (Some new_norm)
          then (- LINUX_EINVAL, out)
          else
            match vfs_ns_lookup_node s (Some old_norm) false with
            | None => (- LINUX_ENOENT, out)
            | Some r =>
                let nd := node s r in
                if n_is_dir nd then (- LINUX_EPERM, out)
                else if n_in_cpio nd && negb (n_overlay nd) then (- LINUX_EXDEV, out)
                else if negb (n_overlay nd) then (- LINUX_ENOENT, out)
                else
                  let err := check_destination s cred new_norm in
                  if negb (err =? 0) then (err, out)
                  else
                    match vfs_ns_backend_port bs mt old_norm with
                    | None => (- LINUX_ENXIO, out)
                    | Some port => (1, NsPrep (Some port) o n 0 true true)
                    end
            end
  | _, _ => (- LINUX_EINVAL, no_prep)
  end.

Definition vfs_namespace_link_commit (al : alloc_oracle) s (bs : backend_state TB) (mt : TM)
    (old_norm new_norm : ptr cstr) : ns_state T * Z * list ns_effect :=
  match old_norm, new_norm with
  | Some old_norm, Some new_norm =>
      match vfs_ns_lookup_node s (Some old_norm) false with
      | None => (s, - LINUX_ENOENT, [])
      | Some r =>
          match destination s new_norm with
          | inl err => (s, err, [])
          | inr (new_name, dest_parent) =>
              match vfs_ns_alloc_node al s (Some dest_parent) new_name false with
              | (s1, None) => (s1, - LINUX_ENOMEM, undo_create bs mt old_norm new_norm)
              | (s1, Some l) =>
                  let nd := node s1 r in
                  let ln := node s1 l in
                  let s2 := node_set s1 l
                    (with_attrs ln (n_mode nd) false false (n_in_cpio nd) true
                       (n_is_symlink ln) (n_mount_covered ln)) in
                  (vfs_ns_link_child s2 dest_parent l, 0, [])
              end
          end
      end
  | _, _ => (s, - LINUX_EINVAL, [])
  end.
End ns_ops.

(** ** Bringing the file system up ([vfs_root_init]) *)

Record vfs_root_state (TC T TM : Type) : Type := VfsRoot {
  rs_initialized : bool;
  rs_cpio : cpio_rofs TC;
  rs_ns : ns_state T;
  rs_mounts : TM;
}.
Arguments VfsRoot {TC T TM} _ _ _ _.
Arguments rs_initialized {TC T TM} _.
Arguments rs_cpio {TC T TM} _.
Arguments rs_ns {TC T TM} _.
Arguments rs_mounts {TC T TM} _.

Section root_init.
Context {TC T TM : Type} `{SC : StrcmpS} `{RTC : RecordTable cpio_rofs_entry TC}
        `{RT : RecordTable vfs_ns_node T} `{RTM : RecordTable vfs_mount_rec TM}.

Definition vfs_root_init (al : alloc_oracle) (st : vfs_root_state TC T TM) (image : ptr cpio_img)
  : outcome (error_t * vfs_root_state TC T TM) :=
  if rs_initialized st then Ret (REND_SUCCESS, st)
  else
    match image with
    | None => Ret (E_IN_PARAM, st)
    | Some im =>
        if cpio_image_len im =? 0 then Ret (E_IN_PARAM, st)
        else
          let '(ns0, mt0, _) := vfs_namespace_reset al (rs_mounts st) in
          match cpio_rofs_init al (rs_cpio st) image with
          | Ret (REND_SUCCESS, cp) =>
              match vfs_namespace_init al ns0 mt0 cp with
              | (REND_SUCCESS, ns1, mt1, _) => Ret (REND_SUCCESS, VfsRoot true cp ns1 mt1)
              | (err, ns1, mt1, _) => Ret (err, VfsRoot false cp ns1 mt1)
              end
          | Ret (err, cp) => Ret (err, VfsRoot false cp ns0 mt0)
          | Overread => Overread
          | NoFuel => NoFuel
          end
    end.
End root_init.
