(* ===== verification/NamespaceSpec.v ===== *)
(** * The directory tree as a map from paths to attributes

    The nodes of [Namespace] form linked sibling lists.  This file states the
    shape invariant (each directory's list is finite, sorted by name without
    repetitions, and its members point back to the directory), shows how the
    pointer operations act on the lists, and reads the tree as a partial map
    from component lists to node attributes. *)

From Stdlib Require Import Ascii.
From stdpp Require Import base numbers strings gmap option list.
From S2P Require Import Prelude PageSlice SliceTable VfsPath VfsInode DirNames Cpio Mount Namespace.

Section tree.
Context {T : Type} `{SCL : StrcmpSLaws} `{RT : RecordTable vfs_ns_node T}
        {RTL : RecordTableLaws vfs_ns_node T}.
Implicit Types (s : ns_state T) (r : nref) (K : nref → list nat).

(** ** Nodes *)

Definition nodes s : list vfs_ns_node := rt_view (vfs_ns_node_tab s).
Definition valid s r : Prop :=
  match r with NRoot => True | NNode i => (i < length (nodes s))%nat end.
Definition tab_ok s : Prop := rt_ok (vfs_ns_node_tab s).

Lemma node_lookup s i n : tab_ok s → nodes s !! i = Some n → node s (NNode i) = n.
Proof. intros Hok Hi. unfold node, node_at. by rewrite (rt_get_view _ _ _ Hok Hi). Qed.

Lemma node_set_spec s r n : tab_ok s → valid s r →
  tab_ok (node_set s r n) ∧ length (nodes (node_set s r n)) = length (nodes s)
  ∧ ∀ r', valid s r' → node (node_set s r n) r' = if decide (r' = r) then n else node s r'.
Proof.
  intros Hok Hv. destruct r as [|i]; cbn [node_set].
  - split_and!; [done|done|]. intros [|j] _; [done|]. by rewrite decide_False.
  - destruct (rt_set_ok (vfs_ns_node_tab s) i n Hok Hv) as [Hok' Hview].
    assert (length (nodes (node_set s (NNode i) n)) = length (nodes s)) as Hl.
    { unfold nodes. cbn. by rewrite Hview, length_insert. }
    split_and!; [done|done|]. intros [|j] Hj; [by rewrite decide_False|].
    destruct (decide (NNode j = NNode i)) as [[= ->]|Hne].
    + apply node_lookup; [done|]. unfold nodes. cbn. rewrite Hview.
      by apply list_lookup_insert_eq.
    + destruct (lookup_lt_is_Some_2 (nodes s) j Hj) as [m Hm].
      rewrite (node_lookup s j m) by done. apply node_lookup; [done|].
      unfold nodes. cbn. rewrite Hview, list_lookup_insert_ne by congruence. done.
Qed.

Lemma sib_fuel_eq s : tab_ok s → sib_fuel s = S (length (nodes s)).
Proof. intros Hok. unfold sib_fuel. by rewrite rt_count_view, Nat2Z.id. Qed.

(** Comparing node names, which fit their field. *)
Definition short (c : cstr) : Prop := (length c < NS_NAME_MAX)%nat.

Lemma name_cmp_0 a b : short a → vfs_ns_name_cmp a b =? 0 = bool_decide (a = b).
Proof.
  unfold short, vfs_ns_name_cmp. intros Ha. apply eq_bool_prop_intro.
  rewrite !Is_true_true, Z.eqb_eq, bool_decide_eq_true, strcmp_s_0, (take_ge a) by lia.
  split; [|by intros <-; rewrite take_ge by lia]. intros E. pose proof E as El.
  apply (f_equal length) in El. rewrite length_take in El. by rewrite take_ge in E by lia.
Qed.

Lemma name_cmp_lt a b : 0 < vfs_ns_name_cmp a b ↔ name_lt b a.
Proof.
  unfold vfs_ns_name_cmp, name_lt. pose proof (strcmp_s_sgn a b NS_NAME_MAX) as Hs.
  rewrite (strncmp_antisym a b VFS_DIR_NAME_SLOT).
  change VFS_DIR_NAME_SLOT with NS_NAME_MAX. lia.
Qed.

Abbreviation nm s i := (n_name (node s (NNode i))).

(** ** Sibling lists *)

Fixpoint chain s (p : ptr nref) (l : list nat) : Prop :=
  match l with
  | [] => p = None
  | i :: l' => p = Some (NNode i) ∧ (i < length (nodes s))%nat
               ∧ chain s (n_next_sibling (node s (NNode i))) l'
  end.

Record ns_inv s K : Prop := {
  ni_ok : tab_ok s;
  ni_chain : ∀ r, valid s r → chain s (n_first_child (node s r)) (K r);
  ni_parent : ∀ r i, valid s r → i ∈ K r → n_parent (node s (NNode i)) = Some r;
  ni_sorted : ∀ r, valid s r → names_sorted ((λ i, nm s i) <$> K r);
  ni_short : ∀ i, (i < length (nodes s))%nat → short (nm s i);
}.

Definition ns_wf s : Prop := ∃ K, ns_inv s K.

Lemma chain_bound s p l i : chain s p l → i ∈ l → (i < length (nodes s))%nat.
Proof.
  revert p. induction l as [|j l IH]; intros p Hc Hi; [by apply not_elem_of_nil in Hi|].
  destruct Hc as (_ & Hj & Hc). apply elem_of_cons in Hi as [->|Hi]; [done|by eapply IH].
Qed.

Lemma name_lt_irrefl a : ¬ name_lt a a.
Proof. unfold name_lt. pose proof (strncmp_antisym a a VFS_DIR_NAME_SLOT). lia. Qed.

Lemma sorted_NoDup l : names_sorted l → NoDup l.
Proof.
  induction 1 as [|x l _ IH Hall]; constructor; [|done].
  intros Hx. rewrite Forall_forall in Hall.
  by apply (name_lt_irrefl x), Hall.
Qed.

Lemma kids_NoDup s K r : ns_inv s K → valid s r → NoDup (K r).
Proof. intros Hinv Hv. by eapply NoDup_fmap_1, sorted_NoDup, ni_sorted. Qed.

Lemma kid_bound s K r i : ns_inv s K → valid s r → i ∈ K r → (i < length (nodes s))%nat.
Proof. intros Hinv Hv. apply (chain_bound s _ _ _ (ni_chain _ _ Hinv r Hv)). Qed.

Lemma kids_length s K r : ns_inv s K → valid s r → (length (K r) ≤ length (nodes s))%nat.
Proof.
  intros Hinv Hv. assert (K r ⊆+ seq 0 (length (nodes s))) as Hs%submseteq_length.
  { apply NoDup_submseteq; [by eapply kids_NoDup|].
    intros i Hi. apply elem_of_seq. pose proof (kid_bound _ _ _ _ Hinv Hv Hi). lia. }
  by rewrite length_seq in Hs.
Qed.

Lemma kid_unique s K r i j : ns_inv s K → valid s r → i ∈ K r → j ∈ K r → nm s i = nm s j → i = j.
Proof.
  intros Hinv Hv Hi Hj E. pose proof (sorted_NoDup _ (ni_sorted _ _ Hinv r Hv)) as Hnd.
  apply list_elem_of_lookup in Hi as [a Ha], Hj as [b Hb].
  assert (a = b) as ->; [|congruence].
  eapply (NoDup_lookup _ a b (nm s i) Hnd); rewrite list_lookup_fmap; [by rewrite Ha|].
  rewrite Hb. cbn [fmap option_fmap option_map]. by rewrite E.
Qed.

Lemma find_walk_spec s name fuel : (∀ i, (i < length (nodes s))%nat → short (nm s i)) →
  ∀ l p, chain s p l → (length l < fuel)%nat →
  match find_walk s p name fuel with
  | Some r => ∃ i, r = NNode i ∧ i ∈ l ∧ nm s i = name
  | None => ∀ i, i ∈ l → nm s i ≠ name
  end.
Proof.
  intros Hsh. induction fuel as [|fuel IH]; intros l p Hc Hf; [lia|]. cbn [find_walk].
  destruct l as [|i l]; cbn in Hc.
  - subst. by intros i ?%not_elem_of_nil.
  - destruct Hc as (-> & Hi & Hc). rewrite name_cmp_0 by auto.
    case_bool_decide as E.
    + exists i. split_and!; [done|by left|done].
    + specialize (IH l _ Hc ltac:(cbn in Hf; lia)). destruct (find_walk _ _ _ _).
      * destruct IH as (j & -> & Hj & Hnj). exists j. split_and!; [done|by right|done].
      * intros j [->|Hj]%elem_of_cons; [done|by apply IH].
Qed.

(** The child of [r] named [c], deleted or not. *)
Definition raw_find s r (c : cstr) : ptr nref :=
  find_walk s (n_first_child (node s r)) c (sib_fuel s).

Lemma raw_find_Some s K r c r' : ns_inv s K → valid s r →
  raw_find s r c = Some r' ↔ ∃ i, r' = NNode i ∧ i ∈ K r ∧ nm s i = c.
Proof.
  intros Hinv Hv.
  pose proof (find_walk_spec s c (sib_fuel s) (ni_short _ _ Hinv) (K r) _ (ni_chain _ _ Hinv r Hv)) as Hs.
  rewrite sib_fuel_eq in Hs by apply Hinv. pose proof (kids_length _ _ _ Hinv Hv).
  specialize (Hs ltac:(lia)). unfold raw_find. rewrite sib_fuel_eq by apply Hinv.
  destruct (find_walk _ _ _ _) as [q|].
  - destruct Hs as (i & -> & Hi & Hn). split; [intros [= <-]; by exists i|].
    intros (j & -> & Hj & Hnj). do 2 f_equal. by eapply (kid_unique s K r); [..|congruence].
  - split; [done|]. intros (j & -> & Hj & Hnj). by destruct (Hs j Hj).
Qed.

Lemma raw_find_valid s K r c r' : ns_inv s K → valid s r →
  raw_find s r c = Some r' → valid s r'.
Proof.
  intros Hinv Hv. rewrite raw_find_Some by done. intros (i & -> & Hi & _).
  by eapply kid_bound.
Qed.

(** ** Updates that keep the links *)

Record ns_attrs : Type := NsAttrs {
  a_mode : Z;
  a_is_dir : bool;
  a_deleted : bool;
  a_in_cpio : bool;
  a_overlay : bool;
  a_is_symlink : bool;
  a_mount_covered : bool;
}.
Definition attrs_of (n : vfs_ns_node) : ns_attrs :=
  NsAttrs (n_mode n) (n_is_dir n) (n_deleted n) (n_in_cpio n) (n_overlay n) (n_is_symlink n)
    (n_mount_covered n).

Lemma chain_ext s s' l p : length (nodes s') = length (nodes s) →
  (∀ i, i ∈ l → (i < length (nodes s))%nat →
     n_next_sibling (node s' (NNode i)) = n_next_sibling (node s (NNode i))) →
  chain s p l → chain s' p l.
Proof.
  intros Hl. revert p. induction l as [|i l IH]; intros p Hn; cbn [chain]; [done|].
  intros (-> & Hi & Hc). rewrite Hl. split_and!; [done|done|].
  rewrite Hn by (done || by left). apply IH; [|done]. intros j Hj. apply Hn. by right.
Qed.

Definition same_links s s' : Prop :=
  tab_ok s' ∧ length (nodes s') = length (nodes s)
  ∧ ∀ r, valid s r → n_name (node s' r) = n_name (node s r)
      ∧ n_parent (node s' r) = n_parent (node s r)
      ∧ n_first_child (node s' r) = n_first_child (node s r)
      ∧ n_next_sibling (node s' r) = n_next_sibling (node s r).

Lemma valid_length s s' r : length (nodes s') = length (nodes s) → valid s' r ↔ valid s r.
Proof. intros E. destruct r; cbn; [done|by rewrite E]. Qed.

Lemma same_links_inv s s' K : ns_inv s K → same_links s s' → ns_inv s' K.
Proof.
  intros Hinv (Hok & Hl & Hs). split.
  - done.
  - intros r Hv%(valid_length s s' r Hl). destruct (Hs r Hv) as (_ & _ & -> & _).
    apply (chain_ext s s'); [done| |by apply Hinv]. intros i _ Hi.
    by destruct (Hs (NNode i) Hi) as (_ & _ & _ & ?).
  - intros r i Hv%(valid_length s s' r Hl) Hi.
    destruct (Hs (NNode i) (kid_bound _ _ _ _ Hinv Hv Hi)) as (_ & -> & _).
    by apply (ni_parent _ _ Hinv).
  - intros r Hv%(valid_length s s' r Hl).
    rewrite (list_fmap_ext (λ i, nm s' i) (λ i, nm s i)); [by apply Hinv|].
    intros k i Hk%list_elem_of_lookup_2.
    by destruct (Hs (NNode i) (kid_bound _ _ _ _ Hinv Hv Hk)) as (? & _).
  - intros i Hi. rewrite Hl in Hi. destruct (Hs (NNode i) Hi) as (-> & _). by apply Hinv.
Qed.

Lemma same_links_find s s' K r c : ns_inv s K → same_links s s' → valid s r →
  raw_find s' r c = raw_find s r c.
Proof.
  intros Hinv Hsl Hv. pose proof (same_links_inv s s' K Hinv Hsl) as Hinv'.
  assert (valid s' r) as Hv' by (apply (valid_length s s' r); [apply Hsl|done]).
  apply option_eq. intros r'. rewrite (raw_find_Some s' K), (raw_find_Some s K) by done.
  destruct Hsl as (_ & Hl & Hs). apply exist_proper. intros i. split.
  - intros (-> & Hi & <-). split_and!; [done|done|].
    by destruct (Hs (NNode i) (kid_bound _ _ _ _ Hinv Hv Hi)) as (-> & _).
  - intros (-> & Hi & <-). split_and!; [done|done|].
    by destruct (Hs (NNode i) (kid_bound _ _ _ _ Hinv Hv Hi)) as (-> & _).
Qed.

Lemma set_attrs_links s r n' : tab_ok s → valid s r →
  n_name n' = n_name (node s r) → n_parent n' = n_parent (node s r) →
  n_first_child n' = n_first_child (node s r) → n_next_sibling n' = n_next_sibling (node s r) →
  same_links s (node_set s r n').
Proof.
  intros Hok Hv H1 H2 H3 H4. destruct (node_set_spec s r n' Hok Hv) as (Hok' & Hl & Hn).
  split_and!; [done|done|]. intros r' Hv'. rewrite (Hn r' Hv').
  by destruct (decide (r' = r)) as [->|].
Qed.

(** ** Linking and detaching *)

(** The cursor between [l1] and the rest of a list that starts at [c]. *)
#[local] Instance cursor_eq_dec : EqDecision cursor.
Proof. solve_decision. Defined.

Definition cursor_after (c : cursor) (l1 : list nat) : cursor :=
  match last l1 with None => c | Some j => NextOf (NNode j) end.

Definition upd K r (l : list nat) : nref → list nat := λ r', if decide (r' = r) then l else K r'.

Lemma cursor_after_cons c j l1 :
  cursor_after (NextOf (NNode j)) l1 = cursor_after c (j :: l1).
Proof. unfold cursor_after. destruct l1 as [|k l1]; [done|]. cbn [last]. by destruct (last (k :: l1)) eqn:E; [|apply last_None in E]. Qed.

Lemma link_walk_spec s name fuel : (∀ i, (i < length (nodes s))%nat → short (nm s i)) →
  short name → ∀ l c, chain s (cur_get s c) l → names_sorted ((λ i, nm s i) <$> l) →
  (length l < fuel)%nat →
  match link_walk s c name fuel with
  | None => ∃ i, i ∈ l ∧ nm s i = name
  | Some c' => ∃ l1 l2, l = l1 ++ l2 ∧ c' = cursor_after c l1 ∧ chain s (cur_get s c') l2
      ∧ Forall (λ i, name_lt (nm s i) name) l1 ∧ Forall (λ i, name_lt name (nm s i)) l2
  end.
Proof.
  intros Hsh Hn. induction fuel as [|fuel IH]; intros l c Hc Hs Hf; [lia|]. cbn [link_walk].
  destruct l as [|i l]; cbn [chain] in Hc.
  - rewrite Hc. exists [], []. by split_and!.
  - destruct Hc as (Ec & Hi & Hc). rewrite Ec.
    rewrite name_cmp_0 by auto. case_bool_decide as E; [exists i; by split; [left|]|].
    rewrite fmap_cons in Hs. apply Sorted.StronglySorted_inv in Hs as [Hs Hhd].
    destruct (Z.ltb_spec 0 (vfs_ns_name_cmp (nm s i) name)) as [Hlt|Hge].
    + apply name_cmp_lt in Hlt. exists [], (i :: l).
      split_and!; [done|done|by rewrite Ec|done|]. constructor; [done|].
      rewrite Forall_fmap in Hhd. eapply Forall_impl; [exact Hhd|]. intros j Hj. cbn in Hj.
      by transitivity (nm s i).
    + assert (name_lt (nm s i) name) as Hlt.
      { unfold name_lt. pose proof (strcmp_s_sgn (nm s i) name NS_NAME_MAX) as Hsg.
        change VFS_DIR_NAME_SLOT with NS_NAME_MAX. unfold vfs_ns_name_cmp in Hge.
        assert (strcmp_s (nm s i) name NS_NAME_MAX ≠ 0); [|lia].
        intros E0. apply strcmp_s_0 in E0. unfold short in *.
        rewrite !take_ge in E0 by (specialize (Hsh i Hi); lia). done. }
      specialize (IH l (NextOf (NNode i)) Hc Hs ltac:(cbn in Hf; lia)).
      destruct (link_walk _ _ _ _) as [c'|].
      * destruct IH as (l1 & l2 & -> & -> & Hc2 & H1 & H2).
        exists (i :: l1), l2. rewrite <- (cursor_after_cons c).
        split_and!; [done|done|done|by constructor|done].
      * destruct IH as (j & Hj & ?). exists j. by split; [right|].
Qed.

Lemma chain_insert s s' i l2 : length (nodes s') = length (nodes s) →
  chain s' (Some (NNode i)) (i :: l2) → ∀ l1 p, chain s p (l1 ++ l2) → NoDup l1 → l1 ≠ [] →
  (∀ k, k ∈ l1 → (k < length (nodes s))%nat → n_next_sibling (node s' (NNode k)) =
      if decide (last l1 = Some k) then Some (NNode i) else n_next_sibling (node s (NNode k))) →
  chain s' p (l1 ++ i :: l2).
Proof.
  intros Hl H2. induction l1 as [|k l1 IH]; intros p Hc Hnd Hne Hn; [done|].
  destruct Hc as (-> & Hk & Hc). apply NoDup_cons in Hnd as [Hkl Hnd].
  cbn [app chain]. rewrite Hl. split_and!; [done|done|].
  rewrite (Hn k) by (done || by left). destruct l1 as [|k1 l1].
  - cbn [last]. by rewrite decide_True.
  - rewrite decide_False.
    2:{ intros Hlast. rewrite last_cons_cons in Hlast. by apply last_Some_elem_of in Hlast. }
    apply IH; [done|done|done|]. intros k' Hk' Hb. rewrite (Hn k') by (done || by right). done.
Qed.

Lemma chain_app_r s l1 l2 p i : chain s p (l1 ++ i :: l2) →
  chain s (n_next_sibling (node s (NNode i))) l2.
Proof.
  revert p. induction l1 as [|k l1 IH]; intros p; cbn [app chain]; [tauto|].
  intros (_ & _ & Hc). by eapply IH.
Qed.

Lemma chain_remove s s' i l2 : length (nodes s') = length (nodes s) →
  ∀ l1 p, chain s p (l1 ++ i :: l2) → NoDup l1 → l1 ≠ [] →
  chain s' (n_next_sibling (node s (NNode i))) l2 →
  (∀ k, k ∈ l1 → (k < length (nodes s))%nat → n_next_sibling (node s' (NNode k)) =
      if decide (last l1 = Some k) then n_next_sibling (node s (NNode i))
      else n_next_sibling (node s (NNode k))) →
  chain s' p (l1 ++ l2).
Proof.
  intros Hl. induction l1 as [|k l1 IH]; intros p Hc Hnd Hne H2 Hn; [done|].
  destruct Hc as (-> & Hk & Hc). apply NoDup_cons in Hnd as [Hkl Hnd].
  cbn [app chain]. rewrite Hl. split_and!; [done|done|].
  rewrite (Hn k) by (done || by left). destruct l1 as [|k1 l1].
  - cbn [last]. by rewrite decide_True.
  - rewrite decide_False.
    2:{ intros Hlast. rewrite last_cons_cons in Hlast. by apply last_Some_elem_of in Hlast. }
    apply IH; [done|done|done|done|]. intros k' Hk' Hb. rewrite (Hn k') by (done || by right). done.
Qed.

(** Writing through a cursor. *)
Definition cursor_ok s (c : cursor) : Prop :=
  match c with FirstOf r | NextOf r => valid s r end.

Lemma cur_set_spec s c p : tab_ok s → cursor_ok s c →
  tab_ok (cur_set s c p) ∧ length (nodes (cur_set s c p)) = length (nodes s)
  ∧ ∀ r, valid s r →
      n_first_child (node (cur_set s c p) r) =
        (if decide (c = FirstOf r) then p else n_first_child (node s r))
      ∧ n_next_sibling (node (cur_set s c p) r) =
        (if decide (c = NextOf r) then p else n_next_sibling (node s r))
      ∧ n_name (node (cur_set s c p) r) = n_name (node s r)
      ∧ n_parent (node (cur_set s c p) r) = n_parent (node s r)
      ∧ attrs_of (node (cur_set s c p) r) = attrs_of (node s r).
Proof.
  intros Hok Hc. destruct c as [q|q]; cbn [cur_set cursor_ok] in *.
  - destruct (node_set_spec s q (with_first (node s q) p) Hok Hc) as (H1 & H2 & Hn).
    split_and!; [done|done|]. intros r Hv. rewrite (Hn r Hv).
    rewrite (decide_False (P := FirstOf q = NextOf r)) by done.
    destruct (decide (r = q)) as [->|Hne]; [by rewrite decide_True|].
    by rewrite decide_False by congruence.
  - destruct (node_set_spec s q (with_next (node s q) p) Hok Hc) as (H1 & H2 & Hn).
    split_and!; [done|done|]. intros r Hv. rewrite (Hn r Hv).
    rewrite (decide_False (P := NextOf q = FirstOf r)) by done.
    destruct (decide (r = q)) as [->|Hne]; [by rewrite decide_True|].
    by rewrite decide_False by congruence.
Qed.

(** Name, parent and attributes of every node are kept. *)
Definition same_data s s' : Prop :=
  tab_ok s' ∧ length (nodes s') = length (nodes s)
  ∧ ∀ r, valid s r → n_name (node s' r) = n_name (node s r)
      ∧ n_parent (node s' r) = n_parent (node s r)
      ∧ attrs_of (node s' r) = attrs_of (node s r).

Lemma cursor_after_ok s K r l1 l2 : ns_inv s K → valid s r → K r = l1 ++ l2 →
  cursor_ok s (cursor_after (FirstOf r) l1).
Proof.
  intros Hinv Hv HK. unfold cursor_after. destruct (last l1) as [j|] eqn:E; [|done].
  cbn. eapply (kid_bound s K r); [done..|]. rewrite HK. apply elem_of_app. left.
  by apply last_Some_elem_of.
Qed.

(** A kid of one directory is no kid of another. *)
Lemma kid_disjoint s K r r' i : ns_inv s K → valid s r → valid s r' →
  i ∈ K r → i ∈ K r' → r = r'.
Proof.
  intros Hinv Hv Hv' Hi Hi'. pose proof (ni_parent _ _ Hinv r i Hv Hi).
  pose proof (ni_parent _ _ Hinv r' i Hv' Hi'). congruence.
Qed.

Lemma link_child_none s K par i : ns_inv s K → valid s par → (i < length (nodes s))%nat →
  (∃ j, j ∈ K par ∧ nm s j = nm s i) → vfs_ns_link_child s par (NNode i) = s.
Proof.
  intros Hinv Hv Hi (j & Hj & Hn). unfold vfs_ns_link_child.
  pose proof (link_walk_spec s (nm s i) (sib_fuel s) (ni_short _ _ Hinv) (ni_short _ _ Hinv i Hi)
    (K par) (FirstOf par) (ni_chain _ _ Hinv par Hv) (ni_sorted _ _ Hinv par Hv)) as Hw.
  rewrite sib_fuel_eq in Hw |- * by apply Hinv. pose proof (kids_length _ _ _ Hinv Hv).
  specialize (Hw ltac:(lia)). destruct (link_walk _ _ _ _) as [c'|]; [|done].
  destruct Hw as (l1 & l2 & E & _ & _ & H1 & H2). exfalso. apply (name_lt_irrefl (nm s i)).
  rewrite E in Hj. apply elem_of_app in Hj as [Hj|Hj].
  - rewrite Forall_forall in H1. rewrite <- Hn at 1. by apply H1.
  - rewrite Forall_forall in H2. rewrite <- Hn at 2. by apply H2.
Qed.

(** The cursor [c] was made to point to [v] and the next sibling of [i] set to
    [w]; nothing else of the links changed. *)
Record spliced s s' (c : cursor) (v : ptr nref) (i : nat) (w : ptr nref) : Prop := {
  sp_ok : tab_ok s';
  sp_len : length (nodes s') = length (nodes s);
  sp_first : ∀ r, valid s r → n_first_child (node s' r) =
    if decide (c = FirstOf r) then v else n_first_child (node s r);
  sp_next : ∀ r, valid s r → n_next_sibling (node s' r) =
    if decide (r = NNode i) then w
    else if decide (c = NextOf r) then v else n_next_sibling (node s r);
  sp_name : ∀ r, valid s r → n_name (node s' r) = n_name (node s r);
  sp_attrs : ∀ r, valid s r → attrs_of (node s' r) = attrs_of (node s r);
}.

(** A directory whose list holds neither [i] nor the cursor keeps its list. *)
Lemma spliced_other s s' K par i l1 l2 v w r : ns_inv s K → valid s par → K par = l1 ++ l2 →
  spliced s s' (cursor_after (FirstOf par) l1) v i w →
  valid s r → r ≠ par → i ∉ K r → chain s' (n_first_child (node s' r)) (K r).
Proof.
  intros Hinv Hv E Hs Hr Hne Hi. rewrite (sp_first _ _ _ _ _ _ Hs r Hr), decide_False.
  2:{ unfold cursor_after. destruct (last l1); [done|]. congruence. }
  apply (chain_ext s s'); [apply Hs| |by apply Hinv]. intros k Hk Hkb.
  rewrite (sp_next _ _ _ _ _ _ Hs (NNode k) Hkb), !decide_False; [done| |congruence].
  unfold cursor_after. destruct (last l1) as [j|] eqn:El; [|done]. intros [= ->].
  apply Hne. apply (kid_disjoint s K r par k); [done..|].
  rewrite E. apply elem_of_app. left. by apply last_Some_elem_of.
Qed.

(** The lists on both sides of the splice, read through the cursor. *)
Lemma spliced_next s s' K par i l1 l2 v w k : ns_inv s K → valid s par → K par = l1 ++ l2 →
  spliced s s' (cursor_after (FirstOf par) l1) v i w →
  (k < length (nodes s))%nat → k ≠ i →
  n_next_sibling (node s' (NNode k)) =
    if decide (last l1 = Some k) then v else n_next_sibling (node s (NNode k)).
Proof.
  intros Hinv Hv E Hs Hb Hki. rewrite (sp_next _ _ _ _ _ _ Hs (NNode k) Hb).
  rewrite (decide_False (P := NNode k = NNode i)) by congruence. unfold cursor_after.
  destruct (last l1) as [j|]; [|by rewrite !decide_False by congruence].
  destruct (decide (j = k)) as [->|]; [by rewrite !decide_True|].
  by rewrite !decide_False by congruence.
Qed.

Lemma spliced_first s s' par i l1 v w : valid s par →
  spliced s s' (cursor_after (FirstOf par) l1) v i w →
  n_first_child (node s' par) = if decide (l1 = []) then v else n_first_child (node s par).
Proof.
  intros Hv Hs. rewrite (sp_first _ _ _ _ _ _ Hs par Hv). unfold cursor_after.
  destruct l1 as [|k l1]; [by rewrite !decide_True|].
  destruct (last (k :: l1)) eqn:El; [by rewrite !decide_False|by apply last_None in El].
Qed.

Lemma link_chain s s' K par i l1 l2 : ns_inv s K → valid s par → K par = l1 ++ l2 →
  (i < length (nodes s))%nat → i ∉ K par → chain s (cur_get s (cursor_after (FirstOf par) l1)) l2 →
  spliced s s' (cursor_after (FirstOf par) l1) (Some (NNode i)) i
    (cur_get s (cursor_after (FirstOf par) l1)) →
  chain s' (n_first_child (node s' par)) (l1 ++ i :: l2).
Proof.
  intros Hinv Hv E Hi Hfree Hc2 Hs. pose proof (kids_NoDup s K par Hinv Hv) as Hnd.
  rewrite E in Hnd, Hfree. apply NoDup_app in Hnd as (Hnd & Hd & _).
  apply not_elem_of_app in Hfree as [Hf1 Hf2].
  assert (chain s' (Some (NNode i)) (i :: l2)) as Htail.
  { cbn [chain]. rewrite (sp_len _ _ _ _ _ _ Hs). split_and!; [done|done|].
    rewrite (sp_next _ _ _ _ _ _ Hs (NNode i) Hi), decide_True by done.
    apply (chain_ext s s'); [apply Hs| |done]. intros k Hk Hkb.
    rewrite (spliced_next s s' K par i l1 l2 _ _ k Hinv Hv E Hs Hkb) by congruence.
    rewrite decide_False; [done|]. intros Hl%last_Some_elem_of. by apply (Hd k). }
  rewrite (spliced_first _ _ _ _ _ _ _ Hv Hs). destruct (decide (l1 = [])) as [->|Hne]; [done|].
  apply (chain_insert s s' i l2 (sp_len _ _ _ _ _ _ Hs) Htail); [|done|done|].
  - pose proof (ni_chain _ _ Hinv par Hv) as Hch. by rewrite E in Hch.
  - intros k Hk Hb. apply (spliced_next s s' K par i l1 l2 _ _ k Hinv Hv E Hs Hb). congruence.
Qed.

Lemma link_sorted s K par i l1 l2 : ns_inv s K → valid s par → K par = l1 ++ l2 →
  (i < length (nodes s))%nat → (∀ j, j ∈ K par → nm s j ≠ nm s i) →
  Forall (λ j, name_lt (nm s j) (nm s i)) l1 → Forall (λ j, name_lt (nm s i) (nm s j)) l2 →
  names_sorted ((λ j, nm s j) <$> l1 ++ i :: l2).
Proof.
  intros Hinv Hv E Hi Hnew H1 H2. rewrite fmap_app, fmap_cons. apply sorted_insert.
  - rewrite <- fmap_app, <- E. by apply Hinv.
  - apply Forall_fmap. eapply Forall_impl; [exact H1|]. unfold name_lt, compose. lia.
  - intros y Hy. rewrite <- fmap_app, <- E in Hy.
    apply list_elem_of_fmap in Hy as (j & -> & Hj). intros E0. apply strncmp_sgn_0 in E0.
    pose proof (ni_short _ _ Hinv j (kid_bound _ _ _ _ Hinv Hv Hj)) as Hsj.
    pose proof (ni_short _ _ Hinv i Hi) as Hsi. unfold short in *.
    rewrite !take_ge in E0 by (change VFS_DIR_NAME_SLOT with NS_NAME_MAX; lia).
    by apply (Hnew j Hj).
  - apply Forall_fmap. exact H2.
Qed.

(** What changes a list keeps sorted names when the names are kept. *)
Lemma names_kept s s' (l : list nat) : (∀ r, valid s r → n_name (node s' r) = n_name (node s r)) →
  (∀ k, k ∈ l → (k < length (nodes s))%nat) →
  (λ i, nm s' i) <$> l = (λ i, nm s i) <$> l.
Proof.
  intros Hn Hb. apply list_fmap_ext. intros ? k Hk%list_elem_of_lookup_2. by apply Hn, Hb.
Qed.

Lemma link_child_splice s K i c : ns_inv s K → (i < length (nodes s))%nat →
  cursor_ok s c → c ≠ NextOf (NNode i) →
  let s1 := node_set s (NNode i) (with_next (node s (NNode i)) (cur_get s c)) in
  let s2 := cur_set s1 c (Some (NNode i)) in
  spliced s s2 c (Some (NNode i)) i (cur_get s c)
  ∧ ∀ r, valid s r → n_parent (node s2 r) = n_parent (node s r).
Proof.
  intros Hinv Hi Hcok Hci s1 s2.
  destruct (node_set_spec s (NNode i) (with_next (node s (NNode i)) (cur_get s c)) (ni_ok _ _ Hinv) Hi)
    as (Hok1 & Hl1 & Hn1). fold s1 in Hok1, Hl1, Hn1.
  assert (cursor_ok s1 c) as Hcok1 by (destruct c; by apply (valid_length s s1)).
  destruct (cur_set_spec s1 c (Some (NNode i)) Hok1 Hcok1) as (Hok2 & Hl2 & Hn2). fold s2 in Hok2, Hl2, Hn2.
  assert (∀ r, valid s r → valid s1 r) as Hv1 by (intros r; by apply (valid_length s s1)).
  split; [split; [done|congruence|..]|]; intros r Hr;
    destruct (Hn2 r (Hv1 r Hr)) as (E1 & E2 & E3 & E4 & E5).
  - rewrite E1, (Hn1 r Hr). by destruct (decide (r = NNode i)) as [->|].
  - rewrite E2, (Hn1 r Hr). destruct (decide (r = NNode i)) as [->|]; [by rewrite decide_False|done].
  - rewrite E3, (Hn1 r Hr). by destruct (decide (r = NNode i)) as [->|].
  - rewrite E5, (Hn1 r Hr). by destruct (decide (r = NNode i)) as [->|].
  - rewrite E4, (Hn1 r Hr). by destruct (decide (r = NNode i)) as [->|].
Qed.

Lemma link_child_spec s K par i : ns_inv s K → valid s par → (i < length (nodes s))%nat →
  (∀ r, valid s r → i ∉ K r) → n_parent (node s (NNode i)) = Some par →
  (∀ j, j ∈ K par → nm s j ≠ nm s i) →
  let s' := vfs_ns_link_child s par (NNode i) in
  ∃ l1 l2, K par = l1 ++ l2 ∧ ns_inv s' (upd K par (l1 ++ i :: l2)) ∧ same_data s s'.
Proof.
  intros Hinv Hv Hi Hfree Hpar Hnew. unfold vfs_ns_link_child.
  pose proof (link_walk_spec s (nm s i) (sib_fuel s) (ni_short _ _ Hinv) (ni_short _ _ Hinv i Hi)
    (K par) (FirstOf par) (ni_chain _ _ Hinv par Hv) (ni_sorted _ _ Hinv par Hv)) as Hw.
  rewrite sib_fuel_eq in Hw |- * by apply Hinv. pose proof (kids_length _ _ _ Hinv Hv).
  specialize (Hw ltac:(lia)). destruct (link_walk _ _ _ _) as [c|].
  2:{ destruct Hw as (j & Hj & Hn). by destruct (Hnew j Hj). }
  destruct Hw as (l1 & l2 & E & -> & Hc2 & H1 & H2). exists l1, l2.
  pose proof (cursor_after_ok s K par l1 l2 Hinv Hv E) as Hcok.
  assert (cursor_after (FirstOf par) l1 ≠ NextOf (NNode i)) as Hci.
  { unfold cursor_after. destruct (last l1) as [j|] eqn:El; [|done]. intros [= ->].
    apply (Hfree par Hv). rewrite E. apply elem_of_app. left. by apply last_Some_elem_of. }
  destruct (link_child_splice s K i _ Hinv Hi Hcok Hci) as [Hs Hp]. cbv zeta in Hs, Hp.
  set (s2 := cur_set _ _ _) in *. pose proof (sp_len _ _ _ _ _ _ Hs) as Hl.
  assert (∀ r k, valid s r → k ∈ upd K par (l1 ++ i :: l2) r → k = i ∧ r = par ∨ k ∈ K r) as Hin.
  { intros r k Hr. unfold upd. destruct (decide (r = par)) as [->|]; [|by right].
    rewrite E, elem_of_app, elem_of_cons, elem_of_app. tauto. }
  split_and!; [done| |split_and!; [apply Hs|done|intros r Hr; split_and!;
    [by apply (sp_name _ _ _ _ _ _ Hs)|by apply Hp|by apply (sp_attrs _ _ _ _ _ _ Hs)]]].
  split.
  - apply Hs.
  - intros r Hr%(valid_length s s2 r Hl). unfold upd. destruct (decide (r = par)) as [->|Hne].
    + apply (link_chain s s2 K); [done..|by apply Hfree|done|done].
    + apply (spliced_other s s2 K par i l1 l2 _ _ r Hinv Hv E Hs Hr Hne (Hfree r Hr)).
  - intros r k Hr%(valid_length s s2 r Hl) [[-> ->]|Hk]%(Hin r k Hr); [by rewrite Hp|].
    rewrite Hp by (by eapply (kid_bound s K r)). by apply (ni_parent _ _ Hinv).
  - intros r Hr%(valid_length s s2 r Hl). rewrite (names_kept s s2).
    + unfold upd. destruct (decide (r = par)) as [->|]; [|by apply Hinv].
      by apply (link_sorted s K par).
    + apply Hs.
    + intros k [[-> _]|Hk]%(Hin r k Hr); [done|by eapply kid_bound].
  - intros k Hk. rewrite Hl in Hk. rewrite (sp_name _ _ _ _ _ _ Hs (NNode k) Hk). by apply Hinv.
Qed.

Lemma detach_walk_spec s i fuel : ∀ l c, chain s (cur_get s c) l → i ∈ l →
  (length l < fuel)%nat →
  ∃ l1 l2, l = l1 ++ i :: l2 ∧ i ∉ l1
    ∧ detach_walk s c (NNode i) fuel = Some (cursor_after c l1).
Proof.
  induction fuel as [|fuel IH]; intros l c Hc Hi Hf; [lia|]. cbn [detach_walk].
  destruct l as [|k l]; [by apply not_elem_of_nil in Hi|]. destruct Hc as (-> & Hk & Hc).
  case_decide as E.
  - injection E as ->. exists [], l. split_and!; [done|apply not_elem_of_nil|done].
  - apply elem_of_cons in Hi as [->|Hi]; [done|].
    destruct (IH l (NextOf (NNode k)) Hc Hi ltac:(cbn in Hf; lia)) as (l1 & l2 & -> & Hn & ->).
    exists (k :: l1), l2. split_and!; [done| |by rewrite <- (cursor_after_cons c)].
    rewrite not_elem_of_cons. split; [congruence|done].
Qed.

Lemma detach_splice s K i c : ns_inv s K → (i < length (nodes s))%nat → cursor_ok s c →
  c ≠ NextOf (NNode i) →
  let s1 := cur_set s c (n_next_sibling (node s (NNode i))) in
  let s2 := node_set s1 (NNode i)
    (with_name_parent (with_next (node s1 (NNode i)) None) (n_name (node s1 (NNode i))) None) in
  spliced s s2 c (n_next_sibling (node s (NNode i))) i None
  ∧ ∀ r, valid s r → n_parent (node s2 r) = if decide (r = NNode i) then None else n_parent (node s r).
Proof.
  intros Hinv Hi Hcok Hci s1 s2.
  destruct (cur_set_spec s c (n_next_sibling (node s (NNode i))) (ni_ok _ _ Hinv) Hcok)
    as (Hok1 & Hl1 & Hn1). fold s1 in Hok1, Hl1, Hn1.
  assert (∀ r, valid s r → valid s1 r) as Hv1 by (intros r; by apply (valid_length s s1)).
  destruct (node_set_spec s1 (NNode i) (with_name_parent (with_next (node s1 (NNode i)) None)
    (n_name (node s1 (NNode i))) None) Hok1 (Hv1 (NNode i) Hi)) as (Hok2 & Hl2 & Hn2).
  fold s2 in Hok2, Hl2, Hn2.
  split; [split; [done|congruence|..]|]; intros r Hr; rewrite (Hn2 r (Hv1 r Hr));
    destruct (Hn1 r Hr) as (E1 & E2 & E3 & E4 & E5).
  - rewrite <- E1. by destruct (decide (r = NNode i)) as [->|].
  - rewrite <- E2. by destruct (decide (r = NNode i)) as [->|].
  - rewrite <- E3. by destruct (decide (r = NNode i)) as [->|].
  - rewrite <- E5. by destruct (decide (r = NNode i)) as [->|].
  - rewrite <- E4. by destruct (decide (r = NNode i)) as [->|].
Qed.

Lemma detach_chain s s' K par i l1 l2 : ns_inv s K → valid s par → K par = l1 ++ i :: l2 →
  spliced s s' (cursor_after (FirstOf par) l1) (n_next_sibling (node s (NNode i))) i None →
  chain s' (n_first_child (node s' par)) (l1 ++ l2).
Proof.
  intros Hinv Hv E Hs. pose proof (kids_NoDup s K par Hinv Hv) as Hnd. rewrite E in Hnd.
  apply NoDup_app in Hnd as (Hnd1 & Hd & [Hi2 Hnd2]%NoDup_cons).
  pose proof (ni_chain _ _ Hinv par Hv) as Hch. rewrite E in Hch.
  assert (∀ k, k ∈ l1 ++ l2 → k ≠ i) as Hki.
  { intros k Hk ->. apply elem_of_app in Hk as [Hk|Hk]; [|done]. apply (Hd i Hk). by left. }
  assert (chain s' (n_next_sibling (node s (NNode i))) l2) as H2.
  { apply (chain_ext s s'); [apply Hs| |by eapply chain_app_r]. intros k Hk Hkb.
    rewrite (spliced_next s s' K par i l1 _ _ _ k Hinv Hv E Hs Hkb)
      by (apply Hki, elem_of_app; by right).
    rewrite decide_False; [done|]. intros Hl%last_Some_elem_of. apply (Hd k Hl). by right. }
  rewrite (spliced_first _ _ _ _ _ _ _ Hv Hs). destruct (decide (l1 = [])) as [->|Hne]; [done|].
  apply (chain_remove s s' i l2 (sp_len _ _ _ _ _ _ Hs)); [done..|]. intros k Hk Hb.
  apply (spliced_next s s' K par i l1 _ _ _ k Hinv Hv E Hs Hb). apply Hki, elem_of_app. by left.
Qed.

Lemma sorted_remove (l1 l2 : list cstr) x : names_sorted (l1 ++ x :: l2) → names_sorted (l1 ++ l2).
Proof.
  unfold names_sorted. induction l1 as [|y l1 IH]; cbn [app].
  - by intros [? _]%Sorted.StronglySorted_inv.
  - intros [Hs Hf]%Sorted.StronglySorted_inv. constructor; [by apply IH|].
    apply Forall_app in Hf as [? [_ ?]%Forall_cons_1]. by apply Forall_app.
Qed.

Lemma detach_spec s K par i : ns_inv s K → valid s par → i ∈ K par →
  let s' := vfs_ns_detach s (NNode i) in
  ∃ l1 l2, K par = l1 ++ i :: l2 ∧ ns_inv s' (upd K par (l1 ++ l2))
    ∧ length (nodes s') = length (nodes s)
    ∧ (∀ r, valid s r → n_name (node s' r) = n_name (node s r)
        ∧ attrs_of (node s' r) = attrs_of (node s r)
        ∧ n_parent (node s' r) = if decide (r = NNode i) then None else n_parent (node s r))
    ∧ ∀ r, valid s r → i ∉ upd K par (l1 ++ l2) r.
Proof.
  intros Hinv Hv Hi. pose proof (kid_bound _ _ _ _ Hinv Hv Hi) as Hb. unfold vfs_ns_detach.
  rewrite (ni_parent _ _ Hinv par i Hv Hi). pose proof (kids_length _ _ _ Hinv Hv) as Hlen.
  destruct (detach_walk_spec s i (sib_fuel s) (K par) (FirstOf par) (ni_chain _ _ Hinv par Hv) Hi)
    as (l1 & l2 & E & Hn1 & ->).
  { rewrite sib_fuel_eq by apply Hinv. lia. }
  pose proof (cursor_after_ok s K par l1 (i :: l2) Hinv Hv E) as Hcok.
  assert (cursor_after (FirstOf par) l1 ≠ NextOf (NNode i)) as Hci.
  { unfold cursor_after. destruct (last l1) as [j|] eqn:El; [|done]. intros [= ->].
    by apply Hn1, last_Some_elem_of. }
  destruct (detach_splice s K i _ Hinv Hb Hcok Hci) as [Hs Hp]. cbv zeta in Hs, Hp.
  set (s2 := node_set _ _ _) in *. pose proof (sp_len _ _ _ _ _ _ Hs) as Hl. exists l1, l2.
  pose proof (kids_NoDup s K par Hinv Hv) as Hnd. rewrite E in Hnd.
  apply NoDup_app in Hnd as (_ & _ & [Hn2 _]%NoDup_cons).
  assert (∀ r, valid s r → i ∉ upd K par (l1 ++ l2) r) as Hout.
  { intros r Hr. unfold upd. destruct (decide (r = par)) as [->|Hne].
    - rewrite not_elem_of_app. done.
    - intros Hir. apply Hne. by apply (kid_disjoint s K r par i). }
  assert (∀ r k, valid s r → k ∈ upd K par (l1 ++ l2) r → k ∈ K r) as Hin.
  { intros r k Hr. unfold upd. destruct (decide (r = par)) as [->|]; [|done].
    rewrite E, !elem_of_app, elem_of_cons. tauto. }
  split_and!; [done| |done|intros r Hr; split_and!;
    [by apply (sp_name _ _ _ _ _ _ Hs)|by apply (sp_attrs _ _ _ _ _ _ Hs)|by apply Hp]|done].
  split.
  - apply Hs.
  - intros r Hr%(valid_length s s2 r Hl). unfold upd. destruct (decide (r = par)) as [->|Hne].
    + by apply (detach_chain s s2 K par i).
    + apply (spliced_other s s2 K par i l1 _ _ _ r Hinv Hv E Hs Hr Hne).
      specialize (Hout r Hr). unfold upd in Hout. by rewrite decide_False in Hout.
  - intros r k Hr%(valid_length s s2 r Hl) Hk. rewrite Hp by (eapply (kid_bound s K r); auto).
    rewrite decide_False by (intros [= ->]; by apply (Hout r Hr)).
    apply (ni_parent _ _ Hinv); auto.
  - intros r Hr%(valid_length s s2 r Hl). rewrite (names_kept s s2).
    + unfold upd. destruct (decide (r = par)) as [->|]; [|by apply Hinv].
      apply (ni_sorted _ _ Hinv) in Hv. rewrite E, fmap_app, fmap_cons in Hv.
      rewrite fmap_app. by eapply sorted_remove.
    + apply Hs.
    + intros k Hk. eapply (kid_bound s K r); auto.
  - intros k Hk. rewrite Hl in Hk. rewrite (sp_name _ _ _ _ _ _ Hs (NNode k) Hk). by apply Hinv.
Qed.

(** ** New nodes *)

Definition new_node (par : nref) (name : cstr) (is_dir : bool) : vfs_ns_node :=
  NsNode (strncpy_term name (NS_NAME_MAX - 1)) (Some par) None None
    (if is_dir then NS_DIR_MODE else NS_FILE_MODE) is_dir false false false false false.

(** [s'] has the nodes of [s], as they were. *)
Definition keeps s s' : Prop :=
  tab_ok s' ∧ (length (nodes s) ≤ length (nodes s'))%nat
  ∧ ∀ r, valid s r → node s' r = node s r.

Lemma keeps_inv s s' K : ns_inv s K → keeps s s' → length (nodes s') = length (nodes s) →
  ns_inv s' K.
Proof.
  intros Hinv (Hok & _ & Hn) Hl. apply (same_links_inv s); [done|].
  split_and!; [done|done|]. intros r Hr. by rewrite Hn.
Qed.

Lemma append_inv s s' K : let n := length (nodes s) in ns_inv s K → keeps s s' →
  length (nodes s') = S n → n_first_child (node s' (NNode n)) = None → short (nm s' n) →
  ns_inv s' (upd K (NNode n) []).
Proof.
  intros n Hinv (Hok & _ & Hk) Hlen Hfirst Hshort.
  assert (∀ r, valid s' r → r ≠ NNode n → valid s r) as Hvv.
  { intros [|j]; cbn; [done|]. intros Hj Hne. assert (j ≠ n) by congruence. unfold n in *. lia. }
  assert (∀ r k, valid s' r → k ∈ upd K (NNode n) [] r → valid s r ∧ k ∈ K r ∧ (k < n)%nat) as Hin.
  { intros r k Hr. unfold upd. destruct (decide (r = NNode n)) as [->|Hne]; [by intros ?%not_elem_of_nil|].
    intros Hk'. pose proof (Hvv r Hr Hne) as Hvr. split_and!; [done|done|].
    by apply (kid_bound s K r). }
  split.
  - done.
  - intros r Hr. unfold upd. destruct (decide (r = NNode n)) as [->|Hne]; [done|].
    rewrite Hk by auto. pose proof (ni_chain _ _ Hinv r (Hvv r Hr Hne)) as Hch.
    clear -Hch Hk Hlen. revert Hch. generalize (n_first_child (node s r)). generalize (K r).
    induction l as [|k l IH]; intros q; cbn [chain]; [done|]. intros (-> & Hb & Hc).
    split_and!; [done|unfold n in *; lia|]. rewrite Hk by done. by apply IH.
  - intros r k Hr Hk'. destruct (Hin r k Hr Hk') as (Hvr & Hkr & Hb). rewrite Hk by done.
    by apply (ni_parent _ _ Hinv).
  - intros r Hr. rewrite (list_fmap_ext (λ i, nm s' i) (λ i, nm s i)).
    2:{ intros ? k Hk'%list_elem_of_lookup_2. destruct (Hin r k Hr Hk') as (_ & _ & Hb). by rewrite Hk. }
    unfold upd. destruct (decide (r = NNode n)) as [->|Hne]; [constructor|]. apply Hinv; auto.
  - intros k Hb. rewrite Hlen in Hb. destruct (decide (k = n)) as [->|]; [done|].
    rewrite Hk by (cbn; unfold n in *; lia). apply Hinv. unfold n in *. lia.
Qed.

Lemma with_table_keeps s t extra : tab_ok s → rt_ok t → rt_view t = nodes s ++ extra →
  keeps s (NsState (vfs_ns_root s) t (vfs_ns_initialized s)).
Proof.
  intros Hok Ht Hview. split_and!; [done|unfold nodes at 2; cbn [vfs_ns_node_tab]; rewrite Hview, length_app; lia|].
  intros [|j] Hj; [done|]. destruct (lookup_lt_is_Some_2 _ _ Hj) as [m Hm].
  rewrite (node_lookup s j m) by done. apply node_lookup; [done|].
  unfold nodes. cbn [vfs_ns_node_tab]. rewrite Hview. by apply lookup_app_l_Some.
Qed.

Lemma alloc_node_spec al s K par name is_dir s' p : ns_inv s K → valid s par → name ≠ [] →
  vfs_ns_alloc_node al s (Some par) name is_dir = (s', p) →
  keeps s s'
  ∧ match p with
    | None => length (nodes s') = length (nodes s)
    | Some r => r = NNode (length (nodes s)) ∧ length (nodes s') = S (length (nodes s))
        ∧ node s' r = new_node par name is_dir ∧ ns_inv s' (upd K r [])
    end.
Proof.
  intros Hinv Hv Hname. unfold vfs_ns_alloc_node.
  assert (is_nul name 0 = false) as -> by (destruct name; done).
  destruct (rt_push_zero al _) as [[e t1] idx] eqn:Ep.
  destruct (rt_push_ok _ _ _ _ _ (ni_ok _ _ Hinv) Ep) as (Hok1 & Hs & Hf).
  destruct (decide (e = REND_SUCCESS)) as [->|Hne].
  2:{ intros E. assert (s' = NsState (vfs_ns_root s) t1 (vfs_ns_initialized s) ∧ p = None) as [-> ->]
        by (destruct e; by simplify_eq). specialize (Hf Hne).
      split; [apply (with_table_keeps s t1 []); [apply Hinv|done|by rewrite app_nil_r]|].
      unfold nodes. cbn [vfs_ns_node_tab]. by rewrite Hf. }
  destruct Hs as [Hv1 ->]; [done|]. rewrite (rt_count_view (vfs_ns_node_tab s)) by apply Hinv.
  fold (nodes s) in Hv1 |- *. set (n := length (nodes s)).
  assert (rt_view t1 !! n = Some zero_rec) as Hn by (rewrite Hv1; by apply list_lookup_middle).
  rewrite (rt_get_view t1 n _ Hok1 Hn), Nat2Z.id. intros [= <- <-].
  destruct (rt_set_ok t1 n (new_node par name is_dir) Hok1 (lookup_lt_Some _ _ _ Hn)) as [Hok2 Hv2].
  fold (new_node par name is_dir). rewrite Hv1 in Hv2. unfold n in Hv2 at 2.
  rewrite list_insert_middle in Hv2.
  pose proof (with_table_keeps s _ _ (ni_ok _ _ Hinv) Hok2 Hv2) as Hk. set (s' := NsState _ _ _) in *.
  assert (length (nodes s') = S n) as Hlen.
  { change (nodes s') with (rt_view (rt_set t1 (Z.of_nat n) (new_node par name is_dir))).
    rewrite Hv2, length_app. cbn. unfold n. lia. }
  assert (node s' (NNode n) = new_node par name is_dir) as Hnew.
  { apply node_lookup; [done|].
    change (nodes s') with (rt_view (rt_set t1 (Z.of_nat n) (new_node par name is_dir))).
    rewrite Hv2. by apply list_lookup_middle. }
  split; [done|]. split_and!; [done|done|done|].
  apply (append_inv s s' K Hinv Hk Hlen); unfold n in Hnew; rewrite Hnew; [done|].
  unfold short, new_node, strncpy_term. cbn [n_name]. rewrite length_take. unfold NS_NAME_MAX. lia.
Qed.

(** ** Paths *)

Arguments raw_find : simpl never.
Arguments node : simpl never.

(** The node a list of components leads to from [r], deleted or not. *)
Fixpoint ns_walk s r (cs : list cstr) : option nref :=
  match cs with
  | [] => Some r
  | c :: cs' => match raw_find s r c with Some r' => ns_walk s r' cs' | None => None end
  end.

Definition ns_view s (cs : list cstr) : option ns_attrs :=
  (λ r, attrs_of (node s r)) <$> ns_walk s NRoot cs.

Lemma ns_walk_app s r cs ds : ns_walk s r (cs ++ ds) = ns_walk s r cs ≫= λ r', ns_walk s r' ds.
Proof.
  revert r. induction cs as [|c cs IH]; intros r; [done|]. cbn [app ns_walk].
  destruct (raw_find s r c); [apply IH|done].
Qed.

Lemma ns_walk_snoc s r cs c :
  ns_walk s r (cs ++ [c]) = ns_walk s r cs ≫= λ r', raw_find s r' c.
Proof.
  rewrite ns_walk_app. destruct (ns_walk s r cs) as [r'|]; [|done]. cbn.
  by destruct (raw_find s r' c).
Qed.

Lemma ns_walk_valid s K r cs r' : ns_inv s K → valid s r → ns_walk s r cs = Some r' → valid s r'.
Proof.
  intros Hinv. revert r. induction cs as [|c cs IH]; intros r Hv; cbn; [by intros [= <-]|].
  destruct (raw_find s r c) as [q|] eqn:E; [|done]. apply IH. by eapply raw_find_valid.
Qed.

Lemma root_walk_valid s K cs r : ns_inv s K → ns_walk s NRoot cs = Some r → valid s r.
Proof. intros Hinv. by apply (ns_walk_valid s K NRoot). Qed.

(** No node has two paths. *)
Lemma ns_walk_inj s K cs ds r : ns_inv s K →
  ns_walk s NRoot cs = Some r → ns_walk s NRoot ds = Some r → cs = ds.
Proof.
  intros Hinv. revert ds r. induction cs as [|c cs IH] using rev_ind; intros ds r.
  - cbn. intros [= <-]. destruct ds as [|d ds _] using rev_ind; [done|]. rewrite ns_walk_snoc.
    destruct (ns_walk s NRoot ds) as [q|] eqn:E; [|done]. cbn.
    rewrite (raw_find_Some s K) by (done || by eapply root_walk_valid). by intros (? & ? & _).
  - rewrite ns_walk_snoc. destruct (ns_walk s NRoot cs) as [q|] eqn:E; [|done]. cbn.
    rewrite (raw_find_Some s K) by (done || by eapply root_walk_valid). intros (i & -> & Hi & <-).
    destruct ds as [|d ds _] using rev_ind; [done|]. rewrite ns_walk_snoc.
    destruct (ns_walk s NRoot ds) as [q'|] eqn:E'; [|done]. cbn.
    rewrite (raw_find_Some s K) by (done || by eapply root_walk_valid). intros (j & [= <-] & Hj & <-).
    assert (q = q') as <-.
    { apply (kid_disjoint s K q q' i Hinv); [by eapply root_walk_valid|by eapply root_walk_valid|done|done]. }
    by rewrite (IH ds q eq_refl E').
Qed.

Lemma same_links_walk s s' K cs r : ns_inv s K → same_links s s' → valid s r →
  ns_walk s' r cs = ns_walk s r cs.
Proof.
  intros Hinv Hs. revert r. induction cs as [|c cs IH]; intros r Hv; [done|]. cbn [ns_walk].
  rewrite (same_links_find s s' K) by done.
  destruct (raw_find s r c) as [q|] eqn:E; [|done]. apply IH. by eapply raw_find_valid.
Qed.

(** Children after a link. *)
Lemma link_find s s' K par i l1 l2 r c : ns_inv s K → valid s par → K par = l1 ++ l2 →
  ns_inv s' (upd K par (l1 ++ i :: l2)) → same_data s s' → (i < length (nodes s))%nat →
  (∀ j, j ∈ K par → nm s j ≠ nm s i) → valid s r →
  raw_find s' r c = if decide (r = par ∧ c = nm s i) then Some (NNode i) else raw_find s r c.
Proof.
  intros Hinv Hv E Hinv' (_ & Hl & Hd) Hi Hnew Hr.
  assert (valid s' r) as Hr' by (by apply (valid_length s s')).
  apply option_eq. intros q. rewrite (raw_find_Some s' _ r c q Hinv' Hr').
  assert (∀ k, (k < length (nodes s))%nat → nm s' k = nm s k) as Hnm.
  { intros k Hk. by destruct (Hd (NNode k) Hk) as (? & _). }
  assert (∀ k, k ∈ upd K par (l1 ++ i :: l2) r ↔ (r = par ∧ k = i) ∨ k ∈ K r) as Hin.
  { intros k. unfold upd. destruct (decide (r = par)) as [->|]; [|naive_solver].
    rewrite E, elem_of_app, elem_of_cons, elem_of_app. naive_solver. }
  destruct (decide (r = par ∧ c = nm s i)) as [[-> ->]|Hne].
  - split.
    + intros (k & -> & [[_ ->]|Hk]%Hin & Hn); [done|].
      rewrite Hnm in Hn by by eapply kid_bound. by destruct (Hnew k Hk).
    + intros [= <-]. exists i. split_and!; [done|by apply Hin; left|by apply Hnm].
  - rewrite (raw_find_Some s K) by done. split.
    + intros (k & -> & [[-> ->]|Hk]%Hin & Hn); [rewrite Hnm in Hn by done; naive_solver|].
      exists k. rewrite Hnm in Hn by by eapply kid_bound. done.
    + intros (k & -> & Hk & Hn). exists k. split_and!; [done|by apply Hin; right|].
      by rewrite Hnm by by eapply kid_bound.
Qed.

(** Linking a childless node adds exactly its path. *)
Lemma link_walk_view s s' K par i l1 l2 ps cs : ns_inv s K → valid s par → K par = l1 ++ l2 →
  ns_inv s' (upd K par (l1 ++ i :: l2)) → same_data s s' → (i < length (nodes s))%nat →
  (∀ j, j ∈ K par → nm s j ≠ nm s i) → (∀ r, valid s r → i ∉ K r) → K (NNode i) = [] →
  ns_walk s NRoot ps = Some par →
  ns_walk s' NRoot cs = if decide (cs = ps ++ [nm s i]) then Some (NNode i) else ns_walk s NRoot cs.
Proof.
  intros Hinv Hv E Hinv' Hd Hi Hnew Hfree Hleaf Hps.
  pose proof (λ r c, link_find s s' K par i l1 l2 r c Hinv Hv E Hinv' Hd Hi Hnew) as Hfind.
  assert (par ≠ NNode i) as Hpi.
  { intros ->. destruct ps as [|p ps _] using rev_ind; [done|]. rewrite ns_walk_snoc in Hps.
    destruct (ns_walk s NRoot ps) as [q|] eqn:Eq; [|done]. cbn in Hps.
    apply (raw_find_Some s K) in Hps as (k & [= <-] & Hk & _); [|done|by eapply root_walk_valid].
    apply (Hfree q); [by eapply root_walk_valid|done]. }
  assert (∀ r c, r = NNode i → raw_find s r c = None) as Hnone.
  { intros r c ->. destruct (raw_find s (NNode i) c) as [q|] eqn:Eq; [|done].
    apply (raw_find_Some s K) in Eq as (k & _ & Hk & _); [|done|done].
    rewrite Hleaf in Hk. by apply not_elem_of_nil in Hk. }
  assert (ns_walk s NRoot (ps ++ [nm s i]) = None) as Hps'.
  { rewrite ns_walk_snoc, Hps. cbn. destruct (raw_find s par _) as [q|] eqn:Eq; [|done].
    apply (raw_find_Some s K) in Eq as (k & _ & Hk & Hn); [|done|done]. by destruct (Hnew k Hk). }
  induction cs as [|c cs IH] using rev_ind.
  { rewrite decide_False; [done|]. by destruct ps. }
  rewrite !ns_walk_snoc, IH. destruct (decide (cs = ps ++ [nm s i])) as [->|Hne].
  - cbn [mbind option_bind]. rewrite Hps'. rewrite Hfind by done.
    rewrite !decide_False; [by apply Hnone| |].
    + intros [E0 _]%app_inj_2; [|done]. apply (f_equal length) in E0. rewrite length_app in E0. cbn in E0. lia.
    + intros [E0 _]. congruence.
  - destruct (ns_walk s NRoot cs) as [r|] eqn:Er; cbn [mbind option_bind].
    2:{ rewrite decide_False; [done|]. intros [-> _]%app_inj_2; [congruence|done]. }
    rewrite Hfind by by eapply root_walk_valid.
    destruct (decide (r = par ∧ c = nm s i)) as [[-> ->]|Hx].
    + assert (cs = ps) as -> by by eapply (ns_walk_inj s K). by rewrite decide_True.
    + rewrite decide_False; [done|]. intros [-> [= ->]]%app_inj_2; [|done]. apply Hx. split; congruence.
Qed.
End tree.
