(* ===== verification/NamespaceThm.v ===== *)
(** * What the operations of the directory tree do

    Lookup follows the components of a path; every operation keeps the tree
    well formed; a commit changes the attributes of one path and no other.
    Renaming or linking onto the name of a deleted file loses the file. *)

From Stdlib Require Import Ascii.
From stdpp Require Import base numbers strings gmap option list.
From S2P Require Import Prelude PageSlice SliceTable VfsPath VfsInode DirNames Cpio Mount Namespace NamespaceSpec.

#[local] Arguments raw_find : simpl never.
#[local] Arguments node : simpl never.
#[local] Abbreviation nm s i := (n_name (node s (NNode i))).

Section lookup.
Context {T : Type} `{SCL : StrcmpSLaws} `{RT : RecordTable vfs_ns_node T}
        {RTL : RecordTableLaws vfs_ns_node T}.
Implicit Types (s : ns_state T) (r : nref) (K : nref → list nat).

(** Following components through the visible children. *)
Fixpoint ns_see s (allow_deleted : bool) r (cs : list cstr) : option nref :=
  match cs with
  | [] => Some r
  | c :: cs' =>
      match vfs_ns_find_child s r c allow_deleted with
      | Some r' => ns_see s allow_deleted r' cs'
      | None => None
      end
  end.

Lemma component_of_app n c rest : slash ∉ c → (length c ≤ n)%nat →
  (rest = [] ∨ is_char rest 0 slash = true) → component_of n (c ++ rest) = c.
Proof.
  revert n. induction c as [|x c IH]; intros n Hs Hn Hr; cbn [app].
  - destruct Hr as [->|Hr]; [by destruct n|]. apply is_char_0_cons in Hr. rewrite Hr.
    by destruct n.
  - apply not_elem_of_cons in Hs as [Hx Hs]. destruct n as [|n]; [cbn in Hn; lia|].
    cbn. rewrite decide_False by congruence. f_equal. apply IH; [done|cbn in Hn; lia|done].
Qed.

(** Reading one component off a joined path. *)
Lemma component_join c cs : good_comp c → Forall good_comp cs →
  component_of (NS_NAME_MAX - 1) (join_path (c :: cs)) = c
  ∧ after_component (join_path (c :: cs)) c = join_path cs
  ∧ is_nul (join_path (c :: cs)) 0 = false ∧ is_nul c 0 = false
  ∧ is_nul (drop (length c) (join_path (c :: cs))) 0 = bool_decide (cs = []).
Proof.
  intros (Hne & Hs & _ & _ & Hl) Hcs. unfold VFS_PATH_MAX_COMPONENT_LEN in Hl.
  assert (∃ rest, join_path (c :: cs) = c ++ rest
    ∧ (cs = [] ∧ rest = [] ∨ cs ≠ [] ∧ rest = slash :: join_path cs)) as (rest & -> & Hr).
  { destruct cs as [|d cs]; [exists []|exists (slash :: join_path (d :: cs))].
    - cbn. rewrite app_nil_r. tauto.
    - split; [done|]. by right. }
  assert (is_nul c 0 = false) as Hc by (by destruct c).
  split_and!.
  - apply component_of_app; [done|unfold NS_NAME_MAX; lia|].
    destruct Hr as [[_ ->]|[_ ->]]; [by left|by right].
  - unfold after_component. rewrite drop_app_length.
    destruct Hr as [[-> ->]|[_ ->]]; [done|]. cbn. by rewrite drop_0.
  - by destruct c.
  - done.
  - rewrite drop_app_length. destruct Hr as [[-> ->]|[Hd ->]]; [done|].
    by rewrite bool_decide_eq_false_2.
Qed.

Lemma lookup_walk_see s allow cs : Forall good_comp cs → ∀ nd fuel, (length cs < fuel)%nat →
  lookup_walk s nd (join_path cs) allow fuel = ns_see s allow nd cs.
Proof.
  induction cs as [|c cs IH]; intros Hg nd fuel Hf; (destruct fuel as [|fuel]; [lia|]).
  - done.
  - apply Forall_cons_1 in Hg as [Hc Hg]. cbn [lookup_walk].
    destruct (component_join c cs Hc Hg) as (-> & Ha & -> & -> & _).
    cbn [ns_see]. destruct (vfs_ns_find_child s nd c allow); [|done].
    rewrite Ha. apply IH; [done|cbn in Hf; lia].
Qed.

Lemma comps_fuel p : (length (path_comps p) < length (path_norm p))%nat.
Proof.
  rewrite path_norm_render, render_length. pose proof (path_comps_canonical p) as [Hg _ _].
  induction Hg as [|c cs (Hc & _) _ IH]; [cbn; lia|]. rewrite weight_cons.
  destruct c; [done|]. cbn [length] in *. lia.
Qed.

Lemma norm_tail p : drop 1 (path_norm p) = join_path (path_comps p).
Proof. by rewrite path_norm_render. Qed.

Lemma is_root_comps p : vfs_path_is_root (Some (path_norm p)) = bool_decide (path_comps p = []).
Proof.
  unfold vfs_path_is_root. rewrite path_norm_norm. apply eq_bool_prop_intro.
  by rewrite !Is_true_true, is_root_norm_comps, bool_decide_eq_true.
Qed.

Lemma lookup_node_see s p allow :
  vfs_ns_lookup_node s (Some p) allow = ns_see s allow NRoot (path_comps p).
Proof.
  unfold vfs_ns_lookup_node. cbv zeta. rewrite is_root_comps. case_bool_decide as E.
  - by rewrite E.
  - rewrite norm_tail. apply lookup_walk_see; [apply path_comps_canonical|apply comps_fuel].
Qed.

(** What is seen is a path of the tree. *)
Lemma see_walk s allow cs r r' : ns_see s allow r cs = Some r' → ns_walk s r cs = Some r'.
Proof.
  revert r. induction cs as [|c cs IH]; intros r; [done|]. cbn [ns_see ns_walk].
  unfold vfs_ns_find_child. fold (raw_find s r c). destruct (raw_find s r c) as [q|]; [|done].
  destruct (vfs_ns_child_visible _ _ _); [apply IH|done].
Qed.

(** ** Creating nodes along a path *)

Fixpoint ensure_comps (al : alloc_oracle) s nd (cs : list cstr) (is_dir : bool)
  : ns_state T * ptr nref :=
  match cs with
  | [] => (s, Some nd)
  | c :: cs' =>
      match vfs_ns_ensure_child al s nd c (if bool_decide (cs' = []) then is_dir else true) with
      | (s1, None) => (s1, None)
      | (s1, Some nd1) => ensure_comps al s1 nd1 cs' is_dir
      end
  end.

Lemma ensure_walk_comps al d cs : Forall good_comp cs → ∀ s nd fuel, (length cs < fuel)%nat →
  ensure_walk al s nd (join_path cs) d fuel = ensure_comps al s nd cs d.
Proof.
  induction cs as [|c cs IH]; intros Hg s nd fuel Hf; (destruct fuel as [|fuel]; [lia|]).
  - done.
  - apply Forall_cons_1 in Hg as [Hc Hg]. cbn [ensure_walk].
    destruct (component_join c cs Hc Hg) as (-> & Ha & -> & _ & ->).
    cbn [ensure_comps]. destruct (vfs_ns_ensure_child _ _ _ _ _) as [s1 [nd1|]]; [|done].
    rewrite Ha. apply IH; [done|cbn in Hf; lia].
Qed.

Lemma ensure_path_comps al s p d :
  vfs_ns_ensure_path_nodes al s p d = ensure_comps al s NRoot (path_comps p) d.
Proof.
  unfold vfs_ns_ensure_path_nodes. cbv zeta. rewrite is_root_comps. case_bool_decide as E.
  - by rewrite E.
  - rewrite norm_tail. apply ensure_walk_comps; [apply path_comps_canonical|apply comps_fuel].
Qed.

Lemma good_short c : good_comp c → c ≠ [] ∧ strncpy_term c (NS_NAME_MAX - 1) = c.
Proof.
  intros (Hc & _ & _ & _ & Hl). split; [done|]. apply take_ge.
  unfold VFS_PATH_MAX_COMPONENT_LEN, NS_NAME_MAX in *. lia.
Qed.

Lemma keeps_find s s' K K' r c : ns_inv s K → ns_inv s' K' → keeps s s' → valid s r →
  K' r = K r → raw_find s' r c = raw_find s r c.
Proof.
  intros Hinv Hinv' (_ & Hl & Hn) Hv HK.
  assert (valid s' r) as Hv' by (destruct r; cbn in *; [done|lia]).
  apply option_eq. intros q. rewrite (raw_find_Some s' K'), (raw_find_Some s K), HK by done.
  apply exist_proper. intros i. split; intros (-> & Hi & <-);
    (split_and!; [done|done|]); rewrite Hn; try done; by eapply kid_bound.
Qed.

Lemma keeps_walk s s' K K' r cs : ns_inv s K → ns_inv s' K' → keeps s s' → valid s r →
  (∀ r, valid s r → K' r = K r) → ns_walk s' r cs = ns_walk s r cs.
Proof.
  intros Hinv Hinv' Hk Hv HK. revert r Hv. induction cs as [|c cs IH]; intros r Hv; [done|].
  cbn [ns_walk]. rewrite (keeps_find s s' K K') by auto.
  destruct (raw_find s r c) as [q|] eqn:E; [|done]. apply IH. by eapply raw_find_valid.
Qed.

(** Attributes as [vfs_ns_ensure_child] leaves them. *)
Definition revived (d : bool) (a : ns_attrs) : ns_attrs :=
  NsAttrs (a_mode a) (if d then true else a_is_dir a) false (a_in_cpio a) (a_overlay a)
    (a_is_symlink a) (a_mount_covered a).

(** The node was there: its attributes are revived and nothing else changes. *)
Lemma ensure_old al s K nd c d q : ns_inv s K → valid s nd → raw_find s nd c = Some q →
  vfs_ns_child_visible (node s nd) (node s q) true = true →
  ∃ s', vfs_ns_ensure_child al s nd c d = (s', Some q) ∧ same_links s s'
    ∧ ∀ r, valid s r → attrs_of (node s' r) =
        if decide (r = q) then revived d (attrs_of (node s q)) else attrs_of (node s r).
Proof.
  intros Hinv Hv Hq Hvis. unfold vfs_ns_ensure_child, vfs_ns_find_child. fold (raw_find s nd c).
  rewrite Hq, Hvis. eexists. split; [done|].
  pose proof (raw_find_valid s K nd c q Hinv Hv Hq) as Hvq. split.
  - by apply set_attrs_links; [apply Hinv|..].
  - intros r Hr. destruct (node_set_spec s q (with_attrs (node s q) (n_mode (node s q))
      (if d then true else n_is_dir (node s q)) false (n_in_cpio (node s q)) (n_overlay (node s q))
      (n_is_symlink (node s q)) (n_mount_covered (node s q))) (ni_ok _ _ Hinv) Hvq) as (_ & _ & ->); [|done].
    by destruct (decide (r = q)).
Qed.

(** The node was not there: it is added, or memory ran out. *)
Lemma ensure_new al s K nd ps c d s' p : ns_inv s K → ns_walk s NRoot ps = Some nd →
  good_comp c → raw_find s nd c = None →
  vfs_ns_ensure_child al s nd c d = (s', p) →
  ns_wf s'
  ∧ match p with
    | None => keeps s s' ∧ ∀ cs, ns_walk s' NRoot cs = ns_walk s NRoot cs
    | Some q => valid s' q ∧ attrs_of (node s' q) = attrs_of (new_node nd c d)
        ∧ (∀ r, valid s r → valid s' r ∧ r ≠ q ∧ attrs_of (node s' r) = attrs_of (node s r))
        ∧ ∀ cs, ns_walk s' NRoot cs =
            if decide (cs = ps ++ [c]) then Some q else ns_walk s NRoot cs
    end.
Proof.
  intros Hinv Hps Hc Hnone. pose proof (root_walk_valid _ _ _ _ Hinv Hps) as Hv.
  destruct (good_short c Hc) as [Hne Htake].
  unfold vfs_ns_ensure_child, vfs_ns_find_child. fold (raw_find s nd c). rewrite Hnone.
  destruct (vfs_ns_alloc_node al s (Some nd) c d) as [s1 q] eqn:Ea.
  destruct (alloc_node_spec al s K nd c d s1 q Hinv Hv Hne Ea) as (Hk & Hq).
  destruct q as [q|].
  2:{ intros [= <- <-]. pose proof (keeps_inv s s1 K Hinv Hk Hq) as Hinv1.
      split; [by exists K|]. split; [done|]. intros cs. by apply (keeps_walk s s1 K K). }
  destruct Hq as (-> & Hlen & Hnew & Hinv1). set (n := length (nodes s)) in *.
  intros [= <- <-]. set (K1 := upd K (NNode n) []) in *.
  assert (∀ r, valid s r → valid s1 r ∧ r ≠ NNode n ∧ K1 r = K r) as Hold.
  { intros r Hr. assert (r ≠ NNode n) as Hrn by (intros ->; cbn in Hr; unfold n in Hr; lia).
    split_and!; [|done|unfold K1, upd; by rewrite decide_False].
    destruct r; cbn in *; [done|lia]. }
  destruct (Hold nd Hv) as (Hv1 & Hndn & HKnd).
  assert (nm s1 n = c) as Hname by (by rewrite Hnew).
  assert (∀ j, j ∈ K1 nd → nm s1 j ≠ nm s1 n) as Hfresh.
  { intros j Hj E. rewrite Hname in E. rewrite HKnd in Hj.
    assert (raw_find s nd c = Some (NNode j)) as Hf; [|congruence].
    apply (raw_find_Some s K); [done..|]. exists j. split_and!; [done|done|].
    destruct Hk as (_ & _ & Hk). rewrite <- (Hk (NNode j)); [done|]. by eapply kid_bound. }
  assert (∀ r, valid s1 r → n ∉ K1 r) as Hfree.
  { intros r Hr Hn. pose proof (ni_parent _ _ Hinv1 r n Hr Hn) as Hp. rewrite Hnew in Hp.
    injection Hp as <-. rewrite HKnd in Hn. pose proof (kid_bound _ _ _ _ Hinv Hv Hn). unfold n in *. lia. }
  assert (n < length (nodes s1))%nat as Hn by lia.
  destruct (link_child_spec s1 K1 nd n Hinv1 Hv1 Hn Hfree) as (l1 & l2 & E & Hinv2 & Hd);
    [by rewrite Hnew|done|].
  set (s2 := vfs_ns_link_child s1 nd (NNode n)) in *.
  split; [by eexists|]. destruct Hd as (Hok2 & Hl2 & Hd2).
  split_and!.
  - cbn. lia.
  - destruct (Hd2 (NNode n) Hn) as (_ & _ & ->). by rewrite Hnew.
  - intros r Hr. destruct (Hold r Hr) as (Hr1 & Hrn & _).
    split_and!; [by apply (valid_length s1 s2)|done|]. destruct (Hd2 r Hr1) as (_ & _ & ->).
    destruct Hk as (_ & _ & Hk). by rewrite Hk.
  - intros cs. rewrite (link_walk_view s1 s2 K1 nd n l1 l2 ps cs); try done.
    + rewrite Hname. case_decide; [done|]. apply (keeps_walk s s1 K K1); try done.
      intros r Hr. apply Hold, Hr.
    + unfold K1, upd. by rewrite decide_True.
    + rewrite (keeps_walk s s1 K K1); try done. intros r Hr. apply Hold, Hr.
Qed.

(** ** The tree as a map: one path changes *)

Lemma view_attrs s s' K q pq a : ns_inv s K → same_links s s' → ns_walk s NRoot pq = Some q →
  (∀ r, valid s r → attrs_of (node s' r) = if decide (r = q) then a else attrs_of (node s r)) →
  ∀ cs, ns_view s' cs = if decide (cs = pq) then Some a else ns_view s cs.
Proof.
  intros Hinv Hs Hq Ha cs. unfold ns_view. rewrite (same_links_walk s s' K) by done.
  destruct (ns_walk s NRoot cs) as [r|] eqn:E; cbn [fmap option_fmap option_map].
  - rewrite Ha by by eapply root_walk_valid.
    destruct (decide (r = q)) as [->|Hne].
    + assert (cs = pq) as -> by by eapply (ns_walk_inj s K). by rewrite decide_True.
    + rewrite decide_False; [done|]. congruence.
  - rewrite decide_False; [done|]. congruence.
Qed.

(** A directory one can go through: not deleted, not hidden by a mount. *)
Definition live_dir (a : ns_attrs) : Prop :=
  a_is_dir a = true ∧ a_deleted a = false ∧ a_mount_covered a = false.
Definition dirs_along s (ps : list cstr) : Prop :=
  ∀ qs, qs `prefix_of` ps → ∃ a, ns_view s qs = Some a ∧ live_dir a.

Lemma view_walk s cs a : ns_view s cs = Some a →
  ∃ r, ns_walk s NRoot cs = Some r ∧ attrs_of (node s r) = a.
Proof.
  unfold ns_view. destruct (ns_walk s NRoot cs) as [r|]; [|done]. intros [= <-]. by exists r.
Qed.

Lemma see_snoc s allow r cs c :
  ns_see s allow r (cs ++ [c]) = ns_see s allow r cs ≫= λ r', vfs_ns_find_child s r' c allow.
Proof.
  revert r. induction cs as [|d cs IH]; intros r; cbn [app ns_see].
  - cbn. by destruct (vfs_ns_find_child s r c allow).
  - destruct (vfs_ns_find_child s r d allow); [apply IH|done].
Qed.

(** A child of a directory that no mount hides is seen unless it is deleted. *)
Lemma find_child_live s r c q allow : n_mount_covered (node s r) = false →
  raw_find s r c = Some q → allow = true ∨ n_deleted (node s q) = false →
  vfs_ns_find_child s r c allow = Some q.
Proof.
  intros Hc Hf Hd. unfold vfs_ns_find_child. fold (raw_find s r c). rewrite Hf.
  unfold vfs_ns_child_visible. rewrite Hc. cbn [andb].
  destruct Hd as [-> | ->]; [done|]. by rewrite andb_false_r.
Qed.

Lemma see_along s allow ps c q : dirs_along s ps → ns_walk s NRoot (ps ++ [c]) = Some q →
  allow = true ∨ n_deleted (node s q) = false →
  ns_see s allow NRoot (ps ++ [c]) = Some q.
Proof.
  revert c q. induction ps as [|d ps IH] using rev_ind; intros c q Hd Hq Ha;
    rewrite see_snoc; rewrite ns_walk_snoc in Hq.
  - cbn in Hq |- *. destruct (Hd []) as (a & [= <-] & _ & _ & Hcov); [done|].
    by apply find_child_live.
  - destruct (ns_walk s NRoot (ps ++ [d])) as [r|] eqn:Er; [|done]. cbn [mbind option_bind] in Hq.
    destruct (Hd (ps ++ [d])) as (a & Hva & _ & Hdel & Hcov); [done|].
    apply view_walk in Hva as (r' & Hr' & <-). assert (r' = r) as -> by congruence.
    rewrite (IH d r); [|intros qs Hqs; apply Hd; by apply prefix_app_r|done|by right].
    cbn [mbind option_bind]. by apply find_child_live.
Qed.

Definition fresh_attrs (d : bool) : ns_attrs := attrs_of (new_node NRoot [] d).

Lemma revived_live a : live_dir a → revived true a = a.
Proof. destruct a. unfold live_dir, revived. cbn. by intros (-> & -> & _). Qed.

Lemma ensure_comps_spec al d c : good_comp c → ∀ ds s K qs nd s' p, ns_inv s K →
  ns_walk s NRoot qs = Some nd →
  (∀ es, es `prefix_of` ds → ∃ a, ns_view s (qs ++ es) = Some a ∧ live_dir a) →
  ensure_comps al s nd (ds ++ [c]) d = (s', p) →
  let path := qs ++ ds ++ [c] in
  ns_wf s'
  ∧ match p with
    | None => ∀ cs, ns_view s' cs = ns_view s cs
    | Some q => valid s' q ∧ ns_walk s' NRoot path = Some q
        ∧ attrs_of (node s' q) = match ns_view s path with
                                 | Some a => revived d a
                                 | None => fresh_attrs d
                                 end
        ∧ ∀ cs, cs ≠ path → ns_view s' cs = ns_view s cs
    end.
Proof.
  intros Hc. induction ds as [|e ds IH]; intros s K qs nd s' p Hinv Hqs Hdirs; cbn [app ensure_comps];
    pose proof (root_walk_valid _ _ _ _ Hinv Hqs) as Hv;
    destruct (Hdirs []) as (a0 & Ha0 & Hl0); [apply prefix_nil| |apply prefix_nil|];
    rewrite app_nil_r in Ha0; apply view_walk in Ha0 as (nd' & Hnd' & Ea0);
    assert (nd' = nd) as -> by congruence; subst a0; destruct Hl0 as (_ & _ & Hcov).
  - rewrite bool_decide_eq_true_2 by done.
    destruct (raw_find s nd c) as [q|] eqn:Ef.
    + assert (ns_walk s NRoot (qs ++ [c]) = Some q) as Hwq by (by rewrite ns_walk_snoc, Hqs).
      assert (vfs_ns_child_visible (node s nd) (node s q) true = true) as Hvis.
      { unfold vfs_ns_child_visible. cbn [negb andb]. cbn in Hcov. by rewrite Hcov. }
      destruct (ensure_old al s K nd c d q Hinv Hv Ef Hvis) as (s1 & -> & Hs & Ha).
      intros [= <- <-]. pose proof (view_attrs s s1 K q _ _ Hinv Hs Hwq Ha) as Hview.
      split; [exists K; by eapply same_links_inv|]. split_and!.
      * apply (valid_length s s1); [apply Hs|]. by eapply root_walk_valid.
      * by rewrite (same_links_walk s s1 K).
      * unfold ns_view. rewrite Hwq, Ha by by eapply root_walk_valid. by rewrite decide_True.
      * intros cs Hne. by rewrite Hview, decide_False.
    + destruct (vfs_ns_ensure_child al s nd c d) as [s1 q] eqn:Ee.
      destruct (ensure_new al s K nd qs c d s1 q Hinv Hqs Hc Ef Ee) as [Hwf Hq].
      assert (ns_view s (qs ++ [c]) = None) as Hno
        by (unfold ns_view; by rewrite ns_walk_snoc, Hqs; cbn; rewrite Ef).
      destruct q as [q|]; intros [= <- <-]; (split; [done|]).
      * destruct Hq as (Hvq & Haq & Hold & Hw). split_and!; [done|by rewrite Hw, decide_True| |].
        -- by rewrite Hno, Haq.
        -- intros cs Hne. unfold ns_view. rewrite Hw, decide_False by done.
           destruct (ns_walk s NRoot cs) as [r|] eqn:Er; [|done]. cbn. f_equal.
           apply Hold. by eapply root_walk_valid.
      * destruct Hq as [(_ & _ & Hk) Hw]. intros cs. unfold ns_view. rewrite Hw.
        destruct (ns_walk s NRoot cs) as [r|] eqn:Er; [|done]. cbn. f_equal. f_equal.
        apply Hk. by eapply root_walk_valid.
  - rewrite bool_decide_eq_false_2 by (by destruct ds).
    destruct (Hdirs [e]) as (a & Ha & Hla); [by exists ds|].
    apply view_walk in Ha as (q & Hq & Eq). pose proof Hq as Hq'.
    rewrite ns_walk_snoc, Hqs in Hq'. cbn in Hq'.
    assert (vfs_ns_child_visible (node s nd) (node s q) true = true) as Hvis.
    { unfold vfs_ns_child_visible. cbn [negb andb]. cbn in Hcov. by rewrite Hcov. }
    destruct (ensure_old al s K nd e true q Hinv Hv Hq' Hvis) as (s1 & -> & Hs & Hat).
    rewrite Eq, (revived_live a Hla) in Hat.
    pose proof (view_attrs s s1 K q _ _ Hinv Hs Hq Hat) as Hview.
    assert (∀ cs, ns_view s1 cs = ns_view s cs) as Hsame.
    { intros cs. rewrite Hview. case_decide as E; [|done]. subst. unfold ns_view. by rewrite Hq. }
    intros He. destruct (IH s1 K (qs ++ [e]) q s' p) as [Hwf Hp].
    + by eapply same_links_inv.
    + by rewrite (same_links_walk s s1 K).
    + intros es Hes. rewrite Hsame, <- app_assoc. apply Hdirs. by apply prefix_cons.
    + done.
    + rewrite <- app_assoc in Hp. split; [done|]. destruct p as [q'|].
      * destruct Hp as (H1 & H2 & H3 & H4). rewrite Hsame in H3.
        split_and!; [done|done|done|]. intros cs Hne. by rewrite H4.
      * intros cs. by rewrite Hp.
Qed.
End lookup.

Section operations.
Context {T TB TM : Type} `{SCL : StrcmpSLaws} `{RT : RecordTable vfs_ns_node T}
        {RTL : RecordTableLaws vfs_ns_node T}
        `{RTB : RecordTable vfs_backend_entry TB} `{RTM : RecordTable vfs_mount_rec TM}.
Implicit Types (s : ns_state T) (r : nref) (K : nref → list nat).

(** ** Creating *)

(** What a commit of [create] or [mkdir] leaves at the path: [a] is what was
    there, if anything. *)
Definition created (is_dir : bool) (mode : Z) (a : option ns_attrs) : ns_attrs :=
  NsAttrs (Z.lor (Z.land mode 0x1ff) (if is_dir then 0x4000 else 0x8000)) is_dir false false true
    (match a with Some a => a_is_symlink a | None => false end)
    (match a with Some a => a_mount_covered a | None => false end).

(** Both commits: ensure the nodes of the path, then set its attributes. *)
Definition make_commit (al : alloc_oracle) s (bs : backend_state TB) (mt : TM) (norm : cstr)
    (mode : Z) (is_dir : bool) : ns_state T * Z * list ns_effect :=
  match vfs_ns_ensure_path_nodes al s norm is_dir with
  | (s1, None) => (s1, - LINUX_ENOMEM, undo_create bs mt norm norm)
  | (s1, Some r) =>
      let n := node s1 r in
      (node_set s1 r
         (with_attrs n (Z.lor (Z.land mode 0x1ff) (if is_dir then 0x4000 else 0x8000)) is_dir
            false false true (n_is_symlink n) (n_mount_covered n)), 0, [])
  end.

Lemma make_commit_spec al s bs mt p mode d ps c : ns_wf s → path_comps p = ps ++ [c] →
  dirs_along s ps →
  let '(s', ret, eff) := make_commit al s bs mt p mode d in
  ns_wf s'
  ∧ (ret = 0 ∧ eff = []
     ∧ (∃ q, vfs_ns_lookup_node s' (Some p) false = Some q)
     ∧ (∀ cs, ns_view s' cs =
          if decide (cs = path_comps p) then Some (created d mode (ns_view s (path_comps p)))
          else ns_view s cs)
     ∨ ret = - LINUX_ENOMEM ∧ eff = undo_create bs mt p p ∧ ∀ cs, ns_view s' cs = ns_view s cs).
Proof.
  intros [K Hinv] Hp Hd. unfold make_commit. rewrite ensure_path_comps, Hp.
  pose proof (comps_last_good _ _ _ Hp) as Hc.
  destruct (ensure_comps al s NRoot (ps ++ [c]) d) as [s1 q] eqn:Ee.
  destruct (ensure_comps_spec al d c Hc ps s K [] NRoot s1 q Hinv eq_refl Hd Ee) as [[K1 Hinv1] Hq].
  destruct q as [q|]; [|split; [by eexists|by right]].
  destruct Hq as (Hvq & Hw & Ha & Hview). cbn [app] in *.
  set (n' := with_attrs _ _ _ _ _ _ _ _).
  assert (same_links s1 (node_set s1 q n')) as Hs by (apply set_attrs_links; [apply Hinv1|done..]).
  assert (∀ r, valid s1 r → attrs_of (node (node_set s1 q n') r) =
    if decide (r = q) then created d mode (ns_view s (ps ++ [c])) else attrs_of (node s1 r)) as Hat.
  { intros r Hr. destruct (node_set_spec s1 q n' (ni_ok _ _ Hinv1) Hvq) as (_ & _ & ->); [|done].
    destruct (decide (r = q)); [|done]. unfold created, n', with_attrs, attrs_of; cbn.
    f_equal; [change (n_is_symlink (node s1 q)) with (a_is_symlink (attrs_of (node s1 q)))
             |change (n_mount_covered (node s1 q)) with (a_mount_covered (attrs_of (node s1 q)))];
      rewrite Ha; by destruct (ns_view s (ps ++ [c])). }
  pose proof (view_attrs s1 _ K1 q _ _ Hinv1 Hs Hw Hat) as Hv2.
  assert (∀ cs, ns_view (node_set s1 q n') cs =
    if decide (cs = ps ++ [c]) then Some (created d mode (ns_view s (ps ++ [c]))) else ns_view s cs) as Hv3.
  { intros cs. rewrite Hv2. case_decide; [done|]. by apply Hview. }
  split; [exists K1; by eapply same_links_inv|]. left. split_and!; [done|done| |done].
  exists q. rewrite lookup_node_see, Hp. apply see_along.
  - intros qs Hqs. rewrite Hv3, decide_False; [by apply Hd|].
    intros ->. apply prefix_length in Hqs. rewrite length_app in Hqs. cbn in Hqs. lia.
  - by rewrite (same_links_walk s1 _ K1).
  - right. change (a_deleted (attrs_of (node (node_set s1 q n') q)) = false).
    rewrite Hat, decide_True by done. done.
Qed.

(** ** Deleting *)

Definition unlinked (a : ns_attrs) : ns_attrs :=
  NsAttrs (a_mode a) (a_is_dir a) true (a_in_cpio a) false (a_is_symlink a) (a_mount_covered a).

Lemma see_live s cs r q : cs ≠ [] → ns_see s false r cs = Some q → n_deleted (node s q) = false.
Proof.
  destruct cs as [|c cs _] using rev_ind; [done|]. intros _. rewrite see_snoc.
  destruct (ns_see s false r cs) as [r'|]; [|done]. cbn [mbind option_bind].
  unfold vfs_ns_find_child. destruct (find_walk _ _ _ _) as [q'|]; [|done].
  unfold vfs_ns_child_visible. cbn [negb andb]. destruct (n_deleted (node s q')) eqn:E; [done|].
  destruct (_ && _); [done|]. by intros [= <-].
Qed.

Lemma ns_unlink_spec s p q : ns_wf s → path_comps p ≠ [] →
  vfs_ns_lookup_node s (Some p) false = Some q →
  let '(s', ret, eff) := vfs_namespace_unlink_commit s (Some p) in
  ret = 0 ∧ eff = [PageCacheDrop p] ∧ ns_wf s' ∧ vfs_ns_lookup_node s' (Some p) false = None
  ∧ ∀ cs, ns_view s' cs = if decide (cs = path_comps p) then unlinked <$> ns_view s cs
                          else ns_view s cs.
Proof.
  intros [K Hinv] Hne Hq. unfold vfs_namespace_unlink_commit. rewrite Hq.
  rewrite lookup_node_see in Hq. pose proof (see_walk _ _ _ _ _ Hq) as Hw.
  pose proof (root_walk_valid _ _ _ _ Hinv Hw) as Hv. set (n' := with_attrs _ _ _ _ _ _ _ _).
  assert (same_links s (node_set s q n')) as Hs by (apply set_attrs_links; [apply Hinv|done..]).
  assert (∀ r, valid s r → attrs_of (node (node_set s q n') r) =
    if decide (r = q) then unlinked (attrs_of (node s q)) else attrs_of (node s r)) as Hat.
  { intros r Hr. destruct (node_set_spec s q n' (ni_ok _ _ Hinv) Hv) as (_ & _ & ->); [|done].
    by destruct (decide (r = q)). }
  pose proof (view_attrs s _ K q _ _ Hinv Hs Hw Hat) as Hview.
  split_and!; [done|done|exists K; by eapply same_links_inv| |].
  - rewrite lookup_node_see. destruct (ns_see (node_set s q n') false NRoot (path_comps p)) as [q'|] eqn:Es; [|done].
    pose proof (see_walk _ _ _ _ _ Es) as Hw'. rewrite (same_links_walk s (node_set s q n') K) in Hw' by done.
    assert (q' = q) as -> by congruence. apply see_live in Es; [|done].
    change (a_deleted (attrs_of (node (node_set s q n') q)) = false) in Es.
    by rewrite Hat, decide_True in Es.
  - intros cs. rewrite Hview. case_decide as E; [|done]. subst. unfold ns_view. by rewrite Hw.
Qed.

(** ** Moving *)

(** A tree whose lists are those of [K1], a sublist of [K] without [i]. *)
Lemma detach_walk_view s s' K par i l1 l2 ps cs : ns_inv s K → valid s par →
  K par = l1 ++ i :: l2 → ns_inv s' (upd K par (l1 ++ l2)) →
  length (nodes s') = length (nodes s) →
  (∀ k, (k < length (nodes s))%nat → k ≠ i → nm s' k = nm s k) →
  (∀ r, valid s r → i ∉ upd K par (l1 ++ l2) r) → K (NNode i) = [] →
  ns_walk s NRoot ps = Some par →
  ns_walk s' NRoot cs = if decide (cs = ps ++ [nm s i]) then None else ns_walk s NRoot cs.
Proof.
  intros Hinv Hv E Hinv' Hl Hnm Hout Hleaf Hps.
  assert (i ∈ K par) as Hi by (rewrite E; apply elem_of_app; right; by left).
  assert (∀ r c, valid s r → raw_find s' r c =
    if decide (r = par ∧ c = nm s i) then None else raw_find s r c) as Hfind.
  { intros r c Hr. assert (valid s' r) as Hr' by (by apply (valid_length s s')).
    assert (∀ k, k ∈ upd K par (l1 ++ l2) r ↔ k ∈ K r ∧ k ≠ i) as Hin.
    { intros k. split.
      - intros Hk. split; [|intros ->; by apply (Hout r)]. unfold upd in Hk.
        destruct (decide (r = par)) as [->|]; [|done]. rewrite E.
        rewrite elem_of_app in Hk. rewrite elem_of_app, elem_of_cons. tauto.
      - intros [Hk Hki]. unfold upd. destruct (decide (r = par)) as [->|]; [|done].
        rewrite E, elem_of_app, elem_of_cons in Hk. rewrite elem_of_app. tauto. }
    apply option_eq. intros q. rewrite (raw_find_Some s' _ r c q Hinv' Hr').
    destruct (decide (r = par ∧ c = nm s i)) as [[-> ->]|Hne].
    - split; [|done]. intros (k & -> & [Hk Hki]%Hin & Hn).
      rewrite Hnm in Hn by (done || by eapply kid_bound). by destruct (Hki (kid_unique s K par k i Hinv Hv Hk Hi Hn)).
    - rewrite (raw_find_Some s K) by done. apply exist_proper. intros k. split.
      + intros (-> & [Hk Hki]%Hin & Hn). rewrite Hnm in Hn by (done || by eapply kid_bound). done.
      + intros (-> & Hk & Hn). assert (k ≠ i) as Hki.
        { intros ->. apply Hne. split; [|done]. by apply (kid_disjoint s K r par i). }
        split_and!; [done|by apply Hin|]. by rewrite Hnm by (done || by eapply kid_bound). }
  assert (ns_walk s NRoot (ps ++ [nm s i]) = Some (NNode i)) as Hpi.
  { rewrite ns_walk_snoc, Hps. cbn. apply (raw_find_Some s K); [done..|]. by exists i. }
  induction cs as [|c cs IH] using rev_ind.
  { rewrite decide_False; [done|]. by destruct ps. }
  rewrite !ns_walk_snoc, IH. destruct (decide (cs = ps ++ [nm s i])) as [->|Hne].
  - rewrite Hpi. cbn [mbind option_bind].
    assert (raw_find s (NNode i) c = None) as ->; [|by case_decide].
    destruct (raw_find s (NNode i) c) as [q|] eqn:Eq; [|done].
    apply (raw_find_Some s K) in Eq as (k & _ & Hk & _); [|done|by eapply kid_bound].
    rewrite Hleaf in Hk. by apply not_elem_of_nil in Hk.
  - destruct (ns_walk s NRoot cs) as [r|] eqn:Er; cbn [mbind option_bind]; [|by case_decide].
    rewrite Hfind by by eapply root_walk_valid.
    destruct (decide (r = par ∧ c = nm s i)) as [[-> ->]|Hx].
    + assert (cs = ps) as -> by by eapply (ns_walk_inj s K). by rewrite decide_True.
    + rewrite decide_False; [done|]. intros [-> [= ->]]%app_inj_2; [|done].
      apply Hx. split; congruence.
Qed.

(** Renaming a node that is in no list. *)
Lemma rename_free s K i name par : ns_inv s K → (i < length (nodes s))%nat → short name →
  (∀ r, valid s r → i ∉ K r) →
  let s' := node_set s (NNode i) (with_name_parent (node s (NNode i)) name par) in
  ns_inv s' K ∧ length (nodes s') = length (nodes s)
  ∧ nm s' i = name ∧ n_parent (node s' (NNode i)) = par
  ∧ (∀ r, valid s r → attrs_of (node s' r) = attrs_of (node s r))
  ∧ ∀ r, valid s r → r ≠ NNode i → n_name (node s' r) = n_name (node s r).
Proof.
  intros Hinv Hi Hname Hfree s'.
  destruct (node_set_spec s (NNode i) (with_name_parent (node s (NNode i)) name par)
    (ni_ok _ _ Hinv) Hi) as (Hok & Hl & Hn). fold s' in Hok, Hl, Hn.
  assert (∀ r k, valid s r → k ∈ K r → node s' (NNode k) = node s (NNode k)) as Hkid.
  { intros r k Hr Hk. rewrite Hn by by eapply kid_bound. rewrite decide_False; [done|].
    intros [= ->]. by apply (Hfree r). }
  split_and!; [split|done|by rewrite Hn, decide_True|by rewrite Hn, decide_True| |].
  - done.
  - intros r Hr%(valid_length s s' r Hl).
    assert (n_first_child (node s' r) = n_first_child (node s r)) as ->
      by (rewrite Hn by done; by destruct (decide (r = NNode i)) as [->|]).
    apply (chain_ext s s'); [done| |by apply Hinv]. intros k Hk _. by rewrite (Hkid r).
  - intros r k Hr%(valid_length s s' r Hl) Hk. rewrite (Hkid r k Hr Hk). by apply Hinv.
  - intros r Hr%(valid_length s s' r Hl). rewrite (list_fmap_ext (λ i, nm s' i) (λ i, nm s i)).
    + by apply Hinv.
    + intros ? k Hk%list_elem_of_lookup_2. by rewrite (Hkid r).
  - intros k Hk. rewrite Hl in Hk. rewrite Hn by done.
    destruct (decide (NNode k = NNode i)) as [[= ->]|]; [done|by apply Hinv].
  - intros r Hr. rewrite Hn by done. by destruct (decide (r = NNode i)) as [->|].
  - intros r Hr Hne. rewrite Hn by done. by rewrite decide_False.
Qed.

(** The destination of a rename or link, below live directories. *)
Lemma destination_spec s p ps c d : path_comps p = ps ++ [c] → dirs_along s ps →
  ns_walk s NRoot ps = Some d → destination s p = inr (c, d).
Proof.
  intros Hp Hd Hw. pose proof (comps_last_good _ _ _ Hp) as Hc. destruct (good_short c Hc) as [_ Ht].
  unfold destination. rewrite (vfs_path_basename_comps p ps c) by (unfold NS_NAME_MAX; done || lia).
  rewrite (vfs_path_parent_comps p ps c) by (done || lia).
  rewrite lookup_node_see, (dir_prefix_comps p ps c Hp).
  assert (ns_see s false NRoot ps = Some d) as ->.
  { destruct ps as [|c' ps _] using rev_ind; [done|].
    destruct (Hd (ps ++ [c'])) as (a & Ha & _ & Hdel & _); [done|].
    apply view_walk in Ha as (r & Hr & <-). assert (r = d) as -> by congruence.
    apply see_along; [|done|by right]. intros qs Hq. apply Hd. by apply prefix_app_r. }
  destruct (Hd ps) as (a & Ha & Hdir & _); [done|].
  apply view_walk in Ha as (r & Hr & <-). assert (r = d) as -> by congruence.
  cbn in Hdir. rewrite Hdir. unfold strncpy_term in Ht. by rewrite Ht.
Qed.

Lemma chain_None s l : chain s None l → l = [].
Proof. destruct l; [done|]. by intros [? _]. Qed.

(** Taking a childless node out of the tree under a new name. *)
Lemma take_out s K i os o q c dest : ns_inv s K → ns_walk s NRoot os = Some q →
  ns_walk s NRoot (os ++ [o]) = Some (NNode i) → n_first_child (node s (NNode i)) = None →
  short c →
  let s1 := vfs_ns_detach s (NNode i) in
  let s2 := node_set s1 (NNode i) (with_name_parent (node s1 (NNode i)) c (Some dest)) in
  ∃ K1, ns_inv s2 K1 ∧ length (nodes s2) = length (nodes s)
    ∧ nm s2 i = c ∧ n_parent (node s2 (NNode i)) = Some dest
    ∧ (∀ r, valid s r → i ∉ K1 r) ∧ K1 (NNode i) = []
    ∧ (∀ r k, valid s r → k ∈ K1 r ↔ k ∈ K r ∧ k ≠ i)
    ∧ (∀ r, valid s r → attrs_of (node s2 r) = attrs_of (node s r))
    ∧ (∀ k, (k < length (nodes s))%nat → k ≠ i → nm s2 k = nm s k)
    ∧ ∀ cs, ns_walk s2 NRoot cs = if decide (cs = os ++ [o]) then None else ns_walk s NRoot cs.
Proof.
  intros Hinv Hos Hoo Hfirst Hc s1 s2. pose proof (root_walk_valid _ _ _ _ Hinv Hos) as Hv.
  pose proof Hoo as Hk. rewrite ns_walk_snoc, Hos in Hk. cbn in Hk.
  apply (raw_find_Some s K) in Hk as (i' & [= <-] & Hi & Hno); [|done|done].
  pose proof (kid_bound _ _ _ _ Hinv Hv Hi) as Hb.
  assert (K (NNode i) = []) as Hleaf.
  { apply (chain_None s). rewrite <- Hfirst. by apply Hinv. }
  destruct (detach_spec s K q i Hinv Hv Hi) as (l1 & l2 & E & Hinv1 & Hl1 & Hd & Hout). fold s1 in Hinv1, Hl1, Hd.
  assert (∀ r, valid s r ↔ valid s1 r) as Hvv by (intros r; symmetry; by apply valid_length).
  destruct (rename_free s1 _ i c (Some dest) Hinv1) as (Hinv2 & Hl2 & Hn2 & Hp2 & Ha2 & Hnm2);
    [lia|done|intros r Hr; by apply Hout, Hvv|]. fold s2 in Hinv2, Hl2, Hn2, Hp2, Ha2, Hnm2.
  assert (∀ k, (k < length (nodes s))%nat → k ≠ i → nm s2 k = nm s k) as Hnames.
  { intros k Hk Hki. rewrite Hnm2 by (by apply (Hvv (NNode k)) || congruence). by apply Hd. }
  exists (upd K q (l1 ++ l2)). split_and!; [done|congruence|done|done|done| | | |done|].
  - unfold upd. rewrite decide_False; [done|]. intros <-. rewrite Hleaf in Hi.
    by apply not_elem_of_nil in Hi.
  - intros r k Hr. split.
    + intros Hk. split; [|intros ->; by apply (Hout r)]. unfold upd in Hk.
      destruct (decide (r = q)) as [->|]; [|done]. rewrite E.
      rewrite elem_of_app in Hk. rewrite elem_of_app, elem_of_cons. tauto.
    + intros [Hk Hki]. unfold upd. destruct (decide (r = q)) as [->|]; [|done].
      rewrite E, elem_of_app, elem_of_cons in Hk. rewrite elem_of_app. tauto.
  - intros r Hr. rewrite Ha2 by by apply Hvv. by apply Hd.
  - intros cs. rewrite (detach_walk_view s s2 K q i l1 l2 os cs); try done; [by rewrite Hno|congruence].
Qed.

Lemma see_split s old os o i : path_comps old = os ++ [o] →
  vfs_ns_lookup_node s (Some old) false = Some (NNode i) →
  (∃ q, ns_walk s NRoot os = Some q) ∧ ns_walk s NRoot (os ++ [o]) = Some (NNode i)
  ∧ n_deleted (node s (NNode i)) = false.
Proof.
  intros Ho. rewrite lookup_node_see, Ho. intros Hs. pose proof (see_walk _ _ _ _ _ Hs) as Hw.
  apply see_live in Hs; [|by destruct os]. split_and!; [|done|done].
  rewrite ns_walk_snoc in Hw. destruct (ns_walk s NRoot os) as [q|]; [by exists q|done].
Qed.

Lemma ns_rename_spec s old new os o ps c i : ns_wf s →
  path_comps old = os ++ [o] → path_comps new = ps ++ [c] →
  vfs_ns_lookup_node s (Some old) false = Some (NNode i) →
  n_first_child (node s (NNode i)) = None → dirs_along s ps → ps ≠ path_comps old →
  ns_view s (path_comps new) = None →
  let '(s', ret, eff) := vfs_namespace_rename_commit s (Some old) (Some new) in
  ret = 0 ∧ eff = [PageCacheDrop old; PageCacheDrop new] ∧ ns_wf s'
  ∧ ∀ cs, ns_view s' cs = if decide (cs = path_comps new) then ns_view s (path_comps old)
                          else if decide (cs = path_comps old) then None else ns_view s cs.
Proof.
  intros [K Hinv] Ho Hn Hlook Hfirst Hd Hps Hnone. unfold vfs_namespace_rename_commit. rewrite Hlook.
  destruct (see_split s old os o i Ho Hlook) as ([q Hos] & Hoo & _).
  destruct (Hd ps) as (ad & Had & _); [done|]. apply view_walk in Had as (d & Hwd & _).
  rewrite (destination_spec s new ps c d Hn Hd Hwd).
  pose proof (comps_last_good _ _ _ Hn) as Hc. destruct (good_short c Hc) as [_ ->].
  assert (short c) as Hsc by (destruct Hc as (_ & _ & _ & _ & Hl); unfold short, NS_NAME_MAX; exact Hl).
  destruct (take_out s K i os o q c d Hinv Hos Hoo Hfirst Hsc)
    as (K1 & Hinv2 & Hl2 & Hn2 & Hp2 & Hfree & Hleaf & HK1 & Ha2 & Hnm2 & Hw2). cbv zeta in *.
  set (s2 := node_set _ _ _) in *. pose proof (root_walk_valid _ _ _ _ Hinv Hwd) as Hvd.
  assert (∀ r, valid s r ↔ valid s2 r) as Hvv by (intros r; symmetry; by apply valid_length).
  pose proof (root_walk_valid _ _ _ _ Hinv Hoo) as Hi. cbn in Hi.
  rewrite Hn, Ho in *. rewrite <- Hn2 in Hnone.
  assert (∀ j, j ∈ K1 d → nm s2 j ≠ nm s2 i) as Hfresh.
  { intros j [Hj Hji]%HK1 E; [|done]. rewrite Hnm2, Hn2 in E by (done || by eapply kid_bound).
    assert (raw_find s d c = Some (NNode j)) as Hf by (apply (raw_find_Some s K); [done..|by exists j]).
    rewrite Hn2 in Hnone. unfold ns_view in Hnone. rewrite ns_walk_snoc, Hwd in Hnone. cbn in Hnone.
    by rewrite Hf in Hnone. }
  destruct (link_child_spec s2 K1 d i Hinv2) as (l1 & l2 & E & Hinv3 & Hd3); try done;
    [by apply Hvv|lia|intros r Hr; by apply Hfree, Hvv|].
  set (s3 := vfs_ns_link_child s2 d (NNode i)) in *.
  split_and!; [done|done|by eexists|]. intros cs. unfold ns_view at 1.
  rewrite (link_walk_view s2 s3 K1 d i l1 l2 ps cs); try done;
    [|by apply Hvv|lia|intros r Hr; by apply Hfree, Hvv|by rewrite Hw2, decide_False].
  destruct Hd3 as (_ & _ & Hd3). rewrite Hn2.
  assert (∀ r, valid s r → attrs_of (node s3 r) = attrs_of (node s r)) as Hattr.
  { intros r Hr. destruct (Hd3 r) as (_ & _ & ->); [by apply Hvv|]. by apply Ha2. }
  destruct (decide (cs = ps ++ [c])).
  - cbn. rewrite (Hattr (NNode i)) by done. unfold ns_view. by rewrite Hoo.
  - rewrite Hw2. destruct (decide (cs = os ++ [o])); [done|]. unfold ns_view.
    destruct (ns_walk s NRoot cs) as [r|] eqn:Er; [|done]. cbn. f_equal.
    apply Hattr. by eapply root_walk_valid.
Qed.

Lemma rename_lost s old new os o ps c i a : ns_wf s →
  path_comps old = os ++ [o] → path_comps new = ps ++ [c] →
  vfs_ns_lookup_node s (Some old) false = Some (NNode i) →
  n_first_child (node s (NNode i)) = None → dirs_along s ps →
  ns_view s (path_comps new) = Some a → a_deleted a = true →
  let '(s', ret, _) := vfs_namespace_rename_commit s (Some old) (Some new) in
  ret = 0 ∧ vfs_ns_lookup_node s' (Some old) false = None
  ∧ vfs_ns_lookup_node s' (Some new) false = None.
Proof.
  intros [K Hinv] Ho Hn Hlook Hfirst Hd Ha Hdel. unfold vfs_namespace_rename_commit. rewrite Hlook.
  destruct (see_split s old os o i Ho Hlook) as ([q Hos] & Hoo & Hlive).
  destruct (Hd ps) as (ad & Had & _); [done|]. apply view_walk in Had as (d & Hwd & _).
  rewrite (destination_spec s new ps c d Hn Hd Hwd).
  pose proof (comps_last_good _ _ _ Hn) as Hc. destruct (good_short c Hc) as [_ ->].
  assert (short c) as Hsc by (destruct Hc as (_ & _ & _ & _ & Hl); unfold short, NS_NAME_MAX; exact Hl).
  destruct (take_out s K i os o q c d Hinv Hos Hoo Hfirst Hsc)
    as (K1 & Hinv2 & Hl2 & Hn2 & _ & _ & _ & HK1 & Ha2 & Hnm2 & Hw2). cbv zeta in *.
  set (s2 := node_set _ _ _) in *. pose proof (root_walk_valid _ _ _ _ Hinv Hwd) as Hvd.
  apply view_walk in Ha as (x & Hx & <-). pose proof Hx as Hj. rewrite Hn, ns_walk_snoc, Hwd in Hj.
  cbn in Hj. apply (raw_find_Some s K) in Hj as (j & -> & Hj & Hnj); [|done|done].
  assert (j ≠ i) as Hji by (intros ->; cbn in Hdel; congruence).
  pose proof (kid_bound _ _ _ _ Hinv Hvd Hj) as Hbj.
  rewrite (link_child_none s2 K1 d i Hinv2).
  - split; [done|]. rewrite !lookup_node_see. split.
    + destruct (ns_see s2 false NRoot (path_comps old)) as [x|] eqn:Es; [|done].
      apply see_walk in Es. by rewrite Ho, Hw2, decide_True in Es.
    + destruct (ns_see s2 false NRoot (path_comps new)) as [x|] eqn:Es; [|done].
      pose proof (see_walk _ _ _ _ _ Es) as Hw. rewrite Hw2 in Hw. case_decide; [done|].
      assert (x = NNode j) as -> by congruence. apply see_live in Es; [|rewrite Hn; by destruct ps].
      change (a_deleted (attrs_of (node s2 (NNode j))) = false) in Es. rewrite Ha2 in Es by done.
      congruence.
  - by apply (valid_length s s2).
  - pose proof (root_walk_valid _ _ _ _ Hinv Hoo) as Hi. cbn in Hi. lia.
  - exists j. split; [by apply HK1|]. rewrite Hnm2 by done. congruence.
Qed.

(** ** Hard links *)

Definition linked (a : ns_attrs) : ns_attrs :=
  NsAttrs (a_mode a) false false (a_in_cpio a) true false false.

(** The state in which [vfs_namespace_link_commit] links its new node. *)
Lemma link_alloc al s K r d c s1 l : ns_inv s K → valid s r → valid s d → good_comp c →
  vfs_ns_alloc_node al s (Some d) c false = (s1, Some l) →
  let ln := node s1 l in
  let s2 := node_set s1 l (with_attrs ln (n_mode (node s1 r)) false false
              (n_in_cpio (node s1 r)) true (n_is_symlink ln) (n_mount_covered ln)) in
  let n := length (nodes s) in
  let K2 := upd K (NNode n) [] in
  l = NNode n ∧ ns_inv s2 K2 ∧ length (nodes s2) = S n ∧ nm s2 n = c
  ∧ n_parent (node s2 l) = Some d ∧ attrs_of (node s2 l) = linked (attrs_of (node s r))
  ∧ (∀ q, valid s q → valid s2 q ∧ q ≠ l ∧ attrs_of (node s2 q) = attrs_of (node s q)
       ∧ n_name (node s2 q) = n_name (node s q) ∧ K2 q = K q)
  ∧ (∀ q, valid s2 q → n ∉ K2 q)
  ∧ ∀ cs, ns_walk s2 NRoot cs = ns_walk s NRoot cs.
Proof.
  intros Hinv Hr Hd Hc Ea. destruct (good_short c Hc) as [Hne Htake].
  destruct (alloc_node_spec al s K d c false s1 (Some l) Hinv Hd Hne Ea)
    as (Hk & -> & Hlen & Hnew & Hinv1). cbv zeta. set (n := length (nodes s)) in *.
  set (K2 := upd K (NNode n) []) in *.
  assert (∀ q, valid s q → q ≠ NNode n) as Hqn by (intros q Hq ->; cbn in Hq; unfold n in Hq; lia).
  assert (∀ q, valid s q → valid s1 q) as Hv1 by (intros [|j]; cbn; [done|lia]).
  assert (valid s1 (NNode n)) as Hvn by (cbn; lia). pose proof Hk as (_ & _ & Hk').
  set (n' := with_attrs _ _ _ _ _ _ _ _).
  assert (same_links s1 (node_set s1 (NNode n) n')) as Hs by (apply set_attrs_links; [apply Hinv1|done..]).
  destruct (node_set_spec s1 (NNode n) n' (ni_ok _ _ Hinv1) Hvn) as (_ & Hl2 & Hn2).
  set (s2 := node_set s1 (NNode n) n') in *. pose proof (same_links_inv _ _ _ Hinv1 Hs) as Hinv2.
  split_and!; [done|done|congruence|..].
  - rewrite Hn2, decide_True by done. cbn. by rewrite Hnew.
  - rewrite Hn2, decide_True by done. cbn. by rewrite Hnew.
  - rewrite Hn2, decide_True by done. unfold n', with_attrs, attrs_of, linked. cbn.
    by rewrite Hnew, (Hk' r Hr).
  - intros q Hq. assert (node s2 q = node s q) as ->.
    { rewrite Hn2, decide_False by auto. by apply Hk'. }
    split_and!; [apply (valid_length s1 s2); auto|auto|done|done|].
    unfold K2, upd. rewrite decide_False; auto.
  - intros q Hq Hnq. pose proof (ni_parent _ _ Hinv2 q n Hq Hnq) as Hp.
    rewrite Hn2, decide_True in Hp by done. cbn in Hp. rewrite Hnew in Hp. injection Hp as <-.
    unfold K2, upd in Hnq. rewrite decide_False in Hnq by auto.
    pose proof (kid_bound _ _ _ _ Hinv Hd Hnq). unfold n in *. lia.
  - intros cs. rewrite (same_links_walk s1 s2 K2) by done. apply (keeps_walk s s1 K K2); try done.
    intros q Hq. unfold K2, upd. rewrite decide_False; auto.
Qed.

Lemma ns_link_spec al s bs mt old new ps c r : ns_wf s → path_comps new = ps ++ [c] →
  vfs_ns_lookup_node s (Some old) false = Some r → dirs_along s ps →
  ns_view s (path_comps new) = None →
  let '(s', ret, eff) :=
    vfs_namespace_link_commit (TB := TB) (TM := TM) al s bs mt (Some old) (Some new) in
  ns_wf s'
  ∧ (ret = 0 ∧ eff = []
     ∧ (∀ cs, ns_view s' cs = if decide (cs = path_comps new)
                              then linked <$> ns_view s (path_comps old) else ns_view s cs)
     ∨ ret = - LINUX_ENOMEM ∧ eff = undo_create bs mt old new ∧ ∀ cs, ns_view s' cs = ns_view s cs).
Proof.
  intros [K Hinv] Hn Hlook Hd Hnone. unfold vfs_namespace_link_commit. rewrite Hlook.
  rewrite lookup_node_see in Hlook. apply see_walk in Hlook as Hw.
  pose proof (root_walk_valid _ _ _ _ Hinv Hw) as Hr.
  destruct (Hd ps) as (ad & Had & _); [done|]. apply view_walk in Had as (d & Hwd & _).
  pose proof (root_walk_valid _ _ _ _ Hinv Hwd) as Hvd.
  rewrite (destination_spec s new ps c d Hn Hd Hwd). pose proof (comps_last_good _ _ _ Hn) as Hc.
  destruct (vfs_ns_alloc_node al s (Some d) c false) as [s1 [l|]] eqn:Ea.
  2:{ destruct (alloc_node_spec al s K d c false s1 None Hinv Hvd (proj1 Hc) Ea) as [Hk Hl].
      pose proof (keeps_inv s s1 K Hinv Hk Hl) as Hinv1. split; [by exists K|]. right.
      split_and!; [done|done|]. intros cs. unfold ns_view.
      rewrite (keeps_walk s s1 K K) by done. destruct (ns_walk s NRoot cs) as [q|] eqn:Eq; [|done].
      cbn. f_equal. f_equal. apply Hk. by eapply root_walk_valid. }
  destruct (link_alloc al s K r d c s1 l Hinv Hr Hvd Hc Ea)
    as (-> & Hinv2 & Hl2 & Hnm2 & Hp2 & Ha2 & Hold & Hfree & Hwalk). cbv zeta in *.
  set (s2 := node_set _ _ _) in *. set (n := length (nodes s)) in *. set (K2 := upd _ _ _) in *.
  destruct (Hold d Hvd) as (Hvd2 & _ & _ & _ & HKd).
  assert (∀ j, j ∈ K2 d → nm s2 j ≠ nm s2 n) as Hfresh.
  { intros j Hj E. rewrite HKd in Hj. pose proof (kid_bound _ _ _ _ Hinv Hvd Hj) as Hb.
    destruct (Hold (NNode j) Hb) as (_ & _ & _ & Hnj & _). rewrite Hnm2, Hnj in E.
    assert (raw_find s d c = Some (NNode j)) as Hf by (apply (raw_find_Some s K); [done..|by exists j]).
    unfold ns_view in Hnone. rewrite Hn, ns_walk_snoc, Hwd in Hnone. cbn in Hnone. by rewrite Hf in Hnone. }
  assert (n < length (nodes s2))%nat as Hnl by lia.
  destruct (link_child_spec s2 K2 d n Hinv2 Hvd2 Hnl Hfree Hp2 Hfresh) as (l1 & l2 & E & Hinv3 & Hd3).
  split; [by eexists|]. left. split_and!; [done|done|]. intros cs. unfold ns_view at 1.
  rewrite (link_walk_view s2 _ K2 d n l1 l2 ps cs Hinv2 Hvd2 E Hinv3 Hd3 Hnl Hfresh Hfree);
    [|unfold K2, upd; by rewrite decide_True|by rewrite Hwalk].
  destruct Hd3 as (_ & _ & Hd3). rewrite Hnm2, Hwalk, Hn. destruct (decide (cs = ps ++ [c])).
  - cbn [fmap option_fmap option_map]. destruct (Hd3 (NNode n) Hnl) as (_ & _ & ->). rewrite Ha2.
    unfold ns_view. by rewrite Hw.
  - unfold ns_view. destruct (ns_walk s NRoot cs) as [q|] eqn:Eq; [|done]. cbn [fmap option_fmap option_map]. f_equal.
    destruct (Hold q (root_walk_valid _ _ _ _ Hinv Eq)) as (Hvq & _ & Haq & _).
    by destruct (Hd3 q Hvq) as (_ & _ & ->).
Qed.
End operations.

(** ** The shape invariant, whatever the order of operations *)

Section invariant.
Context {T TB TM : Type} `{SCL : StrcmpSLaws} `{RT : RecordTable vfs_ns_node T}
        {RTL : RecordTableLaws vfs_ns_node T}
        `{RTB : RecordTable vfs_backend_entry TB} `{RTM : RecordTable vfs_mount_rec TM}.
Implicit Types (s : ns_state T) (r : nref) (K : nref → list nat).

(** Well formed and at least as many nodes. *)
Definition grows s s' : Prop := ns_wf s' ∧ ∀ r, valid s r → valid s' r.

Lemma same_links_grows s s' : ns_wf s → same_links s s' → grows s s'.
Proof.
  intros [K Hinv] Hs. split; [exists K; by eapply same_links_inv|].
  intros r. apply valid_length. apply Hs.
Qed.

Lemma set_attrs_grows s r mode d de c o l m : ns_wf s → valid s r →
  grows s (node_set s r (with_attrs (node s r) mode d de c o l m)).
Proof.
  intros Hwf Hv. apply same_links_grows; [done|]. destruct Hwf as [K Hinv].
  apply set_attrs_links; [apply Hinv|done..].
Qed.

(** Linking a node that is in no list keeps the tree well formed, even when the
    name is taken and the node is left out. *)
Lemma link_grows s K par i : ns_inv s K → valid s par → (i < length (nodes s))%nat →
  (∀ r, valid s r → i ∉ K r) → n_parent (node s (NNode i)) = Some par →
  grows s (vfs_ns_link_child s par (NNode i)).
Proof.
  intros Hinv Hv Hi Hfree Hp.
  destruct (decide (Exists (λ j, nm s j = nm s i) (K par))) as [He|Hne].
  - rewrite Exists_exists in He. rewrite (link_child_none s K) by done.
    split; [by exists K|done].
  - destruct (link_child_spec s K par i Hinv Hv Hi Hfree Hp) as (l1 & l2 & _ & Hinv' & _ & Hl & _).
    { intros j Hj E. apply Hne, Exists_exists. by exists j. }
    split; [by eexists|]. intros r. by apply valid_length.
Qed.

Lemma alloc_grows al s K par name d s' q : ns_inv s K → valid s par → name ≠ [] →
  vfs_ns_alloc_node al s (Some par) name d = (s', q) →
  grows s s'
  ∧ ∀ r, q = Some r → ∃ n K', r = NNode n ∧ ns_inv s' K' ∧ (n < length (nodes s'))%nat
      ∧ n_parent (node s' r) = Some par ∧ ∀ r', valid s' r' → n ∉ K' r'.
Proof.
  intros Hinv Hv Hn Ea. destruct (alloc_node_spec al s K par name d s' q Hinv Hv Hn Ea) as (Hk & Hq).
  assert (∀ r, valid s r → valid s' r) as Hvv.
  { destruct Hk as (_ & Hl & _). intros [|j]; cbn; [done|lia]. }
  destruct q as [r|].
  - destruct Hq as (-> & Hlen & Hnew & Hinv'). split; [split; [by eexists|done]|].
    intros ? [= <-]. eexists _, _. split_and!; [done|exact Hinv'|lia|by rewrite Hnew|].
    intros r' Hr' Hin. pose proof (ni_parent _ _ Hinv' r' _ Hr' Hin) as Hp. rewrite Hnew in Hp.
    injection Hp as <-. unfold upd in Hin. case_decide; [by apply not_elem_of_nil in Hin|].
    pose proof (kid_bound _ _ _ _ Hinv Hv Hin). lia.
  - split; [|done]. split; [exists K; by eapply keeps_inv|done].
Qed.

Lemma ensure_child_grows al s nd c d s' q : ns_wf s → valid s nd → c ≠ [] →
  vfs_ns_ensure_child al s nd c d = (s', q) →
  grows s s' ∧ ∀ r, q = Some r → valid s' r.
Proof.
  intros [K Hinv] Hv Hc. unfold vfs_ns_ensure_child.
  destruct (vfs_ns_find_child s nd c true) as [r|] eqn:Ef.
  - intros [= <- <-]. assert (valid s r) as Hr.
    { unfold vfs_ns_find_child in Ef. fold (raw_find s nd c) in Ef.
      destruct (raw_find s nd c) as [r'|] eqn:Er; [|done].
      destruct (vfs_ns_child_visible _ _ _); [|done]. injection Ef as <-. by eapply raw_find_valid. }
    destruct (set_attrs_grows s r (n_mode (node s r)) (if d then true else n_is_dir (node s r)) false
      (n_in_cpio (node s r)) (n_overlay (node s r)) (n_is_symlink (node s r))
      (n_mount_covered (node s r)) ltac:(by exists K) Hr) as [Hwf Hg].
    split; [done|]. intros ? [= <-]. by apply Hg.
  - destruct (vfs_ns_alloc_node al s (Some nd) c d) as [s1 q1] eqn:Ea.
    destruct (alloc_grows al s K nd c d s1 q1 Hinv Hv Hc Ea) as [[Hwf1 Hg1] Hq1].
    destruct q1 as [r|]; [|by intros [= <- <-]]. intros [= <- <-].
    destruct (Hq1 r eq_refl) as (n & K1 & -> & Hinv1 & Hn & Hp & Hfree).
    destruct (link_grows s1 K1 nd n Hinv1 (Hg1 nd Hv) Hn Hfree Hp) as [Hwf2 Hg2].
    split; [split; [done|auto]|]. intros ? [= <-]. by apply Hg2.
Qed.

Lemma ensure_comps_grows al d cs : Forall good_comp cs → ∀ s nd s' q, ns_wf s → valid s nd →
  ensure_comps al s nd cs d = (s', q) → grows s s' ∧ ∀ r, q = Some r → valid s' r.
Proof.
  induction cs as [|c cs IH]; intros Hg s nd s' q Hwf Hv; cbn [ensure_comps].
  - intros [= <- <-]. split; [split; done|]. by intros ? [= <-].
  - apply Forall_cons_1 in Hg as [(Hc & _) Hg].
    destruct (vfs_ns_ensure_child _ _ _ _ _) as [s1 q1] eqn:Ee.
    destruct (ensure_child_grows _ _ _ _ _ _ _ Hwf Hv Hc Ee) as [[Hwf1 Hg1] Hq1].
    destruct q1 as [nd1|]; [|by intros [= <- <-]]. intros E.
    destruct (IH Hg s1 nd1 s' q Hwf1 (Hq1 nd1 eq_refl) E) as [[Hwf2 Hg2] Hq2].
    split; [split; [done|auto]|done].
Qed.

Lemma ensure_path_grows al s p d s' q : ns_wf s →
  vfs_ns_ensure_path_nodes al s p d = (s', q) → grows s s' ∧ ∀ r, q = Some r → valid s' r.
Proof.
  intros Hwf. rewrite ensure_path_comps. apply ensure_comps_grows; [|done|done].
  apply path_comps_canonical.
Qed.

Lemma lookup_valid s p allow r : ns_wf s → vfs_ns_lookup_node s (Some p) allow = Some r → valid s r.
Proof.
  intros [K Hinv]. rewrite lookup_node_see. intros Hs%see_walk. by eapply root_walk_valid.
Qed.

Lemma destination_inr s p c d : ns_wf s → destination s p = inr (c, d) →
  valid s d ∧ c ≠ [] ∧ short c.
Proof.
  intros Hwf. unfold destination.
  destruct (path_comps p) as [|c' ps _] eqn:E using rev_ind.
  { rewrite (vfs_path_parent_root p _ E). by destruct (vfs_path_basename _ _). }
  rewrite (vfs_path_basename_comps p ps c') by (unfold NS_NAME_MAX; done || lia).
  destruct (vfs_path_parent _ _) as [pp|]; [|done].
  destruct (vfs_ns_lookup_node s (Some pp) false) as [r|] eqn:El; [|done].
  destruct (n_is_dir _); [|done]. intros [= <- <-]. split_and!.
  - by eapply lookup_valid.
  - destruct (comps_last_good _ _ _ E) as (Hc & _). by destruct c'.
  - unfold short. rewrite length_take. unfold NS_NAME_MAX. lia.
Qed.

Lemma rename_commit_wf s old new : ns_wf s → path_comps old ≠ [] →
  ns_wf (vfs_namespace_rename_commit s (Some old) (Some new)).1.1.
Proof.
  intros Hwf Hne. unfold vfs_namespace_rename_commit.
  destruct (vfs_ns_lookup_node s (Some old) false) as [r|] eqn:El; [|done].
  destruct (destination s new) as [e|[c d]] eqn:Ed; [done|]. cbn [fst].
  destruct (destination_inr s new c d Hwf Ed) as (Hvd & _ & Hc). destruct Hwf as [K Hinv].
  rewrite lookup_node_see in El. apply see_walk in El as Hw.
  destruct (path_comps old) as [|o os _] eqn:Eo using rev_ind; [done|].
  rewrite ns_walk_snoc in Hw. destruct (ns_walk s NRoot os) as [q|] eqn:Eq; [|done]. cbn in Hw.
  pose proof (root_walk_valid _ _ _ _ Hinv Eq) as Hvq.
  apply (raw_find_Some s K) in Hw as (i & -> & Hi & _); [|done|done].
  destruct (detach_spec s K q i Hinv Hvq Hi) as (l1 & l2 & E & Hinv1 & Hl1 & _ & Hout).
  set (s1 := vfs_ns_detach s (NNode i)) in *. set (K1 := upd K q (l1 ++ l2)) in *.
  assert (∀ r, valid s1 r → valid s r) as Hvv by (intros r; by apply valid_length).
  pose proof (kid_bound _ _ _ _ Hinv Hvq Hi) as Hb.
  assert (strncpy_term c (NS_NAME_MAX - 1) = c) as -> by (apply take_ge; unfold short, NS_NAME_MAX in *; lia).
  destruct (rename_free s1 K1 i c (Some d) Hinv1) as (Hinv2 & Hl2 & _ & Hp2 & _); [lia|done|by auto|].
  apply (link_grows _ K1 d i); [done|..|done].
  - apply (valid_length s1); [done|]. by apply (valid_length s).
  - lia.
  - intros r Hr. apply Hout, Hvv. by apply (valid_length s1) in Hr.
Qed.

Lemma link_commit_wf al s (bs : backend_state TB) (mt : TM) old new : ns_wf s →
  ns_wf (vfs_namespace_link_commit al s bs mt (Some old) (Some new)).1.1.
Proof.
  intros Hwf. unfold vfs_namespace_link_commit.
  destruct (vfs_ns_lookup_node s (Some old) false) as [r|] eqn:El; [|done].
  destruct (destination s new) as [e|[c d]] eqn:Ed; [done|].
  destruct (destination_inr s new c d Hwf Ed) as (Hvd & Hc & _). pose proof Hwf as [K Hinv].
  destruct (vfs_ns_alloc_node al s (Some d) c false) as [s1 q] eqn:Ea.
  destruct (alloc_grows al s K d c false s1 q Hinv Hvd Hc Ea) as [[Hwf1 Hg1] Hq].
  destruct q as [l|]; [|done]. cbn [fst].
  destruct (Hq l eq_refl) as (n & K1 & -> & Hinv1 & Hn & Hp & Hfree).
  set (n' := with_attrs _ _ _ _ _ _ _ _).
  assert (same_links s1 (node_set s1 (NNode n) n')) as Hs by (apply set_attrs_links; [apply Hinv1|done..]).
  destruct (node_set_spec s1 (NNode n) n' (ni_ok _ _ Hinv1) Hn) as (_ & Hl2 & Hn2).
  apply (link_grows _ K1 d n).
  - by eapply same_links_inv.
  - apply (valid_length s1); [done|]. by apply Hg1.
  - lia.
  - intros q Hq'. apply Hfree. by apply (valid_length s1) in Hq'.
  - rewrite Hn2, decide_True by done. done.
Qed.

Lemma make_commit_wf al s (bs : backend_state TB) (mt : TM) p mode d : ns_wf s →
  ns_wf (make_commit al s bs mt p mode d).1.1.
Proof.
  intros Hwf. unfold make_commit. destruct (vfs_ns_ensure_path_nodes al s p d) as [s1 q] eqn:Ee.
  destruct (ensure_path_grows al s p d s1 q Hwf Ee) as [[Hwf1 _] Hq].
  destruct q as [r|]; [|done]. apply (set_attrs_grows s1); auto.
Qed.

Lemma unlink_commit_wf s p : ns_wf s → ns_wf (vfs_namespace_unlink_commit s (Some p)).1.1.
Proof.
  intros Hwf. unfold vfs_namespace_unlink_commit.
  destruct (vfs_ns_lookup_node s (Some p) false) as [r|] eqn:El; [|done].
  apply (set_attrs_grows s); [done|by eapply lookup_valid].
Qed.

Lemma mount_cover_wf s p c : ns_wf s → ns_wf (vfs_namespace_set_mount_cover s (Some p) c).1.
Proof.
  intros Hwf. unfold vfs_namespace_set_mount_cover.
  destruct (vfs_ns_lookup_node s (Some (path_norm p)) true) as [r|] eqn:El; [|done].
  destruct (negb _); [done|]. apply (set_attrs_grows s); [done|by eapply lookup_valid].
Qed.

Lemma populate_wf al p st s f :
  ns_wf s → ns_wf (vfs_ns_populate_cb al p st (s, f)).2.1.
Proof.
  intros Hwf. unfold vfs_ns_populate_cb. destruct (vfs_path_is_root _); [done|].
  destruct (vfs_ns_ensure_path_nodes al s p (st_is_dir st)) as [s1 q] eqn:Ee.
  destruct (ensure_path_grows al s p _ s1 q Hwf Ee) as [[Hwf1 _] Hq].
  destruct q as [r|]; [|done]. apply (set_attrs_grows s1); auto.
Qed.

Lemma reset_wf al (mt : TM) : ns_wf (vfs_namespace_reset (T := T) al mt).1.1.
Proof.
  unfold vfs_namespace_reset. cbn [fst]. destruct (rt_init al 32) as [e t] eqn:Ei.
  destruct (rt_init_ok al 32 e t ltac:(lia) Ei) as [Hok Hv]. cbn [snd].
  exists (λ _, []). split; cbn.
  - done.
  - intros [|j]; cbn; [done|]. unfold nodes. cbn. rewrite Hv. cbn. lia.
  - by intros r i _ ?%not_elem_of_nil.
  - intros. constructor.
  - intros i. unfold nodes. cbn. rewrite Hv. cbn. lia.
Qed.
End invariant.

(** ** Paths of nodes and directory listings *)

Section listing.
Context {T TB TM : Type} `{SCL : StrcmpSLaws} `{RT : RecordTable vfs_ns_node T}
        {RTL : RecordTableLaws vfs_ns_node T}
        `{RTB : RecordTable vfs_backend_entry TB} `{RTM : RecordTable vfs_mount_rec TM}.
Implicit Types (s : ns_state T) (r : nref) (K : nref → list nat).

(** The nodes along a path, without the first. *)
Fixpoint refs s r (cs : list cstr) : list nref :=
  match cs with
  | [] => []
  | c :: cs' => match raw_find s r c with Some q => q :: refs s q cs' | None => [] end
  end.

Lemma refs_snoc s r cs c q q' : ns_walk s r cs = Some q → raw_find s q c = Some q' →
  refs s r (cs ++ [c]) = refs s r cs ++ [q'].
Proof.
  revert r. induction cs as [|d cs IH]; intros r; cbn [app ns_walk refs].
  - intros [= ->] ->. done.
  - destruct (raw_find s r d) as [x|]; [|done]. intros Hw Hf. cbn [app]. f_equal. by apply IH.
Qed.

Lemma parent_chain_refs s K cs : ns_inv s K → ∀ r acc depth, ns_walk s NRoot cs = Some r →
  (length cs ≤ depth)%nat →
  parent_chain s (Some r) acc depth = Some (refs s NRoot cs ++ acc).
Proof.
  intros Hinv. induction cs as [|c cs IH] using rev_ind; intros r acc depth Hw Hl.
  - injection Hw as <-. by destruct depth.
  - rewrite ns_walk_snoc in Hw. destruct (ns_walk s NRoot cs) as [q|] eqn:Eq; [|done].
    cbn in Hw. pose proof (root_walk_valid _ _ _ _ Hinv Eq) as Hvq. pose proof Hw as Hf.
    apply (raw_find_Some s K) in Hf as (i & -> & Hi & _); [|done|done].
    rewrite length_app in Hl. cbn in Hl. destruct depth as [|depth]; [lia|]. cbn [parent_chain].
    pose proof (ni_parent _ _ Hinv q i Hvq Hi) as Hp. unfold node in Hp.
    pose proof (kid_bound _ _ _ _ Hinv Hvq Hi) as Hb.
    destruct (lookup_lt_is_Some_2 (nodes s) i Hb) as [n Hn].
    assert (node_at s (NNode i) = Some n) as Hat by (apply (rt_get_view _ _ _ (ni_ok _ _ Hinv) Hn)).
    rewrite Hat in Hp |- *. cbn in Hp. rewrite Hp, IH by (done || lia).
    rewrite (refs_snoc s NRoot cs c q (NNode i)) by done. by rewrite <- app_assoc.
Qed.

Lemma join_names_refs s K cs : ns_inv s K → ∀ pre r q, valid s r → ns_walk s r cs = Some q →
  canonical (pre ++ cs) → join_names s (render pre) (refs s r cs) = Some (render (pre ++ cs)).
Proof.
  intros Hinv. induction cs as [|c cs IH]; intros pre r q Hv; cbn [ns_walk refs].
  - intros _ _. by rewrite app_nil_r.
  - destruct (raw_find s r c) as [x|] eqn:Ef; [|done]. intros Hw Hcan. cbn [join_names].
    pose proof (raw_find_valid s K r c x Hinv Hv Ef) as Hx.
    apply (raw_find_Some s K) in Ef as (i & -> & _ & Hn); [|done|done]. rewrite Hn.
    rewrite cons_middle, app_assoc in Hcan. pose proof (canonical_app_l _ _ Hcan) as Hpc.
    pose proof (canonical_app_l _ _ Hpc) as Hp.
    pose proof (join_child (render pre) c (render (pre ++ [c]))) as Hj.
    rewrite !path_comps_render in Hj by done. specialize (Hj eq_refl).
    rewrite path_norm_render, path_comps_render in Hj by done. rewrite Hj.
    assert (strncpy_term (render (pre ++ [c])) (VFS_PATH_MAX - 1) = render (pre ++ [c])) as ->.
    { apply take_ge. pose proof (render_short _ Hpc). unfold VFS_PATH_MAX in *. lia. }
    rewrite (IH (pre ++ [c]) (NNode i) q Hx Hw Hcan). by rewrite <- app_assoc.
Qed.

(** The path rebuilt from a node is the path that leads to it. *)
Lemma path_of_walk s cs r cap : ns_wf s → ns_walk s NRoot cs = Some r → canonical cs →
  (VFS_PATH_MAX ≤ cap)%nat → vfs_ns_path_of s (Some r) cap = Some (render cs).
Proof.
  intros [K Hinv] Hw Hc Hcap. unfold vfs_ns_path_of.
  rewrite (proj2 (Nat.ltb_ge cap 2)) by (unfold VFS_PATH_MAX in *; lia).
  case_decide as E.
  - subst. by rewrite (ns_walk_inj s K cs [] NRoot Hinv Hw eq_refl).
  - rewrite (parent_chain_refs s K cs Hinv r [] _ Hw).
    2:{ pose proof (canonical_depth _ Hc). unfold VFS_NS_PATH_DEPTH_MAX, VFS_PATH_MAX_COMPONENTS in *. lia. }
    rewrite app_nil_r. change [slash] with (render []).
    rewrite (join_names_refs s K cs Hinv [] NRoot r); [|done..]. cbn. f_equal.
    apply take_ge. pose proof (render_short _ Hc) as Hs. lia.
Qed.

(** ** Listing *)

Definition visible s r (i : nat) : bool := vfs_ns_child_visible (node s r) (node s (NNode i)) false.

Lemma readdir_walk_spec s dir fuel : ∀ l p (i : Z) index, chain s p l → (length l < fuel)%nat →
  0 ≤ index - i →
  readdir_walk s dir p i index fuel =
    NNode <$> (filter (λ k, visible s dir k = true) l !! Z.to_nat (index - i)).
Proof.
  induction fuel as [|fuel IH]; intros l p i index Hc Hf Hi; [lia|]. cbn [readdir_walk].
  destruct l as [|k l]; [by rewrite Hc|]. destruct Hc as (-> & Hk & Hc). cbn in Hf.
  fold (visible s dir k). destruct (visible s dir k) eqn:Ev; cbn [negb].
  - rewrite filter_cons_True by done. destruct (Z.eqb_spec i index) as [->|Hne].
    + by rewrite Z.sub_diag.
    + rewrite (IH l _ (i + 1) index) by (done || lia).
      replace (Z.to_nat (index - i)) with (S (Z.to_nat (index - (i + 1)))) by lia. done.
  - rewrite filter_cons_False by (by rewrite Ev). by apply IH; [|lia|].
Qed.

Definition dirent_of (n : vfs_ns_node) (path : cstr) : vfs_dirent :=
  VfsDirent (n_name n)
    (if n_is_symlink n then VFS_DT_LNK else if n_is_dir n then VFS_DT_DIR else VFS_DT_REG)
    (vfs_path_to_ino (Some path)).

Lemma sorted_filter (f : nat → cstr) (P : nat → Prop) `{∀ x, Decision (P x)} (l : list nat) :
  names_sorted (f <$> l) → names_sorted (f <$> filter P l).
Proof.
  unfold names_sorted. induction l as [|x l IH]; [done|]. rewrite fmap_cons.
  intros [Hs Hf]%Sorted.StronglySorted_inv. rewrite filter_cons. case_decide; [|by apply IH].
  rewrite fmap_cons. constructor; [by apply IH|]. rewrite Forall_fmap in Hf |- *.
  rewrite Forall_forall in Hf |- *. intros y [_ Hy]%list_elem_of_filter. by apply Hf.
Qed.
End listing.
