(* ===== verification/NamespaceProps.v ===== *)
(** * What the directory tree promises

    The properties of the namespace operations, stated on the tree as a map
    from paths to attributes, with a small file system to evaluate them on. *)

From Stdlib Require Import Ascii.
From stdpp Require Import base numbers strings gmap option list.
From S2P Require Import Prelude PageSlice SliceTable VfsPath VfsInode DirNames Cpio Mount Namespace NamespaceSpec NamespaceThm.

#[local] Arguments raw_find : simpl never.
#[local] Arguments node : simpl never.

(** ** Histories

    The operations of the coop server: a commit may happen long after its
    prepare step, with other operations in between, so a history is any
    sequence of commits on paths other than the root. *)

Inductive ns_step {T TB TM : Type} `{SC : StrcmpS} `{RT : RecordTable vfs_ns_node T}
    `{RTB : RecordTable vfs_backend_entry TB} `{RTM : RecordTable vfs_mount_rec TM}
  : ns_state T → ns_state T → Prop :=
  | StepMkdir al (bs : backend_state TB) (mt : TM) s p mode : path_comps p ≠ [] →
      ns_step s (vfs_namespace_mkdir_commit al s bs mt (Some p) mode).1.1
  | StepCreate al (bs : backend_state TB) (mt : TM) s p mode : path_comps p ≠ [] →
      ns_step s (vfs_namespace_create_commit al s bs mt (Some p) mode).1.1
  | StepUnlink s p : path_comps p ≠ [] →
      ns_step s (vfs_namespace_unlink_commit s (Some p)).1.1
  | StepRename s old new : path_comps old ≠ [] →
      ns_step s (vfs_namespace_rename_commit s (Some old) (Some new)).1.1
  | StepLink al (bs : backend_state TB) (mt : TM) s old new :
      ns_step s (vfs_namespace_link_commit al s bs mt (Some old) (Some new)).1.1
  | StepCover s p covered :
      ns_step s (vfs_namespace_set_mount_cover s (Some p) covered).1
  | StepPopulate al s p st failed :
      ns_step s (vfs_ns_populate_cb al p st (s, failed)).2.1.

Section properties.
Context {T TB TM : Type} `{SCL : StrcmpSLaws} `{RT : RecordTable vfs_ns_node T}
        {RTL : RecordTableLaws vfs_ns_node T}
        `{RTB : RecordTable vfs_backend_entry TB} `{RTM : RecordTable vfs_mount_rec TM}.
Implicit Types (s : ns_state T) (r : nref).

Lemma step_wf s s' : ns_step (TB := TB) (TM := TM) s s' → ns_wf s → ns_wf s'.
Proof.
  intros Hs Hwf. destruct Hs.
  - apply (make_commit_wf al s bs mt p mode true Hwf).
  - apply (make_commit_wf al s bs mt p mode false Hwf).
  - by apply unlink_commit_wf.
  - by apply rename_commit_wf.
  - by apply link_commit_wf.
  - by apply mount_cover_wf.
  - by apply populate_wf.
Qed.

(** C2. The tree stays a tree of sorted directories: after a reset, whatever
    sequence of commits, mounts and populate steps follows, in whatever order,
    following a directory's sibling links ends within the table, its names are
    strictly increasing, and each child points back to it; so the search for a
    name finds a child exactly when the directory has one of that name. *)
Theorem ns_tree_invariant al (mt : TM) s :
  rtc (ns_step (TB := TB) (TM := TM)) (vfs_namespace_reset (T := T) al mt).1.1 s →
  ∃ kids : nref → list nat, ∀ r, valid s r →
    chain s (n_first_child (node s r)) (kids r)
    ∧ names_sorted ((λ i, n_name (node s (NNode i))) <$> kids r)
    ∧ (∀ i, i ∈ kids r → n_parent (node s (NNode i)) = Some r)
    ∧ ∀ c q, raw_find s r c = Some q ↔ ∃ i, q = NNode i ∧ i ∈ kids r ∧ n_name (node s q) = c.
Proof.
  intros Hs. assert (ns_wf s) as [K Hinv].
  { revert Hs. generalize (reset_wf (T := T) al mt). generalize (vfs_namespace_reset (T := T) al mt).1.1.
    intros s0 Hwf Hs. induction Hs as [|s0 s1 s2 H1 _ IH]; [done|]. by apply IH, (step_wf s0). }
  exists K. intros r Hv. split_and!.
  - by apply Hinv.
  - by apply Hinv.
  - intros i. by apply (ni_parent _ _ Hinv).
  - intros c q. rewrite (raw_find_Some s K) by done. apply exist_proper. intros i.
    split; [by intros (-> & ? & <-)|]. by intros (-> & ? & ?).
Qed.

(** C23. Creating: with live directories above it, committing a create or a
    mkdir either runs out of memory, changes no path and undoes the backend
    operation, or makes the path visible as an overlay file (directory) with
    the requested permissions and changes no other path. *)
Theorem ns_create_commit_spec al s (bs : backend_state TB) (mt : TM) p mode (d : bool) ps c :
  ns_wf s → path_comps p = ps ++ [c] → dirs_along s ps →
  let '(s', ret, eff) :=
    if d then vfs_namespace_mkdir_commit al s bs mt (Some p) mode
    else vfs_namespace_create_commit al s bs mt (Some p) mode in
  ret = 0 ∧ eff = []
    ∧ (∃ q, vfs_ns_lookup_node s' (Some p) false = Some q)
    ∧ (∀ cs, ns_view s' cs =
         if decide (cs = path_comps p) then Some (created d mode (ns_view s (path_comps p)))
         else ns_view s cs)
  ∨ ret = - LINUX_ENOMEM ∧ eff = undo_create bs mt p p ∧ ∀ cs, ns_view s' cs = ns_view s cs.
Proof.
  intros Hwf Hp Hd. pose proof (make_commit_spec al s bs mt p mode d ps c Hwf Hp Hd) as Hm.
  destruct d; destruct (make_commit al s bs mt p mode _) as [[s' ret] eff] eqn:E in Hm;
    (assert (∀ x, x = (s', ret, eff) → let '(s', ret, eff) := x in
      ret = 0 ∧ eff = []
        ∧ (∃ q, vfs_ns_lookup_node s' (Some p) false = Some q)
        ∧ (∀ cs, ns_view s' cs =
             if decide (cs = path_comps p) then Some (created _ mode (ns_view s (path_comps p)))
             else ns_view s cs)
      ∨ ret = - LINUX_ENOMEM ∧ eff = undo_create bs mt p p ∧ ∀ cs, ns_view s' cs = ns_view s cs) as Hx
      by (intros ? ->; exact (proj2 Hm)); exact (Hx _ E)).
Qed.

(** Deleting: committing an unlink of a visible path hides it, keeps its
    attributes otherwise, drops its cached pages and changes no other path. *)
Theorem ns_unlink_commit_spec s p q :
  ns_wf s → path_comps p ≠ [] → vfs_ns_lookup_node s (Some p) false = Some q →
  let '(s', ret, eff) := vfs_namespace_unlink_commit s (Some p) in
  ret = 0 ∧ eff = [PageCacheDrop p] ∧ vfs_ns_lookup_node s' (Some p) false = None
  ∧ ∀ cs, ns_view s' cs = if decide (cs = path_comps p) then unlinked <$> ns_view s cs
                          else ns_view s cs.
Proof.
  intros Hwf Hne Hq. pose proof (ns_unlink_spec s p q Hwf Hne Hq) as Hu.
  destruct (vfs_namespace_unlink_commit s (Some p)) as [[s' ret] eff]. tauto.
Qed.

(** Renaming: a childless node moves, with its attributes, to a name that
    the target directory has never used; no other path changes. *)
Theorem ns_rename_commit_moves s old new os o ps c i :
  ns_wf s → path_comps old = os ++ [o] → path_comps new = ps ++ [c] →
  vfs_ns_lookup_node s (Some old) false = Some (NNode i) →
  n_first_child (node s (NNode i)) = None → dirs_along s ps → ps ≠ path_comps old →
  ns_view s (path_comps new) = None →
  let '(s', ret, eff) := vfs_namespace_rename_commit s (Some old) (Some new) in
  ret = 0 ∧ eff = [PageCacheDrop old; PageCacheDrop new]
  ∧ ∀ cs, ns_view s' cs = if decide (cs = path_comps new) then ns_view s (path_comps old)
                          else if decide (cs = path_comps old) then None else ns_view s cs.
Proof.
  intros Hwf Ho Hn Hl Hf Hd Hne Hnone.
  pose proof (ns_rename_spec s old new os o ps c i Hwf Ho Hn Hl Hf Hd Hne Hnone) as Hr.
  destruct (vfs_namespace_rename_commit s (Some old) (Some new)) as [[s' ret] eff]. tauto.
Qed.

(** Renaming onto the name of a deleted file loses the file: the rename
    reports success, and neither the old nor the new path exists any more. *)
Theorem ns_rename_onto_deleted_loses s old new os o ps c i a :
  ns_wf s → path_comps old = os ++ [o] → path_comps new = ps ++ [c] →
  vfs_ns_lookup_node s (Some old) false = Some (NNode i) →
  n_first_child (node s (NNode i)) = None → dirs_along s ps →
  ns_view s (path_comps new) = Some a → a_deleted a = true →
  let '(s', ret, _) := vfs_namespace_rename_commit s (Some old) (Some new) in
  ret = 0 ∧ vfs_ns_lookup_node s' (Some old) false = None
  ∧ vfs_ns_lookup_node s' (Some new) false = None.
Proof. apply rename_lost. Qed.

(** Hard links: with a name the target directory has never used, the link
    makes the new path a file with the mode of the old one (or memory runs out
    and the backend's link is undone), and changes no other path. *)
Theorem ns_link_commit_spec al s (bs : backend_state TB) (mt : TM) old new ps c r :
  ns_wf s → path_comps new = ps ++ [c] →
  vfs_ns_lookup_node s (Some old) false = Some r → dirs_along s ps →
  ns_view s (path_comps new) = None →
  let '(s', ret, eff) := vfs_namespace_link_commit al s bs mt (Some old) (Some new) in
  ret = 0 ∧ eff = []
    ∧ (∀ cs, ns_view s' cs = if decide (cs = path_comps new)
                             then linked <$> ns_view s (path_comps old) else ns_view s cs)
  ∨ ret = - LINUX_ENOMEM ∧ eff = undo_create bs mt old new ∧ ∀ cs, ns_view s' cs = ns_view s cs.
Proof.
  intros Hwf Hn Hl Hd Hnone. pose proof (ns_link_spec al s bs mt old new ps c r Hwf Hn Hl Hd Hnone) as Hs.
  destruct (vfs_namespace_link_commit al s bs mt (Some old) (Some new)) as [[s' ret] eff].
  exact (proj2 Hs).
Qed.

(** Listing: on a visible directory that no mount serves, readdir from
    index 2 enumerates the visible children in strictly increasing name order,
    each once, with its type and the inode number of its path, and then answers
    1. *)
Theorem ns_readdir_lists s (mt : TM) p dir cap :
  ns_wf s → (cap ≠ 0)%nat → vfs_mount_view_for_path mt (Some (path_norm p)) = None →
  vfs_ns_lookup_node s (Some p) false = Some dir → n_is_dir (node s dir) = true →
  ∃ l, names_sorted (n_name ∘ node s <$> l)
    ∧ (∀ q, q ∈ l ↔ ∃ c, vfs_ns_find_child s dir c false = Some q)
    ∧ ∀ index, 2 ≤ index →
        match l !! Z.to_nat (index - 2) with
        | None => vfs_namespace_readdir_prepare s mt (Some p) index cap = (1, None, None, [])
        | Some q => canonical (path_comps p ++ [n_name (node s q)]) →
            vfs_namespace_readdir_prepare s mt (Some p) index cap
            = (0, Some (dirent_of (node s q) (render (path_comps p ++ [n_name (node s q)]))), None, [])
        end.
Proof.
  intros Hwf Hcap Hmt Hl Hdir. pose proof (lookup_valid s p false dir Hwf Hl) as Hv.
  pose proof Hl as Hw. rewrite lookup_node_see in Hw. apply see_walk in Hw.
  pose proof Hwf as [K Hinv].
  set (ks := filter (λ k, visible s dir k = true) (K dir)).
  exists (NNode <$> ks). split_and!.
  - rewrite <- list_fmap_compose. apply (sorted_filter (λ i, n_name (node s (NNode i)))).
    by apply Hinv.
  - intros q. rewrite list_elem_of_fmap. split.
    + intros (i & -> & [Hvis Hi]%list_elem_of_filter). exists (n_name (node s (NNode i))).
      unfold vfs_ns_find_child. fold (raw_find s dir (n_name (node s (NNode i)))).
      rewrite (proj2 (raw_find_Some s K dir _ (NNode i) Hinv Hv)) by (by exists i).
      unfold visible in Hvis. by rewrite Hvis.
    + intros [c Hc]. unfold vfs_ns_find_child in Hc. fold (raw_find s dir c) in Hc.
      destruct (raw_find s dir c) as [r|] eqn:Er; [|done].
      apply (raw_find_Some s K) in Er as (i & -> & Hi & _); [|done|done].
      destruct (vfs_ns_child_visible _ _ _) eqn:Evis in Hc; [|done]. injection Hc as <-.
      exists i. split; [done|]. by apply list_elem_of_filter.
  - intros index Hi. unfold vfs_namespace_readdir_prepare.
    rewrite (proj2 (Nat.eqb_neq cap 0) Hcap), Hmt. cbv zeta.
    assert (vfs_ns_lookup_node s (Some (path_norm p)) false = Some dir) as ->
      by (rewrite lookup_node_see, path_comps_norm, <- lookup_node_see; exact Hl).
    rewrite Hdir. cbn [negb].
    rewrite (proj2 (Z.eqb_neq index 0)), (proj2 (Z.eqb_neq index 1)) by lia.
    rewrite (readdir_walk_spec s dir _ (K dir) _ 0 (index - 2) (ni_chain _ _ Hinv dir Hv))
      by (rewrite ?sib_fuel_eq by apply Hinv; pose proof (kids_length _ _ _ Hinv Hv); lia).
    rewrite Z.sub_0_r, list_lookup_fmap. fold ks.
    destruct (ks !! Z.to_nat (index - 2)) as [i|] eqn:Ei; cbn [fmap option_fmap option_map]; [|done].
    intros Hcan. apply list_elem_of_lookup_2, list_elem_of_filter in Ei as [_ Hin].
    assert (ns_walk s NRoot (path_comps p ++ [n_name (node s (NNode i))]) = Some (NNode i)) as Hwi.
    { rewrite ns_walk_snoc, Hw. cbn. apply (raw_find_Some s K); [done..|]. by exists i. }
    rewrite (path_of_walk s _ (NNode i) _ Hwf Hwi Hcan) by lia. unfold dirent_of.
    assert (strncpy_term (n_name (node s (NNode i))) (VFS_PATH_MAX - 1) = n_name (node s (NNode i))) as ->;
      [|done].
    apply take_ge. pose proof (ni_short _ _ Hinv i (kid_bound _ _ _ _ Hinv Hv Hin)) as Hs.
    unfold short, NS_NAME_MAX, VFS_PATH_MAX in *. lia.
Qed.

(** Lookup routing: outside the mounts, a visible overlay file is looked up
    at the overlay backend and a catalogue file at the root backend, under its
    normalised path; a path that is not visible is ENOENT without asking
    anyone; the root is answered locally. *)
Theorem ns_lookup_prepare_routes s (bs : backend_state TB) (mt : TM) p :
  ns_wf s → vfs_mount_view_for_path mt (Some (path_norm p)) = None →
  let '(ret, ino, port, be_path) :=
    vfs_namespace_lookup_prepare s bs mt (Some p) VFS_PATH_MAX in
  match path_comps p, vfs_ns_lookup_node s (Some p) false with
  | [], _ => ret = 0 ∧ ino = vfs_inode_init_synthetic_root
  | _, None => ret = - LINUX_ENOENT ∧ port = None
  | _, Some r =>
      be_path = path_norm p
      ∧ (if n_overlay (node s r) || n_in_cpio (node s r) then
           port = (if n_overlay (node s r) then vfs_backend_overlay_port bs
                   else vfs_backend_root_port bs)
           ∧ ret = match port with Some _ => 1 | None => - LINUX_ENXIO end
         else ret = - LINUX_ENOENT ∧ port = None)
  end.
Proof.
  intros Hwf Hmt. unfold vfs_namespace_lookup_prepare. cbv zeta.
  change (VFS_PATH_MAX =? 0)%nat with false. rewrite is_root_comps, Hmt.
  destruct (path_comps p) as [|c0 cs0] eqn:Ep; [done|]. rewrite <- Ep.
  rewrite bool_decide_eq_false_2 by congruence.
  assert (vfs_ns_lookup_node s (Some (path_norm p)) false = vfs_ns_lookup_node s (Some p) false) as ->
    by (rewrite !lookup_node_see, path_comps_norm; done).
  destruct (vfs_ns_lookup_node s (Some p) false) as [r|] eqn:El; [|done].
  pose proof El as Hw. rewrite lookup_node_see in Hw. apply see_walk in Hw.
  rewrite (path_of_walk s _ r _ Hwf Hw (path_comps_canonical p)) by lia.
  rewrite <- path_norm_render. pose proof (render_short _ (path_comps_canonical p)) as Hs.
  rewrite <- path_norm_render in Hs. rewrite (proj2 (Nat.ltb_ge _ _)) by lia.
  assert (strncpy_term (path_norm p) (VFS_PATH_MAX - 1) = path_norm p) as -> by (apply take_ge; lia).
  destruct (n_overlay (node s r)), (n_in_cpio (node s r)); cbn [orb];
    destruct (vfs_backend_overlay_port bs), (vfs_backend_root_port bs); done.
Qed.
End properties.

(** ** A small tree *)

Section checks.
Context {T : Type} `{SC : StrcmpS} `{RT : RecordTable vfs_ns_node T}.

Definition live_dirb (s : ns_state T) (cs : list cstr) : bool :=
  match ns_view s cs with
  | Some a => a_is_dir a && negb (a_deleted a) && negb (a_mount_covered a)
  | None => false
  end.
Definition dirs_alongb (s : ns_state T) (ps : list cstr) : bool :=
  forallb (λ k, live_dirb s (take k ps)) (seq 0 (S (length ps))).

Lemma dirs_alongb_sound s ps : dirs_alongb s ps = true → dirs_along s ps.
Proof.
  unfold dirs_alongb, dirs_along. rewrite forallb_forall. intros Hall qs [ds ->].
  specialize (Hall (length qs)). rewrite <- list_elem_of_In, elem_of_seq, length_app in Hall.
  specialize (Hall ltac:(lia)). rewrite take_app_length in Hall. unfold live_dirb in Hall.
  destruct (ns_view s qs) as [a|]; [|done]. exists a. split; [done|].
  apply andb_true_iff in Hall as [[? ?%negb_true_iff]%andb_true_iff ?%negb_true_iff]. done.
Qed.
End checks.

Module NsDemo.
Import ListTable.
Definition al : alloc_oracle := λ _, true.
Definition bs : backend_state (list vfs_backend_entry) :=
  BackendState [] (Some (str "cpio_port")) (Some (str "ramfs_port")) 3 true.
Definition mt : list vfs_mount_rec := [].
Abbreviation st := (ns_state (list vfs_ns_node)).
Definition s0 : st := (vfs_namespace_reset al mt).1.1.
Definition mkdir (s : st) p : st := (vfs_namespace_mkdir_commit al s bs mt (Some (str p)) 0x1ed).1.1.
Definition create (s : st) p : st := (vfs_namespace_create_commit al s bs mt (Some (str p)) 0x1a4).1.1.
Definition unlink (s : st) p : st := (vfs_namespace_unlink_commit s (Some (str p))).1.1.
Definition s2 : st := create (mkdir s0 "/d") "/d/b".
Definition s3 : st := create s2 "/d/a".
(** [/d/a] deleted again. *)
Definition s4 : st := unlink s3 "/d/a".

Lemma steps4 : rtc (ns_step (TB := list vfs_backend_entry) (TM := list vfs_mount_rec)) s0 s4.
Proof.
  eapply rtc_l; [apply (StepMkdir al bs mt s0 (str "/d")); vm_compute; discriminate|].
  eapply rtc_l; [apply (StepCreate al bs mt (mkdir s0 "/d") (str "/d/b") 0x1a4); vm_compute; discriminate|].
  eapply rtc_l; [apply (StepCreate al bs mt s2 (str "/d/a") 0x1a4); vm_compute; discriminate|].
  eapply rtc_l; [apply (StepUnlink s3 (str "/d/a")); vm_compute; discriminate|].
  apply rtc_refl.
Qed.

Lemma wf_step s s' : ns_step (TB := list vfs_backend_entry) (TM := list vfs_mount_rec) s s' →
  ns_wf s → ns_wf s'.
Proof. apply step_wf. Qed.

Lemma wf2 : ns_wf s2.
Proof.
  eapply wf_step; [apply (StepCreate al bs mt (mkdir s0 "/d") (str "/d/b") 0x1a4); vm_compute; discriminate|].
  eapply wf_step; [apply (StepMkdir al bs mt s0 (str "/d")); vm_compute; discriminate|].
  apply (reset_wf al mt).
Qed.

Lemma wf4 : ns_wf s4.
Proof.
  eapply wf_step; [apply (StepUnlink s3 (str "/d/a")); vm_compute; discriminate|].
  eapply wf_step; [apply (StepCreate al bs mt s2 (str "/d/a") 0x1a4); vm_compute; discriminate|].
  apply wf2.
Qed.

Lemma ns_tree_invariant_witness :
  ∃ kids : nref → list nat, ∀ r, valid s4 r →
    chain s4 (n_first_child (node s4 r)) (kids r)
    ∧ names_sorted ((λ i, n_name (node s4 (NNode i))) <$> kids r)
    ∧ (∀ i, i ∈ kids r → n_parent (node s4 (NNode i)) = Some r)
    ∧ ∀ c q, raw_find s4 r c = Some q ↔ ∃ i, q = NNode i ∧ i ∈ kids r ∧ n_name (node s4 q) = c.
Proof. exact (ns_tree_invariant al mt s4 steps4). Defined.

Lemma ns_create_commit_spec_witness :
  let '(s', ret, eff) := vfs_namespace_create_commit al s2 bs mt (Some (str "/d/a")) 0x1a4 in
  ret = 0 ∧ eff = []
    ∧ (∃ q, vfs_ns_lookup_node s' (Some (str "/d/a")) false = Some q)
    ∧ (∀ cs, ns_view s' cs =
         if decide (cs = path_comps (str "/d/a"))
         then Some (created false 0x1a4 (ns_view s2 (path_comps (str "/d/a"))))
         else ns_view s2 cs)
  ∨ ret = - LINUX_ENOMEM ∧ eff = undo_create bs mt (str "/d/a") (str "/d/a")
    ∧ ∀ cs, ns_view s' cs = ns_view s2 cs.
Proof.
  apply (ns_create_commit_spec al s2 bs mt (str "/d/a") 0x1a4 false [str "d"] (str "a") wf2).
  - vm_compute. reflexivity.
  - apply dirs_alongb_sound. vm_compute. reflexivity.
Defined.

Lemma ns_unlink_commit_spec_witness :
  let '(s', ret, eff) := vfs_namespace_unlink_commit s2 (Some (str "/d/b")) in
  ret = 0 ∧ eff = [PageCacheDrop (str "/d/b")]
  ∧ vfs_ns_lookup_node s' (Some (str "/d/b")) false = None
  ∧ ∀ cs, ns_view s' cs = if decide (cs = path_comps (str "/d/b"))
                          then unlinked <$> ns_view s2 cs else ns_view s2 cs.
Proof.
  apply (ns_unlink_commit_spec s2 (str "/d/b") (NNode 1) wf2).
  - vm_compute. discriminate.
  - vm_compute. reflexivity.
Defined.

Lemma ns_rename_commit_moves_witness :
  let '(s', ret, eff) := vfs_namespace_rename_commit s2 (Some (str "/d/b")) (Some (str "/c")) in
  ret = 0 ∧ eff = [PageCacheDrop (str "/d/b"); PageCacheDrop (str "/c")]
  ∧ ∀ cs, ns_view s' cs = if decide (cs = path_comps (str "/c")) then ns_view s2 (path_comps (str "/d/b"))
                          else if decide (cs = path_comps (str "/d/b")) then None else ns_view s2 cs.
Proof.
  apply (ns_rename_commit_moves s2 (str "/d/b") (str "/c") [str "d"] (str "b") [] (str "c") 1 wf2);
    try (vm_compute; reflexivity).
  - apply dirs_alongb_sound. vm_compute. reflexivity.
  - vm_compute. discriminate.
Defined.

(** [/d/b] renamed onto the deleted [/d/a] is gone. *)
Lemma ns_rename_onto_deleted_loses_witness :
  let '(s', ret, _) := vfs_namespace_rename_commit s4 (Some (str "/d/b")) (Some (str "/d/a")) in
  ret = 0 ∧ vfs_ns_lookup_node s' (Some (str "/d/b")) false = None
  ∧ vfs_ns_lookup_node s' (Some (str "/d/a")) false = None.
Proof.
  apply (ns_rename_onto_deleted_loses s4 (str "/d/b") (str "/d/a") [str "d"] (str "b")
           [str "d"] (str "a") 1 (unlinked (created false 0x1a4 None)) wf4);
    try (vm_compute; reflexivity).
  apply dirs_alongb_sound. vm_compute. reflexivity.
Defined.

Lemma ns_link_commit_spec_witness :
  let '(s', ret, eff) := vfs_namespace_link_commit al s2 bs mt (Some (str "/d/b")) (Some (str "/l")) in
  ret = 0 ∧ eff = []
    ∧ (∀ cs, ns_view s' cs = if decide (cs = path_comps (str "/l"))
                             then linked <$> ns_view s2 (path_comps (str "/d/b")) else ns_view s2 cs)
  ∨ ret = - LINUX_ENOMEM ∧ eff = undo_create bs mt (str "/d/b") (str "/l")
    ∧ ∀ cs, ns_view s' cs = ns_view s2 cs.
Proof.
  apply (ns_link_commit_spec al s2 bs mt (str "/d/b") (str "/l") [] (str "l") (NNode 1) wf2);
    try (vm_compute; reflexivity).
  apply dirs_alongb_sound. vm_compute. reflexivity.
Defined.

Lemma ns_readdir_lists_witness :
  ∃ l, names_sorted (n_name ∘ node s4 <$> l)
    ∧ (∀ q, q ∈ l ↔ ∃ c, vfs_ns_find_child s4 (NNode 0) c false = Some q)
    ∧ ∀ index, 2 ≤ index →
        match l !! Z.to_nat (index - 2) with
        | None => vfs_namespace_readdir_prepare s4 mt (Some (str "/d")) index 256 = (1, None, None, [])
        | Some q => canonical (path_comps (str "/d") ++ [n_name (node s4 q)]) →
            vfs_namespace_readdir_prepare s4 mt (Some (str "/d")) index 256
            = (0, Some (dirent_of (node s4 q)
                          (render (path_comps (str "/d") ++ [n_name (node s4 q)]))), None, [])
        end.
Proof.
  apply (ns_readdir_lists s4 mt (str "/d") (NNode 0) 256 wf4); try (vm_compute; reflexivity).
  discriminate.
Defined.

Example readdir_run :
  (λ i, let '(ret, d, _, _) := vfs_namespace_readdir_prepare s3 mt (Some (str "/d")) i 256 in
        (ret, d_name <$> d)) <$> [0; 2; 3; 4]
  = [(0, Some (str ".")); (0, Some (str "a")); (0, Some (str "b")); (1, None)].
Proof. vm_compute. reflexivity. Qed.

Lemma ns_lookup_prepare_routes_witness :
  vfs_namespace_lookup_prepare s2 bs mt (Some (str "//d/./b")) VFS_PATH_MAX
    = (1, zero_rec, Some (str "ramfs_port"), str "/d/b").
Proof.
  pose proof (ns_lookup_prepare_routes s2 bs mt (str "//d/./b") wf2 eq_refl) as H.
  vm_compute in H |- *. reflexivity.
Defined.

(** Moving a directory into itself also loses it. *)
Example rename_into_itself :
  let s' := (vfs_namespace_rename_commit s2 (Some (str "/d")) (Some (str "/d/e"))).1.1 in
  vfs_namespace_rename_prepare s2 (VfsReqCred 0 0) bs mt (Some (str "/d")) (Some (str "/d/e")) 256 256
    = (1, NsPrep (Some (str "ramfs_port")) (str "/d") (str "/d/e") 0 true true)
  ∧ vfs_ns_lookup_node s' (Some (str "/d")) false = None
  ∧ vfs_ns_lookup_node s' (Some (str "/d/e")) false = None
  ∧ vfs_ns_lookup_node s' (Some (str "/d/b")) false = None.
Proof. vm_compute. done. Qed.
End NsDemo.
