(* ===== verification/PortNames.v ===== *)
(** * Names of message ports

    Clients are told apart by the name of their reply port, so the numbers in
    port names are printed by one component and parsed by another:
    [linux_layer/proc/sys_proc_registry.c] ([proc_format_pid] and the wait
    ports), [linux_layer/ipc/rpc.c] (client ports and the tokens of nested
    calls), [servers/fs/vfs_backend_ipc.c] (reply ports of kernel threads) and
    [servers/fs/vfs_rpc.c] (the process a request comes from).  A formatter
    returns the string left in the buffer and its result. *)

From stdpp Require Import base numbers list strings option.
From Stdlib Require Import Ascii.
From S2P Require Import Prelude.

Definition PORT_NAME_LEN_MAX : nat := 64.
Definition VFS_CLIENT_PORT_PREFIX : cstr := str "vfs_cli_".
Definition IPC_RPC_NEST_TOKEN_PFX : cstr := str "@n".

Definition digit_char (d : Z) : ascii := char_of (48 + d).

(** The digits of [v], the last one first: [while (v > 0 && n < cap)]. *)
Fixpoint digits_rev (cap : nat) (v : Z) : cstr :=
  match cap with
  | O => []
  | S cap' => if 0 <? v then digit_char (v `mod` 10) :: digits_rev cap' (v `div` 10) else []
  end.

(** ** Printing *)

Definition proc_format_pid (bufsize : nat) (pid : Z) : cstr * nat :=
  let v := u64 pid in
  if (bufsize =? 0)%nat then ([], 0%nat)
  else if v =? 0 then
    if (2 <=? bufsize)%nat then (str "0", 1%nat) else ([], 0%nat)
  else
    let rev := digits_rev 32 v in
    if (bufsize <? length rev + 1)%nat then ([], 0%nat) else (reverse rev, length rev).

Definition proc_format_wait_port_name (bufsize : nat) (pid : Z) : cstr * nat :=
  let prefix := str "wait_port_" in
  if (bufsize <? length prefix + 1)%nat then ([], 0%nat)
  else
    match proc_format_pid (bufsize - length prefix) pid with
    | (_, O) => ([], 0%nat)
    | (digits, pid_len) => (prefix ++ digits, (length prefix + pid_len)%nat)
    end.

(** [None] is the early return with an empty buffer. *)
Definition ipc_port_name_copy_service (bufsize : nat) (service : ptr cstr) : option cstr :=
  match service with
  | None => None
  | Some s =>
      if (bufsize =? 0)%nat || is_nul s 0 then None
      else if (bufsize <=? length s)%nat then None else Some s
  end.

(** The common tail of the two functions below: a separator, then a number. *)
Definition append_mid_number (bufsize : nat) (buf mid : cstr) (number : Z) : cstr * nat :=
  if (bufsize <=? length buf + length mid)%nat then ([], 0%nat)
  else
    let buf' := buf ++ mid in
    match proc_format_pid (bufsize - length buf') number with
    | (_, O) => ([], 0%nat)
    | (digits, _) => (buf' ++ digits, length (buf' ++ digits))
    end.

Definition ipc_port_name_cli (bufsize : nat) (service : ptr cstr) (caller_id : Z) : cstr * nat :=
  match ipc_port_name_copy_service bufsize service with
  | None => ([], 0%nat)
  | Some buf => append_mid_number bufsize buf (str "_cli_") caller_id
  end.

Definition ipc_port_name_listen_cpu (bufsize : nat) (service : ptr cstr) (cpu : Z) : cstr * nat :=
  match ipc_port_name_copy_service bufsize service with
  | None => ([], 0%nat)
  | Some buf => append_mid_number bufsize buf (str "_c") cpu
  end.

Definition ipc_rpc_format_port_name (bufsize : nat) (prefix : ptr cstr) (pid : Z) : cstr * nat :=
  match prefix with
  | None => ([], 0%nat)
  | Some prefix =>
      if (bufsize =? 0)%nat then ([], 0%nat)
      else if (bufsize <=? length prefix)%nat then ([], 0%nat)
      else
        match proc_format_pid (bufsize - length prefix) pid with
        | (_, O) => ([], 0%nat)
        | (digits, _) => (prefix ++ digits, length (prefix ++ digits))
        end
  end.

Definition vfs_be_append_u32 (buf : cstr) (bufsize : nat) (val : Z) : option cstr :=
  if (bufsize <=? length buf)%nat then None
  else
    let digits := if val =? 0 then str "0" else digits_rev 12 val in
    if (bufsize <=? length buf + length digits)%nat then None else Some (buf ++ reverse digits).

Definition ipc_rpc_format_nest_token (bufsize : nat) (cookie : Z) : option cstr :=
  if (bufsize <? 4)%nat then None
  else
    let digits := if cookie =? 0 then str "0" else digits_rev 24 cookie in
    if (bufsize <=? 2 + length digits)%nat then None
    else Some (IPC_RPC_NEST_TOKEN_PFX ++ reverse digits).

(** The name [vfs_backend_ipc_cli_port] looks up for [tag]. *)
Definition vfs_backend_ipc_cli_port (tag : ptr cstr) : option cstr :=
  match tag with
  | None => None
  | Some tag =>
      if is_nul tag 0 then None
      else
        let pfx := take (PORT_NAME_LEN_MAX - 1) VFS_CLIENT_PORT_PREFIX in
        if (PORT_NAME_LEN_MAX <=? length pfx + 2)%nat then None
        else
          let name := pfx ++ str "k_" in
          let copied := take (PORT_NAME_LEN_MAX - 1 - length name) tag in
          if (length copied <? length tag)%nat then None else Some (name ++ copied)
  end.

Definition vfs_backend_ipc_thread_reply_port (tid : Z) : option cstr :=
  match vfs_be_append_u32 (str "t") 24 (u32 tid) with
  | None => None
  | Some tag => vfs_backend_ipc_cli_port (Some tag)
  end.

(** ** Parsing *)

Definition is_digit (c : ascii) : bool := (48 <=? byte_of c) && (byte_of c <=? 57).

Fixpoint parse_pid (s : cstr) (pid : Z) : option Z :=
  match s with
  | [] => Some pid
  | c :: s' => if is_digit c then parse_pid s' (i32 (pid * 10 + (byte_of c - 48))) else None
  end.

Definition vfs_rpc_client_pid (reply_port_name : ptr cstr) : option Z :=
  match reply_port_name with
  | None => None
  | Some name =>
      let n := length VFS_CLIENT_PORT_PREFIX in
      if negb (bool_decide (take n name = VFS_CLIENT_PORT_PREFIX)) then None
      else
        match parse_pid (drop n name) 0 with
        | None => None
        | Some pid => if pid <=? 0 then None else Some pid
        end
  end.

Definition ipc_rpc_is_nest_token (name : ptr cstr) : bool :=
  match name with
  | None => false
  | Some name =>
      is_char name 0 (char_of 64) && is_char name 1 (char_of 110) && negb (is_nul name 2)
      && forallb is_digit (drop 2 name)
  end.

Fixpoint token_value (s : cstr) (v : Z) : Z :=
  match s with
  | [] => v
  | c :: s' => token_value s' (u64 (v * 10 + (byte_of c - 48)))
  end.

Definition ipc_rpc_nest_token_cookie (name : ptr cstr) : Z :=
  if negb (ipc_rpc_is_nest_token name) then 0
  else match name with Some name => token_value (drop 2 name) 0 | None => 0 end.

(** ** Printing and parsing fit together *)

(** The number a string of digits denotes. *)
Definition dec_value (s : cstr) : Z := foldl (λ v c, v * 10 + (byte_of c - 48)) 0 s.

Lemma dec_value_snoc s c : dec_value (s ++ [c]) = dec_value s * 10 + (byte_of c - 48).
Proof. unfold dec_value. by rewrite foldl_app. Qed.

Lemma digit_char_byte d : 0 ≤ d < 10 → byte_of (digit_char d) = 48 + d.
Proof. intros Hd. enumerate d 10%nat; done. Qed.

Lemma digit_is_digit v : is_digit (digit_char (v `mod` 10)) = true.
Proof.
  unfold is_digit. pose proof (Z.mod_pos_bound v 10 ltac:(lia)). rewrite digit_char_byte by done.
  apply andb_true_iff; split; apply Z.leb_le; lia.
Qed.

Lemma digits_rev_digits cap v : Forall (λ c, is_digit c = true) (digits_rev cap v).
Proof.
  revert v. induction cap as [|cap IH]; intros v; cbn; [constructor|].
  destruct (0 <? v); constructor; [apply digit_is_digit|apply IH].
Qed.

Lemma digits_rev_value cap v : 0 ≤ v < 10 ^ Z.of_nat cap → dec_value (reverse (digits_rev cap v)) = v.
Proof.
  revert v. induction cap as [|cap IH]; intros v Hv; cbn [digits_rev].
  - change (10 ^ Z.of_nat 0) with 1 in Hv. cbn. lia.
  - destruct (Z.ltb_spec 0 v) as [Hp|]; [|cbn; lia].
    rewrite Nat2Z.inj_succ, Z.pow_succ_r in Hv by lia.
    rewrite reverse_cons, dec_value_snoc, IH.
    + pose proof (Z.mod_pos_bound v 10 ltac:(lia)). rewrite digit_char_byte by done.
      pose proof (Z.div_mod v 10 ltac:(lia)). lia.
    + split; [apply Z.div_pos; lia|]. apply Z.div_lt_upper_bound; lia.
Qed.

Lemma digits_rev_length cap n v : (n ≤ cap)%nat → v < 10 ^ Z.of_nat n → (length (digits_rev cap v) ≤ n)%nat.
Proof.
  revert n v. induction cap as [|cap IH]; intros n v Hn Hv; cbn; [lia|].
  destruct (Z.ltb_spec 0 v); [|cbn; lia]. destruct n as [|n].
  { change (10 ^ Z.of_nat 0) with 1 in Hv. lia. }
  cbn. rewrite Nat2Z.inj_succ, Z.pow_succ_r in Hv by lia. apply le_n_S, IH; [lia|].
  apply Z.div_lt_upper_bound; lia.
Qed.

Lemma digits_rev_ne cap v : 0 < v → digits_rev (S cap) v ≠ [].
Proof. intros Hv. cbn. by rewrite (proj2 (Z.ltb_lt _ _) Hv). Qed.

(** Values of prefixes are not larger. *)
Lemma dec_value_mono s t : Forall (λ c, is_digit c = true) (s ++ t) → 0 ≤ dec_value s ≤ dec_value (s ++ t).
Proof.
  intros [Hs Ht]%Forall_app. assert (0 ≤ dec_value s) as H0.
  { induction s as [|c s IH] using rev_ind; [done|]. rewrite dec_value_snoc.
    apply Forall_app in Hs as [Hs [Hc _]%Forall_cons_1]. unfold is_digit in Hc. zbool.
    specialize (IH Hs). lia. }
  split; [done|]. induction t as [|c t IH] using rev_ind; [by rewrite app_nil_r|].
  apply Forall_app in Ht as [Ht [Hc _]%Forall_cons_1]. rewrite app_assoc, dec_value_snoc.
  unfold is_digit in Hc. zbool. specialize (IH Ht). lia.
Qed.

Lemma parse_pid_digits t : ∀ s, Forall (λ c, is_digit c = true) (s ++ t) → dec_value (s ++ t) < 2 ^ 31 →
  parse_pid t (dec_value s) = Some (dec_value (s ++ t)).
Proof.
  induction t as [|c t IH]; intros s Hd Hv; cbn; [by rewrite app_nil_r|].
  pose proof Hd as [_ [Hc _]%Forall_cons_1]%Forall_app. rewrite Hc.
  replace (s ++ c :: t) with ((s ++ [c]) ++ t) in * by by rewrite <- app_assoc.
  pose proof (dec_value_mono (s ++ [c]) t Hd).
  rewrite <- dec_value_snoc, iw_small by (change (32 - 1) with 31; lia). by apply IH.
Qed.

Lemma token_value_digits t : ∀ s, Forall (λ c, is_digit c = true) (s ++ t) → dec_value (s ++ t) < 2 ^ 64 →
  token_value t (dec_value s) = dec_value (s ++ t).
Proof.
  induction t as [|c t IH]; intros s Hd Hv; cbn; [by rewrite app_nil_r|].
  replace (s ++ c :: t) with ((s ++ [c]) ++ t) in * by by rewrite <- app_assoc.
  pose proof (dec_value_mono (s ++ [c]) t Hd).
  rewrite <- dec_value_snoc, uw_small by lia. by apply IH.
Qed.

Lemma format_pid_digits bufsize pid : 0 < pid < 2 ^ 31 → (11 ≤ bufsize)%nat →
  ∃ ds, proc_format_pid bufsize pid = (ds, length ds) ∧ ds ≠ [] ∧ (length ds ≤ 10)%nat
    ∧ Forall (λ c, is_digit c = true) ds ∧ dec_value ds = pid.
Proof.
  intros Hp Hb. unfold proc_format_pid. rewrite uw_small by lia.
  rewrite (proj2 (Nat.eqb_neq _ _)), (proj2 (Z.eqb_neq _ _)) by lia.
  pose proof (digits_rev_length 32 10 pid ltac:(lia) ltac:(lia)) as Hl.
  cbv zeta. rewrite (proj2 (Nat.ltb_ge _ _)) by lia.
  exists (reverse (digits_rev 32 pid)). rewrite length_reverse. split_and!; [done| |done| |].
  - intros E%(f_equal reverse). rewrite reverse_involutive in E.
    apply (digits_rev_ne 31 pid) in E; [done|lia].
  - apply Forall_reverse, digits_rev_digits.
  - apply digits_rev_value. split; [lia|]. etrans; [apply Hp|done].
Qed.

Lemma client_pid_prefix ds : ds ≠ [] → Forall (λ c, is_digit c = true) ds → 0 < dec_value ds < 2 ^ 31 →
  vfs_rpc_client_pid (Some (VFS_CLIENT_PORT_PREFIX ++ ds)) = Some (dec_value ds).
Proof.
  intros Hne Hd Hv. unfold vfs_rpc_client_pid. rewrite take_app_length, bool_decide_true by done.
  cbv zeta. cbn [negb]. rewrite drop_app_length.
  change 0 with (dec_value []). rewrite (parse_pid_digits ds []) by (cbn [app]; done || lia).
  cbn [app]. change (dec_value []) with 0. by rewrite (proj2 (Z.leb_gt _ _)) by lia.
Qed.

Lemma client_port_name pid : 0 < pid < 2 ^ 31 →
  ∃ name, ipc_rpc_format_port_name PORT_NAME_LEN_MAX (Some VFS_CLIENT_PORT_PREFIX) pid
            = (name, length name)
    ∧ (0 < length name < PORT_NAME_LEN_MAX)%nat ∧ vfs_rpc_client_pid (Some name) = Some pid
    ∧ ipc_port_name_cli PORT_NAME_LEN_MAX (Some (str "vfs")) pid = (name, length name)
    ∧ vfs_rpc_client_pid (Some (proc_format_wait_port_name PORT_NAME_LEN_MAX pid).1) = None.
Proof.
  intros Hp. destruct (format_pid_digits 56 pid Hp ltac:(lia)) as (ds & E & Hne & Hl & Hd & Hv).
  destruct (format_pid_digits 54 pid Hp ltac:(lia)) as (ds' & E' & Hne' & _).
  exists (VFS_CLIENT_PORT_PREFIX ++ ds). split_and!.
  - unfold ipc_rpc_format_port_name. change (PORT_NAME_LEN_MAX - _)%nat with 56%nat. rewrite E.
    destruct ds; [done|]. done.
  - rewrite length_app. destruct ds; [done|]. change (length VFS_CLIENT_PORT_PREFIX) with 8%nat.
    unfold PORT_NAME_LEN_MAX. cbn [length]. lia.
  - rewrite length_app. change (length VFS_CLIENT_PORT_PREFIX) with 8%nat.
    unfold PORT_NAME_LEN_MAX. lia.
  - rewrite <- Hv. apply client_pid_prefix; [done..|lia].
  - unfold ipc_port_name_cli. cbn [ipc_port_name_copy_service]. cbn -[proc_format_pid].
    unfold append_mid_number. change (PORT_NAME_LEN_MAX - _)%nat with 56%nat. rewrite E.
    destruct ds; [done|]. done.
  - unfold proc_format_wait_port_name. change (PORT_NAME_LEN_MAX - _)%nat with 54%nat. rewrite E'.
    destruct ds'; [done|]. done.
Qed.

Lemma nest_token_name cookie : 0 ≤ cookie < 2 ^ 64 →
  ∃ token, ipc_rpc_format_nest_token PORT_NAME_LEN_MAX cookie = Some token
    ∧ ipc_rpc_is_nest_token (Some token) = true
    ∧ ipc_rpc_nest_token_cookie (Some token) = cookie
    ∧ vfs_rpc_client_pid (Some token) = None.
Proof.
  intros Hc. unfold ipc_rpc_format_nest_token. change (PORT_NAME_LEN_MAX <? 4)%nat with false. cbv zeta.
  set (ds := if cookie =? 0 then str "0" else digits_rev 24 cookie).
  assert ((length ds ≤ 20)%nat ∧ ds ≠ [] ∧ Forall (λ c, is_digit c = true) (reverse ds)
    ∧ dec_value (reverse ds) = cookie) as (Hl & Hne & Hd & Hv).
  { subst ds. destruct (Z.eqb_spec cookie 0) as [->|]; [split_and!; [cbn; lia|done|by repeat constructor|done]|].
    split_and!.
    - apply digits_rev_length; [lia|]. etrans; [apply Hc|done].
    - apply digits_rev_ne. lia.
    - apply Forall_reverse, digits_rev_digits.
    - apply digits_rev_value. split; [lia|]. etrans; [apply Hc|done]. }
  clearbody ds. rewrite (proj2 (Nat.leb_gt PORT_NAME_LEN_MAX _)) by (unfold PORT_NAME_LEN_MAX; lia).
  exists (IPC_RPC_NEST_TOKEN_PFX ++ reverse ds).
  assert (ipc_rpc_is_nest_token (Some (IPC_RPC_NEST_TOKEN_PFX ++ reverse ds)) = true) as Ht.
  { unfold ipc_rpc_is_nest_token. rewrite !andb_true_iff. split_and!; [done..| |].
    - apply negb_true_iff, bool_decide_eq_false. cbn. intros E.
      apply lookup_ge_None in E. rewrite length_reverse in E. destruct ds; [done|]. cbn in E. lia.
    - change (drop 2 _) with (reverse ds). apply forallb_forall. intros c Hin.
      eapply Forall_forall in Hd; [exact Hd|exact Hin]. }
  split_and!; [done|done| |done].
  unfold ipc_rpc_nest_token_cookie. rewrite Ht. cbn [negb].
  change (drop 2 _) with (reverse ds). change 0 with (dec_value []).
  by rewrite (token_value_digits _ []) by (cbn [app]; done || lia).
Qed.

Lemma thread_port_name tid :
  ∃ name, vfs_backend_ipc_thread_reply_port tid = Some name
    ∧ vfs_rpc_client_pid (Some name) = None ∧ ipc_rpc_is_nest_token (Some name) = false.
Proof.
  unfold vfs_backend_ipc_thread_reply_port, vfs_be_append_u32.
  pose proof (uw_range 32 tid ltac:(lia)) as Hr. set (v := u32 tid) in *. clearbody v.
  set (ds := if v =? 0 then str "0" else digits_rev 12 v).
  assert (length ds ≤ 10)%nat as Hl.
  { subst ds. destruct (v =? 0); [cbn; lia|]. apply digits_rev_length; [lia|].
    etrans; [apply Hr|done]. }
  clearbody ds. change (24 <=? length (str "t"))%nat with false. cbv iota.
  rewrite (proj2 (Nat.leb_gt 24 _)) by (change (length (str "t")) with 1%nat; lia).
  unfold vfs_backend_ipc_cli_port. change (is_nul _ 0) with false.
  change (PORT_NAME_LEN_MAX <=? _)%nat with false. cbv iota zeta.
  rewrite take_ge, Nat.ltb_irrefl; [by eexists|].
  rewrite length_app, length_reverse. change (length (str "t")) with 1%nat.
  change (PORT_NAME_LEN_MAX - 1 - _)%nat with 53%nat. lia.
Qed.

(** Port names identify their owner: the name a process's reply port is
    given is parsed back to its pid by the VFS server and fits the name
    buffer; a wait-port name of a process is never taken for a client; the
    token of a nested call is parsed back to its cookie and is never taken for
    a client; and the reply port of a kernel thread is a name no request
    of a process can have. *)
Theorem port_names_roundtrip pid cookie tid :
  0 < pid < 2 ^ 31 → 0 ≤ cookie < 2 ^ 64 →
  (∃ name, ipc_rpc_format_port_name PORT_NAME_LEN_MAX (Some VFS_CLIENT_PORT_PREFIX) pid
             = (name, length name)
     ∧ (0 < length name < PORT_NAME_LEN_MAX)%nat ∧ vfs_rpc_client_pid (Some name) = Some pid
     ∧ ipc_port_name_cli PORT_NAME_LEN_MAX (Some (str "vfs")) pid = (name, length name)
     ∧ vfs_rpc_client_pid (Some (proc_format_wait_port_name PORT_NAME_LEN_MAX pid).1) = None)
  ∧ (∃ token, ipc_rpc_format_nest_token PORT_NAME_LEN_MAX cookie = Some token
       ∧ ipc_rpc_is_nest_token (Some token) = true
       ∧ ipc_rpc_nest_token_cookie (Some token) = cookie
       ∧ vfs_rpc_client_pid (Some token) = None)
  ∧ (∃ name, vfs_backend_ipc_thread_reply_port tid = Some name
       ∧ vfs_rpc_client_pid (Some name) = None ∧ ipc_rpc_is_nest_token (Some name) = false).
Proof.
  intros Hp Hc. split_and!.
  - by apply client_port_name.
  - by apply nest_token_name.
  - apply thread_port_name.
Qed.

Lemma port_names_roundtrip_witness :
  (∃ name, ipc_rpc_format_port_name PORT_NAME_LEN_MAX (Some VFS_CLIENT_PORT_PREFIX) 4711
             = (name, length name)
     ∧ (0 < length name < PORT_NAME_LEN_MAX)%nat ∧ vfs_rpc_client_pid (Some name) = Some 4711
     ∧ ipc_port_name_cli PORT_NAME_LEN_MAX (Some (str "vfs")) 4711 = (name, length name)
     ∧ vfs_rpc_client_pid (Some (proc_format_wait_port_name PORT_NAME_LEN_MAX 4711).1) = None)
  ∧ (∃ token, ipc_rpc_format_nest_token PORT_NAME_LEN_MAX 0 = Some token
       ∧ ipc_rpc_is_nest_token (Some token) = true
       ∧ ipc_rpc_nest_token_cookie (Some token) = 0
       ∧ vfs_rpc_client_pid (Some token) = None)
  ∧ (∃ name, vfs_backend_ipc_thread_reply_port 12 = Some name
       ∧ vfs_rpc_client_pid (Some name) = None ∧ ipc_rpc_is_nest_token (Some name) = false).
Proof. apply port_names_roundtrip; lia. Defined.
