(* ===== verification/VfsOpen.v ===== *)
(** * Opening files: symbolic links, handles and stat data

    [servers/fs/vfs_open.c], with the stat records of
    [servers/fs/vfs_kstat.c] as user programs see them.  The bytes a symbolic
    link's inode points to are an argument ([kmem]): they belong to the
    backend.  Writes to user memory are the [user_store] events a call makes;
    whether the address is writable is an argument. *)

From stdpp Require Import base numbers list strings gmap option.
From Stdlib Require Import Ascii.
From S2P Require Import Prelude PageSlice SliceTable VfsPath VfsInode VfsHandle Cpio Mount Namespace.

Definition VFS_O_ACCMODE : Z := 3.
Definition VFS_O_RDONLY : Z := 0.
Definition VFS_O_WRONLY : Z := 1.
Definition VFS_O_RDWR : Z := 2.
Definition VFS_O_CREAT : Z := 0x40.
Definition VFS_O_EXCL : Z := 0x80.
Definition VFS_O_TRUNC : Z := 0x200.
Definition VFS_O_APPEND : Z := 0x400.
Definition VFS_O_DIRECTORY : Z := 0x10000.
Definition VFS_OPEN_RET_IS_DIR_BIT : Z := Z.shiftl 1 31.
Definition VFS_OPEN_RET_HANDLE_MASK : Z := Z.shiftl 1 31 - 1.
Definition LINUX_EFBIG : Z := 27.
Definition VFS_KERN_MAX_FILE : Z := 8 * 1024 * 1024.

(** ** Symbolic links *)

(** The string in a buffer: its bytes before the first NUL. *)
Fixpoint c_string (l : list ascii) : cstr :=
  match l with
  | [] => []
  | c :: l' => if decide (c = zero) then [] else c :: c_string l'
  end.

(** [kmem a n]: the [n] bytes at kernel address [a]. *)
Definition vfs_inode_symlink_target (kmem : Z → nat → list ascii) (ino : vfs_inode) (cap : nat)
  : option cstr :=
  if negb (is_symlink ino) || (storage ino =? 0) || (cap =? 0)%nat then None
  else
    let len := if Z.of_nat cap <=? ino_size ino then (cap - 1)%nat else Z.to_nat (ino_size ino) in
    Some (c_string (kmem (storage ino) len)).

(** The contents of the buffer [out] afterwards, [out0] before. *)
Definition vfs_join_symlink_target (base target : cstr) (out0 : cstr) (cap : nat) : cstr :=
  if (cap =? 0)%nat then out0
  else if is_char target 0 slash then default out0 (vfs_path_normalize (Some target) cap)
  else
    match vfs_path_parent (Some base) VFS_PATH_MAX with
    | None => default out0 (vfs_path_join (Some [slash]) (Some target) cap)
    | Some parent => default out0 (vfs_path_join (Some parent) (Some target) cap)
    end.

(** [lookup] is [vfs_namespace_lookup]; [stack] is what the buffer
    [resolved] holds on entry. *)
Definition vfs_lookup_path (lookup : ptr cstr → Z * vfs_inode) (kmem : Z → nat → list ascii)
    (stack : cstr) (path : ptr cstr) (follow_symlink : bool) : Z * vfs_inode :=
  match path with
  | None => (- LINUX_EINVAL, zero_rec)
  | Some p =>
      let '(ret, out) := lookup path in
      if ret <? 0 then (ret, out)
      else if negb follow_symlink || negb (is_symlink out) then (0, out)
      else
        match vfs_inode_symlink_target kmem out VFS_PATH_MAX with
        | None => (- LINUX_EINVAL, out)
        | Some target =>
            let resolved := vfs_join_symlink_target p target stack VFS_PATH_MAX in
            if is_nul resolved 0 then (- LINUX_EINVAL, out) else lookup (Some resolved)
        end
  end.

(** [vfs_kern_read_file_slice]: the inode whose pages are cloned, or the
    error; [clone] is [vfs_page_cache_clone_inode]. *)
Definition vfs_kern_read_file_slice {A} (clone : vfs_inode → Z * option A)
    (lookup : ptr cstr → Z * vfs_inode) (kmem : Z → nat → list ascii) (stack : cstr)
    (path : ptr cstr) : Z * option A :=
  match path with
  | None => (- LINUX_EINVAL, None)
  | Some _ =>
      let '(lookup_ret, ino) := vfs_lookup_path lookup kmem stack path true in
      if lookup_ret <? 0 then (lookup_ret, None)
      else if is_dir ino then (- LINUX_EISDIR, None)
      else if is_symlink ino then (- LINUX_ENOENT, None)
      else if (ino_size ino <=? 0) || (VFS_KERN_MAX_FILE <? ino_size ino) then (- LINUX_EFBIG, None)
      else clone ino
  end.

(** ** Handles *)

Section open.
Context {T : Type} `{SC : StrcmpS} `{RT : RecordTable vfs_open_handle T}.

Definition vfs_open_install (al : alloc_oracle) (t : T) (ino : ptr vfs_inode) (flags : Z) : T * Z :=
  match ino with
  | None => (t, - LINUX_EINVAL)
  | Some i =>
      let acc := Z.land flags VFS_O_ACCMODE in
      if has flags VFS_O_DIRECTORY && negb (is_dir i) then (t, - LINUX_ENOTDIR)
      else if negb (has flags VFS_O_DIRECTORY) && is_dir i && negb (acc =? VFS_O_RDONLY)
      then (t, - LINUX_EISDIR)
      else if is_dir i && negb (acc =? VFS_O_RDONLY)
              && ((acc =? VFS_O_WRONLY) || (acc =? VFS_O_RDWR)) then (t, - LINUX_EISDIR)
      else if negb (is_dir i) && negb (acc =? VFS_O_RDONLY) && negb (writable i)
      then (t, - LINUX_EACCES)
      else
        match vfs_handle_open al t ino flags with
        | (t1, handle) =>
            if handle =? 0 then (t1, - LINUX_EMFILE)
            else (t1, Z.lor handle (if is_dir i then VFS_OPEN_RET_IS_DIR_BIT else 0))
        end
  end.

Definition with_offset (h : vfs_open_handle) (off : Z) : vfs_open_handle :=
  VfsOpenHandle (in_use h) (refcnt h) (h_ino h) off (open_flags h).

Definition vfs_lseek_handle (t : T) (handle offset whence : Z) : T * Z :=
  match vfs_handle_get t handle with
  | None => (t, - LINUX_EBADF)
  | Some file =>
      if is_dir (h_ino file) then (t, - LINUX_EISDIR)
      else
        let go new_off :=
          if new_off <? 0 then (t, - LINUX_EINVAL)
          else (rt_set t handle (with_offset file (u64 new_off)), new_off) in
        if whence =? 0 then go offset
        else if whence =? 1 then go (i64 (i64 (h_offset file) + offset))
        else if whence =? 2 then go (i64 (i64 (ino_size (h_ino file)) + offset))
        else (t, - LINUX_EINVAL)
  end.

(** ** Stat data for user programs ([linux_user_stat_t], x86_64) *)

Record linux_user_stat : Type := LinuxUserStat {
  us_dev : Z; us_ino : Z; us_nlink : Z; us_mode : Z; us_uid : Z; us_gid : Z;
  us_rdev : Z; us_size : Z; us_blksize : Z; us_blocks : Z;
  us_atime_sec : Z; us_atime_nsec : Z; us_mtime_sec : Z; us_mtime_nsec : Z;
  us_ctime_sec : Z; us_ctime_nsec : Z;
}.

Definition linux_user_stat_from_kstat (k : vfs_kstat) : linux_user_stat :=
  {| us_dev := VfsInode.st_dev k; us_ino := VfsInode.st_ino k; us_nlink := VfsInode.st_nlink k; us_mode := VfsInode.st_mode k;
     us_uid := VfsInode.st_uid k; us_gid := VfsInode.st_gid k; us_rdev := VfsInode.st_rdev k; us_size := VfsInode.st_size k;
     us_blksize := VfsInode.st_blksize k; us_blocks := i64 (VfsInode.st_blocks k);
     us_atime_sec := VfsInode.st_atime_sec k; us_atime_nsec := VfsInode.st_atime_nsec k;
     us_mtime_sec := VfsInode.st_mtime_sec k; us_mtime_nsec := VfsInode.st_mtime_nsec k;
     us_ctime_sec := VfsInode.st_ctime_sec k; us_ctime_nsec := VfsInode.st_ctime_nsec k |}.

(** What is copied to user memory. *)
Inductive user_data : Type :=
  | UBytes (b : list Z)
  | UStat (st : linux_user_stat).

Record user_store : Type := UserStore { us_pid : Z; us_addr : Z; us_data : user_data }.

(** [store_ok]: the stat buffer is mapped and writable. *)
Definition vfs_store_inode_stat (store_ok : bool) (pid user_statbuf : Z) (ino : vfs_inode)
  : Z * list user_store :=
  if store_ok
  then (0, [UserStore pid user_statbuf
              (UStat (linux_user_stat_from_kstat (vfs_kstat_from_inode ino)))])
  else (- LINUX_EFAULT, []).

(** [task]: the process has a user address space. *)
Definition vfs_fstat_handle (task store_ok : bool) (t : T) (pid handle user_statbuf : Z)
  : Z * list user_store :=
  if negb task then (- LINUX_ESRCH, [])
  else
    match vfs_handle_get t handle with
    | None => (- LINUX_EBADF, [])
    | Some file => vfs_store_inode_stat store_ok pid user_statbuf (h_ino file)
    end.
End open.
