(* ===== verification/VfsCoop.v ===== *)
(** * The VFS server's request machine
    ([servers/fs/vfs_coop.c], [servers/fs/vfs_coop_path.c])

    The server is one thread.  A request becomes a job with a context; when it
    needs a backend, the job is parked with the request it sent and the server
    goes on with other requests; the backend's answer resumes it.  A handler
    is a function of the server's state and the context that either finishes
    the job with a result or parks it.  Between parking and resuming, other
    jobs may have changed the state: nothing is remembered but the context.

    What a handler call cannot control is its environment [coop_env]:
    allocation, the message queue, processes and their memory. *)

From stdpp Require Import base numbers list strings gmap option.
From Stdlib Require Import Ascii.
From S2P Require Import Prelude PageSlice SliceTable VfsPath VfsInode VfsHandle Cpio Mount Namespace PortNames VfsOpen.

Definition VFS_COOP_IO_CHUNK : Z := 4096.
Definition VFS_S_IFREG : Z := 0x8000.
Definition VFS_AT_SYMLINK_NOFOLLOW : Z := 0x100.
Definition VFS_DIRENT64_HDR : Z := 19.

(** ** Requests to backends *)

Inductive vfs_backend_op : Type :=
  | VFS_BACKEND_OP_LOOKUP | VFS_BACKEND_OP_READ | VFS_BACKEND_OP_WRITE
  | VFS_BACKEND_OP_TRUNCATE | VFS_BACKEND_OP_FLUSH | VFS_BACKEND_OP_READDIR
  | VFS_BACKEND_OP_READLINK | VFS_BACKEND_OP_MKDIR | VFS_BACKEND_OP_CREATE
  | VFS_BACKEND_OP_UNLINK | VFS_BACKEND_OP_RENAME | VFS_BACKEND_OP_LINK.

#[global] Instance backend_op_eq_dec : EqDecision vfs_backend_op.
Proof. solve_decision. Defined.

(** The inode a request points to: the one in the context of the job, or the
    one of an open file. *)
Inductive ino_ref : Type :=
  | InoCtx
  | InoHandle (h : Z).

Record vfs_backend_req : Type := BackendReq {
  rq_port : ptr cstr;
  rq_op : vfs_backend_op;
  rq_path : ptr cstr;
  rq_path2 : ptr cstr;
  rq_ino : option ino_ref;
  rq_offset : Z;
  rq_len : Z;
  rq_wbuf : list Z;
  rq_size_arg : Z;
  rq_mode_arg : Z;
  rq_dir_index : Z;
  rq_readlink_cap : Z;
}.

(** An answer: the result and what the backend left where the request's
    pointers lead. *)
Record vfs_backend_reply : Type := BackendReply {
  rp_result : Z;
  rp_ino : vfs_inode;
  rp_dent : vfs_dirent;
  rp_bytes : list Z;
  rp_link : cstr;
}.

(** ** Jobs *)

Inductive vfs_coop_kind : Type :=
  | VFS_COOP_KIND_NONE | VFS_COOP_KIND_READ | VFS_COOP_KIND_WRITE | VFS_COOP_KIND_OPEN
  | VFS_COOP_KIND_MKDIR | VFS_COOP_KIND_UNLINK | VFS_COOP_KIND_STAT | VFS_COOP_KIND_CHDIR
  | VFS_COOP_KIND_FACCESSAT | VFS_COOP_KIND_RENAME | VFS_COOP_KIND_LINK
  | VFS_COOP_KIND_GETDENTS | VFS_COOP_KIND_READLINK | VFS_COOP_KIND_MOUNT.

Inductive vfs_coop_step : Type :=
  | VFS_COOP_STEP_NONE | VFS_COOP_STEP_LOOKUP | VFS_COOP_STEP_CREATE
  | VFS_COOP_STEP_CREATE_EXISTING | VFS_COOP_STEP_POST_CREATE_LOOKUP | VFS_COOP_STEP_MKDIR_BE
  | VFS_COOP_STEP_TRUNC | VFS_COOP_STEP_UNLINK_BE | VFS_COOP_STEP_RENAME_BE
  | VFS_COOP_STEP_LINK_BE | VFS_COOP_STEP_READDIR | VFS_COOP_STEP_READLINK.

#[global] Instance coop_kind_eq_dec : EqDecision vfs_coop_kind.
Proof. solve_decision. Defined.
#[global] Instance coop_step_eq_dec : EqDecision vfs_coop_step.
Proof. solve_decision. Defined.

(** The part of [vfs_coop_ctx_t] that is set when the request is decoded and
    never again. *)
Record coop_params : Type := CoopParams {
  c_kind : vfs_coop_kind;
  c_pid : Z;
  c_uid : Z;
  c_gid : Z;
  c_handle : Z;
  c_user_buf : Z;
  c_count : Z;
  c_flags : Z;
  c_at_flags : Z;
}.

(** Progress of a transfer; [c_chunk] is the page of scratch memory. *)
Record coop_io : Type := CoopIo {
  c_total : Z;
  c_remaining : Z;
  c_chunk_len : Z;
  c_chunk : list Z;
  c_dir_index : Z;
  c_dent : vfs_dirent;
}.

Record vfs_coop_ctx : Type := CoopCtx {
  c_par : coop_params;
  c_io : coop_io;
  c_step : vfs_coop_step;
  c_path : cstr;
  c_path2 : cstr;
  c_port : cstr;
  c_mode : Z;
  c_follow_symlink : bool;
  c_need_commit : bool;
  c_ino : vfs_inode;
}.

Definition zero_dirent : vfs_dirent := VfsDirent [] 0 0.
Definition zero_io : coop_io := CoopIo 0 0 0 [] 0 zero_dirent.

Definition with_step c s : vfs_coop_ctx :=
  CoopCtx (c_par c) (c_io c) s (c_path c) (c_path2 c) (c_port c) (c_mode c) (c_follow_symlink c)
    (c_need_commit c) (c_ino c).
Definition with_paths c p p2 : vfs_coop_ctx :=
  CoopCtx (c_par c) (c_io c) (c_step c) p p2 (c_port c) (c_mode c) (c_follow_symlink c)
    (c_need_commit c) (c_ino c).
Definition with_ctx_mode c m : vfs_coop_ctx :=
  CoopCtx (c_par c) (c_io c) (c_step c) (c_path c) (c_path2 c) (c_port c) m (c_follow_symlink c)
    (c_need_commit c) (c_ino c).
Definition with_follow c b : vfs_coop_ctx :=
  CoopCtx (c_par c) (c_io c) (c_step c) (c_path c) (c_path2 c) (c_port c) (c_mode c) b
    (c_need_commit c) (c_ino c).
Definition with_need_commit c b : vfs_coop_ctx :=
  CoopCtx (c_par c) (c_io c) (c_step c) (c_path c) (c_path2 c) (c_port c) (c_mode c)
    (c_follow_symlink c) b (c_ino c).
Definition with_ctx_ino c i : vfs_coop_ctx :=
  CoopCtx (c_par c) (c_io c) (c_step c) (c_path c) (c_path2 c) (c_port c) (c_mode c)
    (c_follow_symlink c) (c_need_commit c) i.
Definition with_io c io : vfs_coop_ctx :=
  CoopCtx (c_par c) io (c_step c) (c_path c) (c_path2 c) (c_port c) (c_mode c)
    (c_follow_symlink c) (c_need_commit c) (c_ino c).

Definition vfs_coop_set_port c (port : ptr cstr) : vfs_coop_ctx :=
  match port with
  | None => c
  | Some p =>
      CoopCtx (c_par c) (c_io c) (c_step c) (c_path c) (c_path2 c)
        (strncpy_term p (PORT_NAME_LEN_MAX - 1)) (c_mode c) (c_follow_symlink c)
        (c_need_commit c) (c_ino c)
  end.

Definition vfs_coop_adopt_path2 c : vfs_coop_ctx :=
  with_paths c (strncpy_term (c_path2 c) (VFS_PATH_MAX - 1)) (c_path2 c).

Abbreviation kind c := (c_kind (c_par c)).

(** What becomes of a job: it is finished and its context freed; it is parked
    with the request it sent; or the code reads past the end of a buffer. *)
Inductive coop_disp : Type :=
  | Finished (result : Z)
  | Parked (ctx : vfs_coop_ctx) (req : vfs_backend_req)
  | Overrun.

(** [ev_ctx]: a context can be allocated; [ev_page]: the page a transfer gets,
    with its old contents.  [ev_nest i]: the error of try [i] to send, and whether the job is in one of
    the nested states.  [ev_load] and [ev_store]: copying from and to the memory
    of a process.  [ev_stack]: a buffer on the stack that is not initialized. *)
Record coop_env : Type := CoopEnv {
  ev_alloc : alloc_oracle;
  ev_ctx : bool;
  ev_page : option (list Z);
  ev_nest : nat → error_t * bool;
  ev_task : Z → bool;
  ev_cred : Z → option (Z * Z);
  ev_store : Z → Z → user_data → bool;
  ev_load : Z → Z → Z → option (list Z);
  ev_kmem : Z → nat → list ascii;
  ev_stack : cstr;
}.

(** ** The server *)

Record vfs_server (T TB TM TH : Type) : Type := VfsServer {
  sv_ns : ns_state T;
  sv_backends : backend_state TB;
  sv_mounts : TM;
  sv_handles : TH;
  sv_cred : vfs_req_cred;
  sv_effects : list ns_effect;
  sv_stores : list user_store;
}.
Arguments VfsServer {T TB TM TH} _ _ _ _ _ _ _.
Arguments sv_ns {T TB TM TH} _.
Arguments sv_backends {T TB TM TH} _.
Arguments sv_mounts {T TB TM TH} _.
Arguments sv_handles {T TB TM TH} _.
Arguments sv_cred {T TB TM TH} _.
Arguments sv_effects {T TB TM TH} _.
Arguments sv_stores {T TB TM TH} _.

Section coop.
Context {T TB TM TH : Type} `{SC : StrcmpS} `{RT : RecordTable vfs_ns_node T}
        `{RTB : RecordTable vfs_backend_entry TB} `{RTM : RecordTable vfs_mount_rec TM}
        `{RTH : RecordTable vfs_open_handle TH}.
Abbreviation server := (vfs_server T TB TM TH).
Implicit Types (sv : server) (e : coop_env) (c : vfs_coop_ctx).

Definition set_ns sv s : server :=
  VfsServer s (sv_backends sv) (sv_mounts sv) (sv_handles sv) (sv_cred sv) (sv_effects sv)
    (sv_stores sv).
Definition set_mounts sv bs mt : server :=
  VfsServer (sv_ns sv) bs mt (sv_handles sv) (sv_cred sv) (sv_effects sv) (sv_stores sv).
Definition set_handles sv h : server :=
  VfsServer (sv_ns sv) (sv_backends sv) (sv_mounts sv) h (sv_cred sv) (sv_effects sv)
    (sv_stores sv).
Definition set_cred sv cr : server :=
  VfsServer (sv_ns sv) (sv_backends sv) (sv_mounts sv) (sv_handles sv) cr (sv_effects sv)
    (sv_stores sv).
Definition add_effects sv es : server :=
  VfsServer (sv_ns sv) (sv_backends sv) (sv_mounts sv) (sv_handles sv) (sv_cred sv)
    (sv_effects sv ++ es) (sv_stores sv).
Definition add_stores sv us : server :=
  VfsServer (sv_ns sv) (sv_backends sv) (sv_mounts sv) (sv_handles sv) (sv_cred sv)
    (sv_effects sv) (sv_stores sv ++ us).

(** The state after a commit of the namespace. *)
Definition committed sv (r : ns_state T * Z * list ns_effect) : server * Z :=
  let '(s, ret, es) := r in (add_effects (set_ns sv s) es, ret).

Definition vfs_coop_apply_cred sv c : server :=
  set_cred sv (vfs_perm_set_request (c_uid (c_par c)) (c_gid (c_par c))).

(** ** Nested requests *)

Fixpoint issue_tries (nest : nat → error_t * bool) (i fuel : nat) : error_t :=
  match fuel with
  | O => E_RENDEZVOS
  | S fuel' =>
      match nest i with
      | (REND_SUCCESS, _) => REND_SUCCESS
      | (E_REND_AGAIN, true) => E_REND_AGAIN
      | (E_REND_AGAIN, false) => issue_tries nest (S i) fuel'
      | (err, _) => err
      end
  end.

(** A request without a port is refused by [vfs_backend_ipc_coop_nested]. *)
Definition vfs_coop_issue_nested e (req : vfs_backend_req) : error_t :=
  match rq_port req with
  | None => E_IN_PARAM
  | Some _ => issue_tries (ev_nest e) 0 64
  end.

(** The request [vfs_coop_park] builds. *)
Definition park_req c (op : vfs_backend_op) : vfs_backend_req :=
  let asked := if is_nul (c_path2 c) 0 then c_path c else c_path2 c in
  let mk p p2 ino idx cap :=
    BackendReq (Some (c_port c)) op p p2 ino 0 0 [] 0 (c_mode c) idx cap in
  match op with
  | VFS_BACKEND_OP_LOOKUP => mk (Some asked) None (Some InoCtx) 0 0
  | VFS_BACKEND_OP_RENAME | VFS_BACKEND_OP_LINK => mk (Some (c_path c)) (Some (c_path2 c)) None 0 0
  | VFS_BACKEND_OP_READDIR => mk (Some asked) None None (c_dir_index (c_io c)) 0
  | VFS_BACKEND_OP_TRUNCATE => mk (Some (c_path c)) None (Some InoCtx) 0 0
  | VFS_BACKEND_OP_READLINK => mk (Some (c_path c)) None None 0 (Z.of_nat VFS_PATH_MAX)
  | _ => mk (Some (c_path c)) None None 0 0
  end.

Definition vfs_coop_park_or_eio e sv c (op : vfs_backend_op) (step : vfs_coop_step)
  : server * coop_disp :=
  let req := park_req c op in
  match vfs_coop_issue_nested e req with
  | REND_SUCCESS | E_REND_AGAIN => (sv, Parked (with_step c step) req)
  | _ => (sv, Finished (- LINUX_EIO))
  end.

(** ** Path requests *)

(** [r] is the outcome of the prepare step for the two paths. *)
Definition vfs_coop_start_twopath e sv c (r : Z * ns_prep) (op : vfs_backend_op)
    (step : vfs_coop_step) : server * coop_disp :=
  let '(prep, out) := r in
  if prep <? 0 then (sv, Finished prep)
  else
    vfs_coop_park_or_eio e sv
      (vfs_coop_set_port
         (with_need_commit (with_paths c (pr_path out) (pr_path2 out)) (pr_need_commit out))
         (pr_port out)) op step.

(** [commit] is the commit of the operation, applied to the namespace. *)
Definition vfs_coop_finish_after_be sv c (nested_result : Z)
    (commit : ns_state T → ns_state T * Z * list ns_effect) : server * coop_disp :=
  if nested_result <? 0 then (sv, Finished nested_result)
  else if c_need_commit c then
    let '(sv1, ret) := committed sv (commit (sv_ns sv)) in (sv1, Finished ret)
  else (sv, Finished 0).

Definition vfs_coop_commit_unlink c s := vfs_namespace_unlink_commit s (Some (c_path c)).
Definition vfs_coop_commit_rename c s :=
  vfs_namespace_rename_commit s (Some (c_path c)) (Some (c_path2 c)).
Definition vfs_coop_commit_link e sv c s :=
  vfs_namespace_link_commit (ev_alloc e) s (sv_backends sv) (sv_mounts sv) (Some (c_path c))
    (Some (c_path2 c)).

(** 0 when the link was followed, 1 when there is none to follow. *)
Definition vfs_coop_try_follow_symlink e c : Z * vfs_coop_ctx :=
  if negb (c_follow_symlink c) || negb (is_symlink (c_ino c)) then (1, c)
  else
    match vfs_inode_symlink_target (ev_kmem e) (c_ino c) VFS_PATH_MAX with
    | None => (- LINUX_EINVAL, c)
    | Some target =>
        let base := if is_nul (c_path2 c) 0 then c_path c else c_path2 c in
        let resolved := vfs_join_symlink_target base target (ev_stack e) VFS_PATH_MAX in
        if is_nul resolved 0 then (- LINUX_EINVAL, c)
        else (0, with_follow (with_paths c (strncpy_term resolved (VFS_PATH_MAX - 1)) []) false)
    end.

Definition access_mask (mode : Z) : Z :=
  let check := if has mode 4 then Z.lor 0 VFS_PERM_R else 0 in
  let check := if has mode 2 then Z.lor check VFS_PERM_W else check in
  if has mode 1 then Z.lor check VFS_PERM_X else check.

Definition vfs_coop_finish_lookup_op e sv c : server * Z :=
  let p := c_par c in
  match c_kind p with
  | VFS_COOP_KIND_STAT =>
      if negb (ev_task e (c_pid p)) then (sv, - LINUX_ESRCH)
      else
        let ust := UStat (linux_user_stat_from_kstat (vfs_kstat_from_inode (c_ino c))) in
        let '(ret, us) := vfs_store_inode_stat (ev_store e (c_pid p) (c_user_buf p) ust)
                            (c_pid p) (c_user_buf p) (c_ino c) in
        (add_stores sv us, ret)
  | VFS_COOP_KIND_CHDIR => (sv, if is_dir (c_ino c) then 0 else - LINUX_ENOTDIR)
  | VFS_COOP_KIND_FACCESSAT =>
      if c_mode c =? 0 then (sv, 0)
      else (sv, vfs_perm_check_mode_request (sv_cred sv) (ino_mode (c_ino c)) (access_mask (c_mode c)))
  | _ => (sv, - LINUX_EINVAL)
  end.

(** [buf] holds a string; [None] when more than its bytes and the terminator
    are copied. *)
Definition vfs_coop_store_readlink e sv c (buf : cstr) (len : Z) : option (server * Z) :=
  let p := c_par c in
  if len <? 0 then Some (sv, len)
  else if negb (ev_task e (c_pid p)) then Some (sv, - LINUX_ESRCH)
  else
    let copy_len := if c_count p <=? len then u64 (c_count p - 1) else len in
    if Z.of_nat (length buf) <? copy_len then None
    else
      let bytes := UBytes (take (Z.to_nat (copy_len + 1)) ((byte_of <$> buf) ++ [0])) in
      if ev_store e (c_pid p) (c_user_buf p) bytes
      then Some (add_stores sv [UserStore (c_pid p) (c_user_buf p) bytes], len)
      else Some (sv, - LINUX_EFAULT).

Definition finish_readlink e sv c (buf : cstr) (len : Z) : server * coop_disp :=
  match vfs_coop_store_readlink e sv c buf len with
  | Some (sv1, ret) => (sv1, Finished ret)
  | None => (sv, Overrun)
  end.

Definition vfs_coop_after_readlink_inode e sv c : server * coop_disp :=
  if negb (is_symlink (c_ino c)) then (sv, Finished (- LINUX_EINVAL))
  else
    match vfs_inode_symlink_target (ev_kmem e) (c_ino c) VFS_PATH_MAX with
    | Some target =>
        let c1 := with_paths c (c_path c) target in
        finish_readlink e sv c1 target (Z.of_nat (length target))
    | None =>
        let port := match vfs_mount_view_for_path (sv_mounts sv) (Some (c_path c)) with
                    | Some view => Some (mt_backend_port view)
                    | None => backend_port (c_ino c)
                    end in
        match port with
        | None => (sv, Finished (- LINUX_EINVAL))
        | Some _ =>
            vfs_coop_park_or_eio e sv (with_paths (vfs_coop_set_port c port) (c_path c) [])
              VFS_BACKEND_OP_READLINK VFS_COOP_STEP_READLINK
        end
    end.

(** [vfs_open_install] on the open-file table. *)
Definition install e sv c : server * coop_disp :=
  let '(t, ret) := vfs_open_install (ev_alloc e) (sv_handles sv) (Some (c_ino c))
                     (c_flags (c_par c)) in
  (set_handles sv t, Finished ret).

Definition vfs_coop_after_inode e sv c : server * coop_disp :=
  let flags := c_flags (c_par c) in
  match kind c with
  | VFS_COOP_KIND_READLINK => vfs_coop_after_readlink_inode e sv c
  | VFS_COOP_KIND_OPEN =>
      if Z.land flags (Z.lor VFS_O_CREAT VFS_O_EXCL) =? Z.lor VFS_O_CREAT VFS_O_EXCL
      then (sv, Finished (- LINUX_EEXIST))
      else
        let acc := Z.land flags VFS_O_ACCMODE in
        if has flags VFS_O_TRUNC && negb (is_dir (c_ino c))
           && ((acc =? VFS_O_WRONLY) || (acc =? VFS_O_RDWR)) then
          if negb (writable (c_ino c)) then (sv, Finished (- LINUX_EROFS))
          else
            match backend_port (c_ino c) with
            | None => (sv, Finished (- LINUX_ENXIO))
            | Some port =>
                vfs_coop_park_or_eio e sv (vfs_coop_set_port c (Some port))
                  VFS_BACKEND_OP_TRUNCATE VFS_COOP_STEP_TRUNC
            end
        else install e sv c
  | _ => let '(sv1, ret) := vfs_coop_finish_lookup_op e sv c in (sv1, Finished ret)
  end.

(** The context after a prepare step that created a backend path. *)
Definition adopt_prep c (out : ns_prep) : vfs_coop_ctx :=
  vfs_coop_adopt_path2
    (vfs_coop_set_port
       (with_paths (with_need_commit (with_ctx_mode c (pr_mode out)) (pr_need_commit out))
          (c_path c) (pr_path out)) (pr_port out)).

Definition vfs_coop_open_on_enoent e sv c : server * coop_disp :=
  let flags := c_flags (c_par c) in
  if negb (has flags VFS_O_CREAT) then (sv, Finished (- LINUX_ENOENT))
  else if has flags VFS_O_DIRECTORY then
    let '(prep, out) := vfs_namespace_mkdir_prepare (sv_ns sv) (sv_cred sv) (sv_backends sv)
                          (sv_mounts sv) (Some (c_path c)) (c_mode c) VFS_PATH_MAX in
    if prep <? 0 then (sv, Finished prep)
    else vfs_coop_park_or_eio e sv (adopt_prep c out) VFS_BACKEND_OP_MKDIR VFS_COOP_STEP_MKDIR_BE
  else
    let be_mode := Z.lor (Z.land (c_mode c) 0x1ff) VFS_S_IFREG in
    let '(prep, out) := vfs_namespace_create_prepare (sv_ns sv) (sv_cred sv) (sv_backends sv)
                          (sv_mounts sv) (Some (c_path c)) be_mode VFS_PATH_MAX in
    if prep <? 0 then (sv, Finished prep)
    else
      let c1 := adopt_prep c out in
      let c2 := with_paths c1 (c_path c1) [] in
      if prep =? 2
      then vfs_coop_park_or_eio e sv (with_need_commit c2 false) VFS_BACKEND_OP_LOOKUP
             VFS_COOP_STEP_CREATE_EXISTING
      else vfs_coop_park_or_eio e sv c2 VFS_BACKEND_OP_CREATE VFS_COOP_STEP_CREATE.

(** A followed link starts the lookup again with [follow_symlink] off, so two
    rounds are enough ([start_lookup_rounds] of VfsCoopThm). *)
Fixpoint lookup_rounds (fuel : nat) e sv c : server * coop_disp :=
  match fuel with
  | O => (sv, Overrun)
  | S fuel' =>
      let '(prep, ino, port, be_path) :=
        vfs_namespace_lookup_prepare (sv_ns sv) (sv_backends sv) (sv_mounts sv)
          (Some (c_path c)) VFS_PATH_MAX in
      let c1 := with_ctx_ino (with_paths c (c_path c) be_path) ino in
      if prep <? 0 then
        if bool_decide (kind c = VFS_COOP_KIND_OPEN) && (prep =? - LINUX_ENOENT)
        then vfs_coop_open_on_enoent e sv c1
        else (sv, Finished prep)
      else if prep =? 0 then
        let '(follow, c2) := vfs_coop_try_follow_symlink e c1 in
        if follow <? 0 then (sv, Finished follow)
        else if follow =? 0 then lookup_rounds fuel' e sv c2
        else vfs_coop_after_inode e sv c2
      else
        vfs_coop_park_or_eio e sv (vfs_coop_set_port c1 port) VFS_BACKEND_OP_LOOKUP
          VFS_COOP_STEP_LOOKUP
  end.

Definition vfs_coop_start_lookup e sv c : server * coop_disp := lookup_rounds 2 e sv c.

Definition apply_cover sv (target : cstr) : server :=
  set_ns sv (vfs_mount_apply_cover (λ s p b, vfs_namespace_set_mount_cover s (Some p) b)
               (sv_ns sv) target true).1.

Definition vfs_coop_start_path e sv0 c : server * coop_disp :=
  let sv := vfs_coop_apply_cred sv0 c in
  let p := c_par c in
  match c_kind p with
  | VFS_COOP_KIND_MKDIR =>
      let '(prep, out) := vfs_namespace_mkdir_prepare (sv_ns sv) (sv_cred sv) (sv_backends sv)
                            (sv_mounts sv) (Some (c_path c)) (c_mode c) VFS_PATH_MAX in
      if prep <? 0 then (sv, Finished prep)
      else vfs_coop_park_or_eio e sv (adopt_prep c out) VFS_BACKEND_OP_MKDIR VFS_COOP_STEP_MKDIR_BE
  | VFS_COOP_KIND_UNLINK =>
      if has (c_flags p) 0x200 then (sv, Finished (- LINUX_ENOSYS))
      else
        let '(prep, out) := vfs_namespace_unlink_prepare (sv_ns sv) (sv_cred sv) (sv_backends sv)
                              (sv_mounts sv) (Some (c_path c)) VFS_PATH_MAX in
        if prep <? 0 then (sv, Finished prep)
        else
          let c1 := with_need_commit
                      (vfs_coop_adopt_path2 (with_paths c (c_path c) (pr_path out)))
                      (pr_need_commit out) in
          if negb (pr_need_backend out) then
            if pr_need_commit out then
              let '(sv1, ret) := committed sv (vfs_coop_commit_unlink c1 (sv_ns sv)) in
              (sv1, Finished ret)
            else (sv, Finished 0)
          else
            vfs_coop_park_or_eio e sv (vfs_coop_set_port c1 (pr_port out))
              VFS_BACKEND_OP_UNLINK VFS_COOP_STEP_UNLINK_BE
  | VFS_COOP_KIND_RENAME =>
      vfs_coop_start_twopath e sv c
        (vfs_namespace_rename_prepare (sv_ns sv) (sv_cred sv) (sv_backends sv) (sv_mounts sv)
           (Some (c_path c)) (Some (c_path2 c)) VFS_PATH_MAX VFS_PATH_MAX)
        VFS_BACKEND_OP_RENAME VFS_COOP_STEP_RENAME_BE
  | VFS_COOP_KIND_LINK =>
      vfs_coop_start_twopath e sv c
        (vfs_namespace_link_prepare (sv_ns sv) (sv_cred sv) (sv_backends sv) (sv_mounts sv)
           (Some (c_path c)) (Some (c_path2 c)) VFS_PATH_MAX VFS_PATH_MAX)
        VFS_BACKEND_OP_LINK VFS_COOP_STEP_LINK_BE
  | VFS_COOP_KIND_MOUNT =>
      let '(bs, mt, prep, out) :=
        vfs_mount_register_prepare (ev_alloc e) (sv_backends sv) (sv_mounts sv)
          (Some (c_path c)) (Some (c_path2 c)) (c_count p) VFS_PATH_MAX in
      let sv1 := set_mounts sv bs mt in
      if prep <? 0 then (sv1, Finished prep)
      else if prep =? 0 then (sv1, Finished 0)
      else if negb (mp_need_mkdir out) then (apply_cover sv1 (mp_norm out), Finished 0)
      else
        vfs_coop_park_or_eio e sv1
          (vfs_coop_set_port
             (with_ctx_mode (with_paths c (mp_norm out) (c_path2 c)) (Z.lor 0x1ed 0x4000))
             (mp_port out))
          VFS_BACKEND_OP_MKDIR VFS_COOP_STEP_MKDIR_BE
  | VFS_COOP_KIND_READLINK =>
      if c_count p =? 0 then (sv, Finished (- LINUX_EINVAL)) else vfs_coop_start_lookup e sv c
  | _ => vfs_coop_start_lookup e sv c
  end.

Definition vfs_coop_resume_path e sv0 c (nested_result : Z) : server * coop_disp :=
  let sv := vfs_coop_apply_cred sv0 c in
  match c_step c with
  | VFS_COOP_STEP_LOOKUP =>
      if negb (nested_result =? 0) then
        if bool_decide (kind c = VFS_COOP_KIND_OPEN) && (nested_result =? - LINUX_ENOENT)
        then vfs_coop_open_on_enoent e sv c
        else (sv, Finished nested_result)
      else
        let '(follow, c1) := vfs_coop_try_follow_symlink e c in
        if follow <? 0 then (sv, Finished follow)
        else if follow =? 0 then vfs_coop_start_lookup e sv c1
        else vfs_coop_after_inode e sv c1
  | VFS_COOP_STEP_CREATE_EXISTING =>
      if negb (nested_result =? 0) then (sv, Finished nested_result)
      else if negb (writable (c_ino c)) then (sv, Finished (- LINUX_EEXIST))
      else vfs_coop_after_inode e sv c
  | VFS_COOP_STEP_CREATE =>
      if nested_result <? 0 then (sv, Finished nested_result)
      else
        let '(sv1, ret) :=
          if c_need_commit c
          then committed sv (vfs_namespace_create_commit (ev_alloc e) (sv_ns sv) (sv_backends sv)
                               (sv_mounts sv) (Some (c_path c)) (c_mode c))
          else (sv, 0) in
        if ret <? 0 then (sv1, Finished ret)
        else
          vfs_coop_park_or_eio e sv1 (with_paths c (c_path c) []) VFS_BACKEND_OP_LOOKUP
            VFS_COOP_STEP_POST_CREATE_LOOKUP
  | VFS_COOP_STEP_POST_CREATE_LOOKUP =>
      if negb (nested_result =? 0) then (sv, Finished (- LINUX_EIO))
      else vfs_coop_after_inode e sv c
  | VFS_COOP_STEP_MKDIR_BE =>
      if decide (kind c = VFS_COOP_KIND_MOUNT)
      then (apply_cover sv (c_path c), Finished 0)
      else if nested_result <? 0 then (sv, Finished nested_result)
      else
        let '(sv1, ret) :=
          if c_need_commit c
          then committed sv (vfs_namespace_mkdir_commit (ev_alloc e) (sv_ns sv) (sv_backends sv)
                               (sv_mounts sv) (Some (c_path c)) (c_mode c))
          else (sv, 0) in
        if ret <? 0 then (sv1, Finished ret)
        else if decide (kind c = VFS_COOP_KIND_OPEN)
        then vfs_coop_start_lookup e sv1 (with_follow (with_paths c (c_path c) []) false)
        else (sv1, Finished 0)
  | VFS_COOP_STEP_TRUNC =>
      if nested_result <? 0 then (sv, Finished nested_result)
      else
        let i := c_ino c in
        install e sv
          (with_ctx_ino c
             (VfsInode (ino_path i) (backend_port i) (backend_caps i) (storage i) (ino_mode i) 0
                (nlink i) (is_dir i) (is_symlink i) (writable i)))
  | VFS_COOP_STEP_UNLINK_BE =>
      vfs_coop_finish_after_be sv c nested_result (vfs_coop_commit_unlink c)
  | VFS_COOP_STEP_RENAME_BE =>
      vfs_coop_finish_after_be sv c nested_result (vfs_coop_commit_rename c)
  | VFS_COOP_STEP_LINK_BE =>
      vfs_coop_finish_after_be sv c nested_result (vfs_coop_commit_link e sv c)
  | VFS_COOP_STEP_READLINK =>
      if nested_result <? 0 then (sv, Finished nested_result)
      else finish_readlink e sv c (c_path2 c) nested_result
  | _ => (sv, Finished (- LINUX_EIO))
  end.

(** ** Directory listings *)

Definition vfs_dirent64_reclen (name_len : Z) : Z :=
  let reclen := u16 (VFS_DIRENT64_HDR + name_len + 1) in
  u16 (Z.land (reclen + 7) (Z.lnot 7)).

(** The record in the buffer [chunk]. *)
Definition dirent64_bytes (d : vfs_dirent) (next_index reclen : Z) : list Z :=
  let b := le_bytes 8 (d_ino d) ++ le_bytes 8 next_index ++ le_bytes 2 reclen ++ [d_type d]
           ++ (byte_of <$> d_name d) ++ [0] in
  b ++ replicate (Z.to_nat reclen - length b) 0.

Definition vfs_coop_getdents_pack_one e sv c : server * Z :=
  let p := c_par c in
  let io := c_io c in
  if negb (ev_task e (c_pid p)) then (sv, - LINUX_ESRCH)
  else
    let reclen := vfs_dirent64_reclen (Z.of_nat (length (d_name (c_dent io)))) in
    if c_count p <? u64 (c_total io + reclen) then (sv, 0)
    else if 512 <? reclen then (sv, - LINUX_EINVAL)
    else
      let bytes := UBytes (dirent64_bytes (c_dent io) (u64 (c_dir_index io + 1)) reclen) in
      let addr := u64 (c_user_buf p + c_total io) in
      if ev_store e (c_pid p) addr bytes
      then (add_stores sv [UserStore (c_pid p) addr bytes], reclen)
      else (sv, if 0 <? c_total io then 0 else - LINUX_EFAULT).

Definition vfs_coop_getdents_commit_offset sv c : server :=
  match vfs_handle_get (sv_handles sv) (c_handle (c_par c)) with
  | None => sv
  | Some file =>
      set_handles sv (rt_set (sv_handles sv) (c_handle (c_par c))
                        (with_offset file (c_dir_index (c_io c))))
  end.

(** The end of a call with [packed <= 0]; [None] when the entry was packed. *)
Definition getdents_stop sv c (packed : Z) : option (server * coop_disp) :=
  if packed <? 0 then Some (vfs_coop_getdents_commit_offset sv c, Finished packed)
  else if packed =? 0 then
    if c_total (c_io c) =? 0 then Some (sv, Finished (- LINUX_EINVAL))
    else Some (vfs_coop_getdents_commit_offset sv c, Finished (i64 (c_total (c_io c))))
  else None.

Definition with_packed c (packed : Z) : vfs_coop_ctx :=
  let io := c_io c in
  with_io c (CoopIo (u64 (c_total io + packed)) (c_remaining io) (c_chunk_len io) (c_chunk io)
               (u64 (c_dir_index io + 1)) (c_dent io)).
Definition with_dent c (d : vfs_dirent) : vfs_coop_ctx :=
  let io := c_io c in
  with_io c (CoopIo (c_total io) (c_remaining io) (c_chunk_len io) (c_chunk io) (c_dir_index io) d).

(** Every round packs at least one byte. *)
Fixpoint getdents_loop (fuel : nat) e sv c : server * coop_disp :=
  let total := c_total (c_io c) in
  match fuel with
  | O => (vfs_coop_getdents_commit_offset sv c, Finished (i64 total))
  | S fuel' =>
      if total <? c_count (c_par c) then
        let '(prep, dent, port, be_path) :=
          vfs_namespace_readdir_prepare (sv_ns sv) (sv_mounts sv) (Some (c_path c))
            (c_dir_index (c_io c)) VFS_PATH_MAX in
        let c1 := with_paths c (c_path c) be_path in
        let c2 := match dent with Some d => with_dent c1 d | None => c1 end in
        if prep <? 0 then (vfs_coop_getdents_commit_offset sv c2, Finished prep)
        else if prep =? 1 then (vfs_coop_getdents_commit_offset sv c2, Finished (i64 total))
        else if prep =? 2 then
          vfs_coop_park_or_eio e sv (vfs_coop_set_port c2 port) VFS_BACKEND_OP_READDIR
            VFS_COOP_STEP_READDIR
        else
          let '(sv1, packed) := vfs_coop_getdents_pack_one e sv c2 in
          match getdents_stop sv1 c2 packed with
          | Some r => r
          | None => getdents_loop fuel' e sv1 (with_packed c2 packed)
          end
      else (vfs_coop_getdents_commit_offset sv c, Finished (i64 total))
  end.

Definition vfs_coop_getdents_fill e sv c : server * coop_disp :=
  getdents_loop (Z.to_nat (c_count (c_par c))) e sv c.

Definition vfs_coop_start_getdents e sv0 c : server * coop_disp :=
  let sv := vfs_coop_apply_cred sv0 c in
  if c_count (c_par c) =? 0 then (sv, Finished 0)
  else
    match vfs_handle_get (sv_handles sv) (c_handle (c_par c)) with
    | None => (sv, Finished (- LINUX_EBADF))
    | Some file =>
        if negb (is_dir (h_ino file)) then (sv, Finished (- LINUX_ENOTDIR))
        else
          let io := c_io c in
          vfs_coop_getdents_fill e sv
            (with_io (with_paths c (strncpy_term (ino_path (h_ino file)) (VFS_PATH_MAX - 1)) (c_path2 c))
               (CoopIo 0 (c_remaining io) (c_chunk_len io) (c_chunk io) (h_offset file) (c_dent io)))
    end.

Definition vfs_coop_resume_getdents e sv0 c (nested_result : Z) : server * coop_disp :=
  let sv := vfs_coop_apply_cred sv0 c in
  if negb (bool_decide (c_step c = VFS_COOP_STEP_READDIR)) then (sv, Finished (- LINUX_EIO))
  else if nested_result <? 0
  then (vfs_coop_getdents_commit_offset sv c, Finished nested_result)
  else if 0 <? nested_result
  then (vfs_coop_getdents_commit_offset sv c, Finished (i64 (c_total (c_io c))))
  else
    let '(sv1, packed) := vfs_coop_getdents_pack_one e sv c in
    match getdents_stop sv1 c packed with
    | Some r => r
    | None => vfs_coop_getdents_fill e sv1 (with_packed c packed)
    end.

(** ** Reading and writing *)

Definition vfs_coop_issue_rw_nested c (file : vfs_open_handle) : vfs_backend_req :=
  let io := c_io c in
  let mk op wbuf :=
    BackendReq (backend_port (h_ino file)) op None None (Some (InoHandle (c_handle (c_par c))))
      (h_offset file) (c_chunk_len io) wbuf 0 0 0 0 in
  if decide (kind c = VFS_COOP_KIND_READ) then mk VFS_BACKEND_OP_READ []
  else mk VFS_BACKEND_OP_WRITE (take (Z.to_nat (c_chunk_len io)) (c_chunk io)).

Definition chunk_of (remaining : Z) : Z :=
  if VFS_COOP_IO_CHUNK <? remaining then VFS_COOP_IO_CHUNK else remaining.

(** Loading the next chunk of a write from the caller's memory. *)
Definition load_chunk e c (page : list Z) (addr len : Z) : option (list Z) :=
  if decide (kind c = VFS_COOP_KIND_WRITE) then
    match ev_load e (c_pid (c_par c)) addr len with
    | None => None
    | Some b => Some (b ++ drop (length b) page)
    end
  else Some page.

Definition vfs_coop_start_rw e sv c : server * coop_disp :=
  let p := c_par c in
  if negb (ev_task e (c_pid p)) then (sv, Finished (- LINUX_ESRCH))
  else
    match vfs_handle_get (sv_handles sv) (c_handle p) with
    | None => (sv, Finished (- LINUX_EBADF))
    | Some file =>
        let acc := Z.land (open_flags file) VFS_O_ACCMODE in
        let reading := bool_decide (c_kind p = VFS_COOP_KIND_READ) in
        if is_dir (h_ino file) then (sv, Finished (- LINUX_EISDIR))
        else if acc =? (if reading then VFS_O_WRONLY else VFS_O_RDONLY)
        then (sv, Finished (- LINUX_EBADF))
        else
          let file1 := if negb reading && has (open_flags file) VFS_O_APPEND
                       then with_offset file (ino_size (h_ino file)) else file in
          let sv1 := set_handles sv (rt_set (sv_handles sv) (c_handle p) file1) in
          match backend_port (h_ino file1) with
          | None => (sv1, Finished 0)
          | Some _ =>
              match ev_page e with
              | None => (sv1, Finished (- LINUX_ENOMEM))
              | Some page =>
                  if c_count p =? 0 then (sv1, Finished 0)
                  else
                    let chunk_len := chunk_of (c_count p) in
                    match load_chunk e c page (c_user_buf p) chunk_len with
                    | None => (sv1, Finished (- LINUX_EFAULT))
                    | Some chunk =>
                        let io := c_io c in
                        let c1 := with_io c (CoopIo 0 (c_count p) chunk_len chunk (c_dir_index io)
                                               (c_dent io)) in
                        let req := vfs_coop_issue_rw_nested c1 file1 in
                        match vfs_coop_issue_nested e req with
                        | REND_SUCCESS | E_REND_AGAIN => (sv1, Parked c1 req)
                        | _ => (sv1, Finished (- LINUX_EIO))
                        end
                    end
              end
          end
    end.

(** [ctx->total > 0 ? total : r]. *)
Definition total_or c (r : Z) : Z :=
  let total := c_total (c_io c) in if 0 <? total then i64 total else r.

(** The end of [vfs_coop_resume_rw]: the next chunk of a transfer. *)
Definition rw_next e sv c (file : vfs_open_handle) : server * coop_disp :=
  let io := c_io c in
  let chunk_len := chunk_of (c_remaining io) in
  match load_chunk e c (c_chunk io) (u64 (c_user_buf (c_par c) + c_total io)) chunk_len with
  | None => (sv, Finished (i64 (c_total io)))
  | Some chunk =>
      let c1 := with_io c (CoopIo (c_total io) (c_remaining io) chunk_len chunk (c_dir_index io)
                             (c_dent io)) in
      let req := vfs_coop_issue_rw_nested c1 file in
      match vfs_coop_issue_nested e req with
      | REND_SUCCESS | E_REND_AGAIN => (sv, Parked c1 req)
      | _ => (sv, Finished (total_or c1 (- LINUX_EIO)))
      end
  end.

Definition vfs_coop_resume_rw e sv0 c (n : Z) : server * coop_disp :=
  let sv := vfs_coop_apply_cred sv0 c in
  let p := c_par c in
  let io := c_io c in
  match (if ev_task e (c_pid p) then vfs_handle_get (sv_handles sv) (c_handle p) else None) with
  | None => (sv, Finished (total_or c (- LINUX_EBADF)))
  | Some file =>
      if n <? 0 then (sv, Finished (total_or c n))
      else if n =? 0 then (sv, Finished (i64 (c_total io)))
      else if bool_decide (c_kind p = VFS_COOP_KIND_READ) && (Z.of_nat (length (c_chunk io)) <? n)
      then (sv, Overrun)
      else
        let addr := u64 (c_user_buf p + c_total io) in
        let bytes := UBytes (take (Z.to_nat n) (c_chunk io)) in
        let '(stored, sv1) :=
          if decide (c_kind p = VFS_COOP_KIND_READ) then
            if ev_store e (c_pid p) addr bytes
            then (true, add_stores sv [UserStore (c_pid p) addr bytes]) else (false, sv)
          else (true, sv) in
        if negb stored then (sv1, Finished (total_or c (- LINUX_EFAULT)))
        else
          let file1 := with_offset file (u64 (h_offset file + n)) in
          let sv2 := set_handles sv1 (rt_set (sv_handles sv1) (c_handle p) file1) in
          let total := u64 (c_total io + n) in
          let remaining := if n <=? c_remaining io then c_remaining io - n else 0 in
          let c1 := with_io c (CoopIo total remaining (c_chunk_len io) (c_chunk io)
                                 (c_dir_index io) (c_dent io)) in
          if (remaining =? 0) || (n <? c_chunk_len io) then (sv2, Finished (i64 total))
          else rw_next e sv2 c1 file1
  end.

(** ** Answers of backends *)

Definition with_ino_size (i : vfs_inode) (size : Z) : vfs_inode :=
  VfsInode (ino_path i) (backend_port i) (backend_caps i) (storage i) (ino_mode i) size
    (nlink i) (is_dir i) (is_symlink i) (writable i).

(** What the backend wrote through the pointers of the request, before its
    answer arrives: the inode of a lookup, a directory entry, the bytes read,
    the new size of a written or truncated file, the target of a link. *)
Definition deliver sv c (req : vfs_backend_req) (r : vfs_backend_reply) : server * vfs_coop_ctx :=
  let io := c_io c in
  match rq_op req with
  | VFS_BACKEND_OP_LOOKUP => (sv, if rp_result r =? 0 then with_ctx_ino c (rp_ino r) else c)
  | VFS_BACKEND_OP_READDIR => (sv, if rp_result r =? 0 then with_dent c (rp_dent r) else c)
  | VFS_BACKEND_OP_READ =>
      (sv, with_io c (CoopIo (c_total io) (c_remaining io) (c_chunk_len io)
                        (rp_bytes r ++ drop (length (rp_bytes r)) (c_chunk io))
                        (c_dir_index io) (c_dent io)))
  | VFS_BACKEND_OP_WRITE =>
      if rp_result r <? 0 then (sv, c)
      else
        match rq_ino req with
        | Some (InoHandle h) =>
            match rt_get (sv_handles sv) h with
            | Some f =>
                (set_handles sv
                   (rt_set (sv_handles sv) h
                      (VfsOpenHandle (in_use f) (refcnt f) (with_ino_size (h_ino f) (ino_size (rp_ino r)))
                         (h_offset f) (open_flags f))), c)
            | None => (sv, c)
            end
        | _ => (sv, c)
        end
  | VFS_BACKEND_OP_TRUNCATE =>
      (sv, if rp_result r <? 0 then c
           else with_ctx_ino c (with_ino_size (c_ino c) (ino_size (rp_ino r))))
  | VFS_BACKEND_OP_READLINK =>
      (sv, if rp_result r <? 0 then c else with_paths c (c_path c) (rp_link r))
  | _ => (sv, c)
  end.

Definition vfs_coop_resume e sv c (nested_result : Z) : server * coop_disp :=
  match kind c with
  | VFS_COOP_KIND_READ | VFS_COOP_KIND_WRITE => vfs_coop_resume_rw e sv c nested_result
  | VFS_COOP_KIND_GETDENTS => vfs_coop_resume_getdents e sv c nested_result
  | _ => vfs_coop_resume_path e sv c nested_result
  end.

(** A parked job gets its answer. *)
Definition job_answer e sv c (req : vfs_backend_req) (r : vfs_backend_reply) : server * coop_disp :=
  let '(sv1, c1) := deliver sv c req r in vfs_coop_resume e sv1 c1 (rp_result r).

(** ** Incoming messages *)

Definition vfs_coop_fill_cred e (pid : Z) : Z * Z := default (0, 0) (ev_cred e pid).
End coop.

Inductive vfs_opcode : Type :=
  | KMSG_OP_VFS_OPEN | KMSG_OP_VFS_CLOSE | KMSG_OP_VFS_READ | KMSG_OP_VFS_WRITE
  | KMSG_OP_VFS_FSTAT | KMSG_OP_VFS_STAT | KMSG_OP_VFS_LSEEK | KMSG_OP_VFS_GETCWD
  | KMSG_OP_VFS_CHDIR | KMSG_OP_VFS_DUP3 | KMSG_OP_VFS_PIPE2 | KMSG_OP_VFS_MKDIRAT
  | KMSG_OP_VFS_UNLINKAT | KMSG_OP_VFS_NEWFSTATAT | KMSG_OP_VFS_GETDENTS64
  | KMSG_OP_VFS_HANDLE_RETAIN | KMSG_OP_VFS_VALIDATE_DIR | KMSG_OP_VFS_MOUNT
  | KMSG_OP_VFS_UMOUNT | KMSG_OP_VFS_RENAMEAT | KMSG_OP_VFS_LINKAT
  | KMSG_OP_VFS_BACKEND_REGISTER | KMSG_OP_VFS_READLINKAT | KMSG_OP_VFS_FACCESSAT
  | KMSG_OP_UNKNOWN.

(** What [ipc_serial_decode] gives for the format of the opcode; parameters
    the format does not have are 0 or NULL. *)
Record kmsg_args : Type := KmsgArgs {
  km_str : ptr cstr;
  km_str2 : ptr cstr;
  km_param1 : Z;
  km_param2 : Z;
  km_param3 : Z;
  km_rp : ptr cstr;
}.

(** The process a request comes from: by the reply port of the job, or by
    the one in the message. *)
Definition request_pid (reply_port : cstr) (rp : ptr cstr) : option Z :=
  match vfs_rpc_client_pid (Some reply_port) with
  | Some pid => Some pid
  | None => vfs_rpc_client_pid rp
  end.

Definition vfs_coop_is_path_opcode (opcode : vfs_opcode) : bool :=
  match opcode with
  | KMSG_OP_VFS_OPEN | KMSG_OP_VFS_MKDIRAT | KMSG_OP_VFS_UNLINKAT | KMSG_OP_VFS_NEWFSTATAT
  | KMSG_OP_VFS_CHDIR | KMSG_OP_VFS_VALIDATE_DIR | KMSG_OP_VFS_FACCESSAT | KMSG_OP_VFS_RENAMEAT
  | KMSG_OP_VFS_LINKAT | KMSG_OP_VFS_READLINKAT | KMSG_OP_VFS_MOUNT => true
  | _ => false
  end.

(** The context a path request starts with; [None] for any other opcode. *)
Definition path_ctx (opcode : vfs_opcode) (a : kmsg_args) (pid uid gid : Z) (path path2 : cstr)
  : option vfs_coop_ctx :=
  let mk k user_buf count flags at_flags mode follow :=
    Some (CoopCtx (CoopParams k pid uid gid 0 user_buf count flags at_flags) zero_io
            VFS_COOP_STEP_NONE path path2 [] mode follow false zero_rec) in
  let p1 := km_param1 a in
  let p2 := km_param2 a in
  match opcode with
  | KMSG_OP_VFS_OPEN => mk VFS_COOP_KIND_OPEN 0 0 (i32 p1) 0 (u32 p2) true
  | KMSG_OP_VFS_MKDIRAT => mk VFS_COOP_KIND_MKDIR 0 0 0 0 (u32 p1) false
  | KMSG_OP_VFS_UNLINKAT => mk VFS_COOP_KIND_UNLINK 0 0 (i32 p1) 0 0 false
  | KMSG_OP_VFS_NEWFSTATAT =>
      mk VFS_COOP_KIND_STAT p1 0 0 (u32 p2) 0 (negb (has (u32 p2) VFS_AT_SYMLINK_NOFOLLOW))
  | KMSG_OP_VFS_CHDIR | KMSG_OP_VFS_VALIDATE_DIR => mk VFS_COOP_KIND_CHDIR 0 0 0 0 0 true
  | KMSG_OP_VFS_FACCESSAT =>
      mk VFS_COOP_KIND_FACCESSAT 0 0 0 (u32 p2) (u32 p1)
        (negb (has (u32 p2) VFS_AT_SYMLINK_NOFOLLOW))
  | KMSG_OP_VFS_RENAMEAT => mk VFS_COOP_KIND_RENAME 0 0 (i32 p1) 0 0 false
  | KMSG_OP_VFS_LINKAT => mk VFS_COOP_KIND_LINK 0 0 (i32 p1) 0 0 false
  | KMSG_OP_VFS_READLINKAT => mk VFS_COOP_KIND_READLINK p1 p2 0 0 0 false
  | KMSG_OP_VFS_MOUNT => mk VFS_COOP_KIND_MOUNT 0 p1 0 0 0 false
  | _ => None
  end.

Section handler.
Context {T TB TM TH : Type} `{SC : StrcmpS} `{RT : RecordTable vfs_ns_node T}
        `{RTB : RecordTable vfs_backend_entry TB} `{RTM : RecordTable vfs_mount_rec TM}
        `{RTH : RecordTable vfs_open_handle TH}.
Abbreviation server := (vfs_server T TB TM TH).
Implicit Types (sv : server) (e : coop_env).

Definition vfs_coop_decode_path e sv (reply_port : cstr) (opcode : vfs_opcode)
    (km : option kmsg_args) : server * coop_disp :=
  match km with
  | None => (sv, Finished (- LINUX_EINVAL))
  | Some a =>
      let two := match opcode with
                 | KMSG_OP_VFS_RENAMEAT | KMSG_OP_VFS_LINKAT | KMSG_OP_VFS_MOUNT => true
                 | _ => false
                 end in
      match km_str a with
      | None => (sv, Finished (- LINUX_EINVAL))
      | Some s =>
          if two && negb (bool_decide (is_Some (km_str2 a))) then (sv, Finished (- LINUX_EINVAL))
          else
            match request_pid reply_port (km_rp a) with
            | None => (sv, Finished (- LINUX_EINVAL))
            | Some pid =>
                if negb (ev_ctx e) then (sv, Finished (- LINUX_ENOMEM))
                else
                  let '(uid, gid) := vfs_coop_fill_cred e pid in
                  let sv1 := set_cred sv (vfs_perm_set_request uid gid) in
                  match path_ctx opcode a pid uid gid (strncpy_term s (VFS_PATH_MAX - 1))
                          (strncpy_term (default [] (km_str2 a)) (VFS_PATH_MAX - 1)) with
                  | None => (sv1, Finished (- LINUX_ENOSYS))
                  | Some c => vfs_coop_start_path e sv1 c
                  end
            end
      end
  end.

(** The context of a transfer or a directory listing. *)
Definition io_ctx (k : vfs_coop_kind) (pid uid gid handle user_buf count : Z) : vfs_coop_ctx :=
  CoopCtx (CoopParams k pid uid gid handle user_buf count 0 0) zero_io VFS_COOP_STEP_NONE [] [] []
    0 false false zero_rec.

Definition start_io e sv (reply_port : cstr) (k : vfs_coop_kind) (km : option kmsg_args)
    (start : server → vfs_coop_ctx → server * coop_disp) : server * coop_disp :=
  match km with
  | None => (sv, Finished (- LINUX_EINVAL))
  | Some a =>
      match request_pid reply_port (km_rp a) with
      | None => (sv, Finished (- LINUX_EINVAL))
      | Some pid =>
          if negb (ev_ctx e) then (sv, Finished (- LINUX_ENOMEM))
          else
            let '(uid, gid) := vfs_coop_fill_cred e pid in
            start (set_cred sv (vfs_perm_set_request uid gid))
              (io_ctx k pid uid gid (u32 (km_param1 a)) (km_param2 a) (km_param3 a))
      end
  end.

(** Requests that are answered at once. *)
Definition vfs_coop_local e sv (reply_port : cstr) (opcode : vfs_opcode) (a : kmsg_args)
  : server * Z :=
  match opcode with
  | KMSG_OP_VFS_BACKEND_REGISTER =>
      let '(bs, ret) := vfs_backend_register (ev_alloc e) (sv_backends sv) (km_str a) (km_str2 a)
                          (u32 (km_param1 a)) (u32 (km_param2 a)) in
      (set_mounts sv bs (sv_mounts sv), ret)
  | _ =>
      match request_pid reply_port (km_rp a) with
      | None => (sv, - LINUX_EINVAL)
      | Some pid =>
          let '(uid, gid) := vfs_coop_fill_cred e pid in
          let sv := set_cred sv (vfs_perm_set_request uid gid) in
          let handle := u32 (km_param1 a) in
          match opcode with
          | KMSG_OP_VFS_CLOSE =>
              let '(t, ret) := vfs_handle_close (sv_handles sv) handle in (set_handles sv t, ret)
          | KMSG_OP_VFS_HANDLE_RETAIN =>
              let '(t, ret) := vfs_handle_retain (sv_handles sv) handle in (set_handles sv t, ret)
          | KMSG_OP_VFS_FSTAT =>
              let st := match vfs_handle_get (sv_handles sv) handle with
                        | Some f => UStat (linux_user_stat_from_kstat (vfs_kstat_from_inode (h_ino f)))
                        | None => UBytes []
                        end in
              let '(ret, us) := vfs_fstat_handle (ev_task e pid) (ev_store e pid (km_param2 a) st)
                                  (sv_handles sv) pid handle (km_param2 a) in
              (add_stores sv us, ret)
          | KMSG_OP_VFS_LSEEK =>
              let '(t, ret) := vfs_lseek_handle (sv_handles sv) handle (i64 (km_param2 a))
                                 (i32 (km_param3 a)) in
              (set_handles sv t, ret)
          | KMSG_OP_VFS_UMOUNT =>
              let '(s, mt, ret) :=
                vfs_mount_unregister (λ s p b, vfs_namespace_set_mount_cover s (Some p) b)
                  (sv_ns sv) (sv_mounts sv) (sv_handles sv) (km_str a) (km_param1 a) in
              (set_mounts (set_ns sv s) (sv_backends sv) mt, ret)
          | _ => (sv, - LINUX_ENOSYS)
          end
      end
  end.

Definition vfs_coop_handler e sv (reply_port : cstr) (opcode : vfs_opcode) (km : option kmsg_args)
  : server * coop_disp :=
  if vfs_coop_is_path_opcode opcode then vfs_coop_decode_path e sv reply_port opcode km
  else
    match opcode with
    | KMSG_OP_VFS_GETDENTS64 =>
        start_io e sv reply_port VFS_COOP_KIND_GETDENTS km (vfs_coop_start_getdents e)
    | KMSG_OP_VFS_READ => start_io e sv reply_port VFS_COOP_KIND_READ km (vfs_coop_start_rw e)
    | KMSG_OP_VFS_WRITE => start_io e sv reply_port VFS_COOP_KIND_WRITE km (vfs_coop_start_rw e)
    | KMSG_OP_VFS_GETCWD => (sv, Finished (- LINUX_ENOSYS))
    | KMSG_OP_VFS_CLOSE | KMSG_OP_VFS_HANDLE_RETAIN | KMSG_OP_VFS_FSTAT | KMSG_OP_VFS_LSEEK
    | KMSG_OP_VFS_UMOUNT | KMSG_OP_VFS_BACKEND_REGISTER =>
        match km with
        | None => (sv, Finished (- LINUX_EINVAL))
        | Some a => let '(sv1, ret) := vfs_coop_local e sv reply_port opcode a in (sv1, Finished ret)
        end
    | _ =>
        match km with
        | None => (sv, Finished (- LINUX_EINVAL))
        | Some _ => (sv, Finished (- LINUX_ENOSYS))
        end
    end.
End handler.
