(* ===== verification/VfsCoopThm.v ===== *)
(** * The request machine keeps the server well formed

    Whatever requests arrive and however their jobs interleave, the tree, the
    mount table and the open-file table stay well formed; and every job ends
    after a bounded number of answers. *)

From Stdlib Require Import Ascii.
From stdpp Require Import base numbers strings gmap option list.
From S2P Require Import Prelude PageSlice SliceTable VfsPath VfsInode VfsHandle DirNames Cpio Mount Namespace NamespaceSpec NamespaceThm PortNames VfsOpen VfsCoop.

Section invariant.
Context {T TB TM TH : Type} `{SCL : StrcmpSLaws} `{RT : RecordTable vfs_ns_node T}
        {RTL : RecordTableLaws vfs_ns_node T}
        `{RTB : RecordTable vfs_backend_entry TB}
        `{RTM : RecordTable vfs_mount_rec TM} {RTML : RecordTableLaws vfs_mount_rec TM}
        `{RTH : RecordTable vfs_open_handle TH} {RTHL : RecordTableLaws vfs_open_handle TH}.
Abbreviation server := (vfs_server T TB TM TH).
Implicit Types (sv : server) (e : coop_env) (c : vfs_coop_ctx).

(** The server, with at least [n] slots in the open-file table. *)
Record server_inv_from (n : nat) sv : Prop := {
  si_ns : ns_wf (sv_ns sv);
  si_mounts : mounts_wf (sv_mounts sv);
  si_handles : handles_wf (sv_handles sv);
  si_count : (n ≤ length (rt_view (sv_handles sv)))%nat;
}.

(** A job waiting for a rename is not about the root. *)
Definition job_ok c : Prop := c_step c = VFS_COOP_STEP_RENAME_BE → path_comps (c_path c) ≠ [].

(** A request about an open file names the handle of its job, a slot of the
    table. *)
Definition req_ok sv c (req : vfs_backend_req) : Prop :=
  ∀ h, rq_ino req = Some (InoHandle h) →
    h = c_handle (c_par c) ∧ (Z.to_nat h < length (rt_view (sv_handles sv)))%nat.

(** A job is parked with the parameters of its request. *)
Definition disp_ok sv c (d : coop_disp) : Prop :=
  match d with Parked c' req => c_par c' = c_par c ∧ job_ok c' ∧ req_ok sv c req | _ => True end.

Definition good_from (n : nat) c (r : server * coop_disp) : Prop := server_inv_from n r.1 ∧ disp_ok r.1 c r.2.

Context (N : nat).
Abbreviation server_inv := (server_inv_from N).
Abbreviation good := (good_from N).

Lemma good_finished c sv n : server_inv sv → good c (sv, Finished n).
Proof. by split. Qed.

Lemma good_overrun c sv : server_inv sv → good c (sv, Overrun).
Proof. by split. Qed.

Lemma good_par c c' r : c_par c' = c_par c → good c' r → good c r.
Proof. intros E [? Hd]. split; [done|]. unfold disp_ok in *. case_match; [done| |done]. unfold req_ok in *. by rewrite <- E. Qed.

Lemma set_port_par c port : c_par (vfs_coop_set_port c port) = c_par c.
Proof. by destruct port. Qed.

Lemma adopt_prep_par c out : c_par (adopt_prep c out) = c_par c.
Proof. unfold adopt_prep. cbn. by rewrite set_port_par. Qed.

Lemma set_port_path c port : c_path (vfs_coop_set_port c port) = c_path c.
Proof. by destruct port. Qed.

Lemma follow_par e c r c' : vfs_coop_try_follow_symlink e c = (r, c') → c_par c' = c_par c.
Proof. unfold vfs_coop_try_follow_symlink. intros E. repeat case_match; by simplify_eq. Qed.

Lemma inv_cred sv cr : server_inv sv → server_inv (set_cred sv cr).
Proof. by intros []. Qed.

Lemma inv_stores sv us : server_inv sv → server_inv (add_stores sv us).
Proof. by intros []. Qed.

Lemma inv_handles sv t : server_inv sv → handles_wf t →
  (length (rt_view (sv_handles sv)) ≤ length (rt_view t))%nat → server_inv (set_handles sv t).
Proof. intros [? ? ? ?] ? ?. split; [done..|]. cbn. lia. Qed.

Lemma inv_ns sv s : server_inv sv → ns_wf s → server_inv (set_ns sv s).
Proof. by intros []. Qed.

Lemma inv_mounts sv bs mt : server_inv sv → mounts_wf mt → server_inv (set_mounts sv bs mt).
Proof. by intros []. Qed.

Lemma inv_committed sv r : server_inv sv → ns_wf r.1.1 → server_inv (committed sv r).1.
Proof. destruct r as [[s ret] es]. by intros []. Qed.

Lemma inv_cover sv p : server_inv sv → server_inv (apply_cover sv p).
Proof. intros Hs. apply inv_ns; [done|]. apply mount_cover_wf. apply Hs. Qed.

Lemma good_park e sv c0 c op step : server_inv sv → c_par c = c_par c0 →
  (step = VFS_COOP_STEP_RENAME_BE → path_comps (c_path c) ≠ []) →
  good c0 (vfs_coop_park_or_eio e sv c op step).
Proof.
  intros Hs Hp Hst. unfold vfs_coop_park_or_eio.
  destruct (vfs_coop_issue_nested e _); try by apply good_finished.
  all: split; [done|]; split_and!; [done..|]; intros h; by destruct op.
Qed.

Lemma open_install_wf al t ino flags : handles_wf t → handles_wf (vfs_open_install al t (Some ino) flags).1
  ∧ (length (rt_view t) ≤ length (rt_view (vfs_open_install al t (Some ino) flags).1))%nat.
Proof.
  intros Hwf. unfold vfs_open_install. cbv zeta. do 4 (destruct (_ && _); [done|]).
  pose proof (handle_open_length al t (Some ino) flags Hwf) as Hl.
  destruct (vfs_handle_open al t (Some ino) flags) as [t1 h] eqn:E.
  destruct (handle_open_spec _ _ _ _ _ _ Hwf E) as [? _]. by destruct (_ =? 0).
Qed.

Lemma good_install e sv c : server_inv sv → good c (install e sv c).
Proof.
  intros Hs. unfold install. pose proof (open_install_wf (ev_alloc e) (sv_handles sv) (c_ino c)
    (c_flags (c_par c)) (si_handles _ _ Hs)) as [Hw Hl].
  destruct (vfs_open_install _ _ _ _) as [t r]. by apply good_finished, inv_handles.
Qed.
End invariant.

(** The parameters of a context that was derived from another one. *)
Ltac par_tac :=
  repeat first
    [ done | by apply follow_par | eassumption
    | rewrite adopt_prep_par | rewrite set_port_par
    | progress cbn [c_par with_paths with_need_commit with_ctx_mode with_ctx_ino with_follow
                    with_step with_io with_dent with_packed] ].

Create HintDb coop.
#[export] Hint Resolve good_finished good_overrun inv_cred inv_stores inv_cover good_install : coop.
#[export] Hint Extern 2 (good_from _ _ (vfs_coop_park_or_eio _ _ _ _ _)) =>
  apply good_park; [|par_tac|done] : coop.

(** Walks through the branches of a handler. *)
Ltac coop_cases :=
  repeat first
    [ progress cbv zeta
    | progress simplify_eq
    | case_match
    | solve [eauto 3 with coop] ].

Section handlers_inv.
Context {T TB TM TH : Type} `{SCL : StrcmpSLaws} `{RT : RecordTable vfs_ns_node T}
        {RTL : RecordTableLaws vfs_ns_node T}
        `{RTB : RecordTable vfs_backend_entry TB}
        `{RTM : RecordTable vfs_mount_rec TM} {RTML : RecordTableLaws vfs_mount_rec TM}
        `{RTH : RecordTable vfs_open_handle TH} {RTHL : RecordTableLaws vfs_open_handle TH}.
Abbreviation server := (vfs_server T TB TM TH).
Implicit Types (sv : server) (e : coop_env) (c : vfs_coop_ctx).
Context (N : nat).
Abbreviation server_inv := (server_inv_from N).
Abbreviation good := (good_from N).

Lemma store_stat_inv (ok : bool) sv pid buf ino r us : server_inv sv →
  vfs_store_inode_stat ok pid buf ino = (r, us) → server_inv (add_stores sv us).
Proof. intros. by apply inv_stores. Qed.

Lemma good_lookup_op e sv c c0 : server_inv sv →
  good c0 (let '(sv1, ret) := vfs_coop_finish_lookup_op e sv c in (sv1, Finished ret)).
Proof. intros Hs. unfold vfs_coop_finish_lookup_op. coop_cases. Qed.

Lemma good_readlink e sv c c0 buf len : server_inv sv → good c0 (finish_readlink e sv c buf len).
Proof.
  intros Hs. unfold finish_readlink, vfs_coop_store_readlink. cbv zeta.
  repeat case_match; simplify_eq; eauto using good_finished, good_overrun, inv_stores.
Qed.

Lemma good_after_readlink e sv c : server_inv sv → good c (vfs_coop_after_readlink_inode e sv c).
Proof. intros Hs. unfold vfs_coop_after_readlink_inode. coop_cases; by apply good_readlink. Qed.

Lemma good_after_inode e sv c : server_inv sv → good c (vfs_coop_after_inode e sv c).
Proof.
  intros Hs. unfold vfs_coop_after_inode. cbv zeta.
  destruct (kind c); try by apply good_lookup_op.
  - coop_cases.
  - by apply good_after_readlink.
Qed.

Lemma good_on_enoent e sv c : server_inv sv → good c (vfs_coop_open_on_enoent e sv c).
Proof. intros Hs. unfold vfs_coop_open_on_enoent. coop_cases. Qed.

Lemma good_rounds n e sv c : server_inv sv → good c (lookup_rounds n e sv c).
Proof.
  intros Hs. revert c. induction n as [|n IH]; intros c; cbn [lookup_rounds]; [by apply good_overrun|].
  coop_cases.
  - eapply good_par; [|by apply good_on_enoent]. par_tac.
  - eapply good_par; [|by apply IH]. erewrite follow_par by done. par_tac.
  - eapply good_par; [|by apply good_after_inode]. erewrite follow_par by done. par_tac.
Qed.

Lemma good_twopath e sv c r op step : server_inv sv →
  (step = VFS_COOP_STEP_RENAME_BE → ¬ r.1 < 0 → path_comps (pr_path r.2) ≠ []) →
  good c (vfs_coop_start_twopath e sv c r op step).
Proof.
  intros Hs Hp. unfold vfs_coop_start_twopath. destruct r as [prep out].
  destruct (Z.ltb_spec prep 0); [by apply good_finished|].
  apply good_park; [done|par_tac|]. intros E. specialize (Hp E). cbn [fst snd] in Hp.
  rewrite set_port_path. apply Hp. lia.
Qed.

Lemma rename_prepare_path s cred (bs : backend_state TB) (mt : TM) old new r :
  vfs_namespace_rename_prepare s cred bs mt (Some old) (Some new) VFS_PATH_MAX VFS_PATH_MAX = r →
  ¬ r.1 < 0 → path_comps (pr_path r.2) ≠ [].
Proof.
  intros <- Hn. revert Hn. unfold vfs_namespace_rename_prepare.
  change ((VFS_PATH_MAX =? 0)%nat || (VFS_PATH_MAX =? 0)%nat) with false. cbv zeta iota.
  destruct ((VFS_PATH_MAX <? length (path_norm old) + 1)%nat || _) eqn:El; [by intros []|].
  apply orb_false_iff in El as [Hl%Nat.ltb_ge _].
  destruct (vfs_path_is_root (Some (path_norm old)) || _) eqn:Er; [by intros []|].
  apply orb_false_iff in Er as [Hr _].
  assert (path_comps (strncpy_term (path_norm old) (VFS_PATH_MAX - 1)) ≠ []) as Hp.
  { unfold strncpy_term. rewrite take_ge, path_comps_norm by lia. intros E.
    apply not_true_iff_false in Hr. apply Hr. cbn [vfs_path_is_root]. apply is_root_norm_comps.
    by rewrite path_comps_norm. }
  repeat case_match; intros; done.
Qed.

Lemma inv_apply_cred sv c : server_inv sv → server_inv (vfs_coop_apply_cred sv c).
Proof. apply inv_cred. Qed.

Lemma good_committed sv r c : server_inv sv → ns_wf r.1.1 →
  good c (let '(sv1, ret) := committed sv r in (sv1, Finished ret)).
Proof.
  intros Hs Hr. pose proof (inv_committed _ sv r Hs Hr). destruct (committed sv r).
  by apply good_finished.
Qed.

Lemma good_start_path e sv0 c : server_inv sv0 → good c (vfs_coop_start_path e sv0 c).
Proof.
  intros Hs0. pose proof (inv_apply_cred sv0 c Hs0) as Hs. unfold vfs_coop_start_path.
  set (sv := vfs_coop_apply_cred sv0 c) in *. clearbody sv. cbv zeta.
  destruct (kind c); try by apply good_rounds.
  - coop_cases.
  - case_match; [by apply good_finished|].
    destruct (vfs_namespace_unlink_prepare _ _ _ _ _ _) as [prep out].
    case_match; [by apply good_finished|]. case_match; [|by apply good_park; [|par_tac|]].
    case_match; [|by apply good_finished].
    apply good_committed; [done|]. apply unlink_commit_wf, Hs.
  - apply good_twopath; [done|]. intros _. by eapply rename_prepare_path.
  - by apply good_twopath.
  - case_match; [by apply good_finished|by apply good_rounds].
  - destruct (vfs_mount_register_prepare _ _ _ _ _ _ _) as [[[bs mt] prep] out] eqn:E.
    destruct (register_spec _ _ _ _ _ _ _ _ _ _ _ (si_mounts _ _ Hs) E) as [Hm _].
    pose proof (inv_mounts _ sv bs mt Hs Hm). coop_cases.
Qed.

Lemma after_be_good sv c n commit : server_inv sv → ns_wf (commit (sv_ns sv)).1.1 →
  good c (vfs_coop_finish_after_be sv c n commit).
Proof.
  intros Hs Hc. unfold vfs_coop_finish_after_be. case_match; [by apply good_finished|].
  case_match; [|by apply good_finished]. by apply good_committed.
Qed.

(** A commit that is only made when it is needed. *)
Lemma maybe_committed_inv sv (b : bool) r sv1 ret : server_inv sv → ns_wf r.1.1 →
  (if b then committed sv r else (sv, 0)) = (sv1, ret) → server_inv sv1.
Proof.
  intros Hs Hr E. pose proof (inv_committed _ sv r Hs Hr) as Hc. destruct b; [|by simplify_eq].
  rewrite E in Hc. done.
Qed.

Lemma good_resume_path e sv0 c n : server_inv sv0 → job_ok c → good c (vfs_coop_resume_path e sv0 c n).
Proof.
  intros Hs0 Hj. pose proof (inv_apply_cred sv0 c Hs0) as Hs. unfold vfs_coop_resume_path.
  set (sv := vfs_coop_apply_cred sv0 c) in *. clearbody sv. cbv zeta. unfold job_ok in Hj.
  destruct (c_step c) eqn:Est; try by apply good_finished.
  - coop_cases; [by apply good_on_enoent|..]; (eapply good_par; [by eapply follow_par|]).
    + by apply good_rounds.
    + by apply good_after_inode.
  - case_match; [by apply good_finished|]. case_match.
    pose proof (maybe_committed_inv _ _ _ _ _ Hs (make_commit_wf _ _ _ _ _ _ false (si_ns _ _ Hs)) H0).
    coop_cases.
  - coop_cases; by apply good_after_inode.
  - coop_cases; by apply good_after_inode.
  - case_match; [eauto with coop|]. case_match; [by apply good_finished|]. case_match.
    pose proof (maybe_committed_inv _ _ _ _ _ Hs (make_commit_wf _ _ _ _ _ _ true (si_ns _ _ Hs)) H1).
    coop_cases; by (eapply good_par; [|by apply good_rounds]).
  - coop_cases. by eapply good_par; [|by apply good_install].
  - apply after_be_good; [done|]. apply unlink_commit_wf, Hs.
  - apply after_be_good; [done|]. apply rename_commit_wf; [apply Hs|by apply Hj].
  - apply after_be_good; [done|]. apply link_commit_wf, Hs.
  - case_match; [by apply good_finished|by apply good_readlink].
Qed.

Lemma with_offset_wf t k file off : handles_wf t → 0 ≤ k → vfs_handle_get t k = Some file →
  handles_wf (rt_set t k (with_offset file off))
  ∧ length (rt_view (rt_set t k (with_offset file off))) = length (rt_view t).
Proof.
  intros Hwf Hk Hg. rewrite handle_get_live in Hg by done. split; [|by eapply live_set_length].
  destruct (live_pos t k file Hwf Hg) as (_ & _ & _ & Hr).
  apply live_lookup in Hg as Hl. destruct Hl as (_ & _ & Hu).
  apply (handle_write_spec t k file); [done|done|]. right. cbn. done.
Qed.

(** The file of a transfer, at another offset. *)
Lemma inv_offset sv k file off : server_inv sv → 0 ≤ k → vfs_handle_get (sv_handles sv) k = Some file →
  server_inv (set_handles sv (rt_set (sv_handles sv) k (with_offset file off))).
Proof.
  intros Hs Hk Hg. destruct (with_offset_wf _ k file off (si_handles _ _ Hs) Hk Hg) as [? Hl].
  apply inv_handles; [done|done|]. by rewrite Hl.
Qed.

(** The slot of an open file is there. *)
Lemma get_in_table sv k file : server_inv sv → 0 ≤ k → vfs_handle_get (sv_handles sv) k = Some file →
  (Z.to_nat k < length (rt_view (sv_handles sv)))%nat.
Proof.
  intros Hs Hk Hg. rewrite handle_get_live in Hg by (done || apply Hs).
  destruct (live_pos _ _ _ (si_handles _ _ Hs) Hg) as (_ & ? & _). lia.
Qed.

Lemma inv_same_file sv k file : server_inv sv → 0 ≤ k → vfs_handle_get (sv_handles sv) k = Some file →
  server_inv (set_handles sv (rt_set (sv_handles sv) k file)).
Proof.
  intros Hs Hk Hg. replace file with (with_offset file (h_offset file)) by by destruct file.
  by apply inv_offset.
Qed.

Lemma inv_commit_offset sv c : server_inv sv → 0 ≤ c_handle (c_par c) →
  server_inv (vfs_coop_getdents_commit_offset sv c).
Proof.
  intros Hs Hh. unfold vfs_coop_getdents_commit_offset. case_match; [|done]. by apply inv_offset.
Qed.

Lemma inv_pack_one e sv c : server_inv sv → server_inv (vfs_coop_getdents_pack_one e sv c).1.
Proof. intros Hs. unfold vfs_coop_getdents_pack_one. cbv zeta. repeat case_match; cbn [fst]; auto using inv_stores. Qed.

Lemma good_getdents_stop sv c n r : server_inv sv → 0 ≤ c_handle (c_par c) →
  getdents_stop sv c n = Some r → good c r.
Proof.
  intros Hs Hh. unfold getdents_stop. intros E.
  repeat case_match; simplify_eq; eauto using good_finished, inv_commit_offset.
Qed.

Lemma good_getdents_loop fuel : ∀ e sv c, server_inv sv → 0 ≤ c_handle (c_par c) →
  good c (getdents_loop fuel e sv c).
Proof.
  induction fuel as [|fuel IH]; intros e sv c Hs Hh; cbn [getdents_loop].
  { apply good_finished. by apply inv_commit_offset. }
  case_match; [|by apply good_finished, inv_commit_offset].
  destruct (vfs_namespace_readdir_prepare _ _ _ _ _) as [[[prep dent] port] be_path]. cbv zeta.
  set (c1 := match dent with Some _ => _ | None => _ end).
  assert (c_par c1 = c_par c) as Hc1 by by destruct dent. clearbody c1.
  assert (0 ≤ c_handle (c_par c1)) as Hh1 by by rewrite Hc1.
  case_match; [by apply good_finished, inv_commit_offset|].
  case_match; [by apply good_finished, inv_commit_offset|].
  case_match; [by apply good_park; [|par_tac|]|].
  pose proof (inv_pack_one e sv c1 Hs) as Hp.
  destruct (vfs_coop_getdents_pack_one e sv c1) as [sv1 packed]. cbn [fst] in Hp.
  apply (good_par _ _ c1); [done|]. case_match; [by eapply good_getdents_stop|].
  eapply good_par; [|by apply IH]. done.
Qed.

Lemma good_start_getdents e sv0 c : server_inv sv0 → 0 ≤ c_handle (c_par c) →
  good c (vfs_coop_start_getdents e sv0 c).
Proof.
  intros Hs0 Hh. pose proof (inv_apply_cred sv0 c Hs0) as Hs. unfold vfs_coop_start_getdents. cbv zeta.
  repeat (case_match; try by apply good_finished).
  by eapply good_par; [|by apply good_getdents_loop].
Qed.

Lemma good_resume_getdents e sv0 c n : server_inv sv0 → 0 ≤ c_handle (c_par c) →
  good c (vfs_coop_resume_getdents e sv0 c n).
Proof.
  intros Hs0 Hh. pose proof (inv_apply_cred sv0 c Hs0) as Hs. unfold vfs_coop_resume_getdents.
  set (sv := vfs_coop_apply_cred sv0 c) in *. clearbody sv. cbv zeta.
  repeat (case_match; [by apply good_finished; try apply inv_commit_offset|]).
  pose proof (inv_pack_one e sv c Hs) as Hp.
  destruct (vfs_coop_getdents_pack_one e sv c) as [sv1 packed]. cbn [fst] in Hp.
  case_match; [by eapply good_getdents_stop|]. by eapply good_par; [|by apply good_getdents_loop].
Qed.

Lemma good_rw_next e sv c file : server_inv sv → job_ok c →
  (Z.to_nat (c_handle (c_par c)) < length (rt_view (sv_handles sv)))%nat → good c (rw_next e sv c file).
Proof.
  intros Hs Hj Hl. unfold rw_next. cbv zeta. repeat (case_match; try by apply good_finished).
  all: split; [done|]; split_and!; [done|exact Hj|]; intros h.
  all: unfold vfs_coop_issue_rw_nested; case_match; by intros [= <-].
Qed.

Lemma good_start_rw e sv c : server_inv sv → 0 ≤ c_handle (c_par c) → job_ok c →
  good c (vfs_coop_start_rw e sv c).
Proof.
  intros Hs Hh Hj. unfold vfs_coop_start_rw. cbv zeta. case_match; [by apply good_finished|].
  destruct (vfs_handle_get (sv_handles sv) (c_handle (c_par c))) as [file|] eqn:Eg; [|by apply good_finished].
  case_match; [by apply good_finished|]. case_match; [by apply good_finished|].
  set (file1 := if negb _ && _ then _ else _).
  assert (server_inv (set_handles sv (rt_set (sv_handles sv) (c_handle (c_par c)) file1))) as Hs1.
  { unfold file1. destruct (negb _ && _); [by apply inv_offset|by apply inv_same_file]. }
  assert (Z.to_nat (c_handle (c_par c)) < length (rt_view (rt_set (sv_handles sv) (c_handle (c_par c)) file1)))%nat as Hl.
  { erewrite live_set_length; [by eapply get_in_table|apply Hs|]. rewrite <- handle_get_live by (done || apply Hs). done. }
  repeat (case_match; try by apply good_finished).
  all: split; [done|]; split_and!; [done|exact Hj|]; intros h.
  all: unfold vfs_coop_issue_rw_nested; case_match; by intros [= <-].
Qed.

Lemma good_resume_rw e sv0 c n : server_inv sv0 → 0 ≤ c_handle (c_par c) → job_ok c →
  good c (vfs_coop_resume_rw e sv0 c n).
Proof.
  intros Hs0 Hh Hj. pose proof (inv_apply_cred sv0 c Hs0) as Hs. unfold vfs_coop_resume_rw.
  set (sv := vfs_coop_apply_cred sv0 c) in *. clearbody sv. cbv zeta.
  destruct (if ev_task e _ then _ else None) as [file|] eqn:Eg; [|by apply good_finished].
  assert (vfs_handle_get (sv_handles sv) (c_handle (c_par c)) = Some file) as Hg.
  { by destruct (ev_task e _). }
  clear Eg. do 2 (case_match; [by apply good_finished|]). case_match; [by apply good_overrun|].
  destruct (if decide _ then _ else (true, sv)) as [stored sv1] eqn:Est.
  assert (server_inv sv1 ∧ sv_handles sv1 = sv_handles sv) as [Hs1 Hh1].
  { repeat case_match; simplify_eq; by (split; [try apply inv_stores|]). }
  clear Est. case_match; [by apply good_finished|].
  assert (server_inv (set_handles sv1 (rt_set (sv_handles sv1) (c_handle (c_par c))
    (with_offset file (u64 (h_offset file + n)))))) as Hs2.
  { apply inv_offset; [done..|]. by rewrite Hh1. }
  case_match; [by apply good_finished|]. eapply good_par; [|apply good_rw_next; [done|done|]]; [done|]. cbn [sv_handles set_handles c_par].
  rewrite <- Hh1 in Hg. erewrite live_set_length; [by eapply get_in_table|apply Hs1|]. rewrite <- handle_get_live by (done || apply Hs1). done.
Qed.

(** The answer to a write sets the size in the slot of its handle, whatever has
    become of the file. *)
Lemma inv_deliver sv c req r : server_inv sv → 0 ≤ c_handle (c_par c) → job_ok c → req_ok sv c req →
  server_inv (deliver sv c req r).1 ∧ c_par (deliver sv c req r).2 = c_par c
  ∧ job_ok (deliver sv c req r).2.
Proof.
  intros Hs Hh Hj Hq. unfold deliver, job_ok in *. cbv zeta.
  destruct (rq_op req); try (repeat case_match; done). cbv iota.
  destruct (Z.ltb_spec (rp_result r) 0); [done|].
  destruct (rq_ino req) as [[|h]|] eqn:Ei; [done| |done]. destruct (Hq h Ei) as [-> Hl].
  destruct (lookup_lt_is_Some_2 _ _ Hl) as [f Hf]. rewrite <- (Z2Nat.id (c_handle (c_par c))) by done.
  rewrite (rt_get_view _ _ f (hw_ok _ (si_handles _ _ Hs)) Hf). split_and!; [|done|done].
  apply inv_handles; [done|by apply (handles_wf_update _ _ f); [apply Hs|..]|].
  rewrite rt_set_length; [done|apply Hs|done].
Qed.

Lemma good_answer e sv c req r : server_inv sv → 0 ≤ c_handle (c_par c) → job_ok c → req_ok sv c req →
  good c (job_answer e sv c req r).
Proof.
  intros Hs Hh Hj Hq. unfold job_answer.
  destruct (inv_deliver sv c req r Hs Hh Hj Hq) as (Hs1 & Hp1 & Hj1).
  destruct (deliver sv c req r) as [sv1 c1]. cbn [fst snd] in *.
  apply (good_par _ _ c1); [done|]. assert (0 ≤ c_handle (c_par c1)) by by rewrite Hp1.
  unfold vfs_coop_resume. case_match;
    by (apply good_resume_rw || apply good_resume_getdents || apply good_resume_path).
Qed.

(** The jobs a message starts. *)
Definition disp_fresh sv (d : coop_disp) : Prop :=
  match d with
  | Parked c req => 0 ≤ c_handle (c_par c) ∧ job_ok c ∧ req_ok sv c req
  | _ => True
  end.

Lemma good_fresh c (r : server * coop_disp) : 0 ≤ c_handle (c_par c) → good c r → server_inv r.1 ∧ disp_fresh r.1 r.2.
Proof.
  intros Hh [Hs Hd]. split; [done|]. unfold disp_fresh, disp_ok in *. case_match; [done| |done].
  destruct Hd as (Hp & Hj & Hq). unfold req_ok in *. by rewrite Hp.
Qed.

Lemma path_ctx_ok op a pid uid gid p p2 c : path_ctx op a pid uid gid p p2 = Some c →
  c_handle (c_par c) = 0 ∧ c_step c = VFS_COOP_STEP_NONE.
Proof. unfold path_ctx. destruct op; by intros [= <-]. Qed.

Lemma unregister_inv sv tgt flags s mt r : server_inv sv →
  vfs_mount_unregister (λ s p b, vfs_namespace_set_mount_cover s (Some p) b) (sv_ns sv)
    (sv_mounts sv) (sv_handles sv) tgt flags = (s, mt, r) →
  server_inv (set_mounts (set_ns sv s) (sv_backends sv) mt).
Proof.
  intros Hs E. destruct tgt as [tgt|]; [|by cbn in E; simplify_eq; destruct Hs].
  destruct (unregister_spec _ _ _ _ _ _ _ _ _ (si_mounts _ _ Hs) E) as (Hm & H0 & H1 & _).
  apply inv_mounts; [|done]. apply inv_ns; [done|]. destruct (decide (r = 0)) as [E0|E0].
  - destruct (H0 E0) as (_ & _ & _ & _ & -> & _). apply mount_cover_wf, Hs.
  - destruct (H1 E0) as [_ ->]. apply Hs.
Qed.

Lemma lseek_wf t k off wh : handles_wf t → 0 ≤ k → handles_wf (vfs_lseek_handle t k off wh).1
  ∧ length (rt_view (vfs_lseek_handle t k off wh).1) = length (rt_view t).
Proof.
  intros Hwf Hk. unfold vfs_lseek_handle. destruct (vfs_handle_get t k) eqn:E; [|done]. cbv zeta.
  repeat case_match; cbn [fst]; auto using with_offset_wf.
Qed.

Lemma local_inv e sv port op a : server_inv sv → server_inv (vfs_coop_local e sv port op a).1.
Proof.
  intros Hs. pose proof (uw_range 32 (km_param1 a) ltac:(lia)) as [Hk _]. unfold vfs_coop_local.
  destruct op; cbv zeta;
    try (destruct (request_pid port (km_rp a)) as [pid|]; [|done];
         destruct (vfs_coop_fill_cred e pid) as [uid gid]; cbv zeta;
         pose proof (inv_cred _ sv (vfs_perm_set_request uid gid) Hs) as Hs1;
         set (sv1 := set_cred sv _) in *; clearbody sv1); try done.
  - pose proof (handle_close_spec _ _ (si_handles _ _ Hs1) Hk) as [Hw _].
    pose proof (handle_close_length _ _ (si_handles _ _ Hs1) Hk) as Hl.
    destruct (vfs_handle_close _ _) as [t r]. apply inv_handles; [done|done|by cbn in Hl; rewrite Hl].
  - destruct (vfs_fstat_handle _ _ _ _ _ _) as [r us]. by apply inv_stores.
  - pose proof (lseek_wf _ _ (i64 (km_param2 a)) (i32 (km_param3 a)) (si_handles _ _ Hs1) Hk) as [Hw Hl].
    destruct (vfs_lseek_handle _ _ _ _) as [t r]. apply inv_handles; [done|done|by cbn in Hl; rewrite Hl].
  - pose proof (handle_retain_spec _ _ (si_handles _ _ Hs1) Hk) as [Hw _].
    pose proof (handle_retain_length _ _ (si_handles _ _ Hs1) Hk) as Hl.
    destruct (vfs_handle_retain _ _) as [t r]. apply inv_handles; [done|done|by cbn in Hl; rewrite Hl].
  - destruct (vfs_mount_unregister _ _ _ _ _ _) as [[s mt] r] eqn:E. by eapply unregister_inv.
  - destruct (vfs_backend_register _ _ _ _ _ _) as [bs r]. apply inv_mounts; [done|apply Hs].
Qed.

Lemma local_fresh e sv port op a : server_inv sv →
  let r := let '(sv1, ret) := vfs_coop_local e sv port op a in (sv1, Finished ret) in
  server_inv r.1 ∧ disp_fresh r.1 r.2.
Proof.
  intros Hs. pose proof (local_inv e sv port op a Hs). by destruct (vfs_coop_local e sv port op a).
Qed.

Lemma start_io_fresh e sv port k km start : server_inv sv →
  (∀ sv c, server_inv sv → 0 ≤ c_handle (c_par c) → job_ok c → good c (start sv c)) →
  server_inv (start_io e sv port k km start).1
  ∧ disp_fresh (start_io e sv port k km start).1 (start_io e sv port k km start).2.
Proof.
  intros Hs Hst. unfold start_io. repeat (case_match; try done).
  set (c := io_ctx _ _ _ _ _ _ _). assert (0 ≤ c_handle (c_par c)) by (cbn; by apply uw_range).
  apply (good_fresh c); [done|]. apply Hst; [by apply inv_cred|done|done].
Qed.

Lemma handler_fresh e sv port op km : server_inv sv →
  server_inv (vfs_coop_handler e sv port op km).1
  ∧ disp_fresh (vfs_coop_handler e sv port op km).1 (vfs_coop_handler e sv port op km).2.
Proof.
  intros Hs. unfold vfs_coop_handler. destruct (vfs_coop_is_path_opcode op).
  { unfold vfs_coop_decode_path. cbv zeta. repeat (case_match; try done); try (split; [by apply inv_cred|done]).
    all: destruct (path_ctx_ok _ _ _ _ _ _ _ _ ltac:(eassumption)) as [Hh Hst].
    all: eapply good_fresh; [by rewrite Hh|]; apply good_start_path; by apply inv_cred. }
  destruct op; try done; try (by destruct km).
  all: try (apply start_io_fresh; [done|]; intros; by (apply good_start_rw || apply good_start_getdents)).
  all: destruct km as [a|]; [|done]; by apply local_fresh.
Qed.
End handlers_inv.

(** The server, whatever the size of the open-file table. *)
Abbreviation server_inv := (server_inv_from 0).

(** ** How long a job lasts *)

Section budget.
Context {T TB TM TH : Type} `{SCL : StrcmpSLaws} `{RT : RecordTable vfs_ns_node T}
        {RTL : RecordTableLaws vfs_ns_node T}
        `{RTB : RecordTable vfs_backend_entry TB}
        `{RTM : RecordTable vfs_mount_rec TM} {RTML : RecordTableLaws vfs_mount_rec TM}
        `{RTH : RecordTable vfs_open_handle TH} {RTHL : RecordTableLaws vfs_open_handle TH}.
Abbreviation server := (vfs_server T TB TM TH).
Implicit Types (sv : server) (e : coop_env) (c : vfs_coop_ctx).

(** An open that makes a directory. *)
Definition opens_dir c : bool :=
  bool_decide (kind c = VFS_COOP_KIND_OPEN) && has (c_flags (c_par c)) VFS_O_CREAT
  && has (c_flags (c_par c)) VFS_O_DIRECTORY.

Definition path_rank c : nat :=
  match c_step c with
  | VFS_COOP_STEP_LOOKUP => if c_follow_symlink c then 6 else 5
  | VFS_COOP_STEP_MKDIR_BE => if decide (kind c = VFS_COOP_KIND_OPEN) then 6 else 1
  | VFS_COOP_STEP_CREATE => 4
  | VFS_COOP_STEP_CREATE_EXISTING | VFS_COOP_STEP_POST_CREATE_LOOKUP => 3
  | _ => 1
  end.

(** Answers a parked job can still get. *)
Definition budget c : nat :=
  match kind c with
  | VFS_COOP_KIND_READ | VFS_COOP_KIND_WRITE =>
      Z.to_nat ((c_remaining (c_io c) + 4095) `div` 4096)
  | VFS_COOP_KIND_GETDENTS => Z.to_nat (c_count (c_par c) - c_total (c_io c))
  | _ => path_rank c
  end.

(** The progress a parked transfer records. *)
Definition progress_ok c : Prop :=
  match kind c with
  | VFS_COOP_KIND_READ | VFS_COOP_KIND_WRITE =>
      0 < c_remaining (c_io c) ∧ c_chunk_len (c_io c) = chunk_of (c_remaining (c_io c))
  | VFS_COOP_KIND_GETDENTS =>
      0 ≤ c_total (c_io c) < c_count (c_par c) ∧ c_count (c_par c) < 2 ^ 63
  | _ => True
  end.

Definition is_path_kind c : bool :=
  match kind c with
  | VFS_COOP_KIND_READ | VFS_COOP_KIND_WRITE | VFS_COOP_KIND_GETDENTS => false
  | _ => true
  end.

(** A parked path job with a smaller rank. *)
Definition below c (k : nat) (r : server * coop_disp) : Prop :=
  match r.2 with
  | Parked c' _ => c_par c' = c_par c ∧ (path_rank c' < k)%nat
  | _ => True
  end.

Lemma below_finished c k sv n : below c k (sv, Finished n).
Proof. done. Qed.

Lemma below_park c k e sv c1 op step : c_par c1 = c_par c →
  (path_rank (with_step c1 step) < k)%nat → below c k (vfs_coop_park_or_eio e sv c1 op step).
Proof. intros Hp Hk. unfold vfs_coop_park_or_eio. by destruct (vfs_coop_issue_nested e _). Qed.

Lemma below_par c c' k k' r : c_par c' = c_par c → (k ≤ k')%nat → below c' k r → below c k' r.
Proof. unfold below. intros E Hk. destruct r.2; [done| |done]. rewrite E. intros [? ?]. split; [done|lia]. Qed.

Lemma below_readlink c k e sv c1 buf len : below c k (finish_readlink e sv c1 buf len).
Proof. unfold finish_readlink. by repeat case_match. Qed.

Lemma below_after_inode e sv c : below c 2 (vfs_coop_after_inode e sv c).
Proof.
  unfold vfs_coop_after_inode, vfs_coop_after_readlink_inode, install. cbv zeta.
  repeat (case_match; try apply below_finished; try apply below_readlink).
  all: apply below_park; [par_tac|]; unfold path_rank; cbn; lia.
Qed.

Lemma below_on_enoent e sv c : opens_dir c = false → kind c = VFS_COOP_KIND_OPEN →
  below c 5 (vfs_coop_open_on_enoent e sv c).
Proof.
  intros Hd Hk. unfold opens_dir in Hd. rewrite bool_decide_true in Hd by done.
  unfold vfs_coop_open_on_enoent. cbv zeta.
  destruct (has _ VFS_O_CREAT); [|done]. cbn [negb andb] in *. rewrite Hd.
  repeat (case_match; try apply below_finished).
  all: apply below_park; [par_tac|]; unfold path_rank; cbn; lia.
Qed.

Lemma try_follow_spec e c r c' : vfs_coop_try_follow_symlink e c = (r, c') →
  c_par c' = c_par c ∧ (r = 0 → c_follow_symlink c = true ∧ c_follow_symlink c' = false)
  ∧ (r = 1 → c' = c) ∧ r ≤ 1.
Proof.
  unfold vfs_coop_try_follow_symlink. intros E.
  destruct (c_follow_symlink c) eqn:Ef; cbn [negb orb] in E; [|by simplify_eq].
  repeat case_match; simplify_eq; split_and!; done.
Qed.

Lemma follow_off e c : c_follow_symlink c = false → vfs_coop_try_follow_symlink e c = (1, c).
Proof. intros H. unfold vfs_coop_try_follow_symlink. by rewrite H. Qed.

(** Two rounds of the lookup are enough: more fuel changes nothing. *)
Lemma start_lookup_rounds n e sv c : lookup_rounds (S (S n)) e sv c = vfs_coop_start_lookup e sv c.
Proof.
  unfold vfs_coop_start_lookup. cbn [lookup_rounds].
  destruct (vfs_namespace_lookup_prepare _ _ _ _ _) as [[[prep ino] port] be_path].
  destruct (prep <? 0); [done|]. destruct (prep =? 0); [|done].
  set (c1 := with_ctx_ino _ _). destruct (vfs_coop_try_follow_symlink e c1) as [follow c2] eqn:Ef.
  apply try_follow_spec in Ef as (_ & Hf & _). destruct (follow <? 0); [done|].
  destruct (Z.eqb_spec follow 0) as [E|]; [|done]. destruct (Hf E) as [_ Hoff].
  destruct (vfs_namespace_lookup_prepare _ _ _ _ _) as [[[prep' ino'] port'] be_path'].
  destruct (prep' <? 0); [done|]. destruct (prep' =? 0); [|done].
  by rewrite follow_off by exact Hoff.
Qed.

Lemma below_rounds n e sv : ∀ c, opens_dir c = false →
  below c (if c_follow_symlink c then 7 else 6) (lookup_rounds n e sv c).
Proof.
  induction n as [|n IH]; intros c Hd; cbn [lookup_rounds]; [done|].
  destruct (vfs_namespace_lookup_prepare _ _ _ _ _) as [[[prep ino] port] be_path]. cbv zeta.
  set (c1 := with_ctx_ino _ _). assert (5 ≤ if c_follow_symlink c then 7 else 6)%nat by (case_match; lia).
  destruct (prep <? 0).
  { destruct (bool_decide (kind c = VFS_COOP_KIND_OPEN)) eqn:Ek; [|done]. destruct (prep =? _); [|done].
    apply bool_decide_eq_true in Ek. eapply (below_par _ c1); [done| |by apply below_on_enoent]. done. }
  destruct (prep =? 0).
  { destruct (vfs_coop_try_follow_symlink e c1) as [f c2] eqn:Ef.
    apply try_follow_spec in Ef as (Hp & H0 & _). destruct (f <? 0); [done|].
    destruct (Z.eqb_spec f 0) as [->|].
    - destruct (H0 eq_refl) as [Hf1 Hf2]. change (c_follow_symlink c1) with (c_follow_symlink c) in Hf1.
      rewrite Hf1. eapply (below_par _ c2); [done| |apply IH]; [by rewrite Hf2; lia|].
      unfold opens_dir. by rewrite Hp.
    - eapply (below_par _ c2); [done| |apply below_after_inode]. lia. }
  apply below_park; [par_tac|]. unfold path_rank. cbn [c_step with_step c_follow_symlink].
  destruct port; cbn; case_match; lia.
Qed.

Lemma below_after_be c k sv c1 n commit : below c k (vfs_coop_finish_after_be sv c1 n commit).
Proof. unfold vfs_coop_finish_after_be. by repeat case_match. Qed.

Lemma below_resume_path e sv0 c n : opens_dir c = false →
  below c (path_rank c) (vfs_coop_resume_path e sv0 c n).
Proof.
  intros Hd. unfold vfs_coop_resume_path. set (sv := vfs_coop_apply_cred sv0 c). cbv zeta.
  destruct (c_step c) eqn:Est; try done; try apply below_after_be; unfold path_rank; rewrite Est.
  - destruct (negb (n =? 0)).
    { destruct (bool_decide (kind c = VFS_COOP_KIND_OPEN)) eqn:Ek; [|done]. destruct (n =? _); [|done].
      apply bool_decide_eq_true in Ek. eapply (below_par _ c); [done| |by apply below_on_enoent].
      case_match; lia. }
    destruct (vfs_coop_try_follow_symlink e c) as [f c2] eqn:Ef.
    apply try_follow_spec in Ef as (Hp & H0 & _). destruct (f <? 0); [done|].
    destruct (Z.eqb_spec f 0) as [->|].
    + destruct (H0 eq_refl) as [Hf1 Hf2]. rewrite Hf1.
      eapply (below_par _ c2); [done| |apply below_rounds]; [by rewrite Hf2|].
      unfold opens_dir. by rewrite Hp.
    + eapply (below_par _ c2); [done| |apply below_after_inode]. case_match; lia.
  - destruct (n <? 0); [done|]. destruct (if c_need_commit c then _ else _) as [sv1 ret].
    destruct (ret <? 0); [done|]. apply below_park; [done|]. unfold path_rank. cbn. lia.
  - do 2 (case_match; [done|]). eapply (below_par _ c); [done| |apply below_after_inode]. lia.
  - case_match; [done|]. eapply (below_par _ c); [done| |apply below_after_inode]. lia.
  - destruct (decide (kind c = VFS_COOP_KIND_MOUNT)); [done|]. destruct (n <? 0); [done|].
    destruct (if c_need_commit c then _ else _) as [sv1 ret]. destruct (ret <? 0); [done|].
    destruct (decide (kind c = VFS_COOP_KIND_OPEN)); [|done].
    set (c1 := with_follow _ false). change 6%nat with (if c_follow_symlink c1 then 7 else 6)%nat.
    eapply (below_par _ c1); [done|done|]. by apply below_rounds.
  - unfold install. case_match; [done|]. by case_match.
  - case_match; [done|]. apply below_readlink.
Qed.

(** No step has a higher rank than 6. *)
Lemma below_top e sv c : ∀ n, below c 7 (lookup_rounds n e sv c).
Proof.
  intros n. revert c. induction n as [|n IH]; intros c; cbn [lookup_rounds]; [done|].
  destruct (vfs_namespace_lookup_prepare _ _ _ _ _) as [[[prep ino] port] be_path]. cbv zeta.
  set (c1 := with_ctx_ino _ _). destruct (prep <? 0).
  { case_match; [|done]. unfold vfs_coop_open_on_enoent. cbv zeta. coop_cases; try done.
    all: apply below_park; [par_tac|]; unfold path_rank; cbn; try case_match; lia. }
  destruct (prep =? 0).
  { destruct (vfs_coop_try_follow_symlink e c1) as [f c2] eqn:Ef.
    apply try_follow_spec in Ef as (Hp & _). destruct (f <? 0); [done|]. destruct (f =? 0).
    - eapply (below_par _ c2); [done|done|apply IH].
    - eapply (below_par _ c2); [done| |apply below_after_inode]. lia. }
  apply below_park; [par_tac|]. unfold path_rank. cbn. case_match; lia.
Qed.

Lemma below_start_path e sv0 c : below c 7 (vfs_coop_start_path e sv0 c).
Proof.
  unfold vfs_coop_start_path. set (sv := vfs_coop_apply_cred sv0 c). cbv zeta.
  pose proof (below_top e sv c 2) as Hl. change (lookup_rounds 2 e sv c) with (vfs_coop_start_lookup e sv c) in Hl.
  destruct (kind c) eqn:Ek; try done; unfold vfs_coop_start_twopath;
    repeat (case_match; try apply below_finished; try exact Hl).
  all: apply below_park; [par_tac|]; unfold path_rank; cbn; try lia.
  all: case_match; lia.
Qed.

(** ** Transfers *)

Definition shrinks c (r : server * coop_disp) : Prop :=
  match r.2 with
  | Parked c' _ => c_par c' = c_par c ∧ progress_ok c' ∧ (budget c' < budget c)%nat
  | _ => True
  end.

Lemma chunk_of_le n : 0 < n → 0 < chunk_of n ≤ n ∧ chunk_of n ≤ 4096 ∧ (chunk_of n < 4096 → chunk_of n = n).
Proof. unfold chunk_of, VFS_COOP_IO_CHUNK. destruct (Z.ltb_spec 4096 n); lia. Qed.

Lemma rw_budget_lt rem n : 0 < rem → chunk_of rem ≤ n → 0 < rem - n →
  (Z.to_nat ((rem - n + 4095) `div` 4096) < Z.to_nat ((rem + 4095) `div` 4096))%nat.
Proof.
  intros Hr Hn Hp. pose proof (chunk_of_le rem Hr) as (Hc & _ & Hc').
  destruct (decide (chunk_of rem < 4096)); [lia|].
  pose proof (Z.div_le_mono (rem - n + 4095 + 1 * 4096) (rem + 4095) 4096 ltac:(lia) ltac:(lia)) as Hle.
  rewrite Z.div_add in Hle by lia.
  pose proof (Z.div_pos (rem - n + 4095) 4096 ltac:(lia) ltac:(lia)). lia.
Qed.

Definition is_rw c : bool :=
  match kind c with VFS_COOP_KIND_READ | VFS_COOP_KIND_WRITE => true | _ => false end.

Lemma rw_next_parked e sv c file sv' c' req : rw_next e sv c file = (sv', Parked c' req) →
  c_par c' = c_par c ∧ c_remaining (c_io c') = c_remaining (c_io c)
  ∧ c_chunk_len (c_io c') = chunk_of (c_remaining (c_io c)).
Proof. unfold rw_next. cbv zeta. intros E. repeat case_match; by simplify_eq. Qed.

Lemma shrinks_resume_rw e sv0 c n : is_rw c = true → progress_ok c →
  shrinks c (vfs_coop_resume_rw e sv0 c n).
Proof.
  intros Hk Hpr. assert (budget c = Z.to_nat ((c_remaining (c_io c) + 4095) `div` 4096)
    ∧ 0 < c_remaining (c_io c) ∧ c_chunk_len (c_io c) = chunk_of (c_remaining (c_io c))) as (Hb & Hr & Hcl).
  { unfold is_rw, budget, progress_ok in *. by destruct (kind c). }
  unfold vfs_coop_resume_rw. set (sv := vfs_coop_apply_cred sv0 c). cbv zeta.
  destruct (if ev_task e _ then _ else None) as [file|]; [|done].
  destruct (n <? 0); [done|]. destruct (n =? 0); [done|]. destruct (_ && _); [done|].
  destruct (if decide _ then _ else (true, sv)) as [stored sv1]. destruct (negb stored); [done|].
  set (rem := if n <=? c_remaining (c_io c) then _ else 0).
  destruct ((rem =? 0) || (n <? c_chunk_len (c_io c))) eqn:Eend; [done|].
  apply orb_false_iff in Eend as [Erem%Z.eqb_neq En%Z.ltb_ge].
  assert (rem = c_remaining (c_io c) - n ∧ 0 < rem) as [Hrem Hpos].
  { subst rem. destruct (Z.leb_spec n (c_remaining (c_io c))); [lia|done]. }
  clearbody rem. unfold shrinks. destruct (rw_next _ _ _ _) as [sv2 [|c' req|]] eqn:En'; [done| |done].
  apply rw_next_parked in En' as (Hp & Hr' & Hc'). cbn [c_io with_io c_remaining c_par snd] in *.
  rewrite Hb. unfold budget, progress_ok. rewrite Hp, Hr', Hc'. unfold is_rw in Hk.
  destruct (kind c); try done; (split_and!; [done..|]); subst rem; apply rw_budget_lt; lia.
Qed.

Lemma pack_one_pos e sv c sv1 n : vfs_coop_getdents_pack_one e sv c = (sv1, n) → 0 < n →
  n = vfs_dirent64_reclen (Z.of_nat (length (d_name (c_dent (c_io c)))))
  ∧ u64 (c_total (c_io c) + n) ≤ c_count (c_par c).
Proof.
  unfold vfs_coop_getdents_pack_one. cbv zeta. intros E Hn.
  repeat case_match; simplify_eq; zbool; try done; unfold LINUX_ESRCH, LINUX_EINVAL, LINUX_EFAULT in *; lia.
Qed.

Lemma reclen_range n : 0 ≤ vfs_dirent64_reclen n < 2 ^ 16.
Proof. unfold vfs_dirent64_reclen. cbv zeta. by apply uw_range. Qed.

(** The total after an entry is packed. *)
Lemma packed_total e sv c sv1 n : vfs_coop_getdents_pack_one e sv c = (sv1, n) → 0 < n →
  0 ≤ c_total (c_io c) < 2 ^ 63 → c_count (c_par c) < 2 ^ 63 →
  u64 (c_total (c_io c) + n) = c_total (c_io c) + n ∧ c_total (c_io c) + n ≤ c_count (c_par c).
Proof.
  intros E Hn Ht Hc. destruct (pack_one_pos _ _ _ _ _ E Hn) as [Hr Hle].
  pose proof (reclen_range (Z.of_nat (length (d_name (c_dent (c_io c)))))).
  rewrite uw_small in * by lia. done.
Qed.

Definition listing_below c (k : nat) (r : server * coop_disp) : Prop :=
  match r.2 with
  | Parked c' _ => c_par c' = c_par c ∧ progress_ok c' ∧ (budget c' ≤ k)%nat
  | _ => True
  end.

Lemma getdents_stop_finished sv c n r : getdents_stop sv c n = Some r → ∃ sv' m, r = (sv', Finished m).
Proof. unfold getdents_stop. intros. repeat case_match; simplify_eq; eauto. Qed.

Lemma getdents_stop_None sv c n : getdents_stop sv c n = None → 0 < n.
Proof. unfold getdents_stop. intros. repeat case_match; zbool; done || lia. Qed.

Lemma listing_below_loop fuel : ∀ e sv c, kind c = VFS_COOP_KIND_GETDENTS →
  0 ≤ c_total (c_io c) < 2 ^ 63 → c_count (c_par c) < 2 ^ 63 →
  listing_below c (Z.to_nat (c_count (c_par c) - c_total (c_io c))) (getdents_loop fuel e sv c).
Proof.
  induction fuel as [|fuel IH]; intros e sv c Hk Ht Hc; cbn [getdents_loop]; [done|].
  destruct (Z.ltb_spec (c_total (c_io c)) (c_count (c_par c))) as [Hlt|]; [|done].
  destruct (vfs_namespace_readdir_prepare _ _ _ _ _) as [[[prep dent] port] be_path]. cbv zeta.
  set (c1 := match dent with Some _ => _ | None => _ end).
  assert (c_par c1 = c_par c ∧ c_total (c_io c1) = c_total (c_io c)) as [Hp1 Ht1] by by destruct dent.
  clearbody c1. destruct (prep <? 0); [done|]. destruct (prep =? 1); [done|].
  destruct (prep =? 2).
  { unfold vfs_coop_park_or_eio.
    assert (c_par (vfs_coop_set_port c1 port) = c_par c
      ∧ c_total (c_io (vfs_coop_set_port c1 port)) = c_total (c_io c)) as [Hp2 Ht2] by by destruct port.
    destruct (vfs_coop_issue_nested e _); try done; unfold listing_below, progress_ok, budget;
      cbn [snd c_par c_io with_step c_total]; rewrite Hp2, Ht2, Hk; split_and!; (done || lia). }
  destruct (vfs_coop_getdents_pack_one e sv c1) as [sv1 n] eqn:Epk.
  destruct (getdents_stop sv1 c1 n) as [r|] eqn:Est.
  { by apply getdents_stop_finished in Est as (? & ? & ->). }
  apply getdents_stop_None in Est.
  destruct (packed_total _ _ _ _ _ Epk Est) as [Htot Hle]; [lia|by rewrite Hp1|].
  rewrite Hp1 in Hle. specialize (IH e sv1 (with_packed c1 n)).
  cbn [c_par c_io c_total with_packed with_io] in IH. rewrite Hp1, Htot in IH.
  specialize (IH Hk ltac:(lia) Hc). unfold listing_below in *.
  destruct (getdents_loop fuel e sv1 _).2; [done| |done].
  cbn [c_par with_packed with_io] in IH. rewrite Hp1 in IH.
  destruct IH as (? & ? & ?). split_and!; [done..|lia].
Qed.

Lemma shrinks_resume_getdents e sv0 c n : kind c = VFS_COOP_KIND_GETDENTS → progress_ok c →
  shrinks c (vfs_coop_resume_getdents e sv0 c n).
Proof.
  intros Hk Hpr. pose proof Hpr as Hpr'. unfold progress_ok in Hpr. rewrite Hk in Hpr.
  destruct Hpr as [Ht Hc]. unfold vfs_coop_resume_getdents. set (sv := vfs_coop_apply_cred sv0 c).
  cbv zeta. do 3 (case_match; [done|]).
  destruct (vfs_coop_getdents_pack_one e sv c) as [sv1 k] eqn:Epk.
  destruct (getdents_stop sv1 c k) as [r|] eqn:Est.
  { by apply getdents_stop_finished in Est as (? & ? & ->). }
  apply getdents_stop_None in Est.
  destruct (packed_total _ _ _ _ _ Epk Est) as [Htot Hle]; [lia|done|].
  unfold vfs_coop_getdents_fill.
  pose proof (listing_below_loop (Z.to_nat (c_count (c_par (with_packed c k)))) e sv1 (with_packed c k)) as Hl.
  cbn [c_par c_io c_total with_packed with_io] in Hl |- *. rewrite Htot in Hl.
  specialize (Hl Hk ltac:(lia) Hc). unfold listing_below, shrinks in *.
  destruct (getdents_loop _ e sv1 _).2; [done| |done].
  destruct Hl as (? & ? & ?). split_and!; [done..|]. unfold budget at 2. rewrite Hk. lia.
Qed.

(** ** Any job *)

Lemma deliver_same sv c req r :
  let c' := (deliver sv c req r).2 in
  c_par c' = c_par c ∧ c_step c' = c_step c ∧ c_follow_symlink c' = c_follow_symlink c
  ∧ c_total (c_io c') = c_total (c_io c) ∧ c_remaining (c_io c') = c_remaining (c_io c)
  ∧ c_chunk_len (c_io c') = c_chunk_len (c_io c).
Proof. unfold deliver. cbv zeta. destruct (rq_op req); repeat case_match; done. Qed.

Lemma path_shrinks c r : is_path_kind c = true → below c (path_rank c) r → shrinks c r.
Proof.
  unfold below, shrinks, is_path_kind. intros Hk Hb. destruct r.2 as [|c' req|]; [done| |done].
  destruct Hb as [Hp Hb]. unfold progress_ok, budget. rewrite Hp.
  destruct (kind c); done.
Qed.

Lemma shrinks_same c c' r : c_par c' = c_par c → budget c' = budget c → shrinks c' r → shrinks c r.
Proof. unfold shrinks. intros Hp Hb. destruct r.2; [done| |done]. by rewrite Hp, Hb. Qed.

Lemma answer_shrinks e sv c req r : opens_dir c = false → progress_ok c →
  shrinks c (job_answer e sv c req r).
Proof.
  intros Hd Hpr. unfold job_answer. pose proof (deliver_same sv c req r) as Hsame.
  destruct (deliver sv c req r) as [sv1 c1]. cbv zeta in Hsame. cbn [snd] in Hsame.
  destruct Hsame as (Hp & Hst & Hf & Ht & Hr & Hcl).
  apply (shrinks_same c c1); [done|unfold budget, path_rank; by rewrite Hp, Hst, Hf, Ht, Hr|].
  assert (progress_ok c1) as Hpr1 by (unfold progress_ok in *; by rewrite Hp, Ht, Hr, Hcl).
  assert (opens_dir c1 = false) as Hd1 by (unfold opens_dir in *; by rewrite Hp).
  unfold vfs_coop_resume. destruct (kind c1) eqn:Ek;
    try (apply path_shrinks; [unfold is_path_kind; by rewrite Ek|by apply below_resume_path]).
  - apply shrinks_resume_rw; [unfold is_rw; by rewrite Ek|done].
  - apply shrinks_resume_rw; [unfold is_rw; by rewrite Ek|done].
  - by apply shrinks_resume_getdents.
Qed.

(** [n] more answers leave the job parked: each in an environment and a
    server state of its own, since other jobs run in between. *)
Inductive job_lasts : vfs_coop_ctx → vfs_backend_req → nat → Prop :=
  | LastsNow c req : job_lasts c req 0
  | LastsMore e sv c req r sv' c' req' n :
      job_answer e sv c req r = (sv', Parked c' req') → job_lasts c' req' n →
      job_lasts c req (S n).

Lemma budget_pos c : progress_ok c → (0 < budget c)%nat.
Proof.
  unfold progress_ok, budget. intros Hp.
  assert (0 < path_rank c)%nat by (unfold path_rank; repeat case_match; lia).
  assert (∀ x, 0 < x → (0 < Z.to_nat ((x + 4095) `div` 4096))%nat) as Hx.
  { intros x Hx. pose proof (Z.div_le_mono 4096 (x + 4095) 4096 ltac:(lia) ltac:(lia)) as Hd.
    rewrite Z.div_same in Hd by lia. lia. }
  destruct (kind c); try done; [apply Hx, Hp..|lia].
Qed.

Lemma lasts_budget c req n : job_lasts c req n → opens_dir c = false → progress_ok c → (n < budget c)%nat.
Proof.
  induction 1 as [|e sv c req r sv' c' req' n E _ IH]; intros Hd Hpr; [by apply budget_pos|].
  pose proof (answer_shrinks e sv c req r Hd Hpr) as Hs. rewrite E in Hs. cbn in Hs.
  destruct Hs as (Hp & Hpr' & Hlt).
  assert (opens_dir c' = false) as Hd' by (unfold opens_dir in *; by rewrite Hp).
  specialize (IH Hd' Hpr'). lia.
Qed.

Lemma start_rw_parked e sv c sv' c' req : is_rw c = true → 0 ≤ c_count (c_par c) →
  vfs_coop_start_rw e sv c = (sv', Parked c' req) →
  c_par c' = c_par c ∧ progress_ok c' ∧ budget c' = Z.to_nat ((c_count (c_par c) + 4095) `div` 4096).
Proof.
  intros Hk Hc. unfold vfs_coop_start_rw. cbv zeta. intros E.
  repeat (case_match; try done); simplify_eq.
  all: unfold is_rw, progress_ok, budget in *; cbn [c_par c_io with_io c_remaining c_chunk_len].
  all: zbool; destruct (kind c); try done; (split_and!; [done|lia|done|done]).
Qed.

Lemma start_getdents_parked e sv0 c sv' c' req : kind c = VFS_COOP_KIND_GETDENTS →
  c_count (c_par c) < 2 ^ 63 →
  vfs_coop_start_getdents e sv0 c = (sv', Parked c' req) →
  c_par c' = c_par c ∧ progress_ok c' ∧ (budget c' ≤ Z.to_nat (c_count (c_par c)))%nat.
Proof.
  intros Hk Hc. unfold vfs_coop_start_getdents. set (sv := vfs_coop_apply_cred sv0 c). cbv zeta. intros E.
  destruct (c_count (c_par c) =? 0); [done|]. destruct (vfs_handle_get _ _) as [file|]; [|done].
  destruct (negb _); [done|]. unfold vfs_coop_getdents_fill in E.
  set (c1 := with_io _ _) in E.
  pose proof (listing_below_loop (Z.to_nat (c_count (c_par c1))) e sv c1 Hk ltac:(cbn; lia) Hc) as Hl.
  rewrite E in Hl. unfold listing_below in Hl. cbn [snd] in Hl.
  cbn [c_par c_io c_total with_io with_paths c1] in Hl. by rewrite Z.sub_0_r in Hl.
Qed.

(** The most answers a job can get, by its request. *)
Definition answers_bound c : Z :=
  match kind c with
  | VFS_COOP_KIND_READ | VFS_COOP_KIND_WRITE => (c_count (c_par c) + 4095) `div` 4096
  | VFS_COOP_KIND_GETDENTS => c_count (c_par c)
  | _ => 6
  end.

Lemma io_started e sv port k a sv' c req start : 0 ≤ km_param3 a →
  start_io e sv port k (Some a) start = (sv', Parked c req) →
  ∃ (sv1 : server) c0, start sv1 c0 = (sv', Parked c req) ∧ c_kind (c_par c0) = k
    ∧ c_count (c_par c0) = km_param3 a.
Proof.
  intros Ha. unfold start_io. intros E. repeat (case_match; try done). eauto.
Qed.

Lemma path_started op a pid uid gid p p2 c0 e sv sv' c req :
  path_ctx op a pid uid gid p p2 = Some c0 →
  vfs_coop_start_path e sv c0 = (sv', Parked c req) →
  progress_ok c ∧ Z.of_nat (budget c) ≤ answers_bound c.
Proof.
  intros Hc E. assert (is_path_kind c0 = true) as Hk.
  { unfold path_ctx in Hc. by destruct op; simplify_eq. }
  pose proof (below_start_path e sv c0) as Hb. rewrite E in Hb. destruct Hb as [Hp Hb].
  unfold is_path_kind, progress_ok, budget, answers_bound in *. rewrite Hp.
  destruct (kind c0); try done; split; (done || lia).
Qed.

Lemma handler_budget e sv port op a sv' c req : 0 ≤ km_param3 a < 2 ^ 63 →
  vfs_coop_handler e sv port op (Some a) = (sv', Parked c req) →
  progress_ok c ∧ Z.of_nat (budget c) ≤ answers_bound c.
Proof.
  intros Ha. unfold vfs_coop_handler. destruct (vfs_coop_is_path_opcode op) eqn:Eop.
  { unfold vfs_coop_decode_path. cbv zeta. intros E. repeat (case_match; try done).
    all: by eapply path_started. }
  destruct op; try done; try (intros E; by case_match).
  - intros (sv1 & c0 & E & Hk & Hc)%io_started; [|lia].
    assert (is_rw c0 = true) as Hrw by (unfold is_rw; by rewrite Hk).
    destruct (start_rw_parked _ _ _ _ _ _ Hrw ltac:(lia) E) as (Hp & Hpr & Hb).
    split; [done|]. unfold answers_bound. rewrite Hb, Hp, Hk.
    pose proof (Z.div_pos (c_count (c_par c0) + 4095) 4096 ltac:(lia) ltac:(lia)). lia.
  - intros (sv1 & c0 & E & Hk & Hc)%io_started; [|lia].
    assert (is_rw c0 = true) as Hrw by (unfold is_rw; by rewrite Hk).
    destruct (start_rw_parked _ _ _ _ _ _ Hrw ltac:(lia) E) as (Hp & Hpr & Hb).
    split; [done|]. unfold answers_bound. rewrite Hb, Hp, Hk.
    pose proof (Z.div_pos (c_count (c_par c0) + 4095) 4096 ltac:(lia) ltac:(lia)). lia.
  - intros (sv1 & c0 & E & Hk & Hc)%io_started; [|lia].
    destruct (start_getdents_parked _ _ _ _ _ _ Hk ltac:(lia) E) as (Hp & Hpr & Hb).
    split; [done|]. unfold answers_bound. rewrite Hp, Hk. lia.
Qed.
End budget.
