(* ===== verification/VfsCoopProps.v ===== *)
(** * What the request machine promises

    The properties of the VFS server as a system: any number of jobs, parked
    and resumed in any order. *)

From Stdlib Require Import Ascii.
From stdpp Require Import base numbers strings gmap option list.
From S2P Require Import Prelude PageSlice SliceTable VfsPath VfsInode VfsHandle DirNames Cpio Mount Namespace NamespaceSpec NamespaceThm PortNames VfsOpen VfsCoop VfsCoopThm.

(** ** The system *)

(** The jobs a handler leaves parked. *)
Definition parked (d : coop_disp) : list (vfs_coop_ctx * vfs_backend_req) :=
  match d with Parked c req => [(c, req)] | _ => [] end.

(** One job on its own, answered by [backend] until it ends. *)
Fixpoint job_run {T TB TM TH : Type} `{SC : StrcmpS} `{RT : RecordTable vfs_ns_node T}
    `{RTB : RecordTable vfs_backend_entry TB} `{RTM : RecordTable vfs_mount_rec TM}
    `{RTH : RecordTable vfs_open_handle TH} (fuel : nat) (e : coop_env)
    (backend : vfs_backend_req → vfs_backend_reply) (r : vfs_server T TB TM TH * coop_disp)
  : vfs_server T TB TM TH * coop_disp :=
  match fuel, r with
  | S fuel', (sv, Parked c req) =>
      job_run fuel' e backend (job_answer e sv c req (backend req))
  | _, _ => r
  end.

(** A message arrives, or one of the parked jobs is answered. *)
Inductive coop_sys_step {T TB TM TH : Type} `{SC : StrcmpS} `{RT : RecordTable vfs_ns_node T}
    `{RTB : RecordTable vfs_backend_entry TB} `{RTM : RecordTable vfs_mount_rec TM}
    `{RTH : RecordTable vfs_open_handle TH}
  : vfs_server T TB TM TH * list (vfs_coop_ctx * vfs_backend_req) →
    vfs_server T TB TM TH * list (vfs_coop_ctx * vfs_backend_req) → Prop :=
  | SysMessage e sv jobs port op km sv' d :
      vfs_coop_handler e sv port op km = (sv', d) →
      coop_sys_step (sv, jobs) (sv', jobs ++ parked d)
  | SysAnswer e sv jobs1 c req jobs2 r sv' d :
      job_answer e sv c req r = (sv', d) →
      coop_sys_step (sv, jobs1 ++ (c, req) :: jobs2) (sv', jobs1 ++ parked d ++ jobs2).

Section system.
Context {T TB TM TH : Type} `{SCL : StrcmpSLaws} `{RT : RecordTable vfs_ns_node T}
        {RTL : RecordTableLaws vfs_ns_node T}
        `{RTB : RecordTable vfs_backend_entry TB}
        `{RTM : RecordTable vfs_mount_rec TM} {RTML : RecordTableLaws vfs_mount_rec TM}
        `{RTH : RecordTable vfs_open_handle TH} {RTHL : RecordTableLaws vfs_open_handle TH}.
Abbreviation server := (vfs_server T TB TM TH).
Implicit Types (sv : server) (e : coop_env) (c : vfs_coop_ctx).

(** The server after a reset of the namespace, with an initialised open-file
    table and some backends registered. *)
Definition booted (al : alloc_oracle) (mt : TM) (bs : backend_state TB) (handles : TH) : server :=
  VfsServer (vfs_namespace_reset al mt).1.1 bs (vfs_namespace_reset (T := T) al mt).1.2 handles
    (VfsReqCred 0 0) [] [].

Lemma booted_inv al mt bs handles :
  vfs_handle_init al = (REND_SUCCESS, handles) → server_inv (booted al mt bs handles).
Proof.
  intros Hi. split; cbn.
  - apply (reset_wf al mt).
  - unfold vfs_mount_reset. destruct (rt_init al 8) as [e t] eqn:Et.
    destruct (rt_init_ok al 8 e t ltac:(lia) Et) as [Hok Hv]. split; [done|..].
    + intros m [Hm _]. cbn in Hm. rewrite Hv in Hm. by apply not_elem_of_nil in Hm.
    + intros i j m m' Hm. cbn in Hm. by rewrite Hv in Hm.
  - apply (init_refs_exact al), Hi.
  - lia.
Qed.

Definition job_inv sv (j : vfs_coop_ctx * vfs_backend_req) : Prop :=
  0 ≤ c_handle (c_par j.1) ∧ job_ok j.1 ∧ req_ok sv j.1 j.2.

Definition sys_inv (st : server * list (vfs_coop_ctx * vfs_backend_req)) : Prop :=
  server_inv st.1 ∧ Forall (job_inv st.1) st.2.

Lemma parked_Forall sv d : disp_fresh sv d → Forall (job_inv sv) (parked d).
Proof. destruct d as [|c req|]; cbn [parked disp_fresh]; intros Hd; try by apply Forall_nil. by apply Forall_cons. Qed.

(** The open-file table never gets shorter, so the handles of parked jobs stay
    slots of it. *)
Definition slots sv : nat := length (rt_view (sv_handles sv)).

Lemma inv_slots n sv : server_inv_from n sv → server_inv_from (slots sv) sv.
Proof. by intros []. Qed.

Lemma inv_any n sv : server_inv_from n sv → server_inv sv.
Proof. intros []. split; (done || lia). Qed.

Lemma jobs_grow sv sv' jobs : server_inv_from (slots sv) sv' → Forall (job_inv sv) jobs → Forall (job_inv sv') jobs.
Proof.
  intros Hs Hall. apply (Forall_impl _ _ _ Hall). intros [c req] (Hh & Hj & Hq). split_and!; [done..|].
  intros h Hi. destruct (Hq h Hi) as [-> Hl]. split; [done|]. pose proof (si_count _ _ Hs). unfold slots in *. lia.
Qed.

Lemma sys_step_inv st st' : coop_sys_step st st' → sys_inv st → sys_inv st'.
Proof.
  intros Hst [Hs%inv_slots Hj]. destruct Hst as [e sv jobs port op km sv' d E|e sv jobs1 c req jobs2 r sv' d E];
    cbn [fst snd] in *.
  - destruct (handler_fresh _ e sv port op km Hs) as [Hs' Hd]. rewrite E in Hs', Hd.
    split; [by eapply inv_any|]. apply Forall_app; split; [by eapply jobs_grow|by apply parked_Forall].
  - apply Forall_app in Hj as [Hj1 [(Hh & Hok & Hq) Hj2]%Forall_cons].
    pose proof (good_answer _ e sv c req r Hs Hh Hok Hq) as Hg. rewrite E in Hg.
    destruct (good_fresh _ c (sv', d) Hh Hg) as [Hs' Hd]. split; [by eapply inv_any|].
    apply Forall_app; split; [by eapply jobs_grow|].
    apply Forall_app; split; [by apply parked_Forall|by eapply jobs_grow].
Qed.

Lemma job_run_sys_inv fuel e backend (r : server * coop_disp) :
  sys_inv (r.1, parked r.2) →
  sys_inv ((job_run fuel e backend r).1, parked (job_run fuel e backend r).2).
Proof.
  revert r. induction fuel as [|fuel IH]; intros [sv d] H; [done|].
  destruct d as [|c req|]; try done. cbn [job_run]. apply IH.
  pose proof (SysAnswer e sv [] c req [] (backend req) _ _ (surjective_pairing _)) as Hst.
  apply sys_step_inv in Hst; [|done]. by rewrite app_nil_r in Hst.
Qed.

(** A message and the answers of a backend to its job. *)
Lemma job_run_inv fuel e backend sv port op km :
  server_inv sv → server_inv (job_run fuel e backend (vfs_coop_handler e sv port op km)).1.
Proof.
  intros Hs. apply (job_run_sys_inv fuel e backend).
  apply (sys_step_inv (sv, [])); [apply (SysMessage e sv [] port op km), surjective_pairing|].
  by split; [|constructor].
Qed.

(** C3. The server stays well formed: from a reset on, whatever messages arrive,
    in whatever order the parked jobs are answered and whatever the backends
    answer (also to a write whose file has been closed meanwhile), the directory
    tree is a tree of sorted directories, no directory is mounted on twice, and
    every slot of the open-file table is free or holds a file with at least one
    reference.  A request to a backend about an open file names the handle
    number of its job, which is a slot of the table (the file behind that number
    may have been closed and another one opened since). *)
Theorem coop_server_invariant al mt bs handles sv jobs :
  vfs_handle_init al = (REND_SUCCESS, handles) →
  rtc coop_sys_step (booted al mt bs handles, []) (sv, jobs) →
  ns_wf (sv_ns sv) ∧ mounts_wf (sv_mounts sv) ∧ handles_wf (sv_handles sv)
  ∧ ∀ c req h, (c, req) ∈ jobs → rq_ino req = Some (InoHandle h) →
      h = c_handle (c_par c) ∧ (Z.to_nat h < length (rt_view (sv_handles sv)))%nat.
Proof.
  intros Hi Hr. assert (sys_inv (sv, jobs)) as [[Hn Hm Hh _] Hj].
  { assert (sys_inv (booted al mt bs handles, [])) as H0 by (split; [by apply booted_inv|by constructor]).
    revert Hr H0. generalize (booted al mt bs handles, @nil (vfs_coop_ctx * vfs_backend_req)).
    intros st Hr. induction Hr as [|st st1 st2 H1 _ IH]; [done|]. eauto using sys_step_inv. }
  split_and!; [done..|]. intros c req h Hin.
  rewrite Forall_forall in Hj. apply (Hj (c, req) Hin).
Qed.

(** C5. Every job ends: however the server's state changes between its
    answers and whatever the backends answer, a path request is still parked
    after at most five answers, a read or write of [n] bytes after fewer than
    the number of 4096-byte chunks in [n], and a directory listing into [n]
    bytes after fewer than [n].  The exception is an open with both O_CREAT and
    O_DIRECTORY. *)
Theorem coop_jobs_end e sv port op a sv' c req n :
  vfs_coop_handler e sv port op (Some a) = (sv', Parked c req) →
  0 ≤ km_param3 a < 2 ^ 63 → opens_dir c = false →
  job_lasts (T := T) (TB := TB) (TM := TM) (TH := TH) c req n →
  match kind c with
  | VFS_COOP_KIND_READ | VFS_COOP_KIND_WRITE =>
      Z.of_nat n < (c_count (c_par c) + 4095) `div` 4096
  | VFS_COOP_KIND_GETDENTS => Z.of_nat n < c_count (c_par c)
  | _ => (n ≤ 5)%nat
  end.
Proof.
  intros E Ha Hd Hl.
  destruct (handler_budget e sv port op a sv' c req Ha E) as [Hpr Hb].
  pose proof (lasts_budget c req n Hl Hd Hpr). unfold answers_bound in Hb. destruct (kind c); lia.
Qed.

(** ** Exclusive creation *)

Definition excl_open (p : coop_params) : Prop :=
  c_kind p = VFS_COOP_KIND_OPEN
  ∧ Z.land (c_flags p) (Z.lor VFS_O_CREAT VFS_O_EXCL) = Z.lor VFS_O_CREAT VFS_O_EXCL.

Definition open_step c : Prop :=
  match c_step c with
  | VFS_COOP_STEP_LOOKUP | VFS_COOP_STEP_CREATE | VFS_COOP_STEP_CREATE_EXISTING
  | VFS_COOP_STEP_POST_CREATE_LOOKUP | VFS_COOP_STEP_MKDIR_BE => True
  | _ => False
  end.

(** Finished with an error, or still opening. *)
Definition fails (p : coop_params) (r : server * coop_disp) : Prop :=
  match r.2 with
  | Finished n => n < 0
  | Parked c _ => c_par c = p ∧ open_step c
  | Overrun => True
  end.

Lemma fails_park e sv c op step p : c_par c = p → open_step (with_step c step) →
  fails p (vfs_coop_park_or_eio e sv c op step).
Proof. intros Hp Hs. unfold vfs_coop_park_or_eio. by destruct (vfs_coop_issue_nested e _). Qed.

Lemma fails_after_inode e sv c p : c_par c = p → excl_open p → fails p (vfs_coop_after_inode e sv c).
Proof.
  intros <- [Hk Hf]. unfold vfs_coop_after_inode. cbv zeta. rewrite Hk, Hf, Z.eqb_refl. done.
Qed.

Lemma fails_on_enoent e sv c p : c_par c = p → fails p (vfs_coop_open_on_enoent e sv c).
Proof.
  intros Hp. unfold vfs_coop_open_on_enoent. cbv zeta.
  repeat (case_match; zbool; try done); (apply fails_park; [by par_tac|done]).
Qed.

Lemma fails_rounds n e sv p : excl_open p → ∀ c, c_par c = p → fails p (lookup_rounds n e sv c).
Proof.
  intros Hx. induction n as [|n IH]; intros c Hp; cbn [lookup_rounds]; [done|].
  destruct (vfs_namespace_lookup_prepare _ _ _ _ _) as [[[prep ino] port] be_path]. cbv zeta.
  set (c1 := with_ctx_ino _ _). destruct (Z.ltb_spec prep 0) as [Hneg|].
  { case_match; [by apply fails_on_enoent|done]. }
  destruct (prep =? 0); [|apply fails_park; [by par_tac|done]].
  destruct (vfs_coop_try_follow_symlink e c1) as [f c2] eqn:Ef.
  apply try_follow_spec in Ef as (Hp2 & _). destruct (Z.ltb_spec f 0); [done|].
  assert (c_par c2 = p) as Hc2 by (rewrite Hp2; exact Hp).
  case_match; [by apply IH|by apply fails_after_inode].
Qed.

Lemma fails_resume e sv0 c n p : excl_open p → c_par c = p → open_step c → n ≤ 0 →
  fails p (vfs_coop_resume_path e sv0 c n).
Proof.
  intros Hx Hp Hst Hn. unfold vfs_coop_resume_path. set (sv := vfs_coop_apply_cred sv0 c). cbv zeta.
  unfold open_step in Hst. destruct (c_step c) eqn:Est; try done.
  - destruct (Z.eqb_spec n 0); cbn [negb].
    + destruct (vfs_coop_try_follow_symlink e c) as [f c2] eqn:Ef.
      apply try_follow_spec in Ef as (Hp2 & _). destruct (Z.ltb_spec f 0); [done|].
      case_match; [by apply fails_rounds; rewrite ?Hp2|by apply fails_after_inode; rewrite ?Hp2].
    + case_match; [by apply fails_on_enoent|]. cbn. lia.
  - destruct (Z.ltb_spec n 0); [done|]. destruct (if c_need_commit c then _ else _) as [sv1 ret].
    destruct (Z.ltb_spec ret 0); [done|]. apply fails_park; [by par_tac|done].
  - destruct (Z.eqb_spec n 0); cbn [negb]; [|cbn; lia].
    case_match; [done|]. by apply fails_after_inode.
  - destruct (Z.eqb_spec n 0); cbn [negb]; [|done]. by apply fails_after_inode.
  - destruct Hx as [Hk Hf]. rewrite decide_False by (rewrite Hp, Hk; done).
    destruct (Z.ltb_spec n 0); [done|]. destruct (if c_need_commit c then _ else _) as [sv1 ret].
    destruct (Z.ltb_spec ret 0); [done|]. rewrite decide_True by by rewrite Hp.
    by apply fails_rounds.
Qed.

(** The results a parked job can end with; the server's state changes
    between its answers, and backends answer path requests with 0 or an error. *)
Inductive job_result : vfs_coop_ctx → vfs_backend_req → Z → Prop :=
  | ResultNow e sv c req r sv' n : rp_result r ≤ 0 →
      job_answer e sv c req r = (sv', Finished n) → job_result c req n
  | ResultLater e sv c req r sv' c' req' n : rp_result r ≤ 0 →
      job_answer e sv c req r = (sv', Parked c' req') → job_result c' req' n → job_result c req n.

Lemma fails_answer e sv c req r p : excl_open p → c_par c = p → open_step c → rp_result r ≤ 0 →
  fails p (job_answer e sv c req r).
Proof.
  intros Hx Hp Hst Hr. unfold job_answer. pose proof (deliver_same sv c req r) as Hsame.
  destruct (deliver sv c req r) as [sv1 c1]. cbv zeta in Hsame. cbn [snd] in Hsame.
  destruct Hsame as (Hp1 & Hst1 & _). unfold vfs_coop_resume. pose proof Hx as [Hk _].
  rewrite Hp1, Hp, Hk. apply fails_resume; [done|by rewrite Hp1| |done].
  unfold open_step in *. by rewrite Hst1.
Qed.

(** C32. An open with O_CREAT and O_EXCL never succeeds: whether the file exists
    or was just created by this very request, whatever the backends answer, the
    request ends with an error.  (The file it creates stays: see
    [CoopDemo.excl_creates].) *)
Theorem open_excl_never_succeeds e sv c sv' d n :
  excl_open (c_par c) → vfs_coop_start_path e sv c = (sv', d) →
  (d = Finished n ∨ ∃ c' req, d = Parked c' req ∧ job_result c' req n) → n < 0.
Proof.
  intros Hx E Hd. assert (fails (c_par c) (sv', d)) as Hf.
  { rewrite <- E. unfold vfs_coop_start_path. cbv zeta. pose proof Hx as [-> _].
    by apply fails_rounds. }
  destruct Hd as [->|(c' & req & -> & Hr)]; [done|]. destruct Hf as [Hp Hst].
  revert Hp Hst. clear E. induction Hr as [e1 sv1 c1 req r sv2 n Hr E|e1 sv1 c1 req r sv2 c2 req2 n Hr E _ IH];
    intros Hp Hst; pose proof (fails_answer e1 sv1 c1 req r _ Hx Hp Hst Hr) as Hf; rewrite E in Hf.
  - done.
  - destruct Hf. by apply IH.
Qed.
End system.

(** ** A server with two backends *)

Module CoopDemo.
Import ListTable.
Abbreviation tserver :=
  (vfs_server (list vfs_ns_node) (list vfs_backend_entry) (list vfs_mount_rec)
     (list vfs_open_handle)).

Definition al : alloc_oracle := λ _, true.
Definition env : coop_env :=
  CoopEnv al true (Some (replicate 4096 0)) (λ _, (REND_SUCCESS, true)) (λ _, true)
    (λ _, Some (1000, 1000)) (λ _ _ _, true) (λ _ _ n, Some (replicate (Z.to_nat n) 7))
    (λ _ _, []) [].
Definition handles0 : list vfs_open_handle := (vfs_handle_init al).2.
Lemma handles0_init : vfs_handle_init al = (REND_SUCCESS, handles0).
Proof. vm_compute. reflexivity. Qed.
Definition bs : backend_state (list vfs_backend_entry) :=
  BackendState [] (Some (str "cpio_port")) (Some (str "ramfs_port")) 3 true.
Definition sv0 : tserver := booted al [] bs handles0.

Definition client : cstr := str "vfs_cli_7".
Definition args (p : string) (p1 p2 p3 : Z) : option kmsg_args :=
  Some (KmsgArgs (Some (str p)) None p1 p2 p3 None).

(** A backend that makes what it is asked to make and finds ordinary files. *)
Definition file_ino (p : cstr) (size : Z) : vfs_inode :=
  VfsInode p (Some (str "ramfs_port")) 2 4096 0x81a4 size 1 false false true.
Definition obliging (req : vfs_backend_req) : vfs_backend_reply :=
  BackendReply 0 (file_ino (default [] (rq_path req)) 0) zero_dirent [] [].

Definition open_msg (sv : tserver) (p : string) (flags : Z) : tserver * coop_disp :=
  job_run 8 env obliging (vfs_coop_handler env sv client KMSG_OP_VFS_OPEN (args p flags 0x1a4 0)).

(** An ordinary creation gives handle 1; a second open handle 2. *)
Example create_then_open :
  (open_msg sv0 "/a" (Z.lor VFS_O_CREAT VFS_O_RDWR)).2 = Finished 1
  ∧ (open_msg (open_msg sv0 "/a" (Z.lor VFS_O_CREAT VFS_O_RDWR)).1 "/a" VFS_O_RDONLY).2 = Finished 2.
Proof. vm_compute. done. Qed.

(** The exclusive creation of a new file creates it and answers EEXIST. *)
Example excl_creates :
  let '(sv, d) := open_msg sv0 "/a" (Z.lor (Z.lor VFS_O_CREAT VFS_O_EXCL) VFS_O_RDWR) in
  d = Finished (- LINUX_EEXIST)
  ∧ bool_decide (is_Some (vfs_ns_lookup_node (sv_ns sv) (Some (str "/a")) false)) = true
  ∧ sv_handles sv = handles0.
Proof. vm_compute. done. Qed.

Definition excl_ctx : vfs_coop_ctx :=
  CoopCtx (CoopParams VFS_COOP_KIND_OPEN 7 1000 1000 0 0 0
             (Z.lor (Z.lor VFS_O_CREAT VFS_O_EXCL) VFS_O_RDWR) 0) zero_io
    VFS_COOP_STEP_NONE (str "/a") [] [] 0x1a4 true false zero_rec.

Definition excl_parked : vfs_coop_ctx * vfs_backend_req :=
  match (vfs_coop_start_path env sv0 excl_ctx).2 with
  | Parked c req => (c, req)
  | _ => (excl_ctx, park_req excl_ctx VFS_BACKEND_OP_LOOKUP)
  end.

(** The backend fails the creation: the result is its error. *)
Lemma open_excl_never_succeeds_witness : - LINUX_ENOMEM < 0.
Proof.
  apply (open_excl_never_succeeds env sv0 excl_ctx (vfs_coop_start_path env sv0 excl_ctx).1
           (vfs_coop_start_path env sv0 excl_ctx).2).
  - vm_compute. done.
  - vm_compute. reflexivity.
  - right. exists excl_parked.1, excl_parked.2. split; [vm_compute; reflexivity|].
    set (r := BackendReply (- LINUX_ENOMEM) zero_rec zero_dirent [] []).
    apply (ResultNow env sv0 excl_parked.1 excl_parked.2 r
             (job_answer env sv0 excl_parked.1 excl_parked.2 r).1).
    + vm_compute. discriminate.
    + vm_compute. reflexivity.
Defined.

(** *** A run of the system *)

Definition msg (sv : tserver) (op : vfs_opcode) (km : option kmsg_args) : tserver * coop_disp :=
  vfs_coop_handler env sv client op km.
Definition create_msg : option kmsg_args := args "/a" (Z.lor VFS_O_CREAT VFS_O_RDWR) 0x1a4 0.

(** The creation is parked while a second client makes a directory. *)
Definition run1 := msg sv0 KMSG_OP_VFS_OPEN create_msg.
Definition run2 := msg run1.1 KMSG_OP_VFS_MKDIRAT (args "/d" 0x1ed 0 0).
Definition jobs2 := parked run1.2 ++ parked run2.2.

Definition reply0 : vfs_backend_reply := BackendReply 0 (file_ino (str "/a") 0) zero_dirent [] [].
Definition job_at (jobs : list (vfs_coop_ctx * vfs_backend_req)) (i : nat) : vfs_coop_ctx * vfs_backend_req :=
  default (excl_ctx, park_req excl_ctx VFS_BACKEND_OP_LOOKUP) (jobs !! i).
Definition run3 := job_answer env run2.1 (job_at jobs2 1).1 (job_at jobs2 1).2 reply0.
Definition run4 := job_answer env run3.1 (job_at jobs2 0).1 (job_at jobs2 0).2 reply0.

Lemma jobs2_eq : [job_at jobs2 0] ++ ((job_at jobs2 1).1, (job_at jobs2 1).2) :: [] = jobs2.
Proof. vm_compute. reflexivity. Qed.
Lemma jobs3_eq :
  [job_at jobs2 0] ++ parked run3.2 ++ [] = [] ++ ((job_at jobs2 0).1, (job_at jobs2 0).2) :: [].
Proof. vm_compute. reflexivity. Qed.
Lemma jobs4_eq : [] ++ parked run4.2 ++ [] = parked run4.2.
Proof. by rewrite app_nil_r. Qed.

Lemma run_steps : rtc coop_sys_step (sv0, []) (run4.1, parked run4.2).
Proof.
  pose proof (SysMessage env sv0 [] client KMSG_OP_VFS_OPEN create_msg run1.1 run1.2
    (surjective_pairing _)) as H1.
  pose proof (SysMessage env run1.1 (parked run1.2) client KMSG_OP_VFS_MKDIRAT (args "/d" 0x1ed 0 0)
    run2.1 run2.2 (surjective_pairing _)) as H2. fold jobs2 in H2.
  pose proof (SysAnswer env run2.1 [job_at jobs2 0] (job_at jobs2 1).1 (job_at jobs2 1).2 []
    reply0 run3.1 run3.2 (surjective_pairing _)) as H3. rewrite jobs2_eq, jobs3_eq in H3.
  pose proof (SysAnswer env run3.1 [] (job_at jobs2 0).1 (job_at jobs2 0).2 []
    reply0 run4.1 run4.2 (surjective_pairing _)) as H4. rewrite jobs4_eq in H4.
  eapply rtc_l; [exact H1|]. eapply rtc_l; [exact H2|]. eapply rtc_l; [exact H3|].
  eapply rtc_l; [exact H4|]. apply rtc_refl.
Qed.

Lemma coop_server_invariant_witness :
  ns_wf (sv_ns run4.1) ∧ mounts_wf (sv_mounts run4.1) ∧ handles_wf (sv_handles run4.1)
  ∧ ∀ c req h, (c, req) ∈ parked run4.2 → rq_ino req = Some (InoHandle h) →
      h = c_handle (c_par c) ∧ (Z.to_nat h < length (rt_view (sv_handles run4.1)))%nat.
Proof. apply (coop_server_invariant al [] bs handles0 _ _ handles0_init run_steps). Defined.

(** The open above is answered twice and stays parked: creation, lookup. *)
Lemma coop_jobs_end_witness : (1 ≤ 5)%nat.
Proof.
  refine (coop_jobs_end env sv0 client KMSG_OP_VFS_OPEN
    (KmsgArgs (Some (str "/a")) None (Z.lor VFS_O_CREAT VFS_O_RDWR) 0x1a4 0 None)
    run1.1 (job_at jobs2 0).1 (job_at jobs2 0).2 1 _ _ _ _).
  - vm_compute. reflexivity.
  - cbn. lia.
  - vm_compute. reflexivity.
  - eapply (LastsMore env run1.1 _ _ reply0 (job_answer env run1.1 (job_at jobs2 0).1 (job_at jobs2 0).2 reply0).1);
      [vm_compute; reflexivity|apply LastsNow].
Defined.

(** *** An open that makes a directory

    Under a mount nothing is committed to the tree, so a backend that accepts
    the directory and then does not find it keeps the request going for ever. *)

Definition mounted_sv : tserver :=
  set_mounts sv0 bs [MountRec (str "/mnt") (str "ramfs") (str "ramfs_port") 0 true].
Definition forgetful (req : vfs_backend_req) : vfs_backend_reply :=
  BackendReply (if decide (rq_op req = VFS_BACKEND_OP_LOOKUP) then - LINUX_ENOENT else 0)
    zero_rec zero_dirent [] [].
Definition opendir_run (n : nat) : tserver * coop_disp :=
  job_run n env forgetful
    (vfs_coop_handler env mounted_sv client KMSG_OP_VFS_OPEN
       (args "/mnt/d" (Z.lor VFS_O_CREAT VFS_O_DIRECTORY) 0x1ed 0)).

Definition still_parked (d : coop_disp) : bool := match d with Parked _ _ => true | _ => false end.

Example opendir_keeps_going : forallb (λ n, still_parked (opendir_run n).2) (seq 0 40) = true.
Proof. vm_compute. reflexivity. Qed.

(** *** A handle that is closed and reused while a read is parked

    The read was started on [/a]; its answer moves the offset of [/b]. *)

Definition two_files : tserver :=
  (open_msg (open_msg (open_msg sv0 "/a" (Z.lor VFS_O_CREAT VFS_O_RDWR)).1
     "/b" (Z.lor VFS_O_CREAT VFS_O_RDWR)).1 "/b" VFS_O_RDONLY).1.
Definition hnum (n : Z) : option kmsg_args := Some (KmsgArgs None None n 0 8 None).
Definition reading := msg two_files KMSG_OP_VFS_READ (hnum 1).
Definition closed := msg reading.1 KMSG_OP_VFS_CLOSE (hnum 1).
Definition reopened := open_msg closed.1 "/b" VFS_O_RDONLY.
Definition answered :=
  job_answer env reopened.1 (job_at (parked reading.2) 0).1 (job_at (parked reading.2) 0).2
    (BackendReply 8 zero_rec zero_dirent (replicate 8 65) []).

Example reused_handle :
  closed.2 = Finished 0 ∧ reopened.2 = Finished 1 ∧ answered.2 = Finished 8
  ∧ option_map (λ h, (ino_path (h_ino h), h_offset h)) (vfs_handle_get (sv_handles answered.1) 1)
    = Some (str "/b", 8).
Proof. vm_compute. done. Qed.
End CoopDemo.
