(* ===== verification/VfsRead.v ===== *)
(** * Reading a file through the VFS server

    A read is a sequence of requests of at most one page to the backend, each
    at the offset the previous one left.  With a backend that answers from the
    bytes of a file, the caller's buffer receives those bytes in order. *)

From Stdlib Require Import Ascii.
From stdpp Require Import base numbers strings gmap option list.
From S2P Require Import Prelude PageSlice SliceTable VfsPath VfsInode VfsHandle DirNames Cpio Mount Namespace NamespaceSpec NamespaceThm PortNames VfsOpen VfsCoop VfsCoopThm VfsCoopProps.

(** Consecutive writes to the memory of [pid] from [addr] on. *)
Inductive stores_at (pid : Z) : Z → list user_store → list Z → Prop :=
  | StoresNil addr : stores_at pid addr [] []
  | StoresCons addr b us bytes :
      stores_at pid (addr + Z.of_nat (length b)) us bytes →
      stores_at pid addr (UserStore pid (u64 addr) (UBytes b) :: us) (b ++ bytes).

(** The backend's answer to a read of the file [data]. *)
Definition serves_reads (data : list Z) (backend : vfs_backend_req → vfs_backend_reply) : Prop :=
  ∀ req, rq_op req = VFS_BACKEND_OP_READ →
    let bytes := take (Z.to_nat (rq_len req)) (drop (Z.to_nat (rq_offset req)) data) in
    rp_bytes (backend req) = bytes ∧ rp_result (backend req) = Z.of_nat (length bytes).

(** The caller exists, its memory is writable, memory is available and
    messages are sent at once. *)
Record calm (e : coop_env) (pid : Z) : Prop := {
  ca_task : ev_task e pid = true;
  ca_store : ∀ addr d, ev_store e pid addr d = true;
  ca_nest : (ev_nest e 0%nat).1 = REND_SUCCESS;
  ca_page : ∃ page, ev_page e = Some page ∧ length page = 4096%nat;
}.

Section read.
Context {T TB TM TH : Type} `{SCL : StrcmpSLaws} `{RT : RecordTable vfs_ns_node T}
        {RTL : RecordTableLaws vfs_ns_node T}
        `{RTB : RecordTable vfs_backend_entry TB}
        `{RTM : RecordTable vfs_mount_rec TM} {RTML : RecordTableLaws vfs_mount_rec TM}
        `{RTH : RecordTable vfs_open_handle TH} {RTHL : RecordTableLaws vfs_open_handle TH}.
Abbreviation server := (vfs_server T TB TM TH).
Implicit Types (sv : server) (c : vfs_coop_ctx).

(** The file at offset [off] after a transfer that started there. *)
Definition moved (h : Z) sv sv' (f : vfs_open_handle) (off : Z) (us : list user_store) : Prop :=
  server_inv sv'
  ∧ live (sv_handles sv') = <[h := with_offset f off]> (live (sv_handles sv))
  ∧ sv_stores sv' = sv_stores sv ++ us
  ∧ sv_ns sv' = sv_ns sv ∧ sv_mounts sv' = sv_mounts sv ∧ sv_effects sv' = sv_effects sv.

Context (e : coop_env) (backend : vfs_backend_req → vfs_backend_reply) (data : list Z).
Context (p : coop_params) (Hkind : c_kind p = VFS_COOP_KIND_READ).
Context (Hcalm : calm e (c_pid p)) (Hserve : serves_reads data backend).
Context (Hhandle : 0 ≤ c_handle p) (Hcount : 0 ≤ c_count p < 2 ^ 62).

Lemma issue_ok req : is_Some (rq_port req) → vfs_coop_issue_nested e req = REND_SUCCESS.
Proof.
  intros [port Hp]. unfold vfs_coop_issue_nested. rewrite Hp. cbn [issue_tries].
  pose proof (ca_nest _ _ Hcalm). by destruct (ev_nest e 0%nat) as [[] ?].
Qed.

(** A parked read: [f] is the file, [total] the bytes delivered so far. *)
Record read_parked sv c (req : vfs_backend_req) (f : vfs_open_handle) (total : Z) : Prop := {
  rd_inv : server_inv sv;
  rd_file : live (sv_handles sv) !! c_handle p = Some f;
  rd_port : is_Some (backend_port (h_ino f));
  rd_off : 0 ≤ h_offset f < 2 ^ 62;
  rd_par : c_par c = p;
  rd_total : c_total (c_io c) = total ∧ 0 ≤ total;
  rd_rem : c_remaining (c_io c) = c_count p - total ∧ 0 < c_count p - total;
  rd_len : c_chunk_len (c_io c) = chunk_of (c_count p - total);
  rd_chunk : length (c_chunk (c_io c)) = 4096%nat;
  rd_req : req = vfs_coop_issue_rw_nested c f;
}.

(** What the backend sends for the parked request. *)
Definition sent f (total : Z) : list Z :=
  take (Z.to_nat (chunk_of (c_count p - total))) (drop (Z.to_nat (h_offset f)) data).

Lemma read_req sv c req f total : read_parked sv c req f total →
  rq_op req = VFS_BACKEND_OP_READ ∧ rq_offset req = h_offset f
  ∧ rq_len req = chunk_of (c_count p - total) ∧ rq_port req = backend_port (h_ino f).
Proof.
  intros Hr. rewrite (rd_req _ _ _ _ _ Hr). unfold vfs_coop_issue_rw_nested.
  rewrite decide_True by by rewrite (rd_par _ _ _ _ _ Hr). cbn.
  by rewrite (rd_len _ _ _ _ _ Hr).
Qed.

(** The context after the answer has been delivered. *)
Lemma read_delivered sv c req f total : read_parked sv c req f total →
  ∃ c1, deliver sv c req (backend req) = (sv, c1) ∧ rp_result (backend req) = Z.of_nat (length (sent f total))
    ∧ c_par c1 = p ∧ c_total (c_io c1) = total ∧ c_remaining (c_io c1) = c_count p - total
    ∧ c_chunk_len (c_io c1) = chunk_of (c_count p - total)
    ∧ length (c_chunk (c_io c1)) = 4096%nat
    ∧ take (length (sent f total)) (c_chunk (c_io c1)) = sent f total
    ∧ (length (sent f total) ≤ 4096)%nat.
Proof.
  intros Hr. destruct (read_req _ _ _ _ _ Hr) as (Hop & Hoff & Hlen & _).
  destruct (Hserve req Hop) as [Hb Hres]. rewrite Hoff, Hlen in Hb, Hres. fold (sent f total) in Hb, Hres.
  destruct (rd_rem _ _ _ _ _ Hr) as [Hrem Hpos]. pose proof (chunk_of_le _ Hpos) as (? & ? & _).
  assert (length (sent f total) ≤ 4096)%nat as Hs by (unfold sent; rewrite length_take; lia).
  unfold deliver. cbv zeta. rewrite Hop, Hb. eexists. split; [done|]. cbn [c_par c_io with_io
    c_total c_remaining c_chunk_len c_chunk].
  pose proof (rd_chunk _ _ _ _ _ Hr). destruct (rd_total _ _ _ _ _ Hr).
  split_and!; [done|apply Hr|done|done|apply Hr| |by rewrite take_app_length|done].
  rewrite length_app, length_drop. lia.
Qed.

Lemma moved_refl sv f cr : server_inv sv → live (sv_handles sv) !! c_handle p = Some f →
  moved (c_handle p) sv (set_cred sv cr) f (h_offset f) [].
Proof.
  intros Hs Hl. split_and!; try done; [by apply inv_cred| |by rewrite app_nil_r].
  cbn. symmetry. apply insert_id. by destruct f.
Qed.

Lemma moved_one sv f cr off b addr : server_inv sv → live (sv_handles sv) !! c_handle p = Some f →
  moved (c_handle p) sv (set_handles (add_stores (set_cred sv cr) [UserStore (c_pid p) addr b])
    (rt_set (sv_handles sv) (c_handle p) (with_offset f off))) f off [UserStore (c_pid p) addr b].
Proof.
  intros Hs Hl. destruct (live_pos _ _ _ (si_handles _ _ Hs) Hl) as (_ & _ & _ & Hc).
  apply live_lookup in Hl as Hl'. destruct Hl' as (_ & _ & Hu).
  destruct (handle_write_spec _ _ f (with_offset f off) (si_handles _ _ Hs) Hl) as [Hw Hl'].
  { right. cbn. done. }
  split_and!; try done; [destruct Hs; split; (done || lia)|]. cbn. rewrite Hl'. cbn. by rewrite Hu.
Qed.

(** The next request of a read goes out from the same page. *)
Lemma read_next sv c f io : c_par c = p → is_Some (backend_port (h_ino f)) →
  let c1 := with_io c (CoopIo (c_total io) (c_remaining io) (chunk_of (c_remaining io)) (c_chunk io)
                         (c_dir_index io) (c_dent io)) in
  rw_next e sv (with_io c io) f = (sv, Parked c1 (vfs_coop_issue_rw_nested c1 f)).
Proof.
  intros Hp Hport. cbv zeta. unfold rw_next, load_chunk. cbn [c_io c_par with_io].
  rewrite decide_False by (cbn; rewrite Hp, Hkind; done).
  change (with_io (with_io c io) ?x) with (with_io c x). rewrite issue_ok; [done|].
  unfold vfs_coop_issue_rw_nested. by case_decide.
Qed.

(** One answer: the transfer ends, or goes on at the next offset. *)
Lemma read_answer sv c req f total : read_parked sv c req f total →
  let n := Z.of_nat (length (sent f total)) in
  let us := if n =? 0 then []
            else [UserStore (c_pid p) (u64 (c_user_buf p + total)) (UBytes (sent f total))] in
  ∃ sv' d, job_answer e sv c req (backend req) = (sv', d) ∧ moved (c_handle p) sv sv' f (h_offset f + n) us
    ∧ (n < chunk_of (c_count p - total) ∨ n = c_count p - total → d = Finished (total + n))
    ∧ (n = chunk_of (c_count p - total) → n < c_count p - total →
       ∃ c' req', d = Parked c' req' ∧ (h_offset f + n < 2 ^ 62 →
         read_parked sv' c' req' (with_offset f (h_offset f + n)) (total + n))).
Proof.
  intros Hr. destruct (read_delivered _ _ _ _ _ Hr) as
    (c1 & Hd & Hres & Hp1 & Ht1 & Hr1 & Hl1 & Hc1 & Hs1 & Hle).
  pose proof (rd_inv _ _ _ _ _ Hr) as Hs. pose proof (rd_file _ _ _ _ _ Hr) as Hf.
  destruct (rd_total _ _ _ _ _ Hr) as [_ Ht]. destruct (rd_rem _ _ _ _ _ Hr) as [_ Hpos].
  pose proof (rd_off _ _ _ _ _ Hr) as Hoff. pose proof (chunk_of_le _ Hpos) as (? & ? & ?).
  set (n := Z.of_nat (length (sent f total))). cbv zeta.
  unfold job_answer. rewrite Hd, Hres. unfold vfs_coop_resume. rewrite Hp1, Hkind.
  unfold vfs_coop_resume_rw. cbv zeta. rewrite Hp1, Ht1, Hr1, Hl1.
  set (sv1 := vfs_coop_apply_cred sv c1).
  rewrite (ca_task _ _ Hcalm). change (sv_handles sv1) with (sv_handles sv).
  rewrite handle_get_live, Hf by (apply Hs || done).
  fold n. rewrite (proj2 (Z.ltb_ge n 0)) by lia.
  assert (i64 total = total ∧ (n ≤ c_count p - total → i64 (u64 (total + n)) = total + n)) as [Hi Hi2].
  { split; [apply iw_small; lia|]. intros. rewrite uw_small by lia. apply iw_small; lia. }
  destruct (Z.eqb_spec n 0) as [E0|Hn0].
  { exists sv1, (Finished total). rewrite Hi, E0, !Z.add_0_r. split_and!; [done|by apply moved_refl|done|].
    intros. lia. }
  rewrite bool_decide_true by done. cbn [andb].
  rewrite (proj2 (Z.ltb_ge _ n)) by (rewrite Hc1; lia).
  rewrite decide_True by done. unfold n at 1 2. rewrite Nat2Z.id, Hs1.
  rewrite (ca_store _ _ Hcalm). cbn [negb]. fold n.
  assert (n ≤ chunk_of (c_count p - total)) as Hnc.
  { unfold n, sent. rewrite length_take. lia. }
  rewrite (proj2 (Z.leb_le n _)) by lia. rewrite (uw_small _ (h_offset f + n)) by lia.
  specialize (Hi2 ltac:(lia)).
  pose proof (moved_one sv f (sv_cred sv1) (h_offset f + n)
    (UBytes (sent f total)) (u64 (c_user_buf p + total)) Hs Hf) as Hm.
  change (set_cred sv (sv_cred sv1)) with sv1 in Hm.
  change (sv_handles (add_stores sv1 _)) with (sv_handles sv).
  set (sv2 := set_handles _ _) in *. rewrite Hi2.
  destruct (Z.eqb_spec (c_count p - total - n) 0), (Z.ltb_spec n (chunk_of (c_count p - total)));
    cbn [orb]; try (exists sv2, (Finished (total + n)); split_and!; [done|exact Hm|done|lia]).
  rewrite (read_next _ _ (with_offset f (h_offset f + n))) by (done || apply Hr).
  cbn [c_total c_remaining c_chunk c_dir_index c_dent]. eexists sv2, (Parked _ _).
  split_and!; [done|exact Hm|lia|]. intros _ _. do 2 eexists. split; [done|]. intros Ho.
  destruct Hm as (Hm1 & Hm2 & _). split; try done; cbn [c_io with_io c_total c_remaining c_chunk_len c_chunk]; try lia.
  - by rewrite Hm2, lookup_insert_eq.
  - apply Hr.
  - cbn; lia.
  - rewrite uw_small; lia.
  - f_equal. lia.
Qed.

Lemma moved_trans sv sv1 sv2 f off1 off2 us1 us2 :
  moved (c_handle p) sv sv1 f off1 us1 → moved (c_handle p) sv1 sv2 (with_offset f off1) off2 us2 →
  moved (c_handle p) sv sv2 f off2 (us1 ++ us2).
Proof.
  intros (_ & Hl1 & Hu1 & ? & ? & ?) (? & Hl2 & Hu2 & ? & ? & ?).
  split_and!; [done| | |congruence..].
  - rewrite Hl2, Hl1, insert_insert_eq. by destruct f.
  - by rewrite Hu2, Hu1, app_assoc.
Qed.

(** What is still to be read. *)
Definition wanted f (total : Z) : list Z :=
  take (Z.to_nat (c_count p - total)) (drop (Z.to_nat (h_offset f)) data).

Lemma wanted_sent f total n : 0 < c_count p - total → 0 ≤ h_offset f →
  n = Z.of_nat (length (sent f total)) →
  (n < chunk_of (c_count p - total) ∨ n = c_count p - total → wanted f total = sent f total)
  ∧ (n = chunk_of (c_count p - total) →
     wanted f total = sent f total ++ wanted (with_offset f (h_offset f + n)) (total + n)).
Proof.
  intros Hpos Ho ->. unfold sent, wanted. cbn [h_offset with_offset].
  pose proof (chunk_of_le _ Hpos) as (? & _ & _). rewrite length_take, length_drop. split.
  - intros [?|?]; [by rewrite !take_ge by (rewrite length_drop; lia)|do 2 f_equal; lia].
  - intros Hn. rewrite Hn. replace (c_count p - (total + _)) with
      (c_count p - total - chunk_of (c_count p - total)) by lia.
    set (k := chunk_of _) in *. replace (Z.to_nat (h_offset f + k)) with
      (Z.to_nat (h_offset f) + Z.to_nat k)%nat by lia.
    rewrite <- drop_drop, take_take_drop. f_equal. lia.
Qed.

(** Enough answers finish the read. *)
Lemma read_loop fuel sv c req f total : read_parked sv c req f total →
  h_offset f + (c_count p - total) < 2 ^ 62 →
  (Z.to_nat ((c_count p - total + 4095) `div` 4096) ≤ fuel)%nat →
  ∃ sv' us, job_run fuel e backend (sv, Parked c req)
      = (sv', Finished (total + Z.of_nat (length (wanted f total))))
    ∧ stores_at (c_pid p) (c_user_buf p + total) us (wanted f total)
    ∧ moved (c_handle p) sv sv' f (h_offset f + Z.of_nat (length (wanted f total))) us.
Proof.
  revert sv c req f total. induction fuel as [|fuel IH]; intros sv c req f total Hr Ho Hfuel.
  { destruct (rd_rem _ _ _ _ _ Hr). pose proof (Z.div_le_mono 4096 (c_count p - total + 4095) 4096).
    rewrite Z.div_same in * by lia. lia. }
  destruct (rd_rem _ _ _ _ _ Hr) as [_ Hpos]. pose proof (rd_off _ _ _ _ _ Hr) as Hoff.
  destruct (read_answer _ _ _ _ _ Hr) as (sv1 & d & Ha & Hm & Hend & Hmore).
  cbn [job_run]. rewrite Ha. set (n := Z.of_nat (length (sent f total))) in *.
  destruct (wanted_sent f total n Hpos ltac:(lia) eq_refl) as [Hw1 Hw2].
  pose proof (chunk_of_le _ Hpos) as (? & ? & ?).
  assert (n ≤ chunk_of (c_count p - total)) by (unfold n, sent; rewrite length_take; lia).
  destruct (decide (n < chunk_of (c_count p - total) ∨ n = c_count p - total)) as [Hc|Hc].
  - rewrite (Hend Hc), (Hw1 Hc). eexists sv1, _. split; [by destruct fuel|]. split; [|exact Hm].
    destruct (Z.eqb_spec n 0) as [E0|_].
    + destruct (sent f total); [apply StoresNil|done].
    + rewrite <- (app_nil_r (sent f total)) at 2. apply StoresCons, StoresNil.
  - destruct (Hmore ltac:(lia) ltac:(lia)) as (c1 & req1 & -> & Hr1).
    specialize (Hr1 ltac:(lia)). destruct (IH _ _ _ _ _ Hr1) as (sv2 & us & Hrun & Hst & Hm2).
    { cbn. lia. }
    { pose proof (rw_budget_lt (c_count p - total) n Hpos). 
      replace (c_count p - (total + n) + 4095) with (c_count p - total - n + 4095) by lia. lia. }
    rewrite Hw2 by lia. rewrite length_app, Nat2Z.inj_add. fold n.
    eexists sv2, _. split; [rewrite Hrun; do 2 f_equal; lia|]. split; [|].
    2: { eapply moved_trans; [exact Hm|]. cbn [h_offset with_offset] in Hm2. rewrite Z.add_assoc. exact Hm2. }
    destruct (Z.eqb_spec n 0); [lia|]. apply StoresCons. by rewrite <- Z.add_assoc.
Qed.

(** The first request of a read, or its end when nothing is asked for. *)
Lemma read_start sv c f : server_inv sv → c_par c = p →
  live (sv_handles sv) !! c_handle p = Some f → is_dir (h_ino f) = false →
  Z.land (open_flags f) VFS_O_ACCMODE ≠ VFS_O_WRONLY → is_Some (backend_port (h_ino f)) →
  0 ≤ h_offset f < 2 ^ 62 →
  ∃ sv1 d, vfs_coop_start_rw e sv c = (sv1, d) ∧ moved (c_handle p) sv sv1 f (h_offset f) []
    ∧ (c_count p = 0 → d = Finished 0)
    ∧ (0 < c_count p → ∃ c1 req, d = Parked c1 req ∧ read_parked sv1 c1 req f 0).
Proof.
  intros Hs Hp Hl Hdir Hacc Hport Ho. unfold vfs_coop_start_rw. rewrite Hp, (ca_task _ _ Hcalm).
  cbn [negb]. rewrite handle_get_live, Hl, Hdir by (apply Hs || done). cbv zeta.
  rewrite bool_decide_true by done. cbn [negb andb].
  rewrite (proj2 (Z.eqb_neq _ _)) by done. destruct Hport as [port Hport].
  rewrite Hport. destruct (ca_page _ _ Hcalm) as (page & -> & Hpage).
  assert (moved (c_handle p) sv (set_handles sv (rt_set (sv_handles sv) (c_handle p) f)) f (h_offset f) [])
    as Hm.
  { apply live_lookup in Hl as Hl'. destruct Hl' as (_ & _ & Hu).
    destruct (handle_write_spec _ _ f f (si_handles _ _ Hs) Hl) as [Hw Hl']; [by apply (live_pos _ _ _ (si_handles _ _ Hs) Hl)|].
    rewrite Hu in Hl'. split_and!; try done; [destruct Hs; split; (done || lia)| |by rewrite app_nil_r].
    cbn. rewrite Hl'. by destruct f. }
  set (sv1 := set_handles _ _) in *.
  destruct (Z.eqb_spec (c_count p) 0) as [E0|Hn0]; [by exists sv1, (Finished 0); split_and!; try lia|].
  unfold load_chunk. rewrite decide_False by (rewrite Hp, Hkind; done).
  rewrite issue_ok by (unfold vfs_coop_issue_rw_nested; case_decide; done).
  eexists sv1, (Parked _ _). split_and!; [done|done|lia|]. intros Hpos. do 2 eexists. split; [done|].
  destruct Hm as (? & Hm & _). split; try done; cbn; try lia; [|by rewrite Z.sub_0_r].
  cbn in Hm. rewrite Hm, lookup_insert_eq. by destruct f.
Qed.
End read.

(** C4.  A read delivers the file.  A client with a readable file open on a
    backend that serves the bytes [data] sends a read of [count] bytes; memory
    is available and the client's buffer is writable.  After at most one
    answer per page the request is finished: the result is the length of
    [take count (drop offset data)], exactly those bytes have been stored one
    after another from the start of the buffer, the file has moved on by that
    many bytes, and nothing else of the server has changed. *)
Theorem coop_read_delivers {T TB TM TH : Type} `{SCL : StrcmpSLaws}
    `{RT : RecordTable vfs_ns_node T} {RTL : RecordTableLaws vfs_ns_node T}
    `{RTB : RecordTable vfs_backend_entry TB}
    `{RTM : RecordTable vfs_mount_rec TM} {RTML : RecordTableLaws vfs_mount_rec TM}
    `{RTH : RecordTable vfs_open_handle TH} {RTHL : RecordTableLaws vfs_open_handle TH}
    (e : coop_env) backend data (sv : vfs_server T TB TM TH) (port : cstr) (a : kmsg_args) pid f fuel :
  server_inv sv → calm e pid → ev_ctx e = true → serves_reads data backend →
  request_pid port (km_rp a) = Some pid →
  vfs_handle_get (sv_handles sv) (u32 (km_param1 a)) = Some f →
  is_dir (h_ino f) = false → Z.land (open_flags f) VFS_O_ACCMODE ≠ VFS_O_WRONLY →
  is_Some (backend_port (h_ino f)) →
  0 ≤ h_offset f → 0 ≤ km_param3 a → h_offset f + km_param3 a < 2 ^ 62 →
  (Z.to_nat ((km_param3 a + 4095) `div` 4096) ≤ fuel)%nat →
  let got := take (Z.to_nat (km_param3 a)) (drop (Z.to_nat (h_offset f)) data) in
  ∃ sv' us,
    job_run fuel e backend (vfs_coop_handler e sv port KMSG_OP_VFS_READ (Some a))
      = (sv', Finished (Z.of_nat (length got)))
    ∧ stores_at pid (km_param2 a) us got
    ∧ moved (u32 (km_param1 a)) sv sv' f (h_offset f + Z.of_nat (length got)) us.
Proof.
  intros Hs Hcalm Hctx Hserve Hpid Hget Hdir Hacc Hport Ho Hc Hoc Hfuel. cbv zeta.
  cbn [vfs_coop_handler vfs_coop_is_path_opcode]. unfold start_io. rewrite Hpid, Hctx. cbn [negb].
  destruct (vfs_coop_fill_cred e pid) as [uid gid].
  set (c := io_ctx _ _ _ _ _ _ _). set (sv0 := set_cred _ _).
  assert (0 ≤ u32 (km_param1 a)) as Hh by (apply Z.mod_pos_bound; lia).
  rewrite handle_get_live in Hget by (apply Hs || done).
  assert (calm e (c_pid (c_par c))) as Hcalm' by done.
  assert (0 ≤ c_count (c_par c) < 2 ^ 62) as Hcnt by (cbn; lia).
  destruct (read_start e (c_par c) eq_refl Hcalm' Hh Hcnt sv0 c f (inv_cred _ _ _ Hs) eq_refl
    Hget Hdir Hacc Hport ltac:(lia)) as (sv1 & d & -> & Hm & Hz & Hpos).
  cbn [c_handle c_count c_par c io_ctx] in Hm, Hz, Hpos.
  destruct (decide (km_param3 a = 0)) as [E0|Hn0].
  { rewrite (Hz E0), E0. cbn [Z.to_nat take length Z.of_nat]. rewrite Z.add_0_r.
    exists sv1, []. split_and!; [by destruct fuel|apply StoresNil|exact Hm]. }
  destruct (Hpos ltac:(lia)) as (c1 & req & -> & Hr).
  destruct (read_loop e backend data (c_par c) eq_refl Hcalm' Hserve Hh Hcnt fuel sv1 c1 req f 0 Hr)
    as (sv2 & us & Hrun & Hst & Hm2); [cbn; lia|cbn; by rewrite Z.sub_0_r|].
  unfold wanted in *. cbn [c_count c_user_buf c_pid c_handle c_par c io_ctx] in *.
  rewrite Z.sub_0_r, ?Z.add_0_r, ?Z.add_0_l in *. exists sv2, us. split_and!; [done|done|].
  apply (moved_trans (c_par c) sv sv1 sv2 f (h_offset f) _ [] us Hm). by destruct f.
Qed.

(** ** A run *)

Module ReadDemo.
Import ListTable CoopDemo.

Definition text : list Z := replicate 5000 65 ++ [66; 67; 68].
Definition reading_backend (req : vfs_backend_req) : vfs_backend_reply :=
  let bytes := take (Z.to_nat (rq_len req)) (drop (Z.to_nat (rq_offset req)) text) in
  BackendReply (Z.of_nat (length bytes)) zero_rec zero_dirent bytes [].

(** A backend that makes what it is asked to make and refuses every write. *)
Definition maker (req : vfs_backend_req) : vfs_backend_reply :=
  if decide (rq_op req = VFS_BACKEND_OP_WRITE) then BackendReply (- LINUX_EIO) zero_rec zero_dirent [] []
  else obliging req.
Definition open_args : option kmsg_args := args "/a" (Z.lor VFS_O_CREAT VFS_O_RDWR) 0x1a4 0.
Definition sv1 : tserver :=
  (job_run 8 env maker (vfs_coop_handler env sv0 client KMSG_OP_VFS_OPEN open_args)).1.
Definition read_msg : kmsg_args := KmsgArgs None None 1 0x1000 9000 None.
Definition opened : vfs_open_handle := default zero_rec (vfs_handle_get (sv_handles sv1) 1).

Lemma sv1_inv : server_inv sv1.
Proof. apply job_run_inv, booted_inv, handles0_init. Qed.

(** Two requests fetch the 5003 bytes of the file. *)
Example read_twice :
  let r := job_run 3 env reading_backend
             (vfs_coop_handler env sv1 client KMSG_OP_VFS_READ (Some read_msg)) in
  r.2 = Finished 5003 ∧ length (sv_stores r.1) = 2%nat.
Proof. vm_compute. done. Qed.

Lemma calm_env : calm env 7.
Proof. split; [done..|]. by exists (replicate 4096 0). Qed.

Lemma reading_backend_ok : serves_reads text reading_backend.
Proof. done. Qed.

Lemma coop_read_delivers_witness :
  ∃ sv' us,
    job_run 3 env reading_backend (vfs_coop_handler env sv1 client KMSG_OP_VFS_READ (Some read_msg))
      = (sv', Finished (Z.of_nat (length (take 9000 text))))
    ∧ stores_at 7 0x1000 us (take 9000 text)
    ∧ moved 1 sv1 sv' opened (0 + Z.of_nat (length (take 9000 text))) us.
Proof.
  apply (coop_read_delivers env reading_backend text sv1 client read_msg 7 opened 3);
    [exact sv1_inv|exact calm_env|done|exact reading_backend_ok|vm_compute; reflexivity..
    |vm_compute; discriminate|vm_compute; by eexists|vm_compute; discriminate|vm_compute; discriminate
    |vm_compute; reflexivity|vm_compute; lia].
Defined.
End ReadDemo.
