(* ===== verification/Pipe.v ===== *)
(** * Pipes ([linux_layer/fs/linux_pipe.c])

    A pipe is a 4096-byte ring buffer with counts of its open ends.  The read
    and write calls are loops that move at most 256 bytes per iteration and
    call the scheduler when the pipe is empty or full; one iteration runs
    without interruption, so the calls of several tasks interleave iteration
    by iteration.  Copies to and from user memory are arguments: the bytes
    loaded, or a fault. *)

From stdpp Require Import base numbers list list_numbers option relations.
From S2P Require Import Prelude KHeap.

Definition LINUX_PIPE_BUF_SIZE : Z := 4096.
Definition LINUX_PIPE_MAX : Z := 64.
(** [u8 chunk[256]] *)
Definition CHUNK : Z := 256.

Record linux_pipe : Type := LinuxPipe {
  p_data : list Z;
  p_head : Z;
  p_len : Z;
  p_refcnt : Z;
  p_readers : Z;
  p_writers : Z;
}.

Abbreviation pipe_table := (list (ptr linux_pipe)).

(** ** The pipe table *)

(** [for (i = 0; i < LINUX_PIPE_MAX; i++) if (linux_pipes[i] == NULL)] *)
Fixpoint first_null (pipes : pipe_table) (i : Z) : option Z :=
  match pipes with
  | [] => None
  | None :: _ => Some i
  | Some _ :: pipes' => first_null pipes' (i + 1)
  end.

Definition new_pipe : linux_pipe :=
  LinuxPipe (replicate (Z.to_nat LINUX_PIPE_BUF_SIZE) 0) 0 0 2 1 1.

(** [alloc]: the allocation succeeds. *)
Definition linux_pipe_alloc_slot (alloc : bool) (pipes : pipe_table) : pipe_table * Z :=
  match first_null pipes 0 with
  | Some i => if alloc then (<[Z.to_nat i := Some new_pipe]> pipes, i)
              else (pipes, LINUX_PIPE_MAX)
  | None => (pipes, LINUX_PIPE_MAX)
  end.

Definition linux_pipe_from_id (pipes : pipe_table) (id : Z) : ptr linux_pipe :=
  if LINUX_PIPE_MAX <=? id then None
  else match pipes !! Z.to_nat id with Some p => p | None => None end.

Definition linux_pipe_free_slot (pipes : pipe_table) (id : Z) : pipe_table :=
  match linux_pipe_from_id pipes id with
  | None => pipes
  | Some _ => <[Z.to_nat id := None]> pipes
  end.

Definition with_counts (p : linux_pipe) (refcnt readers writers : Z) : linux_pipe :=
  LinuxPipe (p_data p) (p_head p) (p_len p) refcnt readers writers.

Definition linux_pipe_release (pipes : pipe_table) (id : Z) : pipe_table :=
  match linux_pipe_from_id pipes id with
  | None => pipes
  | Some p =>
      if p_refcnt p =? 0 then pipes
      else
        let p' := with_counts p (u32 (p_refcnt p - 1)) (p_readers p) (p_writers p) in
        let pipes' := <[Z.to_nat id := Some p']> pipes in
        if 0 <? p_refcnt p' then pipes' else linux_pipe_free_slot pipes' id
  end.

Definition linux_pipe_fork_retain (pipes : pipe_table) (id : Z) (read_end : bool) : pipe_table :=
  match linux_pipe_from_id pipes id with
  | None => pipes
  | Some p =>
      let p' :=
        if read_end
        then with_counts p (u32 (p_refcnt p + 1)) (u32 (p_readers p + 1)) (p_writers p)
        else with_counts p (u32 (p_refcnt p + 1)) (p_readers p) (u32 (p_writers p + 1)) in
      <[Z.to_nat id := Some p']> pipes
  end.

Definition linux_pipe_fd_closed (pipes : pipe_table) (id : Z) (read_end : bool) : pipe_table :=
  match linux_pipe_from_id pipes id with
  | None => pipes
  | Some p =>
      let p' :=
        if read_end
        then with_counts p (p_refcnt p)
               (if 0 <? p_readers p then p_readers p - 1 else p_readers p) (p_writers p)
        else with_counts p (p_refcnt p) (p_readers p)
               (if 0 <? p_writers p then p_writers p - 1 else p_writers p) in
      linux_pipe_release (<[Z.to_nat id := Some p']> pipes) id
  end.

(** ** One iteration of the read and write loops *)

(** [memcpy] of [n] bytes from position [off] of the array [d].  The copy may run
    past the array; [past] is the memory behind it: the byte at each position,
    counted from the start of the array. *)
Definition arr_load (past : Z → Z) (d : list Z) (off n : Z) : list Z :=
  (λ k, if k <? Z.of_nat (length d) then d !!! Z.to_nat k else past k) <$> seqZ off n.

(** A copy into the array; [None] is an access outside. *)
Definition arr_store (d : list Z) (off : Z) (bytes : list Z) : option (list Z) :=
  if (0 <=? off) && (off + Z.of_nat (length bytes) <=? Z.of_nat (length d))
  then Some (splice (Z.to_nat off) bytes d) else None.

(** How an iteration ends: with the next one, with a call of the scheduler,
    with [break], or with a [return]. *)
Inductive loop_exit : Type :=
  | Next (p : linux_pipe) (total : Z) (bytes : list Z)
  | Yield
  | Break
  | Return (r : Z).

(** The size of the chunk: at most 256 bytes, and at most [room]. *)
Definition chunk_len (count total room : Z) : Z :=
  let l := count - total in
  let l := if CHUNK <? l then CHUNK else l in
  let l := if room <? l then room else l in
  u32 l.

Definition with_ring (p : linux_pipe) (data : list Z) (head len : Z) : linux_pipe :=
  LinuxPipe data head len (p_refcnt p) (p_readers p) (p_writers p).

(** [past]: the memory behind the array; [store_ok]: the copy to user memory
    succeeds. *)
Definition pipe_read_iter (past : Z → Z) (p : linux_pipe) (count total : Z) (store_ok : bool) : loop_exit :=
  if p_len p =? 0 then if p_writers p =? 0 then Break else Yield
  else
    let n := chunk_len count total (p_len p) in
    let bytes := arr_load past (p_data p) (p_head p) n in
    if store_ok then
      Next (with_ring p (p_data p) (u32 (p_head p + n) `mod` LINUX_PIPE_BUF_SIZE) (u32 (p_len p - n)))
           (total + n) bytes
    else Return (if 0 <? total then total else - LINUX_EFAULT).

(** [load n]: the [n] bytes loaded from user memory, or a fault. *)
Definition pipe_write_iter (p : linux_pipe) (count total : Z) (load : Z → option (list Z))
  : option loop_exit :=
  if LINUX_PIPE_BUF_SIZE <=? p_len p then Some (if p_readers p =? 0 then Break else Yield)
  else
    let space := LINUX_PIPE_BUF_SIZE - p_len p in
    let n := chunk_len count total space in
    match load n with
    | None => Some (Return (if 0 <? total then total else - LINUX_EFAULT))
    | Some chunk =>
        let tail := u32 (p_head p + p_len p) `mod` LINUX_PIPE_BUF_SIZE in
        match (if tail + n <=? LINUX_PIPE_BUF_SIZE then arr_store (p_data p) tail chunk
               else
                 let first := LINUX_PIPE_BUF_SIZE - tail in
                 arr_store (p_data p) tail (take (Z.to_nat first) chunk)
                   ≫= λ d, arr_store d 0 (drop (Z.to_nat first) chunk)) with
        | None => None
        | Some data =>
            Some (Next (with_ring p data (p_head p) (u32 (p_len p + n))) (total + n) chunk)
        end
    end.

(** ** The calls *)

(** How a call ends. *)
Inductive call_result (A : Type) : Type :=
  | Done (a : A)
  | Fault          (* an access outside the buffer *)
  | Running.       (* still looping *)
Arguments Done {A} _.
Arguments Fault {A}.
Arguments Running {A}.

(** The read loop; [env] is what the other tasks do to the pipe while the
    caller is descheduled, [past] the memory behind the array in each state of
    the pipe, and [out] the bytes delivered so far. *)
Fixpoint pipe_read_loop (fuel : nat) (env : linux_pipe → linux_pipe) (past : linux_pipe → Z → Z) (store_ok : Z → bool)
    (p : linux_pipe) (count total : Z) (out : list Z)
  : call_result (linux_pipe * Z * list Z) :=
  match fuel with
  | O => Running
  | S fuel' =>
      if total <? count then
        match pipe_read_iter (past p) p count total (store_ok total) with
        | Next p' total' bytes => pipe_read_loop fuel' env past store_ok p' count total' (out ++ bytes)
        | Yield => pipe_read_loop fuel' env past store_ok (env p) count total out
        | Break => Done (p, total, out)
        | Return r => Done (p, r, out)
        end
      else Done (p, total, out)
  end.

(** [valid]: the task has an address space. *)
Definition linux_pipe_read (fuel : nat) (env : linux_pipe → linux_pipe) (past : linux_pipe → Z → Z) (store_ok : Z → bool)
    (valid : bool) (p : ptr linux_pipe) (count : Z)
  : call_result (ptr linux_pipe * Z * list Z) :=
  match p with
  | None => Done (None, - LINUX_EBADF, [])
  | Some p =>
      if negb valid || (p_readers p =? 0) then Done (Some p, - LINUX_EBADF, [])
      else if count =? 0 then Done (Some p, 0, [])
      else
        match pipe_read_loop fuel env past store_ok p count 0 [] with
        | Done (p', r, out) => Done (Some p', r, out)
        | Fault => Fault
        | Running => Running
        end
  end.

(** The write loop; [load total n] is the copy from [user_buf + total]. *)
Fixpoint pipe_write_loop (fuel : nat) (env : linux_pipe → linux_pipe)
    (load : Z → Z → option (list Z)) (p : linux_pipe) (count total : Z)
  : call_result (linux_pipe * (Z + Z)) :=
  match fuel with
  | O => Running
  | S fuel' =>
      if total <? count then
        match pipe_write_iter p count total (load total) with
        | None => Fault
        | Some (Next p' total' _) => pipe_write_loop fuel' env load p' count total'
        | Some Yield => pipe_write_loop fuel' env load (env p) count total
        | Some Break => Done (p, inr total)
        | Some (Return r) => Done (p, inl r)
        end
      else Done (p, inr total)
  end.

Definition linux_pipe_write (fuel : nat) (env : linux_pipe → linux_pipe)
    (load : Z → Z → option (list Z)) (valid : bool) (p : ptr linux_pipe) (count : Z)
  : call_result (ptr linux_pipe * Z) :=
  match p with
  | None => Done (None, - LINUX_EBADF)
  | Some p =>
      if negb valid || (p_writers p =? 0) then Done (Some p, - LINUX_EBADF)
      else if count =? 0 then Done (Some p, 0)
      else
        match pipe_write_loop fuel env load p count 0 with
        | Done (p', inl r) => Done (Some p', r)
        | Done (p', inr total) =>
            Done (Some p', if (total =? 0) && (p_readers p' =? 0) then - LINUX_EPIPE else total)
        | Fault => Fault
        | Running => Running
        end
  end.

(** ** The ring buffer is a queue *)

Record pipe_wf (p : linux_pipe) : Prop := {
  pw_data : Z.of_nat (length (p_data p)) = LINUX_PIPE_BUF_SIZE;
  pw_head : 0 ≤ p_head p < LINUX_PIPE_BUF_SIZE;
  pw_len : 0 ≤ p_len p ≤ LINUX_PIPE_BUF_SIZE;
}.

(** The position of the [k]-th byte in flight, and the bytes in flight. *)
Definition ring_pos (p : linux_pipe) (k : Z) : nat :=
  Z.to_nat ((p_head p + k) `mod` LINUX_PIPE_BUF_SIZE).
Definition contents (p : linux_pipe) : list Z :=
  (λ k, p_data p !!! ring_pos p k) <$> seqZ 0 (p_len p).

Lemma contents_length p : length (contents p) = Z.to_nat (p_len p).
Proof. unfold contents. by rewrite length_fmap, length_seqZ. Qed.

Lemma contents_lookup p (k : nat) :
  Z.of_nat k < p_len p → contents p !! k = Some (p_data p !!! ring_pos p (Z.of_nat k)).
Proof.
  intros Hk. unfold contents. rewrite list_lookup_fmap, lookup_seqZ_lt by lia. done.
Qed.

Lemma ring_pos_lt p k : pipe_wf p → (ring_pos p k < length (p_data p))%nat.
Proof.
  intros Hwf. unfold ring_pos. pose proof (pw_data p Hwf). unfold LINUX_PIPE_BUF_SIZE in *.
  pose proof (Z.mod_pos_bound (p_head p + k) 4096). lia.
Qed.

Lemma mod_buf_small k : 0 ≤ k < LINUX_PIPE_BUF_SIZE → k `mod` LINUX_PIPE_BUF_SIZE = k.
Proof. apply Z.mod_small. Qed.
Lemma mod_buf_big k :
  LINUX_PIPE_BUF_SIZE ≤ k < 2 * LINUX_PIPE_BUF_SIZE →
  k `mod` LINUX_PIPE_BUF_SIZE = k - LINUX_PIPE_BUF_SIZE.
Proof.
  intros Hk. unfold LINUX_PIPE_BUF_SIZE in *. symmetry. apply Z.mod_unique_pos with 1; lia.
Qed.
Lemma mod_buf k :
  0 ≤ k < 2 * LINUX_PIPE_BUF_SIZE →
  k `mod` LINUX_PIPE_BUF_SIZE
  = if k <? LINUX_PIPE_BUF_SIZE then k else k - LINUX_PIPE_BUF_SIZE.
Proof.
  intros Hk. destruct (Z.ltb_spec k LINUX_PIPE_BUF_SIZE); [apply mod_buf_small|apply mod_buf_big]; lia.
Qed.

Lemma chunk_len_spec count total room :
  total < count → 0 < room ≤ LINUX_PIPE_BUF_SIZE →
  chunk_len count total room = Z.min (Z.min (count - total) CHUNK) room
  ∧ 0 < chunk_len count total room ≤ room ∧ chunk_len count total room ≤ CHUNK.
Proof.
  intros Ht Hr. unfold chunk_len, CHUNK, LINUX_PIPE_BUF_SIZE in *. cbv zeta.
  destruct (Z.ltb_spec 256 (count - total)).
  - destruct (Z.ltb_spec room 256); rewrite uw_small by lia; lia.
  - destruct (Z.ltb_spec room (count - total)); rewrite uw_small by lia; lia.
Qed.

Lemma arr_load_length past d off n : length (arr_load past d off n) = Z.to_nat n.
Proof. unfold arr_load. by rewrite length_fmap, length_seqZ. Qed.

Lemma arr_load_lookup past d off n (k : nat) : Z.of_nat k < n →
  arr_load past d off n !! k
  = Some (if off + Z.of_nat k <? Z.of_nat (length d) then d !!! Z.to_nat (off + Z.of_nat k) else past (off + Z.of_nat k)).
Proof. intros Hk. unfold arr_load. rewrite list_lookup_fmap, lookup_seqZ_lt by lia. done. Qed.

Lemma arr_store_ok d off bytes :
  0 ≤ off → off + Z.of_nat (length bytes) ≤ Z.of_nat (length d) →
  arr_store d off bytes = Some (splice (Z.to_nat off) bytes d).
Proof. intros. unfold arr_store. by rewrite !(proj2 (Z.leb_le _ _)) by lia. Qed.

(** One read iteration takes the oldest bytes off the queue.  What it delivers
    are these bytes as far as they lie before the end of the array; from there
    on it is the memory behind the array. *)
Lemma read_iter_spec past p count total :
  pipe_wf p → total < count → 0 < p_len p →
  let n := chunk_len count total (p_len p) in
  ∃ p' bytes, pipe_read_iter past p count total true = Next p' (total + n) bytes
    ∧ pipe_wf p' ∧ contents p' = drop (Z.to_nat n) (contents p)
    ∧ p_len p' = p_len p - n
    ∧ (p_refcnt p', p_readers p', p_writers p') = (p_refcnt p, p_readers p, p_writers p)
    ∧ p_head p' = (p_head p + n) `mod` LINUX_PIPE_BUF_SIZE
    ∧ length bytes = Z.to_nat n
    ∧ ∀ k : nat, Z.of_nat k < n → bytes !! k =
        if decide (p_head p + Z.of_nat k < LINUX_PIPE_BUF_SIZE) then contents p !! k
        else Some (past (p_head p + Z.of_nat k)).
Proof.
  intros Hwf Ht Hl n. destruct Hwf as [Hd Hh Hlen].
  destruct (chunk_len_spec count total (p_len p) Ht ltac:(lia)) as (_ & Hn & Hn'). fold n in Hn, Hn'.
  unfold pipe_read_iter. rewrite (proj2 (Z.eqb_neq (p_len p) 0)) by lia. cbv zeta. fold n.
  assert (LINUX_PIPE_BUF_SIZE = 4096) as HB by done.
  rewrite (uw_small 32 (p_head p + n)), (uw_small 32 (p_len p - n)) by lia.
  eexists _, _. split; [done|]. split_and!; cbn [with_ring p_len p_head p_refcnt p_readers p_writers]; try done.
  - split; cbn; [done|apply Z.mod_pos_bound; lia|lia].
  - apply list_eq. intros k. rewrite lookup_drop.
    destruct (decide (Z.of_nat k < p_len p - n)) as [Hk|Hk].
    + rewrite !contents_lookup by (cbn; lia). unfold ring_pos. cbn. do 3 f_equal.
      rewrite Zplus_mod_idemp_l. f_equal. lia.
    + rewrite !lookup_ge_None_2; [done|rewrite contents_length; lia|rewrite contents_length; cbn; lia].
  - apply arr_load_length.
  - intros k Hk. rewrite arr_load_lookup by done. rewrite Hd. case_decide as Hin.
    + rewrite (proj2 (Z.ltb_lt _ _)) by done. rewrite contents_lookup by lia. unfold ring_pos.
      by rewrite mod_buf_small by lia.
    + by rewrite (proj2 (Z.ltb_ge _ _)) by lia.
Qed.

(** A chunk that does not cross the end of the array is right. *)
Lemma read_iter_in past p count total :
  pipe_wf p → total < count → 0 < p_len p →
  let n := chunk_len count total (p_len p) in
  p_head p + n ≤ LINUX_PIPE_BUF_SIZE →
  ∃ p', pipe_read_iter past p count total true = Next p' (total + n) (take (Z.to_nat n) (contents p))
    ∧ pipe_wf p' ∧ contents p' = drop (Z.to_nat n) (contents p)
    ∧ p_len p' = p_len p - n
    ∧ (p_refcnt p', p_readers p', p_writers p') = (p_refcnt p, p_readers p, p_writers p)
    ∧ p_head p' = (p_head p + n) `mod` LINUX_PIPE_BUF_SIZE.
Proof.
  intros Hwf Ht Hl n Hin. destruct (read_iter_spec past p count total Hwf Ht Hl) as (p' & bytes & E & H1 & H2 & H3 & H4 & H5 & Hlen & Hb).
  fold n in E, H1, H2, H3, H4, H5, Hlen, Hb. exists p'. split_and!; try done. rewrite E. f_equal.
  pose proof (pw_len p Hwf). destruct (chunk_len_spec count total (p_len p) Ht ltac:(lia)) as (_ & Hn & _). fold n in Hn.
  apply list_eq. intros k. destruct (decide (k < Z.to_nat n)%nat).
  - rewrite Hb, decide_True, lookup_take_lt by lia. done.
  - rewrite !lookup_ge_None_2; [done|rewrite length_take; lia|lia].
Qed.

(** The two copies of the write loop fill the ring from [tail] on. *)
Lemma ring_store_spec d tail chunk :
  Z.of_nat (length d) = LINUX_PIPE_BUF_SIZE → 0 ≤ tail < LINUX_PIPE_BUF_SIZE →
  Z.of_nat (length chunk) ≤ LINUX_PIPE_BUF_SIZE →
  let n := Z.of_nat (length chunk) in
  ∃ d', (if tail + n <=? LINUX_PIPE_BUF_SIZE then arr_store d tail chunk
         else
           let first := LINUX_PIPE_BUF_SIZE - tail in
           arr_store d tail (take (Z.to_nat first) chunk)
             ≫= λ d, arr_store d 0 (drop (Z.to_nat first) chunk)) = Some d'
    ∧ length d' = length d
    ∧ ∀ i : nat, (i < length d)%nat → d' !! i =
        if decide (tail ≤ Z.of_nat i < tail + n) then chunk !! (i - Z.to_nat tail)%nat
        else if decide (Z.of_nat i < tail + n - LINUX_PIPE_BUF_SIZE)
        then chunk !! (i + Z.to_nat (LINUX_PIPE_BUF_SIZE - tail))%nat
        else d !! i.
Proof.
  intros Hd Ht Hc n. destruct (Z.leb_spec (tail + n) LINUX_PIPE_BUF_SIZE) as [Hle|Hgt].
  - rewrite arr_store_ok by lia. eexists. split; [done|]. split; [apply splice_length; lia|].
    intros i Hi. rewrite splice_lookup by lia. unfold n.
    repeat case_decide; try lia; done.
  - cbv zeta. set (first := LINUX_PIPE_BUF_SIZE - tail).
    assert (length (take (Z.to_nat first) chunk) = Z.to_nat first) as Hl1.
    { rewrite length_take. lia. }
    rewrite arr_store_ok by lia. cbn [mbind option_bind].
    assert (length (splice (Z.to_nat tail) (take (Z.to_nat first) chunk) d) = length d) as Hls
      by (apply splice_length; lia).
    rewrite arr_store_ok by (rewrite ?length_drop; lia). eexists. split; [done|].
    split; [rewrite splice_length; rewrite ?length_drop; lia|]. intros i Hi.
    change (Z.to_nat 0) with 0%nat. rewrite splice_lookup by (rewrite length_drop; lia).
    rewrite length_drop. unfold n in *. case_decide as E1.
    + rewrite lookup_drop. repeat case_decide; try lia. f_equal. lia.
    + rewrite splice_lookup by lia. rewrite Hl1. case_decide as E2.
      * rewrite lookup_take_lt by lia. repeat case_decide; try lia. done.
      * repeat case_decide; try lia. done.
Qed.

(** One write iteration appends the chunk to the queue. *)
Lemma write_iter_spec p count total load chunk :
  pipe_wf p → total < count → p_len p < LINUX_PIPE_BUF_SIZE →
  let n := chunk_len count total (LINUX_PIPE_BUF_SIZE - p_len p) in
  load n = Some chunk → Z.of_nat (length chunk) = n →
  ∃ p', pipe_write_iter p count total load = Some (Next p' (total + n) chunk)
    ∧ pipe_wf p' ∧ contents p' = contents p ++ chunk
    ∧ (p_refcnt p', p_readers p', p_writers p') = (p_refcnt p, p_readers p, p_writers p).
Proof.
  intros Hwf Ht Hfull n Hload Hcl. pose proof Hwf as [Hd Hh Hlen].
  destruct (chunk_len_spec count total (LINUX_PIPE_BUF_SIZE - p_len p) Ht ltac:(lia)) as (_ & Hn & _).
  fold n in Hn. unfold pipe_write_iter.
  destruct (Z.leb_spec LINUX_PIPE_BUF_SIZE (p_len p)); [lia|]. cbv zeta. fold n. rewrite Hload.
  assert (LINUX_PIPE_BUF_SIZE = 4096) as HB by done.
  rewrite (uw_small 32 (p_head p + p_len p)), (uw_small 32 (p_len p + n)) by lia.
  set (tail := (p_head p + p_len p) `mod` LINUX_PIPE_BUF_SIZE).
  assert (0 ≤ tail < LINUX_PIPE_BUF_SIZE) as Htail by (apply Z.mod_pos_bound; lia).
  destruct (ring_store_spec (p_data p) tail chunk Hd Htail ltac:(lia)) as (d' & E & Hl' & Hlook).
  rewrite Hcl in E. cbv zeta in E. rewrite E. eexists. split; [done|]. split; [|split; [|done]].
  { split; cbn; lia. }
  apply list_eq. intros k.
  assert (length (contents p) = Z.to_nat (p_len p)) as Hcp by apply contents_length.
  destruct (decide (Z.of_nat k < p_len p + n)) as [Hk|Hk].
  2:{ rewrite !lookup_ge_None_2; [done|rewrite length_app; lia|rewrite contents_length; cbn; lia]. }
  rewrite contents_lookup by (cbn; lia). unfold ring_pos. cbn [with_ring p_data p_head].
  unfold tail in *. rewrite mod_buf in * by lia. clear tail.
  set (pos := if p_head p + Z.of_nat k <? LINUX_PIPE_BUF_SIZE then _ else _).
  assert (0 ≤ pos < LINUX_PIPE_BUF_SIZE) as Hpos.
  { unfold pos. destruct (Z.ltb_spec (p_head p + Z.of_nat k) LINUX_PIPE_BUF_SIZE); lia. }
  rewrite <- list_lookup_lookup_total_lt by lia. rewrite Hlook by lia.
  rewrite lookup_app. rewrite Z2Nat.id by lia. subst pos.
  destruct (decide (Z.of_nat k < p_len p)).
  - rewrite contents_lookup by lia. unfold ring_pos. rewrite mod_buf by lia.
    destruct (Z.ltb_spec (p_head p + p_len p) LINUX_PIPE_BUF_SIZE),
      (Z.ltb_spec (p_head p + Z.of_nat k) LINUX_PIPE_BUF_SIZE); repeat case_decide; try lia;
      apply list_lookup_lookup_total_lt; lia.
  - rewrite (lookup_ge_None_2 (contents p)) by lia. rewrite Hcp.
    destruct (Z.ltb_spec (p_head p + p_len p) LINUX_PIPE_BUF_SIZE),
      (Z.ltb_spec (p_head p + Z.of_nat k) LINUX_PIPE_BUF_SIZE); repeat case_decide; try lia;
      f_equal; lia.
Qed.

(** ** Readers and writers interleaved *)

(** A copy from user memory that succeeds delivers the bytes asked for. *)
Definition load_ok (load : Z → option (list Z)) : Prop :=
  ∀ n l, load n = Some l → Z.of_nat (length l) = n.

(** The pipe with the bytes written and the chunks delivered so far; the
    iterations of all read and write calls, and the opening and closing of ends,
    in any order. *)
Inductive pipe_step : linux_pipe * list Z * list (list Z) → linux_pipe * list Z * list (list Z) → Prop :=
  | StepWrite p w d count total load p' total' bytes :
      total < count → load_ok load →
      pipe_write_iter p count total load = Some (Next p' total' bytes) →
      pipe_step (p, w, d) (p', w ++ bytes, d)
  | StepRead p w d count total past p' total' bytes :
      total < count →
      pipe_read_iter past p count total true = Next p' total' bytes →
      pipe_step (p, w, d) (p', w, d ++ [bytes])
  | StepEnds p w d refcnt readers writers :
      pipe_step (p, w, d) (with_counts p refcnt readers writers, w, d).

(** A chunk delivered when [start] bytes had been delivered before: its bytes are
    those written there, up to the end of the ring. *)
Definition chunk_right (w : list Z) (start : nat) (chunk : list Z) : Prop :=
  ∀ k : nat, (k < length chunk)%nat → Z.of_nat start `mod` LINUX_PIPE_BUF_SIZE + Z.of_nat k < LINUX_PIPE_BUF_SIZE →
    chunk !! k = w !! (start + k)%nat.

Definition chunks_right (w : list Z) (d : list (list Z)) : Prop :=
  ∀ pre chunk post, d = pre ++ chunk :: post → chunk_right w (length (concat pre)) chunk.

(** No chunk crosses the end of the ring. *)
Definition no_wrap (d : list (list Z)) : Prop :=
  ∀ pre chunk post, d = pre ++ chunk :: post →
    Z.of_nat (length (concat pre)) `mod` LINUX_PIPE_BUF_SIZE + Z.of_nat (length chunk) ≤ LINUX_PIPE_BUF_SIZE.

Record pipe_inv (p : linux_pipe) (w : list Z) (d : list (list Z)) : Prop := {
  fi_wf : pipe_wf p;
  fi_head : p_head p = Z.of_nat (length (concat d)) `mod` LINUX_PIPE_BUF_SIZE;
  fi_len : (length (concat d) ≤ length w)%nat;
  fi_contents : contents p = drop (length (concat d)) w;
  fi_chunks : chunks_right w d;
}.

Lemma new_pipe_wf : pipe_wf new_pipe.
Proof. split; cbn [new_pipe p_data p_head p_len]; rewrite ?length_replicate; unfold LINUX_PIPE_BUF_SIZE; lia. Qed.

Lemma write_iter_next p count total load p' total' bytes : pipe_wf p → total < count → load_ok load →
  pipe_write_iter p count total load = Some (Next p' total' bytes) →
  pipe_wf p' ∧ p_head p' = p_head p ∧ contents p' = contents p ++ bytes.
Proof.
  intros Hwf Ht Hl E. assert (p_len p < LINUX_PIPE_BUF_SIZE) as Hfull.
  { destruct (decide (p_len p < LINUX_PIPE_BUF_SIZE)) as [|Hge]; [done|].
    unfold pipe_write_iter in E. rewrite (proj2 (Z.leb_le _ _)) in E by lia. by destruct (p_readers p =? 0). }
  pose proof E as E'. unfold pipe_write_iter in E. rewrite (proj2 (Z.leb_gt _ _)) in E by lia. cbv zeta in E.
  destruct (load (chunk_len count total (LINUX_PIPE_BUF_SIZE - p_len p))) as [chunk|] eqn:El; [|done].
  destruct (write_iter_spec p count total load chunk Hwf Ht Hfull El (Hl _ _ El)) as (p1 & E1 & Hwf1 & Hc & _).
  rewrite E1 in E'. injection E' as <- _ <-. split_and!; [done| |done].
  match goal with H : match ?x with _ => _ end = _ |- _ => destruct x; [|done] end.
  by injection E as <-.
Qed.

Lemma chunks_right_app w w' d : (length (concat d) ≤ length w)%nat → chunks_right w d → chunks_right (w ++ w') d.
Proof.
  intros Hl Hr pre chunk post Hd k Hk Hin. rewrite lookup_app_l; [by eapply Hr|].
  rewrite Hd, concat_app, length_app in Hl. cbn [concat] in Hl. rewrite length_app in Hl. lia.
Qed.

Lemma chunks_right_snoc w d c : chunks_right w d → chunk_right w (length (concat d)) c → chunks_right w (d ++ [c]).
Proof.
  intros Hr Hc pre chunk post E. destruct post as [|x post _] using rev_ind.
  - apply app_inj_tail in E as [<- <-]. done.
  - rewrite app_comm_cons, app_assoc in E. apply app_inj_tail in E as [E _]. by eapply Hr.
Qed.

Lemma read_step_inv p w d count total past p' total' bytes : pipe_inv p w d → total < count →
  pipe_read_iter past p count total true = Next p' total' bytes → pipe_inv p' w (d ++ [bytes]).
Proof.
  intros [Hwf Hh Hl Hc Hr] Ht E. pose proof (pw_len p Hwf) as Hlen. destruct (decide (p_len p = 0)) as [E0|E0].
  { unfold pipe_read_iter in E. rewrite E0 in E. cbn in E. by destruct (p_writers p =? 0). }
  destruct (read_iter_spec past p count total Hwf Ht ltac:(lia)) as (p1 & b1 & E1 & Hwf1 & Hc1 & _ & _ & Hh1 & Hb1 & Hk1).
  destruct (chunk_len_spec count total (p_len p) Ht ltac:(lia)) as (_ & Hn & _).
  set (n := chunk_len count total (p_len p)) in *. rewrite E1 in E. injection E as <- _ <-.
  assert (length (concat (d ++ [b1])) = (length (concat d) + Z.to_nat n)%nat) as Hld.
  { rewrite concat_app, length_app. cbn. rewrite app_nil_r. by rewrite Hb1. }
  assert (Z.to_nat (p_len p) = (length w - length (concat d))%nat) as Hpl.
  { rewrite <- contents_length, Hc. by rewrite length_drop. }
  split; [done| | | |].
  - rewrite Hh1, Hh, Hld, Zplus_mod_idemp_l. f_equal. lia.
  - lia.
  - rewrite Hc1, Hc, Hld, drop_drop. done.
  - apply chunks_right_snoc; [done|]. intros k Hk Hin. rewrite Hk1 by lia. rewrite decide_True by lia.
    by rewrite Hc, lookup_drop.
Qed.

Lemma pipe_step_inv p w d p' w' d' : pipe_step (p, w, d) (p', w', d') → pipe_inv p w d → pipe_inv p' w' d'.
Proof.
  intros Hs Hi. inversion Hs; subst.
  - destruct Hi as [Hwf Hh Hl Hc Hr]. edestruct write_iter_next as (Hwf' & Hh' & Hc'); [exact Hwf|done|done|done|].
    split; [done|congruence|rewrite length_app; lia| |by apply chunks_right_app].
    rewrite Hc', Hc. by rewrite drop_app_le by lia.
  - by eapply read_step_inv.
  - destruct Hi as [[] Hh Hl Hc Hr]. split; [by split|done|done|done|done].
Qed.

Lemma pipe_reach_inv p w d : rtc pipe_step (new_pipe, [], []) (p, w, d) → pipe_inv p w d.
Proof.
  intros Hs. remember (new_pipe, [], []) as s0. remember (p, w, d) as s1.
  assert (let '(p, w, d) := s0 in pipe_inv p w d) as H0.
  { subst s0. split; [apply new_pipe_wf|done|done|done|]. intros [|] ? ? [=]. }
  clear Heqs0. revert p w d Heqs1. induction Hs as [|[[p0 w0] d0] [[p1 w1] d1] s2 Hst _ IH]; intros p w d ->; [done|].
  apply IH; [by eapply pipe_step_inv|done].
Qed.

(** Chunks that are right and do not cross the end of the ring are what was
    written. *)
Lemma no_wrap_written w d : (length (concat d) ≤ length w)%nat → chunks_right w d → no_wrap d →
  concat d = take (length (concat d)) w.
Proof.
  induction d as [|c d IH] using rev_ind; intros Hl Hr Hn; [done|].
  assert (concat (d ++ [c]) = concat d ++ c) as Hcat by (rewrite concat_app; cbn; by rewrite app_nil_r).
  rewrite Hcat, length_app in *. rewrite IH at 1; [|lia| |].
  - apply list_eq. intros k. destruct (decide (k < length (concat d))%nat).
    + rewrite lookup_app_l, !lookup_take_lt by (rewrite ?length_take; lia). done.
    + rewrite lookup_app_r by (rewrite length_take; lia). rewrite length_take, Nat.min_l by lia.
      destruct (decide (k < length (concat d) + length c)%nat).
      * rewrite (Hr d c [] eq_refl) by (pose proof (Hn d c [] eq_refl); lia). rewrite lookup_take_lt by lia. f_equal. lia.
      * rewrite !lookup_ge_None_2; [done|rewrite length_take; lia|lia].
  - intros pre chunk post ->. apply (Hr pre chunk (post ++ [c])). by rewrite <- app_assoc.
  - intros pre chunk post ->. apply (Hn pre chunk (post ++ [c])). by rewrite <- app_assoc.
Qed.

(** C24. Pipes are first-in first-out.  Whatever the interleaving of readers and
    writers, every byte written is taken out exactly once and in order: the
    bytes in the buffer are those written and not yet taken out, and never more
    than it can hold.  A chunk that a read takes out holds the bytes written, up
    to the end of the ring (the read copies on past the end, so that the
    remaining bytes of a chunk that crosses it are those of the memory behind
    the ring); so as long as no chunk crosses the end of the ring, the bytes
    written are the bytes delivered followed by the bytes in the buffer. *)
Theorem pipe_fifo p written chunks :
  rtc pipe_step (new_pipe, [], []) (p, written, chunks) →
  (length (concat chunks) ≤ length written)%nat ∧ contents p = drop (length (concat chunks)) written
  ∧ Z.of_nat (length (contents p)) ≤ LINUX_PIPE_BUF_SIZE
  ∧ chunks_right written chunks
  ∧ (no_wrap chunks → written = concat chunks ++ contents p).
Proof.
  intros Hs. destruct (pipe_reach_inv _ _ _ Hs) as [Hwf Hh Hl Hc Hr]. split_and!; [done|done| |done|].
  - rewrite contents_length. pose proof (pw_len p Hwf). lia.
  - intros Hn. rewrite Hc. rewrite (no_wrap_written written chunks Hl Hr Hn) at 1. by rewrite take_drop.
Qed.

(** The read loop leaves the buffer when a chunk crosses its end: the byte [k] of
    an iteration is the [k]-th byte of the queue or, from the end of the array
    on, the memory behind it. *)
Theorem pipe_read_wrap_out_of_bounds past p count total (k : nat) :
  pipe_wf p → total < count → 0 < p_len p → Z.of_nat k < Z.min (Z.min (count - total) CHUNK) (p_len p) →
  ∃ p' total' bytes, pipe_read_iter past p count total true = Next p' total' bytes
    ∧ bytes !! k = if decide (p_head p + Z.of_nat k < LINUX_PIPE_BUF_SIZE) then contents p !! k
                   else Some (past (p_head p + Z.of_nat k)).
Proof.
  intros Hwf Ht Hl Hk. pose proof (pw_len p Hwf) as Hlen.
  destruct (chunk_len_spec count total (p_len p) Ht ltac:(lia)) as [Hn _]. rewrite <- Hn in Hk.
  destruct (read_iter_spec past p count total Hwf Ht Hl) as (p' & bytes & E & _ & _ & _ & _ & _ & _ & Hb).
  eexists p', _, bytes. eauto.
Qed.

(** ** Reading to the end of file *)

Lemma read_loop_eof fuel env past p count total out :
  pipe_wf p → p_writers p = 0 → p_head p + p_len p ≤ LINUX_PIPE_BUF_SIZE →
  0 ≤ total ≤ count → (Z.to_nat (p_len p) + 2 ≤ fuel)%nat →
  ∃ p', pipe_read_loop fuel env past (λ _, true) p count total out
        = Done (p', total + Z.min (count - total) (p_len p),
                out ++ take (Z.to_nat (count - total)) (contents p))
    ∧ contents p' = drop (Z.to_nat (count - total)) (contents p).
Proof.
  revert p total out. induction fuel as [|fuel IH]; intros p total out Hwf Hw Hh Ht Hf; [lia|].
  cbn [pipe_read_loop]. pose proof (pw_len p Hwf) as Hlen. pose proof (pw_head p Hwf) as Hhd.
  destruct (Z.ltb_spec total count) as [Hlt|Hge].
  2:{ assert (total = count) as -> by lia. exists p. rewrite Z.sub_diag, Z.min_l by lia.
      change (Z.to_nat 0) with 0%nat. by rewrite Z.add_0_r, take_0, app_nil_r, drop_0. }
  destruct (decide (p_len p = 0)) as [E0|E0].
  { unfold pipe_read_iter. rewrite E0, Hw. cbn. exists p. rewrite Z.min_r, Z.add_0_r by lia.
    assert (contents p = []) as -> by (apply length_zero_iff_nil; rewrite contents_length; lia).
    by rewrite take_nil, app_nil_r, drop_nil. }
  destruct (chunk_len_spec count total (p_len p) Hlt ltac:(lia)) as (Hn & Hn1 & Hn2).
  pose proof (read_iter_in (past p) p count total Hwf Hlt ltac:(lia)) as Hin.
  set (n := chunk_len count total (p_len p)) in *.
  destruct (Hin ltac:(lia)) as (p1 & -> & Hwf1 & Hc1 & Hl1 & [= _ _ Hw1] & Hh1).
  assert (p_head p1 + p_len p1 ≤ LINUX_PIPE_BUF_SIZE) as Hh1'.
  { rewrite Hh1, Hl1. destruct (decide (p_head p + n = LINUX_PIPE_BUF_SIZE)) as [E|].
    - rewrite E, Z_mod_same_full. lia.
    - rewrite mod_buf_small by lia. lia. }
  destruct (IH p1 (total + n) (out ++ take (Z.to_nat n) (contents p)) Hwf1) as (p' & -> & Hc');
    [congruence|done|lia|lia|].
  exists p'. rewrite Hl1. split.
  - f_equal. f_equal; [f_equal; lia|]. rewrite <- app_assoc, Hc1. f_equal.
    replace (Z.to_nat (count - total)) with (Z.to_nat n + Z.to_nat (count - (total + n)))%nat by lia.
    by rewrite take_take_drop.
  - rewrite Hc', Hc1, drop_drop. f_equal. lia.
Qed.

(** End of file: when every write end is closed and the bytes in flight do
    not wrap, a read returns, without being descheduled, the oldest bytes, as
    many as it asked for or as there are, and 0 when the pipe is empty; the
    fuel of one iteration per byte is enough. *)
Theorem pipe_read_eof fuel env past p count :
  pipe_wf p → p_writers p = 0 → p_readers p ≠ 0 → 0 < count →
  p_head p + p_len p ≤ LINUX_PIPE_BUF_SIZE → (Z.to_nat (p_len p) + 2 ≤ fuel)%nat →
  ∃ p', linux_pipe_read fuel env past (λ _, true) true (Some p) count
        = Done (Some p', Z.min count (p_len p), take (Z.to_nat count) (contents p))
    ∧ contents p' = drop (Z.to_nat count) (contents p).
Proof.
  intros Hwf Hw Hr Hc Hh Hf. unfold linux_pipe_read. cbn [negb orb].
  rewrite (proj2 (Z.eqb_neq (p_readers p) 0)), (proj2 (Z.eqb_neq count 0)) by lia.
  destruct (read_loop_eof fuel env past p count 0 [] Hwf Hw Hh ltac:(lia) Hf) as (p' & -> & Hd).
  rewrite Z.sub_0_r, Z.add_0_l in *. by exists p'.
Qed.

Lemma read_loop_blocks fuel past p count total out :
  pipe_wf p → p_writers p ≠ 0 → p_head p + p_len p ≤ LINUX_PIPE_BUF_SIZE →
  0 ≤ total → total + p_len p < count →
  pipe_read_loop fuel id past (λ _, true) p count total out = Running.
Proof.
  revert p total out. induction fuel as [|fuel IH]; intros p total out Hwf Hw Hh Ht Hc; [done|].
  cbn [pipe_read_loop]. pose proof (pw_len p Hwf) as Hlen. pose proof (pw_head p Hwf) as Hhd.
  destruct (Z.ltb_spec total count) as [Hlt|]; [|lia].
  destruct (decide (p_len p = 0)) as [E0|E0].
  { unfold pipe_read_iter. rewrite (proj2 (Z.eqb_eq _ _) E0), (proj2 (Z.eqb_neq _ _) Hw).
    by apply IH. }
  destruct (chunk_len_spec count total (p_len p) Hlt ltac:(lia)) as (Hn & Hn1 & Hn2).
  pose proof (read_iter_in (past p) p count total Hwf Hlt ltac:(lia)) as Hin.
  set (n := chunk_len count total (p_len p)) in *.
  destruct (Hin ltac:(lia)) as (p1 & -> & Hwf1 & Hc1 & Hl1 & [= _ _ Hw1] & Hh1).
  apply IH; [done|congruence| |lia|lia].
  rewrite Hh1, Hl1. destruct (decide (p_head p + n = LINUX_PIPE_BUF_SIZE)) as [E|].
  - rewrite E, Z_mod_same_full. lia.
  - rewrite mod_buf_small by lia. lia.
Qed.

(** A read asks for all its bytes: while a write end is open, a read of
    more bytes than the pipe holds does not return the bytes that are there;
    it keeps looping for as long as nobody writes. *)
Theorem pipe_short_read_blocks fuel past p count :
  pipe_wf p → p_writers p ≠ 0 → p_readers p ≠ 0 →
  p_head p + p_len p ≤ LINUX_PIPE_BUF_SIZE → p_len p < count →
  linux_pipe_read fuel id past (λ _, true) true (Some p) count = Running.
Proof.
  intros Hwf Hw Hr Hh Hc. pose proof (pw_len p Hwf). unfold linux_pipe_read. cbn [negb orb].
  rewrite (proj2 (Z.eqb_neq (p_readers p) 0)), (proj2 (Z.eqb_neq count 0)) by lia.
  by rewrite read_loop_blocks by (done || lia).
Qed.

(** ** Counting the open ends *)

(** Descriptors hold ends [(id, read_end)]; creating a pipe opens both ends,
    fork and dup open one more of an open end, close closes one. *)
Inductive ends_step : pipe_table * list (Z * bool) → pipe_table * list (Z * bool) → Prop :=
  | EndsCreate alloc pipes held pipes' id :
      Z.of_nat (length held) + 2 < 2 ^ 32 →
      linux_pipe_alloc_slot alloc pipes = (pipes', id) →
      ends_step (pipes, held)
        (pipes', if id <? LINUX_PIPE_MAX then (id, true) :: (id, false) :: held else held)
  | EndsRetain pipes held id r :
      Z.of_nat (length held) + 1 < 2 ^ 32 → (id, r) ∈ held →
      ends_step (pipes, held) (linux_pipe_fork_retain pipes id r, (id, r) :: held)
  | EndsClose pipes held held' id r :
      held ≡ₚ (id, r) :: held' →
      ends_step (pipes, held) (linux_pipe_fd_closed pipes id r, held').

Definition ends (held : list (Z * bool)) (id : Z) (r : bool) : Z :=
  Z.of_nat (count_occ (λ x y, decide (x = y)) held (id, r)).

(** A slot is in use exactly while an end of it is held, and counts them. *)
Definition slot_counts (o : ptr linux_pipe) (rd wr : Z) : Prop :=
  match o with
  | Some p => p_readers p = rd ∧ p_writers p = wr ∧ p_refcnt p = rd + wr ∧ 0 < rd + wr
  | None => rd = 0 ∧ wr = 0
  end.

Record ends_inv (s : pipe_table * list (Z * bool)) : Prop := {
  ei_len : Z.of_nat (length s.1) = LINUX_PIPE_MAX;
  ei_held : Z.of_nat (length s.2) < 2 ^ 32;
  ei_ids id r : (id, r) ∈ s.2 → 0 ≤ id < LINUX_PIPE_MAX;
  ei_counts id : 0 ≤ id < LINUX_PIPE_MAX →
    slot_counts (linux_pipe_from_id s.1 id) (ends s.2 id true) (ends s.2 id false);
}.

Lemma from_id_insert pipes id id' o :
  Z.of_nat (length pipes) = LINUX_PIPE_MAX → 0 ≤ id < LINUX_PIPE_MAX → 0 ≤ id' < LINUX_PIPE_MAX →
  linux_pipe_from_id (<[Z.to_nat id := o]> pipes) id'
  = if decide (id' = id) then o else linux_pipe_from_id pipes id'.
Proof.
  intros Hl Hid Hid'. unfold linux_pipe_from_id.
  destruct (Z.leb_spec LINUX_PIPE_MAX id'); [lia|]. case_decide as E.
  - subst. by rewrite list_lookup_insert_eq by lia.
  - by rewrite list_lookup_insert_ne by lia.
Qed.

Lemma first_null_Some pipes i k :
  first_null pipes i = Some k → ∃ j : nat, k = i + Z.of_nat j ∧ pipes !! j = Some None.
Proof.
  revert i. induction pipes as [|[p|] pipes IH]; intros i; cbn; [done| |].
  - intros (j & -> & Hj)%IH. exists (S j). split; [lia|done].
  - intros [= <-]. exists 0%nat. split; [lia|done].
Qed.

Lemma ends_cons held id r id' r' :
  ends ((id, r) :: held) id' r'
  = if decide ((id, r) = (id', r')) then ends held id' r' + 1 else ends held id' r'.
Proof. unfold ends. cbn. case_decide; lia. Qed.

Lemma ends_perm held held' id r : held ≡ₚ held' → ends held id r = ends held' id r.
Proof.
  intros Hp. unfold ends. f_equal.
  exact (proj1 (Permutation_count_occ (λ x y, decide (x = y)) _ _) Hp (id, r)).
Qed.

Lemma ends_bound held id : 0 ≤ ends held id true + ends held id false ≤ Z.of_nat (length held)
  ∧ 0 ≤ ends held id true ∧ 0 ≤ ends held id false.
Proof.
  induction held as [|[i r] held IH]; [by cbn|]. rewrite !ends_cons. cbn [length].
  repeat case_decide; simplify_eq; lia.
Qed.

Lemma ends_pos held id r : (id, r) ∈ held → 0 < ends held id r.
Proof.
  intros Hin. apply list_elem_of_In, (count_occ_In (λ x y, decide (x = y))) in Hin.
  unfold ends. lia.
Qed.

Lemma retain_counts pipes id r rd wr :
  Z.of_nat (length pipes) = LINUX_PIPE_MAX → 0 ≤ id < LINUX_PIPE_MAX →
  rd + wr + 1 < 2 ^ 32 → 0 ≤ rd → 0 ≤ wr → 0 < rd + wr →
  slot_counts (linux_pipe_from_id pipes id) rd wr →
  ∃ p', linux_pipe_fork_retain pipes id r = <[Z.to_nat id := Some p']> pipes
    ∧ slot_counts (Some p') (if r then rd + 1 else rd) (if r then wr else wr + 1).
Proof.
  intros Hl Hid Hb ? ? Hpos. unfold linux_pipe_fork_retain.
  destruct (linux_pipe_from_id pipes id) as [p|]; [|cbn; lia].
  intros (Hr & Hw & Href & _). eexists. split; [done|].
  destruct r; cbn; rewrite !uw_small by lia; split_and!; lia.
Qed.

Lemma closed_counts pipes id (r : bool) rd wr :
  Z.of_nat (length pipes) = LINUX_PIPE_MAX → 0 ≤ id < LINUX_PIPE_MAX →
  rd + wr < 2 ^ 32 → 0 ≤ rd → 0 ≤ wr → (if r then 0 < rd else 0 < wr) →
  slot_counts (linux_pipe_from_id pipes id) rd wr →
  ∃ o, linux_pipe_fd_closed pipes id r = <[Z.to_nat id := o]> pipes
    ∧ slot_counts o (if r then rd - 1 else rd) (if r then wr else wr - 1).
Proof.
  intros Hl Hid Hb ? ? Hpos. unfold linux_pipe_fd_closed.
  destruct (linux_pipe_from_id pipes id) as [p|] eqn:Ef; [|cbn; destruct r; lia].
  intros (Hr & Hw & Href & Hsum).
  set (p1 := if r then _ else _). assert (p_refcnt p1 = rd + wr
    ∧ p_readers p1 = (if r then rd - 1 else rd) ∧ p_writers p1 = (if r then wr else wr - 1)) as (R1 & R2 & R3).
  { unfold p1. destruct r; cbn; rewrite Hr, Hw; destruct (Z.ltb_spec 0 rd), (Z.ltb_spec 0 wr); lia. }
  clearbody p1. unfold linux_pipe_release. rewrite from_id_insert, decide_True by done.
  rewrite R1, (proj2 (Z.eqb_neq (rd + wr) 0)) by lia. cbv zeta. cbn [with_counts p_refcnt].
  rewrite uw_small by lia. rewrite list_insert_insert_eq.
  destruct (Z.ltb_spec 0 (rd + wr - 1)).
  - eexists. split; [done|]. cbn. rewrite R2, R3. destruct r; lia.
  - exists None. split; [|destruct r; cbn; lia]. unfold linux_pipe_free_slot.
    rewrite from_id_insert, decide_True by done. by rewrite list_insert_insert_eq.
Qed.

Lemma ends_step_inv s s' : ends_step s s' → ends_inv s → ends_inv s'.
Proof.
  intros Hs [Hl Hh Hids Hc].
  destruct Hs as [alloc pipes held pipes' id Hb E|pipes held id r Hb Hin|pipes held held' id r Hp];
    cbn [fst snd] in *.
  - unfold linux_pipe_alloc_slot in E. destruct (first_null pipes 0) as [k|] eqn:Ef.
    2:{ injection E as <- <-. rewrite Z.ltb_irrefl. by split. }
    destruct alloc; injection E as <- <-; [|rewrite Z.ltb_irrefl; by split].
    destruct (first_null_Some _ _ _ Ef) as (j & -> & Hj). rewrite Z.add_0_l in *.
    pose proof (lookup_lt_Some _ _ _ Hj) as Hjl.
    rewrite (proj2 (Z.ltb_lt _ _)) by lia. split; cbn [fst snd].
    + by rewrite length_insert.
    + cbn [length]. lia.
    + intros id r [[= -> _]|[[= -> _]|Hin]%elem_of_cons]%elem_of_cons; [lia..|]. by apply (Hids id r).
    + intros id Hid. rewrite from_id_insert by lia. specialize (Hc id Hid). rewrite !ends_cons.
      case_decide as E; subst.
      * unfold linux_pipe_from_id in Hc. destruct (Z.leb_spec LINUX_PIPE_MAX (Z.of_nat j)); [lia|].
        rewrite Nat2Z.id, Hj in Hc. destruct Hc as [-> ->].
        repeat case_decide; simplify_eq; done.
      * repeat case_decide; simplify_eq; done.
  - pose proof (Hids id r Hin) as Hid. pose proof (ends_bound held id) as Hbd.
    pose proof (ends_pos held id r Hin) as Hpos.
    destruct (retain_counts pipes id r (ends held id true) (ends held id false)) as (p' & -> & Hp');
      [done|done|lia|lia|lia|destruct r; lia|by apply Hc|].
    split; cbn [fst snd].
    + by rewrite length_insert.
    + cbn [length]. lia.
    + intros i r' [[= -> _]|?]%elem_of_cons; [done|]. by apply (Hids i r').
    + intros i Hi. rewrite from_id_insert, !ends_cons by done. specialize (Hc i Hi).
      destruct r; repeat case_decide; simplify_eq; done.
  - assert ((id, r) ∈ held) as Hin by (rewrite Hp; constructor).
    pose proof (Hids id r Hin) as Hid. pose proof (ends_bound held id) as Hbd.
    pose proof (ends_pos held id r Hin) as Hpos.
    destruct (closed_counts pipes id r (ends held id true) (ends held id false)) as (o & -> & Ho);
      [done|done|lia|lia|lia|destruct r; lia|by apply Hc|].
    split; cbn [fst snd].
    + by rewrite length_insert.
    + apply Permutation_length in Hp. cbn in Hp. lia.
    + intros i r' ?. apply (Hids i r'). rewrite Hp. by constructor.
    + intros i Hi. rewrite from_id_insert by done. specialize (Hc i Hi).
      rewrite !(ends_perm held ((id, r) :: held')), !ends_cons in Hc, Ho by done.
      destruct r; repeat case_decide; simplify_eq; rewrite ?Z.add_simpl_r in Ho; done.
Qed.

(** Open ends: whatever descriptors are created, inherited and closed, a
    pipe exists exactly while one of its ends is open, and its counters are
    the numbers of open read and write ends; closing one of several equal
    ends therefore never looks like end of file. *)
Theorem pipe_ends_exact pipes held id :
  rtc ends_step (replicate (Z.to_nat LINUX_PIPE_MAX) None, []) (pipes, held) →
  0 ≤ id < LINUX_PIPE_MAX →
  slot_counts (linux_pipe_from_id pipes id) (ends held id true) (ends held id false).
Proof.
  intros Hs Hid. assert (ends_inv (pipes, held)) as [_ _ _ Hc]; [|by apply Hc].
  remember (replicate (Z.to_nat LINUX_PIPE_MAX) None, []) as s0. assert (ends_inv s0) as H0.
  { subst s0. split; cbn [fst snd].
    - rewrite length_replicate. done.
    - cbn. lia.
    - by intros ? ? ?%not_elem_of_nil.
    - intros i Hi. unfold linux_pipe_from_id. destruct (Z.leb_spec LINUX_PIPE_MAX i); [lia|].
      rewrite lookup_replicate_2 by lia. done. }
  clear Heqs0 Hid. induction Hs as [|s s1 s2 Hst _ IH]; eauto using ends_step_inv.
Qed.

(** ** Writing without being descheduled *)

(** The user buffer [buf], readable from every offset. *)
Definition user_load (buf : list Z) (total n : Z) : option (list Z) :=
  Some (take (Z.to_nat n) (drop (Z.to_nat total) buf)).

Lemma write_loop_spec fuel env buf p total :
  let count := Z.of_nat (length buf) in
  let space := LINUX_PIPE_BUF_SIZE - p_len p in
  pipe_wf p → p_readers p = 0 ∨ count - total ≤ space → 0 ≤ total ≤ count →
  (Z.to_nat space + 2 ≤ fuel)%nat →
  ∃ p', pipe_write_loop fuel env (user_load buf) p count total
        = Done (p', inr (total + Z.min (count - total) space))
    ∧ pipe_wf p' ∧ p_readers p' = p_readers p
    ∧ contents p' = contents p ++ take (Z.to_nat space) (drop (Z.to_nat total) buf).
Proof.
  revert p total. induction fuel as [|fuel IH]; intros p total count space Hwf Hr Ht Hf; [lia|].
  cbn [pipe_write_loop]. pose proof (pw_len p Hwf) as Hlen.
  destruct (Z.ltb_spec total count) as [Hlt|Hge].
  2:{ exists p. rewrite drop_ge by lia. rewrite take_nil, app_nil_r.
      rewrite Z.min_l by lia. split_and!; [|done..]. do 3 f_equal. lia. }
  destruct (decide (p_len p = LINUX_PIPE_BUF_SIZE)) as [Efull|Hspace].
  { unfold pipe_write_iter. rewrite (proj2 (Z.leb_le _ _)) by lia.
    destruct Hr as [Hr|]; [|lia]. rewrite Hr. cbn [Z.eqb]. exists p.
    unfold space. rewrite Efull, Z.sub_diag, Z.min_r, Z.add_0_r by lia.
    change (Z.to_nat 0) with 0%nat. by rewrite take_0, app_nil_r. }
  destruct (chunk_len_spec count total space Hlt ltac:(lia)) as (Hn & Hn1 & Hn2).
  set (n := chunk_len count total space) in *.
  assert (Z.of_nat (length (take (Z.to_nat n) (drop (Z.to_nat total) buf))) = n) as Hcl.
  { rewrite length_take, length_drop. lia. }
  destruct (write_iter_spec p count total (user_load buf total) _ Hwf Hlt ltac:(lia) eq_refl Hcl)
    as (p1 & -> & Hwf1 & Hc1 & [= _ Hr1 _]).
  fold space n in Hc1 |- *.
  assert (p_len p1 = p_len p + n) as Hl1.
  { apply (f_equal length) in Hc1. rewrite length_app, !contents_length in Hc1.
    pose proof (pw_len p1 Hwf1). lia. }
  destruct (IH p1 (total + n) Hwf1) as (p' & E' & Hwf' & Hr' & Hc');
    [rewrite Hr1; destruct Hr; [by left|right; lia]|lia|lia|].
  fold count in E'. rewrite E'. exists p'. split_and!; [|done|congruence|].
  - do 3 f_equal. lia.
  - rewrite Hc', Hc1, <- app_assoc. f_equal.
    replace (drop (Z.to_nat (total + n)) buf) with (drop (Z.to_nat n) (drop (Z.to_nat total) buf))
      by (rewrite drop_drop; f_equal; lia).
    replace (Z.to_nat space) with (Z.to_nat n + Z.to_nat (LINUX_PIPE_BUF_SIZE - p_len p1))%nat by lia.
    by rewrite take_take_drop.
Qed.

(** Writing: when the bytes fit, or no read end is open any more, a write
    returns after appending what fits, in order; without readers it answers
    EPIPE only when the pipe is already full, and otherwise reports the bytes
    nobody can read any more as written. *)
Theorem pipe_write_spec fuel env buf p :
  let count := Z.of_nat (length buf) in
  let space := LINUX_PIPE_BUF_SIZE - p_len p in
  pipe_wf p → p_writers p ≠ 0 → buf ≠ [] →
  p_readers p = 0 ∨ count ≤ space → (Z.to_nat space + 2 ≤ fuel)%nat →
  ∃ p', linux_pipe_write fuel env (user_load buf) true (Some p) count
        = Done (Some p', if (space =? 0) && (p_readers p =? 0) then - LINUX_EPIPE
                         else Z.min count space)
    ∧ contents p' = contents p ++ take (Z.to_nat space) buf.
Proof.
  intros count space Hwf Hw Hb Hr Hf. pose proof (pw_len p Hwf) as Hlen.
  assert (0 < count) by (unfold count; destruct buf; [done|cbn; lia]).
  unfold linux_pipe_write. cbn [negb orb].
  rewrite (proj2 (Z.eqb_neq (p_writers p) 0)), (proj2 (Z.eqb_neq count 0)) by lia.
  destruct (write_loop_spec fuel env buf p 0 Hwf) as (p' & E & Hwf' & Hr' & Hc);
    [fold count space; destruct Hr; [by left|right; lia]|lia|done|].
  fold count space in E. rewrite E. exists p'. rewrite Z.add_0_l, Z.sub_0_r, Hr'.
  change (drop (Z.to_nat 0) buf) with buf in Hc. split; [|exact Hc]. do 2 f_equal.
  destruct (Z.eqb_spec space 0) as [E0|E0]; [by rewrite E0, Z.min_r by lia|].
  by rewrite (proj2 (Z.eqb_neq (Z.min count space) 0)) by lia.
Qed.

(** ** Witnesses *)

Module PipeDemo.

Definition ring (head : nat) (bytes : list Z) (readers writers : Z) : linux_pipe :=
  LinuxPipe (replicate head 0 ++ bytes ++ replicate (Z.to_nat LINUX_PIPE_BUF_SIZE - head - length bytes) 0)
    (Z.of_nat head) (Z.of_nat (length bytes)) (readers + writers) readers writers.

Lemma ring_wf head bytes readers writers :
  Z.of_nat head + Z.of_nat (length bytes) < LINUX_PIPE_BUF_SIZE → pipe_wf (ring head bytes readers writers).
Proof.
  intros Hl. unfold ring. split; cbn [p_data p_head p_len]; [|lia|lia].
  rewrite !length_app, !length_replicate. lia.
Qed.

(** Three bytes are written, two are read. *)
Lemma pipe_fifo_witness : ∃ p, rtc pipe_step (new_pipe, [], []) (p, [1; 2; 3], [[1; 2]])
  ∧ (no_wrap [[1; 2]] → [1; 2; 3] = [1; 2] ++ contents p) ∧ contents p = [3].
Proof.
  destruct (write_iter_spec new_pipe 3 0 (λ n, Some [1; 2; 3]) [1; 2; 3] new_pipe_wf)
    as (p1 & E1 & Hwf1 & Hc1 & _); [lia|done|done|done|].
  assert (p_len p1 = 3) as Hl1.
  { apply (f_equal length) in Hc1. rewrite length_app, !contents_length in Hc1. cbn in Hc1.
    pose proof (pw_len p1 Hwf1). lia. }
  assert (p_head p1 = 0) as Hh1 by (vm_compute in E1; by injection E1 as <-).
  pose proof (read_iter_in (λ _, 0) p1 2 0 Hwf1 ltac:(lia) ltac:(lia)) as Hin. rewrite Hl1, Hh1 in Hin.
  destruct (Hin ltac:(done)) as (p2 & E2 & _).
  change (Z.to_nat (chunk_len 2 0 3)) with 2%nat in E2. rewrite Hc1 in E2.
  assert (rtc pipe_step (new_pipe, [], []) (p2, [1; 2; 3], [[1; 2]])) as Hs.
  { eapply rtc_l.
    { refine (StepWrite new_pipe [] [] 3 0 (λ n, if n =? 3 then Some [1; 2; 3] else None) p1 _ [1; 2; 3] _ _ _);
        [lia| |exact E1].
      intros n l. destruct (Z.eqb_spec n 3) as [->|]; [|done]. by intros [= <-]. }
    eapply rtc_l; [|apply rtc_refl].
    exact (StepRead p1 [1; 2; 3] [] 2 0 (λ _, 0) p2 _ [1; 2] ltac:(lia) E2). }
  exists p2. split; [exact Hs|]. destruct (pipe_fifo p2 [1; 2; 3] [[1; 2]] Hs) as (_ & Hc & _ & _ & Hn).
  split; [exact Hn|exact Hc].
Defined.

(** 200 bytes from position 4000 on: the first chunk is read past the end, and
    the byte 150 of it is not the one in the queue. *)
Lemma pipe_read_wrap_out_of_bounds_witness :
  let p := LinuxPipe (replicate (Z.to_nat 4096) 7) 4000 200 2 1 1 in
  ∃ p' total' bytes, pipe_read_iter (λ _, 99) p 200 0 true = Next p' total' bytes
    ∧ bytes !! 150%nat = if decide (p_head p + Z.of_nat 150 < LINUX_PIPE_BUF_SIZE) then contents p !! 150%nat else Some 99.
Proof.
  intros p. apply (pipe_read_wrap_out_of_bounds (λ _, 99) p 200 0 150).
  - split; cbn [p p_data p_head p_len]; rewrite ?length_replicate; unfold LINUX_PIPE_BUF_SIZE; lia.
  - lia.
  - cbn. lia.
  - vm_compute. reflexivity.
Defined.

Lemma pipe_read_eof_witness :
  ∃ p', linux_pipe_read 5 id (λ _ _, 0) (λ _, true) true (Some (ring 10 [4; 5; 6] 1 0)) 2
        = Done (Some p', 2, [4; 5])
    ∧ contents p' = [6].
Proof.
  destruct (pipe_read_eof 5 id (λ _ _, 0) (ring 10 [4; 5; 6] 1 0) 2) as (p' & E & Hc).
  - apply ring_wf. cbn. unfold LINUX_PIPE_BUF_SIZE. lia.
  - reflexivity.
  - discriminate.
  - lia.
  - cbn. unfold LINUX_PIPE_BUF_SIZE. lia.
  - cbn. lia.
  - exists p'. split; [exact E|exact Hc].
Defined.

Lemma pipe_short_read_blocks_witness :
  linux_pipe_read 50 id (λ _ _, 0) (λ _, true) true (Some (ring 10 [4; 5; 6] 1 1)) 100 = Running.
Proof.
  apply (pipe_short_read_blocks 50 (λ _ _, 0) (ring 10 [4; 5; 6] 1 1) 100).
  - apply ring_wf. cbn. unfold LINUX_PIPE_BUF_SIZE. lia.
  - discriminate.
  - discriminate.
  - cbn. unfold LINUX_PIPE_BUF_SIZE. lia.
  - cbn. lia.
Defined.

Definition table0 : pipe_table := replicate (Z.to_nat LINUX_PIPE_MAX) None.

Lemma pipe_ends_exact_witness :
  let pipes := linux_pipe_fd_closed (linux_pipe_alloc_slot true table0).1 0 false in
  slot_counts (linux_pipe_from_id pipes 0) 1 0.
Proof.
  apply (pipe_ends_exact _ [(0, true)] 0); [|unfold LINUX_PIPE_MAX; lia].
  eapply rtc_l; [exact (EndsCreate true table0 [] _ 0 ltac:(cbn; lia) eq_refl)|].
  eapply rtc_l; [|apply rtc_refl].
  apply (EndsClose _ [(0, true); (0, false)] [(0, true)] 0 false). constructor.
Defined.

Lemma pipe_write_spec_witness :
  ∃ p', linux_pipe_write 5000 id (user_load [1; 2]) true (Some (ring 0 [9] 0 1)) 2
        = Done (Some p', 2)
    ∧ contents p' = contents (ring 0 [9] 0 1) ++ take (Z.to_nat 4095) [1; 2].
Proof.
  apply (pipe_write_spec 5000 id [1; 2] (ring 0 [9] 0 1)).
  - apply ring_wf. cbn. unfold LINUX_PIPE_BUF_SIZE. lia.
  - discriminate.
  - discriminate.
  - left. reflexivity.
  - apply Nat.leb_le. vm_compute. reflexivity.
Defined.
End PipeDemo.
