(* ===== verification/FdSlice.v ===== *)
(** * The byte layout of a process's descriptor table

    [linux_layer/fs/linux_fd_table.c], lower half: the table is one page slice
    with a header (working directory, capacity) at byte 0 and the descriptor
    entries, 276 bytes each, from byte 8192 on.  Entries cross page
    boundaries, so loads and stores copy page by page.  The file shows that
    this storage is an array of entries: the interface [FdStore] that the
    descriptor operations are proved against. *)

From stdpp Require Import base numbers list strings option.
From Stdlib Require Import Ascii.
From S2P Require Import Prelude PageSlice KHeap VfsPath.

(** ** Entries *)

Inductive linux_fd_kind : Type :=
  | LINUX_FD_NONE
  | LINUX_FD_CONSOLE_IN
  | LINUX_FD_CONSOLE_OUT
  | LINUX_FD_CONSOLE_ERR
  | LINUX_FD_VFS
  | LINUX_FD_PIPE.

#[global] Instance fd_kind_eq_dec : EqDecision linux_fd_kind.
Proof. solve_decision. Defined.

Record linux_fd_entry : Type := LinuxFdEntry {
  fd_kind : linux_fd_kind;
  vfs_handle : Z;
  fd_open_flags : Z;
  fd_flags : Z;
  fd_is_dir : bool;
  pipe_read : bool;
  vfs_abs_path : cstr;
}.

#[global] Instance zero_fd_entry : Zeroed linux_fd_entry :=
  LinuxFdEntry LINUX_FD_NONE 0 0 0 false false [].

(** The values a C entry can hold. *)
Record entry_wf (e : linux_fd_entry) : Prop := {
  ew_handle : 0 ≤ vfs_handle e < 2 ^ 32;
  ew_oflags : 0 ≤ fd_open_flags e < 2 ^ 32;
  ew_flags : 0 ≤ fd_flags e < 2 ^ 32;
  ew_path : (length (vfs_abs_path e) < VFS_PATH_MAX)%nat;
  ew_nul : zero ∉ vfs_abs_path e;
}.

(** ** Representation of the C structures as bytes *)

Definition le32 (x : Z) : list Z :=
  [x `mod` 256; x `div` 256 `mod` 256; x `div` 65536 `mod` 256; x `div` 16777216 `mod` 256].
Definition un_le32 (l : list Z) : Z :=
  match l with
  | a :: b :: c :: d :: _ => a + 256 * b + 65536 * c + 16777216 * d
  | _ => 0
  end.

(** [char a[n]] holding a string, and the string an array holds. *)
Definition rep_str (n : nat) (s : cstr) : list Z :=
  (byte_of <$> s) ++ replicate (n - length s) 0.
Fixpoint un_str (l : list Z) : cstr :=
  match l with
  | [] => []
  | b :: l' => if b =? 0 then [] else char_of b :: un_str l'
  end.

Definition kind_code (k : linux_fd_kind) : Z :=
  match k with
  | LINUX_FD_NONE => 0 | LINUX_FD_CONSOLE_IN => 1 | LINUX_FD_CONSOLE_OUT => 2
  | LINUX_FD_CONSOLE_ERR => 3 | LINUX_FD_VFS => 4 | LINUX_FD_PIPE => 5
  end.
Definition kind_of_code (z : Z) : linux_fd_kind :=
  if z =? 1 then LINUX_FD_CONSOLE_IN else if z =? 2 then LINUX_FD_CONSOLE_OUT
  else if z =? 3 then LINUX_FD_CONSOLE_ERR else if z =? 4 then LINUX_FD_VFS
  else if z =? 5 then LINUX_FD_PIPE else LINUX_FD_NONE.

(** [sizeof(linux_fd_entry_t)]: four 4-byte fields, two bools, the path and
    two bytes of padding. *)
Definition ENTRY_SIZE : Z := 276.

Definition rep_entry (e : linux_fd_entry) : list Z :=
  le32 (kind_code (fd_kind e)) ++ le32 (vfs_handle e) ++ le32 (fd_open_flags e)
  ++ le32 (fd_flags e) ++ [if fd_is_dir e then 1 else 0] ++ [if pipe_read e then 1 else 0]
  ++ rep_str VFS_PATH_MAX (vfs_abs_path e) ++ [0; 0].

Definition unrep_entry (l : list Z) : linux_fd_entry :=
  LinuxFdEntry (kind_of_code (un_le32 l)) (un_le32 (drop 4 l)) (un_le32 (drop 8 l))
    (un_le32 (drop 12 l)) (bool_decide (l !! 16%nat ≠ Some 0)) (bool_decide (l !! 17%nat ≠ Some 0))
    (un_str (take VFS_PATH_MAX (drop 18 l))).

(** [linux_fs_slice_hdr_t]. *)
Record linux_fs_slice_hdr : Type := FsHdr { hdr_cwd : cstr; hdr_fd_capacity : Z }.
Definition HDR_SIZE : Z := 260.
Definition LINUX_FS_HDR_FD_CAPACITY_OFF : Z := 256.

Definition rep_hdr (h : linux_fs_slice_hdr) : list Z :=
  rep_str VFS_PATH_MAX (hdr_cwd h) ++ le32 (hdr_fd_capacity h).
Definition unrep_hdr (l : list Z) : linux_fs_slice_hdr :=
  FsHdr (un_str (take VFS_PATH_MAX l)) (un_le32 (drop VFS_PATH_MAX l)).

Lemma le32_roundtrip x l : 0 ≤ x < 2 ^ 32 → un_le32 (le32 x ++ l) = x.
Proof.
  intros Hx. unfold un_le32, le32. cbn [app].
  pose proof (Z.div_mod x 256). pose proof (Z.div_mod (x `div` 256) 256).
  pose proof (Z.div_mod (x `div` 65536) 256).
  assert (x `div` 65536 = x `div` 256 `div` 256) as E1 by (rewrite Z.div_div by lia; done).
  assert (x `div` 16777216 = x `div` 65536 `div` 256) as E2 by (rewrite Z.div_div by lia; done).
  assert (0 ≤ x `div` 16777216 < 256) as Hs.
  { split; [apply Z.div_pos; lia|]. apply Z.div_lt_upper_bound; lia. }
  rewrite (Z.mod_small (x `div` 16777216)) by done. lia.
Qed.

Lemma un_str_rep s n l :
  zero ∉ s → (length s < n)%nat → un_str (take n (rep_str n s ++ l)) = s.
Proof.
  intros Hn Hl. unfold rep_str. rewrite <- app_assoc.
  rewrite take_app_ge by (rewrite length_fmap; lia). rewrite length_fmap.
  replace (n - length s)%nat with (S (n - length s - 1)) by lia.
  cbn [replicate app take].
  generalize (take (n - length s - 1) (replicate (n - length s - 1) 0 ++ l)). intros r.
  clear Hl. induction s as [|c s IH]; [done|].
  apply not_elem_of_cons in Hn as [Hc Hs]. cbn.
  destruct (Z.eqb_spec (byte_of c) 0) as [E|E]; [by apply byte_of_nul in E|].
  by rewrite char_of_byte, IH.
Qed.

Lemma rep_str_length n s : (length s ≤ n)%nat → length (rep_str n s) = n.
Proof. intros. unfold rep_str. rewrite length_app, length_fmap, length_replicate. lia. Qed.

Lemma rep_entry_length e : entry_wf e → Z.of_nat (length (rep_entry e)) = ENTRY_SIZE.
Proof.
  intros He. pose proof (ew_path e He). unfold rep_entry. rewrite !length_app.
  rewrite rep_str_length by lia. done.
Qed.

Lemma kind_roundtrip k : kind_of_code (kind_code k) = k.
Proof. by destruct k. Qed.

Lemma entry_roundtrip e : entry_wf e → unrep_entry (rep_entry e) = e.
Proof.
  intros [Hh Ho Hf Hp Hn]. unfold unrep_entry, rep_entry.
  change (drop 4 (le32 (kind_code (fd_kind e)) ++ ?l)) with l.
  change (drop 8 (le32 (kind_code (fd_kind e)) ++ le32 (vfs_handle e) ++ ?l)) with l.
  change (drop 12 (le32 (kind_code (fd_kind e)) ++ le32 (vfs_handle e)
            ++ le32 (fd_open_flags e) ++ ?l)) with l.
  rewrite !le32_roundtrip by (done || (destruct (fd_kind e); cbn; lia)).
  rewrite kind_roundtrip.
  set (tl := rep_str VFS_PATH_MAX (vfs_abs_path e) ++ [0; 0]).
  change (drop 18 _) with tl. unfold tl. rewrite un_str_rep by done.
  destruct e as [k h o f d p path]. cbn. f_equal; [by destruct d|by destruct p].
Qed.

Lemma hdr_roundtrip h :
  (length (hdr_cwd h) < VFS_PATH_MAX)%nat → zero ∉ hdr_cwd h → 0 ≤ hdr_fd_capacity h < 2 ^ 32 →
  unrep_hdr (rep_hdr h) = h ∧ Z.of_nat (length (rep_hdr h)) = HDR_SIZE.
Proof.
  intros Hl Hn Hc. unfold unrep_hdr, rep_hdr. split.
  - rewrite un_str_rep by done.
    rewrite drop_app_length' by (symmetry; apply rep_str_length; lia).
    rewrite <- (app_nil_r (le32 _)), le32_roundtrip by done. by destruct h.
  - rewrite length_app, rep_str_length by lia. done.
Qed.

Lemma unrep_zero : unrep_entry (replicate (Z.to_nat ENTRY_SIZE) 0) = zero_rec.
Proof. reflexivity. Qed.

(** ** Byte access to a page slice *)

Definition slice_byte `{PageSlice (list Z)} (s : page_slice) (i : Z) : option Z :=
  page_slice_lookup s (i `div` PAGE_SIZE) ≫= λ pg, pg !! Z.to_nat (i `mod` PAGE_SIZE).

(** More of the core kernel's page slices: copying bytes out, and cloning. *)
Class PageSliceCopy `{PS : PageSlice (list Z)} : Type := {
  page_slice_copy_to_buffer : page_slice → Z → Z → error_t * list Z;
  page_slice_clone : page_slice → error_t * page_slice;
}.

Class PageSliceCopyLaws `{PSC : PageSliceCopy} : Prop := {
  copy_ok s off n :
    0 ≤ off → 0 < n → off + n ≤ page_slice_get_size s →
    (∀ k, 0 ≤ k < n → is_Some (slice_byte s (off + k))) →
    ∃ l, page_slice_copy_to_buffer s off n = (REND_SUCCESS, l) ∧ Z.of_nat (length l) = n
      ∧ ∀ k : nat, Z.of_nat k < n → l !! k = slice_byte s (off + Z.of_nat k);
  clone_ok s s' : page_slice_clone s = (REND_SUCCESS, s') → slice_same s s';
}.

Section fd_slice.
Context `{PSC : PageSliceCopy}.

Definition LINUX_FS_FD_REGION_BASE : Z := 2 * PAGE_SIZE.
Definition LINUX_FS_FD_INIT_CAP : Z := 128.

Definition zero_page : list Z := replicate (Z.to_nat PAGE_SIZE) 0.

Definition linux_fs_fd_byte_off (fd : Z) : Z :=
  u64 (LINUX_FS_FD_REGION_BASE + u64 fd * ENTRY_SIZE).
Definition linux_fs_table_byte_size (fd_capacity : Z) : Z :=
  linux_fs_fd_byte_off (i32 fd_capacity).

Definition linux_fs_ensure_pgoff (al : alloc_oracle) (table : page_slice) (pgoff : Z)
  : error_t * page_slice :=
  match page_slice_lookup table pgoff with
  | Some _ => (REND_SUCCESS, table)
  | None => if al pgoff then page_slice_insert_page table pgoff zero_page
            else (E_REND_NO_MEM, table)
  end.

(** [for (pgoff = from; n times; pgoff++)], stopping at an error. *)
Fixpoint fs_ensure_range (al : alloc_oracle) (table : page_slice) (from : Z) (n : nat)
  : error_t * page_slice :=
  match n with
  | O => (REND_SUCCESS, table)
  | S n' =>
      match linux_fs_ensure_pgoff al table from with
      | (REND_SUCCESS, t') => fs_ensure_range al t' (from + 1) n'
      | (e, t') => (e, t')
      end
  end.

Definition linux_fs_ensure_bytes (al : alloc_oracle) (table : page_slice) (byte_off len : Z)
  : error_t * page_slice :=
  if len =? 0 then (E_IN_PARAM, table)
  else
    let end_ := byte_off + len - 1 in
    let first := PAGE_SLICE_BYTE_TO_PGOFF byte_off in
    fs_ensure_range al table first (Z.to_nat (PAGE_SLICE_BYTE_TO_PGOFF end_ - first + 1)).

(** [while (done < len)]: one page per iteration. *)
Fixpoint store_chunks (fuel : nat) (table : page_slice) (byte_off : Z) (src : list Z) (done : Z)
  : error_t * page_slice :=
  match fuel with
  | O => (REND_SUCCESS, table)
  | S fuel' =>
      let len := Z.of_nat (length src) in
      if done <? len then
        let off := byte_off + done in
        let pgoff := PAGE_SLICE_BYTE_TO_PGOFF off in
        let in_page := PAGE_SLICE_IN_PAGE_OFF off in
        match page_slice_lookup table pgoff with
        | None => (E_RENDEZVOS, table)
        | Some pg =>
            let chunk := PAGE_SIZE - in_page in
            let chunk := if len - done <? chunk then len - done else chunk in
            let bytes := take (Z.to_nat chunk) (drop (Z.to_nat done) src) in
            store_chunks fuel'
              (page_slice_store table pgoff (splice (Z.to_nat in_page) bytes pg))
              byte_off src (done + chunk)
        end
      else (REND_SUCCESS, table)
  end.

(** [linux_fs_table_store_unlocked] and [linux_fs_slice_store]; at most one
    iteration per byte. *)
Definition linux_fs_slice_store (al : alloc_oracle) (table : page_slice) (byte_off : Z)
    (src : list Z) : error_t * page_slice :=
  match linux_fs_ensure_bytes al table byte_off (Z.of_nat (length src)) with
  | (REND_SUCCESS, t1) => store_chunks (S (length src)) t1 byte_off src 0
  | (e, t1) => (e, t1)
  end.

Definition linux_fs_table_load (table : page_slice) (byte_off len : Z) : error_t * list Z :=
  page_slice_copy_to_buffer table byte_off len.

Definition linux_fs_fd_capacity (table : page_slice) : Z :=
  match page_slice_copy_to_buffer table LINUX_FS_HDR_FD_CAPACITY_OFF 4 with
  | (REND_SUCCESS, l) => un_le32 l
  | _ => 0
  end.

Definition linux_fs_hdr_load (table : page_slice) : option linux_fs_slice_hdr :=
  match linux_fs_table_load table 0 HDR_SIZE with
  | (REND_SUCCESS, l) => Some (unrep_hdr l)
  | _ => None
  end.

Definition linux_fs_hdr_store (al : alloc_oracle) (table : page_slice) (h : linux_fs_slice_hdr)
  : error_t * page_slice :=
  linux_fs_slice_store al table 0 (rep_hdr h).

Definition linux_fs_entry_load (table : page_slice) (fd : Z) : option linux_fd_entry :=
  if fd <? 0 then None
  else
    match linux_fs_table_load table (linux_fs_fd_byte_off fd) ENTRY_SIZE with
    | (REND_SUCCESS, l) => Some (unrep_entry l)
    | _ => None
    end.

Definition linux_fs_entry_store (al : alloc_oracle) (table : page_slice) (fd : Z)
    (ent : linux_fd_entry) : error_t * page_slice :=
  if fd <? 0 then (E_IN_PARAM, table)
  else linux_fs_slice_store al table (linux_fs_fd_byte_off fd) (rep_entry ent).

Definition linux_fs_table_create (al : alloc_oracle) (fd_capacity : Z)
  : error_t * ptr page_slice :=
  if fd_capacity =? 0 then (E_IN_PARAM, None)
  else
    match page_slice_create 0 (linux_fs_table_byte_size fd_capacity) with
    | None => (E_REND_NO_MEM, None)
    | Some table =>
        let pg_count := PAGE_SLICE_SIZE_TO_PAGE_COUNT (page_slice_get_size table) in
        match fs_ensure_range al table 0 (Z.to_nat pg_count) with
        | (REND_SUCCESS, t1) =>
            match linux_fs_hdr_store al t1 (FsHdr [slash] fd_capacity) with
            | (REND_SUCCESS, t2) => (REND_SUCCESS, Some t2)
            | (e, _) => (e, None)
            end
        | (e, _) => (e, None)
        end
    end.

Definition linux_fs_grow_fd_cap (al : alloc_oracle) (table : page_slice) (new_cap : Z)
  : error_t * page_slice :=
  if new_cap =? 0 then (E_IN_PARAM, table)
  else
    match linux_fs_table_load table 0 HDR_SIZE with
    | (REND_SUCCESS, l) =>
        let hdr := unrep_hdr l in
        if new_cap <=? hdr_fd_capacity hdr then (REND_SUCCESS, table)
        else
          let old_size := page_slice_get_size table in
          let new_size := linux_fs_table_byte_size new_cap in
          match page_slice_set_size table new_size with
          | (REND_SUCCESS, t1) =>
              let old_pages := PAGE_SLICE_SIZE_TO_PAGE_COUNT old_size in
              let new_pages := PAGE_SLICE_SIZE_TO_PAGE_COUNT new_size in
              match fs_ensure_range al t1 old_pages (Z.to_nat (new_pages - old_pages)) with
              | (REND_SUCCESS, t2) => linux_fs_hdr_store al t2 (FsHdr (hdr_cwd hdr) new_cap)
              | (e, t2) => (e, t2)
              end
          | (e, t1) => (e, t1)
          end
    | (e, _) => (e, table)
    end.

Definition linux_fs_cwd (table : page_slice) : cstr :=
  match linux_fs_table_load table 0 (Z.of_nat VFS_PATH_MAX) with
  | (REND_SUCCESS, l) => strncpy_term (un_str l) (VFS_PATH_MAX - 1)
  | _ => [slash]
  end.

Definition linux_fs_set_cwd (al : alloc_oracle) (table : page_slice) (cwd : ptr cstr)
  : page_slice :=
  match cwd with
  | None => table
  | Some cwd =>
      match linux_fs_hdr_load table with
      | None => table
      | Some hdr =>
          (linux_fs_hdr_store al table
             (FsHdr (strncpy_term cwd (VFS_PATH_MAX - 1)) (hdr_fd_capacity hdr))).2
      end
  end.
End fd_slice.

(** ** Correctness of the byte copies *)

Section bytes.
Context `{PSC : PageSliceCopy} {PSL : PageSliceLaws (list Z)} {PCL : PageSliceCopyLaws}.
Implicit Types (s : page_slice) (l : list Z).

Definition page_mapped s (p : Z) : Prop := is_Some (page_slice_lookup s p).

(** Mapped pages are whole pages. *)
Definition pages_len s : Prop :=
  ∀ p pg, page_slice_lookup s p = Some pg → Z.of_nat (length pg) = PAGE_SIZE.

Definition bytes_at s (off : Z) l : Prop :=
  ∀ k : nat, (k < length l)%nat → slice_byte s (off + Z.of_nat k) = l !! k.

Lemma byte_mapped s i : pages_len s → page_mapped s (i `div` PAGE_SIZE) → is_Some (slice_byte s i).
Proof.
  intros Hl [pg Hpg]. unfold slice_byte. rewrite Hpg. cbn. apply lookup_lt_is_Some_2.
  pose proof (Hl _ _ Hpg). pose proof (Z.mod_pos_bound i PAGE_SIZE ltac:(done)). lia.
Qed.

Lemma div_page i p o : 0 ≤ o < PAGE_SIZE → i = p * PAGE_SIZE + o →
  i `div` PAGE_SIZE = p ∧ i `mod` PAGE_SIZE = o.
Proof.
  intros Ho ->. unfold PAGE_SIZE in *. split.
  - symmetry. apply Z.div_unique with o; lia.
  - symmetry. apply Z.mod_unique with p; lia.
Qed.

Lemma page_split i : ∃ p o, i = p * PAGE_SIZE + o ∧ 0 ≤ o < PAGE_SIZE
  ∧ i `div` PAGE_SIZE = p ∧ i `mod` PAGE_SIZE = o.
Proof.
  exists (i `div` PAGE_SIZE), (i `mod` PAGE_SIZE).
  pose proof (Z.div_mod i PAGE_SIZE ltac:(done)).
  pose proof (Z.mod_pos_bound i PAGE_SIZE ltac:(done)). split_and!; lia.
Qed.

(** Same pages mapped, same size; only byte contents may differ. *)
Definition same_pages s s' : Prop :=
  page_slice_get_size s' = page_slice_get_size s ∧ pages_len s'
  ∧ ∀ p, page_mapped s' p ↔ page_mapped s p.

Lemma store_page_bytes s p pg o bytes :
  pages_len s → page_slice_lookup s p = Some pg →
  0 ≤ o → o + Z.of_nat (length bytes) ≤ PAGE_SIZE →
  let s' := page_slice_store s p (splice (Z.to_nat o) bytes pg) in
  same_pages s s'
  ∧ ∀ i, slice_byte s' i =
      if decide (p * PAGE_SIZE + o ≤ i < p * PAGE_SIZE + o + Z.of_nat (length bytes))
      then bytes !! Z.to_nat (i - (p * PAGE_SIZE + o)) else slice_byte s i.
Proof.
  intros Hl Hp Ho Hb. pose proof (Hl _ _ Hp) as Hpg. cbv zeta.
  set (pg' := splice (Z.to_nat o) bytes pg).
  destruct (store_ok s p pg pg' Hp) as (Hsz & Hp' & Hother).
  assert (length pg' = length pg) as Hlen' by (apply splice_length; lia).
  split; [split_and!; [done| |]|].
  - intros q qg Hq. destruct (decide (q = p)) as [->|Hne].
    + rewrite Hp' in Hq. injection Hq as <-. lia.
    + rewrite Hother in Hq by done. by apply (Hl q).
  - intros q. unfold page_mapped. destruct (decide (q = p)) as [->|Hne].
    + rewrite Hp', Hp. split; intros _; by eexists.
    + by rewrite Hother.
  - intros i. destruct (page_split i) as (q & r & -> & Hr & Hdiv & Hmod).
    unfold slice_byte. rewrite Hdiv, Hmod. destruct (decide (q = p)) as [->|Hne].
    + rewrite Hp', Hp. cbn. unfold pg'. rewrite splice_lookup by lia.
      repeat case_decide; try lia; [f_equal; lia|done].
    + rewrite Hother by done. rewrite decide_False; [done|].
      unfold PAGE_SIZE in *. destruct (decide (q < p)); [nia|]. nia.
Qed.

Lemma same_pages_trans s1 s2 s3 : same_pages s1 s2 → same_pages s2 s3 → same_pages s1 s3.
Proof.
  intros (? & ? & Hm) (? & ? & Hm'). split_and!; [congruence|done|].
  intros p. by rewrite Hm', Hm.
Qed.

Lemma same_pages_refl s : pages_len s → same_pages s s.
Proof. done. Qed.

(** The chunked copy writes exactly the bytes of [src]. *)
Lemma store_chunks_spec fuel s off src done :
  pages_len s → 0 ≤ off → 0 ≤ done ≤ Z.of_nat (length src) →
  (∀ i, off ≤ i < off + Z.of_nat (length src) → page_mapped s (i `div` PAGE_SIZE)) →
  Z.of_nat (length src) - done < Z.of_nat fuel →
  ∃ s', store_chunks fuel s off src done = (REND_SUCCESS, s') ∧ same_pages s s'
    ∧ ∀ i, slice_byte s' i =
        if decide (off + done ≤ i < off + Z.of_nat (length src))
        then src !! Z.to_nat (i - off) else slice_byte s i.
Proof.
  revert s done. induction fuel as [|fuel IH]; intros s done Hl Hoff Hd Hm Hf; [lia|].
  cbn [store_chunks]. set (len := Z.of_nat (length src)) in *.
  destruct (Z.ltb_spec done len) as [Hlt|Hge].
  2:{ exists s. split_and!; [done..|]. intros i. by rewrite decide_False by lia. }
  cbv zeta. unfold PAGE_SLICE_BYTE_TO_PGOFF, PAGE_SLICE_IN_PAGE_OFF.
  destruct (page_split (off + done)) as (p & o & Epo & Ho & -> & ->).
  destruct (Hm (off + done) ltac:(lia)) as [pg Hpg].
  destruct (div_page (off + done) p o Ho Epo) as [Hdiv _]. rewrite Hdiv in Hpg. rewrite Hpg.
  set (chunk := if len - done <? PAGE_SIZE - o then len - done else PAGE_SIZE - o).
  assert (0 < chunk ≤ len - done ∧ o + chunk ≤ PAGE_SIZE) as [Hc Hoc].
  { unfold chunk. destruct (Z.ltb_spec (len - done) (PAGE_SIZE - o)); lia. }
  set (bytes := take (Z.to_nat chunk) (drop (Z.to_nat done) src)).
  assert (Z.of_nat (length bytes) = chunk) as Hbl.
  { unfold bytes. rewrite length_take, length_drop. lia. }
  destruct (store_page_bytes s p pg o bytes Hl Hpg) as [Hsame Hbytes]; [lia|lia|].
  set (s1 := page_slice_store _ _ _) in *. pose proof Hsame as (_ & Hl1 & Hm1).
  destruct (IH s1 (done + chunk) Hl1 Hoff) as (s' & E & Hsame' & Hb'); [lia| |lia|].
  { intros i Hi. apply Hm1. by apply Hm. }
  exists s'. split_and!; [done|by eapply same_pages_trans|]. intros i. rewrite Hb', Hbytes, Hbl.
  rewrite <- Epo. repeat case_decide; try lia; try done.
  unfold bytes. rewrite lookup_take_lt, lookup_drop by lia. f_equal. lia.
Qed.

Lemma fs_ensure_range_mapped al s from n :
  (∀ p, from ≤ p < from + Z.of_nat n → page_mapped s p) →
  fs_ensure_range al s from n = (REND_SUCCESS, s).
Proof.
  revert from. induction n as [|n IH]; intros from Hm; cbn; [done|].
  unfold linux_fs_ensure_pgoff. destruct (Hm from) as [pg ->]; [lia|].
  apply IH. intros p Hp. apply Hm. lia.
Qed.

(** [s'] maps the pages of [s] and perhaps new zeroed ones. *)
Definition more_pages s s' : Prop :=
  page_slice_get_size s' = page_slice_get_size s
  ∧ ∀ p, page_slice_lookup s' p = page_slice_lookup s p
         ∨ page_slice_lookup s p = None ∧ page_slice_lookup s' p = Some zero_page.

Lemma more_pages_trans s1 s2 s3 : more_pages s1 s2 → more_pages s2 s3 → more_pages s1 s3.
Proof.
  intros [? H12] [? H23]. split; [congruence|]. intros p.
  destruct (H12 p) as [E|[? E]], (H23 p) as [E'|[? E']]; try congruence; [left|right..]; try congruence.
  - split; congruence.
  - split; congruence.
Qed.

Lemma fs_ensure_range_spec al s from n e s' :
  fs_ensure_range al s from n = (e, s') →
  more_pages s s'
  ∧ (e = REND_SUCCESS → ∀ p, from ≤ p < from + Z.of_nat n → page_mapped s' p).
Proof.
  revert s from. induction n as [|n IH]; intros s from; cbn [fs_ensure_range].
  { intros [= <- <-]. split; [|intros _ p Hp; lia]. split; [done|]. by left. }
  destruct (linux_fs_ensure_pgoff al s from) as [e1 s1] eqn:E1.
  assert (more_pages s s1 ∧ (e1 = REND_SUCCESS → page_mapped s1 from)) as [Hm1 Hp1].
  { unfold linux_fs_ensure_pgoff in E1. destruct (page_slice_lookup s from) as [pg|] eqn:El.
    - injection E1 as <- <-. split; [split; [done|by left]|]. intros _. by eexists.
    - destruct (al from).
      + destruct (decide (e1 = REND_SUCCESS)) as [->|He].
        * destruct (insert_ok _ _ _ _ E1) as (? & Hz & Ho). split; [|intros _; by eexists].
          split; [done|]. intros p. destruct (decide (p = from)) as [->|]; [by right|left; by apply Ho].
        * destruct (insert_fail _ _ _ _ _ E1 He) as [? Ho]. split; [|done]. split; [done|by left].
      + injection E1 as <- <-. split; [split; [done|by left]|]. done. }
  destruct (decide (e1 = REND_SUCCESS)) as [->|He1].
  - intros E. destruct (IH s1 (from + 1) E) as [Hm2 Hp2].
    split; [by eapply more_pages_trans|]. intros -> p Hp.
    destruct (decide (p = from)) as [->|]; [|apply Hp2; [done|lia]].
    destruct (Hp1 eq_refl) as [pg Hpg]. destruct Hm2 as [_ Hm2].
    destruct (Hm2 from) as [Eq|[Eq _]]; [|congruence]. unfold page_mapped. rewrite Eq. by eexists.
  - destruct e1; [done|..]; intros [= <- <-]; (split; [done|discriminate]).
Qed.

(** A store into mapped bytes. *)
Lemma slice_store_spec al s off src :
  pages_len s → 0 ≤ off → src ≠ [] →
  (∀ i, off ≤ i < off + Z.of_nat (length src) → page_mapped s (i `div` PAGE_SIZE)) →
  ∃ s', linux_fs_slice_store al s off src = (REND_SUCCESS, s') ∧ same_pages s s'
    ∧ ∀ i, slice_byte s' i =
        if decide (off ≤ i < off + Z.of_nat (length src))
        then src !! Z.to_nat (i - off) else slice_byte s i.
Proof.
  intros Hl Hoff Hne Hm. assert (0 < Z.of_nat (length src)) by (destruct src; cbn; [done|lia]).
  unfold linux_fs_slice_store, linux_fs_ensure_bytes. cbv zeta.
  rewrite (proj2 (Z.eqb_neq (Z.of_nat (length src)) 0)) by lia.
  unfold PAGE_SLICE_BYTE_TO_PGOFF. rewrite fs_ensure_range_mapped.
  - destruct (store_chunks_spec (S (length src)) s off src 0 Hl Hoff ltac:(lia) Hm ltac:(lia))
      as (s' & E & Hs & Hb). exists s'. rewrite Z.add_0_r in Hb. done.
  - intros p Hp.
    assert (off `div` PAGE_SIZE ≤ p ≤ (off + Z.of_nat (length src) - 1) `div` PAGE_SIZE) as Hp2.
    { pose proof (Z.div_le_mono off (off + Z.of_nat (length src) - 1) PAGE_SIZE). unfold PAGE_SIZE in *. lia. }
    destruct (decide (p = off `div` PAGE_SIZE)) as [->|Hne2]; [apply Hm; lia|].
    rewrite <- (proj1 (div_page (p * PAGE_SIZE) p 0 ltac:(done) ltac:(lia))).
    apply Hm. pose proof (Z.mul_div_le (off + Z.of_nat (length src) - 1) PAGE_SIZE).
    pose proof (Z.mul_succ_div_gt off PAGE_SIZE). unfold PAGE_SIZE in *. nia.
Qed.

Lemma load_spec s off l :
  0 ≤ off → l ≠ [] → off + Z.of_nat (length l) ≤ page_slice_get_size s → bytes_at s off l →
  linux_fs_table_load s off (Z.of_nat (length l)) = (REND_SUCCESS, l).
Proof.
  intros Hoff Hne Hsz Hb. unfold linux_fs_table_load.
  destruct (copy_ok s off (Z.of_nat (length l))) as (l' & -> & Hl' & Hk); [done| |done| |].
  - destruct l; cbn; [done|lia].
  - intros k Hk. rewrite <- (Z2Nat.id k) by lia. rewrite Hb by lia.
    apply lookup_lt_is_Some_2. lia.
  - f_equal. apply list_eq_same_length with (length l); [lia|lia|].
    intros k x y Hkl Hx Hy. rewrite Hk, Hb in Hx by lia. congruence.
Qed.
End bytes.

(** ** The table is an array of entries *)

Section table.
Context `{PSC : PageSliceCopy} {PSL : PageSliceLaws (list Z)} {PCL : PageSliceCopyLaws}.
Implicit Types (s : page_slice) (ents : list linux_fd_entry).

Definition FD_CAP_BOUND : Z := 2 ^ 31.

Definition entry_off (fd : Z) : Z := LINUX_FS_FD_REGION_BASE + fd * ENTRY_SIZE.

Record cwd_wf (cwd : cstr) : Prop := {
  cw_len : (length cwd < VFS_PATH_MAX)%nat;
  cw_nul : zero ∉ cwd;
}.

(** [s] stores the working directory [cwd] and the entries [ents]. *)
Record table_rep s (cwd : cstr) ents : Prop := {
  tr_len : pages_len s;
  tr_cap : 0 < Z.of_nat (length ents) < FD_CAP_BOUND;
  tr_size : entry_off (Z.of_nat (length ents)) ≤ page_slice_get_size s;
  tr_mapped i : 0 ≤ i < entry_off (Z.of_nat (length ents)) → page_mapped s (i `div` PAGE_SIZE);
  tr_cwd : cwd_wf cwd;
  tr_hdr : bytes_at s 0 (rep_hdr (FsHdr cwd (Z.of_nat (length ents))));
  tr_ents (fd : nat) e : ents !! fd = Some e →
    entry_wf e ∧ bytes_at s (entry_off (Z.of_nat fd)) (rep_entry e);
  tr_zero i x : entry_off (Z.of_nat (length ents)) ≤ i → slice_byte s i = Some x → x = 0;
}.

(** Every page of the slice is there: no growth ran out of memory. *)
Definition slice_full s : Prop :=
  ∀ p, 0 ≤ p < PAGE_SLICE_SIZE_TO_PAGE_COUNT (page_slice_get_size s) → page_mapped s p.

Lemma fd_byte_off_eq fd : 0 ≤ fd ≤ FD_CAP_BOUND → linux_fs_fd_byte_off fd = entry_off fd.
Proof.
  intros Hfd. unfold linux_fs_fd_byte_off, entry_off, FD_CAP_BOUND, LINUX_FS_FD_REGION_BASE, ENTRY_SIZE, PAGE_SIZE in *.
  rewrite (uw_small 64 fd), uw_small by lia. done.
Qed.

Lemma table_byte_size_eq n : 0 ≤ n < FD_CAP_BOUND → linux_fs_table_byte_size n = entry_off n.
Proof.
  intros Hn. unfold linux_fs_table_byte_size. rewrite iw_small by (unfold FD_CAP_BOUND in *; lia).
  apply fd_byte_off_eq. lia.
Qed.

Lemma rep_hdr_length s cwd ents : table_rep s cwd ents →
  Z.of_nat (length (rep_hdr (FsHdr cwd (Z.of_nat (length ents))))) = HDR_SIZE
  ∧ unrep_hdr (rep_hdr (FsHdr cwd (Z.of_nat (length ents)))) = FsHdr cwd (Z.of_nat (length ents)).
Proof.
  intros Hr. destruct (hdr_roundtrip (FsHdr cwd (Z.of_nat (length ents)))); [..|done]; cbn.
  - apply Hr.
  - apply Hr.
  - pose proof (tr_cap _ _ _ Hr). unfold FD_CAP_BOUND in *. lia.
Qed.

Lemma entry_off_ge fd : 0 ≤ fd → 2 * PAGE_SIZE ≤ entry_off fd.
Proof. intros. unfold entry_off, LINUX_FS_FD_REGION_BASE, ENTRY_SIZE. lia. Qed.

Lemma entry_off_mono a b : a ≤ b → entry_off a ≤ entry_off b.
Proof. unfold entry_off, ENTRY_SIZE. lia. Qed.

Lemma entry_off_S a : entry_off (a + 1) = entry_off a + ENTRY_SIZE.
Proof. unfold entry_off, ENTRY_SIZE. lia. Qed.

Lemma hdr_load_spec s cwd ents : table_rep s cwd ents →
  linux_fs_table_load s 0 HDR_SIZE
    = (REND_SUCCESS, rep_hdr (FsHdr cwd (Z.of_nat (length ents))))
  ∧ linux_fs_fd_capacity s = Z.of_nat (length ents).
Proof.
  intros Hr. destruct (rep_hdr_length s cwd ents Hr) as [Hl _].
  pose proof (tr_size _ _ _ Hr). pose proof (tr_cap _ _ _ Hr) as Hcap.
  pose proof (entry_off_ge (Z.of_nat (length ents)) ltac:(lia)).
  assert (HDR_SIZE ≤ 2 * PAGE_SIZE) by done. split.
  - rewrite <- Hl. apply load_spec; [lia| |lia|apply Hr].
    intros E. rewrite E in Hl. done.
  - unfold linux_fs_fd_capacity. fold (linux_fs_table_load s LINUX_FS_HDR_FD_CAPACITY_OFF 4).
    change 4 with (Z.of_nat (length (le32 (Z.of_nat (length ents))))).
    rewrite load_spec; [|done|done|unfold LINUX_FS_HDR_FD_CAPACITY_OFF, HDR_SIZE, PAGE_SIZE in *; cbn; lia|].
    + rewrite <- (app_nil_r (le32 _)). apply le32_roundtrip. unfold FD_CAP_BOUND in *. lia.
    + intros k Hk. cbn in Hk.
      assert (length (rep_str VFS_PATH_MAX cwd) = VFS_PATH_MAX) as Hrs.
      { apply rep_str_length. pose proof (cw_len cwd (tr_cwd _ _ _ Hr)). lia. }
      pose proof (tr_hdr _ _ _ Hr (VFS_PATH_MAX + k)%nat) as Hb. unfold rep_hdr in Hb. cbn [hdr_cwd hdr_fd_capacity] in Hb.
      rewrite lookup_app_r, Hrs in Hb by (rewrite Hrs; lia).
      replace (VFS_PATH_MAX + k - VFS_PATH_MAX)%nat with k in Hb by lia.
      rewrite <- Hb by (rewrite length_app, Hrs; cbn; lia). f_equal.
      unfold LINUX_FS_HDR_FD_CAPACITY_OFF, VFS_PATH_MAX. lia.
Qed.

Lemma entry_load_spec s cwd ents (fd : nat) e : table_rep s cwd ents → ents !! fd = Some e →
  linux_fs_entry_load s (Z.of_nat fd) = Some e.
Proof.
  intros Hr He. destruct (tr_ents _ _ _ Hr fd e He) as [Hwf Hb].
  pose proof (lookup_lt_Some _ _ _ He) as Hlt. pose proof (tr_cap _ _ _ Hr) as Hcap.
  pose proof (tr_size _ _ _ Hr). pose proof (rep_entry_length e Hwf) as Hl.
  unfold linux_fs_entry_load. destruct (Z.ltb_spec (Z.of_nat fd) 0); [lia|].
  rewrite fd_byte_off_eq by lia. rewrite <- Hl.
  pose proof (entry_off_mono (Z.of_nat fd + 1) (Z.of_nat (length ents)) ltac:(lia)).
  rewrite entry_off_S in *. pose proof (entry_off_ge (Z.of_nat fd) ltac:(lia)).
  rewrite load_spec; [|unfold PAGE_SIZE in *; lia| |lia|done].
  - by rewrite entry_roundtrip.
  - intros E. rewrite E in Hl. done.
Qed.

Lemma bytes_at_other s s' off off' l l' :
  bytes_at s off l →
  (∀ i, slice_byte s' i =
     if decide (off' ≤ i < off' + Z.of_nat (length l')) then l' !! Z.to_nat (i - off')
     else slice_byte s i) →
  off + Z.of_nat (length l) ≤ off' ∨ off' + Z.of_nat (length l') ≤ off →
  bytes_at s' off l.
Proof. intros Hb Hs Hd k Hk. rewrite Hs, decide_False by lia. by apply Hb. Qed.

Lemma bytes_at_same s s' off l :
  (∀ i, slice_byte s' i =
     if decide (off ≤ i < off + Z.of_nat (length l)) then l !! Z.to_nat (i - off)
     else slice_byte s i) → bytes_at s' off l.
Proof. intros Hs k Hk. rewrite Hs, decide_True by lia. f_equal. lia. Qed.

Lemma full_same s s' : same_pages s s' → slice_full s → slice_full s'.
Proof. intros (Hsz & _ & Hm) Hf p. rewrite Hsz, Hm. apply Hf. Qed.

(** Storing an entry replaces it and nothing else. *)
Lemma entry_store_spec al s cwd ents (fd : nat) e :
  table_rep s cwd ents → (fd < length ents)%nat → entry_wf e →
  ∃ s', linux_fs_entry_store al s (Z.of_nat fd) e = (REND_SUCCESS, s')
    ∧ table_rep s' cwd (<[fd := e]> ents) ∧ same_pages s s'.
Proof.
  intros Hr Hfd He. pose proof (tr_cap _ _ _ Hr) as Hcap. pose proof (rep_entry_length e He) as Hl.
  pose proof (entry_off_mono (Z.of_nat fd + 1) (Z.of_nat (length ents)) ltac:(lia)) as Hmono.
  rewrite entry_off_S in Hmono. pose proof (entry_off_ge (Z.of_nat fd) ltac:(lia)) as Hge.
  unfold linux_fs_entry_store. destruct (Z.ltb_spec (Z.of_nat fd) 0); [lia|].
  rewrite fd_byte_off_eq by lia.
  destruct (slice_store_spec al s (entry_off (Z.of_nat fd)) (rep_entry e)) as (s' & E & Hsame & Hb).
  { apply Hr. } { unfold PAGE_SIZE in *; lia. } { intros E0. rewrite E0 in Hl. done. }
  { intros i Hi. apply (tr_mapped _ _ _ Hr). unfold PAGE_SIZE in *. lia. }
  exists s'. split_and!; [done| |done]. destruct Hsame as (Hsz & Hl' & Hm').
  split; rewrite ?length_insert.
  - done.
  - done.
  - rewrite Hsz. apply Hr.
  - intros i Hi. apply Hm'. by apply (tr_mapped _ _ _ Hr).
  - apply Hr.
  - eapply bytes_at_other; [apply Hr|exact Hb|]. left.
    destruct (rep_hdr_length s cwd ents Hr) as [-> _]. assert (HDR_SIZE ≤ 2 * PAGE_SIZE) by done. lia.
  - intros fd' e' [(-> & -> & _)|[Hne He']]%list_lookup_insert_Some.
    + split; [done|]. by apply (bytes_at_same s).
    + destruct (tr_ents _ _ _ Hr fd' e' He') as [Hwf' Hb']. split; [done|].
      eapply bytes_at_other; [exact Hb'|exact Hb|]. rewrite Hl, (rep_entry_length e' Hwf').
      unfold entry_off, ENTRY_SIZE. lia.
  - intros i x Hi. rewrite Hb, decide_False by lia. by apply (tr_zero _ _ _ Hr).
Qed.

Lemma more_pages_bytes s s' i x :
  more_pages s s' → pages_len s → slice_byte s' i = Some x →
  slice_byte s i = Some x ∨ x = 0.
Proof.
  intros [_ Hm] Hl. unfold slice_byte. destruct (Hm (i `div` PAGE_SIZE)) as [->|[_ ->]]; [by left|].
  cbn. intros [-> _]%lookup_replicate. by right.
Qed.

Lemma more_pages_len s s' : more_pages s s' → pages_len s → pages_len s'.
Proof.
  intros [_ Hm] Hl p pg Hpg. destruct (Hm p) as [E|[_ E]].
  - rewrite E in Hpg. by apply (Hl p).
  - rewrite E in Hpg. injection Hpg as <-. unfold zero_page. rewrite length_replicate. done.
Qed.

(** [s'] extends [s]: its mapped bytes are the same, or new and zero. *)
Definition extends s s' : Prop :=
  pages_len s'
  ∧ (∀ p, 0 ≤ p → page_mapped s p → page_slice_lookup s' p = page_slice_lookup s p)
  ∧ (∀ i x, slice_byte s' i = Some x → slice_byte s i = Some x ∨ x = 0).

Lemma extends_bytes s s' off l :
  extends s s' → 0 ≤ off → bytes_at s off l →
  (∀ i, off ≤ i < off + Z.of_nat (length l) → page_mapped s (i `div` PAGE_SIZE)) →
  bytes_at s' off l.
Proof.
  intros (_ & Hp & _) Hoff Hb Hm k Hk. rewrite <- Hb by done. unfold slice_byte.
  rewrite Hp; [done|apply Z.div_pos; unfold PAGE_SIZE; lia|apply Hm; lia].
Qed.

Lemma extends_rep s s' cwd ents :
  table_rep s cwd ents → extends s s' →
  entry_off (Z.of_nat (length ents)) ≤ page_slice_get_size s' → table_rep s' cwd ents.
Proof.
  intros Hr Hex Hsz. pose proof Hex as (Hl & Hp & Hz). pose proof (tr_cap _ _ _ Hr) as Hcap.
  pose proof (entry_off_ge (Z.of_nat (length ents)) ltac:(lia)) as Hge.
  assert (HDR_SIZE ≤ 2 * PAGE_SIZE) by done. split; try done.
  - intros i Hi. pose proof (tr_mapped _ _ _ Hr i Hi) as Hm. unfold page_mapped.
    rewrite Hp; [exact Hm|apply Z.div_pos; unfold PAGE_SIZE; lia|exact Hm].
  - apply Hr.
  - eapply extends_bytes; [done|lia|apply Hr|]. intros i Hi. apply (tr_mapped _ _ _ Hr).
    destruct (rep_hdr_length s cwd ents Hr) as [El _]. rewrite El in Hi. lia.
  - intros fd e He. destruct (tr_ents _ _ _ Hr fd e He) as [Hwf Hb]. split; [done|].
    pose proof (lookup_lt_Some _ _ _ He) as Hlt.
    pose proof (entry_off_mono (Z.of_nat fd + 1) (Z.of_nat (length ents)) ltac:(lia)) as Hmono.
    rewrite entry_off_S in Hmono. pose proof (entry_off_ge (Z.of_nat fd) ltac:(lia)).
    eapply extends_bytes; [done|unfold PAGE_SIZE in *; lia|done|]. intros i Hi.
    apply (tr_mapped _ _ _ Hr). rewrite (rep_entry_length e Hwf) in Hi. unfold PAGE_SIZE in *. lia.
  - intros i x Hi Hx. destruct (Hz i x Hx) as [Hx'|]; [|done]. by apply (tr_zero _ _ _ Hr i).
Qed.

Lemma slice_same_extends s s' : pages_len s → slice_same s s' → extends s s'.
Proof.
  intros Hl [_ Hp]. split_and!.
  - intros p pg. rewrite Hp. apply Hl.
  - intros p _ _. apply Hp.
  - intros i x. unfold slice_byte. rewrite Hp. by left.
Qed.

Lemma pages_cover n i : 0 ≤ i < n → 0 ≤ i `div` PAGE_SIZE < PAGE_SLICE_SIZE_TO_PAGE_COUNT n.
Proof.
  intros Hi. unfold PAGE_SLICE_SIZE_TO_PAGE_COUNT, PAGE_SIZE in *. split; [apply Z.div_pos; lia|].
  apply Z.div_lt_upper_bound; [lia|]. pose proof (Z.mul_succ_div_gt (n + 4096 - 1) 4096). lia.
Qed.

Lemma page_count_mono a b : a ≤ b →
  PAGE_SLICE_SIZE_TO_PAGE_COUNT a ≤ PAGE_SLICE_SIZE_TO_PAGE_COUNT b.
Proof. intros. unfold PAGE_SLICE_SIZE_TO_PAGE_COUNT, PAGE_SIZE. apply Z.div_le_mono; lia. Qed.

Lemma rep_zero_entry : rep_entry zero_rec = replicate (Z.to_nat ENTRY_SIZE) 0.
Proof. vm_compute. reflexivity. Qed.

Lemma zero_entry_wf : entry_wf zero_rec.
Proof. split; cbn; unfold VFS_PATH_MAX; try lia. apply not_elem_of_nil. Qed.

(** Zeroed entries behind the last one. *)
Lemma zero_entry_at s (fd : nat) c :
  0 ≤ c ≤ Z.of_nat fd →
  (∀ i, entry_off (Z.of_nat fd) ≤ i < entry_off (Z.of_nat fd) + ENTRY_SIZE → is_Some (slice_byte s i)) →
  (∀ i x, entry_off c ≤ i → slice_byte s i = Some x → x = 0) →
  bytes_at s (entry_off (Z.of_nat fd)) (rep_entry zero_rec).
Proof.
  intros Hc Hm Hz k Hk. rewrite rep_zero_entry, length_replicate in *.
  rewrite lookup_replicate_2 by done.
  destruct (Hm (entry_off (Z.of_nat fd) + Z.of_nat k)) as [x Hx]; [unfold ENTRY_SIZE in *; lia|].
  rewrite Hx. f_equal. apply (Hz (entry_off (Z.of_nat fd) + Z.of_nat k)); [|done].
  pose proof (entry_off_mono c (Z.of_nat fd) ltac:(lia)). lia.
Qed.

(** Writing a header with capacity [n]: with the pages there, the table has
    [n] entries, the new ones zeroed. *)
Lemma hdr_store_spec al s cwd ents n :
  pages_len s → cwd_wf cwd →
  (∀ (fd : nat) e, ents !! fd = Some e →
     entry_wf e ∧ bytes_at s (entry_off (Z.of_nat fd)) (rep_entry e)) →
  (∀ i x, entry_off (Z.of_nat (length ents)) ≤ i → slice_byte s i = Some x → x = 0) →
  0 < n < FD_CAP_BOUND → Z.of_nat (length ents) ≤ n →
  entry_off n ≤ page_slice_get_size s →
  (∀ i, 0 ≤ i < entry_off n → page_mapped s (i `div` PAGE_SIZE)) →
  ∃ s', linux_fs_hdr_store al s (FsHdr cwd n) = (REND_SUCCESS, s') ∧ same_pages s s'
    ∧ table_rep s' cwd (ents ++ replicate (Z.to_nat n - length ents) zero_rec).
Proof.
  intros Hlen Hcwd Hents Hzero Hn Hle Hsz Hm. pose proof (entry_off_ge n ltac:(lia)) as Hge.
  destruct (hdr_roundtrip (FsHdr cwd n)) as [_ Hl]; [apply Hcwd..|cbn; unfold FD_CAP_BOUND in *; lia|].
  assert (HDR_SIZE ≤ 2 * PAGE_SIZE) as Hh by done.
  destruct (slice_store_spec al s 0 (rep_hdr (FsHdr cwd n))) as (s' & E & Hsame & Hb).
  { done. } { lia. } { intros E0. rewrite E0 in Hl. done. }
  { intros i Hi. apply Hm. lia. }
  exists s'. split_and!; [done..|]. destruct Hsame as (Hsz' & Hl' & Hm').
  pose proof (entry_off_ge (Z.of_nat (length ents)) ltac:(lia)) as Hge0.
  assert (∀ i, HDR_SIZE ≤ i → slice_byte s' i = slice_byte s i) as Hrest.
  { intros i Hi. by rewrite Hb, decide_False by lia. }
  split; rewrite ?length_app, ?length_replicate;
    replace (Z.of_nat (length ents + (Z.to_nat n - length ents))) with n by lia; try done.
  - by rewrite Hsz'.
  - intros i Hi. apply Hm'. by apply Hm.
  - by apply (bytes_at_same s).
  - intros fd e [He|(Hfd & [-> Hlt]%lookup_replicate)]%lookup_app_Some.
    + destruct (Hents fd e He) as [Hwf He2]. split; [done|]. intros k Hk.
      rewrite Hrest; [by apply He2|]. pose proof (entry_off_ge (Z.of_nat fd) ltac:(lia)). lia.
    + split; [apply zero_entry_wf|]. apply (zero_entry_at s' fd (Z.of_nat (length ents))); [lia| |].
      * intros i Hi. apply byte_mapped; [done|]. apply Hm', Hm.
        pose proof (entry_off_mono (Z.of_nat fd + 1) n ltac:(lia)) as Hmono. rewrite entry_off_S in Hmono.
        pose proof (entry_off_ge (Z.of_nat fd) ltac:(lia)). unfold PAGE_SIZE in *. lia.
      * intros i x Hi. rewrite Hrest by lia. by apply Hzero.
  - intros i x Hi. rewrite Hrest by lia. apply Hzero.
    pose proof (entry_off_mono (Z.of_nat (length ents)) n ltac:(lia)). lia.
Qed.

Lemma set_size_extends s n s' cwd ents :
  table_rep s cwd ents → page_slice_set_size s n = (REND_SUCCESS, s') →
  pages_len s' ∧ (∀ p, 0 ≤ p < PAGE_SLICE_SIZE_TO_PAGE_COUNT n →
                    page_slice_lookup s' p = page_slice_lookup s p)
  ∧ (∀ i x, slice_byte s' i = Some x → slice_byte s i = Some x).
Proof.
  intros Hr E. split_and!.
  - intros p pg Hpg. apply (tr_len _ _ _ Hr p). by eapply set_size_sub.
  - intros p Hp. by eapply set_size_keeps.
  - intros i x. unfold slice_byte.
    destruct (page_slice_lookup s' (i `div` PAGE_SIZE)) as [pg|] eqn:El; [|done].
    by rewrite (set_size_sub _ _ _ _ _ E El).
Qed.

Lemma resize_rep s cwd ents n s1 e2 s2 al :
  table_rep s cwd ents → slice_full s → Z.of_nat (length ents) < n →
  page_slice_set_size s (entry_off n) = (REND_SUCCESS, s1) →
  fs_ensure_range al s1 (PAGE_SLICE_SIZE_TO_PAGE_COUNT (page_slice_get_size s))
    (Z.to_nat (PAGE_SLICE_SIZE_TO_PAGE_COUNT (entry_off n)
               - PAGE_SLICE_SIZE_TO_PAGE_COUNT (page_slice_get_size s))) = (e2, s2) →
  page_slice_get_size s2 = entry_off n ∧ table_rep s2 cwd ents
  ∧ (e2 = REND_SUCCESS → slice_full s2).
Proof.
  intros Hr Hfull Hn E1 E2. destruct (set_size_extends s _ s1 cwd ents Hr E1) as (Hl1 & Hp1 & Hb1).
  destruct (fs_ensure_range_spec _ _ _ _ _ _ E2) as [[Hsz2 Hm2] Hs2].
  pose proof (set_size_size _ _ _ E1) as Hsz1. pose proof (tr_cap _ _ _ Hr) as Hcap.
  pose proof (entry_off_mono (Z.of_nat (length ents)) n ltac:(lia)) as Hmono.
  split; [congruence|]. split.
  - (* only pages below the old capacity matter *)
    pose proof (more_pages_len s1 s2 (conj Hsz2 Hm2) Hl1) as Hl2.
    assert (∀ i, 0 ≤ i < entry_off (Z.of_nat (length ents)) →
      page_slice_lookup s2 (i `div` PAGE_SIZE) = page_slice_lookup s (i `div` PAGE_SIZE)) as Hkeep.
    { intros i Hi. pose proof (pages_cover (entry_off n) i ltac:(lia)) as Hpc.
      destruct (tr_mapped _ _ _ Hr i Hi) as [pg Hpg]. rewrite <- (Hp1 _ Hpc) in Hpg |- *.
      destruct (Hm2 (i `div` PAGE_SIZE)) as [->|[? _]]; [done|congruence]. }
    assert (HDR_SIZE ≤ 2 * PAGE_SIZE) by done.
    pose proof (entry_off_ge (Z.of_nat (length ents)) ltac:(lia)) as Hge.
    split; try done.
    + lia.
    + intros i Hi. unfold page_mapped. rewrite Hkeep by done. by apply (tr_mapped _ _ _ Hr).
    + apply Hr.
    + intros k Hk. rewrite <- (tr_hdr _ _ _ Hr k Hk). unfold slice_byte. rewrite Hkeep; [done|].
      destruct (rep_hdr_length s cwd ents Hr) as [El _]. lia.
    + intros fd e He. destruct (tr_ents _ _ _ Hr fd e He) as [Hwf Hb]. split; [done|].
      intros k Hk. rewrite <- (Hb k Hk). unfold slice_byte. rewrite Hkeep; [done|].
      pose proof (lookup_lt_Some _ _ _ He) as Hlt. pose proof (rep_entry_length e Hwf).
      pose proof (entry_off_mono (Z.of_nat fd + 1) (Z.of_nat (length ents)) ltac:(lia)) as Hm3.
      rewrite entry_off_S in Hm3. pose proof (entry_off_ge (Z.of_nat fd) ltac:(lia)).
      unfold PAGE_SIZE in *. lia.
    + intros i x Hi Hx. destruct (more_pages_bytes s1 s2 i x (conj Hsz2 Hm2) Hl1 Hx) as [Hx1|]; [|done].
      apply Hb1 in Hx1. by apply (tr_zero _ _ _ Hr i).
  - intros He p Hp. rewrite Hsz2, Hsz1 in Hp.
    destruct (decide (p < PAGE_SLICE_SIZE_TO_PAGE_COUNT (page_slice_get_size s))).
    + destruct (Hfull p ltac:(lia)) as [pg Hpg]. rewrite <- (Hp1 p) in Hpg by lia.
      destruct (Hm2 p) as [Eq|[? _]]; [|congruence]. unfold page_mapped. rewrite Eq. by eexists.
    + apply (Hs2 He). lia.
Qed.

Lemma grow_fd_cap_spec al s cwd ents n e s' :
  table_rep s cwd ents → slice_full s → 0 < n < FD_CAP_BOUND →
  linux_fs_grow_fd_cap al s n = (e, s') →
  (n ≤ Z.of_nat (length ents) → e = REND_SUCCESS ∧ s' = s)
  ∧ (Z.of_nat (length ents) < n →
       (e = REND_SUCCESS →
          slice_full s' ∧ table_rep s' cwd (ents ++ replicate (Z.to_nat n - length ents) zero_rec))
       ∧ (e ≠ REND_SUCCESS → table_rep s' cwd ents)).
Proof.
  intros Hr Hfull Hn. unfold linux_fs_grow_fd_cap.
  rewrite (proj2 (Z.eqb_neq n 0)) by lia.
  destruct (hdr_load_spec s cwd ents Hr) as [-> _]. cbv zeta.
  destruct (rep_hdr_length s cwd ents Hr) as [_ ->]. cbn [hdr_fd_capacity hdr_cwd].
  destruct (Z.leb_spec n (Z.of_nat (length ents))) as [Hle|Hgt].
  { intros [= <- <-]. split; [done|lia]. }
  rewrite table_byte_size_eq by lia.
  destruct (page_slice_set_size s (entry_off n)) as [e1 s1] eqn:E1.
  destruct (decide (e1 = REND_SUCCESS)) as [->|He1].
  2:{ assert (table_rep s1 cwd ents) as Hr1.
      { destruct (set_size_fail _ _ _ _ E1 He1) as [Hsz Hp].
        apply (extends_rep s); [done|apply slice_same_extends; [apply Hr|done]|].
        rewrite Hsz. apply Hr. }
      destruct e1; [done|..]; intros [= <- <-]; (split; [lia|]); intros _; by split. }
  destruct (fs_ensure_range al s1 _ _) as [e2 s2] eqn:E2.
  destruct (resize_rep s cwd ents n s1 e2 s2 al Hr Hfull Hgt E1 E2) as (Hsz2 & Hr2 & Hf2).
  destruct (decide (e2 = REND_SUCCESS)) as [->|He2].
  - specialize (Hf2 eq_refl).
    destruct (hdr_store_spec al s2 cwd ents n) as (s3 & -> & Hsame & Hr3);
      [apply Hr2|apply Hr2|apply Hr2|apply Hr2|lia|lia|lia| |].
    { intros i Hi. apply Hf2. rewrite Hsz2. apply pages_cover. lia. }
    intros [= <- <-]. split; [lia|]. intros _. split; [|done]. intros _. split; [|done].
    by eapply full_same.
  - destruct e2; [done|..]; intros [= <- <-]; (split; [lia|]); intros _; by split.
Qed.

Lemma table_create_spec al n e o :
  0 < n < FD_CAP_BOUND → linux_fs_table_create al n = (e, o) → e = REND_SUCCESS →
  ∃ s, o = Some s ∧ table_rep s [slash] (replicate (Z.to_nat n) zero_rec) ∧ slice_full s.
Proof.
  intros Hn E ->. unfold linux_fs_table_create in E. rewrite (proj2 (Z.eqb_neq n 0)) in E by lia.
  rewrite table_byte_size_eq in E by lia.
  destruct (page_slice_create 0 (entry_off n)) as [s0|] eqn:Ec; [|done]. cbv zeta in E.
  destruct (create_empty _ _ _ Ec) as [Hsz0 Hno].
  destruct (fs_ensure_range al s0 0 _) as [e1 s1] eqn:E1.
  destruct (fs_ensure_range_spec _ _ _ _ _ _ E1) as [[Hsz1 Hm1] Hs1]. destruct e1; try done.
  assert (∀ p pg, page_slice_lookup s1 p = Some pg → pg = zero_page) as Hz.
  { intros p pg Hpg. destruct (Hm1 p) as [Eq|[_ Eq]]; rewrite Eq in Hpg; [by rewrite Hno in Hpg|congruence]. }
  assert (slice_full s1) as Hf1.
  { intros p Hp. apply Hs1; [done|]. rewrite Hsz1 in Hp. lia. }
  destruct (hdr_store_spec al s1 [slash] [] n) as (s2 & E2 & Hsame & Hr2).
  - intros p pg ->%Hz. unfold zero_page. by rewrite length_replicate.
  - split; [cbn; unfold VFS_PATH_MAX; lia|]. by intros [?|?%not_elem_of_nil]%elem_of_cons.
  - done.
  - intros i x _. unfold slice_byte.
    destruct (page_slice_lookup s1 (i `div` PAGE_SIZE)) as [pg|] eqn:El; [|done].
    apply Hz in El as ->. cbn. by intros [-> _]%lookup_replicate.
  - done.
  - cbn. lia.
  - lia.
  - intros i Hi. apply Hf1. rewrite Hsz1, Hsz0. apply pages_cover. lia.
  - rewrite E2 in E. injection E as <-. exists s2. split_and!; [done| |by eapply full_same].
    by rewrite Nat.sub_0_r in Hr2.
Qed.

Lemma cwd_spec s cwd ents : table_rep s cwd ents → linux_fs_cwd s = cwd.
Proof.
  intros Hr. pose proof (tr_cwd _ _ _ Hr) as [Hl Hn]. unfold linux_fs_cwd.
  assert (length (rep_str VFS_PATH_MAX cwd) = VFS_PATH_MAX) as Hrs by (apply rep_str_length; lia).
  rewrite <- Hrs at 1. rewrite load_spec.
  - rewrite <- (un_str_rep cwd VFS_PATH_MAX []) at 2 by done. rewrite app_nil_r.
    rewrite (take_ge (rep_str _ _)) by lia.
    replace (un_str (rep_str VFS_PATH_MAX cwd)) with cwd.
    + apply take_ge. lia.
    + rewrite <- (un_str_rep cwd VFS_PATH_MAX []) at 1 by done.
      by rewrite app_nil_r, take_ge by lia.
  - done.
  - intros E. by rewrite E in Hrs.
  - rewrite Hrs. pose proof (tr_size _ _ _ Hr). pose proof (tr_cap _ _ _ Hr).
    pose proof (entry_off_ge (Z.of_nat (length ents)) ltac:(lia)).
    unfold VFS_PATH_MAX, PAGE_SIZE in *. lia.
  - intros k Hk. rewrite (tr_hdr _ _ _ Hr k); unfold rep_hdr; cbn [hdr_cwd].
    + by rewrite lookup_app_l by lia.
    + rewrite length_app. lia.
Qed.

Lemma set_cwd_spec al s cwd ents c :
  table_rep s cwd ents → zero ∉ c →
  table_rep (linux_fs_set_cwd al s (Some c)) (take (VFS_PATH_MAX - 1) c) ents
  ∧ same_pages s (linux_fs_set_cwd al s (Some c)).
Proof.
  intros Hr Hc. unfold linux_fs_set_cwd, linux_fs_hdr_load.
  destruct (hdr_load_spec s cwd ents Hr) as [-> _].
  destruct (rep_hdr_length s cwd ents Hr) as [_ ->]. cbn [hdr_fd_capacity]. unfold strncpy_term.
  destruct (hdr_store_spec al s (take (VFS_PATH_MAX - 1) c) ents (Z.of_nat (length ents)))
    as (s' & -> & Hsame & Hr'); try apply Hr; try done.
  - split.
    + rewrite length_take. unfold VFS_PATH_MAX. lia.
    + intros Hin. apply Hc. by apply elem_of_take in Hin as (k & Hk%list_elem_of_lookup_2 & _).
  - split; [|done]. cbn. rewrite Nat2Z.id, Nat.sub_diag in Hr'. cbn in Hr'. by rewrite app_nil_r in Hr'.
Qed.

Lemma clone_spec s s' cwd ents :
  table_rep s cwd ents → page_slice_clone s = (REND_SUCCESS, s') →
  table_rep s' cwd ents ∧ (slice_full s → slice_full s').
Proof.
  intros Hr Hc. pose proof (clone_ok _ _ Hc) as [Hsz Hp]. split.
  - apply (extends_rep s); [done|apply slice_same_extends; [apply Hr|done]|]. rewrite Hsz. apply Hr.
  - intros Hf p. rewrite Hsz. unfold page_mapped. rewrite Hp. apply Hf.
Qed.
End table.

(** ** The interface of the descriptor operations *)

Class FdStore (F : Type) : Type := {
  fds_capacity : F → Z;
  fds_load : F → Z → option linux_fd_entry;
  fds_store : alloc_oracle → F → Z → linux_fd_entry → error_t * F;
  fds_grow : alloc_oracle → F → Z → error_t * F;
  fds_cwd : F → cstr;
  fds_set_cwd : alloc_oracle → F → ptr cstr → F;
  fds_create : alloc_oracle → Z → error_t * ptr F;
  fds_clone : F → error_t * F;
}.

(** [fds_rep f cwd l]: [f] holds the working directory [cwd] and the entries
    [l]; [fds_full f]: no growth of [f] ran out of memory. *)
Class FdStoreLaws (F : Type) `{FS : FdStore F} : Type := {
  fds_rep : F → cstr → list linux_fd_entry → Prop;
  fds_full : F → Prop;
  fds_cap_law f cwd l : fds_rep f cwd l →
    fds_capacity f = Z.of_nat (length l) ∧ 0 < Z.of_nat (length l) < FD_CAP_BOUND;
  fds_wf_law f cwd l : fds_rep f cwd l → Forall entry_wf l;
  fds_load_law f cwd l (fd : nat) e :
    fds_rep f cwd l → l !! fd = Some e → fds_load f (Z.of_nat fd) = Some e;
  fds_store_law al f cwd l (fd : nat) e :
    fds_rep f cwd l → (fd < length l)%nat → entry_wf e →
    ∃ f', fds_store al f (Z.of_nat fd) e = (REND_SUCCESS, f')
      ∧ fds_rep f' cwd (<[fd := e]> l) ∧ (fds_full f → fds_full f');
  fds_grow_law al f cwd l n e f' :
    fds_rep f cwd l → fds_full f → 0 < n < FD_CAP_BOUND → fds_grow al f n = (e, f') →
    (n ≤ Z.of_nat (length l) → e = REND_SUCCESS ∧ f' = f)
    ∧ (Z.of_nat (length l) < n →
         (e = REND_SUCCESS →
            fds_full f' ∧ fds_rep f' cwd (l ++ replicate (Z.to_nat n - length l) zero_rec))
         ∧ (e ≠ REND_SUCCESS → fds_rep f' cwd l));
  fds_cwd_law f cwd l : fds_rep f cwd l → fds_cwd f = cwd ∧ cwd_wf cwd;
  fds_set_cwd_law al f cwd l c :
    fds_rep f cwd l → zero ∉ c →
    fds_rep (fds_set_cwd al f (Some c)) (take (VFS_PATH_MAX - 1) c) l
    ∧ (fds_full f → fds_full (fds_set_cwd al f (Some c)));
  fds_create_law al n e o :
    0 < n < FD_CAP_BOUND → fds_create al n = (e, o) → e = REND_SUCCESS →
    ∃ f, o = Some f ∧ fds_rep f [slash] (replicate (Z.to_nat n) zero_rec) ∧ fds_full f;
  fds_clone_law f f' cwd l :
    fds_rep f cwd l → fds_clone f = (REND_SUCCESS, f') →
    fds_rep f' cwd l ∧ (fds_full f → fds_full f');
}.

Section instance.
Context `{PSC : PageSliceCopy}.

#[global] Instance slice_fd_store : FdStore page_slice := {
  fds_capacity := linux_fs_fd_capacity;
  fds_load := linux_fs_entry_load;
  fds_store := linux_fs_entry_store;
  fds_grow := linux_fs_grow_fd_cap;
  fds_cwd := linux_fs_cwd;
  fds_set_cwd := linux_fs_set_cwd;
  fds_create := linux_fs_table_create;
  fds_clone := page_slice_clone;
}.

Context {PSL : PageSliceLaws (list Z)} {PCL : PageSliceCopyLaws}.

#[global] Instance slice_fd_store_laws : FdStoreLaws page_slice.
Proof.
  refine {| fds_rep := table_rep; fds_full := slice_full |}; cbn.
  - intros f cwd l Hr. split; [by destruct (hdr_load_spec f cwd l Hr)|apply Hr].
  - intros f cwd l Hr. apply Forall_lookup. intros fd e He. by destruct (tr_ents _ _ _ Hr fd e He).
  - intros f cwd l fd e. apply entry_load_spec.
  - intros al f cwd l fd e Hr Hfd He.
    destruct (entry_store_spec al f cwd l fd e Hr Hfd He) as (f' & ? & ? & ?). exists f'.
    split_and!; [done..|]. by apply full_same.
  - intros al f cwd l n e f'. apply grow_fd_cap_spec.
  - intros f cwd l Hr. split; [by apply (cwd_spec f cwd l)|apply Hr].
  - intros al f cwd l c Hr Hc. destruct (set_cwd_spec al f cwd l c Hr Hc) as [? ?].
    split; [done|]. by apply full_same.
  - intros al n e o. apply table_create_spec.
  - intros f f' cwd l. apply clone_spec.
Defined.
End instance.

(** ** Properties *)

Section properties.
Context `{PSC : PageSliceCopy} {PSL : PageSliceLaws (list Z)} {PCL : PageSliceCopyLaws}.
Implicit Types (s : page_slice).

(** Storing a descriptor entry: the entry is read back, field by field,
    from the bytes written (across page boundaries too), and no other
    entry, the working directory or the capacity changes. *)
Theorem fd_entry_store_load al s cwd ents (fd : nat) e :
  table_rep s cwd ents → (fd < length ents)%nat → entry_wf e →
  ∃ s', linux_fs_entry_store al s (Z.of_nat fd) e = (REND_SUCCESS, s')
    ∧ linux_fs_entry_load s' (Z.of_nat fd) = Some e
    ∧ (∀ fd' : nat, fd' ≠ fd → (fd' < length ents)%nat →
         linux_fs_entry_load s' (Z.of_nat fd') = linux_fs_entry_load s (Z.of_nat fd'))
    ∧ linux_fs_cwd s' = linux_fs_cwd s
    ∧ linux_fs_fd_capacity s' = linux_fs_fd_capacity s.
Proof.
  intros Hr Hfd He. destruct (entry_store_spec al s cwd ents fd e Hr Hfd He) as (s' & E & Hr' & _).
  exists s'. split_and!; [done|..].
  - apply (entry_load_spec s' cwd (<[fd := e]> ents)); [done|]. by apply list_lookup_insert_eq.
  - intros fd' Hne Hlt. destruct (lookup_lt_is_Some_2 ents fd' Hlt) as [e' He'].
    rewrite (entry_load_spec s cwd ents fd' e' Hr He').
    apply (entry_load_spec s' cwd (<[fd := e]> ents)); [done|]. by rewrite list_lookup_insert_ne.
  - by rewrite (cwd_spec s cwd ents Hr), (cwd_spec s' cwd _ Hr').
  - destruct (hdr_load_spec s cwd ents Hr) as [_ ->].
    destruct (hdr_load_spec s' cwd _ Hr') as [_ ->]. by rewrite length_insert.
Qed.

Lemma fs_ensure_range_refused al s from n p0 :
  al p0 = false → page_slice_lookup s p0 = None →
  page_slice_lookup (fs_ensure_range al s from n).2 p0 = None.
Proof.
  intros Hal. revert s from. induction n as [|n IH]; intros s from Hp; cbn [fs_ensure_range]; [done|].
  destruct (linux_fs_ensure_pgoff al s from) as [e1 s1] eqn:E1.
  assert (page_slice_lookup s1 p0 = None) as Hp1.
  { unfold linux_fs_ensure_pgoff in E1. destruct (page_slice_lookup s from) eqn:El.
    { by injection E1 as <- <-. }
    destruct (al from) eqn:Ea; [|by injection E1 as <- <-].
    assert (p0 ≠ from) as Hne by congruence.
    destruct (decide (e1 = REND_SUCCESS)) as [->|He].
    - destruct (insert_ok _ _ _ _ E1) as (_ & _ & Ho). by rewrite Ho.
    - destruct (insert_fail _ _ _ _ _ E1 He) as [_ Ho]. by rewrite Ho. }
  destruct e1; [by apply IH|done..].
Qed.

(** A header store needs the first page only. *)
Lemma hdr_store_capacity al s cwd n :
  pages_len s → cwd_wf cwd → 0 < n < FD_CAP_BOUND → page_mapped s 0 →
  HDR_SIZE ≤ page_slice_get_size s →
  ∃ s', linux_fs_hdr_store al s (FsHdr cwd n) = (REND_SUCCESS, s') ∧ same_pages s s'
    ∧ linux_fs_fd_capacity s' = n.
Proof.
  intros Hlen Hcwd Hn Hm Hsz.
  destruct (hdr_roundtrip (FsHdr cwd n)) as [_ Hl]; [apply Hcwd..|cbn; unfold FD_CAP_BOUND in *; lia|].
  destruct (slice_store_spec al s 0 (rep_hdr (FsHdr cwd n))) as (s' & E & Hsame & Hb).
  { done. } { lia. } { intros E0. rewrite E0 in Hl. done. }
  { intros i Hi. rewrite Hl in Hi. unfold HDR_SIZE, PAGE_SIZE in *. by rewrite Z.div_small by lia. }
  exists s'. split_and!; [done..|]. unfold linux_fs_fd_capacity.
  fold (linux_fs_table_load s' LINUX_FS_HDR_FD_CAPACITY_OFF 4).
  change 4 with (Z.of_nat (length (le32 n))). destruct Hsame as (Hsz' & _).
  rewrite load_spec; [|done|done|rewrite Hsz'; unfold LINUX_FS_HDR_FD_CAPACITY_OFF, HDR_SIZE in *; cbn; lia|].
  - rewrite <- (app_nil_r (le32 _)). apply le32_roundtrip. unfold FD_CAP_BOUND in *. lia.
  - intros k Hk. cbn in Hk.
    assert (length (rep_str VFS_PATH_MAX cwd) = VFS_PATH_MAX) as Hrs.
    { apply rep_str_length. pose proof (cw_len cwd Hcwd). lia. }
    rewrite Hb, decide_True by (rewrite Hl; unfold LINUX_FS_HDR_FD_CAPACITY_OFF, HDR_SIZE; lia).
    unfold rep_hdr. cbn [hdr_cwd hdr_fd_capacity].
    rewrite lookup_app_r by (rewrite Hrs; unfold LINUX_FS_HDR_FD_CAPACITY_OFF, VFS_PATH_MAX; lia).
    rewrite Hrs. f_equal. unfold LINUX_FS_HDR_FD_CAPACITY_OFF, VFS_PATH_MAX. lia.
Qed.

(** A growth that fails after the resize: the size stays enlarged. *)
Lemma failed_grow al s cwd ents n s0 e1 s1 :
  table_rep s cwd ents → slice_full s → Z.of_nat (length ents) < n < FD_CAP_BOUND →
  page_slice_set_size s (entry_off n) = (REND_SUCCESS, s0) →
  linux_fs_grow_fd_cap al s n = (e1, s1) → e1 ≠ REND_SUCCESS →
  table_rep s1 cwd ents ∧ page_slice_get_size s1 = entry_off n
  ∧ ∃ from k, s1 = (fs_ensure_range al s0 from k).2.
Proof.
  intros Hr Hfull Hn E0 E1 He1. unfold linux_fs_grow_fd_cap in E1.
  rewrite (proj2 (Z.eqb_neq n 0)) in E1 by lia.
  destruct (hdr_load_spec s cwd ents Hr) as [Eh _]. rewrite Eh in E1. cbv zeta in E1.
  destruct (rep_hdr_length s cwd ents Hr) as [_ Eu]. rewrite Eu in E1. cbn [hdr_fd_capacity hdr_cwd] in E1.
  rewrite (proj2 (Z.leb_gt _ _)), table_byte_size_eq, E0 in E1 by lia.
  destruct (fs_ensure_range al s0 _ _) as [e2 s2] eqn:E2.
  destruct (resize_rep s cwd ents n s0 e2 s2 al Hr Hfull ltac:(lia) E0 E2) as (Hsz2 & Hr2 & Hf2).
  destruct (decide (e2 = REND_SUCCESS)) as [->|He2].
  - specialize (Hf2 eq_refl). destruct (hdr_store_spec al s2 cwd ents n) as (s3 & E3 & _);
      [apply Hr2|apply Hr2|apply Hr2|apply Hr2|pose proof (tr_cap _ _ _ Hr); lia|lia|lia| |].
    { intros i Hi. apply Hf2. rewrite Hsz2. apply pages_cover. lia. }
    rewrite E3 in E1. congruence.
  - assert (s1 = s2) as -> by (destruct e2; simplify_eq; done).
    split_and!; [done..|]. eexists _, _. by rewrite E2.
Qed.

(** Growing after a failed growth: when the allocation of page [p0] fails
    while the table grows to [n] entries, the enlarged size is kept; a second
    attempt then reports success without mapping [p0], and the descriptors
    stored in that page are part of the table but have no memory. *)
Theorem grow_retry_leaves_hole al al' s cwd ents n p0 s0 e1 s1 :
  table_rep s cwd ents → slice_full s → Z.of_nat (length ents) < n < FD_CAP_BOUND →
  page_slice_set_size s (entry_off n) = (REND_SUCCESS, s0) →
  linux_fs_grow_fd_cap al s n = (e1, s1) → e1 ≠ REND_SUCCESS →
  al p0 = false → page_slice_lookup s p0 = None →
  ∃ s2, linux_fs_grow_fd_cap al' s1 n = (REND_SUCCESS, s2)
    ∧ linux_fs_fd_capacity s2 = n ∧ page_slice_lookup s2 p0 = None.
Proof.
  intros Hr Hfull Hn E0 E1 He1 Hal Hp0.
  destruct (failed_grow al s cwd ents n s0 e1 s1 Hr Hfull Hn E0 E1 He1)
    as (Hr1 & Hsz1 & from & k & Es1).
  pose proof (tr_cap _ _ _ Hr) as Hcap. pose proof (entry_off_ge n ltac:(lia)) as Hge.
  assert (page_slice_lookup s1 p0 = None) as Hp1.
  { rewrite Es1. apply fs_ensure_range_refused; [done|].
    destruct (page_slice_lookup s0 p0) as [pg|] eqn:El; [|done].
    apply (set_size_sub _ _ _ _ _ E0) in El. congruence. }
  unfold linux_fs_grow_fd_cap. rewrite (proj2 (Z.eqb_neq n 0)) by lia.
  destruct (hdr_load_spec s1 cwd ents Hr1) as [-> _]. cbv zeta.
  destruct (rep_hdr_length s1 cwd ents Hr1) as [_ ->]. cbn [hdr_fd_capacity hdr_cwd].
  rewrite (proj2 (Z.leb_gt _ _)), table_byte_size_eq by lia.
  destruct (set_size_shrink s1 (entry_off n)) as [s3 E3]; [unfold PAGE_SIZE in *; lia|].
  rewrite E3, Hsz1, Z.sub_diag. cbn [Z.to_nat fs_ensure_range].
  destruct (set_size_extends s1 _ s3 cwd ents Hr1 E3) as (Hl3 & Hp3 & _).
  destruct (hdr_store_capacity al' s3 cwd n) as (s4 & E4 & (_ & _ & Hm4) & Hcap4).
  - done.
  - apply Hr1.
  - lia.
  - unfold page_mapped. rewrite Hp3.
    + apply (tr_mapped _ _ _ Hr1 0). pose proof (entry_off_ge (Z.of_nat (length ents))).
      unfold PAGE_SIZE in *. lia.
    + apply (pages_cover (entry_off n) 0). unfold PAGE_SIZE in *. lia.
  - rewrite (set_size_size _ _ _ E3). assert (HDR_SIZE ≤ 2 * PAGE_SIZE) by done. lia.
  - exists s4. split_and!; [done..|]. apply eq_None_not_Some. intros Hs4. apply Hm4 in Hs4 as [pg Hpg].
    apply (set_size_sub _ _ _ _ _ E3) in Hpg. congruence.
Qed.
End properties.

(** ** A concrete byte slice and witnesses *)

Module ByteSlice.
Import MapSlice.

Definition copy_bytes (s : mslice (list Z)) (off n : Z) : error_t * list Z :=
  if (0 <=? off) && (off + n <=? ms_size s) then
    match mapM (@slice_byte map_slice s) (seqZ off n) with
    | Some l => (REND_SUCCESS, l)
    | None => (E_IN_PARAM, [])
    end
  else (E_IN_PARAM, []).

#[export] Instance map_slice_copy : @PageSliceCopy map_slice := {
  page_slice_copy_to_buffer := copy_bytes;
  page_slice_clone s := (REND_SUCCESS, s);
}.

#[export] Instance map_slice_copy_laws : @PageSliceCopyLaws map_slice map_slice_copy.
Proof.
  split; cbn.
  - intros s off n Hoff Hn Hsz Hb. unfold copy_bytes.
    rewrite !(proj2 (Z.leb_le _ _)) by done. cbn.
    destruct (mapM_is_Some_2 (@slice_byte map_slice s) (seqZ off n)) as [l Hl].
    { apply Forall_forall. intros i Hi. apply list_elem_of_In, elem_of_seqZ in Hi.
      replace i with (off + (i - off)) by lia. apply Hb. lia. }
    rewrite Hl. exists l. apply mapM_Some_1 in Hl.
    pose proof (Forall2_length Hl) as Hlen. rewrite length_seqZ in Hlen. split_and!; [done|lia|].
    intros k Hk. destruct (lookup_lt_is_Some_2 l k) as [x Hx]; [lia|].
    destruct (Forall2_lookup_r _ _ _ _ _ Hl Hx) as (i & Hi & Hx').
    apply lookup_seqZ in Hi as [-> _]. rewrite Hx. symmetry. exact Hx'.
  - intros s s' [= <-]. done.
Qed.

Definition table0 : @page_slice (list Z) map_slice :=
  default (MSlice 0 ∅) (linux_fs_table_create (λ _, true) LINUX_FS_FD_INIT_CAP).2.

Lemma table0_rep : table_rep table0 [slash] (replicate 128 zero_rec) ∧ slice_full table0.
Proof.
  destruct (table_create_spec (λ _, true) LINUX_FS_FD_INIT_CAP _ _ ltac:(done) (surjective_pairing _))
    as (s & E & Hr & Hf).
  - vm_compute. reflexivity.
  - unfold table0. rewrite E. done.
Qed.

Definition file_entry : linux_fd_entry :=
  LinuxFdEntry LINUX_FD_VFS 7 0 1 false false (str "/etc/passwd").

Lemma file_entry_wf : entry_wf file_entry.
Proof.
  split; cbn; unfold VFS_PATH_MAX; try lia.
  intros Hin. repeat (apply elem_of_cons in Hin as [Hin|Hin]; [discriminate Hin|]).
  by apply not_elem_of_nil in Hin.
Qed.

Lemma fd_entry_store_load_witness :
  ∃ s', linux_fs_entry_store (λ _, true) table0 14 file_entry = (REND_SUCCESS, s')
    ∧ linux_fs_entry_load s' 14 = Some file_entry.
Proof.
  destruct (fd_entry_store_load (λ _, true) table0 [slash] (replicate 128 zero_rec) 14 file_entry
    (proj1 table0_rep)) as (s' & E & Hl & _).
  - rewrite length_replicate. lia.
  - exact file_entry_wf.
  - exists s'. split; [exact E|exact Hl].
Defined.

Lemma grow_retry_leaves_hole_witness :
  let s1 := (linux_fs_grow_fd_cap (λ p, p <? 12) table0 192).2 in
  ∃ s2, linux_fs_grow_fd_cap (λ _, true) s1 192 = (REND_SUCCESS, s2)
    ∧ linux_fs_fd_capacity s2 = 192 ∧ page_slice_lookup s2 12 = None.
Proof.
  apply (grow_retry_leaves_hole (λ p, p <? 12) (λ _, true) table0 [slash] (replicate 128 zero_rec)
    192 12 (page_slice_set_size table0 (entry_off 192)).2
    (linux_fs_grow_fd_cap (λ p, p <? 12) table0 192).1 _ (proj1 table0_rep) (proj2 table0_rep)).
  - rewrite length_replicate. unfold FD_CAP_BOUND. lia.
  - reflexivity.
  - exact (surjective_pairing _).
  - vm_compute. discriminate.
  - reflexivity.
  - vm_compute. reflexivity.
Defined.
End ByteSlice.
