(* ===== verification/FdTable.v ===== *)
(** * File descriptors of a process

    [linux_layer/fs/linux_fd_table.c] (upper half), [sys_fcntl.c],
    [linux_vfs_path.c] and [linux_pipe_create2] of [linux_pipe.c], over the
    interface [FdStore].  What the operations do outside the table is explicit
    in [world]: the pipe table, and the requests sent to the VFS server, in
    the order they are sent. *)

From stdpp Require Import base numbers list strings option.
From Stdlib Require Import Ascii.
From S2P Require Import Prelude PageSlice VfsPath VfsInode Pipe FdSlice.

Definition LINUX_FS_SLICE_FD_GROW : Z := 64.
Definition LINUX_AT_FDCWD : Z := -100.
Definition LINUX_FD_CLOEXEC : Z := 1.
Definition LINUX_F_DUPFD : Z := 0.
Definition LINUX_F_GETFD : Z := 1.
Definition LINUX_F_SETFD : Z := 2.
Definition LINUX_F_GETFL : Z := 3.
Definition LINUX_F_SETFL : Z := 4.
Definition LINUX_F_DUPFD_CLOEXEC : Z := 1030.
Definition LINUX_O_APPEND : Z := 0x400.
Definition LINUX_O_NONBLOCK : Z := 0x800.
Definition LINUX_O_CLOEXEC : Z := 0x80000.
Definition LINUX_F_SETFL_MASK : Z := Z.lor LINUX_O_APPEND LINUX_O_NONBLOCK.

(** Requests to the VFS server. *)
Inductive vfs_msg : Type :=
  | KMSG_OP_VFS_CLOSE (handle : Z)
  | KMSG_OP_VFS_HANDLE_RETAIN (handle : Z).

Record world : Type := World { w_pipes : pipe_table; w_ipc : list vfs_msg }.

Definition send (w : world) (m : vfs_msg) : world := World (w_pipes w) (w_ipc w ++ [m]).
Definition set_pipes (w : world) (p : pipe_table) : world := World p (w_ipc w).

Definition with_fd_path (e : linux_fd_entry) (p : cstr) : linux_fd_entry :=
  LinuxFdEntry (fd_kind e) (vfs_handle e) (fd_open_flags e) (fd_flags e) (fd_is_dir e)
    (pipe_read e) p.
Definition with_is_dir (e : linux_fd_entry) (d : bool) : linux_fd_entry :=
  LinuxFdEntry (fd_kind e) (vfs_handle e) (fd_open_flags e) (fd_flags e) d
    (pipe_read e) (vfs_abs_path e).
Definition with_fd_flags (e : linux_fd_entry) (fl : Z) : linux_fd_entry :=
  LinuxFdEntry (fd_kind e) (vfs_handle e) (fd_open_flags e) fl (fd_is_dir e)
    (pipe_read e) (vfs_abs_path e).
Definition with_open_flags (e : linux_fd_entry) (fl : Z) : linux_fd_entry :=
  LinuxFdEntry (fd_kind e) (vfs_handle e) fl (fd_flags e) (fd_is_dir e)
    (pipe_read e) (vfs_abs_path e).

Section fd_ops.
Context {F : Type} `{FS : FdStore F}.
Implicit Types (f : F) (fd : Z) (w : world).

(** A process: its descriptor table, NULL when it has none. *)
Abbreviation proc := (ptr F).

(** ** Directory paths *)

Definition linux_fd_set_vfs_abs_path (al : alloc_oracle) f fd (path : ptr cstr) : F :=
  match path with
  | None => f
  | Some path =>
      if (fd <? 0) || (fds_capacity f <=? fd) then f
      else
        match fds_load f fd with
        | None => f
        | Some ent =>
            (fds_store al f fd (with_fd_path ent (strncpy_term path (VFS_PATH_MAX - 1)))).2
        end
  end.

Definition linux_fd_set_is_dir (al : alloc_oracle) f fd (is_dir : bool) : F :=
  if (fd <? 0) || (fds_capacity f <=? fd) then f
  else
    match fds_load f fd with
    | None => f
    | Some ent => (fds_store al f fd (with_is_dir ent is_dir)).2
    end.

(** [linux_fs_dir_path_assign] is [linux_fs_dir_path_store]. *)
Definition linux_fs_dir_path_store (al : alloc_oracle) f fd (path : ptr cstr) : F * Z :=
  match path with
  | None => (f, - LINUX_EINVAL)
  | Some _ =>
      if fd <? 0 then (f, - LINUX_EINVAL)
      else if fds_capacity f <=? fd then (f, - LINUX_EINVAL)
      else (linux_fd_set_is_dir al (linux_fd_set_vfs_abs_path al f fd path) fd true, 0)
  end.

Definition linux_fs_dir_path_release (al : alloc_oracle) f fd : F :=
  if fd <? 0 then f
  else
    match fds_load f fd with
    | None => f
    | Some ent =>
        if negb (fd_is_dir ent) then f else (fds_store al f fd (with_fd_path ent [])).2
    end.

Definition linux_fs_dir_path_lookup f fd : ptr cstr :=
  if fd <? 0 then None
  else
    match fds_load f fd with
    | None => None
    | Some ent =>
        if negb (fd_is_dir ent) || is_nul (vfs_abs_path ent) 0 then None
        else Some (strncpy_term (vfs_abs_path ent) (VFS_PATH_MAX - 1))
    end.

Definition linux_fs_dir_path_dup (al : alloc_oracle) f (oldfd newfd : Z) : F :=
  if oldfd =? newfd then f
  else
    match fds_load f oldfd with
    | Some oldent =>
        if negb (fd_is_dir oldent) || is_nul (vfs_abs_path oldent) 0
        then linux_fs_dir_path_release al f newfd
        else (fds_store al f newfd oldent).2
    | None => linux_fs_dir_path_release al f newfd
    end.

(** ** Looking up and allocating descriptors *)

Definition linux_fd_get (t : proc) fd : ptr linux_fd_entry :=
  if fd <? 0 then None
  else
    match t with
    | None => None
    | Some f =>
        if fds_capacity f <=? fd then None
        else
          match fds_load f fd with
          | None => None
          | Some ent => if decide (fd_kind ent = LINUX_FD_NONE) then None else Some ent
          end
    end.

(** [for (fd = from; fd < cap; fd++)]: the first free slot, or -1. *)
Fixpoint find_free_loop f (fd : Z) (fuel : nat) : Z :=
  match fuel with
  | O => -1
  | S fuel' =>
      match fds_load f fd with
      | None => find_free_loop f (fd + 1) fuel'
      | Some ent =>
          if decide (fd_kind ent = LINUX_FD_NONE) then fd
          else find_free_loop f (fd + 1) fuel'
      end
  end.

Definition linux_fd_find_free_from f (minfd : Z) : Z :=
  if minfd <? 0 then -1
  else find_free_loop f minfd (Z.to_nat (fds_capacity f - minfd)).

Definition linux_fd_find_free f : Z := find_free_loop f 0 (Z.to_nat (fds_capacity f)).

(** The new process and the descriptor, or -1. *)
Definition linux_fd_alloc (al : alloc_oracle) (t : proc) (ent_in : ptr linux_fd_entry)
  : proc * Z :=
  match t, ent_in with
  | Some f, Some ent =>
      let place f fd :=
        match fds_store al f fd ent with
        | (REND_SUCCESS, f') => (Some f', fd)
        | (_, f') => (Some f', -1)
        end in
      let fd := linux_fd_find_free f in
      if fd <? 0 then
        match fds_grow al f (u32 (fds_capacity f + LINUX_FS_SLICE_FD_GROW)) with
        | (REND_SUCCESS, f1) =>
            let fd := linux_fd_find_free f1 in
            if fd <? 0 then (Some f1, -1) else place f1 fd
        | (_, f1) => (Some f1, -1)
        end
      else place f fd
  | _, _ => (t, -1)
  end.

Definition linux_fd_lowest_free_from (al : alloc_oracle) (t : proc) (minfd : Z) : proc * Z :=
  match t with
  | None => (t, -1)
  | Some f =>
      if minfd <? 0 then (t, -1)
      else
        let search f1 :=
          let fd := linux_fd_find_free_from f1 minfd in
          if 0 <=? fd then (Some f1, fd)
          else
            match fds_grow al f1 (u32 (fds_capacity f1 + LINUX_FS_SLICE_FD_GROW)) with
            | (REND_SUCCESS, f2) => (Some f2, linux_fd_find_free_from f2 minfd)
            | (_, f2) => (Some f2, -1)
            end in
        if fds_capacity f <=? minfd then
          match fds_grow al f (u32 (minfd + 1)) with
          | (REND_SUCCESS, f1) => search f1
          | (_, f1) => (Some f1, -1)
          end
        else search f
  end.

Definition linux_fd_lowest_free (al : alloc_oracle) (t : proc) : proc * Z :=
  linux_fd_lowest_free_from al t 0.

Definition linux_fd_store (al : alloc_oracle) (t : proc) fd (ent : linux_fd_entry)
  : proc * error_t :=
  match t with
  | None => (t, E_IN_PARAM)
  | Some f =>
      if (fd <? 0) || (fds_capacity f <=? fd) then (t, E_IN_PARAM)
      else let '(e, f') := fds_store al f fd ent in (Some f', e)
  end.

Fixpoint handle_in_use_loop f (handle : Z) (i : Z) (fuel : nat) : bool :=
  match fuel with
  | O => false
  | S fuel' =>
      match fds_load f i with
      | Some ent =>
          if bool_decide (fd_kind ent = LINUX_FD_VFS) && (vfs_handle ent =? handle) then true
          else handle_in_use_loop f handle (i + 1) fuel'
      | None => handle_in_use_loop f handle (i + 1) fuel'
      end
  end.

Definition linux_fs_handle_in_use f (handle : Z) : bool :=
  if handle =? 0 then false else handle_in_use_loop f handle 0 (Z.to_nat (fds_capacity f)).

(** ** Creating, copying and releasing tables *)

Definition linux_fs_init_state (al : alloc_oracle) : error_t * proc :=
  match fds_create al LINUX_FS_FD_INIT_CAP with
  | (REND_SUCCESS, Some f) =>
      let con k := LinuxFdEntry k 0 0 0 false false [] in
      match fds_store al f 0 (con LINUX_FD_CONSOLE_IN) with
      | (REND_SUCCESS, f1) =>
          match fds_store al f1 1 (con LINUX_FD_CONSOLE_OUT) with
          | (REND_SUCCESS, f2) =>
              let '(e, f3) := fds_store al f2 2 (con LINUX_FD_CONSOLE_ERR) in (e, Some f3)
          | (e, f2) => (e, Some f2)
          end
      | (e, f1) => (e, Some f1)
      end
  | (e, t) => (e, t)
  end.

Definition linux_fs_release_vfs_handle w (handle : Z) : world :=
  if handle =? 0 then w else send w (KMSG_OP_VFS_CLOSE handle).
Definition linux_fs_retain_vfs_handle w (handle : Z) : world :=
  if handle =? 0 then w else send w (KMSG_OP_VFS_HANDLE_RETAIN handle).

(** The loop of [linux_fs_release_open_resources]. *)
Fixpoint release_loop (al : alloc_oracle) w f (i : Z) (fuel : nat) : world * F :=
  match fuel with
  | O => (w, f)
  | S fuel' =>
      match fds_load f i with
      | None => release_loop al w f (i + 1) fuel'
      | Some ent =>
          if decide (fd_kind ent = LINUX_FD_PIPE) then
            release_loop al
              (set_pipes w (linux_pipe_fd_closed (w_pipes w) (vfs_handle ent) (pipe_read ent)))
              f (i + 1) fuel'
          else if bool_decide (fd_kind ent ≠ LINUX_FD_VFS) || (vfs_handle ent =? 0)
          then release_loop al w f (i + 1) fuel'
          else
            let f' := if fd_is_dir ent then linux_fs_dir_path_release al f i else f in
            release_loop al (linux_fs_release_vfs_handle w (vfs_handle ent)) f' (i + 1) fuel'
      end
  end.

Definition linux_fs_release_open_resources (al : alloc_oracle) w f : world * F :=
  release_loop al w f 0 (Z.to_nat (fds_capacity f)).

(** [alloc]: the [linux_fs_state_t] itself can be allocated. *)
Definition linux_fs_proc_attach (al : alloc_oracle) (alloc : bool) (t : proc) : error_t * proc :=
  match t with
  | Some _ => linux_fs_init_state al
  | None =>
      if alloc then
        match linux_fs_init_state al with
        | (REND_SUCCESS, t') => (REND_SUCCESS, t')
        | (e, _) => (e, None)
        end
      else (E_RENDEZVOS, None)
  end.

Definition linux_fs_proc_release_for_exit (al : alloc_oracle) w (t : proc) : world * proc :=
  match t with
  | None => (w, None)
  | Some f => let '(w', f') := linux_fs_release_open_resources al w f in (w', Some f')
  end.

Definition linux_fs_proc_reset (al : alloc_oracle) (alloc : bool) w (t : proc) : world * proc :=
  match t with
  | None => (w, (linux_fs_proc_attach al alloc t).2)
  | Some f => ((linux_fs_release_open_resources al w f).1, (linux_fs_init_state al).2)
  end.

Definition linux_fs_proc_destroy (al : alloc_oracle) w (t : proc) : world * proc :=
  match t with
  | None => (w, None)
  | Some f => ((linux_fs_release_open_resources al w f).1, None)
  end.

(** The loop of [linux_fs_fork_retain_resources]. *)
Fixpoint retain_loop w f (i : Z) (fuel : nat) : world :=
  match fuel with
  | O => w
  | S fuel' =>
      match fds_load f i with
      | None => retain_loop w f (i + 1) fuel'
      | Some ent =>
          if decide (fd_kind ent = LINUX_FD_PIPE) then
            retain_loop
              (set_pipes w (linux_pipe_fork_retain (w_pipes w) (vfs_handle ent) (pipe_read ent)))
              f (i + 1) fuel'
          else if bool_decide (fd_kind ent ≠ LINUX_FD_VFS) || (vfs_handle ent =? 0)
          then retain_loop w f (i + 1) fuel'
          else retain_loop (linux_fs_retain_vfs_handle w (vfs_handle ent)) f (i + 1) fuel'
      end
  end.

Definition linux_fs_fork_retain_resources w f : world :=
  retain_loop w f 0 (Z.to_nat (fds_capacity f)).

Definition linux_fs_fork_copy_state w f : world * (error_t * proc) :=
  match fds_clone f with
  | (REND_SUCCESS, f') => (linux_fs_fork_retain_resources w f', (REND_SUCCESS, Some f'))
  | (e, _) => (w, (e, None))
  end.

(** [linux_fs_proc_fork]: the table of the child. *)
Definition linux_fs_proc_fork (al : alloc_oracle) (alloc : bool) w (parent : proc)
  : world * (error_t * proc) :=
  if negb alloc then (w, (E_RENDEZVOS, None))
  else
  match parent with
  | Some f => linux_fs_fork_copy_state w f
  | None =>
      match linux_fs_init_state al with
      | (REND_SUCCESS, t) => (w, (REND_SUCCESS, t))
      | (e, _) => (w, (e, None))
      end
  end.

(** ** close and dup2 *)

Definition linux_fd_close (al : alloc_oracle) w (t : proc) fd : world * proc * Z :=
  if fd <? 0 then (w, t, - LINUX_EBADF)
  else
    match t with
    | None => (w, t, - LINUX_ESRCH)
    | Some f =>
        if fds_capacity f <=? fd then (w, t, - LINUX_EBADF)
        else
          match fds_load f fd with
          | None => (w, t, - LINUX_EBADF)
          | Some ent =>
              let handle := vfs_handle ent in
              if decide (fd_kind ent = LINUX_FD_NONE) then (w, t, - LINUX_EBADF)
              else if decide (fd_kind ent = LINUX_FD_VFS) then
                let f1 := if fd_is_dir ent then linux_fs_dir_path_release al f fd else f in
                let f2 := (fds_store al f1 fd zero_rec).2 in
                let w' := if negb (handle =? 0) && negb (linux_fs_handle_in_use f2 handle)
                          then linux_fs_release_vfs_handle w handle else w in
                (w', Some f2, 0)
              else
                let w' := if decide (fd_kind ent = LINUX_FD_PIPE)
                          then set_pipes w (linux_pipe_fd_closed (w_pipes w) handle (pipe_read ent))
                          else w in
                (w', Some (fds_store al f fd zero_rec).2, 0)
          end
    end.

Definition linux_fd_dup2 (al : alloc_oracle) w (t : proc) (oldfd newfd : Z) : world * proc * Z :=
  if (oldfd <? 0) || (newfd <? 0) then (w, t, - LINUX_EBADF)
  else if oldfd =? newfd then
    match linux_fd_get t oldfd with
    | None => (w, t, - LINUX_EBADF)
    | Some _ => (w, t, newfd)
    end
  else
    match t with
    | None => (w, t, - LINUX_ESRCH)
    | Some f =>
        let '(grow_err, f0) :=
          if fds_capacity f <=? newfd then fds_grow al f (u32 (newfd + 1)) else (REND_SUCCESS, f) in
        if decide (grow_err ≠ REND_SUCCESS) then (w, Some f0, - LINUX_EBADF)
        else if fds_capacity f0 <=? oldfd then (w, Some f0, - LINUX_EBADF)
        else
          match fds_load f0 oldfd, fds_load f0 newfd with
          | Some oldent, newent =>
              if decide (fd_kind oldent = LINUX_FD_NONE) then (w, Some f0, - LINUX_EBADF)
              else
                match newent with
                | None => (w, Some f0, - LINUX_EBADF)
                | Some newent =>
                    let w1 := if decide (fd_kind newent = LINUX_FD_PIPE)
                              then set_pipes w (linux_pipe_fd_closed (w_pipes w)
                                                  (vfs_handle newent) (pipe_read newent))
                              else w in
                    let replaced_handle :=
                      if decide (fd_kind newent = LINUX_FD_VFS) then vfs_handle newent else 0 in
                    let oldent := with_fd_flags oldent
                                    (Z.land (fd_flags oldent) (not32 LINUX_FD_CLOEXEC)) in
                    match fds_store al f0 newfd oldent with
                    | (REND_SUCCESS, f1) =>
                        let newent := oldent in
                        let f2 := if fd_is_dir newent
                                  then linux_fs_dir_path_dup al f1 oldfd newfd
                                  else linux_fs_dir_path_release al f1 newfd in
                        let w2 :=
                          if bool_decide (fd_kind newent = LINUX_FD_VFS)
                             && negb (vfs_handle newent =? 0)
                          then linux_fs_retain_vfs_handle w1 (vfs_handle newent)
                          else if decide (fd_kind newent = LINUX_FD_PIPE)
                          then set_pipes w1 (linux_pipe_fork_retain (w_pipes w1)
                                               (vfs_handle newent) (pipe_read newent))
                          else w1 in
                        let w3 :=
                          if negb (replaced_handle =? 0)
                             && negb (linux_fs_handle_in_use f2 replaced_handle)
                          then linux_fs_release_vfs_handle w2 replaced_handle else w2 in
                        (w3, Some f2, newfd)
                    | (_, f1) => (w1, Some f1, - LINUX_EBADF)
                    end
                end
          | None, _ => (w, Some f0, - LINUX_EBADF)
          end
    end.

(** ** fcntl *)

Definition sys_fcntl (al : alloc_oracle) w (t : proc) fd (cmd arg : Z) : world * proc * Z :=
  match linux_fd_get t fd with
  | None => (w, t, - LINUX_EBADF)
  | Some ent =>
      if cmd =? LINUX_F_GETFD then (w, t, Z.land (fd_flags ent) LINUX_FD_CLOEXEC)
      else if cmd =? LINUX_F_SETFD then
        match linux_fd_store al t fd (with_fd_flags ent (Z.land (u32 arg) LINUX_FD_CLOEXEC)) with
        | (t', REND_SUCCESS) => (w, t', 0)
        | (t', _) => (w, t', - LINUX_EBADF)
        end
      else if cmd =? LINUX_F_GETFL then (w, t, fd_open_flags ent)
      else if cmd =? LINUX_F_SETFL then
        let fl := Z.lor (Z.land (fd_open_flags ent) (not32 LINUX_F_SETFL_MASK))
                        (Z.land (u32 arg) LINUX_F_SETFL_MASK) in
        match linux_fd_store al t fd (with_open_flags ent fl) with
        | (t', REND_SUCCESS) => (w, t', 0)
        | (t', _) => (w, t', - LINUX_EBADF)
        end
      else if (cmd =? LINUX_F_DUPFD) || (cmd =? LINUX_F_DUPFD_CLOEXEC) then
        if (i64 arg <? 0) || (0x7fffffff <? arg) then (w, t, - LINUX_EINVAL)
        else
          let '(t1, newfd) := linux_fd_lowest_free_from al t (i32 arg) in
          if newfd <? 0 then (w, t1, - LINUX_EMFILE)
          else
            let '(w2, t2, ret) := linux_fd_dup2 al w t1 fd newfd in
            if ret <? 0 then (w2, t2, ret)
            else if cmd =? LINUX_F_DUPFD_CLOEXEC then
              match linux_fd_get t2 newfd with
              | None => (w2, t2, - LINUX_EBADF)
              | Some ent =>
                  match linux_fd_store al t2 newfd
                          (with_fd_flags ent (Z.lor (fd_flags ent) LINUX_FD_CLOEXEC)) with
                  | (t3, REND_SUCCESS) => (w2, t3, ret)
                  | (t3, _) => (w2, t3, - LINUX_EBADF)
                  end
              end
            else (w2, t2, ret)
      else (w, t, - LINUX_EINVAL)
  end.

(** ** Path resolution

    [validate p]: the VFS server answers that [p] is a directory. *)

Definition linux_vfs_resolve_path (al : alloc_oracle) (validate : cstr → bool) (t : proc)
    (dirfd : Z) (path : ptr cstr) (out_cap : nat) : proc * (Z * ptr cstr) :=
  match path with
  | None => (t, (- LINUX_EINVAL, None))
  | Some path =>
      if (out_cap =? 0)%nat then (t, (- LINUX_EINVAL, None))
      else
        match t with
        | None => (t, (- LINUX_ESRCH, None))
        | Some f =>
            if is_char path 0 slash then (t, (0, vfs_path_normalize (Some path) out_cap))
            else
              let join t base :=
                match vfs_path_join (Some base) (Some path) VFS_PATH_MAX with
                | None => (t, (- LINUX_EINVAL, None))
                | Some joined => (t, (0, vfs_path_normalize (Some joined) out_cap))
                end in
              if dirfd =? LINUX_AT_FDCWD
              then join t (strncpy_term (fds_cwd f) (VFS_PATH_MAX - 1))
              else
                match linux_fd_get t dirfd with
                | None => (t, (- LINUX_EBADF, None))
                | Some dent =>
                    if decide (fd_kind dent ≠ LINUX_FD_VFS) then (t, (- LINUX_ENOTDIR, None))
                    else
                      let '(t1, dent1) :=
                        if fd_is_dir dent then (t, Some dent)
                        else
                          let probe := if is_nul (vfs_abs_path dent) 0
                                       then linux_fs_dir_path_lookup f dirfd
                                       else Some (vfs_abs_path dent) in
                          match probe with
                          | Some p =>
                              if negb (is_nul p 0) && validate p then
                                let f1 := linux_fd_set_is_dir al f dirfd true in
                                let f2 := if is_nul (vfs_abs_path dent) 0
                                          then linux_fd_set_vfs_abs_path al f1 dirfd (Some p)
                                          else f1 in
                                (Some f2, linux_fd_get (Some f2) dirfd)
                              else (t, Some dent)
                          | None => (t, Some dent)
                          end in
                      match dent1 with
                      | None => (t1, (- LINUX_ENOTDIR, None))
                      | Some dent =>
                          if negb (fd_is_dir dent) then (t1, (- LINUX_ENOTDIR, None))
                          else
                            let dir_path :=
                              if negb (is_nul (vfs_abs_path dent) 0) then Some (vfs_abs_path dent)
                              else t1 ≫= λ f1, linux_fs_dir_path_lookup f1 dirfd in
                            match dir_path with
                            | Some dp =>
                                if is_nul dp 0 then (t1, (- LINUX_EBADF, None))
                                else join t1 (strncpy_term dp (VFS_PATH_MAX - 1))
                            | None => (t1, (- LINUX_EBADF, None))
                            end
                      end
                end
        end
  end.

(** ** pipe2

    [valid]: there is a task with an address space; [alloc]: the pipe can be
    allocated; [store_ok]: the two descriptors can be copied to user memory. *)

Definition linux_pipe_create2 (al : alloc_oracle) (valid alloc store_ok : bool) w (t : proc)
    (flags : Z) : world * proc * (Z * option (Z * Z)) :=
  if negb (Z.land flags (Z.lnot (Z.lor LINUX_O_CLOEXEC LINUX_O_NONBLOCK)) =? 0)
  then (w, t, (- LINUX_EINVAL, None))
  else if negb valid then (w, t, (- LINUX_EFAULT, None))
  else
    let fd_flags := if has flags LINUX_O_CLOEXEC then LINUX_FD_CLOEXEC else 0 in
    let open_flags := if has flags LINUX_O_NONBLOCK then LINUX_O_NONBLOCK else 0 in
    let '(pipes1, pipe_id) := linux_pipe_alloc_slot alloc (w_pipes w) in
    let w1 := set_pipes w pipes1 in
    if LINUX_PIPE_MAX <=? pipe_id then (w1, t, (- LINUX_EMFILE, None))
    else
      let end_ent r := LinuxFdEntry LINUX_FD_PIPE pipe_id open_flags fd_flags false r [] in
      let '(t1, read_fd) := linux_fd_alloc al t (Some (end_ent true)) in
      if read_fd <? 0
      then (set_pipes w1 (linux_pipe_free_slot (w_pipes w1) pipe_id), t1, (- LINUX_EMFILE, None))
      else
        let '(t2, write_fd) := linux_fd_alloc al t1 (Some (end_ent false)) in
        if write_fd <? 0 then
          let '(w3, t3, _) := linux_fd_close al w1 t2 read_fd in
          (set_pipes w3 (linux_pipe_free_slot (w_pipes w3) pipe_id), t3, (- LINUX_EMFILE, None))
        else if store_ok then (w1, t2, (0, Some (read_fd, write_fd)))
        else
          let '(w3, t3, _) := linux_fd_close al w1 t2 write_fd in
          let '(w4, t4, _) := linux_fd_close al w3 t3 read_fd in
          (w4, t4, (- LINUX_EFAULT, None)).
End fd_ops.

(** ** What the operations do to the entries *)

Section fd_proofs.
Context {F : Type} `{FS : FdStore F} {FSL : FdStoreLaws F}.
Implicit Types (f : F) (w : world) (l : list linux_fd_entry) (e : linux_fd_entry).

Definition is_free e : bool := bool_decide (fd_kind e = LINUX_FD_NONE).

Lemma find_free_loop_spec f cwd l fuel : ∀ i : nat,
  fds_rep f cwd l → (i + fuel)%nat = length l →
  (find_free_loop f (Z.of_nat i) fuel = -1
   ∧ ∀ j e, (i ≤ j)%nat → l !! j = Some e → is_free e = false)
  ∨ (∃ j e, find_free_loop f (Z.of_nat i) fuel = Z.of_nat j ∧ (i ≤ j)%nat ∧ l !! j = Some e
       ∧ is_free e = true
       ∧ ∀ k e', (i ≤ k < j)%nat → l !! k = Some e' → is_free e' = false).
Proof.
  induction fuel as [|fuel IH]; intros i Hr Hi; cbn [find_free_loop].
  { left. split; [done|]. intros j e Hj Hl%lookup_lt_Some. lia. }
  destruct (lookup_lt_is_Some_2 l i) as [e He]; [lia|].
  rewrite (fds_load_law f cwd l i e Hr He). destruct (decide (fd_kind e = LINUX_FD_NONE)) as [Ek|Ek].
  - right. exists i, e. split_and!; [done|lia|done|by apply bool_decide_eq_true|]. lia.
  - replace (Z.of_nat i + 1) with (Z.of_nat (S i)) by lia.
    assert (is_free e = false) as Hused by by apply bool_decide_eq_false.
    destruct (IH (S i) Hr ltac:(lia)) as [[-> Hall]|(j & e' & -> & Hj & Hl & Hf & Hb)].
    + left. split; [done|]. intros j e' Hj Hl.
      destruct (decide (j = i)) as [->|]; [congruence|]. apply (Hall j); [lia|done].
    + right. exists j, e'. split_and!; [done|lia|done|done|]. intros k e'' Hk Hl'.
      destruct (decide (k = i)) as [->|]; [congruence|]. apply (Hb k); [lia|done].
Qed.

(** [fd] is the lowest free descriptor of [l] from [from] on. *)
Definition lowest_free l (from fd : nat) : Prop :=
  (from ≤ fd)%nat ∧ (∃ e, l !! fd = Some e ∧ is_free e = true)
  ∧ ∀ k e, (from ≤ k < fd)%nat → l !! k = Some e → is_free e = false.

Definition none_free l (from : nat) : Prop :=
  ∀ k e, (from ≤ k)%nat → l !! k = Some e → is_free e = false.

Lemma find_free_spec f cwd l : fds_rep f cwd l →
  (linux_fd_find_free f = -1 ∧ none_free l 0)
  ∨ ∃ fd, linux_fd_find_free f = Z.of_nat fd ∧ lowest_free l 0 fd.
Proof.
  intros Hr. unfold linux_fd_find_free. destruct (fds_cap_law f cwd l Hr) as [-> _]. rewrite Nat2Z.id.
  change (find_free_loop f 0) with (find_free_loop f (Z.of_nat 0)).
  destruct (find_free_loop_spec f cwd l (length l) 0 Hr eq_refl) as [[-> Hn]|(j & e & -> & ? & ? & ? & ?)].
  - by left.
  - right. exists j. split; [done|]. split_and!; [lia|by exists e|done].
Qed.

Lemma find_free_from_spec f cwd l (m : nat) : fds_rep f cwd l →
  (linux_fd_find_free_from f (Z.of_nat m) = -1 ∧ none_free l m)
  ∨ ∃ fd, linux_fd_find_free_from f (Z.of_nat m) = Z.of_nat fd ∧ lowest_free l m fd.
Proof.
  intros Hr. unfold linux_fd_find_free_from. destruct (Z.ltb_spec (Z.of_nat m) 0); [lia|].
  destruct (fds_cap_law f cwd l Hr) as [-> _].
  destruct (decide (m ≤ length l)%nat).
  - replace (Z.to_nat (Z.of_nat (length l) - Z.of_nat m)) with (length l - m)%nat by lia.
    destruct (find_free_loop_spec f cwd l (length l - m) m Hr ltac:(lia))
      as [[-> Hn]|(j & e & -> & ? & ? & ? & ?)].
    + by left.
    + right. exists j. split; [done|]. split_and!; [done|by exists e|done].
  - left. replace (Z.to_nat _) with 0%nat by lia. split; [done|]. intros k e Hk Hl%lookup_lt_Some. lia.
Qed.

(** The table after a growth: [n] more free slots. *)
Definition grown l (n : nat) : list linux_fd_entry := l ++ replicate n zero_rec.

Lemma lowest_free_grown l m n :
  none_free l m → (m ≤ length l)%nat → (0 < n)%nat → lowest_free (grown l n) m (length l).
Proof.
  intros Hn Hm Hpos. unfold grown. split_and!; [done| |].
  - exists zero_rec. split; [|done]. rewrite lookup_app_r, Nat.sub_diag by lia.
    by apply lookup_replicate_2.
  - intros k e Hk He. rewrite lookup_app_l in He by lia. apply (Hn k); [lia|done].
Qed.

Lemma lowest_free_unique l m a b : lowest_free l m a → lowest_free l m b → a = b.
Proof.
  intros (Ha & (ea & Hla & Hfa) & Hba) (Hb & (eb & Hlb & Hfb) & Hbb).
  destruct (decide (a < b)%nat); [by rewrite (Hbb a ea) in Hfa|].
  destruct (decide (b < a)%nat); [by rewrite (Hba b eb) in Hfb|]. lia.
Qed.

Lemma alloc_place al f cwd l fd ent t' r :
  fds_rep f cwd l → fds_full f → lowest_free l 0 fd → entry_wf ent →
  (match fds_store al f (Z.of_nat fd) ent with
   | (REND_SUCCESS, f') => (Some f', Z.of_nat fd)
   | (_, f') => (Some f', -1)
   end) = (t', r) →
  r = Z.of_nat fd ∧ ∃ f', t' = Some f' ∧ fds_full f' ∧ fds_rep f' cwd (<[fd := ent]> l).
Proof.
  intros Hr Hf (_ & (e & He & _) & _) Hw.
  destruct (fds_store_law al f cwd l fd ent Hr) as (f' & -> & Hr' & Hf');
    [by eapply lookup_lt_Some|done|].
  intros [= <- <-]. split; [done|]. exists f'. auto.
Qed.

Lemma fd_alloc_spec al f cwd l ent t' r :
  fds_rep f cwd l → fds_full f → entry_wf ent → Z.of_nat (length l) + 64 < FD_CAP_BOUND →
  linux_fd_alloc al (Some f) (Some ent) = (t', r) →
  ∃ f', t' = Some f'
  ∧ ((∃ fd, r = Z.of_nat fd ∧ lowest_free l 0 fd ∧ fds_full f'
       ∧ fds_rep f' cwd (<[fd := ent]> l))
     ∨ (none_free l 0 ∧ r = Z.of_nat (length l) ∧ fds_full f'
        ∧ fds_rep f' cwd (<[length l := ent]> (grown l 64)))
     ∨ (none_free l 0 ∧ r = -1 ∧ fds_rep f' cwd l)).
Proof.
  intros Hr Hf Hw Hb. unfold linux_fd_alloc.
  destruct (find_free_spec f cwd l Hr) as [[-> Hn]|(fd & -> & Hl)].
  - cbn [Z.ltb Z.compare]. destruct (fds_cap_law f cwd l Hr) as [-> Hcap].
    unfold LINUX_FS_SLICE_FD_GROW. rewrite uw_small by (unfold FD_CAP_BOUND in *; lia).
    destruct (fds_grow al f (Z.of_nat (length l) + 64)) as [e f1] eqn:Eg.
    destruct (fds_grow_law al f cwd l (Z.of_nat (length l) + 64) e f1 Hr Hf ltac:(lia) Eg) as [_ Hgrow].
    destruct (Hgrow ltac:(lia)) as [Hs Hfail].
    destruct (decide (e = REND_SUCCESS)) as [->|He].
    + destruct (Hs eq_refl) as [Hf1 Hr1].
      replace (Z.to_nat (Z.of_nat (length l) + 64) - length l)%nat with 64%nat in Hr1 by lia.
      pose proof (lowest_free_grown l 0 64 Hn ltac:(lia) ltac:(lia)) as Hlow.
      fold (grown l 64) in Hr1.
      destruct (find_free_spec f1 cwd _ Hr1) as [[_ Hn1]|(fd & -> & Hl)].
      { destruct Hlow as (_ & (e & He & Hfree) & _). rewrite (Hn1 _ _ ltac:(lia) He) in Hfree. done. }
      rewrite (lowest_free_unique _ _ _ _ Hl Hlow).
      destruct (Z.ltb_spec (Z.of_nat (length l)) 0); [lia|]. intros E.
      destruct (alloc_place _ _ _ _ _ _ _ _ Hr1 Hf1 Hlow Hw E) as (-> & f' & -> & Hf' & Hr').
      exists f'. split; [done|]. right; left. done.
    + destruct e; [done|..]; intros [= <- <-]; exists f1; (split; [done|]); right; right; auto.
  - destruct (Z.ltb_spec (Z.of_nat fd) 0); [lia|]. intros E.
    destruct (alloc_place _ _ _ _ _ _ _ _ Hr Hf Hl Hw E) as (-> & f' & -> & Hf' & Hr').
    exists f'. split; [done|]. left. by exists fd.
Qed.

(** Allocating a descriptor: [linux_fd_alloc] stores the entry in the lowest
    free slot, growing the table by 64 slots when none is free, and changes no
    other descriptor; it fails only when the table is full and cannot grow, and
    then the table is as before. *)
Theorem fd_alloc_lowest al f cwd l ent t' r :
  fds_rep f cwd l → fds_full f → entry_wf ent → Z.of_nat (length l) + 64 < FD_CAP_BOUND →
  linux_fd_alloc al (Some f) (Some ent) = (t', r) →
  ∃ f', t' = Some f'
  ∧ ((∃ fd, r = Z.of_nat fd ∧ lowest_free l 0 fd ∧ fds_rep f' cwd (<[fd := ent]> l))
     ∨ (none_free l 0 ∧ r = Z.of_nat (length l)
        ∧ fds_rep f' cwd (<[length l := ent]> (grown l 64)))
     ∨ (none_free l 0 ∧ r = -1 ∧ fds_rep f' cwd l)).
Proof.
  intros Hr Hf Hw Hb E.
  destruct (fd_alloc_spec al f cwd l ent t' r Hr Hf Hw Hb E) as (f' & -> & H).
  exists f'. split; [done|]. naive_solver.
Qed.

(** ** close and dup2 *)

(** Some descriptor is the VFS handle [h]. *)
Definition uses l (h : Z) : bool :=
  existsb (λ e, bool_decide (fd_kind e = LINUX_FD_VFS) && (vfs_handle e =? h)) l.

Lemma handle_in_use_spec f cwd l h : fds_rep f cwd l →
  linux_fs_handle_in_use f h = negb (h =? 0) && uses l h.
Proof.
  intros Hr. unfold linux_fs_handle_in_use. destruct (h =? 0); [done|]. cbn [negb andb].
  destruct (fds_cap_law f cwd l Hr) as [-> _]. rewrite Nat2Z.id.
  assert (∀ fuel i, (i + fuel)%nat = length l →
    handle_in_use_loop f h (Z.of_nat i) fuel = uses (drop i l) h) as Hgen.
  { induction fuel as [|fuel IH]; intros i Hi; cbn [handle_in_use_loop].
    - by rewrite drop_ge by lia.
    - destruct (lookup_lt_is_Some_2 l i) as [e He]; [lia|].
      rewrite (fds_load_law f cwd l i e Hr He), (drop_S _ _ _ He). cbn [uses existsb].
      replace (Z.of_nat i + 1) with (Z.of_nat (S i)) by lia. rewrite IH by lia.
      by destruct (_ && _). }
  by rewrite <- (drop_0 l), <- (Hgen (length l) 0%nat eq_refl).
Qed.

Lemma store_at al f cwd l (fd : nat) e :
  fds_rep f cwd l → fds_full f → (fd < length l)%nat → entry_wf e →
  ∃ f', fds_store al f (Z.of_nat fd) e = (REND_SUCCESS, f')
    ∧ fds_rep f' cwd (<[fd := e]> l) ∧ fds_full f'.
Proof.
  intros Hr Hf Hlt He. destruct (fds_store_law al f cwd l fd e Hr Hlt He) as (f' & ? & ? & ?).
  exists f'. auto.
Qed.

Lemma entry_at_wf f cwd l (fd : nat) e : fds_rep f cwd l → l !! fd = Some e → entry_wf e.
Proof. intros Hr He. exact (Forall_lookup_1 _ _ _ _ (fds_wf_law f cwd l Hr) He). Qed.

Lemma with_path_nil_wf e : entry_wf e → entry_wf (with_fd_path e []).
Proof.
  intros [? ? ? ? ?]. split; cbn; try done; [unfold VFS_PATH_MAX; lia|apply not_elem_of_nil].
Qed.

Lemma with_fd_flags_wf e fl : entry_wf e → 0 ≤ fl < 2 ^ 32 → entry_wf (with_fd_flags e fl).
Proof. intros [? ? ? ? ?] ?. by split. Qed.

Lemma with_open_flags_wf e fl : entry_wf e → 0 ≤ fl < 2 ^ 32 → entry_wf (with_open_flags e fl).
Proof. intros [? ? ? ? ?] ?. by split. Qed.

Definition forget_path e : linux_fd_entry := if fd_is_dir e then with_fd_path e [] else e.

Lemma dir_path_release_gen al f cwd l (fd : nat) e :
  fds_rep f cwd l → l !! fd = Some e →
  fds_rep (linux_fs_dir_path_release al f (Z.of_nat fd)) cwd (<[fd := forget_path e]> l)
  ∧ (fds_full f → fds_full (linux_fs_dir_path_release al f (Z.of_nat fd))).
Proof.
  intros Hr He. unfold linux_fs_dir_path_release, forget_path.
  destruct (Z.ltb_spec (Z.of_nat fd) 0); [lia|]. rewrite (fds_load_law f cwd l fd e Hr He).
  destruct (fd_is_dir e); cbn [negb]; [|by rewrite list_insert_id].
  destruct (fds_store_law al f cwd l fd (with_fd_path e []) Hr) as (f' & -> & ? & ?); [| |done].
  - by eapply lookup_lt_Some.
  - apply with_path_nil_wf. by eapply entry_at_wf.
Qed.

Lemma dir_path_release_spec al f cwd l (fd : nat) e :
  fds_rep f cwd l → fds_full f → l !! fd = Some e →
  fds_rep (linux_fs_dir_path_release al f (Z.of_nat fd)) cwd (<[fd := forget_path e]> l)
  ∧ fds_full (linux_fs_dir_path_release al f (Z.of_nat fd)).
Proof. intros Hr Hf He. destruct (dir_path_release_gen al f cwd l fd e Hr He). auto. Qed.

(** What closing descriptor [fd] (entry [e]) does outside the table. *)
Definition close_world w l (fd : nat) e : world :=
  match fd_kind e with
  | LINUX_FD_PIPE =>
      set_pipes w (linux_pipe_fd_closed (w_pipes w) (vfs_handle e) (pipe_read e))
  | LINUX_FD_VFS =>
      if negb (vfs_handle e =? 0) && negb (uses (<[fd := zero_rec]> l) (vfs_handle e))
      then send w (KMSG_OP_VFS_CLOSE (vfs_handle e)) else w
  | _ => w
  end.

Lemma fd_close_gen al w f cwd l (fd : nat) e :
  fds_rep f cwd l → l !! fd = Some e → is_free e = false →
  ∃ f', linux_fd_close al w (Some f) (Z.of_nat fd) = (close_world w l fd e, Some f', 0)
    ∧ fds_rep f' cwd (<[fd := zero_rec]> l) ∧ (fds_full f → fds_full f').
Proof.
  intros Hr He Hused. pose proof (lookup_lt_Some _ _ _ He) as Hlt.
  unfold linux_fd_close, close_world. destruct (Z.ltb_spec (Z.of_nat fd) 0); [lia|].
  destruct (fds_cap_law f cwd l Hr) as [-> Hcap].
  destruct (Z.leb_spec (Z.of_nat (length l)) (Z.of_nat fd)); [lia|].
  rewrite (fds_load_law f cwd l fd e Hr He). apply bool_decide_eq_false in Hused.
  rewrite decide_False by done. cbv zeta.
  destruct (decide (fd_kind e = LINUX_FD_VFS)) as [Ek|Ek].
  - rewrite Ek. destruct (dir_path_release_gen al f cwd l fd e Hr He) as [Hr1 Hf1].
    set (f1 := if fd_is_dir e then _ else f).
    assert ((fds_full f → fds_full f1) ∧ fds_rep f1 cwd (<[fd := forget_path e]> l)) as [Hf1' Hr1'].
    { unfold f1, forget_path in *. destruct (fd_is_dir e); [done|]. by rewrite list_insert_id. }
    clearbody f1.
    destruct (fds_store_law al f1 cwd _ fd zero_rec Hr1') as (f2 & -> & Hr2 & Hf2);
      [by rewrite length_insert|apply zero_entry_wf|]. rewrite list_insert_insert_eq in Hr2.
    cbn [snd]. rewrite (handle_in_use_spec f2 cwd _ _ Hr2). exists f2. split_and!; [|done|auto].
    unfold linux_fs_release_vfs_handle. by destruct (vfs_handle e =? 0), (uses _ _).
  - destruct (fds_store_law al f cwd l fd zero_rec Hr Hlt zero_entry_wf) as (f2 & -> & Hr2 & Hf2).
    exists f2. split_and!; [|done..]. cbn [snd]. by destruct (fd_kind e).
Qed.

Lemma fd_close_spec al w f cwd l (fd : nat) e :
  fds_rep f cwd l → fds_full f → l !! fd = Some e → is_free e = false →
  ∃ f', linux_fd_close al w (Some f) (Z.of_nat fd) = (close_world w l fd e, Some f', 0)
    ∧ fds_rep f' cwd (<[fd := zero_rec]> l) ∧ fds_full f'.
Proof.
  intros Hr Hf He Hu. destruct (fd_close_gen al w f cwd l fd e Hr He Hu) as (f' & ? & ? & ?).
  exists f'. auto.
Qed.

(** The entry dup2 installs: without FD_CLOEXEC, except for a directory whose
    path is recorded, which is copied once more with all its flags. *)
Definition dup_entry e : linux_fd_entry :=
  if fd_is_dir e && negb (is_nul (vfs_abs_path e) 0) then e
  else with_fd_flags e (Z.land (fd_flags e) (not32 LINUX_FD_CLOEXEC)).

(** What dup2 of entry [e] over entry [old] does outside the table; [l'] are
    the entries afterwards. *)
Definition dup_world w e old (l' : list linux_fd_entry) : world :=
  let w1 := match fd_kind old with
            | LINUX_FD_PIPE =>
                set_pipes w (linux_pipe_fd_closed (w_pipes w) (vfs_handle old) (pipe_read old))
            | _ => w
            end in
  let w2 := match fd_kind e with
            | LINUX_FD_VFS =>
                if vfs_handle e =? 0 then w1
                else send w1 (KMSG_OP_VFS_HANDLE_RETAIN (vfs_handle e))
            | LINUX_FD_PIPE =>
                set_pipes w1 (linux_pipe_fork_retain (w_pipes w1) (vfs_handle e) (pipe_read e))
            | _ => w1
            end in
  match fd_kind old with
  | LINUX_FD_VFS =>
      if negb (vfs_handle old =? 0) && negb (uses l' (vfs_handle old))
      then send w2 (KMSG_OP_VFS_CLOSE (vfs_handle old)) else w2
  | _ => w2
  end.

Lemma dup_install al f cwd l (oldfd newfd : nat) e :
  fds_rep f cwd l → fds_full f → l !! oldfd = Some e → (newfd < length l)%nat → oldfd ≠ newfd →
  let e1 := with_fd_flags e (Z.land (fd_flags e) (not32 LINUX_FD_CLOEXEC)) in
  ∃ f1, fds_store al f (Z.of_nat newfd) e1 = (REND_SUCCESS, f1)
    ∧ let f2 := if fd_is_dir e1 then linux_fs_dir_path_dup al f1 (Z.of_nat oldfd) (Z.of_nat newfd)
                else linux_fs_dir_path_release al f1 (Z.of_nat newfd) in
      fds_rep f2 cwd (<[newfd := dup_entry e]> l) ∧ fds_full f2.
Proof.
  intros Hr Hf He Hlt Hne e1. pose proof (entry_at_wf _ _ _ _ _ Hr He) as Hwf.
  assert (entry_wf e1) as Hwf1.
  { apply with_fd_flags_wf; [done|]. apply land_bound; [lia|apply Hwf]. }
  destruct (store_at al f cwd l newfd e1 Hr Hf Hlt Hwf1) as (f1 & E1 & Hr1 & Hf1).
  exists f1. split; [done|]. cbv zeta. unfold dup_entry. fold e1.
  assert (<[newfd := e1]> l !! newfd = Some e1) as Hn1 by by apply list_lookup_insert_eq.
  assert (<[newfd := e1]> l !! oldfd = Some e) as Ho1 by by rewrite list_lookup_insert_ne.
  destruct (dir_path_release_spec al f1 cwd _ newfd e1 Hr1 Hf1 Hn1) as [Hrr Hrf].
  rewrite list_insert_insert_eq in Hrr.
  assert (forget_path e1 = with_fd_path e1 (if fd_is_dir e then [] else vfs_abs_path e)) as Hfp.
  { unfold forget_path, e1, with_fd_flags, with_fd_path. cbn. destruct (fd_is_dir e); done. }
  change (fd_is_dir e1) with (fd_is_dir e). destruct (fd_is_dir e) eqn:Ed; cbn [andb].
  - unfold linux_fs_dir_path_dup. rewrite (proj2 (Z.eqb_neq _ _)) by lia.
    rewrite (fds_load_law f1 cwd _ oldfd e Hr1 Ho1), Ed. cbn [negb orb].
    destruct (is_nul (vfs_abs_path e) 0) eqn:En; cbn [negb].
    + split; [|done]. rewrite Hfp in Hrr. apply is_nul_0 in En.
      replace e1 with (with_fd_path e1 []); [done|]. unfold e1, with_fd_flags, with_fd_path. cbn. by rewrite En.
    + destruct (store_at al f1 cwd _ newfd e Hr1 Hf1) as (f2 & -> & Hr2 & Hf2);
        [by rewrite length_insert|done|]. by rewrite list_insert_insert_eq in Hr2.
  - rewrite Hfp in Hrr. split; [|done]. by replace (with_fd_path e1 (vfs_abs_path e)) with e1 in Hrr by by destruct e.
Qed.

Lemma fd_dup2_spec al w f cwd l (oldfd newfd : nat) e old :
  fds_rep f cwd l → fds_full f → l !! oldfd = Some e → is_free e = false →
  l !! newfd = Some old → oldfd ≠ newfd →
  ∃ f', linux_fd_dup2 al w (Some f) (Z.of_nat oldfd) (Z.of_nat newfd)
        = (dup_world w e old (<[newfd := dup_entry e]> l), Some f', Z.of_nat newfd)
    ∧ fds_rep f' cwd (<[newfd := dup_entry e]> l) ∧ fds_full f'.
Proof.
  intros Hr Hf He Hused Hold Hne. pose proof (lookup_lt_Some _ _ _ He). pose proof (lookup_lt_Some _ _ _ Hold).
  unfold linux_fd_dup2. rewrite !(proj2 (Z.ltb_ge _ _)) by lia. cbn [orb].
  rewrite (proj2 (Z.eqb_neq _ _)) by lia. destruct (fds_cap_law f cwd l Hr) as [Hcap _].
  rewrite Hcap, (proj2 (Z.leb_gt _ _)) by lia. rewrite decide_False by tauto.
  rewrite Hcap, (proj2 (Z.leb_gt _ _)) by lia.
  rewrite (fds_load_law f cwd l oldfd e Hr He), (fds_load_law f cwd l newfd old Hr Hold).
  apply bool_decide_eq_false in Hused. rewrite decide_False by done. cbv zeta.
  destruct (dup_install al f cwd l oldfd newfd e Hr Hf He ltac:(lia) Hne) as (f1 & -> & Hr2 & Hf2).
  set (e1 := with_fd_flags _ _) in *. set (f2 := if fd_is_dir e1 then _ else _) in *.
  rewrite (handle_in_use_spec f2 cwd _ _ Hr2). exists f2. split_and!; [|done..].
  unfold dup_world, linux_fs_retain_vfs_handle, linux_fs_release_vfs_handle.
  change (fd_kind e1) with (fd_kind e). change (vfs_handle e1) with (vfs_handle e).
  change (pipe_read e1) with (pipe_read e).
  destruct (fd_kind e), (fd_kind old); try done; repeat case_decide; try done;
    repeat (case_bool_decide; try done); cbn [andb];
    destruct (vfs_handle e =? 0), (vfs_handle old =? 0); cbn [negb andb Z.eqb]; try done;
    by destruct (uses _ _).
Qed.

(** ** Fork, exit and reap *)

(** The VFS handles the entries hold, one per descriptor. *)
Definition vfs_handle_of e : option Z :=
  if bool_decide (fd_kind e = LINUX_FD_VFS) && negb (vfs_handle e =? 0)
  then Some (vfs_handle e) else None.
Definition vfs_handles l : list Z := omap vfs_handle_of l.

(** The pipe ends the entries hold. *)
Definition pipe_end_of e : option (Z * bool) :=
  if decide (fd_kind e = LINUX_FD_PIPE) then Some (vfs_handle e, pipe_read e) else None.
Definition pipe_ends l : list (Z * bool) := omap pipe_end_of l.

Definition close_ends (p : pipe_table) (es : list (Z * bool)) : pipe_table :=
  foldl (λ p '(id, r), linux_pipe_fd_closed p id r) p es.
Definition retain_ends (p : pipe_table) (es : list (Z * bool)) : pipe_table :=
  foldl (λ p '(id, r), linux_pipe_fork_retain p id r) p es.

(** Every reference of the entries released, or acquired once more. *)
Definition released w l : world :=
  World (close_ends (w_pipes w) (pipe_ends l)) (w_ipc w ++ (KMSG_OP_VFS_CLOSE <$> vfs_handles l)).
Definition retained w l : world :=
  World (retain_ends (w_pipes w) (pipe_ends l))
    (w_ipc w ++ (KMSG_OP_VFS_HANDLE_RETAIN <$> vfs_handles l)).

(** The entry after [linux_fs_release_open_resources]: only the path of an open
    directory is dropped. *)
Definition release_entry e : linux_fd_entry :=
  match vfs_handle_of e with Some _ => forget_path e | None => e end.

Lemma released_nil w : released w [] = w.
Proof. destruct w. unfold released. cbn. by rewrite app_nil_r. Qed.

Lemma released_app w l1 l2 : released w (l1 ++ l2) = released (released w l1) l2.
Proof.
  unfold released, vfs_handles, pipe_ends, close_ends. cbn [w_pipes w_ipc].
  by rewrite !omap_app, foldl_app, fmap_app, <- app_assoc.
Qed.

Lemma retained_nil w : retained w [] = w.
Proof. destruct w. unfold retained. cbn. by rewrite app_nil_r. Qed.

Lemma retained_app w l1 l2 : retained w (l1 ++ l2) = retained (retained w l1) l2.
Proof.
  unfold retained, vfs_handles, pipe_ends, retain_ends. cbn [w_pipes w_ipc].
  by rewrite !omap_app, foldl_app, fmap_app, <- app_assoc.
Qed.

Lemma release_entry_same e :
  vfs_handle_of (release_entry e) = vfs_handle_of e ∧ pipe_end_of (release_entry e) = pipe_end_of e.
Proof.
  unfold release_entry. destruct (vfs_handle_of e) eqn:E; [|done].
  rewrite <- E. unfold forget_path. by destruct (fd_is_dir e).
Qed.

Lemma released_again w l : released w (release_entry <$> l) = released w l.
Proof.
  unfold released, vfs_handles, pipe_ends. f_equal; [f_equal|f_equal; f_equal];
    induction l as [|e l IH]; cbn; try done; destruct (release_entry_same e) as [Hv Hp];
    rewrite ?Hv, ?Hp, IH; done.
Qed.

Lemma released_one w e :
  released w [e] =
  (if decide (fd_kind e = LINUX_FD_PIPE)
   then set_pipes w (linux_pipe_fd_closed (w_pipes w) (vfs_handle e) (pipe_read e))
   else if bool_decide (fd_kind e ≠ LINUX_FD_VFS) || (vfs_handle e =? 0) then w
   else send w (KMSG_OP_VFS_CLOSE (vfs_handle e))).
Proof.
  destruct w as [p m]. unfold released, vfs_handles, pipe_ends, vfs_handle_of, pipe_end_of. cbn.
  destruct (decide _) as [Ek|Ek]; [rewrite Ek; cbn; by rewrite app_nil_r|].
  repeat case_bool_decide; try done; destruct (vfs_handle e =? 0); cbn; by rewrite ?app_nil_r.
Qed.

Lemma retained_one w e :
  retained w [e] =
  (if decide (fd_kind e = LINUX_FD_PIPE)
   then set_pipes w (linux_pipe_fork_retain (w_pipes w) (vfs_handle e) (pipe_read e))
   else if bool_decide (fd_kind e ≠ LINUX_FD_VFS) || (vfs_handle e =? 0) then w
   else send w (KMSG_OP_VFS_HANDLE_RETAIN (vfs_handle e))).
Proof.
  destruct w as [p m]. unfold retained, vfs_handles, pipe_ends, vfs_handle_of, pipe_end_of. cbn.
  destruct (decide _) as [Ek|Ek]; [rewrite Ek; cbn; by rewrite app_nil_r|].
  repeat case_bool_decide; try done; destruct (vfs_handle e =? 0); cbn; by rewrite ?app_nil_r.
Qed.

Lemma release_loop_spec al fuel : ∀ w f cwd l (i : nat),
  fds_rep f cwd l → fds_full f → (i + fuel)%nat = length l →
  ∃ f', release_loop al w f (Z.of_nat i) fuel = (released w (drop i l), f')
    ∧ fds_rep f' cwd (take i l ++ (release_entry <$> drop i l)) ∧ fds_full f'.
Proof.
  induction fuel as [|fuel IH]; intros w f cwd l i Hr Hf Hi; cbn [release_loop].
  { exists f. rewrite drop_ge, take_ge, released_nil by lia. cbn. by rewrite app_nil_r. }
  destruct (lookup_lt_is_Some_2 l i) as [e He]; [lia|].
  rewrite (fds_load_law f cwd l i e Hr He), (drop_S _ _ _ He).
  replace (Z.of_nat i + 1) with (Z.of_nat (S i)) by lia.
  change (e :: drop (S i) l) with ([e] ++ drop (S i) l). rewrite released_app, released_one.
  change (release_entry <$> [e] ++ drop (S i) l)
    with (release_entry e :: (release_entry <$> drop (S i) l)).
  assert (∀ x, take i l ++ x :: (release_entry <$> drop (S i) l)
               = take (S i) (<[i:=x]> l) ++ (release_entry <$> drop (S i) (<[i:=x]> l))) as Hsplit.
  { intros x. rewrite drop_insert_lt by lia.
    rewrite (take_S_r _ _ x) by (apply list_lookup_insert_eq; lia).
    by rewrite take_insert_ge, <- app_assoc by lia. }
  rewrite Hsplit. unfold release_entry at 1 3, vfs_handle_of.
  assert (∀ w', ∃ f', release_loop al w' f (Z.of_nat (S i)) fuel = (released w' (drop (S i) l), f')
    ∧ fds_rep f' cwd (take (S i) (<[i:=e]> l) ++ (release_entry <$> drop (S i) (<[i:=e]> l)))
    ∧ fds_full f') as Hsame.
  { intros w'. rewrite list_insert_id by done. apply IH; [done..|lia]. }
  destruct (decide (fd_kind e = LINUX_FD_PIPE)) as [Ek|Ek].
  { rewrite Ek, bool_decide_eq_false_2 by done. apply Hsame. }
  destruct (decide (fd_kind e = LINUX_FD_VFS)) as [Ev|Ev].
  2:{ rewrite (bool_decide_eq_true_2 (fd_kind e ≠ _)), (bool_decide_eq_false_2 (fd_kind e = _)) by done.
      apply Hsame. }
  rewrite (bool_decide_eq_false_2 (fd_kind e ≠ _)), (bool_decide_eq_true_2 (fd_kind e = _)) by tauto.
  unfold linux_fs_release_vfs_handle. cbn [orb andb].
  destruct (vfs_handle e =? 0); cbn [negb]; [apply Hsame|].
  destruct (dir_path_release_spec al f cwd l i e Hr Hf He) as [Hr1 Hf1].
  unfold forget_path in *. destruct (fd_is_dir e); [|apply Hsame].
  rewrite <- (drop_insert_lt l (S i) i (with_fd_path e [])) by lia.
  apply IH; [done..|]. rewrite length_insert. lia.
Qed.

Lemma release_open_resources_spec al w f cwd l :
  fds_rep f cwd l → fds_full f →
  ∃ f', linux_fs_release_open_resources al w f = (released w l, f')
    ∧ fds_rep f' cwd (release_entry <$> l) ∧ fds_full f'.
Proof.
  intros Hr Hf. unfold linux_fs_release_open_resources.
  destruct (fds_cap_law f cwd l Hr) as [-> _]. rewrite Nat2Z.id.
  by destruct (release_loop_spec al (length l) w f cwd l 0 Hr Hf eq_refl) as (f' & ? & ? & ?); exists f'.
Qed.

Lemma retain_loop_spec fuel : ∀ w f cwd l (i : nat),
  fds_rep f cwd l → (i + fuel)%nat = length l →
  retain_loop w f (Z.of_nat i) fuel = retained w (drop i l).
Proof.
  induction fuel as [|fuel IH]; intros w f cwd l i Hr Hi; cbn [retain_loop].
  { by rewrite drop_ge, retained_nil by lia. }
  destruct (lookup_lt_is_Some_2 l i) as [e He]; [lia|].
  rewrite (fds_load_law f cwd l i e Hr He), (drop_S _ _ _ He).
  replace (Z.of_nat i + 1) with (Z.of_nat (S i)) by lia.
  change (e :: drop (S i) l) with ([e] ++ drop (S i) l). rewrite retained_app, retained_one.
  unfold linux_fs_retain_vfs_handle.
  destruct (decide (fd_kind e = LINUX_FD_PIPE)); [by eapply IH; [|lia]|].
  destruct (bool_decide (fd_kind e ≠ LINUX_FD_VFS)), (vfs_handle e =? 0); cbn [orb];
    (eapply IH; [done|lia]).
Qed.

Lemma proc_fork_spec al w f cwd l :
  fds_rep f cwd l → fds_full f →
  (∃ f', linux_fs_proc_fork al true w (Some f) = (retained w l, (REND_SUCCESS, Some f'))
     ∧ fds_rep f' cwd l ∧ fds_full f')
  ∨ ∃ err : error_t, err ≠ REND_SUCCESS
      ∧ linux_fs_proc_fork al true w (Some f) = (w, (err, None)).
Proof.
  intros Hr Hf. unfold linux_fs_proc_fork, linux_fs_fork_copy_state, linux_fs_fork_retain_resources.
  cbn [negb]. destruct (fds_clone f) as [e f'] eqn:Ec.
  destruct (decide (e = REND_SUCCESS)) as [->|He]; [left|right].
  - destruct (fds_clone_law f f' cwd l Hr Ec) as [Hr' Hf']. exists f'. split_and!; [|auto..].
    destruct (fds_cap_law f' cwd l Hr') as [-> _]. rewrite Nat2Z.id.
    change (retain_loop w f' 0) with (retain_loop w f' (Z.of_nat 0)).
    by rewrite (retain_loop_spec (length l) w f' cwd l 0 Hr' eq_refl).
  - exists e. split; [done|]. by destruct e.
Qed.

(** ** Descriptors by number

    [opened l fd]: the entry of descriptor [fd], when it is open. *)
Definition opened l (fd : Z) : option linux_fd_entry :=
  if fd <? 0 then None
  else l !! Z.to_nat fd ≫= λ e, if is_free e then None else Some e.

Lemma opened_Some l fd e :
  opened l fd = Some e ↔ ∃ n : nat, fd = Z.of_nat n ∧ l !! n = Some e ∧ is_free e = false.
Proof.
  unfold opened. destruct (Z.ltb_spec fd 0).
  - split; [done|]. intros (n & -> & _). lia.
  - split.
    + intros (x & Hx & Hf)%bind_Some. destruct (is_free x) eqn:E; [done|]. injection Hf as <-.
      exists (Z.to_nat fd). rewrite Z2Nat.id by done. done.
    + intros (n & -> & He & Hf). rewrite Nat2Z.id, He. cbn. by rewrite Hf.
Qed.

Lemma opened_None l (fd : nat) e :
  opened l (Z.of_nat fd) = None → l !! fd = Some e → fd_kind e = LINUX_FD_NONE.
Proof.
  unfold opened. rewrite (proj2 (Z.ltb_ge _ _)), Nat2Z.id by lia. intros Ho He. rewrite He in Ho. cbn in Ho.
  destruct (is_free e) eqn:E; [|done]. by apply bool_decide_eq_true in E.
Qed.

Lemma fd_get_spec f cwd l fd : fds_rep f cwd l → linux_fd_get (Some f) fd = opened l fd.
Proof.
  intros Hr. unfold linux_fd_get, opened. destruct (Z.ltb_spec fd 0); [done|].
  destruct (fds_cap_law f cwd l Hr) as [-> _]. destruct (Z_of_nat_complete fd) as [n ->]; [done|].
  rewrite Nat2Z.id. destruct (Z.leb_spec (Z.of_nat (length l)) (Z.of_nat n)).
  - by rewrite lookup_ge_None_2 by lia.
  - destruct (lookup_lt_is_Some_2 l n) as [e He]; [lia|]. rewrite He, (fds_load_law f cwd l n e Hr He).
    cbn. unfold is_free. destruct (decide _), (bool_decide_reflect (fd_kind e = LINUX_FD_NONE)); done.
Qed.

(** Closing a descriptor, on every branch: a descriptor that is not open is
    EBADF and nothing changes; otherwise the entry is cleared, every other
    descriptor is kept, a pipe end is closed once, and CLOSE is sent for an open
    file exactly when no other descriptor of the process is the same file. *)
Theorem fd_close_correct al w f cwd l fd :
  fds_rep f cwd l →
  match opened l fd with
  | None => linux_fd_close al w (Some f) fd = (w, Some f, - LINUX_EBADF)
  | Some e =>
      ∃ f', linux_fd_close al w (Some f) fd = (close_world w l (Z.to_nat fd) e, Some f', 0)
        ∧ fds_rep f' cwd (<[Z.to_nat fd := zero_rec]> l) ∧ opened (<[Z.to_nat fd := zero_rec]> l) fd = None
  end.
Proof.
  intros Hr. destruct (opened l fd) as [e|] eqn:Eo.
  - apply opened_Some in Eo as (n & -> & He & Hu). rewrite Nat2Z.id.
    destruct (fd_close_gen al w f cwd l n e Hr He Hu) as (f' & ? & ? & _).
    exists f'. split_and!; [done..|]. unfold opened. rewrite (proj2 (Z.ltb_ge _ _)), Nat2Z.id by lia.
    rewrite list_lookup_insert_eq by (by eapply lookup_lt_Some). done.
  - unfold linux_fd_close. destruct (Z.ltb_spec fd 0); [done|].
    destruct (Z_of_nat_complete fd) as [n ->]; [done|].
    destruct (fds_cap_law f cwd l Hr) as [-> _].
    destruct (Z.leb_spec (Z.of_nat (length l)) (Z.of_nat n)); [done|].
    destruct (lookup_lt_is_Some_2 l n) as [e He]; [lia|]. rewrite (fds_load_law f cwd l n e Hr He).
    cbv zeta. by rewrite decide_True by by eapply opened_None.
Qed.

(** The entries after dup2 has made room for [newfd]. *)
Definition room l (newfd : nat) : list linux_fd_entry := grown l (S newfd - length l).

Lemma room_lookup l newfd : ∃ e, room l newfd !! newfd = Some e
  ∧ opened l (Z.of_nat newfd) = opened (room l newfd) (Z.of_nat newfd).
Proof.
  unfold opened. rewrite (proj2 (Z.ltb_ge _ _)), Nat2Z.id by lia. unfold room, grown.
  destruct (decide (newfd < length l)%nat).
  - rewrite lookup_app_l by done. destruct (lookup_lt_is_Some_2 l newfd) as [e He]; [done|].
    exists e. by rewrite He.
  - exists zero_rec. rewrite lookup_app_r by lia.
    rewrite (lookup_replicate_2 _ zero_rec) by lia. split; [done|]. by rewrite lookup_ge_None_2 by lia.
Qed.

Lemma grown_opened l n fd : opened (grown l n) fd = opened l fd.
Proof.
  unfold opened. destruct (fd <? 0); [done|]. unfold grown.
  destruct (decide (Z.to_nat fd < length l)%nat); [by rewrite lookup_app_l|].
  rewrite (lookup_ge_None_2 l) by lia. rewrite lookup_app_r by lia.
  destruct (replicate _ _ !! _) as [e|] eqn:E; [|done]. by apply lookup_replicate in E as [-> _].
Qed.

Lemma room_opened l newfd fd : opened (room l newfd) fd = opened l fd.
Proof. apply grown_opened. Qed.

Lemma dup2_make_room al f cwd l (newfd : nat) err f0 :
  fds_rep f cwd l → fds_full f → Z.of_nat newfd + 1 < FD_CAP_BOUND →
  (if fds_capacity f <=? Z.of_nat newfd then fds_grow al f (u32 (Z.of_nat newfd + 1))
   else (REND_SUCCESS, f)) = (err, f0) →
  (err = REND_SUCCESS ∧ fds_full f0 ∧ fds_rep f0 cwd (room l newfd))
  ∨ (err ≠ REND_SUCCESS ∧ fds_rep f0 cwd l).
Proof.
  intros Hr Hf Hb. destruct (fds_cap_law f cwd l Hr) as [-> _]. unfold room, grown.
  destruct (Z.leb_spec (Z.of_nat (length l)) (Z.of_nat newfd)).
  - rewrite uw_small by (unfold FD_CAP_BOUND in *; lia). intros Eg.
    destruct (fds_grow_law al f cwd l (Z.of_nat newfd + 1) err f0 Hr Hf ltac:(lia) Eg) as [_ [Hs Hfail]]; [lia|].
    destruct (decide (err = REND_SUCCESS)) as [->|]; [left|right; auto].
    destruct (Hs eq_refl) as [? Hr0]. replace (S newfd) with (Z.to_nat (Z.of_nat newfd + 1)) by lia. done.
  - intros [= <- <-]. left. replace (S newfd - length l)%nat with 0%nat by lia. cbn.
    by rewrite app_nil_r.
Qed.

Lemma dup2_grows al w f cwd l (oldfd newfd : nat) err f0 :
  fds_rep f cwd l → fds_full f → oldfd ≠ newfd → Z.of_nat newfd + 1 < FD_CAP_BOUND →
  (if fds_capacity f <=? Z.of_nat newfd then fds_grow al f (u32 (Z.of_nat newfd + 1))
   else (REND_SUCCESS, f)) = (err, f0) →
  linux_fd_dup2 al w (Some f) (Z.of_nat oldfd) (Z.of_nat newfd)
  = if decide (err ≠ REND_SUCCESS) then (w, Some f0, - LINUX_EBADF)
    else linux_fd_dup2 al w (Some f0) (Z.of_nat oldfd) (Z.of_nat newfd).
Proof.
  intros Hr Hf Hne Hb Eg.
  unfold linux_fd_dup2 at 1. rewrite !(proj2 (Z.ltb_ge _ _)) by lia. cbn [orb].
  rewrite (proj2 (Z.eqb_neq _ _)) by lia. rewrite Eg.
  destruct (decide (err ≠ REND_SUCCESS)) as [|Hs]; [done|].
  destruct (dup2_make_room al f cwd l newfd err f0 Hr Hf Hb Eg) as [(_ & _ & Hr0)|[? _]]; [|done].
  unfold linux_fd_dup2. rewrite !(proj2 (Z.ltb_ge _ _)) by lia. cbn [orb].
  rewrite (proj2 (Z.eqb_neq _ _)) by lia. destruct (fds_cap_law f0 cwd _ Hr0) as [Hcap0 _].
  destruct (room_lookup l newfd) as (x & Hx%lookup_lt_Some & _).
  rewrite (proj2 (Z.leb_gt (fds_capacity f0) (Z.of_nat newfd))) by lia.
  by rewrite decide_False by tauto.
Qed.

Lemma dup2_not_open al w f cwd l (oldfd newfd : nat) :
  fds_rep f cwd l → oldfd ≠ newfd → (newfd < length l)%nat → opened l (Z.of_nat oldfd) = None →
  linux_fd_dup2 al w (Some f) (Z.of_nat oldfd) (Z.of_nat newfd) = (w, Some f, - LINUX_EBADF).
Proof.
  intros Hr Hne Hlt Eo. unfold linux_fd_dup2.
  rewrite !(proj2 (Z.ltb_ge _ _)) by lia. cbn [orb]. rewrite (proj2 (Z.eqb_neq _ _)) by lia.
  destruct (fds_cap_law f cwd _ Hr) as [Hcap _]. rewrite Hcap.
  rewrite (proj2 (Z.leb_gt (Z.of_nat (length l)) (Z.of_nat newfd))) by lia.
  rewrite decide_False, Hcap by tauto.
  destruct (Z.leb_spec (Z.of_nat (length l)) (Z.of_nat oldfd)); [done|].
  destruct (lookup_lt_is_Some_2 l oldfd) as [e He]; [lia|].
  rewrite (fds_load_law f cwd _ oldfd e Hr He). by rewrite decide_True by by eapply opened_None.
Qed.

(** Duplicating a descriptor onto another number, on every branch: the table
    grows to contain the number; the new descriptor is a copy of the old one, no
    other descriptor changes, the file or pipe end behind it is retained once,
    what the number named before is released (a pipe end always, a file when no
    descriptor is left), and every failure is EBADF without any effect outside
    the table.  The copy has FD_CLOEXEC cleared, except for a directory with a
    recorded path ([dup_entry]). *)
Theorem fd_dup2_correct al w f cwd l oldfd (newfd : nat) :
  fds_rep f cwd l → fds_full f → oldfd ≠ Z.of_nat newfd → Z.of_nat newfd + 1 < FD_CAP_BOUND →
  ∃ f' err,
    (if fds_capacity f <=? Z.of_nat newfd then fds_grow al f (u32 (Z.of_nat newfd + 1))
     else (REND_SUCCESS, f)).1 = err
    ∧ match opened l oldfd, err with
      | Some e, REND_SUCCESS =>
          let l' := <[newfd := dup_entry e]> (room l newfd) in
          ∃ old, room l newfd !! newfd = Some old
            ∧ linux_fd_dup2 al w (Some f) oldfd (Z.of_nat newfd)
              = (dup_world w e old l', Some f', Z.of_nat newfd)
            ∧ fds_rep f' cwd l'
      | _, _ =>
          linux_fd_dup2 al w (Some f) oldfd (Z.of_nat newfd) = (w, Some f', - LINUX_EBADF)
          ∧ (fds_rep f' cwd l ∨ fds_rep f' cwd (room l newfd))
      end.
Proof.
  intros Hr Hf Hne Hb.
  destruct (if fds_capacity f <=? Z.of_nat newfd then _ else _) as [err f0] eqn:Eg.
  destruct (Z.ltb_spec oldfd 0) as [Hneg|Hpos].
  { exists f, err. split; [done|]. unfold linux_fd_dup2, opened.
    rewrite (proj2 (Z.ltb_lt oldfd 0)) by done. cbn [orb]. auto. }
  destruct (Z_of_nat_complete oldfd) as [o ->]; [done|].
  rewrite (dup2_grows al w f cwd l o newfd err f0 Hr Hf ltac:(lia) Hb Eg).
  destruct (dup2_make_room al f cwd l newfd err f0 Hr Hf Hb Eg)
    as [(-> & Hf0 & Hr0)|[He Hr0]].
  - destruct (room_lookup l newfd) as (old & Hold & _).
    rewrite decide_False by tauto. rewrite <- (room_opened l newfd (Z.of_nat o)).
    destruct (opened (room l newfd) (Z.of_nat o)) as [e|] eqn:Eo.
    + apply opened_Some in Eo as (n & ?%Nat2Z.inj & He & Hu). subst n.
      destruct (fd_dup2_spec al w f0 cwd _ o newfd e old Hr0 Hf0 He Hu Hold) as (f' & ? & ? & _); [lia|].
      exists f', REND_SUCCESS. split; [done|]. by exists old.
    + exists f0, REND_SUCCESS. split_and!; [done| |by right].
      apply (dup2_not_open al w f0 cwd _ o newfd Hr0); [lia|by eapply lookup_lt_Some|done].
  - exists f0, err. rewrite decide_True by done. split; [done|].
    destruct (opened l _), err; auto; done.
Qed.

(** ** fcntl *)

Lemma grown_grown l a b : grown (grown l a) b = grown l (a + b).
Proof. unfold grown. by rewrite <- app_assoc, <- replicate_add. Qed.

Lemma grown_0 l : grown l 0 = l.
Proof. apply app_nil_r. Qed.

(** A growth succeeds and adds free slots, or changes no entry. *)
Lemma grow_more al f cwd l n err f1 :
  fds_rep f cwd l → fds_full f → Z.of_nat (length l) < n < FD_CAP_BOUND →
  fds_grow al f n = (err, f1) →
  (err = REND_SUCCESS ∧ fds_full f1 ∧ fds_rep f1 cwd (grown l (Z.to_nat n - length l)))
  ∨ (err ≠ REND_SUCCESS ∧ fds_rep f1 cwd l).
Proof.
  intros Hr Hf Hn Eg. pose proof (proj2 (fds_cap_law f cwd l Hr)).
  destruct (fds_grow_law al f cwd l n err f1 Hr Hf ltac:(lia) Eg) as [_ [Hs Hfail]]; [lia|].
  destruct (decide (err = REND_SUCCESS)) as [->|]; [left|right; auto].
  destruct (Hs eq_refl). done.
Qed.

(** The search of [linux_fd_lowest_free_from] in a table that reaches [minfd]. *)
Lemma search_from_spec al f cwd l (m : nat) t' r :
  fds_rep f cwd l → fds_full f → (m ≤ length l)%nat → Z.of_nat (length l) + 64 < FD_CAP_BOUND →
  (let fd := linux_fd_find_free_from f (Z.of_nat m) in
   if 0 <=? fd then (Some f, fd)
   else match fds_grow al f (u32 (fds_capacity f + LINUX_FS_SLICE_FD_GROW)) with
        | (REND_SUCCESS, f2) => (Some f2, linux_fd_find_free_from f2 (Z.of_nat m))
        | (_, f2) => (Some f2, -1)
        end) = (t', r) →
  ∃ f' n, t' = Some f' ∧ fds_rep f' cwd (grown l n)
    ∧ (r = -1 ∨ fds_full f' ∧ ∃ k, r = Z.of_nat k ∧ lowest_free (grown l n) m k).
Proof.
  intros Hr Hf Hm Hb. cbv zeta.
  destruct (find_free_from_spec f cwd l m Hr) as [[-> Hn]|(k & -> & Hk)].
  2:{ rewrite (proj2 (Z.leb_le _ _)) by lia. intros [= <- <-]. exists f, 0%nat.
      rewrite grown_0. split_and!; [done..|]. right. split; [done|]. by exists k. }
  cbn [Z.leb Z.compare]. destruct (fds_cap_law f cwd l Hr) as [-> _].
  unfold LINUX_FS_SLICE_FD_GROW. rewrite uw_small by (unfold FD_CAP_BOUND in *; lia).
  destruct (fds_grow al f (Z.of_nat (length l) + 64)) as [err f1] eqn:Eg.
  destruct (grow_more al f cwd l (Z.of_nat (length l) + 64) err f1 Hr Hf ltac:(lia) Eg) as [(-> & Hf1 & Hr1)|[He Hr1]].
  - intros [= <- <-]. exists f1. eexists. split_and!; [done|exact Hr1|].
    set (n := (Z.to_nat _ - _)%nat) in *.
    pose proof (lowest_free_grown l m n Hn Hm ltac:(lia)) as Hlow.
    destruct (find_free_from_spec f1 cwd _ m Hr1) as [[-> _]|(k & -> & Hk)]; [by left|].
    right. split; [done|]. by exists k.
  - intros E. assert (t' = Some f1 ∧ r = -1) as [-> ->] by (destruct err; naive_solver).
    exists f1, 0%nat. rewrite grown_0. auto.
Qed.

Lemma lowest_free_from_spec al f cwd l (m : nat) t' r :
  fds_rep f cwd l → fds_full f →
  Z.of_nat (length l) + 64 < FD_CAP_BOUND → Z.of_nat m + 65 < FD_CAP_BOUND →
  linux_fd_lowest_free_from al (Some f) (Z.of_nat m) = (t', r) →
  ∃ f' n, t' = Some f' ∧ fds_rep f' cwd (grown l n)
    ∧ (r = -1 ∨ fds_full f' ∧ ∃ k, r = Z.of_nat k ∧ lowest_free (grown l n) m k).
Proof.
  intros Hr Hf Hb Hbm. unfold linux_fd_lowest_free_from. rewrite (proj2 (Z.ltb_ge _ _)) by lia.
  cbv beta zeta. destruct (fds_cap_law f cwd l Hr) as [Hcap _].
  destruct (Z.leb_spec (fds_capacity f) (Z.of_nat m)); [|apply search_from_spec; try done; lia].
  rewrite uw_small by (unfold FD_CAP_BOUND in *; lia).
  destruct (fds_grow al f (Z.of_nat m + 1)) as [err f1] eqn:Eg.
  destruct (grow_more al f cwd l (Z.of_nat m + 1) err f1 Hr Hf ltac:(lia) Eg) as [(-> & Hf1 & Hr1)|[He Hr1]].
  - set (n1 := (Z.to_nat _ - _)%nat) in *. intros E.
    assert (length (grown l n1) = S m) as Hlen.
    { unfold grown. rewrite length_app, length_replicate. lia. }
    destruct (search_from_spec al f1 cwd _ m t' r Hr1 Hf1 ltac:(lia) ltac:(lia) E) as (f' & n & ? & Hr' & Hres).
    rewrite grown_grown in Hr', Hres. by exists f', (n1 + n)%nat.
  - intros E. assert (t' = Some f1 ∧ r = -1) as [-> ->] by (destruct err; naive_solver).
    exists f1, 0%nat. rewrite grown_0. auto.
Qed.

Lemma fd_store_spec al f cwd l (fd : nat) e :
  fds_rep f cwd l → fds_full f → (fd < length l)%nat → entry_wf e →
  ∃ f', linux_fd_store al (Some f) (Z.of_nat fd) e = (Some f', REND_SUCCESS)
    ∧ fds_rep f' cwd (<[fd := e]> l) ∧ fds_full f'.
Proof.
  intros Hr Hf Hlt Hw. unfold linux_fd_store. rewrite (proj2 (Z.ltb_ge _ _)) by lia.
  destruct (fds_cap_law f cwd l Hr) as [-> _]. rewrite (proj2 (Z.leb_gt _ _)) by lia. cbn [orb].
  destruct (store_at al f cwd l fd e Hr Hf Hlt Hw) as (f' & -> & ? & ?). by exists f'.
Qed.

Lemma dup_entry_wf e : entry_wf e → entry_wf (dup_entry e).
Proof.
  intros He. unfold dup_entry. destruct (_ && _); [done|]. apply with_fd_flags_wf; [done|].
  apply land_bound; [lia|apply He].
Qed.

Lemma dup_entry_used e : is_free (dup_entry e) = is_free e.
Proof. unfold dup_entry. by destruct (_ && _). Qed.

Definition setfl_flags (old arg : Z) : Z :=
  Z.lor (Z.land old (not32 LINUX_F_SETFL_MASK)) (Z.land (u32 arg) LINUX_F_SETFL_MASK).

(** The flag commands of fcntl on every branch: EBADF on a descriptor that is
    not open, EINVAL for an unknown command; F_GETFD and F_GETFL read the flags
    and change nothing; F_SETFD replaces the FD_CLOEXEC bit and F_SETFL only the
    O_APPEND and O_NONBLOCK bits of that one descriptor. *)
Theorem fcntl_flags al w f cwd l fd cmd arg :
  fds_rep f cwd l → fds_full f → cmd ≠ LINUX_F_DUPFD → cmd ≠ LINUX_F_DUPFD_CLOEXEC →
  match opened l fd with
  | None => sys_fcntl al w (Some f) fd cmd arg = (w, Some f, - LINUX_EBADF)
  | Some e =>
      if cmd =? LINUX_F_GETFD
      then sys_fcntl al w (Some f) fd cmd arg = (w, Some f, Z.land (fd_flags e) LINUX_FD_CLOEXEC)
      else if cmd =? LINUX_F_GETFL
      then sys_fcntl al w (Some f) fd cmd arg = (w, Some f, fd_open_flags e)
      else if (cmd =? LINUX_F_SETFD) || (cmd =? LINUX_F_SETFL) then
        let e' := if cmd =? LINUX_F_SETFD then with_fd_flags e (Z.land (u32 arg) LINUX_FD_CLOEXEC)
                  else with_open_flags e (setfl_flags (fd_open_flags e) arg) in
        ∃ f', sys_fcntl al w (Some f) fd cmd arg = (w, Some f', 0)
          ∧ fds_rep f' cwd (<[Z.to_nat fd := e']> l)
      else sys_fcntl al w (Some f) fd cmd arg = (w, Some f, - LINUX_EINVAL)
  end.
Proof.
  intros Hr Hf Hd Hdc. unfold sys_fcntl. rewrite (fd_get_spec f cwd l fd Hr).
  destruct (opened l fd) as [e|] eqn:Eo; [|done].
  apply opened_Some in Eo as (n & -> & He & Hu). rewrite Nat2Z.id.
  pose proof (entry_at_wf _ _ _ _ _ Hr He) as Hw. pose proof (lookup_lt_Some _ _ _ He) as Hlt.
  apply Z.eqb_neq in Hd as ->, Hdc as ->. cbn [orb].
  assert (0 ≤ u32 arg < 2 ^ 32) as Ha by (apply uw_range; lia).
  destruct (Z.eqb_spec cmd LINUX_F_GETFD) as [->|]; [done|].
  destruct (Z.eqb_spec cmd LINUX_F_SETFD) as [->|].
  { destruct (fd_store_spec al f cwd l n _ Hr Hf Hlt
      (with_fd_flags_wf e (Z.land (u32 arg) LINUX_FD_CLOEXEC) Hw (land_bound _ _ 32 ltac:(lia) Ha)))
      as (f' & -> & ? & _). by exists f'. }
  destruct (Z.eqb_spec cmd LINUX_F_GETFL) as [->|]; [done|].
  destruct (Z.eqb_spec cmd LINUX_F_SETFL) as [->|]; [|done]. cbv zeta. cbn [orb].
  destruct (fd_store_spec al f cwd l n (with_open_flags e (setfl_flags (fd_open_flags e) arg)) Hr Hf Hlt)
    as (f' & E & ? & _).
  { apply with_open_flags_wf; [done|]. apply lor_bound; [lia|..]; (apply land_bound; [lia|]); [apply Hw|done]. }
  unfold setfl_flags in E. rewrite E. by exists f'.
Qed.

(** The descriptor F_DUPFD installs. *)
Definition dupfd_entry (cmd : Z) e : linux_fd_entry :=
  if cmd =? LINUX_F_DUPFD_CLOEXEC
  then with_fd_flags (dup_entry e) (Z.lor (fd_flags (dup_entry e)) LINUX_FD_CLOEXEC)
  else dup_entry e.

(** F_DUPFD and F_DUPFD_CLOEXEC: the new descriptor is the lowest free one
    not below the argument, it is a copy of the old one (with FD_CLOEXEC set by
    the second command), all other descriptors are kept, and the open file is
    retained; the only failure is EMFILE when the table cannot grow. *)
Theorem fcntl_dupfd al w f cwd l (fd m : nat) e cmd w' t' r :
  fds_rep f cwd l → fds_full f → l !! fd = Some e → is_free e = false →
  cmd = LINUX_F_DUPFD ∨ cmd = LINUX_F_DUPFD_CLOEXEC →
  Z.of_nat (length l) + 64 < FD_CAP_BOUND → Z.of_nat m + 65 < FD_CAP_BOUND →
  sys_fcntl al w (Some f) (Z.of_nat fd) cmd (Z.of_nat m) = (w', t', r) →
  ∃ f' n, t' = Some f'
    ∧ ((r = - LINUX_EMFILE ∧ w' = w ∧ fds_rep f' cwd (grown l n))
       ∨ ∃ k old, r = Z.of_nat k ∧ lowest_free (grown l n) m k ∧ grown l n !! k = Some old
           ∧ w' = dup_world w e old (<[k := dup_entry e]> (grown l n))
           ∧ fds_rep f' cwd (<[k := dupfd_entry cmd e]> (grown l n))).
Proof.
  intros Hr Hf He Hu Hcmd Hb Hbm. unfold sys_fcntl. rewrite (fd_get_spec f cwd l _ Hr).
  assert (opened l (Z.of_nat fd) = Some e) as Ho by (apply opened_Some; by exists fd).
  rewrite Ho. unfold FD_CAP_BOUND in Hbm.
  rewrite !(iw_small _ (Z.of_nat m)) by (change (2 ^ (64 - 1)) with (2 ^ 63);
    change (2 ^ (32 - 1)) with (2 ^ 31); lia).
  rewrite (proj2 (Z.ltb_ge (Z.of_nat m) 0)), (proj2 (Z.ltb_ge 0x7fffffff (Z.of_nat m))) by lia. cbn [orb].
  destruct (linux_fd_lowest_free_from al (Some f) (Z.of_nat m)) as [t1 newfd] eqn:El.
  destruct (lowest_free_from_spec al f cwd l m t1 newfd Hr Hf Hb Hbm El)
    as (f1 & n & -> & Hr1 & Hres).
  destruct Hres as [->|(Hf1 & k & -> & Hk)].
  { destruct Hcmd as [-> | ->]; cbn; intros [= <- <- <-]; exists f1, n; auto. }
  pose proof Hk as (_ & (old & Hold & Hfree) & _).
  assert (grown l n !! fd = Some e) as He1 by (unfold grown; by apply lookup_app_l_Some).
  assert (fd ≠ k) as Hne by congruence.
  destruct (fd_dup2_spec al w f1 cwd _ fd k e old Hr1 Hf1 He1 Hu Hold Hne) as (f2 & E2 & Hr2 & Hf2).
  rewrite E2, !(proj2 (Z.ltb_ge (Z.of_nat k) 0)) by lia.
  pose proof (lookup_lt_Some _ _ _ Hold) as Hlk.
  assert (opened (<[k := dup_entry e]> (grown l n)) (Z.of_nat k) = Some (dup_entry e)) as Hko.
  { apply opened_Some. exists k. rewrite dup_entry_used. by rewrite list_lookup_insert_eq. }
  rewrite (fd_get_spec f2 cwd _ (Z.of_nat k) Hr2), Hko. unfold dupfd_entry.
  destruct Hcmd as [-> | ->]; cbn [Z.eqb Pos.eqb orb LINUX_F_DUPFD LINUX_F_DUPFD_CLOEXEC
    LINUX_F_GETFD LINUX_F_SETFD LINUX_F_GETFL LINUX_F_SETFL].
  { intros [= <- <- <-]. exists f2, n. split; [done|]. right. by exists k, old. }
  assert (entry_wf (dup_entry e)) as Hwd by (apply dup_entry_wf; exact (entry_at_wf f cwd l fd e Hr He)).
  destruct (fd_store_spec al f2 cwd _ k
    (with_fd_flags (dup_entry e) (Z.lor (fd_flags (dup_entry e)) LINUX_FD_CLOEXEC)) Hr2 Hf2)
    as (f3 & -> & Hr3 & _).
  { by rewrite length_insert. }
  { apply with_fd_flags_wf; [done|]. apply lor_bound; [lia|apply Hwd|]. unfold LINUX_FD_CLOEXEC. lia. }
  rewrite list_insert_insert_eq in Hr3. intros [= <- <- <-]. exists f3, n. split; [done|].
  right. by exists k, old.
Qed.

(** ** pipe2 *)

Lemma opened_insert l (k : nat) e fd : (k < length l)%nat →
  opened (<[k := e]> l) fd
  = if decide (fd = Z.of_nat k) then (if is_free e then None else Some e) else opened l fd.
Proof.
  intros Hk. unfold opened. destruct (decide (fd = Z.of_nat k)) as [->|Hne].
  - rewrite (proj2 (Z.ltb_ge _ _)), Nat2Z.id, list_lookup_insert_eq by lia. done.
  - destruct (Z.ltb_spec fd 0); [done|]. by rewrite list_lookup_insert_ne by lia.
Qed.

Lemma lowest_free_opened l m k : lowest_free l m k → opened l (Z.of_nat k) = None ∧ (k < length l)%nat.
Proof.
  intros (_ & (e & He & Hf) & _). split; [|by eapply lookup_lt_Some].
  unfold opened. rewrite (proj2 (Z.ltb_ge _ _)), Nat2Z.id, He by lia. cbn. by rewrite Hf.
Qed.

(** Allocation, seen by descriptor number. *)
Lemma fd_alloc_opened al f cwd l ent t' r :
  fds_rep f cwd l → fds_full f → entry_wf ent → is_free ent = false →
  Z.of_nat (length l) + 64 < FD_CAP_BOUND →
  linux_fd_alloc al (Some f) (Some ent) = (t', r) →
  ∃ f' l', t' = Some f' ∧ fds_rep f' cwd l' ∧ (length l ≤ length l' ≤ length l + 64)%nat
  ∧ ((r = -1 ∧ l' = l)
     ∨ ∃ k, r = Z.of_nat k ∧ fds_full f' ∧ l' !! k = Some ent ∧ opened l r = None
         ∧ ∀ fd, opened l' fd = if decide (fd = r) then Some ent else opened l fd).
Proof.
  intros Hr Hf Hw Hu Hb E. destruct (fd_alloc_spec al f cwd l ent t' r Hr Hf Hw Hb E)
    as (f' & -> & [(fd & -> & Hl & Hf' & Hr')|[(Hn & -> & Hf' & Hr')|(Hn & -> & Hr')]]).
  - destruct (lowest_free_opened l 0 fd Hl) as [Ho Hlt]. exists f', (<[fd := ent]> l).
    rewrite length_insert. split_and!; [done..|lia|lia|]. right. exists fd.
    split_and!; [done|done|by apply list_lookup_insert_eq|done|].
    intros x. by rewrite opened_insert, Hu by done.
  - assert (length l < length (grown l 64))%nat as Hlt
      by (unfold grown; rewrite length_app, length_replicate; lia).
    exists f', (<[length l := ent]> (grown l 64)). rewrite length_insert.
    split_and!; [done..|lia|unfold grown; rewrite length_app, length_replicate; lia|].
    right. exists (length l). split_and!; [done|done|by apply list_lookup_insert_eq| |].
    + unfold opened. rewrite (proj2 (Z.ltb_ge _ _)), Nat2Z.id, lookup_ge_None_2 by lia. done.
    + intros x. by rewrite opened_insert, Hu, grown_opened by done.
  - exists f', l. split_and!; [done..|lia|]. by left.
Qed.

(** Closing the ends of a new pipe that was just put in slot [j]. *)
Lemma new_pipe_undo pipes (j : nat) :
  Z.of_nat (length pipes) = LINUX_PIPE_MAX → pipes !! j = Some None →
  let p1 := <[j := Some new_pipe]> pipes in
  linux_pipe_free_slot p1 (Z.of_nat j) = pipes
  ∧ linux_pipe_free_slot (linux_pipe_fd_closed p1 (Z.of_nat j) true) (Z.of_nat j) = pipes
  ∧ linux_pipe_fd_closed (linux_pipe_fd_closed p1 (Z.of_nat j) false) (Z.of_nat j) true = pipes.
Proof.
  intros Hl Hj p1. pose proof (lookup_lt_Some _ _ _ Hj).
  assert (∀ o, linux_pipe_from_id (<[j := o]> pipes) (Z.of_nat j) = o) as Hfrom.
  { intros o. rewrite <- (Nat2Z.id j) at 1. rewrite from_id_insert, decide_True by lia. done. }
  assert (∀ r, linux_pipe_fd_closed p1 (Z.of_nat j) r
    = <[j := Some (if r then with_counts new_pipe 1 0 1 else with_counts new_pipe 1 1 0)]> pipes) as Hc1.
  { intros r. unfold linux_pipe_fd_closed, p1. rewrite Hfrom, Nat2Z.id, list_insert_insert_eq.
    unfold linux_pipe_release. rewrite Hfrom. by destruct r; cbn; rewrite Nat2Z.id, list_insert_insert_eq. }
  rewrite !Hc1. unfold linux_pipe_free_slot at 1 2, p1. rewrite !Hfrom, Nat2Z.id, !list_insert_insert_eq.
  rewrite (list_insert_id pipes j None) by done. split_and!; [done..|].
  unfold linux_pipe_fd_closed. rewrite Hfrom, Nat2Z.id, list_insert_insert_eq.
  unfold linux_pipe_release. rewrite Hfrom, Nat2Z.id. cbn. rewrite list_insert_insert_eq.
  unfold linux_pipe_free_slot. rewrite Hfrom, Nat2Z.id, list_insert_insert_eq.
  by apply list_insert_id.
Qed.

Definition pipe_flags_ok (flags : Z) : bool :=
  Z.land flags (Z.lnot (Z.lor LINUX_O_CLOEXEC LINUX_O_NONBLOCK)) =? 0.

(** The entry pipe2 gives to an end of pipe [id]. *)
Definition pipe_end_entry (flags id : Z) (r : bool) : linux_fd_entry :=
  LinuxFdEntry LINUX_FD_PIPE id (if has flags LINUX_O_NONBLOCK then LINUX_O_NONBLOCK else 0)
    (if has flags LINUX_O_CLOEXEC then LINUX_FD_CLOEXEC else 0) false r [].

Lemma pipe_end_entry_wf flags id r : 0 ≤ id < LINUX_PIPE_MAX → entry_wf (pipe_end_entry flags id r).
Proof.
  unfold LINUX_PIPE_MAX. intros Hid. split; cbn;
    [lia|destruct (has _ _); unfold LINUX_O_NONBLOCK; lia
        |destruct (has _ _); unfold LINUX_FD_CLOEXEC; lia|unfold VFS_PATH_MAX; lia|apply not_elem_of_nil].
Qed.

Lemma close_end_world w l (fd : nat) flags id r :
  close_world w l fd (pipe_end_entry flags id r)
  = set_pipes w (linux_pipe_fd_closed (w_pipes w) id r).
Proof. done. Qed.

(** The descriptors after one that was just allocated is closed again. *)
Lemma opened_undo l l1 (k : nat) ent :
  l1 !! k = Some ent → opened l (Z.of_nat k) = None →
  (∀ fd, opened l1 fd = if decide (fd = Z.of_nat k) then Some ent else opened l fd) →
  ∀ fd, opened (<[k := zero_rec]> l1) fd = opened l fd.
Proof.
  intros Hk Ho H1 fd. rewrite opened_insert by by eapply lookup_lt_Some.
  destruct (decide _) as [->|Hne]; [by rewrite Ho|]. by rewrite H1, decide_False by done.
Qed.

(** pipe2 failed with [code]: world and open descriptors are as they were. *)
Definition create2_failed w l cwd w' (t' : option F) (code : Z) (fds : option (Z * Z)) : Prop :=
  ∃ f' l', t' = Some f' ∧ fds_rep f' cwd l'
    ∧ fds = None ∧ code < 0 ∧ w' = w ∧ ∀ fd, opened l' fd = opened l fd.

(** pipe2 made [a] and [b] the read and the write end of a new pipe [id]. *)
Definition create2_done (flags : Z) w l cwd w' (t' : option F) (code : Z) (fds : option (Z * Z)) : Prop :=
  ∃ f' l' a b id, t' = Some f' ∧ fds_rep f' cwd l'
    ∧ fds = Some (a, b) ∧ code = 0 ∧ a ≠ b ∧ opened l a = None ∧ opened l b = None
    ∧ linux_pipe_from_id (w_pipes w) id = None
    ∧ w' = set_pipes w (<[Z.to_nat id := Some new_pipe]> (w_pipes w))
    ∧ ∀ fd, opened l' fd = if decide (fd = b) then Some (pipe_end_entry flags id false)
                           else if decide (fd = a) then Some (pipe_end_entry flags id true)
                           else opened l fd.

(** The part of pipe2 after the pipe has been put in slot [j]. *)
Lemma create2_fds al (store_ok : bool) w f cwd l flags (j : nat) w' t' code fds :
  fds_rep f cwd l → fds_full f → Z.of_nat (length l) + 128 < FD_CAP_BOUND →
  Z.of_nat (length (w_pipes w)) = LINUX_PIPE_MAX → w_pipes w !! j = Some None →
  (let w1 := set_pipes w (<[j := Some new_pipe]> (w_pipes w)) in
   let '(t1, read_fd) := linux_fd_alloc al (Some f) (Some (pipe_end_entry flags (Z.of_nat j) true)) in
   if read_fd <? 0
   then (set_pipes w1 (linux_pipe_free_slot (w_pipes w1) (Z.of_nat j)), t1, (- LINUX_EMFILE, None))
   else
     let '(t2, write_fd) := linux_fd_alloc al t1 (Some (pipe_end_entry flags (Z.of_nat j) false)) in
     if write_fd <? 0 then
       let '(w3, t3, _) := linux_fd_close al w1 t2 read_fd in
       (set_pipes w3 (linux_pipe_free_slot (w_pipes w3) (Z.of_nat j)), t3, (- LINUX_EMFILE, None))
     else if store_ok then (w1, t2, (0, Some (read_fd, write_fd)))
     else
       let '(w3, t3, _) := linux_fd_close al w1 t2 write_fd in
       let '(w4, t4, _) := linux_fd_close al w3 t3 read_fd in
       (w4, t4, (- LINUX_EFAULT, None))) = (w', t', (code, fds)) →
  create2_failed w l cwd w' t' code fds ∨ create2_done flags w l cwd w' t' code fds.
Proof.
  intros Hr Hf Hb Hpl Hj. cbv zeta. destruct (new_pipe_undo (w_pipes w) j Hpl Hj) as (U1 & U2 & U3).
  pose proof (lookup_lt_Some _ _ _ Hj) as Hjl. set (id := Z.of_nat j) in *.
  assert (0 ≤ id < LINUX_PIPE_MAX) as Hid by lia.
  set (w1 := set_pipes w _). assert (∀ q, set_pipes (set_pipes w q) (w_pipes w) = w) as Hset by by destruct w.
  destruct (linux_fd_alloc al (Some f) _) as [t1 a] eqn:Ea.
  destruct (fd_alloc_opened _ _ _ _ _ _ _ Hr Hf (pipe_end_entry_wf flags id true Hid) eq_refl
    ltac:(lia) Ea) as (f1 & l1 & -> & Hr1 & Hl1 & [[-> ->]|(ka & -> & Hf1 & Hka & Hoa & H1)]).
  { cbn. intros [= <- <- <- <-]. left. exists f1, l. rewrite U1. split_and!; [done..|apply Hset|done]. }
  rewrite (proj2 (Z.ltb_ge (Z.of_nat ka) 0)) by lia.
  destruct (linux_fd_alloc al (Some f1) _) as [t2 b] eqn:Eb.
  destruct (fd_alloc_opened _ _ _ _ _ _ _ Hr1 Hf1 (pipe_end_entry_wf flags id false Hid) eq_refl
    ltac:(lia) Eb) as (f2 & l2 & -> & Hr2 & Hl2 & [[-> ->]|(kb & -> & Hf2 & Hkb & Hob & H2)]).
  { cbn [Z.ltb Z.compare]. destruct (fd_close_gen al w1 f2 cwd l1 ka _ Hr2 Hka eq_refl) as (f3 & -> & Hr3 & _).
    rewrite close_end_world. cbn [w_pipes set_pipes w1]. rewrite U2. intros [= <- <- <- <-].
    left. exists f3, (<[ka := zero_rec]> l1). split_and!; [done..|apply Hset|by eapply opened_undo]. }
  rewrite (proj2 (Z.ltb_ge (Z.of_nat kb) 0)) by lia.
  assert (ka ≠ kb) as Hab. { intros ->. by rewrite H1, decide_True in Hob. }
  assert (l2 !! ka = Some (pipe_end_entry flags id true)) as Hka2.
  { specialize (H2 (Z.of_nat ka)). rewrite decide_False, H1, decide_True in H2 by lia.
    by apply opened_Some in H2 as (? & ?%Nat2Z.inj & ? & _); subst. }
  destruct store_ok.
  - intros [= <- <- <- <-]. right. exists f2, l2, (Z.of_nat ka), (Z.of_nat kb), id.
    split_and!; try done; [lia| | | |].
    + rewrite H1, decide_False in Hob by lia. done.
    + unfold linux_pipe_from_id. rewrite (proj2 (Z.leb_gt _ _)) by lia. unfold id. by rewrite Nat2Z.id, Hj.
    + unfold w1, id. by rewrite Nat2Z.id.
    + intros fd. by rewrite H2, H1.
  - destruct (fd_close_gen al w1 f2 cwd l2 kb _ Hr2 Hkb eq_refl) as (f3 & -> & Hr3 & _).
    assert (<[kb := zero_rec]> l2 !! ka = Some (pipe_end_entry flags id true)) as Hka3
      by by rewrite list_lookup_insert_ne.
    destruct (fd_close_gen al (close_world w1 l2 kb (pipe_end_entry flags id false)) f3 cwd _ ka _ Hr3 Hka3 eq_refl)
      as (f4 & -> & Hr4 & _).
    rewrite !close_end_world. cbn [w_pipes set_pipes w1]. rewrite U3. intros [= <- <- <- <-].
    left. exists f4. eexists. split_and!; [done|exact Hr4|done|done|apply Hset|].
    apply (opened_undo l _ ka (pipe_end_entry flags id true)); [done..|].
    intros fd. rewrite <- H1. by apply (opened_undo l1 l2 kb (pipe_end_entry flags id false)).
Qed.

(** Creating a pipe: on success two new descriptors are the read and the
    write end of a new, empty pipe, and all others are as before; on any failure
    (bad flags, no task, no pipe, no descriptor for either end, or the caller's
    array cannot be written) the pipe table and the open descriptors are exactly
    as they were: nothing is leaked. *)
Theorem pipe_create2_correct al valid alloc store_ok w f cwd l flags w' t' code fds :
  fds_rep f cwd l → fds_full f → Z.of_nat (length l) + 128 < FD_CAP_BOUND →
  Z.of_nat (length (w_pipes w)) = LINUX_PIPE_MAX →
  linux_pipe_create2 al valid alloc store_ok w (Some f) flags = (w', t', (code, fds)) →
  create2_failed w l cwd w' t' code fds
  ∨ pipe_flags_ok flags = true ∧ create2_done flags w l cwd w' t' code fds.
Proof.
  intros Hr Hf Hb Hpl. unfold linux_pipe_create2. fold (pipe_flags_ok flags).
  assert (∀ c, 0 < c → create2_failed w l cwd w (Some f) (- c) None) as Hfail.
  { intros c Hc. exists f, l. split_and!; [done..|lia|done|done]. }
  destruct (pipe_flags_ok flags) eqn:Efl; cbn [negb];
    [|intros [= <- <- <- <-]; left; by apply Hfail].
  destruct valid; cbn [negb]; [|intros [= <- <- <- <-]; left; by apply Hfail].
  unfold linux_pipe_alloc_slot. destruct (first_null (w_pipes w) 0) as [i|] eqn:Ei; [destruct alloc|].
  2-3: cbn; intros [= <- <- <- <-]; left; destruct w; by apply Hfail.
  destruct (first_null_Some _ _ _ Ei) as (j & -> & Hj). pose proof (lookup_lt_Some _ _ _ Hj).
  rewrite Z.add_0_l, Nat2Z.id, (proj2 (Z.leb_gt _ _)) by lia. intros E.
  destruct (create2_fds al store_ok w f cwd l flags j w' t' code fds Hr Hf Hb Hpl Hj E); auto.
Qed.

(** ** Path resolution *)

Lemma with_is_dir_wf e d : entry_wf e → entry_wf (with_is_dir e d).
Proof. intros [? ? ? ? ?]. by split. Qed.

Lemma set_is_dir_spec al f cwd l (n : nat) e d :
  fds_rep f cwd l → l !! n = Some e →
  fds_rep (linux_fd_set_is_dir al f (Z.of_nat n) d) cwd (<[n := with_is_dir e d]> l).
Proof.
  intros Hr He. pose proof (lookup_lt_Some _ _ _ He). unfold linux_fd_set_is_dir.
  destruct (fds_cap_law f cwd l Hr) as [-> _].
  rewrite (proj2 (Z.ltb_ge _ _)), (proj2 (Z.leb_gt _ _)) by lia. cbn [orb].
  rewrite (fds_load_law f cwd l n e Hr He).
  destruct (fds_store_law al f cwd l n (with_is_dir e d) Hr) as (f' & -> & ? & _); [done| |done].
  apply with_is_dir_wf. by eapply entry_at_wf.
Qed.

(** The directory a relative path starts in, or the errno. *)
Definition resolve_base (validate : cstr → bool) (cwd : cstr) l (dirfd : Z) : Z + cstr :=
  if dirfd =? LINUX_AT_FDCWD then inr cwd
  else
    match opened l dirfd with
    | None => inl LINUX_EBADF
    | Some e =>
        if bool_decide (fd_kind e ≠ LINUX_FD_VFS) then inl LINUX_ENOTDIR
        else if fd_is_dir e then
          if is_nul (vfs_abs_path e) 0 then inl LINUX_EBADF else inr (vfs_abs_path e)
        else if negb (is_nul (vfs_abs_path e) 0) && validate (vfs_abs_path e)
        then inr (vfs_abs_path e) else inl LINUX_ENOTDIR
    end.

(** What is learnt about [dirfd]: that it is a directory. *)
Definition dir_learnt l l' (dirfd : Z) : Prop :=
  l' = l ∨ ∃ (n : nat) e, dirfd = Z.of_nat n ∧ l !! n = Some e ∧ l' = <[n := with_is_dir e true]> l.

Definition join_fits (base rel : cstr) : Prop :=
  (length (path_norm base) + length rel < VFS_PATH_MAX - 1)%nat
  ∧ (length (path_comps base) + length (split_path rel) ≤ VFS_PATH_MAX_COMPONENTS)%nat
  ∧ Forall (λ c, (length c < VFS_PATH_MAX_COMPONENT_LEN)%nat) (split_path rel).

Lemma join_base base rel out_cap :
  (VFS_PATH_MAX ≤ out_cap)%nat → is_char rel 0 slash = false → join_fits base rel →
  (length base < VFS_PATH_MAX)%nat →
  ∃ j, vfs_path_join (Some (strncpy_term base (VFS_PATH_MAX - 1))) (Some rel) VFS_PATH_MAX = Some j
    ∧ vfs_path_normalize (Some j) out_cap
      = Some (render (foldl lex_step (path_comps base) (split_path rel))).
Proof.
  intros Hcap Hrel (H1 & H2 & H3) Hl. unfold strncpy_term. rewrite take_ge by plia.
  eexists. split; [by apply join_comps|]. by rewrite normalize_wide, join_normal by done.
Qed.

Lemma nul_path_lookup f cwd l (n : nat) e :
  fds_rep f cwd l → l !! n = Some e → is_nul (vfs_abs_path e) 0 = true →
  linux_fs_dir_path_lookup f (Z.of_nat n) = None.
Proof.
  intros Hr He Hn. unfold linux_fs_dir_path_lookup. rewrite (proj2 (Z.ltb_ge _ _)) by lia.
  rewrite (fds_load_law f cwd l n e Hr He), Hn. by rewrite orb_true_r.
Qed.

(** Path resolution of the *at system calls: an absolute path is normalised;
    a relative one is resolved lexically from the working directory (AT_FDCWD) or
    from the directory of [dirfd], within the limits of the buffers; [dirfd] must
    be open (EBADF), a file of the VFS (ENOTDIR), and a directory, which the VFS
    server is asked once when the descriptor does not record it (ENOTDIR), with a
    known path (EBADF).  No descriptor changes except that a confirmed directory
    is recorded. *)
Theorem resolve_path_correct al validate f cwd l dirfd path out_cap :
  fds_rep f cwd l → (VFS_PATH_MAX ≤ out_cap)%nat →
  if is_char path 0 slash
  then linux_vfs_resolve_path al validate (Some f) dirfd (Some path) out_cap
       = (Some f, (0, Some (path_norm path)))
  else
    match resolve_base validate cwd l dirfd with
    | inl err =>
        linux_vfs_resolve_path al validate (Some f) dirfd (Some path) out_cap
        = (Some f, (- err, None))
    | inr base =>
        join_fits base path →
        ∃ f' l', linux_vfs_resolve_path al validate (Some f) dirfd (Some path) out_cap
          = (Some f', (0, Some (render (foldl lex_step (path_comps base) (split_path path)))))
          ∧ fds_rep f' cwd l' ∧ dir_learnt l l' dirfd
    end.
Proof.
  intros Hr Hcap. unfold linux_vfs_resolve_path.
  destruct (Nat.eqb_spec out_cap 0) as [Hz|_]; [plia|]. destruct (is_char path 0 slash) eqn:Es.
  { by rewrite normalize_wide. }
  cbv zeta. unfold resolve_base. destruct (fds_cwd_law f cwd l Hr) as [-> Hcw].
  destruct (dirfd =? LINUX_AT_FDCWD).
  { intros Hfit. destruct (join_base cwd path out_cap Hcap Es Hfit) as (j & -> & ->); [apply Hcw|].
    exists f, l. split_and!; [done..|by left]. }
  rewrite (fd_get_spec f cwd l dirfd Hr). destruct (opened l dirfd) as [e|] eqn:Eo; [|done].
  apply opened_Some in Eo as (n & -> & He & Hu).
  pose proof (ew_path _ (entry_at_wf _ _ _ _ _ Hr He)) as Hlen.
  case_bool_decide; [by rewrite decide_True|]. rewrite decide_False by tauto.
  destruct (fd_is_dir e) eqn:Ed.
  - rewrite Ed. cbn [negb]. destruct (is_nul (vfs_abs_path e) 0) eqn:En; cbn [negb mbind option_bind].
    + by rewrite (nul_path_lookup f cwd l n e Hr He En).
    + rewrite En. intros Hfit.
      destruct (join_base (vfs_abs_path e) path out_cap Hcap Es Hfit) as (j & -> & ->); [done|].
      exists f, l. split_and!; [done..|by left].
  - destruct (is_nul (vfs_abs_path e) 0) eqn:En; cbn [negb andb].
    + rewrite (nul_path_lookup f cwd l n e Hr He En). by rewrite Ed.
    + rewrite En. cbn [negb andb]. destruct (validate (vfs_abs_path e)); [|by rewrite Ed].
      pose proof (set_is_dir_spec al f cwd l n e true Hr He) as Hr1.
      rewrite (fd_get_spec _ cwd _ _ Hr1), opened_insert, decide_True by (done || by eapply lookup_lt_Some).
      change (is_free (with_is_dir e true)) with (is_free e). rewrite Hu.
      cbn [fd_is_dir with_is_dir vfs_abs_path negb]. rewrite En. cbn [negb]. rewrite En.
      intros Hfit. destruct (join_base (vfs_abs_path e) path out_cap Hcap Es Hfit) as (j & -> & ->); [done|].
      eexists _, _. split_and!; [done|exact Hr1|]. right. by exists n, e.
Qed.
End fd_proofs.

(** ** A list of entries as a store, for concrete executions *)
Module ListFd.
Definition fdlist : Type := cstr * list linux_fd_entry.

#[export] Instance list_fd_store : FdStore fdlist := {
  fds_capacity f := Z.of_nat (length f.2);
  fds_load f fd := f.2 !! Z.to_nat fd;
  fds_store al f fd e := (REND_SUCCESS, (f.1, <[Z.to_nat fd := e]> f.2));
  fds_grow al f n :=
    if n <=? Z.of_nat (length f.2) then (REND_SUCCESS, f)
    else if al 0
    then (REND_SUCCESS, (f.1, f.2 ++ replicate (Z.to_nat n - length f.2) zero_rec))
    else (E_REND_NO_MEM, f);
  fds_cwd f := f.1;
  fds_set_cwd al f c := (take (VFS_PATH_MAX - 1) (default [] c), f.2);
  fds_create al n := (REND_SUCCESS, Some ([slash], replicate (Z.to_nat n) zero_rec));
  fds_clone f := (REND_SUCCESS, f);
}.

Record fd_ok (f : fdlist) (cwd : cstr) (l : list linux_fd_entry) : Prop := {
  fo_eq : f = (cwd, l);
  fo_wf : Forall entry_wf l;
  fo_cwd : cwd_wf cwd;
  fo_cap : 0 < Z.of_nat (length l) < FD_CAP_BOUND;
}.

Lemma zero_entries_wf n : Forall entry_wf (replicate n zero_rec).
Proof. apply Forall_replicate, zero_entry_wf. Qed.

#[export] Instance list_fd_store_laws : FdStoreLaws fdlist.
Proof.
  refine {| fds_rep := fd_ok; fds_full f := True |}; cbn.
  - intros f cwd l [-> _ _ Hc]. done.
  - intros f cwd l Hr. apply Hr.
  - intros f cwd l fd e [-> _ _ _] He. by rewrite Nat2Z.id.
  - intros al f cwd l fd e [-> Hw Hc Hb] Hfd He. rewrite Nat2Z.id. eexists. split_and!; [done| |done].
    split; [done|by apply Forall_insert|done|by rewrite length_insert].
  - intros al f cwd l n e f' [-> Hw Hc Hb] _ Hn Eg. cbn in Eg. split; intros Hle.
    + rewrite (proj2 (Z.leb_le _ _)) in Eg by lia. by injection Eg.
    + rewrite (proj2 (Z.leb_gt _ _)) in Eg by lia. destruct (al 0); injection Eg as <- <-; (split; [|done]).
      * intros _. split; [done|]. split; [done|apply Forall_app_2; [done|apply zero_entries_wf]|done|].
        rewrite length_app, length_replicate. lia.
      * done.
  - intros f cwd l [-> _ Hc _]. done.
  - intros al f cwd l c [-> Hw _ Hb] Hc. split; [|done]. split; [done|done| |done].
    split; [rewrite length_take; unfold VFS_PATH_MAX; lia|]. intros Hin. apply Hc.
    eapply elem_of_submseteq; [exact Hin|]. apply sublist_submseteq, sublist_take.
  - intros al n e o Hn [= <- <-] _. eexists. split_and!; [done| |done].
    split; [done|apply zero_entries_wf| |rewrite length_replicate; lia].
    split; [cbn; unfold VFS_PATH_MAX; lia|]. intros Hin. apply list_elem_of_singleton in Hin. discriminate Hin.
  - intros f f' cwd l Hr [= <-]. done.
Defined.
End ListFd.

Module FdDemo.
Import ListFd.

Definition con k : linux_fd_entry := LinuxFdEntry k 0 0 0 false false [].
Definition dir_ent : linux_fd_entry :=
  LinuxFdEntry LINUX_FD_VFS 1 0 LINUX_FD_CLOEXEC true false (str "/usr/lib").
(** The console on 0, 1 and 2, an open directory on 3, and one free slot. *)
Definition ents : list linux_fd_entry :=
  [con LINUX_FD_CONSOLE_IN; con LINUX_FD_CONSOLE_OUT; con LINUX_FD_CONSOLE_ERR; dir_ent; con LINUX_FD_NONE].
Definition f0 : fdlist := (str "/home", ents).
Definition w0 : world := World PipeDemo.table0 [].

Lemma ents_ok : fds_rep f0 (str "/home") ents.
Proof.
  split; [done| | |cbn; unfold FD_CAP_BOUND; lia].
  - repeat apply Forall_cons_2; try apply Forall_nil_2;
      (split; cbn; unfold VFS_PATH_MAX, LINUX_FD_CLOEXEC; [lia..|]); apply (bool_decide_unpack _); vm_compute; exact I.
  - split; [cbn; unfold VFS_PATH_MAX; lia|]. apply (bool_decide_unpack _). vm_compute. exact I.
Qed.

Lemma fd_alloc_lowest_witness :
  (linux_fd_alloc (λ _, true) (Some f0) (Some (con LINUX_FD_CONSOLE_OUT))).2 = 4
  ∧ ∃ f', (linux_fd_alloc (λ _, true) (Some f0) (Some (con LINUX_FD_CONSOLE_OUT))).1 = Some f'.
Proof.
  destruct (fd_alloc_lowest (λ _, true) f0 (str "/home") ents (con LINUX_FD_CONSOLE_OUT) _ _
    ents_ok I (Forall_lookup_1 _ _ 1%nat _ (fds_wf_law _ _ _ ents_ok) eq_refl)
    ltac:(cbn; unfold FD_CAP_BOUND; lia) (surjective_pairing _)) as (f' & E & _).
  split; [reflexivity|]. exists f'. exact E.
Defined.

Lemma fd_close_correct_witness :
  ∃ f', linux_fd_close (λ _, true) w0 (Some f0) 3
    = (World PipeDemo.table0 [KMSG_OP_VFS_CLOSE 1], Some f', 0).
Proof.
  destruct (fd_close_correct (λ _, true) w0 f0 (str "/home") ents 3 ents_ok) as (f' & E & _).
  exists f'. exact E.
Defined.

Lemma fd_dup2_correct_witness :
  ∃ f', linux_fd_dup2 (λ _, true) w0 (Some f0) 3 (Z.of_nat 7)
        = (World PipeDemo.table0 [KMSG_OP_VFS_HANDLE_RETAIN 1], Some f', 7)
    ∧ fds_rep f' (str "/home") (<[7%nat := dir_ent]> (room ents 7)).
Proof.
  destruct (fd_dup2_correct (λ _, true) w0 f0 (str "/home") ents 3 7 ents_ok I ltac:(done)
    ltac:(unfold FD_CAP_BOUND; lia)) as (f' & err & <- & H).
  destruct H as (old & [= <-] & E & Hr). exists f'. split; [exact E|exact Hr].
Defined.

Lemma fcntl_flags_witness :
  sys_fcntl (λ _, true) w0 (Some f0) 3 LINUX_F_GETFD 0 = (w0, Some f0, 1).
Proof.
  exact (fcntl_flags (λ _, true) w0 f0 (str "/home") ents 3 LINUX_F_GETFD 0 ents_ok I
    ltac:(done) ltac:(done)).
Defined.

Lemma fcntl_dupfd_witness :
  (sys_fcntl (λ _, true) w0 (Some f0) (Z.of_nat 3) LINUX_F_DUPFD_CLOEXEC (Z.of_nat 10)).2 = 10
  ∧ ∃ f', (sys_fcntl (λ _, true) w0 (Some f0) (Z.of_nat 3) LINUX_F_DUPFD_CLOEXEC (Z.of_nat 10)).1.2
          = Some f'.
Proof.
  destruct (fcntl_dupfd (λ _, true) w0 f0 (str "/home") ents 3 10 dir_ent LINUX_F_DUPFD_CLOEXEC _ _ _
    ents_ok I eq_refl eq_refl (or_intror eq_refl) ltac:(cbn; unfold FD_CAP_BOUND; lia)
    ltac:(unfold FD_CAP_BOUND; lia) ltac:(rewrite <- !surjective_pairing; reflexivity)) as (f' & n & E & _).
  split; [vm_compute; reflexivity|]. exists f'. exact E.
Defined.

Lemma pipe_create2_correct_witness :
  let r := linux_pipe_create2 (λ _, true) true true true w0 (Some f0) LINUX_O_CLOEXEC in
  r.2 = (0, Some (4, 5))
  ∧ (create2_failed w0 ents (str "/home") r.1.1 r.1.2 r.2.1 r.2.2
     ∨ pipe_flags_ok LINUX_O_CLOEXEC = true
       ∧ create2_done LINUX_O_CLOEXEC w0 ents (str "/home") r.1.1 r.1.2 r.2.1 r.2.2).
Proof.
  intros r. split; [vm_compute; reflexivity|].
  apply (pipe_create2_correct (λ _, true) true true true w0 f0 (str "/home") ents LINUX_O_CLOEXEC);
    [exact ents_ok|exact I|cbn; unfold FD_CAP_BOUND; lia|reflexivity|].
  rewrite <- !surjective_pairing. reflexivity.
Defined.

Lemma resolve_path_correct_witness :
  ∃ f', linux_vfs_resolve_path (λ _, true) (λ _, false) (Some f0) 3 (Some (str "../bin/ls")) VFS_PATH_MAX
    = (Some f', (0, Some (str "/usr/bin/ls"))).
Proof.
  destruct (resolve_path_correct (λ _, true) (λ _, false) f0 (str "/home") ents 3 (str "../bin/ls")
    VFS_PATH_MAX ents_ok (le_n _)) as (f' & l' & E & _).
  - split_and!; [vm_compute; lia|vm_compute; lia|]. repeat constructor; vm_compute; lia.
  - exists f'. exact E.
Defined.
End FdDemo.
