(* ===== verification/FdVfs.v ===== *)
(** * File descriptors against the open-file table

    The descriptor layer ([linux_fd_table.c], model [FdTable]) and the VFS
    server ([vfs_handle.c], model [VfsHandle]) share the reference counts of
    open files.  This file joins them: the requests the descriptor operations
    send are served on the handle table the way [servers/fs/vfs_coop.c] serves
    CLOSE and HANDLE_RETAIN, and the theorems follow the counts through fork,
    exit, reaping and dup. *)

From stdpp Require Import base numbers list strings gmap option.
From S2P Require Import Prelude PageSlice SliceTable VfsPath VfsInode VfsHandle Pipe FdSlice FdTable.

Section serve.
Context {T : Type} `{RT : RecordTable vfs_open_handle T}.

(** The two cases of the opcode switch of the server that change the table. *)
Definition serve (t : T) (m : vfs_msg) : T :=
  match m with
  | KMSG_OP_VFS_CLOSE h => (vfs_handle_close t h).1
  | KMSG_OP_VFS_HANDLE_RETAIN h => (vfs_handle_retain t h).1
  end.

Definition serve_all (t : T) (ms : list vfs_msg) : T := foldl serve t ms.
End serve.

Section counts.
Context {T : Type} `{SCL : StrcmpSLaws} `{RT : RecordTable vfs_open_handle T}
        {RTL : RecordTableLaws vfs_open_handle T}.
Implicit Types t : T.

Definition occ (hs : list Z) (k : Z) : Z := Z.of_nat (count_occ Z.eq_dec hs k).

Lemma occ_cons h hs k : occ (h :: hs) k = (if decide (h = k) then 1 else 0) + occ hs k.
Proof. unfold occ. cbn. destruct (Z.eq_dec h k), (decide (h = k)); try done; lia. Qed.

Lemma occ_nonneg hs k : 0 ≤ occ hs k.
Proof. unfold occ. lia. Qed.

Lemma references_insert t t' k h k' :
  live t' = <[k := h]> (live t) →
  references t' k' = if decide (k = k') then refcnt h else references t k'.
Proof.
  unfold references. intros ->. destruct (decide (k = k')) as [->|Hne].
  - by rewrite lookup_insert_eq.
  - by rewrite lookup_insert_ne.
Qed.

Lemma references_delete t t' k k' :
  live t' = delete k (live t) →
  references t' k' = if decide (k = k') then 0 else references t k'.
Proof.
  unfold references. intros ->. destruct (decide (k = k')) as [->|Hne].
  - by rewrite lookup_delete_eq.
  - by rewrite lookup_delete_ne.
Qed.

(** A retained handle that is open gains a reference. *)
Lemma serve_retain t h k :
  handles_wf t → 0 < h → 0 < references t h < 2 ^ 32 - 1 →
  handles_wf (serve t (KMSG_OP_VFS_HANDLE_RETAIN h))
  ∧ references (serve t (KMSG_OP_VFS_HANDLE_RETAIN h)) k
    = references t k + if decide (h = k) then 1 else 0.
Proof.
  intros Hwf Hh Hr. destruct (handle_retain_spec t h Hwf ltac:(lia)) as [Hwf' Hs]. cbn [serve].
  split; [done|]. unfold references in Hr. destruct (live t !! h) as [x|] eqn:El; [|lia].
  destruct (Z.eqb_spec (refcnt x) (2 ^ 32 - 1)); [lia|]. destruct Hs as [_ Hl].
  rewrite (references_insert _ _ _ _ k Hl). destruct (decide (h = k)) as [<-|]; [|lia].
  unfold references. rewrite El. cbn. lia.
Qed.

(** A closed handle loses one, if there was one. *)
Lemma serve_close t h k :
  handles_wf t → 0 < h →
  handles_wf (serve t (KMSG_OP_VFS_CLOSE h))
  ∧ references (serve t (KMSG_OP_VFS_CLOSE h)) k
    = if decide (h = k) then Z.max 0 (references t k - 1) else references t k.
Proof.
  intros Hwf Hh. destruct (handle_close_spec t h Hwf ltac:(lia)) as [Hwf' Hs]. cbn [serve].
  split; [done|]. destruct (live t !! h) as [x|] eqn:El.
  - destruct Hs as [_ Hl]. destruct (live_pos t h x Hwf El) as (_ & _ & _ & Hx).
    assert (references t h = refcnt x) as Hr by (unfold references; by rewrite El).
    destruct (Z.eqb_spec (refcnt x) 1) as [E1|E1].
    + rewrite (references_delete _ _ _ k Hl). destruct (decide (h = k)) as [<-|]; lia.
    + rewrite (references_insert _ _ _ _ k Hl). destruct (decide (h = k)) as [<-|]; cbn; lia.
  - rewrite Hs. cbn. destruct (decide (h = k)) as [<-|]; [|done].
    unfold references. by rewrite El.
Qed.

Lemma serve_retains t hs :
  handles_wf t → Forall (λ h, 0 < h ∧ 0 < references t h) hs →
  (∀ k, references t k + occ hs k < 2 ^ 32) →
  handles_wf (serve_all t (KMSG_OP_VFS_HANDLE_RETAIN <$> hs))
  ∧ ∀ k, references (serve_all t (KMSG_OP_VFS_HANDLE_RETAIN <$> hs)) k
         = references t k + occ hs k.
Proof.
  unfold serve_all. revert t. induction hs as [|h hs IH]; intros t Hwf Hpos Hb.
  { cbn. split; [done|]. intros k. unfold occ. cbn. lia. }
  apply Forall_cons_1 in Hpos as [[Hh Hr] Hpos]. cbn [fmap list_fmap foldl].
  pose proof (Hb h) as Hbh. rewrite occ_cons, decide_True in Hbh by done.
  pose proof (occ_nonneg hs h).
  assert (0 < references t h < 2 ^ 32 - 1) as Hrange by lia.
  destruct (serve_retain t h h Hwf Hh Hrange) as [Hwf1 _].
  assert (∀ k, references (serve t (KMSG_OP_VFS_HANDLE_RETAIN h)) k
               = references t k + if decide (h = k) then 1 else 0) as Hr1
    by (intros k; by apply serve_retain).
  destruct (IH _ Hwf1) as [Hwf2 Hr2].
  - eapply Forall_impl; [|exact Hpos]. intros x [? ?]. split; [done|].
    rewrite Hr1. destruct (decide _); lia.
  - intros k. rewrite Hr1. specialize (Hb k). rewrite occ_cons in Hb. lia.
  - split; [done|]. intros k. rewrite Hr2, Hr1, occ_cons. lia.
Qed.

Lemma serve_closes t hs :
  handles_wf t → Forall (λ h, 0 < h) hs →
  handles_wf (serve_all t (KMSG_OP_VFS_CLOSE <$> hs))
  ∧ ∀ k, references (serve_all t (KMSG_OP_VFS_CLOSE <$> hs)) k
         = Z.max 0 (references t k - occ hs k).
Proof.
  unfold serve_all. revert t. induction hs as [|h hs IH]; intros t Hwf Hpos.
  { cbn. split; [done|]. intros k. unfold occ. cbn.
    unfold references. destruct (live t !! k) as [x|] eqn:El; [|done].
    destruct (live_pos t k x Hwf El). lia. }
  apply Forall_cons_1 in Hpos as [Hh Hpos]. cbn [fmap list_fmap foldl].
  destruct (serve_close t h h Hwf Hh) as [Hwf1 _].
  assert (∀ k, references (serve t (KMSG_OP_VFS_CLOSE h)) k
    = if decide (h = k) then Z.max 0 (references t k - 1) else references t k) as Hr1
    by (intros k; by apply serve_close).
  destruct (IH _ Hwf1 Hpos) as [Hwf2 Hr2]. split; [done|].
  intros k. rewrite Hr2, Hr1, occ_cons. pose proof (occ_nonneg hs k). destruct (decide _); lia.
Qed.
End counts.

(** ** Fork, exit, reap *)

Section processes.
Context {T F : Type} `{SCL : StrcmpSLaws} `{RT : RecordTable vfs_open_handle T}
        {RTL : RecordTableLaws vfs_open_handle T} `{FS : FdStore F} {FSL : FdStoreLaws F}.
Implicit Types (t : T) (f : F) (w : world) (l : list linux_fd_entry).

Lemma serve_all_app t ms ms' : serve_all t (ms ++ ms') = serve_all (serve_all t ms) ms'.
Proof. apply foldl_app. Qed.

Lemma vfs_handles_pos l : Forall entry_wf l → Forall (λ h, 0 < h) (vfs_handles l).
Proof.
  intros Hwf. apply Forall_forall. intros h Hh%list_elem_of_In. apply list_elem_of_omap in Hh as (e & He & Hh).
  apply list_elem_of_lookup in He as [i He]. pose proof (ew_handle _ (Forall_lookup_1 _ _ _ _ Hwf He)).
  unfold vfs_handle_of in Hh. destruct (_ && _) eqn:E; [|done]. injection Hh as <-.
  apply andb_true_iff in E as [_ E%negb_true_iff%Z.eqb_neq]. lia.
Qed.

(** The handle table counts at least the descriptors of [l], with room for as
    many references again. *)
Definition counted t l : Prop :=
  handles_wf t
  ∧ ∀ k, occ (vfs_handles l) k ≤ references t k ∧ references t k + occ (vfs_handles l) k < 2 ^ 32.

Lemma serve_fork t l :
  Forall entry_wf l → counted t l →
  let t1 := serve_all t (KMSG_OP_VFS_HANDLE_RETAIN <$> vfs_handles l) in
  let t2 := serve_all t1 (KMSG_OP_VFS_CLOSE <$> vfs_handles l) in
  let t3 := serve_all t2 (KMSG_OP_VFS_CLOSE <$> vfs_handles l) in
  handles_wf t3
  ∧ ∀ k, references t1 k = references t k + occ (vfs_handles l) k
       ∧ references t2 k = references t k
       ∧ references t3 k = references t k - occ (vfs_handles l) k.
Proof.
  intros Hl [Hwf Hc] t1 t2 t3. pose proof (vfs_handles_pos l Hl) as Hpos.
  destruct (serve_retains t (vfs_handles l) Hwf) as [Hwf1 Hr1].
  - rewrite Forall_forall in *. intros h Hh. split; [by apply Hpos|].
    apply (count_occ_In Z.eq_dec) in Hh. destruct (Hc h). unfold occ in *. lia.
  - intros k'. by destruct (Hc k').
  - destruct (serve_closes t1 (vfs_handles l) Hwf1 Hpos) as [Hwf2 Hr2].
    destruct (serve_closes t2 (vfs_handles l) Hwf2 Hpos) as [Hwf3 Hr3].
    split; [done|]. intros k. destruct (Hc k). pose proof (occ_nonneg (vfs_handles l) k).
    assert (references t1 k = references t k + occ (vfs_handles l) k) as E1 by apply Hr1.
    assert (references t2 k = references t k) as E2.
    { etrans; [apply Hr2|]. rewrite E1. lia. }
    split_and!; [done..|]. etrans; [apply Hr3|]. rewrite E2. lia.
Qed.

(** C26. The references of a forked child: [linux_fs_proc_fork] gives the child
    the parent's descriptors and retains the open file of each of them once, and
    the child's exit gives exactly these references back, so that after the exit
    every open file has the references it had before the fork. *)
Theorem fork_exit_balanced al w1 w2 t f cwd l p child child1 :
  fds_rep f cwd l → fds_full f → counted t l →
  linux_fs_proc_fork al true (World p []) (Some f) = (w1, (REND_SUCCESS, child)) →
  linux_fs_proc_release_for_exit al w1 child = (w2, child1) →
  (∃ f', child = Some f' ∧ fds_rep f' cwd l)
  ∧ ∀ k, references (serve_all t (w_ipc w1)) k = references t k + occ (vfs_handles l) k
         ∧ references (serve_all t (w_ipc w2)) k = references t k.
Proof.
  intros Hr Hf Hc Hfork Hexit.
  destruct (proc_fork_spec al (World p []) f cwd l Hr Hf) as [(f' & E & Hr' & Hf')|(? & ? & E)];
    rewrite E in Hfork; [|by injection Hfork].
  injection Hfork as <- <-. split; [by exists f'|]. cbn [linux_fs_proc_release_for_exit] in Hexit.
  destruct (release_open_resources_spec al (retained (World p []) l) f' cwd l Hr' Hf') as (f2 & E2 & _).
  rewrite E2 in Hexit. injection Hexit as <- _. cbn [released retained w_ipc app].
  intros k. rewrite serve_all_app.
  by destruct (proj2 (serve_fork t l (fds_wf_law f cwd l Hr) Hc) k) as (? & ? & _).
Qed.

(** Exit followed by reaping releases every descriptor twice: [sys_exit]
    closes the child's files and keeps the table, and [linux_proc_fini] destroys
    the table closing them again.  The second CLOSE takes the parent's reference:
    a file the parent alone had open before the fork has none afterwards,
    although the parent's descriptors still name it. *)
Theorem reap_closes_parent_files al w1 w2 w3 t f cwd l p child child1 child2 :
  fds_rep f cwd l → fds_full f → counted t l →
  linux_fs_proc_fork al true (World p []) (Some f) = (w1, (REND_SUCCESS, child)) →
  linux_fs_proc_release_for_exit al w1 child = (w2, child1) →
  linux_fs_proc_destroy al w2 child1 = (w3, child2) →
  child2 = None
  ∧ (∀ k, references (serve_all t (w_ipc w3)) k = references t k - occ (vfs_handles l) k)
  ∧ (∀ k, references t k = occ (vfs_handles l) k → k ∈ vfs_handles l →
       live (serve_all t (w_ipc w3)) !! k = None).
Proof.
  intros Hr Hf Hc Hfork Hexit Hreap.
  destruct (proc_fork_spec al (World p []) f cwd l Hr Hf) as [(f' & E & Hr' & Hf')|(? & ? & E)];
    rewrite E in Hfork; [|by injection Hfork].
  injection Hfork as <- <-. cbn [linux_fs_proc_release_for_exit] in Hexit.
  destruct (release_open_resources_spec al (retained (World p []) l) f' cwd l Hr' Hf')
    as (f2 & E2 & Hr2 & Hf2).
  rewrite E2 in Hexit. injection Hexit as <- <-. cbn [linux_fs_proc_destroy] in Hreap.
  destruct (release_open_resources_spec al (released (retained (World p []) l) l) f2 cwd _ Hr2 Hf2)
    as (f3 & E3 & _).
  rewrite E3, released_again in Hreap. injection Hreap as <- <-. split; [done|].
  cbn [released retained w_ipc app]. rewrite !serve_all_app.
  destruct (serve_fork t l (fds_wf_law f cwd l Hr) Hc) as [Hwf3 Hrefs].
  split; [intros k; apply Hrefs|]. intros k Hk _. destruct (Hrefs k) as (_ & _ & Hk3).
  rewrite Hk, Z.sub_diag in Hk3. unfold references in Hk3.
  destruct (live _ !! k) as [x|] eqn:El in Hk3; [|done].
  destruct (live_pos _ k x Hwf3 El) as (_ & _ & _ & ?). lia.
Qed.

(** ** dup and close *)

Lemma uses_insert_ne l (fd : nat) e h :
  uses l h = false → uses [e] h = false → uses (<[fd := e]> l) h = false.
Proof.
  intros Hl He. destruct (decide (fd < length l)%nat); [|by rewrite list_insert_ge by lia].
  rewrite insert_take_drop by done. unfold uses in *. rewrite existsb_app. cbn in *.
  apply orb_false_iff in He as [-> _]. rewrite <- (take_drop (S fd) l) in Hl.
  rewrite existsb_app in Hl. apply orb_false_iff in Hl as [Hl ->]. rewrite orb_false_r.
  rewrite <- (take_drop fd (take (S fd) l)), existsb_app, take_take, Nat.min_l in Hl by lia.
  by apply orb_false_iff in Hl as [-> _].
Qed.

Lemma uses_at l (i : nat) e h :
  l !! i = Some e → fd_kind e = LINUX_FD_VFS → vfs_handle e = h → uses l h = true.
Proof.
  intros Hi Hk Hh. apply existsb_exists. exists e. split.
  - apply list_elem_of_In. by eapply list_elem_of_lookup_2.
  - by rewrite bool_decide_eq_true_2, Hh, Z.eqb_refl.
Qed.

Lemma dup_entry_same e :
  fd_kind (dup_entry e) = fd_kind e ∧ vfs_handle (dup_entry e) = vfs_handle e.
Proof. unfold dup_entry. by destruct (_ && _). Qed.

(** A duplicated descriptor leaks its open file: dup2 retains the file once
    more, but of the two closes only the second one sends CLOSE, because the
    first one still finds the file in use by the process.  After both descriptors
    are closed no descriptor names the file and it is still open with the
    reference count it had. *)
Theorem dup_close_leaks al w t f cwd l (a b : nat) e old w1 p1 r1 w2 p2 r2 w3 p3 r3 :
  fds_rep f cwd l → fds_full f →
  l !! a = Some e → fd_kind e = LINUX_FD_VFS → vfs_handle e ≠ 0 →
  l !! b = Some old → is_free old = true → a ≠ b →
  uses (<[a := zero_rec]> l) (vfs_handle e) = false →
  handles_wf t → 0 < references t (vfs_handle e) < 2 ^ 32 - 1 →
  linux_fd_dup2 al w (Some f) (Z.of_nat a) (Z.of_nat b) = (w1, p1, r1) →
  linux_fd_close al w1 p1 (Z.of_nat a) = (w2, p2, r2) →
  linux_fd_close al w2 p2 (Z.of_nat b) = (w3, p3, r3) →
  w_ipc w3 = w_ipc w ++ [KMSG_OP_VFS_HANDLE_RETAIN (vfs_handle e); KMSG_OP_VFS_CLOSE (vfs_handle e)]
  ∧ references (serve_all t (drop (length (w_ipc w)) (w_ipc w3))) (vfs_handle e)
    = references t (vfs_handle e)
  ∧ ∃ f3 l3, p3 = Some f3 ∧ fds_rep f3 cwd l3 ∧ uses l3 (vfs_handle e) = false.
Proof.
  intros Hr Hf Ha Hk Hh Hb Hfree Hab Huses Hwf Href Hdup Hc1 Hc2.
  destruct (dup_entry_same e) as [Hdk Hdh]. pose proof (lookup_lt_Some _ _ _ Ha).
  pose proof (lookup_lt_Some _ _ _ Hb). apply bool_decide_eq_true in Hfree.
  assert (is_free e = false) as Hef by (apply bool_decide_eq_false; congruence).
  assert (is_free (dup_entry e) = false) as Hdf by (apply bool_decide_eq_false; congruence).
  destruct (fd_dup2_spec al w f cwd l a b e old Hr Hf Ha Hef Hb Hab) as (f1 & E1 & Hr1 & Hf1).
  rewrite E1 in Hdup. injection Hdup as <- <- _. set (l1 := <[b := dup_entry e]> l) in *.
  assert (l1 !! a = Some e) as Ha1 by (unfold l1; by rewrite list_lookup_insert_ne).
  destruct (fd_close_spec al (dup_world w e old l1) f1 cwd l1 a e Hr1 Hf1 Ha1 Hef)
    as (f2 & E2 & Hr2 & Hf2).
  rewrite E2 in Hc1. injection Hc1 as <- <- _. set (l2 := <[a := zero_rec]> l1) in *.
  assert (l2 !! b = Some (dup_entry e)) as Hb2.
  { unfold l2, l1. rewrite list_lookup_insert_ne, list_lookup_insert_eq by done. done. }
  destruct (fd_close_spec al (close_world (dup_world w e old l1) l1 a e) f2 cwd l2 b (dup_entry e) Hr2 Hf2 Hb2 Hdf) as (f3 & E3 & Hr3 & Hf3).
  rewrite E3 in Hc2. injection Hc2 as <- <- _.
  assert (uses l2 (vfs_handle e) = true) as Hu2 by (apply (uses_at l2 b (dup_entry e)); congruence).
  assert (uses (<[b := zero_rec]> l2) (vfs_handle e) = false) as Hu3.
  { unfold l2, l1. rewrite list_insert_insert_ne, list_insert_insert_eq by done.
    rewrite list_insert_insert_ne by done. apply uses_insert_ne; [done|]. done. }
  unfold close_world, dup_world. rewrite Hdk, Hdh, Hk, Hfree. fold l2. rewrite Hu2, Hu3.
  apply Z.eqb_neq in Hh as Hh'. rewrite Hh'. cbn [negb andb w_ipc send]. rewrite <- app_assoc.
  split_and!; [done| |by exists f3, (<[b := zero_rec]> l2)].
  rewrite drop_app_length. cbn [app serve_all foldl].
  assert (0 < vfs_handle e) as Hpos.
  { pose proof (ew_handle _ (entry_at_wf _ _ _ _ _ Hr Ha)). lia. }
  destruct (serve_retain t (vfs_handle e) (vfs_handle e) Hwf Hpos Href) as [Hwf1 Hrr].
  destruct (serve_close _ (vfs_handle e) (vfs_handle e) Hwf1 Hpos) as [_ ->].
  rewrite Hrr, !decide_True by done. lia.
Qed.
End processes.

(** ** Concrete executions *)
Module FdVfsDemo.
Import ListTable ListFd FdDemo HandleDemo.

(** One open file, held once: handle 1, the directory of descriptor 3. *)
Lemma t1_refs : refs_exact t1 [1].
Proof.
  apply (clients_exact (t0, []) (t1, [1])); [|by apply (init_refs_exact (λ _, true))].
  eapply rtc_l; [exact (ClientOpen (λ _, true) t0 t1 [] (file "/mnt/a") 0 1 eq_refl)|apply rtc_refl].
Qed.

Lemma t1_counted : counted t1 ents.
Proof.
  destruct t1_refs as [Hwf Hr]. split; [done|]. intros k. rewrite Hr.
  change (vfs_handles ents) with [1]. unfold occ. cbn [count_occ]. destruct (Z.eq_dec 1 k); lia.
Qed.

Definition forked := linux_fs_proc_fork (λ _, true) true w0 (Some f0).
Definition exited := linux_fs_proc_release_for_exit (λ _, true) forked.1 forked.2.2.
Definition reaped := linux_fs_proc_destroy (λ _, true) exited.1 exited.2.

Lemma fork_exit_balanced_witness :
  references (serve_all t1 (w_ipc forked.1)) 1 = 2
  ∧ references (serve_all t1 (w_ipc exited.1)) 1 = 1.
Proof.
  destruct (fork_exit_balanced (λ _, true) forked.1 exited.1 t1 f0 (str "/home") ents PipeDemo.table0
    forked.2.2 exited.2 ents_ok I t1_counted eq_refl (surjective_pairing _)) as [_ H].
  destruct (H 1) as [H1 H2]. rewrite H1, H2. split; reflexivity.
Defined.

Lemma reap_closes_parent_files_witness :
  live t1 !! 1 ≠ None ∧ live (serve_all t1 (w_ipc reaped.1)) !! 1 = None.
Proof.
  split; [vm_compute; discriminate|].
  destruct (reap_closes_parent_files (λ _, true) forked.1 exited.1 reaped.1 t1 f0 (str "/home") ents
    PipeDemo.table0 forked.2.2 exited.2 reaped.2 ents_ok I t1_counted eq_refl (surjective_pairing _)
    (surjective_pairing _)) as (_ & _ & H).
  apply (H 1); [reflexivity|constructor].
Defined.

Definition dup34 := linux_fd_dup2 (λ _, true) w0 (Some f0) (Z.of_nat 3) (Z.of_nat 4).
Definition closed3 := linux_fd_close (λ _, true) dup34.1.1 dup34.1.2 (Z.of_nat 3).
Definition closed4 := linux_fd_close (λ _, true) closed3.1.1 closed3.1.2 (Z.of_nat 4).

Lemma dup_close_leaks_witness :
  w_ipc closed4.1.1 = [KMSG_OP_VFS_HANDLE_RETAIN 1; KMSG_OP_VFS_CLOSE 1]
  ∧ references (serve_all t1 (w_ipc closed4.1.1)) 1 = 1.
Proof.
  assert (∀ r : world * option fdlist * Z, r = (r.1.1, r.1.2, r.2)) as Hp by (by intros [[? ?] ?]).
  destruct (dup_close_leaks (λ _, true) w0 t1 f0 (str "/home") ents 3 4 dir_ent (con LINUX_FD_NONE)
    dup34.1.1 dup34.1.2 dup34.2 closed3.1.1 closed3.1.2 closed3.2 closed4.1.1 closed4.1.2 closed4.2
    ents_ok I eq_refl eq_refl ltac:(done) eq_refl eq_refl ltac:(done) eq_refl (proj1 t1_refs)
    ltac:(rewrite (proj2 t1_refs); cbn; lia) (Hp _) (Hp _) (Hp _)) as (E & Hr & _).
  split; [exact E|]. exact Hr.
Defined.
End FdVfsDemo.
