(* ===== verification/SigSet.v ===== *)
(** * Signal sets ([include/linux_compat/signal/signal_types.h])

    [sigset_t] is one 64-bit word: signal [n] is bit [n - 1].  The five set
    functions are translated with the shifts and masks of the source, and shown
    to be the operations of a set of signal numbers. *)

From stdpp Require Import base numbers list.
From S2P Require Import Prelude.

Definition SIGHUP : Z := 1.
Definition SIGINT : Z := 2.
Definition SIGQUIT : Z := 3.
Definition SIGILL : Z := 4.
Definition SIGTRAP : Z := 5.
Definition SIGABRT : Z := 6.
Definition SIGBUS : Z := 7.
Definition SIGFPE : Z := 8.
Definition SIGKILL : Z := 9.
Definition SIGUSR1 : Z := 10.
Definition SIGSEGV : Z := 11.
Definition SIGUSR2 : Z := 12.
Definition SIGPIPE : Z := 13.
Definition SIGALRM : Z := 14.
Definition SIGTERM : Z := 15.
Definition SIGSTKFLT : Z := 16.
Definition SIGCHLD : Z := 17.
Definition SIGCONT : Z := 18.
Definition SIGSTOP : Z := 19.
Definition SIGTSTP : Z := 20.
Definition SIGTTIN : Z := 21.
Definition SIGTTOU : Z := 22.
Definition SIGURG : Z := 23.
Definition SIGXCPU : Z := 24.
Definition SIGXFSZ : Z := 25.
Definition SIGVTALRM : Z := 26.
Definition SIGPROF : Z := 27.
Definition SIGWINCH : Z := 28.
Definition SIGPWR : Z := 30.
Definition NSIG : Z := 64.

(** [unsigned long sig[64 / (8 * sizeof(unsigned long))]]: one word. *)
Abbreviation sigset := Z.

(** [1UL << ((signo - 1) % 64)] *)
Definition sigbit (signo : Z) : Z := u64 (Z.shiftl 1 ((signo - 1) `mod` 64)).

Definition sigemptyset : sigset := 0.
Definition sigfillset : sigset := not64 0.

Definition sigaddset (set : sigset) (signo : Z) : sigset :=
  if (1 <=? signo) && (signo <=? 64) then Z.lor set (sigbit signo) else set.

Definition sigdelset (set : sigset) (signo : Z) : sigset :=
  if (1 <=? signo) && (signo <=? 64) then Z.land set (not64 (sigbit signo)) else set.

Definition sigismember (set : sigset) (signo : Z) : bool :=
  if (signo <? 1) || (64 <? signo) then false else has set (sigbit signo).

(** ** The sets they are *)

Definition valid_sig (n : Z) : bool := (1 <=? n) && (n <=? 64).
Definition sigset_wf (s : sigset) : Prop := 0 ≤ s < 2 ^ 64.

Lemma valid_sig_spec n : valid_sig n = true ↔ 1 ≤ n ≤ 64.
Proof. unfold valid_sig. rewrite andb_true_iff, !Z.leb_le. done. Qed.

Lemma sigbit_pow n : 1 ≤ n ≤ 64 → sigbit n = 2 ^ (n - 1).
Proof.
  intros Hn. unfold sigbit. rewrite Z.mod_small, Z.shiftl_1_l by lia. apply uw_small.
  split; [apply Z.pow_nonneg; lia|apply Z.pow_lt_mono_r; lia].
Qed.

Lemma sigismember_bit s n : sigismember s n = valid_sig n && Z.testbit s (n - 1).
Proof.
  unfold sigismember, valid_sig.
  destruct (Z.ltb_spec n 1), (Z.leb_spec 1 n); try lia; [done|].
  destruct (Z.ltb_spec 64 n), (Z.leb_spec n 64); try lia; [done|]. cbn [orb andb].
  rewrite sigbit_pow by lia. apply has_bit. lia.
Qed.

Lemma not64_bit x k : 0 ≤ k < 64 → Z.testbit (not64 x) k = negb (Z.testbit x k).
Proof.
  intros Hk. unfold not64. change 0xffffffffffffffff with (Z.ones 64).
  rewrite Z.lxor_spec, Z.ones_spec_low by lia. apply xorb_true_r.
Qed.

(** Two sets with the same members are the same word. *)
Lemma sigset_ext s s' :
  sigset_wf s → sigset_wf s' → (∀ n, sigismember s n = sigismember s' n) → s = s'.
Proof.
  intros Hs Hs' Hm. apply Z.bits_inj'. intros k Hk. destruct (decide (k < 64)).
  - specialize (Hm (k + 1)). rewrite !sigismember_bit in Hm. rewrite !Z.add_simpl_r in Hm.
    rewrite (proj2 (valid_sig_spec (k + 1))) in Hm by lia. done.
  - assert (∀ x, sigset_wf x → Z.testbit x k = false) as Hz.
    { intros x Hx. destruct (decide (x = 0)) as [->|]; [apply Z.bits_0|].
      apply Z.bits_above_log2; [apply Hx|]. destruct Hx. apply Z.log2_lt_pow2; [lia|].
      apply Z.lt_le_trans with (2 ^ 64); [done|]. apply Z.pow_le_mono_r; lia. }
    by rewrite !Hz.
Qed.

Lemma sigbit_member n m : 1 ≤ n ≤ 64 → sigismember (sigbit n) m = bool_decide (n = m).
Proof.
  intros Hn. rewrite sigismember_bit, sigbit_pow by done.
  destruct (valid_sig m) eqn:Em; cbn [andb].
  - apply valid_sig_spec in Em. rewrite Z.pow2_bits_eqb by lia.
    destruct (Z.eqb_spec (n - 1) (m - 1)), (bool_decide_reflect (n = m)); lia || done.
  - symmetry. apply bool_decide_eq_false. intros ->.
    apply valid_sig_spec in Hn. congruence.
Qed.

Lemma sigemptyset_member n : sigismember sigemptyset n = false.
Proof. rewrite sigismember_bit. unfold sigemptyset. by rewrite Z.bits_0, andb_false_r. Qed.

Lemma sigfillset_member n : sigismember sigfillset n = valid_sig n.
Proof.
  rewrite sigismember_bit. destruct (valid_sig n) eqn:E; [|done]. apply valid_sig_spec in E.
  unfold sigfillset. by rewrite not64_bit, Z.bits_0 by lia.
Qed.

Lemma sigaddset_member s n m : 1 ≤ n ≤ 64 →
  sigismember (sigaddset s n) m = bool_decide (n = m) || sigismember s m.
Proof.
  intros Hn. unfold sigaddset. fold (valid_sig n). rewrite (proj2 (valid_sig_spec n) Hn).
  rewrite <- (sigbit_member n m) by done. rewrite !sigismember_bit, Z.lor_spec.
  destruct (valid_sig m); cbn [andb orb]; [|done]. apply orb_comm.
Qed.

Lemma sigdelset_member s n m : 1 ≤ n ≤ 64 →
  sigismember (sigdelset s n) m = negb (bool_decide (n = m)) && sigismember s m.
Proof.
  intros Hn. unfold sigdelset. fold (valid_sig n). rewrite (proj2 (valid_sig_spec n) Hn).
  rewrite <- (sigbit_member n m) by done. rewrite !sigismember_bit, Z.land_spec.
  destruct (valid_sig m) eqn:Em; cbn [andb]; [|by rewrite andb_false_r]. apply valid_sig_spec in Em.
  rewrite not64_bit by lia. apply andb_comm.
Qed.

Lemma not64_wf x : sigset_wf x → sigset_wf (not64 x).
Proof.
  intros Hx. unfold not64, sigset_wf. change 0xffffffffffffffff with (Z.ones 64).
  replace (Z.lxor x (Z.ones 64)) with (Z.land (Z.lxor x (Z.ones 64)) (Z.ones 64)).
  - rewrite Z.land_ones by lia. apply Z.mod_pos_bound. lia.
  - apply Z.bits_inj'. intros k Hk. rewrite Z.land_spec, Z.lxor_spec.
    destruct (Z.ltb_spec k 64).
    + rewrite !Z.ones_spec_low by lia. apply andb_true_r.
    + rewrite !Z.ones_spec_high by lia. rewrite andb_false_r, xorb_false_r. symmetry.
      unfold sigset_wf in Hx. rewrite <- (Z.mod_small x (2 ^ 64)) by done.
      apply Z.mod_pow2_bits_high. lia.
Qed.

Lemma sigbit_wf n : sigset_wf (sigbit n).
Proof. apply uw_range. lia. Qed.

Lemma sigaddset_wf s n : sigset_wf s → sigset_wf (sigaddset s n).
Proof.
  intros Hs. unfold sigaddset. destruct (_ && _); [|done]. apply lor_bound; [lia|done|apply sigbit_wf].
Qed.

Lemma sigdelset_wf s n : sigset_wf s → sigset_wf (sigdelset s n).
Proof.
  intros Hs. unfold sigdelset. destruct (_ && _); [|done]. by apply land_bound.
Qed.

Create HintDb sigset.
#[export] Hint Resolve sigaddset_wf sigdelset_wf not64_wf sigbit_wf : sigset.
#[export] Hint Rewrite sigemptyset_member : sigset.
