(* ===== verification/SignalState.v ===== *)
(** * Signal state and generation

    [linux_layer/signal/signal_state.c], [signal_queue.c], [signal_init.c] and
    the system calls [sys_kill.c], [sys_rt_sigaction.c], [sys_rt_sigprocmask.c]
    and [sys_sigaltstack.c].  A process is its signal state, which is allocated
    on first use, and its threads in list order; the threads' states are
    allocated on first use too.  Copies to and from user memory are the two
    operations of the class [UserMem]. *)

From stdpp Require Import base numbers list gmap option.
From S2P Require Import Prelude SigSet.

Definition SIG_DFL : Z := 0.
Definition SIG_IGN : Z := 1.
Definition linux_signal_handler_is_ign (handler : Z) : bool := handler =? SIG_IGN.
Definition linux_signal_handler_is_dfl (handler : Z) : bool := handler =? SIG_DFL.
Definition linux_signal_handler_is_special (handler : Z) : bool := handler <=? 1.

Definition SA_NOCLDSTOP : Z := 0x00000001.
Definition SA_NOCLDWAIT : Z := 0x00000002.
Definition SA_SIGINFO : Z := 0x00000004.
Definition SA_ONSTACK : Z := 0x08000000.
Definition SA_RESTART : Z := 0x10000000.
Definition SA_NODEFER : Z := 0x40000000.
Definition SA_RESETHAND : Z := 0x80000000.
Definition SA_RESTORER : Z := 0x04000000.
Definition SS_ONSTACK : Z := 1.
Definition SS_DISABLE : Z := 2.
Definition SS_AUTODISARM : Z := 0x40000000.
Definition MINSIGSTKSZ : Z := 2048.
Definition SIG_BLOCK : Z := 0.
Definition SIG_UNBLOCK : Z := 1.
Definition SIG_SETMASK : Z := 2.

Record sigaction : Type := SigAction {
  sa_handler : Z;
  sa_flags : Z;
  sa_restorer : Z;
  sa_mask : sigset;
}.

Record stack_t : Type := StackT { ss_sp : Z; ss_flags : Z; ss_size : Z }.

(** The registers of [linux_signal_restore_arch_t] (x86_64). *)
Record restore_arch : Type := RestoreArch {
  ra_r15 : Z; ra_r14 : Z; ra_r13 : Z; ra_r12 : Z; ra_rbp : Z; ra_rbx : Z; ra_r11 : Z;
  ra_r10 : Z; ra_r9 : Z; ra_r8 : Z; ra_rdx : Z; ra_rsi : Z; ra_rdi : Z;
}.
Definition zero_arch : restore_arch := RestoreArch 0 0 0 0 0 0 0 0 0 0 0 0 0.

Record linux_signal_restore : Type := SignalRestore {
  rs_active : bool;
  rs_sig : Z;
  rs_saved_blocked : sigset;
  rs_saved_syscall_ret : Z;
  rs_saved_user_pc : Z;
  rs_saved_user_sp : Z;
  rs_arch : restore_arch;
}.
Definition zero_restore : linux_signal_restore := SignalRestore false 0 0 0 0 0 zero_arch.

Record linux_signal_proc_state_t : Type := ProcState {
  dispositions : list sigaction;
  p_pending_signals : sigset;
  sigreturn_page : Z;
}.

Record linux_signal_thread_state_t : Type := ThreadState {
  blocked_signals : sigset;
  t_pending_signals : sigset;
  alt_stack : stack_t;
  saved_main_sp : Z;
  signal_restore : linux_signal_restore;
  signal_inflight : Z;
}.

(** Thread states of the core kernel that the code compares with. *)
Inductive thread_status : Type :=
  | thread_status_running
  | thread_status_ready
  | thread_status_block_on_receive
  | thread_status_block_on_send
  | thread_status_other.

#[global] Instance thread_status_eq_dec : EqDecision thread_status.
Proof. solve_decision. Defined.

(** A thread with its Linux append; ports are identified by numbers. *)
Record thread : Type := Thread {
  th_signal : ptr linux_signal_thread_state_t;
  th_status : thread_status;
  th_port_ptr : ptr Z;
  th_sleep_port : ptr Z;
}.

(** [linux_proc_resource_t]: [pr_wait_port] is the port registered under the
    process's wait-port name. *)
Record proc : Type := Proc {
  pr_signal : ptr linux_signal_proc_state_t;
  pr_wait_port : ptr Z;
  pr_threads : list thread;
}.

Definition set_pending_t (ts : linux_signal_thread_state_t) (s : sigset) :=
  ThreadState (blocked_signals ts) s (alt_stack ts) (saved_main_sp ts) (signal_restore ts)
    (signal_inflight ts).
Definition set_blocked (ts : linux_signal_thread_state_t) (s : sigset) :=
  ThreadState s (t_pending_signals ts) (alt_stack ts) (saved_main_sp ts) (signal_restore ts)
    (signal_inflight ts).
Definition set_alt_stack (ts : linux_signal_thread_state_t) (a : stack_t) :=
  ThreadState (blocked_signals ts) (t_pending_signals ts) a (saved_main_sp ts)
    (signal_restore ts) (signal_inflight ts).
Definition set_pending_p (ps : linux_signal_proc_state_t) (s : sigset) :=
  ProcState (dispositions ps) s (sigreturn_page ps).
Definition set_dispositions (ps : linux_signal_proc_state_t) (d : list sigaction) :=
  ProcState d (p_pending_signals ps) (sigreturn_page ps).
Definition set_th_signal (t : thread) (s : ptr linux_signal_thread_state_t) :=
  Thread s (th_status t) (th_port_ptr t) (th_sleep_port t).
Definition set_th_status (t : thread) (st : thread_status) :=
  Thread (th_signal t) st (th_port_ptr t) (th_sleep_port t).
Definition set_pr_signal (p : proc) (s : ptr linux_signal_proc_state_t) :=
  Proc s (pr_wait_port p) (pr_threads p).
Definition set_pr_threads (p : proc) (ts : list thread) :=
  Proc (pr_signal p) (pr_wait_port p) ts.

(** ** signal_state.c

    [alloc]: the kernel allocator can serve the request. *)

Definition dfl_action : sigaction := SigAction SIG_DFL 0 0 sigemptyset.

Definition linux_signal_init_proc_state : linux_signal_proc_state_t :=
  ProcState (replicate (Z.to_nat NSIG) dfl_action) sigemptyset 0.

Definition linux_signal_init_thread_state : linux_signal_thread_state_t :=
  ThreadState sigemptyset sigemptyset (StackT 0 0 0) 0 zero_restore 0.

Definition linux_signal_proc_attach (alloc : bool) (task : ptr proc) : error_t * ptr proc :=
  match task with
  | None => (E_IN_PARAM, None)
  | Some pa =>
      match pr_signal pa with
      | Some _ => (REND_SUCCESS, Some (set_pr_signal pa (Some linux_signal_init_proc_state)))
      | None =>
          if alloc
          then (REND_SUCCESS, Some (set_pr_signal pa (Some linux_signal_init_proc_state)))
          else (E_RENDEZVOS, Some pa)
      end
  end.

Definition linux_signal_proc_destroy (task : ptr proc) : ptr proc :=
  match task with
  | None => None
  | Some pa =>
      match pr_signal pa with
      | None => Some pa
      | Some _ => Some (set_pr_signal pa None)
      end
  end.

Definition linux_signal_proc_fork (alloc : bool) (child parent : ptr proc) : error_t * ptr proc :=
  match child, parent with
  | Some _, Some ppa =>
      match linux_signal_proc_attach alloc child with
      | (REND_SUCCESS, Some cpa) =>
          match pr_signal cpa with
          | None => (REND_SUCCESS, Some cpa)
          | Some child_ps =>
              let d := match pr_signal ppa with
                       | Some parent_ps => dispositions parent_ps
                       | None => dispositions child_ps
                       end in
              (REND_SUCCESS, Some (set_pr_signal cpa (Some (ProcState d sigemptyset 0))))
          end
      | (e, c) => (e, c)
      end
  | _, _ => (E_IN_PARAM, child)
  end.

(** The state, attached on first use, or NULL. *)
Definition linux_signal_proc_state (alloc : bool) (task : ptr proc)
  : ptr proc * ptr linux_signal_proc_state_t :=
  match task with
  | None => (None, None)
  | Some pa =>
      match pr_signal pa with
      | Some ps => (task, Some ps)
      | None =>
          match linux_signal_proc_attach alloc task with
          | (REND_SUCCESS, Some pa') => (Some pa', pr_signal pa')
          | (_, t) => (t, None)
          end
      end
  end.

Definition reset_action (a : sigaction) : sigaction :=
  if linux_signal_handler_is_dfl (sa_handler a) || linux_signal_handler_is_ign (sa_handler a)
  then a else dfl_action.

Definition linux_signal_proc_reset (alloc : bool) (task : ptr proc) : ptr proc :=
  match linux_signal_proc_state alloc task with
  | (Some pa, Some ps) =>
      Some (set_pr_signal pa
              (Some (ProcState (reset_action <$> dispositions ps) sigemptyset 0)))
  | (t, _) => t
  end.

Definition linux_signal_thread_attach (alloc : bool) (t : ptr thread) : error_t * ptr thread :=
  match t with
  | None => (E_IN_PARAM, None)
  | Some ta =>
      match th_signal ta with
      | Some _ => (REND_SUCCESS, Some (set_th_signal ta (Some linux_signal_init_thread_state)))
      | None =>
          if alloc
          then (REND_SUCCESS, Some (set_th_signal ta (Some linux_signal_init_thread_state)))
          else (E_RENDEZVOS, Some ta)
      end
  end.

Definition linux_signal_thread_destroy (t : ptr thread) : ptr thread :=
  match t with
  | None => None
  | Some ta =>
      match th_signal ta with
      | None => Some ta
      | Some _ => Some (set_th_signal ta None)
      end
  end.

Definition linux_signal_thread_fork_inherit (alloc : bool) (child parent : ptr thread)
    (copy_blocked : bool) : error_t * ptr thread :=
  match child with
  | None => (E_IN_PARAM, None)
  | Some _ =>
      let blocked :=
        match parent with
        | Some pta =>
            match th_signal pta with
            | Some ps => if copy_blocked then blocked_signals ps else sigemptyset
            | None => sigemptyset
            end
        | None => sigemptyset
        end in
      match linux_signal_thread_attach alloc child with
      | (REND_SUCCESS, Some cta) =>
          match th_signal cta with
          | Some ts =>
              if copy_blocked
              then (REND_SUCCESS, Some (set_th_signal cta (Some (set_blocked ts blocked))))
              else (REND_SUCCESS, Some cta)
          | None => (REND_SUCCESS, Some cta)
          end
      | (e, c) => (e, c)
      end
  end.

Definition linux_signal_thread_state (alloc : bool) (t : ptr thread)
  : ptr thread * ptr linux_signal_thread_state_t :=
  match t with
  | None => (None, None)
  | Some ta =>
      match th_signal ta with
      | Some ts => (t, Some ts)
      | None =>
          match linux_signal_thread_attach alloc t with
          | (REND_SUCCESS, Some ta') => (Some ta', th_signal ta')
          | (_, t') => (t', None)
          end
      end
  end.

(** The same for thread number [i] of a process. *)
Definition thread_state_at (alloc : bool) (p : proc) (i : nat)
  : proc * ptr linux_signal_thread_state_t :=
  match linux_signal_thread_state alloc (pr_threads p !! i) with
  | (Some t, ts) => (set_pr_threads p (<[i := t]> (pr_threads p)), ts)
  | (None, ts) => (p, ts)
  end.

Definition store_ts (p : proc) (i : nat) (ts : linux_signal_thread_state_t) : proc :=
  set_pr_threads p (alter (λ t, set_th_signal t (Some ts)) i (pr_threads p)).
Definition store_ps (p : proc) (ps : linux_signal_proc_state_t) : proc := set_pr_signal p (Some ps).

(** signal_init.c *)
Definition linux_signal_init_proc_append (pa : ptr proc) : ptr proc :=
  match pa with
  | Some p => if pr_signal p then Some (store_ps p linux_signal_init_proc_state) else pa
  | None => None
  end.
Definition linux_signal_init_thread_append (ta : ptr thread) : ptr thread :=
  match ta with
  | Some t => if th_signal t then Some (set_th_signal t (Some linux_signal_init_thread_state)) else ta
  | None => None
  end.
Definition linux_signal_reset_thread_handler_state (ta : ptr thread) : ptr thread :=
  match ta with
  | None => None
  | Some t =>
      match th_signal t with
      | None => Some t
      | Some _ => Some (set_th_signal t (Some linux_signal_init_thread_state))
      end
  end.

(** ** signal_queue.c

    [cur]: the index of the current thread when it belongs to the process. *)

Definition signal_select_thread_helper (p : proc) (cur : ptr nat) : ptr nat :=
  match cur with
  | Some i => Some i
  | None => match pr_threads p with [] => None | _ :: _ => Some 0%nat end
  end.

(** The body of the loop of [linux_signal_flush_pending]. *)
Definition flush_thread (alloc : bool) (sig : Z) (t : thread) : thread :=
  match linux_signal_thread_state alloc (Some t) with
  | (Some t', Some ts) =>
      set_th_signal t' (Some (set_pending_t ts (sigdelset (t_pending_signals ts) sig)))
  | (Some t', None) => t'
  | (None, _) => t
  end.

Definition linux_signal_flush_pending (alloc : bool) (target : ptr proc) (sig : Z) : ptr proc :=
  match target with
  | None => None
  | Some p =>
      if (sig <? 1) || (NSIG <? sig) then Some p
      else
        match pr_signal p with
        | None => Some p
        | Some ps =>
            Some (Proc (Some (set_pending_p ps (sigdelset (p_pending_signals ps) sig)))
                    (pr_wait_port p) (flush_thread alloc sig <$> pr_threads p))
        end
  end.

(** How a thread that gets a signal is woken. *)
Inductive wake : Type :=
  | WakeSleep            (* linux_time_sleep_wake_for_signal *)
  | WakeWait             (* linux_proc_wait_wake_for_signal *)
  | WakeRecv (port : Z)  (* linux_ipc_recv_wake_for_signal *)
  | WakeNone.

Definition signal_wake (p : proc) (t : thread) : thread * wake :=
  if decide (th_status t = thread_status_block_on_receive) then
    match th_port_ptr t with
    | None => (t, WakeNone)
    | Some port =>
        if bool_decide (th_sleep_port t = Some port) then (t, WakeSleep)
        else if bool_decide (pr_wait_port p = Some port) then (t, WakeWait)
        else (t, WakeRecv port)
    end
  else if decide (th_status t = thread_status_block_on_send) then (t, WakeNone)
  else if decide (th_status t ≠ thread_status_running)
  then (set_th_status t thread_status_ready, WakeNone)
  else (t, WakeNone).

Definition signal_queue_on_thread_helper (alloc : bool) (target : ptr proc) (i : nat) (sig : Z)
  : ptr proc * Z * wake :=
  match linux_signal_proc_state alloc target with
  | (Some p1, Some ps) =>
      match thread_state_at alloc p1 i with
      | (p2, Some ts) =>
          let p3 := store_ps p2 (set_pending_p ps (sigaddset (p_pending_signals ps) sig)) in
          let p4 := store_ts p3 i (set_pending_t ts (sigaddset (t_pending_signals ts) sig)) in
          match pr_threads p4 !! i with
          | Some t =>
              let '(t', wk) := signal_wake p4 t in
              (Some (set_pr_threads p4 (<[i := t']> (pr_threads p4))), 0, wk)
          | None => (Some p4, - LINUX_ESRCH, WakeNone)
          end
      | (p2, None) => (Some p2, - LINUX_ESRCH, WakeNone)
      end
  | (Some p1, None) => (Some (thread_state_at alloc p1 i).1, - LINUX_ESRCH, WakeNone)
  | (None, _) => (None, - LINUX_ESRCH, WakeNone)
  end.

(** [disp->sa_handler] of signal [sig] (in range, so always present). *)
Definition disposition (ps : linux_signal_proc_state_t) (sig : Z) : sigaction :=
  default dfl_action (dispositions ps !! Z.to_nat (sig - 1)).

Definition linux_queue_signal (alloc : bool) (target : ptr proc) (cur : ptr nat) (sig : Z)
  : ptr proc * Z * wake :=
  match target with
  | None => (target, - LINUX_ESRCH, WakeNone)
  | Some _ =>
      if (sig <? 1) || (NSIG <? sig) then (target, - LINUX_EINVAL, WakeNone)
      else
        match linux_signal_proc_state alloc target with
        | (Some p, Some ps) =>
            if linux_signal_handler_is_ign (sa_handler (disposition ps sig))
            then (linux_signal_flush_pending alloc (Some p) sig, 0, WakeNone)
            else
              match signal_select_thread_helper p cur with
              | None => (Some p, - LINUX_ESRCH, WakeNone)
              | Some i => signal_queue_on_thread_helper alloc (Some p) i sig
              end
        | (t, _) => (t, - LINUX_ESRCH, WakeNone)
        end
  end.

Definition linux_queue_signal_thread (alloc : bool) (process : ptr proc) (target_thread : ptr nat)
    (sig : Z) : ptr proc * Z * wake :=
  match target_thread, process with
  | Some i, Some _ =>
      if (sig <? 1) || (NSIG <? sig) then (process, - LINUX_EINVAL, WakeNone)
      else
        match linux_signal_proc_state alloc process with
        | (Some p, Some ps) =>
            if linux_signal_handler_is_ign (sa_handler (disposition ps sig))
            then (linux_signal_flush_pending alloc (Some p) sig, 0, WakeNone)
            else signal_queue_on_thread_helper alloc (Some p) i sig
        | (t, _) => (t, - LINUX_ESRCH, WakeNone)
        end
  | _, _ => (process, - LINUX_ESRCH, WakeNone)
  end.

(** ** kill

    [registry]: the processes by pid ([find_proc_by_pid]); [cur pid]: the
    current thread when it belongs to that process. *)
Definition sys_kill (alloc : bool) (registry : gmap Z proc) (cur : Z → ptr nat) (pid_i sig_i : Z)
  : gmap Z proc * Z * wake :=
  let pid := i32 pid_i in
  let sig := i32 sig_i in
  if (sig <? 0) || (NSIG <? sig) then (registry, - LINUX_EINVAL, WakeNone)
  else if sig =? 0
  then (registry, match registry !! pid with Some _ => 0 | None => - LINUX_ESRCH end, WakeNone)
  else if (pid =? 1) && ((sig =? SIGKILL) || (sig =? SIGSTOP))
  then (registry, - LINUX_EPERM, WakeNone)
  else
    match registry !! pid with
    | None => (registry, - LINUX_ESRCH, WakeNone)
    | Some target =>
        let '(t', result, wk) := linux_queue_signal alloc (Some target) (cur pid) sig in
        (match t' with Some p => <[pid := p]> registry | None => registry end, result, wk)
    end.

(** ** User memory

    [um_load m a n]: the [n] bytes at [a] as a little-endian number;
    [um_store m a n v]: memory with [v] stored there; [None] is a fault. *)
Class UserMem (M : Type) : Type := {
  um_load : M → Z → Z → option Z;
  um_store : M → Z → Z → Z → option M;
}.

Class UserMemLaws (M : Type) `{UserMem M} : Prop := {
  um_load_range m a n v : 0 ≤ n → um_load m a n = Some v → 0 ≤ v < 2 ^ (8 * n);
  um_load_store m m' a n v :
    0 ≤ n → 0 ≤ v < 2 ^ (8 * n) → um_store m a n v = Some m' → um_load m' a n = Some v;
}.

Section syscalls.
Context {M : Type} `{UM : UserMem M}.
Implicit Types (m : M) (p : proc).

(** [sizeof(sigset_t)] *)
Definition linux_sigsetsize_valid (sigsetsize : Z) : bool := sigsetsize =? 8.

(** ** rt_sigprocmask

    [i]: the current thread; [user_table]: the current address space is a user
    one.  A process without threads or address space gives ESRCH. *)

Definition signal_mask_sanitize_helper (set : sigset) : sigset :=
  sigdelset (sigdelset set SIGKILL) SIGSTOP.

Definition sys_rt_sigprocmask (alloc user_table : bool) m (current : ptr proc) (cur : ptr nat)
    (how_i set_ptr oldset_ptr sigsetsize : Z) : ptr proc * M * Z :=
  match current, cur with
  | Some p0, Some i =>
      match thread_state_at alloc p0 i with
      | (p, None) => (Some p, m, - LINUX_ENOMEM)
      | (p, Some ts) =>
          if negb user_table then (Some p, m, - LINUX_EFAULT)
          else if negb (linux_sigsetsize_valid sigsetsize) then (Some p, m, - LINUX_EINVAL)
          else
            match (if negb (oldset_ptr =? 0) then um_store m oldset_ptr 8 (blocked_signals ts)
                   else Some m) with
            | None => (Some p, m, - LINUX_EFAULT)
            | Some m1 =>
                if set_ptr =? 0 then (Some p, m1, 0)
                else
                  match um_load m1 set_ptr 8 with
                  | None => (Some p, m1, - LINUX_EFAULT)
                  | Some new_set =>
                      let how := i32 how_i in
                      if negb (how =? SIG_BLOCK) && negb (how =? SIG_UNBLOCK)
                         && negb (how =? SIG_SETMASK)
                      then (Some p, m1, - LINUX_EINVAL)
                      else
                        let blocked :=
                          if how =? SIG_BLOCK then Z.lor (blocked_signals ts) new_set
                          else if how =? SIG_UNBLOCK
                          then Z.land (blocked_signals ts) (not64 new_set)
                          else new_set in
                        (Some (store_ts p i (set_blocked ts (signal_mask_sanitize_helper blocked))),
                         m1, 0)
                  end
            end
      end
  | _, _ => (current, m, - LINUX_ESRCH)
  end.

(** ** rt_sigaction *)

Definition signal_is_valid (signum : Z) : bool := (1 <=? signum) && (signum <=? NSIG).
Definition signal_can_catch_or_ignore (signum : Z) : bool :=
  negb (signum =? SIGKILL) && negb (signum =? SIGSTOP).

Definition LINUX_UAPI_SIGACTION_SIZE : Z := 32.

(** The 32-byte layout: handler, flags, restorer, mask. *)
Definition pack_sigaction (a : sigaction) : Z :=
  sa_handler a + 2 ^ 64 * (sa_flags a + 2 ^ 64 * (sa_restorer a + 2 ^ 64 * sa_mask a)).
Definition unpack_sigaction (v : Z) : sigaction :=
  SigAction (u64 v) (u64 (v / 2 ^ 64)) (u64 (v / 2 ^ 64 / 2 ^ 64)) (u64 (v / 2 ^ 64 / 2 ^ 64 / 2 ^ 64)).

Definition SA_KNOWN : Z :=
  Z.lor SA_NOCLDSTOP (Z.lor SA_NOCLDWAIT (Z.lor SA_SIGINFO (Z.lor SA_ONSTACK
    (Z.lor SA_RESTART (Z.lor SA_NODEFER (Z.lor SA_RESETHAND SA_RESTORER)))))).

(** The complement of the known flags is taken at 32 bits: SA_RESETHAND has
    type [unsigned int]. *)
Definition sys_rt_sigaction (alloc user_table : bool) m (current : ptr proc)
    (signum_i act_ptr oldact_ptr sigsetsize : Z) : ptr proc * M * Z :=
  let signum := i32 signum_i in
  match linux_signal_proc_state alloc current with
  | (None, _) => (current, m, - LINUX_ESRCH)
  | (Some p, None) => (Some p, m, - LINUX_ENOMEM)
  | (Some p, Some ps) =>
      if negb user_table then (Some p, m, - LINUX_EFAULT)
      else if negb (signal_is_valid signum) || negb (linux_sigsetsize_valid sigsetsize)
      then (Some p, m, - LINUX_EINVAL)
      else if negb (act_ptr =? 0) && negb (signal_can_catch_or_ignore signum)
      then (Some p, m, - LINUX_EINVAL)
      else
        match (if negb (oldact_ptr =? 0)
               then um_store m oldact_ptr LINUX_UAPI_SIGACTION_SIZE
                      (pack_sigaction (disposition ps signum))
               else Some m) with
        | None => (Some p, m, - LINUX_EFAULT)
        | Some m1 =>
            if act_ptr =? 0 then (Some p, m1, 0)
            else
              match um_load m1 act_ptr LINUX_UAPI_SIGACTION_SIZE with
              | None => (Some p, m1, - LINUX_EFAULT)
              | Some v =>
                  let new_action := unpack_sigaction v in
                  if has (sa_flags new_action) (not32 SA_KNOWN) then (Some p, m1, - LINUX_EINVAL)
                  else
                    let p1 := store_ps p (set_dispositions ps
                                (<[Z.to_nat (signum - 1) := new_action]> (dispositions ps))) in
                    if linux_signal_handler_is_special (sa_handler new_action)
                    then (linux_signal_flush_pending alloc (Some p1) signum, m1, 0)
                    else (Some p1, m1, 0)
              end
        end
  end.

(** ** sigaltstack *)

(** The fields of [stack_t] are copied one by one. *)
Definition signal_copy_stack_t_from_user m (user_ptr : Z) : option stack_t :=
  match um_load m user_ptr 8 with
  | None => None
  | Some sp =>
      match um_load m (u64 (user_ptr + 8)) 4 with
      | None => None
      | Some flags =>
          match um_load m (u64 (user_ptr + 16)) 8 with
          | None => None
          | Some size => Some (StackT sp (i32 flags) size)
          end
      end
  end.

(** Memory afterwards, and whether every field was stored. *)
Definition signal_copy_stack_t_to_user m (user_ptr : Z) (k : stack_t) : M * bool :=
  match um_store m user_ptr 8 (ss_sp k) with
  | None => (m, false)
  | Some m1 =>
      match um_store m1 (u64 (user_ptr + 8)) 4 (u32 (ss_flags k)) with
      | None => (m1, false)
      | Some m2 =>
          match um_store m2 (u64 (user_ptr + 16)) 8 (ss_size k) with
          | None => (m2, false)
          | Some m3 => (m3, true)
          end
      end
  end.

Definition signal_validate_new_altstack (s : stack_t) : Z :=
  if has (ss_flags s) SS_ONSTACK then - LINUX_EINVAL
  else if has (ss_flags s) (Z.lnot (Z.lor SS_DISABLE SS_AUTODISARM)) then - LINUX_EINVAL
  else if has (ss_flags s) SS_DISABLE then 0
  else if (ss_sp s =? 0) || (ss_size s =? 0) then - LINUX_EINVAL
  else if ss_size s <? MINSIGSTKSZ then - LINUX_ENOMEM
  else 0.

Definition sys_sigaltstack (alloc user_table : bool) m (process : ptr proc) (cur : ptr nat)
    (ss_ptr old_ss_ptr : Z) : ptr proc * M * Z :=
  match process, cur with
  | Some p0, Some i =>
      match thread_state_at alloc p0 i with
      | (p, None) => (Some p, m, - LINUX_ENOMEM)
      | (p, Some ts) =>
          if negb user_table then (Some p, m, - LINUX_EFAULT)
          else
            let '(m1, ok) :=
              if negb (old_ss_ptr =? 0) then
                let old := alt_stack ts in
                signal_copy_stack_t_to_user m old_ss_ptr
                  (if (ss_sp old =? 0) || has (ss_flags old) SS_DISABLE
                   then StackT 0 SS_DISABLE 0 else old)
              else (m, true) in
            if negb ok then (Some p, m1, - LINUX_EFAULT)
            else if ss_ptr =? 0 then (Some p, m1, 0)
            else if has (ss_flags (alt_stack ts)) SS_ONSTACK then (Some p, m1, - LINUX_EPERM)
            else
              match signal_copy_stack_t_from_user m1 ss_ptr with
              | None => (Some p, m1, - LINUX_EFAULT)
              | Some new_stack =>
                  let ret := signal_validate_new_altstack new_stack in
                  if negb (ret =? 0) then (Some p, m1, ret)
                  else if has (ss_flags new_stack) SS_DISABLE
                  then (Some (store_ts p i (set_alt_stack ts (StackT 0 SS_DISABLE 0))), m1, 0)
                  else
                    (Some (store_ts p i (set_alt_stack ts
                       (StackT (ss_sp new_stack)
                          (Z.land (ss_flags new_stack) (Z.lnot SS_ONSTACK)) (ss_size new_stack)))),
                     m1, 0)
              end
      end
  | _, _ => (process, m, - LINUX_ESRCH)
  end.
End syscalls.

(** ** Pending signals *)

Definition thread_pending (t : thread) (n : Z) : bool :=
  match th_signal t with Some ts => sigismember (t_pending_signals ts) n | None => false end.

(** Signal [n] is pending on thread [i], or on the process. *)
Definition pending_on (p : proc) (i : nat) (n : Z) : bool :=
  match pr_threads p !! i with Some t => thread_pending t n | None => false end.
Definition proc_pending (p : proc) (n : Z) : bool :=
  match pr_signal p with Some ps => sigismember (p_pending_signals ps) n | None => false end.

Lemma thread_state_spec alloc t :
  ∃ t', (linux_signal_thread_state alloc (Some t)).1 = Some t'
    ∧ th_signal t' = (linux_signal_thread_state alloc (Some t)).2
    ∧ th_status t' = th_status t ∧ th_port_ptr t' = th_port_ptr t ∧ th_sleep_port t' = th_sleep_port t
    ∧ ∀ n, thread_pending t' n = thread_pending t n.
Proof.
  unfold linux_signal_thread_state, linux_signal_thread_attach.
  destruct (th_signal t) as [ts|] eqn:E; [by exists t|].
  destruct alloc; cbn; eexists; (split; [done|]); split_and!; try done; intros n;
    unfold thread_pending; rewrite E; cbn; try done; apply sigemptyset_member.
Qed.

Lemma thread_state_at_spec alloc p i :
  let '(p', ots) := thread_state_at alloc p i in
  pr_signal p' = pr_signal p ∧ pr_wait_port p' = pr_wait_port p
  ∧ (∀ j n, pending_on p' j n = pending_on p j n)
  ∧ match ots with
    | Some ts => ∃ t, pr_threads p' !! i = Some t ∧ th_signal t = Some ts
    | None => True
    end.
Proof.
  unfold thread_state_at. destruct (pr_threads p !! i) as [t|] eqn:Et; [|done].
  destruct (thread_state_spec alloc t) as (t' & E1 & E2 & _ & _ & _ & Hp).
  destruct (linux_signal_thread_state alloc (Some t)) as [o ots]. cbn in E1, E2. subst.
  split_and!; [done|done| |].
  - intros j n. unfold pending_on. cbn. destruct (decide (j = i)) as [->|].
    + rewrite list_lookup_insert_eq, Et by (by eapply lookup_lt_Some). apply Hp.
    + by rewrite list_lookup_insert_ne.
  - destruct (th_signal t') eqn:E; [|done]. exists t'. split; [|done].
    apply list_lookup_insert_eq. by eapply lookup_lt_Some.
Qed.

Lemma flush_thread_pending alloc sig t n : 1 ≤ sig ≤ 64 →
  thread_pending (flush_thread alloc sig t) n = negb (bool_decide (sig = n)) && thread_pending t n.
Proof.
  intros Hs. unfold flush_thread. destruct (thread_state_spec alloc t) as (t' & E1 & E2 & _ & _ & _ & Hp).
  destruct (linux_signal_thread_state alloc (Some t)) as [o ots]. cbn in E1, E2. subst o ots.
  rewrite <- Hp. destruct (th_signal t') as [ts|] eqn:E.
  - unfold thread_pending. rewrite E. cbn. by rewrite sigdelset_member.
  - unfold thread_pending. rewrite E. by rewrite andb_false_r.
Qed.

(** Flushing removes the signal everywhere and nothing else. *)
Lemma flush_pending_spec alloc p sig : 1 ≤ sig ≤ 64 → is_Some (pr_signal p) →
  ∃ p', linux_signal_flush_pending alloc (Some p) sig = Some p'
    ∧ (∀ n, proc_pending p' n = negb (bool_decide (sig = n)) && proc_pending p n)
    ∧ (∀ i n, pending_on p' i n = negb (bool_decide (sig = n)) && pending_on p i n).
Proof.
  intros Hs [ps Hps]. unfold linux_signal_flush_pending.
  rewrite (proj2 (Z.ltb_ge _ _)), (proj2 (Z.ltb_ge _ _)) by (unfold NSIG; lia). cbn [orb].
  rewrite Hps. eexists. split_and!; [done| |].
  - intros n. unfold proc_pending. cbn. rewrite Hps. by apply sigdelset_member.
  - intros i n. unfold pending_on. cbn. rewrite list_lookup_fmap.
    destruct (pr_threads p !! i); cbn; [by apply flush_thread_pending|by rewrite andb_false_r].
Qed.

Lemma proc_state_spec alloc p :
  ∃ p', (linux_signal_proc_state alloc (Some p)).1 = Some p'
    ∧ pr_signal p' = (linux_signal_proc_state alloc (Some p)).2
    ∧ pr_threads p' = pr_threads p ∧ pr_wait_port p' = pr_wait_port p
    ∧ ∀ n, proc_pending p' n = proc_pending p n.
Proof.
  unfold linux_signal_proc_state, linux_signal_proc_attach.
  destruct (pr_signal p) as [ps|] eqn:E; [by exists p|].
  destruct alloc; cbn; eexists; (split; [done|]); split_and!; try done; intros n;
    unfold proc_pending; rewrite E; cbn; try done; apply sigemptyset_member.
Qed.

Lemma signal_wake_pending p t n : thread_pending (signal_wake p t).1 n = thread_pending t n.
Proof. unfold signal_wake. by repeat (case_match; try done). Qed.

(** Queueing on thread [i] makes the signal pending there and on the process. *)
Lemma queue_on_thread_spec alloc p i sig p' r wk : 1 ≤ sig ≤ 64 →
  signal_queue_on_thread_helper alloc (Some p) i sig = (p', r, wk) →
  ∃ q, p' = Some q
    ∧ (r = 0 ∧ (i < length (pr_threads p))%nat
         ∧ (∀ n, proc_pending q n = bool_decide (sig = n) || proc_pending p n)
         ∧ (∀ j n, pending_on q j n = bool_decide (i = j ∧ sig = n) || pending_on p j n)
       ∨ r = - LINUX_ESRCH ∧ (∀ n, proc_pending q n = proc_pending p n)
         ∧ ∀ j n, pending_on q j n = pending_on p j n).
Proof.
  intros Hs. unfold signal_queue_on_thread_helper.
  destruct (proc_state_spec alloc p) as (p1 & E1 & E2 & Ht & Hw & Hpp).
  destruct (linux_signal_proc_state alloc (Some p)) as [o ops]. cbn in E1, E2. subst o.
  pose proof (thread_state_at_spec alloc p1 i) as H2.
  assert (∀ j n, pending_on p1 j n = pending_on p j n) as Hp1 by (intros; unfold pending_on; by rewrite Ht).
  destruct (thread_state_at alloc p1 i) as [p2 ots] eqn:E3. destruct H2 as (Hsig2 & Hw2 & Hpend2 & H2).
  assert (∀ n, proc_pending p2 n = proc_pending p n) as Hpp2
    by (intros n; rewrite <- Hpp; unfold proc_pending; by rewrite Hsig2).
  destruct ops as [ps|].
  2:{ cbn. intros [= <- <- <-]. exists p2. split; [done|]. right. split_and!; [done..|].
      intros j n. by rewrite Hpend2, Hp1. }
  destruct ots as [ts|].
  2:{ intros [= <- <- <-]. exists p2. split; [done|]. right. split_and!; [done..|].
      intros j n. by rewrite Hpend2, Hp1. }
  destruct H2 as (t & Hi & Hts). cbn [pr_threads store_ts set_pr_threads store_ps set_pr_signal].
  rewrite list_lookup_alter, Hi. rewrite decide_True by done. cbn.
  assert (i < length (pr_threads p))%nat as Hlt.
  { rewrite <- Ht. unfold thread_state_at in E3. destruct (pr_threads p1 !! i) eqn:El.
    - by eapply lookup_lt_Some.
    - cbn in E3. by injection E3. }
  destruct (signal_wake _ _) as [t' wk'] eqn:Ew. intros [= <- <- <-]. eexists. split; [done|].
  left. split_and!; [done|done| |].
  - intros n. rewrite <- Hpp2. unfold proc_pending. cbn. rewrite Hsig2, E2. by apply sigaddset_member.
  - intros j n. rewrite <- Hp1, <- Hpend2. unfold pending_on. cbn. destruct (decide (j = i)) as [->|Hne].
    + rewrite list_lookup_insert_eq, Hi by (rewrite length_alter; by eapply lookup_lt_Some).
      change t' with (t', wk').1. rewrite <- Ew, signal_wake_pending.
      unfold thread_pending. cbn. rewrite Hts, sigaddset_member by done.
      f_equal. apply bool_decide_ext. naive_solver.
    + rewrite list_lookup_insert_ne, list_lookup_alter_ne by done.
      rewrite bool_decide_eq_false_2 by naive_solver. done.
Qed.

(** The thread a process-directed signal goes to: the current thread if it is
    one of the process, else the first. *)
Definition target_thread (p : proc) (cur : ptr nat) : ptr nat :=
  match cur with Some i => Some i | None => if decide (pr_threads p = []) then None else Some 0%nat end.

Definition action_of (p : proc) (sig : Z) : sigaction :=
  match pr_signal p with Some ps => disposition ps sig | None => dfl_action end.

Lemma proc_state_action alloc p sig :
  match (linux_signal_proc_state alloc (Some p)).2 with
  | Some ps => disposition ps sig = action_of p sig
  | None => pr_signal p = None
  end.
Proof.
  unfold linux_signal_proc_state, linux_signal_proc_attach, action_of.
  destruct (pr_signal p); cbn; [done|]. destruct alloc; cbn; [|done].
  unfold disposition. cbn [dispositions linux_signal_init_proc_state].
  destruct (_ !! _) as [a|] eqn:Ea; [|done]. by apply lookup_replicate in Ea as [-> _].
Qed.

(** Generating a signal for a process: a signal whose action is SIG_IGN is
    pending nowhere afterwards, and nothing else changes; otherwise the signal
    becomes pending on the process and on exactly one thread, the current one if
    it belongs to the process and else the first, and no other pending signal of
    any thread changes; the only failures are ESRCH (no memory for the state, or
    no thread), which change no pending set. *)
Theorem queue_signal_spec alloc p cur sig p' r wk :
  1 ≤ sig ≤ 64 → linux_queue_signal alloc (Some p) cur sig = (p', r, wk) →
  ∃ q, p' = Some q
    ∧ (if linux_signal_handler_is_ign (sa_handler (action_of p sig)) then
         r = 0
         ∧ (∀ n, proc_pending q n = negb (bool_decide (sig = n)) && proc_pending p n)
         ∧ (∀ i n, pending_on q i n = negb (bool_decide (sig = n)) && pending_on p i n)
       else
         (∃ i, r = 0 ∧ target_thread p cur = Some i
            ∧ (∀ n, proc_pending q n = bool_decide (sig = n) || proc_pending p n)
            ∧ (∀ j n, pending_on q j n = bool_decide (i = j ∧ sig = n) || pending_on p j n))
         ∨ r = - LINUX_ESRCH ∧ (∀ n, proc_pending q n = proc_pending p n)
           ∧ ∀ j n, pending_on q j n = pending_on p j n).
Proof.
  intros Hs. unfold linux_queue_signal.
  rewrite (proj2 (Z.ltb_ge _ _)), (proj2 (Z.ltb_ge _ _)) by (unfold NSIG; lia). cbn [orb].
  destruct (proc_state_spec alloc p) as (p1 & E1 & E2 & Ht & Hw & Hpp).
  pose proof (proc_state_action alloc p sig) as Hact.
  destruct (linux_signal_proc_state alloc (Some p)) as [o ops]. cbn in E1, E2, Hact. subst o.
  assert (∀ j n, pending_on p1 j n = pending_on p j n) as Hp1 by (intros; unfold pending_on; by rewrite Ht).
  destruct ops as [ps|].
  2:{ intros [= <- <- <-]. exists p1. split; [done|]. unfold action_of. rewrite Hact. cbn. by right. }
  rewrite Hact. destruct (linux_signal_handler_is_ign _).
  - destruct (flush_pending_spec alloc p1 sig Hs) as (q & -> & Hq1 & Hq2); [by exists ps|].
    intros [= <- <- <-]. exists q. split_and!; [done..| |].
    + intros n. by rewrite Hq1, Hpp.
    + intros i n. by rewrite Hq2, Hp1.
  - assert (signal_select_thread_helper p1 cur = target_thread p cur) as ->.
    { unfold signal_select_thread_helper, target_thread. rewrite Ht. by destruct cur, (pr_threads p). }
    destruct (target_thread p cur) as [i|].
    2:{ intros [= <- <- <-]. exists p1. auto. }
    intros (q & -> & Hq)%queue_on_thread_spec; [|done]. exists q. split; [done|].
    destruct Hq as [(-> & _ & Hq1 & Hq2)|(-> & Hq1 & Hq2)]; [left; exists i|right];
      split_and!; try done; intros; rewrite ?Hq1, ?Hq2, ?Hpp, ?Hp1; done.
Qed.

(** ** The signal mask and the actions *)

Section syscall_proofs.
Context {M : Type} `{UM : UserMem M} {UML : UserMemLaws M}.
Implicit Types (m : M) (p : proc).

Lemma thread_state_at_attached alloc p i t ts :
  pr_threads p !! i = Some t → th_signal t = Some ts → thread_state_at alloc p i = (p, Some ts).
Proof.
  intros Hi Ht. unfold thread_state_at, linux_signal_thread_state. rewrite Hi, Ht.
  f_equal. destruct p. unfold set_pr_threads. cbn in *. by rewrite list_insert_id.
Qed.

Lemma sanitize_member s n :
  sigismember (signal_mask_sanitize_helper s) n
  = negb (bool_decide (n = SIGKILL)) && negb (bool_decide (n = SIGSTOP)) && sigismember s n.
Proof.
  unfold signal_mask_sanitize_helper. rewrite !sigdelset_member by (unfold SIGKILL, SIGSTOP; lia).
  rewrite andb_assoc. f_equal. rewrite andb_comm. f_equal; f_equal; apply bool_decide_ext; done.
Qed.

(** The mask the caller asks for. *)
Definition requested (how : Z) (old new : sigset) (n : Z) : bool :=
  if how =? SIG_BLOCK then sigismember old n || sigismember new n
  else if how =? SIG_UNBLOCK then sigismember old n && negb (sigismember new n)
  else sigismember new n.

Lemma blocked_member how old new n :
  sigismember (if how =? SIG_BLOCK then Z.lor old new
               else if how =? SIG_UNBLOCK then Z.land old (not64 new) else new) n
  = requested how old new n.
Proof.
  unfold requested. rewrite !sigismember_bit. destruct (how =? SIG_BLOCK); [|destruct (how =? SIG_UNBLOCK)].
  - rewrite Z.lor_spec. by destruct (valid_sig n).
  - destruct (valid_sig n) eqn:E; [|done]. apply valid_sig_spec in E.
    by rewrite Z.land_spec, not64_bit by lia.
  - done.
Qed.

(** rt_sigprocmask: the previous mask is returned, the new mask is the union,
    the difference or the given set according to [how], always without SIGKILL
    and SIGSTOP, which therefore can never be blocked this way; only the calling
    thread's mask changes.  An unknown [how] is EINVAL and an unreadable set is
    EFAULT, and then the mask is as before. *)
Theorem sigprocmask_spec alloc m p i t ts how_i set_ptr oldset_ptr :
  pr_threads p !! i = Some t → th_signal t = Some ts → sigset_wf (blocked_signals ts) →
  set_ptr ≠ 0 →
  let '(p', m', r) := sys_rt_sigprocmask alloc true m (Some p) (Some i) how_i set_ptr oldset_ptr 8 in
  (oldset_ptr ≠ 0 → is_Some (um_store m oldset_ptr 8 (blocked_signals ts)) →
     um_load m' oldset_ptr 8 = Some (blocked_signals ts))
  ∧ ((r = - LINUX_EFAULT ∨ r = - LINUX_EINVAL) ∧ p' = Some p
     ∨ ∃ new blocked', um_load m' set_ptr 8 = Some new ∧ r = 0
         ∧ 0 ≤ i32 how_i ≤ 2
         ∧ p' = Some (store_ts p i (set_blocked ts blocked'))
         ∧ ∀ n, sigismember blocked' n
                = negb (bool_decide (n = SIGKILL)) && negb (bool_decide (n = SIGSTOP))
                  && requested (i32 how_i) (blocked_signals ts) new n).
Proof.
  intros Hi Ht Hwf Hset. unfold sys_rt_sigprocmask. rewrite (thread_state_at_attached alloc p i t ts) by done.
  cbn [negb linux_sigsetsize_valid Z.eqb Pos.eqb].
  assert (∀ m1, (if negb (oldset_ptr =? 0) then um_store m oldset_ptr 8 (blocked_signals ts) else Some m)
    = Some m1 → oldset_ptr ≠ 0 → is_Some (um_store m oldset_ptr 8 (blocked_signals ts)) →
    um_load m1 oldset_ptr 8 = Some (blocked_signals ts)) as Hold.
  { intros m1 E Hne _. rewrite (proj2 (Z.eqb_neq _ _)) in E by done.
    apply (um_load_store m m1 oldset_ptr 8 (blocked_signals ts)); [lia|exact Hwf|done]. }
  destruct (if negb (oldset_ptr =? 0) then _ else _) as [m1|] eqn:Em.
  2:{ split; [|auto]. intros Hne [x Hx]. rewrite (proj2 (Z.eqb_neq _ _)), Hx in Em by done. done. }
  specialize (Hold m1 eq_refl). rewrite (proj2 (Z.eqb_neq set_ptr 0)) by done.
  destruct (um_load m1 set_ptr 8) as [new|] eqn:El; [|by auto].
  destruct (negb _ && _ && _) eqn:Eh; [by auto|]. split; [done|]. right.
  eexists new, _. split_and!; [done|done| | |done|].
  1-2: unfold SIG_BLOCK, SIG_UNBLOCK, SIG_SETMASK in Eh;
    destruct (Z.eqb_spec (i32 how_i) 0), (Z.eqb_spec (i32 how_i) 1), (Z.eqb_spec (i32 how_i) 2); try done; lia.
  intros n. by rewrite sanitize_member, blocked_member.
Qed.

Record sigaction_wf (a : sigaction) : Prop := {
  saw_handler : 0 ≤ sa_handler a < 2 ^ 64;
  saw_flags : 0 ≤ sa_flags a < 2 ^ 64;
  saw_restorer : 0 ≤ sa_restorer a < 2 ^ 64;
  saw_mask : sigset_wf (sa_mask a);
}.

Lemma div_mod_pack a b : 0 ≤ a < 2 ^ 64 → u64 (a + 2 ^ 64 * b) = a ∧ (a + 2 ^ 64 * b) / 2 ^ 64 = b.
Proof.
  intros Ha. unfold uw. split.
  - rewrite (Z.mul_comm (2 ^ 64)), Z.mod_add, Z.mod_small by lia. done.
  - rewrite (Z.mul_comm (2 ^ 64)), Z.div_add, Z.div_small by lia. lia.
Qed.

(** The user layout of an action can be read back. *)
Lemma unpack_pack a : sigaction_wf a → unpack_sigaction (pack_sigaction a) = a
  ∧ 0 ≤ pack_sigaction a < 2 ^ (8 * LINUX_UAPI_SIGACTION_SIZE).
Proof.
  destruct a as [h fl re mk]. intros [Hh Hf Hr Hm]. cbn in *. unfold sigset_wf in Hm.
  unfold unpack_sigaction, pack_sigaction. cbn [sa_handler sa_flags sa_restorer sa_mask].
  destruct (div_mod_pack h (fl + 2 ^ 64 * (re + 2 ^ 64 * mk)) Hh) as [-> ->].
  destruct (div_mod_pack fl (re + 2 ^ 64 * mk) Hf) as [-> ->].
  destruct (div_mod_pack re mk Hr) as [-> ->]. rewrite uw_small by done. split; [done|].
  change (2 ^ (8 * LINUX_UAPI_SIGACTION_SIZE)) with (2 ^ 64 * (2 ^ 64 * (2 ^ 64 * 2 ^ 64))). lia.
Qed.

(** rt_sigaction: SIGKILL and SIGSTOP cannot be given an action (EINVAL); on
    success the action read from user memory replaces that of this one signal,
    the previous action is returned in the layout of the ABI, and a signal set to
    SIG_IGN or SIG_DFL is pending nowhere afterwards while all other pending
    signals are kept; on every error the process is as before. *)
Theorem sigaction_spec alloc m p ps signum act_ptr oldact_ptr :
  pr_signal p = Some ps → 1 ≤ signum ≤ 64 → sigaction_wf (disposition ps signum) →
  let '(p', m', r) := sys_rt_sigaction alloc true m (Some p) signum act_ptr oldact_ptr 8 in
  (r ≠ 0 → p' = Some p)
  ∧ (act_ptr ≠ 0 → signum = SIGKILL ∨ signum = SIGSTOP → r = - LINUX_EINVAL)
  ∧ (r = 0 → oldact_ptr ≠ 0 →
       ∃ v, um_load m' oldact_ptr 32 = Some v ∧ unpack_sigaction v = disposition ps signum)
  ∧ (r = 0 → act_ptr ≠ 0 →
       ∃ v q ps', um_load m' act_ptr 32 = Some v ∧ p' = Some q ∧ pr_signal q = Some ps'
         ∧ dispositions ps' = <[Z.to_nat (signum - 1) := unpack_sigaction v]> (dispositions ps)
         ∧ ∀ i n, pending_on q i n
                  = negb (bool_decide (signum = n)
                          && linux_signal_handler_is_special (sa_handler (unpack_sigaction v)))
                    && pending_on p i n).
Proof.
  intros Hps Hs Hold. unfold sys_rt_sigaction, linux_signal_proc_state. rewrite Hps.
  rewrite iw_small by (change (2 ^ (32 - 1)) with (2 ^ 31); lia). cbn [negb].
  unfold signal_is_valid, NSIG. rewrite !(proj2 (Z.leb_le _ _)) by lia.
  cbn [linux_sigsetsize_valid negb orb andb Z.eqb Pos.eqb].
  destruct (negb (act_ptr =? 0) && negb (signal_can_catch_or_ignore signum)) eqn:Ek.
  { split_and!; try done. }
  assert (act_ptr ≠ 0 → ¬ (signum = SIGKILL ∨ signum = SIGSTOP)) as Hks.
  { intros Hne Hk. rewrite (proj2 (Z.eqb_neq _ _)) in Ek by done. by destruct Hk as [-> | ->]. }
  destruct (unpack_pack _ Hold) as [Hup Hrange].
  assert (∀ m1, (if negb (oldact_ptr =? 0)
    then um_store m oldact_ptr LINUX_UAPI_SIGACTION_SIZE (pack_sigaction (disposition ps signum))
    else Some m) = Some m1 → oldact_ptr ≠ 0 →
    ∃ v, um_load m1 oldact_ptr 32 = Some v ∧ unpack_sigaction v = disposition ps signum) as Hst.
  { intros m1 E Hne. rewrite (proj2 (Z.eqb_neq _ _)) in E by done. eexists. split; [|exact Hup].
    by apply (um_load_store m m1 oldact_ptr 32). }
  destruct (if negb (oldact_ptr =? 0) then _ else _) as [m1|]; [|split_and!; [done|intros Hne Hk; by destruct (Hks Hne)|done|done]].
  specialize (Hst m1 eq_refl). destruct (Z.eqb_spec act_ptr 0) as [->|Hact]; [by split_and!|].
  destruct (um_load m1 act_ptr LINUX_UAPI_SIGACTION_SIZE) as [v|] eqn:El;
    [|split_and!; [done|intros Hne Hk; by destruct (Hks Hne)|done|done]].
  destruct (has _ _); [split_and!; [done|intros Hne Hk; by destruct (Hks Hne)|done|done]|].
  set (p1 := store_ps p _). assert (∀ i n, pending_on p1 i n = pending_on p i n) as Hp1 by done.
  destruct (linux_signal_handler_is_special _) eqn:Esp.
  - destruct (flush_pending_spec alloc p1 signum Hs) as (q & Eq & _ & Hq); [by eexists|].
    rewrite Eq. split_and!; [done|intros Hne Hk; by destruct (Hks Hne)|done|]. intros _ _.
    cbn in Eq. rewrite !(proj2 (Z.ltb_ge _ _)) in Eq by (unfold NSIG; lia). cbn in Eq.
    exists v, q. injection Eq as <-. eexists. split_and!; [done..|].
    intros i n. rewrite Hq, Esp, andb_true_r. done.
  - split_and!; [done|intros Hne Hk; by destruct (Hks Hne)|done|]. intros _ _. exists v, p1. eexists.
    split_and!; [done..|]. intros i n. by rewrite Esp, andb_false_r.
Qed.
End syscall_proofs.

(** ** Concrete executions *)
Module SignalDemo.

(** User memory as the list of the stores made, newest first. *)
Definition mem : Type := list (Z * Z * Z).

Fixpoint mem_load (m : mem) (a n : Z) : option Z :=
  match m with
  | [] => None
  | (a', n', v) :: m' =>
      if (a =? a') && (n =? n') then Some (v `mod` 2 ^ (8 * n)) else mem_load m' a n
  end.

#[export] Instance demo_mem : UserMem mem := {
  um_load := mem_load;
  um_store m a n v := if a =? 0 then None else Some ((a, n, v) :: m);
}.

#[export] Instance demo_mem_laws : UserMemLaws mem.
Proof.
  split; cbn.
  - intros m a n v Hn. induction m as [|[[a' n'] v'] m IH]; [done|]. cbn.
    destruct (_ && _); [|done]. intros [= <-]. apply Z.mod_pos_bound. lia.
  - intros m m' a n v Hn Hv. destruct (a =? 0); [done|]. intros [= <-]. cbn.
    rewrite !Z.eqb_refl. cbn. by rewrite Z.mod_small.
Qed.

Definition usr1_action : sigaction := SigAction 0x401000 (Z.lor SA_RESTORER SA_SIGINFO) 0x402000 (sigbit SIGUSR2).
Definition ps0 : linux_signal_proc_state_t :=
  set_dispositions linux_signal_init_proc_state
    (<[9%nat := usr1_action]> (dispositions linux_signal_init_proc_state)).
Definition ts0 : linux_signal_thread_state_t := linux_signal_init_thread_state.
Definition t0 : thread := Thread (Some ts0) thread_status_running None None.
(** One thread, a handler for SIGUSR1. *)
Definition p0 : proc := Proc (Some ps0) None [t0].

Lemma queue_signal_spec_witness :
  ∃ q, (linux_queue_signal true (Some p0) None SIGUSR1).1.1 = Some q ∧ pending_on q 0 SIGUSR1 = true.
Proof.
  destruct (queue_signal_spec true p0 None SIGUSR1 _ _ _ ltac:(unfold SIGUSR1; lia)
    ltac:(rewrite <- !surjective_pairing; reflexivity)) as (q & E & H).
  exists q. split; [exact E|].
  destruct H as [(i & _ & [= <-] & _ & Hq)|[Hr _]]; [|vm_compute in Hr; discriminate].
  rewrite Hq. reflexivity.
Defined.

Lemma sigprocmask_spec_witness :
  let '(p', m', r) := sys_rt_sigprocmask true true [(64, 8, 0x100 + sigbit SIGUSR1)] (Some p0)
                        (Some 0%nat) SIG_BLOCK 64 32 8 in
  um_load m' 32 8 = Some 0.
Proof.
  pose proof (sigprocmask_spec true [(64, 8, 0x100 + sigbit SIGUSR1)] p0 0 t0 ts0 SIG_BLOCK 64 32
    eq_refl eq_refl ltac:(split; [discriminate|reflexivity]) ltac:(done)) as H.
  destruct (sys_rt_sigprocmask _ _ _ _ _ _ _ _ _) as [[p' m'] r].
  destruct H as [H _]. apply H; [done|by eexists].
Defined.

Lemma sigaction_spec_witness :
  let '(p', m', r) := sys_rt_sigaction true true [] (Some p0) SIGUSR1 0 32 8 in
  r = 0 → ∃ v, um_load m' 32 32 = Some v ∧ unpack_sigaction v = usr1_action.
Proof.
  pose proof (sigaction_spec true ([] : mem) p0 ps0 SIGUSR1 0 32 eq_refl
    ltac:(unfold SIGUSR1; lia)
    ltac:(split; vm_compute; (split; [discriminate|reflexivity]))) as H.
  destruct (sys_rt_sigaction _ _ _ _ _ _ _ _) as [[p' m'] r].
  destruct H as (_ & _ & H & _). intros Hr. exact (H Hr ltac:(done)).
Defined.
End SignalDemo.
