(* ===== verification/SignalDeliver.v ===== *)
(** * Signal delivery and return

    [linux_layer/signal/signal_deliver.c], [signal_altstack.c],
    [signal_restore.c], [arch/signal_context_x86_64.c] and
    [sys_rt_sigreturn.c]: choosing a pending signal, its default action, entering
    a user handler on the right stack, and rt_sigreturn.  The x86_64 variant is
    translated.  The trap frame belongs to the core kernel and is the class
    [ArchSyscall]; user mappings are the class [UserVm]. *)

From stdpp Require Import base numbers list gmap option.
From S2P Require Import Prelude PageSlice SigSet SignalState.

Definition NR_rt_sigreturn : Z := 15.

(** The system-call trap frame and thread context of the core kernel. *)
Class ArchSyscall : Type := {
  trap_frame : Type;
  arch_ctx : Type;
  arch_syscall_get_user_return : trap_frame → arch_ctx → Z * Z * Z;
  arch_syscall_set_user_return : trap_frame → arch_ctx → Z → Z → Z → trap_frame * arch_ctx;
  arch_syscall_set_user_int_arg : trap_frame → Z → Z → trap_frame;
  tf_regs : trap_frame → restore_arch;
  tf_set_regs : trap_frame → restore_arch → trap_frame;
}.

(** The registers are assigned one by one and read back; setting the return
    point (program counter, stack pointer, return value) sets exactly that. *)
Class ArchSyscallLaws `{AS : ArchSyscall} : Prop := {
  get_set_return tf c pc sp ret :
    arch_syscall_get_user_return (arch_syscall_set_user_return tf c pc sp ret).1
      (arch_syscall_set_user_return tf c pc sp ret).2 = (pc, sp, ret);
  regs_set_return tf c pc sp ret :
    tf_regs (arch_syscall_set_user_return tf c pc sp ret).1 = tf_regs tf;
  regs_set_regs tf r : tf_regs (tf_set_regs tf r) = r;
  get_set_arg tf c k v :
    arch_syscall_get_user_return (arch_syscall_set_user_int_arg tf k v) c
    = arch_syscall_get_user_return tf c;
}.

(** Mapping a user page near the hint, unmapping it, making it read-execute,
    and asking whether an address is mapped. *)
Class UserVm (M : Type) : Type := {
  linux_mm_map_user_page : M → option (M * Z);
  linux_mm_unmap_user_page : M → Z → M;
  linux_mm_set_rx : M → Z → option M;
  linux_mm_query_vaddr : M → Z → bool;
}.

(** ** Choosing a signal *)

Definition signal_thread_has_pending (ts : linux_signal_thread_state_t) : bool :=
  negb (t_pending_signals ts =? 0).

Definition deliverable (ts : linux_signal_thread_state_t) (sig : Z) : bool :=
  sigismember (t_pending_signals ts) sig && negb (sigismember (blocked_signals ts) sig).

(** [for (sig = from; sig < from + n; sig++)] *)
Fixpoint select_loop (ts : linux_signal_thread_state_t) (sig : Z) (n : nat) : Z :=
  match n with
  | O => 0
  | S n' => if deliverable ts sig then sig else select_loop ts (sig + 1) n'
  end.

Definition signal_select_pending (ts : linux_signal_thread_state_t) : Z :=
  if sigismember (t_pending_signals ts) SIGKILL then SIGKILL
  else if sigismember (t_pending_signals ts) SIGSTOP then SIGSTOP
  else
    let sig := select_loop ts 1 31 in
    if negb (sig =? 0) then sig else select_loop ts 32 33.

Definition linux_signal_thread_has_deliverable_pending (alloc : bool) (process : ptr proc)
    (thread : ptr nat) : ptr proc * bool :=
  match thread, process with
  | Some i, Some p =>
      let '(p1, ots) := thread_state_at alloc p i in
      let '(p2, ops) := linux_signal_proc_state alloc (Some p1) in
      match ots, ops with
      | Some ts, Some _ => (p2, negb (signal_select_pending ts =? 0))
      | _, _ => (p2, false)
      end
  | _, _ => (process, false)
  end.

Definition linux_signal_wait4_should_return_eintr (alloc : bool) (process : ptr proc)
    (thread : ptr nat) : ptr proc * bool :=
  match thread, process with
  | Some i, Some p =>
      let '(p1, ots) := thread_state_at alloc p i in
      let '(p2, ops) := linux_signal_proc_state alloc (Some p1) in
      match ots, ops with
      | Some ts, Some _ =>
          let sig := signal_select_pending ts in
          if sig =? 0 then (p2, false)
          else if sig =? SIGCHLD then (p2, false)
          else (p2, true)
      | _, _ => (p2, false)
      end
  | _, _ => (process, false)
  end.

Definition linux_signal_has_deliverable_pending (alloc : bool) (process : ptr proc)
    (current : ptr nat) : ptr proc * bool :=
  match current, process with
  | Some i, Some p =>
      match thread_state_at alloc p i with
      | (p1, Some ts) =>
          if signal_thread_has_pending ts
          then linux_signal_thread_has_deliverable_pending alloc (Some p1) current
          else (Some p1, false)
      | (p1, None) => (Some p1, false)
      end
  | _, _ => (process, false)
  end.

(** ** Entering a handler *)

Fixpoint mask_loop (mask : sigset) (blocked : sigset) (s : Z) (n : nat) : sigset :=
  match n with
  | O => blocked
  | S n' =>
      mask_loop mask (if sigismember mask s then sigaddset blocked s else blocked) (s + 1) n'
  end.

Definition signal_apply_handler_mask (ts : linux_signal_thread_state_t) (disp : sigaction)
    (sig : Z) : linux_signal_thread_state_t :=
  let b := if negb (has (sa_flags disp) SA_NODEFER)
           then sigaddset (blocked_signals ts) sig else blocked_signals ts in
  set_blocked ts (mask_loop (sa_mask disp) b 1 (Z.to_nat NSIG)).

Definition clear_pending_t (ts : linux_signal_thread_state_t) (sig : Z) :=
  set_pending_t ts (sigdelset (t_pending_signals ts) sig).
Definition clear_pending_p (ps : linux_signal_proc_state_t) (sig : Z) :=
  set_pending_p ps (sigdelset (p_pending_signals ps) sig).

Definition set_inflight (ts : linux_signal_thread_state_t) (n : Z) (rs : linux_signal_restore) :=
  ThreadState (blocked_signals ts) (t_pending_signals ts) (alt_stack ts) (saved_main_sp ts) rs n.
Definition set_main_sp (ts : linux_signal_thread_state_t) (sp : Z) (a : stack_t) :=
  ThreadState (blocked_signals ts) (t_pending_signals ts) a sp (signal_restore ts)
    (signal_inflight ts).
Definition set_sigreturn_page (ps : linux_signal_proc_state_t) (page : Z) :=
  ProcState (dispositions ps) (p_pending_signals ps) page.
Definition with_active (rs : linux_signal_restore) (a : bool) :=
  SignalRestore a (rs_sig rs) (rs_saved_blocked rs) (rs_saved_syscall_ret rs) (rs_saved_user_pc rs)
    (rs_saved_user_sp rs) (rs_arch rs).
Definition with_handler (a : sigaction) (h : Z) :=
  SigAction h (sa_flags a) (sa_restorer a) (sa_mask a).

(** [x & ~((vaddr)0xF)] *)
Definition align16 (x : Z) : Z := Z.land x (not64 0xF).

Section deliver.
Context {M : Type} `{UM : UserMem M} `{VM : UserVm M} `{AS : ArchSyscall}.
Implicit Types (m : M) (tf : trap_frame) (c : arch_ctx) (p : proc).

Fixpoint altstack_loop m (va end_ : Z) (fuel : nat) : bool :=
  match fuel with
  | O => true
  | S fuel' =>
      if va <? end_ then
        if linux_mm_query_vaddr m va then altstack_loop m (u64 (va + PAGE_SIZE)) end_ fuel' else false
      else true
  end.

(** [vs]: the process has a user address space. *)
Definition linux_signal_altstack_region_mapped (vs : bool) m (base len : Z) : bool :=
  if negb vs || (len =? 0) || (base =? 0) then false
  else
    let end_ := u64 (base + len) in
    if end_ <? base then false
    else altstack_loop m (base - base `mod` PAGE_SIZE) end_ (Z.to_nat (len / PAGE_SIZE + 2)).

(** The stub [mov $nr, %rax; syscall] as a number. *)
Definition sigreturn_stub : Z :=
  foldr (λ b acc, b + 256 * acc) 0
    [0x48; 0xc7; 0xc0; Z.land NR_rt_sigreturn 0xff; Z.land (Z.shiftr NR_rt_sigreturn 8) 0xff;
     Z.land (Z.shiftr NR_rt_sigreturn 16) 0xff; Z.land (Z.shiftr NR_rt_sigreturn 24) 0xff; 0x0f; 0x05].

(** The page address, 0 on failure. *)
Definition signal_ensure_sigreturn_page m (ps : linux_signal_proc_state_t)
  : M * linux_signal_proc_state_t * Z :=
  if negb (sigreturn_page ps =? 0) then (m, ps, sigreturn_page ps)
  else
    match linux_mm_map_user_page m with
    | None => (m, ps, 0)
    | Some (m1, page) =>
        match um_store m1 page 9 sigreturn_stub with
        | None => (linux_mm_unmap_user_page m1 page, ps, 0)
        | Some m2 =>
            match linux_mm_set_rx m2 page with
            | None => (linux_mm_unmap_user_page m2 page, ps, 0)
            | Some m3 => (m3, set_sigreturn_page ps page, page)
            end
        end
    end.

(** The new user stack pointer, [None] on failure. *)
Definition signal_install_return_path m (user_sp : Z) (disp : sigaction)
    (ps : linux_signal_proc_state_t) : M * linux_signal_proc_state_t * option Z :=
  let '(m1, ps1, restorer) :=
    if has (sa_flags disp) SA_RESTORER && negb (sa_restorer disp =? 0)
       && (PAGE_SIZE <=? sa_restorer disp)
    then (m, ps, sa_restorer disp)
    else signal_ensure_sigreturn_page m ps in
  if restorer =? 0 then (m1, ps1, None)
  else
    let sp := align16 (u64 (user_sp - 8)) in
    match um_store m1 sp 8 restorer with
    | None => (m1, ps1, None)
    | Some m2 => (m2, ps1, Some sp)
    end.

Definition linux_signal_arch_save_context tf c (rs : linux_signal_restore) : linux_signal_restore :=
  let '(pc, sp, ret) := arch_syscall_get_user_return tf c in
  SignalRestore (rs_active rs) (rs_sig rs) (rs_saved_blocked rs) ret pc sp (tf_regs tf).

Definition linux_signal_arch_restore_context tf c (rs : linux_signal_restore) (user_sp : Z)
  : trap_frame * arch_ctx :=
  arch_syscall_set_user_return (tf_set_regs tf (rs_arch rs)) c (rs_saved_user_pc rs) user_sp
    (rs_saved_syscall_ret rs).

Definition signal_save_handler_context tf c (ts : linux_signal_thread_state_t)
  : linux_signal_thread_state_t * bool :=
  let rs := signal_restore ts in
  if negb (signal_inflight ts =? 0) || rs_active rs then (ts, false)
  else
    let rs := SignalRestore true (rs_sig rs) (blocked_signals ts) (rs_saved_syscall_ret rs)
                (rs_saved_user_pc rs) (rs_saved_user_sp rs) (rs_arch rs) in
    (set_inflight ts 1 (linux_signal_arch_save_context tf c rs), true).

(** What delivery did: the process exits with a code, or it returned. *)
Inductive deliver_result : Type :=
  | DeliverExit (code : Z)
  | DeliverRet (delivered : bool).

(** State of one delivery: process and thread state, user memory, trap frame. *)
Record dstate : Type := DState {
  ds_ps : linux_signal_proc_state_t;
  ds_ts : linux_signal_thread_state_t;
  ds_mem : M;
  ds_tf : trap_frame;
  ds_ctx : arch_ctx;
}.

Definition signal_clear_pending (d : dstate) (sig : Z) : dstate :=
  DState (clear_pending_p (ds_ps d) sig) (clear_pending_t (ds_ts d) sig) (ds_mem d) (ds_tf d) (ds_ctx d).

(** The [switch] on the default action: terminate with [128 + sig] or not. *)
Definition dfl_terminates (sig : Z) : bool :=
  existsb (Z.eqb sig)
    [SIGHUP; SIGINT; SIGTERM; SIGUSR1; SIGUSR2; SIGPIPE; SIGALRM; SIGPROF; SIGVTALRM; SIGSTKFLT; SIGPWR;
     SIGQUIT; SIGILL; SIGTRAP; SIGABRT; SIGBUS; SIGFPE; SIGSEGV; SIGXCPU; SIGXFSZ].

(** The stack the handler runs on: the alternate one when it is requested,
    enabled, large enough and not in use. *)
Definition wants_altstack (ts : linux_signal_thread_state_t) (disp : sigaction) : bool :=
  has (sa_flags disp) SA_ONSTACK && negb (ss_sp (alt_stack ts) =? 0)
  && negb (has (ss_flags (alt_stack ts)) SS_DISABLE)
  && (MINSIGSTKSZ <=? ss_size (alt_stack ts)).

Definition switch_altstack (ts : linux_signal_thread_state_t) (user_sp : Z)
  : linux_signal_thread_state_t * Z :=
  let a := alt_stack ts in
  if negb (has (ss_flags a) SS_ONSTACK)
  then (set_main_sp ts user_sp (StackT (ss_sp a) (Z.lor (ss_flags a) SS_ONSTACK) (ss_size a)),
        align16 (u64 (ss_sp a + ss_size a)))
  else (ts, user_sp).

(** The rest of [linux_deliver_pending_signals] once the signal has a user
    handler and no handler is running. *)
Definition deliver_handler (vs : bool) (d : dstate) (sig : Z) : dstate * deliver_result :=
  let disp := disposition (ds_ps d) sig in
  let '(pc, user_sp, syscall_ret) := arch_syscall_get_user_return (ds_tf d) (ds_ctx d) in
  let onalt := wants_altstack (ds_ts d) disp in
  if onalt && negb (linux_signal_altstack_region_mapped vs (ds_mem d) (ss_sp (alt_stack (ds_ts d)))
                      (ss_size (alt_stack (ds_ts d))))
  then (signal_clear_pending d sig, DeliverExit (128 + sig))
  else
    let '(ts1, user_sp) := if onalt then switch_altstack (ds_ts d) user_sp else (ds_ts d, user_sp) in
    let '(ts2, saved) := signal_save_handler_context (ds_tf d) (ds_ctx d) ts1 in
    if negb saved then (DState (ds_ps d) ts2 (ds_mem d) (ds_tf d) (ds_ctx d), DeliverRet false)
    else
      let rs := signal_restore ts2 in
      let ts3 := set_inflight ts2 1
                   (SignalRestore (rs_active rs) sig (rs_saved_blocked rs) (rs_saved_syscall_ret rs)
                      (rs_saved_user_pc rs) (rs_saved_user_sp rs) (rs_arch rs)) in
      let '(m1, ps1, osp) :=
        if vs then signal_install_return_path (ds_mem d) user_sp disp (ds_ps d)
        else (ds_mem d, ds_ps d, None) in
      match osp with
      | None =>
          let ts4 := set_inflight ts3 0 (with_active (signal_restore ts3) false) in
          let a := alt_stack ts4 in
          let ts5 := if has (ss_flags a) SS_ONSTACK
                     then set_alt_stack ts4
                            (StackT (ss_sp a) (Z.land (ss_flags a) (Z.lnot SS_ONSTACK)) (ss_size a))
                     else ts4 in
          (signal_clear_pending (DState ps1 ts5 m1 (ds_tf d) (ds_ctx d)) sig, DeliverRet false)
      | Some sp =>
          let disp' := if has (sa_flags disp) SA_RESETHAND then with_handler disp SIG_DFL else disp in
          let ps2 := set_dispositions ps1 (<[Z.to_nat (sig - 1) := disp']> (dispositions ps1)) in
          let ts4 := signal_apply_handler_mask ts3 disp' sig in
          let '(tf1, c1) := arch_syscall_set_user_return (ds_tf d) (ds_ctx d) (sa_handler disp') sp
                              syscall_ret in
          let tf2 := arch_syscall_set_user_int_arg tf1 0 sig in
          (signal_clear_pending (DState ps2 ts4 m1 tf2 c1) sig, DeliverRet true)
      end.

(** Delivery once both states are at hand. *)
Definition deliver_with (vs : bool) (d : dstate) : dstate * deliver_result :=
  let sig := signal_select_pending (ds_ts d) in
  if sig =? 0 then (d, DeliverRet false)
  else
    let disp := disposition (ds_ps d) sig in
    if linux_signal_handler_is_ign (sa_handler disp)
    then (signal_clear_pending d sig, DeliverRet false)
    else if linux_signal_handler_is_dfl (sa_handler disp) then
      if dfl_terminates sig then (signal_clear_pending d sig, DeliverExit (128 + sig))
      else (signal_clear_pending d sig, DeliverRet false)
    else if sa_handler disp <? PAGE_SIZE then (signal_clear_pending d sig, DeliverRet false)
    else if negb (signal_inflight (ds_ts d) =? 0) then (d, DeliverRet false)
    else deliver_handler vs d sig.

(** [process]: the process of the current thread, with its address space when
    [vs]; [current]: the current thread. *)
Definition linux_deliver_pending_signals (alloc vs : bool) m tf c (process : ptr proc)
    (current : ptr nat) : ptr proc * (M * trap_frame * arch_ctx) * deliver_result :=
  match current, process with
  | Some i, Some p =>
      match thread_state_at alloc p i with
      | (p1, Some ts) =>
          if negb (signal_thread_has_pending ts) then (Some p1, (m, tf, c), DeliverRet false)
          else
            match linux_signal_proc_state alloc (Some p1) with
            | (Some p2, Some ps) =>
                let '(d, r) := deliver_with vs (DState ps ts m tf c) in
                (Some (store_ts (store_ps p2 (ds_ps d)) i (ds_ts d)), (ds_mem d, ds_tf d, ds_ctx d), r)
            | (p2, _) => (p2, (m, tf, c), DeliverRet false)
            end
      | (p1, None) => (Some p1, (m, tf, c), DeliverRet false)
      end
  | _, _ => (process, (m, tf, c), DeliverRet false)
  end.

(** ** Returning from a handler *)

Definition signal_restore_user_context tf c (ts : linux_signal_thread_state_t)
  : bool * linux_signal_thread_state_t * trap_frame * arch_ctx :=
  let rs := signal_restore ts in
  if negb (rs_active rs) || negb (signal_inflight ts =? 1) then (false, ts, tf, c)
  else
    let a := alt_stack ts in
    let was_onstack := has (ss_flags a) SS_ONSTACK in
    let ts1 := set_blocked ts (rs_saved_blocked rs) in
    let '(ts2, restore_sp) :=
      if was_onstack
      then (set_alt_stack ts1 (StackT (ss_sp a) (Z.land (ss_flags a) (Z.lnot SS_ONSTACK)) (ss_size a)),
            saved_main_sp ts)
      else (ts1, rs_saved_user_sp rs) in
    let '(tf1, c1) := linux_signal_arch_restore_context tf c rs restore_sp in
    (true, set_inflight ts2 0 zero_restore, tf1, c1).

(** [None] is exit with [128 + SIGSEGV]. *)
Definition sys_rt_sigreturn (alloc : bool) tf c (process : ptr proc) (current : ptr nat)
  : ptr proc * option (trap_frame * arch_ctx) :=
  match process, current with
  | Some p, Some i =>
      match thread_state_at alloc p i with
      | (p1, Some ts) =>
          if negb (signal_inflight ts =? 1) || negb (rs_active (signal_restore ts))
          then (Some p1, None)
          else
            match signal_restore_user_context tf c ts with
            | (false, ts1, _, _) => (Some (store_ts p1 i ts1), None)
            | (true, ts1, tf1, c1) => (Some (store_ts p1 i ts1), Some (tf1, c1))
            end
      | (p1, None) => (Some p1, None)
      end
  | _, _ => (process, None)
  end.
End deliver.

(** ** Which signal is chosen *)

Lemma select_loop_spec ts n : ∀ s, 1 ≤ s →
  (select_loop ts s n = 0 ∧ ∀ k, s ≤ k < s + Z.of_nat n → deliverable ts k = false)
  ∨ (s ≤ select_loop ts s n < s + Z.of_nat n ∧ deliverable ts (select_loop ts s n) = true
     ∧ ∀ k, s ≤ k < select_loop ts s n → deliverable ts k = false).
Proof.
  induction n as [|n IH]; intros s Hs; cbn [select_loop]; [left; split; [done|lia]|].
  destruct (deliverable ts s) eqn:Ed; [right; split_and!; [lia..|done|lia]|].
  destruct (IH (s + 1) ltac:(lia)) as [[-> Hn]|(Hr & Hd & Hn)].
  - left. split; [done|]. intros k Hk. destruct (decide (k = s)) as [->|]; [done|]. apply Hn. lia.
  - right. split_and!; [lia..|done|]. intros k Hk.
    destruct (decide (k = s)) as [->|]; [done|]. apply Hn. lia.
Qed.

Lemma deliverable_range ts k : deliverable ts k = true → 1 ≤ k ≤ 64.
Proof.
  intros [Hp _]%andb_true_iff. rewrite sigismember_bit in Hp.
  apply andb_true_iff in Hp as [Hp _]. by apply valid_sig_spec.
Qed.

Lemma select_rest ts :
  let sig := select_loop ts 1 31 in
  let r := if negb (sig =? 0) then sig else select_loop ts 32 33 in
  (r = 0 ∧ ∀ k, deliverable ts k = false)
  ∨ (1 ≤ r ≤ 64 ∧ deliverable ts r = true ∧ ∀ k, k < r → deliverable ts k = false).
Proof.
  cbv zeta.
  assert (∀ k, k < 1 ∨ 64 < k → deliverable ts k = false) as Hout.
  { intros k Hk. destruct (deliverable ts k) eqn:E; [|done]. apply deliverable_range in E. lia. }
  destruct (select_loop_spec ts 31 1 ltac:(lia)) as [[-> H1]|(Hr & Hd & H1)].
  - cbn [negb Z.eqb]. destruct (select_loop_spec ts 33 32 ltac:(lia)) as [[-> H2]|(Hr & Hd & H2)].
    + left. split; [done|]. intros k. destruct (decide (1 ≤ k < 32)); [apply H1; lia|].
      destruct (decide (32 ≤ k < 65)); [apply H2; lia|]. apply Hout. lia.
    + right. split_and!; [lia..|done|]. intros k Hk.
      destruct (decide (k < 1)); [apply Hout; lia|].
      destruct (decide (k < 32)); [apply H1; lia|]. apply H2. lia.
  - rewrite (proj2 (Z.eqb_neq _ _)) by lia. cbn [negb]. right. split_and!; [lia..|done|].
    intros k Hk. destruct (decide (k < 1)); [apply Hout; lia|]. apply H1. lia.
Qed.

(** Choosing the signal to deliver: SIGKILL first and SIGSTOP next, even when
    they are in the mask; otherwise the lowest pending signal that is not
    blocked; and none exactly when there is no such signal. *)
Theorem select_pending_spec ts :
  let sig := signal_select_pending ts in
  let pending := sigismember (t_pending_signals ts) in
  (pending SIGKILL = true → sig = SIGKILL)
  ∧ (pending SIGKILL = false → pending SIGSTOP = true → sig = SIGSTOP)
  ∧ (pending SIGKILL = false → pending SIGSTOP = false →
       (sig = 0 ∧ ∀ k, deliverable ts k = false)
       ∨ (1 ≤ sig ≤ 64 ∧ deliverable ts sig = true ∧ ∀ k, k < sig → deliverable ts k = false)).
Proof.
  cbv zeta. unfold signal_select_pending. destruct (sigismember _ SIGKILL); [done|].
  destruct (sigismember _ SIGSTOP); [done|]. split_and!; [done..|]. intros _ _. apply select_rest.
Qed.

Lemma select_pending_member ts : signal_select_pending ts ≠ 0 →
  1 ≤ signal_select_pending ts ≤ 64 ∧ sigismember (t_pending_signals ts) (signal_select_pending ts) = true.
Proof.
  unfold signal_select_pending. intros H0. destruct (sigismember _ SIGKILL) eqn:E1; [done|].
  destruct (sigismember _ SIGSTOP) eqn:E2; [done|].
  destruct (select_rest ts) as [[H _]|(Hr & Hd & _)]; [done|]. split; [done|].
  by apply andb_true_iff in Hd as [? _].
Qed.

Lemma mask_loop_member mask b n : ∀ s k, 1 ≤ s → s + Z.of_nat n ≤ 65 →
  sigismember (mask_loop mask b s n) k
  = sigismember b k || (bool_decide (s ≤ k < s + Z.of_nat n) && sigismember mask k).
Proof.
  revert b. induction n as [|n IH]; intros b s k Hs Hb; cbn [mask_loop].
  { rewrite bool_decide_eq_false_2 by lia. by rewrite orb_false_r. }
  rewrite IH by lia. destruct (sigismember mask s) eqn:Em.
  - rewrite sigaddset_member by lia. destruct (decide (s = k)) as [->|Hne].
    + rewrite bool_decide_eq_true_2, (bool_decide_eq_true_2 (k ≤ k < _)), Em by lia.
      by rewrite orb_true_r.
    + rewrite (bool_decide_eq_false_2 (s = k)) by done. cbn [orb]. f_equal. f_equal.
      apply bool_decide_ext. lia.
  - destruct (decide (s = k)) as [->|Hne].
    + rewrite Em, !andb_false_r. done.
    + f_equal. f_equal. apply bool_decide_ext. lia.
Qed.

(** The mask during a handler. *)
Lemma handler_mask_member ts disp sig k : 1 ≤ sig ≤ 64 →
  sigismember (blocked_signals (signal_apply_handler_mask ts disp sig)) k
  = sigismember (blocked_signals ts) k || sigismember (sa_mask disp) k
    || (negb (has (sa_flags disp) SA_NODEFER) && bool_decide (sig = k)).
Proof.
  intros Hs. unfold signal_apply_handler_mask. cbn [blocked_signals set_blocked].
  rewrite mask_loop_member by (unfold NSIG; lia).
  assert (bool_decide (1 ≤ k < 1 + Z.of_nat (Z.to_nat NSIG)) && sigismember (sa_mask disp) k
          = sigismember (sa_mask disp) k) as ->.
  { rewrite sigismember_bit. destruct (valid_sig k) eqn:E; [|by rewrite andb_false_r].
    apply valid_sig_spec in E. by rewrite bool_decide_eq_true_2 by (unfold NSIG; lia). }
  destruct (has _ _); cbn [negb andb].
  - by rewrite orb_false_r.
  - rewrite sigaddset_member by done. by destruct (bool_decide _), (sigismember _ _), (sigismember _ _).
Qed.

Lemma align16_spec x : 0 ≤ x < 2 ^ 64 → align16 x = x - x `mod` 16 ∧ (align16 x) `mod` 16 = 0.
Proof.
  intros Hx. assert (align16 x = x - x `mod` 16) as ->.
  { unfold align16. assert (Z.land x (not64 0xF) = Z.ldiff x (Z.ones 4)) as ->.
    { apply Z.bits_inj'. intros k Hk. rewrite Z.land_spec, Z.ldiff_spec. destruct (decide (k < 64)).
      - rewrite not64_bit by lia. done.
      - assert (Z.testbit x k = false) as ->; [|done].
        rewrite <- (Z.mod_small x (2 ^ 64)) by done. apply Z.mod_pow2_bits_high. lia. }
    rewrite Z.ldiff_ones_r by lia. rewrite Z.shiftl_mul_pow2, Z.shiftr_div_pow2 by lia.
    change (2 ^ 4) with 16. pose proof (Z.div_mod x 16). lia. }
  split; [done|]. rewrite (Z.mod_eq x 16) by lia.
  replace (x - (x - 16 * (x / 16))) with (x / 16 * 16) by lia. by apply Z.mod_mul.
Qed.

Section deliver_proofs.
Context {M : Type} `{UM : UserMem M} {UML : UserMemLaws M} `{VM : UserVm M}
        `{AS : ArchSyscall} {ASL : ArchSyscallLaws}.
Implicit Types (m : M) (tf : trap_frame) (c : arch_ctx) (p : proc)
               (ts : linux_signal_thread_state_t) (ps : linux_signal_proc_state_t).

(** The bookkeeping of a thread: no handler is running, or one is. *)
Definition idle ts : Prop :=
  signal_inflight ts = 0 ∧ rs_active (signal_restore ts) = false
  ∧ has (ss_flags (alt_stack ts)) SS_ONSTACK = false.
Definition in_handler ts : Prop :=
  signal_inflight ts = 1 ∧ rs_active (signal_restore ts) = true.

Lemma land_onstack fl : has (Z.land fl (Z.lnot SS_ONSTACK)) SS_ONSTACK = false.
Proof.
  unfold has, SS_ONSTACK. rewrite <- Z.land_assoc. change (Z.land (Z.lnot 1) 1) with 0.
  by rewrite Z.land_0_r.
Qed.

(** Setting and clearing SS_ONSTACK. *)
Lemma onstack_roundtrip fl : has fl SS_ONSTACK = false →
  has (Z.lor fl SS_ONSTACK) SS_ONSTACK = true
  ∧ Z.land (Z.lor fl SS_ONSTACK) (Z.lnot SS_ONSTACK) = fl.
Proof.
  intros Hf. assert (Z.testbit fl 0 = false) as H0 by (rewrite <- has_bit by lia; done).
  unfold SS_ONSTACK in *. split.
  - change 1 with (2 ^ 0). rewrite has_bit by lia. by rewrite Z.lor_spec, orb_true_r.
  - apply Z.bits_inj'. intros k Hk. rewrite Z.land_spec, Z.lor_spec, Z.lnot_spec by done.
    destruct (decide (k = 0)) as [->|]; [rewrite H0; done|].
    assert (Z.testbit 1 k = false) as ->.
    { change 1 with (2 ^ 0). rewrite Z.pow2_bits_eqb by lia. by apply Z.eqb_neq. }
    by rewrite orb_false_r, andb_true_r.
Qed.

(** A successful entry into the handler of [sig], starting from state [d]. *)
Record entered (d d' : @dstate M AS) : Prop := {
  en_inflight : in_handler (ds_ts d');
  en_saved : rs_saved_blocked (signal_restore (ds_ts d')) = blocked_signals (ds_ts d);
  en_saved_regs : rs_arch (signal_restore (ds_ts d')) = tf_regs (ds_tf d);
  en_saved_ret : arch_syscall_get_user_return (ds_tf d) (ds_ctx d)
    = (rs_saved_user_pc (signal_restore (ds_ts d')), rs_saved_user_sp (signal_restore (ds_ts d')),
       rs_saved_syscall_ret (signal_restore (ds_ts d')));
  en_stack :
    (alt_stack (ds_ts d') = alt_stack (ds_ts d))
    ∨ (has (ss_flags (alt_stack (ds_ts d'))) SS_ONSTACK = true
       ∧ alt_stack (ds_ts d)
         = StackT (ss_sp (alt_stack (ds_ts d')))
             (Z.land (ss_flags (alt_stack (ds_ts d'))) (Z.lnot SS_ONSTACK))
             (ss_size (alt_stack (ds_ts d')))
       ∧ saved_main_sp (ds_ts d') = rs_saved_user_sp (signal_restore (ds_ts d')));
}.

Lemma switch_altstack_spec ts sp : has (ss_flags (alt_stack ts)) SS_ONSTACK = false →
  ∃ ts', switch_altstack ts sp = (ts', align16 (u64 (ss_sp (alt_stack ts) + ss_size (alt_stack ts))))
    ∧ saved_main_sp ts' = sp ∧ blocked_signals ts' = blocked_signals ts
    ∧ t_pending_signals ts' = t_pending_signals ts
    ∧ signal_restore ts' = signal_restore ts ∧ signal_inflight ts' = signal_inflight ts
    ∧ has (ss_flags (alt_stack ts')) SS_ONSTACK = true
    ∧ alt_stack ts = StackT (ss_sp (alt_stack ts'))
        (Z.land (ss_flags (alt_stack ts')) (Z.lnot SS_ONSTACK)) (ss_size (alt_stack ts')).
Proof.
  intros Hf. unfold switch_altstack. rewrite Hf. cbn [negb]. eexists. split; [done|].
  destruct (onstack_roundtrip _ Hf) as [Ho Hr]. cbn. rewrite Hr. by destruct (alt_stack ts).
Qed.

Lemma install_some m sp disp ps m1 ps1 sp1 :
  signal_install_return_path m sp disp ps = (m1, ps1, Some sp1) →
  sp1 = align16 (u64 (sp - 8)) ∧ dispositions ps1 = dispositions ps
  ∧ ∃ restorer, restorer ≠ 0 ∧ (0 ≤ restorer < 2 ^ 64 → um_load m1 sp1 8 = Some restorer)
      ∧ (has (sa_flags disp) SA_RESTORER = true → PAGE_SIZE ≤ sa_restorer disp →
         restorer = sa_restorer disp).
Proof.
  unfold signal_install_return_path. destruct (if _ && _ then _ else _) as [[m0 ps0] re] eqn:Er.
  destruct (Z.eqb_spec re 0); [done|]. destruct (um_store _ _ _ _) as [m2|] eqn:Es; [|done].
  intros [= <- <- <-]. split_and!; [done| |].
  - destruct (_ && _ && _); [by injection Er as <- <- <-|]. unfold signal_ensure_sigreturn_page in Er.
    repeat (case_match; simplify_eq; try done).
  - exists re. split_and!; [done| |].
    + intros Hre. eapply um_load_store; [lia| |exact Es]. exact Hre.
    + intros Hf Hp. rewrite Hf, (proj2 (Z.leb_le _ _)) in Er by done.
      rewrite (proj2 (Z.eqb_neq (sa_restorer disp) 0)) in Er by (unfold PAGE_SIZE in *; lia).
      by injection Er.
Qed.

(** The stack pointer the handler starts from. *)
Definition handler_base (d : @dstate M AS) (disp : sigaction) : Z :=
  let a := alt_stack (ds_ts d) in
  if wants_altstack (ds_ts d) disp then align16 (u64 (ss_sp a + ss_size a))
  else (arch_syscall_get_user_return (ds_tf d) (ds_ctx d)).1.2.

Lemma save_idle tf c ts : signal_inflight ts = 0 → rs_active (signal_restore ts) = false →
  ∃ ts', signal_save_handler_context tf c ts = (ts', true) ∧ in_handler ts'
    ∧ rs_saved_blocked (signal_restore ts') = blocked_signals ts
    ∧ rs_arch (signal_restore ts') = tf_regs tf
    ∧ arch_syscall_get_user_return tf c
      = (rs_saved_user_pc (signal_restore ts'), rs_saved_user_sp (signal_restore ts'),
         rs_saved_syscall_ret (signal_restore ts'))
    ∧ blocked_signals ts' = blocked_signals ts ∧ t_pending_signals ts' = t_pending_signals ts
    ∧ alt_stack ts' = alt_stack ts ∧ saved_main_sp ts' = saved_main_sp ts.
Proof.
  intros Hi Ha. unfold signal_save_handler_context, linux_signal_arch_save_context.
  rewrite Hi, Ha. cbn [negb Z.eqb orb].
  destruct (arch_syscall_get_user_return tf c) as [[pc sp] ret]. eexists. split; [done|]. cbn. done.
Qed.

(** The two ways [deliver_handler] returns, in one statement. *)
Lemma deliver_handler_spec vs (d : dstate) sig d' r :
  idle (ds_ts d) → 1 ≤ sig ≤ 64 → deliver_handler vs d sig = (d', r) →
  let disp := disposition (ds_ps d) sig in
  match r with
  | DeliverRet true =>
      entered d d'
      ∧ blocked_signals (ds_ts d')
        = blocked_signals (signal_apply_handler_mask (ds_ts d) disp sig)
      ∧ t_pending_signals (ds_ts d') = sigdelset (t_pending_signals (ds_ts d)) sig
      ∧ dispositions (ds_ps d') = <[Z.to_nat (sig - 1) :=
          if has (sa_flags disp) SA_RESETHAND then with_handler disp SIG_DFL else disp]>
          (dispositions (ds_ps d))
      ∧ arch_syscall_get_user_return (ds_tf d') (ds_ctx d')
        = (if has (sa_flags disp) SA_RESETHAND then SIG_DFL else sa_handler disp,
           align16 (u64 (handler_base d disp - 8)),
           (arch_syscall_get_user_return (ds_tf d) (ds_ctx d)).2)
  | _ => idle (ds_ts d') ∧ ds_tf d' = ds_tf d ∧ ds_ctx d' = ds_ctx d
         ∧ t_pending_signals (ds_ts d') = sigdelset (t_pending_signals (ds_ts d)) sig
         ∧ blocked_signals (ds_ts d') = blocked_signals (ds_ts d)
  end.
Proof.
  intros (Hi & Ha & Ho) Hs. cbv zeta. unfold deliver_handler, handler_base.
  set (disp := disposition (ds_ps d) sig).
  destruct (arch_syscall_get_user_return (ds_tf d) (ds_ctx d)) as [[pc sp] ret] eqn:Eg.
  destruct (wants_altstack (ds_ts d) disp && _) eqn:Ew.
  { intros [= <- <-]. cbn. done. }
  destruct (if wants_altstack (ds_ts d) disp then switch_altstack _ _ else _) as [ts1 usp] eqn:Esw.
  assert (signal_inflight ts1 = 0 ∧ rs_active (signal_restore ts1) = false
    ∧ blocked_signals ts1 = blocked_signals (ds_ts d)
    ∧ t_pending_signals ts1 = t_pending_signals (ds_ts d)
    ∧ usp = (if wants_altstack (ds_ts d) disp
             then align16 (u64 (ss_sp (alt_stack (ds_ts d)) + ss_size (alt_stack (ds_ts d)))) else sp)
    ∧ ((alt_stack ts1 = alt_stack (ds_ts d))
       ∨ (has (ss_flags (alt_stack ts1)) SS_ONSTACK = true
          ∧ alt_stack (ds_ts d) = StackT (ss_sp (alt_stack ts1))
              (Z.land (ss_flags (alt_stack ts1)) (Z.lnot SS_ONSTACK)) (ss_size (alt_stack ts1))
          ∧ saved_main_sp ts1 = sp))) as (Hi1 & Ha1 & Hb1 & Hp1 & -> & Hst).
  { destruct (wants_altstack (ds_ts d) disp).
    - destruct (switch_altstack_spec (ds_ts d) sp Ho) as (ts' & E & H1 & H2 & H3 & H4 & H5 & H6 & H7).
      rewrite E in Esw. injection Esw as <- <-. rewrite H5, H4. split_and!; try done. right. done.
    - injection Esw as <- <-. split_and!; try done. by left. }
  destruct (save_idle (ds_tf d) (ds_ctx d) ts1 Hi1 Ha1)
    as (ts2 & -> & [_ Hact] & Hsb & Hsr & Hsg & Hb2 & Hp2 & Halt2 & Hms2).
  rewrite Eg in Hsg. cbn [negb].
  destruct (if vs then _ else _) as [[m1 ps1] [sp1|]] eqn:Ein.
  - assert (sp1 = align16 (u64 ((if wants_altstack (ds_ts d) disp
        then align16 (u64 (ss_sp (alt_stack (ds_ts d)) + ss_size (alt_stack (ds_ts d)))) else sp) - 8))
      ∧ dispositions ps1 = dispositions (ds_ps d)) as [-> Hd1].
    { destruct vs; [|done]. by apply install_some in Ein as (-> & -> & _). }
    set (disp' := if has (sa_flags disp) SA_RESETHAND then _ else disp).
    destruct (arch_syscall_set_user_return _ _ _ _ _) as [tf1 c1] eqn:Eset.
    intros [= <- <-]. cbn [ds_ts ds_ps ds_tf ds_ctx signal_clear_pending].
    split_and!.
    + split; cbn; [done|by rewrite Hsb, Hb1|done|by rewrite Eg|].
      rewrite Halt2. destruct Hst as [->|(? & ? & Hm)]; [by left|right].
      split_and!; [done|done|]. cbn. rewrite Hms2, Hm. by injection Hsg.
    + cbn. rewrite Hb2, Hb1. unfold disp'. by destruct (has (sa_flags disp) SA_RESETHAND).
    + cbn. by rewrite Hp2, Hp1.
    + cbn. by rewrite Hd1.
    + rewrite get_set_arg. change tf1 with (tf1, c1).1. change c1 with (tf1, c1).2 at 2.
      rewrite <- Eset, get_set_return. unfold disp'. cbn [fst snd]. by destruct (has (sa_flags disp) SA_RESETHAND).
  - intros [= <- <-]. cbn [ds_ts ds_tf ds_ctx signal_clear_pending].
    cbn. rewrite Halt2. destruct (has (ss_flags (alt_stack ts1)) SS_ONSTACK) eqn:Eo; cbn.
    + split_and!; try done; [split_and!; try done; apply land_onstack|by rewrite Hp2, Hp1|by rewrite Hb2].
    + split_and!; try done; [unfold idle; cbn; by rewrite Halt2|by rewrite Hp2, Hp1|by rewrite Hb2].
Qed.

Definition chosen (d : @dstate M AS) : Z := signal_select_pending (ds_ts d).
Definition chosen_action (d : @dstate M AS) : sigaction := disposition (ds_ps d) (chosen d).

(** When delivery returns "delivered", it was [deliver_handler] that ran. *)
Lemma deliver_with_true vs (d d' : dstate) :
  deliver_with vs d = (d', DeliverRet true) →
  1 ≤ chosen d ≤ 64 ∧ PAGE_SIZE ≤ sa_handler (chosen_action d)
  ∧ deliver_handler vs d (chosen d) = (d', DeliverRet true).
Proof.
  unfold deliver_with, chosen_action, chosen.
  destruct (Z.eqb_spec (signal_select_pending (ds_ts d)) 0) as [|H0]; [done|].
  destruct (linux_signal_handler_is_ign _); [done|].
  destruct (linux_signal_handler_is_dfl _); [by destruct (dfl_terminates _)|].
  destruct (Z.ltb_spec (sa_handler (disposition (ds_ps d) (signal_select_pending (ds_ts d)))) PAGE_SIZE);
    [done|].
  destruct (negb _); [done|]. intros E. split; [by apply select_pending_member|done].
Qed.

(** Entering a user handler: the interrupted system call continues in the
    handler, with the signal removed from the pending set, the mask extended by
    the action's mask and (without SA_NODEFER) the signal itself, the system
    call's return value kept, on a 16-byte aligned stack just below the
    interrupted or the alternate one.  With SA_RESETHAND the action is reset
    before it is used, so that the handler's address is 0. *)
Theorem handler_entry vs (d d' : dstate) :
  idle (ds_ts d) → deliver_with vs d = (d', DeliverRet true) →
  let disp := chosen_action d in
  (∀ n, sigismember (t_pending_signals (ds_ts d')) n
        = negb (bool_decide (chosen d = n)) && sigismember (t_pending_signals (ds_ts d)) n)
  ∧ (∀ n, sigismember (blocked_signals (ds_ts d')) n
          = sigismember (blocked_signals (ds_ts d)) n || sigismember (sa_mask disp) n
            || (negb (has (sa_flags disp) SA_NODEFER) && bool_decide (chosen d = n)))
  ∧ ∃ sp, sp `mod` 16 = 0 ∧ u64 (handler_base d disp - 8) - 16 < sp ≤ u64 (handler_base d disp - 8)
      ∧ arch_syscall_get_user_return (ds_tf d') (ds_ctx d')
        = (if has (sa_flags disp) SA_RESETHAND then 0 else sa_handler disp, sp,
           (arch_syscall_get_user_return (ds_tf d) (ds_ctx d)).2).
Proof.
  intros Hi Hd. cbv zeta. destruct (deliver_with_true vs d d' Hd) as (Hs & _ & Hh).
  destruct (deliver_handler_spec vs d (chosen d) d' _ Hi Hs Hh) as (_ & Hb & Hp & _ & Hg).
  split_and!.
  - intros n. rewrite Hp. by apply sigdelset_member.
  - intros n. rewrite Hb. by apply handler_mask_member.
  - eexists. pose proof (align16_spec (u64 (handler_base d (chosen_action d) - 8)) (uw_range 64 _ ltac:(lia)))
      as [Ha Hm].
    pose proof (Z.mod_pos_bound (u64 (handler_base d (chosen_action d) - 8)) 16 ltac:(lia)).
    split_and!; [exact Hm|rewrite Ha; lia..|]. exact Hg.
Qed.

Lemma restore_context_spec tf c r pc sp ret tf' c' :
  arch_syscall_set_user_return (tf_set_regs tf r) c pc sp ret = (tf', c') →
  arch_syscall_get_user_return tf' c' = (pc, sp, ret) ∧ tf_regs tf' = r.
Proof.
  intros E. pose proof (get_set_return (tf_set_regs tf r) c pc sp ret) as Hg.
  pose proof (regs_set_return (tf_set_regs tf r) c pc sp ret) as Hr.
  rewrite E in Hg, Hr. by rewrite regs_set_regs in Hr.
Qed.

(** What a handler may have changed meanwhile: the mask and the pending set. *)
Definition same_bookkeeping ts ts' : Prop :=
  signal_restore ts' = signal_restore ts ∧ signal_inflight ts' = signal_inflight ts
  ∧ alt_stack ts' = alt_stack ts ∧ saved_main_sp ts' = saved_main_sp ts.

(** C17. Handler round trip: whatever registers the handler leaves behind and
    whatever it does to the mask and the pending set, rt_sigreturn resumes the
    interrupted program with its program counter, stack pointer, return value,
    registers, signal mask and alternate stack exactly as they were before the
    delivery, and the thread is ready for the next delivery. *)
Theorem handler_roundtrip vs (d d' : dstate) tf c ts :
  idle (ds_ts d) → deliver_with vs d = (d', DeliverRet true) → same_bookkeeping (ds_ts d') ts →
  ∃ ts' tf' c', signal_restore_user_context tf c ts = (true, ts', tf', c')
    ∧ arch_syscall_get_user_return tf' c' = arch_syscall_get_user_return (ds_tf d) (ds_ctx d)
    ∧ tf_regs tf' = tf_regs (ds_tf d)
    ∧ blocked_signals ts' = blocked_signals (ds_ts d) ∧ alt_stack ts' = alt_stack (ds_ts d)
    ∧ t_pending_signals ts' = t_pending_signals ts ∧ idle ts'.
Proof.
  intros Hi Hd (Hrs & Hin & Hal & Hms). pose proof Hi as (_ & _ & Ho).
  destruct (deliver_with_true vs d d' Hd) as (Hs & _ & Hh).
  destruct (deliver_handler_spec vs d (chosen d) d' _ Hi Hs Hh) as ([[H1 H2] Hb Hr Hg Hst] & _).
  unfold signal_restore_user_context. rewrite Hrs, Hin, H1, H2. cbn [negb orb Z.eqb Pos.eqb].
  rewrite Hal, Hms. unfold linux_signal_arch_restore_context.
  destruct Hst as [Hst|(Hon & Hst & Hm)].
  - rewrite Hst, Ho. destruct (arch_syscall_set_user_return _ _ _ _ _) as [tf' c'] eqn:E.
    destruct (restore_context_spec _ _ _ _ _ _ _ _ E) as [Hg' Hr'].
    eexists _, _, _. split; [done|]. cbn. rewrite Hal, Hst, Hb, Hg', Hg, Hr'. split_and!; try done.
    unfold idle. cbn. by rewrite Hal, Hst.
  - rewrite Hon. destruct (arch_syscall_set_user_return _ _ _ _ _) as [tf' c'] eqn:E.
    destruct (restore_context_spec _ _ _ _ _ _ _ _ E) as [Hg' Hr'].
    eexists _, _, _. split; [done|]. cbn. rewrite Hb, Hg', Hg, Hr', Hm. split_and!; try done.
    unfold idle. cbn. split_and!; [done..|apply land_onstack].
Qed.

(** ** Default actions *)

Lemma deliver_dfl vs (d : dstate) :
  chosen d ≠ 0 → sa_handler (chosen_action d) = SIG_DFL →
  deliver_with vs d
  = (signal_clear_pending d (chosen d),
     if dfl_terminates (chosen d) then DeliverExit (128 + chosen d) else DeliverRet false).
Proof.
  unfold deliver_with, chosen_action, chosen. intros H0 Hd.
  rewrite (proj2 (Z.eqb_neq _ _)) by done. rewrite Hd.
  change (linux_signal_handler_is_ign SIG_DFL) with false.
  change (linux_signal_handler_is_dfl SIG_DFL) with true. by destruct (dfl_terminates _).
Qed.

(** SIGKILL does not kill: it is chosen first and cannot be caught or
    blocked, but the default-action switch has no case for it, so a thread with
    SIGKILL pending consumes the signal and returns to user mode with its trap
    frame unchanged. *)
Theorem sigkill_ignored alloc vs m tf c p i t ts ps :
  pr_threads p !! i = Some t → th_signal t = Some ts → pr_signal p = Some ps →
  sigismember (t_pending_signals ts) SIGKILL = true →
  sa_handler (disposition ps SIGKILL) = SIG_DFL →
  ∃ q, linux_deliver_pending_signals alloc vs m tf c (Some p) (Some i)
       = (Some q, (m, tf, c), DeliverRet false)
    ∧ pending_on q i SIGKILL = false.
Proof.
  intros Hi Ht Hp Hk Hd. unfold linux_deliver_pending_signals.
  rewrite (thread_state_at_attached alloc p i t ts Hi Ht).
  assert (signal_thread_has_pending ts = true) as ->.
  { unfold signal_thread_has_pending. destruct (Z.eqb_spec (t_pending_signals ts) 0) as [E|]; [|done].
    rewrite E in Hk. pose proof (sigemptyset_member SIGKILL) as He. unfold sigemptyset in He. congruence. }
  cbn [negb]. unfold linux_signal_proc_state. rewrite Hp.
  set (d := DState ps ts m tf c).
  assert (chosen d = SIGKILL) as Hc by (unfold chosen, signal_select_pending; cbn [ds_ts d]; by rewrite Hk).
  rewrite (deliver_dfl vs d), Hc; [| by rewrite Hc| by unfold chosen_action; rewrite Hc].
  eexists. split; [done|]. unfold pending_on.
  cbn [store_ts store_ps set_pr_signal set_pr_threads pr_threads].
  rewrite list_lookup_alter, Hi, decide_True by done.
  change (sigismember (sigdelset (t_pending_signals ts) SIGKILL) SIGKILL = false).
  by rewrite sigdelset_member.
Qed.

(** Default actions: a chosen signal with the default action terminates the
    process with status 128 plus its number for the twenty signals of the switch,
    and is dropped otherwise (among them SIGKILL, SIGSYS, SIGIO and all real-time
    signals); an ignored one is dropped; in each case exactly this signal leaves
    the pending sets and the interrupted context is untouched. *)
Theorem default_actions vs (d d' : dstate) r :
  chosen d ≠ 0 → sa_handler (chosen_action d) = SIG_DFL ∨ sa_handler (chosen_action d) = SIG_IGN →
  deliver_with vs d = (d', r) →
  ds_tf d' = ds_tf d ∧ ds_ctx d' = ds_ctx d ∧ ds_mem d' = ds_mem d
  ∧ blocked_signals (ds_ts d') = blocked_signals (ds_ts d)
  ∧ (∀ n, sigismember (t_pending_signals (ds_ts d')) n
          = negb (bool_decide (chosen d = n)) && sigismember (t_pending_signals (ds_ts d)) n)
  ∧ r = (if bool_decide (sa_handler (chosen_action d) = SIG_DFL)
            && bool_decide (chosen d ∈ [1; 2; 3; 4; 5; 6; 7; 8; 10; 11; 12; 13; 14; 15; 16; 24; 25; 26; 27; 30])
         then DeliverExit (128 + chosen d) else DeliverRet false).
Proof.
  intros H0 Ha. assert (1 ≤ chosen d ≤ 64) as Hs by apply (select_pending_member _ H0).
  assert (bool_decide (chosen d ∈ [1; 2; 3; 4; 5; 6; 7; 8; 10; 11; 12; 13; 14; 15; 16; 24; 25; 26; 27; 30])
          = dfl_terminates (chosen d)) as ->.
  { unfold dfl_terminates. destruct (existsb _ _) eqn:E.
    - apply bool_decide_eq_true. apply existsb_exists in E as (x & Hx & ->%Z.eqb_eq).
      apply list_elem_of_In. cbn in Hx. unfold SIGHUP, SIGINT, SIGTERM, SIGUSR1, SIGUSR2, SIGPIPE, SIGALRM,
        SIGPROF, SIGVTALRM, SIGSTKFLT, SIGPWR, SIGQUIT, SIGILL, SIGTRAP, SIGABRT, SIGBUS, SIGFPE, SIGSEGV,
        SIGXCPU, SIGXFSZ in Hx. cbn. tauto.
    - apply bool_decide_eq_false. intros Hin. apply list_elem_of_In in Hin.
      apply not_true_iff_false in E. apply E, existsb_exists. exists (chosen d).
      split; [|apply Z.eqb_refl]. cbn in *. unfold SIGHUP, SIGINT, SIGTERM, SIGUSR1, SIGUSR2, SIGPIPE, SIGALRM,
        SIGPROF, SIGVTALRM, SIGSTKFLT, SIGPWR, SIGQUIT, SIGILL, SIGTRAP, SIGABRT, SIGBUS, SIGFPE, SIGSEGV,
        SIGXCPU, SIGXFSZ. tauto. }
  assert (∀ r', (signal_clear_pending d (chosen d), r') = (d', r) →
    ds_tf d' = ds_tf d ∧ ds_ctx d' = ds_ctx d ∧ ds_mem d' = ds_mem d
    ∧ blocked_signals (ds_ts d') = blocked_signals (ds_ts d)
    ∧ (∀ n, sigismember (t_pending_signals (ds_ts d')) n
          = negb (bool_decide (chosen d = n)) && sigismember (t_pending_signals (ds_ts d)) n)
    ∧ r = r') as Hclear.
  { intros r' [= <- <-]. split_and!; try done. intros n. cbn. by apply sigdelset_member. }
  destruct Ha as [Ha|Ha].
  - rewrite deliver_dfl, Ha by done. intros E. by apply Hclear in E.
  - unfold deliver_with. fold (chosen d). fold (chosen_action d).
    rewrite (proj2 (Z.eqb_neq _ _)), Ha by done.
    change (linux_signal_handler_is_ign SIG_IGN) with true. intros E. by apply Hclear in E.
Qed.
End deliver_proofs.

(** ** Concrete executions *)
Module DeliverDemo.
Import SignalDemo.

(** A trap frame: the saved registers, the return address and the return
    value; the context holds the user stack pointer. *)
#[export] Instance demo_arch : ArchSyscall := {
  trap_frame := restore_arch * Z * Z;
  arch_ctx := Z;
  arch_syscall_get_user_return tf c := (tf.1.2, c, tf.2);
  arch_syscall_set_user_return tf c pc sp ret := ((tf.1.1, pc, ret), sp);
  arch_syscall_set_user_int_arg tf k v :=
    let r := tf.1.1 in
    (RestoreArch (ra_r15 r) (ra_r14 r) (ra_r13 r) (ra_r12 r) (ra_rbp r) (ra_rbx r) (ra_r11 r) (ra_r10 r)
       (ra_r9 r) (ra_r8 r) (ra_rdx r) (ra_rsi r) v, tf.1.2, tf.2);
  tf_regs tf := tf.1.1;
  tf_set_regs tf r := (r, tf.1.2, tf.2);
}.

#[export] Instance demo_arch_laws : ArchSyscallLaws.
Proof. split; cbn; done. Qed.

#[export] Instance demo_vm : UserVm mem := {
  linux_mm_map_user_page m := Some (m, 0x700000000000);
  linux_mm_unmap_user_page m _ := m;
  linux_mm_set_rx m _ := Some m;
  linux_mm_query_vaddr _ _ := true;
}.

Definition tf0 : trap_frame := (RestoreArch 15 14 13 12 5 3 11 10 9 8 2 6 7, 0x400123, 42).
Definition sp0 : arch_ctx := 0x7fff0009.

(** A thread with [pending] signals. *)
Definition d0 (pending : sigset) : @dstate mem demo_arch :=
  DState ps0 (set_pending_t ts0 pending) ([] : mem) tf0 sp0.
Definition d_usr1 : @dstate mem demo_arch := d0 (sigbit SIGUSR1).
Definition d_entered : @dstate mem demo_arch := (deliver_with true d_usr1).1.

Lemma d_usr1_delivered : deliver_with true d_usr1 = (d_entered, DeliverRet true).
Proof. vm_compute. reflexivity. Qed.

Lemma handler_entry_witness :
  ∃ sp, sp `mod` 16 = 0
    ∧ arch_syscall_get_user_return (ds_tf d_entered) (ds_ctx d_entered) = (0x401000, sp, 42).
Proof.
  destruct (handler_entry true d_usr1 d_entered) as (_ & _ & sp & Hm & _ & Hg).
  - split_and!; reflexivity.
  - exact d_usr1_delivered.
  - exists sp. split; [exact Hm|exact Hg].
Defined.

Lemma handler_roundtrip_witness :
  ∃ ts' tf' c', signal_restore_user_context (zero_arch, 0, 0) 0 (ds_ts d_entered) = (true, ts', tf', c')
    ∧ arch_syscall_get_user_return tf' c' = (0x400123, 0x7fff0009, 42).
Proof.
  destruct (handler_roundtrip true d_usr1 d_entered (zero_arch, 0, 0) 0 (ds_ts d_entered))
    as (ts' & tf' & c' & E & Hg & _).
  - split_and!; reflexivity.
  - exact d_usr1_delivered.
  - split_and!; reflexivity.
  - exists ts', tf', c'. split; [exact E|exact Hg].
Defined.

Definition t_kill : thread :=
  Thread (Some (set_pending_t ts0 (sigbit SIGKILL))) thread_status_running None None.

Lemma sigkill_ignored_witness :
  ∃ q, linux_deliver_pending_signals true true ([] : mem) tf0 sp0 (Some (Proc (Some ps0) None [t_kill]))
         (Some 0%nat)
       = (Some q, ([], tf0, sp0), DeliverRet false).
Proof.
  destruct (sigkill_ignored true true ([] : mem) tf0 sp0 (Proc (Some ps0) None [t_kill]) 0 t_kill
    (set_pending_t ts0 (sigbit SIGKILL)) ps0 eq_refl eq_refl eq_refl ltac:(vm_compute; reflexivity)
    eq_refl) as (q & E & _).
  exists q. exact E.
Defined.

Lemma default_actions_witness :
  (deliver_with true (d0 (sigbit SIGTERM))).2 = DeliverExit 143.
Proof.
  destruct (default_actions true (d0 (sigbit SIGTERM)) _ _ ltac:(vm_compute; discriminate)
    (or_introl eq_refl) (surjective_pairing _)) as (_ & _ & _ & _ & _ & E).
  rewrite E. vm_compute. reflexivity.
Defined.
End DeliverDemo.
