(* ===== verification/PageCache.v ===== *)
(** * The page cache of the file-system backends ([servers/fs/vfs_page_cache.c])

    Files of at most 256 KiB are cached as page slices, one entry of a growable
    table per path, with an active and an inactive list of entries and, in each
    entry, of pages.  The bytes come from the buffer of a ramfs entry or from
    the initramfs image; dirty entries of ramfs files are copied back when they
    leave the cache.  Operations that touch memory that is not allocated give
    [None]. *)

From Stdlib Require Import Ascii.
From stdpp Require Import base numbers strings gmap option list.
From S2P Require Import Prelude PageSlice SliceTable VfsPath VfsInode KHeap DirNames RamFs Cpio Mount Namespace.

Definition VFS_PCACHE_SOFT_MAX : Z := 64.
Definition VFS_PCACHE_MAX_CACHED : Z := 256 * 1024.
Definition VFS_PCACHE_PAGE_DIRTY : Z := 4.
Definition VFS_BACKEND_CAP_READ_SOURCE : Z := 1.
Definition VFS_BACKEND_CAP_WRITE_SOURCE : Z := 2.
Definition VFS_BACKEND_CAP_WRITE_CACHE : Z := 4.
Definition VFS_BACKEND_CAP_FLUSH_DROP : Z := 8.

(** A page of a slice: its bytes and the flags of its slice entry. *)
Record cpage : Type := CPage { pg_bytes : list Z; pg_flags : Z }.

(** ** Page slices of the core kernel: copying and cloning *)

(** Byte [i] of a slice. *)
Definition slice_byte `{PageSlice cpage} (s : page_slice) (i : Z) : option Z :=
  match page_slice_lookup s (PAGE_SLICE_BYTE_TO_PGOFF i) with
  | Some p => pg_bytes p !! Z.to_nat (PAGE_SLICE_IN_PAGE_OFF i)
  | None => None
  end.

(** [page_slice_copy_to_buffer s off len]: the error code and the bytes it has
    put into the buffer. *)
Class SliceCopy `{PS : PageSlice cpage} : Type := {
  page_slice_copy_to_buffer : page_slice → Z → Z → error_t * list Z;
  page_slice_clone : page_slice → error_t * option page_slice;
}.

(** Bytes are copied in order; the copy succeeds when every page is there; a
    clone has the same size and the same pages. *)
Class SliceCopyLaws `{SC : SliceCopy} : Prop := {
  copy_bytes s off len e bytes :
    page_slice_copy_to_buffer s off len = (e, bytes) → 0 ≤ off → 0 ≤ len →
    Z.of_nat (length bytes) ≤ len
    ∧ (e = REND_SUCCESS → Z.of_nat (length bytes) = len)
    ∧ ∀ k : nat, (k < length bytes)%nat → slice_byte s (off + Z.of_nat k) = bytes !! k;
  copy_succeeds s off len :
    0 ≤ off → 0 ≤ len → off + len ≤ page_slice_get_size s →
    (∀ i, off ≤ i < off + len → is_Some (slice_byte s i)) →
    (page_slice_copy_to_buffer s off len).1 = REND_SUCCESS;
  clone_same s s' :
    page_slice_clone s = (REND_SUCCESS, Some s') → slice_same s s';
}.

(** ** State *)

Record vfs_pcache_entry `{PageSlice cpage} : Type := PcEntry {
  pe_path : cstr;
  pe_slice : option page_slice;
  pe_size : Z;
  pe_caps : Z;
  pe_storage : Z;
  pe_dirty : bool;
  pe_valid : bool;
  pages_active : list Z;
  pages_inactive : list Z;
}.
Arguments PcEntry {_} _ _ _ _ _ _ _ _ _.

#[global] Instance zero_pcache_entry `{PageSlice cpage} : Zeroed vfs_pcache_entry :=
  PcEntry [] None 0 0 0 false false [] [].

(** The table, [vfs_pcache_ready], and the two lists of entries, by index,
    from the head to the tail. *)
Record pcache (TE : Type) : Type := PCache {
  pc_tab : TE;
  pc_ready : bool;
  vfs_pcache_active : list Z;
  vfs_pcache_inactive : list Z;
}.
Arguments PCache {TE} _ _ _ _.
Arguments pc_tab {TE} _.
Arguments pc_ready {TE} _.
Arguments vfs_pcache_active {TE} _.
Arguments vfs_pcache_inactive {TE} _.

(** The cache together with the memory it copies from and to. *)
Record cache_world (T TE : Type) : Type := CacheWorld {
  w_fs : ramfs T;
  w_img : cpio_img;
  w_pc : pcache TE;
}.
Arguments CacheWorld {T TE} _ _ _.
Arguments w_fs {T TE} _.
Arguments w_img {T TE} _.
Arguments w_pc {T TE} _.

(** The memory available to one call: for records of the table, and for the
    pages of a slice by their offset. *)
Record cache_env : Type := CacheEnv { ce_tab : alloc_oracle; ce_page : alloc_oracle }.

(** The address of a ramfs entry as it is kept in [storage]: not NULL. *)
Definition ramfs_ptr (i : Z) : Z := i + 1.
Definition ramfs_of_ptr (p : Z) : Z := p - 1.

Definition list_del (i : Z) (l : list Z) : list Z := filter (λ j, j ≠ i) l.

Section page_cache.
Context {T TE : Type} `{SCS : StrcmpS} `{PS : PageSlice cpage} `{SC : !SliceCopy}
        `{RT : RecordTable ramfs_entry T} `{RTE : RecordTable vfs_pcache_entry TE}.
Abbreviation world := (cache_world T TE).
Implicit Types (w : world) (e : cache_env) (ent : vfs_pcache_entry) (ino : vfs_inode).

Definition set_pc w (pc : pcache TE) : world := CacheWorld (w_fs w) (w_img w) pc.
Definition set_fs w (fs : ramfs T) : world := CacheWorld fs (w_img w) (w_pc w).
Definition set_pc_tab w (t : TE) : world :=
  set_pc w (PCache t (pc_ready (w_pc w)) (vfs_pcache_active (w_pc w)) (vfs_pcache_inactive (w_pc w))).
Definition set_lists w (act inact : list Z) : world :=
  set_pc w (PCache (pc_tab (w_pc w)) (pc_ready (w_pc w)) act inact).

Definition vfs_pcache_at w (i : Z) : ptr vfs_pcache_entry := rt_get (pc_tab (w_pc w)) i.
Definition put_entry w (i : Z) ent : world := set_pc_tab w (rt_set (pc_tab (w_pc w)) i ent).

(** [list_del_init] of the node of entry [i], wherever it is linked. *)
Definition lru_del w (i : Z) : world :=
  set_lists w (list_del i (vfs_pcache_active (w_pc w))) (list_del i (vfs_pcache_inactive (w_pc w))).

Definition with_dirty ent (b : bool) : vfs_pcache_entry :=
  PcEntry (pe_path ent) (pe_slice ent) (pe_size ent) (pe_caps ent) (pe_storage ent) b
    (pe_valid ent) (pages_active ent) (pages_inactive ent).
Definition with_slice ent (s : option page_slice) : vfs_pcache_entry :=
  PcEntry (pe_path ent) s (pe_size ent) (pe_caps ent) (pe_storage ent) (pe_dirty ent)
    (pe_valid ent) (pages_active ent) (pages_inactive ent).
Definition with_pages ent (act inact : list Z) : vfs_pcache_entry :=
  PcEntry (pe_path ent) (pe_slice ent) (pe_size ent) (pe_caps ent) (pe_storage ent)
    (pe_dirty ent) (pe_valid ent) act inact.

Definition vfs_pcache_tab_ensure e w : world :=
  if pc_ready (w_pc w) then w
  else
    match rt_init (ce_tab e) 8 with
    | (REND_SUCCESS, t) =>
        set_pc w (PCache t true (vfs_pcache_active (w_pc w)) (vfs_pcache_inactive (w_pc w)))
    | (_, t) => set_pc_tab w t
    end.

(** The ramfs entry [storage] points to. *)
Definition storage_entry w (p : Z) : ptr ramfs_entry := ramfs_entry_at (w_fs w) (ramfs_of_ptr p).

Definition vfs_inode_source_kva w ino : option Z :=
  if storage ino =? 0 then Some 0
  else if has (backend_caps ino) VFS_BACKEND_CAP_WRITE_SOURCE
  then r_data <$> storage_entry w (storage ino)
  else Some (storage ino).

Definition vfs_inode_ramfs_storage ino : ptr Z :=
  if (storage ino =? 0) || negb (has (backend_caps ino) VFS_BACKEND_CAP_WRITE_SOURCE) then None
  else Some (storage ino).

(** [n] bytes at [src + off], in a heap buffer or in the image. *)
Definition source_load w ino (src off n : Z) : option (list Z) :=
  if has (backend_caps ino) VFS_BACKEND_CAP_WRITE_SOURCE then mem_load (rmem (w_fs w)) src off n
  else map byte_of <$> img_read (w_img w) (padd src off) n.

Definition vfs_pcache_find e w (path : cstr) : world * ptr Z :=
  let w := vfs_pcache_tab_ensure e w in
  (w, rt_scan (λ ent, pe_valid ent && (strcmp_s (pe_path ent) path VFS_PATH_MAX =? 0))
        (pc_tab (w_pc w)) 0).

(** The node of page [pgoff] is part of the slice of the entry: it is in
    allocated memory only while that slice has the page. *)
Definition node_live ent (pgoff : Z) : bool :=
  bool_decide (is_Some (pe_slice ent ≫= λ s, page_slice_lookup s pgoff)).

(** Every node of both lists is read and unlinked. *)
Definition vfs_pcache_clear_page_lru ent : option vfs_pcache_entry :=
  if forallb (node_live ent) (pages_active ent ++ pages_inactive ent)
  then Some (with_pages ent [] []) else None.

Definition vfs_pcache_touch_file w (i : Z) : world :=
  match vfs_pcache_at w i with
  | Some ent =>
      if pe_valid ent then
        let w := lru_del w i in
        set_lists w (vfs_pcache_active (w_pc w) ++ [i]) (vfs_pcache_inactive (w_pc w))
      else w
  | None => w
  end.

(** The node of the page has just been initialised. *)
Definition vfs_pcache_page_link_inactive ent (pgoff : Z) : vfs_pcache_entry :=
  with_pages ent (pages_active ent) (pages_inactive ent ++ [pgoff]).

Definition vfs_pcache_touch_page ent (pgoff : Z) : vfs_pcache_entry :=
  with_pages ent (list_del pgoff (pages_active ent) ++ [pgoff]) (list_del pgoff (pages_inactive ent)).

(** Iterations of a loop over the pages of [len] bytes. *)
Definition page_fuel (len : Z) : nat := S (S (Z.to_nat (len `div` PAGE_SIZE))).

Fixpoint touch_pages (fuel : nat) ent (s : page_slice) (offset len done : Z) : vfs_pcache_entry :=
  match fuel with
  | O => ent
  | S fuel' =>
      if done <? len then
        let off := u64 (offset + done) in
        let pgoff := PAGE_SLICE_BYTE_TO_PGOFF off in
        match page_slice_lookup s pgoff with
        | None => ent
        | Some _ =>
            let chunk := Z.min (PAGE_SIZE - PAGE_SLICE_IN_PAGE_OFF off) (len - done) in
            touch_pages fuel' (vfs_pcache_touch_page ent pgoff) s offset len (done + chunk)
        end
      else ent
  end.

Definition vfs_pcache_touch_pages ent (offset len : Z) : vfs_pcache_entry :=
  match pe_slice ent with
  | Some s => if len =? 0 then ent else touch_pages (page_fuel len) ent s offset len 0
  | None => ent
  end.

Definition vfs_pcache_flush_entry w (i : Z) : option (world * bool) :=
  match vfs_pcache_at w i with
  | None => Some (w, true)
  | Some ent =>
      match pe_slice ent with
      | None => Some (w, true)
      | Some s =>
          let clean := put_entry w i (with_dirty ent false) in
          if negb (pe_valid ent) || negb (pe_dirty ent) then Some (w, true)
          else if has (pe_caps ent) VFS_BACKEND_CAP_FLUSH_DROP then Some (clean, true)
          else if negb (has (pe_caps ent) VFS_BACKEND_CAP_WRITE_SOURCE) || (pe_storage ent =? 0)
          then Some (clean, true)
          else
            r ← storage_entry w (pe_storage ent);
            if r_data r =? 0 then Some (clean, true)
            else
              let '(err, bytes) := page_slice_copy_to_buffer s 0 (pe_size ent) in
              mem' ← mem_store (rmem (w_fs w)) (r_data r) 0 bytes;
              match err with
              | REND_SUCCESS =>
                  Some (set_fs clean
                          (RamFs (rt_set (rtab (w_fs w)) (ramfs_of_ptr (pe_storage ent))
                                    (with_size r (pe_size ent))) mem'), true)
              | _ => Some (set_fs w (RamFs (rtab (w_fs w)) mem'), false)
              end
      end
  end.

Definition vfs_pcache_destroy_entry w (i : Z) : option world :=
  match vfs_pcache_at w i with
  | None => Some w
  | Some ent =>
      ent1 ← vfs_pcache_clear_page_lru ent;
      Some (put_entry (lru_del w i) i
              (PcEntry [] None 0 0 0 false false (pages_active ent1) (pages_inactive ent1)))
  end.

Definition vfs_pcache_free_entry w (i : Z) : option world :=
  r ← vfs_pcache_flush_entry w i; vfs_pcache_destroy_entry r.1 i.

(** The victim is the tail of the inactive list, or of the active one. *)
Definition evict_victim w : option (world * Z) :=
  let pc := w_pc w in
  match last (vfs_pcache_inactive pc) with
  | Some i => Some (w, i)
  | None =>
      match last (vfs_pcache_active pc) with
      | Some i => Some (set_lists w (list_del i (vfs_pcache_active pc)) [i], i)
      | None => None
      end
  end.

Definition vfs_pcache_evict_one w : option world :=
  match evict_victim w with
  | None => Some w
  | Some (w1, i) =>
      r ← (if from_option pe_dirty false (vfs_pcache_at w1 i) then vfs_pcache_flush_entry w1 i
           else Some (w1, true));
      let '(w2, flushed) := r in
      if (flushed : bool) then vfs_pcache_destroy_entry w2 i
      else
        let w3 := lru_del w2 i in
        Some (set_lists w3 (i :: vfs_pcache_active (w_pc w3)) (vfs_pcache_inactive (w_pc w3)))
  end.

Fixpoint free_all w (i : Z) (fuel : nat) : option world :=
  match fuel with
  | O => Some w
  | S fuel' =>
      w' ← (match vfs_pcache_at w i with
            | Some ent =>
                if pe_valid ent then vfs_pcache_free_entry w i
                else Some (put_entry w i (with_pages ent [] []))
            | None => Some w
            end);
      free_all w' (i + 1) fuel'
  end.

Definition vfs_page_cache_reset e w : option world :=
  let w := vfs_pcache_tab_ensure e w in
  w ← free_all w 0 (Z.to_nat (rt_count (pc_tab (w_pc w))));
  Some (vfs_pcache_tab_ensure e (set_pc w (PCache (rt_destroy (pc_tab (w_pc w))) false [] []))).

Definition vfs_page_cache_drop e w (path : ptr cstr) : option world :=
  match path with
  | None => Some w
  | Some p =>
      match vfs_pcache_find e w (path_norm p) with
      | (w, Some i) => vfs_pcache_free_entry w i
      | (w, None) => Some w
      end
  end.

(** ** Filling *)

(** The loop of [vfs_pcache_fill_slice_from_kva]: the slice, and the entry
    with the pages linked to it. *)
Fixpoint fill_pages (fuel : nat) e w ino (src size : Z) (s : page_slice) (linked : list Z) (pgoff : Z)
  : option (error_t * page_slice * list Z) :=
  match fuel with
  | O => Some (REND_SUCCESS, s, linked)
  | S fuel' =>
      if negb (ce_page e pgoff) then Some (E_REND_NO_MEM, s, linked)
      else
        let off := pgoff * PAGE_SIZE in
        let copy_len := if size <? off + PAGE_SIZE then size - off else PAGE_SIZE in
        bytes ← source_load w ino src off copy_len;
        let page := CPage (bytes ++ replicate (Z.to_nat (PAGE_SIZE - copy_len)) 0) 0 in
        match page_slice_insert_page s pgoff page with
        | (REND_SUCCESS, s') =>
            let linked' := match page_slice_lookup s' pgoff with
                           | Some _ => linked ++ [pgoff]
                           | None => linked
                           end in
            fill_pages fuel' e w ino src size s' linked' (pgoff + 1)
        | (err, s') => Some (err, s', linked)
        end
  end.

(** [inr] the slice; in either case with the pages linked to the entry. *)
Definition vfs_pcache_fill_slice_from_kva e w ino (src size : Z)
  : option ((error_t + page_slice) * list Z) :=
  if (src =? 0) || (size =? 0) then Some (inl E_IN_PARAM, [])
  else
    match page_slice_create 0 size with
    | None => Some (inl E_REND_NO_MEM, [])
    | Some s =>
        r ← fill_pages (Z.to_nat (PAGE_SLICE_SIZE_TO_PAGE_COUNT size)) e w ino src size s [] 0;
        Some (match r with
              | (REND_SUCCESS, s', linked) => (inr s', linked)
              | (err, _, linked) => (inl err, linked)
              end)
    end.

(** The pages that the loop has linked stay in the list of the entry, also when
    the slice that owns their nodes was destroyed because the loop failed. *)
Definition link_pages ent (linked : list Z) : vfs_pcache_entry :=
  foldl vfs_pcache_page_link_inactive ent linked.

Definition vfs_pcache_fill_from_inode e w (i : Z) ino : option (world * error_t) :=
  match vfs_pcache_at w i with
  | None => Some (w, E_IN_PARAM)
  | Some ent =>
      if is_dir ino || (ino_size ino =? 0) then Some (w, E_IN_PARAM)
      else
        ent0 ← vfs_pcache_clear_page_lru ent;
        let ent1 := PcEntry (pe_path ent) None (ino_size ino) (backend_caps ino) (storage ino) false
                      (pe_valid ent) (pages_active ent0) (pages_inactive ent0) in
        src ← vfs_inode_source_kva w ino;
        if src =? 0 then Some (put_entry w i ent1, E_IN_PARAM)
        else
          r ← vfs_pcache_fill_slice_from_kva e w ino src (ino_size ino);
          Some (match r with
                | (inr s, linked) => (put_entry w i (link_pages (with_slice ent1 (Some s)) linked), REND_SUCCESS)
                | (inl err, linked) => (put_entry w i (link_pages ent1 linked), err)
                end)
  end.

(** [init_slot]: the entry is new and last in the inactive list. *)
Definition init_slot w (i : Z) (path : cstr) : world :=
  let w := put_entry w i (PcEntry (strncpy_term path (VFS_PATH_MAX - 1)) None 0 0 0 false true [] []) in
  set_lists w (vfs_pcache_active (w_pc w)) (vfs_pcache_inactive (w_pc w) ++ [i]).

Definition free_slot w : ptr Z := rt_scan (λ ent, negb (pe_valid ent)) (pc_tab (w_pc w)) 0.

(** A new record at the end of the table, below the soft maximum. *)
Definition grow_slot e w : world + world * Z :=
  if rt_count (pc_tab (w_pc w)) <? VFS_PCACHE_SOFT_MAX then
    match rt_push_zero (ce_tab e) (pc_tab (w_pc w)) with
    | (REND_SUCCESS, t1, idx) =>
        match rt_get t1 idx with
        | Some _ => inr (set_pc_tab w t1, idx)
        | None => inl (set_pc_tab w (rt_pop_last t1))
        end
    | (_, t1, _) => inl (set_pc_tab w t1)
    end
  else inl w.

Definition vfs_pcache_alloc_slot e w (path : cstr) : option (world * ptr Z) :=
  let w := vfs_pcache_tab_ensure e w in
  if negb (pc_ready (w_pc w)) then Some (w, None)
  else
    match free_slot w with
    | Some i => Some (init_slot w i path, Some i)
    | None =>
        match grow_slot e w with
        | inr (w1, idx) => Some (init_slot w1 idx path, Some idx)
        | inl w1 =>
            w2 ← vfs_pcache_evict_one w1;
            Some (match free_slot w2 with
                  | Some i => (init_slot w2 i path, Some i)
                  | None => (w2, None)
                  end)
        end
    end.

Definition vfs_pcache_ensure e w ino : option (world * ptr Z) :=
  if is_dir ino || (ino_size ino =? 0) || (VFS_PCACHE_MAX_CACHED <? ino_size ino) then Some (w, None)
  else
    let norm := path_norm (ino_path ino) in
    match vfs_pcache_find e w norm with
    | (w1, Some i) => Some (w1, Some i)
    | (w1, None) =>
        r ← vfs_pcache_alloc_slot e w1 norm;
        match r with
        | (w2, None) => Some (w2, None)
        | (w2, Some i) =>
            f ← vfs_pcache_fill_from_inode e w2 i ino;
            match f with
            | (w3, REND_SUCCESS) => Some (w3, Some i)
            | (w3, _) => w4 ← vfs_pcache_free_entry w3 i; Some (w4, None)
            end
        end
    end.

(** ** Reading *)

(** The result and the bytes put into the caller's buffer. *)
Definition vfs_pcache_read_direct w ino (offset len : Z) : option (Z * list Z) :=
  if ino_size ino <=? offset then Some (0, [])
  else
    let len := if ino_size ino - offset <? len then ino_size ino - offset else len in
    if has (backend_caps ino) VFS_BACKEND_CAP_WRITE_SOURCE then
      match vfs_inode_ramfs_storage ino with
      | None => Some (- LINUX_EINVAL, [])
      | Some ram =>
          r ← ramfs_read (w_fs w) (ramfs_of_ptr ram) offset len;
          Some (match r with inl _ => (- LINUX_EINVAL, []) | inr nb => nb end)
      end
    else
      let st := CpioStat (ino_mode ino) (ino_size ino) (is_dir ino) false (storage ino) 0 in
      r ← cpio_rofs_read (w_img w) (Some st) offset false len;
      Some (match r with
            | inl _ => (- LINUX_EINVAL, [])
            | inr (n, bytes) => if n <? 0 then (- LINUX_EINVAL, []) else (n, map byte_of bytes)
            end).

Definition vfs_page_cache_read_inode e w ino (offset len : Z) : option (world * Z * list Z) :=
  if is_dir ino then Some (w, - LINUX_EISDIR, [])
  else if ino_size ino <=? offset then Some (w, 0, [])
  else
    let len := if ino_size ino - offset <? len then ino_size ino - offset else len in
    r ← vfs_pcache_ensure e w ino;
    let '(w1, ref) := r in
    let direct w len := '(n, bytes) ← vfs_pcache_read_direct w ino offset len; Some (w, n, bytes) in
    match ref with
    | None => direct w1 len
    | Some i =>
        match vfs_pcache_at w1 i with
        | None => None
        | Some ent =>
            match pe_slice ent with
            | None => direct w1 len
            | Some s =>
                let w2 := vfs_pcache_touch_file w1 i in
                let avail := u64 (pe_size ent - offset) in
                let len := if avail <? len then avail else len in
                let w3 := put_entry w2 i (vfs_pcache_touch_pages ent offset len) in
                match page_slice_copy_to_buffer s offset len with
                | (REND_SUCCESS, bytes) => Some (w3, i64 len, bytes)
                | _ => direct w3 len
                end
            end
        end
    end.

Definition vfs_pcache_fill_owned_slice e w ino : option (error_t + page_slice) :=
  if is_dir ino || (ino_size ino =? 0) then Some (inl E_IN_PARAM)
  else
    src ← vfs_inode_source_kva w ino;
    if src =? 0 then Some (inl E_IN_PARAM)
    else r ← vfs_pcache_fill_slice_from_kva e w ino src (ino_size ino); Some r.1.

(** The result and [*out_slice]. *)
Definition vfs_page_cache_clone_inode e w ino : option (world * Z * option page_slice) :=
  if is_dir ino then Some (w, - LINUX_EISDIR, None)
  else if ino_size ino =? 0 then Some (w, - LINUX_EINVAL, None)
  else
    let owned w :=
      r ← vfs_pcache_fill_owned_slice e w ino;
      Some (match r with inr s => (w, 0, Some s) | inl _ => (w, - LINUX_ENOMEM, None) end) in
    if VFS_PCACHE_MAX_CACHED <? ino_size ino then owned w
    else
      r ← vfs_pcache_ensure e w ino;
      match r with
      | (w1, None) => owned w1
      | (w1, Some i) =>
          match vfs_pcache_at w1 i with
          | None => None
          | Some ent =>
              match pe_slice ent with
              | None => owned w1
              | Some s =>
                  let w2 := vfs_pcache_touch_file w1 i in
                  Some (match page_slice_clone s with
                        | (REND_SUCCESS, out) => (w2, 0, out)
                        | (_, out) => (w2, - LINUX_ENOMEM, out)
                        end)
              end
          end
      end.

(** ** Writing *)

(** The loop of [vfs_pcache_write_entry]: the pages, the lists and [done]. *)
Fixpoint write_pages (fuel : nat) ent (s : page_slice) (offset : Z) (buf : list Z) (len done : Z)
  : vfs_pcache_entry * page_slice * Z :=
  match fuel with
  | O => (ent, s, done)
  | S fuel' =>
      if done <? len then
        let off := u64 (offset + done) in
        let in_page := PAGE_SLICE_IN_PAGE_OFF off in
        let pgoff := PAGE_SLICE_BYTE_TO_PGOFF off in
        match page_slice_lookup s pgoff with
        | None => (ent, s, done)
        | Some p =>
            let chunk := Z.min (PAGE_SIZE - in_page) (len - done) in
            let part := take (Z.to_nat chunk) (drop (Z.to_nat done) buf) in
            let p' := CPage (splice (Z.to_nat in_page) part (pg_bytes p))
                        (Z.lor (pg_flags p) VFS_PCACHE_PAGE_DIRTY) in
            write_pages fuel' (vfs_pcache_touch_page ent pgoff) (page_slice_store s pgoff p')
              offset buf len (done + chunk)
        end
      else (ent, s, done)
  end.

Definition vfs_pcache_write_entry w (i : Z) (offset : Z) (buf : list Z) : world * Z :=
  let len := Z.of_nat (length buf) in
  match vfs_pcache_at w i with
  | None => (w, - LINUX_EINVAL)
  | Some ent =>
      match pe_slice ent with
      | None => (w, - LINUX_EINVAL)
      | Some s =>
          if len =? 0 then (w, - LINUX_EINVAL)
          else
            let w1 := vfs_pcache_touch_file w i in
            if pe_size ent <=? offset then (w1, 0)
            else
              let len := if pe_size ent <? u64 (offset + len) then pe_size ent - offset else len in
              let '(ent1, s1, done) := write_pages (page_fuel len) ent s offset buf len 0 in
              (put_entry w1 i (with_dirty (with_slice ent1 (Some s1)) true), i64 done)
      end
  end.

Definition vfs_page_cache_write_inode e w ino (offset : Z) (buf : list Z) : option (world * Z) :=
  if is_dir ino then Some (w, - LINUX_EISDIR)
  else if Z.of_nat (length buf) =? 0 then Some (w, 0)
  else
    r ← vfs_pcache_ensure e w ino;
    Some (match r with
          | (w1, None) => (w1, - LINUX_ENOMEM)
          | (w1, Some i) =>
              match vfs_pcache_at w1 i ≫= pe_slice with
              | None => (w1, - LINUX_ENOMEM)
              | Some _ => vfs_pcache_write_entry w1 i offset buf
              end
          end).

Definition vfs_page_cache_sync_write e w ino (offset : Z) (buf : list Z) : world :=
  if Z.of_nat (length buf) =? 0 then w
  else
    match vfs_pcache_find e w (path_norm (ino_path ino)) with
    | (w1, Some i) =>
        match vfs_pcache_at w1 i ≫= pe_slice with
        | None => w1
        | Some _ => (vfs_pcache_write_entry w1 i offset buf).1
        end
    | (w1, None) => w1
    end.

Definition vfs_page_cache_flush_backing e w ino : option (world * Z) :=
  match vfs_pcache_find e w (path_norm (ino_path ino)) with
  | (w1, None) => Some (w1, 0)
  | (w1, Some i) =>
      if has (backend_caps ino) VFS_BACKEND_CAP_FLUSH_DROP
      then w2 ← vfs_pcache_free_entry w1 i; Some (w2, 0)
      else r ← vfs_pcache_flush_entry w1 i; Some (r.1, 0)
  end.

Definition vfs_page_cache_drop_backing e w ino : option world :=
  vfs_page_cache_drop e w (Some (ino_path ino)).
End page_cache.
