(* ===== verification/BackendSvc.v ===== *)
(** * The backend services ([servers/fs/vfs_backend_ramfs.c],
    [vfs_backend_cpio.c], [vfs_backend_blkdev.c])

    A service answers one backend request.  [ino] is the inode the request
    points to, in the memory of the VFS server; the answer holds the inode
    after a lookup, a write or a truncation. *)

From Stdlib Require Import Ascii.
From stdpp Require Import base numbers strings gmap option list.
From S2P Require Import Prelude PageSlice SliceTable VfsPath VfsInode VfsHandle KHeap DirNames RamFs Cpio Mount Namespace PortNames VfsOpen VfsCoop PageCache.

Definition VFS_BACKEND_PORT_CPIO : cstr := str "vfs_cpio_backend_port".
Definition VFS_BACKEND_PORT_RAMFS : cstr := str "vfs_ramfs_backend_port".
Definition VFS_BLKDEV_PSEUDO_SIZE : Z := 64 * 1024.

(** Answers without data. *)
Definition reply_result (n : Z) : vfs_backend_reply := BackendReply n zero_inode zero_dirent [] [].
Definition reply_bytes (n : Z) (bytes : list Z) : vfs_backend_reply :=
  BackendReply n zero_inode zero_dirent bytes [].
Definition reply_ino (n : Z) (i : vfs_inode) : vfs_backend_reply :=
  BackendReply n i zero_dirent [] [].
Definition reply_dent (r : Z * option vfs_dirent) : vfs_backend_reply :=
  BackendReply r.1 zero_inode (default zero_dirent r.2) [] [].

(** ** The RAM file system *)

Section ramfs_service.
Context {T TN TE TB : Type} `{SCS : StrcmpS} `{PS : PageSlice cpage} `{SC : !SliceCopy}
        `{RT : RecordTable ramfs_entry T} `{RTN : RecordTable cstr TN}
        `{RTE : RecordTable vfs_pcache_entry TE} `{RTB : RecordTable vfs_backend_entry TB}
        `{A : Allocator}.
Abbreviation world := (cache_world T TE).
Implicit Types (w : world) (e : cache_env) (bs : backend_state TB) (req : vfs_backend_req)
         (ino : ptr vfs_inode).

Definition vfs_backend_ramfs_lookup e bs w req : world * vfs_backend_reply :=
  match rq_path req with
  | None => (w, reply_result (- LINUX_EINVAL))
  | Some path =>
      match ramfs_lookup (w_fs w) (Some path) with
      | None => (w, reply_result (- LINUX_ENOENT))
      | Some i =>
          let ent := default zero_rec (ramfs_entry_at (w_fs w) i) in
          let caps := (vfs_backend_caps_for_port (ce_tab e) bs (Some VFS_BACKEND_PORT_RAMFS)).2 in
          (w, reply_ino 0
                (VfsInode (strncpy_term path (VFS_PATH_MAX - 1)) (Some VFS_BACKEND_PORT_RAMFS) caps
                   (ramfs_ptr i) (r_mode ent) (r_size ent) 1 (has (r_flags ent) RAMFS_FLAG_DIR) false
                   true))
      end
  end.

Definition vfs_backend_ramfs_read e w req ino : option (world * vfs_backend_reply) :=
  match ino with
  | None => Some (w, reply_result (- LINUX_EINVAL))
  | Some i =>
      if storage i =? 0 then Some (w, reply_result (- LINUX_EINVAL))
      else if is_dir i then Some (w, reply_result (- LINUX_EISDIR))
      else
        r ← vfs_page_cache_read_inode e w i (rq_offset req) (rq_len req);
        let '(w1, n, bytes) := r in Some (w1, reply_bytes n bytes)
  end.

Definition vfs_backend_ramfs_write e w req ino : option (world * vfs_backend_reply) :=
  match ino with
  | None => Some (w, reply_result (- LINUX_EINVAL))
  | Some i =>
      if storage i =? 0 then Some (w, reply_result (- LINUX_EINVAL))
      else if is_dir i then Some (w, reply_result (- LINUX_EISDIR))
      else
        let ent := ramfs_of_ptr (storage i) in
        let buf := take (Z.to_nat (rq_len req)) (rq_wbuf req) in
        r ← ramfs_write (w_fs w) ent (rq_offset req) buf;
        match r with
        | (fs1, inl E_IN_PARAM) => Some (set_fs w fs1, reply_result (- LINUX_EINVAL))
        | (fs1, inl _) => Some (set_fs w fs1, reply_result (- LINUX_ENOMEM))
        | (fs1, inr n) =>
            let w1 := set_fs w fs1 in
            let i1 := with_ino_size i (from_option r_size 0 (ramfs_entry_at fs1 ent)) in
            w2 ← (if ino_size i <? ino_size i1 then vfs_page_cache_drop e w1 (Some (ino_path i1))
                  else if 0 <? n
                  then Some (vfs_page_cache_sync_write e w1 i1 (rq_offset req) (take (Z.to_nat n) buf))
                  else Some w1);
            Some (w2, reply_ino n i1)
        end
  end.

Definition vfs_backend_ramfs_truncate e w req ino : option (world * vfs_backend_reply) :=
  match ino with
  | None => Some (w, reply_result (- LINUX_EINVAL))
  | Some i =>
      if storage i =? 0 then Some (w, reply_result (- LINUX_EINVAL))
      else if is_dir i then Some (w, reply_result (- LINUX_EISDIR))
      else
        let ent := ramfs_of_ptr (storage i) in
        r ← ramfs_truncate (w_fs w) ent (rq_size_arg req);
        match r with
        | (fs1, REND_SUCCESS) =>
            w1 ← vfs_page_cache_drop e (set_fs w fs1) (Some (ino_path i));
            Some (w1, reply_ino 0 (with_ino_size i (from_option r_size 0 (ramfs_entry_at (w_fs w1) ent))))
        | (fs1, _) => Some (set_fs w fs1, reply_result (- LINUX_ENOMEM))
        end
  end.

Definition vfs_backend_ramfs_flush e w ino : option (world * vfs_backend_reply) :=
  match ino with
  | None => Some (w, reply_result (- LINUX_EINVAL))
  | Some i => r ← vfs_page_cache_flush_backing e w i; Some (r.1, reply_result r.2)
  end.

Definition vfs_backend_ramfs_err_from_rend (err : error_t) : Z :=
  match err with
  | REND_SUCCESS => 0
  | E_RENDEZVOS => - LINUX_EEXIST
  | E_IN_PARAM => - LINUX_ENOTDIR
  | _ => - LINUX_ENOMEM
  end.

(** The result of an operation that only changes the entries. *)
Definition fs_answer w (r : ramfs T * error_t) : world * vfs_backend_reply :=
  (set_fs w r.1, reply_result (vfs_backend_ramfs_err_from_rend r.2)).

Definition vfs_backend_ramfs_mkdir e w req : world * vfs_backend_reply :=
  match rq_path req with
  | None => (w, reply_result (- LINUX_EINVAL))
  | Some p => fs_answer w (ramfs_mkdir (ce_tab e) (w_fs w) (Some p) (rq_mode_arg req))
  end.

Definition vfs_backend_ramfs_create e w req : world * vfs_backend_reply :=
  match rq_path req with
  | None => (w, reply_result (- LINUX_EINVAL))
  | Some p => fs_answer w (ramfs_create_file (ce_tab e) (w_fs w) (Some p) (rq_mode_arg req))
  end.

Definition vfs_backend_ramfs_unlink w req : option (world * vfs_backend_reply) :=
  match rq_path req with
  | None => Some (w, reply_result (- LINUX_EINVAL))
  | Some p =>
      r ← ramfs_unlink (w_fs w) (Some p);
      Some (set_fs w r.1, reply_result (match r.2 with
                                        | REND_SUCCESS => 0
                                        | E_IN_PARAM => - LINUX_EINVAL
                                        | _ => - LINUX_EIO
                                        end))
  end.

Definition vfs_backend_ramfs_rename w req : world * vfs_backend_reply :=
  match rq_path req, rq_path2 req with
  | Some p, Some q => fs_answer w (ramfs_rename (w_fs w) (Some p) (Some q))
  | _, _ => (w, reply_result (- LINUX_EINVAL))
  end.

Definition vfs_backend_ramfs_link e w req : world * vfs_backend_reply :=
  match rq_path req, rq_path2 req with
  | Some p, Some q => fs_answer w (ramfs_link (ce_tab e) (w_fs w) (Some p) (Some q))
  | _, _ => (w, reply_result (- LINUX_EINVAL))
  end.

Definition vfs_backend_ramfs_service e bs w req ino : option (world * vfs_backend_reply) :=
  match rq_op req with
  | VFS_BACKEND_OP_LOOKUP => Some (vfs_backend_ramfs_lookup e bs w req)
  | VFS_BACKEND_OP_READ => vfs_backend_ramfs_read e w req ino
  | VFS_BACKEND_OP_WRITE => vfs_backend_ramfs_write e w req ino
  | VFS_BACKEND_OP_TRUNCATE => vfs_backend_ramfs_truncate e w req ino
  | VFS_BACKEND_OP_FLUSH => vfs_backend_ramfs_flush e w ino
  | VFS_BACKEND_OP_READDIR =>
      Some (w, match rq_path req with
               | None => reply_result (- LINUX_EINVAL)
               | Some p => reply_dent (ramfs_readdir (TN := TN) (ce_tab e) (w_fs w) (Some p) (rq_dir_index req))
               end)
  | VFS_BACKEND_OP_READLINK => Some (w, reply_result (- LINUX_EINVAL))
  | VFS_BACKEND_OP_MKDIR => Some (vfs_backend_ramfs_mkdir e w req)
  | VFS_BACKEND_OP_CREATE => Some (vfs_backend_ramfs_create e w req)
  | VFS_BACKEND_OP_UNLINK => vfs_backend_ramfs_unlink w req
  | VFS_BACKEND_OP_RENAME => Some (vfs_backend_ramfs_rename w req)
  | VFS_BACKEND_OP_LINK => Some (vfs_backend_ramfs_link e w req)
  end.
End ramfs_service.

(** ** The initramfs *)

Section cpio_service.
Context {T TC TN TE TB : Type} `{SCS : StrcmpS} `{PS : PageSlice cpage} `{SC : !SliceCopy}
        `{RT : RecordTable ramfs_entry T} `{RTC : RecordTable cpio_rofs_entry TC}
        `{RTN : RecordTable cstr TN}
        `{RTE : RecordTable vfs_pcache_entry TE} `{RTB : RecordTable vfs_backend_entry TB}.
Abbreviation world := (cache_world T TE).
Implicit Types (w : world) (e : cache_env) (bs : backend_state TB) (req : vfs_backend_req)
         (ino : ptr vfs_inode) (cp : @cpio_rofs TC).

Definition vfs_backend_cpio_lookup e bs cp req : vfs_backend_reply :=
  match rq_path req with
  | None => reply_result (- LINUX_EINVAL)
  | Some path =>
      match cpio_rofs_lookup cp (Some path) with
      | None => reply_result (- LINUX_ENOENT)
      | Some st =>
          let caps := (vfs_backend_caps_for_port (ce_tab e) bs (Some VFS_BACKEND_PORT_CPIO)).2 in
          reply_ino 0
            (VfsInode (strncpy_term path (VFS_PATH_MAX - 1)) (Some VFS_BACKEND_PORT_CPIO) caps
               (st_data st) (st_mode st) (st_size st) (if st_nlink st =? 0 then 1 else st_nlink st)
               (st_is_dir st) (st_is_symlink st) false)
      end
  end.

Definition vfs_backend_cpio_readdir e cp req : vfs_backend_reply :=
  match rq_path req with
  | None => reply_result (- LINUX_EINVAL)
  | Some p => reply_dent (cpio_rofs_readdir (TN := TN) (ce_tab e) cp (Some p) (rq_dir_index req))
  end.

Definition vfs_backend_cpio_readlink cp (im : cpio_img) req : option vfs_backend_reply :=
  if rq_readlink_cap req =? 0 then Some (reply_result (- LINUX_EINVAL))
  else
    match rq_path req ≫= (λ p, cpio_rofs_lookup cp (Some p)) with
    | None => Some (reply_result (- LINUX_EINVAL))
    | Some st =>
        if negb (st_is_symlink st) || (st_data st =? 0) then Some (reply_result (- LINUX_EINVAL))
        else
          let len := if rq_readlink_cap req <=? st_size st then rq_readlink_cap req - 1 else st_size st in
          bytes ← img_read im (st_data st) len;
          Some (BackendReply len zero_inode zero_dirent [] (c_string bytes))
    end.

Definition vfs_backend_cpio_read w req ino : option vfs_backend_reply :=
  match ino with
  | None => Some (reply_result (- LINUX_EINVAL))
  | Some i =>
      if is_dir i then Some (reply_result (- LINUX_EISDIR))
      else if ino_size i <=? rq_offset req then Some (reply_result 0)
      else
        let st := CpioStat (ino_mode i) (ino_size i) (is_dir i) (is_symlink i) (storage i) (nlink i) in
        r ← cpio_rofs_read (w_img w) (Some st) (rq_offset req) false (rq_len req);
        Some (match r with
              | inl _ => reply_result (- LINUX_EINVAL)
              | inr (n, bytes) =>
                  if n <? 0 then reply_result (- LINUX_EINVAL) else reply_bytes n (map byte_of bytes)
              end)
  end.

Definition vfs_backend_cpio_write e w req ino : option (world * vfs_backend_reply) :=
  match ino with
  | None => Some (w, reply_result (- LINUX_EINVAL))
  | Some i =>
      if is_dir i then Some (w, reply_result (- LINUX_EISDIR))
      else
        r ← vfs_page_cache_write_inode e w i (rq_offset req) (take (Z.to_nat (rq_len req)) (rq_wbuf req));
        Some (r.1, reply_ino r.2 i)
  end.

Definition vfs_backend_cpio_flush e w ino : option (world * vfs_backend_reply) :=
  match ino with
  | None => Some (w, reply_result (- LINUX_EINVAL))
  | Some i => w1 ← vfs_page_cache_drop_backing e w i; Some (w1, reply_result 0)
  end.

Definition vfs_backend_cpio_service e bs cp w req ino : option (world * vfs_backend_reply) :=
  match rq_op req with
  | VFS_BACKEND_OP_LOOKUP => Some (w, vfs_backend_cpio_lookup e bs cp req)
  | VFS_BACKEND_OP_READ => r ← vfs_backend_cpio_read w req ino; Some (w, r)
  | VFS_BACKEND_OP_WRITE => vfs_backend_cpio_write e w req ino
  | VFS_BACKEND_OP_TRUNCATE => Some (w, reply_result (- LINUX_EROFS))
  | VFS_BACKEND_OP_FLUSH => vfs_backend_cpio_flush e w ino
  | VFS_BACKEND_OP_READDIR => Some (w, vfs_backend_cpio_readdir e cp req)
  | VFS_BACKEND_OP_READLINK => r ← vfs_backend_cpio_readlink cp (w_img w) req; Some (w, r)
  | VFS_BACKEND_OP_MKDIR | VFS_BACKEND_OP_CREATE | VFS_BACKEND_OP_UNLINK
  | VFS_BACKEND_OP_RENAME | VFS_BACKEND_OP_LINK => Some (w, reply_result (- LINUX_EROFS))
  end.
End cpio_service.

(** ** The block device: 64 KiB of zeroed pages *)

Section blkdev_service.
Context `{PS : PageSlice cpage}.
Implicit Types (e : cache_env) (s : page_slice) (dev : option page_slice).

Fixpoint blkdev_pages (fuel : nat) e s (pgoff : Z) : error_t * page_slice :=
  match fuel with
  | O => (REND_SUCCESS, s)
  | S fuel' =>
      if negb (ce_page e pgoff) then (E_REND_NO_MEM, s)
      else
        match page_slice_insert_page s pgoff (CPage (replicate (Z.to_nat PAGE_SIZE) 0) 0) with
        | (REND_SUCCESS, s') => blkdev_pages fuel' e s' (pgoff + 1)
        | (err, s') => (err, s')
        end
  end.

Definition vfs_blkdev_ensure_slice e dev : error_t * option page_slice :=
  match dev with
  | Some s => (REND_SUCCESS, Some s)
  | None =>
      match page_slice_create 0 VFS_BLKDEV_PSEUDO_SIZE with
      | None => (E_REND_NO_MEM, None)
      | Some s =>
          match blkdev_pages (Z.to_nat (PAGE_SLICE_SIZE_TO_PAGE_COUNT VFS_BLKDEV_PSEUDO_SIZE)) e s 0 with
          | (REND_SUCCESS, s') => (REND_SUCCESS, Some s')
          | (err, _) => (err, None)
          end
      end
  end.

(** The copy loop: the slice, the bytes copied out, and whether all pages were
    there. *)
Fixpoint blkdev_loop (fuel : nat) s (offset len done : Z) (wbuf : option (list Z)) (out : list Z)
  : page_slice * list Z * option Z :=
  match fuel with
  | O => (s, out, Some done)
  | S fuel' =>
      if done <? len then
        let off := offset + done in
        let pgoff := PAGE_SLICE_BYTE_TO_PGOFF off in
        let in_page := PAGE_SLICE_IN_PAGE_OFF off in
        match page_slice_lookup s pgoff with
        | None => (s, out, None)
        | Some p =>
            let chunk := Z.min (PAGE_SIZE - in_page) (len - done) in
            match wbuf with
            | Some buf =>
                let part := take (Z.to_nat chunk) (drop (Z.to_nat done) buf) in
                let p' := CPage (splice (Z.to_nat in_page) part (pg_bytes p)) (pg_flags p) in
                blkdev_loop fuel' (page_slice_store s pgoff p') offset len (done + chunk) wbuf out
            | None =>
                let part := take (Z.to_nat chunk) (drop (Z.to_nat in_page) (pg_bytes p)) in
                blkdev_loop fuel' s offset len (done + chunk) wbuf (out ++ part)
            end
        end
      else (s, out, Some done)
  end.

(** [wbuf]: the bytes to write, [None] for a read.  The device, the result and
    the bytes read. *)
Definition vfs_blkdev_rw e dev (offset len : Z) (wbuf : option (list Z))
  : option page_slice * Z * list Z :=
  match vfs_blkdev_ensure_slice e dev with
  | (REND_SUCCESS, Some s) =>
      if VFS_BLKDEV_PSEUDO_SIZE <=? offset then (Some s, 0, [])
      else
        let len := if VFS_BLKDEV_PSEUDO_SIZE - offset <? len then VFS_BLKDEV_PSEUDO_SIZE - offset else len in
        match blkdev_loop (page_fuel len) s offset len 0 wbuf [] with
        | (s', out, Some n) => (Some s', n, out)
        | (s', out, None) => (Some s', - LINUX_EIO, out)
        end
  | (_, dev') => (dev', - LINUX_ENOMEM, [])
  end.

Definition vfs_backend_blkdev_service e dev (req : vfs_backend_req) : option page_slice * vfs_backend_reply :=
  match rq_op req with
  | VFS_BACKEND_OP_LOOKUP | VFS_BACKEND_OP_TRUNCATE => (dev, reply_result (- LINUX_ENOSYS))
  | VFS_BACKEND_OP_READ =>
      let '(dev', n, out) := vfs_blkdev_rw e dev (rq_offset req) (rq_len req) None in
      (dev', reply_bytes n out)
  | VFS_BACKEND_OP_WRITE =>
      let '(dev', n, _) := vfs_blkdev_rw e dev (rq_offset req) (rq_len req) (Some (rq_wbuf req)) in
      (dev', reply_result n)
  | VFS_BACKEND_OP_FLUSH => (dev, reply_result 0)
  | _ => (dev, reply_result (- LINUX_EINVAL))
  end.
End blkdev_service.
