(* ===== verification/PageCacheThm.v ===== *)
(** * The page cache is transparent for ramfs files

    A cached ramfs file is coherent when its pages hold the bytes of the file.
    Reads, overwrites and evictions keep every cached file coherent, so they
    give the results the file system gives without the cache. *)

From Stdlib Require Import Ascii.
From stdpp Require Import base numbers strings gmap option list.
From S2P Require Import Prelude PageSlice SliceTable VfsPath VfsInode VfsHandle DirNames Cpio Mount Namespace PortNames VfsOpen VfsCoop KHeap RamFs RamFsSpec PageCache BackendSvc.

(** ** Slices as byte strings *)

Section slices.
Context `{PSL : PageSliceLaws cpage}.
Implicit Types (s : page_slice) (d : list Z).

(** Every mapped page is a whole page. *)
Definition pages_ok s : Prop :=
  ∀ p c, page_slice_lookup s p = Some c → length (pg_bytes c) = 4096%nat.

(** The first [n] bytes of [s] are those of [d]. *)
Definition slice_prefix s d (n : nat) : Prop :=
  ∀ k : nat, (k < n)%nat → slice_byte s (Z.of_nat k) = d !! k.

Record slice_holds s d : Prop := {
  sh_size : page_slice_get_size s = Z.of_nat (length d);
  sh_pages : pages_ok s;
  sh_bytes : slice_prefix s d (length d);
}.

Lemma slice_holds_page s d k : slice_holds s d → (k < length d)%nat →
  ∃ c, page_slice_lookup s (Z.of_nat k `div` 4096) = Some c ∧ length (pg_bytes c) = 4096%nat
    ∧ pg_bytes c !! Z.to_nat (Z.of_nat k `mod` 4096) = d !! k.
Proof.
  intros [_ Hp Hb] Hk. specialize (Hb k Hk). unfold slice_byte in Hb.
  destruct (lookup_lt_is_Some_2 d k Hk) as [x Hx]. rewrite Hx in *.
  destruct (page_slice_lookup s _) as [c|] eqn:Ec; [|done]. exists c.
  split_and!; [done|by eapply Hp|exact Hb].
Qed.

(** A store into one page. *)
Lemma slice_store s d (o : nat) part c fl : slice_holds s d →
  let p := Z.of_nat o `div` 4096 in let q := Z.of_nat o `mod` 4096 in
  page_slice_lookup s p = Some c →
  (o + length part ≤ length d)%nat → q + Z.of_nat (length part) ≤ 4096 →
  slice_holds (page_slice_store s p (CPage (splice (Z.to_nat q) part (pg_bytes c)) fl))
    (splice o part d).
Proof.
  intros [Hsz Hp Hb] p q Hc Hl Hq. pose proof (Hp _ _ Hc) as Hlen.
  destruct (store_ok s p c (CPage (splice (Z.to_nat q) part (pg_bytes c)) fl) Hc) as (Hs' & Hp' & Ho').
  pose proof (Z.mod_pos_bound (Z.of_nat o) 4096 ltac:(lia)) as Hqb.
  pose proof (Z.div_mod (Z.of_nat o) 4096 ltac:(lia)) as Hdm. fold p q in Hdm, Hqb.
  split.
  - rewrite Hs', splice_length by lia. done.
  - intros p1 c1 H1. destruct (decide (p1 = p)) as [->|Hne].
    + rewrite Hp' in H1. injection H1 as <-. cbn. rewrite splice_length; lia.
    + rewrite Ho' in H1 by done. by eapply Hp.
  - intros k Hk. rewrite splice_length in Hk by lia. rewrite splice_lookup by lia.
    unfold slice_byte. change (PAGE_SLICE_BYTE_TO_PGOFF ?x) with (x `div` 4096).
    change (PAGE_SLICE_IN_PAGE_OFF ?x) with (x `mod` 4096).
    pose proof (Z.mod_pos_bound (Z.of_nat k) 4096 ltac:(lia)) as Hkb.
    pose proof (Z.div_mod (Z.of_nat k) 4096 ltac:(lia)) as Hkm.
    specialize (Hb k Hk). unfold slice_byte in Hb.
    change (PAGE_SLICE_BYTE_TO_PGOFF ?x) with (x `div` 4096) in Hb.
    change (PAGE_SLICE_IN_PAGE_OFF ?x) with (x `mod` 4096) in Hb.
    destruct (decide (Z.of_nat k `div` 4096 = p)) as [E|E].
    + rewrite E, Hp'. rewrite E, Hc in Hb. cbn [pg_bytes]. rewrite splice_lookup by lia.
      do 2 case_decide; [f_equal; lia|lia|lia|done].
    + rewrite Ho' by done. rewrite Hb. case_decide; [|done]. exfalso. apply E.
      symmetry. apply (Z.div_unique_pos _ _ _ (Z.of_nat k - 4096 * p)); lia.
Qed.

Lemma splice_extend o (n m : nat) (buf d : list Z) :
  (n + m ≤ length buf)%nat → (o + (n + m) ≤ length d)%nat →
  splice (o + n) (take m (drop n buf)) (splice o (take n buf) d) = splice o (take (n + m) buf) d.
Proof.
  intros Hb Hd. assert (length (splice o (take n buf) d) = length d) as Hl.
  { apply splice_length. rewrite length_take. lia. }
  apply list_eq. intros i.
  rewrite !splice_lookup by (rewrite ?Hl, ?length_take, ?length_drop; lia).
  rewrite !length_take, length_drop. repeat case_decide; try lia; try done.
  - rewrite !lookup_take_lt, lookup_drop by lia. f_equal. lia.
  - rewrite !lookup_take_lt by lia. done.
Qed.

(** One step of a loop over the pages of [len] bytes at [o]: enough steps are
    left. *)
Definition steps_left (fuel : nat) (o len done : Z) : Prop :=
  done = len ∨ (o + done) `mod` 4096 + (len - done) ≤ 4096 * Z.of_nat fuel.

Lemma steps_next fuel o len done : steps_left (S fuel) o len done → 0 ≤ o → 0 ≤ done < len →
  let chunk := Z.min (4096 - (o + done) `mod` 4096) (len - done) in
  0 < chunk ∧ done + chunk ≤ len ∧ steps_left fuel o len (done + chunk).
Proof.
  intros [->|Hs] Ho Hd; [lia|]. unfold steps_left. pose proof (Z.mod_pos_bound (o + done) 4096 ltac:(lia)).
  cbv zeta. split_and!; [lia|lia|].
  destruct (Z.min_spec (4096 - (o + done) `mod` 4096) (len - done)) as [[? ->]|[? ->]]; [right|left; lia].
  replace (o + (done + (4096 - (o + done) `mod` 4096))) with (((o + done) `div` 4096 + 1) * 4096).
  { rewrite Z.mod_mul by lia. lia. }
  pose proof (Z.div_mod (o + done) 4096 ltac:(lia)). lia.
Qed.

Lemma steps_enough o len : 0 ≤ len → steps_left (page_fuel len) o len 0.
Proof.
  intros. right. unfold page_fuel, PAGE_SIZE. pose proof (Z.mod_pos_bound (o + 0) 4096 ltac:(lia)).
  pose proof (Z.div_mod len 4096 ltac:(lia)). pose proof (Z.mod_pos_bound len 4096 ltac:(lia)).
  pose proof (Z.div_pos len 4096 ltac:(lia) ltac:(lia)). lia.
Qed.

(** Only the lists of pages of the entry change. *)
Definition same_but_pages (ent ent' : vfs_pcache_entry) : Prop :=
  ∃ act inact, ent' = with_pages ent act inact.

Lemma touch_pages_same fuel : ∀ ent s off len done,
  same_but_pages ent (touch_pages fuel ent s off len done).
Proof.
  induction fuel as [|fuel IH]; intros ent s off len done; cbn [touch_pages].
  { by exists (pages_active ent), (pages_inactive ent); destruct ent. }
  destruct (done <? len); [|by exists (pages_active ent), (pages_inactive ent); destruct ent].
  destruct (page_slice_lookup _ _); [|by exists (pages_active ent), (pages_inactive ent); destruct ent].
  edestruct IH as (act & inact & ->). by exists act, inact.
Qed.

(** The nodes in the lists of pages are nodes of the slice [so]. *)
Definition nodes_in (so : option page_slice) (ent : vfs_pcache_entry) : Prop :=
  Forall (λ p, is_Some (so ≫= λ s, page_slice_lookup s p)) (pages_active ent ++ pages_inactive ent).
Definition pages_linked (ent : vfs_pcache_entry) : Prop := nodes_in (pe_slice ent) ent.

Lemma clear_linked ent : pages_linked ent → vfs_pcache_clear_page_lru ent = Some (with_pages ent [] []).
Proof.
  intros Hl. unfold vfs_pcache_clear_page_lru.
  assert (forallb (node_live ent) (pages_active ent ++ pages_inactive ent) = true) as ->; [|done].
  apply forallb_forall. intros p Hp%list_elem_of_In. apply bool_decide_eq_true.
  by apply (proj1 (list.Forall_forall _ _) Hl).
Qed.

Lemma nodes_in_mono s s' ent : (∀ p, is_Some (page_slice_lookup s p) → is_Some (page_slice_lookup s' p)) →
  nodes_in (Some s) ent → nodes_in (Some s') ent.
Proof. intros Hs Hn. eapply list.Forall_impl; [exact Hn|]. intros p. apply Hs. Qed.

Lemma touch_page_nodes s ent p : is_Some (page_slice_lookup s p) → nodes_in (Some s) ent →
  nodes_in (Some s) (vfs_pcache_touch_page ent p).
Proof.
  intros Hp Hn. unfold nodes_in in *. rewrite list.Forall_forall in *. intros q Hq. cbn in Hq.
  rewrite !elem_of_app, list_elem_of_singleton in Hq.
  destruct Hq as [[[_ Hq]%list_elem_of_filter| ->]|[_ Hq]%list_elem_of_filter]; [|done|];
    apply Hn, elem_of_app; auto.
Qed.

Lemma touch_pages_nodes fuel s : ∀ ent off len n,
  nodes_in (Some s) ent → nodes_in (Some s) (touch_pages fuel ent s off len n).
Proof.
  induction fuel as [|fuel IH]; intros ent off len n Hn; cbn [touch_pages]; [done|].
  destruct (n <? len); [|done]. destruct (page_slice_lookup _ _) eqn:Ep; [|done].
  by apply IH, touch_page_nodes.
Qed.

Lemma store_nodes s p c c' ent : page_slice_lookup s p = Some c → nodes_in (Some s) ent →
  nodes_in (Some (page_slice_store s p c')) ent.
Proof.
  intros Hp. apply nodes_in_mono. intros q Hq. destruct (store_ok s p c c' Hp) as (_ & Hn & Ho).
  destruct (decide (q = p)) as [->|Hne]; [by rewrite Hn|by rewrite Ho].
Qed.

(** The store of one chunk of a write. *)
Lemma chunk_store s (o : nat) buf d len done :
  slice_holds s (splice o (take (Z.to_nat done) buf) d) →
  0 ≤ done ≤ len → len ≤ Z.of_nat (length buf) → Z.of_nat o + len ≤ Z.of_nat (length d) → done < len →
  let p := (Z.of_nat o + done) `div` 4096 in let q := (Z.of_nat o + done) `mod` 4096 in
  let chunk := Z.min (4096 - q) (len - done) in
  ∃ c, page_slice_lookup s p = Some c ∧ ∀ fl,
    slice_holds (page_slice_store s p (CPage (splice (Z.to_nat q) (take (Z.to_nat chunk) (drop (Z.to_nat done) buf))
                                         (pg_bytes c)) fl))
      (splice o (take (Z.to_nat (done + chunk)) buf) d).
Proof.
  intros Hs Hd Hb Hl Hlt p q chunk. pose proof (Z.mod_pos_bound (Z.of_nat o + done) 4096 ltac:(lia)) as Hqb.
  fold q in Hqb. assert (0 < chunk ∧ done + chunk ≤ len ∧ q + chunk ≤ 4096) as (Hc & Hcl & Hq) by (unfold chunk; lia).
  assert (length (splice o (take (Z.to_nat done) buf) d) = length d) as Hln.
  { apply splice_length. rewrite length_take. lia. }
  destruct (slice_holds_page _ _ (o + Z.to_nat done) Hs) as (c & Hpg & Hpl & _); [lia|].
  replace (Z.of_nat (o + Z.to_nat done)) with (Z.of_nat o + done) in Hpg by lia.
  exists c. split; [done|]. intros fl.
  set (part := take (Z.to_nat chunk) (drop (Z.to_nat done) buf)).
  assert (length part = Z.to_nat chunk) as Hpt.
  { unfold part. rewrite length_take, length_drop. lia. }
  pose proof (slice_store s _ (o + Z.to_nat done) part c fl Hs) as Hstore. cbv zeta in Hstore.
  replace (Z.of_nat (o + Z.to_nat done)) with (Z.of_nat o + done) in Hstore by lia.
  specialize (Hstore Hpg ltac:(lia) ltac:(fold q; lia)).
  pose proof (splice_extend o (Z.to_nat done) (Z.to_nat chunk) buf d ltac:(lia) ltac:(lia)) as Hx.
  fold part in Hx. rewrite Hx in Hstore.
  replace (Z.to_nat done + Z.to_nat chunk)%nat with (Z.to_nat (done + chunk)) in Hstore by lia. exact Hstore.
Qed.

Lemma write_pages_spec fuel : ∀ ent s (o : nat) buf (d : list Z) len done,
  slice_holds s (splice o (take (Z.to_nat done) buf) d) →
  0 ≤ done ≤ len → len ≤ Z.of_nat (length buf) →
  Z.of_nat o + len ≤ Z.of_nat (length d) → Z.of_nat (length d) < 2 ^ 62 →
  steps_left fuel (Z.of_nat o) len done →
  ∃ ent' s', write_pages fuel ent s (Z.of_nat o) buf len done = (ent', s', len)
    ∧ slice_holds s' (splice o (take (Z.to_nat len) buf) d) ∧ same_but_pages ent ent'
    ∧ (nodes_in (Some s) ent → nodes_in (Some s') ent').
Proof.
  induction fuel as [|fuel IH]; intros ent s o buf d len done Hs Hd Hb Hl H62 Hst.
  { assert (done = len) as ->.
    { destruct Hst; [done|]. pose proof (Z.mod_pos_bound (Z.of_nat o + done) 4096). lia. }
    exists ent, s. split_and!; [done..| |done]. by exists (pages_active ent), (pages_inactive ent); destruct ent. }
  cbn [write_pages]. destruct (Z.ltb_spec done len) as [Hlt|Hge].
  2: { assert (done = len) as -> by lia. exists ent, s. split_and!; [done..| |done].
       by exists (pages_active ent), (pages_inactive ent); destruct ent. }
  rewrite (uw_small 64) by lia.
  destruct (steps_next fuel (Z.of_nat o) len done Hst) as (Hc & Hcl & Hst'); [lia|lia|].
  destruct (chunk_store s o buf d len done Hs Hd Hb Hl Hlt) as (c & Hpg & Hstore).
  change (PAGE_SLICE_BYTE_TO_PGOFF ?x) with (x `div` 4096).
  change (PAGE_SLICE_IN_PAGE_OFF ?x) with (x `mod` 4096). change PAGE_SIZE with 4096. rewrite Hpg.
  set (chunk := Z.min (4096 - (Z.of_nat o + done) `mod` 4096) (len - done)) in *.
  destruct (IH (vfs_pcache_touch_page ent ((Z.of_nat o + done) `div` 4096)) _ o buf d len (done + chunk)
    (Hstore (Z.lor (pg_flags c) VFS_PCACHE_PAGE_DIRTY)) ltac:(lia) Hb Hl H62 Hst') as (ent' & s' & -> & Hs' & (act & inact & ->) & Hn).
  eexists _, s'. split_and!; [done|done|by exists act, inact|].
  intros Hn0. apply Hn, touch_page_nodes; [|by eapply store_nodes].
  by destruct (store_ok _ _ _ (CPage (splice (Z.to_nat ((Z.of_nat o + done) `mod` 4096))
    (take (Z.to_nat chunk) (drop (Z.to_nat done) buf)) (pg_bytes c))
    (Z.lor (pg_flags c) VFS_PCACHE_PAGE_DIRTY)) Hpg) as (_ & -> & _).
Qed.
End slices.

(** ** The invariant *)

Section cache.
Context {T TE : Type} `{SCL : StrcmpSLaws} `{PSL : PageSliceLaws cpage}
        `{SLC : !SliceCopy} {SLL : SliceCopyLaws}
        `{RT : RecordTable ramfs_entry T} {RTL : RecordTableLaws ramfs_entry T}
        `{RTE : RecordTable vfs_pcache_entry TE} {RTEL : RecordTableLaws vfs_pcache_entry TE}
        `{AL : AllocatorLaws}.
Abbreviation world := (cache_world T TE).
Implicit Types (w : world) (e : cache_env) (ent : vfs_pcache_entry) (ino : vfs_inode).

Definition pc_view w : list vfs_pcache_entry := rt_view (pc_tab (w_pc w)).

(** The same entries and the same memory. *)
Definition fs_eq (fs fs' : ramfs T) : Prop :=
  rt_ok (rtab fs') ∧ entries fs' = entries fs ∧ rmem fs' = rmem fs.

(** The ramfs file of a cached entry. *)
Record cached_file (fs : ramfs T) ent (i : nat) (r : ramfs_entry) (s : page_slice) : Prop := {
  cf_storage : pe_storage ent = ramfs_ptr (Z.of_nat i);
  cf_entry : entries fs !! i = Some r;
  cf_file : is_file r = true;
  cf_path : r_path r = pe_path ent;
  cf_slice : pe_slice ent = Some s;
  cf_size : pe_size ent = r_size r ∧ 0 < r_size r;
  cf_holds : slice_holds s (file_bytes fs r);
}.

(** An entry of another backend is not about a ramfs file. *)
Definition foreign (fs : ramfs T) ent : Prop :=
  ∀ i r, entries fs !! i = Some r → r_alive r = true →
    take VFS_PATH_MAX (r_path r) ≠ take VFS_PATH_MAX (pe_path ent).

Definition coherent (fs : ramfs T) ent : Prop :=
  pe_valid ent = true →
  if has (pe_caps ent) VFS_BACKEND_CAP_WRITE_SOURCE
  then ∃ i r s, cached_file fs ent i r s else foreign fs ent.

(** No valid entry other than [k] is about [path]. *)
Definition others_differ w (k : nat) (path : cstr) : Prop :=
  ∀ j ent, j ≠ k → pc_view w !! j = Some ent → pe_valid ent = true →
    take VFS_PATH_MAX (pe_path ent) ≠ take VFS_PATH_MAX path.

(** Every entry but [x] is coherent and links nodes of its own pages only, no
    path has two entries, and the lists only hold entries. *)
Record cache_inv (x : option nat) w : Prop := {
  ci_fs : fs_wf (w_fs w);
  ci_ok : rt_ok (pc_tab (w_pc w));
  ci_coh k ent : Some k ≠ x → pc_view w !! k = Some ent → coherent (w_fs w) ent;
  ci_pages k ent : Some k ≠ x → pc_view w !! k = Some ent → pages_linked ent;
  ci_uniq k ent : pc_view w !! k = Some ent → pe_valid ent = true → others_differ w k (pe_path ent);
  ci_lists i : i ∈ vfs_pcache_active (w_pc w) ++ vfs_pcache_inactive (w_pc w) →
    ∃ k, i = Z.of_nat k ∧ (k < length (pc_view w))%nat;
  ci_ready : pc_ready (w_pc w) = false → pc_view w = [];
}.

(** What the cache does to the file system when nothing is written. *)
Definition quiet w w' : Prop := fs_eq (w_fs w) (w_fs w') ∧ w_img w' = w_img w.

Lemma fs_eq_refl fs : fs_wf fs → fs_eq fs fs.
Proof. intros. split; [by apply fw_ok|done]. Qed.
Lemma fs_eq_trans fs1 fs2 fs3 : fs_eq fs1 fs2 → fs_eq fs2 fs3 → fs_eq fs1 fs3.
Proof. intros (_ & ? & ?) (? & ? & ?). split_and!; congruence. Qed.
Lemma fs_eq_wf fs fs' : fs_eq fs fs' → fs_wf fs → fs_wf fs'.
Proof.
  intros (Hok & Hv & Hm) Hwf. destruct fs' as [t' m']. cbn in *. subst m'.
  by apply (fs_wf_view fs t').
Qed.
Lemma fs_eq_bytes fs fs' r : fs_eq fs fs' → file_bytes fs' r = file_bytes fs r.
Proof. intros (_ & _ & Hm). unfold file_bytes. by rewrite Hm. Qed.
Lemma quiet_trans w1 w2 w3 : quiet w1 w2 → quiet w2 w3 → quiet w1 w3.
Proof. intros [? ?] [? ?]. split; [by eapply fs_eq_trans|congruence]. Qed.

Lemma cached_file_eq fs fs' ent i r s : fs_eq fs fs' → cached_file fs ent i r s → cached_file fs' ent i r s.
Proof.
  intros Hq [? ? ? ? ? ? ?]. split; try done; [|by rewrite (fs_eq_bytes fs)].
  destruct Hq as (_ & -> & _). done.
Qed.

Lemma coherent_eq fs fs' ent : fs_eq fs fs' → coherent fs ent → coherent fs' ent.
Proof.
  intros Hq Hc Hv. specialize (Hc Hv). destruct (has _ _).
  - destruct Hc as (i & r & s & Hc). exists i, r, s. by eapply cached_file_eq.
  - intros i r Hi. destruct Hq as (_ & Hv' & _). rewrite Hv' in Hi. by eapply Hc.
Qed.

Lemma view_at w k ent : rt_ok (pc_tab (w_pc w)) → pc_view w !! k = Some ent →
  vfs_pcache_at w (Z.of_nat k) = Some ent.
Proof. intros. by apply rt_get_view. Qed.

Lemma put_view w k ent : rt_ok (pc_tab (w_pc w)) → (k < length (pc_view w))%nat →
  rt_ok (pc_tab (w_pc (put_entry w (Z.of_nat k) ent)))
  ∧ pc_view (put_entry w (Z.of_nat k) ent) = <[k := ent]> (pc_view w).
Proof. intros. by apply rt_set_ok. Qed.

(** Replacing entry [k]: nothing is said about it, or it is coherent. *)
Lemma put_inv x w k ent : cache_inv x w → (k < length (pc_view w))%nat → x = None ∨ x = Some k →
  (pe_valid ent = true → others_differ w k (pe_path ent)) →
  cache_inv (Some k) (put_entry w (Z.of_nat k) ent)
  ∧ (coherent (w_fs w) ent → pages_linked ent → cache_inv None (put_entry w (Z.of_nat k) ent)).
Proof.
  intros Hi Hk Hx Hu. destruct (put_view w k ent (ci_ok _ _ Hi) Hk) as [Hok Hv].
  set (w' := put_entry w (Z.of_nat k) ent) in *.
  assert (∀ j ent', pc_view w' !! j = Some ent' → j = k ∧ ent' = ent ∨ j ≠ k ∧ pc_view w !! j = Some ent') as Hc.
  { intros j ent' Hl. rewrite Hv in Hl. destruct (decide (j = k)) as [->|Hj].
    - left. rewrite list_lookup_insert_eq in Hl by done. by injection Hl as <-.
    - right. by rewrite list_lookup_insert_ne in Hl by congruence. }
  assert (∀ j ent', pc_view w' !! j = Some ent' → pe_valid ent' = true → others_differ w' j (pe_path ent')) as Hu'.
  { intros j ent' Hl Hva j2 ent2 Hj2 Hl2 Hva2.
    destruct (Hc _ _ Hl) as [[-> ->]|[? Hl']], (Hc _ _ Hl2) as [[-> ->]|[? Hl2']]; try done.
    - by apply (Hu Hva j2).
    - intros E. by apply (Hu Hva2 j ent').
    - by apply (ci_uniq _ _ Hi j ent' Hl' Hva j2). }
  split; [|intros Hent Hpg]; (split; [apply Hi|exact Hok|..|exact Hu'|rewrite Hv, length_insert; apply Hi
     |intros Hr; rewrite Hv, (ci_ready _ _ Hi Hr); done]);
    intros j ent' Hj [[-> ->]|[Hjk Hl]]%Hc; try done.
  all: first [apply (ci_coh _ _ Hi j)|apply (ci_pages _ _ Hi j)]; [|done]; destruct Hx as [->| ->]; congruence.
Qed.

Lemma lists_inv x w act inact : cache_inv x w →
  (∀ i, i ∈ act ++ inact → ∃ k, i = Z.of_nat k ∧ (k < length (pc_view w))%nat) →
  cache_inv x (set_lists w act inact).
Proof. intros [? ? ? ? ? _ ?] Hl. by split. Qed.

Lemma fs_inv x w fs' : cache_inv x w → fs_eq (w_fs w) fs' → cache_inv x (set_fs w fs').
Proof.
  intros [Hf ? Hc ? ? ? ?] Hq. split; try done; cbn.
  - by eapply fs_eq_wf.
  - intros k ent Hk Hl. eapply coherent_eq; [done|]. by eapply Hc.
Qed.

(** ** Leaving the cache *)

Lemma splice_prefix (bytes b : list Z) :
  (∀ k : nat, (k < length bytes)%nat → bytes !! k = b !! k) → (length bytes ≤ length b)%nat →
  splice 0 bytes b = b.
Proof.
  intros Hb Hl. apply list_eq. intros i. rewrite splice_lookup by lia. case_decide; [|done].
  rewrite Nat.sub_0_r. apply Hb. lia.
Qed.

Lemma cached_file_buffer fs ent i r s : fs_wf fs → cached_file fs ent i r s →
  ent_ok (rmem fs) r ∧ r_data r ≠ 0 ∧ ∃ b, rmem fs !! r_data r = Some b
    ∧ Z.of_nat (length b) = r_capacity r ∧ file_bytes fs r = take (Z.to_nat (r_size r)) b
    ∧ r_size r ≤ Z.of_nat (length b).
Proof.
  intros Hwf Hc. destruct (cf_size _ _ _ _ _ Hc) as [_ Hpos].
  destruct (fw_ent fs Hwf i r (cf_entry _ _ _ _ _ Hc)) as [->|Ho]; [done|].
  pose proof (eo_size _ _ Ho).
  assert (r_data r ≠ 0) as Hd by (intros ?%(eo_null _ _ Ho); lia).
  destruct (eo_buf _ _ Ho Hd) as (b & Hb & Hl). split_and!; [done..|]. exists b.
  split_and!; [done|done|by unfold file_bytes; rewrite Hb|lia].
Qed.

(** Copying a coherent file back changes nothing. *)
Lemma flush_coherent w k ent : rt_ok (pc_tab (w_pc w)) → fs_wf (w_fs w) →
  pc_view w !! k = Some ent → coherent (w_fs w) ent →
  ∃ fs' w' b, vfs_pcache_flush_entry w (Z.of_nat k) = Some (w', b) ∧ fs_eq (w_fs w) fs'
    ∧ (w' = set_fs w fs' ∨ w' = set_fs (put_entry w (Z.of_nat k) (with_dirty ent false)) fs').
Proof.
  intros Hok Hwf Hk Hc. unfold vfs_pcache_flush_entry. rewrite (view_at _ _ _ Hok Hk).
  pose proof (fs_eq_refl _ Hwf) as Hrefl.
  assert (∃ fs' w' b, Some (w, true) = Some (w', b) ∧ fs_eq (w_fs w) fs'
    ∧ (w' = set_fs w fs' ∨ w' = set_fs (put_entry w (Z.of_nat k) (with_dirty ent false)) fs')) as Hsame.
  { exists (w_fs w), w, true. split_and!; [done|done|left; by destruct w]. }
  destruct (pe_slice ent) as [s|] eqn:Es; [|exact Hsame].
  cbv zeta. set (clean := put_entry w (Z.of_nat k) (with_dirty ent false)) in *.
  assert (∃ fs' w' b, Some (clean, true) = Some (w', b) ∧ fs_eq (w_fs w) fs'
    ∧ (w' = set_fs w fs' ∨ w' = set_fs clean fs')) as Hclean.
  { exists (w_fs w), clean, true. split_and!; [done|done|by right]. }
  destruct (negb (pe_valid ent) || negb (pe_dirty ent)) eqn:Ev; [exact Hsame|].
  apply orb_false_iff in Ev as [Hv%negb_false_iff _]. specialize (Hc Hv).
  destruct (has (pe_caps ent) VFS_BACKEND_CAP_FLUSH_DROP); [exact Hclean|].
  destruct (has (pe_caps ent) VFS_BACKEND_CAP_WRITE_SOURCE); cbn [negb orb]; [|exact Hclean].
  destruct Hc as (i & r & s' & Hc). rewrite (cf_slice _ _ _ _ _ Hc) in Es. injection Es as ->.
  rewrite (cf_storage _ _ _ _ _ Hc).
  rewrite (proj2 (Z.eqb_neq (ramfs_ptr (Z.of_nat i)) 0)) by (unfold ramfs_ptr; lia).
  unfold storage_entry, ramfs_of_ptr, ramfs_ptr. rewrite Z.add_simpl_r.
  unfold ramfs_entry_at. rewrite (rt_get_view _ i r (fw_ok _ Hwf) (cf_entry _ _ _ _ _ Hc)).
  cbn [mbind option_bind]. destruct (cached_file_buffer _ _ _ _ _ Hwf Hc) as (Ho & Hd & b & Hb & Hbl & Hfb & Hcap).
  rewrite (proj2 (Z.eqb_neq (r_data r) 0)) by done.
  destruct (page_slice_copy_to_buffer s 0 (pe_size ent)) as [err bytes] eqn:Ecp.
  destruct (cf_size _ _ _ _ _ Hc) as [Hsz Hpos].
  destruct (copy_bytes _ _ _ _ _ Ecp) as (Hle & _ & Hby); [lia|lia|].
  rewrite (mem_store_ok _ _ b) by (done || lia).
  rewrite splice_prefix; [..|lia].
  2: { intros j Hj. rewrite <- Hby by done. rewrite Z.add_0_l.
       rewrite (sh_bytes _ _ (cf_holds _ _ _ _ _ Hc) j).
       - rewrite Hfb. apply lookup_take_lt. lia.
       - rewrite Hfb, length_take. lia. }
  rewrite insert_id by done.
  destruct (rt_set_same (rtab (w_fs w)) i r (fw_ok _ Hwf) (cf_entry _ _ _ _ _ Hc)) as [Hok' Hv'].
  replace (with_size r (pe_size ent)) with r by (rewrite Hsz; by destruct r).
  destruct err; (eexists _, _, _; split; [done|]); (split; [|first [by right|by left]]); done.
Qed.

(** The same file system, the same number of entries, and no new valid ones. *)
Definition fewer w w' : Prop :=
  ∀ k ent', pc_view w' !! k = Some ent' → pe_valid ent' = true →
    ∃ ent, pc_view w !! k = Some ent ∧ pe_valid ent = true ∧ pe_path ent = pe_path ent'.
Definition steady w w' : Prop :=
  quiet w w' ∧ length (pc_view w') = length (pc_view w) ∧ fewer w w'.

Lemma steady_refl w : fs_wf (w_fs w) → steady w w.
Proof. intros. split_and!; [split; [by apply fs_eq_refl|done]|done|]. intros k ent. eauto. Qed.
Lemma fewer_trans w1 w2 w3 : fewer w1 w2 → fewer w2 w3 → fewer w1 w3.
Proof.
  intros H12 H23 k ent Hk Hv. destruct (H23 k ent Hk Hv) as (ent2 & Hk2 & Hv2 & <-). by apply H12.
Qed.
Lemma steady_trans w1 w2 w3 : steady w1 w2 → steady w2 w3 → steady w1 w3.
Proof.
  intros (? & ? & ?) (? & ? & ?). split_and!; [by eapply quiet_trans|congruence|by eapply fewer_trans].
Qed.

(** Nothing about [path] is cached. *)
Definition absent w (path : cstr) : Prop :=
  ∀ k ent, pc_view w !! k = Some ent → pe_valid ent = true →
    take VFS_PATH_MAX (pe_path ent) ≠ take VFS_PATH_MAX path.
Lemma absent_fewer w w' path : fewer w w' → absent w path → absent w' path.
Proof. intros Hf Ha k ent Hk Hv. destruct (Hf k ent Hk Hv) as (ent2 & Hk2 & Hv2 & <-). by eapply Ha. Qed.

Lemma put_fewer w k ent ent' : rt_ok (pc_tab (w_pc w)) → pc_view w !! k = Some ent →
  (pe_valid ent' = true → pe_valid ent = true ∧ pe_path ent = pe_path ent') →
  fewer w (put_entry w (Z.of_nat k) ent').
Proof.
  intros Hok Hk He j x Hj Hv. rewrite (proj2 (put_view w k ent' Hok (lookup_lt_Some _ _ _ Hk))) in Hj.
  destruct (decide (j = k)) as [->|]; [|rewrite list_lookup_insert_ne in Hj by congruence; eauto].
  rewrite list_lookup_insert_eq in Hj by (by eapply lookup_lt_Some). injection Hj as <-.
  exists ent. split; [done|]. by apply He.
Qed.

Lemma coherent_dirty fs ent b : coherent fs ent → coherent fs (with_dirty ent b).
Proof.
  intros Hc Hv. specialize (Hc Hv). cbn [pe_caps with_dirty]. destruct (has _ _).
  - destruct Hc as (i & r & s & [? ? ? ? ? ? ?]). by exists i, r, s.
  - exact Hc.
Qed.

Lemma view_lt w k ent : pc_view w !! k = Some ent → (k < length (pc_view w))%nat.
Proof. apply lookup_lt_Some. Qed.

Lemma flush_inv w k : cache_inv None w → (k < length (pc_view w))%nat →
  ∃ w' b, vfs_pcache_flush_entry w (Z.of_nat k) = Some (w', b) ∧ cache_inv None w' ∧ steady w w'.
Proof.
  intros Hi Hk. destruct (lookup_lt_is_Some_2 _ _ Hk) as [ent He].
  assert (coherent (w_fs w) ent) as Hc by by apply (ci_coh _ _ Hi k).
  destruct (flush_coherent w k ent (ci_ok _ _ Hi) (ci_fs _ _ Hi) He Hc) as (fs' & w' & b & Hf & Hq & Hw).
  exists w', b. split; [done|]. destruct Hw as [->| ->].
  - split; [by apply fs_inv|]. split_and!; [by split|done|]. intros j x. eauto.
  - destruct (put_inv _ w k (with_dirty ent false) Hi Hk) as [_ Hp];
      [by left|exact (ci_uniq _ _ Hi k ent He)|].
    destruct (put_view w k (with_dirty ent false) (ci_ok _ _ Hi) Hk) as [_ Hv].
    split; [apply fs_inv; [by apply Hp; [apply coherent_dirty|exact (ci_pages _ _ Hi k ent ltac:(done) He)]|done]|].
    split_and!; [by split| |by apply (put_fewer w k ent); [apply Hi|..]].
    change (pc_view (set_fs ?x _)) with (pc_view x). by rewrite Hv, length_insert.
Qed.

Lemma list_del_sub i j l : j ∈ list_del i l → j ∈ l.
Proof. unfold list_del. by intros [_ ?]%list_elem_of_filter. Qed.

Lemma lru_del_inv x w i : cache_inv x w → cache_inv x (lru_del w i).
Proof.
  intros Hi. apply lists_inv; [done|]. intros j Hj. apply (ci_lists _ _ Hi). rewrite elem_of_app in *.
  destruct Hj as [?%list_del_sub|?%list_del_sub]; auto.
Qed.

Lemma destroy_inv x w k ent : cache_inv x w → pc_view w !! k = Some ent → pages_linked ent →
  x = None ∨ x = Some k →
  ∃ w', vfs_pcache_destroy_entry w (Z.of_nat k) = Some w' ∧ cache_inv None w' ∧ steady w w'.
Proof.
  intros Hi He Hpg Hx. pose proof (lookup_lt_Some _ _ _ He) as Hk.
  unfold vfs_pcache_destroy_entry. rewrite (view_at _ _ _ (ci_ok _ _ Hi) He), clear_linked by done.
  cbn [mbind option_bind pages_active pages_inactive with_pages].
  set (w1 := lru_del w (Z.of_nat k)). set (e0 := PcEntry _ _ _ _ _ _ _ _ _).
  assert (cache_inv x w1) as Hi1 by by apply lru_del_inv.
  destruct (put_inv x w1 k e0 Hi1 Hk Hx) as [_ Hp]; [done|].
  destruct (put_view w1 k e0 (ci_ok _ _ Hi1) Hk) as [_ Hv].
  eexists. split; [done|]. split; [by apply Hp; [|constructor]|].
  split_and!; [split; [by apply fs_eq_refl, Hi|done]| |by apply (put_fewer w1 k ent); [apply Hi1|..]].
  by rewrite Hv, length_insert.
Qed.

Lemma destroy_at w k : cache_inv None w → (k < length (pc_view w))%nat →
  ∃ w', vfs_pcache_destroy_entry w (Z.of_nat k) = Some w' ∧ cache_inv None w' ∧ steady w w'.
Proof.
  intros Hi [ent He]%lookup_lt_is_Some_2.
  apply (destroy_inv None w k ent); [done|done|by apply (ci_pages _ _ Hi k)|by left].
Qed.

Lemma free_inv w k : cache_inv None w → (k < length (pc_view w))%nat →
  ∃ w', vfs_pcache_free_entry w (Z.of_nat k) = Some w' ∧ cache_inv None w' ∧ steady w w'.
Proof.
  intros Hi Hk. destruct (flush_inv w k Hi Hk) as (w1 & b & Hf & Hi1 & Hs1).
  unfold vfs_pcache_free_entry. rewrite Hf. cbn [mbind option_bind fst].
  destruct (destroy_at w1 k Hi1) as (w2 & Hd & Hi2 & Hs2); [by destruct Hs1 as (_ & -> & _)|].
  exists w2. split; [done|]. split; [done|]. by eapply steady_trans.
Qed.

(** Freeing an entry that has no pages yet. *)
Lemma free_empty_inv w k ent : cache_inv (Some k) w → pc_view w !! k = Some ent → pe_slice ent = None →
  pages_active ent ++ pages_inactive ent = [] →
  ∃ w', vfs_pcache_free_entry w (Z.of_nat k) = Some w' ∧ cache_inv None w' ∧ steady w w'.
Proof.
  intros Hi He Hs Hl. unfold vfs_pcache_free_entry, vfs_pcache_flush_entry.
  rewrite (view_at _ _ _ (ci_ok _ _ Hi) He), Hs. cbn [mbind option_bind fst].
  apply (destroy_inv (Some k) w k ent); [done|done| |by right].
  unfold pages_linked, nodes_in. by rewrite Hl.
Qed.

Lemma victim_inv w : cache_inv None w →
  match evict_victim w with
  | None => True
  | Some (w1, i) => cache_inv None w1 ∧ steady w w1
      ∧ ∃ k, i = Z.of_nat k ∧ (k < length (pc_view w1))%nat
  end.
Proof.
  intros Hi. unfold evict_victim. pose proof (steady_refl w (ci_fs _ _ Hi)) as Hr.
  destruct (last (vfs_pcache_inactive (w_pc w))) as [i|] eqn:Ei.
  - split_and!; [done..|]. apply (ci_lists _ _ Hi), elem_of_app. right. by apply last_Some_elem_of.
  - destruct (last (vfs_pcache_active (w_pc w))) as [i|] eqn:Ea; [|done].
    apply last_None in Ei.
    destruct (ci_lists _ _ Hi i) as (k & -> & Hk).
    { apply elem_of_app. left. by apply last_Some_elem_of. }
    split_and!; [|exact Hr|by exists k]. apply lists_inv; [done|].
    intros j [Hj%list_del_sub|Hj]%elem_of_app; [|apply list_elem_of_singleton in Hj as ->; eauto].
    apply (ci_lists _ _ Hi), elem_of_app. by left.
Qed.

Lemma evict_inv w : cache_inv None w →
  ∃ w', vfs_pcache_evict_one w = Some w' ∧ cache_inv None w' ∧ steady w w'.
Proof.
  intros Hi. unfold vfs_pcache_evict_one. pose proof (victim_inv w Hi) as Hv.
  destruct (evict_victim w) as [[w1 i]|]; [|exists w; split_and!; [done|done|by apply steady_refl, Hi]].
  destruct Hv as (Hi1 & Hs1 & k & -> & Hk).
  assert (∃ w2 b, (if from_option pe_dirty false (vfs_pcache_at w1 (Z.of_nat k))
    then vfs_pcache_flush_entry w1 (Z.of_nat k) else Some (w1, true)) = Some (w2, b)
    ∧ cache_inv None w2 ∧ steady w1 w2) as (w2 & b & -> & Hi2 & Hs2).
  { destruct (from_option _ _ _); [by apply flush_inv|].
    exists w1, true. split_and!; [done..|]. by apply steady_refl, Hi1. }
  assert (k < length (pc_view w2))%nat as Hk2 by by destruct Hs2 as (_ & -> & _).
  cbn [mbind option_bind]. destruct b.
  - destruct (destroy_at w2 k Hi2 Hk2) as (w3 & Hd & Hi3 & Hs3).
    exists w3. split_and!; [done|done|]. exact (steady_trans _ _ _ Hs1 (steady_trans _ _ _ Hs2 Hs3)).
  - assert (cache_inv None (lru_del w2 (Z.of_nat k))) as Hi3 by by apply lru_del_inv.
    eexists. split_and!; [done| |exact (steady_trans _ _ _ Hs1 Hs2)].
    apply lists_inv; [done|]. intros j Hj. rewrite <- app_comm_cons, elem_of_cons in Hj.
    destruct Hj as [->|Hj]; [by exists k|]. by apply (ci_lists _ _ Hi3).
Qed.

(** ** Finding and filling *)

Lemma tab_ensure_inv x e w : cache_inv x w →
  cache_inv x (vfs_pcache_tab_ensure e w) ∧ quiet w (vfs_pcache_tab_ensure e w)
  ∧ fewer w (vfs_pcache_tab_ensure e w).
Proof.
  intros Hi. unfold vfs_pcache_tab_ensure. pose proof (fs_eq_refl _ (ci_fs _ _ Hi)) as Hq.
  destruct (pc_ready (w_pc w)) eqn:Er; [split_and!; [done..|apply steady_refl, Hi]|].
  destruct (rt_init (ce_tab e) 8) as [err t] eqn:Et.
  destruct (rt_init_ok (ce_tab e) 8 err t ltac:(lia) Et) as [Hok Hv].
  pose proof (ci_ready _ _ Hi Er) as Hn.
  assert (∀ i, ¬ i ∈ vfs_pcache_active (w_pc w) ++ vfs_pcache_inactive (w_pc w)) as Hl.
  { intros i Hin. destruct (ci_lists _ _ Hi i Hin) as (k & _ & Hk). rewrite Hn in Hk. cbn in Hk. lia. }
  destruct err; (split_and!; [|done|by intros k ent; unfold pc_view; cbn; rewrite Hv]); split; cbn;
    try done; try (by apply Hi); unfold pc_view; cbn; rewrite ?Hv; try done.
  all: by intros i ?%Hl.
Qed.

Lemma find_inv e w path : cache_inv None w →
  ∃ w' r, vfs_pcache_find e w path = (w', r) ∧ cache_inv None w' ∧ quiet w w'
    ∧ match r with
      | None => absent w' path
      | Some i => ∃ k ent, i = Z.of_nat k ∧ pc_view w' !! k = Some ent ∧ pe_valid ent = true
          ∧ take VFS_PATH_MAX (pe_path ent) = take VFS_PATH_MAX path
      end.
Proof.
  intros Hi. unfold vfs_pcache_find. destruct (tab_ensure_inv None e w Hi) as (Hi1 & Hq & _).
  set (w1 := vfs_pcache_tab_ensure e w) in *. eexists w1, _. split_and!; [done..|].
  destruct (rt_scan _ _ _) as [i|] eqn:Es.
  2: { intros k ent Hk Hv E. apply strcmp_s_0 in E.
       pose proof (rt_scan_None _ _ 0 (ci_ok _ _ Hi1) Es k ent ltac:(lia) Hk) as Ht. cbn in Ht.
       by rewrite Hv, E in Ht. }
  apply (rt_scan_Some _ _ 0) in Es as (k & ent & -> & _ & He & [Hv Hp]%andb_true_iff & _); [|apply Hi1].
  exists k, ent. split_and!; [done..|]. apply Z.eqb_eq, strcmp_s_0 in Hp. done.
Qed.

(** An inode of the ramfs file [r] at [i]. *)
Record ram_inode (fs : ramfs T) ino (i : nat) (r : ramfs_entry) : Prop := {
  ri_entry : entries fs !! i = Some r;
  ri_file : is_file r = true;
  ri_storage : storage ino = ramfs_ptr (Z.of_nat i);
  ri_caps : has (backend_caps ino) VFS_BACKEND_CAP_WRITE_SOURCE = true;
  ri_dir : is_dir ino = false;
  ri_path : path_norm (ino_path ino) = r_path r;
  ri_size : ino_size ino = r_size r;
}.

Lemma ram_inode_eq fs fs' ino i r : fs_eq fs fs' → ram_inode fs ino i r → ram_inode fs' ino i r.
Proof. intros (_ & Hv & _) [? ? ? ? ? ? ?]. split; try done. by rewrite Hv. Qed.

Lemma ram_inode_ok fs ino i r : fs_wf fs → ram_inode fs ino i r → ent_ok (rmem fs) r.
Proof.
  intros Hwf Hr. destruct (fw_ent fs Hwf i r (ri_entry _ _ _ _ Hr)) as [->|]; [|done].
  by pose proof (ri_file _ _ _ _ Hr).
Qed.

Lemma norm_take p : take VFS_PATH_MAX (path_norm p) = path_norm p.
Proof.
  apply take_ge. rewrite path_norm_render. pose proof (render_short _ (path_comps_canonical p)). lia.
Qed.

(** The entry found under the name of a ramfs file caches that file. *)
Lemma found_file fs ino i r ent : fs_wf fs → ram_inode fs ino i r → coherent fs ent →
  pe_valid ent = true →
  take VFS_PATH_MAX (pe_path ent) = take VFS_PATH_MAX (path_norm (ino_path ino)) →
  ∃ s, cached_file fs ent i r s.
Proof.
  intros Hwf Hr Hc Hv Hp. specialize (Hc Hv). pose proof (ram_inode_ok _ _ _ _ Hwf Hr) as Ho.
  destruct (has _ _).
  - destruct Hc as (j & r' & s & Hc). exists s.
    destruct (cached_file_buffer _ _ _ _ _ Hwf Hc) as (Ho' & _).
    enough (j = i) as ->.
    { pose proof (cf_entry _ _ _ _ _ Hc) as E. rewrite (ri_entry _ _ _ _ Hr) in E. by injection E as ->. }
    apply (fw_names fs Hwf _ _ r' r (cf_entry _ _ _ _ _ Hc) (ri_entry _ _ _ _ Hr)); [apply Ho'|apply Ho|].
    unfold ent_comps. rewrite <- (cf_path _ _ _ _ _ Hc) in Hp. rewrite <- (eo_path _ _ Ho') in Hp.
    rewrite !norm_take in Hp. rewrite <- (ri_path _ _ _ _ Hr), path_comps_norm. by apply path_norm_inj.
  - exfalso. apply (Hc i r (ri_entry _ _ _ _ Hr) (eo_alive _ _ Ho)). rewrite Hp.
    by rewrite (ri_path _ _ _ _ Hr).
Qed.

Lemma source_load_ok w ino i r b off n : fs_wf (w_fs w) → ram_inode (w_fs w) ino i r →
  rmem (w_fs w) !! r_data r = Some b → 0 ≤ off → 0 ≤ n → off + n ≤ Z.of_nat (length b) →
  source_load w ino (r_data r) off n = Some (take (Z.to_nat n) (drop (Z.to_nat off) b)).
Proof.
  intros Hwf Hr Hb ? ? ?. unfold source_load. rewrite (ri_caps _ _ _ _ Hr). by apply mem_load_ok.
Qed.

Lemma insert_page_prefix s s' (d : list Z) (p : Z) bytes (size : nat) :
  page_slice_insert_page s p (CPage bytes 0) = (REND_SUCCESS, s') →
  pages_ok s → length bytes = 4096%nat → 0 ≤ p →
  slice_prefix s d (Nat.min (Z.to_nat (p * 4096)) size) →
  (∀ k : nat, (k < size)%nat → Z.of_nat k `div` 4096 = p → bytes !! Z.to_nat (Z.of_nat k `mod` 4096) = d !! k) →
  pages_ok s' ∧ slice_prefix s' d (Nat.min (Z.to_nat ((p + 1) * 4096)) size)
  ∧ page_slice_get_size s' = page_slice_get_size s.
Proof.
  intros Hins Hpo Hl Hp Hpre Hb. destruct (insert_ok _ _ _ _ Hins) as (Hsz & Hnew & Hold).
  split_and!; [..|done].
  - intros q c Hq. destruct (decide (q = p)) as [->|]; [|rewrite Hold in Hq by done; by eapply Hpo].
    rewrite Hnew in Hq. by injection Hq as <-.
  - intros k Hk. unfold slice_byte. change (PAGE_SLICE_BYTE_TO_PGOFF ?x) with (x `div` 4096).
    change (PAGE_SLICE_IN_PAGE_OFF ?x) with (x `mod` 4096).
    destruct (decide (Z.of_nat k `div` 4096 = p)) as [E|E].
    + rewrite E, Hnew. cbn [pg_bytes]. apply Hb; [lia|done].
    + rewrite Hold by done. apply Hpre.
      pose proof (Z.div_mod (Z.of_nat k) 4096 ltac:(lia)).
      pose proof (Z.mod_pos_bound (Z.of_nat k) 4096 ltac:(lia)). lia.
Qed.

(** A fill that fails has linked no page: the first page cannot be allocated,
    or all pages can be, and only the first insertion can fail. *)
Definition fill_clean e (size : Z) : Prop :=
  ce_page e 0 = false
  ∨ (∀ p, 0 ≤ p < PAGE_SLICE_SIZE_TO_PAGE_COUNT size → ce_page e p = true)
    ∧ ∀ (s : page_slice) p c, 0 < p < PAGE_SLICE_SIZE_TO_PAGE_COUNT size →
        (page_slice_insert_page s p c).1 = REND_SUCCESS.

(** A file of one page has no other fills. *)
Lemma one_page_clean e size : 0 < size ≤ 4096 → fill_clean e size.
Proof.
  intros Hs. assert (PAGE_SLICE_SIZE_TO_PAGE_COUNT size = 1) as Hc.
  { unfold PAGE_SLICE_SIZE_TO_PAGE_COUNT. change PAGE_SIZE with 4096.
    symmetry. apply (Z.div_unique_pos _ _ _ (size - 1)); lia. }
  unfold fill_clean. rewrite Hc. destruct (ce_page e 0) eqn:E; [right|by left].
  split; [intros p Hp; by replace p with 0 by lia|intros; lia].
Qed.

(** The loop that fills the pages of a ramfs file. *)
Lemma fill_pages_spec e w ino i r b : fs_wf (w_fs w) → ram_inode (w_fs w) ino i r →
  rmem (w_fs w) !! r_data r = Some b → r_size r ≤ Z.of_nat (length b) →
  let size := r_size r in
  ∀ fuel s linked pgoff,
    0 ≤ pgoff → pgoff + Z.of_nat fuel = PAGE_SLICE_SIZE_TO_PAGE_COUNT size →
    page_slice_get_size s = size → pages_ok s →
    slice_prefix s b (Nat.min (Z.to_nat (pgoff * 4096)) (Z.to_nat size)) →
    ∃ err s' linked', fill_pages fuel e w ino (r_data r) size s linked pgoff = Some (err, s', linked')
      ∧ (err = REND_SUCCESS → slice_holds s' (take (Z.to_nat size) b)
           ∧ (Forall (λ p, is_Some (page_slice_lookup s p)) linked →
              Forall (λ p, is_Some (page_slice_lookup s' p)) linked'))
      ∧ ((∀ p, pgoff ≤ p < PAGE_SLICE_SIZE_TO_PAGE_COUNT size → ce_page e p = true
              ∧ (0 < p → ∀ s c, (page_slice_insert_page s p c).1 = REND_SUCCESS)) →
         err = REND_SUCCESS ∨ pgoff = 0 ∧ linked' = linked)
      ∧ (ce_page e pgoff = false → err = REND_SUCCESS ∨ linked' = linked).
Proof.
  intros Hwf Hr Hb Hcap size. pose proof (eo_size _ _ (ram_inode_ok _ _ _ _ Hwf Hr)) as Hsz. fold size in Hsz, Hcap.
  pose proof (Z.div_mod (size + PAGE_SIZE - 1) PAGE_SIZE ltac:(done)) as Hdm.
  pose proof (Z.mod_pos_bound (size + PAGE_SIZE - 1) PAGE_SIZE ltac:(done)) as Hmb.
  unfold PAGE_SLICE_SIZE_TO_PAGE_COUNT. set (pages := (size + PAGE_SIZE - 1) `div` PAGE_SIZE) in *.
  change PAGE_SIZE with 4096 in *.
  induction fuel as [|fuel IH]; intros s linked pgoff Hp Hfuel Hgs Hpo Hpre.
  { exists REND_SUCCESS, s, linked. split_and!; [done| |by left|by left]. intros _. split; [|done].
    assert (length (take (Z.to_nat size) b) = Z.to_nat size) as Hl by (rewrite length_take; lia).
    split; [lia|done|]. intros k Hk. rewrite Hl in Hk. rewrite lookup_take_lt by lia. apply Hpre. lia. }
  cbn [fill_pages]. destruct (ce_page e pgoff) eqn:Epg; cbn [negb].
  2: { exists E_REND_NO_MEM, s, linked. split_and!; [done|done| |by right].
       intros Hall. destruct (Hall pgoff) as [? _]; [lia|congruence]. }
  change PAGE_SIZE with 4096.
  set (n := if size <? pgoff * 4096 + 4096 then size - pgoff * 4096 else 4096).
  assert (0 < n ≤ 4096 ∧ pgoff * 4096 + n ≤ size ∧ (n < 4096 → pgoff * 4096 + n = size)) as (Hn & Hns & Hn2).
  { unfold n. destruct (Z.ltb_spec size (pgoff * 4096 + 4096)); lia. }
  rewrite (source_load_ok w ino i r b) by (done || lia). cbn [mbind option_bind].
  set (bytes := take (Z.to_nat n) (drop (Z.to_nat (pgoff * 4096)) b)).
  assert (length bytes = Z.to_nat n) as Hbl by (unfold bytes; rewrite length_take, length_drop; lia).
  set (pg := bytes ++ replicate (Z.to_nat (4096 - n)) 0).
  destruct (page_slice_insert_page s pgoff (CPage pg 0)) as [err s'] eqn:Ei.
  destruct (decide (err = REND_SUCCESS)) as [->|Hne].
  2: { exists err, s', linked. split; [by destruct err|]. split_and!; [done| |done].
       intros Hall. right. split; [|done]. destruct (decide (pgoff = 0)) as [|H0]; [done|].
       destruct (Hall pgoff) as [_ Hw]; [lia|]. specialize (Hw ltac:(lia) s (CPage pg 0)). by rewrite Ei in Hw. }
  destruct (insert_page_prefix s s' b pgoff pg (Z.to_nat size) Ei Hpo) as (Hpo' & Hpre' & Hgs').
  { unfold pg. rewrite length_app, length_replicate. lia. }
  { done. }
  { done. }
  { intros k Hk E. pose proof (Z.div_mod (Z.of_nat k) 4096 ltac:(lia)).
    pose proof (Z.mod_pos_bound (Z.of_nat k) 4096 ltac:(lia)). unfold pg.
    rewrite lookup_app_l by lia. unfold bytes. rewrite lookup_take_lt, lookup_drop by lia. f_equal. lia. }
  destruct (IH s' (if page_slice_lookup s' pgoff then linked ++ [pgoff] else linked) (pgoff + 1))
    as (err & s2 & l2 & Hf & Hok & Hall & _); [lia|lia|congruence|done|done|].
  exists err, s2, l2. split_and!; [rewrite <- Hf; by destruct (page_slice_lookup s' pgoff)| | |done].
  - intros Herr. destruct (Hok Herr) as [? Hl]. split; [done|]. intros Hin. apply Hl.
    destruct (insert_ok _ _ _ _ Ei) as (_ & Hnew & Hold). rewrite Hnew. apply list.Forall_app. split.
    + eapply list.Forall_impl; [exact Hin|]. intros p Hpin. destruct (decide (p = pgoff)) as [->|];
        [by rewrite Hnew|by rewrite Hold].
    + apply list.Forall_singleton. by rewrite Hnew.
  - intros Hp1. left. destruct Hall as [|[? _]]; [|done|lia]. intros p Hp2. apply Hp1. lia.
Qed.

(** The entry that [vfs_pcache_alloc_slot] prepares. *)
Definition new_entry (path : cstr) : vfs_pcache_entry :=
  PcEntry (strncpy_term path (VFS_PATH_MAX - 1)) None 0 0 0 false true [] [].

Lemma init_slot_inv w k path : cache_inv None w → (k < length (pc_view w))%nat →
  absent w (strncpy_term path (VFS_PATH_MAX - 1)) →
  cache_inv (Some k) (init_slot w (Z.of_nat k) path) ∧ quiet w (init_slot w (Z.of_nat k) path)
  ∧ pc_view (init_slot w (Z.of_nat k) path) !! k = Some (new_entry path).
Proof.
  intros Hi Hk Ha. unfold init_slot. fold (new_entry path).
  destruct (put_inv None w k (new_entry path) Hi Hk) as [Hp _]; [by left|intros _ j ent _ Hj; by apply (Ha j)|].
  destruct (put_view w k (new_entry path) (ci_ok _ _ Hi) Hk) as [_ Hv].
  set (w1 := put_entry w (Z.of_nat k) (new_entry path)) in *. split_and!.
  - apply lists_inv; [done|]. intros j. rewrite app_assoc, elem_of_app, list_elem_of_singleton.
    intros [Hj| ->]; [by apply (ci_lists _ _ Hp)|]. exists k. by rewrite Hv, length_insert.
  - split; [by apply fs_eq_refl, Hi|done].
  - change (pc_view (set_lists w1 _ _)) with (pc_view w1). rewrite Hv. by rewrite list_lookup_insert_eq.
Qed.

Lemma set_tab_inv w t : cache_inv None w → pc_ready (w_pc w) = true → rt_ok t →
  (∀ k ent, rt_view t !! k = Some ent → coherent (w_fs w) ent ∧ pages_linked ent) → fewer w (set_pc_tab w t) →
  (length (pc_view w) ≤ length (rt_view t))%nat → cache_inv None (set_pc_tab w t).
Proof.
  intros [? ? ? ? Hu Hl ?] Hr Hok Hc Hf Hlen. split; try done; cbn.
  - intros k ent _ Hk. by apply (Hc k).
  - intros k ent _ Hk. by apply (Hc k).
  - intros k ent Hk Hv j ent2 Hj Hk2 Hv2. destruct (Hf k ent Hk Hv) as (e1 & Hk1 & Hv1 & <-).
    destruct (Hf j ent2 Hk2 Hv2) as (e2 & Hk3 & Hv3 & <-). by apply (Hu k e1 Hk1 Hv1 j).
  - intros i Hi. destruct (Hl i Hi) as (k & -> & Hk). exists k. split; [done|]. unfold pc_view in *. cbn. lia.
  - congruence.
Qed.

Lemma zero_coherent fs : coherent fs zero_rec ∧ pages_linked zero_rec.
Proof. split; [by intros ?|constructor]. Qed.

Lemma grow_slot_inv e w : cache_inv None w → pc_ready (w_pc w) = true →
  match grow_slot e w with
  | inl w' => cache_inv None w' ∧ steady w w'
  | inr (w', i) => cache_inv None w' ∧ quiet w w' ∧ fewer w w'
      ∧ ∃ k, i = Z.of_nat k ∧ (k < length (pc_view w'))%nat
  end.
Proof.
  intros Hi Hr. unfold grow_slot. pose proof (steady_refl w (ci_fs _ _ Hi)) as Hs.
  destruct (rt_count _ <? _); [|done].
  destruct (rt_push_zero _ _) as [[err t1] idx] eqn:Ep.
  destruct (rt_push_ok _ _ _ _ _ (ci_ok _ _ Hi) Ep) as (Hok1 & Hgood & Hbad).
  assert (∀ t, rt_ok t → rt_view t = pc_view w →
    cache_inv None (set_pc_tab w t) ∧ steady w (set_pc_tab w t)) as Hkeep.
  { intros t Hok Hv.
    assert (fewer w (set_pc_tab w t)) as Hf.
    { intros k ent Hk. change (pc_view (set_pc_tab w t)) with (rt_view t) in Hk. rewrite Hv in Hk. eauto. }
    split.
    - apply set_tab_inv; [done..| |done|by rewrite Hv]. intros k ent Hk. rewrite Hv in Hk.
      split; [by apply (ci_coh _ _ Hi k)|by apply (ci_pages _ _ Hi k)].
    - split_and!; [apply Hs| |done]. change (pc_view (set_pc_tab w t)) with (rt_view t). by rewrite Hv. }
  destruct err; try (by apply Hkeep; [|apply Hbad]).
  destruct (Hgood eq_refl) as [Hv ->].
  destruct (rt_get t1 _) as [ent|].
  - assert (fewer w (set_pc_tab w t1)) as Hf.
    { intros k ent' Hk Hva. change (pc_view (set_pc_tab w t1)) with (rt_view t1) in Hk. rewrite Hv in Hk.
      apply lookup_app_Some in Hk as [Hk|[_ Hk]]; [by exists ent'|].
      apply list_lookup_singleton_Some in Hk as [_ <-]. done. }
    split_and!; [|apply Hs|done|].
    + apply set_tab_inv; [done..| |done|rewrite Hv, length_app; unfold pc_view; lia].
      intros k ent' Hk. rewrite Hv in Hk. apply lookup_app_Some in Hk as [Hk|[_ Hk]].
      * split; [by apply (ci_coh _ _ Hi k)|by apply (ci_pages _ _ Hi k)].
      * apply list_lookup_singleton_Some in Hk as [_ <-]. apply zero_coherent.
    + exists (length (pc_view w)). rewrite rt_count_view by apply Hi. split; [done|].
      change (pc_view (set_pc_tab w t1)) with (rt_view t1). rewrite Hv, length_app. unfold pc_view. cbn. lia.
  - destruct (rt_pop_ok t1 _ _ Hok1 Hv) as [Hok2 Hv2]. by apply Hkeep.
Qed.

Lemma alloc_slot_inv e w path : cache_inv None w → absent w (strncpy_term path (VFS_PATH_MAX - 1)) →
  ∃ w' r, vfs_pcache_alloc_slot e w path = Some (w', r) ∧ quiet w w'
    ∧ match r with
      | None => cache_inv None w'
      | Some i => ∃ k, i = Z.of_nat k ∧ cache_inv (Some k) w' ∧ pc_view w' !! k = Some (new_entry path)
      end.
Proof.
  intros Hi0 Ha0. unfold vfs_pcache_alloc_slot. destruct (tab_ensure_inv None e w Hi0) as (Hi & Hq & Hf0).
  pose proof (absent_fewer _ _ _ Hf0 Ha0) as Ha. clear Hf0.
  cbv zeta. set (w1 := vfs_pcache_tab_ensure e w) in *. clearbody w1.
  destruct (pc_ready (w_pc w1)) eqn:Hr; cbn [negb]; [|by exists w1, None].
  assert (∀ w2, cache_inv None w2 → steady w1 w2 → ∀ i, free_slot w2 = Some i →
    quiet w (init_slot w2 i path)
    ∧ ∃ k, i = Z.of_nat k ∧ cache_inv (Some k) (init_slot w2 i path)
        ∧ pc_view (init_slot w2 i path) !! k = Some (new_entry path)) as Hfree.
  { intros w2 Hi2 (Hq2 & _ & Hf2) i Hf. unfold free_slot in Hf.
    apply (rt_scan_Some _ _ 0) in Hf as (k & ent & -> & _ & He & _); [|apply Hi2].
    destruct (init_slot_inv w2 k path Hi2) as (? & ? & ?); [by eapply view_lt|by eapply absent_fewer|].
    split; [by eapply quiet_trans; [|eapply quiet_trans]|by exists k]. }
  pose proof (steady_refl w1 (ci_fs _ _ Hi)) as Hs1.
  destruct (free_slot w1) as [i|] eqn:Ef.
  { destruct (Hfree w1 Hi Hs1 i Ef) as [? ?]. by exists (init_slot w1 i path), (Some i). }
  pose proof (grow_slot_inv e w1 Hi Hr) as Hg. destruct (grow_slot e w1) as [w2|[w2 i]].
  - destruct Hg as (Hi2 & Hs2). destruct (evict_inv w2 Hi2) as (w3 & -> & Hi3 & Hs3).
    cbn [mbind option_bind]. pose proof (steady_trans _ _ _ Hs2 Hs3) as Hs.
    destruct (free_slot w3) as [i|] eqn:Ef3.
    + destruct (Hfree w3 Hi3 Hs i Ef3) as [? ?]. by exists (init_slot w3 i path), (Some i).
    + exists w3, None. split_and!; [done|by eapply quiet_trans; [|apply Hs]|done].
  - destruct Hg as (Hi2 & Hq2 & Hf2 & k & -> & Hk).
    destruct (init_slot_inv w2 k path Hi2 Hk (absent_fewer _ _ _ Hf2 Ha)) as (? & ? & ?).
    eexists _, _. split_and!; [done|by eapply quiet_trans; [|eapply quiet_trans]|by exists k].
Qed.

Lemma strncpy_norm p : strncpy_term (path_norm p) (VFS_PATH_MAX - 1) = path_norm p.
Proof.
  apply take_ge. rewrite path_norm_render. pose proof (render_short _ (path_comps_canonical p)). lia.
Qed.

Lemma fill_slice_spec e w ino i r b : fs_wf (w_fs w) → ram_inode (w_fs w) ino i r →
  rmem (w_fs w) !! r_data r = Some b → 0 < r_size r ≤ Z.of_nat (length b) → r_data r ≠ 0 →
  ∃ res linked, vfs_pcache_fill_slice_from_kva e w ino (r_data r) (r_size r) = Some (res, linked)
    ∧ res ≠ inl REND_SUCCESS
    ∧ (∀ s, res = inr s → slice_holds s (file_bytes (w_fs w) r)
         ∧ Forall (λ p, is_Some (page_slice_lookup s p)) linked)
    ∧ (∀ err, res = inl err → fill_clean e (r_size r) → linked = []).
Proof.
  intros Hwf Hr Hb Hsz Hd. unfold vfs_pcache_fill_slice_from_kva.
  rewrite !(proj2 (Z.eqb_neq _ 0)) by lia. cbn [orb].
  destruct (page_slice_create 0 (r_size r)) as [s0|] eqn:Ec; [|by exists (inl E_REND_NO_MEM), []].
  destruct (create_empty _ _ _ Ec) as [Hgs Hem].
  destruct (fill_pages_spec e w ino i r b Hwf Hr Hb ltac:(lia)
    (Z.to_nat (PAGE_SLICE_SIZE_TO_PAGE_COUNT (r_size r))) s0 [] 0) as (err & s' & l' & Hf & Hok & Hall & Hnone).
  { lia. }
  { rewrite Z2Nat.id; [lia|]. apply Z.div_pos; unfold PAGE_SIZE; lia. }
  { done. }
  { intros p c Hc. by rewrite Hem in Hc. }
  { intros k Hk. lia. }
  rewrite Hf. cbn [mbind option_bind]. unfold file_bytes. rewrite Hb. cbn [default from_option id].
  destruct (decide (err = REND_SUCCESS)) as [->|Hne].
  { exists (inr s'), l'. split_and!; [done|done| |done]. intros ? [= <-]. destruct (Hok eq_refl) as [? Hl].
    split; [done|]. by apply Hl. }
  exists (inl err), l'. split_and!; [by destruct err|congruence|done|].
  intros ? _ [Hz|[Hp Hins]].
  - by destruct (Hnone Hz).
  - destruct Hall as [|[_ ?]]; [|done|done]. intros p Hpr. split; [by apply Hp|].
    intros ? s1 c. apply Hins. lia.
Qed.

Lemma link_pages_eq ent linked :
  link_pages ent linked = with_pages ent (pages_active ent) (pages_inactive ent ++ linked).
Proof.
  unfold link_pages. revert ent. induction linked as [|p l IH]; intros ent; cbn [foldl].
  { rewrite app_nil_r. by destruct ent. }
  rewrite IH. cbn. by rewrite <- app_assoc.
Qed.

Lemma fill_inode_inv e w k ent ino i r : cache_inv (Some k) w → pc_view w !! k = Some ent →
  pe_valid ent = true → pe_path ent = path_norm (ino_path ino) →
  ram_inode (w_fs w) ino i r → ino_size ino ≠ 0 → pages_active ent ++ pages_inactive ent = [] →
  fill_clean e (r_size r) →
  ∃ w' err, vfs_pcache_fill_from_inode e w (Z.of_nat k) ino = Some (w', err) ∧ quiet w w'
    ∧ if decide (err = REND_SUCCESS)
      then cache_inv None w' ∧ ∃ ent' s, pc_view w' !! k = Some ent' ∧ cached_file (w_fs w') ent' i r s
      else cache_inv (Some k) w' ∧ ∃ ent', pc_view w' !! k = Some ent' ∧ pe_slice ent' = None
             ∧ pages_active ent' ++ pages_inactive ent' = [].
Proof.
  intros Hi Hk Hv Hp Hr Hne Hpg Hcl. pose proof (ci_fs _ _ Hi) as Hwf. pose proof (view_lt _ _ _ Hk) as Hlt.
  pose proof (ram_inode_ok _ _ _ _ Hwf Hr) as Ho. pose proof (eo_size _ _ Ho) as Hsz.
  rewrite (ri_size _ _ _ _ Hr) in Hne.
  assert (r_data r ≠ 0) as Hd by (intros ?%(eo_null _ _ Ho); lia).
  destruct (eo_buf _ _ Ho Hd) as (b & Hb & Hbl).
  unfold vfs_pcache_fill_from_inode. rewrite (view_at _ _ _ (ci_ok _ _ Hi) Hk), (ri_dir _ _ _ _ Hr).
  rewrite (ri_size _ _ _ _ Hr), (proj2 (Z.eqb_neq _ 0)) by done. cbn [orb].
  rewrite clear_linked by (unfold pages_linked, nodes_in; by rewrite Hpg). cbn [mbind option_bind].
  unfold vfs_inode_source_kva. rewrite (ri_caps _ _ _ _ Hr).
  rewrite (proj2 (Z.eqb_neq (storage ino) 0)) by (rewrite (ri_storage _ _ _ _ Hr); unfold ramfs_ptr; lia).
  unfold storage_entry, ramfs_entry_at. rewrite (ri_storage _ _ _ _ Hr).
  unfold ramfs_ptr, ramfs_of_ptr. rewrite Z.add_simpl_r.
  rewrite (rt_get_view _ i r (fw_ok _ Hwf) (ri_entry _ _ _ _ Hr)). cbn [fmap option_fmap option_map mbind option_bind].
  rewrite (proj2 (Z.eqb_neq (r_data r) 0)) by done.
  destruct (fill_slice_spec e w ino i r b Hwf Hr Hb ltac:(lia) Hd) as (res & linked & -> & Hne2 & Hs & Hlk).
  cbn [mbind option_bind]. set (ent1 := PcEntry _ _ _ _ _ _ _ _ _).
  assert (∀ x, quiet w (put_entry w (Z.of_nat k) x)) as Hq by (intros; split; [by apply fs_eq_refl|done]).
  destruct res as [err|s].
  - rewrite link_pages_eq. eexists _, err. split_and!; [done|apply Hq|]. rewrite decide_False by congruence.
    split; [apply (put_inv (Some k)); [done|done|by right|]|].
    { intros _. exact (ci_uniq _ _ Hi k ent Hk Hv). }
    rewrite (proj2 (put_view w k _ (ci_ok _ _ Hi) Hlt)), list_lookup_insert_eq by done.
    eexists. split_and!; [done|done|]. by rewrite (Hlk err eq_refl Hcl).
  - rewrite link_pages_eq. set (ent2 := with_pages _ _ _).
    eexists _, _. split_and!; [done|apply Hq|]. rewrite decide_True by done.
    assert (cached_file (w_fs w) ent2 i r s) as Hc.
    { split; [done|exact (ri_entry _ _ _ _ Hr)|exact (ri_file _ _ _ _ Hr)| |done| |by apply (Hs s)]; cbn.
      - rewrite Hp. symmetry. exact (ri_path _ _ _ _ Hr).
      - split; [done|lia]. }
    split; [apply (put_inv (Some k)); [done|done|by right| | |]|].
    + intros _. exact (ci_uniq _ _ Hi k ent Hk Hv).
    + intros _. cbn [ent2 pe_caps with_pages with_slice ent1]. rewrite (ri_caps _ _ _ _ Hr). eauto.
    + exact (proj2 (Hs s eq_refl)).
    + rewrite (proj2 (put_view w k _ (ci_ok _ _ Hi) Hlt)), list_lookup_insert_eq by done. by eexists _, s.
Qed.

(** The entry of a file, filled if it was not there; [None] without memory. *)
Lemma ensure_inv e w ino i r : cache_inv None w → ram_inode (w_fs w) ino i r → fill_clean e (r_size r) →
  ∃ w' ref, vfs_pcache_ensure e w ino = Some (w', ref) ∧ cache_inv None w' ∧ quiet w w'
    ∧ match ref with
      | None => True
      | Some x => ∃ k ent s, x = Z.of_nat k ∧ pc_view w' !! k = Some ent ∧ cached_file (w_fs w') ent i r s
      end.
Proof.
  intros Hi Hr Hcl. unfold vfs_pcache_ensure.
  assert (quiet w w) as Hrefl by (split; [by apply fs_eq_refl, Hi|done]).
  destruct (is_dir ino || (ino_size ino =? 0) || (VFS_PCACHE_MAX_CACHED <? ino_size ino)) eqn:Eg;
    [by exists w, None|].
  apply orb_false_iff in Eg as [[_ Hne%Z.eqb_neq]%orb_false_iff _]. cbv zeta.
  destruct (find_inv e w (path_norm (ino_path ino)) Hi) as (w1 & ref & -> & Hi1 & Hq1 & Hf).
  pose proof (ram_inode_eq _ _ _ _ _ (proj1 Hq1) Hr) as Hr1.
  destruct ref as [x|].
  { destruct Hf as (k & ent & -> & Hk & Hv & Hp).
    destruct (found_file _ _ _ _ _ (ci_fs _ _ Hi1) Hr1 (ci_coh _ _ Hi1 k ent ltac:(done) Hk) Hv Hp) as [s Hc].
    exists w1, (Some (Z.of_nat k)). split_and!; [done..|]. by exists k, ent, s. }
  destruct (alloc_slot_inv e w1 (path_norm (ino_path ino)) Hi1 ltac:(by rewrite strncpy_norm)) as (w2 & ref & -> & Hq2 & Hf2).
  cbn [mbind option_bind]. pose proof (quiet_trans _ _ _ Hq1 Hq2) as Hq.
  destruct ref as [x|]; [|by exists w2, None].
  destruct Hf2 as (k & -> & Hi2 & Hk).
  pose proof (ram_inode_eq _ _ _ _ _ (proj1 Hq2) Hr1) as Hr2.
  destruct (fill_inode_inv e w2 k _ ino i r Hi2 Hk) as (w3 & err & -> & Hq3 & Hres);
    [done|apply strncpy_norm|done|done|done|done|].
  cbn [mbind option_bind]. pose proof (quiet_trans _ _ _ Hq Hq3) as Hq'.
  case_decide as He.
  - destruct Hres as (Hi3 & ent' & s & Hk3 & Hc). rewrite He. exists w3, (Some (Z.of_nat k)).
    split_and!; [done..|]. by exists k, ent', s.
  - destruct Hres as (Hi3 & ent' & Hk3 & Hs3 & Hl3).
    destruct (free_empty_inv w3 k ent' Hi3 Hk3 Hs3 Hl3) as (w4 & Hf4 & Hi4 & (Hq4 & _)).
    exists w4, None. split_and!; [|done|by eapply quiet_trans|done]. rewrite Hf4. by destruct err.
Qed.

Lemma cached_file_pages fs ent act inact i r s :
  cached_file fs ent i r s → cached_file fs (with_pages ent act inact) i r s.
Proof. intros [? ? ? ? ? ? ?]. by split. Qed.

Lemma touch_file_inv x w k : cache_inv x w → (k < length (pc_view w))%nat →
  cache_inv x (vfs_pcache_touch_file w (Z.of_nat k))
  ∧ w_fs (vfs_pcache_touch_file w (Z.of_nat k)) = w_fs w
  ∧ w_img (vfs_pcache_touch_file w (Z.of_nat k)) = w_img w
  ∧ pc_view (vfs_pcache_touch_file w (Z.of_nat k)) = pc_view w.
Proof.
  intros Hi Hk. unfold vfs_pcache_touch_file. destruct (vfs_pcache_at _ _) as [ent|]; [|done].
  destruct (pe_valid ent); [|done]. split; [|done].
  assert (cache_inv x (lru_del w (Z.of_nat k))) as Hi1 by by apply lru_del_inv.
  apply lists_inv; [done|]. intros j. rewrite !elem_of_app, list_elem_of_singleton. intros [[Hj| ->]|Hj].
  - apply (ci_lists _ _ Hi1), elem_of_app. by left.
  - by exists k.
  - apply (ci_lists _ _ Hi1), elem_of_app. by right.
Qed.

(** ** Reading *)

Definition read_bytes (fs : ramfs T) (r : ramfs_entry) (off len : Z) : list Z :=
  take (Z.to_nat len) (drop (Z.to_nat off) (file_bytes fs r)).

Lemma read_direct_spec w ino i r off len : fs_wf (w_fs w) → ram_inode (w_fs w) ino i r →
  0 ≤ off → 0 ≤ len →
  vfs_pcache_read_direct w ino off len
  = Some (Z.of_nat (length (read_bytes (w_fs w) r off len)), read_bytes (w_fs w) r off len).
Proof.
  intros Hwf Hr Hoff Hlen. unfold vfs_pcache_read_direct, read_bytes.
  pose proof (file_bytes_length _ _ _ Hwf (ri_entry _ _ _ _ Hr)) as Hfl.
  rewrite (ri_size _ _ _ _ Hr). destruct (Z.leb_spec (r_size r) off).
  { rewrite drop_ge by lia. by rewrite take_nil. }
  rewrite (ri_caps _ _ _ _ Hr). unfold vfs_inode_ramfs_storage. rewrite (ri_caps _ _ _ _ Hr), (ri_storage _ _ _ _ Hr).
  rewrite (proj2 (Z.eqb_neq (ramfs_ptr _) 0)) by (unfold ramfs_ptr; lia). cbn [negb orb].
  unfold ramfs_ptr, ramfs_of_ptr. rewrite Z.add_simpl_r.
  set (n := if r_size r - off <? len then r_size r - off else len).
  assert (n = Z.min len (r_size r - off)) as Hn.
  { unfold n. destruct (Z.ltb_spec (r_size r - off) len); lia. }
  rewrite (read_spec _ i r off n Hwf (ri_entry _ _ _ _ Hr) (ri_file _ _ _ _ Hr)) by lia.
  cbn [mbind option_bind].
  replace (take (Z.to_nat len) (drop (Z.to_nat off) (file_bytes (w_fs w) r)))
    with (take (Z.to_nat n) (drop (Z.to_nat off) (file_bytes (w_fs w) r))); [done|].
  destruct (decide (len ≤ r_size r - off)); [f_equal; lia|].
  rewrite !take_ge by (rewrite length_drop; lia). done.
Qed.

(** The bytes a copy from a cached file gives. *)
Lemma copy_cached fs ent i r s off len bytes : fs_wf fs → cached_file fs ent i r s →
  page_slice_copy_to_buffer s off len = (REND_SUCCESS, bytes) →
  0 ≤ off → 0 ≤ len → off + len ≤ r_size r → bytes = read_bytes fs r off len.
Proof.
  intros Hwf Hc Hcp Hoff Hlen Hsz. destruct (copy_bytes _ _ _ _ _ Hcp Hoff Hlen) as (_ & Hl & Hb).
  specialize (Hl eq_refl). pose proof (file_bytes_length _ _ _ Hwf (cf_entry _ _ _ _ _ Hc)) as Hfl.
  apply list_eq. intros k. unfold read_bytes. destruct (decide (k < length bytes)%nat) as [Hk|Hk].
  - rewrite <- Hb by done. rewrite lookup_take_lt, lookup_drop by lia.
    rewrite <- (sh_bytes _ _ (cf_holds _ _ _ _ _ Hc)) by lia. f_equal. lia.
  - rewrite lookup_ge_None_2 by lia. symmetry. apply lookup_ge_None_2.
    rewrite length_take. lia.
Qed.

Lemma read_inode_spec e w ino i r off len : cache_inv None w → ram_inode (w_fs w) ino i r →
  0 ≤ off → 0 ≤ len → fill_clean e (r_size r) →
  let bytes := read_bytes (w_fs w) r off len in
  ∃ w', vfs_page_cache_read_inode e w ino off len = Some (w', Z.of_nat (length bytes), bytes)
    ∧ cache_inv None w' ∧ quiet w w'.
Proof.
  intros Hi Hr Hoff Hlen Hcl. cbv zeta. pose proof (ci_fs _ _ Hi) as Hwf.
  pose proof (file_bytes_length _ _ _ Hwf (ri_entry _ _ _ _ Hr)) as Hfl.
  pose proof (ram_inode_ok _ _ _ _ Hwf Hr) as Ho. pose proof (eo_size _ _ Ho). pose proof (eo_cap _ _ Ho) as Hcap.
  unfold RAMFS_MAX_FILE_SIZE in Hcap.
  unfold vfs_page_cache_read_inode. rewrite (ri_dir _ _ _ _ Hr), (ri_size _ _ _ _ Hr).
  destruct (Z.leb_spec (r_size r) off).
  { exists w. unfold read_bytes. rewrite drop_ge, take_nil by lia.
    split_and!; [done|done|split; [by apply fs_eq_refl|done]]. }
  cbv zeta. set (n := if r_size r - off <? len then r_size r - off else len).
  assert (n = Z.min len (r_size r - off)) as Hn.
  { unfold n. destruct (Z.ltb_spec (r_size r - off) len); lia. }
  assert (∀ fs', fs_eq (w_fs w) fs' → read_bytes fs' r off n = read_bytes (w_fs w) r off len) as Hrb.
  { intros fs' Hq. unfold read_bytes. rewrite (fs_eq_bytes _ _ _ Hq).
    destruct (decide (len ≤ r_size r - off)); [f_equal; lia|].
    rewrite !take_ge by (rewrite length_drop; lia). done. }
  destruct (ensure_inv e w ino i r Hi Hr Hcl) as (w1 & ref & -> & Hi1 & Hq1 & Href). cbn [mbind option_bind].
  assert (∀ w', cache_inv None w' → quiet w w' →
    ∃ w'', ('(n0, bytes) ← vfs_pcache_read_direct w' ino off n; Some (w', n0, bytes))
      = Some (w'', Z.of_nat (length (read_bytes (w_fs w) r off len)), read_bytes (w_fs w) r off len)
      ∧ cache_inv None w'' ∧ quiet w w'') as Hdirect.
  { intros w' Hi' Hq'. exists w'. split; [|done].
    pose proof (ram_inode_eq _ _ _ _ _ (proj1 Hq') Hr) as Hr'.
    rewrite (read_direct_spec w' ino i r) by (exact Hr' || apply Hi' || lia).
    cbn [mbind option_bind]. by rewrite Hrb by apply Hq'. }
  destruct ref as [x|]; [|by apply Hdirect].
  destruct Href as (k & ent & s & -> & Hk & Hc). rewrite (view_at _ _ _ (ci_ok _ _ Hi1) Hk), (cf_slice _ _ _ _ _ Hc).
  destruct (touch_file_inv None w1 k Hi1 (view_lt _ _ _ Hk)) as (Hi2 & Hf2 & Him2 & Hv2).
  set (w2 := vfs_pcache_touch_file w1 (Z.of_nat k)) in *.
  destruct (cf_size _ _ _ _ _ Hc) as [-> _]. rewrite (uw_small 64) by lia.
  replace (if r_size r - off <? n then r_size r - off else n) with n
    by (destruct (Z.ltb_spec (r_size r - off) n); lia).
  set (ent' := vfs_pcache_touch_pages ent off n).
  assert (same_but_pages ent ent') as (act & inact & Ee).
  { unfold ent', vfs_pcache_touch_pages. rewrite (cf_slice _ _ _ _ _ Hc). destruct (n =? 0).
    - exists (pages_active ent), (pages_inactive ent). by destruct ent.
    - apply touch_pages_same. }
  assert (pages_linked ent') as Hpg.
  { pose proof (ci_pages _ _ Hi1 k ent ltac:(done) Hk) as Hpg. unfold pages_linked in *.
    rewrite Ee. cbn [pe_slice with_pages]. rewrite <- Ee. unfold ent', vfs_pcache_touch_pages.
    rewrite (cf_slice _ _ _ _ _ Hc) in *. destruct (n =? 0); [done|by apply touch_pages_nodes]. }
  assert (cache_inv None (put_entry w2 (Z.of_nat k) ent')) as Hi3.
  { rewrite Ee in *. apply (put_inv None); [done|rewrite Hv2; by eapply view_lt|by left|..].
    { rewrite <- Hv2 in Hk. exact (ci_uniq _ _ Hi2 k ent Hk). }
    2: exact Hpg.
    rewrite Hf2.
    pose proof (ci_coh _ _ Hi1 k ent ltac:(done) Hk) as Hco. intros Hv. specialize (Hco Hv).
    cbn [pe_caps with_pages]. destruct (has _ _); [|exact Hco].
    destruct Hco as (? & ? & ? & Hco). do 3 eexists. by apply cached_file_pages. }
  assert (quiet w (put_entry w2 (Z.of_nat k) ent')) as Hq3.
  { destruct Hq1 as [? ?]. split; cbn; [by rewrite Hf2|congruence]. }
  destruct (page_slice_copy_to_buffer s off n) as [err bytes] eqn:Ecp.
  destruct err; try by apply Hdirect.
  eexists. split_and!; [|exact Hi3|exact Hq3].
  rewrite (copy_cached _ _ _ _ _ _ _ _ (ci_fs _ _ Hi1) Hc Ecp) by lia.
  rewrite Hrb by apply Hq1. do 3 f_equal. rewrite iw_small by lia.
  rewrite <- (Hrb _ (fs_eq_refl _ Hwf)). unfold read_bytes. rewrite length_take, length_drop. lia.
Qed.

(** ** Overwriting *)

(** A write inside a file changes its buffer and nothing else. *)
Lemma overwrite_spec fs i r off buf : fs_wf fs → entries fs !! i = Some r → is_file r = true →
  0 ≤ off → buf ≠ [] → off + Z.of_nat (length buf) ≤ r_size r →
  ∃ b, rmem fs !! r_data r = Some b ∧ Z.of_nat (length b) = r_capacity r
    ∧ let fs' := RamFs (rtab fs) (<[r_data r := splice (Z.to_nat off) buf b]> (rmem fs)) in
      ramfs_write fs (Z.of_nat i) off buf = Some (fs', inr (Z.of_nat (length buf))) ∧ fs_wf fs'
      ∧ file_bytes fs' r = splice (Z.to_nat off) buf (file_bytes fs r)
      ∧ ∀ j r', entries fs !! j = Some r' → j ≠ i → r_data r' ≠ 0 → file_bytes fs' r' = file_bytes fs r'.
Proof.
  intros Hwf Hi Hf Hoff Hne Hend.
  assert (ent_ok (rmem fs) r) as Ho by by destruct (fw_ent fs Hwf i r Hi) as [->|].
  pose proof (eo_size _ _ Ho) as Hsz. pose proof (eo_cap _ _ Ho) as Hcap.
  assert (0 < Z.of_nat (length buf)) as Hbl by (destruct buf; [done|cbn; lia]).
  assert (r_data r ≠ 0) as Hd by (intros ?%(eo_null _ _ Ho); lia).
  destruct (eo_buf _ _ Ho Hd) as (b & Hb & Hl). exists b. split_and!; [done..|]. cbv zeta.
  unfold RAMFS_MAX_FILE_SIZE in Hcap.
  destruct (write_spec fs i r off buf Hwf Hi Hf ltac:(lia) ltac:(lia)) as (fs1 & res & Hw & Hwf1 & _).
  assert (ramfs_write fs (Z.of_nat i) off buf = Some
    (RamFs (rtab fs) (<[r_data r := splice (Z.to_nat off) buf b]> (rmem fs)), inr (Z.of_nat (length buf)))) as Hw'.
  { unfold ramfs_write, ramfs_grow, ramfs_entry_at. rewrite (rt_get_view _ i r (fw_ok _ Hwf) Hi), is_file_spec by done.
    rewrite (proj2 (Z.eqb_neq _ 0)) by lia. cbv zeta. rewrite (uw_small 64) by lia.
    unfold RAMFS_MAX_FILE_SIZE. rewrite (proj2 (Z.ltb_ge _ off)), (proj2 (Z.ltb_ge (256 * 1024) _)) by lia. cbn [orb].
    pose proof (is_file_spec r Hf) as [_ ->]%orb_false_iff.
    rewrite (proj2 (Z.leb_le _ (r_capacity r))) by lia.
    rewrite (rt_get_view _ i r (fw_ok _ Hwf) Hi). cbn [default from_option id].
    rewrite (mem_store_ok _ _ b) by (done || lia). rewrite (proj2 (Z.ltb_ge (r_size r) _)) by lia. done. }
  rewrite Hw' in Hw. injection Hw as <- <-. split_and!; [done|done|..].
  - unfold file_bytes. cbn [rmem]. rewrite lookup_insert_eq, Hb. cbn [default from_option id].
    apply list_eq. intros k. destruct (decide (k < Z.to_nat (r_size r))%nat).
    + rewrite lookup_take_lt, !splice_lookup, lookup_take_lt by (rewrite ?length_take; lia).
      by case_decide.
    + rewrite !lookup_ge_None_2; [done|..]; rewrite ?splice_length, ?length_take, ?splice_length; try lia.
      rewrite length_take. lia.
  - intros j r' Hj Hji Hd'. unfold file_bytes. cbn [rmem]. rewrite lookup_insert_ne; [done|].
    intros E. apply Hji. symmetry. by apply (fw_bufs fs Hwf i j r r').
Qed.

Lemma find_set_fs e w path fs :
  w_fs (vfs_pcache_find e w path).1 = w_fs w
  ∧ vfs_pcache_find e (set_fs w fs) path
    = (set_fs (vfs_pcache_find e w path).1 fs, (vfs_pcache_find e w path).2).
Proof.
  unfold vfs_pcache_find, vfs_pcache_tab_ensure. cbn.
  destruct (pc_ready (w_pc w)); [done|]. by destruct (rt_init (ce_tab e) 8) as [[] t].
Qed.

(** A change of one file keeps every entry that is not about it coherent. *)
Lemma other_file_inv w fs i r x : cache_inv None w → fs_wf fs → entries fs = entries (w_fs w) →
  entries (w_fs w) !! i = Some r →
  (∀ j r', entries (w_fs w) !! j = Some r' → j ≠ i → r_data r' ≠ 0 → file_bytes fs r' = file_bytes (w_fs w) r') →
  (∀ k ent, Some k ≠ x → pc_view w !! k = Some ent → pe_valid ent = true → pe_path ent ≠ r_path r) →
  cache_inv x (set_fs w fs).
Proof.
  intros Hi Hwf He Hr Hoth Hx. pose proof Hi as [Hwf0 ? Hc Hpg ? ? ?]. split; try done; cbn;
    [|intros k ent _; by apply Hpg].
  intros k ent Hk Hv Hva. specialize (Hc k ent ltac:(done) Hv Hva). destruct (has _ _).
  - destruct Hc as (j & r' & s & Hf). exists j, r', s.
    destruct (cached_file_buffer _ _ _ _ _ Hwf0 Hf) as (_ & Hd & _).
    destruct Hf as [? Hj ? Hp ? ? Hh]. split; try done; [by rewrite He|].
    rewrite (Hoth j r'); [done|done| |done]. intros ->. rewrite Hr in Hj. injection Hj as ->.
    by apply (Hx k ent).
  - intros j r' Hj. cbn in Hj. change (rt_view (rtab fs)) with (entries fs) in Hj. rewrite He in Hj. by eapply Hc.
Qed.

Lemma write_entry_spec x w k ent s d off buf : cache_inv x w → x = None ∨ x = Some k →
  pc_view w !! k = Some ent → pages_linked ent → pe_valid ent = true →
  pe_slice ent = Some s → slice_holds s d → pe_size ent = Z.of_nat (length d) →
  0 ≤ off → buf ≠ [] → off + Z.of_nat (length buf) ≤ Z.of_nat (length d) → Z.of_nat (length d) < 2 ^ 62 →
  ∃ w' ent' s', (vfs_pcache_write_entry w (Z.of_nat k) off buf).1 = w'
    ∧ w_fs w' = w_fs w ∧ w_img w' = w_img w ∧ pc_view w' !! k = Some ent' ∧ pe_dirty ent' = true
    ∧ (∃ act inact, ent' = with_dirty (with_slice (with_pages ent act inact) (Some s')) true)
    ∧ slice_holds s' (splice (Z.to_nat off) buf d)
    ∧ cache_inv (Some k) w' ∧ (coherent (w_fs w) ent' → cache_inv None w').
Proof.
  intros Hi Hx Hk Hpg Hva Hsl Hh Hsz Hoff Hne Hend H62.
  assert (0 < Z.of_nat (length buf)) as Hbl by (destruct buf; [done|cbn; lia]).
  unfold vfs_pcache_write_entry. rewrite (view_at _ _ _ (ci_ok _ _ Hi) Hk), Hsl.
  rewrite (proj2 (Z.eqb_neq _ 0)) by lia.
  rewrite (proj2 (Z.leb_gt (pe_size ent) off)) by lia. rewrite (uw_small 64) by lia.
  rewrite (proj2 (Z.ltb_ge (pe_size ent) _)) by lia.
  destruct (write_pages_spec (page_fuel (Z.of_nat (length buf))) ent s (Z.to_nat off) buf d
    (Z.of_nat (length buf)) 0) as (ent1 & s' & Hw & Hh' & (act & inact & ->) & Hn); try lia.
  { change (take (Z.to_nat 0) buf) with (@nil Z). unfold splice. cbn [length app].
    by rewrite Nat.add_0_r, take_drop. }
  { apply steps_enough. lia. }
  rewrite Z2Nat.id in Hw by lia. rewrite Hw. cbn [fst].
  destruct (touch_file_inv x w k Hi (view_lt _ _ _ Hk)) as (Hi1 & Hf1 & Him1 & Hv1).
  set (w1 := vfs_pcache_touch_file w (Z.of_nat k)) in *.
  set (ent2 := with_dirty _ _). assert (k < length (pc_view w1))%nat as Hk1 by (rewrite Hv1; by eapply view_lt).
  rewrite <- Hv1 in Hk.
  destruct (put_inv x w1 k ent2 Hi1 Hk1 Hx) as [Hp1 Hp2]; [intros _; exact (ci_uniq _ _ Hi1 k ent Hk Hva)|].
  destruct (put_view w1 k ent2 (ci_ok _ _ Hi1) Hk1) as [_ Hv2].
  eexists _, ent2, s'. split_and!; [done|done|done| |done|by exists act, inact| |done|].
  - by rewrite Hv2, list_lookup_insert_eq.
  - by rewrite Nat2Z.id, take_ge in Hh' by lia.
  - rewrite <- Hf1. intros Hco. apply Hp2; [done|]. apply Hn. unfold pages_linked in Hpg. by rewrite Hsl in Hpg.
Qed.
End cache.
