(* ===== verification/CacheProps.v ===== *)
(** * What the ramfs service promises with its page cache

    Reads and overwrites through the service give what the file system gives
    without a cache, for every sequence of requests, as long as no fill of the
    cache fails after its first page (such a fill ends in a use after free); a
    write that extends a file is taken back when the cached copy
    is dirty; the block device is an array of bytes. *)

From Stdlib Require Import Ascii.
From stdpp Require Import base numbers strings gmap option list.
From S2P Require Import Prelude PageSlice SliceTable VfsPath VfsInode VfsHandle DirNames Cpio Mount Namespace PortNames VfsOpen VfsCoop KHeap RamFs RamFsSpec RamFsThm PageCache BackendSvc PageCacheThm.

(** ** Requests to an open file *)

Inductive io_cmd : Type :=
  | IoRead (e : cache_env) (ino : vfs_inode) (off len : Z)
  | IoWrite (e : cache_env) (ino : vfs_inode) (off : Z) (buf : list Z).

Definition io_req (op : vfs_backend_op) (off len : Z) (wbuf : list Z) : vfs_backend_req :=
  BackendReq (Some VFS_BACKEND_PORT_RAMFS) op None None (Some (InoHandle 0)) off len wbuf 0 0 0 0.

Section service.
Context {T TN TE TB : Type} `{SCL : StrcmpSLaws} `{PSL : PageSliceLaws cpage}
        `{SLC : !SliceCopy} {SLL : SliceCopyLaws}
        `{RT : RecordTable ramfs_entry T} {RTL : RecordTableLaws ramfs_entry T}
        `{RTN : RecordTable cstr TN} `{RTB : RecordTable vfs_backend_entry TB}
        `{RTE : RecordTable vfs_pcache_entry TE} {RTEL : RecordTableLaws vfs_pcache_entry TE}
        `{AL : AllocatorLaws}.
Abbreviation world := (cache_world T TE).
Implicit Types (w : world) (e : cache_env) (fs : ramfs T) (bs : backend_state TB).

(** One request through the service: the result and the bytes delivered. *)
Definition run_cached bs w (c : io_cmd) : option (world * (Z * list Z)) :=
  let answer e ino req :=
    r ← vfs_backend_ramfs_service (TN := TN) e bs w req (Some ino);
    Some (r.1, (rp_result r.2, rp_bytes r.2)) in
  match c with
  | IoRead e ino off len => answer e ino (io_req VFS_BACKEND_OP_READ off len [])
  | IoWrite e ino off buf =>
      answer e ino (io_req VFS_BACKEND_OP_WRITE off (Z.of_nat (length buf)) buf)
  end.

(** The same request on the file system itself. *)
Definition run_direct fs (c : io_cmd) : option (ramfs T * (Z * list Z)) :=
  match c with
  | IoRead _ ino off len =>
      r ← ramfs_read fs (ramfs_of_ptr (storage ino)) off len;
      match r with inr nb => Some (fs, nb) | inl _ => None end
  | IoWrite _ ino off buf =>
      r ← ramfs_write fs (ramfs_of_ptr (storage ino)) off buf;
      match r with (fs', inr n) => Some (fs', (n, [])) | (_, inl _) => None end
  end.

Fixpoint run_all {S} (f : S → io_cmd → option (S * (Z * list Z))) (s : S) (cs : list io_cmd)
  : option (S * list (Z * list Z)) :=
  match cs with
  | [] => Some (s, [])
  | c :: cs' => '(s1, a) ← f s c; '(s2, l) ← run_all f s1 cs'; Some (s2, a :: l)
  end.



Lemma storage_not_null fs ino i r : ram_inode fs ino i r →
  (storage ino =? 0) = false ∧ ramfs_of_ptr (storage ino) = Z.of_nat i.
Proof.
  intros Hr. rewrite (ri_storage _ _ _ _ Hr). unfold ramfs_ptr, ramfs_of_ptr.
  split; [apply Z.eqb_neq|]; lia.
Qed.

Lemma read_step bs w e ino off len i r : cache_inv None w → ram_inode (w_fs w) ino i r → 0 ≤ off → 0 ≤ len →
  fill_clean e (r_size r) →
  ∃ w' a, run_cached bs w (IoRead e ino off len) = Some (w', a)
    ∧ run_direct (w_fs w) (IoRead e ino off len) = Some (w_fs w, a)
    ∧ cache_inv None w' ∧ fs_eq (w_fs w) (w_fs w').
Proof.
  intros Hi Hr Hoff Hlen Hcl. destruct (storage_not_null _ _ _ _ Hr) as [Hs Hp].
  cbn [run_cached run_direct vfs_backend_ramfs_service rq_op io_req].
  unfold vfs_backend_ramfs_read. rewrite Hs, (ri_dir _ _ _ _ Hr), Hp.
  destruct (read_inode_spec e w ino i r off len Hi Hr Hoff Hlen Hcl) as (w' & Hrd & Hi' & Hq).
  cbn [rq_offset rq_len io_req]. rewrite Hrd. cbn [mbind option_bind fst snd rp_result rp_bytes reply_bytes].
  eexists _, _. split; [done|].
  rewrite (read_spec _ i r off len (ci_fs _ _ Hi) (ri_entry _ _ _ _ Hr) (ri_file _ _ _ _ Hr)) by done.
  split_and!; [done|done|apply Hq].
Qed.

(** The cached copy follows an overwrite. *)
Lemma sync_write_inv w fs e ino i r off buf : cache_inv None w → ram_inode (w_fs w) ino i r →
  fs_wf fs → entries fs = entries (w_fs w) →
  (∀ j r', entries (w_fs w) !! j = Some r' → j ≠ i → r_data r' ≠ 0 → file_bytes fs r' = file_bytes (w_fs w) r') →
  file_bytes fs r = splice (Z.to_nat off) buf (file_bytes (w_fs w) r) →
  0 ≤ off → buf ≠ [] → off + Z.of_nat (length buf) ≤ r_size r →
  cache_inv None (vfs_page_cache_sync_write e (set_fs w fs) ino off buf)
  ∧ w_fs (vfs_page_cache_sync_write e (set_fs w fs) ino off buf) = fs.
Proof.
  intros Hi Hr Hwf He Hoth Hfb Hoff Hne Hend. unfold vfs_page_cache_sync_write.
  rewrite (proj2 (Z.eqb_neq _ 0)) by (destruct buf; [done|cbn; lia]).
  destruct (find_set_fs e w (path_norm (ino_path ino)) fs) as [Hsame ->].
  destruct (find_inv e w (path_norm (ino_path ino)) Hi) as (w1 & ref & Hf & Hi1 & _ & Href).
  rewrite Hf in *. cbn [fst snd] in *. rewrite <- Hsame in *.
  pose proof (ram_inode_ok _ _ _ _ (ci_fs _ _ Hi1) Hr) as Ho. pose proof (eo_cap _ _ Ho) as Hcap.
  pose proof (eo_size _ _ Ho) as Hsz. unfold RAMFS_MAX_FILE_SIZE in Hcap.
  pose proof (file_bytes_length _ _ _ (ci_fs _ _ Hi1) (ri_entry _ _ _ _ Hr)) as Hfl.
  destruct ref as [x|].
  - destruct Href as (k & ent & -> & Hk & Hv & Hp).
    destruct (found_file _ _ _ _ _ (ci_fs _ _ Hi1) Hr (ci_coh _ _ Hi1 k ent ltac:(done) Hk) Hv Hp) as [s Hc].
    assert (cache_inv (Some k) (set_fs w1 fs)) as Hi2.
    { apply (other_file_inv w1 fs i r); [done|done|done|apply Hr|done|].
      intros j ent' Hj Hj' Hv' E. apply (ci_uniq _ _ Hi1 k ent Hk Hv j ent'); [congruence|done|done|].
      by rewrite E, <- (cf_path _ _ _ _ _ Hc). }
    assert (vfs_pcache_at (set_fs w1 fs) (Z.of_nat k) = Some ent) as -> by (by apply (view_at w1); [apply Hi1|]).
    cbn [mbind option_bind]. rewrite (cf_slice _ _ _ _ _ Hc).
    destruct (write_entry_spec (Some k) (set_fs w1 fs) k ent s (file_bytes (w_fs w1) r) off buf Hi2)
      as (w2 & ent' & s' & -> & Hw2 & _ & Hk2 & _ & (act & inact & ->) & Hh & _ & Hi3);
      [by right|done|by apply (ci_pages _ _ Hi1 k)|done|apply Hc|apply Hc|destruct (cf_size _ _ _ _ _ Hc); lia|done|done|lia|lia|].
    split; [|done]. apply Hi3. intros _. cbn.
    pose proof (ci_coh _ _ Hi1 k ent ltac:(done) Hk Hv) as Hco.
    destruct (has (pe_caps ent) VFS_BACKEND_CAP_WRITE_SOURCE).
    + exists i, r, s'. destruct Hc as [? Hc2 ? ? ? ? ?]. split; try done; cbn.
      * change (rt_view (rtab fs)) with (entries fs). by rewrite He.
      * by rewrite Hfb.
    + exfalso. apply (Hco i r (ri_entry _ _ _ _ Hr) (eo_alive _ _ Ho)). by rewrite <- (cf_path _ _ _ _ _ Hc).
  - split; [|done]. apply (other_file_inv w1 fs i r); [done|done|done|apply Hr|done|].
    intros k ent _ Hk Hv E. apply (Href k ent Hk Hv). rewrite E. by rewrite (ri_path _ _ _ _ Hr).
Qed.

Lemma write_step bs w e ino off buf i r : cache_inv None w → ram_inode (w_fs w) ino i r → 0 ≤ off →
  off + Z.of_nat (length buf) ≤ r_size r →
  ∃ w' fs' a, run_cached bs w (IoWrite e ino off buf) = Some (w', a)
    ∧ run_direct (w_fs w) (IoWrite e ino off buf) = Some (fs', a)
    ∧ cache_inv None w' ∧ w_fs w' = fs' ∧ entries fs' = entries (w_fs w).
Proof.
  intros Hi Hr Hoff Hend. destruct (storage_not_null _ _ _ _ Hr) as [Hs Hp]. pose proof (ci_fs _ _ Hi) as Hwf.
  cbn [run_cached run_direct vfs_backend_ramfs_service rq_op io_req].
  unfold vfs_backend_ramfs_write. rewrite Hs, (ri_dir _ _ _ _ Hr), Hp.
  cbn [rq_offset rq_len rq_wbuf io_req]. rewrite Nat2Z.id, take_ge by done.
  destruct (decide (buf = [])) as [->|Hne].
  - assert (ramfs_write (w_fs w) (Z.of_nat i) off [] = Some (w_fs w, inr 0)) as Hw.
    { unfold ramfs_write, ramfs_entry_at.
      by rewrite (rt_get_view _ i r (fw_ok _ Hwf) (ri_entry _ _ _ _ Hr)), is_file_spec by apply Hr. }
    rewrite Hw. cbn [mbind option_bind]. unfold ramfs_entry_at.
    rewrite (rt_get_view _ i r (fw_ok _ Hwf) (ri_entry _ _ _ _ Hr)). cbn [from_option with_ino_size ino_size].
    rewrite (ri_size _ _ _ _ Hr), Z.ltb_irrefl. cbn.
    eexists _, _, _. split_and!; [done|done| |done|done]. by destruct w.
  - destruct (overwrite_spec _ i r off buf Hwf (ri_entry _ _ _ _ Hr) (ri_file _ _ _ _ Hr) Hoff Hne Hend)
      as (b & Hb & Hbl & Hw & Hwf' & Hfb & Hoth).
    set (fs' := RamFs _ _) in *. rewrite Hw. cbn [mbind option_bind]. unfold ramfs_entry_at.
    rewrite (rt_get_view _ i r (fw_ok _ Hwf') (ri_entry _ _ _ _ Hr)). cbn [from_option].
    replace (with_ino_size ino (r_size r)) with ino by (rewrite <- (ri_size _ _ _ _ Hr); by destruct ino).
    rewrite Z.ltb_irrefl, (proj2 (Z.ltb_lt 0 _)) by (destruct buf; [done|cbn; lia]).
    rewrite Nat2Z.id, take_ge by done. cbn [mbind option_bind].
    destruct (sync_write_inv w fs' e ino i r off buf Hi Hr Hwf') as [Hi' Hf']; try done.
    eexists _, fs', _. split_and!; [done|done|done|done|done].
Qed.



(** ** Extending a file *)

(** The entry after a write past the end of the file. *)
Lemma extend_spec fs i r off buf fs1 n : fs_wf fs → entries fs !! i = Some r → is_file r = true →
  0 ≤ off → off + Z.of_nat (length buf) < 2 ^ 64 → r_size r < off + Z.of_nat (length buf) → buf ≠ [] →
  ramfs_write fs (Z.of_nat i) off buf = Some (fs1, inr n) →
  fs_wf fs1 ∧ n = Z.of_nat (length buf)
  ∧ ∃ r1, entries fs1 !! i = Some r1 ∧ r_size r1 = off + Z.of_nat (length buf).
Proof.
  intros Hwf Hi Hf Hoff H64 Hlt Hne Hw.
  destruct (write_spec fs i r off buf Hwf Hi Hf ltac:(lia) ltac:(lia))
    as (fs' & res & Hw' & Hwf' & (r1 & Hi1 & Hsf) & Hres).
  rewrite Hw in Hw'. injection Hw' as <- <-. destruct Hres as (-> & _ & Hres).
  destruct (Hres Hne) as (_ & gap & Hgap & Hl). split_and!; [done|done|]. exists r1. split; [done|].
  destruct (same_file_is _ _ Hsf) as [Hf1 Hc1]. rewrite Hf in Hf1.
  specialize (Hl (ent_comps r)). rewrite decide_True in Hl by done.
  apply fs_lookup_Some in Hl as (j & r2 & Hj & Ha & Hc2 & Hn); [|done].
  apply andb_true_iff in Hf1 as [Ha1 Hd1].
  assert (j = i) as -> by (eapply (fw_names fs1 Hwf' j i r2 r1); try done; by rewrite Hc2, Hc1).
  rewrite Hi1 in Hj. injection Hj as <-. unfold node_of in Hn. apply negb_true_iff in Hd1. rewrite Hd1 in Hn.
  injection Hn as _ Hn. pose proof (file_bytes_length fs1 i r1 Hwf' Hi1) as Hfl.
  pose proof (file_bytes_length fs i r Hwf Hi) as Hfl0.
  unfold file_bytes in Hfl at 1. rewrite Hn in Hfl. rewrite <- Hfl. unfold write_at.
  rewrite !length_app, length_take, length_drop, Hgap. lia.
Qed.

(** The entry a lookup of the name of a cached file finds. *)
Lemma find_cached w e ino i r k ent s : cache_inv None w → ram_inode (w_fs w) ino i r →
  pc_view w !! k = Some ent → pe_valid ent = true → cached_file (w_fs w) ent i r s →
  vfs_pcache_find e w (path_norm (ino_path ino)) = (w, Some (Z.of_nat k)).
Proof.
  intros Hi Hr Hk Hv Hc. destruct (find_inv e w (path_norm (ino_path ino)) Hi) as (w1 & ref & Hf & _ & _ & Href).
  assert (w1 = w) as ->.
  { unfold vfs_pcache_find, vfs_pcache_tab_ensure in Hf.
    destruct (pc_ready (w_pc w)) eqn:Er; [by injection Hf as <- _|].
    by rewrite (ci_ready _ _ Hi Er) in Hk. }
  assert (pe_path ent = path_norm (ino_path ino)) as Hp.
  { rewrite (ri_path _ _ _ _ Hr). symmetry. exact (cf_path _ _ _ _ _ Hc). }
  rewrite Hf. destruct ref as [x|].
  - destruct Href as (k' & ent' & -> & Hk' & Hv' & Hp'). do 3 f_equal.
    destruct (decide (k' = k)) as [->|Hne]; [done|]. exfalso.
    apply (ci_uniq _ _ Hi k ent Hk Hv k' ent' Hne Hk' Hv'). by rewrite Hp'; rewrite Hp.
  - exfalso. apply (Href k ent Hk Hv). by rewrite Hp.
Qed.

Lemma flush_dirty w fs1 k ent i r r1 s : rt_ok (pc_tab (w_pc w)) → fs_wf (w_fs w) → fs_wf fs1 →
  pc_view w !! k = Some ent → pages_linked ent → pe_valid ent = true → pe_dirty ent = true →
  has (pe_caps ent) VFS_BACKEND_CAP_WRITE_SOURCE = true →
  has (pe_caps ent) VFS_BACKEND_CAP_FLUSH_DROP = false →
  cached_file (w_fs w) ent i r s → entries fs1 !! i = Some r1 → r_size r ≤ r_size r1 →
  ∃ w', vfs_pcache_free_entry (set_fs w fs1) (Z.of_nat k) = Some w'
    ∧ entries (w_fs w') !! i = Some (with_size r1 (r_size r)).
Proof.
  intros Hok Hwf Hwf1 Hk Hpg Hv Hd Hws Hfd Hc Hi1 Hle.
  destruct (cf_size _ _ _ _ _ Hc) as [Hsz Hpos].
  pose proof (file_bytes_length _ _ _ Hwf (cf_entry _ _ _ _ _ Hc)) as Hfl.
  unfold vfs_pcache_free_entry, vfs_pcache_flush_entry.
  assert (vfs_pcache_at (set_fs w fs1) (Z.of_nat k) = Some ent) as Hat by by apply (view_at w).
  rewrite Hat, (cf_slice _ _ _ _ _ Hc), Hv, Hd, Hws, Hfd. cbn [negb orb].
  rewrite (cf_storage _ _ _ _ _ Hc). unfold storage_entry, ramfs_ptr, ramfs_of_ptr, ramfs_entry_at.
  rewrite Z.add_simpl_r. rewrite (proj2 (Z.eqb_neq (Z.of_nat i + 1) 0)) by lia. cbn [w_fs set_fs].
  rewrite (rt_get_view _ i r1 (fw_ok _ Hwf1) Hi1). cbn [mbind option_bind].
  destruct (fw_ent fs1 Hwf1 i r1 Hi1) as [->|Ho1]; [cbn in Hle; lia|].
  pose proof (eo_size _ _ Ho1). assert (r_data r1 ≠ 0) as Hd1 by (intros ?%(eo_null _ _ Ho1); lia).
  destruct (eo_buf _ _ Ho1 Hd1) as (b & Hb & Hbl). rewrite (proj2 (Z.eqb_neq _ _) Hd1).
  destruct (page_slice_copy_to_buffer s 0 (pe_size ent)) as [err bytes] eqn:Ecp.
  assert (err = REND_SUCCESS) as ->.
  { pose proof (copy_succeeds s 0 (pe_size ent)) as Hs. rewrite Ecp in Hs. apply Hs; try lia.
    - rewrite (sh_size _ _ (cf_holds _ _ _ _ _ Hc)). lia.
    - intros j Hj. rewrite <- (Z2Nat.id j) by lia. rewrite (sh_bytes _ _ (cf_holds _ _ _ _ _ Hc)) by lia.
      apply lookup_lt_is_Some_2. lia. }
  destruct (copy_bytes _ _ _ _ _ Ecp) as (Hble & _); [lia|lia|].
  rewrite (mem_store_ok _ _ b) by (done || lia). cbn [mbind option_bind fst].
  destruct (rt_set_ok (rtab fs1) i (with_size r1 (pe_size ent)) (fw_ok _ Hwf1)) as [_ Hv1];
    [by eapply lookup_lt_Some|].
  unfold vfs_pcache_destroy_entry. set (ws := set_fs (put_entry _ _ _) _).
  assert (vfs_pcache_at ws (Z.of_nat k) = Some (with_dirty ent false)) as ->.
  { destruct (put_view w k (with_dirty ent false) Hok (view_lt _ _ _ Hk)) as [Hok' Hv'].
    apply (view_at (put_entry w (Z.of_nat k) (with_dirty ent false))); [done|].
    by rewrite Hv', list_lookup_insert_eq by (by eapply view_lt). }
  rewrite clear_linked by exact Hpg. cbn [mbind option_bind]. eexists. split; [done|].
  unfold entries, ws; cbn [w_fs set_fs put_entry lru_del set_lists set_pc set_pc_tab rtab];
    rewrite Hv1, Hsz; by apply list_lookup_insert_eq, (lookup_lt_Some _ _ r1).
Qed.

(** An append to a file whose cached copy is dirty is lost.  After an
    overwrite has made the cached pages of a file dirty, a write that extends
    the file succeeds and reports the new size to the VFS server, but dropping
    the pages then copies them back together with the old size: in the file
    system the file is as long as before. *)
Theorem dirty_append_lost bs w e ino i r k ent s off buf fs1 n :
  cache_inv None w → ram_inode (w_fs w) ino i r →
  pc_view w !! k = Some ent → pe_valid ent = true → cached_file (w_fs w) ent i r s →
  pe_dirty ent = true → has (pe_caps ent) VFS_BACKEND_CAP_WRITE_SOURCE = true →
  has (pe_caps ent) VFS_BACKEND_CAP_FLUSH_DROP = false →
  0 ≤ off → r_size r < off + Z.of_nat (length buf) < 2 ^ 64 → buf ≠ [] →
  ramfs_write (w_fs w) (Z.of_nat i) off buf = Some (fs1, inr n) →
  ∃ w' reply r', vfs_backend_ramfs_service (TN := TN) e bs w
      (io_req VFS_BACKEND_OP_WRITE off (Z.of_nat (length buf)) buf) (Some ino) = Some (w', reply)
    ∧ rp_result reply = Z.of_nat (length buf)
    ∧ ino_size (rp_ino reply) = off + Z.of_nat (length buf)
    ∧ entries (w_fs w') !! i = Some r' ∧ r_size r' = r_size r.
Proof.
  intros Hi Hr Hk Hv Hc Hd Hws Hfd Hoff Hlt Hne Hw. pose proof (ci_fs _ _ Hi) as Hwf.
  destruct (storage_not_null _ _ _ _ Hr) as [Hs Hp].
  destruct (extend_spec _ i r off buf fs1 n Hwf (ri_entry _ _ _ _ Hr) (ri_file _ _ _ _ Hr) Hoff
    ltac:(lia) ltac:(lia) Hne Hw) as (Hwf1 & -> & r1 & Hi1 & Hsz1).
  destruct (flush_dirty w fs1 k ent i r r1 s (ci_ok _ _ Hi) Hwf Hwf1 Hk
    (ci_pages _ _ Hi k ent ltac:(done) Hk) Hv Hd Hws Hfd Hc Hi1 ltac:(lia))
    as (w' & Hfree & Hfin).
  cbn [vfs_backend_ramfs_service rq_op io_req].
  unfold vfs_backend_ramfs_write. rewrite Hs, (ri_dir _ _ _ _ Hr), Hp.
  cbn [rq_offset rq_len rq_wbuf io_req]. rewrite Nat2Z.id, take_ge, Hw by done. cbn [mbind option_bind].
  unfold ramfs_entry_at. rewrite (rt_get_view _ i r1 (fw_ok _ Hwf1) Hi1). cbn [from_option with_ino_size ino_size ino_path].
  rewrite (ri_size _ _ _ _ Hr), Hsz1, (proj2 (Z.ltb_lt _ _)) by lia.
  unfold vfs_page_cache_drop. destruct (find_set_fs e w (path_norm (ino_path ino)) fs1) as [_ ->].
  rewrite (find_cached w e ino i r k ent s Hi Hr Hk Hv Hc). cbn [fst snd]. rewrite Hfree.
  cbn [mbind option_bind]. eexists w', _, _. split_and!; [done|done|done|exact Hfin|done].
Qed.
(** When every cached file has been used, the next file to leave the cache is
    the one that was used last. *)
Lemma last_used_is_victim w k ent : pc_view w !! k = Some ent → rt_ok (pc_tab (w_pc w)) →
  pe_valid ent = true → list_del (Z.of_nat k) (vfs_pcache_inactive (w_pc w)) = [] →
  snd <$> evict_victim (vfs_pcache_touch_file w (Z.of_nat k)) = Some (Z.of_nat k).
Proof.
  intros Hk Hok Hv Hin. unfold vfs_pcache_touch_file, vfs_pcache_at.
  rewrite (rt_get_view _ k ent Hok Hk), Hv. unfold evict_victim.
  cbn [w_pc set_lists set_pc lru_del vfs_pcache_active vfs_pcache_inactive]. by rewrite Hin, last_snoc.
Qed.
End service.

(** ** The block device *)

Section blkdev.
Context `{PSL : PageSliceLaws cpage}.
Implicit Types (e : cache_env) (d : list Z) (req : vfs_backend_req).

(** The number of bytes. *)
Definition blk_size : nat := Z.to_nat VFS_BLKDEV_PSEUDO_SIZE.
Lemma blk_size_eq : Z.of_nat blk_size = 65536.
Proof. apply Z2Nat.id. done. Qed.
#[local] Opaque blk_size.

(** The device: its pages, or nothing before the first access. *)
Definition blk_holds (dev : option page_slice) d : Prop :=
  length d = blk_size
  ∧ match dev with Some s => slice_holds s d | None => d = replicate blk_size 0 end.

(** The abstract device: an array of bytes. *)
Definition blk_len (off len : Z) : Z := if 65536 <=? off then 0 else Z.min len (65536 - off).
Definition blk_read d (off len : Z) : list Z := take (Z.to_nat len) (drop (Z.to_nat off) d).
Definition blk_write d (off len : Z) (buf : list Z) : list Z :=
  if 65536 <=? off then d else splice (Z.to_nat off) (take (Z.to_nat (blk_len off len)) buf) d.

Lemma blk_read_loop fuel : ∀ s d (o : nat) len done,
  slice_holds s d → 0 ≤ done ≤ len → Z.of_nat o + len ≤ Z.of_nat (length d) →
  steps_left fuel (Z.of_nat o) len done →
  blkdev_loop fuel s (Z.of_nat o) len done None (take (Z.to_nat done) (drop o d))
  = (s, take (Z.to_nat len) (drop o d), Some len).
Proof.
  induction fuel as [|fuel IH]; intros s d o len done Hs Hd Hl Hst.
  { assert (done = len) as ->; [|done].
    destruct Hst; [done|]. pose proof (Z.mod_pos_bound (Z.of_nat o + done) 4096). lia. }
  cbn [blkdev_loop]. destruct (Z.ltb_spec done len) as [Hlt|Hge]; [|by assert (done = len) as -> by lia].
  destruct (steps_next fuel (Z.of_nat o) len done Hst) as (Hc & Hcl & Hst'); [lia|lia|].
  change (PAGE_SLICE_BYTE_TO_PGOFF ?x) with (x `div` 4096).
  change (PAGE_SLICE_IN_PAGE_OFF ?x) with (x `mod` 4096). change PAGE_SIZE with 4096.
  set (chunk := Z.min (4096 - (Z.of_nat o + done) `mod` 4096) (len - done)) in *.
  destruct (slice_holds_page _ _ (o + Z.to_nat done) Hs) as (c & Hpg & Hpl & _); [lia|].
  replace (Z.of_nat (o + Z.to_nat done)) with (Z.of_nat o + done) in Hpg by lia. rewrite Hpg.
  rewrite <- (IH s d o len (done + chunk)) by (done || lia). f_equal.
  replace (Z.to_nat (done + chunk)) with (Z.to_nat done + Z.to_nat chunk)%nat by lia.
  rewrite <- take_take_drop. f_equal. rewrite drop_drop.
  pose proof (Z.mod_pos_bound (Z.of_nat o + done) 4096 ltac:(lia)) as Hqb.
  pose proof (Z.div_mod (Z.of_nat o + done) 4096 ltac:(lia)) as Hdm.
  apply list_eq. intros k. destruct (decide (k < Z.to_nat chunk)%nat) as [Hk|Hk].
  2: { rewrite !lookup_ge_None_2; [done|..]; rewrite length_take; lia. }
  rewrite !lookup_take_lt, !lookup_drop by lia.
  destruct (slice_holds_page _ _ (o + Z.to_nat done + k) Hs) as (c' & Hpg' & _ & Hb); [lia|].
  assert (Z.of_nat (o + Z.to_nat done + k) `div` 4096 = (Z.of_nat o + done) `div` 4096
    ∧ Z.of_nat (o + Z.to_nat done + k) `mod` 4096 = (Z.of_nat o + done) `mod` 4096 + Z.of_nat k) as [E1 E2].
  { split; symmetry;
      [apply (Z.div_unique_pos _ _ _ ((Z.of_nat o + done) `mod` 4096 + Z.of_nat k))
      |apply (Z.mod_unique_pos _ _ ((Z.of_nat o + done) `div` 4096))]; lia. }
  rewrite E1, Hpg in Hpg'. injection Hpg' as <-. rewrite E2 in Hb. rewrite <- Hb. f_equal. lia.
Qed.

Lemma blk_write_loop fuel : ∀ s (o : nat) buf d len done,
  slice_holds s (splice o (take (Z.to_nat done) buf) d) →
  0 ≤ done ≤ len → len ≤ Z.of_nat (length buf) → Z.of_nat o + len ≤ Z.of_nat (length d) →
  steps_left fuel (Z.of_nat o) len done →
  ∃ s', blkdev_loop fuel s (Z.of_nat o) len done (Some buf) [] = (s', [], Some len)
    ∧ slice_holds s' (splice o (take (Z.to_nat len) buf) d).
Proof.
  induction fuel as [|fuel IH]; intros s o buf d len done Hs Hd Hb Hl Hst.
  { assert (done = len) as ->; [|by exists s].
    destruct Hst; [done|]. pose proof (Z.mod_pos_bound (Z.of_nat o + done) 4096). lia. }
  cbn [blkdev_loop]. destruct (Z.ltb_spec done len) as [Hlt|Hge];
    [|assert (done = len) as -> by lia; by exists s].
  destruct (steps_next fuel (Z.of_nat o) len done Hst) as (Hc & Hcl & Hst'); [lia|lia|].
  change (PAGE_SLICE_BYTE_TO_PGOFF ?x) with (x `div` 4096).
  change (PAGE_SLICE_IN_PAGE_OFF ?x) with (x `mod` 4096). change PAGE_SIZE with 4096.
  destruct (chunk_store s o buf d len done Hs Hd Hb Hl Hlt) as (c & Hpg & Hstore).
  rewrite Hpg. apply (IH _ o buf d len (done + _) (Hstore (pg_flags c))); [lia|done..].
Qed.

Lemma blkdev_pages_spec fuel e : ∀ s (p : Z) err s',
  0 ≤ p → pages_ok s → slice_prefix s (replicate blk_size 0) (Nat.min (Z.to_nat (p * 4096)) blk_size) →
  blkdev_pages fuel e s p = (err, s') → err = REND_SUCCESS →
  pages_ok s' ∧ slice_prefix s' (replicate blk_size 0) (Nat.min (Z.to_nat ((p + Z.of_nat fuel) * 4096)) blk_size)
  ∧ page_slice_get_size s' = page_slice_get_size s.
Proof.
  induction fuel as [|fuel IH]; intros s p err s' Hp Hpo Hpre Hrun ->; cbn [blkdev_pages] in Hrun.
  { injection Hrun as <-. by rewrite Z.add_0_r. }
  destruct (ce_page e p); [|done]. cbn [negb] in Hrun.
  destruct (page_slice_insert_page s p _) as [err s1] eqn:Ei. destruct err; try done.
  destruct (insert_page_prefix s s1 (replicate blk_size 0) p _ blk_size Ei Hpo) as (Hpo1 & Hpre1 & Hsz1); try done.
  { intros k Hk _. rewrite !lookup_replicate_2; [done|lia|].
    pose proof (Z.mod_pos_bound (Z.of_nat k) 4096 ltac:(lia)). change PAGE_SIZE with 4096. lia. }
  destruct (IH s1 (p + 1) REND_SUCCESS s' ltac:(lia) Hpo1 Hpre1 Hrun eq_refl) as (? & ? & Hs).
  rewrite Hsz1 in Hs. split_and!; [done| |done]. by replace (p + Z.of_nat (S fuel)) with (p + 1 + Z.of_nat fuel) by lia.
Qed.

Lemma blkdev_ensure_spec e dev d : blk_holds dev d →
  match vfs_blkdev_ensure_slice e dev with
  | (REND_SUCCESS, Some s) => slice_holds s d
  | (REND_SUCCESS, None) => False
  | (_, dev') => dev' = dev
  end.
Proof.
  intros [Hl Hd]. unfold vfs_blkdev_ensure_slice. destruct dev as [s|]; [done|]. subst d.
  destruct (page_slice_create 0 VFS_BLKDEV_PSEUDO_SIZE) as [s|] eqn:Ec; [|done].
  destruct (create_empty _ _ _ Ec) as [Hsz Hem].
  destruct (blkdev_pages _ e s 0) as [err s'] eqn:Er.
  destruct (decide (err = REND_SUCCESS)) as [->|Hne]; [|destruct err; congruence].
  assert (pages_ok s) as Hpo by (intros p c Hc; by rewrite Hem in Hc).
  assert (slice_prefix s (replicate blk_size 0) (Nat.min (Z.to_nat (0 * 4096)) blk_size)) as Hp0 by (intros k Hk; lia).
  destruct (blkdev_pages_spec _ e s 0 REND_SUCCESS s' ltac:(lia) Hpo Hp0 Er eq_refl) as (? & Hpre & Hs').
  pose proof blk_size_eq. split; [by rewrite Hs', Hsz, Hl, blk_size_eq|assumption|]. rewrite Hl. intros k Hk. apply Hpre.
  change (Z.of_nat (Z.to_nat (PAGE_SLICE_SIZE_TO_PAGE_COUNT VFS_BLKDEV_PSEUDO_SIZE))) with 16. lia.
Qed.

(** C30. The block device is an array of 65536 bytes.  Whatever the allocator
    does, a read or write request is either refused with ENOMEM and changes
    nothing, or it is the read or write of the array: a read returns the bytes
    from the offset on, cut at the end of the device; a write replaces exactly
    those it has room for; both return the number of bytes.  A device that was
    never touched is the array of zeros. *)
Theorem blkdev_refines_array e dev d req :
  blk_holds dev d → 0 ≤ rq_offset req → 0 ≤ rq_len req →
  (rq_op req = VFS_BACKEND_OP_READ
   ∨ rq_op req = VFS_BACKEND_OP_WRITE ∧ rq_len req ≤ Z.of_nat (length (rq_wbuf req))) →
  let '(dev', reply) := vfs_backend_blkdev_service e dev req in
  let off := rq_offset req in
  let len := rq_len req in
  blk_holds dev' d ∧ rp_result reply = - LINUX_ENOMEM
  ∨ rq_op req = VFS_BACKEND_OP_READ ∧ blk_holds dev' d ∧ rp_bytes reply = blk_read d off len
    ∧ rp_result reply = Z.of_nat (length (blk_read d off len))
  ∨ rq_op req = VFS_BACKEND_OP_WRITE ∧ blk_holds dev' (blk_write d off len (rq_wbuf req))
    ∧ rp_result reply = blk_len off len.
Proof.
  intros Hd Hoff Hlen Hop. pose proof (blkdev_ensure_spec e dev d Hd) as He. destruct Hd as [Hl Hd].
  pose proof blk_size_eq as Hbs.
  unfold vfs_backend_blkdev_service, vfs_blkdev_rw. change VFS_BLKDEV_PSEUDO_SIZE with 65536.
  destruct (vfs_blkdev_ensure_slice e dev) as [err dev1].
  destruct (decide (err = REND_SUCCESS)) as [->|Hne].
  2: { assert (dev1 = dev) as -> by (destruct err; congruence).
       destruct Hop as [-> | [-> _]]; destruct err; try congruence; left; (split; [by split|reflexivity]). }
  destruct dev1 as [s|]; [|destruct He]. unfold blk_write, blk_read, blk_len. set (off := rq_offset req) in *.
  set (len := rq_len req) in *. set (buf := rq_wbuf req) in *.
  destruct (Z.leb_spec 65536 off) as [Hpast|Hin].
  { destruct Hop as [-> | [-> _]]; right; [left|right]; (split; [reflexivity|]);
      (split; [by split|]); [|reflexivity]. rewrite drop_ge, take_nil by lia. by split. }
  set (n := if 65536 - off <? len then 65536 - off else len).
  assert (n = Z.min len (65536 - off)) as Hn by (unfold n; destruct (Z.ltb_spec (65536 - off) len); lia).
  pose proof (steps_enough off n ltac:(lia)) as Hst. rewrite <- (Z2Nat.id off) in Hst by lia.
  rewrite <- Hn. replace off with (Z.of_nat (Z.to_nat off)) by lia.
  destruct Hop as [-> | [-> Hb]].
  - pose proof (blk_read_loop (page_fuel n) s d (Z.to_nat off) n 0 He ltac:(lia) ltac:(lia) Hst) as Hr.
    change (take (Z.to_nat 0) _) with (@nil Z) in Hr. rewrite Hr, !Nat2Z.id. right; left.
    assert (take (Z.to_nat len) (drop (Z.to_nat off) d) = take (Z.to_nat n) (drop (Z.to_nat off) d)) as ->.
    { destruct (decide (len ≤ 65536 - off)); [f_equal; lia|]. rewrite !take_ge by (rewrite length_drop; lia). done. }
    rewrite length_take, length_drop. split_and!; [reflexivity|by split|reflexivity|cbn; lia].
  - assert (slice_holds s (splice (Z.to_nat off) (take (Z.to_nat 0) buf) d)) as H0.
    { change (take (Z.to_nat 0) buf) with (@nil Z). unfold splice. cbn [length app].
      rewrite Nat.add_0_r, take_drop. exact He. }
    destruct (blk_write_loop (page_fuel n) s (Z.to_nat off) buf d n 0 H0 ltac:(lia) ltac:(lia) ltac:(lia) Hst)
      as (s' & -> & Hs').
    rewrite Nat2Z.id. right; right. split; [reflexivity|]. split; [|reflexivity].
    split; [|exact Hs']. rewrite splice_length; [exact Hl|]. rewrite length_take. lia.
Qed.
End blkdev.

(** ** Witnesses and concrete runs *)

Module CacheDemo.
Import ListTable MapSlice BumpAlloc RamDemo.

(** The bytes from [i] on, up to the first that is missing. *)
Fixpoint copy_from (s : @page_slice cpage map_slice) (i : Z) (n : nat) : list Z :=
  match n with
  | O => []
  | S n' => match slice_byte s i with Some b => b :: copy_from s (i + 1) n' | None => [] end
  end.

#[export] Instance demo_copy : @SliceCopy map_slice := {
  page_slice_copy_to_buffer s off len :=
    let l := copy_from s off (Z.to_nat len) in
    (if Z.of_nat (length l) =? len then REND_SUCCESS else E_REND_NO_MEM, l);
  page_slice_clone s := (REND_SUCCESS, Some s);
}.

Lemma copy_from_spec s n : ∀ i,
  (length (copy_from s i n) ≤ n)%nat
  ∧ (∀ k, (k < length (copy_from s i n))%nat → slice_byte s (i + Z.of_nat k) = copy_from s i n !! k)
  ∧ ((∀ j, i ≤ j < i + Z.of_nat n → is_Some (slice_byte s j)) → length (copy_from s i n) = n).
Proof.
  induction n as [|n IH]; intros i; cbn [copy_from length]; [split_and!; [done|lia|done]|].
  destruct (slice_byte s i) as [b|] eqn:Eb; cbn [length].
  - destruct (IH (i + 1)) as (Hl & Hk & Hall). split_and!; [lia| |].
    + intros [|k] Hlt; [by rewrite Z.add_0_r|]. cbn. rewrite <- Hk by lia. f_equal. lia.
    + intros Hs. rewrite Hall; [done|]. intros j Hj. apply Hs. lia.
  - split_and!; [lia|lia|]. intros Hs. destruct (Hs i) as [b ?]; [lia|congruence].
Qed.

#[export] Instance demo_copy_laws : @SliceCopyLaws map_slice demo_copy.
Proof.
  split; cbn [page_slice_copy_to_buffer page_slice_clone demo_copy].
  - intros s off len e bytes [= <- <-] Hoff Hlen.
    destruct (copy_from_spec s (Z.to_nat len) off) as (Hl & Hk & _). split_and!; [lia| |done].
    destruct (Z.eqb_spec (Z.of_nat (length (copy_from s off (Z.to_nat len)))) len); done.
  - intros s off len Hoff Hlen _ Hs. cbn.
    destruct (copy_from_spec s (Z.to_nat len) off) as (_ & _ & Hall).
    rewrite Hall, Z2Nat.id, Z.eqb_refl; [done|lia|]. intros j Hj. apply Hs. lia.
  - intros s s' [= <-]. by split.
Qed.

Abbreviation demo_world := (cache_world (list ramfs_entry) (list (@vfs_pcache_entry map_slice))).

Definition env : cache_env := CacheEnv (λ _, true) (λ _, true).
Definition bs : backend_state (list vfs_backend_entry) := BackendState [] None None 0 false.
Definition w0 : demo_world := CacheWorld fs1 (CpioImg 0 []) (PCache [] false [] []).
Definition caps : Z := Z.lor VFS_BACKEND_CAP_READ_SOURCE VFS_BACKEND_CAP_WRITE_SOURCE.

(** The three-byte file [/g], entry 1 of the file system. *)
Definition ino_g : vfs_inode :=
  VfsInode (str "/g") (Some VFS_BACKEND_PORT_RAMFS) caps (ramfs_ptr 1) 0x81a4 3 1 false false true.
Definition ent_g : ramfs_entry := default zero_rec (entries fs1 !! 1%nat).

Lemma w0_inv : cache_inv None w0.
Proof.
  split; [exact fs1_wf|reflexivity|intros k ent _ Hk; discriminate Hk|intros k ent _ Hk; discriminate Hk|intros k ent Hk; discriminate Hk| |reflexivity].
  intros i Hi. cbn in Hi. by apply not_elem_of_nil in Hi.
Qed.

Lemma ino_g_ok : ram_inode fs1 ino_g 1 ent_g.
Proof. split; vm_compute; reflexivity. Qed.

Definition demo_io : list io_cmd :=
  [IoRead env ino_g 0 10; IoWrite env ino_g 1 [9]; IoRead env ino_g 1 5].

Example demo_io_run :
  snd <$> run_all (run_cached (TN := list cstr) bs) w0 demo_io = Some [(3, [1; 2; 3]); (1, []); (2, [9; 3])].
Proof. vm_compute. reflexivity. Qed.


(** A file of two pages is read for the first time, and memory for one page is
    left: the fill fails after the node of page 0 has been linked, its slice is
    destroyed, and freeing the entry walks the list through the freed node.
    The same read is served when there is memory for both pages, and without
    the cache when there is none. *)
Definition big_world : demo_world :=
  CacheWorld (match ramfs_write fs1 1 0 (replicate 5000 7) with Some (fs, _) => fs | None => fs1 end)
    (CpioImg 0 []) (PCache [] false [] []).
Definition ino_big : vfs_inode :=
  VfsInode (str "/g") (Some VFS_BACKEND_PORT_RAMFS) caps (ramfs_ptr 1) 0x81a4 5000 1 false false true.
Definition read_big (pages : Z) : option (Z * list Z) :=
  snd <$> run_cached (TN := list cstr) bs big_world
    (IoRead (CacheEnv (λ _, true) (λ p, p <? pages)) ino_big 4995 10).

Example partial_fill_use_after_free :
  read_big 1 = None ∧ read_big 2 = Some (5, [7; 7; 7; 7; 7]) ∧ read_big 0 = Some (5, [7; 7; 7; 7; 7]).
Proof. vm_compute. split_and!; reflexivity. Qed.

(** After a read and an overwrite [/g] is cached and dirty. *)
Definition step (w : demo_world) (c : io_cmd) : demo_world :=
  match run_cached (TN := list cstr) bs w c with Some (w', _) => w' | None => w end.
Definition w1 : demo_world := step w0 (IoRead env ino_g 0 10).
Definition w2 : demo_world := step w1 (IoWrite env ino_g 1 [9]).
Definition dirty_g : @vfs_pcache_entry map_slice := default zero_rec (pc_view w2 !! 0%nat).

Lemma w2_inv : cache_inv None w2 ∧ entries (w_fs w2) = entries fs1.
Proof.
  destruct (read_step (TN := list cstr) bs w0 env ino_g 0 10 1 ent_g w0_inv ino_g_ok) as (w1' & a & E1 & _ & Hi1 & _ & He1 & _);
    [done|done|apply one_page_clean; vm_compute; split; congruence|].
  assert (w1 = w1') as <- by (unfold w1, step; by rewrite E1).
  destruct (write_step (TN := list cstr) bs w1 env ino_g 1 [9] 1 ent_g Hi1) as (w2' & fs' & a' & E2 & _ & Hi2 & <- & He2).
  - destruct ino_g_ok. split; try assumption; by rewrite He1.
  - done.
  - vm_compute. congruence.
  - assert (w2 = w2') as <- by (unfold w2, step; by rewrite E2). split; [exact Hi2|]. by rewrite He2, He1.
Qed.

Lemma dirty_g_at : pc_view w2 !! 0%nat = Some dirty_g.
Proof.
  assert ((if pc_view w2 !! 0%nat then true else false) = true) as H by (vm_compute; reflexivity).
  unfold dirty_g. destruct (pc_view w2 !! 0%nat); [reflexivity|discriminate H].
Qed.

Lemma dirty_g_cached : ∃ s, cached_file (w_fs w2) dirty_g 1 ent_g s.
Proof.
  pose proof (ci_coh _ _ (proj1 w2_inv) 0 dirty_g ltac:(discriminate) dirty_g_at) as Hc.
  unfold coherent in Hc. specialize (Hc ltac:(vm_compute; reflexivity)).
  assert (has (pe_caps dirty_g) VFS_BACKEND_CAP_WRITE_SOURCE = true) as Hh by (vm_compute; reflexivity).
  rewrite Hh in Hc. destruct Hc as (i & r & s & Hc). exists s.
  assert (pe_storage dirty_g = 2) as Hst by (vm_compute; reflexivity).
  pose proof (cf_storage _ _ _ _ _ Hc) as Hi. rewrite Hst in Hi. unfold ramfs_ptr in Hi.
  assert (i = 1%nat) as -> by lia. pose proof (cf_entry _ _ _ _ _ Hc) as He. rewrite (proj2 w2_inv) in He.
  rewrite (ri_entry _ _ _ _ ino_g_ok) in He.
  apply (inj Some) in He. rewrite He. exact Hc.
Qed.

Definition append_req : vfs_backend_req := io_req VFS_BACKEND_OP_WRITE 3 2 [7; 8].

Lemma dirty_append_lost_witness :
  ∃ w' reply r', vfs_backend_ramfs_service (TN := list cstr) env bs w2 append_req (Some ino_g) = Some (w', reply)
    ∧ rp_result reply = 2 ∧ ino_size (rp_ino reply) = 5
    ∧ entries (w_fs w') !! 1%nat = Some r' ∧ r_size r' = 3.
Proof.
  destruct dirty_g_cached as [s Hs]. destruct w2_inv as [Hi He].
  apply (dirty_append_lost (TN := list cstr) bs w2 env ino_g 1 ent_g 0 dirty_g s 3 [7; 8]
    (match ramfs_write (w_fs w2) 1 3 [7; 8] with Some (fs, _) => fs | None => fs1 end) 2 Hi).
  - destruct ino_g_ok. split; try assumption; by rewrite He.
  - exact dirty_g_at.
  - vm_compute. reflexivity.
  - exact Hs.
  - vm_compute. reflexivity.
  - vm_compute. reflexivity.
  - vm_compute. reflexivity.
  - lia.
  - vm_compute. split; reflexivity.
  - discriminate.
  - vm_compute. reflexivity.
Defined.

(** The same request, then a lookup of the file by its path: the two bytes the
    write reported are not part of it. *)
Example append_lost_run :
  (w ← fst <$> run_cached (TN := list cstr) bs w2 (IoWrite env ino_g 3 [7; 8]);
   r ← vfs_backend_ramfs_service (TN := list cstr) env bs w
         (BackendReq (Some VFS_BACKEND_PORT_RAMFS) VFS_BACKEND_OP_LOOKUP (Some (str "/g")) None None 0 0 [] 0 0 0 0) None;
   Some (rp_result r.2, ino_size (rp_ino r.2))) = Some (0, 3).
Proof. vm_compute. reflexivity. Qed.

(** A truncation of the dirty file is undone in the same way. *)
Example truncate_undone_run :
  (λ r, (rp_result r.2, r_size <$> entries (w_fs r.1) !! 1%nat)) <$>
    vfs_backend_ramfs_service (TN := list cstr) env bs w2
      (BackendReq (Some VFS_BACKEND_PORT_RAMFS) VFS_BACKEND_OP_TRUNCATE None None (Some (InoHandle 0)) 1 0 [] 0 0 0 0)
      (Some ino_g) = Some (0, Some 3).
Proof. vm_compute. reflexivity. Qed.

(** The block device: a write and a read across the end. *)
Definition blk_w : vfs_backend_req := io_req VFS_BACKEND_OP_WRITE 65534 4 [1; 2; 3; 4].

Lemma blkdev_refines_array_witness :
  let '(dev', reply) := vfs_backend_blkdev_service env (@None (@page_slice cpage map_slice)) blk_w in
  let d := replicate blk_size 0 in
  blk_holds dev' d ∧ rp_result reply = - LINUX_ENOMEM
  ∨ rq_op blk_w = VFS_BACKEND_OP_READ ∧ blk_holds dev' d ∧ rp_bytes reply = blk_read d 65534 4
    ∧ rp_result reply = Z.of_nat (length (blk_read d 65534 4))
  ∨ rq_op blk_w = VFS_BACKEND_OP_WRITE ∧ blk_holds dev' (blk_write d 65534 4 [1; 2; 3; 4])
    ∧ rp_result reply = blk_len 65534 4.
Proof.
  apply (blkdev_refines_array env (@None (@page_slice cpage map_slice)) (replicate blk_size 0) blk_w).
  - split; [apply length_replicate|reflexivity].
  - cbn. lia.
  - cbn. lia.
  - right. split; [reflexivity|cbn; lia].
Defined.
End CacheDemo.
