(* ===== verification/Proc.v ===== *)
(** * Processes: objects, registry and wait ports

    [linux_layer/proc/linux_proc.c], [sys_proc_registry.c] and
    [proc_wait_ipc.c].  A process is a reference-counted object shared by its
    threads; it is found by pid through a name index and is told about the end
    of its children through a message port.  Following a pointer to a freed
    process gives [None].  What these functions ask of the signal, descriptor
    and timer components is recorded as effects. *)

From Stdlib Require Import Ascii.
From stdpp Require Import base numbers strings gmap option list.
From S2P Require Import Prelude PortNames.

Definition LINUX_ECHILD : Z := 10.

Definition LINUX_INIT_REAP_PPID : Z := 0.
Definition PROC_PID_STR_MAX : nat := 16.
Definition PROC_WAIT_PORT_NAME_MAX : nat := 32.
Definition PROC_PID_SCAN_MAX : Z := 4096.
Definition CLEAN_SERVER_PORT_NAME : cstr := str "clean_listen".

Inductive exit_state : Type :=
  | LINUX_EXIT_RUNNING
  | LINUX_EXIT_ZOMBIE
  | LINUX_EXIT_NOTIFIED
  | LINUX_EXIT_CLAIMED.
#[global] Instance exit_state_eq_dec : EqDecision exit_state.
Proof. solve_decision. Defined.

(** ** The core kernel: message ports and the name index *)

(** Messages: the end of a child, a wake-up, the end of a thread, others. *)
Inductive kmsg : Type :=
  | ExitNotify (child_pid : Z) (child : Z) (code : Z)
  | WaitInterrupt
  | ThreadReap (thread : Z) (code : Z)
  | PortClosed
  | OtherMsg.

(** The outcome of a delivery. *)
Inductive deliver_result : Type := DeliverOk | DeliverClosed | DeliverAgain | DeliverFail.
#[global] Instance deliver_result_eq_dec : EqDecision deliver_result.
Proof. solve_decision. Defined.

(** Registered ports by name.  The first argument of a delivery stands for
    what the outcome depends on besides the port. *)
Class MsgPorts (Q : Type) : Type := {
  thread_lookup_port : Q → cstr → bool;
  create_port : Z → Q → cstr → option Q;
  unregister_port : Q → cstr → Q;
  deliver_msg : Z → Q → cstr → kmsg → Q * deliver_result;
  try_recv_msg : Q → cstr → Q * option kmsg;
}.

Class MsgPortsLaws Q `{MsgPorts Q} : Type := {
  port_view : Q → gmap cstr (list kmsg);
  port_lookup_spec q n : thread_lookup_port q n = bool_decide (is_Some (port_view q !! n));
  port_create_spec o q n q' : create_port o q n = Some q' → port_view q !! n = None →
    port_view q' = <[n := []]> (port_view q);
  port_unregister_spec q n : port_view (unregister_port q n) = delete n (port_view q);
  port_deliver_spec o q n m q' r : deliver_msg o q n m = (q', r) →
    if decide (r = DeliverOk)
    then ∃ l, port_view q !! n = Some l ∧ port_view q' = <[n := l ++ [m]]> (port_view q)
    else port_view q' = port_view q;
  port_recv_spec q n q' r : try_recv_msg q n = (q', r) →
    match r with
    | Some m => ∃ l, port_view q !! n = Some (m :: l) ∧ port_view q' = <[n := l]> (port_view q)
    | None => port_view q' = port_view q ∧ default [] (port_view q !! n) = []
    end;
}.

(** The name index: a registered value is found by its name together with its
    row; a name may have several rows. *)
Class NameIndex (NI : Type) : Type := {
  name_index_rows : NI → list (cstr * Z);
  name_index_lookup : NI → cstr → option (Z * option Z);
  name_index_register : Z → NI → cstr → Z → NI * error_t;
  name_index_unregister : NI → Z → Z → cstr → NI;
}.

Class NameIndexLaws NI `{NameIndex NI} : Prop := {
  ni_lookup_Some x n v row : name_index_lookup x n = Some (v, row) →
    is_Some row ∧ (n, v) ∈ name_index_rows x;
  ni_lookup_None x n v : name_index_lookup x n = None → (n, v) ∉ name_index_rows x;
  ni_register_spec o x n v x' e : name_index_register o x n v = (x', e) →
    name_index_rows x' ≡ₚ (if decide (e = REND_SUCCESS) then [(n, v)] else []) ++ name_index_rows x;
  ni_unregister_spec x n v row : name_index_lookup x n = Some (v, Some row) →
    (n, v) :: name_index_rows (name_index_unregister x v row n) ≡ₚ name_index_rows x;
}.

(** ** State *)

Record proc_mem : Type := ProcMem { start_brk : Z; brk : Z; mmap_hint : Z }.
Record proc_cred : Type := ProcCred { p_uid : Z; p_gid : Z; p_euid : Z; p_egid : Z }.
Record proc_exit : Type := ProcExit { exit_code : Z; exit_st : exit_state; exit_last_thread : bool }.

(** A notification kept for a later wait. *)
Record linux_wait_pending_exit : Type := PendingExit { pend_child : Z; pend_pid : Z; pend_code : Z }.

Record linux_proc_resource : Type := ProcRes {
  p_refcount : Z;
  p_pid : Z;
  thread_number : Z;
  thread_list : list Z;
  p_mem : proc_mem;
  p_cred : proc_cred;
  ppid : Z;
  pgid : Z;
  p_exit : proc_exit;
  pending_exits : list linux_wait_pending_exit;
  p_vs : ptr Z;
}.

Inductive thread_state : Type := ThRunning | ThBlockSend | ThBlockRecv | ThZombie | ThOther.
#[global] Instance thread_state_eq_dec : EqDecision thread_state.
Proof. solve_decision. Defined.

(** A thread with the part of its Linux data that concerns processes ([res],
    [clear_tid]); address space 0 is the kernel's. *)
Record lthread : Type := LThread {
  th_status : thread_state;
  th_exit_requested : bool;
  th_tid : Z;
  th_vs : ptr Z;
  th_res : ptr Z;
  th_clear_tid : Z;
}.

(** What is asked of other components, in order. *)
Inductive proc_effect : Type :=
  | EffSignalFork (dst src : Z)
  | EffSignalAttach (dst : Z)
  | EffSignalDestroy (p : Z)
  | EffFsFork (dst src : Z)
  | EffFsAttach (dst : Z)
  | EffFsDestroy (p : Z)
  | EffFsReleaseForExit (p : Z)
  | EffUnregisterClientPort (pid : Z)
  | EffSleepTeardown (thread : Z)
  | EffUnregisterThreadPort (tid : Z)
  | EffSignalThreadFork (dst src : Z)
  | EffSignalThreadAttach (thread : Z)
  | EffSignalThreadDestroy (thread : Z)
  | EffSigchld (parent : Z) (child_pid : Z)
  | EffStoreUser (vs : ptr Z) (va : Z) (value : Z)
  | EffCowBreakStack (vs : ptr Z)
  | EffSetUserSp (thread sp : Z)
  | EffSetTls (thread base : Z)
  | EffPutVspace (vs : Z).

(** A delivery that has to be tried again ([clean_exit_notify_job]). *)
Record clean_exit_notify_job : Type := NotifyJob { job_ppid : Z; job_child : Z; job_code : Z }.

(** The jobs are per CPU. *)
Record pworld (NI Q : Type) : Type := PWorld {
  w_procs : gmap Z linux_proc_resource;
  w_threads : gmap Z lthread;
  w_index : NI;
  w_ports : Q;
  w_jobs : gmap Z (list clean_exit_notify_job);
  w_effs : list proc_effect;
}.
Arguments PWorld {NI Q} _ _ _ _ _ _.
Arguments w_procs {NI Q} _.
Arguments w_threads {NI Q} _.
Arguments w_index {NI Q} _.
Arguments w_ports {NI Q} _.
Arguments w_jobs {NI Q} _.
Arguments w_effs {NI Q} _.

(** Updates of a process. *)
Definition with_refcount p n : linux_proc_resource :=
  ProcRes n (p_pid p) (thread_number p) (thread_list p) (p_mem p) (p_cred p) (ppid p) (pgid p)
    (p_exit p) (pending_exits p) (p_vs p).
Definition with_threads p n l vs : linux_proc_resource :=
  ProcRes (p_refcount p) (p_pid p) n l (p_mem p) (p_cred p) (ppid p) (pgid p)
    (p_exit p) (pending_exits p) vs.
Definition with_relations p mem cred pp pg : linux_proc_resource :=
  ProcRes (p_refcount p) (p_pid p) (thread_number p) (thread_list p) mem cred pp pg
    (p_exit p) (pending_exits p) (p_vs p).
Definition with_ppid p pp : linux_proc_resource := with_relations p (p_mem p) (p_cred p) pp (pgid p).
Definition with_exit p x : linux_proc_resource :=
  ProcRes (p_refcount p) (p_pid p) (thread_number p) (thread_list p) (p_mem p) (p_cred p) (ppid p) (pgid p)
    x (pending_exits p) (p_vs p).
Definition with_pending p l : linux_proc_resource :=
  ProcRes (p_refcount p) (p_pid p) (thread_number p) (thread_list p) (p_mem p) (p_cred p) (ppid p) (pgid p)
    (p_exit p) l (p_vs p).
Definition set_exit_state p (s : exit_state) : linux_proc_resource :=
  with_exit p (ProcExit (exit_code (p_exit p)) s (exit_last_thread (p_exit p))).
Definition with_res (t : lthread) (r : ptr Z) : lthread :=
  LThread (th_status t) (th_exit_requested t) (th_tid t) (th_vs t) r (th_clear_tid t).
Definition with_clear_tid (t : lthread) (c : Z) : lthread :=
  LThread (th_status t) (th_exit_requested t) (th_tid t) (th_vs t) (th_res t) c.
Definition with_status (t : lthread) (s : thread_state) (req : bool) : lthread :=
  LThread s req (th_tid t) (th_vs t) (th_res t) (th_clear_tid t).

Inductive linux_proc_try_result : Type :=
  | LINUX_PROC_TRY_DELIVERED
  | LINUX_PROC_TRY_AGAIN
  | LINUX_PROC_TRY_FAIL.

Definition CLONE_VM : Z := 0x100.
Definition CLONE_SIGHAND : Z := 0x800.
Definition CLONE_THREAD : Z := 0x10000.
Definition CLONE_SETTLS : Z := 0x80000.
Definition CLONE_PARENT_SETTID : Z := 0x100000.
Definition CLONE_CHILD_CLEARTID : Z := 0x200000.
Definition CLONE_CHILD_SETTID : Z := 0x1000000.

Section proc.
Context {NI Q : Type} `{NIX : NameIndex NI} `{MP : MsgPorts Q}.
Abbreviation world := (pworld NI Q).
Implicit Types (w : world) (a t pid : Z).

Definition set_procs w m : world := PWorld m (w_threads w) (w_index w) (w_ports w) (w_jobs w) (w_effs w).
Definition set_threads w m : world := PWorld (w_procs w) m (w_index w) (w_ports w) (w_jobs w) (w_effs w).
Definition set_index w i : world := PWorld (w_procs w) (w_threads w) i (w_ports w) (w_jobs w) (w_effs w).
Definition set_ports w q : world := PWorld (w_procs w) (w_threads w) (w_index w) q (w_jobs w) (w_effs w).
Definition set_jobs w j : world := PWorld (w_procs w) (w_threads w) (w_index w) (w_ports w) j (w_effs w).
Definition emit w (e : list proc_effect) : world :=
  PWorld (w_procs w) (w_threads w) (w_index w) (w_ports w) (w_jobs w) (w_effs w ++ e).
Definition put_proc w a p : world := set_procs w (<[a := p]> (w_procs w)).
Definition put_thread w t th : world := set_threads w (<[t := th]> (w_threads w)).
Definition get_proc w a : option linux_proc_resource := w_procs w !! a.
Definition get_thread w t : option lthread := w_threads w !! t.

(** ** The registry *)

Definition pid_name (pid : Z) : cstr := (proc_format_pid PROC_PID_STR_MAX pid).1.

(** The loop of [proc_registry_evict_pid]: every row of the name goes. *)
Fixpoint evict_rows (fuel : nat) (x : NI) (name : cstr) : NI :=
  match fuel with
  | O => x
  | S fuel' =>
      match name_index_lookup x name with
      | Some (existing, Some row) => evict_rows fuel' (name_index_unregister x existing row name) name
      | _ => x
      end
  end.

Definition proc_registry_evict_pid w pid : world :=
  if pid <=? 0 then w
  else set_index w (evict_rows (S (length (name_index_rows (w_index w)))) (w_index w) (pid_name pid)).

Definition register_process (o : Z) w a : option (world * Z) :=
  p ← get_proc w a;
  Some (if p_pid p <=? 0 then (w, - LINUX_EINVAL)
        else
          let w1 := proc_registry_evict_pid w (p_pid p) in
          match name_index_register o (w_index w1) (pid_name (p_pid p)) a with
          | (x, REND_SUCCESS) => (set_index w1 x, 0)
          | (x, _) => (set_index w1 x, - LINUX_EAGAIN)
          end).

Definition find_proc_by_pid w pid : ptr Z :=
  if pid <=? 0 then None else fst <$> name_index_lookup (w_index w) (pid_name pid).

Definition unregister_process w a : option world :=
  p ← get_proc w a; Some (proc_registry_evict_pid w (p_pid p)).

(** [fuel] candidates from [candidate] on. *)
Fixpoint reparent_from (fuel : nat) w (candidate old_ppid new_ppid : Z) : option world :=
  match fuel with
  | O => Some w
  | S fuel' =>
      w' ← match find_proc_by_pid w candidate with
           | None => Some w
           | Some c =>
               p ← get_proc w c;
               Some (if ppid p =? old_ppid then put_proc w c (with_ppid p new_ppid) else w)
           end;
      reparent_from fuel' w' (candidate + 1) old_ppid new_ppid
  end.

Definition proc_reparent_children w (old_ppid new_ppid : Z) : option world :=
  if old_ppid <=? 0 then Some w
  else reparent_from (Z.to_nat (PROC_PID_SCAN_MAX - 1)) w 1 old_ppid new_ppid.

Definition proc_has_wait_reaper w (p : linux_proc_resource) : bool :=
  (0 <? ppid p) && bool_decide (is_Some (find_proc_by_pid w (ppid p))).

Definition proc_child_counts_for_wait (p : linux_proc_resource) : bool :=
  match exit_st (p_exit p) with
  | LINUX_EXIT_RUNNING | LINUX_EXIT_ZOMBIE | LINUX_EXIT_NOTIFIED => true
  | LINUX_EXIT_CLAIMED => false
  end.

Fixpoint unreaped_from (fuel : nat) w (candidate pp pg : Z) (filter_by_pgid : bool) : option bool :=
  match fuel with
  | O => Some false
  | S fuel' =>
      match find_proc_by_pid w candidate with
      | None => unreaped_from fuel' w (candidate + 1) pp pg filter_by_pgid
      | Some c =>
          p ← get_proc w c;
          if negb (ppid p =? pp) || negb (proc_child_counts_for_wait p)
             || filter_by_pgid && negb (pgid p =? pg)
          then unreaped_from fuel' w (candidate + 1) pp pg filter_by_pgid
          else Some true
      end
  end.

Definition proc_parent_has_unreaped_child w (pp pg : Z) (filter_by_pgid : bool) : option bool :=
  if pp <=? 0 then Some false
  else if filter_by_pgid && (pg <=? 0) then Some false
  else unreaped_from 999 w (pp + 1) pp pg filter_by_pgid.

Definition wait_port_name (pid : Z) : cstr * nat := proc_format_wait_port_name PROC_WAIT_PORT_NAME_MAX pid.

Definition proc_get_or_create_wait_port (o : Z) w pid : world * ptr cstr :=
  if pid <=? 0 then (w, None)
  else
    match wait_port_name pid with
    | (_, O) => (w, None)
    | (name, _) =>
        if thread_lookup_port (w_ports w) name then (w, Some name)
        else match create_port o (w_ports w) name with
             | Some q => (set_ports w q, Some name)
             | None => (w, None)
             end
    end.

Definition proc_unregister_wait_port w pid : world :=
  if pid <=? 0 then w
  else match wait_port_name pid with
       | (_, O) => w
       | (name, _) => set_ports w (unregister_port (w_ports w) name)
       end.

(** ** Notifications kept for a later wait *)

Definition linux_proc_wait_pid_matches w (want_pid child_pid : Z) (parent : linux_proc_resource) : option bool :=
  if want_pid =? -1 then Some true
  else if 0 <? want_pid then Some (child_pid =? want_pid)
  else
    match find_proc_by_pid w child_pid with
    | None => Some false
    | Some c =>
        p ← get_proc w c;
        Some (if negb (ppid p =? p_pid parent) then false
              else if want_pid =? 0 then pgid p =? pgid parent
              else pgid p =? - want_pid)
    end.

(** [alloc]: whether memory for the record is available. *)
Definition linux_proc_wait_pending_push (alloc : bool) w a (child code : Z) : option (world * bool) :=
  c ← get_proc w child;
  if (p_pid c <=? 0) || negb alloc then Some (w, false)
  else
    p ← get_proc w a;
    Some (put_proc w a (with_pending p (pending_exits p ++ [PendingExit child (p_pid c) code])), true).

(** The first entry that matches, with those before and after it. *)
Fixpoint pending_find w (want : Z) (parent : linux_proc_resource) (before l : list linux_wait_pending_exit)
  : option (option (linux_wait_pending_exit * list linux_wait_pending_exit)) :=
  match l with
  | [] => Some None
  | e :: l' =>
      m ← linux_proc_wait_pid_matches w want (pend_pid e) parent;
      if (m : bool) then Some (Some (e, before ++ l')) else pending_find w want parent (before ++ [e]) l'
  end.

Definition linux_proc_wait_pending_take w a (want : Z) : option (world * option (Z * Z)) :=
  p ← get_proc w a;
  r ← pending_find w want p [] (pending_exits p);
  Some (match r with
        | None => (w, None)
        | Some (e, rest) => (put_proc w a (with_pending p rest), Some (pend_child e, pend_code e))
        end).

Definition linux_proc_wait_pending_drain w a : option world :=
  p ← get_proc w a; Some (put_proc w a (with_pending p [])).

(** ** Messages to a wait port *)

(** [alloc]: whether the message can be built. *)
Definition linux_proc_wait_post_interrupt (o : Z) (alloc : bool) w (name : cstr) : world * bool :=
  if negb alloc then (w, false)
  else let '(q, r) := deliver_msg o (w_ports w) name WaitInterrupt in
       (set_ports w q, bool_decide (r = DeliverOk)).

Definition linux_proc_wait_poke (o : Z) (alloc : bool) w pid : world * bool :=
  if pid <=? 0 then (w, false)
  else match proc_get_or_create_wait_port o w pid with
       | (w1, None) => (w1, false)
       | (w1, Some name) => linux_proc_wait_post_interrupt o alloc w1 name
       end.

(** [eintr]: [linux_signal_wait4_should_return_eintr]; [blocked_on]: the port
    the thread is waiting on. *)
Definition linux_proc_wait_wake_for_signal (o : Z) (alloc eintr : bool) w t a (blocked_on : ptr cstr) : option world :=
  th ← get_thread w t;
  p ← get_proc w a;
  Some (if negb (bool_decide (th_status th = ThBlockRecv)) then w
        else if negb eintr then w
        else match proc_get_or_create_wait_port o w (p_pid p) with
             | (w1, None) => w1
             | (w1, Some name) =>
                 if negb (bool_decide (blocked_on = Some name)) then w1
                 else (linux_proc_wait_post_interrupt o alloc w1 name).1
             end).

Definition linux_proc_try_post_exit_notify (o : Z) (alloc : bool) w (parent_pid child code : Z)
  : option (world * linux_proc_try_result) :=
  c ← get_proc w child;
  Some (if (parent_pid <=? 0) || (p_pid c <=? 0) then (w, LINUX_PROC_TRY_FAIL)
        else
          match proc_get_or_create_wait_port o w parent_pid with
          | (w1, None) => (w1, LINUX_PROC_TRY_FAIL)
          | (w1, Some name) =>
              if negb alloc then (w1, LINUX_PROC_TRY_AGAIN)
              else
                let '(q, r) := deliver_msg o (w_ports w1) name (ExitNotify (p_pid c) child code) in
                (set_ports w1 q,
                 match r with
                 | DeliverOk | DeliverClosed => LINUX_PROC_TRY_DELIVERED
                 | DeliverAgain => LINUX_PROC_TRY_AGAIN
                 | DeliverFail => LINUX_PROC_TRY_FAIL
                 end)
          end).

(** ** Process objects *)

(** Dropping a reference; the object is freed with the last one. *)
Definition linux_proc_put w a : option world :=
  p ← get_proc w a;
  Some (if p_refcount p - 1 =? 0 then set_procs w (delete a (w_procs w))
        else put_proc w a (with_refcount p (p_refcount p - 1))).

Definition proc_ref_get_not_zero w a : option (world * bool) :=
  p ← get_proc w a;
  Some (if p_refcount p =? 0 then (w, false)
        else (put_proc w a (with_refcount p (p_refcount p + 1)), true)).

(** The answers of [get_new_id] until one is not 0; [None] is [INVALID_ID]. *)
Fixpoint first_pid (ids : list (option Z)) : option Z :=
  match ids with
  | Some 0 :: ids' => first_pid ids'
  | Some pid :: _ => Some pid
  | _ => None
  end.

Definition new_proc (pid : Z) : linux_proc_resource :=
  ProcRes 1 pid 0 [] (ProcMem 0 0 0) (ProcCred 0 0 0 0) 0 0 (ProcExit 0 LINUX_EXIT_RUNNING false) [] None.

(** [addr]: the memory of the object, when there is some. *)
Definition linux_proc_alloc (addr : ptr Z) (ids : list (option Z)) w : world * ptr Z :=
  match addr with
  | None => (w, None)
  | Some a =>
      match first_pid ids with
      | None => (w, None)
      | Some pid => (put_proc w a (new_proc pid), Some a)
      end
  end.

Definition linux_proc_attach_thread w a t : option (world * error_t) :=
  th ← get_thread w t;
  match th_res th with
  | Some r => Some (w, if r =? a then REND_SUCCESS else E_RENDEZVOS)
  | None =>
      r ← proc_ref_get_not_zero w a;
      match r with
      | (w1, false) => Some (w1, E_RENDEZVOS)
      | (w1, true) =>
          p ← get_proc w1 a;
          let vs := match p_vs p with None => th_vs th | v => v end in
          let w2 := put_proc w1 a (with_threads p (thread_number p + 1) (thread_list p ++ [t]) vs) in
          Some (put_thread w2 t (with_res th (Some a)), REND_SUCCESS)
      end
  end.

Definition linux_proc_detach_thread w t : option world :=
  th ← get_thread w t;
  match th_res th with
  | None => Some w
  | Some a =>
      p ← get_proc w a;
      let n := if 0 <? thread_number p then thread_number p - 1 else thread_number p in
      let vs := if n =? 0 then None else p_vs p in
      let w1 := put_proc w a (with_threads p n (filter (λ u, u ≠ t) (thread_list p)) vs) in
      linux_proc_put (put_thread w1 t (with_res th None)) a
  end.

(** The loop over [schedule]: other tasks run between two looks at the
    counter.  [false]: still waiting after [fuel] rounds. *)
Fixpoint linux_proc_wait_all_threads_detached (fuel : nat) (others : world → world) w a : option (world * bool) :=
  p ← get_proc w a;
  if thread_number p =? 0 then Some (w, true)
  else match fuel with
       | O => Some (w, false)
       | S fuel' => linux_proc_wait_all_threads_detached fuel' others (others w) a
       end.

Definition linux_proc_fini w a : option world :=
  w1 ← linux_proc_wait_pending_drain w a;
  p ← get_proc w1 a;
  w2 ← proc_reparent_children w1 (p_pid p) LINUX_INIT_REAP_PPID;
  let w3 := emit (proc_unregister_wait_port w2 (p_pid p)) [EffUnregisterClientPort (p_pid p)] in
  w4 ← unregister_process w3 a;
  Some (emit w4 [EffSignalDestroy a; EffFsDestroy a]).

(** [put_ret]: what dropping the last reference returns. *)
Definition linux_proc_reap (put_ret : error_t) w a : option (world * error_t) :=
  p ← get_proc w a;
  if negb (thread_number p =? 0) then Some (w, E_RENDEZVOS)
  else match exit_st (p_exit p) with
       | LINUX_EXIT_ZOMBIE | LINUX_EXIT_NOTIFIED =>
           w1 ← linux_proc_fini (put_proc w a (set_exit_state p LINUX_EXIT_CLAIMED)) a;
           w2 ← linux_proc_put w1 a;
           Some (w2, put_ret)
       | _ => Some (w, E_RENDEZVOS)
       end.

(** [sig_ok], [fs_ok]: whether the copies of the signal and descriptor state
    succeed. *)
Definition linux_proc_copy_from (sig_ok fs_ok : bool) w (dst : Z) (src : ptr Z) : world * error_t :=
  let sig_eff := match src with Some s => EffSignalFork dst s | None => EffSignalAttach dst end in
  let fs_eff := match src with Some s => EffFsFork dst s | None => EffFsAttach dst end in
  if negb sig_ok then (w, E_RENDEZVOS)
  else if negb fs_ok then (emit w [sig_eff], E_RENDEZVOS)
  else (emit w [sig_eff; fs_eff], REND_SUCCESS).

Definition linux_proc_clone_from (sig_ok fs_ok : bool) w (dst src clone_flags : Z) : world * error_t :=
  let sig_eff := if has clone_flags CLONE_VM then EffSignalAttach dst else EffSignalFork dst src in
  if negb sig_ok then (w, E_RENDEZVOS)
  else if negb fs_ok then (emit w [sig_eff], E_RENDEZVOS)
  else (emit w [sig_eff; EffFsFork dst src], REND_SUCCESS).
End proc.
