(* ===== verification/ProcLife.v ===== *)
(** * The life of a process: fork, clone, exit, reaping and wait

    [sys_fork.c], [sys_clone.c], [thread_syscall.c] (exit), [clean_ipc.c],
    [servers/clean_server.c] (reaping), [sys_wait.c], [sys_proc.c] and
    [sys_id.c].  Each function runs from the point where it is called to its
    return or to a blocking call; what cannot be decided by the state (memory,
    deliveries, user memory, pending signals) is in [penv].  A thread that has
    been deleted keeps its record, which the core kernel frees later. *)

From Stdlib Require Import Ascii.
From stdpp Require Import base numbers strings gmap option list.
From S2P Require Import Prelude PortNames Proc.

(** What the outcome of a call depends on besides the state. *)
Record penv : Type := PEnv {
  pe_deliver : Z;             (** circumstances of deliveries and registrations *)
  pe_alloc : bool;            (** kernel memory *)
  pe_user_ok : bool;          (** the user address can be written *)
  pe_eintr : bool;            (** a signal interrupts the wait *)
  pe_recv_ok : bool;          (** a blocking receive returns without error *)
  pe_put_ret : error_t;       (** what dropping the last reference returns *)
  pe_delete_ok : bool;        (** [delete_thread] *)
  pe_nocldwait : bool;        (** the parent has no signal state or SA_NOCLDWAIT for SIGCHLD *)
  pe_self : Z;                (** the thread that runs the server *)
  pe_kthreads : list Z;       (** the boot and idle threads *)
  pe_cpu : Z;
}.

Definition LINUX_WNOHANG : Z := 1.
Definition LINUX_WAITID_P_ALL : Z := 0.
Definition LINUX_WAITID_P_PID : Z := 1.
Definition LINUX_WAITID_P_PGID : Z := 2.

(** What fork and clone depend on: the memory and pid of the new process, the
    copied address space, whether the copies of the signal and descriptor
    state succeed, the thread the core kernel makes, whether it can be
    scheduled, and the registration. *)
Record fork_env : Type := ForkEnv {
  fe_addr : ptr Z;
  fe_ids : list (option Z);
  fe_vs : ptr Z;
  fe_vs_ref : bool;
  fe_sig_ok : bool;
  fe_fs_ok : bool;
  fe_thread : ptr (Z * Z);
  fe_add_ok : bool;
  fe_register : Z;
  fe_user_ok : bool;
}.

Inductive reap_after : Type := REAP_NONE | REAP_LINK_B | REAP_LINK_A (pp code : Z).

Section life.
Context {NI Q : Type} `{NIX : NameIndex NI} `{MP : MsgPorts Q}.
Abbreviation world := (pworld NI Q).
Implicit Types (w : world) (e : penv) (a t pid : Z).

(** ** Exit *)

Definition linux_proc_mark_exiting w a (code : Z) : option (world * bool) :=
  p ← get_proc w a;
  let p1 := with_exit p (ProcExit (Z.land code 0xff) LINUX_EXIT_ZOMBIE (thread_number p =? 1)) in
  let w1 := put_proc w a p1 in
  Some (w1, proc_has_wait_reaper w1 p1).

Definition linux_proc_queue_sigchld e w a : option world :=
  p ← get_proc w a;
  Some (if ppid p <=? 0 then w
        else match find_proc_by_pid w (ppid p) with
             | None => w
             | Some parent => if pe_nocldwait e then w else emit w [EffSigchld parent (p_pid p)]
             end).

(** [linux_clean_send_thread_reap] and [linux_clean_deliver_message]: the
    message goes to the port of the clean-up server. *)
Definition linux_clean_send_thread_reap e w t (code : Z) : world * error_t :=
  if negb (thread_lookup_port (w_ports w) CLEAN_SERVER_PORT_NAME) then (w, E_RENDEZVOS)
  else if negb (pe_alloc e) then (w, E_RENDEZVOS)
  else
    let '(q, r) := deliver_msg (pe_deliver e) (w_ports w) CLEAN_SERVER_PORT_NAME (ThreadReap t code) in
    (set_ports w q, match r with DeliverOk | DeliverClosed => REND_SUCCESS | _ => E_RENDEZVOS end).

Definition linux_thread_exit_rendezvous e w t (code : Z) : option world :=
  th ← get_thread w t;
  let st := match th_status th with ThBlockRecv | ThBlockSend => ThRunning | s => s end in
  let w1 := put_thread w t (with_status th st true) in
  let w2 := (linux_clean_send_thread_reap e w1 t code).1 in
  Some (put_thread w2 t (with_status th ThZombie true)).

(** The word at [clear_tid] is zeroed. *)
Definition exit_clear_tid e w t : option world :=
  th ← get_thread w t;
  Some (match th_vs th with
        | Some vs =>
            if (th_clear_tid th =? 0) || (vs =? 0) then w
            else put_thread (emit w (if pe_user_ok e then [EffStoreUser (Some vs) (th_clear_tid th) 0] else []))
                   t (with_clear_tid th 0)
        | None => w
        end).

Definition sys_exit e w t (code : Z) : option world :=
  th ← get_thread w t;
  match th_res th with
  | None => linux_thread_exit_rendezvous e (emit w [EffSleepTeardown t]) t code
  | Some a =>
      w2 ← exit_clear_tid e (emit w [EffFsReleaseForExit a; EffSleepTeardown t]) t;
      r ← linux_proc_mark_exiting w2 a code;
      w3 ← (if r.2 : bool then linux_proc_queue_sigchld e r.1 a else Some r.1);
      linux_thread_exit_rendezvous e w3 t code
  end.

Definition linux_fatal_user_fault e w t (code : Z) : option world :=
  th ← get_thread w t;
  w1 ← (match th_res th with
        | None => Some w
        | Some a => r ← linux_proc_mark_exiting w a code; Some r.1
        end);
  linux_thread_exit_rendezvous e w1 t code.

Fixpoint request_exit w t (l : list Z) : option world :=
  match l with
  | [] => Some w
  | u :: l' =>
      th ← get_thread w u;
      request_exit (if u =? t then w else put_thread w u (with_status th (th_status th) true)) t l'
  end.

Definition sys_exit_group e w t (code : Z) : option world :=
  th ← get_thread w t;
  match th_res th with
  | None => Some w
  | Some a =>
      p ← get_proc w a;
      w1 ← request_exit w t (thread_list p);
      sys_exit e w1 t code
  end.

(** ** The clean-up server *)

Definition jobs_of w (cpu : Z) : list clean_exit_notify_job := default [] (w_jobs w !! cpu).
Definition set_jobs_of w (cpu : Z) (l : list clean_exit_notify_job) : world :=
  set_jobs w (<[cpu := l]> (w_jobs w)).

Definition clean_exit_notify_fallback_pending e w (pp child code : Z) : option world :=
  c ← get_proc w child;
  match find_proc_by_pid w pp with
  | None => Some w
  | Some parent =>
      r ← linux_proc_wait_pending_push (pe_alloc e) w parent child code;
      Some (if r.2 : bool then (linux_proc_wait_poke (pe_deliver e) (pe_alloc e) r.1 pp).1 else r.1)
  end.

(** One job: the state after it, and whether the job stays. *)
Definition poll_job e w (j : clean_exit_notify_job) : option (world * bool) :=
  match find_proc_by_pid w (job_ppid j) with
  | None => Some (w, false)
  | Some _ =>
      r ← linux_proc_try_post_exit_notify (pe_deliver e) (pe_alloc e) w (job_ppid j) (job_child j) (job_code j);
      match r with
      | (w1, LINUX_PROC_TRY_DELIVERED) => Some (w1, false)
      | (w1, LINUX_PROC_TRY_FAIL) =>
          w2 ← clean_exit_notify_fallback_pending e w1 (job_ppid j) (job_child j) (job_code j);
          Some (w2, false)
      | (w1, LINUX_PROC_TRY_AGAIN) => Some (w1, true)
      end
  end.

(** The jobs left of [pos] are [kept]; the list in the state is always
    [kept] followed by those still to look at. *)
Fixpoint poll_jobs e w (kept todo : list clean_exit_notify_job) : option world :=
  match todo with
  | [] => Some w
  | j :: todo' =>
      r ← poll_job e w j;
      let kept' := if r.2 : bool then kept ++ [j] else kept in
      poll_jobs e (set_jobs_of r.1 (pe_cpu e) (kept' ++ todo')) kept' todo'
  end.

Definition clean_poll_exit_notify_jobs e w : option (world * bool) :=
  w1 ← poll_jobs e w [] (jobs_of w (pe_cpu e));
  Some (w1, match jobs_of w1 (pe_cpu e) with [] => false | _ => true end).

Definition clean_async_exit_notify e w (pp child code : Z) : option world :=
  w0 ← clean_poll_exit_notify_jobs e w;
  let w1 := w0.1 in
  c ← get_proc w1 child;
  if (pp <=? 0) || (p_pid c <=? 0) then Some w1
  else
    r ← linux_proc_try_post_exit_notify (pe_deliver e) (pe_alloc e) w1 pp child code;
    match r with
    | (w2, LINUX_PROC_TRY_DELIVERED) => Some w2
    | (w2, LINUX_PROC_TRY_FAIL) => clean_exit_notify_fallback_pending e w2 pp child code
    | (w2, LINUX_PROC_TRY_AGAIN) =>
        if negb (pe_alloc e) then clean_exit_notify_fallback_pending e w2 pp child code
        else Some (set_jobs_of w2 (pe_cpu e) (jobs_of w2 (pe_cpu e) ++ [NotifyJob pp child code]))
    end.

(** [None] inside: still waiting for the other threads. *)
Definition clean_proc_bundle_detached (fuel : nat) (others : world → world) w a : option (world * option bool) :=
  p ← get_proc w a;
  if (0 <? thread_number p) && negb (exit_last_thread (p_exit p)) then Some (w, Some false)
  else
    r ← (if 0 <? thread_number p then linux_proc_wait_all_threads_detached fuel others w a else Some (w, true));
    if negb r.2 then Some (r.1, None)
    else
      q ← get_proc r.1 a;
      Some (if negb (thread_number q =? 0) then (r.1, Some false)
            else (put_proc r.1 a (with_exit q (ProcExit (exit_code (p_exit q)) (exit_st (p_exit q)) true)), Some true)).

(** The decision under the lock, and the promotion to NOTIFIED. *)
Definition reap_choice w a : option (world * reap_after) :=
  p ← get_proc w a;
  match exit_st (p_exit p) with
  | LINUX_EXIT_CLAIMED | LINUX_EXIT_NOTIFIED => Some (w, REAP_NONE)
  | st =>
      if negb (proc_has_wait_reaper w p) then Some (w, REAP_LINK_B)
      else if bool_decide (st = LINUX_EXIT_ZOMBIE) then
        if (ppid p <=? 0) || negb (bool_decide (is_Some (find_proc_by_pid w (ppid p)))) then Some (w, REAP_LINK_B)
        else Some (put_proc w a (set_exit_state p LINUX_EXIT_NOTIFIED), REAP_LINK_A (ppid p) (exit_code (p_exit p)))
      else Some (w, REAP_NONE)
  end.

(** From the point where the last thread is gone. *)
Definition reap_finish e w a : option world :=
  r ← reap_choice w a;
  match r with
  | (w1, REAP_LINK_B) => r2 ← linux_proc_reap (pe_put_ret e) w1 a; linux_proc_put r2.1 a
  | (w1, REAP_LINK_A pp code) => w2 ← clean_async_exit_notify e w1 pp a code; linux_proc_put w2 a
  | (w1, REAP_NONE) => linux_proc_put w1 a
  end.

Definition reap_checks e (th : lthread) t : bool :=
  negb (t =? pe_self e) && negb (bool_decide (t ∈ pe_kthreads e))
  && (th_exit_requested th || bool_decide (th_status th = ThZombie))
  && negb (bool_decide (th_vs th = Some 0)).

(** The second component is [false] while the handler waits. *)
Definition clean_handle_thread_reap (fuel : nat) (others : world → world) e w t : option (world * bool) :=
  th ← get_thread w t;
  let zombie := put_thread w t (with_status th ThZombie (th_exit_requested th)) in
  if negb (reap_checks e th t)
  then Some (if negb (t =? pe_self e) && negb (bool_decide (t ∈ pe_kthreads e))
                && (th_exit_requested th || bool_decide (th_status th = ThZombie)) then zombie else w, true)
  else
    let res := th_res th in
    r ← (match res with
         | None => Some (zombie, None)
         | Some a => x ← proc_ref_get_not_zero zombie a; Some (x.1, if x.2 : bool then Some a else None)
         end);
    match r with
    | (w1, proc) =>
        if negb (pe_delete_ok e)
        then match proc with None => Some (w1, true) | Some a => w2 ← linux_proc_put w1 a; Some (w2, true) end
        else
          match proc with
          | None => Some (w1, true)
          | Some a =>
              w2 ← linux_proc_detach_thread w1 t;
              b ← clean_proc_bundle_detached fuel others w2 a;
              match b with
              | (w3, None) => Some (w3, false)
              | (w3, Some false) => w4 ← linux_proc_put w3 a; Some (w4, true)
              | (w3, Some true) => w4 ← reap_finish e w3 a; Some (w4, true)
              end
          end
    end.

Definition clean_handle_message (fuel : nat) (others : world → world) e w (m : ptr kmsg) : option (world * bool) :=
  w0 ← clean_poll_exit_notify_jobs e w;
  match m with
  | Some (ThreadReap t _) => clean_handle_thread_reap fuel others e w0.1 t
  | _ => Some (w0.1, true)
  end.

(** One round of the server: take a message and handle it. *)
Definition clean_server_round (fuel : nat) (others : world → world) e w : option (world * bool) :=
  let '(q, m) := try_recv_msg (w_ports w) CLEAN_SERVER_PORT_NAME in
  clean_handle_message fuel others e (set_ports w q) m.

(** ** Waiting *)

Definition wait4_encode_status (code : Z) : Z := Z.shiftl (Z.land code 0xff) 8.

Definition wait4_put_wstatus e w t (user_wstatus encoded : Z) : option (world * bool) :=
  if user_wstatus =? 0 then Some (w, true)
  else
    th ← get_thread w t;
    Some (match th_vs th with
          | None => (w, false)
          | Some vs =>
              if pe_user_ok e then (emit w [EffStoreUser (Some vs) user_wstatus encoded], true) else (w, false)
          end).

(** [t]: the waiting thread; [a]: its process. *)
Definition wait4_finish_reap e w t a (user_wstatus child code : Z) : option (world * Z) :=
  c ← get_proc w child;
  if p_pid c <=? 0 then Some (w, - LINUX_ECHILD)
  else
    p ← get_proc w a;
    if negb (ppid c =? p_pid p)
       || negb (bool_decide (exit_st (p_exit c) = LINUX_EXIT_ZOMBIE) || bool_decide (exit_st (p_exit c) = LINUX_EXIT_NOTIFIED))
       || negb (exit_last_thread (p_exit c))
    then Some (w, - LINUX_ECHILD)
    else
      let w1 := put_proc w child (with_exit c (ProcExit code (exit_st (p_exit c)) (exit_last_thread (p_exit c)))) in
      r ← wait4_put_wstatus e w1 t user_wstatus (wait4_encode_status code);
      if negb r.2 then Some (r.1, - LINUX_EFAULT)
      else
        x ← linux_proc_reap (pe_put_ret e) r.1 child;
        Some (if negb (bool_decide (x.2 = REND_SUCCESS)) && bool_decide (is_Some (find_proc_by_pid x.1 (p_pid c)))
              then (x.1, - LINUX_EAGAIN) else (x.1, p_pid c)).

Definition wait4_has_live_child w a (pid : Z) : option bool :=
  p ← get_proc w a;
  if 0 <? pid then
    match find_proc_by_pid w pid with
    | None => Some false
    | Some c => q ← get_proc w c; Some ((ppid q =? p_pid p) && proc_child_counts_for_wait q)
    end
  else if pid =? -1 then proc_parent_has_unreaped_child w (p_pid p) 0 false
  else if pid =? 0 then proc_parent_has_unreaped_child w (p_pid p) (pgid p) true
  else proc_parent_has_unreaped_child w (p_pid p) (- pid) true.

Definition wait4_try_pending e w t a (want user_wstatus : Z) : option (world * Z) :=
  r ← linux_proc_wait_pending_take w a want;
  match r with
  | (w1, None) => Some (w1, 0)
  | (w1, Some (child, code)) => wait4_finish_reap e w1 t a user_wstatus child code
  end.

(** [wait4_recv_is_interrupt] and [wait4_decode_exit_notify] are the cases of
    the message. *)
Definition wait4_handle_port_msg e w t a (want user_wstatus : Z) (m : kmsg) : option (world * Z) :=
  match m with
  | WaitInterrupt =>
      r ← wait4_try_pending e w t a want user_wstatus;
      Some (if negb (r.2 =? 0) then r else if pe_eintr e then (r.1, - LINUX_EINTR) else (r.1, 0))
  | PortClosed => Some (w, - LINUX_EINTR)
  | ExitNotify child_pid child code =>
      c ← get_proc w child;
      if negb (p_pid c =? child_pid) || (child_pid <=? 0) then Some (w, 0)
      else
        p ← get_proc w a;
        b ← linux_proc_wait_pid_matches w want child_pid p;
        if negb b then r ← linux_proc_wait_pending_push (pe_alloc e) w a child code; Some (r.1, 0)
        else wait4_finish_reap e w t a user_wstatus child code
  | _ => Some (w, 0)
  end.

(** One message, when there is one. *)
Definition wait4_recv e w t a (want user_wstatus : Z) (name : cstr) : option (world * option Z) :=
  match try_recv_msg (w_ports w) name with
  | (q, None) => Some (set_ports w q, None)
  | (q, Some m) => r ← wait4_handle_port_msg e (set_ports w q) t a want user_wstatus m; Some (r.1, Some r.2)
  end.

(** The loop: before each blocking receive other tasks run ([others]).  The
    result [None]: still waiting after [fuel] rounds.  [envs] gives what each
    round depends on. *)
Fixpoint wait4_loop (fuel : nat) (others : nat → world → world) (envs : nat → penv) w t a (want user_wstatus : Z)
    (name : cstr) : option (world * option Z) :=
  match fuel with
  | O => Some (w, None)
  | S fuel' =>
      let e := envs fuel in
      r ← wait4_try_pending e w t a want user_wstatus;
      if negb (r.2 =? 0) then Some (r.1, Some r.2)
      else if pe_eintr e then Some (r.1, Some (- LINUX_EINTR))
      else
        x ← wait4_recv e r.1 t a want user_wstatus name;
        match x with
        | (w1, Some ret) =>
            if negb (ret =? 0) then Some (w1, Some ret)
            else wait4_loop fuel' others envs w1 t a want user_wstatus name
        | (w1, None) =>
            r1 ← wait4_try_pending e w1 t a want user_wstatus;
            if negb (r1.2 =? 0) then Some (r1.1, Some r1.2)
            else if negb (pe_recv_ok e) then Some (others fuel' r1.1, Some (- LINUX_EINTR))
            else
              x1 ← wait4_recv e (others fuel' r1.1) t a want user_wstatus name;
              match x1 with
              | (w2, Some ret) =>
                  if negb (ret =? 0) then Some (w2, Some ret)
                  else wait4_loop fuel' others envs w2 t a want user_wstatus name
              | (w2, None) => wait4_loop fuel' others envs w2 t a want user_wstatus name
              end
        end
  end.

Definition wait4_block_on_port (fuel : nat) (others : nat → world → world) (envs : nat → penv) e w t a
    (want user_wstatus : Z) : option (world * option Z) :=
  p ← get_proc w a;
  match proc_get_or_create_wait_port (pe_deliver e) w (p_pid p) with
  | (w1, None) => Some (w1, Some (- LINUX_EAGAIN))
  | (w1, Some name) => wait4_loop fuel others envs w1 t a want user_wstatus name
  end.

(** [Some r]: returned [r]. *)
Definition sys_wait4 (fuel : nat) (others : nat → world → world) (envs : nat → penv) e w t
    (pid user_wstatus options : Z) : option (world * option Z) :=
  th ← get_thread w t;
  match th_res th with
  | None => Some (w, Some (- LINUX_ESRCH))
  | Some a =>
      r ← wait4_try_pending e w t a pid user_wstatus;
      if negb (r.2 =? 0) then Some (r.1, Some r.2)
      else
        p ← get_proc r.1 a;
        match proc_get_or_create_wait_port (pe_deliver e) r.1 (p_pid p) with
        | (w1, None) => Some (w1, Some (- LINUX_EAGAIN))
        | (w1, Some name) =>
            x ← wait4_recv e w1 t a pid user_wstatus name;
            let '(w2, ret) := (x.1, default 0 x.2) in
            if negb (ret =? 0) then Some (w2, Some ret)
            else
              b ← wait4_has_live_child w2 a pid;
              if has options LINUX_WNOHANG then Some (w2, Some (if b : bool then 0 else - LINUX_ECHILD))
              else if negb b then Some (w2, Some (- LINUX_ECHILD))
              else wait4_block_on_port fuel others envs e w2 t a pid user_wstatus
        end
  end.

Definition sys_waitid (fuel : nat) (others : nat → world → world) (envs : nat → penv) e w t
    (idtype id infop options : Z) : option (world * option Z) :=
  if idtype =? LINUX_WAITID_P_PID then sys_wait4 fuel others envs e w t (iw 32 id) 0 options
  else if idtype =? LINUX_WAITID_P_ALL then sys_wait4 fuel others envs e w t (-1) 0 options
  else if idtype =? LINUX_WAITID_P_PGID then sys_wait4 fuel others envs e w t (iw 32 (- iw 32 id)) 0 options
  else Some (w, Some (- LINUX_ENOSYS)).

Definition sys_waitpid (fuel : nat) (others : nat → world → world) (envs : nat → penv) e w t
    (pid wstatus options : Z) : option (world * option Z) :=
  sys_wait4 fuel others envs e w t pid wstatus options.

(** ** Fork and clone *)

(** [copy_thread] with the hook [linux_thread_append_copy]: no process, no
    [clear_tid]; the thread takes over the address space. *)
Definition copy_thread (f : fork_env) w t (vs : ptr Z) : world * ptr Z :=
  match fe_thread f with
  | None => (w, None)
  | Some (u, tid) => (emit (put_thread w u (LThread ThOther false tid vs None 0)) [EffSignalThreadFork u t], Some u)
  end.

(** The hook for a thread that is deleted. *)
Definition linux_thread_append_fini w t : option world :=
  th ← get_thread w t;
  linux_proc_detach_thread
    (emit w [EffUnregisterThreadPort (th_tid th); EffSleepTeardown t; EffSignalThreadDestroy t]) t.

Definition child_relations (mem : proc_mem) (parent child : linux_proc_resource) : linux_proc_resource :=
  with_relations child mem (p_cred parent) (p_pid parent) (if pgid parent =? 0 then p_pid parent else pgid parent).

Definition sys_fork (f : fork_env) w t : option (world * Z) :=
  th ← get_thread w t;
  match th_res th, th_vs th with
  | Some a, Some parent_vs =>
      if parent_vs =? 0 then Some (w, - LINUX_EINVAL)
      else
        match linux_proc_alloc (fe_addr f) (fe_ids f) w with
        | (w1, None) => Some (w1, - LINUX_ENOMEM)
        | (w1, Some c) =>
            match fe_vs f with
            | None => w2 ← linux_proc_put w1 c; Some (w2, - LINUX_ENOMEM)
            | Some vs =>
                parent ← get_proc w1 a;
                child ← get_proc w1 c;
                let mem := ProcMem (brk (p_mem parent)) (brk (p_mem parent)) (mmap_hint (p_mem parent)) in
                let child1 := with_exit (child_relations mem parent child)
                                (ProcExit 0 LINUX_EXIT_RUNNING (exit_last_thread (p_exit child))) in
                let '(w3, e) := linux_proc_copy_from (fe_sig_ok f) (fe_fs_ok f) (put_proc w1 c child1) c (Some a) in
                if negb (bool_decide (e = REND_SUCCESS))
                then w4 ← linux_proc_put (emit w3 [EffPutVspace vs]) c; Some (w4, - LINUX_ENOMEM)
                else
                  match copy_thread f w3 t (Some vs) with
                  | (w4, None) => w5 ← linux_proc_put w4 c; Some (w5, - LINUX_ENOMEM)
                  | (w4, Some u) =>
                      r ← linux_proc_attach_thread w4 c u;
                      if negb (bool_decide (r.2 = REND_SUCCESS))
                      then w5 ← linux_thread_append_fini r.1 u; w6 ← linux_proc_put w5 c; Some (w6, - LINUX_ENOMEM)
                      else if negb (fe_add_ok f)
                      then w5 ← linux_thread_append_fini r.1 u; w6 ← linux_proc_put w5 c; Some (w6, - LINUX_EAGAIN)
                      else
                        g ← register_process (fe_register f) r.1 c;
                        Some (emit g.1 [EffCowBreakStack (Some parent_vs)], p_pid child)
                  end
            end
        end
  | _, _ => Some (w, - LINUX_ESRCH)
  end.

Definition validate_clone_flags (flags : Z) : Z :=
  if has flags CLONE_SIGHAND && negb (has flags CLONE_VM) then - LINUX_EINVAL
  else if has flags CLONE_THREAD && negb (has flags CLONE_SIGHAND) then - LINUX_EINVAL
  else if has flags CLONE_THREAD && negb (has flags CLONE_VM) then - LINUX_EINVAL
  else 0.

(** The address space of the child, and whether clone holds a reference to it;
    [inl] is the error. *)
Definition clone_vspace_of (f : fork_env) (flags parent_vs : Z) : Z + Z * bool :=
  if has flags CLONE_VM then
    if parent_vs =? 0 then inr (parent_vs, false)
    else if fe_vs_ref f then inr (parent_vs, true) else inl (- LINUX_ENOMEM)
  else match fe_vs f with Some vs => inr (vs, true) | None => inl (- LINUX_ENOMEM) end.

(** [out_put_vspace]. *)
Definition clone_put_vspace (held : bool) w (vs : Z) : world :=
  if held && negb (vs =? 0) then emit w [EffPutVspace vs] else w.

(** [out_free_proc]: a new process is dropped, the caller's own is not. *)
Definition clone_free_proc w (child parent : Z) : option world :=
  if child =? parent then Some w else linux_proc_put w child.

(** The process of the new thread; [inl]: the error, with the state. *)
Definition clone_proc (f : fork_env) (flags : Z) w a : option (world * (Z + Z)) :=
  if has flags CLONE_THREAD then Some (w, inr a)
  else
    match linux_proc_alloc (fe_addr f) (fe_ids f) w with
    | (w1, None) => Some (w1, inl (- LINUX_ENOMEM))
    | (w1, Some c) =>
        parent ← get_proc w1 a;
        child ← get_proc w1 c;
        let mem := if has flags CLONE_VM then p_mem parent
                   else ProcMem (brk (p_mem parent)) (brk (p_mem parent)) 0 in
        let child1 := child_relations mem parent (with_pending child []) in
        let '(w2, e) := linux_proc_clone_from (fe_sig_ok f) (fe_fs_ok f) (put_proc w1 c child1) c a flags in
        if bool_decide (e = REND_SUCCESS) then Some (w2, inr c)
        else w3 ← clone_free_proc w2 c a; Some (w3, inl (- LINUX_ENOMEM))
    end.

(** After the thread can run: the stores of its id and the result. *)
Definition clone_started (f : fork_env) w (flags parent_vs child_vs parent_tid child_tid tid ret : Z) : world * Z :=
  let store vs va w := if fe_user_ok f then (emit w [EffStoreUser (Some vs) va tid], true) else (w, false) in
  let '(w1, ok1) :=
    if has flags CLONE_PARENT_SETTID && negb (parent_tid =? 0) && negb (parent_vs =? 0)
    then store parent_vs parent_tid w else (w, true) in
  if negb ok1 then (w1, - LINUX_EFAULT)
  else
    let '(w2, ok2) :=
      if has flags CLONE_CHILD_SETTID && negb (child_tid =? 0) && negb (child_vs =? 0)
      then store child_vs child_tid w1 else (w1, true) in
    if negb ok2 then (w2, - LINUX_EFAULT) else (w2, ret).

Definition sys_clone (f : fork_env) w t (flags stack parent_tid child_tid tls : Z) : option (world * Z) :=
  th ← get_thread w t;
  match th_res th, th_vs th with
  | Some a, Some parent_vs =>
      if negb (validate_clone_flags flags =? 0) then Some (w, validate_clone_flags flags)
      else if has flags CLONE_VM && (stack =? 0) then Some (w, - LINUX_EINVAL)
      else
        match clone_vspace_of f flags parent_vs with
        | inl err => Some (w, err)
        | inr (vs, held) =>
            r ← clone_proc f flags w a;
            match r with
            | (w1, inl err) => Some (clone_put_vspace held w1 vs, err)
            | (w1, inr c) =>
                match copy_thread f w1 t (Some vs) with
                | (w2, None) => w3 ← clone_free_proc w2 c a; Some (w3, - LINUX_ENOMEM)
                | (w2, Some u) =>
                    x ← linux_proc_attach_thread w2 c u;
                    if negb (bool_decide (x.2 = REND_SUCCESS))
                    then w3 ← linux_thread_append_fini x.1 u; w4 ← clone_free_proc w3 c a; Some (w4, - LINUX_ENOMEM)
                    else
                      uth ← get_thread x.1 u;
                      let w3 := if has flags CLONE_CHILD_CLEARTID && negb (child_tid =? 0)
                                then put_thread x.1 u (with_clear_tid uth child_tid) else x.1 in
                      let w4 := emit w3 ((if stack =? 0 then [] else [EffSetUserSp u stack])
                                         ++ (if has flags CLONE_SETTLS then [EffSetTls u tls] else [])
                                         ++ (if has flags CLONE_VM then [] else [EffCowBreakStack (Some parent_vs)])) in
                      if negb (fe_add_ok f)
                      then w5 ← linux_thread_append_fini w4 u; w6 ← clone_free_proc w5 c a; Some (w6, - LINUX_EAGAIN)
                      else
                        g ← (if has flags CLONE_THREAD then Some (w4, 0) else register_process (fe_register f) w4 c);
                        child ← get_proc g.1 c;
                        Some (clone_started f g.1 flags parent_vs vs parent_tid child_tid (th_tid uth)
                                (if has flags CLONE_THREAD then th_tid uth else p_pid child))
                end
            end
        end
  | _, _ => Some (w, - LINUX_ESRCH)
  end.

(** ** Identity *)

Definition sys_getpid w t : option Z :=
  th ← get_thread w t;
  match th_res th with None => Some (- LINUX_ESRCH) | Some a => p ← get_proc w a; Some (p_pid p) end.

Definition sys_gettid w t : option Z := th ← get_thread w t; Some (th_tid th).

Definition sys_getppid w t : option Z :=
  th ← get_thread w t;
  match th_res th with
  | None => Some (- LINUX_ESRCH)
  | Some a => p ← get_proc w a; Some (if ppid p <=? 0 then 1 else ppid p)
  end.

Definition sys_getuid w t : option Z :=
  th ← get_thread w t;
  match th_res th with None => Some (- LINUX_ESRCH) | Some a => p ← get_proc w a; Some (p_uid (p_cred p)) end.
Definition sys_getgid w t : option Z :=
  th ← get_thread w t;
  match th_res th with None => Some (- LINUX_ESRCH) | Some a => p ← get_proc w a; Some (p_gid (p_cred p)) end.

Definition with_cred (p : linux_proc_resource) (c : proc_cred) : linux_proc_resource :=
  with_relations p (p_mem p) c (ppid p) (pgid p).

Definition sys_setuid w t (uid : Z) : option (world * Z) :=
  th ← get_thread w t;
  match th_res th with
  | None => Some (w, - LINUX_ESRCH)
  | Some a =>
      p ← get_proc w a;
      let c := p_cred p in
      Some (if negb (p_euid c =? 0) && negb (uid =? p_uid c) then (w, - LINUX_EPERM)
            else (put_proc w a (with_cred p (ProcCred uid (p_gid c) uid (p_egid c))), 0))
  end.

Definition sys_setgid w t (gid : Z) : option (world * Z) :=
  th ← get_thread w t;
  match th_res th with
  | None => Some (w, - LINUX_ESRCH)
  | Some a =>
      p ← get_proc w a;
      let c := p_cred p in
      Some (if negb (p_euid c =? 0) && negb (gid =? p_gid c) then (w, - LINUX_EPERM)
            else (put_proc w a (with_cred p (ProcCred (p_uid c) gid (p_euid c) gid)), 0))
  end.

Definition sys_set_tid_address w t (tidptr : Z) : option (world * Z) :=
  th ← get_thread w t; Some (put_thread w t (with_clear_tid th tidptr), th_tid th).
End life.
