(* ===== verification/ProcThm.v ===== *)
(** * Reference counts and notifications of processes

    The invariant of the process objects: the reference count of a process is
    one more than the number of its threads, threads and processes point to
    each other, the registry knows only live processes, and the end of a child
    is announced by at most one notification, wherever it is (in a wait port,
    in a job of the clean-up server, or kept for a later wait).  Every
    operation keeps it and never follows a pointer to a freed process. *)

From Stdlib Require Import Ascii.
From stdpp Require Import base numbers strings gmap gmultiset option list.
From S2P Require Import Prelude PortNames Proc ProcLife.

(** ** Multisets spread over a map *)

Section toks.
Context {K A : Type} `{Countable K}.
Implicit Types (m : gmap K A) (f : A → list Z).

Definition mset (l : list Z) : gmultiset Z := list_to_set_disj l.

Lemma mset_app l k : mset (l ++ k) = mset l ⊎ mset k.
Proof. apply list_to_set_disj_app. Qed.
Lemma mset_cons b l : mset (b :: l) = {[+ b +]} ⊎ mset l.
Proof. done. Qed.
Lemma mset_nil : mset [] = ∅.
Proof. done. Qed.
Lemma mset_one b : mset [b] = {[+ b +]}.
Proof. rewrite mset_cons, mset_nil. apply (right_id_L ∅ (⊎)). Qed.
Lemma sub_add (X Y : gmultiset Z) : Y ⊆ X ⊎ Y.
Proof. multiset_solver. Qed.
Lemma elem_mset b l : b ∈ mset l ↔ b ∈ l.
Proof. apply elem_of_list_to_set_disj. Qed.

Definition toks f m : gmultiset Z := mset (map_to_list m ≫= (λ kv, f kv.2)).

Lemma toks_insert f m k x : toks f (<[k := x]> m) = mset (f x) ⊎ toks f (delete k m).
Proof.
  unfold toks, mset. rewrite <- insert_delete_eq.
  rewrite (list_to_set_disj_perm _ (((k, x) :: map_to_list (delete k m)) ≫= (λ kv, f kv.2))).
  - apply list_to_set_disj_app.
  - by rewrite map_to_list_insert by apply lookup_delete_eq.
Qed.

Lemma toks_split f m k : toks f m = mset (from_option f [] (m !! k)) ⊎ toks f (delete k m).
Proof.
  destruct (m !! k) as [x|] eqn:E; cbn [from_option]; [by rewrite <- toks_insert, insert_id|].
  rewrite delete_id by done. change (mset []) with (∅ : gmultiset Z). by rewrite (left_id_L ∅ (⊎)).
Qed.
End toks.

(** ** Notifications *)

Definition msg_tok (m : kmsg) : list Z := match m with ExitNotify _ c _ => [c] | _ => [] end.

Section inv.
Context {NI Q : Type} `{NIL : NameIndexLaws NI} `{MPL : MsgPortsLaws Q}.
Abbreviation world := (pworld NI Q).
Implicit Types (w : world) (e : penv) (a t pid : Z) (p : linux_proc_resource).

(** The processes whose end is announced somewhere. *)
Definition port_toks (q : Q) : gmultiset Z := toks (λ l, l ≫= msg_tok) (port_view q).
Definition job_toks (j : gmap Z (list clean_exit_notify_job)) : gmultiset Z := toks (λ l, job_child <$> l) j.
Definition pend_toks (m : gmap Z linux_proc_resource) : gmultiset Z := toks (λ p, pend_child <$> pending_exits p) m.
Definition tokens w : gmultiset Z := port_toks (w_ports w) ⊎ job_toks (w_jobs w) ⊎ pend_toks (w_procs w).

Definition extra (x : option Z) a : Z := if decide (x = Some a) then 1 else 0.

Lemma extra_None a : extra None a = 0.
Proof. done. Qed.
Lemma extra_Some a : extra (Some a) a = 1.
Proof. unfold extra. by rewrite decide_True. Qed.
Lemma extra_ne a b : b ≠ a → extra (Some a) b = 0.
Proof. intros. unfold extra. by rewrite decide_False by congruence. Qed.

(** [x]: the process the caller holds a reference to; [hold]: the
    notifications it has taken and not yet passed on. *)
Record pinv (x : option Z) (hold : gmultiset Z) w : Prop := {
  pi_ref a p : w_procs w !! a = Some p → p_refcount p = 1 + thread_number p + extra x a;
  pi_num a p : w_procs w !! a = Some p → thread_number p = Z.of_nat (length (thread_list p));
  pi_nodup a p : w_procs w !! a = Some p → NoDup (thread_list p);
  pi_thr a p t : w_procs w !! a = Some p → t ∈ thread_list p →
    ∃ th, w_threads w !! t = Some th ∧ th_res th = Some a;
  pi_res t th a : w_threads w !! t = Some th → th_res th = Some a →
    ∃ p, w_procs w !! a = Some p ∧ t ∈ thread_list p;
  pi_hint a p t th : w_procs w !! a = Some p → exit_last_thread (p_exit p) = true →
    t ∈ thread_list p → w_threads w !! t = Some th → thread_list p = [t] ∧ th_status th = ThZombie;
  pi_toks a : (multiplicity a (hold ⊎ tokens w) ≤ 1)%nat;
  pi_tok a : a ∈ hold ⊎ tokens w →
    ∃ p, w_procs w !! a = Some p ∧ exit_st (p_exit p) = LINUX_EXIT_NOTIFIED ∧ thread_list p = []
      ∧ exit_last_thread (p_exit p) = true;
  pi_rows n a : (n, a) ∈ name_index_rows (w_index w) →
    ∃ p, w_procs w !! a = Some p ∧ n = pid_name (p_pid p);
  pi_ext a : x = Some a → is_Some (w_procs w !! a);
  pi_pos a p : w_procs w !! a = Some p → 0 < p_pid p;
}.

(** What the invariant says about a process, apart from its notifications. *)
Definition core p : Z * Z * Z * list Z * exit_state * bool :=
  (p_refcount p, p_pid p, thread_number p, thread_list p, exit_st (p_exit p), exit_last_thread (p_exit p)).

Lemma core_inv p p' : core p = core p' →
  p_refcount p = p_refcount p' ∧ p_pid p = p_pid p' ∧ thread_number p = thread_number p'
  ∧ thread_list p = thread_list p' ∧ exit_st (p_exit p) = exit_st (p_exit p')
  ∧ exit_last_thread (p_exit p) = exit_last_thread (p_exit p').
Proof. unfold core. intros [=]. done. Qed.

Definition same_core w w' : Prop := ∀ a, core <$> w_procs w' !! a = core <$> w_procs w !! a.

Lemma same_core_back w w' a p : same_core w w' → w_procs w' !! a = Some p →
  ∃ p0, w_procs w !! a = Some p0 ∧ core p0 = core p.
Proof.
  intros Hs E. specialize (Hs a). rewrite E in Hs. destruct (w_procs w !! a) as [p0|]; [|done].
  exists p0. cbn in Hs. split; congruence.
Qed.

Lemma same_core_fwd w w' a p : same_core w w' → w_procs w !! a = Some p →
  ∃ p', w_procs w' !! a = Some p' ∧ core p' = core p.
Proof.
  intros Hs E. specialize (Hs a). rewrite E in Hs. destruct (w_procs w' !! a) as [p'|]; [|done].
  exists p'. cbn in Hs. split; congruence.
Qed.

(** An operation that moves notifications around, or loses some, and changes
    nothing else the invariant is about. *)
Lemma pinv_frame x hold hold' w w' : pinv x hold w → same_core w w' → w_threads w' = w_threads w →
  w_index w' = w_index w → hold' ⊎ tokens w' ⊆ hold ⊎ tokens w → pinv x hold' w'.
Proof.
  intros Hi Hs Ht Hx Htok.
  split; rewrite ?Ht, ?Hx.
  - intros a p E. destruct (same_core_back _ _ _ _ Hs E) as (p0 & E0 & (Hr & _ & Hn & _)%core_inv).
    rewrite <- Hr, <- Hn. by apply Hi.
  - intros a p E. destruct (same_core_back _ _ _ _ Hs E) as (p0 & E0 & (_ & _ & Hn & Hl & _)%core_inv).
    rewrite <- Hn, <- Hl. by eapply pi_num.
  - intros a p E. destruct (same_core_back _ _ _ _ Hs E) as (p0 & E0 & (_ & _ & _ & Hl & _)%core_inv).
    rewrite <- Hl. by eapply pi_nodup.
  - intros a p t E Hin. destruct (same_core_back _ _ _ _ Hs E) as (p0 & E0 & (_ & _ & _ & Hl & _)%core_inv).
    rewrite <- Hl in Hin. by eapply pi_thr.
  - intros t th a E Hr. destruct (pi_res _ _ _ Hi t th a E Hr) as (p & E0 & Hin).
    destruct (same_core_fwd _ _ _ _ Hs E0) as (p' & E' & (_ & _ & _ & Hl & _)%core_inv).
    exists p'. by rewrite Hl.
  - intros a p t th E Hh Hin Eth.
    destruct (same_core_back _ _ _ _ Hs E) as (p0 & E0 & (_ & _ & _ & Hl & _ & Hh')%core_inv).
    rewrite <- Hl in *. rewrite <- Hh' in Hh. by eapply pi_hint.
  - intros a. etrans; [apply Htok|]. by apply Hi.
  - intros a Hin. assert (a ∈ hold ⊎ tokens w) as Hin' by multiset_solver.
    destruct (pi_tok _ _ _ Hi a Hin') as (p & E & ? & ? & ?).
    destruct (same_core_fwd _ _ _ _ Hs E) as (p' & E' & (_ & _ & _ & Hl & Hst & Hh)%core_inv).
    exists p'. by rewrite Hl, Hst, Hh.
  - intros n a Hin. destruct (pi_rows _ _ _ Hi n a Hin) as (p & E & ->).
    destruct (same_core_fwd _ _ _ _ Hs E) as (p' & E' & (_ & Hpid & _)%core_inv).
    exists p'. by rewrite Hpid.
  - intros a Ha. destruct (pi_ext _ _ _ Hi a Ha) as [p E].
    destruct (same_core_fwd _ _ _ _ Hs E) as (p' & E' & _). by exists p'.
  - intros a p E. destruct (same_core_back _ _ _ _ Hs E) as (p0 & E0 & (_ & Hpid & _)%core_inv).
    rewrite <- Hpid. by apply (pi_pos _ _ _ Hi a).
Qed.
(** ** Moving notifications *)

Lemma deliver_toks o q n m q' r : deliver_msg o q n m = (q', r) →
  port_toks q' = mset (if decide (r = DeliverOk) then msg_tok m else []) ⊎ port_toks q.
Proof.
  intros Hd. pose proof (port_deliver_spec o q n m q' r Hd) as Hs. destruct (decide (r = DeliverOk)).
  - destruct Hs as (l & Hl & Hv). unfold port_toks. rewrite Hv, toks_insert, (toks_split _ (port_view q) n), Hl.
    cbn [from_option]. rewrite bind_app, mset_app. cbn [mbind list_bind]. rewrite app_nil_r. multiset_solver.
  - unfold port_toks. rewrite Hs. change (mset []) with (∅ : gmultiset Z). multiset_solver.
Qed.

Lemma recv_toks q n q' r : try_recv_msg q n = (q', r) →
  port_toks q = mset (from_option msg_tok [] r) ⊎ port_toks q'.
Proof.
  intros Hd. pose proof (port_recv_spec q n q' r Hd) as Hs. destruct r as [m|].
  - destruct Hs as (l & Hl & Hv). unfold port_toks. rewrite Hv, toks_insert, (toks_split _ (port_view q) n), Hl.
    cbn [from_option mbind list_bind]. rewrite mset_app. multiset_solver.
  - unfold port_toks. destruct Hs as [-> _]. change (mset _) with (∅ : gmultiset Z). multiset_solver.
Qed.

Lemma create_toks o q n q' : create_port o q n = Some q' → thread_lookup_port q n = false →
  port_toks q' = port_toks q.
Proof.
  intros Hc Hl. rewrite port_lookup_spec in Hl. apply bool_decide_eq_false in Hl.
  apply eq_None_not_Some in Hl. unfold port_toks. rewrite (port_create_spec o q n q' Hc Hl), toks_insert.
  rewrite delete_id by done. change (mset _) with (∅ : gmultiset Z). multiset_solver.
Qed.

Lemma unregister_toks q n : port_toks (unregister_port q n) ⊆ port_toks q.
Proof. unfold port_toks. rewrite port_unregister_spec, (toks_split _ (port_view q) n). multiset_solver. Qed.

Lemma pend_put m a p p' : m !! a = Some p →
  mset (pend_child <$> pending_exits p) ⊎ pend_toks (<[a := p']> m)
  = mset (pend_child <$> pending_exits p') ⊎ pend_toks m.
Proof.
  intros E. unfold pend_toks. rewrite toks_insert, (toks_split _ m a), E. cbn [from_option].
  generalize (mset (pend_child <$> pending_exits p)), (mset (pend_child <$> pending_exits p')). multiset_solver.
Qed.

Lemma same_core_put w a p p' : w_procs w !! a = Some p → core p' = core p → same_core w (put_proc w a p').
Proof.
  intros E Hc b. cbn. destruct (decide (a = b)) as [<-|Hne]; [by rewrite lookup_insert_eq, E; cbn; f_equal|].
  by rewrite lookup_insert_ne.
Qed.

Lemma same_core_refl w w' : w_procs w' = w_procs w → same_core w w'.
Proof. intros E a. by rewrite E. Qed.

Lemma pinv_ports x hold hold' w q : pinv x hold w →
  hold' ⊎ port_toks q ⊆ hold ⊎ port_toks (w_ports w) → pinv x hold' (set_ports w q).
Proof.
  intros Hi Hq. apply (pinv_frame x hold hold' w); try done.
  unfold tokens. cbn [w_ports w_jobs w_procs set_ports].
  generalize dependent (port_toks q). generalize (port_toks (w_ports w)). multiset_solver.
Qed.

Lemma pinv_pending x hold hold' w a p l : pinv x hold w → w_procs w !! a = Some p →
  hold' ⊎ mset (pend_child <$> l) ⊆ hold ⊎ mset (pend_child <$> pending_exits p) →
  pinv x hold' (put_proc w a (with_pending p l)).
Proof.
  intros Hi E Hq. apply (pinv_frame x hold hold' w); try done; try by apply (same_core_put _ _ p).
  unfold tokens. cbn [w_ports w_jobs w_procs put_proc set_procs].
  pose proof (pend_put (w_procs w) a p (with_pending p l) E) as Hp. cbn [pending_exits with_pending] in Hp.
  revert Hq Hp. generalize (pend_toks (<[a := with_pending p l]> (w_procs w))), (pend_toks (w_procs w)),
    (mset (pend_child <$> l)), (mset (pend_child <$> pending_exits p)). multiset_solver.
Qed.

Lemma pinv_jobs x hold hold' w cpu l : pinv x hold w →
  hold' ⊎ mset (job_child <$> l) ⊆ hold ⊎ mset (job_child <$> jobs_of w cpu) →
  pinv x hold' (set_jobs_of w cpu l).
Proof.
  intros Hi Hq. apply (pinv_frame x hold hold' w); try done.
  unfold tokens. cbn [w_ports w_jobs w_procs set_jobs_of set_jobs]. unfold job_toks.
  rewrite toks_insert, (toks_split _ (w_jobs w) cpu).
  assert (from_option (λ l, job_child <$> l) [] (w_jobs w !! cpu) = job_child <$> jobs_of w cpu) as ->
    by (unfold jobs_of; by destruct (w_jobs w !! cpu)).
  revert Hq. generalize (mset (job_child <$> l)), (mset (job_child <$> jobs_of w cpu)). multiset_solver.
Qed.

Lemma pinv_core x hold w a p p' : pinv x hold w → w_procs w !! a = Some p → core p' = core p →
  pending_exits p' = pending_exits p → pinv x hold (put_proc w a p').
Proof.
  intros Hi E Hc Hp. apply (pinv_frame x hold hold w); try done; try by apply (same_core_put _ _ p).
  unfold tokens. cbn [w_ports w_jobs w_procs put_proc set_procs].
  pose proof (pend_put (w_procs w) a p p' E) as Hpp. rewrite Hp in Hpp. revert Hpp.
  generalize (pend_toks (<[a := p']> (w_procs w))), (pend_toks (w_procs w)), (mset (pend_child <$> pending_exits p)).
  multiset_solver.
Qed.

Lemma pinv_emit x hold w l : pinv x hold w → pinv x hold (emit w l).
Proof. intros Hi. by apply (pinv_frame x hold hold w). Qed.

Lemma pinv_drop x hold hold' w : hold' ⊆ hold → pinv x hold w → pinv x hold' w.
Proof. intros Hs Hi. apply (pinv_frame x hold hold' w); try done. multiset_solver. Qed.
(** [w'] differs from [w] in the notifications only, and has at most [X] more. *)
Record moved w w' (X : gmultiset Z) : Prop := {
  mv_core : same_core w w';
  mv_thr : w_threads w' = w_threads w;
  mv_idx : w_index w' = w_index w;
  mv_jobs : w_jobs w' = w_jobs w;
  mv_toks : tokens w' ⊆ X ⊎ tokens w;
}.

Lemma same_core_trans w1 w2 w3 : same_core w1 w2 → same_core w2 w3 → same_core w1 w3.
Proof. intros H1 H2 a. by rewrite H2. Qed.

Lemma moves_trans w1 w2 w3 X Y : moved w1 w2 X → moved w2 w3 Y → moved w1 w3 (X ⊎ Y).
Proof.
  intros [Hc1 Ht1 Hi1 Hj1 Hk1] [Hc2 Ht2 Hi2 Hj2 Hk2].
  split; [by eapply same_core_trans|congruence..|multiset_solver].
Qed.

Lemma moved_sub w w' X Y : moved w w' X → X ⊆ Y → moved w w' Y.
Proof. intros [? ? ? ? ?] ?. split; try done. multiset_solver. Qed.

Lemma moved_ports w q X : port_toks q ⊆ X ⊎ port_toks (w_ports w) → moved w (set_ports w q) X.
Proof.
  intros Hq. split; try done. unfold tokens. cbn [w_ports w_jobs w_procs set_ports].
  revert Hq. generalize (port_toks q), (port_toks (w_ports w)). multiset_solver.
Qed.

Lemma moved_id w X : moved w w X.
Proof. split; try done. multiset_solver. Qed.

Lemma pinv_moved x hold hold' w w' X : moved w w' X → X ⊎ hold' ⊆ hold → pinv x hold w → pinv x hold' w'.
Proof. intros [? ? ? ? ?] Hs Hi. apply (pinv_frame x hold hold' w); try done. multiset_solver. Qed.

Lemma moved_live w w' X a : moved w w' X → is_Some (w_procs w !! a) → is_Some (w_procs w' !! a).
Proof. intros Hm [p E]. destruct (same_core_fwd _ _ _ _ (mv_core _ _ _ Hm) E) as (p' & E' & _). by exists p'. Qed.

(** Found processes are live. *)
Definition rows_live w : Prop := ∀ n a, (n, a) ∈ name_index_rows (w_index w) → is_Some (w_procs w !! a).

Lemma pinv_rows_live x hold w : pinv x hold w → rows_live w.
Proof. intros Hi n a Hin. destruct (pi_rows _ _ _ Hi n a Hin) as (p & E & _). by exists p. Qed.

Lemma moved_rows_live w w' X : moved w w' X → rows_live w → rows_live w'.
Proof. intros Hm Hr n a. rewrite (mv_idx _ _ _ Hm). intros Hin. by eapply moved_live, Hr. Qed.

Lemma find_live w pid c : rows_live w → find_proc_by_pid w pid = Some c → is_Some (w_procs w !! c).
Proof.
  intros Hr. unfold find_proc_by_pid. destruct (pid <=? 0); [done|].
  destruct (name_index_lookup (w_index w) (pid_name pid)) as [[v row]|] eqn:El; [|done].
  intros [= <-]. destruct (ni_lookup_Some _ _ _ _ El) as [_ Hin]. by eapply Hr.
Qed.

(** ** The operations on notifications *)

Lemma wait_port_spec o w pid : ∃ q r, proc_get_or_create_wait_port o w pid = (set_ports w q, r)
  ∧ port_toks q = port_toks (w_ports w).
Proof.
  assert (set_ports w (w_ports w) = w) as Hw by by destruct w.
  unfold proc_get_or_create_wait_port. destruct (pid <=? 0); [by exists (w_ports w), None; rewrite Hw|].
  destruct (wait_port_name pid) as [name [|n]]; [by exists (w_ports w), None; rewrite Hw|].
  destruct (thread_lookup_port (w_ports w) name) eqn:El; [by exists (w_ports w), (Some name); rewrite Hw|].
  destruct (create_port o (w_ports w) name) as [q|] eqn:Ec; [|by exists (w_ports w), None; rewrite Hw].
  exists q, (Some name). split; [done|]. by eapply create_toks.
Qed.

Lemma poke_spec o alloc w pid : ∃ q b, linux_proc_wait_poke o alloc w pid = (set_ports w q, b)
  ∧ port_toks q = port_toks (w_ports w).
Proof.
  assert (set_ports w (w_ports w) = w) as Hw by by destruct w.
  unfold linux_proc_wait_poke. destruct (pid <=? 0); [by exists (w_ports w), false; rewrite Hw|].
  destruct (wait_port_spec o w pid) as (q & r & -> & Hq). destruct r as [name|]; [|by exists q, false].
  unfold linux_proc_wait_post_interrupt. destruct alloc; cbn [negb]; [|by exists q, false].
  cbn [w_ports set_ports]. destruct (deliver_msg o q name WaitInterrupt) as [q1 r1] eqn:Ed.
  exists q1, (bool_decide (r1 = DeliverOk)). split; [done|].
  rewrite (deliver_toks _ _ _ _ _ _ Ed), Hq.
  destruct (decide _); change (mset _) with (∅ : gmultiset Z); multiset_solver.
Qed.

Lemma try_post_spec o alloc w pp child code : is_Some (w_procs w !! child) →
  ∃ w' r, linux_proc_try_post_exit_notify o alloc w pp child code = Some (w', r)
    ∧ moved w w' (if r is LINUX_PROC_TRY_DELIVERED then {[+ child +]} else ∅).
Proof.
  intros [c Ec]. unfold linux_proc_try_post_exit_notify, get_proc. rewrite Ec. cbn [mbind option_bind].
  destruct ((pp <=? 0) || _); [by eexists _, _; split; [|apply moved_id]|].
  destruct (wait_port_spec o w pp) as (q & r & -> & Hq). destruct r as [name|].
  2: { eexists _, _. split; [done|]. apply moved_ports. rewrite Hq. multiset_solver. }
  destruct alloc; cbn [negb].
  2: { eexists _, _. split; [done|]. apply moved_ports. rewrite Hq. multiset_solver. }
  cbn [w_ports set_ports]. destruct (deliver_msg o q name _) as [q1 r1] eqn:Ed.
  pose proof (deliver_toks _ _ _ _ _ _ Ed) as Ht. eexists _, _. split; [done|].
  apply (moved_ports w). rewrite Ht, Hq. cbn [msg_tok].
  destruct r1; first [rewrite decide_True by done | rewrite decide_False by done]; rewrite ?mset_one, ?mset_nil, ?(left_id_L ∅ (⊎)); (done || apply sub_add).
Qed.

Lemma tokens_put_pending w a p l : w_procs w !! a = Some p →
  mset (pend_child <$> pending_exits p) ⊎ tokens (put_proc w a (with_pending p l))
  = mset (pend_child <$> l) ⊎ tokens w.
Proof.
  intros E. pose proof (pend_put (w_procs w) a p (with_pending p l) E) as Hp.
  unfold tokens. cbn [w_ports w_jobs w_procs put_proc set_procs pending_exits with_pending] in *. revert Hp.
  generalize (pend_toks (<[a := with_pending p l]> (w_procs w))), (pend_toks (w_procs w)),
    (mset (pend_child <$> l)), (mset (pend_child <$> pending_exits p)). multiset_solver.
Qed.

Lemma mset_snoc b l : mset (l ++ [b]) = {[+ b +]} ⊎ mset l.
Proof.
  rewrite mset_app, mset_one. apply (comm_L (⊎)).
Qed.

Lemma push_spec alloc w a child code : is_Some (w_procs w !! a) → is_Some (w_procs w !! child) →
  ∃ w' b, linux_proc_wait_pending_push alloc w a child code = Some (w', b) ∧ moved w w' {[+ child +]}.
Proof.
  intros [p E] [c Ec]. unfold linux_proc_wait_pending_push, get_proc. rewrite Ec, E. cbn [mbind option_bind].
  destruct ((p_pid c <=? 0) || _); eexists _, _; (split; [done|]); [apply moved_id|].
  split; try done; [by apply (same_core_put _ _ p)|].
  pose proof (tokens_put_pending w a p (pending_exits p ++ [PendingExit child (p_pid c) code]) E) as Ht.
  rewrite fmap_app in Ht. cbn [fmap list_fmap pend_child] in Ht. rewrite mset_snoc in Ht.
  revert Ht. generalize (mset (pend_child <$> pending_exits p)), (tokens w),
    (tokens (put_proc w a (with_pending p (pending_exits p ++ [PendingExit child (p_pid c) code])))). multiset_solver.
Qed.

Lemma fallback_spec e w pp child code : rows_live w → is_Some (w_procs w !! child) →
  ∃ w', clean_exit_notify_fallback_pending e w pp child code = Some w' ∧ moved w w' {[+ child +]}.
Proof.
  intros Hr Hc. pose proof Hc as [c Ec]. unfold clean_exit_notify_fallback_pending, get_proc. rewrite Ec.
  cbn [mbind option_bind]. destruct (find_proc_by_pid w pp) as [parent|] eqn:Ef.
  2: { exists w. split; [done|apply moved_id]. }
  destruct (push_spec (pe_alloc e) w parent child code) as (w1 & b & -> & Hm); [by eapply find_live|done|].
  cbn [mbind option_bind fst snd]. destruct b; [|by exists w1].
  destruct (poke_spec (pe_deliver e) (pe_alloc e) w1 pp) as (q & b & -> & Hq). eexists. split; [done|].
  eapply moved_sub; [eapply moves_trans; [exact Hm|apply (moved_ports w1 q ∅); rewrite Hq; multiset_solver]|].
  multiset_solver.
Qed.

Lemma poll_job_spec e w j : rows_live w → is_Some (w_procs w !! job_child j) →
  ∃ w' b, poll_job e w j = Some (w', b) ∧ moved w w' (if b : bool then ∅ else {[+ job_child j +]}).
Proof.
  intros Hr Hc. unfold poll_job. destruct (find_proc_by_pid w (job_ppid j)).
  2: { exists w, false. split; [done|apply moved_id]. }
  destruct (try_post_spec (pe_deliver e) (pe_alloc e) w (job_ppid j) (job_child j) (job_code j) Hc)
    as (w1 & r & -> & Hm). cbn [mbind option_bind]. destruct r; [by eexists _, _|by eexists _, _|].
  destruct (fallback_spec e w1 (job_ppid j) (job_child j) (job_code j)) as (w2 & -> & Hm2);
    [by eapply moved_rows_live|by eapply moved_live|].
  eexists _, _. split; [done|]. eapply moved_sub; [by eapply moves_trans|multiset_solver].
Qed.

Lemma tokens_set_jobs w cpu l :
  mset (job_child <$> jobs_of w cpu) ⊎ tokens (set_jobs_of w cpu l) = mset (job_child <$> l) ⊎ tokens w.
Proof.
  unfold tokens. cbn [w_ports w_jobs w_procs set_jobs_of set_jobs]. unfold job_toks.
  rewrite toks_insert, (toks_split _ (w_jobs w) cpu).
  assert (from_option (λ l, job_child <$> l) [] (w_jobs w !! cpu) = job_child <$> jobs_of w cpu) as ->
    by (unfold jobs_of; by destruct (w_jobs w !! cpu)).
  generalize (mset (job_child <$> l)), (mset (job_child <$> jobs_of w cpu)). multiset_solver.
Qed.
(** [w'] has the processes, threads and registry of [w]. *)
Definition framed w w' : Prop := same_core w w' ∧ w_threads w' = w_threads w ∧ w_index w' = w_index w.

Lemma framed_refl w : framed w w.
Proof. done. Qed.
Lemma framed_trans w1 w2 w3 : framed w1 w2 → framed w2 w3 → framed w1 w3.
Proof. intros (? & ? & ?) (? & ? & ?). split; [by eapply same_core_trans|split; congruence]. Qed.
Lemma moved_framed w w' X : moved w w' X → framed w w'.
Proof. by intros [? ? ? ? ?]. Qed.
Lemma framed_live w w' a : framed w w' → is_Some (w_procs w !! a) → is_Some (w_procs w' !! a).
Proof. intros [Hc _] [p E]. destruct (same_core_fwd _ _ _ _ Hc E) as (p' & E' & _). by exists p'. Qed.

Lemma jobs_live x hold w cpu j l1 l2 : pinv x hold w → jobs_of w cpu = l1 ++ j :: l2 → is_Some (w_procs w !! job_child j).
Proof.
  intros Hi Hj. destruct (pi_tok _ _ _ Hi (job_child j)) as (p & E & _); [|by exists p].
  apply gmultiset_elem_of_disj_union. right. unfold tokens. rewrite !gmultiset_elem_of_disj_union. left. right.
  unfold job_toks. rewrite (toks_split _ _ cpu), gmultiset_elem_of_disj_union. left. apply elem_mset.
  unfold jobs_of in Hj. destruct (w_jobs w !! cpu) as [l|]; cbn in *; [|by destruct l1].
  rewrite Hj, fmap_app. cbn. set_solver.
Qed.

Lemma poll_jobs_inv x hold e todo : ∀ kept w, pinv x hold w → jobs_of w (pe_cpu e) = kept ++ todo →
  ∃ w', poll_jobs e w kept todo = Some w' ∧ pinv x hold w' ∧ framed w w'.
Proof.
  induction todo as [|j todo IH]; intros kept w Hi Hj; cbn [poll_jobs]; [by exists w|].
  destruct (poll_job_spec e w j) as (w1 & b & -> & Hm);
    [by eapply pinv_rows_live|by eapply jobs_live|]. cbn [mbind option_bind fst snd].
  set (kept' := if b then kept ++ [j] else kept). set (w2 := set_jobs_of w1 (pe_cpu e) (kept' ++ todo)).
  assert (jobs_of w1 (pe_cpu e) = kept ++ j :: todo) as Hj1 by (unfold jobs_of; by rewrite (mv_jobs _ _ _ Hm)).
  assert (pinv x hold w2) as Hi2.
  { destruct Hm as [? ? ? ? Hk]. apply (pinv_frame x hold hold w); try done.
    pose proof (tokens_set_jobs w1 (pe_cpu e) (kept' ++ todo)) as Ht. fold w2 in Ht. rewrite Hj1 in Ht.
    rewrite !fmap_app, fmap_cons, !mset_app, mset_cons in Ht.
    assert (mset (job_child <$> kept') ⊎ (if b then ∅ else {[+ job_child j +]}) = {[+ job_child j +]} ⊎ mset (job_child <$> kept)) as Hk'.
    { unfold kept'. destruct b; [|apply (comm_L (⊎))].
      rewrite fmap_app. cbn [fmap list_fmap]. rewrite mset_snoc. apply (right_id_L ∅ (⊎)). }
    clear -Ht Hk Hk'. revert Ht Hk Hk'.
    generalize (mset (job_child <$> kept')), (mset (job_child <$> kept)), (mset (job_child <$> todo)), (tokens w), (tokens w1), (tokens w2),
      (if b then ∅ else {[+ job_child j +]} : gmultiset Z). generalize (job_child j). multiset_solver. }
  destruct (IH kept' w2 Hi2) as (w' & -> & Hi' & Hf).
  { unfold w2, jobs_of. cbn. by rewrite lookup_insert_eq. }
  exists w'. split_and!; [done|done|]. by eapply framed_trans; [eapply framed_trans; [by eapply moved_framed|]|].
Qed.

Lemma async_inv x hold e w pp child code : pinv x ({[+ child +]} ⊎ hold) w →
  ∃ w', clean_async_exit_notify e w pp child code = Some w' ∧ pinv x hold w' ∧ framed w w'.
Proof.
  intros Hi. unfold clean_async_exit_notify, clean_poll_exit_notify_jobs.
  destruct (poll_jobs_inv x _ e (jobs_of w (pe_cpu e)) [] w Hi eq_refl) as (w1 & -> & Hi1 & Hf1).
  cbn [mbind option_bind fst]. destruct (pi_tok _ _ _ Hi1 child) as (c & Ec & _); [multiset_solver|].
  unfold get_proc. rewrite Ec. cbn [mbind option_bind].
  destruct ((pp <=? 0) || _).
  { exists w1. split_and!; [done| |done]. eapply pinv_drop; [|done]. apply sub_add. }
  destruct (try_post_spec (pe_deliver e) (pe_alloc e) w1 pp child code) as (w2 & r & -> & Hm); [by exists c|].
  cbn [mbind option_bind]. pose proof (moved_framed _ _ _ Hm) as Hf2.
  assert (framed w w2) as Hf by by eapply framed_trans.
  assert (r ≠ LINUX_PROC_TRY_DELIVERED → pinv x ({[+ child +]} ⊎ hold) w2) as Hi2.
  { intros Hr. eapply pinv_moved; [exact Hm| |exact Hi1]. destruct r; [done|..]; by rewrite (left_id_L ∅ (⊎)). }
  assert (∃ w', clean_exit_notify_fallback_pending e w2 pp child code = Some w' ∧ moved w2 w' {[+ child +]})
    as (w3 & Hfb & Hm3).
  { apply fallback_spec; [by eapply moved_rows_live; [|eapply pinv_rows_live]|]. eapply framed_live; [exact Hf2|by exists c]. }
  assert (framed w w3) as Hf3 by by eapply framed_trans; [|eapply moved_framed].
  destruct r.
  - exists w2. split_and!; [done| |done]. by eapply pinv_moved; [exact Hm| |exact Hi1].
  - destruct (negb (pe_alloc e)).
    + exists w3. split_and!; [done| |done]. eapply pinv_moved; [exact Hm3| |by apply Hi2]. done.
    + eexists. split_and!; [done| |exact Hf].
      eapply pinv_jobs; [by apply Hi2|]. rewrite fmap_app. cbn [fmap list_fmap job_child]. rewrite mset_snoc.
      generalize (mset (job_child <$> jobs_of w2 (pe_cpu e))). multiset_solver.
  - exists w3. split_and!; [done| |done]. eapply pinv_moved; [exact Hm3| |by apply Hi2]. done.
Qed.

(** ** Taking a notification *)

Lemma matches_total w want cpid p : rows_live w → ∃ b, linux_proc_wait_pid_matches w want cpid p = Some b.
Proof.
  intros Hr. unfold linux_proc_wait_pid_matches. destruct (want =? -1); [by eexists|].
  destruct (0 <? want); [by eexists|]. destruct (find_proc_by_pid w cpid) as [c|] eqn:Ef; [|by eexists].
  destruct (find_live w cpid c Hr Ef) as [q Eq]. unfold get_proc. rewrite Eq. by eexists.
Qed.

Lemma pending_find_spec w want p l : rows_live w → ∀ before,
  ∃ r, pending_find w want p before l = Some r
    ∧ match r with
      | None => True
      | Some (x, rest) => mset (pend_child <$> (before ++ l)) = {[+ pend_child x +]} ⊎ mset (pend_child <$> rest)
      end.
Proof.
  intros Hr. induction l as [|x l IH]; intros before; cbn [pending_find]; [by eexists|].
  destruct (matches_total w want (pend_pid x) p Hr) as [[|] ->]; cbn [mbind option_bind].
  - eexists. split; [done|]. rewrite !fmap_app, fmap_cons, !mset_app, mset_cons.
    generalize (mset (pend_child <$> before)), (mset (pend_child <$> l)). multiset_solver.
  - destruct (IH (before ++ [x])) as (r & -> & Hm). exists r. split; [done|]. by rewrite <- app_assoc in Hm.
Qed.

Lemma take_inv x hold w a want : pinv x hold w → is_Some (w_procs w !! a) →
  ∃ w' r, linux_proc_wait_pending_take w a want = Some (w', r) ∧ framed w w'
    ∧ match r with None => pinv x hold w' | Some (c, _) => pinv x ({[+ c +]} ⊎ hold) w' end.
Proof.
  intros Hi [p E]. unfold linux_proc_wait_pending_take, get_proc. rewrite E. cbn [mbind option_bind].
  destruct (pending_find_spec w want p (pending_exits p) (pinv_rows_live _ _ _ Hi) []) as (r & -> & Hr).
  cbn [mbind option_bind]. destruct r as [[y rest]|]; eexists _, _; (split; [done|]); [|done].
  split; [split; [by apply (same_core_put _ _ p)|done]|]. eapply pinv_pending; [done|done|].
  cbn [app] in Hr. rewrite Hr. generalize (mset (pend_child <$> rest)). multiset_solver.
Qed.
(** ** The registry *)

Lemma evict_rows_spec fuel : ∀ (i : NI) n, (length (name_index_rows i) < fuel)%nat →
  (∀ r, r ∈ name_index_rows (evict_rows fuel i n) → r ∈ name_index_rows i)
  ∧ ∀ a, (n, a) ∉ name_index_rows (evict_rows fuel i n).
Proof.
  induction fuel as [|fuel IH]; intros i n Hl; [lia|]. cbn [evict_rows].
  destruct (name_index_lookup i n) as [[v [row|]]|] eqn:El.
  - pose proof (ni_unregister_spec i n v row El) as Hp.
    destruct (IH (name_index_unregister i v row n) n) as [Hs Hn].
    { apply Permutation_length in Hp. cbn in Hp. lia. }
    split; [|done]. intros r Hr. rewrite <- Hp. right. by apply Hs.
  - by destruct (ni_lookup_Some _ _ _ _ El) as [[? ?] _].
  - split; [done|]. intros a. by apply ni_lookup_None.
Qed.

Lemma pinv_index x hold w i : pinv x hold w →
  (∀ n a, (n, a) ∈ name_index_rows i → ∃ p, w_procs w !! a = Some p ∧ n = pid_name (p_pid p)) →
  pinv x hold (set_index w i).
Proof. intros [? ? ? ? ? ? ? ? ? ? ?] Hr. split; try done. Qed.

Lemma evict_pid_inv x hold w pid : pinv x hold w → 0 < pid →
  pinv x hold (proc_registry_evict_pid w pid)
  ∧ ∀ a, (pid_name pid, a) ∉ name_index_rows (w_index (proc_registry_evict_pid w pid)).
Proof.
  intros Hi Hp. unfold proc_registry_evict_pid. rewrite (proj2 (Z.leb_gt _ _)) by done.
  destruct (evict_rows_spec (S (length (name_index_rows (w_index w)))) (w_index w) (pid_name pid)) as [Hs Hn]; [lia|].
  split; [|done]. apply pinv_index; [done|]. intros n a Hin. by apply (pi_rows _ _ _ Hi), Hs.
Qed.

Lemma reparent_inv x hold fuel old new : ∀ w k, pinv x hold w →
  ∃ w', reparent_from fuel w k old new = Some w' ∧ pinv x hold w' ∧ framed w w'
    ∧ ∀ a, pending_exits <$> w_procs w' !! a = pending_exits <$> w_procs w !! a.
Proof.
  induction fuel as [|fuel IH]; intros w k Hi; cbn [reparent_from]; [by exists w|].
  destruct (find_proc_by_pid w k) as [c|] eqn:Ef; cbn [mbind option_bind].
  2: { destruct (IH w (k + 1) Hi) as (w' & ? & ? & ? & ?). by exists w'. }
  destruct (find_live w k c (pinv_rows_live _ _ _ Hi) Ef) as [p E]. unfold get_proc. rewrite E. cbn [mbind option_bind].
  destruct (ppid p =? old); [|by destruct (IH w (k + 1) Hi) as (w' & ? & ? & ? & ?); exists w'].
  destruct (IH (put_proc w c (with_ppid p new)) (k + 1)) as (w' & -> & ? & Hf & Hpe); [by eapply pinv_core|].
  exists w'. split_and!; [done|done| |].
  - eapply framed_trans; [|done]. split; [by eapply same_core_put|done].
  - intros a. rewrite Hpe. cbn. destruct (decide (c = a)) as [<-|Hne]; [by rewrite lookup_insert_eq, E|].
    by rewrite lookup_insert_ne.
Qed.

Lemma put_proc_get w a p : w_procs (put_proc w a p) !! a = Some p.
Proof. apply lookup_insert_eq. Qed.

(** Everything that is not about the process itself is gone. *)
Lemma fini_inv x hold w a p : pinv x hold w → w_procs w !! a = Some p →
  ∃ w', linux_proc_fini w a = Some w' ∧ pinv x hold w' ∧ same_core w w' ∧ w_threads w' = w_threads w
    ∧ (∀ n, (n, a) ∉ name_index_rows (w_index w')) ∧ (pending_exits <$> w_procs w' !! a) = Some []
    ∧ ∀ b, (pid_name (p_pid p), b) ∉ name_index_rows (w_index w').
Proof.
  intros Hi E. pose proof (pi_pos _ _ _ Hi a p E) as Hpid. unfold linux_proc_fini, linux_proc_wait_pending_drain, get_proc. rewrite E. cbn [mbind option_bind].
  set (w1 := put_proc w a (with_pending p [])).
  assert (pinv x hold w1) as Hi1.
  { eapply pinv_pending; [done|done|]. cbn [fmap list_fmap]. rewrite mset_nil.
    generalize (mset (pend_child <$> pending_exits p)). multiset_solver. }
  assert (w_procs w1 !! a = Some (with_pending p [])) as -> by apply put_proc_get.
  cbn [mbind option_bind p_pid with_pending]. unfold proc_reparent_children.
  rewrite (proj2 (Z.leb_gt _ _)) by done.
  destruct (reparent_inv x hold (Z.to_nat (PROC_PID_SCAN_MAX - 1)) (p_pid p) LINUX_INIT_REAP_PPID w1 1 Hi1)
    as (w2 & -> & Hi2 & (Hc2 & Ht2 & _) & Hp2). cbn [mbind option_bind].
  set (w3 := emit (proc_unregister_wait_port w2 (p_pid p)) [EffUnregisterClientPort (p_pid p)]).
  assert (pinv x hold w3 ∧ w_procs w3 = w_procs w2 ∧ w_threads w3 = w_threads w2) as (Hi3 & Hp3 & Ht3).
  { split; [|unfold w3, proc_unregister_wait_port; destruct (p_pid p <=? 0); [done|];
             by destruct (wait_port_name (p_pid p)) as [? [|?]]].
    apply pinv_emit. unfold proc_unregister_wait_port. destruct (p_pid p <=? 0); [done|].
    destruct (wait_port_name (p_pid p)) as [n [|k]]; [done|]. apply (pinv_ports x hold hold); [done|].
    pose proof (unregister_toks (w_ports w2) n) as Hu. revert Hu.
    generalize (port_toks (unregister_port (w_ports w2) n)), (port_toks (w_ports w2)). multiset_solver. }
  assert (same_core w w2) as Hc.
  { apply (same_core_trans w w1); [|exact Hc2]. by apply (same_core_put w a p). }
  destruct (same_core_fwd _ _ _ _ Hc E) as (p2 & E2 & (_ & Hpid2 & _)%core_inv).
  unfold unregister_process, get_proc. rewrite Hp3, E2. cbn [mbind option_bind]. rewrite Hpid2.
  destruct (evict_pid_inv x hold w3 (p_pid p) Hi3 Hpid) as [Hi4 Hno].
  eexists. split; [done|]. set (w4 := proc_registry_evict_pid w3 (p_pid p)) in *.
  assert (w_procs w4 = w_procs w3 ∧ w_threads w4 = w_threads w3) as [Hp4 Ht4]
    by (unfold w4, proc_registry_evict_pid; by destruct (p_pid p <=? 0)).
  split_and!.
  - by apply pinv_emit.
  - intros b. cbn. rewrite Hp4, Hp3. apply Hc.
  - cbn. by rewrite Ht4, Ht3, Ht2.
  - intros n Hin. cbn in Hin. destruct (pi_rows _ _ _ Hi4 n a Hin) as (p4 & E4 & ->).
    rewrite Hp4, Hp3, E2 in E4. injection E4 as <-. rewrite Hpid2 in Hin. by apply (Hno a).
  - cbn. rewrite Hp4, Hp3, Hp2. cbn. by rewrite lookup_insert_eq.
  - exact Hno.
Qed.

(** ** Dropping references *)

(** Freeing a process nothing refers to. *)
Lemma free_proc_inv hold w a p : pinv None hold w → w_procs w !! a = Some p → thread_list p = [] →
  (∀ n, (n, a) ∉ name_index_rows (w_index w)) → a ∉ hold ⊎ tokens w → pending_exits p = [] →
  pinv None hold (set_procs w (delete a (w_procs w))).
Proof.
  intros Hi E Hl Hrows Htok Hpe.
  assert (tokens (set_procs w (delete a (w_procs w))) = tokens w) as Ht.
  { unfold tokens. cbn [w_ports w_jobs w_procs set_procs]. f_equal. unfold pend_toks.
    rewrite (toks_split _ (w_procs w) a), E. cbn [from_option]. rewrite Hpe. cbn [fmap list_fmap].
    rewrite mset_nil. by rewrite (left_id_L ∅ (⊎)). }
  split; cbn [w_procs w_threads w_index set_procs]; rewrite ?Ht.
  - intros b q Hq. apply lookup_delete_Some in Hq as [_ Hq]. by apply Hi.
  - intros b q Hq. apply lookup_delete_Some in Hq as [_ Hq]. by eapply pi_num.
  - intros b q Hq. apply lookup_delete_Some in Hq as [_ Hq]. by eapply pi_nodup.
  - intros b q t Hq. apply lookup_delete_Some in Hq as [_ Hq]. by eapply pi_thr.
  - intros t th b Hth Hr. destruct (pi_res _ _ _ Hi t th b Hth Hr) as (q & Hq & Hin). exists q.
    rewrite lookup_delete_ne; [done|]. intros <-. rewrite E in Hq. injection Hq as <-. rewrite Hl in Hin.
    by apply not_elem_of_nil in Hin.
  - intros b q t th Hq. apply lookup_delete_Some in Hq as [_ Hq]. by eapply pi_hint.
  - intros b. by apply Hi.
  - intros b Hin. destruct (pi_tok _ _ _ Hi b Hin) as (q & Hq & ?). exists q.
    rewrite lookup_delete_ne; [done|]. by intros <-.
  - intros n b Hin. destruct (pi_rows _ _ _ Hi n b Hin) as (q & Hq & ?). exists q.
    rewrite lookup_delete_ne; [done|]. intros <-. by apply (Hrows n).
  - done.
  - intros b q Hq. apply lookup_delete_Some in Hq as [_ Hq]. by apply (pi_pos _ _ _ Hi b).
Qed.

(** A change of one process and of its threads.  [x'], [hold']: what the
    caller holds afterwards. *)
Record change_ok (x x' : option Z) (hold hold' : gmultiset Z) w w' a (p p' : linux_proc_resource) : Prop := {
  ch_procs : w_procs w' = <[a := p']> (w_procs w);
  ch_index : w_index w' = w_index w;
  ch_pid : p_pid p' = p_pid p;
  ch_ref : p_refcount p' = 1 + thread_number p' + extra x' a;
  ch_num : thread_number p' = Z.of_nat (length (thread_list p'));
  ch_nodup : NoDup (thread_list p');
  ch_thr t : t ∈ thread_list p' → ∃ th, w_threads w' !! t = Some th ∧ th_res th = Some a;
  ch_res t th : w_threads w' !! t = Some th → th_res th = Some a → t ∈ thread_list p';
  ch_others b q t : b ≠ a → w_procs w !! b = Some q → t ∈ thread_list q → w_threads w' !! t = w_threads w !! t;
  ch_new t th b : b ≠ a → w_threads w' !! t = Some th → th_res th = Some b → w_threads w !! t = Some th;
  ch_hint t th : exit_last_thread (p_exit p') = true → t ∈ thread_list p' → w_threads w' !! t = Some th →
    thread_list p' = [t] ∧ th_status th = ThZombie;
  ch_toks b : b ≠ a → (multiplicity b (hold' ⊎ tokens w') ≤ multiplicity b (hold ⊎ tokens w))%nat;
  ch_tok1 : (multiplicity a (hold' ⊎ tokens w') ≤ 1)%nat;
  ch_tok : a ∈ hold' ⊎ tokens w' → exit_st (p_exit p') = LINUX_EXIT_NOTIFIED ∧ thread_list p' = []
    ∧ exit_last_thread (p_exit p') = true;
  ch_extra b : b ≠ a → extra x' b = extra x b;
}.

Lemma pinv_change x x' hold hold' w w' a p p' : pinv x hold w → w_procs w !! a = Some p →
  change_ok x x' hold hold' w w' a p p' → pinv x' hold' w'.
Proof.
  intros Hi E [Hpr Hix Hpid Href Hnum Hnd Hthr Hres Hoth Hnew Hhint Htoks Htok1 Htok Hext].
  assert (∀ b q, w_procs w' !! b = Some q → b ≠ a ∧ w_procs w !! b = Some q ∨ b = a ∧ q = p') as Hback.
  { intros b q. rewrite Hpr. intros [[<- <-]|[Hne Hq]]%lookup_insert_Some; [by right|left; by split; [congruence|]]. }
  assert (∀ b q, b ≠ a → w_procs w !! b = Some q → w_procs w' !! b = Some q) as Hfwd
    by (intros b q Hb Hq; by rewrite Hpr, lookup_insert_ne).
  assert (w_procs w' !! a = Some p') as E' by (by rewrite Hpr, lookup_insert_eq).
  split.
  - intros b q Hq. destruct (Hback b q Hq) as [[Hb Hq']|[-> ->]]; [|done]. rewrite Hext by done. by apply Hi.
  - intros b q Hq. destruct (Hback b q Hq) as [[Hb Hq']|[-> ->]]; [|done]. by eapply pi_num.
  - intros b q Hq. destruct (Hback b q Hq) as [[Hb Hq']|[-> ->]]; [|done]. by eapply pi_nodup.
  - intros b q t Hq Hin. destruct (Hback b q Hq) as [[Hb Hq']|[-> ->]]; [|by apply Hthr].
    rewrite (Hoth b q t Hb Hq' Hin). by eapply pi_thr.
  - intros t th b Hth Hr. destruct (decide (b = a)) as [->|Hb]; [exists p'; split; [done|by eapply Hres]|].
    destruct (pi_res _ _ _ Hi t th b (Hnew t th b Hb Hth Hr) Hr) as (q & Hq & ?). exists q. by split; [apply Hfwd|].
  - intros b q t th Hq Hl Hin Hth. destruct (Hback b q Hq) as [[Hb Hq']|[-> ->]]; [|by apply Hhint].
    rewrite (Hoth b q t Hb Hq' Hin) in Hth. by eapply pi_hint.
  - intros b. destruct (decide (b = a)) as [->|Hb]; [done|]. etrans; [by apply Htoks|apply Hi].
  - intros b Hin. destruct (decide (b = a)) as [->|Hb]; [exists p'; by split; [|apply Htok]|].
    destruct (pi_tok _ _ _ Hi b) as (q & Hq & ?).
    { rewrite elem_of_multiplicity in *. specialize (Htoks b Hb). lia. }
    exists q. by split; [apply Hfwd|].
  - intros n b. rewrite Hix. intros Hin. destruct (pi_rows _ _ _ Hi n b Hin) as (q & Hq & ->).
    destruct (decide (b = a)) as [->|Hb]; [|exists q; by split; [apply Hfwd|]].
    exists p'. split; [done|]. rewrite E in Hq. injection Hq as <-. by rewrite Hpid.
  - intros b ->. destruct (decide (b = a)) as [->|Hb]; [by exists p'|]. specialize (Hext b Hb). unfold extra in Hext.
    rewrite decide_True in Hext by done. destruct (decide (x = Some b)) as [Hx|]; [|lia].
    destruct (pi_ext _ _ _ Hi b Hx) as [q Hq]. exists q. by apply Hfwd.
  - intros b q Hq. destruct (Hback b q Hq) as [[Hb Hq']|[-> ->]]; [by apply (pi_pos _ _ _ Hi b)|].
    rewrite Hpid. by apply (pi_pos _ _ _ Hi a).
Qed.

(** The notifications do not change with the process. *)
Lemma tokens_change w w' a p p' : w_procs w !! a = Some p → w_procs w' = <[a := p']> (w_procs w) →
  w_ports w' = w_ports w → w_jobs w' = w_jobs w → pending_exits p' = pending_exits p → tokens w' = tokens w.
Proof.
  intros E Hp Hq Hj Hpe. unfold tokens. rewrite Hp, Hq, Hj. f_equal.
  pose proof (pend_put (w_procs w) a p p' E) as Hpp. rewrite Hpe in Hpp. revert Hpp.
  apply (inj (mset (pend_child <$> pending_exits p) ⊎.)).
Qed.

(** What a process with a thread is not. *)
Lemma thread_no_tok x hold w a p t : pinv x hold w → w_procs w !! a = Some p → t ∈ thread_list p →
  a ∉ hold ⊎ tokens w.
Proof.
  intros Hi E Hin Ha. destruct (pi_tok _ _ _ Hi a Ha) as (q & Eq & _ & Hl & _).
  rewrite E in Eq. injection Eq as <-. rewrite Hl in Hin. by apply not_elem_of_nil in Hin.
Qed.

Lemma mult_0 (a : Z) (X : gmultiset Z) : a ∉ X → multiplicity a X = 0%nat.
Proof. rewrite elem_of_multiplicity. lia. Qed.

(** A change of a process that keeps its threads and its notifications: the
    reference count, or its exit status. *)
Lemma pinv_same_threads x x' hold w a p p' : pinv x hold w → w_procs w !! a = Some p →
  p_pid p' = p_pid p → thread_number p' = thread_number p → thread_list p' = thread_list p →
  pending_exits p' = pending_exits p → p_refcount p' = 1 + thread_number p' + extra x' a →
  (∀ b, b ≠ a → extra x' b = extra x b) →
  (exit_last_thread (p_exit p') = true → exit_last_thread (p_exit p) = true ∨ thread_list p = []) →
  (a ∈ hold ⊎ tokens w → p_exit p' = p_exit p) →
  pinv x' hold (put_proc w a p').
Proof.
  intros Hi E Hpid Hn Hl Hpe Hr Hx Hlast Htok.
  assert (tokens (put_proc w a p') = tokens w) as Ht by by apply (tokens_change w _ a p p').
  apply (pinv_change x x' hold hold w _ a p p' Hi E).
  split; rewrite ?Ht, ?Hn, ?Hl; try done.
  - by rewrite <- Hn.
  - by apply (pi_num _ _ _ Hi a).
  - by apply (pi_nodup _ _ _ Hi a).
  - intros t. by apply (pi_thr _ _ _ Hi a).
  - intros t th Hth Hr'. destruct (pi_res _ _ _ Hi t th a Hth Hr') as (q & Hq & ?). rewrite E in Hq. by injection Hq as <-.
  - intros t th Hl' Hin Hth. destruct (Hlast Hl') as [Hh|Hnil]; [by eapply pi_hint|].
    rewrite Hnil in Hin. by apply not_elem_of_nil in Hin.
  - apply Hi.
  - intros Ha. rewrite (Htok Ha). destruct (pi_tok _ _ _ Hi a Ha) as (q & Hq & ?). rewrite E in Hq. by injection Hq as <-.
Qed.

(** The reference of the caller is dropped, or taken. *)
Lemma put_work_inv a hold w : pinv (Some a) hold w →
  ∃ p, w_procs w !! a = Some p ∧ linux_proc_put w a = Some (put_proc w a (with_refcount p (p_refcount p - 1)))
    ∧ pinv None hold (put_proc w a (with_refcount p (p_refcount p - 1))).
Proof.
  intros Hi. destruct (pi_ext _ _ _ Hi a eq_refl) as [p E]. unfold linux_proc_put, get_proc. rewrite E.
  cbn [mbind option_bind]. pose proof (pi_ref _ _ _ Hi a p E) as Hr. pose proof (pi_num _ _ _ Hi a p E) as Hn.
  rewrite extra_Some in Hr. rewrite (proj2 (Z.eqb_neq _ 0)) by lia.
  exists p. split_and!; [done|done|]. apply (pinv_same_threads (Some a) None hold w a p); try done.
  - rewrite extra_None. cbn. lia.
  - intros b Hb. by rewrite extra_None, extra_ne.
  - naive_solver.
Qed.

Lemma get_work_inv a hold w p : pinv None hold w → w_procs w !! a = Some p →
  proc_ref_get_not_zero w a = Some (put_proc w a (with_refcount p (p_refcount p + 1)), true)
  ∧ pinv (Some a) hold (put_proc w a (with_refcount p (p_refcount p + 1))).
Proof.
  intros Hi E. unfold proc_ref_get_not_zero, get_proc. rewrite E. cbn [mbind option_bind].
  pose proof (pi_ref _ _ _ Hi a p E) as Hr. pose proof (pi_num _ _ _ Hi a p E) as Hn.
  rewrite extra_None in Hr. rewrite (proj2 (Z.eqb_neq _ 0)) by lia. split; [done|].
  apply (pinv_same_threads None (Some a) hold w a p); try done.
  - rewrite extra_Some. cbn. lia.
  - intros b Hb. by rewrite extra_None, extra_ne.
  - naive_solver.
Qed.
(** ** Reaping *)

(** Nothing else about the other processes changes. *)
Definition others_same a w w' : Prop := ∀ b, b ≠ a → core <$> w_procs w' !! b = core <$> w_procs w !! b.

Lemma others_same_core a w w' : same_core w w' → others_same a w w'.
Proof. intros Hc b _. apply Hc. Qed.
Lemma others_same_trans a w1 w2 w3 : others_same a w1 w2 → others_same a w2 w3 → others_same a w1 w3.
Proof. intros H1 H2 b Hb. by rewrite H2, H1. Qed.
Lemma others_same_put a w p : others_same a w (put_proc w a p).
Proof. intros b Hb. cbn. by rewrite lookup_insert_ne. Qed.

(** Claiming and finishing a process whose end nobody announces. *)
Lemma claim_fini_inv x hold w a p : pinv x hold w → w_procs w !! a = Some p → thread_list p = [] →
  a ∉ hold ⊎ tokens w →
  ∃ w' p', linux_proc_fini (put_proc w a (set_exit_state p LINUX_EXIT_CLAIMED)) a = Some w' ∧ pinv x hold w'
    ∧ w_procs w' !! a = Some p' ∧ core p' = core (set_exit_state p LINUX_EXIT_CLAIMED) ∧ pending_exits p' = []
    ∧ w_threads w' = w_threads w ∧ a ∉ hold ⊎ tokens w' ∧ others_same a w w'
    ∧ (∀ n, (n, a) ∉ name_index_rows (w_index w')) ∧ ∀ b, (pid_name (p_pid p), b) ∉ name_index_rows (w_index w').
Proof.
  intros Hi E Hl Htok. set (p1 := set_exit_state p LINUX_EXIT_CLAIMED).
  assert (pinv x hold (put_proc w a p1)) as Hi1.
  { apply (pinv_same_threads x x hold w a p); try done; [apply (pi_ref _ _ _ Hi a p E)|by right]. }
  destruct (fini_inv x hold (put_proc w a p1) a p1 Hi1) as (w' & Hf & Hi' & Hc & Ht & Hrows & Hpe & Hn);
    [apply put_proc_get|].
  destruct (same_core_fwd _ _ a p1 Hc) as (p' & E' & Hcp); [apply put_proc_get|].
  exists w', p'. split_and!; try done.
  - rewrite E' in Hpe. by injection Hpe.
  - intros Ha. destruct (pi_tok _ _ _ Hi' a Ha) as (q & Eq & Hst & _). rewrite E' in Eq. injection Eq as <-.
    apply core_inv in Hcp as (_ & _ & _ & _ & Hst' & _). rewrite Hst' in Hst. done.
  - eapply others_same_trans; [apply others_same_put|by apply others_same_core].
Qed.

Lemma put_free w a p : w_procs w !! a = Some p → p_refcount p = 1 →
  linux_proc_put w a = Some (set_procs w (delete a (w_procs w))).
Proof. intros E Hr. unfold linux_proc_put, get_proc. rewrite E. cbn [mbind option_bind]. by rewrite Hr. Qed.

Lemma others_same_delete a w : others_same a w (set_procs w (delete a (w_procs w))).
Proof. intros b Hb. cbn. by rewrite lookup_delete_ne. Qed.

Definition reapable (s : exit_state) : Prop := s = LINUX_EXIT_ZOMBIE ∨ s = LINUX_EXIT_NOTIFIED.

Lemma reap_run ret w a p : w_procs w !! a = Some p → thread_number p = 0 → reapable (exit_st (p_exit p)) →
  linux_proc_reap ret w a =
    (w1 ← linux_proc_fini (put_proc w a (set_exit_state p LINUX_EXIT_CLAIMED)) a;
     w2 ← linux_proc_put w1 a; Some (w2, ret)).
Proof.
  intros E Hn Hs. unfold linux_proc_reap, get_proc. rewrite E. cbn [mbind option_bind]. rewrite Hn. cbn [Z.eqb negb].
  by destruct Hs as [-> | ->].
Qed.

(** The parent reaps: the process is freed. *)
Lemma reap_inv ret hold w a p : pinv None hold w → w_procs w !! a = Some p → thread_list p = [] →
  reapable (exit_st (p_exit p)) → a ∉ hold ⊎ tokens w →
  ∃ w', linux_proc_reap ret w a = Some (w', ret) ∧ pinv None hold w' ∧ w_procs w' !! a = None
    ∧ w_threads w' = w_threads w ∧ others_same a w w' ∧ find_proc_by_pid w' (p_pid p) = None.
Proof.
  intros Hi E Hl Hs Htok. pose proof (pi_num _ _ _ Hi a p E) as Hn. rewrite Hl in Hn. cbn in Hn.
  rewrite (reap_run ret w a p E Hn Hs).
  destruct (claim_fini_inv None hold w a p Hi E Hl Htok)
    as (w1 & p1 & -> & Hi1 & E1 & Hc1 & Hpe1 & Ht1 & Htok1 & Ho1 & Hr1 & Hn1). cbn [mbind option_bind].
  pose proof (core_inv _ _ Hc1) as (Href & _ & _ & Hl1 & _). pose proof (pi_ref _ _ _ Hi a p E) as Hr.
  rewrite extra_None, Hn in Hr. rewrite (put_free w1 a p1 E1) by (rewrite Href; cbn; lia).
  cbn [mbind option_bind]. eexists. split; [done|]. split_and!.
  - apply (free_proc_inv hold w1 a p1); try done. by rewrite Hl1.
  - apply lookup_delete_eq.
  - done.
  - eapply others_same_trans; [done|apply others_same_delete].
  - unfold find_proc_by_pid. destruct (p_pid p <=? 0); [done|]. cbn.
    destruct (name_index_lookup (w_index w1) (pid_name (p_pid p))) as [[v row]|] eqn:El; [|done].
    destruct (ni_lookup_Some _ _ _ _ El) as [_ Hin]. by destruct (Hn1 v).
Qed.

(** The clean-up server reaps, and drops its own reference afterwards. *)
Lemma reap_work_inv ret hold w a p : pinv (Some a) hold w → w_procs w !! a = Some p → thread_list p = [] →
  exit_st (p_exit p) = LINUX_EXIT_ZOMBIE → a ∉ hold ⊎ tokens w →
  ∃ w' w'', linux_proc_reap ret w a = Some (w', ret) ∧ linux_proc_put w' a = Some w''
    ∧ pinv None hold w'' ∧ w_procs w'' !! a = None ∧ w_threads w'' = w_threads w ∧ others_same a w w''.
Proof.
  intros Hi E Hl Hs Htok. pose proof (pi_num _ _ _ Hi a p E) as Hn. rewrite Hl in Hn. cbn in Hn.
  rewrite (reap_run ret w a p E Hn (or_introl Hs)).
  destruct (claim_fini_inv (Some a) hold w a p Hi E Hl Htok)
    as (w1 & p1 & -> & Hi1 & E1 & Hc1 & Hpe1 & Ht1 & Htok1 & Ho1 & Hr1 & _). cbn [mbind option_bind].
  destruct (put_work_inv a hold w1 Hi1) as (q & Eq & -> & Hi2). rewrite E1 in Eq. injection Eq as <-.
  cbn [mbind option_bind]. set (p2 := with_refcount p1 (p_refcount p1 - 1)) in *. eexists _, _. split; [done|].
  pose proof (core_inv _ _ Hc1) as (Href & _ & _ & Hl1 & _). pose proof (pi_ref _ _ _ Hi a p E) as Hr.
  rewrite extra_Some, Hn in Hr. rewrite (put_free (put_proc w1 a p2) a p2 (put_proc_get _ _ _)) by (unfold p2; cbn; rewrite Href; cbn; lia).
  split; [done|]. split_and!.
  - apply (free_proc_inv hold _ a p2); try done; [apply put_proc_get|cbn; by rewrite Hl1|].
    rewrite (tokens_change w1 _ a p1 p2); try done.
  - apply lookup_delete_eq.
  - done.
  - eapply others_same_trans; [eapply others_same_trans; [done|apply others_same_put]|apply others_same_delete].
Qed.
(** ** Threads *)

Lemma filter_length_1 (l : list Z) t : NoDup l → t ∈ l → length l = S (length (filter (λ u, u ≠ t) l)).
Proof.
  intros Hnd Hin. apply list_elem_of_split in Hin as (l1 & l2 & ->).
  apply NoDup_app in Hnd as (_ & Hd & Hnd2). apply NoDup_cons in Hnd2 as [Hn2 _].
  assert (∀ l0 : list Z, t ∉ l0 → filter (λ u, u ≠ t) l0 = l0) as Hf.
  { induction l0 as [|u l0 IH]; [done|]. intros [Hu Hl0]%not_elem_of_cons.
    by rewrite filter_cons_True, IH by congruence. }
  rewrite filter_app, filter_cons_False by (intros ?; congruence). rewrite !Hf; [rewrite !length_app; cbn; lia|done|].
  intros Hin. by destruct (Hd t Hin (list_elem_of_here _ _)).
Qed.

(** A thread leaves its process; the object stays. *)
Lemma detach_inv x hold w t th a p : pinv x hold w → w_threads w !! t = Some th → th_res th = Some a →
  w_procs w !! a = Some p →
  ∃ w' p', linux_proc_detach_thread w t = Some w' ∧ pinv x hold w' ∧ w_procs w' = <[a := p']> (w_procs w)
    ∧ thread_list p' = filter (λ u, u ≠ t) (thread_list p) ∧ p_exit p' = p_exit p ∧ ppid p' = ppid p ∧ p_pid p' = p_pid p
    ∧ w_threads w' = <[t := with_res th None]> (w_threads w) ∧ tokens w' = tokens w ∧ w_index w' = w_index w
    ∧ pending_exits p' = pending_exits p.
Proof.
  intros Hi Eth Hres E.
  assert (t ∈ thread_list p) as Hin.
  { destruct (pi_res _ _ _ Hi t th a Eth Hres) as (q & Eq & ?). rewrite E in Eq. by injection Eq as <-. }
  pose proof (thread_no_tok _ _ _ _ _ _ Hi E Hin) as Htok.
  pose proof (pi_ref _ _ _ Hi a p E) as Hr. pose proof (pi_num _ _ _ Hi a p E) as Hn.
  pose proof (pi_nodup _ _ _ Hi a p E) as Hnd. pose proof (filter_length_1 _ _ Hnd Hin) as Hlen.
  unfold linux_proc_detach_thread, get_thread. rewrite Eth. cbn [mbind option_bind]. rewrite Hres.
  unfold get_proc. rewrite E. cbn [mbind option_bind]. rewrite (proj2 (Z.ltb_lt _ _)) by lia.
  set (vs := if thread_number p - 1 =? 0 then None else p_vs p).
  set (p1 := with_threads p (thread_number p - 1) (filter (λ u, u ≠ t) (thread_list p)) vs).
  unfold linux_proc_put, get_proc. cbn [w_procs put_thread set_threads]. rewrite put_proc_get. cbn [mbind option_bind].
  assert (0 ≤ extra x a) by (unfold extra; destruct (decide _); lia).
  rewrite (proj2 (Z.eqb_neq _ 0)) by (cbn; lia). set (p2 := with_refcount p1 (p_refcount p1 - 1)).
  eexists _, p2. split; [done|].
  match goal with |- pinv _ _ ?w' ∧ _ => set (w2 := w') end.
  assert (w_procs w2 = <[a := p2]> (w_procs w)) as Hp2 by (unfold w2; cbn; by rewrite insert_insert_eq).
  assert (tokens w2 = tokens w) as Ht by by apply (tokens_change w w2 a p p2).
  split_and!; try done. apply (pinv_change x x hold hold w w2 a p p2 Hi E).
  split; rewrite ?Ht; try done.
  - unfold p2, p1. cbn. lia.
  - unfold p2, p1. cbn. lia.
  - apply NoDup_filter. done.
  - intros u Hu. cbn in Hu. apply list_elem_of_filter in Hu as [Hne Hu].
    destruct (pi_thr _ _ _ Hi a p u E Hu) as (thu & Ethu & Hru). exists thu. unfold w2. cbn.
    by rewrite lookup_insert_ne by done.
  - intros u thu. unfold w2. cbn. intros [[<- <-]|[Hne Hu]]%lookup_insert_Some; [done|]. intros Hru.
    apply list_elem_of_filter. split; [done|]. destruct (pi_res _ _ _ Hi u thu a Hu Hru) as (q & Eq & ?).
    rewrite E in Eq. by injection Eq as <-.
  - intros b q u Hb Hq Hu. unfold w2. cbn. apply lookup_insert_ne. intros <-.
    destruct (pi_thr _ _ _ Hi b q t Hq Hu) as (th' & Eth' & Hr'). congruence.
  - intros u thu b Hb. unfold w2. cbn. by intros [[<- <-]|[Hne Hu]]%lookup_insert_Some.
  - intros u thu Hl Hu. unfold w2. cbn. cbn in Hu. apply list_elem_of_filter in Hu as [Hne Hu]. rewrite lookup_insert_ne by done.
    intros Hthu. destruct (pi_hint _ _ _ Hi a p t th E Hl Hin Eth) as [Hl1 _]. rewrite Hl1 in Hu.
    apply list_elem_of_singleton in Hu. done.
  - rewrite mult_0 by done. lia.
Qed.

(** The server never waits for other threads: the hint is only set when the
    last thread has ended. *)
Lemma bundle_inv fuel others hold w a p : pinv (Some a) hold w → w_procs w !! a = Some p →
  (exit_last_thread (p_exit p) = true → thread_list p = []) →
  ∃ w' b, clean_proc_bundle_detached fuel others w a = Some (w', Some b) ∧ pinv (Some a) hold w'
    ∧ (b = true ↔ thread_list p = [])
    ∧ w' = (if b then put_proc w a (with_exit p (ProcExit (exit_code (p_exit p)) (exit_st (p_exit p)) true)) else w).
Proof.
  intros Hi E Hh. pose proof (pi_num _ _ _ Hi a p E) as Hn.
  unfold clean_proc_bundle_detached, get_proc. rewrite E. cbn [mbind option_bind].
  destruct (Z.ltb_spec 0 (thread_number p)) as [Hpos|Hz]; cbn [andb].
  - assert (thread_list p ≠ []) as Hne by (intros Hnil; rewrite Hnil in Hn; cbn in Hn; lia).
    destruct (exit_last_thread (p_exit p)); [by destruct (Hne (Hh eq_refl))|]. cbn [negb].
    exists w, false. split_and!; [done|done|done|done].
  - assert (thread_list p = []) as Hnil by (apply length_zero_iff_nil; lia). cbn [mbind option_bind negb fst snd].
    rewrite E. cbn [mbind option_bind]. rewrite Hn, Hnil. cbn [length Z.of_nat Z.eqb negb].
    eexists _, true. split_and!; [done| |done|done].
    apply (pinv_same_threads (Some a) (Some a) hold w a p); try done; [apply (pi_ref _ _ _ Hi a p E)|by right|].
    intros Ha. destruct (pi_tok _ _ _ Hi a Ha) as (q & Eq & _ & _ & Hx). rewrite E in Eq. injection Eq as <-.
    cbn. destruct (p_exit p) as [c st l]. cbn in *. by subst l.
Qed.

Lemma not_notified_no_tok x hold w a p : pinv x hold w → w_procs w !! a = Some p →
  exit_st (p_exit p) ≠ LINUX_EXIT_NOTIFIED → a ∉ hold ⊎ tokens w.
Proof.
  intros Hi E Hs Ha. destruct (pi_tok _ _ _ Hi a Ha) as (q & Eq & ? & _). rewrite E in Eq. by injection Eq as <-.
Qed.

(** From the end of the last thread on. *)
Lemma finish_inv e w a p : pinv (Some a) ∅ w → w_procs w !! a = Some p → thread_list p = [] →
  exit_last_thread (p_exit p) = true →
  ∃ w', reap_finish e w a = Some w' ∧ pinv None ∅ w' ∧ w_threads w' = w_threads w.
Proof.
  intros Hi E Hl Hlast. unfold reap_finish, reap_choice, get_proc. rewrite E. cbn [mbind option_bind].
  assert (∃ w', linux_proc_put w a = Some w' ∧ pinv None ∅ w' ∧ w_threads w' = w_threads w) as Hput.
  { destruct (put_work_inv a ∅ w Hi) as (q & _ & -> & ?). by eexists. }
  destruct (exit_st (p_exit p)) eqn:Es; cbn [mbind option_bind]; try done.
  { destruct (negb (proc_has_wait_reaper w p)); cbn [mbind option_bind]; [|done].
    unfold linux_proc_reap, get_proc. rewrite E. cbn [mbind option_bind]. rewrite Es. by destruct (negb _). }
  assert (∃ w', (r2 ← linux_proc_reap (pe_put_ret e) w a; linux_proc_put r2.1 a) = Some w'
    ∧ pinv None ∅ w' ∧ w_threads w' = w_threads w) as HB.
  { destruct (reap_work_inv (pe_put_ret e) ∅ w a p Hi E Hl Es) as (w1 & w2 & -> & Hp & ? & _ & ? & _).
    - by eapply not_notified_no_tok; [done..|rewrite Es].
    - cbn [mbind option_bind fst]. by exists w2. }
  destruct (negb (proc_has_wait_reaper w p)); cbn [mbind option_bind]; [done|].
  rewrite bool_decide_true by done. destruct ((ppid p <=? 0) || _); cbn [mbind option_bind]; [done|].
  set (p1 := set_exit_state p LINUX_EXIT_NOTIFIED).
  assert (a ∉ ∅ ⊎ tokens w) as Htok by (eapply not_notified_no_tok; [done..|by rewrite Es]).
  assert (tokens (put_proc w a p1) = tokens w) as Ht by by apply (tokens_change w _ a p p1).
  assert (pinv (Some a) ({[+ a +]} ⊎ ∅) (put_proc w a p1)) as Hi1.
  { apply (pinv_change (Some a) (Some a) ∅ ({[+ a +]} ⊎ ∅) w _ a p p1 Hi E). split; rewrite ?Ht; try done.
    - apply (pi_ref _ _ _ Hi a p E).
    - apply (pi_num _ _ _ Hi a p E).
    - apply (pi_nodup _ _ _ Hi a p E).
    - intros t. apply (pi_thr _ _ _ Hi a p t E).
    - intros t th Hth Hr. destruct (pi_res _ _ _ Hi t th a Hth Hr) as (q & Eq & ?). rewrite E in Eq. by injection Eq as <-.
    - intros t th _ Hin. cbn in Hin. rewrite Hl in Hin. by apply not_elem_of_nil in Hin.
    - intros b Hb. rewrite !multiplicity_disj_union, multiplicity_singleton_ne by done. lia.
    - pose proof (mult_0 _ _ Htok) as H0m. rewrite !multiplicity_disj_union in *.
      rewrite multiplicity_singleton, decide_True by done. lia. }
  destruct (async_inv (Some a) ∅ e _ (ppid p) a (exit_code (p_exit p)) Hi1) as (w2 & -> & Hi2 & (_ & Ht2 & _)).
  cbn [mbind option_bind]. destruct (put_work_inv a ∅ w2 Hi2) as (q & _ & -> & ?). eexists. split_and!; [done|done|].
  cbn. by rewrite Ht2.
Qed.
(** A thread record changes: its process stays, and it may end. *)
Lemma thread_change_inv x hold w t th th' : pinv x hold w → w_threads w !! t = Some th →
  th_res th' = th_res th → (th_status th' = th_status th ∨ th_status th' = ThZombie) →
  pinv x hold (put_thread w t th').
Proof.
  intros [? ? ? Hthr Hres Hhint ? ? ? ? ?] E Hr Hst. split; try done; cbn [w_procs w_threads put_thread set_threads].
  - intros a p u Ep Hu. destruct (Hthr a p u Ep Hu) as (thu & Eu & Hru).
    destruct (decide (t = u)) as [<-|Hne]; [|exists thu; by rewrite lookup_insert_ne].
    exists th'. rewrite lookup_insert_eq. split; [done|]. congruence.
  - intros u thu a. intros [[<- <-]|[Hne Hu]]%lookup_insert_Some; [|by apply Hres]. rewrite Hr. by apply Hres.
  - intros a p u thu Ep Hl Hu. intros [[<- <-]|[Hne Hth]]%lookup_insert_Some; [|by apply (Hhint a)].
    destruct (Hhint a p t th Ep Hl Hu E) as [? Hz]. split; [done|]. destruct Hst as [-> | ->]; done.
Qed.

(** The clean-up server handles the end of a thread: it does not fail, does
    not wait, and keeps the invariant. *)
Lemma reap_handler_inv fuel others e w t th : pinv None ∅ w → w_threads w !! t = Some th →
  ∃ w', clean_handle_thread_reap fuel others e w t = Some (w', true) ∧ pinv None ∅ w'.
Proof.
  intros Hi Eth. unfold clean_handle_thread_reap, get_thread. rewrite Eth. cbn [mbind option_bind].
  set (th1 := with_status th ThZombie (th_exit_requested th)). set (w0 := put_thread w t th1).
  assert (pinv None ∅ w0) as Hi0 by (eapply thread_change_inv; [done|done|done|by right]).
  assert (w_threads w0 !! t = Some th1) as Eth0 by apply lookup_insert_eq.
  destruct (negb (reap_checks e th t)); [by destruct (_ && _ && _); eexists|].
  destruct (th_res th) as [a|] eqn:Hres; cbn [mbind option_bind].
  2: { destruct (negb (pe_delete_ok e)); by eexists. }
  destruct (pi_res _ _ _ Hi0 t th1 a Eth0 Hres) as (p & E & Hin).
  destruct (get_work_inv a ∅ w0 p Hi0 E) as [-> Hi1]. cbn [mbind option_bind fst snd].
  set (p1 := with_refcount p (p_refcount p + 1)) in *. set (w1 := put_proc w0 a p1) in *.
  destruct (negb (pe_delete_ok e)).
  { destruct (put_work_inv a ∅ w1 Hi1) as (q & _ & -> & ?). by eexists. }
  assert (w_procs w1 !! a = Some p1) as E1 by apply put_proc_get.
  destruct (detach_inv (Some a) ∅ w1 t th1 a p1 Hi1 Eth0 Hres E1)
    as (w2 & p2 & -> & Hi2 & Hp2 & Hl2 & Hx2 & _). cbn [mbind option_bind].
  assert (w_procs w2 !! a = Some p2) as E2 by by rewrite Hp2, lookup_insert_eq.
  destruct (bundle_inv fuel others ∅ w2 a p2 Hi2 E2) as (w3 & b & -> & Hi3 & Hb & Hw3).
  { rewrite Hx2, Hl2. intros Hh. destruct (pi_hint _ _ _ Hi0 a p t th1 E Hh Hin Eth0) as [Hl _].
    cbn [thread_list with_refcount p1]. rewrite Hl. rewrite filter_cons_False, filter_nil by (intros ?; congruence). done. }
  cbn [mbind option_bind]. destruct b.
  - destruct (finish_inv e w3 a (with_exit p2 (ProcExit (exit_code (p_exit p2)) (exit_st (p_exit p2)) true)) Hi3)
      as (w4 & -> & ? & _); [by rewrite Hw3, put_proc_get|by apply Hb|done|by eexists].
  - destruct (put_work_inv a ∅ w3 Hi3) as (q & _ & -> & ?). by eexists.
Qed.
(** ** Exit *)

Lemma send_reap_spec e w t code : ∃ q r, linux_clean_send_thread_reap e w t code = (set_ports w q, r)
  ∧ port_toks q = port_toks (w_ports w).
Proof.
  assert (set_ports w (w_ports w) = w) as Hw by by destruct w.
  unfold linux_clean_send_thread_reap. destruct (negb (thread_lookup_port _ _)); [by exists (w_ports w), E_RENDEZVOS; rewrite Hw|].
  destruct (negb (pe_alloc e)); [by exists (w_ports w), E_RENDEZVOS; rewrite Hw|].
  destruct (deliver_msg _ _ _ _) as [q r] eqn:Ed. eexists q, _. split; [done|].
  rewrite (deliver_toks _ _ _ _ _ _ Ed). destruct (decide _); cbn [msg_tok]; rewrite mset_nil; apply (left_id_L ∅ (⊎)).
Qed.

Lemma rendezvous_spec e w t th code : w_threads w !! t = Some th →
  ∃ q, linux_thread_exit_rendezvous e w t code = Some (set_ports (put_thread w t (with_status th ThZombie true)) q)
    ∧ port_toks q = port_toks (w_ports w).
Proof.
  intros E. unfold linux_thread_exit_rendezvous, get_thread. rewrite E. cbn [mbind option_bind].
  set (th1 := with_status th _ true).
  destruct (send_reap_spec e (put_thread w t th1) t code) as (q & r & -> & Hq). exists q. split; [|done].
  unfold put_thread, set_threads, set_ports. cbn. by rewrite insert_insert_eq.
Qed.

(** The process is marked and the thread ends. *)
Lemma mark_inv hold w t th a p c : pinv None hold w → w_threads w !! t = Some th → th_res th = Some a →
  w_procs w !! a = Some p →
  pinv None hold (put_thread (put_proc w a (with_exit p (ProcExit c LINUX_EXIT_ZOMBIE (thread_number p =? 1)))) t
                    (with_status th ThZombie true)).
Proof.
  intros Hi Eth Hr E. set (p1 := with_exit p _). set (w' := put_thread _ _ _).
  assert (t ∈ thread_list p) as Hin.
  { destruct (pi_res _ _ _ Hi t th a Eth Hr) as (q & Eq & ?). rewrite E in Eq. by injection Eq as <-. }
  assert (tokens w' = tokens w) as Ht by by apply (tokens_change w _ a p p1).
  pose proof (thread_no_tok _ _ _ _ _ _ Hi E Hin) as Htok. pose proof (pi_num _ _ _ Hi a p E) as Hn.
  apply (pinv_change None None hold hold w w' a p p1 Hi E). split; rewrite ?Ht; try done.
  - apply (pi_ref _ _ _ Hi a p E).
  - apply (pi_nodup _ _ _ Hi a p E).
  - intros u Hu. destruct (pi_thr _ _ _ Hi a p u E Hu) as (thu & Eu & Hru). unfold w'. cbn.
    destruct (decide (t = u)) as [<-|Hne]; [rewrite lookup_insert_eq|rewrite lookup_insert_ne by done]; by eexists.
  - intros u thu. unfold w'. cbn. intros [[<- <-]|[Hne Hu]]%lookup_insert_Some; [done|]. intros Hru.
    destruct (pi_res _ _ _ Hi u thu a Hu Hru) as (q & Eq & ?). rewrite E in Eq. by injection Eq as <-.
  - intros b q u Hb Hq Hu. unfold w'. cbn. apply lookup_insert_ne. intros <-.
    destruct (pi_thr _ _ _ Hi b q t Hq Hu) as (? & ? & ?). congruence.
  - intros u thu b Hb. unfold w'. cbn. intros [[<- <-]|[Hne Hu]]%lookup_insert_Some; [|done]. cbn. congruence.
  - intros u thu Hl Hu Hthu. cbn in Hl, Hu. apply Z.eqb_eq in Hl.
    assert (thread_list p = [t]) as Hlt.
    { destruct (thread_list p) as [|v [|v' l]]; cbn in Hn; [by apply not_elem_of_nil in Hin| |lia].
      apply list_elem_of_singleton in Hin. by subst v. }
    cbn. rewrite Hlt in *. apply list_elem_of_singleton in Hu as ->. split; [done|].
    unfold w' in Hthu. cbn in Hthu. rewrite lookup_insert_eq in Hthu. by injection Hthu as <-.
  - rewrite mult_0 by done. lia.
Qed.

Lemma clear_tid_inv hold e w t th : pinv None hold w → w_threads w !! t = Some th →
  ∃ w' th', exit_clear_tid e w t = Some w' ∧ pinv None hold w' ∧ w_threads w' !! t = Some th'
    ∧ th_res th' = th_res th ∧ w_procs w' = w_procs w ∧ w_index w' = w_index w.
Proof.
  intros Hi E. unfold exit_clear_tid, get_thread. rewrite E. cbn [mbind option_bind].
  destruct (th_vs th) as [vs|]; [|by eexists _, th]. destruct ((th_clear_tid th =? 0) || _); [by eexists _, th|].
  eexists _, (with_clear_tid th 0). split; [done|]. split_and!; try done; [|apply lookup_insert_eq].
  eapply thread_change_inv; [by apply pinv_emit|done|done|by left].
Qed.

Lemma exit_inv e w t th code : pinv None ∅ w → w_threads w !! t = Some th →
  ∃ w', sys_exit e w t code = Some w' ∧ pinv None ∅ w'.
Proof.
  intros Hi Eth. unfold sys_exit, get_thread. rewrite Eth. cbn [mbind option_bind]. destruct (th_res th) as [a|] eqn:Hr.
  - destruct (clear_tid_inv ∅ e (emit w [EffFsReleaseForExit a; EffSleepTeardown t]) t th) as (w2 & th2 & -> & Hi2 & Eth2 & Hr2 & _);
      [by apply pinv_emit|done|]. cbn [mbind option_bind]. rewrite Hr in Hr2.
    destruct (pi_res _ _ _ Hi2 t th2 a Eth2 Hr2) as (p & E & _).
    unfold linux_proc_mark_exiting, get_proc. rewrite E. cbn [mbind option_bind fst snd].
    set (p1 := with_exit p _). set (w3 := put_proc w2 a p1).
    assert (∃ l, (if proc_has_wait_reaper w3 p1 then linux_proc_queue_sigchld e w3 a else Some w3) = Some (emit w3 l)) as [l ->].
    { assert (Some (emit w3 []) = Some w3) as Hnil by (unfold emit; rewrite app_nil_r; by destruct w3).
      destruct (proc_has_wait_reaper w3 p1); [|by exists []]. unfold linux_proc_queue_sigchld, get_proc.
      assert (w_procs w3 !! a = Some p1) as -> by apply put_proc_get. cbn [mbind option_bind]. destruct (ppid p1 <=? 0); [by exists []|].
      destruct (find_proc_by_pid w3 (ppid p1)); [|by exists []]. destruct (pe_nocldwait e); [by exists []|by eexists]. }
    cbn [mbind option_bind]. destruct (rendezvous_spec e (emit w3 l) t th2 code Eth2) as (q & -> & Hq).
    eexists. split; [done|]. apply (pinv_ports None ∅ ∅); [|by rewrite Hq].
    apply (pinv_emit None ∅ (put_thread w3 t (with_status th2 ThZombie true)) l). by apply mark_inv.
  - destruct (rendezvous_spec e (emit w [EffSleepTeardown t]) t th code Eth) as (q & -> & Hq).
    eexists. split; [done|]. apply (pinv_ports None ∅ ∅); [|by rewrite Hq].
    eapply thread_change_inv; [by apply pinv_emit|done|done|by right].
Qed.

Lemma fault_inv e w t th code : pinv None ∅ w → w_threads w !! t = Some th →
  ∃ w', linux_fatal_user_fault e w t code = Some w' ∧ pinv None ∅ w'.
Proof.
  intros Hi Eth. unfold linux_fatal_user_fault, get_thread. rewrite Eth. cbn [mbind option_bind].
  destruct (th_res th) as [a|] eqn:Hr.
  - destruct (pi_res _ _ _ Hi t th a Eth Hr) as (p & E & _).
    unfold linux_proc_mark_exiting, get_proc. rewrite E. cbn [mbind option_bind fst snd].
    match goal with |- context [put_proc w a ?p1] => set (w3 := put_proc w a p1) end.
    destruct (rendezvous_spec e w3 t th code Eth) as (q & -> & Hq).
    eexists. split; [done|]. apply (pinv_ports None ∅ ∅); [|by rewrite Hq]. by apply mark_inv.
  - cbn [mbind option_bind]. destruct (rendezvous_spec e w t th code Eth) as (q & -> & Hq).
    eexists. split; [done|]. apply (pinv_ports None ∅ ∅); [|by rewrite Hq].
    eapply thread_change_inv; [done|done|done|by right].
Qed.

Lemma request_inv hold t l : ∀ w, pinv None hold w → (∀ u, u ∈ l → is_Some (w_threads w !! u)) →
  ∃ w', request_exit w t l = Some w' ∧ pinv None hold w' ∧ w_threads w' !! t = w_threads w !! t.
Proof.
  induction l as [|u l IH]; intros w Hi Hl; cbn [request_exit]; [by exists w|].
  destruct (Hl u (list_elem_of_here _ _)) as [th E]. unfold get_thread. rewrite E. cbn [mbind option_bind].
  destruct (Z.eqb_spec u t) as [->|Hne].
  - destruct (IH w Hi) as (w' & ? & ? & ?); [|by exists w']. intros v Hv. apply Hl. by right.
  - destruct (IH (put_thread w u (with_status th (th_status th) true))) as (w' & -> & ? & Ht).
    + eapply thread_change_inv; [done|done|done|by left].
    + intros v Hv. cbn. destruct (decide (u = v)) as [<-|Hv']; [rewrite lookup_insert_eq; by eexists|].
      rewrite lookup_insert_ne by done. apply Hl. by right.
    + exists w'. split_and!; [done|done|]. rewrite Ht. cbn. by apply lookup_insert_ne.
Qed.

Lemma exit_group_inv e w t th code : pinv None ∅ w → w_threads w !! t = Some th →
  ∃ w', sys_exit_group e w t code = Some w' ∧ pinv None ∅ w'.
Proof.
  intros Hi Eth. unfold sys_exit_group, get_thread. rewrite Eth. cbn [mbind option_bind].
  destruct (th_res th) as [a|] eqn:Hr; [|by exists w]. destruct (pi_res _ _ _ Hi t th a Eth Hr) as (p & E & _).
  unfold get_proc. rewrite E. cbn [mbind option_bind].
  destruct (request_inv ∅ t (thread_list p) w Hi) as (w1 & -> & Hi1 & Ht1).
  { intros u Hu. destruct (pi_thr _ _ _ Hi a p u E Hu) as (thu & ? & _). by exists thu. }
  cbn [mbind option_bind]. apply (exit_inv e w1 t th); [done|by rewrite Ht1].
Qed.
End inv.
