(* ===== verification/ProcLifeThm.v ===== *)
(** * Waiting, forking and cloning keep the process invariant *)

From Stdlib Require Import Ascii.
From stdpp Require Import base numbers strings gmap gmultiset option list.
From S2P Require Import Prelude PortNames Proc ProcLife ProcThm.

Section life_thm.
Context {NI Q : Type} `{NIL : NameIndexLaws NI} `{MPL : MsgPortsLaws Q}.
Abbreviation world := (pworld NI Q).
Implicit Types (w : world) (e : penv) (a t pid : Z) (p : linux_proc_resource).

(** ** Waiting *)

Lemma has_live_child_total x hold w a pid : pinv x hold w → is_Some (w_procs w !! a) →
  ∃ b, wait4_has_live_child w a pid = Some b.
Proof.
  intros Hi [p E]. pose proof (pinv_rows_live _ _ _ Hi) as Hr.
  assert (∀ fuel k pp pg f, ∃ b, unreaped_from fuel w k pp pg f = Some b) as Hu.
  { induction fuel as [|fuel IH]; intros k pp pg f; cbn [unreaped_from]; [by eexists|].
    destruct (find_proc_by_pid w k) as [c|] eqn:Ef; [|done].
    destruct (find_live w k c Hr Ef) as [q Eq]. unfold get_proc. rewrite Eq. cbn [mbind option_bind].
    destruct (_ || _); [done|by eexists]. }
  assert (∀ pp pg f, ∃ b, proc_parent_has_unreaped_child w pp pg f = Some b) as Hp.
  { intros pp pg f. unfold proc_parent_has_unreaped_child.
    destruct (pp <=? 0); [by eexists|]. destruct (f && _); [by eexists|]. apply Hu. }
  unfold wait4_has_live_child, get_proc. rewrite E. cbn [mbind option_bind].
  destruct (0 <? pid); [|by destruct (pid =? -1), (pid =? 0)].
  destruct (find_proc_by_pid w pid) as [c|] eqn:Ef; [|by eexists].
  destruct (find_live w pid c Hr Ef) as [q ->]. by eexists.
Qed.

(** The caller has taken the notification about [child]. *)
Lemma finish_reap_inv e w t th a ws child code : pinv None {[+ child +]} w → is_Some (w_procs w !! a) →
  w_threads w !! t = Some th →
  ∃ w' r, wait4_finish_reap e w t a ws child code = Some (w', r) ∧ pinv None ∅ w' ∧ r ≠ 0.
Proof.
  intros Hi [p Ep] Eth. destruct (pi_tok _ _ _ Hi child) as (c & Ec & Hst & Hl & Hlast); [multiset_solver|].
  pose proof (pi_pos _ _ _ Hi child c Ec) as Hpos. assert (pinv None ∅ w) as Hi0 by (eapply pinv_drop; [|done]; multiset_solver).
  unfold wait4_finish_reap, get_proc. rewrite Ec, Ep. cbn [mbind option_bind].
  rewrite (proj2 (Z.leb_gt _ _)) by done. destruct (_ || _ || _); [by eexists _, _|].
  set (c1 := with_exit c _). set (w1 := put_proc w child c1).
  assert (pinv None {[+ child +]} w1) as Hi1 by by eapply pinv_core.
  assert (∃ l b, wait4_put_wstatus e w1 t ws (wait4_encode_status code) = Some (emit w1 l, b)) as (l & b & ->).
  { assert (w1 = emit w1 []) as Hnil by (unfold emit; rewrite app_nil_r; by destruct w1).
    unfold wait4_put_wstatus, get_thread. destruct (ws =? 0); [exists [], true; by rewrite <- Hnil|].
    cbn [w_threads w1 put_proc set_procs]. rewrite Eth. cbn [mbind option_bind].
    destruct (th_vs th); [destruct (pe_user_ok e); [by eexists _, _|]|]; exists [], false; by rewrite <- Hnil. }
  cbn [mbind option_bind fst snd]. destruct b; cbn [negb].
  2: { eexists _, _. split_and!; [done| |done]. apply pinv_emit. eapply pinv_drop; [|done]. multiset_solver. }
  destruct (reap_inv (pe_put_ret e) ∅ (emit w1 l) child c1) as (w2 & -> & Hi2 & _ & _ & _ & Hf2).
  - apply pinv_emit. eapply pinv_drop; [|done]. multiset_solver.
  - apply put_proc_get.
  - done.
  - by right.
  - pose proof (pi_toks _ _ _ Hi1 child) as Hm. rewrite multiplicity_disj_union, multiplicity_singleton, decide_True in Hm by done.
    rewrite elem_of_multiplicity, multiplicity_disj_union, multiplicity_empty.
    change (tokens (emit w1 l)) with (tokens w1). lia.
  - cbn [mbind option_bind fst snd]. change (p_pid c1) with (p_pid c) in Hf2. rewrite Hf2.
    rewrite (bool_decide_false (is_Some None)) by (by intros [? ?]). rewrite andb_false_r.
    eexists _, _. split_and!; [done|done|lia].
Qed.

Lemma try_pending_inv e w t th a want ws : pinv None ∅ w → is_Some (w_procs w !! a) → w_threads w !! t = Some th →
  ∃ w' r, wait4_try_pending e w t a want ws = Some (w', r) ∧ pinv None ∅ w' ∧ (r = 0 → framed w w').
Proof.
  intros Hi Ha Eth. unfold wait4_try_pending.
  destruct (take_inv None ∅ w a want Hi Ha) as (w1 & r & -> & Hf & Hr). cbn [mbind option_bind].
  destruct r as [[child code]|]; [|by eexists _, _].
  destruct (finish_reap_inv e w1 t th a ws child code) as (w2 & r2 & -> & ? & ?).
  - eapply pinv_drop; [|done]. multiset_solver.
  - by eapply framed_live.
  - destruct Hf as (_ & -> & _). done.
  - by eexists _, _.
Qed.

Lemma handle_msg_inv e w t th a want ws m : pinv None (mset (msg_tok m)) w → is_Some (w_procs w !! a) →
  w_threads w !! t = Some th →
  ∃ w' r, wait4_handle_port_msg e w t a want ws m = Some (w', r) ∧ pinv None ∅ w' ∧ (r = 0 → framed w w').
Proof.
  intros Hi Ha Eth. assert (pinv None ∅ w) as Hi0 by (eapply pinv_drop; [|exact Hi]; multiset_solver).
  destruct m as [cpid child code| | | |]; cbn [wait4_handle_port_msg]; try by eexists _, _.
  - cbn [msg_tok] in Hi. rewrite mset_one in Hi.
    destruct (pi_tok _ _ _ Hi child) as (c & Ec & _); [multiset_solver|].
    unfold get_proc. rewrite Ec. cbn [mbind option_bind]. destruct (_ || _); [by eexists _, _|].
    destruct Ha as [p Ep]. rewrite Ep. cbn [mbind option_bind].
    destruct (matches_total w want cpid p (pinv_rows_live _ _ _ Hi)) as [b ->]. cbn [mbind option_bind]. destruct b; cbn [negb].
    + destruct (finish_reap_inv e w t th a ws child code Hi (mk_is_Some _ _ Ep) Eth) as (w2 & r2 & -> & ? & ?). by eexists _, _.
    + destruct (push_spec (pe_alloc e) w a child code (mk_is_Some _ _ Ep) (mk_is_Some _ _ Ec)) as (w2 & b & -> & Hm).
      cbn [mbind option_bind fst]. eexists _, _. split_and!; [done| |intros _; by eapply moved_framed].
      eapply pinv_moved; [exact Hm| |exact Hi]. multiset_solver.
  - destruct (try_pending_inv e w t th a want ws Hi0 Ha Eth) as (w1 & r & -> & Hi1 & Hf1). cbn [mbind option_bind fst snd].
    destruct (Z.eqb_spec r 0) as [->|Hne]; cbn [negb]; [|by eexists _, _].
    destruct (pe_eintr e); eexists _, _; (split; [done|]); split; auto; done.
Qed.

Lemma recv_inv e w t th a want ws name : pinv None ∅ w → is_Some (w_procs w !! a) → w_threads w !! t = Some th →
  ∃ w' r, wait4_recv e w t a want ws name = Some (w', r) ∧ pinv None ∅ w' ∧ (default 0 r = 0 → framed w w').
Proof.
  intros Hi Ha Eth. unfold wait4_recv. destruct (try_recv_msg (w_ports w) name) as [q [m|]] eqn:Er;
    pose proof (recv_toks _ _ _ _ Er) as Ht; cbn [from_option] in Ht.
  - destruct (handle_msg_inv e (set_ports w q) t th a want ws m) as (w1 & r & -> & ? & ?); [|done|done|].
    + apply (pinv_ports None ∅ (mset (msg_tok m))); [done|]. rewrite Ht. by rewrite (left_id_L ∅ (⊎)).
    + cbn [mbind option_bind fst snd]. by eexists _, _.
  - eexists _, _. split_and!; [done| |done]. apply (pinv_ports None ∅ ∅); [done|]. rewrite Ht, mset_nil. multiset_solver.
Qed.

(** Other tasks keep the invariant, the process and the thread of the caller. *)
Definition others_ok a t (others : nat → world → world) : Prop :=
  ∀ n w, pinv None ∅ w → is_Some (w_procs w !! a) → is_Some (w_threads w !! t) →
    pinv None ∅ (others n w) ∧ is_Some (w_procs (others n w) !! a) ∧ is_Some (w_threads (others n w) !! t).

Lemma loop_inv a t others envs want ws name : others_ok a t others → ∀ fuel w,
  pinv None ∅ w → is_Some (w_procs w !! a) → is_Some (w_threads w !! t) →
  ∃ w' r, wait4_loop fuel others envs w t a want ws name = Some (w', r) ∧ pinv None ∅ w'.
Proof.
  intros Hoth. induction fuel as [|fuel IH]; intros w Hi Ha [th Eth]; cbn [wait4_loop]; [by eexists _, _|].
  set (e := envs (S fuel)).
  destruct (try_pending_inv e w t th a want ws Hi Ha Eth) as (w1 & r & -> & Hi1 & Hf1). cbn [mbind option_bind fst snd].
  destruct (Z.eqb_spec r 0) as [->|Hne]; cbn [negb]; [|by eexists _, _]. destruct (pe_eintr e); [by eexists _, _|].
  specialize (Hf1 eq_refl). assert (is_Some (w_procs w1 !! a)) as Ha1 by by eapply framed_live.
  assert (w_threads w1 !! t = Some th) as Eth1 by by destruct Hf1 as (_ & -> & _).
  destruct (recv_inv e w1 t th a want ws name Hi1 Ha1 Eth1) as (w2 & x & -> & Hi2 & Hf2). cbn [mbind option_bind].
  destruct x as [ret|]; cbn [default] in Hf2.
  - destruct (Z.eqb_spec ret 0) as [->|Hne]; cbn [negb]; [|by eexists _, _]. specialize (Hf2 eq_refl).
    apply IH; [done|by eapply framed_live|]. destruct Hf2 as (_ & -> & _). by exists th.
  - specialize (Hf2 eq_refl). assert (is_Some (w_procs w2 !! a)) as Ha2 by by eapply framed_live.
    assert (w_threads w2 !! t = Some th) as Eth2 by by destruct Hf2 as (_ & -> & _).
    destruct (try_pending_inv e w2 t th a want ws Hi2 Ha2 Eth2) as (w3 & r & -> & Hi3 & Hf3). cbn [mbind option_bind fst snd].
    destruct (Z.eqb_spec r 0) as [->|Hne]; cbn [negb]; [|by eexists _, _]. specialize (Hf3 eq_refl).
    destruct (Hoth fuel w3 Hi3) as (Hi4 & Ha4 & [th4 Eth4]);
      [by eapply framed_live|destruct Hf3 as (_ & -> & _); by exists th|].
    destruct (pe_recv_ok e); cbn [negb]; [|by eexists _, _].
    destruct (recv_inv e _ t th4 a want ws name Hi4 Ha4 Eth4) as (w5 & y & -> & Hi5 & Hf5). cbn [mbind option_bind].
    destruct y as [ret|]; cbn [default] in Hf5.
    + destruct (Z.eqb_spec ret 0) as [->|Hne]; cbn [negb]; [|by eexists _, _]. specialize (Hf5 eq_refl).
      apply IH; [done|by eapply framed_live|]. destruct Hf5 as (_ & -> & _). by exists th4.
    + specialize (Hf5 eq_refl). apply IH; [done|by eapply framed_live|]. destruct Hf5 as (_ & -> & _). by exists th4.
Qed.

Lemma wait4_inv fuel others envs e w t th a pid ws opts : pinv None ∅ w → w_threads w !! t = Some th →
  th_res th = Some a → others_ok a t others →
  ∃ w' r, sys_wait4 fuel others envs e w t pid ws opts = Some (w', r) ∧ pinv None ∅ w'.
Proof.
  intros Hi Eth Hr Hoth. unfold sys_wait4, get_thread. rewrite Eth. cbn [mbind option_bind]. rewrite Hr.
  assert (is_Some (w_procs w !! a)) as Ha by (destruct (pi_res _ _ _ Hi t th a Eth Hr) as (p & ? & _); by exists p).
  destruct (try_pending_inv e w t th a pid ws Hi Ha Eth) as (w1 & r & -> & Hi1 & Hf1). cbn [mbind option_bind fst snd].
  destruct (Z.eqb_spec r 0) as [->|Hne]; cbn [negb]; [|by eexists _, _]. specialize (Hf1 eq_refl).
  assert (is_Some (w_procs w1 !! a)) as Ha1 by by eapply framed_live.
  assert (w_threads w1 !! t = Some th) as Eth1 by by destruct Hf1 as (_ & -> & _).
  pose proof Ha1 as [p1 E1]. unfold get_proc. rewrite E1. cbn [mbind option_bind].
  destruct (wait_port_spec (pe_deliver e) w1 (p_pid p1)) as (q & rn & -> & Hq).
  assert (pinv None ∅ (set_ports w1 q)) as Hi2 by (apply (pinv_ports None ∅ ∅); [done|by rewrite Hq]).
  destruct rn as [name|]; [|by eexists _, _].
  destruct (recv_inv e (set_ports w1 q) t th a pid ws name Hi2 Ha1 Eth1) as (w3 & x & -> & Hi3 & Hf3). cbn [mbind option_bind fst snd].
  destruct (Z.eqb_spec (default 0 x) 0) as [Hx|Hne]; cbn [negb]; [|by eexists _, _]. specialize (Hf3 Hx).
  assert (is_Some (w_procs w3 !! a)) as Ha3 by (eapply framed_live; [exact Hf3|exact Ha1]).
  destruct (has_live_child_total None ∅ w3 a pid Hi3 Ha3) as [b ->]. cbn [mbind option_bind].
  destruct (has opts LINUX_WNOHANG); [by eexists _, _|]. destruct b; cbn [negb]; [|by eexists _, _].
  unfold wait4_block_on_port, get_proc. pose proof Ha3 as [p3 E3]. rewrite E3. cbn [mbind option_bind].
  destruct (wait_port_spec (pe_deliver e) w3 (p_pid p3)) as (q3 & rn & -> & Hq3).
  assert (pinv None ∅ (set_ports w3 q3)) as Hi4 by (apply (pinv_ports None ∅ ∅); [done|by rewrite Hq3]).
  destruct rn as [name3|]; [|by eexists _, _]. apply loop_inv; [done|done|done|].
  destruct Hf3 as (_ & Ht3 & _). cbn. rewrite Ht3. by exists th.
Qed.
(** ** Forking and cloning *)

Lemma fresh_unused x hold w c : pinv x hold w → w_procs w !! c = None →
  c ∉ hold ⊎ tokens w ∧ (∀ n, (n, c) ∉ name_index_rows (w_index w)) ∧ ∀ t th, w_threads w !! t = Some th → th_res th ≠ Some c.
Proof.
  intros Hi Hc. split_and!.
  - intros Hin. destruct (pi_tok _ _ _ Hi c Hin) as (q & Eq & _). congruence.
  - intros n Hin. destruct (pi_rows _ _ _ Hi n c Hin) as (q & Eq & _). congruence.
  - intros t th Hth Hr. destruct (pi_res _ _ _ Hi t th c Hth Hr) as (q & Eq & _). congruence.
Qed.

(** A new object, with nothing that refers to it. *)
Lemma add_proc_inv hold w c p : pinv None hold w → w_procs w !! c = None → 0 < p_pid p → p_refcount p = 1 →
  thread_number p = 0 → thread_list p = [] → pending_exits p = [] → pinv None hold (put_proc w c p).
Proof.
  intros Hi Hc Hpos Hr Hn Hl Hpe. destruct (fresh_unused _ _ _ _ Hi Hc) as (Htok & Hrows & Hres).
  assert (tokens (put_proc w c p) = tokens w) as Ht.
  { unfold tokens. cbn [w_ports w_jobs w_procs put_proc set_procs]. f_equal. unfold pend_toks.
    rewrite toks_insert, Hpe. cbn [fmap list_fmap]. rewrite mset_nil, delete_id by done. apply (left_id_L ∅ (⊎)). }
  destruct Hi as [? ? ? ? ? ? ? Htk ? ? ?]. split; rewrite ?Ht; cbn [w_procs w_threads w_index put_proc set_procs].
  - intros a q [[<- <-]|[_ Hq]]%lookup_insert_Some; [rewrite extra_None; lia|eauto].
  - intros a q [[<- <-]|[_ Hq]]%lookup_insert_Some; [by rewrite Hl|eauto].
  - intros a q [[<- <-]|[_ Hq]]%lookup_insert_Some; [rewrite Hl; constructor|eauto].
  - intros a q t [[<- <-]|[_ Hq]]%lookup_insert_Some; [rewrite Hl; by intros ?%not_elem_of_nil|eauto].
  - intros t th a Hth Hr'. destruct (decide (c = a)) as [<-|Hne]; [by destruct (Hres t th Hth)|].
    rewrite lookup_insert_ne by done. eauto.
  - intros a q t th [[<- <-]|[_ Hq]]%lookup_insert_Some; [rewrite Hl; by intros _ ?%not_elem_of_nil|eauto].
  - done.
  - intros a Hin. destruct (decide (c = a)) as [<-|Hne]; [done|]. rewrite lookup_insert_ne by done. eauto.
  - intros n a Hin. destruct (decide (c = a)) as [<-|Hne]; [by destruct (Hrows n)|]. rewrite lookup_insert_ne by done. eauto.
  - done.
  - intros a q [[<- <-]|[_ Hq]]%lookup_insert_Some; eauto.
Qed.

Lemma new_thread_inv x hold w u th : pinv x hold w → w_threads w !! u = None → th_res th = None →
  pinv x hold (put_thread w u th).
Proof.
  intros [? ? ? Hthr Hres Hhint ? ? ? ? ?] Hu Hr. split; try done; cbn [w_procs w_threads put_thread set_threads].
  - intros a p t Ep Ht. destruct (Hthr a p t Ep Ht) as (tht & Et & ?). exists tht.
    rewrite lookup_insert_ne by congruence. done.
  - intros t tht a [[<- <-]|[_ Ht]]%lookup_insert_Some; [congruence|eauto].
  - intros a p t tht Ep Hl Ht [[<- <-]|[_ Hth]]%lookup_insert_Some; [|eauto].
    destruct (Hthr a p u Ep Ht) as (? & ? & _). congruence.
Qed.

(** A thread joins a process that is not ending. *)
Lemma attach_inv hold w a p u th : pinv None hold w → w_procs w !! a = Some p → w_threads w !! u = Some th →
  th_res th = None → exit_last_thread (p_exit p) = false →
  ∃ w' p', linux_proc_attach_thread w a u = Some (w', REND_SUCCESS) ∧ pinv None hold w'
    ∧ w_procs w' = <[a := p']> (w_procs w) ∧ thread_list p' = thread_list p ++ [u] ∧ p_pid p' = p_pid p
    ∧ p_exit p' = p_exit p ∧ pending_exits p' = pending_exits p
    ∧ w_threads w' = <[u := with_res th (Some a)]> (w_threads w) ∧ w_index w' = w_index w ∧ tokens w' = tokens w
    ∧ ∃ vs, p' = with_threads (with_refcount p (p_refcount p + 1)) (thread_number p + 1) (thread_list p ++ [u]) vs.
Proof.
  intros Hi E Eu Hr Hlast. pose proof (pi_ref _ _ _ Hi a p E) as Href. rewrite extra_None in Href.
  pose proof (pi_num _ _ _ Hi a p E) as Hn.
  unfold linux_proc_attach_thread, get_thread. rewrite Eu. cbn [mbind option_bind]. rewrite Hr.
  unfold proc_ref_get_not_zero, get_proc. rewrite E. cbn [mbind option_bind].
  rewrite (proj2 (Z.eqb_neq _ 0)) by lia. rewrite put_proc_get. cbn [mbind option_bind].
  set (p1 := with_refcount p _). set (vs := match p_vs p1 with None => _ | _ => _ end).
  set (p2 := with_threads p1 _ _ vs). eexists _, p2. split; [done|].
  match goal with |- pinv _ _ ?w' ∧ _ => set (w2 := w') end.
  assert (w_procs w2 = <[a := p2]> (w_procs w)) as Hp2 by (unfold w2; cbn; by rewrite insert_insert_eq).
  assert (tokens w2 = tokens w) as Ht by by apply (tokens_change w w2 a p p2).
  assert (u ∉ thread_list p) as Hnin.
  { intros Hin. destruct (pi_thr _ _ _ Hi a p u E Hin) as (? & ? & ?). congruence. }
  assert (a ∉ hold ⊎ tokens w) as Htok.
  { intros Hin. destruct (pi_tok _ _ _ Hi a Hin) as (q & Eq & _ & _ & ?). rewrite E in Eq. injection Eq as <-. congruence. }
  split_and!; try done; [|by exists vs]. apply (pinv_change None None hold hold w w2 a p p2 Hi E).
  split; rewrite ?Ht; try done.
  - unfold p2, p1. cbn. rewrite extra_None. lia.
  - unfold p2, p1. cbn. rewrite length_app. cbn. lia.
  - apply NoDup_app. split_and!; [exact (pi_nodup _ _ _ Hi a p E)| |apply NoDup_singleton].
    intros v Hv Hv'. apply list_elem_of_singleton in Hv' as ->. done.
  - intros v Hv. apply elem_of_app in Hv as [Hv|Hv]; [|apply list_elem_of_singleton in Hv as ->]; unfold w2; cbn.
    + rewrite lookup_insert_ne by (intros ->; done). exact (pi_thr _ _ _ Hi a p v E Hv).
    + rewrite lookup_insert_eq. by eexists.
  - intros v thv. unfold w2. cbn. intros [[<- <-]|[Hne Hv]]%lookup_insert_Some Hrv; apply elem_of_app; [right; by apply list_elem_of_singleton|left].
    destruct (pi_res _ _ _ Hi v thv a Hv Hrv) as (q & Eq & ?). rewrite E in Eq. by injection Eq as <-.
  - intros b q v Hb Hq Hv. unfold w2. cbn. apply lookup_insert_ne. intros <-.
    destruct (pi_thr _ _ _ Hi b q u Hq Hv) as (? & ? & ?). congruence.
  - intros v thv b Hb. unfold w2. cbn. intros [[<- <-]|[_ Hv]]%lookup_insert_Some; [cbn; congruence|done].
  - intros v thv Hl. cbn in Hl. congruence.
  - rewrite mult_0 by done. lia.
Qed.

(** Dropping a new object again. *)
Lemma drop_new_inv hold w c p : pinv None hold w → w_procs w !! c = Some p → thread_list p = [] →
  pending_exits p = [] → c ∉ hold ⊎ tokens w → (∀ n, (n, c) ∉ name_index_rows (w_index w)) →
  ∃ w', linux_proc_put w c = Some w' ∧ pinv None hold w' ∧ w_procs w' = delete c (w_procs w).
Proof.
  intros Hi E Hl Hpe Htok Hrows. pose proof (pi_ref _ _ _ Hi c p E) as Hr. pose proof (pi_num _ _ _ Hi c p E) as Hn.
  rewrite Hl in Hn. cbn in Hn. rewrite extra_None in Hr. rewrite (put_free w c p E) by lia.
  eexists. split_and!; [done|by apply (free_proc_inv hold w c p)|done].
Qed.

Lemma register_inv hold o w a p : pinv None hold w → w_procs w !! a = Some p →
  ∃ w' r, register_process o w a = Some (w', r) ∧ pinv None hold w' ∧ w_procs w' = w_procs w ∧ w_threads w' = w_threads w.
Proof.
  intros Hi E. pose proof (pi_pos _ _ _ Hi a p E) as Hpos. unfold register_process, get_proc. rewrite E. cbn [mbind option_bind].
  rewrite (proj2 (Z.leb_gt _ _)) by done. destruct (evict_pid_inv None hold w (p_pid p) Hi Hpos) as [Hi1 _].
  set (w1 := proc_registry_evict_pid w (p_pid p)) in *.
  assert (w_procs w1 = w_procs w ∧ w_threads w1 = w_threads w) as [Hp1 Ht1]
    by (unfold w1, proc_registry_evict_pid; by destruct (p_pid p <=? 0)).
  destruct (name_index_register o (w_index w1) (pid_name (p_pid p)) a) as [i err] eqn:Er.
  pose proof (ni_register_spec _ _ _ _ _ _ Er) as Hrows.
  assert (pinv None hold (set_index w1 i)) as Hi2.
  { apply pinv_index; [done|]. intros n b Hin. rewrite Hrows in Hin. apply elem_of_app in Hin as [Hin|Hin].
    - destruct (decide _); [|by apply not_elem_of_nil in Hin]. apply list_elem_of_singleton in Hin as [= -> ->].
      exists p. by rewrite Hp1.
    - by apply (pi_rows _ _ _ Hi1). }
  destruct err; eexists _, _; (split; [done|]); done.
Qed.
(** What the core kernel gives to fork and clone: unused memory, a pid, and a
    new thread. *)
Record fork_env_ok (f : fork_env) w : Prop := {
  fo_addr c : fe_addr f = Some c → w_procs w !! c = None;
  fo_pid pid : first_pid (fe_ids f) = Some pid → 0 < pid;
  fo_thread u tid : fe_thread f = Some (u, tid) → w_threads w !! u = None;
}.

(** A process that is being made. *)
Record newborn w c p : Prop := {
  nb_proc : w_procs w !! c = Some p;
  nb_threads : thread_list p = [];
  nb_pending : pending_exits p = [];
  nb_last : exit_last_thread (p_exit p) = false;
  nb_tok : c ∉ ∅ ⊎ tokens w;
  nb_rows n : (n, c) ∉ name_index_rows (w_index w);
}.

Lemma drop_newborn w c p : pinv None ∅ w → newborn w c p →
  ∃ w', linux_proc_put w c = Some w' ∧ pinv None ∅ w' ∧ w_procs w' = delete c (w_procs w).
Proof. intros Hi [? ? ? ? ? ?]. by apply (drop_new_inv ∅ w c p). Qed.

Lemma alloc_newborn f w : pinv None ∅ w → fork_env_ok f w →
  match linux_proc_alloc (fe_addr f) (fe_ids f) w with
  | (w1, None) => w1 = w
  | (w1, Some c) => ∃ pid, w1 = put_proc w c (new_proc pid) ∧ 0 < pid ∧ w_procs w !! c = None
      ∧ ∀ p, p_pid p = pid → p_refcount p = 1 → thread_number p = 0 → thread_list p = [] → pending_exits p = [] →
          exit_last_thread (p_exit p) = false → pinv None ∅ (put_proc w c p) ∧ newborn (put_proc w c p) c p
  end.
Proof.
  intros Hi Hf. unfold linux_proc_alloc. destruct (fe_addr f) as [c|] eqn:Ea; [|done].
  destruct (first_pid (fe_ids f)) as [pid|] eqn:Ep; [|done]. exists pid.
  pose proof (fo_addr _ _ Hf c Ea) as Hc. pose proof (fo_pid _ _ Hf pid Ep) as Hpos. split_and!; [done|done|done|].
  intros p Hpid Hr Hn Hl Hpe Hlast. assert (pinv None ∅ (put_proc w c p)) as Hi1 by (apply add_proc_inv; [done..|lia|done|done|done|done]).
  split; [done|]. destruct (fresh_unused _ _ _ _ Hi Hc) as (Htok & Hrows & _).
  split; try done; [apply put_proc_get|]. intros Hin. apply Htok.
  assert (tokens (put_proc w c p) = tokens w) as <-; [|done].
  unfold tokens. cbn [w_ports w_jobs w_procs put_proc set_procs]. f_equal. unfold pend_toks.
  rewrite toks_insert, Hpe. cbn [fmap list_fmap]. rewrite mset_nil, delete_id by done. apply (left_id_L ∅ (⊎)).
Qed.

Lemma put_proc_twice w c p q : put_proc (put_proc w c p) c q = put_proc w c q.
Proof. unfold put_proc, set_procs. cbn. by rewrite insert_insert_eq. Qed.

(** The new thread with its process; undoing it; starting it. *)
Lemma attach_newborn w c p u th : pinv None ∅ w → newborn w c p → w_threads w !! u = Some th → th_res th = None →
  ∃ w1 p1, linux_proc_attach_thread w c u = Some (w1, REND_SUCCESS) ∧ pinv None ∅ w1
    ∧ w_procs w1 = <[c := p1]> (w_procs w) ∧ w_threads w1 = <[u := with_res th (Some c)]> (w_threads w)
    ∧ (∃ vs, p1 = with_threads (with_refcount p (p_refcount p + 1)) (thread_number p + 1) (thread_list p ++ [u]) vs)
    ∧ ∀ w2, pinv None ∅ w2 → w_procs w2 = w_procs w1 → tokens w2 = tokens w1 → w_index w2 = w_index w1 →
        (∃ th2, w_threads w2 !! u = Some th2 ∧ th_res th2 = Some c) →
        ∃ w3 w4, linux_thread_append_fini w2 u = Some w3 ∧ linux_proc_put w3 c = Some w4 ∧ pinv None ∅ w4
          ∧ w_procs w4 = delete c (w_procs w).
Proof.
  intros Hi [Hp Hl Hpe Hlast Htok Hrows] Eu Hr.
  destruct (attach_inv ∅ w c p u th Hi Hp Eu Hr Hlast) as (w1 & p1 & -> & Hi1 & Hp1 & Hl1 & Hpid1 & _ & Hpe1 & Ht1 & Hx1 & Hk1 & Hvs).
  exists w1, p1. assert (w_procs w1 !! c = Some p1) as E1 by by rewrite Hp1, lookup_insert_eq.
  split_and!; [done|done|done|done|done|].
  intros w2 Hi2 Hp2 Hk2 Hx2 (th2 & Eu2 & Hr2). unfold linux_thread_append_fini, get_thread. rewrite Eu2. cbn [mbind option_bind]. set (w2' := emit w2 _).
  destruct (detach_inv None ∅ w2' u th2 c p1) as (w3 & p3 & -> & Hi3 & Hp3 & Hl3 & _ & _ & _ & _ & Hk3 & Hx3 & Hpe3);
    [by apply pinv_emit|done|done|cbn; by rewrite Hp2|].
  destruct (drop_new_inv ∅ w3 c p3) as (w4 & Hput & ? & Hp4).
  - done.
  - by rewrite Hp3, lookup_insert_eq.
  - rewrite Hl3, Hl1, Hl. cbn [app]. rewrite filter_cons_False, filter_nil by (intros ?; congruence). done.
  - by rewrite Hpe3, Hpe1.
  - rewrite Hk3. change (tokens w2') with (tokens w2). by rewrite Hk2, Hk1.
  - intros n. rewrite Hx3. cbn. rewrite Hx2, Hx1. apply Hrows.
  - exists w3, w4. split_and!; [done|done|done|].
    rewrite Hp4, Hp3. cbn. by rewrite Hp2, Hp1, !delete_insert_eq.
Qed.

(** The child of a fork: its heap starts where that of the parent ends. *)
Definition forked (pa child : linux_proc_resource) (u : Z) : Prop :=
  ppid child = p_pid pa ∧ p_cred child = p_cred pa ∧ pgid child = (if pgid pa =? 0 then p_pid pa else pgid pa)
  ∧ p_mem child = ProcMem (brk (p_mem pa)) (brk (p_mem pa)) (mmap_hint (p_mem pa))
  ∧ exit_st (p_exit child) = LINUX_EXIT_RUNNING ∧ thread_list child = [u] ∧ pending_exits child = [].

Lemma fork_inv f w t th : pinv None ∅ w → w_threads w !! t = Some th → fork_env_ok f w →
  ∃ w' r, sys_fork f w t = Some (w', r) ∧ pinv None ∅ w'
    ∧ (r < 0 ∧ w_procs w' = w_procs w
       ∨ ∃ a pa c child u thu, th_res th = Some a ∧ w_procs w !! a = Some pa ∧ forked pa child u
           ∧ r = p_pid child ∧ 0 < r ∧ w_procs w !! c = None ∧ w_procs w' = <[c := child]> (w_procs w)
           ∧ w_threads w' = <[u := thu]> (w_threads w) ∧ th_res thu = Some c).
Proof.
  intros Hi Eth Hf. unfold sys_fork, get_thread. rewrite Eth. cbn [mbind option_bind].
  destruct (th_res th) as [a|] eqn:Hr; [|by eexists _, _; split_and!; [..|left]].
  destruct (th_vs th) as [vs|]; [|by eexists _, _; split_and!; [..|left]].
  destruct (vs =? 0); [by eexists _, _; split_and!; [..|left]|].
  destruct (pi_res _ _ _ Hi t th a Eth Hr) as (pa & Ea & _).
  pose proof (alloc_newborn f w Hi Hf) as Hal. destruct (linux_proc_alloc (fe_addr f) (fe_ids f) w) as [w1 [c|]];
    [|subst w1; by eexists _, _; split_and!; [..|left]].
  destruct Hal as (pid & -> & Hpos & Hc & Hnb).
  destruct (fe_vs f) as [cvs|].
  2: { destruct (Hnb (new_proc pid)) as [Hi1 Hnb1]; try done.
       destruct (drop_newborn _ c _ Hi1 Hnb1) as (w2 & -> & ? & Hp2). eexists _, _. split_and!; [done|done|left; split; [done|]].
       rewrite Hp2. by apply delete_insert_id. }
  assert (a ≠ c) as Hac by congruence.
  assert (get_proc (put_proc w c (new_proc pid)) a = Some pa) as -> by (unfold get_proc; cbn; by rewrite lookup_insert_ne).
  assert (get_proc (put_proc w c (new_proc pid)) c = Some (new_proc pid)) as -> by apply put_proc_get.
  cbn [mbind option_bind]. rewrite put_proc_twice. set (p1 := with_exit _ _).
  destruct (Hnb p1) as [Hi1 Hnb1]; try done. set (w1 := put_proc w c p1) in *.
  assert (∃ l err, linux_proc_copy_from (fe_sig_ok f) (fe_fs_ok f) w1 c (Some a) = (emit w1 l, err)) as (l & err & ->).
  { unfold linux_proc_copy_from. destruct (fe_sig_ok f); [destruct (fe_fs_ok f); by eexists _, _|].
    exists [], E_RENDEZVOS. unfold emit. rewrite app_nil_r. by destruct w1. }
  assert (delete c (w_procs w1) = w_procs w) as Hdel by by apply delete_insert_id.
  destruct (negb (bool_decide (err = REND_SUCCESS))).
  { destruct (drop_newborn (emit (emit w1 l) [EffPutVspace cvs]) c p1) as (w2 & -> & ? & Hp2); [by do 2 apply pinv_emit|by destruct Hnb1|].
    eexists _, _. split_and!; [done|done|left; split; [done|]]. by rewrite Hp2. }
  assert (newborn (emit w1 l) c p1) as Hnb2 by by destruct Hnb1.
  unfold copy_thread. destruct (fe_thread f) as [[u tid]|] eqn:Eu.
  2: { destruct (drop_newborn (emit w1 l) c p1) as (w2 & -> & ? & Hp2); [by apply pinv_emit|done|].
       eexists _, _. split_and!; [done|done|left; split; [done|]]. by rewrite Hp2. }
  set (thn := LThread ThOther false tid (Some cvs) None 0). set (w3 := emit (put_thread (emit w1 l) u thn) _).
  assert (pinv None ∅ w3) as Hi3 by (apply pinv_emit, new_thread_inv; [by apply pinv_emit|by apply (fo_thread _ _ Hf u tid)|done]).
  destruct (attach_newborn w3 c p1 u thn Hi3) as (w4 & p4 & -> & Hi4 & E4 & Eu4 & [vs4 Hp4] & Hundo);
    [by destruct Hnb2|apply lookup_insert_eq|done|]. cbn [mbind option_bind fst snd].
  rewrite bool_decide_true by done. cbn [negb].
  destruct (fe_add_ok f); cbn [negb].
  - destruct (register_inv ∅ (fe_register f) w4 c p4 Hi4) as (w5 & r & -> & ? & Hp5 & Ht5); [by rewrite E4, lookup_insert_eq|].
    cbn [mbind option_bind fst].
    eexists _, _. split; [done|]. split; [by apply pinv_emit|]. right.
    exists a, pa, c, p4, u, (with_res thn (Some c)). split_and!; try done.
    + by rewrite Hp4.
    + by rewrite Hp4.
    + cbn. rewrite Hp5, E4. cbn. by rewrite insert_insert_eq.
    + cbn. rewrite Ht5, Eu4. cbn. by rewrite insert_insert_eq.
  - destruct (Hundo w4) as (w5 & w6 & -> & Hput & ? & Hp6); [done..|rewrite Eu4, lookup_insert_eq; by eexists|].
    cbn [mbind option_bind]. rewrite Hput. cbn [mbind option_bind]. eexists _, _. split_and!; [done|done|left; split; [done|]].
    by rewrite Hp6.
Qed.

(** The process of a clone: the caller's own, or a new one. *)
Definition clone_target (flags : Z) w a c : Prop :=
  if has flags CLONE_THREAD then c = a else c ≠ a ∧ ∃ p, newborn w c p.

Lemma clone_proc_inv f flags w a pa : pinv None ∅ w → w_procs w !! a = Some pa → fork_env_ok f w →
  ∃ w1 r, clone_proc f flags w a = Some (w1, r) ∧ pinv None ∅ w1 ∧ w_threads w1 = w_threads w
    ∧ match r with inl _ => True | inr c => clone_target flags w1 a c ∧ w_procs w1 !! a = Some pa end.
Proof.
  intros Hi Ea Hf. unfold clone_proc, clone_target. destruct (has flags CLONE_THREAD); [by eexists _, _|].
  pose proof (alloc_newborn f w Hi Hf) as Hal. destruct (linux_proc_alloc (fe_addr f) (fe_ids f) w) as [w1 [c|]];
    [|subst w1; by eexists _, _].
  destruct Hal as (pid & -> & Hpos & Hc & Hnb). assert (a ≠ c) as Hac by congruence.
  assert (get_proc (put_proc w c (new_proc pid)) a = Some pa) as -> by (unfold get_proc; cbn; by rewrite lookup_insert_ne).
  assert (get_proc (put_proc w c (new_proc pid)) c = Some (new_proc pid)) as -> by apply put_proc_get.
  cbn [mbind option_bind]. rewrite put_proc_twice. set (p1 := child_relations _ _ _).
  destruct (Hnb p1) as [Hi1 Hnb1]; try done. set (w1 := put_proc w c p1) in *.
  assert (w_procs w1 !! a = Some pa) as Ea1 by (unfold w1; cbn; by rewrite lookup_insert_ne).
  assert (∃ l err, linux_proc_clone_from (fe_sig_ok f) (fe_fs_ok f) w1 c a flags = (emit w1 l, err)) as (l & err & ->).
  { unfold linux_proc_clone_from. destruct (fe_sig_ok f); [destruct (fe_fs_ok f); by eexists _, _|].
    exists [], E_RENDEZVOS. unfold emit. rewrite app_nil_r. by destruct w1. }
  assert (newborn (emit w1 l) c p1) as Hnb2 by by destruct Hnb1.
  assert (pinv None ∅ (emit w1 l)) as Hi2 by by apply pinv_emit.
  destruct (bool_decide (err = REND_SUCCESS)).
  - eexists _, _. split; [done|]. split; [done|]. split; [done|]. split; [|exact Ea1]. split; [congruence|by exists p1].
  - unfold clone_free_proc. rewrite (proj2 (Z.eqb_neq c a)) by congruence.
    destruct (drop_newborn _ c p1 Hi2 Hnb2) as (w2 & E2 & ? & _). rewrite E2. cbn [mbind option_bind].
    eexists _, _. split_and!; [done|done| |done].
    unfold linux_proc_put, get_proc in E2. rewrite (nb_proc _ _ _ Hnb2) in E2. cbn [mbind option_bind] in E2.
    destruct (p_refcount p1 - 1 =? 0); by injection E2 as <-.
Qed.

Lemma clone_drop flags w a c : pinv None ∅ w → clone_target flags w a c →
  ∃ w', clone_free_proc w c a = Some w' ∧ pinv None ∅ w'.
Proof.
  unfold clone_target, clone_free_proc. intros Hi. destruct (has flags CLONE_THREAD).
  - intros ->. rewrite Z.eqb_refl. by eexists.
  - intros [Hne [p Hnb]]. rewrite (proj2 (Z.eqb_neq c a)) by done.
    destruct (drop_newborn w c p Hi Hnb) as (w' & ? & ? & _). by exists w'.
Qed.

Lemma clone_attach flags w a pa t tht c u th : pinv None ∅ w → clone_target flags w a c → w_procs w !! a = Some pa →
  w_threads w !! t = Some tht → th_res tht = Some a → th_status tht ≠ ThZombie →
  w_threads w !! u = Some th → th_res th = None →
  ∃ w1 p1, linux_proc_attach_thread w c u = Some (w1, REND_SUCCESS) ∧ pinv None ∅ w1
    ∧ w_procs w1 !! c = Some p1 ∧ w_threads w1 !! u = Some (with_res th (Some c))
    ∧ ∀ w2, pinv None ∅ w2 → w_procs w2 = w_procs w1 → tokens w2 = tokens w1 → w_index w2 = w_index w1 →
        (∃ th2, w_threads w2 !! u = Some th2 ∧ th_res th2 = Some c) →
        ∃ w3 w4, linux_thread_append_fini w2 u = Some w3 ∧ clone_free_proc w3 c a = Some w4 ∧ pinv None ∅ w4.
Proof.
  intros Hi Ht Ea Et Hrt Hzt Eu Hr. unfold clone_target, clone_free_proc in *. destruct (has flags CLONE_THREAD).
  - subst c. rewrite Z.eqb_refl. destruct (pi_res _ _ _ Hi t tht a Et Hrt) as (q & Eq & Hin). rewrite Ea in Eq. injection Eq as <-.
    destruct (exit_last_thread (p_exit pa)) eqn:Hl.
    { by destruct (pi_hint _ _ _ Hi a pa t tht Ea Hl Hin Et). }
    destruct (attach_inv ∅ w a pa u th Hi Ea Eu Hr Hl) as (w1 & p1 & -> & Hi1 & Hp1 & _ & _ & _ & _ & Ht1 & _).
    assert (w_procs w1 !! a = Some p1) as E1 by by rewrite Hp1, lookup_insert_eq.
    eexists w1, p1. split_and!; [done|done|done|by rewrite Ht1, lookup_insert_eq|].
    intros w2 Hi2 Hp2 _ _ (th2 & Eu2 & Hr2). unfold linux_thread_append_fini, get_thread. rewrite Eu2. cbn [mbind option_bind]. set (w2' := emit w2 _).
    destruct (detach_inv None ∅ w2' u th2 a p1) as (w3 & p3 & -> & ? & _);
      [by apply pinv_emit|done|done|cbn; by rewrite Hp2|]. by eexists _, _.
  - destruct Ht as [Hne [p Hnb]]. rewrite (proj2 (Z.eqb_neq c a)) by done.
    destruct (attach_newborn w c p u th Hi Hnb Eu Hr) as (w1 & p1 & ? & ? & Hp1 & Ht1 & _ & Hundo). exists w1, p1.
    split_and!; [done|done|by rewrite Hp1, lookup_insert_eq|by rewrite Ht1, lookup_insert_eq|].
    intros w2 ? ? ? ? ?. destruct (Hundo w2) as (w3 & w4 & ? & ? & ? & _); try done. by exists w3, w4.
Qed.

Lemma clone_inv f w t th flags stack ptid ctid tls : pinv None ∅ w → w_threads w !! t = Some th →
  th_status th ≠ ThZombie → fork_env_ok f w →
  ∃ w' r, sys_clone f w t flags stack ptid ctid tls = Some (w', r) ∧ pinv None ∅ w'.
Proof.
  intros Hi Eth Hz Hf. unfold sys_clone, get_thread. rewrite Eth. cbn [mbind option_bind].
  destruct (th_res th) as [a|] eqn:Hr; [|by eexists _, _]. destruct (th_vs th) as [pvs|]; [|by eexists _, _].
  destruct (negb _); [by eexists _, _|]. destruct (has flags CLONE_VM && (stack =? 0)); [by eexists _, _|].
  destruct (clone_vspace_of f flags pvs) as [err|[vs held]]; [by eexists _, _|].
  destruct (pi_res _ _ _ Hi t th a Eth Hr) as (pa & Ea & _).
  destruct (clone_proc_inv f flags w a pa Hi Ea Hf) as (w1 & r & -> & Hi1 & Ht1 & Hr1). cbn [mbind option_bind].
  destruct r as [err|c].
  { eexists _, _. split; [done|]. unfold clone_put_vspace. destruct (held && _); [by apply pinv_emit|done]. }
  destruct Hr1 as [Htg Ea1]. unfold copy_thread. destruct (fe_thread f) as [[u tid]|] eqn:Eu.
  2: { destruct (clone_drop flags w1 a c Hi1 Htg) as (w2 & -> & ?). by eexists _, _. }
  set (thn := LThread ThOther false tid (Some vs) None 0). set (w2 := emit (put_thread w1 u thn) _).
  pose proof (fo_thread _ _ Hf u tid Eu) as Hu.
  assert (pinv None ∅ w2) as Hi2 by (apply pinv_emit, new_thread_inv; [done|by rewrite Ht1|done]).
  assert (w_threads w2 !! t = Some th) as Et2 by (unfold w2; cbn; rewrite lookup_insert_ne by congruence; by rewrite Ht1).
  assert (clone_target flags w2 a c) as Htg2.
  { unfold clone_target in *. destruct (has flags CLONE_THREAD); [done|]. destruct Htg as [? [p []]]. by split; [|exists p]. }
  destruct (clone_attach flags w2 a pa t th c u thn Hi2 Htg2 Ea1 Et2 Hr Hz (lookup_insert_eq _ _ _) eq_refl)
    as (w3 & p3 & -> & Hi3 & E3 & Eu3 & Hundo). cbn [mbind option_bind fst snd]. rewrite bool_decide_true by done.
  cbn [negb]. rewrite Eu3. cbn [mbind option_bind]. set (thu := with_res thn (Some c)) in *.
  set (w4 := if has flags CLONE_CHILD_CLEARTID && negb (ctid =? 0) then put_thread w3 u (with_clear_tid thu ctid) else w3).
  assert (pinv None ∅ w4 ∧ w_procs w4 = w_procs w3 ∧ tokens w4 = tokens w3 ∧ w_index w4 = w_index w3
    ∧ ∃ th4, w_threads w4 !! u = Some th4 ∧ th_res th4 = Some c) as (Hi4 & Hp4 & Hk4 & Hx4 & Hth4).
  { unfold w4. destruct (has flags CLONE_CHILD_CLEARTID && _); [|by split_and!; try done; eexists].
    split_and!; try done; [eapply thread_change_inv; [done|done|done|by left]|].
    eexists. split; [apply lookup_insert_eq|done]. }
  match goal with |- context [emit w4 ?l] => set (w5 := emit w4 l) end.
  assert (pinv None ∅ w5 ∧ w_procs w5 = w_procs w3 ∧ tokens w5 = tokens w3 ∧ w_index w5 = w_index w3
    ∧ ∃ th4, w_threads w5 !! u = Some th4 ∧ th_res th4 = Some c) as (Hi5 & Hp5 & Hk5 & Hx5 & Hth5).
  { split; [by apply pinv_emit|done]. }
  destruct (fe_add_ok f); cbn [negb].
  2: { destruct (Hundo w5) as (w6 & w7 & -> & Hput & ?); try done. cbn [mbind option_bind]. rewrite Hput. by eexists _, _. }
  assert (∃ w6 r, (if has flags CLONE_THREAD then Some (w5, 0) else register_process (fe_register f) w5 c) = Some (w6, r)
    ∧ pinv None ∅ w6 ∧ w_procs w6 = w_procs w5) as (w6 & r & -> & Hi6 & Hp6).
  { destruct (has flags CLONE_THREAD); [by eexists _, _|].
    destruct (register_inv ∅ (fe_register f) w5 c p3 Hi5) as (w6 & r & ? & ? & ? & _); [by rewrite Hp5|]. by exists w6, r. }
  cbn [mbind option_bind fst]. unfold get_proc. rewrite Hp6, Hp5, E3. cbn [mbind option_bind].
  eexists _, _. split; [apply f_equal, surjective_pairing|]. unfold clone_started.
  destruct (has flags CLONE_PARENT_SETTID && _ && _), (has flags CLONE_CHILD_SETTID && _ && _), (fe_user_ok f); cbn;
    repeat apply pinv_emit; done.
Qed.
End life_thm.
