(* ===== verification/ProcProps.v ===== *)
(** * What holds of processes

    For every interleaving of forks, exits, waits and rounds of the clean-up
    server the counts stay exact and no freed process is used; an exit code
    reaches the parent; fork makes a complete child or leaves nothing behind;
    a wait with a bad address loses the child. *)

From Stdlib Require Import Ascii.
From stdpp Require Import base numbers strings gmap gmultiset option list relations.
From S2P Require Import Prelude PortNames Proc ProcLife ProcThm ProcLifeThm.

(** ** Calls *)

Inductive proc_call : Type :=
  | CFork (f : fork_env) (t : Z)
  | CClone (f : fork_env) (t flags stack ptid ctid tls : Z)
  | CExit (e : penv) (t code : Z)
  | CExitGroup (e : penv) (t code : Z)
  | CFault (e : penv) (t code : Z)
  | CReap (e : penv) (t code : Z)
  | CPoll (e : penv)
  | CWaitPending (e : penv) (t want ws : Z)
  | CWaitRecv (e : penv) (t want ws : Z)
  | CWait (e : penv) (t pid ws opts : Z)
  | CSetuid (t uid : Z)
  | CSetgid (t gid : Z)
  | CSetTid (t addr : Z).

Section props.
Context {NI Q : Type} `{NIL : NameIndexLaws NI} `{MPL : MsgPortsLaws Q}.
Abbreviation world := (pworld NI Q).
Implicit Types (w : world) (e : penv) (a t pid : Z) (p : linux_proc_resource).

(** The process of the calling thread, for the parts of a wait. *)
Definition with_caller {A} w t (f : Z → option A) (d : A) : option A :=
  th ← get_thread w t; match th_res th with None => Some d | Some a => f a end.

(** A call: the state after it.  [CWaitPending] and [CWaitRecv] are the two
    kinds of steps a blocked wait makes; [CWait] is a wait that does not have
    to block. *)
Definition run_call w (c : proc_call) : option world :=
  match c with
  | CFork f t => fst <$> sys_fork f w t
  | CClone f t flags stack ptid ctid tls => fst <$> sys_clone f w t flags stack ptid ctid tls
  | CExit e t code => sys_exit e w t code
  | CExitGroup e t code => sys_exit_group e w t code
  | CFault e t code => linux_fatal_user_fault e w t code
  | CReap e t code =>
      r ← clean_handle_message 0 id e w (Some (ThreadReap t code)); if r.2 : bool then Some r.1 else None
  | CPoll e => fst <$> clean_poll_exit_notify_jobs e w
  | CWaitPending e t want ws =>
      fst <$> with_caller w t (λ a, wait4_try_pending e w t a want ws) (w, 0)
  | CWaitRecv e t want ws =>
      fst <$> with_caller w t (λ a,
        p ← get_proc w a;
        match proc_get_or_create_wait_port (pe_deliver e) w (p_pid p) with
        | (w1, None) => Some (w1, None)
        | (w1, Some name) => wait4_recv e w1 t a want ws name
        end) (w, None)
  | CWait e t pid ws opts => fst <$> sys_wait4 0 (λ _ w, w) (λ _, e) e w t pid ws opts
  | CSetuid t uid => fst <$> sys_setuid w t uid
  | CSetgid t gid => fst <$> sys_setgid w t gid
  | CSetTid t addr => fst <$> sys_set_tid_address w t addr
  end.

(** The caller is a thread that has not ended; the core kernel gives fork and
    clone unused memory. *)
Definition running w t : Prop := ∃ th, w_threads w !! t = Some th ∧ th_status th ≠ ThZombie.
Definition call_ok w (c : proc_call) : Prop :=
  match c with
  | CFork f t | CClone f t _ _ _ _ _ => running w t ∧ fork_env_ok f w
  | CExit _ t _ | CExitGroup _ t _ | CFault _ t _ | CWaitPending _ t _ _ | CWaitRecv _ t _ _
  | CWait _ t _ _ _ | CSetuid t _ | CSetgid t _ | CSetTid t _ => running w t
  | CReap _ t _ => is_Some (w_threads w !! t)
  | CPoll _ => True
  end.

Lemma cred_inv x hold w a p c : pinv x hold w → w_procs w !! a = Some p → pinv x hold (put_proc w a (with_cred p c)).
Proof. intros Hi E. by eapply pinv_core. Qed.

Lemma poll_inv e w : pinv None ∅ w →
  ∃ w' b, clean_poll_exit_notify_jobs e w = Some (w', b) ∧ pinv None ∅ w' ∧ framed w w'.
Proof.
  intros Hi. unfold clean_poll_exit_notify_jobs.
  destruct (poll_jobs_inv None ∅ e (jobs_of w (pe_cpu e)) [] w Hi eq_refl) as (w1 & -> & ? & ?).
  cbn [mbind option_bind]. by eexists _, _.
Qed.

Lemma wait_parts_inv e w t th want ws : pinv None ∅ w → w_threads w !! t = Some th →
  (∃ w', run_call w (CWaitPending e t want ws) = Some w' ∧ pinv None ∅ w')
  ∧ ∃ w', run_call w (CWaitRecv e t want ws) = Some w' ∧ pinv None ∅ w'.
Proof.
  intros Hi E. cbn [run_call]. unfold with_caller, get_thread. rewrite E. cbn [mbind option_bind].
  destruct (th_res th) as [a|] eqn:Hr; [|by split; eexists].
  destruct (pi_res _ _ _ Hi t th a E Hr) as (p & Ep & _). split.
  - destruct (try_pending_inv e w t th a want ws Hi (mk_is_Some _ _ Ep) E) as (w1 & r & -> & ? & _). by eexists.
  - unfold get_proc. rewrite Ep. cbn [mbind option_bind].
    destruct (wait_port_spec (pe_deliver e) w (p_pid p)) as (q & rn & -> & Hq).
    assert (pinv None ∅ (set_ports w q)) as Hi2 by (apply (pinv_ports None ∅ ∅); [done|by rewrite Hq]).
    destruct rn as [name|]; [|by eexists].
    destruct (recv_inv e (set_ports w q) t th a want ws name Hi2 (mk_is_Some _ _ Ep) E) as (w1 & r & -> & ? & _). by eexists.
Qed.

(** One call. *)
Lemma call_inv w c : pinv None ∅ w → call_ok w c → ∃ w', run_call w c = Some w' ∧ pinv None ∅ w'.
Proof.
  intros Hi. destruct c as [f t|f t flags stack ptid ctid tls|e t code|e t code|e t code|e t code|e|e t want ws|e t want ws|e t pid ws opts|t uid|t gid|t addr];
    cbn [call_ok].
  - intros [(th & E & _) Hf]. cbn [run_call]. destruct (fork_inv f w t th Hi E Hf) as (w' & r & -> & ? & _). by eexists.
  - intros [(th & E & Hz) Hf]. cbn [run_call].
    destruct (clone_inv f w t th flags stack ptid ctid tls Hi E Hz Hf) as (w' & r & -> & ?). by eexists.
  - intros (th & E & _). by apply (exit_inv e w t th).
  - intros (th & E & _). by apply (exit_group_inv e w t th).
  - intros (th & E & _). by apply (fault_inv e w t th).
  - intros [th E]. cbn [run_call]. unfold clean_handle_message.
    destruct (poll_inv e w Hi) as (w1 & b & -> & Hi1 & (_ & Ht1 & _)). cbn [mbind option_bind fst].
    destruct (reap_handler_inv 0 id e w1 t th Hi1) as (w2 & -> & ?); [by rewrite Ht1|]. by eexists.
  - intros _. cbn [run_call]. destruct (poll_inv e w Hi) as (w1 & b & -> & ? & _). by eexists.
  - intros (th & E & _). by apply (wait_parts_inv e w t th want ws).
  - intros (th & E & _). by apply (wait_parts_inv e w t th want ws).
  - intros (th & E & _). cbn [run_call]. destruct (th_res th) as [a|] eqn:Hr.
    + destruct (wait4_inv 0 (λ _ w, w) (λ _, e) e w t th a pid ws opts Hi E Hr) as (w' & r & -> & ?); [done|]. by eexists.
    + unfold sys_wait4, get_thread. rewrite E. cbn [mbind option_bind]. rewrite Hr. by eexists.
  - intros (th & E & _). cbn [run_call]. unfold sys_setuid, get_thread. rewrite E. cbn [mbind option_bind].
    destruct (th_res th) as [a|] eqn:Hr; [|by eexists]. destruct (pi_res _ _ _ Hi t th a E Hr) as (p & Ep & _).
    unfold get_proc. rewrite Ep. cbn [mbind option_bind]. destruct (_ && _); eexists; (split; [done|]); [done|by apply cred_inv].
  - intros (th & E & _). cbn [run_call]. unfold sys_setgid, get_thread. rewrite E. cbn [mbind option_bind].
    destruct (th_res th) as [a|] eqn:Hr; [|by eexists]. destruct (pi_res _ _ _ Hi t th a E Hr) as (p & Ep & _).
    unfold get_proc. rewrite Ep. cbn [mbind option_bind]. destruct (_ && _); eexists; (split; [done|]); [done|by apply cred_inv].
  - intros (th & E & _). cbn [run_call]. unfold sys_set_tid_address, get_thread. rewrite E. cbn.
    eexists. split; [done|]. eapply thread_change_inv; [done|done|done|by left].
Qed.

Inductive proc_step w w' : Prop :=
  | step_call c : call_ok w c → run_call w c = Some w' → proc_step w w'.

(** C6. Process objects are never used after they are freed, and their counts
    are exact.  Start with a state in which every process has one reference
    more than threads, threads and processes point to each other, the registry
    names live processes and no end of a child is announced twice.  After any
    sequence of forks, clones, exits, faults, waits, thread reapings and
    retries of the clean-up server, with any failures of memory, deliveries
    and user memory, this holds again; and every call that may come next
    completes without following a pointer to a freed process and without the
    clean-up server waiting for a thread. *)
Theorem proc_lifecycle_safe w w' : pinv None ∅ w → rtc proc_step w w' →
  pinv None ∅ w' ∧ ∀ c, call_ok w' c → ∃ w'', run_call w' c = Some w''.
Proof.
  intros Hi Hs. assert (pinv None ∅ w') as Hi'.
  { revert Hi. induction Hs as [|w1 w2 w3 [c Hok Hrun] _ IH]; [done|]. intros Hi. apply IH.
    destruct (call_inv w1 c Hi Hok) as (w2' & E & ?). rewrite Hrun in E. by injection E as <-. }
  split; [done|]. intros c Hok. destruct (call_inv w' c Hi' Hok) as (w'' & ? & _). by exists w''.
Qed.

(** C33. Fork adds a complete process or none.  Whatever fails, the call
    returns; with an error the table of processes is as it was (the references
    to files taken for the child that was given up are not part of it, see
    [ProcDemo.failed_fork_keeps_files]); otherwise exactly one process is new: a
    running child of the caller with its identity, group, break and search
    position for mappings, whose heap starts at the break of the parent
    ([forked]), with exactly one thread; its pid is the result. *)
Theorem fork_all_or_nothing f w t th : pinv None ∅ w → w_threads w !! t = Some th → fork_env_ok f w →
  ∃ w' r, sys_fork f w t = Some (w', r)
    ∧ (r < 0 ∧ w_procs w' = w_procs w
       ∨ ∃ a pa c child u thu, th_res th = Some a ∧ w_procs w !! a = Some pa ∧ forked pa child u
           ∧ r = p_pid child ∧ 0 < r ∧ w_procs w !! c = None ∧ w_procs w' = <[c := child]> (w_procs w)
           ∧ w_threads w' = <[u := thu]> (w_threads w) ∧ th_res thu = Some c).
Proof. intros Hi E Hf. destruct (fork_inv f w t th Hi E Hf) as (w' & r & ? & _ & ?). by exists w', r. Qed.

(** ** From exit to wait *)

Lemma deliver_other o q n m q' r n' : deliver_msg o q n m = (q', r) → n' ≠ n → port_view q' !! n' = port_view q !! n'.
Proof.
  intros Hd Hn. pose proof (port_deliver_spec _ _ _ _ _ _ Hd) as Hs. destruct (decide _); [|by rewrite Hs].
  destruct Hs as (l & _ & ->). by rewrite lookup_insert_ne.
Qed.

Definition zombied (p : linux_proc_resource) (code : Z) : linux_proc_resource :=
  with_exit p (ProcExit (Z.land code 0xff) LINUX_EXIT_ZOMBIE true).

(** The exit of the only thread of a process. *)
Lemma exit_run e w u thu c pc code : w_threads w !! u = Some thu → th_res thu = Some c → w_procs w !! c = Some pc →
  thread_number pc = 1 →
  ∃ w1 thz, sys_exit e w u code = Some w1 ∧ w_procs w1 = <[c := zombied pc code]> (w_procs w)
    ∧ w_index w1 = w_index w ∧ w_jobs w1 = w_jobs w ∧ w_threads w1 = <[u := thz]> (w_threads w)
    ∧ th_res thz = Some c ∧ th_vs thz = th_vs thu ∧ th_status thz = ThZombie
    ∧ ∀ n, n ≠ CLEAN_SERVER_PORT_NAME → port_view (w_ports w1) !! n = port_view (w_ports w) !! n.
Proof.
  intros Eu Hr Ec Hn. unfold sys_exit, get_thread. rewrite Eu. cbn [mbind option_bind]. rewrite Hr.
  set (w0 := emit w _).
  assert (∃ l th', exit_clear_tid e w0 u = Some (put_thread (emit w0 l) u th') ∧ th_res th' = Some c ∧ th_vs th' = th_vs thu)
    as (l & th' & -> & Hr' & Hv').
  { assert (put_thread (emit w0 []) u thu = w0) as Hid.
    { unfold put_thread, set_threads, emit. cbn. rewrite insert_id by done. by rewrite app_nil_r. }
    unfold exit_clear_tid, get_thread. cbn [w0 w_threads emit]. rewrite Eu. cbn [mbind option_bind].
    destruct (th_vs thu) as [vs|] eqn:Hv; [|exists [], thu; by rewrite Hid].
    destruct ((th_clear_tid thu =? 0) || _); [exists [], thu; by rewrite Hid|]. by eexists _, (with_clear_tid thu 0). }
  cbn [mbind option_bind]. set (w2 := put_thread _ _ _). unfold linux_proc_mark_exiting.
  assert (get_proc w2 c = Some pc) as -> by done. cbn [mbind option_bind fst snd]. rewrite Hn.
  change (with_exit pc _) with (zombied pc code). set (w3 := put_proc w2 c (zombied pc code)).
  assert (∃ l', (if proc_has_wait_reaper w3 (zombied pc code) then linux_proc_queue_sigchld e w3 c else Some w3) = Some (emit w3 l')) as [l' ->].
  { assert (Some (emit w3 []) = Some w3) as Hnil by (unfold emit; rewrite app_nil_r; by destruct w3).
    destruct (proc_has_wait_reaper w3 _); [|by exists []]. unfold linux_proc_queue_sigchld, get_proc.
    assert (w_procs w3 !! c = Some (zombied pc code)) as -> by apply put_proc_get. cbn [mbind option_bind].
    destruct (ppid _ <=? 0); [by exists []|]. destruct (find_proc_by_pid w3 _); [|by exists []].
    destruct (pe_nocldwait e); [by exists []|by eexists]. }
  cbn [mbind option_bind]. unfold linux_thread_exit_rendezvous, get_thread.
  assert (w_threads (emit w3 l') !! u = Some th') as -> by apply lookup_insert_eq. cbn [mbind option_bind].
  set (th1 := with_status th' _ true). set (w4 := put_thread (emit w3 l') u th1).
  assert (∃ q r, linux_clean_send_thread_reap e w4 u code = (set_ports w4 q, r)
    ∧ ∀ n, n ≠ CLEAN_SERVER_PORT_NAME → port_view q !! n = port_view (w_ports w) !! n) as (q & r & -> & Hq).
  { assert (set_ports w4 (w_ports w4) = w4) as Hw by done. unfold linux_clean_send_thread_reap.
    destruct (negb (thread_lookup_port _ _)); [by exists (w_ports w4), E_RENDEZVOS|].
    destruct (negb (pe_alloc e)); [by exists (w_ports w4), E_RENDEZVOS|].
    destruct (deliver_msg _ _ _ _) as [q r] eqn:Ed. eexists q, _. split; [done|].
    intros n Hne. by rewrite (deliver_other _ _ _ _ _ _ n Ed Hne). }
  eexists _, (with_status th' ThZombie true). split; [done|]. split_and!; try done.
  cbn. by rewrite !insert_insert_eq.
Qed.

Definition delivers (o : Z) (name : cstr) : Prop :=
  ∀ q, (thread_lookup_port q name = true → ∀ m, (deliver_msg o q name m).2 = DeliverOk)
    ∧ is_Some (create_port o q name).

Lemma poll_none e w : jobs_of w (pe_cpu e) = [] → ∃ b, clean_poll_exit_notify_jobs e w = Some (w, b).
Proof. intros Hj. unfold clean_poll_exit_notify_jobs. rewrite Hj. cbn. by eexists. Qed.

(** A delivery to the wait port of a process. *)
Lemma post_run e w pp name k c pc code : 0 < pp → wait_port_name pp = (name, S k) → delivers (pe_deliver e) name →
  pe_alloc e = true → w_procs w !! c = Some pc → 0 < p_pid pc → default [] (port_view (w_ports w) !! name) = [] →
  ∃ q, linux_proc_try_post_exit_notify (pe_deliver e) (pe_alloc e) w pp c code = Some (set_ports w q, LINUX_PROC_TRY_DELIVERED)
    ∧ port_view q !! name = Some [ExitNotify (p_pid pc) c code].
Proof.
  intros Hpp Hname Hd Hal Ec Hpid Hview. unfold linux_proc_try_post_exit_notify, get_proc. rewrite Ec, Hal. cbn [mbind option_bind].
  rewrite (proj2 (Z.leb_gt pp 0)), (proj2 (Z.leb_gt (p_pid pc) 0)) by done. cbn [orb negb].
  assert (∃ q, proc_get_or_create_wait_port (pe_deliver e) w pp = (set_ports w q, Some name) ∧ port_view q !! name = Some [])
    as (q & -> & Hq).
  { unfold proc_get_or_create_wait_port. rewrite (proj2 (Z.leb_gt pp 0)), Hname by done.
    destruct (thread_lookup_port (w_ports w) name) eqn:El.
    - exists (w_ports w). split; [by destruct w|]. rewrite port_lookup_spec in El. apply bool_decide_eq_true in El as [l El].
      rewrite El in *. by rewrite <- Hview.
    - destruct (proj2 (Hd (w_ports w))) as [q Eq]. rewrite Eq. exists q. split; [done|].
      rewrite (port_create_spec _ _ _ _ Eq); [apply lookup_insert_eq|].
      rewrite port_lookup_spec in El. apply bool_decide_eq_false in El. by apply eq_None_not_Some. }
  cbn [w_ports set_ports].
  assert (thread_lookup_port q name = true) as El by (rewrite port_lookup_spec; apply bool_decide_eq_true; by rewrite Hq).
  pose proof (proj1 (Hd q) El (ExitNotify (p_pid pc) c code)) as Hok.
  destruct (deliver_msg (pe_deliver e) q name _) as [q1 r1] eqn:Ed. cbn in Hok. subst r1. exists q1. split; [done|].
  pose proof (port_deliver_spec _ _ _ _ _ _ Ed) as Hs. rewrite decide_True in Hs by done. destruct Hs as (l & Hl & ->).
  rewrite Hq in Hl. injection Hl as <-. apply lookup_insert_eq.
Qed.

(** What is left of a process whose end has been announced. *)
Definition announced (pc pc' : linux_proc_resource) : Prop :=
  p_pid pc' = p_pid pc ∧ ppid pc' = ppid pc ∧ exit_st (p_exit pc') = LINUX_EXIT_NOTIFIED
  ∧ exit_last_thread (p_exit pc') = true ∧ thread_number pc' = 0.

Lemma notify_run e w pp a c pc u thz name k code :
  w_threads w !! u = Some thz → th_res thz = Some c → th_status thz = ThZombie → th_vs thz ≠ Some 0 →
  u ≠ pe_self e → u ∉ pe_kthreads e → pe_delete_ok e = true → pe_alloc e = true → jobs_of w (pe_cpu e) = [] →
  w_procs w !! c = Some pc → thread_list pc = [u] → thread_number pc = 1 → p_refcount pc = 2 → 0 < p_pid pc →
  exit_st (p_exit pc) = LINUX_EXIT_ZOMBIE → ppid pc = pp → 0 < pp → find_proc_by_pid w pp = Some a →
  wait_port_name pp = (name, S k) → delivers (pe_deliver e) name → default [] (port_view (w_ports w) !! name) = [] →
  ∃ w2 pc2 th2, clean_handle_message 0 id e w (Some (ThreadReap u code)) = Some (w2, true)
    ∧ w_procs w2 = <[c := pc2]> (w_procs w) ∧ announced pc pc2 ∧ w_index w2 = w_index w
    ∧ w_threads w2 = <[u := th2]> (w_threads w) ∧ port_view (w_ports w2) !! name = Some [ExitNotify (p_pid pc) c (exit_code (p_exit pc))].
Proof.
  intros Eu Hr Hz Hvs Hself Hkt Hdel Hal Hj Ec Hl Hn Href Hpid Hst Hpp Hpos Hfind Hname Hd Hview.
  unfold clean_handle_message. destruct (poll_none e w Hj) as [b ->]. cbn [mbind option_bind fst].
  unfold clean_handle_thread_reap, get_thread. rewrite Eu. cbn [mbind option_bind].
  assert (reap_checks e thz u = true) as ->.
  { unfold reap_checks. rewrite (proj2 (Z.eqb_neq u (pe_self e))), (bool_decide_false (u ∈ _)), Hz, orb_true_r,
      (bool_decide_false (th_vs thz = _)) by done. done. }
  cbn [negb]. rewrite Hr, Hdel. set (w0 := put_thread w u _). unfold proc_ref_get_not_zero.
  assert (get_proc w0 c = Some pc) as -> by done. cbn [mbind option_bind]. rewrite Href. cbn [Z.eqb fst snd negb].
  set (p1 := with_refcount pc (2 + 1)). set (w1 := put_proc w0 c p1).
  unfold linux_proc_detach_thread, get_thread.
  assert (w_threads w1 !! u = Some (with_status thz ThZombie (th_exit_requested thz))) as -> by apply lookup_insert_eq.
  cbn [mbind option_bind th_res with_status]. rewrite Hr. assert (get_proc w1 c = Some p1) as -> by apply put_proc_get.
  cbn [mbind option_bind thread_number thread_list p1 with_refcount]. rewrite Hn, Hl. cbn [Z.ltb Z.compare].
  match goal with |- context [put_proc w1 c ?p] => set (p2 := p) end.
  unfold linux_proc_put. match goal with |- context [get_proc ?x c] => assert (get_proc x c = Some p2) as -> by apply put_proc_get end.
  cbn [mbind option_bind]. change (p_refcount p2 - 1 =? 0) with false. cbv iota.
  set (p3 := with_refcount p2 (p_refcount p2 - 1)). set (w3 := put_proc _ c p3).
  unfold clean_proc_bundle_detached. assert (get_proc w3 c = Some p3) as E3 by apply put_proc_get. rewrite E3.
  cbn [mbind option_bind]. change (0 <? thread_number p3) with false. cbn [andb mbind option_bind negb fst snd]. rewrite E3.
  cbn [mbind option_bind]. change (thread_number p3 =? 0) with true. cbn [negb].
  set (p4 := with_exit p3 _). set (w4 := put_proc w3 c p4).
  unfold reap_finish, reap_choice. assert (get_proc w4 c = Some p4) as -> by apply put_proc_get. cbn [mbind option_bind].
  change (exit_st (p_exit p4)) with (exit_st (p_exit pc)). rewrite Hst. change (ppid p4) with (ppid pc). rewrite Hpp.
  assert (find_proc_by_pid w4 pp = Some a) as Hf4 by done. unfold proc_has_wait_reaper. change (ppid p4) with (ppid pc). rewrite Hpp, Hf4.
  rewrite (proj2 (Z.ltb_lt 0 pp)), (proj2 (Z.leb_gt pp 0)), !(bool_decide_true (is_Some (Some a))), bool_decide_true by done.
  cbn [negb andb orb mbind option_bind].
  set (p5 := set_exit_state p4 LINUX_EXIT_NOTIFIED). set (w5 := put_proc w4 c p5). unfold clean_async_exit_notify.
  destruct (poll_none e w5 Hj) as [b' ->]. cbn [mbind option_bind fst]. assert (get_proc w5 c = Some p5) as E5 by apply put_proc_get.
  rewrite E5. cbn [mbind option_bind]. change (p_pid p5) with (p_pid pc).
  rewrite (proj2 (Z.leb_gt pp 0)), (proj2 (Z.leb_gt (p_pid pc) 0)) by done. cbn [orb].
  destruct (post_run e w5 pp name k c p5 (exit_code (p_exit p4)) Hpos Hname Hd Hal E5 Hpid Hview) as (q & -> & Hq).
  cbn [mbind option_bind]. unfold linux_proc_put. match goal with |- context [get_proc ?x c] => assert (get_proc x c = Some p5) as -> by apply put_proc_get end.
  cbn [mbind option_bind].
  change (p_refcount p5 - 1 =? 0) with false. cbv iota.
  eexists _, (with_refcount p5 _), (with_res (with_status thz ThZombie (th_exit_requested thz)) None). split; [done|]. split_and!; try done.
  - cbn. by rewrite !insert_insert_eq.
  - cbn. by rewrite !insert_insert_eq.
Qed.

(** Reaping only adds effects. *)
Lemma reap_effs ret w a w' r : linux_proc_reap ret w a = Some (w', r) → ∃ l, w_effs w' = w_effs w ++ l.
Proof.
  unfold linux_proc_reap. destruct (get_proc w a) as [p|]; [|done]. cbn [mbind option_bind].
  assert (∀ w0, Some (w0, E_RENDEZVOS) = Some (w', r) → w0 = w → ∃ l, w_effs w' = w_effs w ++ l) as Hno.
  { intros w0 [= <- <-] ->. exists []. by rewrite app_nil_r. }
  destruct (negb (thread_number p =? 0)); [intros Hq; by eapply Hno|].
  assert (∀ fuel w0 k o n w1, reparent_from fuel w0 k o n = Some w1 → w_effs w1 = w_effs w0) as Hre.
  { induction fuel as [|fuel IH]; intros w0 k o n w1; cbn [reparent_from]; [by intros [= <-]|].
    destruct (find_proc_by_pid w0 k) as [c|]; [|apply IH]. destruct (get_proc w0 c) as [q|]; [|done].
    cbn [mbind option_bind]. intros Hq. rewrite (IH _ _ _ _ _ Hq). by destruct (ppid q =? o). }
  assert (∀ w1, linux_proc_fini (put_proc w a (set_exit_state p LINUX_EXIT_CLAIMED)) a = Some w1 → ∃ l, w_effs w1 = w_effs w ++ l) as Hfini.
  { intros w1. unfold linux_proc_fini, linux_proc_wait_pending_drain, get_proc. rewrite put_proc_get. cbn [mbind option_bind].
    rewrite put_proc_get. cbn [mbind option_bind]. unfold proc_reparent_children.
    match goal with |- context [?x ≫= _] => destruct x as [w2|] eqn:E2 end; [|done]. cbn [mbind option_bind].
    assert (w_effs w2 = w_effs w) as He by (destruct (_ <=? 0) in E2; [by injection E2 as <-|by apply Hre in E2]).
    unfold unregister_process. match goal with |- context [get_proc ?x a] => destruct (get_proc x a) as [q|] end; [|done].
    cbn [mbind option_bind]. intros [= <-].
    exists ([EffUnregisterClientPort (p_pid p)] ++ [EffSignalDestroy a; EffFsDestroy a]).
    assert (∀ w0 pid, w_effs (proc_registry_evict_pid w0 pid) = w_effs w0) as Hev
      by (intros w0 i; unfold proc_registry_evict_pid; by destruct (i <=? 0)).
    assert (∀ w0 pid, w_effs (proc_unregister_wait_port w0 pid) = w_effs w0) as Hun
      by (intros w0 i; unfold proc_unregister_wait_port; destruct (i <=? 0); [done|]; by destruct (wait_port_name i) as [? [|?]]).
    cbn [w_effs emit]. rewrite Hev. cbn [w_effs emit]. rewrite Hun, He. by rewrite <- app_assoc. }
  destruct (exit_st (p_exit p)); try (intros Hq; by eapply Hno);
    (match goal with |- context [?x ≫= _] => destruct x as [w1|] eqn:E1 end; [|done]); cbn [mbind option_bind];
    destruct (Hfini w1 eq_refl) as [l Hl]; unfold linux_proc_put; (destruct (get_proc w1 a) as [q|]; [|done]); cbn [mbind option_bind];
    intros [= <- <-]; exists l; by destruct (p_refcount q - 1 =? 0).
Qed.

(** The parent takes the announcement. *)
Lemma wait_run fuel others envs e w a pa t tht vs c pc code name k want ws opts :
  pinv None ∅ w → w_threads w !! t = Some tht → th_res tht = Some a → th_vs tht = Some vs →
  w_procs w !! a = Some pa → pending_exits pa = [] → w_procs w !! c = Some pc → ppid pc = p_pid pa →
  wait_port_name (p_pid pa) = (name, S k) → port_view (w_ports w) !! name = Some [ExitNotify (p_pid pc) c code] →
  pe_user_ok e = true → (want = -1 ∨ want = p_pid pc) →
  ∃ w3, sys_wait4 fuel others envs e w t want ws opts = Some (w3, Some (p_pid pc)) ∧ w_procs w3 !! c = None
    ∧ (ws ≠ 0 → EffStoreUser (Some vs) ws (wait4_encode_status code) ∈ w_effs w3).
Proof.
  intros Hi Et Hr Hvs Ea Hpe Ec Hpp Hname Hview Huser Hwant. pose proof (pi_pos _ _ _ Hi a pa Ea) as Hpa.
  pose proof (pi_pos _ _ _ Hi c pc Ec) as Hpc.
  unfold sys_wait4, get_thread. rewrite Et. cbn [mbind option_bind]. rewrite Hr.
  assert (wait4_try_pending e w t a want ws = Some (w, 0)) as ->.
  { unfold wait4_try_pending, linux_proc_wait_pending_take, get_proc. rewrite Ea. cbn [mbind option_bind]. by rewrite Hpe. }
  cbn [mbind option_bind fst snd Z.eqb negb]. unfold get_proc at 1. rewrite Ea. cbn [mbind option_bind].
  assert (proc_get_or_create_wait_port (pe_deliver e) w (p_pid pa) = (w, Some name)) as ->.
  { unfold proc_get_or_create_wait_port. rewrite (proj2 (Z.leb_gt _ 0)), Hname by done.
    rewrite port_lookup_spec, bool_decide_true by by rewrite Hview. done. }
  unfold wait4_recv. destruct (try_recv_msg (w_ports w) name) as [q m] eqn:Er.
  pose proof (recv_toks _ _ _ _ Er) as Hrt. pose proof (port_recv_spec _ _ _ _ Er) as Hrs. destruct m as [m|].
  2: { destruct Hrs as [_ Hnil]. rewrite Hview in Hnil. done. }
  destruct Hrs as (l & Hl & _). rewrite Hview in Hl. injection Hl as <- _. cbn [from_option msg_tok] in Hrt. rewrite mset_one in Hrt.
  assert (pinv None {[+ c +]} (set_ports w q)) as Hi1.
  { apply (pinv_ports None ∅ {[+ c +]}); [done|]. rewrite Hrt. by rewrite (left_id_L ∅ (⊎)). }
  destruct (pi_tok _ _ _ Hi1 c) as (pc' & Ec' & Hst & Hth & Hlast); [multiset_solver|]. cbn in Ec'. rewrite Ec in Ec'. injection Ec' as <-.
  cbn [mbind option_bind]. unfold wait4_handle_port_msg, get_proc. cbn [w_procs set_ports]. rewrite Ec, Ea. cbn [mbind option_bind].
  rewrite Z.eqb_refl, (proj2 (Z.leb_gt _ 0)) by done. cbn [negb orb].
  assert (linux_proc_wait_pid_matches (set_ports w q) want (p_pid pc) pa = Some true) as ->.
  { unfold linux_proc_wait_pid_matches. destruct Hwant as [-> | ->]; [done|]. rewrite (proj2 (Z.eqb_neq _ (-1))) by lia.
    rewrite (proj2 (Z.ltb_lt 0 _)) by done. by rewrite Z.eqb_refl. }
  cbn [mbind option_bind negb]. unfold wait4_finish_reap, get_proc. cbn [w_procs set_ports]. rewrite Ec, Ea. cbn [mbind option_bind].
  rewrite (proj2 (Z.leb_gt _ 0)), Hpp, Z.eqb_refl, Hst, Hlast by done. cbn [negb orb]. rewrite orb_true_r. cbn [negb orb].
  set (c1 := with_exit pc _). set (w1 := put_proc (set_ports w q) c c1).
  assert (pinv None {[+ c +]} w1) as Hi2.
  { eapply pinv_core; [done|done| |done]. unfold core, c1. cbn. by rewrite Hst, Hlast. }
  assert (∃ ef, wait4_put_wstatus e w1 t ws (wait4_encode_status code) = Some (emit w1 ef, true)
    ∧ (ws ≠ 0 → EffStoreUser (Some vs) ws (wait4_encode_status code) ∈ ef)) as (ef & -> & Hef).
  { unfold wait4_put_wstatus. destruct (Z.eqb_spec ws 0) as [->|Hws].
    - exists []. split; [|done]. do 2 f_equal. unfold emit. rewrite app_nil_r. by destruct w1.
    - unfold get_thread. cbn [w_threads w1 put_proc set_procs set_ports]. rewrite Et. cbn [mbind option_bind]. rewrite Hvs, Huser.
      eexists. split; [done|]. intros _. by left. }
  cbn [mbind option_bind fst snd negb].
  destruct (reap_inv (pe_put_ret e) ∅ (emit w1 ef) c c1) as (w2 & Hreap & _ & Hgone & _ & _ & Hf2).
  - apply pinv_emit. eapply pinv_drop; [|done]. multiset_solver.
  - apply put_proc_get.
  - done.
  - by right.
  - pose proof (pi_toks _ _ _ Hi2 c) as Hm. rewrite multiplicity_disj_union, multiplicity_singleton, decide_True in Hm by done.
    rewrite elem_of_multiplicity, multiplicity_disj_union, multiplicity_empty.
    change (tokens (emit w1 ef)) with (tokens w1). lia.
  - rewrite Hreap. cbn [mbind option_bind fst snd]. change (p_pid c1) with (p_pid pc) in Hf2. rewrite Hf2.
    rewrite (bool_decide_false (is_Some None)) by (by intros [? ?]). rewrite andb_false_r. cbn [mbind option_bind fst snd default id].
    rewrite (proj2 (Z.eqb_neq (p_pid pc) 0)) by lia. cbn [negb]. exists w2. split_and!; [done|done|]. intros Hws.
    destruct (reap_effs _ _ _ _ _ Hreap) as [l' ->]. cbn. apply elem_of_app. left. apply elem_of_app. right. by apply Hef.
Qed.

Lemma wait_port_not_clean pid name k : wait_port_name pid = (name, S k) → name ≠ CLEAN_SERVER_PORT_NAME.
Proof.
  unfold wait_port_name, proc_format_wait_port_name. cbn [Nat.ltb].
  destruct (_ <? _)%nat; [done|]. destruct (proc_format_pid _ pid) as [ds [|n]]; [done|]. intros [= <- _]. done.
Qed.

(** C14. The exit code reaches the parent.  The only thread of a child exits;
    the clean-up server handles its message; the parent, registered and with
    no other announcement, waits for any child or for this one: the wait
    returns the pid of the child and stores a status from which WEXITSTATUS
    gives the low byte of the exit code and WIFEXITED holds, and the child is
    freed.  Deliveries to the parent's port are assumed to succeed and its
    memory to be writable. *)
Theorem exit_code_reaches_parent fuel others envs e w a pa t tht vs c pc u thu name k code want ws opts :
  pinv None ∅ w →
  w_procs w !! a = Some pa → w_threads w !! t = Some tht → th_res tht = Some a → th_vs tht = Some vs →
  find_proc_by_pid w (p_pid pa) = Some a → pending_exits pa = [] → wait_port_name (p_pid pa) = (name, S k) →
  default [] (port_view (w_ports w) !! name) = [] → jobs_of w (pe_cpu e) = [] →
  w_procs w !! c = Some pc → ppid pc = p_pid pa → c ≠ a → thread_list pc = [u] →
  w_threads w !! u = Some thu → th_vs thu ≠ Some 0 → u ≠ pe_self e → u ∉ pe_kthreads e →
  delivers (pe_deliver e) name → pe_alloc e = true → pe_delete_ok e = true → pe_user_ok e = true →
  ws ≠ 0 → (want = -1 ∨ want = p_pid pc) →
  ∃ w1 w2 w3 status,
    sys_exit e w u code = Some w1
    ∧ clean_handle_message 0 id e w1 (Some (ThreadReap u code)) = Some (w2, true)
    ∧ sys_wait4 fuel others envs e w2 t want ws opts = Some (w3, Some (p_pid pc))
    ∧ EffStoreUser (Some vs) ws status ∈ w_effs w3
    ∧ Z.land (Z.shiftr status 8) 0xff = Z.land code 0xff ∧ Z.land status 0x7f = 0
    ∧ w_procs w3 !! c = None.
Proof.
  intros Hi Ea Et Hrt Hvt Hfind Hpe Hname Hview Hj Ec Hpp Hca Hl Eu Hvu Hself Hkt Hd Hal Hdel Huser Hws Hwant.
  pose proof (pi_num _ _ _ Hi c pc Ec) as Hn. rewrite Hl in Hn. cbn in Hn.
  pose proof (pi_ref _ _ _ Hi c pc Ec) as Href. rewrite extra_None, Hn in Href.
  pose proof (pi_pos _ _ _ Hi a pa Ea) as Hpa. pose proof (pi_pos _ _ _ Hi c pc Ec) as Hpc.
  assert (th_res thu = Some c) as Hru.
  { destruct (pi_thr _ _ _ Hi c pc u Ec) as (th & E & ?); [rewrite Hl; by left|]. rewrite Eu in E. by injection E as ->. }
  assert (t ≠ u) as Htu by (intros ->; rewrite Eu in Et; injection Et as ->; congruence).
  destruct (exit_run e w u thu c pc code Eu Hru Ec Hn) as (w1 & thz & Hex & Hp1 & Hx1 & Hj1 & Ht1 & Hrz & Hvz & Hsz & Hq1).
  destruct (exit_inv e w u thu code Hi Eu) as (w1' & Hex' & Hi1). rewrite Hex in Hex'. injection Hex' as <-.
  assert (w_threads w1 !! u = Some thz) as Ez by by rewrite Ht1, lookup_insert_eq.
  assert (w_procs w1 !! c = Some (zombied pc code)) as Ec1 by by rewrite Hp1, lookup_insert_eq.
  destruct (notify_run e w1 (p_pid pa) a c (zombied pc code) u thz name k code) as (w2 & pc2 & th2 & Hrun & Hp2 & Han & Hx2 & Ht2 & Hq2);
    try done.
  - congruence.
  - unfold jobs_of. by rewrite Hj1.
  - unfold find_proc_by_pid in *. by rewrite Hx1.
  - by rewrite Hq1 by by eapply wait_port_not_clean.
  - destruct (call_inv w1 (CReap e u code) Hi1) as (w2' & Hr2 & Hi2); [by exists thz|].
    cbn [run_call] in Hr2. rewrite Hrun in Hr2. cbn in Hr2. injection Hr2 as <-. destruct Han as (Hpid2 & Hpp2 & _).
    destruct (wait_run fuel others envs e w2 a pa t tht vs c pc2 (Z.land code 0xff) name k want ws opts) as (w3 & Hw & Hgone & Hef); try done.
    + by rewrite Ht2, lookup_insert_ne, Ht1, lookup_insert_ne.
    + by rewrite Hp2, lookup_insert_ne, Hp1, lookup_insert_ne.
    + by rewrite Hp2, lookup_insert_eq.
    + by rewrite Hpp2.
    + by rewrite Hpid2.
    + by rewrite Hpid2.
    + rewrite Hpid2 in Hw. exists w1, w2, w3, (wait4_encode_status (Z.land code 0xff)). split_and!; try done; [by apply Hef|..];
        unfold wait4_encode_status; rewrite <- Z.land_assoc; change (Z.land 255 255) with 255.
      * rewrite Z.shiftr_shiftl_l, Z.sub_diag, Z.shiftl_0_r by done. rewrite <- Z.land_assoc. by change (Z.land 255 255) with 255.
      * apply Z.bits_inj_0. intros i. rewrite Z.land_spec. destruct (Z.lt_ge_cases i 0); [by rewrite Z.testbit_neg_r|].
        destruct (Z.lt_ge_cases i 8); [by rewrite Z.shiftl_spec_low|]. rewrite (Z.bits_above_log2 0x7f) by (done || (change (Z.log2 0x7f) with 6; lia)).
        by rewrite andb_false_r.
Qed.

(** A wait with a bad status address strands the child.  When the status
    cannot be stored the wait returns EFAULT after it has taken the
    announcement: the child stays in the table as an announced zombie, and no
    announcement of it is left anywhere, so that no later wait can find it. *)
Theorem wait_efault_strands_child e w t th a p child code ws :
  pinv None {[+ child +]} w → w_threads w !! t = Some th → w_procs w !! a = Some p → ws ≠ 0 → pe_user_ok e = false →
  (∃ c, w_procs w !! child = Some c ∧ ppid c = p_pid p) →
  ∃ w' c', wait4_finish_reap e w t a ws child code = Some (w', - LINUX_EFAULT) ∧ pinv None ∅ w'
    ∧ w_procs w' !! child = Some c' ∧ exit_st (p_exit c') = LINUX_EXIT_NOTIFIED ∧ child ∉ tokens w'
    ∧ find_proc_by_pid w' (p_pid c') = find_proc_by_pid w (p_pid c').
Proof.
  intros Hi Et Ep Hws Huser (c & Ec & Hpp). pose proof (pi_pos _ _ _ Hi child c Ec) as Hpos.
  destruct (pi_tok _ _ _ Hi child) as (c0 & Ec0 & Hst & _ & Hlast); [multiset_solver|]. rewrite Ec in Ec0. injection Ec0 as <-.
  unfold wait4_finish_reap, get_proc. rewrite Ec, Ep. cbn [mbind option_bind].
  rewrite (proj2 (Z.leb_gt _ 0)), Hpp, Z.eqb_refl, Hst, Hlast by done. cbn [negb orb]. rewrite orb_true_r. cbn [negb orb].
  set (c1 := with_exit c _). set (w1 := put_proc w child c1).
  assert (pinv None {[+ child +]} w1) as Hi1.
  { eapply pinv_core; [done|done| |done]. unfold core, c1. cbn. by rewrite Hst, Hlast. }
  unfold wait4_put_wstatus, get_thread. rewrite (proj2 (Z.eqb_neq _ 0)) by done. cbn [w_threads w1 put_proc set_procs].
  rewrite Et. cbn [mbind option_bind]. rewrite Huser.
  assert (child ∉ tokens w1) as Htok.
  { pose proof (pi_toks _ _ _ Hi1 child) as Hm. rewrite multiplicity_disj_union, multiplicity_singleton, decide_True in Hm by done.
    rewrite elem_of_multiplicity. lia. }
  assert (pinv None ∅ w1) as Hi2 by (eapply pinv_drop; [|done]; multiset_solver).
  exists w1, c1. destruct (th_vs th); cbn [mbind option_bind fst snd negb]; (split_and!; try done; apply put_proc_get).
Qed.

(** The scan for children looks at 999 pids above the parent's. *)
Lemma far_child_missed w pp pg f : rows_live w →
  (∀ k c q, pp < k < pp + 1000 → find_proc_by_pid w k = Some c → w_procs w !! c = Some q → ppid q ≠ pp) →
  proc_parent_has_unreaped_child w pp pg f = Some false.
Proof.
  intros Hr Hfar. unfold proc_parent_has_unreaped_child. destruct (pp <=? 0); [done|]. destruct (f && _); [done|].
  assert (∀ fuel k, pp < k → k + Z.of_nat fuel ≤ pp + 1000 → unreaped_from fuel w k pp pg f = Some false) as Hu.
  { induction fuel as [|fuel IH]; intros k Hk Hf; cbn [unreaped_from]; [done|].
    destruct (find_proc_by_pid w k) as [c|] eqn:Ef; [|apply IH; lia].
    destruct (find_live w k c Hr Ef) as [q Eq]. unfold get_proc. rewrite Eq. cbn [mbind option_bind].
    rewrite (proj2 (Z.eqb_neq (ppid q) pp)) by (eapply Hfar; [|done|done]; lia). cbn [negb orb]. apply IH; lia. }
  apply Hu; lia.
Qed.
End props.

(** ** A machine with two processes *)

Module ProcDemo.

(** Ports as lists of messages; circumstances other than 0 make deliveries
    and creations fail. *)
#[local] Instance demo_ports : MsgPorts (gmap cstr (list kmsg)) := {
  thread_lookup_port q n := bool_decide (is_Some (q !! n));
  create_port o q n := if o =? 0 then Some (<[n := []]> q) else None;
  unregister_port q n := delete n q;
  deliver_msg o q n m :=
    if negb (o =? 0) then (q, DeliverAgain)
    else match q !! n with Some l => (<[n := l ++ [m]]> q, DeliverOk) | None => (q, DeliverFail) end;
  try_recv_msg q n := match q !! n with Some (m :: l) => (<[n := l]> q, Some m) | _ => (q, None) end;
}.

#[local] Instance demo_ports_laws : MsgPortsLaws (gmap cstr (list kmsg)).
Proof.
  refine {| port_view := id |}; cbn.
  - done.
  - intros o q n q'. destruct (o =? 0); [by intros [= <-]|done].
  - done.
  - intros o q n m q' r. destruct (negb (o =? 0)); [by intros [= <- <-]|].
    destruct (q !! n) as [l|] eqn:E; intros [= <- <-]; [|done]. by exists l.
  - intros q n q' r. destruct (q !! n) as [[|m l]|] eqn:E; intros [= <- <-]; [by rewrite ?E|by exists l|by rewrite ?E].
Defined.

(** The index as a list of rows. *)
#[local] Instance demo_index : NameIndex (list (cstr * Z)) := {
  name_index_rows x := x;
  name_index_lookup x n :=
    match list_find (λ r, r.1 = n) x with Some (i, r) => Some (r.2, Some (Z.of_nat i)) | None => None end;
  name_index_register o x n v := if o =? 0 then ((n, v) :: x, REND_SUCCESS) else (x, E_RENDEZVOS);
  name_index_unregister x v row n := delete (Z.to_nat row) x;
}.

#[local] Instance demo_index_laws : NameIndexLaws (list (cstr * Z)).
Proof.
  split; cbn.
  - intros x n v row. destruct (list_find _ x) as [[i [m v']]|] eqn:E; [|done]. intros [= <- <-].
    apply list_find_Some in E as (Hi & Hm & _). cbn in *. subst m. split; [by eexists|]. by eapply list_elem_of_lookup_2.
  - intros x n v. destruct (list_find _ x) as [[i [m v']]|] eqn:E; [done|]. intros _ Hin.
    apply list_find_None in E. rewrite Forall_forall in E. by apply (E _ Hin).
  - intros o x n v x' e. destruct (o =? 0); by intros [= <- <-].
  - intros x n v row. destruct (list_find _ x) as [[i [m v']]|] eqn:E; [|done]. intros [= <- <-].
    apply list_find_Some in E as (Hi & Hm & _). cbn in *. subst m. rewrite Nat2Z.id. symmetry. by apply delete_Permutation.
Qed.

Abbreviation dworld := (pworld (list (cstr * Z)) (gmap cstr (list kmsg))).

Definition w_none : dworld := PWorld ∅ ∅ [] ∅ ∅ [].

Lemma none_inv : pinv None ∅ w_none.
Proof.
  assert (tokens w_none = ∅) as Ht by (vm_compute; reflexivity).
  split; try (intros *; cbn [w_none w_procs w_threads]; by rewrite lookup_empty); try done.
  - intros a. rewrite Ht, (left_id_L ∅ (⊎)), multiplicity_empty. lia.
  - intros a. rewrite Ht, (left_id_L ∅ (⊎)). by intros ?%gmultiset_not_elem_of_empty.
  - intros n a Hin. cbn in Hin. by apply elem_of_nil in Hin.
Qed.

(** A process with pid 1 at address 100 and its thread 200. *)
Definition w_alloc : dworld := put_proc w_none 100 (new_proc 1).
Definition w_thread : dworld := put_thread w_alloc 200 (LThread ThRunning false 10 (Some 5) None 0).
Definition w_attached : dworld := default w_none (fst <$> linux_proc_attach_thread w_thread 100 200).
Definition w_one : dworld := default w_none (fst <$> register_process 0 w_attached 100).

Lemma one_inv : pinv None ∅ w_one.
Proof.
  assert (pinv None ∅ w_thread) as H1.
  { apply new_thread_inv; [|done|done]. apply add_proc_inv; try done. exact none_inv. }
  destruct (attach_inv ∅ w_thread 100 (new_proc 1) 200 (LThread ThRunning false 10 (Some 5) None 0) H1) as (w' & p' & E & H2 & Hp & _);
    try reflexivity.
  assert (w_attached = w') as Hw by (unfold w_attached; by rewrite E). rewrite <- Hw in *.
  destruct (register_inv ∅ 0 w_attached 100 p' H2) as (w'' & r & E2 & H3 & _); [by rewrite Hp, lookup_insert_eq|].
  unfold w_one. by rewrite E2.
Qed.

(** Everything succeeds; the same with user memory that cannot be written. *)
Definition env : penv := PEnv 0 true true false true REND_SUCCESS true false 900 [901] 0.
Definition env_bad : penv := PEnv 0 true false false true REND_SUCCESS true false 900 [901] 0.
Definition fork_two : fork_env := ForkEnv (Some 101) [Some 0; Some 2] (Some 6) true true true (Some (201, 11)) true 0 true.

Definition w_two : dworld := default w_none (run_call w_one (CFork fork_two 200)).

Lemma fork_two_ok : fork_env_ok fork_two w_one.
Proof. split; [intros c [= <-]|intros pid [= <-]|intros u tid [= <- <-]]; reflexivity. Qed.

Lemma one_running : running w_one 200.
Proof. eexists. split; [vm_compute; reflexivity|done]. Qed.

Lemma two_inv : pinv None ∅ w_two.
Proof.
  destruct (call_inv w_one (CFork fork_two 200) one_inv) as (w' & E & Hi).
  - split; [exact one_running|exact fork_two_ok].
  - unfold w_two. by rewrite E.
Qed.

Lemma proc_lifecycle_safe_witness :
  rtc proc_step w_one w_two
  ∧ (pinv None ∅ w_two ∧ ∀ c, call_ok w_two c → ∃ w'', run_call w_two c = Some w'').
Proof.
  assert (rtc proc_step w_one w_two) as Hs.
  { apply rtc_once. apply (step_call _ _ (CFork fork_two 200)); [split; [exact one_running|exact fork_two_ok]|].
    vm_compute. reflexivity. }
  split; [exact Hs|]. exact (proc_lifecycle_safe w_one w_two one_inv Hs).
Defined.

(** A fork for which no thread can be made. *)
Definition fork_no_thread : fork_env := ForkEnv (Some 101) [Some 2] (Some 6) true true true None true 0 true.

Lemma fork_all_or_nothing_witness :
  ∃ w' r, sys_fork fork_no_thread w_one 200 = Some (w', r)
    ∧ (r < 0 ∧ w_procs w' = w_procs w_one
       ∨ ∃ a pa c child u thu, Some 100 = Some a ∧ w_procs w_one !! a = Some pa ∧ forked pa child u
           ∧ r = p_pid child ∧ 0 < r ∧ w_procs w_one !! c = None ∧ w_procs w' = <[c := child]> (w_procs w_one)
           ∧ w_threads w' = <[u := thu]> (w_threads w_one) ∧ th_res thu = Some c).
Proof.
  apply (fork_all_or_nothing fork_no_thread w_one 200 (LThread ThRunning false 10 (Some 5) (Some 100) 0) one_inv).
  - vm_compute. reflexivity.
  - split; [intros c [= <-]|intros pid [= <-]|intros u tid [=]]; reflexivity.
Defined.

(** The descriptors were copied for the child that was given up and are not
    released. *)
Example failed_fork_keeps_files :
  (λ r, (r.2, skipn (length (w_effs w_one)) (w_effs r.1))) <$> sys_fork fork_no_thread w_one 200
  = Some (- LINUX_ENOMEM, [EffSignalFork 101 100; EffFsFork 101 100]).
Proof. vm_compute. reflexivity. Qed.

Definition port_one : cstr := (wait_port_name 1).1.

Lemma port_one_delivers : delivers 0 port_one.
Proof.
  intros q. split; [|by eexists]. cbn. intros Hq%bool_decide_eq_true m. destruct Hq as [l ->]. reflexivity.
Qed.

Definition proc_at (w : dworld) (a : Z) : linux_proc_resource := default (new_proc 0) (w_procs w !! a).
Definition thread_at (w : dworld) (t : Z) : lthread := default (LThread ThOther false 0 None None 0) (w_threads w !! t).

Lemma exit_code_reaches_parent_witness :
  p_pid (proc_at w_two 101) = 2 ∧
  ∃ w1 w2 w3 status,
    sys_exit env w_two 201 (-2) = Some w1
    ∧ clean_handle_message 0 id env w1 (Some (ThreadReap 201 (-2))) = Some (w2, true)
    ∧ sys_wait4 0 (λ _ w, w) (λ _, env) env w2 200 (-1) 4096 0 = Some (w3, Some (p_pid (proc_at w_two 101)))
    ∧ EffStoreUser (Some 5) 4096 status ∈ w_effs w3
    ∧ Z.land (Z.shiftr status 8) 0xff = Z.land (-2) 0xff ∧ Z.land status 0x7f = 0
    ∧ w_procs w3 !! 101 = None.
Proof.
  split; [vm_compute; reflexivity|].
  apply (exit_code_reaches_parent 0 (λ _ w, w) (λ _, env) env w_two 100 (proc_at w_two 100) 200 (thread_at w_two 200) 5
           101 (proc_at w_two 101) 201 (thread_at w_two 201) port_one (pred (wait_port_name 1).2) (-2) (-1) 4096 0 two_inv).
  1-16: vm_compute; first [reflexivity|discriminate].
  - intros Hin. apply list_elem_of_singleton in Hin. discriminate.
  - exact port_one_delivers.
  - reflexivity.
  - reflexivity.
  - reflexivity.
  - discriminate.
  - left. reflexivity.
Defined.

(** The announcement of the child has arrived, and the parent waits with an
    address that cannot be written. *)
Definition w_told : dworld :=
  default w_none (w ← run_call w_two (CExit env 201 7); run_call w (CReap env 201 7)).

Lemma told_inv : pinv None ∅ w_told.
Proof.
  destruct (call_inv w_two (CExit env 201 7) two_inv) as (w1 & E1 & H1); [eexists; split; [vm_compute; reflexivity|done]|].
  destruct (call_inv w1 (CReap env 201 7) H1) as (w2 & E2 & H2).
  - assert (default w_none (run_call w_two (CExit env 201 7)) = w1) as <- by by rewrite E1. eexists. vm_compute. reflexivity.
  - unfold w_told. rewrite E1. cbn [mbind option_bind]. by rewrite E2.
Qed.

(** The receive of the wait has taken the message. *)
Definition w_taken : dworld := set_ports w_told (try_recv_msg (w_ports w_told) port_one).1.

Lemma taken_inv : pinv None {[+ 101 +]} w_taken.
Proof.
  assert ((try_recv_msg (w_ports w_told) port_one).2 = Some (ExitNotify 2 101 7)) as Hm by (vm_compute; reflexivity).
  unfold w_taken. destruct (try_recv_msg (w_ports w_told) port_one) as [q m] eqn:E. cbn in Hm. subst m.
  pose proof (recv_toks _ _ _ _ E) as Hr. cbn [from_option msg_tok] in Hr. rewrite mset_one in Hr.
  apply (pinv_ports None ∅ {[+ 101 +]} w_told); [exact told_inv|]. rewrite Hr. by rewrite (left_id_L ∅ (⊎)).
Qed.

Lemma wait_efault_strands_child_witness :
  ∃ w' c', wait4_finish_reap env_bad w_taken 200 100 4096 101 7 = Some (w', - LINUX_EFAULT) ∧ pinv None ∅ w'
    ∧ w_procs w' !! 101 = Some c' ∧ exit_st (p_exit c') = LINUX_EXIT_NOTIFIED ∧ 101 ∉ tokens w'
    ∧ find_proc_by_pid w' (p_pid c') = find_proc_by_pid w_taken (p_pid c').
Proof.
  apply (wait_efault_strands_child env_bad w_taken 200 (thread_at w_taken 200) 100 (proc_at w_taken 100) 101 7 4096 taken_inv).
  - vm_compute. reflexivity.
  - vm_compute. reflexivity.
  - discriminate.
  - reflexivity.
  - exists (proc_at w_taken 101). split; vm_compute; reflexivity.
Defined.

Definition wait_once (e : penv) (w : dworld) : option (dworld * option Z) :=
  sys_wait4 3 (λ _ w, w) (λ _, e) e w 200 (-1) 4096 0.

(** After a wait with a bad address a wait with a good one never returns,
    though the child is still counted; without the first wait it returns the
    pid. *)
Example efault_then_blocked :
  (snd <$> wait_once env w_told) = Some (Some 2)
  ∧ (r ← wait_once env_bad w_told; r2 ← wait_once env r.1; Some (r.2, r2.2)) = Some (Some (- LINUX_EFAULT), None).
Proof. vm_compute. split; reflexivity. Qed.

(** The parent ends while the announcement of the child is in its port: the
    child stays NOTIFIED, and nothing announces it. *)
Example orphan_stays_notified :
  (w1 ← run_call w_told (CExit env 200 0); w2 ← run_call w1 (CReap env 200 0);
   Some (bool_decide (is_Some (w_procs w2 !! 100)), exit_st ∘ p_exit <$> w_procs w2 !! 101, ppid <$> w_procs w2 !! 101,
     map_to_list (w_ports w2) ≫= snd))
  = Some (false, Some LINUX_EXIT_NOTIFIED, Some 0, []).
Proof. vm_compute. reflexivity. Qed.

(** A child whose pid is 1000 above its parent's is not seen. *)
Definition fork_far : fork_env := ForkEnv (Some 101) [Some 1001] (Some 6) true true true (Some (201, 11)) true 0 true.

Example far_child_echild :
  (r ← sys_fork fork_far w_one 200; r2 ← wait_once env r.1; Some (r.2, r2.2)) = Some (1001, Some (- LINUX_ECHILD)).
Proof. vm_compute. reflexivity. Qed.
End ProcDemo.
