(* ===== verification/ExecStack.v ===== *)
(** * The initial stack of a program

    [linux_layer/proc/linux_exec_stack.c]: the strings, random bytes, auxiliary
    vector and argument pointers that a new program finds on its stack.  User
    memory is a class with laws; a reference reader, which does what the start
    code of a C library does, gives the layout its meaning. *)

From Stdlib Require Import Ascii.
From stdpp Require Import base numbers list option.
From S2P Require Import Prelude PageSlice.

(** ** User memory

    Stores and loads of kernel code in a user address space; pages that are
    not mapped make them fail, a store then may have written a part. *)

Class UserBytes (M : Type) : Type := {
  ub_load : M → Z → nat → option (list Z);
  ub_store : M → Z → list Z → M * bool;
}.

(** [l] lies at address [a]. *)
Definition holds_at {M} (byte : M → Z → option Z) (m : M) (a : Z) (l : list Z) : Prop :=
  ∀ i x, l !! i = Some x → byte m (a + Z.of_nat i) = Some x.

Class UserBytesLaws (M : Type) `{UserBytes M} : Type := {
  ub_byte : M → Z → option Z;
  ub_store_frame m a l m' ok x : ub_store m a l = (m', ok) →
    ¬ (a ≤ x < a + Z.of_nat (length l)) → ub_byte m' x = ub_byte m x;
  ub_store_mapped m a l m' ok x : ub_store m a l = (m', ok) → is_Some (ub_byte m' x) ↔ is_Some (ub_byte m x);
  ub_store_holds m a l m' : Forall (λ b, 0 ≤ b < 256) l → ub_store m a l = (m', true) → holds_at ub_byte m' a l;
  ub_store_ok m a l : 0 ≤ a → a + Z.of_nat (length l) ≤ 2 ^ 64 →
    (∀ x, a ≤ x < a + Z.of_nat (length l) → is_Some (ub_byte m x)) → (ub_store m a l).2 = true;
  ub_load_spec m a n l : 0 ≤ a → a + Z.of_nat n ≤ 2 ^ 64 →
    ub_load m a n = Some l ↔ length l = n ∧ holds_at ub_byte m a l;
}.

(** ** Constants and records *)

Definition LINUX_AT_NULL : Z := 0.
Definition LINUX_AT_PHDR : Z := 3.
Definition LINUX_AT_PHENT : Z := 4.
Definition LINUX_AT_PHNUM : Z := 5.
Definition LINUX_AT_PAGESZ : Z := 6.
Definition LINUX_AT_ENTRY : Z := 9.
Definition LINUX_AT_UID : Z := 11.
Definition LINUX_AT_EUID : Z := 12.
Definition LINUX_AT_GID : Z := 13.
Definition LINUX_AT_EGID : Z := 14.
Definition LINUX_AT_HWCAP : Z := 16.
Definition LINUX_AT_CLKTCK : Z := 17.
Definition LINUX_AT_SECURE : Z := 23.
Definition LINUX_AT_RANDOM : Z := 25.
Definition LINUX_AT_EXECFN : Z := 31.
Definition LINUX_EXEC_RANDOM_BYTES : nat := 16.
Definition LINUX_EXEC_AUXV_MAX_PAIRS : nat := 24.
Definition LINUX_EXEC_AT_HWCAP_VAL : Z := 0.

Record linux_exec_elf_auxv : Type := ElfAuxv {
  have_elf : bool;
  av_phdr : Z;
  av_phent : Z;
  av_phnum : Z;
  av_entry : Z;
}.

(** What the macros of the core kernel read from an ELF image. *)
Record elf_phdr : Type := ElfPhdr { p_type : Z; p_offset : Z; p_vaddr : Z; p_filesz : Z }.
Record elf_image : Type := ElfImage {
  elf_header_ok : bool;
  elf_class64 : bool;
  e_phoff : Z;
  e_phentsize : Z;
  e_phnum : Z;
  e_entry : Z;
  e_phdrs : list elf_phdr;
}.
Definition PT_LOAD : Z := 1.

(** ** ELF *)

(** The loop over the program headers; [first_load] as in the code. *)
Fixpoint phdr_scan (l : list elf_phdr) (first_load phoff : Z) : Z :=
  match l with
  | [] => if first_load =? 0 then 0 else u64 (first_load + phoff)
  | p :: l' =>
      if negb (p_type p =? PT_LOAD) then phdr_scan l' first_load phoff
      else
        let first := if first_load =? 0 then p_vaddr p else first_load in
        if (p_offset p <=? phoff) && (phoff <? u64 (p_offset p + p_filesz p))
        then u64 (p_vaddr p + (phoff - p_offset p))
        else phdr_scan l' first phoff
  end.

Definition linux_exec_elf_user_phdr_va (img : elf_image) (phoff : Z) : Z := phdr_scan (e_phdrs img) 0 phoff.

Definition no_auxv : linux_exec_elf_auxv := ElfAuxv false 0 0 0 0.

(** [None]: no image. *)
Definition linux_exec_elf_auxv_from_kva (elf : ptr elf_image) : linux_exec_elf_auxv * bool :=
  match elf with
  | None => (no_auxv, false)
  | Some img =>
      if negb (elf_header_ok img) || negb (elf_class64 img) then (no_auxv, false)
      else
        let phdr := linux_exec_elf_user_phdr_va img (e_phoff img) in
        let ok := negb (phdr =? 0) && (0 <? e_phnum img) && negb (e_phentsize img =? 0) && negb (e_entry img =? 0) in
        (ElfAuxv ok phdr (e_phentsize img) (e_phnum img) (e_entry img), ok)
  end.

(** ** Random bytes *)

Record rng_env : Type := RngEnv { re_pid : ptr Z; re_tid : ptr Z; re_cpu : Z }.

(** [rand64]: the generator of the core kernel.  The new state and the bytes. *)
Definition linux_exec_fill_random16 (rand64 : Z → Z) (env : rng_env) (state mix : Z) : Z * list Z :=
  let s1 := Z.lxor state mix in
  let s2 := match re_pid env with Some pid => Z.lxor s1 (u64 (Z.shiftl (u64 pid) 32)) | None => s1 end in
  let s3 := match re_tid env with Some tid => Z.lxor s2 (u64 tid) | None => s2 end in
  let s4 := Z.lxor s3 (u64 (Z.shiftl (u64 (re_cpu env)) 48)) in
  let s := if s4 =? 0 then 1 else s4 in
  let lo := u64 (rand64 s) in
  let hi := u64 (rand64 lo) in
  (hi, le_bytes 8 lo ++ le_bytes 8 hi).

(** ** The auxiliary vector *)

Definition auxv_push (cap : nat) (l : list (Z * Z)) (p : Z * Z) : list (Z * Z) :=
  if (length l <? cap)%nat then l ++ [p] else l.

Definition auxv_entries (elf : ptr linux_exec_elf_auxv) (random_va execfn_va : Z) : list (Z * Z) :=
  match elf with
  | Some a =>
      if have_elf a then
        [(LINUX_AT_PHDR, av_phdr a); (LINUX_AT_PHENT, av_phent a); (LINUX_AT_PHNUM, av_phnum a);
         (LINUX_AT_PAGESZ, PAGE_SIZE); (LINUX_AT_ENTRY, av_entry a); (LINUX_AT_UID, 0); (LINUX_AT_EUID, 0);
         (LINUX_AT_GID, 0); (LINUX_AT_EGID, 0); (LINUX_AT_SECURE, 0); (LINUX_AT_CLKTCK, 100);
         (LINUX_AT_HWCAP, LINUX_EXEC_AT_HWCAP_VAL); (LINUX_AT_RANDOM, random_va)]
        ++ (if execfn_va =? 0 then [] else [(LINUX_AT_EXECFN, execfn_va)])
      else [(LINUX_AT_PAGESZ, PAGE_SIZE)]
  | None => [(LINUX_AT_PAGESZ, PAGE_SIZE)]
  end.

Definition linux_exec_auxv_fill_pairs (elf : ptr linux_exec_elf_auxv) (random_va execfn_va : Z) (cap : nat) : list (Z * Z) :=
  foldl (auxv_push cap) [] (auxv_entries elf random_va execfn_va ++ [(LINUX_AT_NULL, 0)]).

(** ** Building the stack *)

(** The bytes of a C string with its NUL. *)
Definition cbytes (s : cstr) : list Z := (byte_of <$> s) ++ [0].

Record stack_result (M : Type) : Type := StackResult { sr_mem : M; sr_rng : Z; sr_sp : Z; sr_argv : Z }.
Arguments StackResult {M} _ _ _ _.
Arguments sr_mem {M} _.
Arguments sr_rng {M} _.
Arguments sr_sp {M} _.
Arguments sr_argv {M} _.

Section build.
Context {M : Type} `{UB : UserBytes M}.
Context (rand64 : Z → Z).
Implicit Types (m : M) (sp : Z).

Definition exec_store_u64 m (va value : Z) : M * bool := ub_store m va (le_bytes 8 value).

(** Strings one after the other; the address after the last. *)
Fixpoint store_strings m (va : Z) (l : list cstr) : M * bool * Z :=
  match l with
  | [] => (m, true, va)
  | s :: l' =>
      let '(m1, ok) := ub_store m va (cbytes s) in
      if ok then store_strings m1 (u64 (va + (Z.of_nat (length s) + 1))) l' else (m1, false, va)
  end.

Fixpoint store_pairs m sp (j : Z) (l : list (Z * Z)) : M * bool :=
  match l with
  | [] => (m, true)
  | (tag, val) :: l' =>
      let '(m1, ok1) := exec_store_u64 m (u64 (sp + j * 2 * 8)) tag in
      if negb ok1 then (m1, false)
      else
        let '(m2, ok2) := exec_store_u64 m1 (u64 (sp + (j * 2 + 1) * 8)) val in
        if negb ok2 then (m2, false) else store_pairs m2 sp (j + 1) l'
  end.

Fixpoint store_argv m (area i string_va : Z) (l : list cstr) : M * bool :=
  match l with
  | [] => (m, true)
  | s :: l' =>
      let '(m1, ok) := exec_store_u64 m (u64 (area + i * 8)) string_va in
      if negb ok then (m1, false) else store_argv m1 area (i + 1) (u64 (string_va + (Z.of_nat (length s) + 1))) l'
  end.

(** [argv] without a NULL entry. *)
Fixpoint all_args (kargv : list (ptr cstr)) : option (list cstr) :=
  match kargv with
  | [] => Some []
  | None :: _ => None
  | Some s :: l => cons s <$> all_args l
  end.

Definition mask16 (x : Z) : Z := Z.land x (not64 0xf).

(** The padding above the auxiliary vector (x86_64). *)
Definition entry_padding sp (total : Z) : Z :=
  let entry_sp := u64 (sp - total) in
  let up := Z.lor (mask16 entry_sp) 8 in
  let aligned := if entry_sp <? up then u64 (up - 0x10) else up in
  if aligned <? entry_sp then entry_sp - aligned else 0.

(** The vectors below the padding: auxv, envp, argv, argc. *)
Definition store_vectors m (rng sp strings_base : Z) (args : list cstr) (pairs : list (Z * Z)) : stack_result M :=
  let argc := Z.of_nat (length args) in
  let sp1 := u64 (sp - Z.of_nat (length pairs) * 2 * 8) in
  let '(m1, ok1) := store_pairs m sp1 0 pairs in
  if negb ok1 then StackResult m1 rng 0 0
  else
    let sp2 := u64 (sp1 - 8) in
    let '(m2, ok2) := exec_store_u64 m1 sp2 0 in
    if negb ok2 then StackResult m2 rng 0 0
    else
      let area := u64 (sp2 - (argc + 1) * 8) in
      let '(m3, ok3) := store_argv m2 area 0 strings_base args in
      if negb ok3 then StackResult m3 rng 0 0
      else
        let '(m4, ok4) := exec_store_u64 m3 (u64 (area + argc * 8)) 0 in
        if negb ok4 then StackResult m4 rng 0 0
        else
          let sp3 := u64 (area - 8) in
          let '(m5, ok5) := exec_store_u64 m4 sp3 argc in
          if negb ok5 then StackResult m5 rng 0 0 else StackResult m5 rng sp3 area.

Definition linux_exec_build_initial_stack (env : rng_env) (rng : Z) m (stack_top : Z) (kargv : list (ptr cstr))
    (execfn : ptr cstr) (elf : ptr linux_exec_elf_auxv) : stack_result M :=
  match all_args kargv with
  | None => StackResult m rng 0 0
  | Some args =>
      let size := foldl (λ n s, u64 (n + (Z.of_nat (length s) + 1))) 0 (args ++ option_list execfn) in
      let strings_base := mask16 (u64 (stack_top - size)) in
      let '(m1, ok1, va) := store_strings m strings_base args in
      if negb ok1 then StackResult m1 rng 0 0
      else
        let '(m2, ok2) := match execfn with Some f => ub_store m1 va (cbytes f) | None => (m1, true) end in
        let execfn_va := match execfn with Some _ => va | None => 0 end in
        if negb ok2 then StackResult m2 rng 0 0
        else
          let with_elf := match elf with Some a => have_elf a | None => false end in
          let random_va := if with_elf then mask16 (u64 (strings_base - Z.of_nat LINUX_EXEC_RANDOM_BYTES)) else 0 in
          let '(rng1, bytes) := if with_elf then linux_exec_fill_random16 rand64 env rng random_va else (rng, []) in
          let '(m3, ok3) := if with_elf then ub_store m2 random_va bytes else (m2, true) in
          if negb ok3 then StackResult m3 rng1 0 0
          else
            let sp := if with_elf then random_va else strings_base in
            let pairs := linux_exec_auxv_fill_pairs elf random_va execfn_va LINUX_EXEC_AUXV_MAX_PAIRS in
            let total := Z.of_nat (length pairs) * 2 * 8 + (8 + (Z.of_nat (length args) + 1) * 8 + 8) in
            store_vectors m3 rng1 (u64 (sp - entry_padding sp total)) strings_base args pairs
  end.

(** ** The reference reader *)

Fixpoint le_val (l : list Z) : Z := match l with [] => 0 | b :: l' => b + 256 * le_val l' end.

Definition read_u64 m (a : Z) : option Z := le_val <$> ub_load m a 8.

Fixpoint read_cstr (fuel : nat) m (a : Z) : option cstr :=
  match fuel with
  | O => None
  | S fuel' =>
      l ← ub_load m a 1;
      match l with
      | [b] => if b =? 0 then Some [] else cons (char_of b) <$> read_cstr fuel' m (a + 1)
      | _ => None
      end
  end.

(** Pointers up to a NULL, and the address after it. *)
Fixpoint read_ptrs (fuel : nat) m (a : Z) : option (list Z * Z) :=
  match fuel with
  | O => None
  | S fuel' =>
      p ← read_u64 m a;
      if p =? 0 then Some ([], a + 8)
      else r ← read_ptrs fuel' m (a + 8); Some (p :: r.1, r.2)
  end.

(** Tag and value pairs up to AT_NULL. *)
Fixpoint read_auxv (fuel : nat) m (a : Z) : option (list (Z * Z)) :=
  match fuel with
  | O => None
  | S fuel' =>
      tag ← read_u64 m a;
      if tag =? LINUX_AT_NULL then Some []
      else v ← read_u64 m (a + 8); cons (tag, v) <$> read_auxv fuel' m (a + 16)
  end.

Record program_start : Type := ProgramStart {
  ps_argc : Z;
  ps_argv : list cstr;
  ps_envp : list cstr;
  ps_auxv : list (Z * Z);
}.

Definition read_stack (fuel : nat) m sp : option program_start :=
  argc ← read_u64 m sp;
  argv ← read_ptrs fuel m (sp + 8);
  envp ← read_ptrs fuel m argv.2;
  auxv ← read_auxv fuel m envp.2;
  args ← mapM (read_cstr fuel m) argv.1;
  envs ← mapM (read_cstr fuel m) envp.1;
  Some (ProgramStart argc args envs auxv).
End build.
