(* ===== verification/ExecStackThm.v ===== *)
(** * A program reads its arguments from the stack that was built for it *)

From Stdlib Require Import Ascii.
From stdpp Require Import base numbers strings list gmap option.
From S2P Require Import Prelude PageSlice ExecStack.

(** ** Little-endian integers and alignment *)

Lemma le_bytes_bytes n x : Forall (λ b, 0 ≤ b < 256) (le_bytes n x).
Proof. revert x. induction n as [|n IH]; intros x; cbn; constructor; [apply Z.mod_pos_bound; lia|apply IH]. Qed.

Lemma le_val_bytes n x : 0 ≤ x < 2 ^ (8 * Z.of_nat n) → le_val (le_bytes n x) = x.
Proof.
  revert x. induction n as [|n IH]; intros x Hx; cbn [le_bytes le_val].
  - change (2 ^ (8 * Z.of_nat 0)) with 1 in Hx. lia.
  - rewrite IH; [rewrite (Z.div_mod x 256) at 3 by lia; lia|].
    replace (8 * Z.of_nat (S n)) with (8 + 8 * Z.of_nat n) in Hx by lia. rewrite Z.pow_add_r in Hx by lia.
    change (2 ^ 8) with 256 in Hx. split; [apply Z.div_pos; lia|apply Z.div_lt_upper_bound; lia].
Qed.

Lemma cbytes_length s : length (cbytes s) = S (length s).
Proof. unfold cbytes. rewrite length_app, length_fmap. cbn. lia. Qed.

Lemma cbytes_bytes s : Forall (λ b, 0 ≤ b < 256) (cbytes s).
Proof.
  unfold cbytes. apply Forall_app. split; [|by constructor; [lia|]]. apply Forall_fmap, Forall_true.
  intros c. cbn. apply byte_of_range.
Qed.

Lemma mask16_spec x : 0 ≤ x < 2 ^ 64 → mask16 x = x - x `mod` 16.
Proof.
  intros Hx. unfold mask16. change (not64 0xf) with (Z.shiftl (Z.ones 60) 4).
  assert (Z.land x (Z.shiftl (Z.ones 60) 4) = Z.shiftl (Z.shiftr x 4) 4) as ->.
  { apply Z.bits_inj'. intros n Hn. rewrite Z.land_spec. destruct (Z.lt_ge_cases n 4).
    - rewrite !Z.shiftl_spec_low by done. by rewrite andb_false_r.
    - rewrite !Z.shiftl_spec, Z.shiftr_spec by lia. replace (n - 4 + 4) with n by lia.
      destruct (Z.lt_ge_cases n 64) as [Hl|Hl].
      + rewrite Z.ones_spec_low by lia. by rewrite andb_true_r.
      + rewrite Z.ones_spec_high, andb_false_r by lia. symmetry. rewrite <- (Z.mod_small x (2 ^ 64)) by done.
        by rewrite Z.mod_pow2_bits_high by lia. }
  rewrite Z.shiftr_div_pow2, Z.shiftl_mul_pow2 by lia. change (2 ^ 4) with 16. pose proof (Z.div_mod x 16). lia.
Qed.

Lemma mask16_lor8 x : 0 ≤ x < 2 ^ 64 → Z.lor (mask16 x) 8 = mask16 x + 8.
Proof.
  intros Hx. rewrite Z.add_nocarry_lxor, Z.lxor_lor; [done|..]; rewrite (mask16_spec x Hx);
    replace (x - x `mod` 16) with (Z.shiftl (x `div` 16) 4) by (rewrite Z.shiftl_mul_pow2 by lia; change (2 ^ 4) with 16; pose proof (Z.div_mod x 16); lia);
    apply Z.bits_inj'; intros n Hn; rewrite Z.land_spec, Z.bits_0; (destruct (Z.lt_ge_cases n 4);
      [by rewrite Z.shiftl_spec_low|]); change 8 with (2 ^ 3); rewrite Z.pow2_bits_false by lia; apply andb_false_r.
Qed.

(** The final stack pointer is 8 modulo 16. *)
Lemma padding_spec sp total : 0 ≤ sp < 2 ^ 64 → 0 ≤ total → total + 32 ≤ sp →
  0 ≤ entry_padding sp total < 16 ∧ (sp - entry_padding sp total - total) `mod` 16 = 8.
Proof.
  intros Hs Ht Hr. unfold entry_padding. rewrite (uw_small 64 (sp - total)) by lia. set (e := sp - total).
  rewrite mask16_lor8, mask16_spec by lia. pose proof (Z.mod_pos_bound e 16). set (r := e `mod` 16) in *.
  assert (e = 16 * (e `div` 16) + r) as He by (apply Z.div_mod; lia). set (q := e `div` 16) in *.
  destruct (Z.ltb_spec e (e - r + 8)).
  - rewrite uw_small by lia. rewrite (proj2 (Z.ltb_lt _ e)) by lia. split; [lia|].
    replace (sp - (e - (e - r + 8 - 16)) - total) with (8 + (q - 1) * 16) by lia. by rewrite Z.mod_add by lia.
  - destruct (Z.ltb_spec (e - r + 8) e); (split; [lia|]).
    + replace (sp - (e - (e - r + 8)) - total) with (8 + q * 16) by lia. by rewrite Z.mod_add by lia.
    + replace (sp - 0 - total) with (8 + q * 16) by lia. by rewrite Z.mod_add by lia.
Qed.

Lemma fill_pairs_spec elf rva eva : linux_exec_auxv_fill_pairs elf rva eva LINUX_EXEC_AUXV_MAX_PAIRS
  = auxv_entries elf rva eva ++ [(LINUX_AT_NULL, 0)].
Proof.
  unfold linux_exec_auxv_fill_pairs, auxv_entries. destruct elf as [a|]; [|done]. destruct (have_elf a); [|done].
  by destruct (eva =? 0).
Qed.

Section thm.
Context {M : Type} `{UBL : UserBytesLaws M}.
Implicit Types (m : M) (a : Z).

Abbreviation holds := (holds_at ub_byte).

(** ** What lies in memory *)

Definition mapped m a (n : Z) : Prop := ∀ x, a ≤ x < a + n → is_Some (ub_byte m x).
(** Same mapping, and the same bytes outside of [n] bytes at [a]. *)
Definition touched m m' a (n : Z) : Prop :=
  (∀ x, is_Some (ub_byte m' x) ↔ is_Some (ub_byte m x)) ∧ ∀ x, ¬ (a ≤ x < a + n) → ub_byte m' x = ub_byte m x.

Lemma holds_app m a l k : holds m a (l ++ k) ↔ holds m a l ∧ holds m (a + Z.of_nat (length l)) k.
Proof.
  split.
  - intros Hh. split; intros i x Hi.
    + apply Hh. by apply lookup_app_l_Some.
    + replace (a + Z.of_nat (length l) + Z.of_nat i) with (a + Z.of_nat (length l + i)) by lia. apply Hh.
      rewrite lookup_app_r by lia. by replace (length l + i - length l)%nat with i by lia.
  - intros [H1 H2] i x [Hi|[Hle Hi]]%lookup_app_Some; [by apply H1|].
    replace (a + Z.of_nat i) with (a + Z.of_nat (length l) + Z.of_nat (i - length l)) by lia. by apply H2.
Qed.

Lemma holds_nil m a : holds m a [].
Proof. intros i x Hi. done. Qed.

Lemma holds_touched m m' a l b n : touched m m' b n → (a + Z.of_nat (length l) ≤ b ∨ b + n ≤ a) → holds m a l → holds m' a l.
Proof. intros [_ Ht] Hd Hh i x Hi. pose proof (lookup_lt_Some _ _ _ Hi). rewrite Ht by lia. by apply Hh. Qed.

Lemma mapped_touched m m' a n b k : touched m m' b k → mapped m a n → mapped m' a n.
Proof. intros [Ht _] Hm x Hx. apply Ht. by apply Hm. Qed.

Lemma mapped_sub m a n b k : mapped m a n → a ≤ b → b + k ≤ a + n → mapped m b k.
Proof. intros Hm ? ? x ?. apply Hm. lia. Qed.

(** A part of a mapped range, also after stores. *)
Ltac sub_mapped := repeat (eapply mapped_touched; [eassumption|]); eapply mapped_sub; [eassumption|lia|lia].

Lemma touched_trans m1 m2 m3 a n b k c j : touched m1 m2 a n → touched m2 m3 b k →
  c ≤ a → c ≤ b → a + n ≤ c + j → b + k ≤ c + j → touched m1 m3 c j.
Proof.
  intros [H1 H1'] [H2 H2'] ? ? ? ?. split.
  - intros x. by rewrite H2, H1.
  - intros x Hx. rewrite H2', H1' by lia. done.
Qed.

Lemma touched_refl m a n : touched m m a n.
Proof. done. Qed.

Lemma store_run m a l : Forall (λ b, 0 ≤ b < 256) l → 0 ≤ a → a + Z.of_nat (length l) ≤ 2 ^ 64 →
  mapped m a (Z.of_nat (length l)) →
  ∃ m', ub_store m a l = (m', true) ∧ holds m' a l ∧ touched m m' a (Z.of_nat (length l)).
Proof.
  intros Hl Ha Hb Hm. pose proof (ub_store_ok m a l Ha Hb Hm) as Hok. destruct (ub_store m a l) as [m' ok] eqn:E.
  cbn in Hok. subst ok. exists m'. split_and!; [done|by eapply ub_store_holds|].
  split; intros x; [by eapply ub_store_mapped|intros Hx; by eapply ub_store_frame].
Qed.

Lemma store_u64_run m a v : 0 ≤ a → a + 8 ≤ 2 ^ 64 → mapped m a 8 →
  ∃ m', exec_store_u64 m a v = (m', true) ∧ holds m' a (le_bytes 8 v) ∧ touched m m' a 8.
Proof. intros. apply store_run; rewrite ?le_bytes_length; [apply le_bytes_bytes|done..]. Qed.

(** ** The loops *)

Definition strings_bytes (l : list cstr) : list Z := l ≫= cbytes.
Definition strings_len (l : list cstr) : Z := Z.of_nat (length (strings_bytes l)).

Lemma strings_len_cons s l : strings_len (s :: l) = Z.of_nat (length s) + 1 + strings_len l.
Proof. unfold strings_len, strings_bytes. cbn [mbind list_bind]. rewrite length_app, cbytes_length. lia. Qed.
Lemma strings_len_app l k : strings_len (l ++ k) = strings_len l + strings_len k.
Proof. unfold strings_len, strings_bytes. rewrite bind_app, length_app. lia. Qed.
Lemma strings_len_pos l : 0 ≤ strings_len l.
Proof. unfold strings_len. lia. Qed.

Lemma store_strings_run l : ∀ m va, 0 ≤ va → va + strings_len l < 2 ^ 64 → mapped m va (strings_len l) →
  ∃ m', store_strings m va l = (m', true, va + strings_len l) ∧ holds m' va (strings_bytes l)
    ∧ touched m m' va (strings_len l).
Proof.
  induction l as [|s l IH]; intros m va Hva Hb Hm; cbn [store_strings].
  - exists m. change (strings_len []) with 0. replace (va + 0) with va by lia.
    split_and!; [done|apply holds_nil|apply touched_refl].
  - rewrite strings_len_cons in *. pose proof (strings_len_pos l).
    destruct (store_run m va (cbytes s)) as (m1 & -> & Hh1 & Ht1); rewrite ?cbytes_length; [apply cbytes_bytes|lia|lia|sub_mapped|].
    rewrite cbytes_length in Ht1. rewrite uw_small by lia.
    destruct (IH m1 (va + (Z.of_nat (length s) + 1))) as (m2 & -> & Hh2 & Ht2); [lia|lia|sub_mapped|].
    exists m2. split_and!; [f_equal; lia| |eapply touched_trans; [done|done|lia..]].
    cbn [strings_bytes mbind list_bind]. apply holds_app. rewrite cbytes_length. split.
    + eapply holds_touched; [done| |done]. rewrite cbytes_length. lia.
    + by replace (va + Z.of_nat (S (length s))) with (va + (Z.of_nat (length s) + 1)) by lia.
Qed.

Definition words (l : list Z) : list Z := l ≫= le_bytes 8.
Definition pair_words (l : list (Z * Z)) : list Z := l ≫= λ p, [p.1; p.2].

Lemma words_length l : Z.of_nat (length (words l)) = 8 * Z.of_nat (length l).
Proof. unfold words. induction l as [|x l IH]; [done|]. rewrite bind_cons, length_app, le_bytes_length. cbn [length]. lia. Qed.
Lemma pair_words_length l : Z.of_nat (length (pair_words l)) = 2 * Z.of_nat (length l).
Proof. unfold pair_words. induction l as [|x l IH]; [done|]. rewrite bind_cons, length_app. cbn [length]. lia. Qed.

Lemma store_pairs_run l : ∀ m sp j, 0 ≤ sp → 0 ≤ j → sp + (j + Z.of_nat (length l)) * 16 ≤ 2 ^ 64 →
  mapped m (sp + j * 16) (Z.of_nat (length l) * 16) →
  ∃ m', store_pairs m sp j l = (m', true) ∧ holds m' (sp + j * 16) (words (pair_words l))
    ∧ touched m m' (sp + j * 16) (Z.of_nat (length l) * 16).
Proof.
  induction l as [|[t v] l IH]; intros m sp j Hsp Hj Hb Hm; cbn [store_pairs].
  - exists m. split_and!; [done|apply holds_nil|apply touched_refl].
  - cbn [length] in *. rewrite (uw_small 64 (sp + j * 2 * 8)), (uw_small 64 (sp + (j * 2 + 1) * 8)) by lia.
    destruct (store_u64_run m (sp + j * 2 * 8) t) as (m1 & -> & Hh1 & Ht1); [lia|lia|sub_mapped|]. cbn [negb].
    destruct (store_u64_run m1 (sp + (j * 2 + 1) * 8) v) as (m2 & -> & Hh2 & Ht2); [lia|lia|sub_mapped|].
    cbn [negb].
    destruct (IH m2 sp (j + 1)) as (m3 & -> & Hh3 & Ht3); [lia|lia|lia|sub_mapped|].
    exists m3. split; [done|]. split.
    + change (words (pair_words ((t, v) :: l))) with (le_bytes 8 t ++ le_bytes 8 v ++ words (pair_words l)).
      apply holds_app. rewrite le_bytes_length. split; [|apply holds_app; rewrite le_bytes_length; split].
      * replace (sp + j * 16) with (sp + j * 2 * 8) by lia. do 2 (eapply holds_touched; [done|rewrite le_bytes_length; lia|]). done.
      * replace (sp + j * 16 + Z.of_nat 8) with (sp + (j * 2 + 1) * 8) by lia. eapply holds_touched; [done|rewrite le_bytes_length; lia|done].
      * by replace (sp + j * 16 + Z.of_nat 8 + Z.of_nat 8) with (sp + (j + 1) * 16) by lia.
    + eapply (touched_trans m m2 m3 (sp + j * 16) 16); [eapply touched_trans; [exact Ht1|exact Ht2|lia..]|exact Ht3|lia..].
Qed.

(** The address of each string. *)
Fixpoint string_addrs (va : Z) (l : list cstr) : list Z :=
  match l with
  | [] => []
  | s :: l' => va :: string_addrs (va + (Z.of_nat (length s) + 1)) l'
  end.

Lemma string_addrs_length l va : length (string_addrs va l) = length l.
Proof. revert va. induction l as [|s l IH]; intros va; cbn; [done|]. by rewrite IH. Qed.

Lemma store_argv_run l : ∀ m area i va, 0 ≤ area → 0 ≤ i → area + (i + Z.of_nat (length l)) * 8 ≤ 2 ^ 64 →
  0 ≤ va → va + strings_len l < 2 ^ 64 → mapped m (area + i * 8) (Z.of_nat (length l) * 8) →
  ∃ m', store_argv m area i va l = (m', true) ∧ holds m' (area + i * 8) (words (string_addrs va l))
    ∧ touched m m' (area + i * 8) (Z.of_nat (length l) * 8).
Proof.
  induction l as [|s l IH]; intros m area i va Ha Hi Hb Hva Hs Hm; cbn [store_argv].
  - exists m. split_and!; [done|apply holds_nil|apply touched_refl].
  - cbn [length] in *. rewrite strings_len_cons in Hs. pose proof (strings_len_pos l).
    rewrite (uw_small 64 (area + i * 8)), (uw_small 64 (va + (Z.of_nat (length s) + 1))) by lia.
    destruct (store_u64_run m (area + i * 8) va) as (m1 & -> & Hh1 & Ht1); [lia|lia|sub_mapped|]. cbn [negb].
    destruct (IH m1 area (i + 1) (va + (Z.of_nat (length s) + 1))) as (m2 & -> & Hh2 & Ht2); [lia..|sub_mapped|].
    exists m2. split; [done|]. split; [|eapply touched_trans; [done|done|lia..]].
    change (words (string_addrs va (s :: l))) with (le_bytes 8 va ++ words (string_addrs (va + (Z.of_nat (length s) + 1)) l)).
    apply holds_app. rewrite le_bytes_length. split; [eapply holds_touched; [done|rewrite le_bytes_length; lia|done]|].
    by replace (area + i * 8 + Z.of_nat 8) with (area + (i + 1) * 8) by lia.
Qed.

(** Everything below the padding, from the new stack pointer up. *)
Definition vector_words (args : list cstr) (strings_base : Z) (pairs : list (Z * Z)) : list Z :=
  Z.of_nat (length args) :: string_addrs strings_base args ++ 0 :: 0 :: pair_words pairs.

Lemma vectors_run m rng sp sb args pairs (n := Z.of_nat (length args)) (k := Z.of_nat (length pairs))
    (sp3 := sp - k * 16 - 8 - (n + 1) * 8 - 8) :
  0 ≤ sp3 → sp < 2 ^ 64 → mapped m sp3 (sp - sp3) → 0 ≤ sb → sb + strings_len args < 2 ^ 64 →
  ∃ m', store_vectors m rng sp sb args pairs = StackResult m' rng sp3 (sp3 + 8)
    ∧ holds m' sp3 (words (vector_words args sb pairs)) ∧ touched m m' sp3 (sp - sp3).
Proof.
  intros H3 Hsp Hm Hsb Hs. unfold store_vectors. fold n k. rewrite (uw_small 64 (sp - k * 2 * 8)) by lia.
  set (sp1 := sp - k * 2 * 8). assert (0 ≤ n ∧ 0 ≤ k) as [Hn Hk] by lia.
  destruct (store_pairs_run pairs m sp1 0) as (m1 & -> & Hh1 & Ht1); [lia|lia|lia|sub_mapped|]. cbn [negb].
  fold k in Ht1. replace (sp1 + 0 * 16) with sp1 in * by lia.
  rewrite (uw_small 64 (sp1 - 8)) by lia.
  destruct (store_u64_run m1 (sp1 - 8) 0) as (m2 & -> & Hh2 & Ht2); [lia|lia|sub_mapped|]. cbn [negb].
  rewrite (uw_small 64 (sp1 - 8 - (n + 1) * 8)) by lia. set (area := sp1 - 8 - (n + 1) * 8).
  destruct (store_argv_run args m2 area 0 sb) as (m3 & -> & Hh3 & Ht3); [lia..|sub_mapped|]. cbn [negb].
  fold n in Ht3. replace (area + 0 * 8) with area in * by lia.
  rewrite (uw_small 64 (area + n * 8)) by lia.
  destruct (store_u64_run m3 (area + n * 8) 0) as (m4 & -> & Hh4 & Ht4); [lia|lia|sub_mapped|]. cbn [negb].
  rewrite (uw_small 64 (area - 8)) by lia.
  destruct (store_u64_run m4 (area - 8) n) as (m5 & -> & Hh5 & Ht5); [lia|lia|sub_mapped|]. cbn [negb].
  exists m5. replace (area - 8) with sp3 in * by lia. split; [f_equal; lia|]. split.
  - unfold vector_words. rewrite app_comm_cons.
    assert (∀ x l, words (x :: l) = le_bytes 8 x ++ words l) as Hw by done.
    assert (∀ l l', words (l ++ l') = words l ++ words l') as Hwa by (intros; apply bind_app).
    cbn [app]. fold n. rewrite Hw, Hwa, !Hw. rewrite !holds_app, !le_bytes_length, words_length, string_addrs_length. fold n.
    split; [done|]. split; [|split; [|split]].
    + replace (sp3 + Z.of_nat 8) with area by lia.
      do 2 (eapply holds_touched; [eassumption|rewrite words_length, string_addrs_length; lia|]). done.
    + replace (sp3 + Z.of_nat 8 + 8 * n) with (area + n * 8) by lia. eapply holds_touched; [eassumption|rewrite le_bytes_length; lia|done].
    + replace (sp3 + Z.of_nat 8 + 8 * n + Z.of_nat 8) with (sp1 - 8) by lia.
      do 3 (eapply holds_touched; [eassumption|rewrite le_bytes_length; lia|]). done.
    + replace (sp3 + Z.of_nat 8 + 8 * n + Z.of_nat 8 + Z.of_nat 8) with sp1 by lia.
      do 4 (eapply holds_touched; [eassumption|rewrite words_length, pair_words_length; fold k; lia|]). done.
  - assert (touched m m2 sp3 (sp - sp3)) as T2 by (eapply touched_trans; [exact Ht1|exact Ht2|lia..]).
    assert (touched m m3 sp3 (sp - sp3)) as T3 by (eapply touched_trans; [exact T2|exact Ht3|lia..]).
    assert (touched m m4 sp3 (sp - sp3)) as T4 by (eapply touched_trans; [exact T3|exact Ht4|lia..]).
    eapply touched_trans; [exact T4|exact Ht5|lia..].
Qed.

(** ** The reader *)

Definition word (x : Z) : Prop := 0 ≤ x < 2 ^ 64.

Lemma read_word m a x l : 0 ≤ a → a + 8 ≤ 2 ^ 64 → word x → holds m a (words (x :: l)) → read_u64 m a = Some x.
Proof.
  intros Ha Hb Hx Hh. change (words (x :: l)) with (le_bytes 8 x ++ words l) in Hh. apply holds_app in Hh as [Hh _].
  unfold read_u64. rewrite (proj2 (ub_load_spec m a 8 (le_bytes 8 x) Ha Hb)); [|by rewrite le_bytes_length].
  cbn [fmap option_fmap option_map]. f_equal. by apply le_val_bytes.
Qed.

Lemma holds_tail m a x l : holds m a (words (x :: l)) → holds m (a + 8) (words l).
Proof. change (words (x :: l)) with (le_bytes 8 x ++ words l). rewrite holds_app, le_bytes_length. by intros [_ ?]. Qed.

Lemma read_ptrs_run l k m : ∀ fuel a, (length l < fuel)%nat → 0 ≤ a → a + 8 * (Z.of_nat (length l) + 1) ≤ 2 ^ 64 →
  Forall (λ p, word p ∧ p ≠ 0) l → holds m a (words (l ++ 0 :: k)) →
  read_ptrs fuel m a = Some (l, a + 8 * (Z.of_nat (length l) + 1)) ∧ holds m (a + 8 * (Z.of_nat (length l) + 1)) (words k).
Proof.
  induction l as [|p l IH]; intros [|fuel] a Hf Ha Hb Hl Hh; cbn [length] in *; try lia; cbn [read_ptrs app] in *.
  - rewrite (read_word m a 0 k) by (done || lia). cbn [mbind option_bind Z.eqb]. split; [do 2 f_equal; lia|].
    replace (a + 8 * (Z.of_nat 0 + 1)) with (a + 8) by lia. by eapply holds_tail.
  - apply Forall_cons_1 in Hl as [[Hp Hp0] Hl]. rewrite (read_word m a p (l ++ 0 :: k)) by (done || lia). cbn [mbind option_bind].
    rewrite (proj2 (Z.eqb_neq p 0)) by done. destruct (IH fuel (a + 8)) as [-> Hh']; [lia|lia|lia|done|by eapply holds_tail|].
    cbn [mbind option_bind fst snd]. split; [do 2 f_equal; lia|].
    by replace (a + 8 * (Z.of_nat (S (length l)) + 1)) with (a + 8 + 8 * (Z.of_nat (length l) + 1)) by lia.
Qed.

Lemma read_auxv_run l m : ∀ fuel a, (length l < fuel)%nat → 0 ≤ a → a + 16 * (Z.of_nat (length l) + 1) ≤ 2 ^ 64 →
  Forall (λ p, word p.1 ∧ p.1 ≠ 0 ∧ word p.2) l → holds m a (words (pair_words (l ++ [(LINUX_AT_NULL, 0)]))) →
  read_auxv fuel m a = Some l.
Proof.
  induction l as [|[t v] l IH]; intros [|fuel] a Hf Ha Hb Hl Hh; cbn [length] in *; try lia; cbn [read_auxv app] in *.
  - rewrite (read_word m a 0 [0]) by (done || lia). done.
  - apply Forall_cons_1 in Hl as [(Ht & Ht0 & Hv) Hl]. cbn [fst snd] in *.
    change (pair_words ((t, v) :: l ++ [(LINUX_AT_NULL, 0)])) with (t :: v :: pair_words (l ++ [(LINUX_AT_NULL, 0)])) in Hh.
    rewrite (read_word m a t _ Ha ltac:(lia) Ht Hh). cbn [mbind option_bind].
    change (t =? LINUX_AT_NULL) with (t =? 0). rewrite (proj2 (Z.eqb_neq t 0)) by done. apply holds_tail in Hh.
    rewrite (read_word m (a + 8) v _ ltac:(lia) ltac:(lia) Hv Hh). cbn [mbind option_bind]. apply holds_tail in Hh.
    rewrite (IH fuel (a + 16)); [done|lia|lia|lia|done|]. by replace (a + 16) with (a + 8 + 8) by lia.
Qed.

Definition no_nul (s : cstr) : Prop := Forall (λ c, c ≠ zero) s.

Lemma read_cstr_run s m : ∀ fuel a, (length s < fuel)%nat → 0 ≤ a → a + Z.of_nat (length s) + 1 ≤ 2 ^ 64 → no_nul s →
  holds m a (cbytes s) → read_cstr fuel m a = Some s.
Proof.
  induction s as [|c s IH]; intros [|fuel] a Hf Ha Hb Hs Hh; cbn [length] in *; try lia; cbn [read_cstr].
  - rewrite (proj2 (ub_load_spec m a 1 [0] Ha ltac:(lia))); done.
  - apply Forall_cons_1 in Hs as [Hc Hs]. change (cbytes (c :: s)) with ([byte_of c] ++ cbytes s) in Hh.
    apply holds_app in Hh as [Hc1 Hh]. rewrite (proj2 (ub_load_spec m a 1 [byte_of c] Ha ltac:(lia))) by done.
    cbn [mbind option_bind]. rewrite (proj2 (Z.eqb_neq (byte_of c) 0)) by (by intros ?%byte_of_nul).
    rewrite char_of_byte, (IH fuel (a + 1)); [done|lia|lia|lia|done|done].
Qed.

Lemma read_args_run l m fuel : ∀ va, 0 ≤ va → va + strings_len l ≤ 2 ^ 64 → Forall (λ s, no_nul s ∧ (length s < fuel)%nat) l →
  holds m va (strings_bytes l) → mapM (read_cstr fuel m) (string_addrs va l) = Some l.
Proof.
  induction l as [|s l IH]; intros va Hva Hb Hl Hh; cbn [string_addrs]; [done|].
  apply Forall_cons_1 in Hl as [[Hs Hf] Hl]. rewrite strings_len_cons in Hb. pose proof (strings_len_pos l).
  cbn [strings_bytes mbind list_bind] in Hh. apply holds_app in Hh as [Hh1 Hh2]. cbn [mapM].
  rewrite (read_cstr_run s m fuel va) by (done || lia). cbn [mbind option_bind].
  rewrite (IH (va + (Z.of_nat (length s) + 1))); [done|lia|lia|done|].
  rewrite cbytes_length in Hh2. by replace (va + (Z.of_nat (length s) + 1)) with (va + Z.of_nat (S (length s))) by lia.
Qed.

(** ** The whole stack *)

(** Room that is always enough. *)
Definition stack_bound (args : list cstr) (execfn : ptr cstr) : Z :=
  strings_len (args ++ option_list execfn) + 8 * Z.of_nat (length args) + 400.

Definition auxv_words (elf : ptr linux_exec_elf_auxv) : Prop :=
  ∀ av, elf = Some av → word (av_phdr av) ∧ word (av_phent av) ∧ word (av_phnum av) ∧ word (av_entry av).

Lemma size_spec l : ∀ n, 0 ≤ n → n + strings_len l < 2 ^ 64 →
  foldl (λ n s, u64 (n + (Z.of_nat (length s) + 1))) n l = n + strings_len l.
Proof.
  induction l as [|s l IH]; intros n Hn Hb; cbn [foldl]; [change (strings_len []) with 0; lia|].
  rewrite strings_len_cons in *. pose proof (strings_len_pos l). rewrite uw_small by lia. rewrite IH by lia. lia.
Qed.

Lemma all_args_spec args : all_args (Some <$> args) = Some args.
Proof. induction args as [|s l IH]; [done|]. cbn. cbn in IH. by rewrite IH. Qed.

Lemma string_addrs_words l : ∀ va, 0 < va → va + strings_len l < 2 ^ 64 → Forall (λ p, word p ∧ p ≠ 0) (string_addrs va l).
Proof.
  induction l as [|s l IH]; intros va Hva Hb; cbn; constructor.
  - rewrite strings_len_cons in Hb. pose proof (strings_len_pos l). unfold word. lia.
  - rewrite strings_len_cons in Hb. apply IH; lia.
Qed.

Lemma auxv_entries_words elf rva eva : auxv_words elf → word rva → word eva →
  Forall (λ p, word p.1 ∧ p.1 ≠ 0 ∧ word p.2) (auxv_entries elf rva eva).
Proof.
  intros Hw Hr He. unfold auxv_entries. destruct elf as [a|]; [|by repeat constructor].
  destruct (Hw a eq_refl) as (? & ? & ? & ?). destruct (have_elf a); [|by repeat constructor].
  apply Forall_app. split; [|destruct (eva =? 0)]; repeat (constructor; [by split_and!|]); constructor.
Qed.

Lemma auxv_entries_length elf rva eva : (length (auxv_entries elf rva eva) ≤ 14)%nat.
Proof. unfold auxv_entries. destruct elf as [a|]; [destruct (have_elf a); [destruct (eva =? 0)|]|]; cbn; lia. Qed.

Lemma mask16_bound x : 0 ≤ x < 2 ^ 64 → 0 ≤ mask16 x ≤ x ∧ x < mask16 x + 16.
Proof. intros Hx. rewrite mask16_spec by done. pose proof (Z.mod_pos_bound x 16). pose proof (Z.mod_le x 16). lia. Qed.

(** The strings, with the path of the program behind the arguments. *)
Lemma strings_run m sb args execfn : 0 ≤ sb → sb + strings_len (args ++ option_list execfn) < 2 ^ 64 →
  mapped m sb (strings_len (args ++ option_list execfn)) →
  ∃ m1 m2, store_strings m sb args = (m1, true, sb + strings_len args)
    ∧ match execfn with Some f => ub_store m1 (sb + strings_len args) (cbytes f) | None => (m1, true) end = (m2, true)
    ∧ holds m2 sb (strings_bytes args) ∧ (∀ f, execfn = Some f → holds m2 (sb + strings_len args) (cbytes f))
    ∧ touched m m2 sb (strings_len (args ++ option_list execfn)).
Proof.
  intros Hsb Hb Hm. rewrite strings_len_app in *. pose proof (strings_len_pos args). pose proof (strings_len_pos (option_list execfn)).
  destruct (store_strings_run args m sb) as (m1 & -> & Hh1 & Ht1); [lia|lia|sub_mapped|]. exists m1.
  destruct execfn as [f|].
  - change (option_list (Some f)) with [f] in *. rewrite strings_len_cons in *. change (strings_len []) with 0 in *.
    destruct (store_run m1 (sb + strings_len args) (cbytes f)) as (m2 & -> & Hh2 & Ht2); rewrite ?cbytes_length in *; [apply cbytes_bytes|lia|lia|sub_mapped|].
    exists m2. split_and!; [done|done| |by intros ? [= <-]|eapply touched_trans; [exact Ht1|exact Ht2|lia..]].
    eapply holds_touched; [exact Ht2|fold (strings_len args); lia|done].
  - exists m1. change (strings_len (option_list None)) with 0 in *. split_and!; [done|done|done|done|]. by replace (strings_len args + 0) with (strings_len args) by lia.
Qed.

Lemma random_bytes rand64 env rng rva (r := linux_exec_fill_random16 rand64 env rng rva) :
  length r.2 = 16%nat ∧ Forall (λ b, 0 ≤ b < 256) r.2.
Proof.
  unfold r, linux_exec_fill_random16. cbn [snd]. rewrite length_app, !le_bytes_length. split; [done|].
  apply Forall_app. split; apply le_bytes_bytes.
Qed.

(** The random bytes, when there is an ELF image. *)
Lemma random_run rand64 env rng m sb (with_elf : bool) : 64 ≤ sb → sb < 2 ^ 64 → mapped m (sb - 32) 32 →
  ∃ m3 rng1, let rva := if with_elf then mask16 (u64 (sb - Z.of_nat LINUX_EXEC_RANDOM_BYTES)) else 0 in
    (let '(r, bytes) := if with_elf then linux_exec_fill_random16 rand64 env rng rva else (rng, []) in
     (r, if with_elf then ub_store m rva bytes else (m, true))) = (rng1, (m3, true))
    ∧ (with_elf = true → sb - 32 ≤ rva ∧ rva + 16 ≤ sb ∧ holds m3 rva (linux_exec_fill_random16 rand64 env rng rva).2)
    ∧ touched m m3 (sb - 32) 32.
Proof.
  intros Hl Hsb Hm. cbv zeta. destruct with_elf; [|exists m, rng; split_and!; done].
  change (Z.of_nat LINUX_EXEC_RANDOM_BYTES) with 16. rewrite uw_small by lia.
  destruct (mask16_bound (sb - 16)) as [[? ?] ?]; [lia|]. set (rva := mask16 _) in *.
  destruct (linux_exec_fill_random16 rand64 env rng rva) as [r bytes] eqn:E.
  assert (length bytes = 16%nat ∧ Forall (λ b, 0 ≤ b < 256) bytes) as [Hlen Hby].
  { pose proof (random_bytes rand64 env rng rva) as Hr. by rewrite E in Hr. }
  destruct (store_run m rva bytes) as (m3 & E3 & Hh3 & Ht3); rewrite ?Hlen in *; [done|lia|lia|sub_mapped|].
  exists m3, r. rewrite E3. split_and!; [done| |eapply touched_trans; [exact Ht3|exact (touched_refl m3 rva 16)|lia..]].
  intros _. split_and!; [lia|lia|done].
Qed.

(** C16. A program finds its arguments.  With enough mapped room below the top
    of the stack, building the initial stack succeeds; the reference reader,
    started at the new stack pointer, finds the number of arguments, the
    arguments, an empty environment and the auxiliary vector; its AT_EXECFN
    entry points to the path of the program and its AT_RANDOM entry to the 16
    random bytes; the stack pointer is 8 modulo 16, and memory outside of the
    room is as before. *)
Theorem initial_stack_roundtrip fuel rand64 env rng m top args execfn elf (need := stack_bound args execfn) :
  need ≤ top < 2 ^ 64 → mapped m (top - need) need → Forall (λ s, no_nul s ∧ (length s < fuel)%nat) (args ++ option_list execfn) →
  (length args < fuel)%nat → (14 < fuel)%nat → auxv_words elf →
  ∃ m' rng' sp rva eva,
    linux_exec_build_initial_stack rand64 env rng m top (Some <$> args) execfn elf = StackResult m' rng' sp (sp + 8)
    ∧ top - need ≤ sp ∧ sp `mod` 16 = 8
    ∧ read_stack fuel m' sp = Some (ProgramStart (Z.of_nat (length args)) args [] (auxv_entries elf rva eva))
    ∧ (∀ f, execfn = Some f → eva ≠ 0 ∧ read_cstr fuel m' eva = Some f)
    ∧ (∀ av, elf = Some av → have_elf av = true →
        ub_load m' rva 16 = Some (linux_exec_fill_random16 rand64 env rng rva).2)
    ∧ ∀ x, ¬ (top - need ≤ x < top) → ub_byte m' x = ub_byte m x.
Proof.
  intros Htop Hm Hs Hargs Hfuel Hav. unfold linux_exec_build_initial_stack. rewrite all_args_spec.
  set (len := strings_len (args ++ option_list execfn)). set (n := Z.of_nat (length args)).
  assert (0 ≤ len) as Hlen0 by apply strings_len_pos. assert (0 ≤ n) as Hn0 by lia.
  assert (need = len + 8 * n + 400) as Hneed by done.
  rewrite size_spec by (fold len; lia). fold len. replace (0 + len) with len by lia. rewrite (uw_small 64 (top - len)) by lia.
  destruct (mask16_bound (top - len)) as [[? ?] ?]; [lia|]. set (sb := mask16 (top - len)) in *.
  destruct (strings_run m sb args execfn) as (m1 & m2 & -> & -> & Hargs2 & Hfn2 & Ht2); [lia|fold len; lia|fold len; sub_mapped|].
  fold len in Ht2. cbn [negb]. set (eva := match execfn with Some _ => _ | None => 0 end).
  set (with_elf := match elf with Some a => have_elf a | None => false end).
  assert (mapped m2 (sb - 32) 32) as Hm2 by sub_mapped.
  destruct (random_run rand64 env rng m2 sb with_elf) as (m3 & rng1 & Hrun & Hrand & Ht3); [lia|lia|done|].
  set (rva := if with_elf then _ else 0) in *.
  destruct (if with_elf then linux_exec_fill_random16 rand64 env rng rva else (rng, [])) as [r0 bytes] eqn:Er.
  destruct (if with_elf then ub_store m2 rva bytes else (m2, true)) as [m3' ok3]. injection Hrun as -> -> ->. cbn [negb].
  rewrite fill_pairs_spec. set (sp := if with_elf then rva else sb). set (pairs := auxv_entries elf rva eva).
  set (k := Z.of_nat (length (pairs ++ [(LINUX_AT_NULL, 0)]))).
  assert (0 ≤ k ≤ 15) as Hk by (unfold k; rewrite length_app; cbn [length]; pose proof (auxv_entries_length elf rva eva); subst pairs; lia).
  set (total := k * 2 * 8 + (8 + (n + 1) * 8 + 8)).
  assert (sb - 32 ≤ sp ≤ sb) as Hsp by (unfold sp; destruct with_elf; [destruct (Hrand eq_refl) as (? & ? & _)|]; lia).
  destruct (padding_spec sp total) as [Hpad Hmod]; [lia|lia|lia|]. rewrite (uw_small 64 (sp - _)) by lia.
  set (sp' := sp - entry_padding sp total) in *. pose proof (strings_len_pos (option_list execfn)) as Hfl.
  assert (len = strings_len args + strings_len (option_list execfn)) as Hlen by apply strings_len_app.
  destruct (vectors_run m3 rng1 sp' sb args (pairs ++ [(LINUX_AT_NULL, 0)])) as (m' & -> & Hv & Ht4); fold n k; [lia|lia|sub_mapped|lia|lia|].
  fold n k in Hv, Ht4. set (sp3 := sp' - k * 16 - 8 - (n + 1) * 8 - 8) in *.
  exists m', rng1, sp3, rva, eva. split; [done|]. split; [lia|]. split; [by replace sp3 with (sp' - total) by lia|].
  assert (∀ b l, sb ≤ b → holds m2 b l → holds m' b l) as Hkeep.
  { intros b l Hb Hh. eapply holds_touched; [exact Ht4|lia|]. eapply holds_touched; [exact Ht3|lia|done]. }
  apply Forall_app in Hs as [Hs1 Hs2].
  split; [|split; [|split]].
  - unfold read_stack, vector_words in *.
    rewrite (read_word m' sp3 n _ ltac:(lia) ltac:(lia) ltac:(unfold word; lia) Hv). cbn [mbind option_bind]. apply holds_tail in Hv.
    destruct (read_ptrs_run (string_addrs sb args) (0 :: pair_words (pairs ++ [(LINUX_AT_NULL, 0)])) m' fuel (sp3 + 8)) as [-> Hv2];
      rewrite ?string_addrs_length; fold n; [done|lia|lia|apply string_addrs_words; lia|done|]. cbn [mbind option_bind fst snd].
    rewrite string_addrs_length in Hv2. fold n in Hv2. set (a2 := sp3 + 8 + 8 * (n + 1)) in *.
    destruct (read_ptrs_run [] (pair_words (pairs ++ [(LINUX_AT_NULL, 0)])) m' fuel a2) as [-> Hv3]; [cbn; lia|lia|cbn; lia|done|done|].
    cbn [mbind option_bind fst snd length] in *.
    rewrite (read_auxv_run pairs); [| | | | |done].
    + cbn [mbind option_bind]. rewrite (read_args_run args m' fuel sb); [done|lia|lia|done|by apply Hkeep].
    + unfold pairs. pose proof (auxv_entries_length elf rva eva). lia.
    + lia.
    + assert (k = Z.of_nat (length pairs) + 1) as Hk1 by (unfold k; rewrite length_app; cbn [length]; lia). lia.
    + apply auxv_entries_words; [done|..]; unfold word; subst rva eva; [|pose proof (strings_len_pos args); destruct execfn; lia].
      destruct with_elf; [|lia]. destruct (Hrand eq_refl) as (? & ? & _). lia.
  - intros f ->. unfold eva. pose proof (strings_len_pos args). split; [lia|].
    apply Forall_cons_1 in Hs2 as [[Hnf Hlf] _]. change (option_list (Some f)) with [f] in *. rewrite strings_len_cons in *.
    change (strings_len []) with 0 in *. apply read_cstr_run; [done|lia|lia|done|]. apply Hkeep; [lia|by apply Hfn2].
  - intros av -> Hhav. assert (with_elf = true) as Hwe by done. destruct (Hrand Hwe) as (? & ? & Hh).
    apply ub_load_spec; [lia|lia|]. split; [apply random_bytes|]. eapply holds_touched; [exact Ht4| |done].
    assert (sp = rva) as Hspr by (unfold sp; by rewrite Hwe). lia.
  - intros x Hx. destruct Ht4 as [_ ->]; [|lia]. destruct Ht3 as [_ ->]; [|lia]. destruct Ht2 as [_ ->]; [done|lia].
Qed.
End thm.

(** ** A memory of bytes *)

Module StackDemo.

Fixpoint put_bytes (m : gmap Z Z) (a : Z) (l : list Z) : gmap Z Z :=
  match l with [] => m | b :: l' => put_bytes (<[a := b]> m) (a + 1) l' end.

Lemma put_bytes_out l : ∀ m a x, ¬ (a ≤ x < a + Z.of_nat (length l)) → put_bytes m a l !! x = m !! x.
Proof.
  induction l as [|b l IH]; intros m a x Hx; cbn [put_bytes length] in *; [done|].
  rewrite IH by lia. by rewrite lookup_insert_ne by lia.
Qed.

Lemma put_bytes_in l : ∀ m a i b, l !! i = Some b → put_bytes m a l !! (a + Z.of_nat i) = Some b.
Proof.
  induction l as [|c l IH]; intros m a [|i] b Hi; cbn in Hi; [done|done|injection Hi as ->|]; cbn [put_bytes].
  - rewrite put_bytes_out by lia. replace (a + Z.of_nat 0) with a by lia. apply lookup_insert_eq.
  - replace (a + Z.of_nat (S i)) with (a + 1 + Z.of_nat i) by lia. by apply IH.
Qed.

#[global] Instance gmap_bytes : UserBytes (gmap Z Z) := {
  ub_load m a n := mapM (λ i, m !! (a + Z.of_nat i)) (seq 0 n);
  ub_store m a l :=
    if forallb (λ i, bool_decide (is_Some (m !! (a + Z.of_nat i)))) (seq 0 (length l))
    then (put_bytes m a l, true) else (m, false);
}.

#[global] Instance gmap_bytes_laws : UserBytesLaws (gmap Z Z).
Proof.
  refine {| ub_byte m x := m !! x |}; cbn.
  - intros m a l m' ok x. destruct (forallb _ _); intros [= <- <-] Hx; [by apply put_bytes_out|done].
  - intros m a l m' ok x. destruct (forallb _ _) eqn:Ef; intros [= <- <-]; [|done].
    destruct (decide (a ≤ x < a + Z.of_nat (length l))) as [Hx|Hx]; [|by rewrite put_bytes_out].
    assert (∃ i, (i < length l)%nat ∧ x = a + Z.of_nat i) as (i & Hi & ->) by (exists (Z.to_nat (x - a)); lia).
    destruct (lookup_lt_is_Some_2 l i Hi) as [b Hb]. rewrite (put_bytes_in _ _ _ _ _ Hb).
    rewrite forallb_forall in Ef. specialize (Ef i). rewrite in_seq in Ef. specialize (Ef ltac:(lia)).
    apply bool_decide_eq_true in Ef. split; [done|by eexists].
  - intros m a l m' _. destruct (forallb _ _); [|done]. intros [= <-] i b Hi. by apply put_bytes_in.
  - intros m a l _ _ Hm. assert (forallb (λ i, bool_decide (is_Some (m !! (a + Z.of_nat i)))) (seq 0 (length l)) = true) as ->; [|done].
    apply forallb_forall. intros i Hi%in_seq. apply bool_decide_eq_true, Hm. lia.
  - intros m a n l _ _. rewrite mapM_Some. split.
    + intros Hl. pose proof (Forall2_length Hl) as Hlen. rewrite length_seq in Hlen. split; [done|].
      intros i b Hi. destruct (Forall2_lookup_r _ _ _ _ _ Hl Hi) as (j & Hj & Hb). apply lookup_seq in Hj as [-> _]. done.
    + intros [<- Hh]. apply Forall2_same_length_lookup. rewrite length_seq. split; [done|].
      intros i j b Hj Hi. apply lookup_seq in Hj as [-> _]. by apply Hh.
Defined.

(** A stack of 1000 bytes below 5000. *)
Definition stack_mem : gmap Z Z := put_bytes ∅ 4000 (replicate 1000 0).

Lemma stack_mem_mapped a n : 4000 ≤ a → a + n ≤ 5000 → mapped stack_mem a n.
Proof.
  intros Ha Hn x Hx. exists 0. unfold stack_mem. cbn [ub_byte gmap_bytes_laws].
  replace x with (4000 + Z.of_nat (Z.to_nat (x - 4000))) by lia. apply put_bytes_in. apply lookup_replicate. lia.
Qed.

Definition demo_args : list cstr := [str "echo"; str "hello"; []].
Definition demo_elf : linux_exec_elf_auxv := ElfAuxv true 0x400040 56 3 0x401000.
Definition demo_rng : rng_env := RngEnv (Some 2) (Some 11) 0.

Lemma initial_stack_roundtrip_witness (need := stack_bound demo_args (Some (str "/bin/echo"))) :
  ∃ m' rng' sp rva eva,
    linux_exec_build_initial_stack Z.succ demo_rng 1 stack_mem 5000 (Some <$> demo_args) (Some (str "/bin/echo")) (Some demo_elf)
      = StackResult m' rng' sp (sp + 8)
    ∧ 5000 - need ≤ sp ∧ sp `mod` 16 = 8
    ∧ read_stack 20 m' sp = Some (ProgramStart (Z.of_nat (length demo_args)) demo_args [] (auxv_entries (Some demo_elf) rva eva))
    ∧ (∀ f, Some (str "/bin/echo") = Some f → eva ≠ 0 ∧ read_cstr 20 m' eva = Some f)
    ∧ (∀ av, Some demo_elf = Some av → have_elf av = true →
        ub_load m' rva 16 = Some (linux_exec_fill_random16 Z.succ demo_rng 1 rva).2)
    ∧ ∀ x, ¬ (5000 - need ≤ x < 5000) → ub_byte m' x = ub_byte stack_mem x.
Proof.
  apply (initial_stack_roundtrip 20 Z.succ demo_rng 1 stack_mem 5000 demo_args (Some (str "/bin/echo")) (Some demo_elf)).
  - vm_compute. split; [discriminate|reflexivity].
  - apply stack_mem_mapped; vm_compute; discriminate.
  - repeat (constructor; [split; [repeat (constructor; [discriminate|]); constructor|cbn; lia]|]). constructor.
  - cbn. lia.
  - lia.
  - intros av [= <-]. split_and!; split; vm_compute; (discriminate || reflexivity).
Defined.

(** The System V ABI has the stack pointer at a multiple of 16 when a program
    starts; here it is 8 above one. *)
Example entry_sp_run :
  (λ r, (sr_sp r `mod` 16, ps_argv <$> read_stack 20 (sr_mem r) (sr_sp r)))
    (linux_exec_build_initial_stack Z.succ demo_rng 1 stack_mem 5000 (Some <$> demo_args) None None) = (8, Some demo_args).
Proof. vm_compute. reflexivity. Qed.
End StackDemo.
