(* ===== verification/Exec.v ===== *)
(** * Replacing the image of a process

    [sys_execve.c], [linux_exec.c], [linux_exec_proc.c], [linux_exec_image.c],
    [vfs_exec_load.c], [vfs_exec_path.c] and the string copy of
    [linux_mm_radix.c].  What the core kernel, the VFS server and the other
    components answer is an argument; what is asked of them is recorded. *)

From Stdlib Require Import Ascii.
From stdpp Require Import base numbers strings list option.
From S2P Require Import Prelude PageSlice PortNames SigSet Proc ExecStack.

Definition LINUX_E2BIG : Z := 7.
Definition LINUX_ENOEXEC : Z := 8.
Definition LINUX_EXEC_MAX_PATH : Z := 256.
Definition LINUX_EXEC_MAX_ARGS : nat := 128.
Definition LINUX_EXEC_MAX_ARG_LEN : nat := 256.
Definition LINUX_INITRAMFS_TESTS_PREFIX : cstr := str "/tests/".

(** ** Paths *)

(** The part after the last slash. *)
Fixpoint exec_path_basename (base path : cstr) : cstr :=
  match path with
  | [] => base
  | c :: path' => exec_path_basename (if bool_decide (c = "/"%char) then path' else base) path'
  end.

Definition linux_vfs_exec_path_basename (path : ptr cstr) : cstr :=
  match path with None => [] | Some p => exec_path_basename p p end.

Definition linux_vfs_exec_path_under_tests (path : ptr cstr) (out_cap : Z) : option cstr :=
  match path with
  | None => None
  | Some p =>
      if out_cap =? 0 then None
      else
        let base := exec_path_basename p p in
        match base with
        | [] => None
        | _ =>
            if out_cap <? Z.of_nat (length LINUX_INITRAMFS_TESTS_PREFIX + length base) + 1 then None
            else Some (LINUX_INITRAMFS_TESTS_PREFIX ++ base)
        end
  end.

(** ** Strings of the caller *)

(** The C string at the start of a buffer. *)
Fixpoint string_of (l : list Z) : cstr :=
  match l with
  | [] => []
  | b :: l' => if b =? 0 then [] else char_of b :: string_of l'
  end.

Definition exec_arg_string_valid (buf : list Z) (cap : nat) : bool := existsb (Z.eqb 0) (take cap buf).

Section user.
Context {M : Type} `{UB : UserBytes M}.
(** The error a failing load returns. *)
Context (load_err : error_t).
Implicit Types (m : M).

(** The loop; [buf] is what has been read. *)
Fixpoint cstring_loop (fuel : nat) m (user_va cap : Z) (buf : list Z) : error_t * list Z :=
  match fuel with
  | O => (E_IN_PARAM, buf)
  | S fuel' =>
      let filled := Z.of_nat (length buf) in
      if filled <? cap - 1 then
        let cur := u64 (user_va + filled) in
        let page_room := PAGE_SIZE - Z.land cur (PAGE_SIZE - 1) in
        let chunk := Z.min page_room (cap - 1 - filled) in
        match ub_load m cur (Z.to_nat chunk) with
        | None => (load_err, buf)
        | Some l =>
            if existsb (Z.eqb 0) l then (REND_SUCCESS, buf ++ l)
            else cstring_loop fuel' m user_va cap (buf ++ l)
        end
      else (E_IN_PARAM, buf ++ [0])
  end.

(** [user_ok]: [linux_vspace_is_user_table]. *)
Definition linux_mm_load_cstring_from_user (user_ok : bool) m (user_va cap : Z) : error_t * list Z :=
  if (cap <? 2) || negb user_ok then (E_IN_PARAM, [])
  else cstring_loop (Z.to_nat cap) m user_va cap [].

Definition load_ptr m (a : Z) : option Z := le_val <$> ub_load m a 8.

(** [fuel] arguments from number [i] on; [inl]: the error. *)
Fixpoint argv_loop (fuel : nat) m (user_argv i : Z) (kargv : list cstr) : Z + list cstr :=
  match fuel with
  | O => inr kargv
  | S fuel' =>
      match load_ptr m (u64 (user_argv + i * 8)) with
      | None => inl (- LINUX_EFAULT)
      | Some p =>
          if p =? 0 then inr kargv
          else
            match ub_load m p LINUX_EXEC_MAX_ARG_LEN with
            | None => inl (- LINUX_EFAULT)
            | Some l =>
                let dst := take (LINUX_EXEC_MAX_ARG_LEN - 1) l ++ [0] in
                if negb (exec_arg_string_valid dst LINUX_EXEC_MAX_ARG_LEN) then inl (- LINUX_E2BIG)
                else argv_loop fuel' m user_argv (i + 1) (kargv ++ [string_of dst])
            end
      end
  end.

Definition linux_exec_copy_argv_from_user m (user_argv : Z) : Z + list cstr :=
  if user_argv =? 0 then inr []
  else
    match argv_loop LINUX_EXEC_MAX_ARGS m user_argv 0 [] with
    | inl e => inl e
    | inr kargv =>
        if (LINUX_EXEC_MAX_ARGS <=? length kargv)%nat then
          match load_ptr m (u64 (user_argv + Z.of_nat LINUX_EXEC_MAX_ARGS * 8)) with
          | None => inl (- LINUX_EFAULT)
          | Some extra => if extra =? 0 then inr kargv else inl (- LINUX_E2BIG)
          end
        else inr kargv
    end.
End user.

(** ** The new image *)

(** [kernel_base]: the first address of the kernel. *)
Definition linux_proc_set_heap_from_elf_load (kernel_base max_load_end : Z) : proc_mem :=
  let brk0 := if (max_load_end =? 0) || (kernel_base <=? max_load_end) then 0x40000000 else max_load_end in
  ProcMem brk0 brk0 (u64 (page_round_up brk0 + PAGE_SIZE)).

Inductive exec_effect : Type :=
  | XQuiesce
  | XClearUser
  | XSignalReset
  | XFsReset
  | XThreadSignalReset
  | XFatal (code : Z).

(** How [vspace_clear_user_mappings] ends, with the memory after it. *)
Inductive clear_result (M : Type) : Type :=
  | ClearOk (m : M)
  | ClearShared
  | ClearFail (m : M).
Arguments ClearOk {M} _.
Arguments ClearShared {M}.
Arguments ClearFail {M} _.

(** The answers of the other components.  [xe_load]: the ELF file, as an error
    or a slice with what is read from its first page. *)
Record exec_env (M : Type) : Type := ExecEnv {
  xe_rand64 : Z → Z;
  xe_rng : rng_env;
  xe_kernel_base : Z;
  xe_alloc : bool;
  xe_load_err : error_t;
  xe_load : cstr → Z + ptr elf_image;
  xe_clear : M → clear_result M;
  xe_load_elf : M → M * option Z;
  xe_user_stack : M → M * Z;
}.
Arguments xe_rand64 {M} _.
Arguments xe_rng {M} _.
Arguments xe_kernel_base {M} _.
Arguments xe_alloc {M} _.
Arguments xe_load_err {M} _.
Arguments xe_load {M} _.
Arguments xe_clear {M} _.
Arguments xe_load_elf {M} _.
Arguments xe_user_stack {M} _.

Record exec_state (M : Type) : Type := ExecState {
  xs_mem : M;
  xs_rng : Z;
  xs_heap : proc_mem;
  xs_effs : list exec_effect;
}.
Arguments ExecState {M} _ _ _ _.
Arguments xs_mem {M} _.
Arguments xs_rng {M} _.
Arguments xs_heap {M} _.
Arguments xs_effs {M} _.

(** The call returns, with entry point and stack pointer, or the thread ends. *)
Inductive exec_out : Type :=
  | ExecReturn (ret entry sp : Z)
  | ExecTerminated.

Definition linux_exec_elf_slice_valid (base : ptr elf_image) : bool :=
  match base with None => false | Some img => elf_header_ok img && elf_class64 img end.

Section image.
Context {M : Type} `{UB : UserBytes M}.
Implicit Types (s : exec_state M) (env : exec_env M).

Definition xs_set_mem s (m : M) : exec_state M := ExecState m (xs_rng s) (xs_heap s) (xs_effs s).
Definition xs_emit s (l : list exec_effect) : exec_state M := ExecState (xs_mem s) (xs_rng s) (xs_heap s) (xs_effs s ++ l).

(** The thread ends with the status of SIGKILL. *)
Definition linux_exec_abort_unrecoverable s : exec_state M * exec_out := (xs_emit s [XFatal (128 + SIGKILL)], ExecTerminated).

(** A failure after the old image is gone. *)
Definition exec_lost s (may_abort : bool) (ret : Z) : exec_state M * exec_out :=
  if may_abort then linux_exec_abort_unrecoverable s else (s, ExecReturn ret 0 0).

Definition linux_exec_reset_proc_state env s (max_load_end : Z) : exec_state M :=
  ExecState (xs_mem s) (xs_rng s) (linux_proc_set_heap_from_elf_load (xe_kernel_base env) max_load_end)
    (xs_effs s ++ [XSignalReset; XFsReset]).

(** From the stack on. *)
Definition exec_finish env s (img : elf_image) (max_load_end : Z) (filename : cstr) (kargv : list (ptr cstr)) (may_abort : bool)
  : exec_state M * exec_out :=
  let '(auxv, ok) := linux_exec_elf_auxv_from_kva (Some img) in
  let auxv := if ok then auxv else ElfAuxv false (av_phdr auxv) (av_phent auxv) (av_phnum auxv) (av_entry auxv) in
  let '(m1, user_sp) := xe_user_stack env (xs_mem s) in
  if user_sp =? 0 then exec_lost (xs_set_mem s m1) may_abort (- LINUX_ENOMEM)
  else
    let r := linux_exec_build_initial_stack (xe_rand64 env) (xe_rng env) (xs_rng s) m1 user_sp kargv (Some filename) (Some auxv) in
    let s1 := ExecState (sr_mem r) (sr_rng r) (xs_heap s) (xs_effs s) in
    if sr_sp r =? 0 then exec_lost s1 may_abort (- LINUX_EFAULT)
    else (xs_emit (linux_exec_reset_proc_state env s1 max_load_end) [XThreadSignalReset], ExecReturn 0 (e_entry img) (sr_sp r)).

(** [user_ok]: the thread has a user address space. *)
Definition linux_exec_replace_image env s (user_ok : bool) (filename : cstr) (kargv : list (ptr cstr)) (may_abort : bool)
  : exec_state M * exec_out :=
  if (LINUX_EXEC_MAX_ARGS <? length kargv)%nat then (s, ExecReturn (- LINUX_E2BIG) 0 0)
  else if negb user_ok then (s, ExecReturn (- LINUX_EFAULT) 0 0)
  else match all_args kargv with
  | None => (s, ExecReturn (- LINUX_EINVAL) 0 0)
  | Some _ =>
      match xe_load env filename with
      | inl ret => (s, ExecReturn ret 0 0)
      | inr base =>
          if negb (linux_exec_elf_slice_valid base) then (s, ExecReturn (- LINUX_ENOEXEC) 0 0)
          else
            let s1 := xs_emit s [XQuiesce] in
            match xe_clear env (xs_mem s1) with
            | ClearShared => (s1, ExecReturn (- LINUX_EAGAIN) 0 0)
            | ClearFail m => exec_lost (xs_emit (xs_set_mem s1 m) [XClearUser]) may_abort (- LINUX_EFAULT)
            | ClearOk m =>
                let s2 := xs_emit (xs_set_mem s1 m) [XClearUser] in
                match xe_load_elf env (xs_mem s2) with
                | (m3, None) => exec_lost (xs_set_mem s2 m3) may_abort (- LINUX_ENOEXEC)
                | (m3, Some max_load_end) =>
                    match base with
                    | None => exec_lost (xs_set_mem s2 m3) may_abort (- LINUX_ENOEXEC)
                    | Some img => exec_finish env (xs_set_mem s2 m3) img max_load_end filename kargv may_abort
                    end
                end
            end
      end
  end.

(** [current]: there is a process, a thread and an address space. *)
Definition sys_execve env s (current user_ok : bool) (user_filename user_argv : Z) : exec_state M * exec_out :=
  if negb current then (s, ExecReturn (- LINUX_ESRCH) 0 0)
  else if negb user_ok then (s, ExecReturn (- LINUX_EFAULT) 0 0)
  else
    match linux_mm_load_cstring_from_user (xe_load_err env) user_ok (xs_mem s) user_filename LINUX_EXEC_MAX_PATH with
    | (REND_SUCCESS, buf) =>
        if negb (xe_alloc env) then (s, ExecReturn (- LINUX_ENOMEM) 0 0)
        else
          match linux_exec_copy_argv_from_user (xs_mem s) user_argv with
          | inl e => (s, ExecReturn e 0 0)
          | inr args => linux_exec_replace_image env s user_ok (string_of buf) (Some <$> args) true
          end
    | (e, _) => (s, ExecReturn (if bool_decide (e = E_IN_PARAM) then - LINUX_EINVAL else - LINUX_EFAULT) 0 0)
    end.
End image.

(** ** A new process for the first program *)

Section prepare.
Context {NI Q : Type} `{NIX : NameIndex NI} `{MP : MsgPorts Q}.

(** [user]: the thread is a user thread; the other flags: whether the signal
    state of the process and of the thread, and the descriptors, can be made. *)
Definition linux_user_task_prepare_new (o : Z) (user sig_ok thread_ok fs_ok : bool) (w : pworld NI Q) (a t : Z)
  : option (pworld NI Q * error_t) :=
  if negb user then Some (w, E_IN_PARAM)
  else
    p ← get_proc w a;
    let w1 := put_proc w a (with_pending p []) in
    if negb sig_ok then Some (w1, E_RENDEZVOS)
    else if negb thread_ok then Some (emit w1 [EffSignalAttach a], E_RENDEZVOS)
    else if negb fs_ok then Some (emit w1 [EffSignalAttach a; EffSignalThreadAttach t], E_RENDEZVOS)
    else
      r ← register_process o (emit w1 [EffSignalAttach a; EffSignalThreadAttach t; EffFsAttach a]) a;
      Some ((proc_get_or_create_wait_port o r.1 (p_pid p)).1, REND_SUCCESS).
End prepare.
