(* ===== verification/ExecLoad.v ===== *)
(** * Reading a program file through the VFS server

    [linux_layer/fs/vfs_exec_load.c] and [linux_exec_image.c]: the file is read
    in chunks through a scratch page of the caller and collected in pages of a
    slice.  The answers of the VFS server, of the allocator and of the address
    space are an argument; a store behind the end of a page makes the result
    undefined ([None]). *)

From Stdlib Require Import Ascii.
From stdpp Require Import base numbers strings list gmap option.
From S2P Require Import Prelude PageSlice VfsOpen ExecStack Exec.

Definition LINUX_EXEC_MAX_FILE : Z := 8 * 1024 * 1024.
Definition LINUX_EXEC_READ_CHUNK : Z := 4096.

(** The answers: open, size, rewind and close of the VFS server, the address of
    the scratch page (0: none), and for each round the answer to a read of some
    length (an error or the bytes that are now in the scratch page), whether a page can be
    allocated and whether the scratch page can be read. *)
Record load_env : Type := LoadEnv {
  le_open : Z;
  le_size : Z;
  le_rewind : Z;
  le_close : Z;
  le_scratch : Z;
  le_read : nat → Z → Z + list Z;
  le_alloc : nat → bool;
  le_load : nat → bool;
}.

(** What has been taken and given back. *)
Inductive load_effect : Type :=
  | LOpen | LClose | LMapScratch | LUnmapScratch | LAllocPage | LFreePage | LInsertPage | LCreate | LDestroy.
#[global] Instance load_effect_eq_dec : EqDecision load_effect.
Proof. solve_decision. Defined.

Definition linux_vfs_page_slice_err (e : error_t) : Z :=
  match e with
  | REND_SUCCESS => 0
  | E_IN_PARAM => - LINUX_EINVAL
  | E_REND_NO_MEM => - LINUX_ENOMEM
  | _ => - LINUX_EIO
  end.

(** [inl]: the error. *)
Definition linux_vfs_open_readonly (env : load_env) : Z + unit :=
  if le_open env <=? 0 then inl (if le_open env <? 0 then le_open env else - LINUX_EMFILE) else inr tt.

Definition linux_vfs_query_file_size (env : load_env) : Z + Z :=
  if le_size env <? 0 then inl (le_size env)
  else if (le_size env =? 0) || (LINUX_EXEC_MAX_FILE <? le_size env) then inl (- LINUX_EFBIG)
  else if le_rewind env <? 0 then inl (- LINUX_EIO)
  else inr (le_size env).

(** [linux_exec_scratch_hint]: where the scratch page is looked for. *)
Definition linux_exec_scratch_hint (proc : ptr (Z * Z)) : Z :=
  match proc with
  | Some (hint, brk) =>
      if negb (hint =? 0) then page_round_up hint
      else if negb (brk =? 0) then u64 (page_round_up brk + PAGE_SIZE)
      else 0x40000000
  | None => 0x40000000
  end.

Section load.
Context `{PS : PageSlice (list Z)}.
Implicit Types (s : page_slice).

(** Giving back what the loop holds on an error. *)
Definition drop_partial (page : ptr (list Z)) : list load_effect :=
  match page with Some _ => [LFreePage] | None => [] end.

(** Round [i] of the loop, for at most [fuel] rounds: the result (0 when the
    file is complete), the slice, and what was taken and given back. *)
Fixpoint read_rounds (fuel i : nat) (env : load_env) (size : Z) s (copied pgoff : Z) (page : ptr (list Z))
    (log : list load_effect) : option (Z * page_slice * list load_effect) :=
  if size <=? copied then Some (0, s, log)
  else
    match fuel with
    | O => None
    | S fuel' =>
        let chunk := Z.min (Z.min (size - copied) LINUX_EXEC_READ_CHUNK) PAGE_SIZE in
        match le_read env i chunk with
        | inl n => Some (n, s, log ++ drop_partial page)
        | inr [] => Some (- LINUX_EIO, s, log ++ drop_partial page)
        | inr bytes =>
            let have := match page with Some _ => true | None => le_alloc env i end in
            if negb have then Some (- LINUX_ENOMEM, s, log)
            else
              let log1 := match page with Some _ => log | None => log ++ [LAllocPage] end in
              let pg := default [] page in
              if negb (le_load env i) then Some (- LINUX_EFAULT, s, log1 ++ [LFreePage])
              else if PAGE_SIZE <? Z.of_nat (length pg + length bytes) then None
              else
                let pg1 := pg ++ bytes in
                let copied1 := copied + Z.of_nat (length bytes) in
                if (Z.of_nat (length pg1) <? PAGE_SIZE) && (copied1 <? size)
                then read_rounds fuel' (S i) env size s copied1 pgoff (Some pg1) log1
                else
                  match page_slice_insert_page s pgoff (pg1 ++ replicate (Z.to_nat PAGE_SIZE - length pg1) 0) with
                  | (REND_SUCCESS, s1) => read_rounds fuel' (S i) env size s1 copied1 (pgoff + 1) None (log1 ++ [LInsertPage])
                  | (e, s1) => Some (linux_vfs_page_slice_err e, s1, log1 ++ [LFreePage])
                  end
        end
    end.

(** [inr]: the slice. *)
Definition linux_vfs_read_file_slice (user_ok : bool) (env : load_env) : option ((Z + page_slice) * list load_effect) :=
  if negb user_ok then Some (inl (- LINUX_EFAULT), [])
  else
    match linux_vfs_open_readonly env with
    | inl e => Some (inl e, [])
    | inr _ =>
        match linux_vfs_query_file_size env with
        | inl e => Some (inl e, [LOpen; LClose])
        | inr size =>
            match page_slice_create 0 size with
            | None => Some (inl (- LINUX_ENOMEM), [LOpen; LClose])
            | Some s =>
                if le_scratch env =? 0 then Some (inl (- LINUX_ENOMEM), [LOpen; LCreate; LDestroy; LClose])
                else
                  r ← read_rounds (Z.to_nat size) 0 env size s 0 0 None [LOpen; LCreate; LMapScratch];
                  let '(ret, s1, log) := r in
                  Some (if negb (ret =? 0) then (inl ret, log ++ [LUnmapScratch; LDestroy; LClose])
                        else if le_close env <? 0 then (inl (- LINUX_EIO), log ++ [LUnmapScratch; LClose; LDestroy])
                        else (inr s1, log ++ [LUnmapScratch; LClose]))
            end
        end
    end.
End load.

(** A path that is not found is tried again below [/tests/]. *)
Definition linux_vfs_read_file_for_exec_slice {A} (read : cstr → Z + A) (path : cstr) : Z + A :=
  match read path with
  | inr a => inr a
  | inl e =>
      if negb (e =? - LINUX_ENOENT) then inl e
      else match linux_vfs_exec_path_under_tests (Some path) 256 with
           | None => inl e
           | Some alt => if bool_decide (alt = path) then inl e else read alt
           end
  end.

(** The initial RAM disk first, then the VFS server. *)
Definition linux_exec_load_elf_slice {A} (kern vfs : cstr → Z + A) (filename : cstr) : Z + A :=
  match kern filename with
  | inr a => inr a
  | inl e => if e =? - LINUX_ENOENT then linux_vfs_read_file_for_exec_slice vfs filename else inl e
  end.
