(* ===== verification/ExecProps.v ===== *)
(** * What holds of execve

    A failing execve returns before anything of the caller is lost, or the
    thread ends; a successful one gives the new program the arguments of the
    caller; the file of the program is read completely and everything taken on
    the way is given back. *)

From Stdlib Require Import Ascii.
From stdpp Require Import base numbers strings list gmap option.
From S2P Require Import Prelude PageSlice PortNames SigSet Proc ExecStack ExecStackThm Exec ExecLoad.

Section exec.
Context {M : Type} `{UBL : UserBytesLaws M}.
Implicit Types (m : M) (s : exec_state M) (env : exec_env M).
Abbreviation holds := (holds_at ub_byte).

(** ** The point of no return *)

(** Nothing of the caller has changed. *)
Definition untouched s s' : Prop :=
  xs_mem s' = xs_mem s ∧ xs_heap s' = xs_heap s ∧ xs_rng s' = xs_rng s
  ∧ (xs_effs s' = xs_effs s ∨ xs_effs s' = xs_effs s ++ [XQuiesce]).

Definition exec_outcome s s' (o : exec_out) : Prop :=
  match o with
  | ExecReturn ret entry sp =>
      untouched s s' ∧ entry = 0 ∧ sp = 0
      ∨ ret = 0 ∧ sp ≠ 0 ∧ xs_effs s' = xs_effs s ++ [XQuiesce; XClearUser; XSignalReset; XFsReset; XThreadSignalReset]
  | ExecTerminated => XFatal 137 ∈ xs_effs s'
  end.

Lemma lost_outcome s s' ret : exec_outcome s (exec_lost s' true ret).1 (exec_lost s' true ret).2.
Proof. cbn. apply elem_of_app. right. by left. Qed.

Lemma untouched_refl s : untouched s s.
Proof. split_and!; try done. by left. Qed.

Lemma replace_outcome env s user_ok filename kargv (r := linux_exec_replace_image env s user_ok filename kargv true) :
  exec_outcome s r.1 r.2.
Proof.
  assert (∀ ret, exec_outcome s s (ExecReturn ret 0 0)) as Hret by (intros; hnf; left; split_and!; [apply untouched_refl|done|done]).
  subst r. unfold linux_exec_replace_image. destruct (_ <? _)%nat; [apply Hret|]. destruct (negb user_ok); [apply Hret|].
  destruct (all_args kargv); [|apply Hret]. destruct (xe_load env filename) as [ret|base]; [apply Hret|].
  destruct (negb _); [apply Hret|]. destruct (xe_clear env _) as [m1| |m1]; [|hnf; left; unfold untouched; split_and!; try done; by right|apply lost_outcome].
  destruct (xe_load_elf env _) as [m2 [mx|]]; [|apply lost_outcome]. destruct base as [img|]; [|apply lost_outcome].
  unfold exec_finish. destruct (linux_exec_elf_auxv_from_kva (Some img)) as [av ok]. destruct (xe_user_stack env _) as [m3 top].
  destruct (top =? 0); [apply lost_outcome|]. set (b := linux_exec_build_initial_stack _ _ _ _ _ _ _ _).
  destruct (sr_sp b =? 0) eqn:Esp; [apply lost_outcome|]. hnf. right. apply Z.eqb_neq in Esp. split_and!; [done|done|].
  cbn. by rewrite <- !app_assoc.
Qed.

(** C34. Execve fails cleanly or not at all.  Whatever the other components
    answer, either the call returns with the memory, the heap limits and the
    signal and descriptor state of the caller as they were, or the old image
    was discarded and the thread ends with the status of SIGKILL, or the call
    succeeded and the state was reset once, after the last step that can
    fail: it never returns into a half replaced image. *)
Theorem execve_point_of_no_return env s current user_ok user_filename user_argv
    (r := sys_execve env s current user_ok user_filename user_argv) : exec_outcome s r.1 r.2.
Proof.
  assert (∀ ret, exec_outcome s s (ExecReturn ret 0 0)) as Hret by (intros; hnf; left; split_and!; [apply untouched_refl|done|done]).
  subst r. unfold sys_execve. destruct (negb current); [apply Hret|]. destruct (negb user_ok); [apply Hret|].
  destruct (linux_mm_load_cstring_from_user _ _ _ _ _) as [[] buf]; try apply Hret. destruct (negb (xe_alloc env)); [apply Hret|].
  destruct (linux_exec_copy_argv_from_user _ _) as [e|args]; [apply Hret|]. apply replace_outcome.
Qed.

(** ** Strings and arguments of the caller *)

(** Pages are mapped as a whole. *)
Definition page_granular m : Prop :=
  ∀ x y, x `div` PAGE_SIZE = y `div` PAGE_SIZE → is_Some (ub_byte m x) → is_Some (ub_byte m y).

Lemma mapped_load m a n : 0 ≤ a → a + Z.of_nat n ≤ 2 ^ 64 → mapped m a (Z.of_nat n) →
  ∃ l, ub_load m a n = Some l ∧ length l = n ∧ holds m a l.
Proof.
  intros Ha Hb Hm. assert (∃ l, length l = n ∧ holds m a l) as (l & Hl & Hh).
  { clear Hb. induction n as [|n IH]; [exists []; split; [done|apply holds_nil]|].
    destruct IH as (l & Hl & Hh); [intros x Hx; apply Hm; lia|]. destruct (Hm (a + Z.of_nat n)) as [b Eb]; [lia|].
    exists (l ++ [b]). rewrite length_app. cbn. split; [lia|]. apply holds_app. split; [done|].
    intros [|i] x Hi; [|by destruct i]. injection Hi as <-. rewrite Hl. by replace (a + Z.of_nat n + Z.of_nat 0) with (a + Z.of_nat n) by lia. }
  exists l. split; [|done]. by apply ub_load_spec.
Qed.

Lemma holds_agree m a l k i : holds m a l → holds m a k → (i < length l)%nat → (i < length k)%nat → l !! i = k !! i.
Proof.
  intros Hl Hk Hi Hj. destruct (lookup_lt_is_Some_2 l i Hi) as [x Ex]. destruct (lookup_lt_is_Some_2 k i Hj) as [y Ey].
  rewrite Ex, Ey, <- (Hl i x Ex), (Hk i y Ey). done.
Qed.

Lemma agree_prefix m a l k : holds m a l → holds m a k → (length k ≤ length l)%nat → take (length k) l = k.
Proof.
  intros Hl Hk Hle. apply list_eq. intros i. destruct (decide (i < length k)%nat).
  - rewrite lookup_take_lt by done. apply (holds_agree m a); [done|done|lia|done].
  - rewrite lookup_take_ge by lia. symmetry. apply lookup_ge_None. lia.
Qed.

Lemma string_of_prefix (s : cstr) l : no_nul s → take (length (cbytes s)) l = cbytes s → string_of l = s.
Proof.
  revert l. induction s as [|c s IH]; intros l Hn Ht; destruct l as [|b l]; try done.
  - cbn in Ht. by injection Ht as ->.
  - apply Forall_cons_1 in Hn as [Hc Hn]. cbn in Ht. injection Ht as -> Ht. cbn [string_of].
    rewrite (proj2 (Z.eqb_neq _ 0)) by (by intros ?%byte_of_nul). rewrite char_of_byte. f_equal. by apply IH.
Qed.

Lemma land_page cur : 0 ≤ cur → Z.land cur (PAGE_SIZE - 1) = cur `mod` PAGE_SIZE.
Proof. intros. change (PAGE_SIZE - 1) with (Z.ones 12). rewrite Z.land_ones by lia. done. Qed.

(** A byte that is not NUL before the end of the string. *)
Lemma no_nul_before (s : cstr) i b : no_nul s → cbytes s !! i = Some b → (i < length s)%nat → b ≠ 0.
Proof.
  intros Hn Hb Hi. unfold cbytes in Hb. rewrite lookup_app_l in Hb by (rewrite length_fmap; done).
  rewrite list_lookup_fmap in Hb. apply fmap_Some in Hb as (c & Hc & ->). intros ?%byte_of_nul. subst c.
  by apply (Forall_lookup_1 _ _ _ _ Hn Hc).
Qed.

Lemma existsb_nul l : existsb (Z.eqb 0) l = true ↔ 0 ∈ l.
Proof.
  rewrite existsb_exists. split.
  - intros (x & Hx & <-%Z.eqb_eq). by apply list_elem_of_In.
  - intros Hx. exists 0. split; [by apply list_elem_of_In|done].
Qed.

Lemma cstring_loop_run err m va (s : cstr) cap : page_granular m → 0 ≤ va → va + Z.of_nat (length s) + 1 ≤ 2 ^ 64 - PAGE_SIZE → no_nul s →
  Z.of_nat (length s) + 1 < cap → holds m va (cbytes s) → ∀ fuel buf, (length s < fuel + length buf)%nat →
  (length buf ≤ length s)%nat → holds m va buf →
  ∃ l, cstring_loop err fuel m va cap buf = (REND_SUCCESS, l) ∧ string_of l = s.
Proof.
  intros Hpg Hva Hb Hn Hcap Hs. induction fuel as [|fuel IH]; intros buf Hf Hle Hbuf; [lia|]. cbn [cstring_loop].
  rewrite (proj2 (Z.ltb_lt _ _)) by lia. unfold PAGE_SIZE in Hb. rewrite uw_small by lia. set (cur := va + Z.of_nat (length buf)).
  rewrite land_page by lia. pose proof (Z.mod_pos_bound cur PAGE_SIZE ltac:(done)) as Hmod.
  set (room := PAGE_SIZE - cur `mod` PAGE_SIZE). set (chunk := Z.min room (cap - 1 - Z.of_nat (length buf))).
  assert (PAGE_SIZE = 4096) as HP by done.
  assert (is_Some (ub_byte m cur)) as Hcur.
  { destruct (lookup_lt_is_Some_2 (cbytes s) (length buf)) as [b Eb]; [rewrite cbytes_length; lia|]. exists b. exact (Hs _ _ Eb). }
  destruct (mapped_load m cur (Z.to_nat chunk)) as (l & -> & Hl & Hh); [lia|lia| |].
  { intros x Hx. apply (Hpg cur x); [|done]. pose proof (Z.div_mod cur PAGE_SIZE ltac:(done)).
    apply Z.div_unique with (x - PAGE_SIZE * (cur `div` PAGE_SIZE)); lia. }
  assert (holds m va (buf ++ l)) as Hbl by (by apply holds_app).
  assert (0 < chunk) as Hch by lia. assert (length (buf ++ l) = length buf + Z.to_nat chunk)%nat as Hlen by (rewrite length_app; lia).
  destruct (existsb (Z.eqb 0) l) eqn:Ex.
  - eexists. split; [done|]. apply string_of_prefix; [done|]. apply (agree_prefix m va); [done|done|]. rewrite cbytes_length.
    destruct (decide (S (length s) ≤ length (buf ++ l))%nat) as [|Hsh]; [done|]. exfalso.
    apply existsb_nul, list_elem_of_lookup in Ex as (i & Hi). pose proof (lookup_lt_Some _ _ _ Hi) as Hil.
    assert ((buf ++ l) !! (length buf + i)%nat = Some 0) as H0 by (rewrite lookup_app_r by lia; by replace (length buf + i - length buf)%nat with i by lia).
    rewrite (holds_agree m va (buf ++ l) (cbytes s)) in H0 by (done || rewrite ?cbytes_length; lia).
    by apply (no_nul_before s _ 0 Hn H0); [lia|].
  - apply IH; [lia| |done]. destruct (decide (length (buf ++ l) ≤ length s)%nat) as [|Hlong]; [done|]. exfalso.
    assert (0 ∈ l) as Hin; [|by apply existsb_nul in Hin; rewrite Hin in Ex].
    apply list_elem_of_lookup. exists (length s - length buf)%nat.
    assert ((buf ++ l) !! length s = Some 0) as H0.
    { rewrite (holds_agree m va (buf ++ l) (cbytes s)) by (done || rewrite ?cbytes_length; lia).
      unfold cbytes. rewrite lookup_app_r by (rewrite length_fmap; lia). rewrite length_fmap. by rewrite Nat.sub_diag. }
    by rewrite lookup_app_r in H0 by lia.
Qed.

(** An argument of the caller. *)
Record arg_at m (p : Z) (a : cstr) : Prop := {
  aa_ptr : word p ∧ p ≠ 0;
  aa_room : p + 256 ≤ 2 ^ 64;
  aa_mapped : mapped m p 256;
  aa_nul : no_nul a;
  aa_bytes : holds m p (cbytes a);
}.

Lemma arg_load m p a : arg_at m p a →
  ∃ l, ub_load m p LINUX_EXEC_MAX_ARG_LEN = Some l ∧ string_of (take 255 l ++ [0]) = take 255 a.
Proof.
  intros [[Hp _] Hr Hm Hn Hb]. destruct (mapped_load m p 256) as (l & Hld & Hlen & Hh); [destruct Hp; lia|lia|done|].
  exists l. split; [done|]. assert (holds m p (take 255 l)) as Hh255.
  { rewrite <- (take_drop 255 l) in Hh. by apply holds_app in Hh as [? _]. }
  assert (length (take 255 l) = 255%nat) as Hl255 by (rewrite length_take; lia).
  destruct (decide (length a < 255)%nat).
  - rewrite (take_ge a) by lia. apply string_of_prefix; [done|]. rewrite take_app_le by (rewrite cbytes_length; lia).
    apply (agree_prefix m p); [done|done|]. rewrite cbytes_length. lia.
  - apply string_of_prefix; [by apply Forall_take|]. assert (length (take 255 a) = 255%nat) as Hla by (rewrite length_take; lia).
    rewrite take_ge by (rewrite length_app, cbytes_length; cbn [length]; lia). unfold cbytes. f_equal.
    rewrite <- (agree_prefix m p (take 255 l) (byte_of <$> take 255 a)); [rewrite length_fmap, Hla; by rewrite (take_ge (take 255 l)) by lia|done| |rewrite length_fmap; lia].
    unfold cbytes in Hb. rewrite <- (take_drop 255 a), fmap_app, <- app_assoc in Hb. by apply holds_app in Hb as [? _].
Qed.

Lemma argv_loop_run m ua ptrs args : Forall2 (arg_at m) ptrs args → ∀ fuel i acc, (length ptrs < fuel)%nat → 0 ≤ ua → 0 ≤ i →
  ua + (i + Z.of_nat (length ptrs) + 1) * 8 ≤ 2 ^ 64 → holds m (ua + i * 8) (words (ptrs ++ [0])) →
  argv_loop fuel m ua i acc = inr (acc ++ (take 255 <$> args)).
Proof.
  induction 1 as [|p a ptrs args Ha _ IH]; intros [|fuel] i acc Hf Hua Hi Hb Hh; cbn [length] in *; try lia; cbn [argv_loop app] in *;
    rewrite (uw_small 64 (ua + i * 8)) by lia; change (load_ptr m (ua + i * 8)) with (read_u64 m (ua + i * 8)).
  - rewrite (read_word m (ua + i * 8) 0 [] ltac:(lia) ltac:(lia) ltac:(done) Hh). cbn [Z.eqb]. by rewrite app_nil_r.
  - destruct (aa_ptr _ _ _ Ha) as [Hp Hp0]. rewrite (read_word m (ua + i * 8) p _ ltac:(lia) ltac:(lia) Hp Hh).
    rewrite (proj2 (Z.eqb_neq p 0)) by done. destruct (arg_load m p a Ha) as (l & -> & Hstr).
    change (LINUX_EXEC_MAX_ARG_LEN - 1)%nat with 255%nat. cbv zeta. rewrite Hstr.
    assert (exec_arg_string_valid (take 255 l ++ [0]) LINUX_EXEC_MAX_ARG_LEN = true) as ->.
    { unfold exec_arg_string_valid. rewrite take_ge by (rewrite length_app, length_take; cbn [length]; unfold LINUX_EXEC_MAX_ARG_LEN; lia).
      apply existsb_nul, elem_of_app. right. by left. }
    cbn [negb]. rewrite IH; [by rewrite <- app_assoc|lia|lia|lia|lia|].
    apply holds_tail in Hh. by replace (ua + (i + 1) * 8) with (ua + i * 8 + 8) by lia.
Qed.

Lemma copy_argv_run m ua ptrs args : Forall2 (arg_at m) ptrs args → (length ptrs < 128)%nat → 0 < ua →
  ua + (Z.of_nat (length ptrs) + 1) * 8 ≤ 2 ^ 64 → holds m ua (words (ptrs ++ [0])) →
  linux_exec_copy_argv_from_user m ua = inr (take 255 <$> args).
Proof.
  intros Ha Hl Hua Hb Hh. unfold linux_exec_copy_argv_from_user. rewrite (proj2 (Z.eqb_neq ua 0)) by lia.
  rewrite (argv_loop_run m ua ptrs args Ha); [|done|lia|lia|lia|by replace (ua + 0 * 8) with ua by lia]. cbn [app].
  pose proof (Forall2_length Ha) as Hlen.
  assert ((LINUX_EXEC_MAX_ARGS <=? length (take 255 <$> args))%nat = false) as ->; [|done].
  apply Nat.leb_gt. rewrite length_fmap. unfold LINUX_EXEC_MAX_ARGS. lia.
Qed.

(** What execve gets from the core kernel and the file system when the program
    can be run: its image, the memory [m3] with the new image and a mapped
    stack below [top], and the end of the image. *)
Record runnable env m0 (path : cstr) (args : list cstr) (img : elf_image) m3 (top load_end : Z) : Prop := {
  rn_load : xe_load env path = inr (Some img);
  rn_header : elf_header_ok img = true ∧ elf_class64 img = true;
  rn_mem : ∃ m1 m2, xe_clear env m0 = ClearOk m1 ∧ xe_load_elf env m1 = (m2, Some load_end) ∧ xe_user_stack env m2 = (m3, top);
  rn_top : stack_bound args (Some path) ≤ top < 2 ^ 64;
  rn_stack : mapped m3 (top - stack_bound args (Some path)) (stack_bound args (Some path));
  rn_words : word (e_phentsize img) ∧ word (e_phnum img) ∧ word (e_entry img);
}.

Lemma phdr_scan_word l : ∀ f o, word (phdr_scan l f o).
Proof.
  induction l as [|p l IH]; intros f o; cbn [phdr_scan].
  - destruct (f =? 0); [done|]. apply uw_range. lia.
  - destruct (negb _); [apply IH|]. destruct (_ && _); [apply uw_range; lia|apply IH].
Qed.

(** C15. Execve hands over the arguments.  A caller whose path and argument
    strings are readable (each argument with the 256 bytes from its start on),
    fewer than 128 arguments, and a program that can be run: the call returns
    the entry point of the program and a stack on which the reference reader
    finds the arguments of the caller, each cut to 255 bytes, no environment,
    and the path of the program in AT_EXECFN; the heap starts at the end of
    the image. *)
Theorem execve_passes_args fuel env s user_filename path user_argv ptrs args img m3 top load_end (cut := take 255 <$> args) :
  page_granular (xs_mem s) → 0 ≤ user_filename → user_filename + 256 ≤ 2 ^ 64 - PAGE_SIZE → no_nul path → (length path < 255)%nat →
  holds (xs_mem s) user_filename (cbytes path) → xe_alloc env = true →
  Forall2 (arg_at (xs_mem s)) ptrs args → (length ptrs < 128)%nat → 0 < user_argv →
  user_argv + (Z.of_nat (length ptrs) + 1) * 8 ≤ 2 ^ 64 → holds (xs_mem s) user_argv (words (ptrs ++ [0])) →
  runnable env (xs_mem s) path cut img m3 top load_end → (255 < fuel)%nat →
  ∃ s' sp auxv eva, sys_execve env s true true user_filename user_argv = (s', ExecReturn 0 (e_entry img) sp)
    ∧ read_stack fuel (xs_mem s') sp = Some (ProgramStart (Z.of_nat (length args)) cut [] auxv)
    ∧ (0 < e_phnum img → e_phentsize img ≠ 0 → e_entry img ≠ 0 → linux_exec_elf_user_phdr_va img (e_phoff img) ≠ 0 →
        (LINUX_AT_EXECFN, eva) ∈ auxv ∧ (LINUX_AT_ENTRY, e_entry img) ∈ auxv)
    ∧ read_cstr fuel (xs_mem s') eva = Some path
    ∧ xs_heap s' = linux_proc_set_heap_from_elf_load (xe_kernel_base env) load_end.
Proof.
  intros Hpg Hf0 Hf1 Hnp Hlp Hhp Hal Hargs Hn Hua Hub Hptrs Hrun Hfuel. unfold sys_execve. cbn [negb].
  unfold linux_mm_load_cstring_from_user. change ((LINUX_EXEC_MAX_PATH <? 2) || negb true) with false. cbv iota.
  destruct (cstring_loop_run (xe_load_err env) (xs_mem s) user_filename path LINUX_EXEC_MAX_PATH Hpg Hf0) with
    (fuel := Z.to_nat LINUX_EXEC_MAX_PATH) (buf := @nil Z) as (buf & -> & Hbuf); try done;
    [lia|unfold LINUX_EXEC_MAX_PATH; lia|change (Z.to_nat LINUX_EXEC_MAX_PATH) with 256%nat; cbn [length]; lia|cbn [length]; lia|].
  rewrite Hal, Hbuf, (copy_argv_run (xs_mem s) user_argv ptrs args) by done. cbn [negb]. fold cut.
  pose proof (Forall2_length Hargs) as Hla. assert (length cut = length args) as Hlc by apply length_fmap.
  destruct Hrun as [Hload [Hh1 Hh2] (m1 & m2 & Hc & He & Hus) Htop Hmap (Hw1 & Hw2 & Hw3)].
  unfold linux_exec_replace_image. assert ((LINUX_EXEC_MAX_ARGS <? length (Some <$> cut))%nat = false) as ->
    by (apply Nat.ltb_ge; rewrite length_fmap; unfold LINUX_EXEC_MAX_ARGS; lia).
  rewrite all_args_spec, Hload. cbn [negb linux_exec_elf_slice_valid]. rewrite Hh1, Hh2. cbn [andb negb xs_mem xs_emit].
  rewrite Hc. cbn [xs_mem xs_emit xs_set_mem]. rewrite He. unfold exec_finish. cbn [linux_exec_elf_auxv_from_kva].
  rewrite Hh1, Hh2. cbn [negb orb xs_mem xs_emit xs_set_mem]. rewrite Hus.
  assert (0 < stack_bound cut (Some path)) as Hsb by (unfold stack_bound; pose proof (strings_len_pos (cut ++ option_list (Some path))); lia).
  rewrite (proj2 (Z.eqb_neq top 0)) by lia. set (ok := _ && _ && _ && _).
  match goal with |- context [Some (if ok then ?x else ?y)] => set (av := if ok then x else y) end.
  destruct (initial_stack_roundtrip fuel (xe_rand64 env) (xe_rng env) (xs_rng s) m3 top cut (Some path) (Some av))
    as (m' & rng' & sp & rva & eva & Hbuild & Hsp & Hmod & Hread & Hfn & _); try done.
  - apply Forall_app. split; [|constructor; [split; [done|lia]|constructor]]. apply Forall_fmap, Forall_forall. intros a Hin%list_elem_of_In.
    apply list_elem_of_lookup in Hin as (i & Hi). destruct (Forall2_lookup_r _ _ _ _ _ Hargs Hi) as (p & _ & Hpa).
    split; [apply Forall_take, (aa_nul _ _ _ Hpa)|]. rewrite length_take. lia.
  - lia.
  - lia.
  - intros v [= <-]. assert (word (linux_exec_elf_user_phdr_va img (e_phoff img))) by apply phdr_scan_word. by destruct ok.
  - cbn [xs_rng xs_emit xs_set_mem xs_mem]. rewrite Hbuild. cbn [sr_sp sr_mem sr_rng]. rewrite (proj2 (Z.eqb_neq sp 0)) by (intros ->; done).
    destruct (Hfn path eq_refl) as [Heva Hrc]. eexists _, sp, _, eva. split; [done|]. cbn [xs_mem xs_emit linux_exec_reset_proc_state].
    rewrite Hlc in Hread. split_and!; [done| |done|done].
    intros Hp1 Hp2 Hp3 Hp4. assert (ok = true) as Hok.
    { unfold ok. rewrite (proj2 (Z.eqb_neq (linux_exec_elf_user_phdr_va _ _) 0)), (proj2 (Z.ltb_lt 0 _)), !(proj2 (Z.eqb_neq _ 0)) by done. done. }
    unfold auxv_entries, av. rewrite Hok. cbn [have_elf]. rewrite (proj2 (Z.eqb_neq eva 0)) by done.
    split; apply list_elem_of_In; cbn; tauto.
Qed.
End exec.

(** ** The file of the program *)

Section load.
Context `{PSL : PageSliceLaws (list Z)}.
Implicit Types (sl : page_slice) (d : list Z) (env : load_env).

(** The slice has the size of [d] and its first [n] bytes. *)
Definition slice_start sl d (n : nat) : Prop :=
  page_slice_get_size sl = Z.of_nat (length d)
  ∧ ∀ k, (k < n)%nat → ∃ c, page_slice_lookup sl (Z.of_nat k `div` PAGE_SIZE) = Some c
      ∧ c !! Z.to_nat (Z.of_nat k `mod` PAGE_SIZE) = d !! k.

Fixpoint count (e : load_effect) (l : list load_effect) : nat :=
  match l with [] => O | x :: l' => ((if decide (x = e) then 1 else 0) + count e l')%nat end.

(** Everything taken is given back or in the slice that is returned. *)
Definition balanced (log : list load_effect) (returned : bool) : Prop :=
  count LOpen log = count LClose log ∧ count LMapScratch log = count LUnmapScratch log
  ∧ count LAllocPage log = (count LFreePage log + count LInsertPage log)%nat
  ∧ count LCreate log = (count LDestroy log + if returned then 1 else 0)%nat.

Lemma count_app e l k : count e (l ++ k) = (count e l + count e k)%nat.
Proof. induction l as [|x l IH]; [done|]. cbn. rewrite IH. lia. Qed.

(** What the rounds leave open: the handle, the scratch page and the slice. *)
Definition in_rounds (log : list load_effect) (page : bool) : Prop :=
  count LOpen log = 1%nat ∧ count LClose log = 0%nat ∧ count LMapScratch log = 1%nat ∧ count LUnmapScratch log = 0%nat
  ∧ count LCreate log = 1%nat ∧ count LDestroy log = 0%nat
  ∧ count LAllocPage log = (count LFreePage log + count LInsertPage log + if page then 1 else 0)%nat.

Ltac counts := unfold in_rounds, balanced in *; cbn [snd drop_partial]; rewrite ?count_app; cbn [count app];
  repeat (case_decide; try discriminate); try congruence; lia.

Lemma slice_err_nonzero e : e ≠ REND_SUCCESS → linux_vfs_page_slice_err e ≠ 0.
Proof. by destruct e. Qed.

Lemma rounds_log fuel env size : ∀ i sl copied pgoff page log r,
  in_rounds log (match page with Some _ => true | None => false end) → (is_Some page → copied < size) →
  read_rounds fuel i env size sl copied pgoff page log = Some r → in_rounds r.2 false.
Proof.
  induction fuel as [|fuel IH]; intros i sl copied pgoff page log r Hlog Hp Hr; cbn [read_rounds] in Hr;
    (destruct (Z.leb_spec size copied);
      [injection Hr as <-; destruct page as [pg|]; [specialize (Hp (mk_is_Some _ _ eq_refl)); lia|done]|]); [done|].
  assert (in_rounds (log ++ drop_partial page) false) as Hdrop by (destruct page; counts).
  destruct (le_read env i _) as [n|[|b l]]; [by injection Hr as <-|by injection Hr as <-|].
  set (bytes := b :: l) in *. set (log1 := match page with Some _ => log | None => _ end) in *.
  assert (in_rounds log1 true) as Hlog1 by (unfold log1; destruct page; counts).
  destruct (negb _) eqn:Ea; [injection Hr as <-; destruct page; [done|exact Hlog]|].
  destruct (negb (le_load env i)); [injection Hr as <-; counts|]. destruct (PAGE_SIZE <? _); [done|].
  destruct (_ && _) eqn:Eb.
  - eapply IH; [| |exact Hr]; [exact Hlog1|]. intros _. apply andb_true_iff in Eb as [_ Eb]. by apply Z.ltb_lt.
  - destruct (page_slice_insert_page _ _ _) as [[] sl1]; try (injection Hr as <-; counts).
    eapply IH; [| |exact Hr]; [counts|]. by intros [? ?].
Qed.

(** On every path the handle, the scratch page, the pages and the slice are
    given back, or in the slice that is returned. *)
Lemma load_balanced env res log : linux_vfs_read_file_slice true env = Some (res, log) →
  balanced log (match res with inr _ => true | inl _ => false end).
Proof.
  unfold linux_vfs_read_file_slice. cbn [negb]. destruct (linux_vfs_open_readonly env); [by intros [= <- <-]|].
  destruct (linux_vfs_query_file_size env) as [e|size]; [by intros [= <- <-]|].
  destruct (page_slice_create 0 size) as [sl|]; [|by intros [= <- <-]]. destruct (le_scratch env =? 0); [by intros [= <- <-]|].
  destruct (read_rounds _ _ _ _ _ _ _ _ _) as [[[ret sl1] log1]|] eqn:Er; [|done]. cbn [mbind option_bind].
  assert (in_rounds log1 false) as Hl.
  { apply (rounds_log (Z.to_nat size) env size 0 sl 0 0 None [LOpen; LCreate; LMapScratch] (ret, sl1, log1)); [counts|by intros [? ?]|exact Er]. }
  destruct (negb (ret =? 0)); [intros [= <- <-]; counts|]. destruct (le_close env <? 0); intros [= <- <-]; counts.
Qed.

(** The answers of a server that reads whole chunks of [d], or fails. *)
Definition serves (env : load_env) d : Prop :=
  le_size env = Z.of_nat (length d)
  ∧ ∀ i chunk, match le_read env i chunk with
               | inl n => n < 0
               | inr bytes => bytes = take (Z.to_nat chunk) (drop (Z.to_nat (4096 * Z.of_nat i)) d)
               end.

Lemma rounds_read env d : serves env d → ∀ fuel i sl log, slice_start sl d (Nat.min (Z.to_nat (4096 * Z.of_nat i)) (length d)) →
  Z.of_nat (length d) ≤ Z.of_nat fuel + 4096 * Z.of_nat i → 4096 * Z.of_nat i < Z.of_nat (length d) + 4096 →
  ∃ r sl' log', read_rounds fuel i env (Z.of_nat (length d)) sl (Z.min (4096 * Z.of_nat i) (Z.of_nat (length d))) (Z.of_nat i) None log = Some (r, sl', log')
    ∧ (r = 0 → slice_start sl' d (length d)).
Proof.
  intros [_ Hread]. assert (PAGE_SIZE = 4096) as HP by done.
  induction fuel as [|fuel IH]; intros i sl log Hs Hf Hi; cbn [read_rounds];
    (destruct (Z.leb_spec (Z.of_nat (length d)) (Z.min (4096 * Z.of_nat i) (Z.of_nat (length d))));
      [eexists _, _, _; split; [done|]; intros _; by replace (length d) with (Nat.min (Z.to_nat (4096 * Z.of_nat i)) (length d)) by lia|]); [lia|].
  set (chunk := Z.min _ PAGE_SIZE). specialize (Hread i chunk). destruct (le_read env i chunk) as [n|bytes]; [eexists _, _, _; split; [done|]; intros ->; lia|]. subst bytes.
  assert (length (take (Z.to_nat chunk) (drop (Z.to_nat (4096 * Z.of_nat i)) d)) = Nat.min (Z.to_nat 4096) (length d - Z.to_nat (4096 * Z.of_nat i))) as Hlb
    by (rewrite length_take, length_drop; unfold chunk, LINUX_EXEC_READ_CHUNK; lia).
  set (bytes := take (Z.to_nat chunk) (drop (Z.to_nat (4096 * Z.of_nat i)) d)) in *. destruct bytes as [|b0 bs] eqn:Eb; [cbn [length] in Hlb; lia|]. rewrite <- Eb in *. clear Eb b0 bs.
  destruct (negb (le_alloc env i)); [by eexists _, _, _|]. destruct (negb (le_load env i)); [by eexists _, _, _|].
  cbn [default id app length].
  rewrite (proj2 (Z.ltb_ge PAGE_SIZE _)) by lia. set (n := length bytes) in *.
  assert ((Z.of_nat n <? PAGE_SIZE) && (Z.min (4096 * Z.of_nat i) (Z.of_nat (length d)) + Z.of_nat n <? Z.of_nat (length d)) = false) as ->.
  { apply andb_false_iff. destruct (decide (Z.of_nat n = 4096)); [left; apply Z.ltb_ge; lia|right; apply Z.ltb_ge; lia]. }
  destruct (page_slice_insert_page sl (Z.of_nat i) _) as [err sl1] eqn:Ei.
  destruct (decide (err = REND_SUCCESS)) as [->|Herr].
  2: { exists (linux_vfs_page_slice_err err), sl1. eexists. split; [by destruct err|]. intros H0. by apply slice_err_nonzero in H0. }
  destruct (insert_ok _ _ _ _ Ei) as (Hsz & Hnew & Hold). destruct Hs as [Hs1 Hs2].
  destruct (IH (S i) sl1 ((log ++ [LAllocPage]) ++ [LInsertPage])) as (r & sl' & log' & Hrun & Hr).
  - split; [by rewrite Hsz|]. intros k Hk. destruct (decide (k < Nat.min (Z.to_nat (4096 * Z.of_nat i)) (length d))%nat) as [Hk1|Hk1].
    + rewrite Hold; [by apply Hs2|]. rewrite HP. intros He.
      pose proof (Z.div_mod (Z.of_nat k) 4096 ltac:(lia)). pose proof (Z.mod_pos_bound (Z.of_nat k) 4096 ltac:(lia)). lia.
    + assert (Z.of_nat k `div` PAGE_SIZE = Z.of_nat i) as ->
        by (symmetry; apply Z.div_unique with (Z.of_nat k - 4096 * Z.of_nat i); lia).
      assert (Z.of_nat k `mod` PAGE_SIZE = Z.of_nat k - 4096 * Z.of_nat i) as ->
        by (symmetry; apply Z.mod_unique with (Z.of_nat i); lia).
      eexists. split; [exact Hnew|]. rewrite lookup_app_l by lia. unfold bytes. rewrite lookup_take_lt, lookup_drop by (unfold chunk, LINUX_EXEC_READ_CHUNK; lia).
      f_equal. lia.
  - lia.
  - lia.
  - exists r, sl', log'. split; [|done]. rewrite <- Hrun. f_equal; lia.
Qed.

(** The program file is read completely or not at all.  A server that
    answers each read with the next chunk of the file, or with an error: the
    loader returns an error or a slice with exactly the bytes of the file, it
    never writes outside of a page, and on every path the handle, the scratch
    page, the buffers and the slice are given back exactly once. *)
Theorem exec_load_reads_file env d : serves env d →
  ∃ res log, linux_vfs_read_file_slice true env = Some (res, log)
    ∧ balanced log (match res with inr _ => true | inl _ => false end)
    ∧ ∀ sl, res = inr sl → slice_start sl d (length d).
Proof.
  intros Hd. assert (∃ res log, linux_vfs_read_file_slice true env = Some (res, log) ∧ ∀ sl, res = inr sl → slice_start sl d (length d))
    as (res & log & Hrun & Hres); [|exists res, log; split_and!; [done|by apply load_balanced in Hrun|done]].
  unfold linux_vfs_read_file_slice. cbn [negb]. destruct (linux_vfs_open_readonly env); [by eexists _, _|].
  unfold linux_vfs_query_file_size. destruct (le_size env <? 0); [by eexists _, _|]. destruct (_ || _); [by eexists _, _|].
  destruct (le_rewind env <? 0); [by eexists _, _|]. rewrite (proj1 Hd).
  destruct (page_slice_create 0 (Z.of_nat (length d))) as [sl|] eqn:Ec; [|by eexists _, _]. destruct (le_scratch env =? 0); [by eexists _, _|].
  destruct (create_empty _ _ _ Ec) as [Hsz _].
  destruct (rounds_read env d Hd (length d) 0 sl [LOpen; LCreate; LMapScratch]) as (r & sl' & log & Hrun & Hr); [split; [done|]; intros k Hk; lia|lia|lia|].
  rewrite Nat2Z.id. change (Z.of_nat 0) with 0 in Hrun. replace (Z.min (4096 * 0) (Z.of_nat (length d))) with 0 in Hrun by lia. rewrite Hrun.
  cbn [mbind option_bind]. destruct (r =? 0) eqn:E0; cbn [negb]; [|by eexists _, _].
  destruct (le_close env <? 0); [by eexists _, _|]. eexists _, _. split; [done|]. intros ? [= <-]. apply Hr. by apply Z.eqb_eq.
Qed.
End load.

(** ** A caller, a program and a file *)

Module ExecDemo.

Import StackDemo.
Import MapSlice.

(** The caller: page 4, with the path at 16384, the pointers at 16400 and the
    arguments at 16448 and 16456; the page is mapped as a whole. *)
Definition caller_words : list Z := words [16448; 16456; 0].
Definition caller_mem : gmap Z Z :=
  put_bytes (put_bytes (put_bytes (put_bytes (put_bytes ∅ 16384 (replicate (Z.to_nat 4096) 0)) 16384 (cbytes (str "/ls")))
    16400 caller_words) 16448 (cbytes (str "ls"))) 16456 (cbytes (str "-l")).

Lemma put_keeps m a l x : is_Some (m !! x) → is_Some (put_bytes m a l !! x).
Proof.
  intros Hx. destruct (decide (a ≤ x < a + Z.of_nat (length l))) as [Hin|Hout]; [|by rewrite put_bytes_out].
  replace x with (a + Z.of_nat (Z.to_nat (x - a))) by lia.
  destruct (lookup_lt_is_Some_2 l (Z.to_nat (x - a))) as [b Eb]; [lia|]. rewrite (put_bytes_in _ _ _ _ _ Eb). by eexists.
Qed.

Lemma put_new m a l x : is_Some (put_bytes m a l !! x) → is_Some (m !! x) ∨ a ≤ x < a + Z.of_nat (length l).
Proof.
  intros Hx. destruct (decide (a ≤ x < a + Z.of_nat (length l))) as [Hin|Hout]; [by right|left]. by rewrite put_bytes_out in Hx.
Qed.

Lemma caller_mapped x : is_Some (ub_byte caller_mem x) ↔ 16384 ≤ x < 20480.
Proof.
  cbn [ub_byte gmap_bytes_laws]. unfold caller_mem. split.
  - intros Hx. repeat (apply put_new in Hx as [Hx|Hx]; [|vm_compute (length _) in Hx; lia]).
    by rewrite lookup_empty in Hx; destruct Hx.
  - intros Hx. do 4 apply put_keeps. exists 0. replace x with (16384 + Z.of_nat (Z.to_nat (x - 16384))) by lia.
    apply put_bytes_in, lookup_replicate. split; [done|]. lia.
Qed.

Lemma caller_granular : page_granular caller_mem.
Proof.
  intros x y Hxy Hx. apply caller_mapped. apply caller_mapped in Hx. unfold PAGE_SIZE in Hxy.
  pose proof (Z.div_mod x 4096 ltac:(lia)). pose proof (Z.mod_pos_bound x 4096 ltac:(lia)).
  pose proof (Z.div_mod y 4096 ltac:(lia)). pose proof (Z.mod_pos_bound y 4096 ltac:(lia)). lia.
Qed.

(** Bytes of a closed memory, checked by evaluation. *)
Lemma holds_check (m : gmap Z Z) a l : ub_load m a (length l) = Some l → 0 ≤ a → a + Z.of_nat (length l) ≤ 2 ^ 64 → holds_at ub_byte m a l.
Proof. intros Hl Ha Hb. by apply (ub_load_spec m a (length l) l Ha Hb). Qed.

Definition demo_img : elf_image := ElfImage true true 64 56 1 0x401000 [ElfPhdr 1 0 0x400000 0x2000].
Definition xenv : exec_env (gmap Z Z) :=
  {| xe_rand64 := Z.succ; xe_rng := demo_rng; xe_kernel_base := 2 ^ 63; xe_alloc := true; xe_load_err := E_RENDEZVOS;
     xe_load := λ p, if bool_decide (p = str "/ls") then inr (Some demo_img) else inl (- LINUX_ENOENT);
     xe_clear := λ _, ClearOk ∅; xe_load_elf := λ m, (m, Some 0x403010); xe_user_stack := λ _, (stack_mem, 5000) |}.
Definition caller : exec_state (gmap Z Z) := ExecState caller_mem 1 (ProcMem 0x600000 0x601000 0) [].
Definition demo_cut : list cstr := take 255 <$> [str "ls"; str "-l"].

Lemma demo_runnable : runnable xenv caller_mem (str "/ls") demo_cut demo_img stack_mem 5000 0x403010.
Proof.
  split.
  - reflexivity.
  - split; reflexivity.
  - exists ∅, ∅. split_and!; reflexivity.
  - vm_compute. split; [discriminate|reflexivity].
  - apply stack_mem_mapped; vm_compute; discriminate.
  - split_and!; split; vm_compute; (discriminate || reflexivity).
Qed.

Lemma demo_arg p a : word p → 16384 ≤ p → p + 256 ≤ 20480 → no_nul a → ub_load caller_mem p (length (cbytes a)) = Some (cbytes a) →
  Z.of_nat (length (cbytes a)) ≤ 256 → arg_at caller_mem p a.
Proof.
  intros Hw Hl Hu Hn Hb Hlen. assert (0 ≤ p < 2 ^ 64) as Hw' by done. split; [split; [done|lia]|lia| |done|apply holds_check; [done|lia|lia]].
  intros x Hx. apply caller_mapped. lia.
Qed.

Lemma demo_no_nul : no_nul (str "/ls") ∧ no_nul (str "ls") ∧ no_nul (str "-l").
Proof. split_and!; repeat (constructor; [discriminate|]); constructor. Qed.

Lemma execve_passes_args_witness :
  ∃ s' sp auxv eva, sys_execve xenv caller true true 16384 16400 = (s', ExecReturn 0 (e_entry demo_img) sp)
    ∧ read_stack 300 (xs_mem s') sp = Some (ProgramStart (Z.of_nat (length [str "ls"; str "-l"])) demo_cut [] auxv)
    ∧ (0 < e_phnum demo_img → e_phentsize demo_img ≠ 0 → e_entry demo_img ≠ 0 →
        linux_exec_elf_user_phdr_va demo_img (e_phoff demo_img) ≠ 0 →
        (LINUX_AT_EXECFN, eva) ∈ auxv ∧ (LINUX_AT_ENTRY, e_entry demo_img) ∈ auxv)
    ∧ read_cstr 300 (xs_mem s') eva = Some (str "/ls")
    ∧ xs_heap s' = linux_proc_set_heap_from_elf_load (xe_kernel_base xenv) 0x403010.
Proof.
  destruct demo_no_nul as (N1 & N2 & N3).
  apply (execve_passes_args 300 xenv caller 16384 (str "/ls") 16400 [16448; 16456] [str "ls"; str "-l"] demo_img stack_mem 5000 0x403010).
  - exact caller_granular.
  - lia.
  - unfold PAGE_SIZE. lia.
  - exact N1.
  - cbn. lia.
  - apply holds_check; [vm_compute; reflexivity|lia|cbn; lia].
  - reflexivity.
  - constructor; [|constructor; [|constructor]]; (apply demo_arg; [split; lia|lia|lia|assumption|vm_compute; reflexivity|cbn; lia]).
  - cbn. lia.
  - lia.
  - cbn. lia.
  - apply holds_check; [vm_compute; reflexivity|lia|cbn; lia].
  - exact demo_runnable.
  - lia.
Defined.

(** An argument that ends less than 256 bytes before an unmapped page. *)
Example short_arg_near_the_end :
  let m := put_bytes (put_bytes ∅ 0x1000 (replicate 200 0)) 0x1000 (words [0x1080; 0] ++ replicate 112 0 ++ cbytes (str "ls")) in
  linux_exec_copy_argv_from_user m 0x1000 = inl (- LINUX_EFAULT).
Proof. vm_compute. reflexivity. Qed.

(** A file of 5000 bytes, read in two chunks. *)
Definition file_5000 : list Z := (λ i, Z.of_nat i `mod` 251) <$> seq 0 (Z.to_nat 5000).
Definition lenv : load_env :=
  LoadEnv 3 5000 0 0 0x10000 (λ i n, inr (take (Z.to_nat n) (drop (Z.to_nat (4096 * Z.of_nat i)) file_5000))) (λ _, true) (λ _, true).

Lemma exec_load_reads_file_witness :
  ∃ res log, linux_vfs_read_file_slice (PS := map_slice) true lenv = Some (res, log)
    ∧ balanced log (match res with inr _ => true | inl _ => false end)
    ∧ ∀ sl, res = inr sl → slice_start (PS := map_slice) sl file_5000 (length file_5000).
Proof.
  apply (exec_load_reads_file lenv file_5000). split; [vm_compute; reflexivity|]. intros i chunk. reflexivity.
Defined.

Example file_5000_loaded :
  (λ r, match r.1 with inr _ => true | inl _ => false end) <$> linux_vfs_read_file_slice (PS := map_slice) true lenv = Some true.
Proof. vm_compute. reflexivity. Qed.

(** A server that answers the first read with 100 bytes: the next chunk is
    copied behind the end of the page. *)
Definition short_env : load_env :=
  LoadEnv 3 5000 0 0 0x10000 (λ i n, inr (match i with O => take 100 file_5000 | _ => take (Z.to_nat n) (drop 100 file_5000) end)) (λ _, true) (λ _, true).

Example short_read_overruns_page : linux_vfs_read_file_slice (PS := map_slice) true short_env = None.
Proof. vm_compute. reflexivity. Qed.
End ExecDemo.
