(* ===== verification/Mm.v ===== *)
(** * User address spaces

    [linux_layer/mm/]: mapping, unmapping, copying and copy-on-write of user
    pages, the memory system calls and the page-fault handler.  Page tables,
    the radix tree that shadows them and the page allocator belong to the core
    kernel and are a class here; [MmSpec] has its laws. *)

From stdpp Require Import base numbers list gmap option.
From S2P Require Import Prelude PageSlice PortNames Proc.

(** Page flags.  [lazy], [cow] and [remap] exist in the radix tree only. *)
Record pflags : Type := PFlags {
  f_valid : bool;
  f_user : bool;
  f_read : bool;
  f_write : bool;
  f_exec : bool;
  f_lazy : bool;
  f_cow : bool;
  f_remap : bool;
}.
Definition no_flags : pflags := PFlags false false false false false false false false.
#[global] Instance pflags_eq_dec : EqDecision pflags.
Proof. solve_decision. Defined.

(** What the core kernel provides.  An address space is a number; a page is
    named by its address or its number ([VPN]).  [radix_leaf] gives the leaf of
    a page: its address, its flags, and its frame when it is linked to one
    ([Some None]: linked, but the frame is not found). *)
Class CoreMM (W : Type) : Type := {
  vs_is_user : W → Z → bool;
  have_mapped : W → Z → Z → bool → W * option (Z * pflags * Z);
  pmm_alloc1 : W → W * option Z;
  pmm_free1 : W → Z → W;
  radix_end_check : Z → Z → option Z;
  radix_lock : W → Z → Z → Z → W * error_t;
  radix_unlock : W → Z → Z → Z → W;
  radix_query : W → Z → Z → Z → error_t * pflags;
  radix_interval : W → Z → Z → Z → option (Z * Z * pflags);
  radix_leaf : W → Z → Z → Z → option (Z * pflags * option (option Z));
  set_range_and_fill : W → Z → Z → Z → pflags → W * bool;
  clean_range_and_unfill : W → Z → Z → Z → Z → W * error_t;
  fill_page_with_exist_range : W → Z → Z → pflags → W * error_t;
  remap_page : W → Z → Z → Z → pflags → Z → W * error_t;
  set_range_flags : W → Z → Z → Z → pflags → W * error_t;
  map_pte : W → Z → Z → Z → pflags → W * error_t;
  copy_data_range : W → Z → Z → Z → W * error_t;
  copy_page : W → Z → Z → W * error_t;
  user_store : W → Z → Z → list Z → W * error_t;
  user_load : W → Z → Z → Z → error_t * list Z;
  clone_vspace : W → Z → W * (error_t * Z);
  register_vspace : W → Z → W * error_t;
  del_vspace : W → Z → W;
  rm_sw_flags : pflags → pflags;
  user_space_top : Z;
  kernel_virt_offset : Z;
  buddy_maxorder : nat;
  huge_page_mask : Z;
}.

Definition VPN (va : Z) : Z := Z.shiftr va 12.
Definition PADDR (ppn : Z) : Z := u64 (Z.shiftl ppn 12).

Definition LINUX_PROT_READ : Z := 1.
Definition LINUX_PROT_WRITE : Z := 2.
Definition LINUX_PROT_EXEC : Z := 4.
Definition LINUX_MAP_FIXED : Z := 0x10.
Definition LINUX_MAP_ANONYMOUS : Z := 0x20.
Definition LINUX_MREMAP_MAYMOVE : Z := 1.

Definition linux_prot_to_page_flags (prot : Z) : pflags :=
  PFlags true true (has prot LINUX_PROT_READ) (has prot LINUX_PROT_WRITE) (has prot LINUX_PROT_EXEC) false false false.

(** [USER | VALID | WRITE | READ]. *)
Definition rw_flags : pflags := PFlags true true true true false false false false.

Section mm.
Context {W : Type} `{CM : CoreMM W}.
Implicit Types (w : W) (vs va : Z) (fl : pflags).

Definition linux_mm_l0_lock_lo (start : Z) : Z := Z.land start (not64 huge_page_mask).

(** ** Mapping *)

(** The loop, for at most [fuel] halvings. *)
Fixpoint shrink_chunk (fuel : nat) (chunk remaining : Z) : Z :=
  match fuel with
  | O => chunk
  | S fuel' => if remaining <? chunk then shrink_chunk fuel' (Z.shiftr chunk 1) remaining else chunk
  end.

Definition linux_mm_buddy_chunk_pages (remaining : Z) : Z :=
  shrink_chunk (S buddy_maxorder) (Z.shiftl 1 (Z.of_nat buddy_maxorder)) remaining.

Fixpoint fill_chunk (fuel : nat) w vs va (chunk : Z) fl : W * Z :=
  match fuel with
  | O => (w, 0)
  | S fuel' =>
      if chunk <? 1 then (w, 0)
      else
        match set_range_and_fill w vs va chunk fl with
        | (w1, true) => (w1, chunk)
        | (w1, false) => if chunk =? 1 then (w1, 0) else fill_chunk fuel' w1 vs va (Z.shiftr chunk 1) fl
        end
  end.

Definition linux_mm_fill_one_span w vs va (remaining : Z) fl : W * Z :=
  fill_chunk (S buddy_maxorder) w vs va (linux_mm_buddy_chunk_pages remaining) fl.

Fixpoint linux_mm_unmap_prefix_pages w vs (hint : Z) (done : Z) (mapped_pages : nat) : W :=
  match mapped_pages with
  | O => w
  | S n =>
      let page_va := u64 (hint + done * PAGE_SIZE) in
      let '(w1, r) := have_mapped w vs (VPN page_va) false in
      let w2 := match r with
                | Some (ppn, _, _) => (clean_range_and_unfill w1 vs page_va 1 ppn).1
                | None => w1
                end in
      linux_mm_unmap_prefix_pages w2 vs hint (done + 1) n
  end.

Definition linux_mm_page_is_reserved w vs va : W * bool :=
  let '(w1, r) := have_mapped w vs (VPN va) false in
  if match r with Some (_, fl, _) => f_valid fl | None => false end then (w1, true)
  else
    match radix_end_check va 1 with
    | None => (w1, true)
    | Some page_end =>
        match radix_query w1 vs va page_end with
        | (REND_SUCCESS, fl) => (w1, f_valid fl || f_lazy fl)
        | _ => (w1, false)
        end
    end.

(** [n] pages from [va] on. *)
Fixpoint pages_free w vs va (n : nat) : W * bool :=
  match n with
  | O => (w, true)
  | S n' =>
      match linux_mm_page_is_reserved w vs va with
      | (w1, true) => (w1, false)
      | (w1, false) => pages_free w1 vs (u64 (va + PAGE_SIZE)) n'
      end
  end.

Definition linux_mm_range_is_free w vs (hint page_num : Z) : W * bool :=
  if negb (vs_is_user w vs) || (page_num =? 0) || negb (page_round_down hint =? hint) then (w, false)
  else match radix_end_check hint page_num with
       | None => (w, false)
       | Some range_end => pages_free w vs hint (Z.to_nat ((range_end - hint + PAGE_SIZE - 1) `div` PAGE_SIZE))
       end.

(** The pages that are mapped, or the failure after [mapped] of them. *)
Fixpoint map_spans (fuel : nat) w vs (hint mapped page_num : Z) fl : W * option Z :=
  if page_num <=? mapped then (w, None)
  else
    match fuel with
    | O => (w, Some mapped)
    | S fuel' =>
        match linux_mm_fill_one_span w vs (u64 (hint + mapped * PAGE_SIZE)) (page_num - mapped) fl with
        | (w1, got) => if got =? 0 then (w1, Some mapped) else map_spans fuel' w1 vs hint (mapped + got) page_num fl
        end
    end.

(** The address, or 0. *)
Definition linux_mm_map_user_range w vs (hint page_num : Z) fl : W * Z :=
  if negb (vs_is_user w vs) || (page_num =? 0) || (hint =? 0) || negb (page_round_down hint =? hint) then (w, 0)
  else
    match radix_end_check hint page_num with
    | None => (w, 0)
    | Some range_end =>
        let lo := linux_mm_l0_lock_lo hint in
        match radix_lock w vs lo range_end with
        | (w1, REND_SUCCESS) =>
            match map_spans (Z.to_nat page_num) w1 vs hint 0 page_num fl with
            | (w2, None) => (radix_unlock w2 vs lo range_end, hint)
            | (w2, Some mapped) =>
                (radix_unlock (linux_mm_unmap_prefix_pages w2 vs hint 0 (Z.to_nat mapped)) vs lo range_end, 0)
            end
        | (w1, _) => (w1, 0)
        end
    end.

Fixpoint search_probes (probes : nat) w vs (hint page_num : Z) fl : W * Z :=
  match probes with
  | O => (w, 0)
  | S n =>
      match linux_mm_range_is_free w vs hint page_num with
      | (w1, true) =>
          match linux_mm_map_user_range w1 vs hint page_num fl with
          | (w2, p) => if negb (p =? 0) then (w2, p) else search_probes n w2 vs (u64 (hint + PAGE_SIZE)) page_num fl
          end
      | (w1, false) => search_probes n w1 vs (u64 (hint + PAGE_SIZE)) page_num fl
      end
  end.

Definition linux_mm_map_user_range_search w vs (search_start page_num : Z) fl (max_probes : nat) : W * Z :=
  search_probes max_probes w vs (page_round_down search_start) page_num fl.

(** ** Unmapping *)

(** How far the frames from page [done + run] on are consecutive. *)
Fixpoint ppn_run (fuel : nat) w vs (start done run page_num run_ppn : Z) : W * Z :=
  if done + run <? page_num then
    match fuel with
    | O => (w, run)
    | S fuel' =>
        let '(w1, r) := have_mapped w vs (VPN (u64 (start + (done + run) * PAGE_SIZE))) false in
        match r with
        | Some (ppn, _, _) => if ppn =? run_ppn + run then ppn_run fuel' w1 vs start done (run + 1) page_num run_ppn else (w1, run)
        | None => (w1, run)
        end
    end
  else (w, run).

(** The loop, run by run; the source returns the invalid frame number as the
    error when a page is not mapped. *)
Fixpoint unmap_runs (fuel : nat) w vs (start done page_num : Z) : W * error_t :=
  if page_num <=? done then (w, REND_SUCCESS)
  else
    match fuel with
    | O => (w, E_RENDEZVOS)
    | S fuel' =>
        let page_va := u64 (start + done * PAGE_SIZE) in
        let '(w1, r) := have_mapped w vs (VPN page_va) false in
        match r with
        | None => (w1, E_RENDEZVOS)
        | Some (run_ppn, _, _) =>
            let '(w2, run) := ppn_run (Z.to_nat page_num) w1 vs start done 1 page_num run_ppn in
            match clean_range_and_unfill w2 vs page_va run run_ppn with
            | (w3, REND_SUCCESS) => unmap_runs fuel' w3 vs start (done + run) page_num
            | (w3, e) => (w3, e)
            end
        end
    end.

Definition linux_mm_unmap_user_range w vs (start page_num : Z) : W * error_t :=
  if negb (vs_is_user w vs) || (page_num =? 0) || negb (page_round_down start =? start) then (w, E_IN_PARAM)
  else
    match radix_end_check start page_num with
    | None => (w, E_IN_PARAM)
    | Some range_end =>
        let lo := linux_mm_l0_lock_lo start in
        match radix_lock w vs lo range_end with
        | (w1, REND_SUCCESS) =>
            let '(w2, e) := unmap_runs (Z.to_nat page_num) w1 vs start 0 page_num in
            (radix_unlock w2 vs lo range_end, e)
        | (w1, _) => (w1, E_RENDEZVOS)
        end
    end.

(** ** Single pages *)

(** The error, or the page and its flags. *)
Definition linux_mm_query_vaddr w vs va : error_t * (Z * pflags) :=
  if negb (vs_is_user w vs) then (E_IN_PARAM, (0, no_flags))
  else
    let page_va := page_round_down va in
    match radix_end_check page_va 1 with
    | None => (E_IN_PARAM, (0, no_flags))
    | Some page_end =>
        match radix_query w vs page_va page_end with
        | (REND_SUCCESS, fl) => (REND_SUCCESS, (page_va, fl))
        | (e, fl) => (e, (0, fl))
        end
    end.

Definition linux_mm_remap_user_leaf w vs va (new_ppn : Z) fl (old_ppn : Z) : W * error_t :=
  if negb (vs_is_user w vs) then (w, E_IN_PARAM)
  else
    let page_va := page_round_down va in
    match radix_end_check page_va 1 with
    | None => (w, E_IN_PARAM)
    | Some page_end =>
        let lo := linux_mm_l0_lock_lo page_va in
        match radix_lock w vs lo page_end with
        | (w1, REND_SUCCESS) =>
            let '(w2, e) := remap_page w1 vs page_va new_ppn fl old_ppn in
            (radix_unlock w2 vs lo page_end, e)
        | (w1, _) => (w1, E_RENDEZVOS)
        end
    end.

(** The flags of the private copy: those of the radix tree, with write. *)
Definition cow_new_flags fl : pflags :=
  let f := rm_sw_flags fl in PFlags true (f_user f) true true (f_exec f) (f_lazy f) (f_cow f) (f_remap f).

Definition linux_mm_cow_split_page w vs va : W * error_t :=
  if negb (vs_is_user w vs) then (w, E_IN_PARAM)
  else
    let page_va := page_round_down va in
    let '(w1, r) := have_mapped w vs (VPN page_va) true in
    match r with
    | None => (w1, REND_SUCCESS)
    | Some (old_ppn, pt, _) =>
        if negb (f_valid pt) then (w1, REND_SUCCESS)
        else if f_write pt then (pmm_free1 w1 old_ppn, REND_SUCCESS)
        else
          match linux_mm_query_vaddr w1 vs page_va with
          | (REND_SUCCESS, (_, radix)) =>
              if negb (f_write radix) then (pmm_free1 w1 old_ppn, E_IN_PARAM)
              else
                match pmm_alloc1 w1 with
                | (w2, None) => (pmm_free1 w2 old_ppn, E_RENDEZVOS)
                | (w2, Some new_ppn) =>
                    match copy_page w2 new_ppn old_ppn with
                    | (w3, REND_SUCCESS) =>
                        let '(w4, e) := linux_mm_remap_user_leaf w3 vs page_va new_ppn (cow_new_flags radix) old_ppn in
                        let w5 := pmm_free1 w4 old_ppn in
                        if bool_decide (e = REND_SUCCESS) then (w5, REND_SUCCESS) else (pmm_free1 w5 new_ppn, e)
                    | (w3, e) => (pmm_free1 (pmm_free1 w3 new_ppn) old_ppn, e)
                    end
                end
          | (e, _) => (pmm_free1 w1 old_ppn, e)
          end
    end.

Fixpoint split_pages (n : nat) w vs page : W :=
  match n with
  | O => w
  | S n' =>
      if page <? PAGE_SIZE then w
      else split_pages n' (linux_mm_cow_split_page w vs page).1 vs (page - PAGE_SIZE)
  end.

(** [scratch]: the stack pointer the last system call entry saved. *)
Definition linux_mm_cow_break_user_stack w vs (user_sp scratch : Z) : W :=
  if negb (vs_is_user w vs) || (user_sp <? PAGE_SIZE) then w
  else
    let sp := if PAGE_SIZE <=? scratch then scratch else user_sp in
    split_pages 4 w vs (page_round_down sp).

Definition linux_mm_leaf_pte_flags fl : pflags :=
  let p := rm_sw_flags fl in
  PFlags true (f_user p) (f_read p) (if f_cow fl then false else f_write p) (f_exec p) false false false.

Definition linux_mm_reinstall_user_pte w vs va : W * error_t :=
  if negb (vs_is_user w vs) then (w, E_IN_PARAM)
  else
    let page_va := page_round_down va in
    match radix_end_check page_va 1 with
    | None => (w, E_IN_PARAM)
    | Some page_end =>
        let lo := linux_mm_l0_lock_lo page_va in
        match radix_lock w vs lo page_end with
        | (w1, REND_SUCCESS) =>
            let '(w2, e) :=
              match radix_leaf w1 vs page_va page_end with
              | Some (leaf_va, fl, Some frame) =>
                  if negb (leaf_va =? page_va) || negb (f_valid fl) then (w1, E_REND_NOFOUND)
                  else
                    let '(w2, r) := have_mapped w1 vs (VPN page_va) false in
                    let ppn := match r with
                               | Some (ppn, pt, _) => if f_valid pt then Some ppn else frame
                               | None => frame
                               end in
                    match ppn with
                    | None => (w2, E_REND_NOFOUND)
                    | Some ppn => map_pte w2 vs ppn (VPN page_va) (linux_mm_leaf_pte_flags fl)
                    end
              | _ => (w1, E_REND_NOFOUND)
              end in
            (radix_unlock w2 vs lo page_end, e)
        | (w1, _) => (w1, E_RENDEZVOS)
        end
    end.

Fixpoint reinstall_pages (n : nat) w vs va : W * error_t :=
  match n with
  | O => (w, REND_SUCCESS)
  | S n' =>
      match linux_mm_reinstall_user_pte w vs va with
      | (w1, (REND_SUCCESS | E_REND_NOFOUND)) => reinstall_pages n' w1 vs (va + PAGE_SIZE)
      | (w1, e) => (w1, e)
      end
  end.

(** At most [fuel] intervals. *)
Fixpoint sync_intervals (fuel : nat) w vs (iter bound : Z) : W * error_t :=
  if bound <=? iter then (w, REND_SUCCESS)
  else
    match fuel with
    | O => (w, REND_SUCCESS)
    | S fuel' =>
        match radix_interval w vs iter bound with
        | None => (w, REND_SUCCESS)
        | Some (rs, re, fl) =>
            if (re <=? rs) || (rs <? iter) then (w, REND_SUCCESS)
            else
              let '(w1, e) :=
                if f_valid fl && f_cow fl
                then reinstall_pages (Z.to_nat ((re - rs + PAGE_SIZE - 1) `div` PAGE_SIZE)) w vs rs
                else (w, REND_SUCCESS) in
              if bool_decide (e = REND_SUCCESS) then sync_intervals fuel' w1 vs re bound else (w1, e)
        end
    end.

Definition linux_mm_sync_cow_ptes (fuel : nat) w vs : W * error_t :=
  if negb (vs_is_user w vs) then (w, E_IN_PARAM) else sync_intervals fuel w vs PAGE_SIZE (u64 (user_space_top + 1)).

(** ** Copying *)

(** [src] is [None] for a null pointer. *)
Definition linux_mm_store_to_user w vs (user_va : Z) (src : ptr (list Z)) : W * error_t :=
  match src with
  | None => (w, E_IN_PARAM)
  | Some bytes => user_store w vs user_va bytes
  end.

Definition linux_mm_load_from_user w vs (user_va len : Z) : error_t * list Z := user_load w vs user_va len.

(** One round: [chunk] bytes from [sva] to [dva], both pages pinned. *)
Definition copy_chunk w vs (sva dva chunk : Z) : W * error_t :=
  let sp := page_round_down sva in
  let dp := page_round_down dva in
  let '(w1, rs) := have_mapped w vs (VPN sp) true in
  match rs with
  | Some (sppn, _, 3) =>
      let '(w2, rd) := have_mapped w1 vs (VPN dp) true in
      match rd with
      | Some (dppn, _, 3) =>
          let '(w3, e) := copy_data_range w2 (PADDR dppn + (dva - dp)) (PADDR sppn + (sva - sp)) chunk in
          (pmm_free1 (pmm_free1 w3 dppn) sppn, e)
      | _ => (pmm_free1 w2 sppn, E_RENDEZVOS)
      end
  | _ => (w1, E_RENDEZVOS)
  end.

Fixpoint copy_chunks (fuel : nat) w vs (dst src done len : Z) : W * error_t :=
  if len <=? done then (w, REND_SUCCESS)
  else
    match fuel with
    | O => (w, E_RENDEZVOS)
    | S fuel' =>
        let sva := u64 (src + done) in
        let dva := u64 (dst + done) in
        let so := sva - page_round_down sva in
        let doff := dva - page_round_down dva in
        let chunk := Z.min (PAGE_SIZE - Z.max so doff) (len - done) in
        match copy_chunk w vs sva dva chunk with
        | (w1, REND_SUCCESS) => copy_chunks fuel' w1 vs dst src (done + chunk) len
        | (w1, e) => (w1, e)
        end
    end.

Definition linux_mm_copy_user_range w vs (dst src len : Z) : W * error_t :=
  if len =? 0 then (w, REND_SUCCESS)
  else if negb (vs_is_user w vs) then (w, E_IN_PARAM)
  else copy_chunks (Z.to_nat len) w vs dst src 0 len.

(** ** Protection *)

Fixpoint update_intervals (fuel : nat) w vs (iter end_va : Z) fl : W * error_t :=
  if end_va <=? iter then (w, REND_SUCCESS)
  else
    match fuel with
    | O => (w, E_IN_PARAM)
    | S fuel' =>
        match radix_interval w vs iter end_va with
        | None => (w, E_IN_PARAM)
        | Some (sub_start, sub_end, _) =>
            if iter <? sub_start then (w, E_IN_PARAM)
            else
              let sub_end := if end_va <? sub_end then end_va else sub_end in
              if sub_end <=? sub_start then (w, E_IN_PARAM)
              else
                match set_range_flags w vs sub_start (sub_end - sub_start) fl with
                | (w1, REND_SUCCESS) => update_intervals fuel' w1 vs sub_end end_va fl
                | (w1, e) => (w1, e)
                end
        end
    end.

(** At most one round per byte: every interval has at least one. *)
Definition linux_mm_update_range_flags w vs (start0 length_bytes : Z) fl : W * error_t :=
  if negb (vs_is_user w vs) || (length_bytes =? 0) then (w, E_IN_PARAM)
  else
    let start := page_round_down start0 in
    let end_va := u64 (start + page_round_up length_bytes) in
    if end_va <=? start then (w, E_IN_PARAM)
    else
      let lo := linux_mm_l0_lock_lo start in
      match radix_lock w vs lo end_va with
      | (w1, REND_SUCCESS) =>
          let '(w2, e) := update_intervals (Z.to_nat (end_va - start)) w1 vs start end_va fl in
          (radix_unlock w2 vs lo end_va, e)
      | (w1, _) => (w1, E_RENDEZVOS)
      end.

(** ** Copying an address space for fork *)

(** The error and the child; [parent] is [None] for a null pointer. *)
Definition linux_copy_vspace w (parent : ptr Z) : W * (error_t * ptr Z) :=
  match parent with
  | None => (w, (E_IN_PARAM, None))
  | Some vs =>
      if negb (vs_is_user w vs) then (w, (E_IN_PARAM, None))
      else
        match clone_vspace w vs with
        | (w1, (REND_SUCCESS, child)) =>
            match register_vspace w1 child with
            | (w2, REND_SUCCESS) => (w2, (REND_SUCCESS, Some child))
            | (w2, e) => (del_vspace w2 child, (e, None))
            end
        | (w1, (e, _)) => (w1, (e, None))
        end
  end.
End mm.
