(* ===== verification/MmSys.v ===== *)
(** * Memory system calls and page faults

    [sys_mmap.c], [sys_mremap.c], [sys_brk.c], [sys_munmap.c],
    [sys_mprotect.c] and [linux_page_fault_irq.c] on top of [Mm].  A call gets
    the memory fields of the calling process ([None] when there is none) and
    its address space, and returns the fields as it leaves them. *)

From Stdlib Require Import Ascii.
From stdpp Require Import base numbers list gmap option.
From S2P Require Import Prelude PageSlice PortNames FdSlice Proc SigSet Mm.

(** Requests to the VFS server: the answer to [LSEEK] (handle, offset, whence)
    and to [READ] (handle, user address, length). *)
Class VfsFile (W : Type) : Type := {
  vfs_lseek : W → Z → Z → Z → W * Z;
  vfs_read : W → Z → Z → Z → W * Z;
}.

Definition with_brk (m : proc_mem) (b : Z) : proc_mem := ProcMem (start_brk m) b (mmap_hint m).
Definition with_hint (m : proc_mem) (h : Z) : proc_mem := ProcMem (start_brk m) (brk m) h.

Section mm_sys.
Context {W : Type} `{CM : CoreMM W}.
Implicit Types (w : W) (m : proc_mem) (vs : Z) (fl : pflags).

(** ** mmap *)

Definition linux_mmap_default_hint m : Z := u64 (page_round_up (brk m) + PAGE_SIZE).

(** The hint for the next call moves past a new range. *)
Definition raise_hint m (end_va : Z) : proc_mem := if mmap_hint m <? end_va then with_hint m end_va else m.

Fixpoint mmap_probes (n : nat) w m vs (hint len_aligned page_num : Z) fl : W * proc_mem * Z :=
  match n with
  | O => (w, m, u64 (- LINUX_ENOMEM))
  | S n' =>
      if (user_space_top <=? hint) || (u64 (hint + len_aligned) <? hint) || (user_space_top <? u64 (hint + len_aligned))
      then (w, m, u64 (- LINUX_ENOMEM))
      else
        match linux_mm_range_is_free w vs hint page_num with
        | (w1, true) =>
            match linux_mm_map_user_range w1 vs hint page_num fl with
            | (w2, p) =>
                if negb (p =? 0) then (w2, raise_hint m (u64 (p + len_aligned)), p)
                else mmap_probes n' w2 m vs (u64 (hint + PAGE_SIZE)) len_aligned page_num fl
            end
        | (w1, false) => mmap_probes n' w1 m vs (u64 (hint + PAGE_SIZE)) len_aligned page_num fl
        end
  end.

Definition linux_mmap_map_range w m vs (hint len_aligned page_num : Z) fl (fixed : bool) : W * proc_mem * Z :=
  if fixed then
    if negb (Z.land hint (PAGE_SIZE - 1) =? 0) then (w, m, u64 (- LINUX_EINVAL))
    else
      match linux_mm_map_user_range w vs hint page_num fl with
      | (w1, p) => if p =? 0 then (w1, m, u64 (- LINUX_ENOMEM)) else (w1, raise_hint m (u64 (p + len_aligned)), p)
      end
  else mmap_probes 256 w m vs hint len_aligned page_num fl.

Definition linux_mmap_pick_hint m (addr : Z) : Z :=
  if negb (addr =? 0) then page_round_down addr
  else if negb (mmap_hint m =? 0) then page_round_down (mmap_hint m)
  else linux_mmap_default_hint m.

Section files.
Context `{VF : VfsFile W}.

(** Undo the mapping and return [n]. *)
Definition mmap_undo w m vs (map_addr page_num n : Z) : W * proc_mem * Z :=
  ((linux_mm_unmap_user_range w vs map_addr page_num).1, m, u64 n).

(** [ent]: the entry of the descriptor. *)
Definition linux_mmap_file w m vs (ent : ptr linux_fd_entry) (addr len_aligned page_num : Z) fl (offset flags : Z)
    : W * proc_mem * Z :=
  let fixed := has flags LINUX_MAP_FIXED in
  match ent with
  | None => (w, m, u64 (- LINUX_EBADF))
  | Some e =>
      if bool_decide (fd_kind e ≠ LINUX_FD_VFS) || fd_is_dir e then (w, m, u64 (- LINUX_EBADF))
      else if negb (Z.land offset (PAGE_SIZE - 1) =? 0) then (w, m, u64 (- LINUX_EINVAL))
      else
        let '(w1, file_size) := vfs_lseek w (vfs_handle e) 0 2 in
        if file_size <? 0 then (w1, m, u64 file_size)
        else if file_size <? offset then (w1, m, u64 (- LINUX_EINVAL))
        else
          let hint := if fixed then addr else linux_mmap_pick_hint m addr in
          let '(w2, m2, map_addr) := linux_mmap_map_range w1 m vs hint len_aligned page_num fl fixed in
          if i64 map_addr <? 0 then (w2, m2, map_addr)
          else if file_size <=? offset then (w2, m2, map_addr)
          else
            let read_len := if file_size <? u64 (offset + len_aligned) then i64 (file_size - offset) else i64 len_aligned in
            if read_len <=? 0 then (w2, m2, map_addr)
            else
              let '(w3, n) := vfs_lseek w2 (vfs_handle e) offset 0 in
              if n <? 0 then mmap_undo w3 m2 vs map_addr page_num n
              else
                let '(w4, n) := vfs_read w3 (vfs_handle e) map_addr (u64 read_len) in
                if n <? 0 then mmap_undo w4 m2 vs map_addr page_num n else (w4, m2, map_addr)
  end.

(** [fd_get]: the descriptor table of the process. *)
Definition sys_mmap w (cur : ptr proc_mem) vs (fd_get : Z → ptr linux_fd_entry) (addr length prot flags fd offset : Z)
    : W * ptr proc_mem * Z :=
  if length =? 0 then (w, cur, u64 (- LINUX_EINVAL))
  else
    let len_aligned := page_round_up length in
    let page_num := len_aligned `div` PAGE_SIZE in
    if page_num =? 0 then (w, cur, u64 (- LINUX_EINVAL))
    else
      match cur with
      | None => (w, cur, u64 (- LINUX_ESRCH))
      | Some m =>
          if negb (vs_is_user w vs) then (w, cur, u64 (- LINUX_ESRCH))
          else
            let fl := linux_prot_to_page_flags prot in
            let fixed := has flags LINUX_MAP_FIXED in
            if negb (has flags LINUX_MAP_ANONYMOUS) then
              if fd <? 0 then (w, cur, u64 (- LINUX_EBADF))
              else
                let '(w', m', r) := linux_mmap_file w m vs (fd_get (i32 fd)) addr len_aligned page_num fl offset flags in
                (w', Some m', r)
            else if negb (fd =? -1) then (w, cur, u64 (- LINUX_EBADF))
            else if negb (offset =? 0) then (w, cur, u64 (- LINUX_EINVAL))
            else if (fixed || negb (addr =? 0)) && negb (Z.land addr (PAGE_SIZE - 1) =? 0) then (w, cur, u64 (- LINUX_EINVAL))
            else
              let hint := if fixed || negb (addr =? 0) then addr else linux_mmap_pick_hint m 0 in
              let '(w', m', r) := linux_mmap_map_range w m vs hint len_aligned page_num fl fixed in
              (w', Some m', r)
      end.
End files.

(** ** munmap, mprotect, brk *)

Definition sys_munmap w (has_proc : bool) vs (addr length : Z) : W * Z :=
  if length =? 0 then (w, - LINUX_EINVAL)
  else if negb (Z.land addr (PAGE_SIZE - 1) =? 0) then (w, - LINUX_EINVAL)
  else
    let page_num := i32 (page_round_up length `div` PAGE_SIZE) in
    if page_num <=? 0 then (w, - LINUX_EINVAL)
    else if negb has_proc || negb (vs_is_user w vs) then (w, - LINUX_ESRCH)
    else
      match linux_mm_unmap_user_range w vs addr page_num with
      | (w', REND_SUCCESS) => (w', 0)
      | (w', _) => (w', - LINUX_EINVAL)
      end.

Definition sys_mprotect w (has_proc : bool) vs (addr length prot : Z) : W * Z :=
  if length =? 0 then (w, 0)
  else if negb (Z.land addr (PAGE_SIZE - 1) =? 0) then (w, - LINUX_EINVAL)
  else
    let len_aligned := page_round_up length in
    if u64 (addr + len_aligned) <? addr then (w, - LINUX_EINVAL)
    else if negb has_proc || negb (vs_is_user w vs) then (w, - LINUX_ESRCH)
    else
      match linux_mm_update_range_flags w vs addr len_aligned (linux_prot_to_page_flags prot) with
      | (w', REND_SUCCESS) => (w', 0)
      | (w', _) => (w', - LINUX_EINVAL)
      end.

Definition sys_brk w (cur : ptr proc_mem) vs (new_brk : Z) : W * ptr proc_mem * Z :=
  match cur with
  | None => (w, None, 0)
  | Some m0 =>
      let m := if start_brk m0 =? 0 then ProcMem (brk m0) (brk m0) (mmap_hint m0) else m0 in
      if new_brk =? 0 then (w, Some m, brk m)
      else
        let old_aligned := page_round_up (brk m) in
        let new_aligned := page_round_up new_brk in
        if old_aligned <? new_aligned then
          match linux_mm_map_user_range w vs old_aligned ((new_aligned - old_aligned) `div` PAGE_SIZE) rw_flags with
          | (w', p) => if p =? 0 then (w', Some m, brk m) else (w', Some (with_brk m new_brk), new_brk)
          end
        else if new_aligned <? old_aligned then
          let w' := (linux_mm_unmap_user_range w vs new_aligned ((old_aligned - new_aligned) `div` PAGE_SIZE)).1 in
          (w', Some (with_brk m new_brk), new_brk)
        else (w, Some (with_brk m new_brk), new_brk)
  end.

(** ** mremap *)

Definition linux_user_va_range_ok (addr len : Z) : bool :=
  if len =? 0 then addr <? kernel_virt_offset
  else if kernel_virt_offset <=? addr then false
  else if (u64 (addr + len) <? addr) || (kernel_virt_offset <? u64 (addr + len)) then false
  else true.

Fixpoint pages_mapped w vs (va : Z) (n : nat) : bool :=
  match n with
  | O => true
  | S n' =>
      match linux_mm_query_vaddr w vs va with
      | (REND_SUCCESS, _) => pages_mapped w vs (u64 (va + PAGE_SIZE)) n'
      | _ => false
      end
  end.

Definition linux_mm_range_mapped w vs (addr len_bytes : Z) : bool :=
  if len_bytes =? 0 then false
  else
    let start := page_round_down addr in
    pages_mapped w vs start (Z.to_nat ((u64 (addr + len_bytes) - start + PAGE_SIZE - 1) `div` PAGE_SIZE)).

Definition linux_mremap_copy_mapped w vs (src dst len : Z) : W * error_t := linux_mm_copy_user_range w vs dst src len.

(** Growing by moving: map a new range, copy, drop the old one. *)
Definition mremap_move w m vs (old_address old_size old_size_aligned new_size_aligned : Z) : W * Z :=
  let search := u64 (page_round_up (brk m) + PAGE_SIZE) in
  let '(w1, new) := linux_mm_map_user_range_search w vs search (new_size_aligned `div` PAGE_SIZE) rw_flags 64 in
  if new =? 0 then (w1, - LINUX_ENOMEM)
  else
    match linux_mremap_copy_mapped w1 vs old_address new old_size with
    | (w2, REND_SUCCESS) =>
        ((linux_mm_unmap_user_range w2 vs old_address (old_size_aligned `div` PAGE_SIZE)).1, i64 new)
    | (w2, _) => ((linux_mm_unmap_user_range w2 vs new (new_size_aligned `div` PAGE_SIZE)).1, - LINUX_EFAULT)
    end.

Definition sys_mremap w (cur : ptr proc_mem) vs (old_address old_size new_size flags : Z) : W * Z :=
  if (old_size =? 0) || (new_size =? 0) then (w, - LINUX_EINVAL)
  else if negb (Z.land old_address (PAGE_SIZE - 1) =? 0) then (w, - LINUX_EINVAL)
  else if negb (Z.land flags (not64 LINUX_MREMAP_MAYMOVE) =? 0) then (w, - LINUX_EINVAL)
  else
    let old_size_aligned := page_round_up old_size in
    let new_size_aligned := page_round_up new_size in
    if negb (linux_user_va_range_ok old_address old_size_aligned) then (w, - LINUX_EINVAL)
    else
      match cur with
      | None => (w, - LINUX_ESRCH)
      | Some m =>
          if negb (vs_is_user w vs) then (w, - LINUX_ESRCH)
          else if negb (linux_mm_range_mapped w vs old_address old_size_aligned) then (w, - LINUX_EINVAL)
          else if new_size_aligned <? old_size_aligned then
            match linux_mm_unmap_user_range w vs (u64 (old_address + new_size_aligned))
                    ((old_size_aligned - new_size_aligned) `div` PAGE_SIZE) with
            | (w1, REND_SUCCESS) => (w1, i64 old_address)
            | (w1, _) => (w1, - LINUX_EINVAL)
            end
          else if new_size_aligned =? old_size_aligned then (w, i64 old_address)
          else
            let '(w1, p) := linux_mm_map_user_range w vs (u64 (old_address + old_size_aligned))
                              ((new_size_aligned - old_size_aligned) `div` PAGE_SIZE) rw_flags in
            if negb (p =? 0) then (w1, i64 old_address)
            else if negb (has flags LINUX_MREMAP_MAYMOVE) then (w1, - LINUX_ENOMEM)
            else mremap_move w1 m vs old_address old_size old_size_aligned new_size_aligned
      end.

(** ** Page faults *)

(** What the hardware reports. *)
Record trap_info : Type := TrapInfo {
  ti_addr : Z;
  ti_write : bool;
  ti_present : bool;
  ti_kernel : bool;
}.

(** The handler returns to the faulting instruction, raises [SIGSEGV] in the
    current process, or stops the kernel. *)
Inductive pf_outcome : Type := PfResume | PfSegv | PfPanic.

(** The end of a faulting user program: the signal is queued and delivered, or
    the process is killed with the code. *)
Inductive segv_outcome : Type := SegvDelivered | SegvFatal (code : Z).

(** [task]: there is a current process; [delivered]: a pending signal was
    delivered after [SIGSEGV] was queued. *)
Definition linux_compat_deliver_segv_or_fatal (task delivered : bool) : segv_outcome :=
  if task && delivered then SegvDelivered else SegvFatal (128 + SIGSEGV).

Definition pf_unhandled (i : trap_info) : pf_outcome := if ti_kernel i then PfPanic else PfSegv.

Definition linux_handle_cow_fault w (cur_vs : ptr Z) (fault_addr : Z) (is_write is_present : bool) : W * error_t :=
  match cur_vs with
  | None => (w, E_RENDEZVOS)
  | Some vs => if negb is_write || negb is_present then (w, E_RENDEZVOS) else linux_mm_cow_split_page w vs fault_addr
  end.

(** A page the radix tree knows and the page table does not. *)
Definition pf_fill w vs (aligned : Z) fl (i : trap_info) : W * pf_outcome :=
  if f_valid fl then
    match linux_mm_reinstall_user_pte w vs aligned with
    | (w1, REND_SUCCESS) => (w1, PfResume)
    | (w1, _) => (w1, pf_unhandled i)
    end
  else if f_write fl && negb (f_write fl) then (w, pf_unhandled i)
  else if f_exec fl && negb (f_exec fl) then (w, pf_unhandled i)
  else
    match radix_end_check aligned 1 with
    | None => (w, pf_unhandled i)
    | Some page_end =>
        let lo := linux_mm_l0_lock_lo aligned in
        match radix_lock w vs lo page_end with
        | (w1, REND_SUCCESS) =>
            let '(w2, e) := fill_page_with_exist_range w1 vs aligned fl in
            (radix_unlock w2 vs lo page_end, if bool_decide (e = REND_SUCCESS) then PfResume else pf_unhandled i)
        | (w1, _) => (w1, pf_unhandled i)
        end
    end.

Definition linux_trap_pf_handler w (cur_vs : ptr Z) (i : trap_info) : W * pf_outcome :=
  let aligned := page_round_down (ti_addr i) in
  if ti_addr i <? PAGE_SIZE then (w, pf_unhandled i)
  else
    match cur_vs with
    | None => (w, pf_unhandled i)
    | Some vs =>
        let '(w1, r) := have_mapped w vs (VPN aligned) false in
        let '(ne, (_, fl)) := linux_mm_query_vaddr w1 vs aligned in
        let in_radix := bool_decide (ne = REND_SUCCESS) in
        let page_mapped := match r with Some (_, pt, _) => f_valid pt | None => false end in
        let pte_write := match r with Some (_, pt, _) => f_write pt | None => false end in
        if negb page_mapped && in_radix then pf_fill w1 vs aligned fl i
        else if page_mapped && ti_write i && ti_present i && f_write fl && negb pte_write then
          if in_radix && f_write fl then
            match linux_handle_cow_fault w1 cur_vs (ti_addr i) (ti_write i) (ti_present i) with
            | (w2, REND_SUCCESS) => (w2, PfResume)
            | (w2, _) => (w2, pf_unhandled i)
            end
          else (w1, pf_unhandled i)
        else (w1, pf_unhandled i)
    end.
End mm_sys.
