(* ===== verification/MmSpec.v ===== *)
(** * The contract of page tables, radix tree and page allocator

    What [Mm] relies on, over a view of the core kernel's memory: the page
    tables and radix leaves of all address spaces, the allocated frames with
    the number of their owners and their bytes, and the radix locks held.  A
    frame is owned once by every leaf linked to it and once by every pin.
    [MmSim] has an implementation for evaluation. *)

From Stdlib Require Import Ascii.
From stdpp Require Import base numbers list gmap option.
From S2P Require Import Prelude PageSlice PortNames Proc Mm.

Abbreviation pkey := (Z * Z)%type.

Record mview : Type := MView {
  v_pte : gmap pkey (Z * pflags);
  v_leaf : gmap pkey (pflags * option Z);
  v_frames : gmap Z (nat * list Z);
  v_locks : list (Z * Z * Z);
}.

Definition with_pte v p := MView p (v_leaf v) (v_frames v) (v_locks v).
Definition with_leaf v l := MView (v_pte v) l (v_frames v) (v_locks v).
Definition with_frames v f := MView (v_pte v) (v_leaf v) f (v_locks v).
Definition with_locks v l := MView (v_pte v) (v_leaf v) (v_frames v) l.

(** One more owner, one owner less: the last one frees the frame. *)
Definition take_ref (f : gmap Z (nat * list Z)) (p : Z) : gmap Z (nat * list Z) :=
  match f !! p with Some (n, b) => <[p := (S n, b)]> f | None => f end.
Definition drop_ref (f : gmap Z (nat * list Z)) (p : Z) : gmap Z (nat * list Z) :=
  match f !! p with
  | Some (S (S n), b) => <[p := (S n, b)]> f
  | Some _ => delete p f
  | None => f
  end.

(** A page gets a new frame; a page is removed. *)
Definition install (hw : pflags → pflags) v vs vpn (fr : Z * list Z) fl : mview :=
  MView (<[(vs, vpn) := (fr.1, hw fl)]> (v_pte v)) (<[(vs, vpn) := (fl, Some fr.1)]> (v_leaf v))
        (<[fr.1 := (1%nat, fr.2)]> (v_frames v)) (v_locks v).
Definition remove v vs vpn p : mview :=
  MView (delete (vs, vpn) (v_pte v)) (delete (vs, vpn) (v_leaf v)) (drop_ref (v_frames v) p) (v_locks v).

Fixpoint install_run hw v vs vpn (frs : list (Z * list Z)) fl : mview :=
  match frs with
  | [] => v
  | fr :: frs' => install_run hw (install hw v vs vpn fr fl) vs (vpn + 1) frs' fl
  end.
Fixpoint remove_run v vs vpn p (n : nat) : mview :=
  match n with
  | O => v
  | S n' => remove_run (remove v vs vpn p) vs (vpn + 1) (p + 1) n'
  end.

(** Frames that are not in use. *)
Definition frame_ok (fr : Z * list Z) : Prop := 0 ≤ fr.1 < 2 ^ 52 ∧ length fr.2 = Z.to_nat PAGE_SIZE.
Definition fresh_frames v (frs : list (Z * list Z)) : Prop :=
  NoDup frs.*1 ∧ ∀ fr, fr ∈ frs → v_frames v !! fr.1 = None ∧ frame_ok fr.
(** [n] pages of consecutive frames, all linked. *)
Definition run_mapped v vs vpn p (n : nat) : Prop :=
  ∀ i, (i < n)%nat → ∃ pt lf,
    v_pte v !! (vs, vpn + Z.of_nat i) = Some (p + Z.of_nat i, pt)
    ∧ v_leaf v !! (vs, vpn + Z.of_nat i) = Some (lf, Some (p + Z.of_nat i)).
Definition run_free v vs vpn (n : nat) : Prop :=
  ∀ i, (i < n)%nat → v_pte v !! (vs, vpn + Z.of_nat i) = None ∧ v_leaf v !! (vs, vpn + Z.of_nat i) = None.

(** [dst] gets [len] bytes of [src]. *)
Definition splice (dst : list Z) (doff : nat) (src : list Z) (soff len : nat) : list Z :=
  take doff dst ++ take len (drop soff src) ++ drop (doff + len) dst.

(** The bytes of frame [p] are replaced. *)
Definition set_bytes (f : gmap Z (nat * list Z)) (p : Z) (b : list Z) : gmap Z (nat * list Z) :=
  match f !! p with Some (n, _) => <[p := (n, b)]> f | None => f end.

(** The flags of a leaf that is linked to a frame on demand. *)
Definition bound_flags fl : pflags :=
  PFlags true (f_user fl) (f_read fl) (f_write fl) (f_exec fl) false (f_cow fl) (f_remap fl).

(** What a clone makes of a page table entry and of a leaf: shared pages are
    read-only, and the leaf of a writable one is marked for copying. *)
Definition ro_pte (e : Z * pflags) : Z * pflags :=
  (e.1, let fl := e.2 in PFlags (f_valid fl) (f_user fl) (f_read fl) false (f_exec fl) (f_lazy fl) (f_cow fl) (f_remap fl)).
Definition cow_leaf (e : pflags * option Z) : pflags * option Z :=
  let fl := e.1 in
  match e.2 with
  | Some _ => (PFlags (f_valid fl) (f_user fl) (f_read fl) (f_write fl) (f_exec fl) (f_lazy fl) (f_cow fl || f_write fl) (f_remap fl), e.2)
  | None => e
  end.

(** The leaves linked to frame [p], in all address spaces or in [vs]; the
    owners of a frame. *)
Definition linked (l : gmap pkey (pflags * option Z)) (p : Z) : nat :=
  size (filter (λ e : pkey * (pflags * option Z), e.2.2 = Some p) l).
Definition linked_in (l : gmap pkey (pflags * option Z)) (vs p : Z) : nat :=
  linked (filter (λ e : pkey * (pflags * option Z), e.1.1 = vs) l) p.
Definition refs (f : gmap Z (nat * list Z)) (p : Z) : nat := match f !! p with Some (n, _) => n | None => O end.
Definition bytes_of (f : gmap Z (nat * list Z)) (p : Z) : option (list Z) := snd <$> f !! p.

Record cloned (v v' : mview) (vs child : Z) : Prop := {
  cl_new vpn : v_pte v !! (child, vpn) = None ∧ v_leaf v !! (child, vpn) = None;
  cl_pte s vpn : v_pte v' !! (s, vpn) =
    if decide (s = vs ∨ s = child) then ro_pte <$> v_pte v !! (vs, vpn) else v_pte v !! (s, vpn);
  cl_leaf s vpn : v_leaf v' !! (s, vpn) =
    if decide (s = vs ∨ s = child) then cow_leaf <$> v_leaf v !! (vs, vpn) else v_leaf v !! (s, vpn);
  cl_frames p : v_frames v' !! p = (λ e : nat * list Z, ((e.1 + linked_in (v_leaf v) vs p)%nat, e.2)) <$> v_frames v !! p;
  cl_locks : v_locks v' = v_locks v;
}.

(** Address space [vs] is torn down. *)
Record deleted (v v' : mview) (vs : Z) : Prop := {
  de_pte s vpn : v_pte v' !! (s, vpn) = if decide (s = vs) then None else v_pte v !! (s, vpn);
  de_leaf s vpn : v_leaf v' !! (s, vpn) = if decide (s = vs) then None else v_leaf v !! (s, vpn);
  de_frames p : v_frames v' !! p =
    (v_frames v !! p) ≫= λ e, if decide (e.1 ≤ linked_in (v_leaf v) vs p)%nat then None
                                 else Some ((e.1 - linked_in (v_leaf v) vs p)%nat, e.2);
  de_locks : v_locks v' = v_locks v;
}.

(** The flags of [n] pages are set, in the page table and in the leaves. *)
Record flags_set (hw : pflags → pflags) (v v' : mview) (vs vpn n : Z) (fl : pflags) : Prop := {
  fs_pte s m : v_pte v' !! (s, m) =
    if decide (s = vs ∧ vpn ≤ m < vpn + n) then (λ e : Z * pflags, (e.1, hw fl)) <$> v_pte v !! (s, m) else v_pte v !! (s, m);
  fs_leaf s m : v_leaf v' !! (s, m) =
    if decide (s = vs ∧ vpn ≤ m < vpn + n) then (λ e : pflags * option Z, (fl, e.2)) <$> v_leaf v !! (s, m) else v_leaf v !! (s, m);
  fs_frames : v_frames v' = v_frames v;
  fs_locks : v_locks v' = v_locks v;
}.

Class CoreMMLaws (W : Type) `{CM : CoreMM W} : Type := {
  mv : W → mview;
  uspaces : W → gset Z;
  vs_is_user_spec w vs : vs_is_user w vs = bool_decide (vs ∈ uspaces w);
  have_mapped_spec w vs vpn pin w' r : have_mapped w vs vpn pin = (w', r) →
    uspaces w' = uspaces w
    ∧ r = (λ e : Z * pflags, (e.1, e.2, 3)) <$> v_pte (mv w) !! (vs, vpn)
    ∧ mv w' = match pin, v_pte (mv w) !! (vs, vpn) with
              | true, Some (p, _) => with_frames (mv w) (take_ref (v_frames (mv w)) p)
              | _, _ => mv w
              end;
  pmm_alloc1_spec w w' r : pmm_alloc1 w = (w', r) →
    uspaces w' = uspaces w
    ∧ match r with
      | None => mv w' = mv w
      | Some p => v_frames (mv w) !! p = None
                  ∧ ∃ b, frame_ok (p, b) ∧ mv w' = with_frames (mv w) (<[p := (1%nat, b)]> (v_frames (mv w)))
      end;
  pmm_free1_spec w p : uspaces (pmm_free1 w p) = uspaces w
    ∧ mv (pmm_free1 w p) = with_frames (mv w) (drop_ref (v_frames (mv w)) p);
  radix_end_check_spec va n e : radix_end_check va n = Some e → e = va + n * PAGE_SIZE ∧ e ≤ 2 ^ 64;
  radix_lock_spec w vs lo hi w' e : radix_lock w vs lo hi = (w', e) →
    uspaces w' = uspaces w
    ∧ mv w' = if decide (e = REND_SUCCESS) then with_locks (mv w) ((vs, lo, hi) :: v_locks (mv w)) else mv w;
  radix_unlock_spec w vs lo hi l : v_locks (mv w) = (vs, lo, hi) :: l →
    uspaces (radix_unlock w vs lo hi) = uspaces w ∧ mv (radix_unlock w vs lo hi) = with_locks (mv w) l;
  radix_query_spec w vs va e fl : va `mod` PAGE_SIZE = 0 → radix_query w vs va (va + PAGE_SIZE) = (e, fl) →
    if decide (e = REND_SUCCESS) then ∃ p, v_leaf (mv w) !! (vs, VPN va) = Some (fl, p)
    else v_leaf (mv w) !! (vs, VPN va) = None;
  radix_leaf_spec w vs va : va `mod` PAGE_SIZE = 0 →
    match radix_leaf w vs va (va + PAGE_SIZE) with
    | Some (lva, fl, lk) => lva = va ∧ ∃ o, v_leaf (mv w) !! (vs, VPN va) = Some (fl, o)
        ∧ match lk with None => o = None | Some None => is_Some o | Some (Some p) => o = Some p end
    | None => v_leaf (mv w) !! (vs, VPN va) = None
    end;
  set_range_and_fill_spec w vs va n fl w' ok : va `mod` PAGE_SIZE = 0 → 0 < n →
    set_range_and_fill w vs va n fl = (w', ok) →
    uspaces w' = uspaces w
    ∧ if ok
      then run_free (mv w) vs (VPN va) (Z.to_nat n)
           ∧ ∃ frs, length frs = Z.to_nat n ∧ fresh_frames (mv w) frs
                    ∧ mv w' = install_run rm_sw_flags (mv w) vs (VPN va) frs fl
      else mv w' = mv w;
  clean_range_and_unfill_spec w vs va n p : va `mod` PAGE_SIZE = 0 → 0 < n →
    run_mapped (mv w) vs (VPN va) p (Z.to_nat n) →
    ∃ w', clean_range_and_unfill w vs va n p = (w', REND_SUCCESS)
          ∧ uspaces w' = uspaces w ∧ mv w' = remove_run (mv w) vs (VPN va) p (Z.to_nat n);
  fill_page_spec w vs va fl w' e : va `mod` PAGE_SIZE = 0 →
    fill_page_with_exist_range w vs va fl = (w', e) →
    uspaces w' = uspaces w
    ∧ if decide (e = REND_SUCCESS)
      then (v_pte (mv w) !! (vs, VPN va) = None ∧ ∃ lf, v_leaf (mv w) !! (vs, VPN va) = Some (lf, None))
           ∧ ∃ fr, fresh_frames (mv w) [fr] ∧ mv w' = install rm_sw_flags (mv w) vs (VPN va) fr (bound_flags fl)
      else mv w' = mv w;
  remap_page_spec w vs va new fl old w' e : va `mod` PAGE_SIZE = 0 →
    remap_page w vs va new fl old = (w', e) →
    uspaces w' = uspaces w
    ∧ if decide (e = REND_SUCCESS)
      then (∃ pt lf, v_pte (mv w) !! (vs, VPN va) = Some (old, pt) ∧ v_leaf (mv w) !! (vs, VPN va) = Some (lf, Some old))
           ∧ mv w' = MView (<[(vs, VPN va) := (new, rm_sw_flags fl)]> (v_pte (mv w)))
                           (<[(vs, VPN va) := (fl, Some new)]> (v_leaf (mv w)))
                           (drop_ref (v_frames (mv w)) old) (v_locks (mv w))
      else mv w' = mv w;
  radix_interval_spec w vs lo hi s e fl : lo `mod` PAGE_SIZE = 0 → radix_interval w vs lo hi = Some (s, e, fl) →
    lo ≤ s < e ∧ s `mod` PAGE_SIZE = 0 ∧ e `mod` PAGE_SIZE = 0;
  set_range_flags_spec w vs va n fl w' e : va `mod` PAGE_SIZE = 0 → 0 < n →
    set_range_flags w vs va (n * PAGE_SIZE) fl = (w', e) →
    uspaces w' = uspaces w
    ∧ if decide (e = REND_SUCCESS) then flags_set rm_sw_flags (mv w) (mv w') vs (VPN va) n fl else mv w' = mv w;
  map_pte_spec w vs p vpn fl w' e : map_pte w vs p vpn fl = (w', e) →
    uspaces w' = uspaces w
    ∧ mv w' = if decide (e = REND_SUCCESS) then with_pte (mv w) (<[(vs, vpn) := (p, fl)]> (v_pte (mv w))) else mv w;
  copy_page_spec w dst src w' e nd bd ns bs : copy_page w dst src = (w', e) → dst ≠ src →
    v_frames (mv w) !! dst = Some (nd, bd) → v_frames (mv w) !! src = Some (ns, bs) →
    uspaces w' = uspaces w ∧ ∃ b, length b = length bd ∧ (e = REND_SUCCESS → b = bs)
      ∧ mv w' = with_frames (mv w) (set_bytes (v_frames (mv w)) dst b);
  copy_data_range_spec w dst doff src soff len w' e nd bd ns bs :
    copy_data_range w (PADDR dst + doff) (PADDR src + soff) len = (w', e) →
    0 ≤ dst < 2 ^ 52 → 0 ≤ src < 2 ^ 52 → 0 < len → 0 ≤ doff → 0 ≤ soff →
    doff + len ≤ PAGE_SIZE → soff + len ≤ PAGE_SIZE →
    v_frames (mv w) !! dst = Some (nd, bd) → v_frames (mv w) !! src = Some (ns, bs) →
    uspaces w' = uspaces w ∧ ∃ b, length b = length bd
      ∧ (e = REND_SUCCESS → dst ≠ src → b = splice bd (Z.to_nat doff) bs (Z.to_nat soff) (Z.to_nat len))
      ∧ mv w' = with_frames (mv w) (set_bytes (v_frames (mv w)) dst b);
  clone_vspace_spec w vs w' e child : clone_vspace w vs = (w', (e, child)) →
    if decide (e = REND_SUCCESS)
    then child ∉ uspaces w ∧ child ≠ vs ∧ uspaces w' = uspaces w ∪ {[child]} ∧ cloned (mv w) (mv w') vs child
    else uspaces w' = uspaces w ∧ mv w' = mv w;
  register_vspace_spec w vs w' e : register_vspace w vs = (w', e) → uspaces w' = uspaces w ∧ mv w' = mv w;
  del_vspace_spec w vs : uspaces (del_vspace w vs) = uspaces w ∖ {[vs]} ∧ deleted (mv w) (mv (del_vspace w vs)) vs;
  rm_sw_flags_spec fl : rm_sw_flags fl =
    PFlags (f_valid fl) (f_user fl) (f_read fl) (f_write fl) (f_exec fl) false false false;
}.
