(* ===== verification/MmSim.v ===== *)
(** * A memory system to evaluate

    An implementation of the contract of [MmSpec] on the view itself: frames
    are handed out in order up to a limit, locks are always granted. *)

From Stdlib Require Import Ascii.
From stdpp Require Import base numbers list gmap option.
From S2P Require Import Prelude PageSlice PortNames Proc Mm MmSpec.

Record sim : Type := Sim {
  sm_v : mview;
  sm_us : gset Z;
  sm_next : Z;
  sm_limit : Z;
}.

Definition sim_set (w : sim) (v : mview) : sim := Sim v (sm_us w) (sm_next w) (sm_limit w).
Definition zero_page : list Z := replicate (Z.to_nat PAGE_SIZE) 0.

(** The next [n] frames, when there are as many. *)
Definition sim_take (w : sim) (n : Z) : option (list (Z * list Z)) :=
  let ps := seqZ (sm_next w) n in
  if decide (0 ≤ sm_next w ∧ sm_next w + n ≤ sm_limit w ∧ sm_next w + n ≤ 2 ^ 52
             ∧ Forall (λ p, v_frames (sm_v w) !! p = None) ps)
  then Some ((λ p, (p, zero_page)) <$> ps) else None.

(** The keys of two address spaces exchanged. *)
Definition swap_space (a b : Z) (k : pkey) : pkey :=
  if decide (k.1 = a) then (b, k.2) else if decide (k.1 = b) then (a, k.2) else k.

#[global] Instance swap_space_inj a b : Inj (=) (=) (swap_space a b).
Proof.
  intros [s n] [s' n']. unfold swap_space. cbn. intros. repeat case_decide; simplify_eq/=; congruence.
Qed.

Definition clone_map {A} (f : A → A) (vs child : Z) (m : gmap pkey A) : gmap pkey A :=
  kmap (swap_space vs child) (f <$> filter (λ e : pkey * A, e.1.1 = vs) m)
  ∪ map_imap (λ k e, Some (if decide (k.1 = vs) then f e else e)) m.

Definition sim_clone (w : sim) (vs : Z) : sim * (error_t * Z) :=
  let v := sm_v w in
  let child := fresh (sm_us w ∪ set_map fst (dom (v_pte v) ∪ dom (v_leaf v)) ∪ {[vs]}) in
  (Sim (MView (clone_map ro_pte vs child (v_pte v)) (clone_map cow_leaf vs child (v_leaf v))
              (map_imap (λ p e, Some ((e.1 + linked_in (v_leaf v) vs p)%nat, e.2)) (v_frames v)) (v_locks v))
       (sm_us w ∪ {[child]}) (sm_next w) (sm_limit w),
   (REND_SUCCESS, child)).

Definition sim_del (w : sim) (vs : Z) : sim :=
  let v := sm_v w in
  Sim (MView (filter (λ e : pkey * _, e.1.1 ≠ vs) (v_pte v)) (filter (λ e : pkey * _, e.1.1 ≠ vs) (v_leaf v))
             (map_imap (λ p e, if decide (e.1 ≤ linked_in (v_leaf v) vs p)%nat then None
                                else Some ((e.1 - linked_in (v_leaf v) vs p)%nat, e.2)) (v_frames v)) (v_locks v))
      (sm_us w ∖ {[vs]}) (sm_next w) (sm_limit w).

Definition run_free_b v vs vpn (n : nat) : bool :=
  forallb (λ i, match v_pte v !! (vs, vpn + Z.of_nat i), v_leaf v !! (vs, vpn + Z.of_nat i) with
                | None, None => true
                | _, _ => false
                end) (seq 0 n).
Definition run_mapped_b v vs vpn p (n : nat) : bool :=
  forallb (λ i, match v_pte v !! (vs, vpn + Z.of_nat i), v_leaf v !! (vs, vpn + Z.of_nat i) with
                | Some (q, _), Some (_, Some q') => (q =? p + Z.of_nat i) && (q' =? p + Z.of_nat i)
                | _, _ => false
                end) (seq 0 n).

Lemma run_free_b_spec v vs vpn n : run_free_b v vs vpn n = true → run_free v vs vpn n.
Proof.
  unfold run_free_b. rewrite forallb_forall. intros H i Hi. specialize (H i).
  rewrite in_seq in H. specialize (H ltac:(lia)). by repeat case_match.
Qed.

Lemma run_mapped_b_spec v vs vpn p n : run_mapped v vs vpn p n → run_mapped_b v vs vpn p n = true.
Proof.
  unfold run_mapped_b. rewrite forallb_forall. intros H i Hi. apply in_seq in Hi.
  destruct (H i) as (pt & lf & -> & ->); [lia|]. by rewrite !Z.eqb_refl.
Qed.

Definition sim_fill (w : sim) (vs va n : Z) (fl : pflags) : sim * bool :=
  match sim_take w n with
  | Some frs =>
      if run_free_b (sm_v w) vs (VPN va) (Z.to_nat n)
      then (Sim (install_run (λ fl, PFlags (f_valid fl) (f_user fl) (f_read fl) (f_write fl) (f_exec fl) false false false)
                  (sm_v w) vs (VPN va) frs fl) (sm_us w) (sm_next w + n) (sm_limit w), true)
      else (w, false)
  | None => (w, false)
  end.

Definition sim_fill_page (w : sim) (vs va : Z) (fl : pflags) : sim * error_t :=
  match sim_take w 1, v_pte (sm_v w) !! (vs, VPN va), v_leaf (sm_v w) !! (vs, VPN va) with
  | Some [fr], None, Some (_, None) =>
      (Sim (install (λ fl, PFlags (f_valid fl) (f_user fl) (f_read fl) (f_write fl) (f_exec fl) false false false)
             (sm_v w) vs (VPN va) fr (bound_flags fl)) (sm_us w) (sm_next w + 1) (sm_limit w), REND_SUCCESS)
  | _, _, _ => (w, E_RENDEZVOS)
  end.

Definition sim_remap (w : sim) (vs va new : Z) (fl : pflags) (old : Z) : sim * error_t :=
  let v := sm_v w in
  match v_pte v !! (vs, VPN va), v_leaf v !! (vs, VPN va) with
  | Some (q, _), Some (_, Some q') =>
      if (q =? old) && (q' =? old)
      then (sim_set w (MView (<[(vs, VPN va) := (new, PFlags (f_valid fl) (f_user fl) (f_read fl) (f_write fl) (f_exec fl) false false false)]> (v_pte v))
                             (<[(vs, VPN va) := (fl, Some new)]> (v_leaf v)) (drop_ref (v_frames v) old) (v_locks v)), REND_SUCCESS)
      else (w, E_RENDEZVOS)
  | _, _ => (w, E_RENDEZVOS)
  end.

Definition sim_copy (w : sim) (d s len : Z) : sim * error_t :=
  let f := v_frames (sm_v w) in
  match f !! (d `div` PAGE_SIZE), f !! (s `div` PAGE_SIZE) with
  | Some (_, bd), Some (_, bs) =>
      let b := splice bd (Z.to_nat (d `mod` PAGE_SIZE)) bs (Z.to_nat (s `mod` PAGE_SIZE)) (Z.to_nat len) in
      if decide (length b = length bd)
      then (sim_set w (with_frames (sm_v w) (set_bytes f (d `div` PAGE_SIZE) b)), REND_SUCCESS)
      else (w, E_RENDEZVOS)
  | _, _ => (w, E_RENDEZVOS)
  end.

Definition sim_flags (v : mview) (vs vpn n : Z) (fl : pflags) : mview :=
  MView (map_imap (λ k e, Some (if decide (k.1 = vs ∧ vpn ≤ k.2 < vpn + n)
           then (e.1, PFlags (f_valid fl) (f_user fl) (f_read fl) (f_write fl) (f_exec fl) false false false) else e)) (v_pte v))
        (map_imap (λ k e, Some (if decide (k.1 = vs ∧ vpn ≤ k.2 < vpn + n) then (fl, e.2) else e)) (v_leaf v))
        (v_frames v) (v_locks v).

#[global] Instance sim_core : CoreMM sim := {
  vs_is_user w vs := bool_decide (vs ∈ sm_us w);
  have_mapped w vs vpn pin :=
    match v_pte (sm_v w) !! (vs, vpn) with
    | Some (p, fl) => (if pin then sim_set w (with_frames (sm_v w) (take_ref (v_frames (sm_v w)) p)) else w, Some (p, fl, 3))
    | None => (w, None)
    end;
  pmm_alloc1 w :=
    match sim_take w 1 with
    | Some [(p, b)] => (Sim (with_frames (sm_v w) (<[p := (1%nat, b)]> (v_frames (sm_v w)))) (sm_us w) (sm_next w + 1) (sm_limit w), Some p)
    | _ => (w, None)
    end;
  pmm_free1 w p := sim_set w (with_frames (sm_v w) (drop_ref (v_frames (sm_v w)) p));
  radix_end_check va n := if va + n * PAGE_SIZE <=? 2 ^ 47 then Some (va + n * PAGE_SIZE) else None;
  radix_lock w vs lo hi := (sim_set w (with_locks (sm_v w) ((vs, lo, hi) :: v_locks (sm_v w))), REND_SUCCESS);
  radix_unlock w vs lo hi := sim_set w (with_locks (sm_v w) (tail (v_locks (sm_v w))));
  radix_query w vs va hi :=
    match v_leaf (sm_v w) !! (vs, VPN va) with Some (fl, _) => (REND_SUCCESS, fl) | None => (E_REND_NOFOUND, no_flags) end;
  radix_interval w vs lo hi :=
    match v_leaf (sm_v w) !! (vs, VPN lo) with Some (fl, _) => Some (lo, lo + PAGE_SIZE, fl) | None => None end;
  radix_leaf w vs va hi :=
    match v_leaf (sm_v w) !! (vs, VPN va) with Some (fl, o) => Some (va, fl, Some <$> o) | None => None end;
  set_range_and_fill := sim_fill;
  clean_range_and_unfill w vs va n p :=
    if run_mapped_b (sm_v w) vs (VPN va) p (Z.to_nat n)
    then (sim_set w (remove_run (sm_v w) vs (VPN va) p (Z.to_nat n)), REND_SUCCESS) else (w, E_RENDEZVOS);
  fill_page_with_exist_range := sim_fill_page;
  remap_page := sim_remap;
  set_range_flags w vs va len fl := (sim_set w (sim_flags (sm_v w) vs (VPN va) (len `div` PAGE_SIZE) fl), REND_SUCCESS);
  map_pte w vs p vpn fl := (sim_set w (with_pte (sm_v w) (<[(vs, vpn) := (p, fl)]> (v_pte (sm_v w)))), REND_SUCCESS);
  copy_data_range := sim_copy;
  copy_page w d s :=
    match v_frames (sm_v w) !! d, v_frames (sm_v w) !! s with
    | Some (_, bd), Some (_, bs) =>
        if decide (length bs = length bd)
        then (sim_set w (with_frames (sm_v w) (set_bytes (v_frames (sm_v w)) d bs)), REND_SUCCESS) else (w, E_RENDEZVOS)
    | _, _ => (w, E_RENDEZVOS)
    end;
  user_store w _ _ _ := (w, E_RENDEZVOS);
  user_load w _ _ _ := (E_RENDEZVOS, []);
  clone_vspace := sim_clone;
  register_vspace w vs := (w, REND_SUCCESS);
  del_vspace := sim_del;
  rm_sw_flags fl := PFlags (f_valid fl) (f_user fl) (f_read fl) (f_write fl) (f_exec fl) false false false;
  user_space_top := 2 ^ 47 - 1;
  kernel_virt_offset := 2 ^ 63;
  buddy_maxorder := 4;
  huge_page_mask := 2 ^ 21 - 1;
}.

Lemma sim_take_spec w n frs : sim_take w n = Some frs → fresh_frames (sm_v w) frs ∧ length frs = Z.to_nat n.
Proof.
  unfold sim_take. case_decide as H; [|done]. intros [= <-]. destruct H as (? & ? & ? & HF).
  rewrite length_fmap, length_seqZ. split; [|done]. split.
  - rewrite <- list_fmap_compose. rewrite (list_fmap_ext _ id), list_fmap_id; [apply NoDup_seqZ|done].
  - intros fr Hfr. apply list_elem_of_fmap in Hfr as (p & -> & Hp). rewrite Forall_forall in HF.
    split; [apply HF; by apply list_elem_of_In|]. apply elem_of_seqZ in Hp. split; [cbn; lia|]. apply length_replicate.
Qed.

Lemma swap_cases a b s n : ∃ k, swap_space a b k = (s, n).
Proof.
  unfold swap_space. destruct (decide (s = b)) as [->|]; [exists (a, n)|destruct (decide (s = a)) as [->|]; [exists (b, n)|exists (s, n)]]; cbn.
  - by rewrite decide_True.
  - destruct (decide (b = a)) as [->|]; [done|by rewrite decide_True].
  - by rewrite !decide_False.
Qed.

Lemma clone_map_lookup {A} (f : A → A) (vs child : Z) (m : gmap pkey A) (s n : Z) : vs ≠ child →
  (∀ n, m !! (child, n) = None) →
  clone_map f vs child m !! (s, n) = if decide (s = vs ∨ s = child) then f <$> m !! (vs, n) else m !! (s, n).
Proof.
  intros Hne Hnew. unfold clone_map.
  set (g := kmap _ _). assert (∀ s n, g !! (s, n) = if decide (s = child) then f <$> m !! (vs, n) else None) as Hg.
  { clear s n. intros s n. unfold g.
    destruct (swap_cases vs child s n) as [[s0 n0] Hk]. rewrite <- Hk, lookup_kmap, lookup_fmap by apply _.
    unfold swap_space in Hk. cbn in Hk.
    destruct (decide (s0 = vs)) as [->|Hs0]; [injection Hk as <- <-|].
    - rewrite (decide_True (P := child = child)) by done. destruct (m !! (vs, n0)) as [e|] eqn:E.
      + by rewrite (map_lookup_filter_Some_2 _ _ _ e).
      + by rewrite map_lookup_filter_None_2 by (by left).
    - rewrite map_lookup_filter_None_2; [|right; intros ? ? ?; cbn in *; congruence].
      rewrite decide_False; [done|]. destruct (decide (s0 = child)); congruence. }
  rewrite lookup_union, Hg, map_lookup_imap. cbn.
  destruct (decide (s = child)) as [->|Hs].
  - rewrite Hnew, (decide_True (P := _ ∨ _)) by auto. by destruct (m !! (vs, n)).
  - destruct (decide (s = vs)) as [->|Hs2].
    + rewrite (decide_True (P := _ ∨ _)) by auto. by destruct (m !! (vs, n)).
    + rewrite decide_False by (intros [?|?]; done). by destruct (m !! (s, n)).
Qed.

#[global] Instance sim_core_laws : CoreMMLaws sim.
Proof.
  refine {| mv := sm_v; uspaces := sm_us |}; cbn.
  - done.
  - intros w vs vpn pin w' r. destruct (v_pte (sm_v w) !! (vs, vpn)) as [[p fl]|] eqn:E; intros [= <- <-]; destruct pin; done.
  - intros w w' r. destruct (sim_take w 1) as [frs|] eqn:E; [|by intros [= <- <-]].
    apply sim_take_spec in E as [[_ Hf] Hlen]. destruct frs as [|[p b] [|]]; try done. intros [= <- <-].
    destruct (Hf (p, b)) as [? ?]; [left|]. split_and!; [done..|]. by exists b.
  - done.
  - intros va n e. destruct (Z.leb_spec (va + n * PAGE_SIZE) (2 ^ 47)); [|done]. intros [= <-]. lia.
  - intros w vs lo hi w' e [= <- <-]. done.
  - intros w vs lo hi l ->. done.
  - intros w vs va e fl _. destruct (v_leaf (sm_v w) !! (vs, VPN va)) as [[fl' o]|]; intros [= <- <-]; cbn; [by exists o|done].
  - intros w vs va _. destruct (v_leaf (sm_v w) !! (vs, VPN va)) as [[fl' o]|]; [|done]. split; [done|]. exists o. split; [done|].
    by destruct o.
  - intros w vs va n fl w' ok _ Hn. unfold sim_fill. destruct (sim_take w n) as [frs|] eqn:E; [|by intros [= <- <-]].
    destruct (run_free_b _ _ _ _) eqn:Hb; intros [= <- <-]; [|done]. split; [done|]. split; [by apply run_free_b_spec|].
    apply sim_take_spec in E as [? ?]. by exists frs.
  - intros w vs va n p _ Hn Hr. rewrite run_mapped_b_spec by done. eauto.
  - intros w vs va fl w' e _. unfold sim_fill_page. destruct (sim_take w 1) as [frs|] eqn:E; [|by intros [= <- <-]].
    apply sim_take_spec in E as [? Hlen]. destruct frs as [|fr [|]]; try by intros [= <- <-].
    destruct (v_pte _ !! _) eqn:Ep; [by intros [= <- <-]|].
    destruct (v_leaf _ !! _) as [[lf [?|]]|] eqn:El; intros [= <- <-]; try done. cbn. split; [done|].
    split; [eauto|]. by exists fr.
  - intros w vs va new fl old w' e _. unfold sim_remap.
    destruct (v_pte _ !! _) as [[q pt]|] eqn:Ep; [|by intros [= <- <-]].
    destruct (v_leaf _ !! _) as [[lf [q'|]]|] eqn:El; [|by intros [= <- <-]..].
    destruct (Z.eqb_spec q old) as [->|]; [|by intros [= <- <-]].
    destruct (Z.eqb_spec q' old) as [->|]; [|by intros [= <- <-]].
    intros [= <- <-]. cbn. split; [done|]. split; [eauto|done].
  - intros w vs lo hi s e fl Ha. destruct (v_leaf (sm_v w) !! (vs, VPN lo)) as [[fl' o]|]; [|done]. intros [= <- <- <-].
    split; [unfold PAGE_SIZE; lia|]. split; [done|]. rewrite <- (Z.mul_1_l PAGE_SIZE) at 1. by rewrite Z.mod_add.
  - intros w vs va n fl w' e _ Hn [= <- <-]. rewrite Z.div_mul by done. split; [done|]. rewrite decide_True by done.
    split; [intros s m; cbn; rewrite map_lookup_imap..|done|done].
    + destruct (v_pte (sm_v w) !! (s, m)); cbn; by case_decide.
    + destruct (v_leaf (sm_v w) !! (s, m)); cbn; by case_decide.
  - intros w vs p vpn fl w' e [= <- <-]. done.
  - intros w d s w' e nd bd ns bs H Hne Hd Hs. rewrite Hd, Hs in H. case_decide; injection H as <- <-.
    + split; [done|]. by exists bs.
    + split; [done|]. exists bd. split_and!; [done..|]. unfold set_bytes. rewrite Hd.
      rewrite insert_id by done. by destruct (sm_v w).
  - intros w d doff s soff len w' e nd bd ns bs H Hd Hs Hlen ? ? ? ? Hfd Hfs. unfold sim_copy in H.
    assert (∀ p o, 0 ≤ p < 2 ^ 52 → 0 ≤ o < PAGE_SIZE → (PADDR p + o) `div` PAGE_SIZE = p ∧ (PADDR p + o) `mod` PAGE_SIZE = o) as Hpa.
    { intros p o Hp Ho. unfold PADDR. rewrite Z.shiftl_mul_pow2 by lia. rewrite uw_small by lia. unfold PAGE_SIZE in *.
      split; [symmetry; apply (Z.div_unique_pos _ _ p o)|symmetry; apply (Z.mod_unique_pos _ _ p o)]; lia. }
    cbn zeta in H.
    destruct (Hpa d doff) as [E1 E2]; [lia..|]. destruct (Hpa s soff) as [E3 E4]; [lia..|].
    rewrite E1, E2, E3, E4, Hfd, Hfs in H.
    case_decide; injection H as <- <-.
    + split; [done|]. eexists. split_and!; [done| |done]. done.
    + split; [done|]. exists bd. split_and!; [done..|]. unfold set_bytes. rewrite Hfd.
      rewrite insert_id by done. by destruct (sm_v w).
  - intros w vs w' e child [= <- <- <-]. rewrite decide_True by done.
    set (v := sm_v w). set (X := sm_us w ∪ set_map fst (dom (v_pte v) ∪ dom (v_leaf v)) ∪ {[vs]}).
    assert (fresh X ∉ X) as Hfr by apply is_fresh. set (child := fresh X) in *.
    assert (child ≠ vs) as Hne by set_solver.
    assert (∀ n, v_pte v !! (child, n) = None ∧ v_leaf v !! (child, n) = None) as Hnew.
    { intros n. split; apply not_elem_of_dom; intros Hin; apply Hfr; unfold X;
        apply elem_of_union_l, elem_of_union_r, elem_of_map; exists (child, n); set_solver. }
    split_and!; [set_solver|done|done|]. split; cbn.
    + done.
    + intros. apply clone_map_lookup; [done|]. intros n. by destruct (Hnew n).
    + intros. apply clone_map_lookup; [done|]. intros n. by destruct (Hnew n).
    + intros p. rewrite map_lookup_imap. by destruct (v_frames v !! p).
    + done.
  - intros w vs w' e [= <- <-]. done.
  - intros w vs. split; [done|]. split; cbn; try done.
    + intros s n. case_decide as Hs.
      * apply map_lookup_filter_None_2. right. intros ? ? Hc. by apply Hc.
      * destruct (v_pte (sm_v w) !! (s, n)) eqn:E; [by apply map_lookup_filter_Some_2|apply map_lookup_filter_None_2; by left].
    + intros s n. case_decide as Hs.
      * apply map_lookup_filter_None_2. right. intros ? ? Hc. by apply Hc.
      * destruct (v_leaf (sm_v w) !! (s, n)) eqn:E; [by apply map_lookup_filter_Some_2|apply map_lookup_filter_None_2; by left].
    + intros p. rewrite map_lookup_imap. by destruct (v_frames (sm_v w) !! p).
  - done.
Defined.
