(* ===== verification/MmInv.v ===== *)
(** * The memory invariant

    Over the view of [MmSpec]: page tables follow the radix tree, every leaf
    linked to a frame owns it, and a page that is writable in a page table is
    linked to a frame no other page uses.  The lemmas say what the changes of
    the view do to it. *)

From Stdlib Require Import Ascii.
From stdpp Require Import base numbers list gmap option.
From S2P Require Import Prelude PageSlice PortNames Proc Mm MmSpec.

Abbreviation leaves := (gmap pkey (pflags * option Z)).
Abbreviation frames := (gmap Z (nat * list Z)).

Record mm_inv (v : mview) : Prop := {
  mi_pte k p pt : v_pte v !! k = Some (p, pt) →
    f_valid pt = true
    ∧ ∃ lf, v_leaf v !! k = Some (lf, Some p) ∧ (f_write pt = true → f_write lf = true ∧ f_cow lf = false);
  mi_frames p n b : v_frames v !! p = Some (n, b) → (0 < n)%nat ∧ frame_ok (p, b);
  mi_owned p : (linked (v_leaf v) p ≤ refs (v_frames v) p)%nat;
  mi_shared k k' p lf lf' : k ≠ k' → v_leaf v !! k = Some (lf, Some p) → v_leaf v !! k' = Some (lf', Some p) →
    f_write lf = true → f_cow lf = true;
  mi_lazy k lf : v_leaf v !! k = Some (lf, None) → f_cow lf = false;
}.

(** No frame is lost and none is given back twice: what a frame has in owners
    beyond its linked leaves stays the same. *)
Definition balanced (v v' : mview) : Prop :=
  ∀ p, (refs (v_frames v') p + linked (v_leaf v) p = refs (v_frames v) p + linked (v_leaf v') p)%nat.

(** A change that keeps the invariant, the balance and the locks. *)
Definition good_step (v v' : mview) : Prop :=
  mm_inv v → mm_inv v' ∧ balanced v v' ∧ v_locks v' = v_locks v.

Lemma good_refl v : good_step v v.
Proof. intros H. split_and!; [done| |done]. intros p. lia. Qed.

Lemma good_trans v1 v2 v3 : good_step v1 v2 → good_step v2 v3 → good_step v1 v3.
Proof.
  intros H1 H2 Hi. destruct (H1 Hi) as (Hi2 & B1 & L1). destruct (H2 Hi2) as (Hi3 & B2 & L2).
  split_and!; [done| |congruence]. intros p. specialize (B1 p). specialize (B2 p). lia.
Qed.

(** No two pages share a frame one of them may write. *)
Lemma writable_private v k k' p pt pt' : mm_inv v → v_pte v !! k = Some (p, pt) → f_write pt = true →
  v_pte v !! k' = Some (p, pt') → k' = k.
Proof.
  intros Hi Hk Hw Hk'. destruct (decide (k' = k)) as [|Hne]; [done|].
  destruct (mi_pte _ Hi _ _ _ Hk) as (_ & lf & Hl & Hwc). destruct (Hwc Hw) as [? Hc].
  destruct (mi_pte _ Hi _ _ _ Hk') as (_ & lf' & Hl' & _).
  rewrite (mi_shared _ Hi k k' p lf lf') in Hc; done.
Qed.

(** ** Counting *)

Definition link1 (o : option (pflags * option Z)) (p : Z) : nat :=
  match o with Some (_, Some q) => if decide (q = p) then 1 else 0 | _ => 0 end.

Lemma linked_delete (l : leaves) k p : linked l p = (linked (delete k l) p + link1 (l !! k) p)%nat.
Proof.
  unfold linked. rewrite map_filter_delete. set (P := λ e : pkey * (pflags * option Z), e.2.2 = Some p).
  destruct (filter P l !! k) as [e|] eqn:E.
  - apply map_lookup_filter_Some in E as Hl. destruct Hl as [Hl Hp].
    rewrite <- (insert_delete_id (filter P l) k e) at 1 by done.
    rewrite map_size_insert_None by apply lookup_delete_eq. rewrite Hl. destruct e as [fl [q|]]; cbn in Hp; [|done].
    cbn. rewrite decide_True by (by injection Hp). lia.
  - rewrite delete_id by done. apply map_lookup_filter_None in E as [E|E].
    + rewrite E. cbn. lia.
    + destruct (l !! k) as [[fl [q|]]|] eqn:Hl; cbn; try lia.
      rewrite decide_False; [lia|]. intros ->. by apply (E _ eq_refl).
Qed.

Lemma linked_insert (l : leaves) k e p : linked (<[k := e]> l) p = (linked (delete k l) p + link1 (Some e) p)%nat.
Proof. rewrite (linked_delete _ k). by rewrite delete_insert_eq, lookup_insert_eq. Qed.

Lemma linked_pos (l : leaves) k fl p : l !! k = Some (fl, Some p) → (0 < linked l p)%nat.
Proof. intros H. rewrite (linked_delete _ k), H. cbn. rewrite decide_True by done. lia. Qed.

Lemma linked_two (l : leaves) k k' fl fl' p :
  k ≠ k' → l !! k = Some (fl, Some p) → l !! k' = Some (fl', Some p) → (1 < linked l p)%nat.
Proof.
  intros Hne H H'. rewrite (linked_delete _ k), H. cbn. rewrite decide_True by done.
  assert (0 < linked (delete k l) p)%nat; [|lia]. apply (linked_pos _ k' fl'). by rewrite lookup_delete_ne.
Qed.

(** ** Owners *)

Lemma refs_insert (f : frames) p n b q : refs (<[p := (n, b)]> f) q = if decide (q = p) then n else refs f q.
Proof. unfold refs. case_decide as E; [subst; by rewrite lookup_insert_eq|by rewrite lookup_insert_ne]. Qed.

Lemma refs_take f p q : is_Some (f !! p) → refs (take_ref f p) q = (refs f q + if decide (q = p) then 1 else 0)%nat.
Proof.
  intros [[n b] H]. unfold take_ref. rewrite H, refs_insert. case_decide as E; [subst; unfold refs; rewrite H|]; lia.
Qed.

Lemma refs_drop f p q : refs (drop_ref f p) q = (refs f q - if decide (q = p) then 1 else 0)%nat.
Proof.
  unfold drop_ref. destruct (f !! p) as [[n b]|] eqn:H.
  - destruct n as [|[|n]].
    1,2: unfold refs; case_decide as E; [subst; rewrite lookup_delete_eq, H; lia|rewrite lookup_delete_ne by done; lia].
    rewrite refs_insert. case_decide as E; [subst; unfold refs; rewrite H|]; lia.
  - case_decide as E; [subst; unfold refs; rewrite H|]; lia.
Qed.

(** Taking an owner and giving it back. *)
Lemma take_drop f p : (∀ n b, f !! p = Some (n, b) → (0 < n)%nat) → is_Some (f !! p) → drop_ref (take_ref f p) p = f.
Proof.
  intros Hp [[n b] H]. specialize (Hp _ _ H). unfold take_ref, drop_ref. rewrite H, lookup_insert_eq.
  destruct n as [|n]; [lia|]. by rewrite insert_insert_eq, insert_id.
Qed.

Lemma take_drop_comm f p q : p ≠ q → drop_ref (take_ref f p) q = take_ref (drop_ref f q) p.
Proof.
  intros Hne. unfold take_ref, drop_ref. destruct (f !! p) as [[n b]|] eqn:Hp.
  - rewrite lookup_insert_ne by done. destruct (f !! q) as [[[|[|m]] b']|] eqn:Hq; cbn.
    1,2: rewrite lookup_delete_ne, Hp by done; by rewrite delete_insert_ne by done.
    + rewrite lookup_insert_ne, Hp by done. by rewrite insert_insert_ne.
    + by rewrite Hp.
  - destruct (f !! q) as [[[|[|m]] b']|] eqn:Hq; cbn.
    1,2: by rewrite lookup_delete_ne, Hp by done.
    + by rewrite lookup_insert_ne, Hp by done.
    + by rewrite Hp.
Qed.

Lemma drop_frames_ok f p : (∀ q n b, f !! q = Some (n, b) → (0 < n)%nat ∧ frame_ok (q, b)) →
  ∀ q n b, drop_ref f p !! q = Some (n, b) → (0 < n)%nat ∧ frame_ok (q, b).
Proof.
  intros H q n b. unfold drop_ref. destruct (f !! p) as [[m b0]|] eqn:E; [|apply H].
  destruct m as [|[|m]]; [intros [_ Hq]%lookup_delete_Some; eauto..|].
  intros [[-> [= <- <-]]|[_ Hq]]%lookup_insert_Some; [|eauto]. destruct (H _ _ _ E). split; [lia|done].
Qed.
