(* ===== verification/MmView.v ===== *)
(** * Changes of the memory view

    Each change that [MmSpec] describes keeps the memory invariant and the
    balance of owners. *)

From Stdlib Require Import Ascii.
From stdpp Require Import base numbers list gmap option.
From S2P Require Import Prelude PageSlice PortNames Proc Mm MmSpec MmInv.

Section view.
Implicit Types (v : mview) (k : pkey) (fl lf pt : pflags).

Lemma linked_frame v k lf p : mm_inv v → v_leaf v !! k = Some (lf, Some p) → ∃ n b, v_frames v !! p = Some (n, b).
Proof.
  intros Hi Hk. pose proof (mi_owned _ Hi p) as Ho. pose proof (linked_pos _ _ _ _ Hk).
  unfold refs in Ho. destruct (v_frames v !! p) as [[n b]|]; [eauto|lia].
Qed.

Lemma mapped_frame v k p pt : mm_inv v → v_pte v !! k = Some (p, pt) → ∃ n b, v_frames v !! p = Some (S n, b).
Proof.
  intros Hi Hk. destruct (mi_pte _ Hi _ _ _ Hk) as (_ & lf & Hl & _).
  destruct (linked_frame _ _ _ _ Hi Hl) as (n & b & Hf). destruct (mi_frames _ Hi _ _ _ Hf) as [? _].
  exists (pred n), b. by rewrite Nat.succ_pred by lia.
Qed.

Lemma unlinked_none v p : mm_inv v → v_frames v !! p = None → linked (v_leaf v) p = 0%nat.
Proof. intros Hi Hn. pose proof (mi_owned _ Hi p). unfold refs in *. rewrite Hn in *. lia. Qed.

(** A page of its own frame that is not used elsewhere. *)
Lemma set_page_inv v k p pt fl n b : mm_inv v → f_valid pt = true →
  (f_write pt = true → f_write fl = true) → f_cow fl = false →
  (∀ k' lf', k' ≠ k → v_leaf v !! k' = Some (lf', Some p) → False) →
  (0 < n)%nat → frame_ok (p, b) →
  ∀ f', (∀ q m c, q ≠ p → f' !! q = Some (m, c) → (0 < m)%nat ∧ frame_ok (q, c)) → f' !! p = Some (n, b) →
  (∀ q, (linked (<[k := (fl, Some p)]> (v_leaf v)) q ≤ refs f' q)%nat) →
  mm_inv (MView (<[k := (p, pt)]> (v_pte v)) (<[k := (fl, Some p)]> (v_leaf v)) f' (v_locks v)).
Proof.
  intros Hi Hv Hw Hc Hun Hn Hb f' Hf' Hp Hown. split; cbn.
  - intros k' q qt. destruct (decide (k' = k)) as [->|Hne].
    + rewrite !lookup_insert_eq. intros [= <- <-]. split; [done|]. exists fl. auto.
    + rewrite !lookup_insert_ne by done. apply (mi_pte _ Hi).
  - intros q m c Hq. destruct (decide (q = p)) as [->|]; [|by eapply Hf'].
    rewrite Hp in Hq. by injection Hq as <- <-.
  - done.
  - intros k1 k2 q l1 l2 Hne. destruct (decide (k1 = k)) as [->|H1]; [rewrite lookup_insert_eq|rewrite lookup_insert_ne by done].
    + intros [= <- <-]. rewrite lookup_insert_ne by done. intros H2. by destruct (Hun _ _ (not_eq_sym Hne) H2).
    + intros Hk1. destruct (decide (k2 = k)) as [->|H2]; [rewrite lookup_insert_eq|rewrite lookup_insert_ne by done].
      * intros [= <- <-]. by destruct (Hun _ _ H1 Hk1).
      * intros Hk2. by apply (mi_shared _ Hi k1 k2 q l1 l2).
  - intros k' l'. destruct (decide (k' = k)) as [->|H1]; [by rewrite lookup_insert_eq|rewrite lookup_insert_ne by done].
    apply (mi_lazy _ Hi).
Qed.

Definition hw_ok (hw : pflags → pflags) : Prop := ∀ fl, f_valid (hw fl) = f_valid fl ∧ f_write (hw fl) = f_write fl.

Lemma install_good hw v vs vpn fr fl : hw_ok hw →
  (∀ p, link1 (v_leaf v !! (vs, vpn)) p = 0%nat) →
  v_frames v !! fr.1 = None → frame_ok fr → f_valid fl = true → f_cow fl = false →
  good_step v (install hw v vs vpn fr fl).
Proof.
  intros Hhw Hl0 Hf Hok Hv Hc Hi. destruct fr as [p b]. cbn in *.
  pose proof (unlinked_none _ _ Hi Hf) as H0.
  assert (∀ q, (linked (<[(vs, vpn) := (fl, Some p)]> (v_leaf v)) q = linked (v_leaf v) q + if decide (q = p) then 1 else 0)%nat) as Hlk.
  { intros q. rewrite linked_insert, (linked_delete (v_leaf v) (vs, vpn) q), Hl0. cbn. repeat case_decide; simplify_eq; lia. }
  assert (∀ q, (refs (<[p := (1%nat, b)]> (v_frames v)) q = refs (v_frames v) q + if decide (q = p) then 1 else 0)%nat) as Hrf.
  { intros q. rewrite refs_insert. case_decide; [subst; unfold refs; rewrite Hf|]; lia. }
  split_and!; [| |done].
  - unfold install. cbn. eapply set_page_inv with (n := 1%nat) (b := b); try done.
    + destruct (Hhw fl) as [-> _]. done.
    + destruct (Hhw fl) as [_ ->]. done.
    + intros k' lf' Hne Hk'. pose proof (linked_pos _ _ _ _ Hk'). lia.
    + lia.
    + intros q m c Hne. rewrite lookup_insert_ne by done. apply (mi_frames _ Hi).
    + by rewrite lookup_insert_eq.
    + intros q. rewrite Hlk, Hrf. pose proof (mi_owned _ Hi q). lia.
  - intros q. cbn. rewrite Hlk, Hrf. lia.
Qed.

Lemma remove_good v vs vpn p pt lf : v_pte v !! (vs, vpn) = Some (p, pt) →
  v_leaf v !! (vs, vpn) = Some (lf, Some p) → good_step v (remove v vs vpn p).
Proof.
  intros Hp Hl Hi. destruct (mapped_frame _ _ _ _ Hi Hp) as (n & b & Hf).
  assert (∀ q, linked (v_leaf v) q = linked (delete (vs, vpn) (v_leaf v)) q + if decide (q = p) then 1 else 0)%nat as Hlk.
  { intros q. rewrite (linked_delete (v_leaf v) (vs, vpn) q), Hl. cbn. repeat case_decide; simplify_eq; lia. }
  split_and!; [split; cbn| |done].
  - intros k q qt [Hne Hk]%lookup_delete_Some. rewrite lookup_delete_ne by done. by apply (mi_pte _ Hi).
  - apply drop_frames_ok, (mi_frames _ Hi).
  - intros q. rewrite refs_drop. pose proof (mi_owned _ Hi q) as Ho. rewrite Hlk in Ho. lia.
  - intros k1 k2 q l1 l2 Hne [? H1]%lookup_delete_Some [? H2]%lookup_delete_Some. by apply (mi_shared _ Hi k1 k2 q l1 l2).
  - intros k l [? H]%lookup_delete_Some. by apply (mi_lazy _ Hi k).
  - intros q. cbn. rewrite refs_drop, (Hlk q). pose proof (mi_owned _ Hi q) as Ho. rewrite Hlk in Ho. lia.
Qed.

(** Installing a page and removing it again. *)
Lemma install_remove hw v vs vpn fr fl : v_pte v !! (vs, vpn) = None → v_leaf v !! (vs, vpn) = None →
  v_frames v !! fr.1 = None → remove (install hw v vs vpn fr fl) vs vpn fr.1 = v.
Proof.
  intros Hp Hl Hf. destruct v as [p l f lk], fr as [q b]. cbn in *. unfold remove, drop_ref. cbn.
  rewrite lookup_insert_eq. by rewrite !delete_insert_id.
Qed.

Lemma install_comm hw v vs vpn vpn' fr fr' fl : vpn ≠ vpn' → fr.1 ≠ fr'.1 →
  install hw (install hw v vs vpn fr fl) vs vpn' fr' fl = install hw (install hw v vs vpn' fr' fl) vs vpn fr fl.
Proof.
  intros Hne Hf. unfold install. cbn. f_equal.
  all: apply insert_insert_ne; congruence.
Qed.

(** Only bytes change. *)
Lemma set_bytes_lookup f p b q : set_bytes f p b !! q = if decide (q = p) then (λ e, (e.1, b)) <$> f !! q else f !! q.
Proof.
  unfold set_bytes. destruct (f !! p) as [[n c]|] eqn:E; case_decide; subst.
  - by rewrite lookup_insert_eq, E.
  - by rewrite lookup_insert_ne.
  - by rewrite E.
  - done.
Qed.

Lemma refs_set_bytes f p b q : refs (set_bytes f p b) q = refs f q.
Proof. unfold refs. rewrite set_bytes_lookup. case_decide; [|done]. by destruct (f !! q) as [[? ?]|]. Qed.

Lemma set_bytes_good v p b : (∀ n c, v_frames v !! p = Some (n, c) → length b = length c) →
  good_step v (with_frames v (set_bytes (v_frames v) p b)).
Proof.
  intros Hlen Hi. split_and!; [split; cbn| |done].
  - apply (mi_pte _ Hi).
  - intros q n c. rewrite set_bytes_lookup. case_decide as E; [subst|apply (mi_frames _ Hi)].
    destruct (v_frames v !! p) as [[m c']|] eqn:Hq; [|done]. intros [= <- <-].
    destruct (mi_frames _ Hi _ _ _ Hq) as [? [? ?]]. split; [done|]. split; [done|]. cbn in *. rewrite (Hlen _ _ eq_refl). done.
  - intros q. rewrite refs_set_bytes. apply (mi_owned _ Hi).
  - apply (mi_shared _ Hi).
  - apply (mi_lazy _ Hi).
  - intros q. cbn. rewrite refs_set_bytes. lia.
Qed.

(** A page table entry for a linked leaf. *)
Lemma pte_good v k p pt lf : v_leaf v !! k = Some (lf, Some p) → f_valid pt = true →
  (f_write pt = true → f_write lf = true ∧ f_cow lf = false) → good_step v (with_pte v (<[k := (p, pt)]> (v_pte v))).
Proof.
  intros Hl Hv Hw Hi. split_and!; [split; cbn| |done].
  - intros k' q qt [[-> [= <- <-]]|[? Hk']]%lookup_insert_Some; [eauto|by apply (mi_pte _ Hi)].
  - apply (mi_frames _ Hi).
  - apply (mi_owned _ Hi).
  - apply (mi_shared _ Hi).
  - apply (mi_lazy _ Hi).
  - intros q. cbn. lia.
Qed.

(** A page gets a private copy of its frame. *)
Definition cow_view v k (old new : Z) (b : list Z) pt fl : mview :=
  MView (<[k := (new, pt)]> (v_pte v)) (<[k := (fl, Some new)]> (v_leaf v))
        (drop_ref (<[new := (1%nat, b)]> (v_frames v)) old) (v_locks v).

Lemma cow_good v k old new b opt lf pt fl : v_pte v !! k = Some (old, opt) → v_leaf v !! k = Some (lf, Some old) →
  v_frames v !! new = None → frame_ok (new, b) → f_valid pt = true → (f_write pt = true → f_write fl = true) →
  f_cow fl = false → good_step v (cow_view v k old new b pt fl).
Proof.
  intros Hp Hl Hn Hok Hv Hw Hc Hi. destruct (mapped_frame _ _ _ _ Hi Hp) as (n & c & Hf).
  pose proof (unlinked_none _ _ Hi Hn) as H0.
  assert (new ≠ old) as Hno by congruence.
  assert (∀ q, (linked (<[k := (fl, Some new)]> (v_leaf v)) q + (if decide (q = old) then 1 else 0)
                = linked (v_leaf v) q + (if decide (q = new) then 1 else 0))%nat) as Hlk.
  { intros q. rewrite linked_insert, (linked_delete (v_leaf v) k q), Hl. cbn. repeat case_decide; simplify_eq; lia. }
  assert (∀ q, (refs (drop_ref (<[new := (1%nat, b)]> (v_frames v)) old) q + (if decide (q = old) then 1 else 0)
                = refs (v_frames v) q + (if decide (q = new) then 1 else 0))%nat) as Hrf.
  { intros q. rewrite refs_drop, refs_insert. unfold refs. repeat case_decide; simplify_eq; rewrite ?Hf, ?Hn; lia. }
  split_and!; [| |done].
  - unfold cow_view. eapply set_page_inv with (n := 1%nat) (b := b); try done.
    + intros k' lf' Hne Hk'. pose proof (linked_pos _ _ _ _ Hk'). lia.
    + lia.
    + intros q m d Hne Hq. eapply (drop_frames_ok (<[new := (1%nat, b)]> (v_frames v)) old); [|done].
      intros q' m' d' [[-> [= <- <-]]|[_ ?]]%lookup_insert_Some; [split; [lia|done]|by eapply (mi_frames _ Hi)].
    + unfold drop_ref. rewrite lookup_insert_ne, Hf by done.
      destruct n; [rewrite lookup_delete_ne|rewrite lookup_insert_ne]; try done; by rewrite lookup_insert_eq.
    + intros q. specialize (Hlk q). specialize (Hrf q). pose proof (mi_owned _ Hi q). lia.
  - intros q. cbn. specialize (Hlk q). specialize (Hrf q). lia.
Qed.

(** ** Address spaces *)

Lemma linked_in_delete (l : leaves) vs s n p :
  linked_in l vs p = (linked_in (delete (s, n) l) vs p + if decide (s = vs) then link1 (l !! (s, n)) p else 0)%nat.
Proof.
  unfold linked_in. rewrite (linked_delete _ (s, n)), map_filter_delete. f_equal.
  destruct (filter _ l !! (s, n)) as [e|] eqn:E.
  - apply map_lookup_filter_Some in E as [-> E]. cbn in E. by rewrite decide_True.
  - apply map_lookup_filter_None in E as [->|E]; [by case_decide|]. case_decide as Hs; [|done].
    destruct (l !! (s, n)) as [e|] eqn:El; [|done]. by destruct (E e eq_refl).
Qed.

Lemma linked_clone (l l' : leaves) vs child p : child ≠ vs → (∀ n, l !! (child, n) = None) →
  (∀ s n, l' !! (s, n) = if decide (s = vs ∨ s = child) then cow_leaf <$> l !! (vs, n) else l !! (s, n)) →
  linked l' p = (linked l p + linked_in l vs p)%nat.
Proof.
  intros Hne. revert l'. induction l as [|[s n] e l Hnone IH] using map_ind; intros l' Hnew Hl'.
  - assert (l' = ∅) as -> by (apply map_eq; intros [s n]; rewrite Hl'; by case_decide). done.
  - assert (s ≠ child) as Hs. { intros ->. specialize (Hnew n). by rewrite lookup_insert_eq in Hnew. }
    rewrite (linked_delete (<[(s, n) := e]> l) (s, n)), (linked_in_delete (<[(s, n) := e]> l) vs s n).
    rewrite delete_insert_id, lookup_insert_eq by done.
    assert (∀ n', l !! (child, n') = None) as Hnew'.
    { intros n'. rewrite <- (Hnew n'). rewrite lookup_insert_ne; congruence. }
    destruct (decide (s = vs)) as [->|Hsv].
    + rewrite (linked_delete l' (vs, n)), (linked_delete (delete (vs, n) l') (child, n)), (IH (delete (child, n) (delete (vs, n) l')) Hnew').
      * rewrite lookup_delete_ne by congruence. rewrite !Hl'.
        rewrite !decide_True by auto. rewrite lookup_insert_eq. destruct e as [fl [q|]]; cbn; lia.
      * intros s n'. destruct (decide (s = vs ∨ s = child)) as [Hs'|Hs'].
        -- destruct (decide (n' = n)) as [->|Hn].
           ++ rewrite Hnone. cbn. destruct Hs' as [->| ->]; [|by rewrite lookup_delete_eq].
              rewrite lookup_delete_ne by congruence. by rewrite lookup_delete_eq.
           ++ rewrite !lookup_delete_ne by congruence. rewrite Hl', decide_True by done. by rewrite lookup_insert_ne by congruence.
        -- rewrite !lookup_delete_ne by (intros [= <- _]; apply Hs'; auto). rewrite Hl', decide_False by done.
           rewrite lookup_insert_ne; [done|]. intros [= <- _]. apply Hs'; auto.
    + rewrite (linked_delete l' (s, n)), (IH (delete (s, n) l') Hnew').
      * rewrite Hl', decide_False by (intros [?|?]; done). rewrite lookup_insert_eq. lia.
      * intros s' n'. destruct (decide ((s', n') = (s, n))) as [[= -> ->]|Hk].
        -- rewrite lookup_delete_eq, decide_False by (intros [?|?]; done). done.
        -- rewrite lookup_delete_ne by congruence. rewrite Hl'. case_decide; rewrite lookup_insert_ne; congruence.
Qed.

Lemma linked_in_le (l : leaves) vs p : (linked_in l vs p ≤ linked l p)%nat.
Proof.
  unfold linked_in, linked. apply map_subseteq_size.
  rewrite map_filter_comm. apply map_filter_subseteq.
Qed.

Lemma clone_good v v' vs child : child ≠ vs → cloned v v' vs child → good_step v v'.
Proof.
  intros Hne Hcl Hi. pose proof (λ p, linked_clone (v_leaf v) (v_leaf v') vs child p Hne (λ n, proj2 (cl_new _ _ _ _ Hcl n)) (cl_leaf _ _ _ _ Hcl)) as Hlk.
  assert (∀ p, refs (v_frames v') p = refs (v_frames v) p + linked_in (v_leaf v) vs p)%nat as Hrf.
  { intros p. unfold refs at 1. rewrite (cl_frames _ _ _ _ Hcl). unfold refs. destruct (v_frames v !! p) as [[n b]|] eqn:E; [done|].
    pose proof (linked_in_le (v_leaf v) vs p). rewrite (unlinked_none _ _ Hi E) in *. cbn. lia. }
  split_and!; [split| |apply (cl_locks _ _ _ _ Hcl)].
  - intros [s n] p pt. rewrite (cl_pte _ _ _ _ Hcl), (cl_leaf _ _ _ _ Hcl). case_decide; [|apply (mi_pte _ Hi)].
    destruct (v_pte v !! (vs, n)) as [[q qt]|] eqn:E; [|done]. intros [= <- <-].
    destruct (mi_pte _ Hi _ _ _ E) as (? & lf & -> & _). split; [done|]. cbn. eexists. split; [done|]. done.
  - intros p n b. rewrite (cl_frames _ _ _ _ Hcl). destruct (v_frames v !! p) as [[m c]|] eqn:E; [|done].
    intros [= <- <-]. destruct (mi_frames _ Hi _ _ _ E). split; [lia|done].
  - intros p. rewrite Hlk, Hrf. pose proof (mi_owned _ Hi p). lia.
  - intros [s1 n1] [s2 n2] p l1 l2 Hk. rewrite !(cl_leaf _ _ _ _ Hcl). case_decide as H1.
    + destruct (v_leaf v !! (vs, n1)) as [[lf [q|]]|]; [|done..]. intros [= <- <-] _. cbn. intros ->. apply orb_true_r.
    + intros E1. case_decide as H2.
      * destruct (v_leaf v !! (vs, n2)) as [[lf [q|]]|] eqn:E2; [|done..]. intros [= <- <-].
        apply (mi_shared _ Hi (s1, n1) (vs, n2) q l1 lf); [|done..]. intros [= -> _]. apply H1. by left.
      * intros E2. by apply (mi_shared _ Hi (s1, n1) (s2, n2) p l1 l2).
  - intros [s n] lf. rewrite (cl_leaf _ _ _ _ Hcl). case_decide; [|apply (mi_lazy _ Hi)].
    destruct (v_leaf v !! (vs, n)) as [[fl [q|]]|] eqn:E; [done| |done]. intros [= <-]. by apply (mi_lazy _ Hi (vs, n)).
  - intros p. rewrite Hlk, Hrf. lia.
Qed.

Lemma linked_split (l l' : leaves) vs p :
  (∀ s n, l' !! (s, n) = if decide (s = vs) then None else l !! (s, n)) → (linked l p = linked l' p + linked_in l vs p)%nat.
Proof.
  revert l'. induction l as [|[s n] e l Hnone IH] using map_ind; intros l' Hl'.
  - assert (l' = ∅) as -> by (apply map_eq; intros [s n]; rewrite Hl'; by case_decide). done.
  - rewrite (linked_delete (<[(s, n) := e]> l) (s, n)), (linked_in_delete (<[(s, n) := e]> l) vs s n).
    rewrite delete_insert_id, lookup_insert_eq by done.
    rewrite (linked_delete l' (s, n)), (IH (delete (s, n) l')).
    + rewrite Hl'. case_decide; [cbn; lia|]. rewrite lookup_insert_eq. lia.
    + intros s' n'. destruct (decide ((s', n') = (s, n))) as [[= -> ->]|Hk].
      * rewrite lookup_delete_eq. case_decide; done.
      * rewrite lookup_delete_ne by congruence. rewrite Hl'. case_decide; [done|]. rewrite lookup_insert_ne; congruence.
Qed.

Lemma delete_good v v' vs : deleted v v' vs → good_step v v'.
Proof.
  intros Hd Hi. pose proof (λ p, linked_split (v_leaf v) (v_leaf v') vs p (de_leaf _ _ _ Hd)) as Hlk.
  assert (∀ p, refs (v_frames v') p = refs (v_frames v) p - linked_in (v_leaf v) vs p)%nat as Hrf.
  { intros p. unfold refs. rewrite (de_frames _ _ _ Hd). destruct (v_frames v !! p) as [[n b]|] eqn:E; [|done]. cbn.
    case_decide; lia. }
  split_and!; [split| |apply (de_locks _ _ _ Hd)].
  - intros [s n] p pt. rewrite (de_pte _ _ _ Hd), (de_leaf _ _ _ Hd). case_decide; [done|apply (mi_pte _ Hi)].
  - intros p n b. rewrite (de_frames _ _ _ Hd). destruct (v_frames v !! p) as [[m c]|] eqn:E; [|done]. cbn.
    case_decide; [done|]. intros [= <- <-]. destruct (mi_frames _ Hi _ _ _ E). split; [lia|done].
  - intros p. rewrite Hrf. pose proof (mi_owned _ Hi p) as Ho. rewrite Hlk in Ho. lia.
  - intros [s1 n1] [s2 n2] p l1 l2 Hk. rewrite !(de_leaf _ _ _ Hd). repeat case_decide; try done. by apply (mi_shared _ Hi).
  - intros [s n] lf. rewrite (de_leaf _ _ _ Hd). case_decide; [done|apply (mi_lazy _ Hi)].
  - intros p. rewrite Hrf, Hlk. pose proof (mi_owned _ Hi p) as Ho. rewrite Hlk in Ho. lia.
Qed.
End view.
