(* ===== verification/MmThm.v ===== *)
(** * Mapping and unmapping

    [linux_mm_map_user_range] maps all the pages or none; what
    [linux_mm_unmap_user_range] removes. *)

From stdpp Require Import base numbers list gmap option.
From S2P Require Import Prelude PageSlice PortNames Proc Mm MmSpec MmInv MmView.

#[local] Coercion Z.of_nat : nat >-> Z.

(** ** Pages *)

Lemma page_round_down_eq x : 0 ≤ x < 2 ^ 64 → page_round_down x = x - x `mod` PAGE_SIZE.
Proof.
  intros Hx. unfold page_round_down. assert (not64 (PAGE_SIZE - 1) = Z.shiftl (Z.ones 52) 12) as -> by done.
  assert (x - x `mod` PAGE_SIZE = Z.shiftl (Z.shiftr x 12) 12) as ->.
  { rewrite Z.shiftl_mul_pow2, Z.shiftr_div_pow2 by lia. change (2 ^ 12) with PAGE_SIZE.
    pose proof (Z.div_mod x PAGE_SIZE). unfold PAGE_SIZE in *. lia. }
  apply Z.bits_inj'. intros n Hn. rewrite Z.land_spec. destruct (decide (n < 12)).
  - rewrite !Z.shiftl_spec_low by lia. apply andb_false_r.
  - rewrite !Z.shiftl_spec, Z.shiftr_spec by lia. replace (n - 12 + 12) with n by lia.
    destruct (decide (n < 64)).
    + rewrite Z.ones_spec_low by lia. apply andb_true_r.
    + replace (Z.testbit x n) with false; [done|]. symmetry.
      apply (Z.bits_above_log2 x n); [lia|]. destruct (decide (x = 0)) as [->|]; [cbn; lia|].
      apply Z.log2_lt_pow2; [lia|]. apply Z.lt_le_trans with (2 ^ 64); [lia|]. apply Z.pow_le_mono_r; lia.
Qed.

Lemma page_aligned x : 0 ≤ x < 2 ^ 64 → (page_round_down x =? x) = true → x `mod` PAGE_SIZE = 0.
Proof. intros Hx H%Z.eqb_eq. rewrite page_round_down_eq in H by done. lia. Qed.

Lemma round_down_aligned x : 0 ≤ x < 2 ^ 64 → page_round_down x `mod` PAGE_SIZE = 0 ∧ 0 ≤ page_round_down x ≤ x.
Proof.
  intros Hx. rewrite page_round_down_eq by done. unfold PAGE_SIZE.
  pose proof (Z.div_mod x 4096). pose proof (Z.mod_pos_bound x 4096). split; [|lia].
  replace (x - x `mod` 4096) with ((x `div` 4096) * 4096) by lia. apply Z.mod_mul. lia.
Qed.

Lemma VPN_add va i : VPN (va + i * PAGE_SIZE) = VPN va + i.
Proof.
  unfold VPN. rewrite !Z.shiftr_div_pow2 by lia. change (2 ^ 12) with PAGE_SIZE. apply Z.div_add. done.
Qed.

Lemma aligned_add va i : va `mod` PAGE_SIZE = 0 → (va + i * PAGE_SIZE) `mod` PAGE_SIZE = 0.
Proof. intros H. by rewrite Z.mod_add. Qed.

(** The [i]-th page of a range that does not wrap. *)
Lemma page_va hint i n : 0 ≤ hint → 0 ≤ i < n → hint + n * PAGE_SIZE ≤ 2 ^ 64 → u64 (hint + i * PAGE_SIZE) = hint + i * PAGE_SIZE.
Proof. intros. apply uw_small. unfold PAGE_SIZE in *. lia. Qed.

(** ** Runs of pages *)

Section runs.
Context (hw : pflags → pflags).
Implicit Types (v : mview) (frs : list (Z * list Z)) (fl : pflags).

Lemma install_run_app v vs vpn frs frs' fl :
  install_run hw v vs vpn (frs ++ frs') fl = install_run hw (install_run hw v vs vpn frs fl) vs (vpn + length frs) frs' fl.
Proof.
  revert v vpn. induction frs as [|fr frs IH]; intros v vpn; cbn [app install_run length].
  - f_equal. lia.
  - rewrite IH. f_equal. lia.
Qed.

Lemma install_run_first v vs vpn vpn' fr frs fl : vpn < vpn' → fr.1 ∉ frs.*1 →
  install_run hw (install hw v vs vpn fr fl) vs vpn' frs fl = install hw (install_run hw v vs vpn' frs fl) vs vpn fr fl.
Proof.
  revert v vpn'. induction frs as [|fr' frs IH]; intros v vpn' Hlt Hn; [done|]. cbn [install_run].
  rewrite fmap_cons, not_elem_of_cons in Hn. destruct Hn as [Hne Hn].
  rewrite install_comm by (lia || done). apply IH; [lia|done].
Qed.

Lemma install_run_locks v vs vpn frs fl l :
  install_run hw (with_locks v l) vs vpn frs fl = with_locks (install_run hw v vs vpn frs fl) l.
Proof. revert v vpn. induction frs as [|fr frs IH]; intros v vpn; [done|]. cbn [install_run]. rewrite <- IH. done. Qed.

Lemma install_run_vlocks v vs vpn frs fl : v_locks (install_run hw v vs vpn frs fl) = v_locks v.
Proof. revert v vpn. induction frs as [|fr frs IH]; intros v vpn; [done|]. cbn [install_run]. by rewrite IH. Qed.

Lemma install_run_pte v vs vpn frs fl s n :
  v_pte (install_run hw v vs vpn frs fl) !! (s, n) =
    if decide (s = vs ∧ vpn ≤ n < vpn + length frs)
    then (λ fr, (fr.1, hw fl)) <$> frs !! Z.to_nat (n - vpn) else v_pte v !! (s, n).
Proof.
  revert v vpn. induction frs as [|fr frs IH]; intros v vpn; cbn [install_run length].
  - rewrite decide_False by lia. done.
  - rewrite IH. destruct (decide (s = vs ∧ vpn + 1 ≤ n < vpn + 1 + length frs)) as [[-> H]|H].
    + rewrite decide_True by lia. replace (Z.to_nat (n - vpn)) with (S (Z.to_nat (n - (vpn + 1)))) by lia. done.
    + cbn. destruct (decide ((s, n) = (vs, vpn))) as [[= -> ->]|Hk].
      * rewrite lookup_insert_eq, decide_True by lia. by rewrite Z.sub_diag.
      * rewrite lookup_insert_ne by congruence. rewrite decide_False; [done|]. intros [-> ?]. apply H. split; [done|].
        assert (n ≠ vpn) by congruence. lia.
Qed.

Lemma install_run_leaf v vs vpn frs fl s n :
  v_leaf (install_run hw v vs vpn frs fl) !! (s, n) =
    if decide (s = vs ∧ vpn ≤ n < vpn + length frs)
    then (λ fr, (fl, Some fr.1)) <$> frs !! Z.to_nat (n - vpn) else v_leaf v !! (s, n).
Proof.
  revert v vpn. induction frs as [|fr frs IH]; intros v vpn; cbn [install_run length].
  - rewrite decide_False by lia. done.
  - rewrite IH. destruct (decide (s = vs ∧ vpn + 1 ≤ n < vpn + 1 + length frs)) as [[-> H]|H].
    + rewrite decide_True by lia. replace (Z.to_nat (n - vpn)) with (S (Z.to_nat (n - (vpn + 1)))) by lia. done.
    + cbn. destruct (decide ((s, n) = (vs, vpn))) as [[= -> ->]|Hk].
      * rewrite lookup_insert_eq, decide_True by lia. by rewrite Z.sub_diag.
      * rewrite lookup_insert_ne by congruence. rewrite decide_False; [done|]. intros [-> ?]. apply H. split; [done|].
        assert (n ≠ vpn) by congruence. lia.
Qed.

Lemma install_run_old v vs vpn frs fl p : p ∉ frs.*1 → v_frames (install_run hw v vs vpn frs fl) !! p = v_frames v !! p.
Proof.
  revert v vpn. induction frs as [|fr frs IH]; intros v vpn; [done|]. rewrite fmap_cons, not_elem_of_cons. intros [Hne Hn].
  cbn [install_run]. rewrite IH by done. cbn. by rewrite lookup_insert_ne.
Qed.

Lemma install_run_new v vs vpn frs fl fr : NoDup frs.*1 → fr ∈ frs →
  v_frames (install_run hw v vs vpn frs fl) !! fr.1 = Some (1%nat, fr.2).
Proof.
  revert v vpn. induction frs as [|fr' frs IH]; intros v vpn; [by intros _ ?%elem_of_nil|].
  rewrite fmap_cons, list.NoDup_cons. intros [Hn Hnd] [->|Hin]%elem_of_cons; cbn [install_run].
  - rewrite install_run_old by done. cbn. by rewrite lookup_insert_eq.
  - by apply IH.
Qed.

Lemma fresh_cons v fr frs : fresh_frames v (fr :: frs) →
  fr.1 ∉ frs.*1 ∧ v_frames v !! fr.1 = None ∧ frame_ok fr ∧ fresh_frames v frs.
Proof.
  intros [Hnd H]. rewrite fmap_cons, list.NoDup_cons in Hnd. destruct Hnd as [Hn Hnd].
  destruct (H fr) as [? ?]; [left|]. split_and!; [done..|]. split; [done|]. intros. apply H. by right.
Qed.

Lemma install_run_good v vs vpn frs fl : hw_ok hw → run_free v vs vpn (length frs) → fresh_frames v frs →
  f_valid fl = true → f_cow fl = false → good_step v (install_run hw v vs vpn frs fl).
Proof.
  intros Hhw Hfree Hfr Hv Hc. revert v vpn Hfree Hfr. induction frs as [|fr frs IH]; intros v vpn Hfree Hfr; [apply good_refl|].
  apply fresh_cons in Hfr as (Hn & Hf & Hok & Hfr). destruct (Hfree 0%nat) as [Hp Hl]; [cbn; lia|]. rewrite Z.add_0_r in Hp, Hl.
  cbn [install_run]. rewrite install_run_first by (lia || done). eapply good_trans; [apply IH|].
  - intros i Hi. destruct (Hfree (S i)) as [? ?]; [cbn; lia|]. by replace (vpn + 1 + i) with (vpn + S i) by lia.
  - done.
  - apply install_good; try done.
    + intros p. rewrite install_run_leaf, decide_False by lia. by rewrite Hl.
    + by rewrite install_run_old.
Qed.

(** The pages of a run and of one appended to it are free before both. *)
Lemma fresh_app v vs vpn frs frs' fl : fresh_frames v frs → fresh_frames (install_run hw v vs vpn frs fl) frs' →
  fresh_frames v (frs ++ frs').
Proof.
  intros [Hnd H] [Hnd' H']. assert (∀ fr, fr ∈ frs' → fr.1 ∉ frs.*1) as Hdis.
  { intros fr Hfr (fr0 & E & Hfr0)%list_elem_of_fmap. destruct (H' _ Hfr) as [Hnone _]. rewrite E in Hnone.
    by rewrite install_run_new in Hnone. }
  split.
  - rewrite fmap_app. apply list.NoDup_app. split_and!; [done| |done].
    intros p Hp (fr & -> & Hfr)%list_elem_of_fmap. by apply (Hdis fr).
  - intros fr [Hfr|Hfr]%elem_of_app; [by apply H|]. destruct (H' _ Hfr) as [Hnone ?]. split; [|done].
    rewrite install_run_old in Hnone; [done|by apply Hdis].
Qed.

Lemma free_app v vs vpn frs n fl : run_free v vs vpn (length frs) →
  run_free (install_run hw v vs vpn frs fl) vs (vpn + length frs) n → run_free v vs vpn (length frs + n).
Proof.
  intros H H' i Hi. destruct (decide (i < length frs)%nat); [by apply H|].
  destruct (H' (i - length frs)%nat) as [Hp Hl]; [lia|].
  rewrite install_run_pte, decide_False in Hp by lia. rewrite install_run_leaf, decide_False in Hl by lia.
  by replace (vpn + length frs + (i - length frs)%nat) with (vpn + i) in Hp, Hl by lia.
Qed.
End runs.

(** ** Mapping *)

Section map.
Context {W : Type} `{CL : CoreMMLaws W}.
Implicit Types (w : W) (vs : Z) (fl : pflags) (v : mview).

Lemma rm_sw_ok : hw_ok rm_sw_flags.
Proof. intros fl. by rewrite rm_sw_flags_spec. Qed.

(** [got] pages from [va] on were free and have new frames. *)
Definition filled w w' vs va (got : Z) fl : Prop :=
  run_free (mv w) vs (VPN va) (Z.to_nat got)
  ∧ ∃ frs, length frs = Z.to_nat got ∧ fresh_frames (mv w) frs
           ∧ mv w' = install_run rm_sw_flags (mv w) vs (VPN va) frs fl.

Lemma fill_chunk_spec fuel w vs va chunk fl w' got : va `mod` PAGE_SIZE = 0 →
  fill_chunk fuel w vs va chunk fl = (w', got) →
  uspaces w' = uspaces w ∧ ((got = 0 ∧ mv w' = mv w) ∨ (0 < got ≤ chunk ∧ filled w w' vs va got fl)).
Proof.
  intros Ha. revert w chunk. induction fuel as [|fuel IH]; intros w chunk; cbn [fill_chunk]; [intros [= <- <-]; auto|].
  destruct (Z.ltb_spec chunk 1); [intros [= <- <-]; auto|].
  destruct (set_range_and_fill w vs va chunk fl) as [w1 [|]] eqn:E.
  - intros [= <- <-]. apply set_range_and_fill_spec in E as [Hu [Hf Hfr]]; [|done|lia]. split; [done|]. right. split; [lia|].
    by split.
  - apply set_range_and_fill_spec in E as [Hu Hm]; [|done|lia]. destruct (Z.eqb_spec chunk 1) as [->|].
    + intros [= <- <-]. auto.
    + intros E. apply IH in E as [Hu2 [[-> Hm2]|[Hg Hf]]].
      * split; [congruence|]. left. split; [done|congruence].
      * split; [congruence|]. right. split.
        -- rewrite Z.shiftr_div_pow2 in Hg by lia. pose proof (Z.div_le_upper_bound chunk (2 ^ 1) chunk). lia.
        -- unfold filled in *. by rewrite Hm in Hf.
Qed.

Lemma shrink_chunk_le fuel k remaining : 0 ≤ k → (Z.to_nat k < fuel)%nat → 0 < remaining →
  1 ≤ shrink_chunk fuel (2 ^ k) remaining ≤ remaining.
Proof.
  revert k. induction fuel as [|fuel IH]; intros k Hk Hlt Hr; [lia|]. cbn [shrink_chunk].
  pose proof (Z.pow_pos_nonneg 2 k). destruct (Z.ltb_spec remaining (2 ^ k)); [|lia].
  destruct (decide (k = 0)) as [->|]; [change (2 ^ 0) with 1 in *; lia|].
  rewrite Z.shiftr_div_pow2 by lia. replace (2 ^ k `div` 2 ^ 1) with (2 ^ (k - 1)); [apply IH; lia|].
  rewrite Z.pow_sub_r by lia. done.
Qed.

Lemma buddy_chunk_le remaining : 0 < remaining → 1 ≤ linux_mm_buddy_chunk_pages remaining ≤ remaining.
Proof.
  intros. unfold linux_mm_buddy_chunk_pages. rewrite Z.shiftl_mul_pow2, Z.mul_1_l by lia. apply shrink_chunk_le; lia.
Qed.

Lemma fill_one_span_spec w vs va remaining fl w' got : va `mod` PAGE_SIZE = 0 → 0 < remaining →
  linux_mm_fill_one_span w vs va remaining fl = (w', got) →
  uspaces w' = uspaces w ∧ ((got = 0 ∧ mv w' = mv w) ∨ (0 < got ≤ remaining ∧ filled w w' vs va got fl)).
Proof.
  intros Ha Hr E. apply fill_chunk_spec in E as [? [?|[? ?]]]; [auto..| |done]. split; [done|]. right.
  pose proof (buddy_chunk_le remaining Hr). split; [lia|done].
Qed.

(** The pages mapped so far, over the view at the start. *)
Definition so_far v w vs va (n : Z) fl : Prop :=
  run_free v vs (VPN va) (Z.to_nat n)
  ∧ ∃ frs, length frs = Z.to_nat n ∧ fresh_frames v frs ∧ mv w = install_run rm_sw_flags v vs (VPN va) frs fl.

Lemma map_spans_spec fuel v w vs hint mapped page_num fl w' r :
  0 ≤ hint → hint `mod` PAGE_SIZE = 0 → hint + page_num * PAGE_SIZE ≤ 2 ^ 64 →
  0 ≤ mapped ≤ page_num → (Z.to_nat (page_num - mapped) ≤ fuel)%nat → so_far v w vs hint mapped fl →
  map_spans fuel w vs hint mapped page_num fl = (w', r) →
  uspaces w' = uspaces w
  ∧ match r with None => so_far v w' vs hint page_num fl | Some m => 0 ≤ m < page_num ∧ so_far v w' vs hint m fl end.
Proof.
  intros Hh Ha Hend. revert w mapped. induction fuel as [|fuel IH]; intros w mapped Hm Hfuel Hsf; cbn [map_spans];
    destruct (Z.leb_spec page_num mapped).
  1,3: intros [= <- <-]; split; [done|]; by replace page_num with mapped by lia.
  - lia.
  - destruct (linux_mm_fill_one_span _ _ _ _ _) as [w1 got] eqn:E. rewrite (page_va _ _ page_num) in E by lia.
    apply fill_one_span_spec in E as [Hu [[-> Hmv]|[Hg Hf]]]; [| |by apply aligned_add|lia].
    + intros [= <- <-]. split; [done|]. split; [lia|]. unfold so_far in *. by rewrite Hmv.
    + destruct (Z.eqb_spec got 0); [lia|]. intros E. apply IH in E as [Hu2 Hr]; [split; [congruence|done]|lia|lia|].
      destruct Hsf as (Hfree & frs & Hlen & Hfr & Hmv). destruct Hf as (Hfree2 & frs2 & Hlen2 & Hfr2 & Hmv2).
      rewrite VPN_add in *. assert (mapped = length frs) as Hml by lia.
      rewrite Hmv in Hfree2, Hfr2, Hmv2. rewrite Hml in Hfree2, Hmv2. rewrite <- install_run_app in Hmv2.
      unfold so_far. replace (Z.to_nat (mapped + got)) with (length frs + Z.to_nat got)%nat by lia. split.
      * apply (free_app rm_sw_flags _ _ _ _ _ fl); [by rewrite Hlen|done].
      * exists (frs ++ frs2). split_and!; [rewrite length_app; lia|by eapply fresh_app|done].
Qed.

Lemma unmap_prefix_spec v w vs hint done n fl frs page_num : 0 ≤ hint → hint `mod` PAGE_SIZE = 0 →
  hint + page_num * PAGE_SIZE ≤ 2 ^ 64 → 0 ≤ done → done + Z.of_nat n ≤ page_num →
  length frs = n → run_free v vs (VPN hint + done) n → fresh_frames v frs →
  mv w = install_run rm_sw_flags v vs (VPN hint + done) frs fl →
  let w' := linux_mm_unmap_prefix_pages w vs hint done n in uspaces w' = uspaces w ∧ mv w' = v.
Proof.
  intros Hh Ha Hend. revert w done frs. induction n as [|n IH]; intros w done frs Hd Hle Hlen Hfree Hfr Hmv.
  - destruct frs; [|done]. done.
  - destruct frs as [|fr frs]; [done|]. injection Hlen as Hlen. apply fresh_cons in Hfr as (Hn & Hf & Hok & Hfr).
    destruct (Hfree 0%nat) as [Hp Hl]; [lia|]. rewrite Z.add_0_r in Hp, Hl.
    cbn [install_run] in Hmv. rewrite install_run_first in Hmv by (lia || done).
    cbn [linux_mm_unmap_prefix_pages]. rewrite (page_va _ _ page_num) by lia.
    destruct (have_mapped _ _ _ _) as [w1 r] eqn:E. apply have_mapped_spec in E as (Hu & -> & Hm1).
    rewrite VPN_add, Hmv in *. cbn in Hm1 |- *. rewrite lookup_insert_eq in *. cbn.
    set (va := hint + done * PAGE_SIZE). assert (VPN va = VPN hint + done) as Hva by apply VPN_add.
    destruct (clean_range_and_unfill_spec w1 vs va 1 fr.1) as (w2 & -> & Hu2 & Hm2);
      [by apply aligned_add|done| |].
    { rewrite Hva, Hm1. intros i Hi. replace i with 0%nat by (cbn in Hi; lia). rewrite !Z.add_0_r. cbn. rewrite !lookup_insert_eq. eauto. }
    cbn. rewrite <- Hu, <- Hu2. apply (IH w2 (done + 1) frs); [lia|lia|done| |done|].
    + intros i Hi. destruct (Hfree (S i)) as [? ?]; [lia|]. by replace (VPN hint + (done + 1) + i) with (VPN hint + done + S i) by lia.
    + rewrite Hm2, Hva, Hm1. cbn [remove_run Z.to_nat Pos.to_nat Pos.iter_op]. change (Z.to_nat 1) with 1%nat. cbn [remove_run].
      rewrite install_remove; [f_equal; lia| | |].
      * by rewrite install_run_pte, decide_False by lia.
      * by rewrite install_run_leaf, decide_False by lia.
      * by rewrite install_run_old.
Qed.

(** Every page of the range was free and is mapped with its own new frame;
    nothing else changes. *)
Definition mapped_new w w' vs va (n : Z) fl : Prop :=
  va ≠ 0 ∧ va `mod` PAGE_SIZE = 0 ∧ 0 < n ∧ va + n * PAGE_SIZE ≤ 2 ^ 64 ∧ so_far (mv w) w' vs va n fl.

Lemma with_locks_id v : with_locks v (v_locks v) = v.
Proof. by destruct v. Qed.

Lemma map_user_range_spec w vs hint page_num fl w' r : 0 ≤ hint < 2 ^ 64 → 0 ≤ page_num →
  linux_mm_map_user_range w vs hint page_num fl = (w', r) →
  uspaces w' = uspaces w
  ∧ if decide (r = 0) then mv w' = mv w else r = hint ∧ mapped_new w w' vs hint page_num fl.
Proof.
  intros Hh Hn. unfold linux_mm_map_user_range.
  destruct (negb (vs_is_user w vs) || _ || _ || _) eqn:Hg; [by intros [= <- <-]|].
  apply orb_false_iff in Hg as [Hg Ha]. apply negb_false_iff in Ha. apply page_aligned in Ha; [|done].
  apply orb_false_iff in Hg as [Hg Hh0]. apply orb_false_iff in Hg as [_ Hn0].
  apply Z.eqb_neq in Hh0, Hn0.
  destruct (radix_end_check hint page_num) as [e|] eqn:He; [|by intros [= <- <-]].
  apply radix_end_check_spec in He as [-> Hend].
  destruct (radix_lock _ _ _ _) as [w1 e1] eqn:El. apply radix_lock_spec in El as [Hu1 Hm1].
  set (x := (vs, linux_mm_l0_lock_lo hint, hint + page_num * PAGE_SIZE)) in *.
  destruct (decide (e1 = REND_SUCCESS)) as [->|Hne]; [|destruct e1; try done; by intros [= <- <-]].
  destruct (map_spans _ _ _ _ _ _ _) as [w2 r2] eqn:Em.
  apply (map_spans_spec _ (mv w1)) in Em as [Hu2 Hr]; [|lia|done..|lia| |].
  2: lia.
  2: { split; [intros i Hi; cbn in Hi; lia|]. exists []. split_and!; [done| |done]. split; [constructor|by intros ? ?%elem_of_nil]. }
  assert (∀ frs, v_locks (install_run rm_sw_flags (mv w1) vs (VPN hint) frs fl) = x :: v_locks (mv w)) as Hlk.
  { intros frs. by rewrite install_run_vlocks, Hm1. }
  destruct r2 as [m|].
  - destruct Hr as (Hmr & Hfree & frs & Hlen & Hfr & Hm2).
    destruct (unmap_prefix_spec (mv w1) w2 vs hint 0 (Z.to_nat m) fl frs page_num) as [Hu3 Hm3];
      [lia|done|done|lia|lia|done|by rewrite Z.add_0_r|done|by rewrite Z.add_0_r|].
    set (w3 := linux_mm_unmap_prefix_pages _ _ _ _ _) in *.
    destruct (radix_unlock_spec w3 vs (linux_mm_l0_lock_lo hint) (hint + page_num * PAGE_SIZE) (v_locks (mv w))) as [Hu4 Hm4].
    { by rewrite Hm3, Hm1. }
    intros [= <- <-]. split; [congruence|]. cbn. rewrite Hm4, Hm3, Hm1. apply (with_locks_id (mv w)).
  - destruct Hr as (Hfree & frs & Hlen & Hfr & Hm2).
    destruct (radix_unlock_spec w2 vs (linux_mm_l0_lock_lo hint) (hint + page_num * PAGE_SIZE) (v_locks (mv w))) as [Hu4 Hm4].
    { by rewrite Hm2, Hlk. }
    intros [= <- <-]. split; [congruence|]. rewrite decide_False by done. split; [done|].
    split_and!; [done|done|lia|done|]. rewrite Hm1 in *. split; [done|]. exists frs. split_and!; [done..|].
    rewrite Hm4, Hm2, install_run_locks. rewrite <- (install_run_vlocks rm_sw_flags (mv w) vs (VPN hint) frs fl).
    apply (with_locks_id (install_run rm_sw_flags (mv w) vs (VPN hint) frs fl)).
Qed.

Lemma mapped_new_good w w' vs va n fl : f_valid fl = true → f_cow fl = false →
  mapped_new w w' vs va n fl → good_step (mv w) (mv w').
Proof.
  intros Hv Hc (_ & _ & _ & _ & Hfree & frs & Hlen & Hfr & ->).
  apply install_run_good; [apply rm_sw_ok|by rewrite Hlen|done..].
Qed.
End map.

(** ** Unmapping *)

Definition page_mapped (v : mview) (vs vpn : Z) : Prop := is_Some (v_pte v !! (vs, vpn)).

(** [n] pages are removed one by one, each giving up its frame. *)
Definition unmap_page (v : mview) (vs vpn : Z) : mview :=
  match v_pte v !! (vs, vpn) with Some (p, _) => remove v vs vpn p | None => v end.
Fixpoint unmap_pages (v : mview) (vs vpn : Z) (n : nat) : mview :=
  match n with O => v | S n' => unmap_pages (unmap_page v vs vpn) vs (vpn + 1) n' end.

Lemma unmap_page_pte v vs vpn s n : v_pte (unmap_page v vs vpn) !! (s, n) =
  if decide (s = vs ∧ n = vpn) then None else v_pte v !! (s, n).
Proof.
  unfold unmap_page. destruct (v_pte v !! (vs, vpn)) as [[p pt]|] eqn:E; cbn; case_decide as H.
  - destruct H as [-> ->]. apply lookup_delete_eq.
  - apply lookup_delete_ne. intros [= -> ->]. by apply H.
  - by destruct H as [-> ->].
  - done.
Qed.

Lemma unmap_pages_pte v vs vpn k s n : v_pte (unmap_pages v vs vpn k) !! (s, n) =
  if decide (s = vs ∧ vpn ≤ n < vpn + k) then None else v_pte v !! (s, n).
Proof.
  revert v vpn. induction k as [|k IH]; intros v vpn; cbn [unmap_pages].
  - by rewrite decide_False by lia.
  - rewrite IH, unmap_page_pte. repeat case_decide; try done; lia.
Qed.

Lemma unmap_pages_add v vs vpn a b : unmap_pages v vs vpn (a + b) = unmap_pages (unmap_pages v vs vpn a) vs (vpn + a) b.
Proof.
  revert v vpn. induction a as [|a IH]; intros v vpn; cbn [unmap_pages Nat.add].
  - by rewrite Z.add_0_r.
  - rewrite IH. f_equal. lia.
Qed.

Lemma unmap_pages_locks v vs vpn n l : unmap_pages (with_locks v l) vs vpn n = with_locks (unmap_pages v vs vpn n) l.
Proof.
  revert v vpn. induction n as [|n IH]; intros v vpn; [done|]. cbn [unmap_pages]. rewrite <- IH. f_equal.
  unfold unmap_page. cbn. by destruct (v_pte v !! (vs, vpn)) as [[? ?]|].
Qed.

Lemma unmap_page_good v vs vpn : good_step v (unmap_page v vs vpn).
Proof.
  intros Hi. unfold unmap_page. destruct (v_pte v !! (vs, vpn)) as [[p pt]|] eqn:E; [|by apply good_refl].
  destruct (mi_pte _ Hi _ _ _ E) as (_ & lf & Hl & _). by eapply remove_good.
Qed.

Lemma unmap_pages_good v vs vpn n : good_step v (unmap_pages v vs vpn n).
Proof.
  revert v vpn. induction n as [|n IH]; intros v vpn; [apply good_refl|]. eapply good_trans; [apply unmap_page_good|apply IH].
Qed.

Lemma remove_run_unmap v vs vpn p n : run_mapped v vs vpn p n → remove_run v vs vpn p n = unmap_pages v vs vpn n.
Proof.
  revert v vpn p. induction n as [|n IH]; intros v vpn p Hr; [done|]. cbn [remove_run unmap_pages].
  destruct (Hr 0%nat) as (pt & lf & Hp & Hl); [lia|]. rewrite Z.add_0_r in Hp.
  unfold unmap_page. rewrite Hp. rewrite Z.add_0_r. apply IH. intros i Hi.
  destruct (Hr (S i)) as (pt' & lf' & Hp' & Hl'); [lia|]. exists pt', lf'. cbn.
  replace (vpn + 1 + i) with (vpn + S i) by lia. replace (p + 1 + i) with (p + S i) by lia.
  by rewrite !lookup_delete_ne by (intros [=]; lia).
Qed.

Section unmap.
Context {W : Type} `{CL : CoreMMLaws W}.
Implicit Types (w : W) (vs : Z) (fl : pflags) (v : mview).

Lemma have_mapped_look w vs vpn w' r : have_mapped w vs vpn false = (w', r) →
  uspaces w' = uspaces w ∧ mv w' = mv w ∧ r = (λ e : Z * pflags, (e.1, e.2, 3)) <$> v_pte (mv w) !! (vs, vpn).
Proof. intros (? & ? & ?)%have_mapped_spec. auto. Qed.

Lemma ppn_run_spec fuel w vs start done run page_num p w' r :
  0 ≤ start → start + page_num * PAGE_SIZE ≤ 2 ^ 64 → 0 ≤ done → 1 ≤ run → done + run ≤ page_num →
  mm_inv (mv w) → run_mapped (mv w) vs (VPN start + done) p (Z.to_nat run) →
  ppn_run fuel w vs start done run page_num p = (w', r) →
  uspaces w' = uspaces w ∧ mv w' = mv w ∧ run ≤ r ∧ done + r ≤ page_num
  ∧ run_mapped (mv w) vs (VPN start + done) p (Z.to_nat r).
Proof.
  intros Hs Hend Hd. revert w run. induction fuel as [|fuel IH]; intros w run Hr Hle Hi Hrun; cbn [ppn_run];
    destruct (Z.ltb_spec (done + run) page_num); try (intros [= <- <-]; split_and!; done || lia).
  rewrite (page_va _ _ page_num) by lia. destruct (have_mapped _ _ _ _) as [w1 r1] eqn:E.
  apply have_mapped_look in E as (Hu & Hm & ->). rewrite VPN_add in *.
  destruct (v_pte (mv w) !! (vs, VPN start + (done + run))) as [[q pt]|] eqn:Hp; cbn;
    [|intros [= <- <-]; split_and!; done || lia].
  destruct (Z.eqb_spec q (p + run)) as [->|]; [|intros [= <- <-]; split_and!; done || lia].
  intros E. rewrite <- Hm in Hi, Hrun, Hp. apply IH in E as (Hu2 & Hm2 & Hrr & Hdr & Hrun'); [|lia|lia|done|].
  - rewrite Hm in *. split_and!; [congruence|congruence|lia|lia|done].
  - intros i Hi'. destruct (decide (i < Z.to_nat run)%nat); [by apply Hrun|]. replace (Z.of_nat i) with run by lia.
    destruct (mi_pte _ Hi _ _ _ Hp) as (_ & lf & Hl & _). exists pt, lf.
    by replace (VPN start + done + run) with (VPN start + (done + run)) by lia.
Qed.

Lemma unmap_runs_spec fuel w vs start done page_num w' e :
  0 ≤ start → start `mod` PAGE_SIZE = 0 → start + page_num * PAGE_SIZE ≤ 2 ^ 64 → 0 ≤ done ≤ page_num →
  (Z.to_nat (page_num - done) ≤ fuel)%nat → mm_inv (mv w) →
  unmap_runs fuel w vs start done page_num = (w', e) →
  uspaces w' = uspaces w ∧ ∃ k, done + Z.of_nat k ≤ page_num
    ∧ (∀ i, 0 ≤ i < k → page_mapped (mv w) vs (VPN start + done + i))
    ∧ mv w' = unmap_pages (mv w) vs (VPN start + done) k
    ∧ if decide (e = REND_SUCCESS) then done + k = page_num
      else done + k < page_num ∧ ¬ page_mapped (mv w) vs (VPN start + done + k).
Proof.
  intros Hs Ha Hend. revert w done. induction fuel as [|fuel IH]; intros w done Hd Hfuel Hi; cbn [unmap_runs];
    destruct (Z.leb_spec page_num done).
  1,3: intros [= <- <-]; split; [done|]; exists 0%nat; split_and!; [lia|intros; lia|done|rewrite decide_True by done; lia].
  - lia.
  - rewrite (page_va _ _ page_num) by lia. destruct (have_mapped _ _ _ _) as [w1 r1] eqn:E.
    apply have_mapped_look in E as (Hu & Hm & ->). rewrite VPN_add in *.
    destruct (v_pte (mv w) !! (vs, VPN start + done)) as [[p pt]|] eqn:Hp; cbn.
    2: { intros [= <- <-]. split; [done|]. exists 0%nat. split_and!; [lia|intros; lia|done|]. rewrite decide_False by done. split; [lia|].
         rewrite Z.add_0_r. unfold page_mapped. rewrite Hp. by intros [? ?]. }
    destruct (ppn_run _ _ _ _ _ _ _ _) as [w2 run] eqn:Er.
    rewrite <- Hm in Hi, Hp. destruct (mi_pte _ Hi _ _ _ Hp) as (_ & lf & Hl & _).
    apply ppn_run_spec in Er as (Hu2 & Hm2 & Hr1 & Hr2 & Hrun); [|lia|done|lia|lia|lia|done|].
    2: { intros i Hi'. replace i with 0%nat by (cbn in Hi'; lia). rewrite !Z.add_0_r. eauto. }
    destruct (clean_range_and_unfill_spec w2 vs (start + done * PAGE_SIZE) run p) as (w3 & -> & Hu3 & Hm3);
      [by apply aligned_add|lia|by rewrite VPN_add, Hm2|].
    rewrite VPN_add, Hm2, remove_run_unmap in Hm3 by done. intros E.
    apply IH in E as (Hu4 & k & Hk & Hmap & Hmv & He); [|lia|lia|].
    2: { rewrite Hm3. by destruct (unmap_pages_good (mv w1) vs (VPN start + done) (Z.to_nat run) Hi). }
    rewrite Hm in *. split; [congruence|]. exists (Z.to_nat run + k)%nat.
    assert (∀ i, Z.to_nat run ≤ i → page_mapped (mv w3) vs (VPN start + done + i) ↔ page_mapped (mv w) vs (VPN start + done + i)) as Hiff.
    { intros i Hge. unfold page_mapped. by rewrite Hm3, unmap_pages_pte, decide_False by lia. }
    replace (VPN start + (done + run)) with (VPN start + done + run) in * by lia. split_and!; [lia| | |].
    + intros i Hir. destruct (decide (i < run)).
      * destruct (Hrun (Z.to_nat i)) as (? & ? & Hpi & _); [lia|]. rewrite Z2Nat.id in Hpi by lia. by eexists.
      * apply Hiff; [lia|]. replace (VPN start + done + i) with (VPN start + done + run + (i - run)) by lia. apply Hmap. lia.
    + rewrite unmap_pages_add, <- Hm3, Hmv. f_equal. lia.
    + case_decide; [lia|]. destruct He as [He Hn]. split; [lia|]. rewrite <- Hiff by lia.
      by replace (VPN start + done + (Z.to_nat run + k)%nat) with (VPN start + done + run + k) by lia.
Qed.

(** The first [k] pages are removed; the call succeeds when these are all. *)
Definition unmapped w w' vs start (page_num : Z) (e : error_t) : Prop :=
  start `mod` PAGE_SIZE = 0 ∧ start + page_num * PAGE_SIZE ≤ 2 ^ 64 ∧
  ∃ k, Z.of_nat k ≤ page_num
    ∧ (∀ i, 0 ≤ i < k → page_mapped (mv w) vs (VPN start + i))
    ∧ mv w' = unmap_pages (mv w) vs (VPN start) k
    ∧ if decide (e = REND_SUCCESS) then Z.of_nat k = page_num
      else k < page_num ∧ ¬ page_mapped (mv w) vs (VPN start + k).

Lemma unmap_user_range_spec w vs start page_num w' e : 0 ≤ start < 2 ^ 64 → 0 ≤ page_num → mm_inv (mv w) →
  linux_mm_unmap_user_range w vs start page_num = (w', e) →
  uspaces w' = uspaces w ∧ ((e ≠ REND_SUCCESS ∧ mv w' = mv w) ∨ unmapped w w' vs start page_num e).
Proof.
  intros Hs Hn Hi. unfold linux_mm_unmap_user_range.
  destruct (negb (vs_is_user w vs) || _ || _) eqn:Hg; [intros [= <- <-]; auto|].
  apply orb_false_iff in Hg as [Hg Ha]. apply negb_false_iff in Ha. apply page_aligned in Ha; [|done].
  destruct (radix_end_check start page_num) as [en|] eqn:He; [|intros [= <- <-]; auto].
  apply radix_end_check_spec in He as [-> Hend].
  destruct (radix_lock _ _ _ _) as [w1 e1] eqn:El. apply radix_lock_spec in El as [Hu1 Hm1].
  destruct (decide (e1 = REND_SUCCESS)) as [->|Hne]; [|destruct e1; try done; intros [= <- <-]; auto].
  destruct (unmap_runs _ _ _ _ _ _) as [w2 e2] eqn:Er.
  assert (mm_inv (mv w1)) as Hi1 by (rewrite Hm1; by destruct Hi).
  apply unmap_runs_spec in Er as (Hu2 & k & Hk & Hmap & Hmv & Hres); [|lia|done|done|lia|lia|done].
  rewrite Hm1 in *. rewrite Z.add_0_r in *. rewrite unmap_pages_locks in Hmv.
  destruct (radix_unlock_spec w2 vs (linux_mm_l0_lock_lo start) (start + page_num * PAGE_SIZE) (v_locks (mv w))) as [Hu3 Hm3];
    [by rewrite Hmv|].
  intros [= <- <-]. split; [congruence|]. right. split_and!; [done..|]. exists k. split_and!; [lia|done| |done].
  rewrite Hm3, Hmv. destruct (unmap_pages_good _ vs (VPN start) k Hi) as (_ & _ & <-).
  apply (with_locks_id (unmap_pages _ _ _ _)).
Qed.

Lemma unmap_user_range_good w vs start page_num : 0 ≤ start < 2 ^ 64 → 0 ≤ page_num → mm_inv (mv w) →
  uspaces (linux_mm_unmap_user_range w vs start page_num).1 = uspaces w
  ∧ good_step (mv w) (mv (linux_mm_unmap_user_range w vs start page_num).1).
Proof.
  intros Hs Hn Hi. destruct (linux_mm_unmap_user_range w vs start page_num) as [w' e] eqn:E.
  apply unmap_user_range_spec in E as [Hu [[_ Hm]|(_ & _ & k & _ & _ & Hm & _)]]; [..|done|done|done]; cbn; rewrite Hm;
    (split; [done|]); [apply good_refl|apply unmap_pages_good].
Qed.
End unmap.
