(* ===== verification/MmCow.v ===== *)
(** * Copy on write, faults and fork

    Splitting a shared page, reinstalling a page table entry, the page-fault
    handler and the copy of an address space, over the view of [MmSpec]. *)

From stdpp Require Import base numbers list gmap option.
From S2P Require Import Prelude PageSlice PortNames Proc Mm MmSys MmSpec MmInv MmView MmThm.

Section frames.
Implicit Types (f : frames) (v : mview).

Lemma pin_unpin v p n b : v_frames v !! p = Some (S n, b) →
  with_frames (with_frames v (take_ref (v_frames v) p)) (drop_ref (take_ref (v_frames v) p) p) = v.
Proof.
  intros Hf. rewrite take_drop by (rewrite ?Hf; eauto; intros ? ? [= <- _]; lia). by destruct v.
Qed.

Lemma take_insert f p q e : p ≠ q → <[q := e]> (take_ref f p) = take_ref (<[q := e]> f) p.
Proof.
  intros Hne. unfold take_ref. rewrite lookup_insert_ne by done. destruct (f !! p) as [[n b]|]; [by apply insert_insert_ne|done].
Qed.

Lemma set_bytes_insert f p n b b' : set_bytes (<[p := (n, b)]> f) p b' = <[p := (n, b')]> f.
Proof. unfold set_bytes. by rewrite lookup_insert_eq, insert_insert_eq. Qed.

Lemma drop_insert f p b : f !! p = None → drop_ref (<[p := (1%nat, b)]> f) p = f.
Proof. intros Hf. unfold drop_ref. by rewrite lookup_insert_eq, delete_insert_id. Qed.

Lemma take_lookup_None f p q : p ≠ q → take_ref f p !! q = None → f !! q = None.
Proof. intros Hne. unfold take_ref. destruct (f !! p) as [[n b]|]; [by rewrite lookup_insert_ne|done]. Qed.
End frames.

Section cow.
Context {W : Type} `{CL : CoreMMLaws W}.
Implicit Types (w : W) (vs : Z) (fl : pflags) (v : mview).

Lemma query_vaddr_spec w vs va e pva fl : 0 ≤ va < 2 ^ 64 → linux_mm_query_vaddr w vs va = (e, (pva, fl)) →
  e = REND_SUCCESS → pva = page_round_down va ∧ ∃ o, v_leaf (mv w) !! (vs, VPN (page_round_down va)) = Some (fl, o).
Proof.
  intros Hva. unfold linux_mm_query_vaddr. destruct (negb (vs_is_user w vs)); [by intros [= <- <- <-]|].
  destruct (radix_end_check _ 1) as [en|] eqn:He; [|by intros [= <- <- <-]].
  apply radix_end_check_spec in He as [-> _]. destruct (round_down_aligned va Hva) as [Ha _]. rewrite Z.mul_1_l.
  destruct (radix_query _ _ _ _) as [e1 fl1] eqn:Eq. apply radix_query_spec in Eq; [|done].
  destruct (decide (e1 = REND_SUCCESS)) as [->|Hne]; [intros [= <- <- <-] _; auto|].
  destruct e1; try done; intros [= <- <- <-]; done.
Qed.

Lemma unlock_back w vs lo hi v : mv w = with_locks v ((vs, lo, hi) :: v_locks v) →
  uspaces (radix_unlock w vs lo hi) = uspaces w ∧ mv (radix_unlock w vs lo hi) = v.
Proof.
  intros Hm. destruct (radix_unlock_spec w vs lo hi (v_locks v)) as [Hu ->]; [by rewrite Hm|]. split; [done|].
  rewrite Hm. apply (with_locks_id v).
Qed.

Lemma remap_user_leaf_spec w vs va new fl old w' e : 0 ≤ va < 2 ^ 64 →
  linux_mm_remap_user_leaf w vs va new fl old = (w', e) →
  let k := (vs, VPN (page_round_down va)) in
  uspaces w' = uspaces w
  ∧ if decide (e = REND_SUCCESS)
    then (∃ pt lf, v_pte (mv w) !! k = Some (old, pt) ∧ v_leaf (mv w) !! k = Some (lf, Some old))
         ∧ mv w' = MView (<[k := (new, rm_sw_flags fl)]> (v_pte (mv w))) (<[k := (fl, Some new)]> (v_leaf (mv w)))
                         (drop_ref (v_frames (mv w)) old) (v_locks (mv w))
    else mv w' = mv w.
Proof.
  intros Hva. unfold linux_mm_remap_user_leaf. destruct (negb (vs_is_user w vs)); [by intros [= <- <-]|].
  destruct (radix_end_check _ 1) as [en|] eqn:He; [|by intros [= <- <-]].
  apply radix_end_check_spec in He as [-> _]. destruct (round_down_aligned va Hva) as [Ha _].
  destruct (radix_lock _ _ _ _) as [w1 e1] eqn:El. apply radix_lock_spec in El as [Hu1 Hm1].
  destruct (decide (e1 = REND_SUCCESS)) as [->|Hne]; [|destruct e1; try done; by intros [= <- <-]].
  destruct (remap_page _ _ _ _ _ _) as [w2 e2] eqn:Er. apply remap_page_spec in Er as [Hu2 Hm2]; [|done].
  intros [= <- <-]. rewrite Hm1 in Hm2. case_decide.
  - destruct Hm2 as [Hpre Hm2]. edestruct (radix_unlock_spec w2) as [Hu3 Hm3]; [by rewrite Hm2|].
    split; [congruence|]. split; [done|]. by rewrite Hm3, Hm2.
  - edestruct (unlock_back w2) as [Hu3 Hm3]; [exact Hm2|]. split; congruence.
Qed.

(** The page of [va] got a private, writable copy of its frame. *)
Definition split_done (v v' : mview) vs va : Prop :=
  let k := (vs, VPN (page_round_down va)) in
  ∃ old opt lf new n b,
    v_pte v !! k = Some (old, opt) ∧ f_write opt = false
    ∧ v_leaf v !! k = Some (lf, Some old) ∧ f_write lf = true
    ∧ v_frames v !! old = Some (n, b) ∧ v_frames v !! new = None ∧ frame_ok (new, b)
    ∧ v' = cow_view v k old new b (rm_sw_flags (cow_new_flags lf)) (cow_new_flags lf).

Lemma cow_split_spec w vs va w' e : 0 ≤ va < 2 ^ 64 → mm_inv (mv w) → linux_mm_cow_split_page w vs va = (w', e) →
  uspaces w' = uspaces w
  ∧ ((mv w' = mv w ∧ (e = REND_SUCCESS → match v_pte (mv w) !! (vs, VPN (page_round_down va)) with
                                         | Some (_, pt) => f_write pt = true | None => True end))
     ∨ (e = REND_SUCCESS ∧ split_done (mv w) (mv w') vs va)).
Proof.
  intros Hva Hi. destruct (round_down_aligned va Hva) as [Ha Hr]. unfold linux_mm_cow_split_page.
  destruct (negb (vs_is_user w vs)); [intros [= <- <-]; split; [done|]; left; done|].
  destruct (have_mapped _ _ _ _) as [w1 r] eqn:Eh. apply have_mapped_spec in Eh as (Hu1 & -> & Hm1).
  set (k := (vs, VPN (page_round_down va))) in *.
  destruct (v_pte (mv w) !! k) as [[old opt]|] eqn:Hp; cbn; [|intros [= <- <-]; split; [done|]; by left].
  destruct (mi_pte _ Hi _ _ _ Hp) as (Hval & lf & Hl & _). rewrite Hval. cbn.
  destruct (mapped_frame _ _ _ _ Hi Hp) as (n & b & Hf).
  pose proof (pin_unpin _ _ _ _ Hf) as Hpu.
  assert (∀ w2, mv w2 = mv w1 → mv (pmm_free1 w2 old) = mv w) as Hun.
  { intros w2 E. destruct (pmm_free1_spec w2 old) as [_ ->]. by rewrite E, Hm1. }
  assert (∀ w p, uspaces (pmm_free1 w p) = uspaces w) as Huf by (intros; apply pmm_free1_spec).
  destruct (f_write opt) eqn:Hw; [intros [= <- <-]; rewrite Huf; split; [done|]; left; split; [by apply Hun|done]|].
  destruct (linux_mm_query_vaddr w1 vs (page_round_down va)) as [e1 [pva radix]] eqn:Eq.
  destruct (decide (e1 = REND_SUCCESS)) as [->|Hne1].
  2: { destruct e1; try done; intros [= <- <-]; rewrite Huf; (split; [done|]); left; (split; [by apply Hun|done]). }
  apply query_vaddr_spec in Eq as [_ (o & Ho)]; [|lia|done].
  rewrite page_round_down_eq, Ha, Z.sub_0_r, Hm1 in Ho by lia. cbn in Ho. fold k in Ho. rewrite Hl in Ho. injection Ho as <- <-.
  destruct (f_write lf) eqn:Hwl; cbn; [|intros [= <- <-]; rewrite Huf; split; [done|]; left; split; [by apply Hun|done]].
  destruct (pmm_alloc1 w1) as [w2 [new|]] eqn:Ea; apply pmm_alloc1_spec in Ea as [Hu2 Ha2].
  2: { intros [= <- <-]. rewrite Huf. split; [congruence|]. left. split; [by apply Hun|done]. }
  destruct Ha2 as (Hnew & b0 & Hok & Hm2). rewrite Hm1 in Hnew, Hm2. cbn in Hnew, Hm2.
  assert (old ≠ new) as Hno.
  { intros <-. unfold take_ref in Hnew. rewrite Hf, lookup_insert_eq in Hnew. done. }
  apply take_lookup_None in Hnew as Hnew0; [|done].
  destruct (copy_page w2 new old) as [w3 e3] eqn:Ec.
  eapply copy_page_spec in Ec as (Hu3 & b1 & Hlen & Hb1 & Hm3); [|done| |].
  2: { rewrite Hm2. cbn. by rewrite lookup_insert_eq. }
  2: { rewrite Hm2. cbn. rewrite lookup_insert_ne by done. unfold take_ref. by rewrite Hf, lookup_insert_eq. }
  rewrite Hm2 in Hm3. cbn in Hm3. rewrite set_bytes_insert in Hm3.
  assert (∀ w4, mv w4 = with_frames (mv w) (<[new := (1%nat, b1)]> (take_ref (v_frames (mv w)) old)) →
            mv (pmm_free1 (pmm_free1 w4 new) old) = mv w ∧ mv (pmm_free1 (pmm_free1 w4 old) new) = mv w) as Hundo.
  { intros w4 E. split.
    - destruct (pmm_free1_spec (pmm_free1 w4 new) old) as [_ ->]. destruct (pmm_free1_spec w4 new) as [_ ->]. rewrite E. cbn.
      by rewrite drop_insert.
    - destruct (pmm_free1_spec (pmm_free1 w4 old) new) as [_ ->]. destruct (pmm_free1_spec w4 old) as [_ ->]. rewrite E. cbn.
      rewrite take_insert, take_drop, drop_insert by (done || (rewrite lookup_insert_ne by done; rewrite Hf; eauto; intros ? ? [= <- _]; lia)).
      by destruct (mv w). }
  destruct (decide (e3 = REND_SUCCESS)) as [->|Hne3].
  2: { destruct e3; try done; intros [= <- <-]; rewrite !Huf; (split; [congruence|]); left; (split; [by apply Hundo|done]). }
  rewrite Hb1 in * by done. clear Hb1.
  destruct (linux_mm_remap_user_leaf _ _ _ _ _ _) as [w4 e4] eqn:Er. apply remap_user_leaf_spec in Er as [Hu4 Hm4]; [|lia].
  cbn zeta in Hm4. rewrite (page_round_down_eq (page_round_down va)), Ha, Z.sub_0_r in Hm4 by lia. fold k in Hm4.
  destruct (decide (e4 = REND_SUCCESS)) as [->|Hne4].
  - rewrite bool_decide_true by done. destruct Hm4 as [_ Hm4]. intros [= <- <-]. rewrite Huf. split; [congruence|]. right.
    split; [done|]. exists old, opt, lf, new, (S n), b. split_and!; try done.
    { destruct (mi_frames _ Hi _ _ _ Hf) as [_ [_ Hlb]]. split; [apply Hok|done]. }
    destruct (pmm_free1_spec w4 old) as [_ ->]. rewrite Hm4, Hm3. unfold cow_view. cbn. unfold with_frames. cbn. f_equal.
    rewrite take_insert, take_drop by (done || (rewrite lookup_insert_ne by done; rewrite Hf; eauto; intros ? ? [= <- _]; lia)). done.
  - rewrite bool_decide_false by done. intros [= <- <-]. rewrite !Huf. split; [congruence|]. left.
    split; [apply Hundo; by rewrite Hm4, Hm3|done].
Qed.

Lemma split_good v v' vs va : mm_inv v → split_done v v' vs va → good_step v v'.
Proof.
  intros Hi (old & opt & lf & new & n & b & Hp & _ & Hl & Hw & Hf & Hn & Hok & ->).
  eapply cow_good; try done; rewrite ?rm_sw_flags_spec; unfold cow_new_flags; rewrite ?rm_sw_flags_spec; done.
Qed.

Lemma cow_split_good w vs va : 0 ≤ va < 2 ^ 64 → mm_inv (mv w) →
  uspaces (linux_mm_cow_split_page w vs va).1 = uspaces w ∧ good_step (mv w) (mv (linux_mm_cow_split_page w vs va).1).
Proof.
  intros Hva Hi. destruct (linux_mm_cow_split_page w vs va) as [w' e] eqn:E.
  apply cow_split_spec in E as [Hu [[Hm _]|[_ Hs]]]; [..|done|done]; (split; [done|]); cbn.
  - rewrite Hm. apply good_refl.
  - by apply split_good with vs va.
Qed.

Lemma split_pages_good n w vs page : 0 ≤ page < 2 ^ 64 → mm_inv (mv w) →
  uspaces (split_pages n w vs page) = uspaces w ∧ good_step (mv w) (mv (split_pages n w vs page)).
Proof.
  revert w page. induction n as [|n IH]; intros w page Hp Hi; cbn; [split; [done|apply good_refl]|].
  destruct (Z.ltb_spec page PAGE_SIZE); [split; [done|apply good_refl]|].
  destruct (cow_split_good w vs page Hp Hi) as [Hu Hg]. destruct (Hg Hi) as (Hi2 & _).
  destruct (IH (linux_mm_cow_split_page w vs page).1 (page - PAGE_SIZE)) as [Hu2 Hg2]; [unfold PAGE_SIZE in *; lia|done|].
  split; [congruence|by eapply good_trans].
Qed.

Lemma break_stack_good w vs sp scratch : 0 ≤ sp < 2 ^ 64 → 0 ≤ scratch < 2 ^ 64 → mm_inv (mv w) →
  uspaces (linux_mm_cow_break_user_stack w vs sp scratch) = uspaces w
  ∧ good_step (mv w) (mv (linux_mm_cow_break_user_stack w vs sp scratch)).
Proof.
  intros Hs Hc Hi. unfold linux_mm_cow_break_user_stack. destruct (_ || _); [split; [done|apply good_refl]|].
  apply split_pages_good; [|done]. case_match; [destruct (round_down_aligned scratch)|destruct (round_down_aligned sp)]; lia.
Qed.

(** A page table entry is written back from the leaf. *)
Lemma reinstall_good w vs va : 0 ≤ va < 2 ^ 64 → mm_inv (mv w) →
  uspaces (linux_mm_reinstall_user_pte w vs va).1 = uspaces w ∧ good_step (mv w) (mv (linux_mm_reinstall_user_pte w vs va).1).
Proof.
  intros Hva Hi. destruct (round_down_aligned va Hva) as [Ha _]. unfold linux_mm_reinstall_user_pte.
  destruct (negb (vs_is_user w vs)); [split; [done|apply good_refl]|].
  destruct (radix_end_check _ 1) as [en|] eqn:He; [|split; [done|apply good_refl]].
  apply radix_end_check_spec in He as [-> _]. rewrite Z.mul_1_l.
  destruct (radix_lock _ _ _ _) as [w1 e1] eqn:El. apply radix_lock_spec in El as [Hu1 Hm1].
  destruct (decide (e1 = REND_SUCCESS)) as [->|Hne]; [|destruct e1; try done; cbn; rewrite Hm1; split; done || apply good_refl].
  assert (∀ w2, uspaces w2 = uspaces w1 → mv w2 = mv w1 →
    uspaces (radix_unlock w2 vs (linux_mm_l0_lock_lo (page_round_down va)) (page_round_down va + PAGE_SIZE)) = uspaces w
    ∧ good_step (mv w) (mv (radix_unlock w2 vs (linux_mm_l0_lock_lo (page_round_down va)) (page_round_down va + PAGE_SIZE)))) as Hsame.
  { intros w2 Hu2 Hm2. edestruct (unlock_back w2) as [-> ->]; [rewrite Hm2; exact Hm1|]. split; [congruence|apply good_refl]. }
  pose proof (radix_leaf_spec w1 vs (page_round_down va) Ha) as Hleaf.
  destruct (radix_leaf _ _ _ _) as [[[lva fl] [frame|]]|]; [|by apply Hsame..].
  destruct Hleaf as (-> & o & Ho & Hfr). rewrite Z.eqb_refl. cbn.
  destruct (f_valid fl); cbn; [|by apply Hsame].
  destruct (have_mapped _ _ _ _) as [w2 r] eqn:Eh. apply have_mapped_look in Eh as (Hu2 & Hm2 & ->).
  set (k := (vs, VPN (page_round_down va))) in *.
  assert (mm_inv (mv w1)) as Hi1 by (rewrite Hm1; by destruct Hi).
  assert (∀ p, (match v_pte (mv w1) !! k with Some (q, pt) => if f_valid pt then Some q else frame | None => frame end) = Some p →
    v_leaf (mv w1) !! k = Some (fl, Some p)) as Hppn.
  { intros p. destruct (v_pte (mv w1) !! k) as [[q pt]|] eqn:Hp; cbn.
    - destruct (mi_pte _ Hi1 _ _ _ Hp) as (-> & lf & Hl & _). rewrite Hl in Ho. injection Ho as <- <-. by intros [= <-].
    - intros ->. by rewrite Ho, Hfr. }
  replace (match _ with Some (ppn, pt, _) => _ | None => frame end)
    with (match v_pte (mv w1) !! k with Some (q, pt) => if f_valid pt then Some q else frame | None => frame end)
    by (by destruct (v_pte (mv w1) !! k) as [[? ?]|]).
  destruct (match v_pte _ !! k with Some _ => _ | None => _ end) as [p|]; [|by apply Hsame].
  destruct (map_pte _ _ _ _ _) as [w3 e3] eqn:Em. apply map_pte_spec in Em as [Hu3 Hm3]. cbn.
  case_decide; [|apply Hsame; congruence].
  edestruct (radix_unlock_spec w3) as [Hu4 Hm4]; [by rewrite Hm3, Hm2, Hm1|]. split; [congruence|]. rewrite Hm4, Hm3, Hm2, Hm1.
  specialize (Hppn p eq_refl). rewrite Hm1 in Hppn.
  apply (pte_good (mv w) k p _ fl); [done|done|]. cbn. rewrite rm_sw_flags_spec. cbn. by destruct (f_cow fl).
Qed.

Lemma pf_fill_good w vs va fl i : 0 ≤ va < 2 ^ 64 → va `mod` PAGE_SIZE = 0 → mm_inv (mv w) →
  (∃ o, v_leaf (mv w) !! (vs, VPN va) = Some (fl, o)) →
  uspaces (pf_fill w vs va fl i).1 = uspaces w ∧ good_step (mv w) (mv (pf_fill w vs va fl i).1).
Proof.
  intros Hva Ha Hi [o Ho]. unfold pf_fill. destruct (f_valid fl).
  { pose proof (reinstall_good w vs va Hva Hi) as Hg. destruct (linux_mm_reinstall_user_pte w vs va) as [w1 e]. by destruct e. }
  destruct (f_write fl && _); [split; [done|apply good_refl]|]. destruct (f_exec fl && _); [split; [done|apply good_refl]|].
  destruct (radix_end_check va 1) as [en|] eqn:He; [|split; [done|apply good_refl]].
  destruct (radix_lock _ _ _ _) as [w1 e1] eqn:El. apply radix_lock_spec in El as [Hu1 Hm1].
  destruct (decide (e1 = REND_SUCCESS)) as [->|Hne]; [|destruct e1; try done; cbn; rewrite Hm1; split; done || apply good_refl].
  destruct (fill_page_with_exist_range _ _ _ _) as [w2 e2] eqn:Ef. apply fill_page_spec in Ef as [Hu2 Hm2]; [|done]. cbn.
  case_decide.
  - destruct Hm2 as [[Hp [lf Hl]] (fr & Hfr & Hm2)]. rewrite Hm1 in *. cbn in Hp, Hl. rewrite Ho in Hl. injection Hl as <- ->.
    edestruct (radix_unlock_spec w2) as [Hu3 Hm3]; [by rewrite Hm2|]. split; [congruence|]. rewrite Hm3, Hm2.
    apply fresh_cons in Hfr as (_ & Hf & Hok & _).
    apply (install_good rm_sw_flags (mv w)); [apply rm_sw_ok| |done|done|done|by apply (mi_lazy _ Hi (vs, VPN va) fl)].
    intros p. by rewrite Ho.
  - edestruct (unlock_back w2) as [-> ->]; [by rewrite Hm2|]. split; [congruence|apply good_refl].
Qed.

Lemma pf_handler_good w cur i : 0 ≤ ti_addr i < 2 ^ 64 → mm_inv (mv w) →
  uspaces (linux_trap_pf_handler w cur i).1 = uspaces w ∧ good_step (mv w) (mv (linux_trap_pf_handler w cur i).1).
Proof.
  intros Hva Hi. destruct (round_down_aligned _ Hva) as [Ha Hr]. unfold linux_trap_pf_handler.
  destruct (_ <? _); [split; [done|apply good_refl]|]. destruct cur as [vs|]; [|split; [done|apply good_refl]].
  destruct (have_mapped _ _ _ _) as [w1 r] eqn:Eh. apply have_mapped_look in Eh as (Hu1 & Hm1 & _). rewrite <- Hm1, <- Hu1. rewrite <- Hm1 in Hi.
  destruct (linux_mm_query_vaddr _ _ _) as [ne [pva fl]] eqn:Eq.
  set (pm := match r with Some _ => _ | None => _ end). set (pw := match r with Some (_, pt, _) => f_write pt | None => _ end).
  destruct (negb pm && _) eqn:Hc.
  { apply pf_fill_good; [lia|done|done|]. apply andb_true_iff in Hc as [_ Hne%bool_decide_eq_true].
    apply query_vaddr_spec in Eq as [_ Eq]; [|lia|done]. by rewrite (page_round_down_eq (page_round_down _)), Ha, Z.sub_0_r in Eq by lia. }
  destruct (pm && _ && _ && _ && _) eqn:Hc2; [|split; [done|apply good_refl]].
  destruct (bool_decide (ne = REND_SUCCESS) && f_write fl); [|split; [done|apply good_refl]]. unfold linux_handle_cow_fault.
  destruct (negb (ti_write i) || _); [split; [done|apply good_refl]|].
  pose proof (cow_split_good w1 vs (ti_addr i) Hva Hi) as Hg. destruct (linux_mm_cow_split_page w1 vs (ti_addr i)) as [w2 e]. by destruct e.
Qed.

(** ** Fork *)

Lemma copy_vspace_spec w (vs : ptr Z) w' e child : linux_copy_vspace w vs = (w', (e, child)) → e = REND_SUCCESS →
  ∃ p c, vs = Some p ∧ child = Some c ∧ c ∉ uspaces w ∧ c ≠ p ∧ uspaces w' = uspaces w ∪ {[c]} ∧ cloned (mv w) (mv w') p c.
Proof.
  unfold linux_copy_vspace. destruct vs as [p|]; [|by intros [= <- <- <-]].
  destruct (negb (vs_is_user w p)); [by intros [= <- <- <-]|].
  destruct (clone_vspace w p) as [w1 [e1 c]] eqn:Ec. apply clone_vspace_spec in Ec.
  destruct (decide (e1 = REND_SUCCESS)) as [->|Hne]; [|destruct e1; try done; by intros [= <- <- <-]].
  destruct Ec as (Hc & Hcp & Hu & Hcl). destruct (register_vspace w1 c) as [w2 e2] eqn:Er.
  apply register_vspace_spec in Er as [Hu2 Hm2]. destruct (decide (e2 = REND_SUCCESS)) as [->|Hne].
  - intros [= <- <- <-] _. exists p, c. rewrite Hu2, Hm2. by split_and!.
  - destruct e2; try done; by intros [= <- <- <-].
Qed.

Lemma copy_vspace_good w (vs : ptr Z) : good_step (mv w) (mv (linux_copy_vspace w vs).1).
Proof.
  unfold linux_copy_vspace. destruct vs as [p|]; [|apply good_refl]. destruct (negb (vs_is_user w p)); [apply good_refl|].
  destruct (clone_vspace w p) as [w1 [e1 c]] eqn:Ec. apply clone_vspace_spec in Ec.
  destruct (decide (e1 = REND_SUCCESS)) as [->|Hne]; [|destruct Ec as [_ Hm]; destruct e1; try done; cbn; rewrite Hm; apply good_refl].
  destruct Ec as (Hc & Hcp & Hu & Hcl). destruct (register_vspace w1 c) as [w2 e2] eqn:Er.
  apply register_vspace_spec in Er as [Hu2 Hm2]. assert (good_step (mv w) (mv w2)) as Hg by (rewrite Hm2; by eapply clone_good).
  destruct e2; [done|..]; cbn; (eapply good_trans; [exact Hg|eapply delete_good, del_vspace_spec]).
Qed.
End cow.
