(* ===== verification/MmCopy.v ===== *)
(** * Copying user memory

    [linux_mm_copy_user_range] copies the bytes and returns every pin. *)

From stdpp Require Import base numbers list gmap option.
From S2P Require Import Prelude PageSlice PortNames Proc Mm MmSys MmSpec MmInv MmView MmThm MmCow.

#[local] Coercion Z.of_nat : nat >-> Z.

(** What a user program sees at an address. *)
Definition frame_at (v : mview) (vs va : Z) : option Z := fst <$> v_pte v !! (vs, VPN va).
Definition user_byte (v : mview) (vs va : Z) : option Z :=
  p ← frame_at v vs va; b ← bytes_of (v_frames v) p; b !! Z.to_nat (va `mod` PAGE_SIZE).

Lemma frame_splice_length (bd bs : list Z) (doff soff len : nat) : (doff + len ≤ length bd)%nat → (soff + len ≤ length bs)%nat →
  length (splice bd doff bs soff len) = length bd.
Proof. intros. unfold splice. rewrite !length_app, !length_take, !length_drop. lia. Qed.

Lemma frame_splice_lookup (bd bs : list Z) (doff soff len i : nat) : (doff + len ≤ length bd)%nat → (soff + len ≤ length bs)%nat →
  splice bd doff bs soff len !! i =
    if decide (doff ≤ i < doff + len)%nat then bs !! (soff + (i - doff))%nat else bd !! i.
Proof.
  intros Hd Hs. unfold splice. destruct (decide (i < doff)%nat).
  - rewrite lookup_app_l by (rewrite length_take; lia). rewrite lookup_take_lt by done. by rewrite decide_False by lia.
  - rewrite lookup_app_r by (rewrite length_take; lia). rewrite length_take. destruct (decide (i < doff + len)%nat).
    + rewrite lookup_app_l by (rewrite length_take, length_drop; lia). rewrite lookup_take_lt by lia.
      rewrite lookup_drop, decide_True by lia. f_equal. lia.
    + rewrite lookup_app_r by (rewrite length_take, length_drop; lia). rewrite length_take, length_drop, lookup_drop.
      rewrite decide_False by lia. f_equal. lia.
Qed.

Lemma take_lookup f q r : take_ref f q !! r = if decide (r = q) then (λ e : nat * list Z, (S e.1, e.2)) <$> f !! r else f !! r.
Proof.
  unfold take_ref. destruct (f !! q) as [[n b]|] eqn:E; case_decide; subst; rewrite ?E; [by rewrite lookup_insert_eq|by rewrite lookup_insert_ne|done..].
Qed.

Lemma set_bytes_take f p q b : set_bytes (take_ref f q) p b = take_ref (set_bytes f p b) q.
Proof.
  apply map_eq. intros r. rewrite set_bytes_lookup, !take_lookup, set_bytes_lookup.
  repeat case_decide; subst; try done. by destruct (f !! _) as [[? ?]|].
Qed.

(** Two pins, a copy, and the pins given back. *)
Lemma pins_back f s d b n bs m bd : f !! s = Some (S n, bs) → f !! d = Some (S m, bd) →
  drop_ref (drop_ref (set_bytes (take_ref (take_ref f s) d) d b) d) s = set_bytes f d b.
Proof.
  intros Hs Hd. rewrite !set_bytes_take.
  assert (∀ p k c, f !! p = Some (S k, c) → ∃ c', set_bytes f d b !! p = Some (S k, c')) as Hf.
  { intros p k c Hp. rewrite set_bytes_lookup, Hp. case_decide; eauto. }
  destruct (Hf _ _ _ Hs) as [cs Hcs]. destruct (Hf _ _ _ Hd) as [cd Hcd].
  rewrite take_drop.
  - apply take_drop; [|eauto]. rewrite Hcs. intros ? ? [= <- _]. lia.
  - intros k c. rewrite take_lookup, Hcd. case_decide; cbn; intros [= <- _]; lia.
  - rewrite take_lookup, Hcd. case_decide; cbn; eauto.
Qed.

Section copy.
Context {W : Type} `{CL : CoreMMLaws W}.
Implicit Types (w : W) (vs : Z) (v : mview).

Lemma have_mapped_pin w vs vpn w' r : have_mapped w vs vpn true = (w', r) →
  uspaces w' = uspaces w
  ∧ match v_pte (mv w) !! (vs, vpn) with
    | Some (p, pt) => r = Some (p, pt, 3) ∧ mv w' = with_frames (mv w) (take_ref (v_frames (mv w)) p)
    | None => r = None ∧ mv w' = mv w
    end.
Proof. intros (? & -> & ?)%have_mapped_spec. split; [done|]. by destruct (v_pte (mv w) !! (vs, vpn)) as [[p pt]|]. Qed.

(** The same page tables; only bytes of the frames of [dst + i], for [lo ≤ i < hi], differ. *)
Record only_bytes v v' vs (dst lo hi : Z) : Prop := {
  ob_pte : v_pte v' = v_pte v;
  ob_leaf : v_leaf v' = v_leaf v;
  ob_locks : v_locks v' = v_locks v;
  ob_frames p : (∀ i, lo ≤ i < hi → frame_at v vs (dst + i) ≠ Some p) → v_frames v' !! p = v_frames v !! p;
}.

Lemma va_page_split a : 0 ≤ a < 2 ^ 64 → a = page_round_down a + a `mod` PAGE_SIZE ∧ 0 ≤ a `mod` PAGE_SIZE < PAGE_SIZE
  ∧ VPN (page_round_down a) = VPN a.
Proof.
  intros Ha. rewrite page_round_down_eq by done. pose proof (Z.mod_pos_bound a PAGE_SIZE). split; [lia|]. split; [unfold PAGE_SIZE in *; lia|].
  unfold VPN. rewrite !Z.shiftr_div_pow2 by lia. change (2 ^ 12) with PAGE_SIZE.
  replace (a - a `mod` PAGE_SIZE) with ((a `div` PAGE_SIZE) * PAGE_SIZE) by (rewrite Z.mod_eq; [lia|done]). by rewrite Z.div_mul.
Qed.

(** Moving within a page. *)
Lemma in_page a i : 0 ≤ a → 0 ≤ i → a `mod` PAGE_SIZE + i < PAGE_SIZE →
  VPN (a + i) = VPN a ∧ (a + i) `mod` PAGE_SIZE = a `mod` PAGE_SIZE + i.
Proof.
  intros Ha Hi Hlt. unfold VPN. rewrite !Z.shiftr_div_pow2 by lia. change (2 ^ 12) with PAGE_SIZE.
  pose proof (Z.mod_pos_bound a PAGE_SIZE). pose proof (Z.div_mod a PAGE_SIZE). unfold PAGE_SIZE in *.
  split; [symmetry; apply (Z.div_unique_pos _ _ _ (a `mod` 4096 + i))|symmetry; apply (Z.mod_unique_pos _ _ (a `div` 4096))]; lia.
Qed.

Lemma same_page a b : 0 ≤ a ≤ b → VPN a = VPN b → b `mod` PAGE_SIZE = a `mod` PAGE_SIZE + (b - a).
Proof.
  unfold VPN. rewrite !Z.shiftr_div_pow2 by lia. change (2 ^ 12) with PAGE_SIZE. intros.
  pose proof (Z.div_mod a PAGE_SIZE). pose proof (Z.div_mod b PAGE_SIZE). unfold PAGE_SIZE in *. lia.
Qed.

(** One round of the loop: it fails and changes nothing but bytes of the
    destination page, or it copies [chunk] bytes. *)
Lemma copy_round w vs sva dva chunk w' e : 0 ≤ sva < 2 ^ 64 → 0 ≤ dva < 2 ^ 64 → 0 < chunk →
  sva `mod` PAGE_SIZE + chunk ≤ PAGE_SIZE → dva `mod` PAGE_SIZE + chunk ≤ PAGE_SIZE → mm_inv (mv w) →
  copy_chunk w vs sva dva chunk = (w', e) →
  uspaces w' = uspaces w ∧
  ((e ≠ REND_SUCCESS ∧ mv w' = mv w)
   ∨ ∃ s d bs bd b ns nd, frame_at (mv w) vs sva = Some s ∧ frame_at (mv w) vs dva = Some d
       ∧ v_frames (mv w) !! s = Some (ns, bs) ∧ v_frames (mv w) !! d = Some (nd, bd)
       ∧ length bs = Z.to_nat PAGE_SIZE ∧ length bd = Z.to_nat PAGE_SIZE ∧ length b = length bd
       ∧ (e = REND_SUCCESS → d ≠ s →
          b = splice bd (Z.to_nat (dva `mod` PAGE_SIZE)) bs (Z.to_nat (sva `mod` PAGE_SIZE)) (Z.to_nat chunk))
       ∧ mv w' = with_frames (mv w) (set_bytes (v_frames (mv w)) d b)).
Proof.
  intros Hsv Hdv Hc Hcs Hcd Hi. unfold copy_chunk. destruct (va_page_split sva Hsv) as (Es & Hso & Hvs). destruct (va_page_split dva Hdv) as (Ed & Hdo & Hvd).
  rewrite Hvs, Hvd. replace (sva - page_round_down sva) with (sva `mod` PAGE_SIZE) by lia.
  replace (dva - page_round_down dva) with (dva `mod` PAGE_SIZE) by lia. unfold frame_at.
  destruct (have_mapped w _ _ _) as [w1 r1] eqn:E1. apply have_mapped_pin in E1 as [Hu1 H1].
  destruct (v_pte (mv w) !! (vs, VPN sva)) as [[s pt]|] eqn:Hps; destruct H1 as [-> Hm1]; [|intros [= <- <-]; auto].
  destruct (mapped_frame _ _ _ _ Hi Hps) as (ns & bs & Hfs).
  destruct (have_mapped w1 _ _ _) as [w2 r2] eqn:E2. apply have_mapped_pin in E2 as [Hu2 H2]. rewrite Hm1 in H2. cbn [v_pte with_frames] in H2.
  destruct (v_pte (mv w) !! (vs, VPN dva)) as [[d pt']|] eqn:Hpd; destruct H2 as [-> Hm2].
  2: { intros [= <- <-]. destruct (pmm_free1_spec w2 s) as [-> ->]. rewrite Hm2. split; [congruence|]. left. split; [done|].
       by eapply pin_unpin. }
  destruct (mapped_frame _ _ _ _ Hi Hpd) as (nd & bd & Hfd).
  destruct (mi_frames _ Hi _ _ _ Hfs) as [_ [Hs1 Hs2]]. destruct (mi_frames _ Hi _ _ _ Hfd) as [_ [Hd1 Hd2]]. cbn in *.
  assert (∀ p n b, v_frames (mv w) !! p = Some (S n, b) → ∃ m, v_frames (mv w2) !! p = Some (m, b)) as Hfr.
  { intros p n b Hp. rewrite Hm2. cbn. rewrite !take_lookup, Hp. repeat case_decide; cbn; eauto. }
  destruct (Hfr _ _ _ Hfs) as [ms Hms]. destruct (Hfr _ _ _ Hfd) as [md Hmd].
  destruct (copy_data_range _ _ _ _) as [w3 e3] eqn:E3.
  eapply copy_data_range_spec in E3 as (Hu3 & b & Hlb & Hb & Hm3); [|lia..|exact Hmd|exact Hms].
  intros [= <- <-]. destruct (pmm_free1_spec (pmm_free1 w3 d) s) as [-> ->]. destruct (pmm_free1_spec w3 d) as [-> ->].
  split; [congruence|]. right. exists s, d, bs, bd, b, (S ns), (S nd). cbn. split_and!; try done.
  rewrite Hm3, Hm2. cbn. unfold with_frames. cbn. f_equal. by eapply pins_back.
Qed.

(** The bytes of [dst, dst + len) in frames of their own. *)
Record copy_apart v vs (dst src len : Z) : Prop := {
  ca_apart i j p : 0 ≤ i < len → 0 ≤ j < len → frame_at v vs (src + i) = Some p → frame_at v vs (dst + j) ≠ Some p;
  ca_inj i j p : 0 ≤ i < len → 0 ≤ j < len → frame_at v vs (dst + i) = Some p → frame_at v vs (dst + j) = Some p →
    VPN (dst + i) = VPN (dst + j);
}.

Lemma user_byte_frames v v' vs va : v_pte v' = v_pte v →
  (∀ p, frame_at v vs va = Some p → v_frames v' !! p = v_frames v !! p) → user_byte v' vs va = user_byte v vs va.
Proof.
  intros Hp Hf. unfold user_byte, frame_at, bytes_of in *. rewrite Hp.
  destruct (v_pte v !! (vs, VPN va)) as [[p pt]|]; [|done]. cbn in *. by rewrite Hf.
Qed.

Lemma only_bytes_mono v v' vs dst lo hi lo' : lo' ≤ lo → only_bytes v v' vs dst lo hi → only_bytes v v' vs dst lo' hi.
Proof. intros Hle [? ? ? Hf]. split; try done. intros p Hp. apply Hf. intros. apply Hp. lia. Qed.

Lemma only_bytes_trans v1 v2 v3 vs dst lo hi : only_bytes v1 v2 vs dst lo hi → only_bytes v2 v3 vs dst lo hi → only_bytes v1 v3 vs dst lo hi.
Proof.
  intros [Hp1 ? ? Hf1] [? ? ? Hf2]. split; [congruence..|]. intros p Hp. rewrite Hf2; [by apply Hf1|]. unfold frame_at in *. by rewrite Hp1.
Qed.

(** The copied bytes, and those before them in the same page. *)
Lemma round_copies v vs dst src s d bs bd ns nd done chunk i : 0 ≤ dst + done → 0 ≤ src + done →
  (src + done) `mod` PAGE_SIZE + chunk ≤ PAGE_SIZE → (dst + done) `mod` PAGE_SIZE + chunk ≤ PAGE_SIZE → 0 ≤ chunk →
  frame_at v vs (src + done) = Some s → frame_at v vs (dst + done) = Some d →
  v_frames v !! s = Some (ns, bs) → v_frames v !! d = Some (nd, bd) →
  length bs = Z.to_nat PAGE_SIZE → length bd = Z.to_nat PAGE_SIZE → done ≤ i < done + chunk →
  user_byte (with_frames v (set_bytes (v_frames v) d
    (splice bd (Z.to_nat ((dst + done) `mod` PAGE_SIZE)) bs (Z.to_nat ((src + done) `mod` PAGE_SIZE)) (Z.to_nat chunk)))) vs (dst + i)
  = user_byte v vs (src + i).
Proof.
  intros Hd Hs Hsc Hdc Hc Hfs Hfd Hs1 Hd1 Hbs Hbd Hi.
  destruct (in_page (dst + done) (i - done)) as [Hv1 Hm1]; [lia..|]. destruct (in_page (src + done) (i - done)) as [Hv2 Hm2]; [lia..|].
  replace (dst + done + (i - done)) with (dst + i) in * by lia. replace (src + done + (i - done)) with (src + i) in * by lia.
  unfold user_byte, frame_at, bytes_of in *. cbn. rewrite Hv1, Hv2, Hfs, Hfd. cbn. rewrite set_bytes_lookup, decide_True by done.
  rewrite Hs1, Hd1. cbn. pose proof (Z.mod_pos_bound (dst + done) PAGE_SIZE). pose proof (Z.mod_pos_bound (src + done) PAGE_SIZE).
  unfold PAGE_SIZE in *. rewrite frame_splice_lookup by lia. rewrite decide_True by lia. f_equal. lia.
Qed.

Lemma round_keeps v vs dst src len d bd nd bs done chunk j : copy_apart v vs dst src len → 0 ≤ dst → 0 ≤ j < done → done < len →
  0 ≤ chunk → (src + done) `mod` PAGE_SIZE + chunk ≤ PAGE_SIZE → (dst + done) `mod` PAGE_SIZE + chunk ≤ PAGE_SIZE →
  frame_at v vs (dst + done) = Some d → v_frames v !! d = Some (nd, bd) →
  length bs = Z.to_nat PAGE_SIZE → length bd = Z.to_nat PAGE_SIZE →
  user_byte (with_frames v (set_bytes (v_frames v) d
    (splice bd (Z.to_nat ((dst + done) `mod` PAGE_SIZE)) bs (Z.to_nat ((src + done) `mod` PAGE_SIZE)) (Z.to_nat chunk)))) vs (dst + j)
  = user_byte v vs (dst + j).
Proof.
  intros Hap Hd Hj Hdl Hc Hsc Hdc Hfd Hd1 Hbs Hbd. unfold user_byte.
  change (frame_at (with_frames v _) vs (dst + j)) with (frame_at v vs (dst + j)).
  destruct (frame_at v vs (dst + j)) as [q|] eqn:Eq; [|done]. cbn. unfold bytes_of. rewrite set_bytes_lookup.
  case_decide as Hqd; [|done]. subst q. rewrite Hd1. cbn.
  assert (VPN (dst + j) = VPN (dst + done)) as Hv by (eapply (ca_inj _ _ _ _ _ Hap); [lia|lia|done|done]).
  apply same_page in Hv; [|lia]. pose proof (Z.mod_pos_bound (dst + j) PAGE_SIZE). pose proof (Z.mod_pos_bound (src + done) PAGE_SIZE).
  unfold PAGE_SIZE in *. rewrite frame_splice_lookup by lia. rewrite decide_False; [done|lia].
Qed.

Lemma copy_chunks_spec fuel w vs dst src done len w' e : 0 ≤ dst → 0 ≤ src → dst + len ≤ 2 ^ 64 → src + len ≤ 2 ^ 64 →
  0 ≤ done ≤ len → (Z.to_nat (len - done) ≤ fuel)%nat → mm_inv (mv w) →
  copy_chunks fuel w vs dst src done len = (w', e) →
  uspaces w' = uspaces w ∧ good_step (mv w) (mv w') ∧ only_bytes (mv w) (mv w') vs dst done len
  ∧ (copy_apart (mv w) vs dst src len → e = REND_SUCCESS →
     (∀ j, 0 ≤ j < done → user_byte (mv w') vs (dst + j) = user_byte (mv w) vs (dst + j))
     ∧ (∀ i, done ≤ i < len → user_byte (mv w') vs (dst + i) = user_byte (mv w) vs (src + i))).
Proof.
  intros Hd Hs Hde Hse. revert w done. induction fuel as [|fuel IH]; intros w done Hdone Hfuel Hi; cbn [copy_chunks];
    destruct (Z.leb_spec len done).
  1,3: intros [= <- <-]; split_and!; [done|apply good_refl|by split|]; intros _ _; split; [done|intros; lia].
  - lia.
  - rewrite !uw_small by lia.
    destruct (va_page_split (src + done)) as (Es & Hso & _); [lia|]. destruct (va_page_split (dst + done)) as (Ed & Hdo & _); [lia|].
    replace (src + done - page_round_down (src + done)) with ((src + done) `mod` PAGE_SIZE) by lia.
    replace (dst + done - page_round_down (dst + done)) with ((dst + done) `mod` PAGE_SIZE) by lia.
    set (so := (src + done) `mod` PAGE_SIZE) in *. set (doff := (dst + done) `mod` PAGE_SIZE) in *.
    set (chunk := Z.min _ _). assert (0 < chunk ∧ so + chunk ≤ PAGE_SIZE ∧ doff + chunk ≤ PAGE_SIZE ∧ chunk ≤ len - done) as (Hc & Hsc & Hdc & Hcl) by lia.
    destruct (copy_chunk _ _ _ _ _) as [w1 e1] eqn:E1. apply copy_round in E1 as [Hu1 H1]; [|lia..|done].
    destruct H1 as [[Hne Hm]|H1].
    { destruct e1; try done; intros [= <- <-]; rewrite Hm; (split_and!; [done|apply good_refl|by split|]); by intros _ ?. }
    destruct H1 as (s & d & bs & bd & b & ns & nd & Hfs & Hfd & Hs1 & Hd1 & Hlbs & Hlbd & Hlb & Hb & Hm).
    assert (good_step (mv w) (mv w1)) as Hg1.
    { rewrite Hm. apply set_bytes_good. intros n c Hc'. rewrite Hd1 in Hc'. injection Hc' as <- <-. done. }
    assert (only_bytes (mv w) (mv w1) vs dst done len) as Hob1.
    { rewrite Hm. split; try done. intros p Hp. cbn. rewrite set_bytes_lookup, decide_False; [done|]. intros ->.
      apply (Hp done); [lia|done]. }
    destruct (decide (e1 = REND_SUCCESS)) as [->|Hne].
    2: { destruct e1; try done; intros [= <- <-]; split_and!; try done; by intros _ ?. }
    destruct (Hg1 Hi) as (Hi1 & _). intros E.
    apply IH in E as (Hu2 & Hg2 & Hob2 & Hcp); [|lia|lia|done].
    split_and!; [congruence|by eapply good_trans| |].
    { eapply only_bytes_trans; [done|]. by apply (only_bytes_mono _ _ _ _ (done + chunk)); [lia|]. }
    intros Hap He. rewrite Hm in Hob1. assert (v_pte (mv w1) = v_pte (mv w)) as Hpte by by rewrite Hm.
    assert (d ≠ s) as Hds by (intros ->; by eapply (ca_apart _ _ _ _ _ Hap done done); [lia|lia| |]).
    specialize (Hb eq_refl Hds). destruct Hcp as [Hcp1 Hcp2]; [|done|].
    { destruct Hap as [Ha1 Ha2]. split; unfold frame_at; rewrite Hpte; [exact Ha1|exact Ha2]. }
    split.
    + intros j Hj. rewrite Hcp1 by lia. rewrite Hm, Hb. apply (round_keeps (mv w) vs dst src len d bd nd bs done chunk); done || lia.
    + intros i Hil. destruct (decide (i < done + chunk)).
      * rewrite Hcp1 by lia. rewrite Hm, Hb. apply (round_copies (mv w) vs dst src s d bs bd ns nd done chunk); done || lia.
      * rewrite Hcp2 by lia. apply user_byte_frames; [done|]. intros p Hp. rewrite Hm. cbn.
        rewrite set_bytes_lookup, decide_False; [done|]. intros ->. by eapply (ca_apart _ _ _ _ _ Hap i done); [lia|lia| |].
Qed.
End copy.
