(* ===== verification/MmProps.v ===== *)
(** * Address spaces: the memory system calls

    What the memory calls, page faults and fork do to user memory, for every
    implementation of the contract of [MmSpec]. *)

From Stdlib Require Import Ascii.
From stdpp Require Import base numbers list gmap option relations.
From S2P Require Import Prelude PageSlice PortNames FdSlice Proc SigSet Mm MmSys MmSpec MmSim MmInv MmView MmThm MmCow MmCopy.

#[local] Coercion Z.of_nat : nat >-> Z.

Definition is_u64 (x : Z) : Prop := 0 ≤ x < 2 ^ 64.
Definition mem_ok (m : proc_mem) : Prop := is_u64 (brk m) ∧ is_u64 (mmap_hint m).

Lemma u64_is_u64 x : is_u64 (u64 x).
Proof. apply uw_range. lia. Qed.

Lemma round_up_aligned x : page_round_up x `mod` PAGE_SIZE = 0 ∧ is_u64 (page_round_up x).
Proof.
  pose proof (u64_is_u64 (x + (PAGE_SIZE - 1))) as Hu. destruct (round_down_aligned _ Hu) as [Ha Hr].
  unfold page_round_down in *. fold (page_round_up x) in *. split; [done|]. unfold is_u64 in *. lia.
Qed.

Lemma round_up_exact x : 0 ≤ x ≤ 2 ^ 64 - PAGE_SIZE → x ≤ page_round_up x < x + PAGE_SIZE.
Proof.
  intros Hx. unfold page_round_up. rewrite uw_small by (unfold PAGE_SIZE in *; lia).
  fold (page_round_down (x + (PAGE_SIZE - 1))). rewrite page_round_down_eq by (unfold PAGE_SIZE in *; lia).
  pose proof (Z.mod_pos_bound (x + (PAGE_SIZE - 1)) PAGE_SIZE). unfold PAGE_SIZE in *. lia.
Qed.

(** Whole pages. *)
Lemma pages_exact x : x `mod` PAGE_SIZE = 0 → x `div` PAGE_SIZE * PAGE_SIZE = x.
Proof. intros H. pose proof (Z.div_mod x PAGE_SIZE). unfold PAGE_SIZE in *. lia. Qed.

Lemma mask_aligned x : is_u64 x → (Z.land x (PAGE_SIZE - 1) =? 0) = true → x `mod` PAGE_SIZE = 0.
Proof.
  intros Hx H%Z.eqb_eq. change (PAGE_SIZE - 1) with (Z.ones 12) in H. rewrite Z.land_ones in H by lia. exact H.
Qed.

(** Requests to the VFS server leave page tables and owners alone. *)
Class VfsFileLaws (W : Type) `{CL : CoreMMLaws W} `{VF : VfsFile W} : Prop := {
  vfs_lseek_good w h off wh : uspaces (vfs_lseek w h off wh).1 = uspaces w ∧ good_step (mv w) (mv (vfs_lseek w h off wh).1);
  vfs_read_good w h va n : uspaces (vfs_read w h va n).1 = uspaces w ∧ good_step (mv w) (mv (vfs_read w h va n).1);
}.

#[global] Instance sim_vfs : VfsFile sim := {
  vfs_lseek w _ off _ := (w, off);
  vfs_read w _ _ _ := (w, - LINUX_EIO);
}.
#[global] Instance sim_vfs_laws : VfsFileLaws sim.
Proof. split; intros; (split; [done|apply good_refl]). Qed.

Section good.
Context {W : Type} `{CL : CoreMMLaws W}.
Implicit Types (w : W) (m : proc_mem) (vs : Z) (fl : pflags).

(** A call that keeps the invariant, the balance, the locks and the spaces. *)
Definition good w w' : Prop := mm_inv (mv w) → uspaces w' = uspaces w ∧ good_step (mv w) (mv w').

Lemma good_w_refl w : good w w.
Proof. split; [done|apply good_refl]. Qed.

Lemma good_same w w' : uspaces w' = uspaces w → mv w' = mv w → good w w'.
Proof. intros Hu Hm _. split; [done|]. rewrite Hm. apply good_refl. Qed.

Lemma good_w_trans w1 w2 w3 : good w1 w2 → good w2 w3 → good w1 w3.
Proof.
  intros H1 H2 Hi. destruct (H1 Hi) as [Hu1 Hg1]. destruct (Hg1 Hi) as (Hi2 & _). destruct (H2 Hi2) as [Hu2 Hg2].
  split; [congruence|by eapply good_trans].
Qed.

Lemma map_user_range_good w vs hint n fl : is_u64 hint → 0 ≤ n → f_valid fl = true → f_cow fl = false →
  good w (linux_mm_map_user_range w vs hint n fl).1.
Proof.
  intros Hh Hn Hv Hc Hi. destruct (linux_mm_map_user_range w vs hint n fl) as [w' r] eqn:E.
  apply map_user_range_spec in E as [Hu H]; [|done|done]. split; [done|]. cbn. case_decide.
  - rewrite H. apply good_refl.
  - destruct H as [_ H]. by eapply mapped_new_good.
Qed.

Lemma unmap_good w vs start n : is_u64 start → 0 ≤ n → good w (linux_mm_unmap_user_range w vs start n).1.
Proof. intros Hs Hn Hi. by apply unmap_user_range_good. Qed.

Lemma page_is_reserved_same w vs va w' b : linux_mm_page_is_reserved w vs va = (w', b) → uspaces w' = uspaces w ∧ mv w' = mv w.
Proof.
  unfold linux_mm_page_is_reserved. destruct (have_mapped _ _ _ _) as [w1 r] eqn:E. apply have_mapped_look in E as (Hu & Hm & _).
  intros H. assert (w' = w1) as -> by (repeat case_match; congruence). done.
Qed.

Lemma pages_free_same n w vs va w' b : pages_free w vs va n = (w', b) → uspaces w' = uspaces w ∧ mv w' = mv w.
Proof.
  revert w va. induction n as [|n IH]; intros w va; cbn; [by intros [= <- <-]|].
  destruct (linux_mm_page_is_reserved w vs va) as [w1 []] eqn:E; apply page_is_reserved_same in E as [Hu Hm].
  - by intros [= <- <-].
  - intros [? ?]%IH. split; congruence.
Qed.

Lemma range_is_free_same w vs hint n w' b : linux_mm_range_is_free w vs hint n = (w', b) → uspaces w' = uspaces w ∧ mv w' = mv w.
Proof.
  unfold linux_mm_range_is_free. destruct (_ || _ || _); [by intros [= <- <-]|].
  destruct (radix_end_check _ _); [apply pages_free_same|by intros [= <- <-]].
Qed.

(** What mapping a range without a fixed place gives. *)
Definition mapped_or_same w w' vs n fl (r : Z) : Prop :=
  uspaces w' = uspaces w ∧ if decide (r = 0) then mv w' = mv w else is_u64 r ∧ mapped_new w w' vs r n fl.

Lemma search_probes_spec k w vs hint n fl w' r : is_u64 hint → 0 ≤ n →
  search_probes k w vs hint n fl = (w', r) → mapped_or_same w w' vs n fl r.
Proof.
  intros Hh Hn. revert w hint Hh. induction k as [|k IH]; intros w hint Hh; cbn; [by intros [= <- <-]|].
  destruct (linux_mm_range_is_free w vs hint n) as [w1 b] eqn:Ef. apply range_is_free_same in Ef as [Hu1 Hm1].
  assert (∀ w2, uspaces w2 = uspaces w1 → mv w2 = mv w1 →
    search_probes k w2 vs (u64 (hint + PAGE_SIZE)) n fl = (w', r) → mapped_or_same w w' vs n fl r) as Hgo.
  { intros w2 Hu2 Hm2 E. apply IH in E; [|apply u64_is_u64]. unfold mapped_or_same, mapped_new, so_far in *.
    rewrite Hu2, Hm2, Hu1, Hm1 in E. exact E. }
  destruct b; [|by apply Hgo].
  destruct (linux_mm_map_user_range w1 vs hint n fl) as [w2 p] eqn:Em. apply map_user_range_spec in Em as [Hu2 H2]; [|done|done].
  destruct (Z.eqb_spec p 0) as [->|Hp]; cbn; [by apply Hgo|]. intros [= <- <-]. rewrite decide_False in H2 by done.
  destruct H2 as [-> H2]. split; [congruence|]. rewrite decide_False by done. split; [done|].
  unfold mapped_new, so_far in *. by rewrite Hm1 in H2.
Qed.

Lemma map_search_spec w vs start n fl k w' r : is_u64 start → 0 ≤ n →
  linux_mm_map_user_range_search w vs start n fl k = (w', r) → mapped_or_same w w' vs n fl r.
Proof.
  intros Hs Hn. apply search_probes_spec; [|done]. destruct (round_down_aligned start Hs). unfold is_u64 in *. lia.
Qed.

Lemma mapped_or_same_good w w' vs n fl r : f_valid fl = true → f_cow fl = false → mapped_or_same w w' vs n fl r → good w w'.
Proof.
  intros Hv Hc [Hu H] Hi. split; [done|]. case_decide; [rewrite H; apply good_refl|]. destruct H as [_ H]. by eapply mapped_new_good.
Qed.

(** ** mmap *)

(** The result of [linux_mmap_map_range]: an error and nothing changes, or a
    new range and the hint past it. *)
Definition mmap_result w w' m m' vs len n fl (r : Z) : Prop :=
  uspaces w' = uspaces w
  ∧ ((mv w' = mv w ∧ m' = m ∧ (r = u64 (- LINUX_ENOMEM) ∨ r = u64 (- LINUX_EINVAL)))
     ∨ (is_u64 r ∧ mapped_new w w' vs r n fl ∧ m' = raise_hint m (u64 (r + len)))).

Lemma mmap_probes_spec k w m vs hint len n fl w' m' r : is_u64 hint → 0 ≤ n →
  mmap_probes k w m vs hint len n fl = (w', m', r) →
  mmap_result w w' m m' vs len n fl r ∧ (mv w' = mv w ∨ r ≤ u64 (r + len) ≤ user_space_top).
Proof.
  intros Hh Hn. revert w hint Hh. induction k as [|k IH]; intros w hint Hh; cbn [mmap_probes].
  - intros [= <- <- <-]. split; [|by left]. split; [done|]. left. auto.
  - destruct (_ || _ || _) eqn:Hb.
    + intros [= <- <- <-]. split; [|by left]. split; [done|]. left. auto.
    + destruct (linux_mm_range_is_free w vs hint n) as [w1 b] eqn:Ef. apply range_is_free_same in Ef as [Hu1 Hm1].
      assert (∀ w2, uspaces w2 = uspaces w1 → mv w2 = mv w1 → mmap_probes k w2 m vs (u64 (hint + PAGE_SIZE)) len n fl = (w', m', r) →
        mmap_result w w' m m' vs len n fl r ∧ (mv w' = mv w ∨ r ≤ u64 (r + len) ≤ user_space_top)) as Hgo.
      { intros w2 Hu2 Hm2 E. apply IH in E; [|apply u64_is_u64]. unfold mmap_result, mapped_new, so_far in *.
        rewrite Hu2, Hm2, Hu1, Hm1 in E. exact E. }
      destruct b; [|by apply Hgo].
      destruct (linux_mm_map_user_range w1 vs hint n fl) as [w2 p] eqn:Em. apply map_user_range_spec in Em as [Hu2 H2]; [|done|done].
      destruct (Z.eqb_spec p 0) as [->|Hp]; cbn; [by apply Hgo|]. intros [= <- <- <-]. rewrite decide_False in H2 by done.
      destruct H2 as [-> H2]. split.
      * split; [congruence|]. right. split_and!; [done| |done]. unfold mapped_new, so_far in *. by rewrite Hm1 in H2.
      * right. apply orb_false_iff in Hb as [Hb ?%Z.ltb_ge]. apply orb_false_iff in Hb as [_ ?%Z.ltb_ge]. lia.
Qed.

Lemma mapped_new_ne w w' vs va n fl : mapped_new w w' vs va n fl → mv w' ≠ mv w.
Proof.
  intros (_ & _ & Hn & _ & Hfree & frs & Hlen & _ & Hw1) Hsame.
  destruct (Hfree 0%nat) as [Hfr _]; [lia|]. rewrite <- Hsame, Hw1, Z.add_0_r, install_run_pte, decide_True in Hfr by lia.
  rewrite Z.sub_diag in Hfr. destruct frs; [cbn in Hlen; lia|done].
Qed.

Lemma mmap_map_range_spec w m vs hint len n fl fixed w' m' r : is_u64 hint → 0 ≤ n →
  linux_mmap_map_range w m vs hint len n fl fixed = (w', m', r) →
  mmap_result w w' m m' vs len n fl r ∧ (mv w' = mv w ∨ if fixed then r = hint else r ≤ u64 (r + len) ≤ user_space_top).
Proof.
  intros Hh Hn. unfold linux_mmap_map_range. destruct fixed; [|by apply mmap_probes_spec].
  destruct (negb _); [intros [= <- <- <-]; split; [|by left]; split; [done|]; left; auto|].
  destruct (linux_mm_map_user_range w vs hint n fl) as [w1 p] eqn:Em. apply map_user_range_spec in Em as [Hu1 H1]; [|done|done].
  destruct (Z.eqb_spec p 0) as [->|Hp]; intros [= <- <- <-].
  - split; [|by left]. split; [done|]. left. auto.
  - rewrite decide_False in H1 by done. destruct H1 as [-> H1]. split; [|by right]. split; [done|]. right. auto.
Qed.

Lemma mmap_result_good w w' m m' vs len n fl r : f_valid fl = true → f_cow fl = false →
  mmap_result w w' m m' vs len n fl r → good w w'.
Proof.
  intros Hv Hc [Hu [(Hm & _)|(_ & H & _)]] Hi; (split; [done|]); [rewrite Hm; apply good_refl|by eapply mapped_new_good].
Qed.

Lemma pick_hint_u64 m addr : mem_ok m → is_u64 addr → is_u64 (linux_mmap_pick_hint m addr).
Proof.
  intros [_ Hm] Ha. unfold linux_mmap_pick_hint. repeat case_match.
  - destruct (round_down_aligned addr Ha). unfold is_u64 in *. lia.
  - destruct (round_down_aligned (mmap_hint m) Hm). unfold is_u64 in *. lia.
  - apply u64_is_u64.
Qed.

Section files.
Context `{VF : VfsFile W} `{VL : !VfsFileLaws W}.

Lemma lseek_good w h off wh w' n : vfs_lseek w h off wh = (w', n) → good w w'.
Proof. intros E Hi. pose proof (vfs_lseek_good w h off wh) as H. by rewrite E in H. Qed.
Lemma read_good w h va k w' n : vfs_read w h va k = (w', n) → good w w'.
Proof. intros E Hi. pose proof (vfs_read_good w h va k) as H. by rewrite E in H. Qed.

Lemma mmap_file_good w m vs ent addr len n fl off flags w' m' r : mem_ok m → is_u64 addr → 0 ≤ n →
  f_valid fl = true → f_cow fl = false →
  linux_mmap_file w m vs ent addr len n fl off flags = (w', m', r) → good w w'.
Proof.
  intros Hm Ha Hn Hv Hc. unfold linux_mmap_file. destruct ent as [e|]; [|intros [= <- _ _]; apply good_w_refl].
  destruct (_ || _); [intros [= <- _ _]; apply good_w_refl|]. destruct (negb _); [intros [= <- _ _]; apply good_w_refl|].
  destruct (vfs_lseek w _ _ _) as [w1 size] eqn:E1. apply lseek_good in E1.
  destruct (size <? 0); [by intros [= <- _ _]|]. destruct (size <? off); [by intros [= <- _ _]|].
  set (hint := if has _ _ then _ else _).
  assert (is_u64 hint) as Hh by (subst hint; destruct (has _ _); [done|by apply pick_hint_u64]).
  destruct (linux_mmap_map_range _ _ _ _ _ _ _ _) as [[w2 m2] a] eqn:E2. apply mmap_map_range_spec in E2 as [E2 _]; [|done|done].
  pose proof (mmap_result_good _ _ _ _ _ _ _ _ _ Hv Hc E2) as Hg2. assert (good w w2) as Hg by by eapply good_w_trans.
  assert (is_u64 a) as Hau. { destruct E2 as [_ [(_ & _ & [->| ->])|(? & _)]]; [apply u64_is_u64..|done]. }
  assert (∀ w3, good w2 w3 → good w (linux_mm_unmap_user_range w3 vs a n).1) as Hun.
  { intros w3 Hg3. eapply good_w_trans; [done|]. eapply good_w_trans; [done|]. by apply unmap_good. }
  destruct (i64 a <? 0); [by intros [= <- _ _]|]. destruct (size <=? off); [by intros [= <- _ _]|].
  set (rl := if size <? _ then _ else _). destruct (rl <=? 0); [by intros [= <- _ _]|].
  destruct (vfs_lseek w2 _ _ _) as [w3 n3] eqn:E3. apply lseek_good in E3. destruct (n3 <? 0); [intros [= <- _ _]; by apply Hun|].
  destruct (vfs_read w3 _ _ _) as [w4 n4] eqn:E4. apply read_good in E4.
  destruct (n4 <? 0); intros [= <- _ _]; [apply Hun|]; repeat (eapply good_w_trans; [done|]); apply good_w_refl.
Qed.

Lemma sys_mmap_good w m vs fdg addr len prot flags fd off : mem_ok m → is_u64 addr →
  good w (sys_mmap w (Some m) vs fdg addr len prot flags fd off).1.1.
Proof.
  intros Hm Ha. unfold sys_mmap. destruct (len =? 0); [apply good_w_refl|]. destruct (_ =? 0); [apply good_w_refl|].
  destruct (negb (vs_is_user w vs)); [apply good_w_refl|].
  assert (0 ≤ page_round_up len `div` PAGE_SIZE) as Hn by (apply Z.div_pos; [apply round_up_aligned|done]).
  destruct (negb (has flags LINUX_MAP_ANONYMOUS)).
  - destruct (fd <? 0); [apply good_w_refl|]. destruct (linux_mmap_file _ _ _ _ _ _ _ _ _ _) as [[w' m'] r] eqn:E. cbn.
    by eapply mmap_file_good in E.
  - destruct (negb (fd =? -1)); [apply good_w_refl|]. destruct (negb (off =? 0)); [apply good_w_refl|].
    destruct (_ && _); [apply good_w_refl|].
    destruct (linux_mmap_map_range _ _ _ _ _ _ _ _) as [[w' m'] r] eqn:E. cbn.
    apply mmap_map_range_spec in E as [E _]; [by eapply mmap_result_good in E|case_match; [done|by apply pick_hint_u64]|done].
Qed.
End files.

(** ** The other calls *)

Lemma sys_munmap_good w hp vs addr len : is_u64 addr → good w (sys_munmap w hp vs addr len).1.
Proof.
  intros Ha. unfold sys_munmap. destruct (len =? 0); [apply good_w_refl|]. destruct (negb _); [apply good_w_refl|].
  destruct (Z.leb_spec (i32 (page_round_up len `div` PAGE_SIZE)) 0); [apply good_w_refl|]. destruct (_ || _); [apply good_w_refl|].
  pose proof (unmap_good w vs addr (i32 (page_round_up len `div` PAGE_SIZE)) Ha) as Hg.
  destruct (linux_mm_unmap_user_range _ _ _ _) as [w' e]. cbn in *. destruct e; apply Hg; lia.
Qed.

Lemma sys_brk_good w m vs nb : good w (sys_brk w (Some m) vs nb).1.1.
Proof.
  unfold sys_brk. set (m1 := if start_brk m =? 0 then _ else _). destruct (nb =? 0); [apply good_w_refl|].
  destruct (round_up_aligned (brk m1)) as [_ Ho]. destruct (round_up_aligned nb) as [_ Hn].
  destruct (Z.ltb_spec (page_round_up (brk m1)) (page_round_up nb)).
  - pose proof (map_user_range_good w vs (page_round_up (brk m1)) ((page_round_up nb - page_round_up (brk m1)) `div` PAGE_SIZE) rw_flags Ho) as Hg.
    destruct (linux_mm_map_user_range _ _ _ _ _) as [w' p]. cbn in *. destruct (p =? 0); apply Hg; try done; apply Z.div_pos; done || lia.
  - destruct (Z.ltb_spec (page_round_up nb) (page_round_up (brk m1))); [|apply good_w_refl]. cbn.
    apply unmap_good; [done|]. apply Z.div_pos; done || lia.
Qed.
End good.
