(* ===== verification/MmRemap.v ===== *)
(** * mremap

    Resizing a range keeps its contents, in place or moved. *)

From stdpp Require Import base numbers list gmap option.
From S2P Require Import Prelude PageSlice PortNames Proc Mm MmSys MmSpec MmSim MmInv MmView MmThm MmCow MmCopy MmProps.

#[local] Coercion Z.of_nat : nat >-> Z.

Lemma round_up_wrap x : 2 ^ 64 - PAGE_SIZE < x < 2 ^ 64 → page_round_up x = 0.
Proof.
  intros Hx. unfold page_round_up. assert (u64 (x + (PAGE_SIZE - 1)) = x + (PAGE_SIZE - 1) - 2 ^ 64) as ->.
  { unfold uw. symmetry. apply (Z.mod_unique_pos _ _ 1); unfold PAGE_SIZE in *; lia. }
  fold (page_round_down (x + (PAGE_SIZE - 1) - 2 ^ 64)). rewrite page_round_down_eq by (unfold PAGE_SIZE in *; lia).
  rewrite Z.mod_small by (unfold PAGE_SIZE in *; lia). lia.
Qed.

(** A size that does not wrap to 0 when it is rounded up. *)
Lemma round_up_pos x : 0 < x < 2 ^ 64 → page_round_up x ≠ 0 → x ≤ page_round_up x < x + PAGE_SIZE.
Proof.
  intros Hx Hne. apply round_up_exact. destruct (decide (x ≤ 2 ^ 64 - PAGE_SIZE)); [lia|]. destruct Hne. apply round_up_wrap. lia.
Qed.

Lemma i64_nonneg x : is_u64 x → 0 ≤ i64 x → i64 x = x.
Proof.
  intros Hx Hi. unfold is_u64 in Hx. destruct (decide (x < 2 ^ 63)); [apply iw_small; lia|].
  assert (i64 x = x - 2 ^ 64) as E; [|lia]. unfold iw. change (2 ^ (64 - 1)) with (2 ^ 63).
  rewrite (Z.mod_eq _ (2 ^ 64)) by lia. assert ((x + 2 ^ 63) `div` 2 ^ 64 = 1) as ->; [|lia].
  symmetry. apply (Z.div_unique_pos _ _ 1 (x + 2 ^ 63 - 2 ^ 64)); lia.
Qed.

Lemma VPN_div va : VPN va = va `div` PAGE_SIZE.
Proof. unfold VPN. by rewrite Z.shiftr_div_pow2 by lia. Qed.

(** The page of the [i]-th byte of an aligned range of [n] pages. *)
Lemma VPN_in va i n : va `mod` PAGE_SIZE = 0 → 0 ≤ i < n * PAGE_SIZE → VPN va ≤ VPN (va + i) < VPN va + n.
Proof.
  intros Ha Hi. rewrite !VPN_div. pose proof (Z.div_mod va PAGE_SIZE). unfold PAGE_SIZE in *. rewrite Ha in *.
  split; [apply Z.div_le_mono; lia|]. apply Z.div_lt_upper_bound; lia.
Qed.

(** A page that stays mapped keeps its bytes when frames keep theirs. *)
Lemma user_byte_kept v v' vs va : mm_inv v' → v_pte v' !! (vs, VPN va) = v_pte v !! (vs, VPN va) →
  (∀ p n b, frame_at v vs va = Some p → v_frames v' !! p = Some (n, b) → bytes_of (v_frames v) p = Some b) →
  user_byte v' vs va = user_byte v vs va.
Proof.
  intros Hi Hp Hf. unfold user_byte, frame_at in *. rewrite Hp. destruct (v_pte v !! (vs, VPN va)) as [[p pt]|]; [|done]. cbn in *.
  destruct (mapped_frame _ _ _ _ Hi Hp) as (n & b & Hn). unfold bytes_of at 1. rewrite Hn. cbn. by rewrite (Hf _ _ _ eq_refl Hn).
Qed.

Lemma drop_ref_bytes f p q n b : drop_ref f p !! q = Some (n, b) → bytes_of f q = Some b.
Proof.
  unfold drop_ref, bytes_of. destruct (f !! p) as [[[|[|m]] c]|] eqn:E; intros H.
  1,2: apply lookup_delete_Some in H as [_ ->]; done.
  - apply lookup_insert_Some in H as [[<- [= <- <-]]|[_ ->]]; [by rewrite E|done].
  - by rewrite H.
Qed.

Lemma unmap_pages_bytes v vs vpn k q n b : v_frames (unmap_pages v vs vpn k) !! q = Some (n, b) → bytes_of (v_frames v) q = Some b.
Proof.
  revert v vpn. induction k as [|k IH]; intros v vpn; cbn [unmap_pages]; [unfold bytes_of; by intros ->|].
  intros H. apply IH in H. unfold unmap_page in H. destruct (v_pte v !! (vs, vpn)) as [[p pt]|]; [|done]. cbn in H.
  unfold bytes_of in H. destruct (drop_ref (v_frames v) p !! q) as [[m c]|] eqn:E; [|done]. injection H as <-. by eapply drop_ref_bytes.
Qed.

Lemma unmap_keeps_byte v vs vpn (k : nat) va : mm_inv v → ¬ (vpn ≤ VPN va < vpn + k) →
  user_byte (unmap_pages v vs vpn k) vs va = user_byte v vs va.
Proof.
  intros Hi Hout. destruct (unmap_pages_good v vs vpn k Hi) as (Hi' & _). apply user_byte_kept; [done| |].
  - rewrite unmap_pages_pte, decide_False; [done|]. intros [_ ?]. done.
  - intros p n b _. apply unmap_pages_bytes.
Qed.

Section remap.
Context {W : Type} `{CL : CoreMMLaws W}.
Implicit Types (w : W) (m : proc_mem) (vs : Z) (fl : pflags).

Lemma mapped_keeps_byte w w' vs va n fl a : mm_inv (mv w) → mapped_new w w' vs va n fl → ¬ (VPN va ≤ VPN a < VPN va + n) →
  user_byte (mv w') vs a = user_byte (mv w) vs a.
Proof.
  intros Hi (_ & _ & Hn & _ & _ & frs & Hlen & [_ Hfr] & ->) Hout. unfold user_byte, frame_at.
  rewrite install_run_pte, decide_False by lia. destruct (v_pte (mv w) !! (vs, VPN a)) as [[p pt]|] eqn:Hp; [|done]. cbn.
  destruct (mapped_frame _ _ _ _ Hi Hp) as (k & b & Hf). unfold bytes_of. rewrite install_run_old; [done|].
  intros (fr & -> & Hin)%list_elem_of_fmap. destruct (Hfr _ Hin) as [? _]. congruence.
Qed.

Lemma pages_mapped_spec w vs va (n : nat) : 0 ≤ va → va `mod` PAGE_SIZE = 0 → va + n * PAGE_SIZE < 2 ^ 64 → pages_mapped w vs va n = true →
  ∀ i, 0 ≤ i < n → is_Some (v_leaf (mv w) !! (vs, VPN va + i)).
Proof.
  revert va. induction n as [|n IH]; intros va H0 Ha Hend; cbn [pages_mapped]; [intros _ i Hi; lia|].
  destruct (linux_mm_query_vaddr w vs va) as [e [pva fl]] eqn:Eq. destruct (decide (e = REND_SUCCESS)) as [->|]; [|by destruct e].
  apply query_vaddr_spec in Eq as [_ (o & Ho)]; [|unfold PAGE_SIZE in *; lia|done]. rewrite page_round_down_eq, Ha, Z.sub_0_r in Ho by (unfold PAGE_SIZE in *; lia).
  intros H i Hi. destruct (decide (i = 0)) as [->|]; [rewrite Z.add_0_r; eauto|].
  rewrite uw_small in H by (unfold PAGE_SIZE in *; lia). replace (va + PAGE_SIZE) with (va + 1 * PAGE_SIZE) in H by lia.
  specialize (IH (va + 1 * PAGE_SIZE)). rewrite VPN_add in IH. replace (VPN va + i) with (VPN va + 1 + (i - 1)) by lia.
  apply IH; [unfold PAGE_SIZE in *; lia|by apply aligned_add|unfold PAGE_SIZE in *; lia|done|lia].
Qed.

Lemma copy_user_range_spec w vs dst src len w' e : 0 ≤ dst → 0 ≤ src → 0 ≤ len → dst + len ≤ 2 ^ 64 → src + len ≤ 2 ^ 64 →
  mm_inv (mv w) → linux_mm_copy_user_range w vs dst src len = (w', e) →
  uspaces w' = uspaces w ∧ good_step (mv w) (mv w') ∧ only_bytes (mv w) (mv w') vs dst 0 len
  ∧ (copy_apart (mv w) vs dst src len → e = REND_SUCCESS →
     ∀ i, 0 ≤ i < len → user_byte (mv w') vs (dst + i) = user_byte (mv w) vs (src + i)).
Proof.
  intros Hd Hs Hl Hde Hse Hi. unfold linux_mm_copy_user_range. destruct (Z.eqb_spec len 0) as [->|].
  { intros [= <- <-]. split_and!; [done|apply good_refl|by split|]. intros; lia. }
  destruct (negb (vs_is_user w vs)).
  { intros [= <- <-]. split_and!; [done|apply good_refl|by split|done]. }
  intros E. apply copy_chunks_spec in E as (? & ? & ? & Hcp); [|lia..|done]. split_and!; [done..|]. intros Ha He i Hi'. by apply Hcp.
Qed.

(** The frames of a new range are its own. *)
Lemma mapped_apart w w' vs dst src n fl len : mm_inv (mv w) → mapped_new w w' vs dst n fl → len ≤ n * PAGE_SIZE →
  (∀ i, 0 ≤ i < len → ¬ (VPN dst ≤ VPN (src + i) < VPN dst + n)) → copy_apart (mv w') vs dst src len.
Proof.
  intros Hi Hmap Hlen Hout. pose proof Hmap as (_ & Ha & Hn & _ & _ & frs & Hl & [Hnd Hfr] & Hm).
  assert (∀ j, 0 ≤ j < len → ∃ fr, frs !! Z.to_nat (VPN (dst + j) - VPN dst) = Some fr ∧ frame_at (mv w') vs (dst + j) = Some fr.1) as Hdst.
  { intros j Hj. destruct (VPN_in dst j n) as [Hlo Hhi]; [done|lia|]. destruct (lookup_lt_is_Some_2 frs (Z.to_nat (VPN (dst + j) - VPN dst))) as [fr Hx]; [lia|].
    exists fr. split; [done|]. unfold frame_at. rewrite Hm, install_run_pte, decide_True by lia. by rewrite Hx. }
  split.
  - intros i j p Hii Hj Hp. destruct (Hdst j Hj) as (fr & Hx & ->). intros [= <-].
    unfold frame_at in Hp. rewrite Hm, install_run_pte, decide_False in Hp by (intros [_ ?]; apply (Hout i); [done|lia]).
    destruct (v_pte (mv w) !! (vs, VPN (src + i))) as [[q pt]|] eqn:E; [|done]. injection Hp as ->.
    destruct (mapped_frame _ _ _ _ Hi E) as (? & ? & Hf). destruct (Hfr fr) as [? _]; [by eapply list_elem_of_lookup_2|]. congruence.
  - intros i j p Hii Hj. destruct (Hdst i Hii) as (fr & Hx & ->). destruct (Hdst j Hj) as (fr' & Hy & ->). intros [= <-] [= E].
    destruct (VPN_in dst i n) as [? ?]; [done|lia|]. destruct (VPN_in dst j n) as [? ?]; [done|lia|].
    assert (Z.to_nat (VPN (dst + i) - VPN dst) = Z.to_nat (VPN (dst + j) - VPN dst)); [|lia].
    eapply (NoDup_lookup _ _ _ fr.1 Hnd); rewrite list_lookup_fmap; [by rewrite Hx|rewrite Hy; cbn; by rewrite E].
Qed.

(** What the guards of [sys_mremap] establish. *)
Record remap_pre w vs old osz osa : Prop := {
  rp_old : is_u64 old;
  rp_aligned : old `mod` PAGE_SIZE = 0;
  rp_size : 0 < osz ≤ osa;
  rp_pages : osa `mod` PAGE_SIZE = 0;
  rp_end : old + osa < 2 ^ 64;
  rp_mapped i : 0 ≤ i < osa `div` PAGE_SIZE → is_Some (v_leaf (mv w) !! (vs, VPN old + i));
}.

Lemma mremap_move_spec w m vs old osz osa nsa w' r : mm_inv (mv w) → mem_ok m → remap_pre w vs old osz osa →
  is_u64 nsa → nsa `mod` PAGE_SIZE = 0 → osa < nsa →
  mremap_move w m vs old osz osa nsa = (w', r) →
  uspaces w' = uspaces w ∧ good_step (mv w) (mv w')
  ∧ (0 ≤ r → ∀ i, 0 ≤ i < osz → user_byte (mv w') vs (r + i) = user_byte (mv w) vs (old + i)).
Proof.
  intros Hi Hmem [Hold Ha [Hz Hza] Hp Hend Hmapped] Hnsa Hna Hlt. unfold mremap_move, linux_mremap_copy_mapped.
  set (n := nsa `div` PAGE_SIZE). assert (n * PAGE_SIZE = nsa) as Hn by by apply pages_exact.
  set (k := osa `div` PAGE_SIZE) in *. assert (k * PAGE_SIZE = osa) as Hk by by apply pages_exact.
  assert (0 ≤ n) by (unfold PAGE_SIZE in *; lia). assert (0 ≤ k) by (unfold PAGE_SIZE in *; lia).
  destruct (linux_mm_map_user_range_search _ _ _ _ _ _) as [w1 new] eqn:E1.
  apply map_search_spec in E1; [|apply u64_is_u64|done]. pose proof (mapped_or_same_good w w1 vs n rw_flags new eq_refl eq_refl E1 Hi) as [Hu1 Hg1].
  destruct (Hg1 Hi) as (Hi1 & _).
  destruct (Z.eqb_spec new 0) as [->|Hnew].
  { intros [= <- <-]. split_and!; [done|done|]. unfold LINUX_ENOMEM. lia. }
  destruct E1 as [_ E1]. rewrite decide_False in E1 by done. destruct E1 as [Hnu Hmap].
  pose proof Hmap as (_ & Hnal & _ & Hnend & Hfree & _).
  assert (∀ i, 0 ≤ i < osa → ¬ (VPN new ≤ VPN (old + i) < VPN new + n)) as Hout.
  { intros i Hio Hin. destruct (VPN_in old i k) as [Hlo Hhi]; [done|lia|].
    destruct (Hmapped (VPN (old + i) - VPN old)) as [x Hx]; [lia|].
    destruct (Hfree (Z.to_nat (VPN (old + i) - VPN new))) as [_ Hl]; [lia|].
    replace (VPN new + Z.to_nat (VPN (old + i) - VPN new)) with (VPN old + (VPN (old + i) - VPN old)) in Hl by lia. congruence. }
  destruct (linux_mm_copy_user_range _ _ _ _ _) as [w2 e2] eqn:E2.
  apply copy_user_range_spec in E2 as (Hu2 & Hg2 & Hob & Hcp); [|unfold is_u64 in *; lia..|done].
  destruct (Hg2 Hi1) as (Hi2 & _).
  assert (∀ a j, is_u64 a → 0 ≤ j → uspaces (linux_mm_unmap_user_range w2 vs a j).1 = uspaces w
            ∧ good_step (mv w) (mv (linux_mm_unmap_user_range w2 vs a j).1)) as Hun.
  { intros a j Haj Hj. destruct (unmap_good w2 vs a j Haj Hj Hi2) as [Hu3 Hg3]. split; [congruence|].
    eapply good_trans; [done|]. by eapply good_trans. }
  destruct (decide (e2 = REND_SUCCESS)) as [->|Hne].
  2: { destruct e2; try done; intros [= <- <-]; (destruct (Hun new n) as [? ?]; [done..|]); split_and!; try done; unfold LINUX_EFAULT; lia. }
  intros [= <- <-]. destruct (Hun old k) as [? ?]; [done..|]. split_and!; [done..|].
  intros Hr i Hio. rewrite i64_nonneg by done.
  assert (user_byte (mv w2) vs (new + i) = user_byte (mv w) vs (old + i)) as <-.
  { rewrite Hcp; [|apply (mapped_apart w w1 vs new old n rw_flags); [done|done|lia|intros; apply Hout; lia]|done|done]. eapply mapped_keeps_byte; [done|done|]. apply Hout. lia. }
  destruct (linux_mm_unmap_user_range w2 vs old k) as [w3 e3] eqn:E3.
  apply unmap_user_range_spec in E3 as [_ [[_ Hm3]|(_ & _ & q & Hq & Hqm & Hm3 & _)]]; [by cbn; rewrite Hm3| |done|done|done].
  cbn. rewrite Hm3. apply unmap_keeps_byte; [done|]. intros Hin.
  destruct (VPN_in new i n) as [? ?]; [done|lia|]. apply (Hout ((VPN (new + i) - VPN old) * PAGE_SIZE)).
  - unfold PAGE_SIZE in *. lia.
  - rewrite VPN_add. lia.
Qed.

Lemma sys_mremap_spec w m vs old osz nsz flags w' r : is_u64 old → is_u64 osz → is_u64 nsz → mem_ok m → mm_inv (mv w) →
  sys_mremap w (Some m) vs old osz nsz flags = (w', r) →
  uspaces w' = uspaces w ∧ good_step (mv w) (mv w')
  ∧ (0 ≤ r → nsz ≤ 2 ^ 64 - PAGE_SIZE → ∀ i, 0 ≤ i < Z.min osz nsz → user_byte (mv w') vs (r + i) = user_byte (mv w) vs (old + i)).
Proof.
  intros Hold Hosz Hnsz Hmem Hi. unfold sys_mremap.
  assert (∀ e, 0 < e → uspaces w = uspaces w ∧ good_step (mv w) (mv w)
    ∧ (0 ≤ - e → nsz ≤ 2 ^ 64 - PAGE_SIZE → ∀ i, 0 ≤ i < Z.min osz nsz → user_byte (mv w) vs (- e + i) = user_byte (mv w) vs (old + i))) as Herr.
  { intros e He. split_and!; [done|apply good_refl|lia]. }
  destruct (Z.eqb_spec osz 0) as [|Hz0]; [intros [= <- <-]; by apply Herr|].
  destruct (Z.eqb_spec nsz 0) as [|Hn0]; [intros [= <- <-]; by apply Herr|]. cbn [orb].
  destruct (Z.land old (PAGE_SIZE - 1) =? 0) eqn:Ha; cbn [negb]; [|intros [= <- <-]; by apply Herr]. apply mask_aligned in Ha; [|done].
  destruct (negb (Z.land flags _ =? 0)); [intros [= <- <-]; by apply Herr|].
  destruct (linux_user_va_range_ok old (page_round_up osz)) eqn:Hok; cbn [negb]; [|intros [= <- <-]; by apply Herr].
  destruct (negb (vs_is_user w vs)); [intros [= <- <-]; by apply Herr|].
  destruct (linux_mm_range_mapped w vs old (page_round_up osz)) eqn:Hrm; cbn [negb]; [|intros [= <- <-]; by apply Herr].
  destruct (round_up_aligned osz) as [Hoa Hou]. destruct (round_up_aligned nsz) as [Hnal Hnu].
  set (osa := page_round_up osz) in *. set (nsa := page_round_up nsz) in *.
  unfold linux_mm_range_mapped in Hrm. destruct (Z.eqb_spec osa 0) as [|Hosa0]; [done|].
  destruct (round_up_pos osz) as [Hle _]; [unfold is_u64 in *; lia|done|]. fold osa in Hle.
  assert (old + osa < 2 ^ 64) as Hend.
  { unfold linux_user_va_range_ok in Hok. destruct (Z.eqb_spec osa 0); [done|]. destruct (_ <=? old); [done|].
    destruct (uw_add_wrap 64 old osa) as [[_ ?]|[Hlt _]]; [done..|done|]. apply Z.ltb_lt in Hlt. by rewrite Hlt in Hok. }
  assert (remap_pre w vs old osz osa) as Hpre.
  { split; try done; [unfold is_u64 in *; lia|]. rewrite uw_small in Hrm by (unfold is_u64 in *; lia).
    rewrite page_round_down_eq, Ha, Z.sub_0_r in Hrm by done. replace (old + osa - old + PAGE_SIZE - 1) with (osa + (PAGE_SIZE - 1)) in Hrm by lia.
    assert ((osa + (PAGE_SIZE - 1)) `div` PAGE_SIZE = osa `div` PAGE_SIZE) as E.
    { rewrite <- (pages_exact osa Hoa) at 1. rewrite Z.add_comm, Z.div_add by done. by rewrite Z.div_small by (unfold PAGE_SIZE; lia). }
    rewrite E in Hrm. assert (0 ≤ osa `div` PAGE_SIZE) by (apply Z.div_pos; [apply Hou|done]).
    intros i Hii. eapply pages_mapped_spec in Hrm; [exact Hrm|apply Hold|done| |lia].
    rewrite Z2Nat.id by done. by rewrite pages_exact. }
  assert (nsz ≤ 2 ^ 64 - PAGE_SIZE → nsz ≤ nsa) as Hnle by (intros; apply round_up_exact; unfold is_u64 in *; lia).
  destruct (Z.ltb_spec nsa osa) as [Hshrink|Hge].
  { rewrite uw_small by (unfold is_u64 in *; lia).
    assert ((osa - nsa) `mod` PAGE_SIZE = 0) as Hdm by (rewrite Zminus_mod, Hoa, Hnal; done).
    assert (0 ≤ (osa - nsa) `div` PAGE_SIZE) by (apply Z.div_pos; [lia|done]).
    destruct (linux_mm_unmap_user_range _ _ _ _) as [w1 e] eqn:E.
    assert (uspaces w1 = uspaces w ∧ good_step (mv w) (mv w1)) as [Hu1 Hg1].
    { pose proof (unmap_good w vs (old + nsa) ((osa - nsa) `div` PAGE_SIZE)) as Hg. rewrite E in Hg. cbn in Hg. apply Hg; [unfold is_u64 in *; lia|done|done]. }
    destruct (decide (e = REND_SUCCESS)) as [->|Hne].
    2: { destruct e; try done; intros [= <- <-]; split_and!; try done; unfold LINUX_EINVAL; lia. }
    intros [= <- <-]. split_and!; [done..|]. intros Hr Hnb i Hii. rewrite i64_nonneg by done.
    apply unmap_user_range_spec in E as [_ [[? _]|(_ & _ & q & _ & _ & Hm & _)]]; [done| |unfold is_u64 in *; lia|done|done].
    rewrite Hm. apply unmap_keeps_byte; [done|]. rewrite <- (pages_exact nsa Hnal), VPN_add.
    destruct (VPN_in old i (nsa `div` PAGE_SIZE)) as [? ?]; [done|rewrite pages_exact by done; lia|]. lia. }
  destruct (Z.eqb_spec nsa osa) as [Heq|Hneq].
  { intros [= <- <-]. split_and!; [done|apply good_refl|]. intros Hr _ i Hii. by rewrite i64_nonneg. }
  assert (0 ≤ (nsa - osa) `div` PAGE_SIZE) by (apply Z.div_pos; [lia|done]).
  destruct (linux_mm_map_user_range _ _ _ _ _) as [w1 p] eqn:E. rewrite uw_small in E by (unfold is_u64 in *; lia).
  assert (uspaces w1 = uspaces w ∧ good_step (mv w) (mv w1)) as [Hu1 Hg1].
  { pose proof (map_user_range_good w vs (old + osa) ((nsa - osa) `div` PAGE_SIZE) rw_flags) as Hg. rewrite E in Hg. cbn in Hg.
    apply Hg; [unfold is_u64 in *; lia|done..]. }
  apply map_user_range_spec in E as [_ E]; [|unfold is_u64 in *; lia|done].
  destruct (Z.eqb_spec p 0) as [->|Hp]; cbn [negb].
  - rewrite decide_True in E by done. destruct (negb (has flags _)).
    { intros [= <- <-]. split_and!; [done..|]. unfold LINUX_ENOMEM. lia. }
    intros Emv. apply mremap_move_spec in Emv as (Hu2 & Hg2 & Hb); [|by rewrite E|done| |done|done|lia].
    + rewrite E in *. split_and!; [congruence|done|]. intros Hr _ i Hii. apply Hb; [done|lia].
    + destruct Hpre. split; try done. by rewrite E.
  - rewrite decide_False in E by done. destruct E as [-> E]. intros [= <- <-]. split_and!; [done..|].
    intros Hr _ i Hii. rewrite i64_nonneg by done. eapply mapped_keeps_byte; [done|done|].
    rewrite <- (pages_exact osa Hoa), VPN_add. destruct (VPN_in old i (osa `div` PAGE_SIZE)) as [? ?]; [done|rewrite pages_exact by done; lia|]. lia.
Qed.
End remap.
