(* ===== verification/MmSafe.v ===== *)
(** * Address spaces: safety of the memory calls

    Memory isolation along every sequence of memory calls, page faults and
    forks; what each call gives its caller; where the code breaks isolation. *)

From Stdlib Require Import Ascii.
From stdpp Require Import base numbers list gmap option relations.
From S2P Require Import Prelude PageSlice PortNames FdSlice Proc SigSet Mm MmSys MmSpec MmSim MmInv MmView MmThm MmCow MmCopy MmProps MmRemap.

#[local] Coercion Z.of_nat : nat >-> Z.

(** One event: a call of a process with memory fields [m] in space [vs], a
    page fault, a fork, the end of a space. *)
Inductive mm_step {W : Type} `{CM : CoreMM W} `{VF : VfsFile W} (w : W) : W → Prop :=
  | step_mmap m vs fdg addr len prot flags fd off : mem_ok m → is_u64 addr →
      mm_step w (sys_mmap w (Some m) vs fdg addr len prot flags fd off).1.1
  | step_munmap vs addr len : is_u64 addr → mm_step w (sys_munmap w true vs addr len).1
  | step_brk m vs nb : mm_step w (sys_brk w (Some m) vs nb).1.1
  | step_mremap m vs old osz nsz flags : mem_ok m → is_u64 old → is_u64 osz → is_u64 nsz →
      mm_step w (sys_mremap w (Some m) vs old osz nsz flags).1
  | step_fault cur i : is_u64 (ti_addr i) → mm_step w (linux_trap_pf_handler w cur i).1
  | step_fork vs : mm_step w (linux_copy_vspace w vs).1
  | step_break_stack vs sp scratch : is_u64 sp → is_u64 scratch → mm_step w (linux_mm_cow_break_user_stack w vs sp scratch)
  | step_exit vs : mm_step w (del_vspace w vs).

Section safe.
Context {W : Type} `{CL : CoreMMLaws W} `{VF : VfsFile W} `{VL : !VfsFileLaws W}.
Implicit Types (w : W) (m : proc_mem) (vs : Z) (fl : pflags).

Lemma mm_step_good w w' : mm_step w w' → good_step (mv w) (mv w').
Proof.
  intros Hs Hi. destruct Hs.
  - by apply sys_mmap_good.
  - by apply sys_munmap_good.
  - by apply sys_brk_good.
  - destruct (sys_mremap w (Some m) vs old osz nsz flags) as [w' r] eqn:E. by eapply sys_mremap_spec in E as (_ & Hg & _); [apply Hg|..].
  - by apply pf_handler_good.
  - by apply copy_vspace_good.
  - by apply break_stack_good.
  - by apply (delete_good _ _ vs), Hi; apply del_vspace_spec.
Qed.

Lemma mm_steps_good w w' : rtc mm_step w w' → good_step (mv w) (mv w').
Proof. induction 1; [apply good_refl|]. eapply good_trans; [by apply mm_step_good|done]. Qed.

(** C7. Isolation, leak freedom and lock balance: along any sequence of mmap,
    munmap, brk, mremap, page faults, forks and exits, by any processes, a
    page that a page table lets its owner write is mapped nowhere else; every
    mapped page has a frame that is still allocated; every frame keeps its
    owners in step with the pages linked to it (none is lost, none freed
    early); and no radix lock stays held. *)
Theorem mm_steps_isolated w w' : mm_inv (mv w) → rtc mm_step w w' →
  (∀ k k' p pt pt', v_pte (mv w') !! k = Some (p, pt) → f_write pt = true → v_pte (mv w') !! k' = Some (p, pt') → k' = k)
  ∧ (∀ k p pt, v_pte (mv w') !! k = Some (p, pt) → is_Some (v_frames (mv w') !! p))
  ∧ balanced (mv w) (mv w') ∧ v_locks (mv w') = v_locks (mv w).
Proof.
  intros Hi Hs. destruct (mm_steps_good w w' Hs Hi) as (Hi' & Hb & Hl). split_and!; [| |done|done].
  - intros. by eapply writable_private.
  - intros k p pt Hk. destruct (mapped_frame _ _ _ _ Hi' Hk) as (n & b & ->). eauto.
Qed.

(** C20. Mapping is all or nothing: [linux_mm_map_user_range] returns 0 and
    leaves memory and locks as they were, whatever part of the range it had
    filled; or it returns the address asked for, every page of the range was
    free before and now has its own new frame with the flags asked for, and
    nothing else changes. *)
Theorem map_user_range_atomic w vs hint page_num fl w' r : is_u64 hint → 0 ≤ page_num →
  linux_mm_map_user_range w vs hint page_num fl = (w', r) →
  if decide (r = 0) then mv w' = mv w
  else r = hint ∧ run_free (mv w) vs (VPN hint) (Z.to_nat page_num)
       ∧ ∃ frs, length frs = Z.to_nat page_num ∧ fresh_frames (mv w) frs
                ∧ mv w' = install_run rm_sw_flags (mv w) vs (VPN hint) frs fl.
Proof.
  intros Hh Hn E. apply map_user_range_spec in E as [_ E]; [|done|done]. case_decide; [done|]. by destruct E as (-> & _ & _ & _ & _ & E).
Qed.

(** C19. Anonymous mmap: the call fails with an errno and changes nothing, or
    it returns a page-aligned range that was free, is mapped with the
    protection asked for, lies where [MAP_FIXED] says or below the top of user
    space, and from which the next search starts. *)
Theorem mmap_anonymous_spec w m vs fdg addr len prot flags w' cur r : mem_ok m → is_u64 addr →
  0 < len ≤ 2 ^ 64 - PAGE_SIZE → has flags LINUX_MAP_ANONYMOUS = true →
  sys_mmap w (Some m) vs fdg addr len prot flags (-1) 0 = (w', cur, r) →
  let n := page_round_up len `div` PAGE_SIZE in
  (mv w' = mv w ∧ cur = Some m ∧ r ∈ [u64 (- LINUX_EINVAL); u64 (- LINUX_ENOMEM); u64 (- LINUX_ESRCH)])
  ∨ (len ≤ n * PAGE_SIZE < len + PAGE_SIZE
     ∧ mapped_new w w' vs r n (linux_prot_to_page_flags prot)
     ∧ (if has flags LINUX_MAP_FIXED then r = addr else r + n * PAGE_SIZE ≤ user_space_top)
     ∧ ∃ m', cur = Some m' ∧ brk m' = brk m ∧ u64 (r + n * PAGE_SIZE) ≤ mmap_hint m').
Proof.
  intros Hm Ha Hl Hf. unfold sys_mmap. destruct (Z.eqb_spec len 0); [lia|].
  destruct (round_up_aligned len) as [Hal Hu]. pose proof (round_up_exact len ltac:(lia)) as Hr.
  pose proof (pages_exact _ Hal) as Hp.
  assert (0 ≤ page_round_up len `div` PAGE_SIZE) as Hn by (apply Z.div_pos; [apply Hu|done]).
  destruct (Z.eqb_spec (page_round_up len `div` PAGE_SIZE) 0); [lia|].
  destruct (negb (vs_is_user w vs)); [intros [= <- <- <-]; left; set_solver|]. rewrite Hf. cbn -[linux_mmap_pick_hint].
  destruct (_ && _); [intros [= <- <- <-]; left; set_solver|].
  set (hint := if _ || _ then _ else _). assert (is_u64 hint) as Hh by (subst hint; case_match; [done|by apply pick_hint_u64]).
  destruct (linux_mmap_map_range _ _ _ _ _ _ _ _) as [[w1 m1] r1] eqn:E. apply mmap_map_range_spec in E as [[Hu1 E] Hpos]; [|done|done].
  intros [= <- <- <-]. destruct E as [(? & -> & [->| ->])|(Hru & Hmap & ->)]; [left; set_solver..|]. right. rewrite Hp.
  split_and!; [lia|lia|done| |].
  - destruct Hpos as [Hsame|Hpos]; [by destruct (mapped_new_ne _ _ _ _ _ _ Hmap)|].
    destruct (has flags LINUX_MAP_FIXED) eqn:Hfx; [done|]. destruct Hmap as (Hr0 & _ & _ & Hend & _). rewrite Hp in Hend.
    destruct (decide (r1 + page_round_up len = 2 ^ 64)) as [E|]; [|rewrite uw_small in Hpos; unfold is_u64 in *; lia].
    rewrite E in Hpos. change (u64 (2 ^ 64)) with 0 in Hpos. unfold is_u64 in *. lia.
  - exists (raise_hint m (u64 (r1 + page_round_up len))). unfold raise_hint. split; [done|].
    destruct (Z.ltb_spec (mmap_hint m) (u64 (r1 + page_round_up len))); cbn; lia.
Qed.

(** munmap: it succeeds exactly when every page of the range was mapped, and
    then removes these pages, frames included, and nothing else.  When a page
    is missing it fails, after removing the pages before the first hole. *)
Theorem munmap_spec w vs addr len w' r : is_u64 addr → 0 < len ≤ 2 ^ 31 * PAGE_SIZE - PAGE_SIZE → mm_inv (mv w) →
  sys_munmap w true vs addr len = (w', r) →
  let n := page_round_up len `div` PAGE_SIZE in
  (r = 0 ∧ (∀ i, 0 ≤ i < n → page_mapped (mv w) vs (VPN addr + i)) ∧ mv w' = unmap_pages (mv w) vs (VPN addr) (Z.to_nat n))
  ∨ (r ∈ [- LINUX_EINVAL; - LINUX_ESRCH] ∧ mv w' = mv w)
  ∨ (r = - LINUX_EINVAL ∧ ∃ k : nat, k < n ∧ (∀ i, 0 ≤ i < k → page_mapped (mv w) vs (VPN addr + i))
       ∧ ¬ page_mapped (mv w) vs (VPN addr + k) ∧ mv w' = unmap_pages (mv w) vs (VPN addr) k).
Proof.
  intros Ha Hl Hi. unfold sys_munmap. destruct (Z.eqb_spec len 0) as [|Hl0]; [lia|].
  destruct (negb _); [intros [= <- <-]; right; left; set_solver|].
  destruct (round_up_aligned len) as [Hal Hu]. pose proof (round_up_exact len ltac:(unfold PAGE_SIZE in *; lia)) as Hr.
  pose proof (pages_exact _ Hal) as Hp. set (n := page_round_up len `div` PAGE_SIZE) in *.
  rewrite iw_small by (unfold PAGE_SIZE in *; lia). destruct (Z.leb_spec n 0); [intros [= <- <-]; right; left; set_solver|].
  destruct (_ || _); [intros [= <- <-]; right; left; set_solver|].
  destruct (linux_mm_unmap_user_range w vs addr n) as [w1 e] eqn:E. apply unmap_user_range_spec in E as [_ E]; [|done|lia|done].
  destruct (decide (e = REND_SUCCESS)) as [->|Hne].
  - intros [= <- <-]. destruct E as [[? _]|(_ & _ & k & Hk & Hmap & Hm & Hres)]; [done|]. rewrite decide_True in Hres by done.
    left. replace (Z.to_nat n) with k by lia. split_and!; [done| |done]. intros. apply Hmap. lia.
  - assert (∀ x, (match e with REND_SUCCESS => (w1, 0) | _ => (w1, - LINUX_EINVAL) end) = x → x = (w1, - LINUX_EINVAL)) as Hx by (by intros ? <-; destruct e).
    intros E'%Hx. injection E' as -> ->. destruct E as [[_ Hm]|(_ & _ & k & Hk & Hmap & Hm & Hres)]; [right; left; set_solver|].
    rewrite decide_False in Hres by done. right. right. split; [done|]. exists k. by destruct Hres.
Qed.

Lemma clone_bytes w w1 vs child s va : cloned (mv w) (mv w1) vs child → s = vs ∨ s = child →
  user_byte (mv w1) s va = user_byte (mv w) vs va.
Proof.
  intros Hcl Hs. unfold user_byte, frame_at. rewrite (cl_pte _ _ _ _ Hcl), decide_True by done.
  destruct (v_pte (mv w) !! (vs, VPN va)) as [[p pt]|]; [|done]. cbn. unfold bytes_of. rewrite (cl_frames _ _ _ _ Hcl).
  by destruct (v_frames (mv w) !! p).
Qed.

(** The faulting page reads as before; every other address too. *)
Lemma split_bytes v v' vs va s a : mm_inv v → split_done v v' vs va → user_byte v' s a = user_byte v s a.
Proof.
  intros Hi Hsd. destruct (split_good v v' vs va Hi Hsd Hi) as (Hi' & _).
  destruct Hsd as (old & opt & lf & new & n & b & Hp & _ & Hl & _ & Hf & Hn & _ & ->).
  set (k := (vs, VPN (page_round_down va))) in *. destruct (decide ((s, VPN a) = k)) as [E|E].
  - unfold user_byte, frame_at. rewrite E. cbn. rewrite lookup_insert_eq, Hp. cbn. unfold bytes_of. rewrite Hf. cbn.
    unfold drop_ref. rewrite lookup_insert_ne, Hf by congruence.
    destruct n as [|[|n]]; [rewrite lookup_delete_ne by congruence..|rewrite lookup_insert_ne by congruence]; by rewrite lookup_insert_eq.
  - apply user_byte_kept; [done|cbn; by rewrite lookup_insert_ne|]. intros p m c Hfa Hm. cbn in Hm. apply drop_ref_bytes in Hm.
    unfold bytes_of in *. rewrite lookup_insert_ne in Hm; [done|]. intros <-.
    unfold frame_at in Hfa. destruct (v_pte v !! (s, VPN a)) as [[q qt]|] eqn:Eq; [|done]. injection Hfa as ->.
    destruct (mapped_frame _ _ _ _ Hi Eq) as (? & ? & ?). congruence.
Qed.

(** The handler resumes a write to a present read-only page only by splitting it. *)
Lemma cow_fault_splits w vs i p pt w' : is_u64 (ti_addr i) → mm_inv (mv w) → ti_write i = true → ti_present i = true →
  v_pte (mv w) !! (vs, VPN (ti_addr i)) = Some (p, pt) → f_write pt = false →
  linux_trap_pf_handler w (Some vs) i = (w', PfResume) → split_done (mv w) (mv w') vs (ti_addr i).
Proof.
  intros Hva Hi Hw Hpr Hp Hro. destruct (va_page_split _ Hva) as (_ & _ & Hvpn). unfold linux_trap_pf_handler.
  assert (pf_unhandled i ≠ PfResume) as Hun by (unfold pf_unhandled; by destruct (ti_kernel i)).
  destruct (_ <? _); [intros [= _ ?]; done|].
  destruct (have_mapped _ _ _ _) as [w1 r] eqn:Eh. apply have_mapped_look in Eh as (_ & Hm1 & ->). rewrite Hvpn, Hp. cbn.
  destruct (mi_pte _ Hi _ _ _ Hp) as (-> & _). rewrite Hro, Hw, Hpr. cbn.
  destruct (linux_mm_query_vaddr _ _ _) as [ne [pva fl]]. cbn. destruct (f_write fl); cbn; [|intros [= _ ?]; done].
  rewrite andb_true_r. destruct (bool_decide _); [|intros [= _ ?]; done].
  destruct (linux_mm_cow_split_page w1 vs (ti_addr i)) as [w2 e] eqn:Ec. rewrite <- Hm1 in Hi. apply cow_split_spec in Ec as [_ Ec]; [|done|done].
  intros E. assert (e = REND_SUCCESS ∧ w' = w2) as [-> ->] by (destruct e; injection E; intros; done).
  destruct Ec as [[_ Ec]|[_ Ec]]; [|by rewrite Hm1 in Ec]. specialize (Ec eq_refl). rewrite Hvpn, Hm1, Hp in Ec. congruence.
Qed.

(** C8. Copy on write: after a fork, when the handler resumes the child's write
    to a page the parent could write, the child has a private writable frame
    with the parent's bytes, and both processes read at every address what
    the parent read before the fork. *)
Theorem fork_write_isolates w vs w1 child i w2 p pt : mm_inv (mv w) → is_u64 (ti_addr i) →
  ti_write i = true → ti_present i = true →
  v_pte (mv w) !! (vs, VPN (ti_addr i)) = Some (p, pt) → f_write pt = true →
  linux_copy_vspace w (Some vs) = (w1, (REND_SUCCESS, Some child)) →
  linux_trap_pf_handler w1 (Some child) i = (w2, PfResume) →
  (∃ new npt, v_pte (mv w2) !! (child, VPN (ti_addr i)) = Some (new, npt) ∧ f_write npt = true ∧ new ≠ p
     ∧ ∀ k' pt', v_pte (mv w2) !! k' = Some (new, pt') → k' = (child, VPN (ti_addr i)))
  ∧ (∀ va, user_byte (mv w2) vs va = user_byte (mv w) vs va)
  ∧ (∀ va, user_byte (mv w2) child va = user_byte (mv w) vs va).
Proof.
  intros Hi Hva Hw Hpr Hp Hwr Hc Hf. destruct (va_page_split _ Hva) as (_ & _ & Hvpn).
  pose proof (copy_vspace_good w (Some vs) Hi) as (Hi1 & _). rewrite Hc in Hi1. cbn in Hi1.
  destruct (copy_vspace_spec _ _ _ _ _ Hc eq_refl) as (? & ? & [= <-] & [= <-] & _ & Hne & _ & Hcl).
  assert (v_pte (mv w1) !! (child, VPN (ti_addr i)) = Some (ro_pte (p, pt))) as Hp1.
  { rewrite (cl_pte _ _ _ _ Hcl), decide_True by auto. by rewrite Hp. }
  eapply cow_fault_splits in Hf; [|done|done|done|done|exact Hp1|done].
  destruct (split_good _ _ _ _ Hi1 Hf Hi1) as (Hi2 & _). split; [|split].
  - destruct Hf as (old & opt & lf & new & n & b & Ho & _ & _ & Hwl & Hfo & Hfn & _ & Hm2). rewrite Hvpn in Ho, Hm2.
    rewrite Ho in Hp1. injection Hp1 as -> ->. assert (v_pte (mv w2) !! (child, VPN (ti_addr i)) = Some (new, rm_sw_flags (cow_new_flags lf))) as Hk.
    { rewrite Hm2. cbn. by rewrite lookup_insert_eq. }
    exists new, (rm_sw_flags (cow_new_flags lf)). split_and!; [done|by rewrite rm_sw_flags_spec|congruence|].
    intros k' pt' Hk'. eapply writable_private; [done|exact Hk| |exact Hk']. by rewrite rm_sw_flags_spec.
  - intros a. rewrite (split_bytes _ _ _ _ _ _ Hi1 Hf). by eapply clone_bytes; [|left].
  - intros a. rewrite (split_bytes _ _ _ _ _ _ Hi1 Hf). by eapply clone_bytes; [|right].
Qed.

(** C18. mremap keeps the contents.  When a call with a new size of at most
    2^64 - 4096 succeeds, shrinking, growing in place or moving, the bytes at the
    address it returns are those of the old range, as far as both sizes go.  (A
    larger size wraps around when it is rounded up to pages, and the call drops
    the range: [mremap_wrapping_size_unmaps].) *)
Theorem mremap_keeps_content w m vs old osz nsz flags w' r : is_u64 old → is_u64 osz → 0 ≤ nsz ≤ 2 ^ 64 - PAGE_SIZE → mem_ok m →
  mm_inv (mv w) → sys_mremap w (Some m) vs old osz nsz flags = (w', r) → 0 ≤ r →
  ∀ i, 0 ≤ i < Z.min osz nsz → user_byte (mv w') vs (r + i) = user_byte (mv w) vs (old + i).
Proof.
  intros ? ? Hn ? ? E Hr. eapply sys_mremap_spec in E as (_ & _ & E); [apply E; [done|lia]|done|done| |done|done].
  unfold is_u64. unfold PAGE_SIZE in *. lia.
Qed.

(** ** mprotect *)

Lemma flags_set_app v1 v2 v3 vs vpn a b fl : 0 ≤ a → 0 ≤ b → flags_set rm_sw_flags v1 v2 vs vpn a fl →
  flags_set rm_sw_flags v2 v3 vs (vpn + a) b fl → flags_set rm_sw_flags v1 v3 vs vpn (a + b) fl.
Proof.
  intros Ha Hb H1 H2. split.
  - intros s m. rewrite (fs_pte _ _ _ _ _ _ _ H2), (fs_pte _ _ _ _ _ _ _ H1).
    repeat case_decide; try lia; try done; by destruct (v_pte v1 !! (s, m)) as [[? ?]|].
  - intros s m. rewrite (fs_leaf _ _ _ _ _ _ _ H2), (fs_leaf _ _ _ _ _ _ _ H1).
    repeat case_decide; try lia; try done; by destruct (v_leaf v1 !! (s, m)) as [[? ?]|].
  - by rewrite (fs_frames _ _ _ _ _ _ _ H2), (fs_frames _ _ _ _ _ _ _ H1).
  - by rewrite (fs_locks _ _ _ _ _ _ _ H2), (fs_locks _ _ _ _ _ _ _ H1).
Qed.

Lemma flags_set_none v vs vpn fl : flags_set rm_sw_flags v v vs vpn 0 fl.
Proof. split; try done; intros s m; by rewrite decide_False by lia. Qed.

Lemma update_intervals_spec fuel w vs iter end_va fl w' : 0 ≤ iter ≤ end_va → iter `mod` PAGE_SIZE = 0 → end_va `mod` PAGE_SIZE = 0 →
  update_intervals fuel w vs iter end_va fl = (w', REND_SUCCESS) →
  uspaces w' = uspaces w ∧ flags_set rm_sw_flags (mv w) (mv w') vs (VPN iter) ((end_va - iter) `div` PAGE_SIZE) fl.
Proof.
  revert w iter. induction fuel as [|fuel IH]; intros w iter Hit Ha He; cbn [update_intervals]; destruct (Z.leb_spec end_va iter).
  1,3: intros [= <-]; split; [done|]; replace (end_va - iter) with 0 by lia; apply flags_set_none.
  - done.
  - destruct (radix_interval w vs iter end_va) as [[[s e] fl0]|] eqn:Er; [|done]. apply radix_interval_spec in Er as ([Hs Hse] & Hsa & Hea); [|done].
    destruct (Z.ltb_spec iter s); [done|]. replace s with iter in * by lia. clear Hs.
    set (e' := if end_va <? e then end_va else e). assert (iter < e' ≤ end_va ∧ e' `mod` PAGE_SIZE = 0) as [He' Hea'].
    { subst e'. destruct (Z.ltb_spec end_va e); split; done || lia. }
    destruct (Z.leb_spec e' iter); [lia|].
    assert ((e' - iter) `mod` PAGE_SIZE = 0) as Hd by (rewrite Zminus_mod, Hea', Ha; done).
    rewrite <- (pages_exact _ Hd). set (n := (e' - iter) `div` PAGE_SIZE). assert (n * PAGE_SIZE = e' - iter) as Hn by by apply pages_exact.
    assert (0 < n) by (unfold PAGE_SIZE in *; lia).
    destruct (set_range_flags _ _ _ _ _) as [w1 e1] eqn:Es. apply set_range_flags_spec in Es as [Hu1 Hm1]; [|done|done].
    destruct (decide (e1 = REND_SUCCESS)) as [->|Hne]; [|by destruct e1].
    intros E. apply IH in E as [Hu2 Hm2]; [|lia|done|done]. split; [congruence|].
    replace ((end_va - iter) `div` PAGE_SIZE) with (n + (end_va - e') `div` PAGE_SIZE).
    + eapply flags_set_app; [lia|apply Z.div_pos; [lia|done]|done|]. rewrite <- VPN_add, Hn. by replace (iter + (e' - iter)) with e' by lia.
    + replace (end_va - iter) with ((end_va - e') + n * PAGE_SIZE) by lia. rewrite Z.div_add by done. lia.
Qed.

Lemma mprotect_sets_flags w vs addr len prot w' : is_u64 addr → 0 < len ≤ 2 ^ 64 - PAGE_SIZE → addr + page_round_up len < 2 ^ 64 →
  sys_mprotect w true vs addr len prot = (w', 0) →
  flags_set rm_sw_flags (mv w) (mv w') vs (VPN addr) (page_round_up len `div` PAGE_SIZE) (linux_prot_to_page_flags prot).
Proof.
  intros Ha Hl Hend. unfold sys_mprotect. destruct (Z.eqb_spec len 0); [lia|].
  destruct (Z.land addr _ =? 0) eqn:Hal; cbn [negb]; [|by intros [=]]. apply mask_aligned in Hal; [|done].
  destruct (_ <? addr); [by intros [=]|]. destruct (_ || _); [by intros [=]|]. unfold linux_mm_update_range_flags.
  destruct (negb _ || _); [by intros [=]|]. rewrite page_round_down_eq, Hal, Z.sub_0_r by done.
  destruct (round_up_aligned len) as [Hla Hlu]. pose proof (round_up_exact len ltac:(lia)) as Hr.
  assert (page_round_up (page_round_up len) = page_round_up len) as ->.
  { pose proof (round_up_aligned (page_round_up len)) as [Hra Hru]. destruct (decide (page_round_up len ≤ 2 ^ 64 - PAGE_SIZE)).
    - pose proof (round_up_exact (page_round_up len)) as Hr2. pose proof (pages_exact _ Hla). pose proof (pages_exact _ Hra).
      unfold is_u64, PAGE_SIZE in *. lia.
    - pose proof (pages_exact _ Hla). unfold is_u64, PAGE_SIZE in *. lia. }
  rewrite uw_small by (unfold is_u64 in *; lia). destruct (Z.leb_spec (addr + page_round_up len) addr); [by intros [=]|].
  destruct (radix_lock _ _ _ _) as [w1 e1] eqn:El. apply radix_lock_spec in El as [Hu1 Hm1].
  destruct (decide (e1 = REND_SUCCESS)) as [->|Hne]; [|destruct e1; try done; by intros [=]].
  destruct (update_intervals _ _ _ _ _ _) as [w2 e2] eqn:Eu. destruct e2; intros [= <-].
  apply update_intervals_spec in Eu as [Hu2 Hm2]; [|unfold is_u64 in *; lia|done|rewrite Zplus_mod, Hal, Hla; done].
  replace (addr + page_round_up len - addr) with (page_round_up len) in Hm2 by lia. rewrite Hm1 in Hm2.
  edestruct (radix_unlock_spec w2) as [_ ->]; [by rewrite (fs_locks _ _ _ _ _ _ _ Hm2)|]. destruct Hm2. by split.
Qed.

(** C35. mprotect ignores sharing: a page whose frame another page maps as well
    (after a fork) becomes writable in place when mprotect asks for write
    access, so that the owner's writes reach the other process.  The flags it
    installs have no copy-on-write mark. *)
Theorem mprotect_exposes_shared w vs addr len prot w' k vpn p pt pt' : is_u64 addr → 0 < len ≤ 2 ^ 64 - PAGE_SIZE →
  addr + page_round_up len < 2 ^ 64 → has prot LINUX_PROT_WRITE = true →
  VPN addr ≤ vpn < VPN addr + page_round_up len `div` PAGE_SIZE →
  v_pte (mv w) !! (vs, vpn) = Some (p, pt) → v_pte (mv w) !! k = Some (p, pt') → k ≠ (vs, vpn) →
  sys_mprotect w true vs addr len prot = (w', 0) →
  ∃ npt npt', v_pte (mv w') !! (vs, vpn) = Some (p, npt) ∧ f_write npt = true ∧ v_pte (mv w') !! k = Some (p, npt').
Proof.
  intros Ha Hl Hend Hw Hv Hp Hk Hne E. apply mprotect_sets_flags in E; [|done..].
  exists (rm_sw_flags (linux_prot_to_page_flags prot)). destruct k as [s m].
  exists (if decide (s = vs ∧ VPN addr ≤ m < VPN addr + page_round_up len `div` PAGE_SIZE) then rm_sw_flags (linux_prot_to_page_flags prot) else pt').
  split_and!.
  - rewrite (fs_pte _ _ _ _ _ _ _ E), decide_True by done. by rewrite Hp.
  - by rewrite rm_sw_flags_spec.
  - rewrite (fs_pte _ _ _ _ _ _ _ E), Hk. by case_decide.
Qed.

(** ** brk *)

(** brk: growing maps exactly the new pages and moves the break, or leaves
    memory and break as they were; the value returned is the break. *)
Theorem brk_grows w m vs nb w' cur r : start_brk m ≠ 0 →
  page_round_up (brk m) < page_round_up nb → sys_brk w (Some m) vs nb = (w', cur, r) →
  let n := (page_round_up nb - page_round_up (brk m)) `div` PAGE_SIZE in
  (mv w' = mv w ∧ cur = Some m ∧ r = brk m)
  ∨ (mapped_new w w' vs (page_round_up (brk m)) n rw_flags ∧ cur = Some (with_brk m nb) ∧ r = nb).
Proof.
  intros Hs Hlt. unfold sys_brk. destruct (Z.eqb_spec (start_brk m) 0); [done|].
  destruct (Z.eqb_spec nb 0) as [->|]; [intros [= <- <- <-]; auto|]. destruct (Z.ltb_spec (page_round_up (brk m)) (page_round_up nb)); [|lia].
  destruct (linux_mm_map_user_range _ _ _ _ _) as [w1 p] eqn:E.
  apply map_user_range_spec in E as [_ E]; [|apply round_up_aligned|apply Z.div_pos; done || lia].
  destruct (Z.eqb_spec p 0) as [->|]; intros [= <- <- <-]; [left; auto|]. rewrite decide_False in E by done. right. by destruct E as [-> E].
Qed.

(** A break below the start of the heap: the pages from there on are removed,
    the program's own included, and the call reports success. *)
Lemma brk_below_start_unmaps w m vs nb : mm_inv (mv w) → 0 < nb < start_brk m →
  page_round_up nb < page_round_up (brk m) →
  let '(w', cur, r) := sys_brk w (Some m) vs nb in
  cur = Some (with_brk m nb) ∧ r = nb ∧
  (mv w' = mv w ∨ ∃ k : nat, (∀ i, 0 ≤ i < k → page_mapped (mv w) vs (VPN (page_round_up nb) + i))
     ∧ mv w' = unmap_pages (mv w) vs (VPN (page_round_up nb)) k).
Proof.
  intros Hi Hn Hlt. unfold sys_brk. destruct (Z.eqb_spec (start_brk m) 0); [lia|]. destruct (Z.eqb_spec nb 0); [lia|].
  destruct (Z.ltb_spec (page_round_up (brk m)) (page_round_up nb)); [lia|]. destruct (Z.ltb_spec (page_round_up nb) (page_round_up (brk m))); [|lia].
  destruct (linux_mm_unmap_user_range _ _ _ _) as [w1 e] eqn:E. cbn. split_and!; [done..|].
  apply unmap_user_range_spec in E as [_ [[_ E]|(_ & _ & k & _ & Hmap & E & _)]];
    [by left|right; by exists k|apply round_up_aligned|apply Z.div_pos; done || lia|done].
Qed.
End safe.

(** ** Evaluation *)

(** One process with an empty address space; its heap starts at [0x400000]. *)
Definition sim0 : sim := Sim (MView ∅ ∅ ∅ []) {[1]} 100 200.
Definition mem0 : proc_mem := ProcMem 0x400000 0x400000 0.
(** Two heap pages, then a fork. *)
Definition sim1 : sim := (sys_brk sim0 (Some mem0) 1 0x402000).1.1.
Definition sim2 : sim := (linux_copy_vspace sim1 (Some 1)).1.
Definition child2 : Z := default 0 (linux_copy_vspace sim1 (Some 1)).2.2.
Definition fault2 : trap_info := TrapInfo 0x400010 true true false.

Lemma inv0 : mm_inv (mv sim0).
Proof. split; intros; cbn in *; done. Qed.

Lemma inv1 : mm_inv (mv sim1).
Proof. apply (sys_brk_good sim0 mem0 1 0x402000 inv0), inv0. Qed.

Lemma inv2 : mm_inv (mv sim2).
Proof. apply (copy_vspace_good sim1 (Some 1)), inv1. Qed.

Lemma mm_steps_isolated_witness : balanced (mv sim0) (mv sim2) ∧ v_locks (mv sim2) = [].
Proof.
  apply (mm_steps_isolated sim0 sim2 inv0).
  eapply rtc_l; [apply (step_brk sim0 mem0 1 0x402000)|]. eapply rtc_l; [apply (step_fork _ (Some 1))|]. apply rtc_refl.
Defined.

Lemma map_user_range_atomic_witness :
  let '(w', r) := linux_mm_map_user_range sim0 1 0x10000 3 rw_flags in
  r = 0x10000 ∧ run_free (mv sim0) 1 0x10 3.
Proof.
  pose proof (map_user_range_atomic sim0 1 0x10000 3 rw_flags
    (linux_mm_map_user_range sim0 1 0x10000 3 rw_flags).1 (linux_mm_map_user_range sim0 1 0x10000 3 rw_flags).2 ltac:(split; lia) ltac:(lia)
    ltac:(by destruct (linux_mm_map_user_range sim0 1 0x10000 3 rw_flags))) as H.
  assert ((linux_mm_map_user_range sim0 1 0x10000 3 rw_flags).2 = 0x10000) as E by (vm_compute; reflexivity).
  rewrite E in H. rewrite decide_False in H by lia. destruct H as (_ & H & _).
  destruct (linux_mm_map_user_range sim0 1 0x10000 3 rw_flags) as [w' r]. cbn in E. split; [done|exact H].
Defined.

Lemma mmap_anonymous_spec_witness :
  let '(w', cur, r) := sys_mmap sim0 (Some mem0) 1 (λ _, None) 0 5000 3 0x22 (-1) 0 in
  r = 0x401000 ∧ mapped_new sim0 w' 1 0x401000 2 rw_flags.
Proof.
  destruct (sys_mmap sim0 (Some mem0) 1 (λ _, None) 0 5000 3 0x22 (-1) 0) as [[w' cur] r] eqn:E.
  assert ((sys_mmap sim0 (Some mem0) 1 (λ _, None) 0 5000 3 0x22 (-1) 0).2 = 0x401000) as Er by (vm_compute; reflexivity).
  rewrite E in Er. cbn in Er. split; [done|].
  destruct (mmap_anonymous_spec sim0 mem0 1 (λ _, None) 0 5000 3 0x22 w' cur r) as [(_ & _ & H)|(_ & H & _)];
    [split; unfold is_u64; cbn; lia|unfold is_u64; lia|unfold PAGE_SIZE; lia|reflexivity|exact E| |].
  - exfalso. rewrite Er in H. apply list_elem_of_In in H. vm_compute in H. intuition discriminate.
  - rewrite Er in H. exact H.
Defined.

Lemma munmap_spec_witness :
  let '(w', r) := sys_munmap sim1 true 1 0x400000 0x2000 in r = 0 ∧ mv w' = unmap_pages (mv sim1) 1 0x400 2.
Proof.
  destruct (sys_munmap sim1 true 1 0x400000 0x2000) as [w' r] eqn:E.
  assert ((sys_munmap sim1 true 1 0x400000 0x2000).2 = 0) as Er by (vm_compute; reflexivity).
  rewrite E in Er. cbn in Er. split; [done|].
  destruct (munmap_spec sim1 1 0x400000 0x2000 w' r) as [(_ & _ & H)|[[H _]|[H _]]];
    [split; lia|unfold PAGE_SIZE; lia|apply inv1|exact E|exact H| |].
  - exfalso. rewrite Er in H. apply list_elem_of_In in H. vm_compute in H. intuition discriminate.
  - exfalso. rewrite Er in H. discriminate.
Defined.

Lemma fork_write_isolates_witness :
  let w2 := (linux_trap_pf_handler sim2 (Some child2) fault2).1 in
  (∀ va, user_byte (mv w2) 1 va = user_byte (mv sim1) 1 va) ∧ (∀ va, user_byte (mv w2) child2 va = user_byte (mv sim1) 1 va).
Proof.
  assert (v_pte (mv sim1) !! (1, 0x400) = Some (100, rw_flags)) as Hp by (vm_compute; reflexivity).
  assert ((linux_copy_vspace sim1 (Some 1)).2 = (REND_SUCCESS, Some child2)) as Hc by (vm_compute; reflexivity).
  assert ((linux_trap_pf_handler sim2 (Some child2) fault2).2 = PfResume) as Hf by (vm_compute; reflexivity).
  cbn zeta. destruct (fork_write_isolates sim1 1 sim2 child2 fault2 (linux_trap_pf_handler sim2 (Some child2) fault2).1 100 rw_flags) as (_ & H1 & H2);
    [apply inv1|split; cbn; lia|reflexivity|reflexivity|exact Hp|reflexivity| | |split; assumption].
  - rewrite (surjective_pairing (linux_copy_vspace sim1 (Some 1))). by rewrite Hc.
  - rewrite (surjective_pairing (linux_trap_pf_handler sim2 (Some child2) fault2)) at 1. by rewrite Hf.
Defined.

(** Growing where the next page is taken: the range moves. *)
Definition mem1 : proc_mem := ProcMem 0x400000 0x402000 0.
Lemma mremap_keeps_content_witness :
  let '(w', r) := sys_mremap sim1 (Some mem1) 1 0x400000 0x1000 0x2000 1 in
  r = 0x403000 ∧ ∀ i, 0 ≤ i < 0x1000 → user_byte (mv w') 1 (0x403000 + i) = user_byte (mv sim1) 1 (0x400000 + i).
Proof.
  destruct (sys_mremap sim1 (Some mem1) 1 0x400000 0x1000 0x2000 1) as [w' r] eqn:E.
  assert ((sys_mremap sim1 (Some mem1) 1 0x400000 0x1000 0x2000 1).2 = 0x403000) as Er by (vm_compute; reflexivity).
  rewrite E in Er. cbn in Er. split; [done|]. intros i Hi. rewrite <- Er.
  apply (mremap_keeps_content sim1 mem1 1 0x400000 0x1000 0x2000 1 w' r);
    [split; lia|split; lia|unfold PAGE_SIZE; lia|split; split; cbn; lia|apply inv1|exact E|lia|lia].
Defined.

Lemma mprotect_exposes_shared_witness :
  let '(w', r) := sys_mprotect sim2 true child2 0x400000 0x1000 3 in
  r = 0 ∧ ∃ npt npt', v_pte (mv w') !! (child2, 0x400) = Some (100, npt) ∧ f_write npt = true ∧ v_pte (mv w') !! (1, 0x400) = Some (100, npt').
Proof.
  destruct (sys_mprotect sim2 true child2 0x400000 0x1000 3) as [w' r] eqn:E.
  assert ((sys_mprotect sim2 true child2 0x400000 0x1000 3).2 = 0) as Er by (vm_compute; reflexivity).
  rewrite E in Er. cbn in Er. subst r. split; [done|].
  assert (∃ pt, v_pte (mv sim2) !! (child2, 0x400) = Some (100, pt)) as [pt Hp] by (eexists; vm_compute; reflexivity).
  assert (∃ pt, v_pte (mv sim2) !! (1, 0x400) = Some (100, pt)) as [pt' Hp'] by (eexists; vm_compute; reflexivity).
  assert (page_round_up 0x1000 = 0x1000) as Hr by (vm_compute; reflexivity).
  apply (mprotect_exposes_shared sim2 child2 0x400000 0x1000 3 w' (1, 0x400) 0x400 100 pt pt');
    [split; lia|unfold PAGE_SIZE; lia|rewrite Hr; lia|reflexivity| |exact Hp|exact Hp'| |exact E].
  - rewrite Hr. change (VPN 0x400000) with 0x400. change (0x1000 `div` PAGE_SIZE) with 1. lia.
  - assert (child2 ≠ 1) as Hc by (vm_compute; discriminate). congruence.
Defined.

Lemma brk_grows_witness : mapped_new sim0 sim1 1 0x400000 2 rw_flags.
Proof.
  destruct (sys_brk sim0 (Some mem0) 1 0x402000) as [[w' cur] r] eqn:E.
  assert ((sys_brk sim0 (Some mem0) 1 0x402000).2 = 0x402000) as Er by (vm_compute; reflexivity).
  assert (sim1 = w') as -> by (unfold sim1; by rewrite E). rewrite E in Er. cbn in Er.
  assert (page_round_up 0x402000 = 0x402000 ∧ page_round_up 0x400000 = 0x400000) as [Hr1 Hr2] by (split; vm_compute; reflexivity).
  destruct (brk_grows sim0 mem0 1 0x402000 w' cur r) as [(_ & _ & H)|(H & _)]; [done| |exact E| |].
  - cbn [brk mem0]. rewrite Hr1, Hr2. lia.
  - rewrite Er in H. discriminate.
  - cbn [brk mem0] in H. rewrite Hr1, Hr2 in H. exact H.
Defined.

(** Sizes that wrap when they are rounded up: mremap drops the whole range and
    reports success; brk moves the break to the end of the address space. *)
Example mremap_wrapping_size_unmaps :
  let '(w', r) := sys_mremap sim1 (Some mem1) 1 0x400000 0x1000 (2 ^ 64 - 1) 0 in
  r = 0x400000 ∧ v_pte (mv w') !! (1, 0x400) = None.
Proof. vm_compute. split; reflexivity. Qed.

Example brk_wrapping_size_accepted :
  let '(w', cur, r) := sys_brk sim1 (Some mem1) 1 (2 ^ 64 - 1) in
  r = 2 ^ 64 - 1 ∧ v_pte (mv w') = v_pte (mv sim1).
Proof. vm_compute. split; reflexivity. Qed.
