(* ===== verification/Rpc.v ===== *)
(** * Requests and replies on message ports ([linux_layer/ipc/rpc.c],
    [linux_layer/ipc/ipc_block_wake.c])

    A request is a message of type, length, value parameters; the name of the
    port for the answer is appended as the last parameter.  A caller sends the
    request, then waits on its reply port; a server sends one result back.

    The ports, the message queues of a thread, memory and the serializer belong
    to the core kernel: [IpcSerial] is the serializer with its documented wire
    format ([doc/ai/IPC_MESSAGE.md]), [Core] what the calls of the port library
    answer, for every kind of answer.  What this code does with the answers,
    the queue of messages the thread has enqueued but not yet sent and the
    messages delivered are the model's. *)

From stdpp Require Import base numbers list strings option.
From Stdlib Require Import Ascii.
From S2P Require Import Prelude PortNames.

Definition IPC_RPC_RESP_OPCODE_DEFAULT : Z := 0.
Definition IPC_RPC_RESP_FMT_DEFAULT : cstr := str "q".
Definition IPC_RPC_NEST_RESP_OPCODE : Z := 0xFFFD.
Definition IPC_RPC_NEST_RESP_FMT : cstr := str "qq".

(** ** The wire format *)

(** The little-endian number in [bs] ([memcpy] into a [u32]). *)
Fixpoint le_value (bs : list Z) : Z :=
  match bs with
  | [] => 0
  | b :: bs' => b + 256 * le_value bs'
  end.

Definition le32_at (payload : list Z) (off : Z) : Z := le_value (take 4 (drop (Z.to_nat off) payload)).
Definition byte_at (payload : list Z) (off : Z) : Z := default 0 (payload !! Z.to_nat off).
Definition str_bytes (s : cstr) : list Z := byte_of <$> s.

(** The C string that starts at [off]. *)
Fixpoint nul_prefix (bs : list Z) : cstr :=
  match bs with
  | [] => []
  | b :: bs' => if b =? 0 then [] else char_of b :: nul_prefix bs'
  end.
Definition str_at (payload : list Z) (off : Z) : cstr := nul_prefix (drop (Z.to_nat off) payload).

Definition tag_t : ascii := "t"%char.

(** The loop over the parameters; offsets are [u32]. *)
Fixpoint reply_port_scan (payload : list Z) (len : Z) (n : nat) (off : Z) (last : option Z) : option Z :=
  match n with
  | O => last
  | S n' =>
      if len <? u32 (off + 1 + 4) then last
      else
        let tag := byte_at payload off in
        let off := u32 (off + 1) in
        let vlen := le32_at payload off in
        let off := u32 (off + 4) in
        if len <? u32 (off + vlen) then last
        else
          let last := if (tag =? byte_of tag_t) && (0 <? vlen) then Some off else last in
          reply_port_scan payload len n' (u32 (off + vlen)) last
  end.

(** The offset of the name of the reply port. *)
Definition ipc_serial_payload_reply_port (payload : ptr (list Z)) (len : Z) : option Z :=
  match payload with
  | None => None
  | Some payload =>
      if len <? 4 then None
      else reply_port_scan payload len (Z.to_nat (le32_at payload 0)) 4 None
  end.

(** [payload] holds the [len] bytes written so far of a buffer of [cap]. *)
Definition ipc_payload_append_reply_port (payload : list Z) (cap : Z) (reply_port : cstr) : error_t * list Z :=
  let off := Z.of_nat (length payload) in
  let slen := u32 (u32 (Z.of_nat (length reply_port)) + 1) in
  if cap <? u32 (off + 1 + 4 + slen) then (E_IN_PARAM, payload)
  else
    let nparam := u32 (le32_at payload 0 + 1) in
    (REND_SUCCESS,
     le_bytes 4 nparam ++ drop 4 payload ++ [byte_of tag_t] ++ le_bytes 4 slen ++ str_bytes reply_port ++ [0]).

(** The parameters of a message as their format letters and value bytes. *)
Definition tlv_param (tag : ascii) (v : list Z) : list Z :=
  byte_of tag :: le_bytes 4 (Z.of_nat (length v)) ++ v.
Fixpoint tlv_params (tags : cstr) (vals : list (list Z)) : list Z :=
  match tags, vals with
  | t :: tags', v :: vals' => tlv_param t v ++ tlv_params tags' vals'
  | _, _ => []
  end.
Definition tlv (tags : cstr) (vals : list (list Z)) : list Z :=
  le_bytes 4 (Z.of_nat (length tags)) ++ tlv_params tags vals.

(** ** The serializer of the core kernel *)

(** An argument: a string (which may be NULL), a pointer, an [i64], 32 bits (a
    [u32] or an [i32]). *)
Inductive ser_arg : Type :=
  | AStr (s : ptr cstr)
  | APtr (p : Z)
  | AQ (v : Z)
  | AU (v : Z).

#[global] Instance ser_arg_eq_dec : EqDecision ser_arg.
Proof. solve_decision. Defined.

Class IpcSerial : Type := {
  ipc_serial_encode : cstr → list ser_arg → option (list Z);
  ipc_serial_decode : cstr → list Z → option (list ser_arg);
  (** the value of one parameter, by its letter *)
  ser_param : ascii → list Z → option ser_arg;
  KMSG_MAX_PAYLOAD : Z;
}.

(** The documented format: a count, then a letter, a length and the value for
    each parameter; decoding takes the whole payload and fails when the
    letters are not those of the format; a port name is stored with its NUL. *)
Class IpcSerialLaws `{SE : IpcSerial} : Prop := {
  encode_wire fmt args b : ipc_serial_encode fmt args = Some b →
    ∃ vals, Forall3 (λ t v a, ser_param t v = Some a) fmt vals args ∧ b = tlv fmt vals
      ∧ Z.of_nat (length b) < 2 ^ 32;
  decode_wire fmt tags vals : Z.of_nat (length (tlv tags vals)) < 2 ^ 32 → length tags = length vals →
    ipc_serial_decode fmt (tlv tags vals) =
      if decide (fmt = tags) then mapM (λ p, ser_param p.1 p.2) (zip tags vals) else None;
  param_t s : Z.of_nat (length s) + 1 < 2 ^ 32 → zero ∉ s →
    ser_param tag_t (str_bytes s ++ [0]) = Some (AStr (Some s));
  max_payload_range : 256 ≤ KMSG_MAX_PAYLOAD < 2 ^ 32;
}.

(** ** Messages *)

Record kmsg_t : Type := Kmsg {
  km_module : Z;
  km_opcode : Z;
  km_payload : list Z;
}.

#[global] Instance kmsg_eq_dec : EqDecision kmsg_t.
Proof. solve_decision. Defined.

Definition km_reply_port (km : kmsg_t) : ptr cstr :=
  str_at (km_payload km)
    <$> ipc_serial_payload_reply_port (Some (km_payload km)) (Z.of_nat (length (km_payload km))).

Record message_port : Type := Port {
  po_name : cstr;
  po_service_id : Z;
}.

(** What the port library answers.  [core_lookup]: the port of that name;
    [core_alloc]: whether an allocation succeeds; [core_job]: the address of a
    new block, given those in use; [core_enqueue]: of [enqueue_msg_for_send];
    [core_send]: of sending to the port, blocking or not, with a flag that says
    whether a failed send leaves the message in the queue. *)
Class Core (E : Type) : Type := {
  core_lookup : cstr → E → option message_port * E;
  core_alloc : E → bool * E;
  core_job : list Z → E → option Z * E;
  core_enqueue : E → error_t * E;
  core_send : bool → cstr → E → error_t * bool * E;
}.

(** The names of ports found are the names asked for; blocks in use are not
    handed out again. *)
Class CoreLaws (E : Type) `{C : Core E} : Prop := {
  lookup_name n e p e' : core_lookup n e = (Some p, e') → po_name p = n;
  job_fresh l e a e' : core_job l e = (Some a, e') → a ∉ l;
}.

(** A thread's side of the ports: the messages enqueued for sending, oldest
    first ([send_pending_msg], then [send_msg_queue]), and those delivered,
    each with the name of the port. *)
Record thread_io (E : Type) : Type := ThreadIo {
  t_sendq : list kmsg_t;
  t_log : list (cstr * kmsg_t);
  t_core : E;
}.
Arguments ThreadIo {E} _ _ _.
Arguments t_sendq {E} _.
Arguments t_log {E} _.
Arguments t_core {E} _.

Section rpc.
Context `{SE : IpcSerial} {E : Type} `{C : Core E}.
Implicit Types (t : thread_io E).

Definition set_core t (e : E) : thread_io E := ThreadIo (t_sendq t) (t_log t) e.

Definition thread_lookup_port t (name : cstr) : option message_port * thread_io E :=
  let '(p, e) := core_lookup name (t_core t) in (p, set_core t e).
Definition alloc_ok t : bool * thread_io E :=
  let '(b, e) := core_alloc (t_core t) in (b, set_core t e).

(** [create_message_with_msg] and [enqueue_msg_for_send]: a message that is
    not taken is freed. *)
Definition enqueue_msg_for_send t (m : kmsg_t) : error_t * thread_io E :=
  let '(err, e) := core_enqueue (t_core t) in
  match err with
  | REND_SUCCESS => (err, ThreadIo (t_sendq t ++ [m]) (t_log t) e)
  | _ => (err, set_core t e)
  end.

(** Sending takes the oldest message, whatever port it was meant for: the queue
    is not sorted by destination.  With success it is delivered; when the port
    is closed it is dropped; [E_REND_AGAIN] leaves it. *)
Definition send_to t (block : bool) (port : message_port) : error_t * thread_io E :=
  let '(err, kept, e) := core_send block (po_name port) (t_core t) in
  match err with
  | REND_SUCCESS =>
      (err, match t_sendq t with
            | m :: q => ThreadIo q (t_log t ++ [(po_name port, m)]) e
            | [] => set_core t e
            end)
  | E_REND_PORT_CLOSED => (err, ThreadIo (tail (t_sendq t)) (t_log t) e)
  | E_REND_AGAIN => (err, set_core t e)
  | _ => (err, if (kept : bool) then set_core t e else ThreadIo (tail (t_sendq t)) (t_log t) e)
  end.
Definition send_msg t port := send_to t true port.
Definition ipc_try_send_msg t port := send_to t false port.

Definition ipc_rpc_abandon_current_send_payload t : thread_io E :=
  ThreadIo (tail (t_sendq t)) (t_log t) (t_core t).

(** [kmsg_create] of the core: serialize, then allocate. *)
Definition kmsg_create t (module opcode : Z) (fmt : cstr) (args : list ser_arg) : option kmsg_t * thread_io E :=
  match ipc_serial_encode fmt args with
  | None => (None, t)
  | Some b => let '(ok, t) := alloc_ok t in (if ok then Some (Kmsg module opcode b) else None, t)
  end.

Definition ipc_kmsg_create_request t (module opcode : Z) (fmt reply_port : cstr) (args : list ser_arg)
  : option kmsg_t * thread_io E :=
  match ipc_serial_encode fmt args with
  | None => (None, t)
  | Some b =>
      let len_fmt := Z.of_nat (length b) in
      let t_tlv := u32 (1 + 4 + u32 (Z.of_nat (length reply_port)) + 1) in
      if u32 (KMSG_MAX_PAYLOAD - t_tlv) <? len_fmt then (None, t)
      else
        let payload_len := u32 (len_fmt + t_tlv) in
        if KMSG_MAX_PAYLOAD <? payload_len then (None, t)
        else
          let '(ok, t) := alloc_ok t in
          if negb ok then (None, t)
          else
            match ipc_payload_append_reply_port b (u32 (len_fmt + t_tlv)) reply_port with
            | (REND_SUCCESS, payload) =>
                let '(ok, t) := alloc_ok t in
                (if ok then Some (Kmsg module opcode payload) else None, t)
            | _ => (None, t)
            end
  end.

(** ** Ports *)

Definition ipc_rpc_port_lookup_or_create t (port_name : ptr cstr) (table registered : bool)
    (created : option message_port) : option message_port * thread_io E :=
  match port_name with
  | None => (None, t)
  | Some name =>
      if is_nul name 0 || negb table then (None, t)
      else
        match thread_lookup_port t name with
        | (Some p, t) => (Some p, t)
        | (None, t) =>
            match created with
            | None => (None, t)
            | Some p => (if registered then Some p else None, t)
            end
        end
  end.

(** The name unregistered, if any. *)
Definition ipc_rpc_unregister_port_by_pid (table : bool) (prefix : ptr cstr) (pid : Z) : option cstr :=
  if negb table || (pid <=? 0) then None
  else
    match prefix with
    | None => None
    | Some _ =>
        match ipc_rpc_format_port_name PORT_NAME_LEN_MAX prefix pid with
        | (_, O) => None
        | (name, _) => Some name
        end
    end.

Definition ipc_rpc_unregister_port_name (table : bool) (port_name : ptr cstr) : option cstr :=
  match port_name with
  | None => None
  | Some name => if negb table || is_nul name 0 then None else Some name
  end.

(** ** Special messages *)

(** [kmsg_from_msg] gives NULL ([None]) for a message that is not a [kmsg]. *)
Definition linux_ipc_kmsg_is_port_closed (closed_opcode : Z) (port : message_port) (msg : ptr kmsg_t) : bool :=
  match msg with
  | None => false
  | Some km =>
      if negb (km_module km =? po_service_id port) then false else km_opcode km =? closed_opcode
  end.

Definition ipc_rpc_recv_is_interrupt (interrupt_opcode : Z) (port : message_port) (msg : ptr kmsg_t) : bool :=
  match msg with
  | None => false
  | Some km =>
      if negb (km_module km =? po_service_id port) then false else km_opcode km =? interrupt_opcode
  end.

(** ** Calls *)

(** What one turn of the wait finds: an error of [recv_msg], no message, or a
    message. *)
Inductive recv_event : Type :=
  | RecvErr (e : error_t)
  | RecvNone
  | RecvMsg (m : ptr kmsg_t).

(** The opcodes the core defines ([KMSG_OP_SYSTEM_PORT_CLOSED] and the first one
    after [KMSG_OP_SYSTEM_END]). *)
Record rpc_opcodes : Type := RpcOpcodes {
  op_closed : Z;
  op_interrupt : Z;
}.

(** The wait for the reply over the events [evs]; [None] while it goes on. *)
Fixpoint rpc_wait (ops : rpc_opcodes) (reply_port : message_port) (module resp_opcode : Z) (rfmt : cstr)
    (evs : list recv_event) : option Z :=
  match evs with
  | [] => None
  | RecvErr E_REND_PORT_CLOSED :: _ => Some (- LINUX_EIO)
  | RecvErr _ :: evs' | RecvNone :: evs' => rpc_wait ops reply_port module resp_opcode rfmt evs'
  | RecvMsg msg :: evs' =>
      if ipc_rpc_recv_is_interrupt (op_interrupt ops) reply_port msg
      then rpc_wait ops reply_port module resp_opcode rfmt evs'
      else if linux_ipc_kmsg_is_port_closed (op_closed ops) reply_port msg then Some (- LINUX_EIO)
      else
        match msg with
        | None => rpc_wait ops reply_port module resp_opcode rfmt evs'
        | Some km =>
            if negb (km_module km =? module) || negb (km_opcode km =? resp_opcode)
            then rpc_wait ops reply_port module resp_opcode rfmt evs'
            else
              match ipc_serial_decode rfmt (km_payload km) with
              | Some [AQ result] => Some result
              | _ => Some (- LINUX_EIO)
              end
        end
  end.

(** [signal]: a deliverable signal is pending; [evs]: what the wait finds.  The
    outcome has the thread after the send and the result of the call. *)
Definition ipc_rpc_call_va_flags ops t (server_port reply_port : ptr message_port) (req_opcode : Z)
    (req_fmt : cstr) (resp_opcode : Z) (resp_fmt : ptr cstr) (interruptible : bool) (args : list ser_arg)
    (signal : bool) (evs : list recv_event) : thread_io E * option Z :=
  let rfmt := default IPC_RPC_RESP_FMT_DEFAULT resp_fmt in
  match server_port, reply_port with
  | Some server_port, Some reply_port =>
      if interruptible && signal then (t, Some (- LINUX_EINTR))
      else
        let module := po_service_id server_port in
        match ipc_kmsg_create_request t module req_opcode req_fmt (po_name reply_port) args with
        | (None, t) => (t, Some (- LINUX_EINVAL))
        | (Some m, t) =>
            match alloc_ok t with
            | (false, t) => (t, Some (- LINUX_ENOMEM))
            | (true, t) =>
                match enqueue_msg_for_send t m with
                | (REND_SUCCESS, t) =>
                    match send_msg t server_port with
                    | (REND_SUCCESS, t) => (t, rpc_wait ops reply_port module resp_opcode rfmt evs)
                    | (_, t) => (t, Some (- LINUX_EIO))
                    end
                | (_, t) => (t, Some (- LINUX_EIO))
                end
            end
        end
  | _, _ => (t, Some (- LINUX_EINVAL))
  end.

Definition ipc_rpc_call_va ops t server_port reply_port req_opcode req_fmt resp_opcode resp_fmt args signal evs :=
  ipc_rpc_call_va_flags ops t server_port reply_port req_opcode req_fmt resp_opcode resp_fmt true args signal evs.

Definition ipc_rpc_call_va_uninterruptible ops t server_port reply_port req_opcode req_fmt resp_opcode resp_fmt
    args signal evs :=
  ipc_rpc_call_va_flags ops t server_port reply_port req_opcode req_fmt resp_opcode resp_fmt false args signal evs.

Definition ipc_rpc_call ops t server_port reply_port req_opcode req_fmt args signal evs :=
  ipc_rpc_call_va ops t server_port reply_port req_opcode req_fmt IPC_RPC_RESP_OPCODE_DEFAULT
    (Some IPC_RPC_RESP_FMT_DEFAULT) args signal evs.

Definition ipc_rpc_call_named_va ops t (server_port_name : ptr cstr) (reply_port : ptr message_port) req_opcode
    req_fmt resp_opcode resp_fmt args signal evs : thread_io E * option Z :=
  match server_port_name, reply_port with
  | Some name, Some _ =>
      match thread_lookup_port t name with
      | (None, t) => (t, Some (- LINUX_ENOSYS))
      | (Some server_port, t) =>
          ipc_rpc_call_va ops t (Some server_port) reply_port req_opcode req_fmt resp_opcode resp_fmt args signal evs
      end
  | _, _ => (t, Some (- LINUX_EINVAL))
  end.

Definition ipc_rpc_call_named ops t server_port_name reply_port req_opcode req_fmt args signal evs :=
  ipc_rpc_call_named_va ops t server_port_name reply_port req_opcode req_fmt IPC_RPC_RESP_OPCODE_DEFAULT
    (Some IPC_RPC_RESP_FMT_DEFAULT) args signal evs.

Definition ipc_rpc_call_named_uninterruptible ops t (server_port_name : ptr cstr) (reply_port : ptr message_port)
    req_opcode req_fmt args signal evs : thread_io E * option Z :=
  match server_port_name, reply_port with
  | Some name, Some _ =>
      match thread_lookup_port t name with
      | (None, t) => (t, Some (- LINUX_ENOSYS))
      | (Some server_port, t) =>
          ipc_rpc_call_va_uninterruptible ops t (Some server_port) reply_port req_opcode req_fmt
            IPC_RPC_RESP_OPCODE_DEFAULT (Some IPC_RPC_RESP_FMT_DEFAULT) args signal evs
      end
  | _, _ => (t, Some (- LINUX_EINVAL))
  end.

(** ** Replies *)

(** [fuel] turns of the loop; [None] while it goes on. *)
Fixpoint send_reply_loop (fuel : nat) t (module resp_opcode : Z) (rfmt reply_port_name : cstr) (result : Z)
  : option (bool * thread_io E) :=
  match fuel with
  | O => None
  | S fuel =>
      match thread_lookup_port t reply_port_name with
      | (None, t) => Some (true, t)
      | (Some reply_port, t) =>
          match kmsg_create t module resp_opcode rfmt [AQ (i64 result)] with
          | (None, t) => send_reply_loop fuel t module resp_opcode rfmt reply_port_name result
          | (Some m, t) =>
              match alloc_ok t with
              | (false, t) => send_reply_loop fuel t module resp_opcode rfmt reply_port_name result
              | (true, t) =>
                  match enqueue_msg_for_send t m with
                  | (REND_SUCCESS, t) =>
                      match send_msg t reply_port with
                      | ((REND_SUCCESS | E_REND_PORT_CLOSED), t) => Some (true, t)
                      | ((E_REND_NO_MSG | E_REND_AGAIN), t) =>
                          send_reply_loop fuel t module resp_opcode rfmt reply_port_name result
                      | (_, t) => Some (false, t)
                      end
                  | (_, t) => send_reply_loop fuel t module resp_opcode rfmt reply_port_name result
                  end
              end
          end
      end
  end.

Definition ipc_rpc_send_reply fuel t (module resp_opcode : Z) (resp_fmt reply_port_name : ptr cstr) (result : Z)
  : option (bool * thread_io E) :=
  let rfmt := default IPC_RPC_RESP_FMT_DEFAULT resp_fmt in
  match reply_port_name with
  | None => Some (false, t)
  | Some name =>
      if is_nul name 0 then Some (false, t) else send_reply_loop fuel t module resp_opcode rfmt name result
  end.

Definition nonempty (name : ptr cstr) : bool :=
  match name with Some n => negb (is_nul n 0) | None => false end.

Definition ipc_rpc_reply fuel t (km : ptr kmsg_t) (reply_port_name : ptr cstr) (module resp_opcode : Z)
    (resp_fmt : ptr cstr) (result : Z) : option (thread_io E) :=
  let reply := if nonempty reply_port_name then reply_port_name
               else match km with Some km => km_reply_port km | None => reply_port_name end in
  if negb (nonempty reply) then Some t
  else
    let reply_copy := (λ r, strncpy_term r (PORT_NAME_LEN_MAX - 1)) <$> reply in
    snd <$> ipc_rpc_send_reply fuel t module resp_opcode resp_fmt reply_copy result.

(** Try [i] of [ipc_transfer_message] to the peer, and whether a failed one leaves
    the message in the queue; [loop] is what follows. *)
Definition nest_transfer (loop : thread_io E → nat → bool → option (bool * thread_io E))
    (transfer : nat → error_t * bool) (i : nat) t : option (bool * thread_io E) :=
  match transfer i with
  | (REND_SUCCESS, _) =>
      Some (true, match t_sendq t with
                  | m :: q => ThreadIo q (t_log t ++ [([], m)]) (t_core t)
                  | [] => t
                  end)
  | (E_REND_AGAIN, _) => loop t (S i) true
  | (_, kept) => loop (if kept then t else ThreadIo (tail (t_sendq t)) (t_log t) (t_core t)) (S i) false
  end.

Fixpoint nest_reply_loop (fuel : nat) (transfer : nat → error_t * bool) (cookie result : Z) t (i : nat)
    (enqueued : bool) : option (bool * thread_io E) :=
  match fuel with
  | O => None
  | S fuel =>
      let loop := nest_reply_loop fuel transfer cookie result in
      if enqueued then nest_transfer loop transfer i t
      else
        match kmsg_create t 0 IPC_RPC_NEST_RESP_OPCODE IPC_RPC_NEST_RESP_FMT [AQ (i64 cookie); AQ (i64 result)] with
        | (None, t) => loop t i false
        | (Some m, t) =>
            match alloc_ok t with
            | (false, t) => loop t i false
            | (true, t) =>
                match enqueue_msg_for_send t m with
                | (REND_SUCCESS, t) => nest_transfer loop transfer i t
                | (_, t) => loop t i false
                end
            end
        end
  end.

(** The messages delivered to a thread, not to a port, have an empty name. *)
Definition ipc_rpc_nest_reply_transfer fuel t (peer : bool) (transfer : nat → error_t * bool) (cookie result : Z)
  : option (bool * thread_io E) :=
  if negb peer then Some (false, t) else nest_reply_loop fuel transfer cookie result t 0 false.

End rpc.

(** ** The one-way server loop

    [on_message] and [poll_pending] are the server's; [msgs] the messages taken
    before the receive queue is empty. *)
Section listen.
Context {ST : Type} (closed_opcode : Z) (port : message_port) (on_message : ptr kmsg_t → Z → ST → ST)
        (poll_pending : option (ST → bool * ST)).

Fixpoint ipc_server_coop_drain (st : ST) (msgs : list (ptr kmsg_t)) : ST :=
  match msgs with
  | [] => st
  | msg :: msgs' =>
      if linux_ipc_kmsg_is_port_closed closed_opcode port msg then st
      else ipc_server_coop_drain (on_message msg (po_service_id port) st) msgs'
  end.

(** One turn of [ipc_server_coop_loop] with the answers of [ipc_try_recv_msg]
    and [recv_msg]; the flag says whether it blocked in the latter. *)
Definition ipc_server_coop_turn (st : ST) (tried received : error_t) (msgs : list (ptr kmsg_t)) : bool * ST :=
  let '(parked_pending, st) :=
    match poll_pending with Some poll => poll st | None => (false, st) end in
  match tried with
  | REND_SUCCESS => (false, ipc_server_coop_drain st msgs)
  | E_REND_PORT_CLOSED => (false, st)
  | _ =>
      if parked_pending then (false, st)
      else
        match received with
        | REND_SUCCESS => (true, ipc_server_coop_drain st msgs)
        | _ => (true, st)
        end
  end.
End listen.
