(* ===== verification/RpcCoop.v ===== *)
(** * The cooperative request server ([linux_layer/ipc/rpc.c])

    A server that answers requests from one thread keeps a job for each request
    in a queue.  A job is answered at once, or it is parked: while its answer
    cannot be sent yet, while a request it made to another server waits to be
    sent, or while it waits for that server's answer.  All messages leave
    through the one send queue of the thread, which is not sorted by
    destination; [send_owner] is the job whose message is in it.

    A job is known by its address; [cs_heap] holds the jobs, [cs_jobs] the order
    of the queue, [cs_seq] the counter of nested calls. *)

From stdpp Require Import base numbers list strings gmap option relations.
From Stdlib Require Import Ascii.
From S2P Require Import Prelude PortNames Rpc.

Inductive ipc_rpc_coop_job_state : Type :=
  | IPC_RPC_COOP_ST_NONE
  | IPC_RPC_COOP_ST_NEED_REPLY
  | IPC_RPC_COOP_ST_NESTED_SEND
  | IPC_RPC_COOP_ST_NESTED_RECV.

Inductive ipc_rpc_coop_disp : Type :=
  | IPC_RPC_COOP_HANDLED
  | IPC_RPC_COOP_PARKED
  | IPC_RPC_COOP_REPLIED.

#[global] Instance job_state_eq_dec : EqDecision ipc_rpc_coop_job_state.
Proof. solve_decision. Defined.

Record ipc_rpc_coop_job : Type := CoopJob {
  j_state : ipc_rpc_coop_job_state;
  j_reply_port : cstr;
  j_result : Z;
  j_nested_server : cstr;
  j_nest_cookie : Z;
  j_nest_token : cstr;
  j_nested_result : Z;
  j_queued : bool;  (* reply_payload_queued *)
}.

Definition j_with_state j st := CoopJob st (j_reply_port j) (j_result j) (j_nested_server j) (j_nest_cookie j) (j_nest_token j) (j_nested_result j) (j_queued j).
Definition j_with_result j r := CoopJob (j_state j) (j_reply_port j) r (j_nested_server j) (j_nest_cookie j) (j_nest_token j) (j_nested_result j) (j_queued j).
Definition j_with_server j n := CoopJob (j_state j) (j_reply_port j) (j_result j) n (j_nest_cookie j) (j_nest_token j) (j_nested_result j) (j_queued j).
Definition j_with_token j c tk := CoopJob (j_state j) (j_reply_port j) (j_result j) (j_nested_server j) c tk (j_nested_result j) (j_queued j).
Definition j_with_nested_result j r := CoopJob (j_state j) (j_reply_port j) (j_result j) (j_nested_server j) (j_nest_cookie j) (j_nest_token j) r (j_queued j).
Definition j_with_queued j b := CoopJob (j_state j) (j_reply_port j) (j_result j) (j_nested_server j) (j_nest_cookie j) (j_nest_token j) (j_nested_result j) b.

Record coop_queue (E : Type) : Type := CoopQueue {
  cs_jobs : list Z;
  cs_heap : gmap Z ipc_rpc_coop_job;
  cs_owner : option Z;
  cs_inited : bool;
  cs_seq : Z;
  cs_io : thread_io E;
}.
Arguments CoopQueue {E} _ _ _ _ _ _.
Arguments cs_jobs {E} _.
Arguments cs_heap {E} _.
Arguments cs_owner {E} _.
Arguments cs_inited {E} _.
Arguments cs_seq {E} _.
Arguments cs_io {E} _.

Section coop.
Context `{SE : IpcSerial} {E : Type} `{C : Core E}.
Implicit Types (s : coop_queue E) (id : Z) (j : ipc_rpc_coop_job).

Definition set_queue s l h : coop_queue E := CoopQueue l h (cs_owner s) (cs_inited s) (cs_seq s) (cs_io s).
Definition set_heap s h : coop_queue E := set_queue s (cs_jobs s) h.
Definition set_owner s o : coop_queue E := CoopQueue (cs_jobs s) (cs_heap s) o (cs_inited s) (cs_seq s) (cs_io s).
Definition set_seq s n : coop_queue E := CoopQueue (cs_jobs s) (cs_heap s) (cs_owner s) (cs_inited s) n (cs_io s).
Definition set_io s io : coop_queue E := CoopQueue (cs_jobs s) (cs_heap s) (cs_owner s) (cs_inited s) (cs_seq s) io.

(** Change the job at [id]. *)
Definition on_job s id (f : ipc_rpc_coop_job → ipc_rpc_coop_job) : coop_queue E :=
  set_heap s (alter f id (cs_heap s)).

Definition ipc_rpc_coop_queue_init s : coop_queue E :=
  CoopQueue [] ∅ None true (cs_seq s) (cs_io s).

(** ** The send slot *)

Definition ipc_rpc_coop_clear_send_owner s id : coop_queue E :=
  if decide (cs_owner s = Some id) then
    let s :=
      match cs_heap s !! id with
      | Some j =>
          if j_queued j
          then on_job (set_io s (ipc_rpc_abandon_current_send_payload (cs_io s))) id (λ j, j_with_queued j false)
          else s
      | None => s
      end in
    set_owner s None
  else s.

Definition nested_clear j : ipc_rpc_coop_job := j_with_server (j_with_token j 0 []) [].
Definition ipc_rpc_coop_nested_clear s id : coop_queue E := on_job s id nested_clear.

(** The slot is given up after a send. *)
Definition slot_sent s id : coop_queue E := set_owner (on_job s id (λ j, j_with_queued j false)) None.

(** ** Jobs *)

Definition new_job (reply_port : cstr) : ipc_rpc_coop_job :=
  CoopJob IPC_RPC_COOP_ST_NONE (strncpy_term reply_port (PORT_NAME_LEN_MAX - 1)) 0 [] 0 [] 0 false.

Definition ipc_rpc_coop_job_create s (reply_port : ptr cstr) : option Z * coop_queue E :=
  match reply_port with
  | None => (None, s)
  | Some name =>
      if negb (cs_inited s) || is_nul name 0 then (None, s)
      else
        let '(addr, e) := core_job (cs_jobs s) (t_core (cs_io s)) in
        let s := set_io s (set_core (cs_io s) e) in
        match addr with
        | None => (None, s)
        | Some id => (Some id, set_queue s (cs_jobs s ++ [id]) (<[id := new_job name]> (cs_heap s)))
        end
  end.

Definition ipc_rpc_coop_job_set_result s id (result : Z) : coop_queue E :=
  let s := ipc_rpc_coop_nested_clear (ipc_rpc_coop_clear_send_owner s id) id in
  on_job s id (λ j, j_with_state (j_with_result j result) IPC_RPC_COOP_ST_NEED_REPLY).

Definition ipc_rpc_coop_job_release s id : coop_queue E :=
  let s := ipc_rpc_coop_nested_clear (ipc_rpc_coop_clear_send_owner s id) id in
  set_queue s (filter (λ i, i ≠ id) (cs_jobs s)) (delete id (cs_heap s)).

Definition ipc_rpc_coop_enqueue_kmsg s (md : option kmsg_t) : error_t * coop_queue E :=
  match md with
  | None => (E_RENDEZVOS, s)
  | Some m =>
      match alloc_ok (cs_io s) with
      | (false, io) => (E_RENDEZVOS, set_io s io)
      | (true, io) => let '(e, io) := enqueue_msg_for_send io m in (e, set_io s io)
      end
  end.

(** ** Nested calls *)

Definition next_cookie (seq : Z) : Z :=
  let c := u64 (seq + 1) in if c =? 0 then u64 (c + 1) else c.

(** Try to send the request of the job that owns the slot; [fail] is what is
    done after an error. *)
Definition nested_send s id (server : message_port) (fail : coop_queue E → coop_queue E)
  : error_t * coop_queue E :=
  let '(e, io) := ipc_try_send_msg (cs_io s) server in
  let s := set_io s io in
  match e with
  | REND_SUCCESS => (e, on_job (slot_sent s id) id (λ j, j_with_state j IPC_RPC_COOP_ST_NESTED_RECV))
  | E_REND_AGAIN => (e, s)
  | _ => (e, fail s)
  end.

Definition coop_lookup s (name : cstr) : option message_port * coop_queue E :=
  let '(p, io) := thread_lookup_port (cs_io s) name in (p, set_io s io).

Definition ipc_rpc_coop_nested_call s id (server_port_name : ptr cstr) (req_opcode : Z) (req_fmt : cstr)
    (args : list ser_arg) : error_t * coop_queue E :=
  match cs_heap s !! id, server_port_name with
  | Some j, Some name =>
      if bool_decide (cs_owner s ≠ None) && bool_decide (cs_owner s ≠ Some id) then (E_REND_AGAIN, s)
      else if bool_decide (j_state j = IPC_RPC_COOP_ST_NESTED_SEND) && j_queued j
              && bool_decide (cs_owner s = Some id) then
        match coop_lookup s (j_nested_server j) with
        | (None, s) => (E_RENDEZVOS, s)
        | (Some server, s) => nested_send s id server (λ s, ipc_rpc_coop_clear_send_owner s id)
        end
      else if bool_decide (j_state j ≠ IPC_RPC_COOP_ST_NONE) then (E_REND_AGAIN, s)
      else
        let cookie := next_cookie (cs_seq s) in
        let s := set_seq s cookie in
        match ipc_rpc_format_nest_token PORT_NAME_LEN_MAX cookie with
        | None => (E_RENDEZVOS, ipc_rpc_coop_nested_clear s id)
        | Some token =>
            let s := on_job s id (λ j, j_with_token j cookie token) in
            match coop_lookup s name with
            | (None, s) => (E_RENDEZVOS, ipc_rpc_coop_nested_clear s id)
            | (Some server, s) =>
                match ipc_kmsg_create_request (cs_io s) (po_service_id server) req_opcode req_fmt token args with
                | (None, io) => (E_RENDEZVOS, ipc_rpc_coop_nested_clear (set_io s io) id)
                | (Some m, io) =>
                    match ipc_rpc_coop_enqueue_kmsg (set_io s io) (Some m) with
                    | (REND_SUCCESS, s) =>
                        let s := on_job s id (λ j,
                          j_with_state
                            (j_with_queued (j_with_server j (strncpy_term name (PORT_NAME_LEN_MAX - 1))) true)
                            IPC_RPC_COOP_ST_NESTED_SEND) in
                        nested_send (set_owner s (Some id)) id server (λ s,
                          on_job (ipc_rpc_coop_nested_clear (ipc_rpc_coop_clear_send_owner s id) id) id
                            (λ j, j_with_state j IPC_RPC_COOP_ST_NONE))
                    | (e, s) => (e, ipc_rpc_coop_nested_clear s id)
                    end
                end
            end
        end
  | _, _ => (E_IN_PARAM, s)
  end.

(** ** Answers to clients *)

(** The server's id and the opcode and format of its answers. *)
Context (module resp_opcode : Z) (resp_fmt : ptr cstr).
Abbreviation rfmt := (default IPC_RPC_RESP_FMT_DEFAULT resp_fmt).

(** The first half: the message of the answer is put into the slot.  [None]:
    the function returns here with that error. *)
Definition queue_reply s id j : option error_t * coop_queue E :=
  if j_queued j then (None, s)
  else
    match coop_lookup s (j_reply_port j) with
    | (None, s) => (Some REND_SUCCESS, s)
    | (Some _, s) =>
        let '(md, io) := kmsg_create (cs_io s) module resp_opcode rfmt [AQ (i64 (j_result j))] in
        match ipc_rpc_coop_enqueue_kmsg (set_io s io) md with
        | (REND_SUCCESS, s) => (None, set_owner (on_job s id (λ j, j_with_queued j true)) (Some id))
        | (e, s) => (Some e, s)
        end
    end.

Definition ipc_rpc_coop_try_client_reply s id : error_t * coop_queue E :=
  match cs_heap s !! id with
  | None => (E_IN_PARAM, s)
  | Some j =>
      if bool_decide (j_state j ≠ IPC_RPC_COOP_ST_NEED_REPLY) then (E_IN_PARAM, s)
      else if bool_decide (cs_owner s ≠ None) && bool_decide (cs_owner s ≠ Some id) then (E_REND_AGAIN, s)
      else
        match queue_reply s id j with
        | (Some e, s) => (e, s)
        | (None, s) =>
            match coop_lookup s (j_reply_port j) with
            | (None, s) => (REND_SUCCESS, ipc_rpc_coop_clear_send_owner s id)
            | (Some reply_port, s) =>
                let '(e, io) := ipc_try_send_msg (cs_io s) reply_port in
                let s := set_io s io in
                match e with
                | REND_SUCCESS | E_REND_PORT_CLOSED => (REND_SUCCESS, slot_sent s id)
                | E_REND_AGAIN => (E_REND_AGAIN, s)
                | _ => (e, ipc_rpc_coop_clear_send_owner s id)
                end
            end
        end
  end.

(** ** One pass over the queue *)

Definition nested_eio s id : coop_queue E :=
  ipc_rpc_coop_job_set_result
    (on_job (ipc_rpc_coop_nested_clear (ipc_rpc_coop_clear_send_owner s id) id) id
       (λ j, j_with_state j IPC_RPC_COOP_ST_NONE)) id (- LINUX_EIO).

Definition poll_one s id : coop_queue E :=
  match cs_heap s !! id with
  | None => s
  | Some j =>
      match j_state j with
      | IPC_RPC_COOP_ST_NESTED_SEND =>
          if bool_decide (cs_owner s ≠ Some id) then s
          else
            match coop_lookup s (j_nested_server j) with
            | (None, s) => nested_eio s id
            | (Some server, s) => snd (nested_send s id server (λ s, nested_eio s id))
            end
      | IPC_RPC_COOP_ST_NEED_REPLY =>
          match ipc_rpc_coop_try_client_reply s id with
          | (REND_SUCCESS, s) => ipc_rpc_coop_job_release s id
          | (_, s) => s
          end
      | _ => s
      end
  end.

(** A pass only removes the job it is at, so it visits the jobs that were there
    when it began. *)
Definition ipc_rpc_coop_queue_poll s : coop_queue E :=
  if negb (cs_inited s) then s else fold_left poll_one (cs_jobs s) s.

(** ** Messages that arrive *)

Definition waits_for (cookie : Z) j : bool :=
  bool_decide (j_state j = IPC_RPC_COOP_ST_NESTED_RECV) && (j_nest_cookie j =? cookie).

Definition find_waiting s (cookie : Z) : option Z :=
  list_find (λ id, match cs_heap s !! id with Some j => waits_for cookie j | None => false end = true) (cs_jobs s)
    ≫= λ p, Some p.2.

(** The job takes the answer and is ready for its next step. *)
Definition take_nested s id (r : Z) : coop_queue E :=
  on_job (ipc_rpc_coop_nested_clear (on_job s id (λ j, j_with_nested_result j r)) id) id
    (λ j, j_with_state j IPC_RPC_COOP_ST_NONE).

(** What the server does with an answer to a nested call ([resume_fn]) and with
    a new request. *)
Definition resume_fn_t : Type := Z → Z → coop_queue E → coop_queue E.
Definition handler_t : Type := Z → Z → kmsg_t → coop_queue E → ipc_rpc_coop_disp * Z * coop_queue E.

Definition ipc_rpc_coop_try_apply_nest_resp (resume_fn : option resume_fn_t) s (msg : ptr kmsg_t)
  : bool * coop_queue E :=
  match msg with
  | None => (false, s)
  | Some km =>
      if negb (km_opcode km =? IPC_RPC_NEST_RESP_OPCODE) then (false, s)
      else
        match ipc_serial_decode IPC_RPC_NEST_RESP_FMT (km_payload km) with
        | Some [AQ cookie_i; AQ nested_result] =>
            match find_waiting s (u64 cookie_i) with
            | None => (true, s)
            | Some id =>
                let s := take_nested s id nested_result in
                (true, match resume_fn with
                       | Some f => f id nested_result s
                       | None => ipc_rpc_coop_job_set_result s id nested_result
                       end)
            end
        | _ => (true, s)
        end
  end.

(** The flag says whether the listen port was looked up again; [fuel] bounds the
    loop of the blocking answer to a request that is refused. *)
Definition ipc_rpc_coop_accept_one (fuel : nat) (closed_opcode : Z) (port : message_port) (handler : handler_t)
    s (msg : ptr kmsg_t) : option (bool * coop_queue E) :=
  if linux_ipc_kmsg_is_port_closed closed_opcode port msg then Some (true, s)
  else
    let refuse s km reply_name err :=
      (λ io, (false, set_io s io))
        <$> ipc_rpc_reply fuel (cs_io s) km reply_name module resp_opcode resp_fmt err in
    match msg with
    | None => refuse s None None (- LINUX_EIO)
    | Some km =>
        if negb (km_module km =? module) then refuse s (Some km) None (- LINUX_EIO)
        else
          let reply_name := km_reply_port km in
          match ipc_rpc_coop_job_create s reply_name with
          | (None, s) => refuse s (Some km) reply_name (- LINUX_ENOMEM)
          | (Some id, s) =>
              let '(disp, result, s) := handler id (km_opcode km) km s in
              Some (false,
                match disp with
                | IPC_RPC_COOP_REPLIED => ipc_rpc_coop_job_release s id
                | IPC_RPC_COOP_HANDLED =>
                    let answered :=
                      match cs_heap s !! id with
                      | Some j => bool_decide (j_state j = IPC_RPC_COOP_ST_NEED_REPLY)
                      | None => false
                      end in
                    ipc_rpc_coop_queue_poll (if answered then s else ipc_rpc_coop_job_set_result s id result)
                | IPC_RPC_COOP_PARKED => s
                end)
          end
    end.

(** [msgs]: the messages taken from the receive queue before it is empty. *)
Fixpoint ipc_rpc_coop_drain_recv (fuel : nat) (closed_opcode : Z) (port : message_port)
    (resume_fn : option resume_fn_t) (handler : handler_t) s (msgs : list (ptr kmsg_t)) : option (coop_queue E) :=
  match msgs with
  | [] => Some s
  | msg :: msgs' =>
      match ipc_rpc_coop_try_apply_nest_resp resume_fn s msg with
      | (true, s) => ipc_rpc_coop_drain_recv fuel closed_opcode port resume_fn handler s msgs'
      | (false, s) =>
          match ipc_rpc_coop_accept_one fuel closed_opcode port handler s msg with
          | None => None
          | Some (true, s) => Some s
          | Some (false, s) => ipc_rpc_coop_drain_recv fuel closed_opcode port resume_fn handler s msgs'
          end
      end
  end.

(** What one turn of the server's loop meets: the messages of the two drains and
    the answers of [ipc_try_recv_msg] and [recv_msg]. *)
Record loop_turn : Type := LoopTurn {
  lt_first : list (ptr kmsg_t);
  lt_try : error_t;
  lt_extra : bool;
  lt_recv : error_t;
  lt_second : list (ptr kmsg_t);
}.

(** One turn of [ipc_rpc_coop_server_loop]; the port is looked up again, by its
    name, when it was closed. *)
Definition coop_server_turn (fuel : nat) (closed_opcode : Z) (port : message_port)
    (resume_fn : option resume_fn_t) (handler : handler_t) s (lt : loop_turn) : option (coop_queue E) :=
  let s := ipc_rpc_coop_queue_poll s in
  s ← ipc_rpc_coop_drain_recv fuel closed_opcode port resume_fn handler s (lt_first lt);
  let s := ipc_rpc_coop_queue_poll s in
  let parked := lt_extra lt || negb (bool_decide (cs_jobs s = [])) in
  let drain := ipc_rpc_coop_drain_recv fuel closed_opcode port resume_fn handler s (lt_second lt) in
  match lt_try lt with
  | E_REND_PORT_CLOSED => Some s
  | REND_SUCCESS => drain
  | _ =>
      if parked then Some s
      else
        match lt_recv lt with
        | REND_SUCCESS => drain
        | _ => Some s
        end
  end.

Fixpoint ipc_rpc_coop_server_loop (fuel : nat) (closed_opcode : Z) (port : message_port)
    (resume_fn : option resume_fn_t) (handler : handler_t) s (turns : list loop_turn) : option (coop_queue E) :=
  match turns with
  | [] => Some s
  | lt :: turns' =>
      s ← coop_server_turn fuel closed_opcode port resume_fn handler
            (if cs_inited s then s else ipc_rpc_coop_queue_init s) lt;
      ipc_rpc_coop_server_loop fuel closed_opcode port resume_fn handler s turns'
  end.

End coop.
