(* ===== verification/RpcThm.v ===== *)
(** * The wire format and the calls *)

From stdpp Require Import base numbers list strings option.
From Stdlib Require Import Ascii.
From S2P Require Import Prelude PortNames Rpc.

(** ** Numbers on the wire *)

Lemma le_value_bytes n x : 0 ≤ x < 256 ^ Z.of_nat n → le_value (le_bytes n x) = x.
Proof.
  revert x. induction n as [|n IH]; intros x Hx; cbn [le_bytes le_value].
  - change (256 ^ Z.of_nat 0) with 1 in Hx. lia.
  - rewrite Nat2Z.inj_succ, Z.pow_succ_r in Hx by lia. rewrite IH.
    + pose proof (Z.div_mod x 256 ltac:(lia)). lia.
    + split; [apply Z.div_pos; lia|apply Z.div_lt_upper_bound; lia].
Qed.

Lemma le32_at_bytes pre x rest (off : Z) : off = Z.of_nat (length pre) → 0 ≤ x < 2 ^ 32 →
  le32_at (pre ++ le_bytes 4 x ++ rest) off = x.
Proof.
  intros -> Hx. unfold le32_at. rewrite Nat2Z.id, drop_app_length.
  rewrite take_app_le by (rewrite le_bytes_length; lia).
  rewrite take_ge by (rewrite le_bytes_length; lia). by apply le_value_bytes.
Qed.

Lemma byte_at_mid pre b rest (off : Z) : off = Z.of_nat (length pre) → byte_at (pre ++ b :: rest) off = b.
Proof. intros ->. unfold byte_at. by rewrite Nat2Z.id, list_lookup_middle. Qed.

Lemma nul_prefix_str s rest : zero ∉ s → nul_prefix (str_bytes s ++ 0 :: rest) = s.
Proof.
  intros Hz. induction s as [|c s IH]; cbn; [done|]. apply not_elem_of_cons in Hz as [Hc Hs].
  destruct (Z.eqb_spec (byte_of c) 0) as [E|_].
  - by apply byte_of_nul in E.
  - fold (str_bytes s). by rewrite IH, char_of_byte.
Qed.

(** ** Parameters *)

Lemma tlv_param_length tag v : length (tlv_param tag v) = (5 + length v)%nat.
Proof. unfold tlv_param. cbn [length]. rewrite length_app, le_bytes_length. lia. Qed.

Lemma tlv_params_snoc tags vals tag v : length tags = length vals →
  tlv_params (tags ++ [tag]) (vals ++ [v]) = tlv_params tags vals ++ tlv_param tag v.
Proof.
  revert vals. induction tags as [|t tags IH]; intros [|w vals] Hl; try done; cbn [tlv_params app].
  - by rewrite app_nil_r.
  - rewrite IH by (cbn in Hl; lia). by rewrite app_assoc.
Qed.

(** The scan over well-formed parameters. *)
Definition last_t (tags : cstr) (vals : list (list Z)) : Z → option Z → option Z :=
  (fix go tags vals off last :=
     match tags, vals with
     | t :: tags', v :: vals' =>
         go tags' vals' (off + 5 + Z.of_nat (length v))
           (if (byte_of t =? byte_of tag_t) && (0 <? Z.of_nat (length v)) then Some (off + 5) else last)
     | _, _ => last
     end) tags vals.

Lemma scan_params tags vals : length tags = length vals → ∀ pre last rest,
  Z.of_nat (length (pre ++ tlv_params tags vals ++ rest)) < 2 ^ 32 →
  reply_port_scan (pre ++ tlv_params tags vals ++ rest)
    (Z.of_nat (length (pre ++ tlv_params tags vals ++ rest))) (length tags) (Z.of_nat (length pre)) last =
  last_t tags vals (Z.of_nat (length pre)) last.
Proof.
  revert vals. induction tags as [|t tags IH]; intros [|v vals] Hl pre last rest Hlen; try done.
  cbn [tlv_params] in *. injection Hl as Hl. set (P := pre ++ _) in *.
  assert (P = (pre ++ tlv_param t v) ++ tlv_params tags vals ++ rest) as HP
    by (unfold P; by rewrite <- !app_assoc).
  assert (length P = length pre + 5 + length v + length (tlv_params tags vals ++ rest))%nat as HPl.
  { rewrite HP, !length_app, tlv_param_length. lia. }
  assert (byte_at P (Z.of_nat (length pre)) = byte_of t) as HB.
  { unfold P, tlv_param. cbn [app]. by apply byte_at_mid. }
  assert (le32_at P (Z.of_nat (length pre) + 1) = Z.of_nat (length v)) as HL.
  { unfold P, tlv_param. cbn [app]. rewrite <- !app_assoc, cons_middle, app_assoc.
    apply le32_at_bytes; [rewrite length_app; cbn; lia|lia]. }
  assert (Z.of_nat (length (pre ++ tlv_param t v)) = Z.of_nat (length pre) + 5 + Z.of_nat (length v)) as Hoff.
  { rewrite length_app, tlv_param_length. lia. }
  cbn [length reply_port_scan last_t]. rewrite (uw_small 32 (Z.of_nat (length pre) + 1 + 4)) by lia.
  rewrite (uw_small 32 (Z.of_nat (length pre) + 1)) by lia. rewrite HB, HL.
  rewrite (uw_small 32 (Z.of_nat (length pre) + 1 + 4)) by lia.
  rewrite (uw_small 32 (Z.of_nat (length pre) + 1 + 4 + _)) by lia.
  rewrite !(proj2 (Z.ltb_ge _ _)) by lia.
  replace (Z.of_nat (length pre) + 1 + 4) with (Z.of_nat (length pre) + 5) by lia.
  rewrite <- Hoff, HP. apply IH; [done|]. by rewrite <- HP.
Qed.

Lemma last_t_snoc tags vals v : length tags = length vals → ∀ off last, v ≠ [] →
  last_t (tags ++ [tag_t]) (vals ++ [v]) off last =
    Some (off + Z.of_nat (length (tlv_params tags vals)) + 5).
Proof.
  revert vals. induction tags as [|t tags IH]; intros [|w vals] Hl off last Hv; try done.
  - cbn [app last_t]. rewrite Z.eqb_refl. cbn [tlv_params length].
    destruct v as [|x v]; [done|]. cbn [length andb]. rewrite (proj2 (Z.ltb_lt _ _)) by lia. f_equal. lia.
  - injection Hl as Hl. cbn [app last_t tlv_params]. fold (last_t (tags ++ [tag_t]) (vals ++ [v])).
    rewrite IH by done. rewrite length_app, tlv_param_length. f_equal. lia.
Qed.

Lemma tlv_length tags vals : length (tlv tags vals) = (4 + length (tlv_params tags vals))%nat.
Proof. unfold tlv. by rewrite length_app, le_bytes_length. Qed.

Lemma tlv_count tags vals : length tags = length vals → (5 * length tags ≤ length (tlv_params tags vals))%nat.
Proof.
  revert vals. induction tags as [|t tags IH]; intros [|v vals] Hl; try done; cbn [length tlv_params].
  rewrite length_app, tlv_param_length. injection Hl as Hl. pose proof (IH _ Hl). lia.
Qed.

Lemma le32_at_0 x rest : 0 ≤ x < 2 ^ 32 → le32_at (le_bytes 4 x ++ rest) 0 = x.
Proof. intros Hx. by apply (le32_at_bytes [] x rest). Qed.

(** Appending the reply port to well-formed parameters adds one parameter. *)
Lemma append_tlv tags vals cap reply : length tags = length vals →
  Z.of_nat (length (tlv tags vals) + 6 + length reply) < 2 ^ 32 →
  Z.of_nat (length (tlv tags vals) + 6 + length reply) ≤ cap →
  ipc_payload_append_reply_port (tlv tags vals) cap reply =
    (REND_SUCCESS, tlv (tags ++ [tag_t]) (vals ++ [str_bytes reply ++ [0]])).
Proof.
  intros Hl Hlt Hcap. pose proof (tlv_count tags vals Hl). rewrite tlv_length in *.
  unfold ipc_payload_append_reply_port. rewrite tlv_length.
  rewrite (uw_small 32 (Z.of_nat (length reply))) by lia.
  rewrite (uw_small 32 (Z.of_nat (length reply) + 1)) by lia. cbv zeta.
  rewrite (uw_small 32 (_ + 1 + 4 + _)) by lia. rewrite (proj2 (Z.ltb_ge _ _)) by lia.
  f_equal. unfold tlv. rewrite le32_at_0 by lia. rewrite tlv_params_snoc by done.
  rewrite drop_app_length' by (by rewrite le_bytes_length).
  rewrite (uw_small 32 (_ + 1)) by lia. rewrite length_app. cbn [length]. f_equal.
  { f_equal. lia. }
  f_equal. unfold tlv_param. cbn [app]. do 2 f_equal. rewrite length_app.
  unfold str_bytes. rewrite length_fmap. cbn [length]. f_equal. lia.
Qed.

(** The scan finds the reply port that was appended, whatever is before it. *)
Lemma reply_port_tlv mo op tags vals reply : length tags = length vals → zero ∉ reply →
  Z.of_nat (length (tlv tags vals) + 6 + length reply) < 2 ^ 32 →
  km_reply_port (Kmsg mo op (tlv (tags ++ [tag_t]) (vals ++ [str_bytes reply ++ [0]]))) = Some reply.
Proof.
  intros Hl Hz Hlt. set (v := str_bytes reply ++ [0]). set (P := tlv (tags ++ [tag_t]) (vals ++ [v])).
  pose proof (tlv_count tags vals Hl). rewrite tlv_length in Hlt.
  assert (length v = S (length reply)) as Hv by (unfold v, str_bytes; rewrite length_app, length_fmap; cbn; lia).
  assert (length P = 4 + length (tlv_params tags vals) + 5 + length v)%nat as HPl.
  { unfold P. rewrite tlv_length, tlv_params_snoc, length_app, tlv_param_length by done. lia. }
  assert (Z.of_nat (length (tags ++ [tag_t])) < 2 ^ 32) as Hcount by (rewrite length_app; cbn [length]; lia).
  unfold km_reply_port, ipc_serial_payload_reply_port. cbn [km_payload].
  assert (le32_at P 0 = Z.of_nat (length (tags ++ [tag_t]))) as HL by (unfold P, tlv; apply le32_at_0; lia).
  rewrite (proj2 (Z.ltb_ge _ _)), HL, Nat2Z.id by lia. change 4 with (Z.of_nat 4) at 1.
  pose proof (scan_params (tags ++ [tag_t]) (vals ++ [v]) ltac:(rewrite !length_app; cbn; lia)
    (le_bytes 4 (Z.of_nat (length (tags ++ [tag_t])))) None []) as Hs.
  rewrite app_nil_r, le_bytes_length in Hs. fold (tlv (tags ++ [tag_t]) (vals ++ [v])) in Hs. fold P in Hs.
  rewrite Hs by lia. rewrite last_t_snoc; [|done|by unfold v; destruct (str_bytes reply)].
  cbn [fmap option_fmap option_map]. f_equal. unfold str_at.
  replace (Z.to_nat _) with (length (le_bytes 4 (Z.of_nat (length (tags ++ [tag_t]))) ++ tlv_params tags vals
    ++ byte_of tag_t :: le_bytes 4 (Z.of_nat (length v))))
    by (rewrite !length_app; cbn [length]; rewrite !le_bytes_length; lia).
  assert (P = (le_bytes 4 (Z.of_nat (length (tags ++ [tag_t]))) ++ tlv_params tags vals
    ++ byte_of tag_t :: le_bytes 4 (Z.of_nat (length v))) ++ v) as ->.
  { unfold P, tlv. rewrite tlv_params_snoc by done. unfold tlv_param. by rewrite <- !app_assoc. }
  rewrite drop_app_length. by apply nul_prefix_str.
Qed.

(** ** Requests *)

Section requests.
Context `{SE : IpcSerial} `{!IpcSerialLaws} {E : Type} `{C : Core E}.
Implicit Types (t : thread_io E) (m : kmsg_t).

(** Same queue and same deliveries: only the answers of the core went on. *)
Definition io_eq t t' : Prop := t_sendq t' = t_sendq t ∧ t_log t' = t_log t.

#[global] Instance io_eq_preorder : PreOrder io_eq.
Proof. split; [done|]. intros ??? [? ?] [? ?]. split; congruence. Qed.

Lemma alloc_io_eq t b t' : alloc_ok t = (b, t') → io_eq t t'.
Proof. unfold alloc_ok. destruct core_alloc. by intros [= <- <-]. Qed.

Lemma lookup_io_eq t n p t' : thread_lookup_port t n = (p, t') → io_eq t t'.
Proof. unfold thread_lookup_port. destruct core_lookup. by intros [= <- <-]. Qed.

Lemma kmsg_create_spec t mo op fmt args r t' : kmsg_create t mo op fmt args = (r, t') →
  io_eq t t' ∧ ∀ m, r = Some m → ∃ b, ipc_serial_encode fmt args = Some b ∧ m = Kmsg mo op b.
Proof.
  unfold kmsg_create. destruct ipc_serial_encode as [b|]; [|by intros [= <- <-]].
  destruct (alloc_ok t) as [[] t1] eqn:Ea; intros [= <- <-]; (split; [by eapply alloc_io_eq|]).
  - intros m [= <-]. by exists b.
  - done.
Qed.

Lemma decode_args fmt vals args : Forall3 (λ c v a, ser_param c v = Some a) fmt vals args →
  mapM (λ p : ascii * list Z, ser_param p.1 p.2) (zip fmt vals) = Some args.
Proof. induction 1 as [|c v a fmt vals args Hp _ IH]; cbn in *; [done|]. by rewrite Hp, IH. Qed.

Lemma encode_decode fmt args b : ipc_serial_encode fmt args = Some b → ipc_serial_decode fmt b = Some args.
Proof.
  intros (vals & Hf & -> & Hlen)%encode_wire. rewrite decode_wire by (by eapply Forall3_length_lm || done).
  rewrite decide_True by done. by apply decode_args.
Qed.

(** The payload of a request, its reply port, and what the server decodes. *)
Definition request_msg (mo op : Z) (fmt reply : cstr) (args : list ser_arg) m : Prop :=
  km_module m = mo ∧ km_opcode m = op ∧ km_reply_port m = Some reply
  ∧ ∀ fmt', ipc_serial_decode fmt' (km_payload m) =
      if decide (fmt' = fmt ++ [tag_t]) then Some (args ++ [AStr (Some reply)]) else None.

Lemma create_request_spec t mo op fmt reply args r t' : zero ∉ reply → (length reply < PORT_NAME_LEN_MAX)%nat →
  ipc_kmsg_create_request t mo op fmt reply args = (r, t') →
  io_eq t t' ∧ ∀ m, r = Some m → request_msg mo op fmt reply args m.
Proof.
  intros Hz Hr. unfold PORT_NAME_LEN_MAX in Hr. unfold ipc_kmsg_create_request.
  pose proof max_payload_range as Hmax. destruct ipc_serial_encode as [b|] eqn:Ee; [|by intros [= <- <-]].
  apply encode_wire in Ee as (vals & Hf & -> & _).
  pose proof (Forall3_length_lm _ _ _ _ Hf) as Hl.
  rewrite (uw_small 32 (Z.of_nat (length reply))), (uw_small 32 (1 + 4 + _ + 1)) by lia. cbv zeta.
  rewrite (uw_small 32 (KMSG_MAX_PAYLOAD - _)) by lia.
  destruct (Z.ltb_spec (KMSG_MAX_PAYLOAD - (1 + 4 + Z.of_nat (length reply) + 1)) (Z.of_nat (length (tlv fmt vals))))
    as [|Hfit]; [by intros [= <- <-]|].
  rewrite (uw_small 32 (_ + (1 + 4 + _ + 1))) by lia. rewrite (proj2 (Z.ltb_ge _ _)) by lia.
  destruct (alloc_ok t) as [[] t1] eqn:Ea1; cbn [negb]; [|intros [= <- <-]; split; [by eapply alloc_io_eq|done]].
  rewrite append_tlv by lia || done.
  destruct (alloc_ok t1) as [ok t2] eqn:Ea2. intros [= <- <-]. split.
  { etrans; [by eapply alloc_io_eq|by eapply alloc_io_eq]. }
  intros m. destruct ok; [|done]. intros [= <-]. split_and!; [done..|apply reply_port_tlv; [done|done|lia]|].
  intros fmt'. cbn [km_payload]. rewrite decode_wire.
  - destruct (decide (fmt' = fmt ++ [tag_t])) as [->|]; [|done].
    apply decode_args, Forall3_app; [done|]. constructor; [|constructor]. apply param_t; [lia|done].
  - rewrite tlv_length, tlv_params_snoc, length_app, tlv_param_length, length_app by done.
    rewrite tlv_length in Hfit. unfold str_bytes. rewrite length_fmap. cbn [length]. lia.
  - rewrite !length_app. cbn. lia.
Qed.

(** ** Calls *)

(** Events after which the wait goes on. *)
Definition passes ops (rp : message_port) (module resp_opcode : Z) (ev : recv_event) : Prop :=
  match ev with
  | RecvErr e => e ≠ E_REND_PORT_CLOSED
  | RecvNone => True
  | RecvMsg msg =>
      ipc_rpc_recv_is_interrupt (op_interrupt ops) rp msg = true
      ∨ linux_ipc_kmsg_is_port_closed (op_closed ops) rp msg = false
        ∧ match msg with
          | Some km => km_module km ≠ module ∨ km_opcode km ≠ resp_opcode
          | None => True
          end
  end.

Lemma rpc_wait_pass ops rp module op rfmt ev evs : passes ops rp module op ev →
  rpc_wait ops rp module op rfmt (ev :: evs) = rpc_wait ops rp module op rfmt evs.
Proof.
  destruct ev as [e| |msg]; cbn [passes rpc_wait].
  - by destruct e.
  - done.
  - intros [Hi|[Hc Hm]]; [by rewrite Hi|]. destruct (ipc_rpc_recv_is_interrupt _ _ _); [done|]. rewrite Hc.
    destruct msg as [km|]; [|done].
    destruct (Z.eqb_spec (km_module km) module), (Z.eqb_spec (km_opcode km) op); cbn; try done. naive_solver.
Qed.

Lemma rpc_wait_passes ops rp module op rfmt evs1 evs2 : Forall (passes ops rp module op) evs1 →
  rpc_wait ops rp module op rfmt (evs1 ++ evs2) = rpc_wait ops rp module op rfmt evs2.
Proof. induction 1 as [|ev evs1 Hp _ IH]; [done|]. cbn [app]. by rewrite rpc_wait_pass. Qed.

End requests.
