(* ===== verification/RpcCoopInv.v ===== *)
(** * The send slot of the cooperative server

    What the operations do to the queue is described on views of the state, one
    job at a time ([job_step]); the invariant says whose message is in the send
    queue. *)

From stdpp Require Import base numbers list strings gmap option relations.
From Stdlib Require Import Ascii.
From S2P Require Import Prelude PortNames Rpc RpcCoop RpcThm.

(** Everything of the state but the answers still to come from the core. *)
Record coop_view : Type := View {
  v_jobs : list Z;
  v_heap : gmap Z ipc_rpc_coop_job;
  v_owner : option Z;
  v_inited : bool;
  v_seq : Z;
  v_sendq : list kmsg_t;
  v_log : list (cstr * kmsg_t);
}.

Section inv.
Context `{SE : IpcSerial} `{!IpcSerialLaws} {E : Type} `{C : Core E} `{!CoreLaws E}.
Context (module resp_opcode : Z) (resp_fmt : ptr cstr).
Abbreviation rfmt := (default IPC_RPC_RESP_FMT_DEFAULT resp_fmt).
Implicit Types (s : coop_queue E) (id : Z) (j : ipc_rpc_coop_job) (v : coop_view) (m : kmsg_t).

Definition vw s : coop_view :=
  View (cs_jobs s) (cs_heap s) (cs_owner s) (cs_inited s) (cs_seq s) (t_sendq (cs_io s)) (t_log (cs_io s)).

(** ** The invariant *)

Definition nested j : Prop :=
  j_state j = IPC_RPC_COOP_ST_NESTED_SEND ∨ j_state j = IPC_RPC_COOP_ST_NESTED_RECV.

(** [m] is the answer of [j]. *)
Definition answer_of j m : Prop :=
  ∃ b, ipc_serial_encode rfmt [AQ (i64 (j_result j))] = Some b ∧ m = Kmsg module resp_opcode b.

(** [m] is the message [j] wants to send. *)
Definition payload_of j m : Prop :=
  match j_state j with
  | IPC_RPC_COOP_ST_NEED_REPLY => answer_of j m
  | IPC_RPC_COOP_ST_NESTED_SEND => km_reply_port m = Some (j_nest_token j)
  | _ => False
  end.

Definition unqueued v (P : Z → Prop) : Prop :=
  ∀ id j, v_heap v !! id = Some j → P id → j_queued j = false.

(** The send queue is empty, or it holds one message, of the owner. *)
Definition slot_inv v : Prop :=
  match v_owner v with
  | None => v_sendq v = [] ∧ unqueued v (λ _, True)
  | Some id =>
      ∃ j m, v_heap v !! id = Some j ∧ j_queued j = true ∧ v_sendq v = [m] ∧ payload_of j m
        ∧ unqueued v (λ id', id' ≠ id)
  end.

(** Nested calls under way have different cookies, all handed out before. *)
Record coop_inv v : Prop := {
  inv_nodup : NoDup (v_jobs v);
  inv_dom : ∀ id, id ∈ v_jobs v ↔ is_Some (v_heap v !! id);
  inv_slot : slot_inv v;
  inv_seq : 0 ≤ v_seq v < 2 ^ 64;
  inv_cookie : ∀ id j, v_heap v !! id = Some j → nested j →
    0 < j_nest_cookie j ≤ v_seq v
    ∧ ipc_rpc_format_nest_token PORT_NAME_LEN_MAX (j_nest_cookie j) = Some (j_nest_token j);
  inv_unique : ∀ id1 id2 j1 j2, v_heap v !! id1 = Some j1 → v_heap v !! id2 = Some j2 → nested j1 → nested j2 →
    j_nest_cookie j1 = j_nest_cookie j2 → id1 = id2;
}.

(** ** Changes of one job *)

Definition update v id j' o n q l : coop_view := View (v_jobs v) (<[id := j']> (v_heap v)) o (v_inited v) n q l.
Definition remove v id o q : coop_view :=
  View (filter (λ i, i ≠ id) (v_jobs v)) (delete id (v_heap v)) o (v_inited v) (v_seq v) q (v_log v).

(** The slot after a change of [id] that may use it only if no other job has
    it: empty, holding the message of [id], or as before. *)
Definition slot_after v id (j' : option ipc_rpc_coop_job) o q : Prop :=
  (v_owner v = None ∨ v_owner v = Some id) ∧ o = None ∧ q = [] ∧ (∀ j, j' = Some j → j_queued j = false)
  ∨ (v_owner v = None ∨ v_owner v = Some id) ∧ o = Some id
    ∧ (∃ j m, j' = Some j ∧ j_queued j = true ∧ q = [m] ∧ payload_of j m)
  ∨ v_owner v ≠ Some id ∧ o = v_owner v ∧ q = v_sendq v ∧ (∀ j, j' = Some j → j_queued j = false).

(** The cookie of [id] is its old one or a new one. *)
Definition cookie_after v j j' n : Prop :=
  n = v_seq v ∧ (nested j' → nested j ∧ j_nest_cookie j' = j_nest_cookie j ∧ j_nest_token j' = j_nest_token j)
  ∨ v_seq v < n < 2 ^ 64
    ∧ (nested j' → v_seq v < j_nest_cookie j' ≤ n
       ∧ ipc_rpc_format_nest_token PORT_NAME_LEN_MAX (j_nest_cookie j') = Some (j_nest_token j')).

(** What is delivered: nothing; the answer of the job, to its client; or its
    request, with its token, to the server it asks. *)
Definition answers v j l : Prop :=
  ∃ m, l = v_log v ++ [(j_reply_port j, m)] ∧ j_state j = IPC_RPC_COOP_ST_NEED_REPLY ∧ answer_of j m.
Definition asks v j' l : Prop :=
  ∃ p m, l = v_log v ++ [(p, m)] ∧ j_state j' = IPC_RPC_COOP_ST_NESTED_RECV
    ∧ strncpy_term p (PORT_NAME_LEN_MAX - 1) = strncpy_term (j_nested_server j') (PORT_NAME_LEN_MAX - 1)
    ∧ km_reply_port m = Some (j_nest_token j').

Inductive job_step v id : coop_view → Prop :=
  | js_same : job_step v id v
  | js_update j j' o n q l : v_heap v !! id = Some j → slot_after v id (Some j') o q → cookie_after v j j' n →
      l = v_log v ∨ answers v j l ∨ asks v j' l → job_step v id (update v id j' o n q l)
  | js_remove o q : slot_after v id None o q → job_step v id (remove v id o q).

Lemma unqueued_insert v id j' (P : Z → Prop) o n q l : unqueued v (λ i, P i ∧ i ≠ id) → (P id → j_queued j' = false) →
  unqueued (update v id j' o n q l) P.
Proof.
  intros Hu Hj i j0. cbn. rewrite lookup_insert. case_decide as Hi; [|by intros; apply (Hu i j0)].
  subst. intros [= <-]. done.
Qed.

(** The jobs that are not [id] are unqueued when they do not own the slot. *)
Lemma slot_others v id : slot_inv v → v_owner v = None ∨ v_owner v = Some id → unqueued v (λ i, i ≠ id).
Proof.
  unfold slot_inv. intros Hs [Ho|Ho]; rewrite Ho in Hs.
  - intros i j Hi _. by apply (proj2 Hs i j).
  - by destruct Hs as (j & m & _ & _ & _ & _ & Hu).
Qed.

Lemma slot_update v id j' o n q l : slot_inv v → slot_after v id (Some j') o q → slot_inv (update v id j' o n q l).
Proof.
  intros Hs [(Ho & -> & -> & Hj)|[(Ho & -> & j & m & [= <-] & Hq & -> & Hp)|(Ho & -> & -> & Hj)]].
  - split; [done|]. apply unqueued_insert; [|by intros; apply Hj].
    intros i j Hi [_ Hne]. by apply (slot_others v id Hs Ho i j).
  - exists j', m. cbn. rewrite lookup_insert_eq. split_and!; [done..|].
    apply unqueued_insert; [|done]. intros i j Hi [_ Hne]. by apply (slot_others v id Hs Ho i j).
  - unfold slot_inv in *. cbn [update v_owner v_sendq]. destruct (v_owner v) as [k|] eqn:Eo.
    + destruct Hs as (j & m & Hk & Hq & Hm & Hp & Hu). exists j, m. cbn [update v_heap].
      rewrite lookup_insert_ne by congruence. split_and!; [done..|].
      apply unqueued_insert; [|by intros; apply Hj]. intros i j0 Hi [Hne _]. by apply (Hu i j0).
    + destruct Hs as [Hq Hu]. split; [done|]. apply unqueued_insert; [|by intros; apply Hj].
      intros i j0 Hi _. by apply (Hu i j0).
Qed.

Lemma slot_remove v id o q : slot_inv v → slot_after v id None o q → slot_inv (remove v id o q).
Proof.
  assert (∀ P, unqueued v (λ i, P i ∧ i ≠ id) → unqueued (remove v id o q) P) as Hdel.
  { intros P Hu i j. cbn. intros [Hne Hi]%lookup_delete_Some HP. by apply (Hu i j). }
  intros Hs [(Ho & -> & -> & Hj)|[(Ho & -> & j & m & [=] & _)|(Ho & -> & -> & Hj)]].
  - split; [done|]. apply Hdel. intros i j Hi [_ Hne]. by apply (slot_others v id Hs Ho i j).
  - unfold slot_inv in *. cbn [remove v_owner v_sendq]. destruct (v_owner v) as [k|] eqn:Eo.
    + destruct Hs as (j & m & Hk & Hq & Hm & Hp & Hu). exists j, m. cbn [remove v_heap].
      rewrite lookup_delete_ne by congruence. split_and!; [done..|]. apply Hdel.
      intros i j0 Hi [Hne _]. by apply (Hu i j0).
    + destruct Hs as [Hq Hu]. split; [done|]. apply Hdel. intros i j0 Hi _. by apply (Hu i j0).
Qed.

Lemma cookie_update v id j j' o n q l : coop_inv v → v_heap v !! id = Some j → cookie_after v j j' n →
  coop_inv (update v id j' o n q l) ↔ slot_inv (update v id j' o n q l).
Proof.
  intros Hinv Hj Hc. split; [apply inv_slot|]. intros Hs.
  assert (v_seq v ≤ n < 2 ^ 64) as Hn by (pose proof (inv_seq _ Hinv); destruct Hc; lia).
  assert (nested j' → (0 < j_nest_cookie j' ≤ n)
    ∧ ipc_rpc_format_nest_token PORT_NAME_LEN_MAX (j_nest_cookie j') = Some (j_nest_token j')
    ∧ ∀ i j0, i ≠ id → v_heap v !! i = Some j0 → nested j0 → j_nest_cookie j0 ≠ j_nest_cookie j') as Hj'.
  { intros Hne. pose proof (inv_seq _ Hinv). destruct Hc as [[-> Hc]|[Hc1 Hc]].
    - destruct (Hc Hne) as (Hn0 & -> & ->). destruct (inv_cookie _ Hinv _ _ Hj Hn0). split_and!; try lia; [done|].
      intros i j0 Hi Hi0 Hn1 Heq. by apply Hi, (inv_unique _ Hinv i id j0 j).
    - destruct (Hc Hne) as (Hlt & Htok). split_and!; try lia; [done|]. intros i j0 Hi Hi0 Hn1.
      destruct (inv_cookie _ Hinv _ _ Hi0 Hn1). lia. }
  split; cbn [update v_jobs v_heap v_seq].
  - apply Hinv.
  - intros i. rewrite (inv_dom _ Hinv i), lookup_insert. case_decide as Hi; [|done]. subst. by rewrite Hj.
  - done.
  - pose proof (inv_seq _ Hinv). lia.
  - intros i j0. rewrite lookup_insert. case_decide as Hi.
    + intros [= <-] Hne. by destruct (Hj' Hne) as (? & ? & _).
    + intros Hi0 Hne. destruct (inv_cookie _ Hinv _ _ Hi0 Hne). split; [lia|done].
  - intros i1 i2 j1 j2. rewrite !lookup_insert. case_decide as H1; case_decide as H2; try congruence.
    + intros [= <-] Hi2 Hn1 Hn2 Heq. destruct (Hj' Hn1) as (_ & _ & Hu). exfalso. by apply (Hu i2 j2).
    + intros Hi1 [= <-] Hn1 Hn2 Heq. destruct (Hj' Hn2) as (_ & _ & Hu). exfalso. by apply (Hu i1 j1).
    + intros Hi1 Hi2. by apply (inv_unique _ Hinv i1 i2 j1 j2).
Qed.

Lemma job_step_inv v id v' : coop_inv v → job_step v id v' → coop_inv v'.
Proof.
  intros Hinv [|j j' o n q l Hj Hs Hc _|o q Hs].
  - done.
  - apply (cookie_update v id j j' o n q l Hinv Hj Hc), slot_update; [apply Hinv|done].
  - split; cbn [remove v_jobs v_heap v_seq].
    + apply list.NoDup_filter, Hinv.
    + intros i. rewrite list_elem_of_filter, (inv_dom _ Hinv i), lookup_delete_is_Some. naive_solver.
    + apply slot_remove; [apply Hinv|done].
    + apply Hinv.
    + intros i j [_ Hi]%lookup_delete_Some. by apply (inv_cookie _ Hinv i).
    + intros i1 i2 j1 j2 [_ H1]%lookup_delete_Some [_ H2]%lookup_delete_Some. by apply (inv_unique _ Hinv i1 i2 j1 j2).
Qed.

(** ** Views of the operations *)

Definition cleared (o : option Z) id : option Z := if decide (o = Some id) then None else o.
Definition cleared_q (o : option Z) id (q : list kmsg_t) : list kmsg_t := if decide (o = Some id) then [] else q.

(** The job [id] has the slot and at most one message is in it, or it has
    nothing in the slot. *)
Definition slot_use s id j : Prop :=
  cs_heap s !! id = Some j
  ∧ (cs_owner s = Some id → j_queued j = true ∧ tail (t_sendq (cs_io s)) = [])
  ∧ (cs_owner s ≠ Some id → j_queued j = false).

Lemma slot_job v id j : slot_inv v → v_heap v !! id = Some j →
  (v_owner v = Some id → j_queued j = true ∧ ∃ m, v_sendq v = [m] ∧ payload_of j m)
  ∧ (v_owner v ≠ Some id → j_queued j = false).
Proof.
  unfold slot_inv. intros Hs Hj. split; intros Ho.
  - rewrite Ho in Hs. destruct Hs as (j0 & m & Hj0 & Hq & Hm & Hp & _). simplify_eq. eauto.
  - destruct (v_owner v) as [k|].
    + destruct Hs as (_ & _ & _ & _ & _ & _ & Hu). apply (Hu id j Hj). congruence.
    + by apply (proj2 Hs id j).
Qed.

Lemma inv_use s id j : coop_inv (vw s) → cs_heap s !! id = Some j → slot_use s id j.
Proof.
  intros Hinv Hj. destruct (slot_job (vw s) id j (inv_slot _ Hinv) Hj) as [H1 H2]. split_and!; [done| |done].
  intros Ho. destruct (H1 Ho) as (Hq & m & Hm & _). cbn in Hm. by rewrite Hm.
Qed.

Lemma update_update v id j1 o1 n1 q1 l1 j2 o2 n2 q2 l2 :
  update (update v id j1 o1 n1 q1 l1) id j2 o2 n2 q2 l2 = update v id j2 o2 n2 q2 l2.
Proof. unfold update. cbn. by rewrite insert_insert_eq. Qed.

Lemma on_job_view s id j f : cs_heap s !! id = Some j →
  vw (on_job s id f) = update (vw s) id (f j) (v_owner (vw s)) (v_seq (vw s)) (v_sendq (vw s)) (v_log (vw s)).
Proof.
  intros Hj. unfold vw, on_job, set_heap, set_queue, update. cbn. f_equal.
  apply map_eq. intros i. rewrite lookup_alter, lookup_insert. case_decide; subst; by rewrite ?Hj.
Qed.

Lemma on_job_lookup s id j f : cs_heap s !! id = Some j → cs_heap (on_job s id f) !! id = Some (f j).
Proof. intros Hj. cbn. by rewrite lookup_alter_eq, Hj. Qed.

Lemma unqueue_id j : j_queued j = false → j_with_queued j false = j.
Proof. by destruct j; cbn; intros ->. Qed.

Lemma clear_view s id j : slot_use s id j →
  vw (ipc_rpc_coop_clear_send_owner s id) =
    update (vw s) id (j_with_queued j false) (cleared (cs_owner s) id) (cs_seq s)
      (cleared_q (cs_owner s) id (t_sendq (cs_io s))) (t_log (cs_io s)).
Proof.
  intros (Hj & Ho & Hn). unfold ipc_rpc_coop_clear_send_owner, cleared, cleared_q. case_decide as E0.
  - destruct (Ho E0) as [Hq Ht]. rewrite Hj, Hq. unfold vw, update. cbn. rewrite Ht. f_equal.
    apply map_eq. intros i. rewrite lookup_alter, lookup_insert. case_decide; subst; by rewrite ?Hj.
  - rewrite unqueue_id by auto. unfold vw, update. cbn. by rewrite insert_id.
Qed.

Lemma clear_lookup s id j : slot_use s id j →
  cs_heap (ipc_rpc_coop_clear_send_owner s id) !! id = Some (j_with_queued j false).
Proof.
  intros Hu. change (cs_heap ?x) with (v_heap (vw x)). rewrite (clear_view _ _ _ Hu). cbn. apply lookup_insert_eq.
Qed.

(** A job without a call under way, and one with a result. *)
Definition idle_job j : ipc_rpc_coop_job :=
  j_with_state (nested_clear (j_with_queued j false)) IPC_RPC_COOP_ST_NONE.
Definition done_job j (r : Z) : ipc_rpc_coop_job :=
  j_with_state (j_with_result (nested_clear (j_with_queued j false)) r) IPC_RPC_COOP_ST_NEED_REPLY.

Lemma nested_clear_view s id j : slot_use s id j →
  vw (ipc_rpc_coop_nested_clear (ipc_rpc_coop_clear_send_owner s id) id) =
    update (vw s) id (nested_clear (j_with_queued j false)) (cleared (cs_owner s) id) (cs_seq s)
      (cleared_q (cs_owner s) id (t_sendq (cs_io s))) (t_log (cs_io s)).
Proof.
  intros Hu. unfold ipc_rpc_coop_nested_clear. rewrite (on_job_view _ _ _ _ (clear_lookup _ _ _ Hu)).
  by rewrite (clear_view _ _ _ Hu), update_update.
Qed.

Lemma on_nested_clear_view s id j f : slot_use s id j →
  vw (on_job (ipc_rpc_coop_nested_clear (ipc_rpc_coop_clear_send_owner s id) id) id f) =
    update (vw s) id (f (nested_clear (j_with_queued j false))) (cleared (cs_owner s) id) (cs_seq s)
      (cleared_q (cs_owner s) id (t_sendq (cs_io s))) (t_log (cs_io s)).
Proof.
  intros Hu. pose proof (nested_clear_view _ _ _ Hu) as Hv.
  assert (cs_heap (ipc_rpc_coop_nested_clear (ipc_rpc_coop_clear_send_owner s id) id) !! id
    = Some (nested_clear (j_with_queued j false))) as Hl.
  { change (cs_heap ?x) with (v_heap (vw x)). rewrite Hv. cbn. apply lookup_insert_eq. }
  by rewrite (on_job_view _ _ _ _ Hl), Hv, update_update.
Qed.

Lemma set_result_view s id j r : slot_use s id j →
  vw (ipc_rpc_coop_job_set_result s id r) =
    update (vw s) id (done_job j r) (cleared (cs_owner s) id) (cs_seq s)
      (cleared_q (cs_owner s) id (t_sendq (cs_io s))) (t_log (cs_io s)).
Proof. intros Hu. unfold ipc_rpc_coop_job_set_result. by rewrite (on_nested_clear_view _ _ _ _ Hu). Qed.

Lemma release_view s id j : slot_use s id j →
  vw (ipc_rpc_coop_job_release s id) =
    remove (vw s) id (cleared (cs_owner s) id) (cleared_q (cs_owner s) id (t_sendq (cs_io s))).
Proof.
  intros Hu. pose proof (nested_clear_view _ _ _ Hu) as Hv. unfold ipc_rpc_coop_job_release.
  transitivity (remove (vw (ipc_rpc_coop_nested_clear (ipc_rpc_coop_clear_send_owner s id) id)) id
    (v_owner (vw (ipc_rpc_coop_nested_clear (ipc_rpc_coop_clear_send_owner s id) id)))
    (v_sendq (vw (ipc_rpc_coop_nested_clear (ipc_rpc_coop_clear_send_owner s id) id)))); [done|].
  rewrite Hv. unfold remove, update. cbn. by rewrite delete_insert_eq.
Qed.

Lemma slot_after_cleared v id oj : slot_inv v → (∀ j, oj = Some j → j_queued j = false) →
  slot_after v id oj (cleared (v_owner v) id) (cleared_q (v_owner v) id (v_sendq v)).
Proof.
  intros Hs Hj. unfold cleared, cleared_q, slot_after. case_decide as E0; [left; auto|].
  right. right. auto.
Qed.

(** ** The operations are steps of one job *)

Lemma set_result_step s id j r : coop_inv (vw s) → cs_heap s !! id = Some j →
  job_step (vw s) id (vw (ipc_rpc_coop_job_set_result s id r)).
Proof.
  intros Hinv Hj. rewrite (set_result_view s id j r (inv_use s id j Hinv Hj)).
  apply (js_update _ _ j); [done| | |by left].
  - apply slot_after_cleared; [apply Hinv|]. by intros ? [= <-].
  - left. split; [done|]. intros [?|?]; discriminate.
Qed.

Lemma release_step s id j : coop_inv (vw s) → cs_heap s !! id = Some j →
  job_step (vw s) id (vw (ipc_rpc_coop_job_release s id)).
Proof.
  intros Hinv Hj. rewrite (release_view s id j (inv_use s id j Hinv Hj)).
  apply js_remove, slot_after_cleared; [apply Hinv|done].
Qed.

Lemma take_nested_step s id j r : coop_inv (vw s) → cs_heap s !! id = Some j →
  j_state j = IPC_RPC_COOP_ST_NESTED_RECV → job_step (vw s) id (vw (take_nested s id r)).
Proof.
  intros Hinv Hj Hst. destruct (slot_job (vw s) id j (inv_slot _ Hinv) Hj) as [H1 H2].
  assert (cs_owner s ≠ Some id) as Ho.
  { intros Ho. destruct (H1 Ho) as (_ & m & _ & Hp). unfold payload_of in Hp. by rewrite Hst in Hp. }
  unfold take_nested, ipc_rpc_coop_nested_clear.
  rewrite (on_job_view _ _ (nested_clear (j_with_nested_result j r))) by (by rewrite (on_job_lookup _ _ (j_with_nested_result j r)); [|rewrite (on_job_lookup _ _ j)]).
  rewrite (on_job_view _ _ (j_with_nested_result j r)) by (by rewrite (on_job_lookup _ _ j)).
  rewrite (on_job_view _ _ j) by done. rewrite !update_update. cbn -[update].
  apply (js_update _ _ j); [done| | |by left].
  - right. right. split_and!; [done..|]. intros ? [= <-]. cbn. by apply H2.
  - left. split; [done|]. intros [?|?]; discriminate.
Qed.

End inv.
