(* ===== verification/RpcCoopStep.v ===== *)
(** * The operations of the cooperative server as steps of jobs *)

From stdpp Require Import base numbers list strings gmap option relations.
From Stdlib Require Import Ascii.
From S2P Require Import Prelude PortNames Rpc RpcCoop RpcThm RpcCoopInv.

Section steps.
Context `{SE : IpcSerial} `{!IpcSerialLaws} {E : Type} `{C : Core E} `{!CoreLaws E}.
Context (module resp_opcode : Z) (resp_fmt : ptr cstr).
Implicit Types (s : coop_queue E) (id : Z) (j : ipc_rpc_coop_job) (v : coop_view) (m : kmsg_t) (t : thread_io E).
Abbreviation inv := (coop_inv module resp_opcode resp_fmt).
Abbreviation jstep := (job_step module resp_opcode resp_fmt).
Abbreviation jsteps id := (rtc (λ v v', jstep v id v')).

Lemma jsteps_inv id v v' : inv v → jsteps id v v' → inv v'.
Proof. intros Hinv Hs. induction Hs as [|v1 v2 v3 H1 _ IH]; [done|]. apply IH. by eapply job_step_inv. Qed.

(** ** Sending from the slot *)

Lemma send_cases t b p m e t' : t_sendq t = [m] → send_to t b p = (e, t') →
  e = REND_SUCCESS ∧ t_sendq t' = [] ∧ t_log t' = t_log t ++ [(po_name p, m)]
  ∨ e = E_REND_AGAIN ∧ io_eq t t'
  ∨ e ≠ REND_SUCCESS ∧ e ≠ E_REND_AGAIN ∧ tail (t_sendq t') = [] ∧ t_log t' = t_log t
    ∧ (e = E_REND_PORT_CLOSED → t_sendq t' = []).
Proof.
  intros Hq. unfold send_to. destruct core_send as [[err kept] e1]. rewrite Hq.
  destruct err; intros [= <- <-]; cbn; try (by left); try (by right; left); right; right;
    (split_and!; [done..| | |done]); destruct kept; cbn; by rewrite ?Hq.
Qed.

Lemma vw_set_io s io : vw (set_io s io) =
  View (v_jobs (vw s)) (v_heap (vw s)) (v_owner (vw s)) (v_inited (vw s)) (v_seq (vw s)) (t_sendq io) (t_log io).
Proof. done. Qed.

Lemma vw_io_eq s io : io_eq (cs_io s) io → vw (set_io s io) = vw s.
Proof. intros [Hq Hl]. rewrite vw_set_io, Hq, Hl. done. Qed.

Lemma coop_lookup_spec s n p s' : coop_lookup s n = (p, s') →
  vw s' = vw s ∧ cs_heap s' = cs_heap s ∧ cs_owner s' = cs_owner s ∧ ∀ port, p = Some port → po_name port = n.
Proof.
  unfold coop_lookup. destruct (thread_lookup_port (cs_io s) n) as [p' io] eqn:El. intros [= -> <-].
  split_and!; [apply vw_io_eq; by eapply lookup_io_eq|done|done|]. intros port ->.
  unfold thread_lookup_port in El. destruct (core_lookup n _) as [p1 e1] eqn:Ec. injection El as -> <-.
  by eapply lookup_name.
Qed.

(** [fail] clears the slot and leaves the job as [g]. *)
Definition fail_to id j (fail : coop_queue E → coop_queue E) (g : ipc_rpc_coop_job) : Prop :=
  j_queued g = false
  ∧ (nested g → j_nest_cookie g = j_nest_cookie j ∧ j_nest_token g = j_nest_token j)
  ∧ ∀ s, slot_use s id j → cs_owner s = Some id →
      vw (fail s) = update (vw s) id g None (cs_seq s) [] (t_log (cs_io s)).

Lemma cleared_owner id : cleared (Some id) id = None.
Proof. unfold cleared. by case_decide. Qed.
Lemma cleared_owner_q id q : cleared_q (Some id) id q = [].
Proof. unfold cleared_q. by case_decide. Qed.
Lemma cleared_none id : cleared None id = None.
Proof. unfold cleared. by case_decide. Qed.
Lemma cleared_none_q id q : cleared_q None id q = q.
Proof. unfold cleared_q. by case_decide. Qed.

Lemma fail_clear id j : fail_to id j (λ s, ipc_rpc_coop_clear_send_owner s id) (j_with_queued j false).
Proof.
  split_and!; [done|done|]. intros s Hu Ho. by rewrite (clear_view s id j Hu), Ho, cleared_owner, cleared_owner_q.
Qed.

Lemma fail_idle id j : fail_to id j
  (λ s, on_job (ipc_rpc_coop_nested_clear (ipc_rpc_coop_clear_send_owner s id) id) id
          (λ j, j_with_state j IPC_RPC_COOP_ST_NONE)) (idle_job j).
Proof.
  split_and!; [done|by intros [?|?]|]. intros s Hu Ho.
  by rewrite (on_nested_clear_view s id j _ Hu), Ho, cleared_owner, cleared_owner_q.
Qed.

Lemma fail_eio id j : fail_to id j (λ s, nested_eio s id) (done_job j (- LINUX_EIO)).
Proof.
  split_and!; [done|by intros [?|?]|]. intros s Hu Ho. unfold nested_eio.
  destruct (fail_idle id j) as (_ & _ & Hf). specialize (Hf s Hu Ho). set (s1 := on_job _ _ _) in *.
  assert (slot_use s1 id (idle_job j)) as Hu1.
  { split_and!.
    - change (v_heap (vw s1) !! id = Some (idle_job j)). rewrite Hf. cbn. apply lookup_insert_eq.
    - change (cs_owner s1) with (v_owner (vw s1)). by rewrite Hf.
    - done. }
  rewrite (set_result_view s1 id _ _ Hu1). change (cs_owner s1) with (v_owner (vw s1)).
  change (cs_seq s1) with (v_seq (vw s1)). change (t_sendq (cs_io s1)) with (v_sendq (vw s1)).
  change (t_log (cs_io s1)) with (v_log (vw s1)). rewrite Hf, update_update. cbn [update v_owner v_seq v_sendq v_log].
  by rewrite cleared_none, cleared_none_q.
Qed.

Lemma nested_send_step s id j server fail g e s' : inv (vw s) → cs_heap s !! id = Some j → cs_owner s = Some id →
  j_state j = IPC_RPC_COOP_ST_NESTED_SEND →
  strncpy_term (po_name server) (PORT_NAME_LEN_MAX - 1) = strncpy_term (j_nested_server j) (PORT_NAME_LEN_MAX - 1) →
  fail_to id j fail g →
  nested_send s id server fail = (e, s') → jstep (vw s) id (vw s').
Proof.
  intros Hinv Hj Ho Hst Hn (Hg & Hgn & Hf).
  destruct (slot_job _ _ _ (vw s) id j (inv_slot _ _ _ _ Hinv) Hj) as [H1 _].
  destruct (H1 Ho) as (Hq & m & Hm & Hp). unfold payload_of in Hp. rewrite Hst in Hp. cbn in Hm.
  unfold nested_send, ipc_try_send_msg. destruct (send_to (cs_io s) false server) as [err io] eqn:Es.
  assert (nested j) as Hne by (by left).
  destruct (send_cases _ _ _ _ _ _ Hm Es) as [(-> & Hq' & Hl)|[(-> & Hio)|(He1 & He2 & Ht & Hl & _)]].
  - intros [= <- <-]. unfold slot_sent.
    assert (vw (on_job (set_owner (on_job (set_io s io) id (λ j, j_with_queued j false)) None) id
      (λ j, j_with_state j IPC_RPC_COOP_ST_NESTED_RECV)) =
      update (vw s) id (j_with_state (j_with_queued j false) IPC_RPC_COOP_ST_NESTED_RECV) None (cs_seq s) []
        (t_log (cs_io s) ++ [(po_name server, m)])) as ->.
    { rewrite (on_job_view _ _ (j_with_queued j false)) by (cbn; by rewrite lookup_alter_eq, Hj).
      unfold vw, update. cbn. rewrite Hq', Hl. f_equal. apply map_eq. intros i.
      rewrite !lookup_insert, lookup_alter. by repeat case_decide. }
    apply (js_update _ _ _ _ _ j); [done| | |].
    + left. split_and!; [by right|done..|]. by intros ? [= <-].
    + left. by split.
    + right. right. by exists (po_name server), m.
  - intros [= <- <-]. rewrite vw_io_eq by done. constructor.
  - assert (slot_use (set_io s io) id j) as Hu by (split_and!; done).
    assert (jstep (vw s) id (vw (fail (set_io s io)))) as Hstep.
    { rewrite (Hf _ Hu Ho). change (cs_io (set_io s io)) with io. rewrite Hl.
      assert (update (vw (set_io s io)) id g None (cs_seq (set_io s io)) [] (t_log (cs_io s)) =
        update (vw s) id g None (cs_seq s) [] (t_log (cs_io s))) as -> by done.
      apply (js_update _ _ _ _ _ j); [done| | |by left].
      - left. split_and!; [by right|done..|]. by intros ? [= <-].
      - left. split; [done|]. intros Hng. destruct (Hgn Hng). done. }
    destruct err; try done; by intros [= <- <-].
Qed.

(** ** Nested calls *)

Lemma token_fits c tk : ipc_rpc_format_nest_token PORT_NAME_LEN_MAX c = Some tk →
  zero ∉ tk ∧ (length tk < PORT_NAME_LEN_MAX)%nat.
Proof.
  unfold ipc_rpc_format_nest_token. change (PORT_NAME_LEN_MAX <? 4)%nat with false. cbv iota zeta.
  set (ds := if c =? 0 then _ else _).
  assert (Forall (λ c, is_digit c = true) ds) as Hd.
  { subst ds. destruct (c =? 0); [by repeat constructor|apply digits_rev_digits]. }
  destruct (Nat.leb_spec PORT_NAME_LEN_MAX (2 + length ds)) as [|Hlt]; [done|]. intros [= <-]. split.
  - change IPC_RPC_NEST_TOKEN_PFX with ["@"%char; "n"%char]. intros Hz.
    do 2 (apply elem_of_cons in Hz as [?|Hz]; [done|]). rewrite elem_of_reverse in Hz.
    rewrite list.Forall_forall in Hd. by apply Hd in Hz.
  - change (2 + length (reverse ds) < PORT_NAME_LEN_MAX)%nat. rewrite length_reverse. apply Hlt.
Qed.

Lemma next_cookie_small n : 0 ≤ n < 2 ^ 64 - 1 → next_cookie n = n + 1.
Proof.
  intros Hn. unfold next_cookie. rewrite (uw_small 64 (n + 1)) by lia. cbv zeta.
  by rewrite (proj2 (Z.eqb_neq _ _)) by lia.
Qed.

Lemma enqueue_spec s m e s' : ipc_rpc_coop_enqueue_kmsg s (Some m) = (e, s') →
  e = REND_SUCCESS ∧ vw s' = vw (set_io s (ThreadIo (t_sendq (cs_io s) ++ [m]) (t_log (cs_io s)) (t_core (cs_io s'))))
  ∨ e ≠ REND_SUCCESS ∧ vw s' = vw s.
Proof.
  unfold ipc_rpc_coop_enqueue_kmsg. destruct (alloc_ok (cs_io s)) as [ok io] eqn:Ea.
  apply alloc_io_eq in Ea as Hio. destruct ok.
  - unfold enqueue_msg_for_send. destruct (core_enqueue _) as [err e1]. destruct Hio as [Hq Hl].
    destruct err; intros [= <- <-]; try (right; split; [done|]; unfold vw; cbn; by rewrite Hq, Hl).
    left. split; [done|]. unfold vw; cbn. by rewrite Hq, Hl.
  - intros [= <- <-]. right. split; [done|]. by apply vw_io_eq.
Qed.

(** The job when its request is in the slot. *)
Definition asking_job j (name : cstr) (cookie : Z) (token : cstr) : ipc_rpc_coop_job :=
  j_with_state (j_with_queued (j_with_server (j_with_token j cookie token)
    (strncpy_term name (PORT_NAME_LEN_MAX - 1))) true) IPC_RPC_COOP_ST_NESTED_SEND.

(** A new call that fails before it is in the slot: only the counter went on. *)
Lemma give_up_step s s1 id j cookie token : inv (vw s) → cs_heap s !! id = Some j →
  j_state j = IPC_RPC_COOP_ST_NONE → cs_owner s = None → cs_seq s < cookie < 2 ^ 64 →
  vw s1 = vw (on_job (set_seq s cookie) id (λ j, j_with_token j cookie token)) →
  jstep (vw s) id (vw (ipc_rpc_coop_nested_clear s1 id)).
Proof.
  intros Hinv Hj Hst Ho Hc Hv.
  assert (cs_heap s1 !! id = Some (j_with_token j cookie token)) as Hj1.
  { change (v_heap (vw s1) !! id = Some (j_with_token j cookie token)). rewrite Hv. cbn. by rewrite lookup_alter_eq, Hj. }
  unfold ipc_rpc_coop_nested_clear. rewrite (on_job_view s1 id _ _ Hj1), Hv.
  rewrite (on_job_view (set_seq s cookie) id j) by done. rewrite update_update.
  destruct (slot_job _ _ _ (vw s) id j (inv_slot _ _ _ _ Hinv) Hj) as [_ H2]. cbn -[update].
  change (update (vw (set_seq s cookie)) ?i ?a ?b ?c ?d ?f) with (update (vw s) i a b c d f).
  apply (js_update _ _ _ _ _ j); [done| | |by left].
  - right. right. cbn. rewrite Ho. split_and!; [done..|]. intros ? [= <-]. cbn. apply H2. cbn. by rewrite Ho.
  - right. split; [done|]. unfold nested. cbn. rewrite Hst. by intros [?|?].
Qed.

(** The request is put into the free slot. *)
Lemma asking_step s id j name c token m s4 s5 : inv (vw s) → cs_heap s !! id = Some j →
  j_state j = IPC_RPC_COOP_ST_NONE → cs_owner s = None → cs_seq s < c < 2 ^ 64 →
  ipc_rpc_format_nest_token PORT_NAME_LEN_MAX c = Some token → km_reply_port m = Some token →
  vw s4 = update (vw s) id (j_with_token j c token) None c [m] (t_log (cs_io s)) →
  s5 = on_job s4 id (λ j, j_with_state (j_with_queued (j_with_server j
         (strncpy_term name (PORT_NAME_LEN_MAX - 1))) true) IPC_RPC_COOP_ST_NESTED_SEND) →
  jstep (vw s) id (vw (set_owner s5 (Some id)))
  ∧ cs_heap (set_owner s5 (Some id)) !! id = Some (asking_job j name c token).
Proof.
  intros Hinv Hj Hst Ho Hc Htok Hm Hv ->.
  assert (cs_heap s4 !! id = Some (j_with_token j c token)) as Hj4.
  { change (v_heap (vw s4) !! id = Some (j_with_token j c token)). rewrite Hv. cbn. apply lookup_insert_eq. }
  split; [|cbn; by rewrite lookup_alter_eq, Hj4].
  set (s5 := on_job s4 id _).
  assert (vw (set_owner s5 (Some id)) =
    update (vw s) id (asking_job j name c token) (Some id) c [m] (t_log (cs_io s))) as ->.
  { change (vw (set_owner s5 (Some id))) with (View (v_jobs (vw s5)) (v_heap (vw s5)) (Some id) (v_inited (vw s5))
      (v_seq (vw s5)) (v_sendq (vw s5)) (v_log (vw s5))).
    unfold s5. rewrite (on_job_view s4 id _ _ Hj4), Hv, update_update. done. }
  apply (js_update _ _ _ _ _ j); [done| | |by left].
  - right. left. split_and!; [by left|done|]. by exists (asking_job j name c token), m.
  - right. split; [done|]. intros _. cbn. split; [lia|done].
Qed.

Lemma nested_call_steps s id name opc fmt args e s' : inv (vw s) → cs_seq s < 2 ^ 64 - 1 →
  ipc_rpc_coop_nested_call s id name opc fmt args = (e, s') → jsteps id (vw s) (vw s').
Proof.
  intros Hinv Hseq. unfold ipc_rpc_coop_nested_call. destruct (cs_heap s !! id) as [j|] eqn:Hj; [|by intros [= <- <-]].
  destruct name as [name|]; [|by intros [= <- <-]].
  destruct (slot_job _ _ _ (vw s) id j (inv_slot _ _ _ _ Hinv) Hj) as [H1 H2].
  case_bool_decide as Ho1; cbn [andb].
  1: case_bool_decide as Ho2; [by intros [= <- <-]|].
  - (* the job owns the slot *)
    destruct (H1 Ho2) as (Hq & m & Hm & Hp). rewrite Hq, andb_true_r.
    rewrite (bool_decide_true (cs_owner s = Some id)), andb_true_r by done.
    case_bool_decide as Hst.
    + destruct (coop_lookup s (j_nested_server j)) as [[server|] s1] eqn:El;
        destruct (coop_lookup_spec _ _ _ _ El) as (Hv & Hh & Ho & Hn).
      * intros Hs. apply rtc_once. rewrite <- Hv.
        eapply (nested_send_step s1 id j); [by rewrite Hv|by rewrite Hh|by rewrite Ho|done| |apply fail_clear|done].
        by rewrite (Hn _ eq_refl).
      * intros [= <- <-]. by rewrite Hv.
    + rewrite bool_decide_true; [by intros [= <- <-]|]. intros Hst'. unfold payload_of in Hp. by rewrite Hst' in Hp.
  - (* the slot is free *)
    rewrite (bool_decide_false (cs_owner s = Some id)) by (by rewrite Ho1).
    rewrite andb_false_r. case_bool_decide as Hst; [by intros [= <- <-]|].
    pose proof (inv_seq _ _ _ _ Hinv) as Hs0. cbn in Hs0. rewrite next_cookie_small by lia.
    set (c := cs_seq s + 1). cbv zeta.
    assert (cs_seq s < c < 2 ^ 64) as Hc by (subst c; lia).
    destruct (nest_token_name c ltac:(lia)) as (token & Etok & _). rewrite Etok.
    destruct (token_fits _ _ Etok) as [Hz Hlen].
    set (s1 := on_job (set_seq s c) id (λ j, j_with_token j c token)).
    pose proof (λ s2, give_up_step s s2 id j c token Hinv Hj Hst Ho1 Hc) as Hgive. fold s1 in Hgive.
    destruct (coop_lookup s1 name) as [[server|] s2] eqn:El;
      destruct (coop_lookup_spec _ _ _ _ El) as (Hv2 & Hh2 & Ho2 & Hn2).
    2:{ intros [= <- <-]. by apply rtc_once, Hgive. }
    destruct (ipc_kmsg_create_request _ _ _ _ _ _) as [r io] eqn:Er.
    destruct (create_request_spec _ _ _ _ _ _ _ _ Hz Hlen Er) as [Hio Hm].
    pose proof (vw_io_eq s2 io Hio) as Hv3. destruct r as [m|].
    2:{ intros [= <- <-]. apply rtc_once, Hgive. by rewrite Hv3. }
    destruct (ipc_rpc_coop_enqueue_kmsg (set_io s2 io) (Some m)) as [err s4] eqn:Een.
    destruct (enqueue_spec _ _ _ _ Een) as [[-> Hv4]|[Hne Hv4]].
    2:{ intros Hr. apply rtc_once. assert (s' = ipc_rpc_coop_nested_clear s4 id) as ->
          by (destruct err; congruence). apply Hgive. by rewrite Hv4, Hv3. }
    intros Hsend. set (s5 := on_job s4 id _) in Hsend.
    destruct (asking_step s id j name c token m s4 s5 Hinv Hj Hst Ho1 Hc Etok) as (Hstep & Hj5).
    { by destruct (Hm m eq_refl) as (_ & _ & ? & _). }
    { rewrite Hv4, vw_set_io. change (t_sendq (cs_io (set_io s2 io))) with (v_sendq (vw (set_io s2 io))).
      change (t_log (cs_io (set_io s2 io))) with (v_log (vw (set_io s2 io))). cbn [t_sendq t_log].
      rewrite Hv3, Hv2. unfold s1. rewrite (on_job_view (set_seq s c) id j) by done. cbn.
      pose proof (inv_slot _ _ _ _ Hinv) as Hslot. unfold slot_inv in Hslot. cbn in Hslot. rewrite Ho1 in Hslot.
      destruct Hslot as [-> _]. by rewrite Ho1. }
    { done. }
    eapply rtc_l; [exact Hstep|]. apply rtc_once.
    eapply (nested_send_step (set_owner s5 (Some id)) id (asking_job j name c token));
      [by eapply job_step_inv|done|done|done| |apply fail_idle|exact Hsend].
    rewrite (Hn2 _ eq_refl). cbn. unfold strncpy_term. by rewrite take_take, Nat.min_id.
Qed.

(** ** Answers to clients *)

Abbreviation owns s id j := (cs_heap s !! id = Some j ∧ cs_owner s = Some id).

Lemma queue_reply_step s id j r s' : inv (vw s) → cs_heap s !! id = Some j →
  j_state j = IPC_RPC_COOP_ST_NEED_REPLY → cs_owner s = None ∨ cs_owner s = Some id →
  queue_reply module resp_opcode resp_fmt s id j = (r, s') →
  r ≠ None ∧ vw s' = vw s
  ∨ r = None ∧ jstep (vw s) id (vw s') ∧ owns s' id (j_with_queued j true) ∧ t_log (cs_io s') = t_log (cs_io s).
Proof.
  intros Hinv Hj Hst Ho. destruct (slot_job _ _ _ (vw s) id j (inv_slot _ _ _ _ Hinv) Hj) as [H1 H2].
  unfold queue_reply. destruct (j_queued j) eqn:Hq.
  { intros [= <- <-]. right. split_and!; [done|constructor|by destruct j; cbn in *; rewrite Hj, Hq| |done].
    destruct Ho as [Ho|Ho]; [|done]. by specialize (H2 ltac:(cbn; by rewrite Ho)). }
  assert (cs_owner s = None) as Ho' by (destruct Ho as [Ho|Ho]; [done|by destruct (H1 Ho)]).
  destruct (coop_lookup s (j_reply_port j)) as [[p|] s1] eqn:El;
    destruct (coop_lookup_spec _ _ _ _ El) as (Hv1 & _ & _ & _); [|intros [= <- <-]; by left].
  destruct (kmsg_create _ _ _ _ _) as [md io] eqn:Ek. destruct (kmsg_create_spec _ _ _ _ _ _ _ Ek) as [Hio Hm].
  pose proof (vw_io_eq s1 io Hio) as Hv2. destruct md as [m|].
  2:{ cbn. intros [= <- <-]. left. by rewrite Hv2. }
  destruct (ipc_rpc_coop_enqueue_kmsg (set_io s1 io) (Some m)) as [e s3] eqn:Een.
  destruct (enqueue_spec _ _ _ _ Een) as [[-> Hv3]|[Hne Hv3]].
  2:{ intros Hr. left. assert (r = Some e ∧ s' = s3) as [-> ->] by (destruct e; by simplify_eq).
      by rewrite Hv3, Hv2. }
  intros [= <- <-]. right. rewrite vw_set_io in Hv3.
  change (t_sendq (cs_io (set_io s1 io))) with (v_sendq (vw (set_io s1 io))) in Hv3.
  change (t_log (cs_io (set_io s1 io))) with (v_log (vw (set_io s1 io))) in Hv3. cbn [t_sendq t_log] in Hv3.
  rewrite Hv2, Hv1 in Hv3. pose proof (inv_slot _ _ _ _ Hinv) as Hslot. unfold slot_inv in Hslot. cbn in Hslot.
  rewrite Ho' in Hslot. destruct Hslot as [Hs0 _]. cbn in Hv3. rewrite Hs0 in Hv3. cbn in Hv3.
  assert (cs_heap s3 !! id = Some j) as Hj3.
  { change (v_heap (vw s3) !! id = Some j). by rewrite Hv3. }
  split_and!; [done| |cbn; by rewrite lookup_alter_eq, Hj3|done|].
  2:{ change (v_log (vw s3) = t_log (cs_io s)). by rewrite Hv3. }
  set (s4 := on_job s3 id _).
  change (vw (set_owner s4 (Some id))) with (View (v_jobs (vw s4)) (v_heap (vw s4)) (Some id) (v_inited (vw s4))
    (v_seq (vw s4)) (v_sendq (vw s4)) (v_log (vw s4))).
  unfold s4. rewrite (on_job_view s3 id _ _ Hj3), Hv3. cbn.
  apply (js_update _ _ _ (vw s) id j (j_with_queued j true)); [done| | |by left].
  - right. left. split_and!; [by left|done|]. exists (j_with_queued j true), m. split_and!; [done..|].
    unfold payload_of. cbn. rewrite Hst. by apply Hm.
  - left. split; [done|]. unfold nested. cbn. rewrite Hst. by intros [?|?].
Qed.

(** The slot is given up by a job with a result, which may have been sent. *)
Lemma reply_done s id j l s' : inv (vw s) → owns s id j → j_state j = IPC_RPC_COOP_ST_NEED_REPLY →
  vw s' = update (vw s) id (j_with_queued j false) None (cs_seq s) [] l →
  l = t_log (cs_io s) ∨ answers module resp_opcode resp_fmt (vw s) j l →
  jstep (vw s) id (vw s') ∧ t_log (cs_io s') = l ∧ is_Some (cs_heap s' !! id).
Proof.
  intros Hinv [Hj Ho] Hst Hv Hl. split_and!.
  - rewrite Hv. apply (js_update _ _ _ _ _ j); [done| | |].
    + left. split_and!; [by right|done..|]. by intros ? [= <-].
    + left. split; [done|]. unfold nested. cbn. rewrite Hst. by intros [?|?].
    + destruct Hl as [->|Hl]; [by left|by right; left].
  - change (v_log (vw s') = l). by rewrite Hv.
  - change (is_Some (v_heap (vw s') !! id)). rewrite Hv. cbn. by rewrite lookup_insert_eq.
Qed.

Lemma sent_view s id j io : cs_heap s !! id = Some j → t_sendq io = [] →
  vw (slot_sent (set_io s io) id) = update (vw s) id (j_with_queued j false) None (cs_seq s) [] (t_log io).
Proof.
  intros Hj Hq. unfold slot_sent, vw, update. cbn. rewrite Hq. f_equal. apply map_eq. intros i.
  rewrite lookup_alter, lookup_insert. case_decide; subst; by rewrite ?Hj.
Qed.

(** The second half of [ipc_rpc_coop_try_client_reply]. *)
Definition send_reply s id (port : option message_port) : error_t * coop_queue E :=
  match port with
  | None => (REND_SUCCESS, ipc_rpc_coop_clear_send_owner s id)
  | Some port =>
      let '(e, io) := ipc_try_send_msg (cs_io s) port in
      match e with
      | REND_SUCCESS | E_REND_PORT_CLOSED => (REND_SUCCESS, slot_sent (set_io s io) id)
      | E_REND_AGAIN => (E_REND_AGAIN, set_io s io)
      | _ => (e, ipc_rpc_coop_clear_send_owner (set_io s io) id)
      end
  end.

Lemma send_reply_step s id j port e s' : inv (vw s) → owns s id j → j_state j = IPC_RPC_COOP_ST_NEED_REPLY →
  (∀ p, port = Some p → po_name p = j_reply_port j) → send_reply s id port = (e, s') →
  jstep (vw s) id (vw s') ∧ (e = REND_SUCCESS ∨ t_log (cs_io s') = t_log (cs_io s)) ∧ is_Some (cs_heap s' !! id).
Proof.
  intros Hinv [Hj Ho] Hst Hn.
  destruct (slot_job _ _ _ (vw s) id j (inv_slot _ _ _ _ Hinv) Hj) as [H1 _].
  destruct (H1 Ho) as (Hq & m & Hm & Hp). unfold payload_of in Hp. cbn in Hm. rewrite Hst in Hp.
  pose proof (reply_done s id j) as Hdone.
  assert (∀ io, tail (t_sendq io) = [] → t_log io = t_log (cs_io s) →
    vw (ipc_rpc_coop_clear_send_owner (set_io s io) id) =
      update (vw s) id (j_with_queued j false) None (cs_seq s) [] (t_log (cs_io s))) as Hclear.
  { intros io Ht Hl. rewrite (clear_view (set_io s io) id j) by (split_and!; done). cbn -[update].
    by rewrite Ho, cleared_owner, cleared_owner_q, Hl. }
  destruct port as [port|]; cbn [send_reply].
  2:{ intros [= <- <-]. destruct (Hdone (t_log (cs_io s)) (ipc_rpc_coop_clear_send_owner s id) Hinv (conj Hj Ho) Hst)
        as (? & ? & ?); [|by left|by auto].
      assert (s = set_io s (cs_io s)) as Hs by (by destruct s). rewrite Hs at 1. apply Hclear; [by rewrite Hm|done]. }
  unfold ipc_try_send_msg. destruct (send_to (cs_io s) false port) as [err io] eqn:Es.
  destruct (send_cases _ _ _ _ _ _ Hm Es) as [(-> & Hq' & Hl)|[(-> & Hio)|(He1 & He2 & Ht & Hl & Hcl)]].
  - intros [= <- <-]. destruct (Hdone _ _ Hinv (conj Hj Ho) Hst (sent_view s id j io Hj Hq')) as (? & _ & ?); [|by auto].
    right. exists m. rewrite Hl, (Hn _ eq_refl). done.
  - intros [= <- <-]. rewrite (vw_io_eq _ _ Hio). split_and!; [apply js_same|right; apply Hio|cbn; by rewrite Hj].
  - assert (err = E_REND_PORT_CLOSED ∨ err ≠ E_REND_PORT_CLOSED) as [->|Hne] by (destruct err; auto).
    + intros [= <- <-]. destruct (Hdone _ _ Hinv (conj Hj Ho) Hst (sent_view s id j io Hj (Hcl eq_refl)))
        as (? & ? & ?); [left; by rewrite Hl|by auto].
    + intros Hr. assert (s' = ipc_rpc_coop_clear_send_owner (set_io s io) id) as -> by (destruct err; congruence).
      destruct (Hdone _ _ Hinv (conj Hj Ho) Hst (Hclear io Ht Hl)) as (? & ? & ?); [by left|by auto].
Qed.

Lemma client_reply_steps s id j e s' : inv (vw s) → cs_heap s !! id = Some j →
  ipc_rpc_coop_try_client_reply module resp_opcode resp_fmt s id = (e, s') →
  jsteps id (vw s) (vw s') ∧ (e = REND_SUCCESS ∨ t_log (cs_io s') = t_log (cs_io s)) ∧ is_Some (cs_heap s' !! id).
Proof.
  intros Hinv Hj. unfold ipc_rpc_coop_try_client_reply. rewrite Hj.
  assert (∀ e0, (e0, s) = (e, s') → jsteps id (vw s) (vw s') ∧ (e = REND_SUCCESS ∨
    t_log (cs_io s') = t_log (cs_io s)) ∧ is_Some (cs_heap s' !! id)) as Hsame.
  { intros e0 [= <- <-]. rewrite Hj. split_and!; [done|by right|done]. }
  case_bool_decide as Hst; [apply Hsame|].
  destruct (bool_decide (cs_owner s ≠ None) && bool_decide (cs_owner s ≠ Some id)) eqn:Hb; [apply Hsame|].
  assert (cs_owner s = None ∨ cs_owner s = Some id) as Ho.
  { apply andb_false_iff in Hb as [Hb%bool_decide_eq_false|Hb%bool_decide_eq_false]; apply dec_stable in Hb; auto. }
  destruct (queue_reply _ _ _ s id j) as [r s1] eqn:Eq.
  destruct (queue_reply_step _ _ _ _ _ Hinv Hj Hst Ho Eq) as [[Hr Hv]|(-> & Hstep & [Hj1 Ho1] & Hl1)].
  { destruct r as [e0|]; [|done]. intros [= <- <-]. rewrite Hv. split_and!; [done| |].
    - right. change (v_log (vw s1) = t_log (cs_io s)). by rewrite Hv.
    - change (is_Some (v_heap (vw s1) !! id)). rewrite Hv. cbn. by rewrite Hj. }
  pose proof (job_step_inv _ _ _ _ _ _ Hinv Hstep) as Hinv1.
  destruct (coop_lookup s1 (j_reply_port j)) as [p s2] eqn:El.
  destruct (coop_lookup_spec _ _ _ _ El) as (Hv2 & Hh2 & Ho2 & Hn2).
  intros Hr. assert (send_reply s2 id p = (e, s')) as Hs.
  { rewrite <- Hr. unfold send_reply. destruct p; [|done]. by destruct (ipc_try_send_msg _ _) as [[] ?]. }
  destruct (send_reply_step s2 id (j_with_queued j true) p e s') as (H1 & H2 & H3);
    [by rewrite Hv2|by rewrite Hh2, Ho2|done|done|done|].
  split_and!; [|destruct H2 as [H2|H2]; [by left|right]|done].
  - eapply rtc_l; [exact Hstep|]. apply rtc_once. by rewrite <- Hv2.
  - rewrite H2. change (v_log (vw s2) = t_log (cs_io s)). by rewrite Hv2.
Qed.

End steps.
