(* ===== verification/RpcCoopThm.v ===== *)
(** * Runs of the cooperative server *)

From stdpp Require Import base numbers list strings gmap option relations.
From Stdlib Require Import Ascii.
From S2P Require Import Prelude PortNames Rpc RpcCoop RpcThm RpcCoopInv RpcCoopStep.

Section runs.
Context `{SE : IpcSerial} `{!IpcSerialLaws} {E : Type} `{C : Core E} `{!CoreLaws E}.
Context (module resp_opcode : Z) (resp_fmt : ptr cstr).
Implicit Types (s : coop_queue E) (id : Z) (j : ipc_rpc_coop_job) (v : coop_view) (m : kmsg_t).
Abbreviation inv := (coop_inv module resp_opcode resp_fmt).
Abbreviation jstep := (job_step module resp_opcode resp_fmt).
Abbreviation jsteps id := (rtc (λ v v', jstep v id v')).
Abbreviation poll := (ipc_rpc_coop_queue_poll module resp_opcode resp_fmt).
Abbreviation poll1 := (poll_one module resp_opcode resp_fmt).

(** A step of some job, or a new job. *)
Inductive coop_step v : coop_view → Prop :=
  | cs_job id v' : jstep v id v' → coop_step v v'
  | cs_new id name : id ∉ v_jobs v →
      coop_step v (View (v_jobs v ++ [id]) (<[id := new_job name]> (v_heap v)) (v_owner v) (v_inited v) (v_seq v)
                     (v_sendq v) (v_log v)).

Lemma coop_step_inv v v' : inv v → coop_step v v' → inv v'.
Proof.
  intros Hinv [id v1 Hj|id name Hid]; [by eapply job_step_inv|].
  assert (v_heap v !! id = None) as Hn.
  { apply eq_None_not_Some. by rewrite <- (inv_dom _ _ _ _ Hinv). }
  assert (∀ i j, <[id := new_job name]> (v_heap v) !! i = Some j → nested j → v_heap v !! i = Some j) as Hne.
  { intros i j. rewrite lookup_insert. case_decide; [|done]. intros [= <-] [?|?]; discriminate. }
  split; cbn [v_jobs v_heap v_seq].
  - apply list.NoDup_app. split_and!; [apply Hinv| |apply NoDup_singleton].
    intros i Hi ->%list_elem_of_singleton. done.
  - intros i. rewrite elem_of_app, list_elem_of_singleton, (inv_dom _ _ _ _ Hinv i), lookup_insert_is_Some'.
    naive_solver.
  - pose proof (inv_slot _ _ _ _ Hinv) as Hs. unfold slot_inv in *. cbn. destruct (v_owner v) as [k|].
    + destruct Hs as (j & m & Hk & Hq & Hm & Hp & Hu). exists j, m.
      rewrite lookup_insert_ne by congruence. split_and!; [done..|].
      intros i j0. cbn. rewrite lookup_insert. case_decide; [by intros [= <-]|]. apply Hu.
    + destruct Hs as [Hq Hu]. split; [done|]. intros i j0. cbn. rewrite lookup_insert.
      case_decide; [by intros [= <-]|]. apply Hu.
  - apply Hinv.
  - intros i j Hi Hj. apply (inv_cookie _ _ _ _ Hinv i j); eauto.
  - intros i1 i2 j1 j2 H1 H2 N1 N2. apply (inv_unique _ _ _ _ Hinv i1 i2 j1 j2); eauto.
Qed.

Lemma coop_steps_inv v v' : inv v → rtc coop_step v v' → inv v'.
Proof. intros Hinv Hs. induction Hs as [|v1 v2 v3 H1 _ IH]; [done|]. apply IH. by eapply coop_step_inv. Qed.

Lemma coop_steps_inited v v' : rtc coop_step v v' → v_inited v' = v_inited v.
Proof. intros Hs. induction Hs as [|v1 v2 v3 [? ? []|] _ IH]; [done|rewrite IH; done..]. Qed.

Lemma jsteps_coop id v v' : jsteps id v v' → rtc coop_step v v'.
Proof. intros Hs. induction Hs as [|v1 v2 v3 H1 _ IH]; [done|]. eapply rtc_l; [by eapply cs_job|done]. Qed.

(** ** Passes over the queue *)

Lemma poll_job_steps s id : inv (vw s) → jsteps id (vw s) (vw (poll1 s id)).
Proof.
  intros Hinv. unfold poll_one. destruct (cs_heap s !! id) as [j|] eqn:Hj; [|done].
  destruct (j_state j) eqn:Hst; try done.
  - destruct (ipc_rpc_coop_try_client_reply module resp_opcode resp_fmt s id) as [e s1] eqn:Er.
    destruct (client_reply_steps _ _ _ _ _ _ _ _ Hinv Hj Er) as (H1 & _ & [j1 Hj1]).
    destruct e; try done. eapply rtc_r; [exact H1|]. eapply release_step; [|done]. by eapply jsteps_inv.
  - case_bool_decide as Ho; [done|].
    destruct (coop_lookup s (j_nested_server j)) as [p s1] eqn:El.
    destruct (coop_lookup_spec _ _ _ _ El) as (Hv & Hh & Ho' & Hn). rewrite <- Hv. rewrite <- Hv in Hinv.
    rewrite <- Hh in Hj. rewrite <- Ho' in Ho. apply rtc_once. destruct p as [server|].
    + destruct (nested_send s1 id server _) as [e s2] eqn:Es.
      eapply (nested_send_step _ _ _ s1 id j); [done..| |apply fail_eio|exact Es]. by rewrite (Hn _ eq_refl).
    + destruct (fail_eio (E := E) id j) as (Hg & Hgn & Hf).
      rewrite (Hf s1 (inv_use _ _ _ s1 id j Hinv Hj) Ho). apply (js_update _ _ _ _ _ j); [done| | |by left].
      * left. split_and!; [by right|done..|]. by intros ? [= <-].
      * left. split; [done|]. intros [?|?]; discriminate.
Qed.

(** A pass that sends the answer of a job ends the job. *)
Lemma poll_job_once s id j : inv (vw s) → cs_heap s !! id = Some j → j_state j = IPC_RPC_COOP_ST_NEED_REPLY →
  cs_heap (poll1 s id) !! id = None ∨ t_log (cs_io (poll1 s id)) = t_log (cs_io s).
Proof.
  intros Hinv Hj Hst. unfold poll_one. rewrite Hj, Hst.
  destruct (ipc_rpc_coop_try_client_reply module resp_opcode resp_fmt s id) as [e s1] eqn:Er.
  destruct (client_reply_steps _ _ _ _ _ _ _ _ Hinv Hj Er) as (_ & [->|H2] & _).
  - left. unfold ipc_rpc_coop_job_release. cbn. apply lookup_delete_eq.
  - destruct e; try (by right). left. unfold ipc_rpc_coop_job_release. cbn. apply lookup_delete_eq.
Qed.

Lemma fold_poll_steps l s : inv (vw s) → rtc coop_step (vw s) (vw (fold_left poll1 l s)).
Proof.
  revert s. induction l as [|id l IH]; intros s Hinv; [done|]. cbn.
  pose proof (jsteps_coop _ _ _ (poll_job_steps s id Hinv)) as H1.
  etrans; [exact H1|]. apply IH. by eapply coop_steps_inv.
Qed.

Lemma poll_steps s : inv (vw s) → rtc coop_step (vw s) (vw (poll s)).
Proof. intros Hinv. unfold ipc_rpc_coop_queue_poll. destruct (cs_inited s); [by apply fold_poll_steps|done]. Qed.

(** ** Messages *)

(** What the server's own functions may do to the queue: steps of jobs.  A
    handler that answers by its result leaves the job in place. *)
Definition handler_ok (handler : handler_t (E := E)) : Prop :=
  ∀ id op km s disp r s', inv (vw s) → is_Some (cs_heap s !! id) → handler id op km s = (disp, r, s') →
    rtc coop_step (vw s) (vw s') ∧ (disp ≠ IPC_RPC_COOP_PARKED → is_Some (cs_heap s' !! id)).
Definition resume_ok (resume : option (resume_fn_t (E := E))) : Prop :=
  ∀ f, resume = Some f → ∀ id r s, inv (vw s) → is_Some (cs_heap s !! id) → rtc coop_step (vw s) (vw (f id r s)).

Lemma job_create_steps s name r s' : ipc_rpc_coop_job_create s name = (r, s') →
  rtc coop_step (vw s) (vw s') ∧ ∀ id, r = Some id → is_Some (cs_heap s' !! id).
Proof.
  unfold ipc_rpc_coop_job_create. destruct name as [name|]; [|by intros [= <- <-]].
  destruct (negb (cs_inited s) || is_nul name 0); [by intros [= <- <-]|].
  destruct (core_job (cs_jobs s) _) as [[a|] e] eqn:Ej; intros [= <- <-]; [|done].
  split; [|intros id [= <-]; cbn; by rewrite lookup_insert_eq].
  apply rtc_once. apply (cs_new (vw s)). by eapply job_fresh.
Qed.

Lemma find_waiting_spec s c id : find_waiting s c = Some id →
  ∃ j, cs_heap s !! id = Some j ∧ j_state j = IPC_RPC_COOP_ST_NESTED_RECV ∧ j_nest_cookie j = c.
Proof.
  unfold find_waiting. destruct (list_find _ _) as [[i x]|] eqn:Ef; [|done]. intros [= <-].
  apply list_find_Some in Ef as (_ & Hw & _). cbn. destruct (cs_heap s !! x) as [j|]; [|done].
  exists j. unfold waits_for in Hw. apply andb_true_iff in Hw as [Hw1%bool_decide_eq_true Hw2%Z.eqb_eq]. done.
Qed.

Lemma nest_resp_steps resume s msg b s' : inv (vw s) → resume_ok resume →
  ipc_rpc_coop_try_apply_nest_resp resume s msg = (b, s') → rtc coop_step (vw s) (vw s').
Proof.
  intros Hinv Hres. unfold ipc_rpc_coop_try_apply_nest_resp. destruct msg as [km|]; [|by intros [= <- <-]].
  destruct (negb _); [by intros [= <- <-]|].
  destruct (ipc_serial_decode _ _) as [[|[] [|[] []]]|]; try by intros [= <- <-].
  destruct (find_waiting s _) as [id|] eqn:Ef; [|by intros [= <- <-]].
  destruct (find_waiting_spec _ _ _ Ef) as (j & Hj & Hst & _).
  pose proof (take_nested_step _ _ _ s id j v0 Hinv Hj Hst) as H1. set (s1 := take_nested s id v0) in *.
  assert (is_Some (cs_heap s1 !! id)) as Hj1.
  { unfold s1, take_nested, ipc_rpc_coop_nested_clear. cbn. by rewrite !lookup_alter_eq, Hj. }
  pose proof (job_step_inv _ _ _ _ _ _ Hinv H1) as Hinv1.
  intros [= <- <-]. eapply rtc_l; [by eapply cs_job|]. destruct resume as [f|]; [by apply Hres|].
  destruct Hj1 as [j1 Hj1]. eapply rtc_once, cs_job, (set_result_step _ _ _ s1 id j1); done.
Qed.

(** ** Requests that are not refused

    A request that the server refuses is answered past the queue of jobs, with
    [ipc_rpc_reply].  It refuses a message of another service, and one for which
    it gets no memory; without the name of a reply port there is nobody to
    answer. *)
Definition not_refused (closed : Z) (port : message_port) (msg : ptr kmsg_t) : Prop :=
  match msg with
  | None => True
  | Some km =>
      km_opcode km = IPC_RPC_NEST_RESP_OPCODE ∨ linux_ipc_kmsg_is_port_closed closed port msg = true
      ∨ km_module km = module ∨ nonempty (km_reply_port km) = false
  end.
Definition turn_ok (closed : Z) (port : message_port) (lt : loop_turn) : Prop :=
  Forall (not_refused closed port) (lt_first lt ++ lt_second lt).

Context (jobs_memory : ∀ l (e : E), is_Some (core_job l e).1).

Lemma refuse_silent fuel (t : thread_io E) km name r : nonempty name = false →
  nonempty (match km with Some km => km_reply_port km | None => name end) = false →
  ipc_rpc_reply fuel t km name module resp_opcode resp_fmt r = Some t.
Proof. intros H1 H2. unfold ipc_rpc_reply. rewrite H1. cbv zeta. by rewrite H2. Qed.

(** With memory, a job is made for every request with a reply port. *)
Lemma job_create_some s name s' : cs_inited s = true → ipc_rpc_coop_job_create s name = (None, s') → nonempty name = false ∧ s' = s.
Proof.
  intros Hi. unfold ipc_rpc_coop_job_create, nonempty. destruct name as [name|]; [|by intros [= <-]].
  rewrite Hi. cbn [negb orb]. destruct (is_nul name 0); [by intros [= <-]|].
  pose proof (jobs_memory (cs_jobs s) (t_core (cs_io s))) as [a Ha].
  destruct (core_job _ _) as [r e]. cbn in Ha. by subst r.
Qed.

Lemma accept_steps fuel closed port handler resume s msg : inv (vw s) → cs_inited s = true → handler_ok handler →
  not_refused closed port msg → (ipc_rpc_coop_try_apply_nest_resp resume s msg).1 = false →
  ∃ b s', ipc_rpc_coop_accept_one module resp_opcode resp_fmt fuel closed port handler s msg = Some (b, s')
    ∧ rtc coop_step (vw s) (vw s').
Proof.
  intros Hinv Hi Hh Hnr Hna. unfold ipc_rpc_coop_accept_one.
  destruct (linux_ipc_kmsg_is_port_closed closed port msg) eqn:Hcl; [by eexists _, _|].
  destruct msg as [km|]; [|rewrite refuse_silent by done; eexists _, _; split; [done|]; by rewrite vw_set_io].
  cbn [ipc_rpc_coop_try_apply_nest_resp not_refused] in *.
  destruct (Z.eqb_spec (km_opcode km) IPC_RPC_NEST_RESP_OPCODE) as [|Hop]; cbn [negb] in Hna.
  { exfalso. by repeat case_match. }
  destruct Hnr as [|[|Hnr]]; [done|congruence|].
  destruct (Z.eqb_spec (km_module km) module) as [Hmod|Hmod]; cbn [negb].
  2:{ destruct Hnr as [|Hnr]; [done|]. rewrite refuse_silent by done.
      eexists _, _. split; [done|]. by rewrite vw_set_io. }
  destruct (ipc_rpc_coop_job_create s (km_reply_port km)) as [[id|] s1] eqn:Ec.
  2:{ destruct (job_create_some _ _ _ Hi Ec) as [Hn ->]. rewrite refuse_silent by done.
      eexists _, _. split; [done|]. by rewrite vw_set_io. }
  destruct (job_create_steps _ _ _ _ Ec) as [H1 Hj1]. pose proof (coop_steps_inv _ _ Hinv H1) as Hinv1.
  destruct (handler id (km_opcode km) km s1) as [[disp r] s2] eqn:Eh.
  destruct (Hh _ _ _ _ _ _ _ Hinv1 (Hj1 id eq_refl) Eh) as [H2 Hj2].
  pose proof (coop_steps_inv _ _ Hinv1 H2) as Hinv2. eexists _, _. split; [done|]. etrans; [exact H1|]. etrans; [exact H2|].
  destruct disp; [|done|].
  - destruct (Hj2 ltac:(done)) as [j2 Hj2']. rewrite Hj2'. case_bool_decide; [by apply poll_steps|].
    pose proof (set_result_step _ _ _ s2 id j2 r Hinv2 Hj2') as H3.
    eapply rtc_l; [by eapply cs_job|]. apply poll_steps. by eapply job_step_inv.
  - destruct (Hj2 ltac:(done)) as [j2 Hj2']. apply rtc_once. eapply cs_job, (release_step _ _ _ s2 id j2); done.
Qed.

(** Steps keep the invariant and the queue in use. *)
Lemma steps_kept s s' : inv (vw s) → cs_inited s = true → rtc coop_step (vw s) (vw s') → inv (vw s') ∧ cs_inited s' = true.
Proof.
  intros Hinv Hi Hs. split; [by eapply coop_steps_inv|].
  change (cs_inited s') with (v_inited (vw s')). by rewrite (coop_steps_inited _ _ Hs).
Qed.

Lemma drain_steps fuel closed port resume handler msgs s : inv (vw s) → cs_inited s = true → resume_ok resume →
  handler_ok handler → Forall (not_refused closed port) msgs →
  ∃ s', ipc_rpc_coop_drain_recv module resp_opcode resp_fmt fuel closed port resume handler s msgs = Some s'
    ∧ rtc coop_step (vw s) (vw s').
Proof.
  intros Hinv Hi Hr Hh Hm. revert s Hinv Hi. induction Hm as [|msg msgs Hmsg _ IH]; intros s Hinv Hi; [by eexists|].
  cbn [ipc_rpc_coop_drain_recv].
  pose proof (accept_steps fuel closed port handler resume s msg Hinv Hi Hh Hmsg) as Hacc.
  destruct (ipc_rpc_coop_try_apply_nest_resp resume s msg) as [b s1] eqn:En.
  pose proof (nest_resp_steps _ _ _ _ _ Hinv Hr En) as H1. destruct b.
  - destruct (steps_kept _ _ Hinv Hi H1) as [Hinv1 Hi1]. destruct (IH s1 Hinv1 Hi1) as (s' & -> & H2).
    eexists. split; [done|]. by etrans.
  - assert (s1 = s) as ->.
    { unfold ipc_rpc_coop_try_apply_nest_resp in En. by repeat case_match; simplify_eq. }
    destruct (Hacc eq_refl) as (b & s2 & -> & H2). destruct (steps_kept _ _ Hinv Hi H2) as [Hinv2 Hi2].
    destruct b; [by eexists|]. destruct (IH s2 Hinv2 Hi2) as (s' & -> & H3). eexists. split; [done|]. by etrans.
Qed.

Lemma turn_steps fuel closed port resume handler s lt : inv (vw s) → cs_inited s = true → resume_ok resume →
  handler_ok handler → turn_ok closed port lt →
  ∃ s', coop_server_turn module resp_opcode resp_fmt fuel closed port resume handler s lt = Some s'
    ∧ rtc coop_step (vw s) (vw s').
Proof.
  intros Hinv Hi Hr Hh [Hm1 Hm2]%list.Forall_app. unfold coop_server_turn.
  pose proof (poll_steps s Hinv) as H1. destruct (steps_kept _ _ Hinv Hi H1) as [Hinv1 Hi1].
  destruct (drain_steps fuel closed port resume handler (lt_first lt) (poll s) Hinv1 Hi1 Hr Hh Hm1) as (s2 & -> & H2).
  cbn [mbind option_bind]. destruct (steps_kept _ _ Hinv1 Hi1 H2) as [Hinv2 Hi2].
  pose proof (poll_steps s2 Hinv2) as H3. destruct (steps_kept _ _ Hinv2 Hi2 H3) as [Hinv3 Hi3].
  destruct (drain_steps fuel closed port resume handler (lt_second lt) (poll s2) Hinv3 Hi3 Hr Hh Hm2) as (s4 & -> & H4).
  assert (∀ s', s' = poll s2 ∨ s' = s4 → ∃ s0, Some s' = Some s0 ∧ rtc coop_step (vw s) (vw s0)) as Hend.
  { intros s0 Hs0. eexists. split; [done|]. etrans; [exact H1|]. etrans; [exact H2|]. etrans; [exact H3|].
    destruct Hs0 as [->| ->]; done. }
  destruct (lt_try lt); try (apply Hend; by auto); destruct (lt_extra lt || _); try (apply Hend; by auto);
    destruct (lt_recv lt); apply Hend; auto.
Qed.

Lemma loop_steps fuel closed port resume handler turns s : inv (vw s) → cs_inited s = true → resume_ok resume →
  handler_ok handler → Forall (turn_ok closed port) turns →
  ∃ s', ipc_rpc_coop_server_loop module resp_opcode resp_fmt fuel closed port resume handler s turns = Some s'
    ∧ rtc coop_step (vw s) (vw s').
Proof.
  intros Hinv Hi Hr Hh Ht. revert s Hinv Hi. induction Ht as [|lt turns Hlt _ IH]; intros s Hinv Hi; [by eexists|].
  cbn [ipc_rpc_coop_server_loop]. rewrite Hi.
  destruct (turn_steps fuel closed port resume handler s lt Hinv Hi Hr Hh Hlt) as (s1 & -> & H1). cbn [mbind option_bind].
  destruct (steps_kept _ _ Hinv Hi H1) as [Hinv1 Hi1]. destruct (IH s1 Hinv1 Hi1) as (s' & -> & H2).
  eexists. split; [done|]. by etrans.
Qed.

End runs.
