(* ===== verification/RpcCoopLive.v ===== *)
(** * Answers are sent when the clients take them *)

From stdpp Require Import base numbers list strings gmap option relations.
From Stdlib Require Import Ascii.
From S2P Require Import Prelude PortNames Rpc RpcCoop RpcThm RpcCoopInv RpcCoopStep RpcCoopThm.

(** A core that finds every port, has memory, and whose ports take messages. *)
Class CoreAccepts (E : Type) `{C : Core E} : Prop := {
  accept_lookup n e : is_Some (core_lookup n e).1;
  accept_alloc e : (core_alloc e).1 = true;
  accept_enqueue e : (core_enqueue e).1 = REND_SUCCESS;
  accept_send b n e : (core_send b n e).1.1 = REND_SUCCESS;
}.

Section live.
Context `{SE : IpcSerial} `{!IpcSerialLaws} {E : Type} `{C : Core E} `{!CoreLaws E} `{!CoreAccepts E}.
Context (module resp_opcode : Z) (resp_fmt : ptr cstr).
Implicit Types (s : coop_queue E) (id : Z) (j : ipc_rpc_coop_job) (v : coop_view) (m : kmsg_t) (t : thread_io E).
Abbreviation inv := (coop_inv module resp_opcode resp_fmt).
Abbreviation jstep := (job_step module resp_opcode resp_fmt).
Abbreviation jsteps id := (rtc (λ v v', jstep v id v')).
Abbreviation poll1 := (poll_one module resp_opcode resp_fmt).
Abbreviation answer := (answer_of module resp_opcode resp_fmt).
Hypothesis Hencode : ∀ r, is_Some (ipc_serial_encode (default IPC_RPC_RESP_FMT_DEFAULT resp_fmt) [AQ (i64 r)]).

(** ** What a step leaves alone *)

Lemma jstep_frame v id v' i : jstep v id v' → i ≠ id → v_heap v' !! i = v_heap v !! i.
Proof.
  intros [|j j' o n q l _ _ _ _|o q _] Hi; [done|..]; cbn.
  - by rewrite lookup_insert_ne.
  - by rewrite lookup_delete_ne.
Qed.

Lemma jsteps_frame v id v' i : jsteps id v v' → i ≠ id → v_heap v' !! i = v_heap v !! i.
Proof. intros Hs Hi. induction Hs as [|v1 v2 v3 H1 _ IH]; [done|]. rewrite IH. by eapply jstep_frame. Qed.

Lemma coop_step_log v v' : coop_step module resp_opcode resp_fmt v v' → v_log v `prefix_of` v_log v'.
Proof.
  intros [id v1 [|j j' o n q l _ _ _ Hl|o q _]|id name _]; try done.
  destruct Hl as [->|[(m & -> & _)|(p & m & -> & _)]]; cbn; [done|by apply prefix_app_r..].
Qed.

Lemma coop_steps_log v v' : rtc (coop_step module resp_opcode resp_fmt) v v' → v_log v `prefix_of` v_log v'.
Proof. induction 1 as [|v1 v2 v3 H1 _ IH]; [done|]. etrans; [by eapply coop_step_log|done]. Qed.

(** ** One job *)

Lemma accepted_lookup s n : ∃ p s', coop_lookup s n = (Some p, s').
Proof.
  unfold coop_lookup, thread_lookup_port. pose proof (accept_lookup n (t_core (cs_io s))) as [p Hp].
  destruct (core_lookup n _) as [p' e]. cbn in Hp. subst. eauto.
Qed.

Lemma accepted_send t b p : (send_to t b p).1 = REND_SUCCESS.
Proof.
  unfold send_to. pose proof (accept_send b (po_name p) (t_core t)) as Hs.
  destruct (core_send _ _ _) as [[err k] e]. cbn in Hs. by subst.
Qed.

Lemma accepted_enqueue s m : (ipc_rpc_coop_enqueue_kmsg s (Some m)).1 = REND_SUCCESS.
Proof.
  unfold ipc_rpc_coop_enqueue_kmsg, alloc_ok, enqueue_msg_for_send.
  pose proof (accept_alloc (t_core (cs_io s))) as Ha. destruct (core_alloc _) as [b e]. cbn in Ha. subst.
  cbn. pose proof (accept_enqueue e) as He. destruct (core_enqueue e) as [err e']. cbn in He. by subst.
Qed.

Lemma accepted_queue_reply s id j : (queue_reply module resp_opcode resp_fmt s id j).1 = None.
Proof.
  unfold queue_reply. destruct (j_queued j); [done|].
  destruct (accepted_lookup s (j_reply_port j)) as (p & s1 & ->).
  unfold kmsg_create. destruct (Hencode (j_result j)) as [b ->]. unfold alloc_ok.
  pose proof (accept_alloc (t_core (cs_io s1))) as Ha. destruct (core_alloc _) as [ok e]. cbn in Ha. subst.
  match goal with |- context [ipc_rpc_coop_enqueue_kmsg ?s2 (Some ?m)] =>
    pose proof (accepted_enqueue s2 m) as He; destruct (ipc_rpc_coop_enqueue_kmsg s2 (Some m)) as [err s3] end.
  cbn in He. by subst.
Qed.

(** A job with a result that can use the slot is answered and ends. *)
Lemma poll_answers s id j : inv (vw s) → cs_heap s !! id = Some j → j_state j = IPC_RPC_COOP_ST_NEED_REPLY →
  cs_owner s = None ∨ cs_owner s = Some id →
  cs_heap (poll1 s id) !! id = None ∧ cs_owner (poll1 s id) = None
  ∧ ∃ m, answer j m ∧ (j_reply_port j, m) ∈ t_log (cs_io (poll1 s id)).
Proof.
  intros Hinv Hj Hst Ho. unfold poll_one, ipc_rpc_coop_try_client_reply. rewrite Hj, Hst.
  rewrite (bool_decide_false (_ ≠ _)) by (by intros []).
  assert (bool_decide (cs_owner s ≠ None) && bool_decide (cs_owner s ≠ Some id) = false) as ->.
  { apply andb_false_iff. destruct Ho as [->| ->]; [left|right]; by rewrite bool_decide_eq_false; intros []. }
  pose proof (accepted_queue_reply s id j) as Hq.
  destruct (queue_reply module resp_opcode resp_fmt s id j) as [r s1] eqn:Eq. cbn in Hq. subst r.
  destruct (queue_reply_step _ _ _ _ _ _ _ _ Hinv Hj Hst Ho Eq) as [[? _]|(_ & Hstep & [Hj1 Ho1] & _)]; [done|].
  pose proof (job_step_inv _ _ _ _ _ _ Hinv Hstep) as Hinv1.
  destruct (accepted_lookup s1 (j_reply_port j)) as (p & s2 & El). rewrite El.
  destruct (coop_lookup_spec _ _ _ _ El) as (Hv2 & Hh2 & Ho2 & Hn2). rewrite <- Hv2 in Hinv1.
  rewrite <- Hh2 in Hj1. rewrite <- Ho2 in Ho1.
  destruct (slot_job _ _ _ (vw s2) id _ (inv_slot _ _ _ _ Hinv1) Hj1) as [H1 _].
  destruct (H1 Ho1) as (_ & m & Hm & Hp). unfold payload_of in Hp. cbn in Hm, Hp. rewrite Hst in Hp.
  unfold ipc_try_send_msg. pose proof (accepted_send (cs_io s2) false p) as Hs.
  destruct (send_to (cs_io s2) false p) as [err io] eqn:Es. cbn in Hs. subst err.
  destruct (send_cases _ _ _ _ _ _ Hm Es) as [(_ & Hq' & Hl)|[[? _]|[? _]]]; [|done..].
  set (s3 := slot_sent (set_io s2 io) id).
  assert (cs_owner s3 = None) as Ho3 by done.
  assert (ipc_rpc_coop_clear_send_owner s3 id = s3) as Hc.
  { unfold ipc_rpc_coop_clear_send_owner. by rewrite decide_False by done. }
  unfold ipc_rpc_coop_job_release. rewrite Hc. split_and!; [cbn; apply lookup_delete_eq|done|].
  exists m. split; [done|]. cbn. rewrite Hl, (Hn2 _ eq_refl). apply elem_of_app. right. by apply list_elem_of_singleton.
Qed.

(** A job whose request is in the slot sends it. *)
Lemma poll_sends s id j : inv (vw s) → cs_heap s !! id = Some j → j_state j = IPC_RPC_COOP_ST_NESTED_SEND →
  cs_owner s = Some id →
  cs_owner (poll1 s id) = None ∧ ∃ j', cs_heap (poll1 s id) !! id = Some j' ∧ j_state j' = IPC_RPC_COOP_ST_NESTED_RECV.
Proof.
  intros Hinv Hj Hst Ho. unfold poll_one. rewrite Hj, Hst, bool_decide_false by (rewrite Ho; by intros []).
  destruct (accepted_lookup s (j_nested_server j)) as (p & s1 & El). rewrite El.
  destruct (coop_lookup_spec _ _ _ _ El) as (_ & Hh & _ & _).
  unfold nested_send, ipc_try_send_msg. pose proof (accepted_send (cs_io s1) false p) as Hs.
  destruct (send_to (cs_io s1) false p) as [err io]. cbn in Hs. subst err. cbn. split; [done|].
  rewrite !lookup_alter_eq, Hh, Hj. by eexists.
Qed.

(** ** Passes *)

(** The job is in a state where a pass has nothing to send for it, or it does
    not exist. *)
Definition settled s id : Prop :=
  ∀ j, cs_heap s !! id = Some j → j_state j ≠ IPC_RPC_COOP_ST_NEED_REPLY.

Lemma poll_owner s id : inv (vw s) → cs_owner s = None ∨ cs_owner s = Some id → cs_owner (poll1 s id) = None.
Proof.
  intros Hinv Ho. destruct (cs_heap s !! id) as [j|] eqn:Hj.
  - destruct (j_state j) eqn:Hst.
    + unfold poll_one. rewrite Hj, Hst. destruct Ho as [Ho|Ho]; [done|].
      destruct (slot_job _ _ _ (vw s) id j (inv_slot _ _ _ _ Hinv) Hj) as [H1 _].
      destruct (H1 Ho) as (_ & m & _ & Hp). unfold payload_of in Hp. by rewrite Hst in Hp.
    + by destruct (poll_answers s id j Hinv Hj Hst Ho) as (_ & ? & _).
    + destruct Ho as [Ho|Ho]; [|by destruct (poll_sends s id j Hinv Hj Hst Ho)].
      unfold poll_one. by rewrite Hj, Hst, bool_decide_true by (by rewrite Ho).
    + unfold poll_one. rewrite Hj, Hst. destruct Ho as [Ho|Ho]; [done|].
      destruct (slot_job _ _ _ (vw s) id j (inv_slot _ _ _ _ Hinv) Hj) as [H1 _].
      destruct (H1 Ho) as (_ & m & _ & Hp). unfold payload_of in Hp. by rewrite Hst in Hp.
  - unfold poll_one. rewrite Hj. destruct Ho as [Ho|Ho]; [done|].
    pose proof (inv_slot _ _ _ _ Hinv) as Hs. unfold slot_inv in Hs. cbn in Hs. rewrite Ho in Hs.
    destruct Hs as (j & _ & Hj' & _). congruence.
Qed.

(** A job that cannot use the slot is left alone. *)
Lemma poll_busy s id o : cs_owner s = Some o → o ≠ id → poll1 s id = s.
Proof.
  intros Ho Hne. unfold poll_one. destruct (cs_heap s !! id) as [j|] eqn:Hj; [|done].
  destruct (j_state j) eqn:Hst; try done.
  - unfold ipc_rpc_coop_try_client_reply. rewrite Hj, Hst, (bool_decide_false (_ ≠ _)) by (by intros []).
    rewrite Ho, !bool_decide_true by congruence. done.
  - rewrite Ho. by rewrite bool_decide_true by congruence.
Qed.

Lemma fold_owner l s : inv (vw s) → (∀ o, cs_owner s = Some o → o ∈ l) → cs_owner (fold_left poll1 l s) = None.
Proof.
  revert s. induction l as [|a l IH]; intros s Hinv Ho; cbn.
  - destruct (cs_owner s) as [o|]; [|done]. exfalso. by apply (not_elem_of_nil o), (Ho o).
  - assert (inv (vw (poll1 s a))) as Hinv1 by (eapply jsteps_inv; [done|by apply poll_job_steps]).
    apply IH; [done|]. intros o Ho1. destruct (cs_owner s) as [o'|] eqn:Eo.
    + destruct (decide (o' = a)) as [->|Hne].
      * rewrite (poll_owner s a Hinv) in Ho1 by auto. done.
      * rewrite (poll_busy s a o' Eo Hne) in Ho1. rewrite Eo in Ho1. injection Ho1 as <-.
        specialize (Ho o' eq_refl). by apply elem_of_cons in Ho as [?|?].
    + rewrite (poll_owner s a Hinv) in Ho1 by auto. done.
Qed.

Lemma poll_settled s id i : inv (vw s) → cs_owner s = None → i = id ∨ settled s i → settled (poll1 s id) i.
Proof.
  intros Hinv Ho Hi. destruct (decide (i = id)) as [->|Hne].
  - intros j'. destruct (cs_heap s !! id) as [j|] eqn:Hj.
    + destruct (j_state j) eqn:Hst.
      1,4: unfold poll_one; rewrite Hj, Hst; rewrite Hj; intros [= <-]; congruence.
      * destruct (poll_answers s id j Hinv Hj Hst (or_introl Ho)) as (-> & _). done.
      * unfold poll_one. rewrite Hj, Hst, bool_decide_true by (by rewrite Ho). rewrite Hj. intros [= <-]. congruence.
    + unfold poll_one. rewrite Hj. by rewrite Hj.
  - intros j'. change (cs_heap (poll1 s id) !! i) with (v_heap (vw (poll1 s id)) !! i).
    rewrite (jsteps_frame _ _ _ _ (poll_job_steps _ _ _ s id Hinv) Hne). destruct Hi; [done|auto].
Qed.

Lemma fold_settled l s i : inv (vw s) → cs_owner s = None → i ∈ l ∨ settled s i → settled (fold_left poll1 l s) i.
Proof.
  revert s. induction l as [|a l IH]; intros s Hinv Ho Hi; cbn.
  - destruct Hi as [Hi|Hi]; [by apply not_elem_of_nil in Hi|done].
  - apply IH; [eapply jsteps_inv; [done|by apply poll_job_steps]|apply poll_owner; auto|].
    destruct Hi as [[->|Hi]%elem_of_cons|Hi]; [right|by left|right]; apply poll_settled; auto.
Qed.

(** A job with a result keeps it until its answer is delivered. *)
Definition kept_or_sent s id j : Prop :=
  cs_heap s !! id = Some j
  ∨ cs_heap s !! id = None ∧ ∃ m, answer j m ∧ (j_reply_port j, m) ∈ t_log (cs_io s).

Lemma poll_kept s a id j : inv (vw s) → j_state j = IPC_RPC_COOP_ST_NEED_REPLY → kept_or_sent s id j →
  kept_or_sent (poll1 s a) id j.
Proof.
  intros Hinv Hst Hk. pose proof (poll_job_steps module resp_opcode resp_fmt s a Hinv) as Hs.
  destruct Hk as [Hj|(Hj & m & Hm & Hin)].
  - destruct (decide (id = a)) as [->|Hne].
    + assert ((∃ o, cs_owner s = Some o ∧ o ≠ a) ∨ cs_owner s = None ∨ cs_owner s = Some a) as [(o & Ho & Hne)|Ho].
      { destruct (cs_owner s) as [o|]; [|auto]. destruct (decide (o = a)) as [->|]; eauto. }
      * left. by rewrite (poll_busy s a o Ho Hne).
      * right. destruct (poll_answers s a j Hinv Hj Hst Ho) as (? & _ & ?). done.
    + left. change (cs_heap (poll1 s a) !! id) with (v_heap (vw (poll1 s a)) !! id).
      by rewrite (jsteps_frame _ _ _ _ Hs Hne).
  - right. split.
    + destruct (decide (id = a)) as [->|Hne]; [unfold poll_one; by rewrite Hj|].
      change (cs_heap (poll1 s a) !! id) with (v_heap (vw (poll1 s a)) !! id).
      by rewrite (jsteps_frame _ _ _ _ Hs Hne).
    + exists m. split; [done|]. destruct (coop_steps_log _ _ (jsteps_coop _ _ _ _ _ _ Hs)) as [k Hk].
      cbn in Hk. rewrite Hk. apply elem_of_app. by left.
Qed.

Lemma fold_kept l s id j : inv (vw s) → j_state j = IPC_RPC_COOP_ST_NEED_REPLY → kept_or_sent s id j →
  kept_or_sent (fold_left poll1 l s) id j.
Proof.
  revert s. induction l as [|a l IH]; intros s Hinv Hst Hk; cbn; [done|].
  apply IH; [eapply jsteps_inv; [done|by apply poll_job_steps]|done|by apply poll_kept].
Qed.

(** Two passes answer every job that has a result. *)
Lemma two_polls s id j : inv (vw s) → cs_inited s = true → cs_heap s !! id = Some j →
  j_state j = IPC_RPC_COOP_ST_NEED_REPLY →
  let s' := ipc_rpc_coop_queue_poll module resp_opcode resp_fmt (ipc_rpc_coop_queue_poll module resp_opcode resp_fmt s) in
  cs_heap s' !! id = None ∧ ∃ m, answer j m ∧ (j_reply_port j, m) ∈ t_log (cs_io s').
Proof.
  intros Hinv Hi Hj Hst. cbv zeta. set (s1 := ipc_rpc_coop_queue_poll module resp_opcode resp_fmt s).
  assert (s1 = fold_left poll1 (cs_jobs s) s) as Hs1 by (unfold s1, ipc_rpc_coop_queue_poll; by rewrite Hi).
  clearbody s1. subst s1. set (s1 := fold_left poll1 (cs_jobs s) s).
  assert (inv (vw s1)) as Hinv1 by (eapply coop_steps_inv; [done|by apply fold_poll_steps]).
  assert (cs_owner s1 = None) as Ho1.
  { apply fold_owner; [done|]. intros o Ho. apply (inv_dom _ _ _ _ Hinv o).
    pose proof (inv_slot _ _ _ _ Hinv) as Hs. unfold slot_inv in Hs. cbn in Hs. rewrite Ho in Hs.
    destruct Hs as (j0 & _ & Hj0 & _). cbn. by rewrite Hj0. }
  pose proof (fold_kept (cs_jobs s) s id j Hinv Hst (or_introl Hj)) as Hk1. fold s1 in Hk1.
  unfold ipc_rpc_coop_queue_poll. destruct (cs_inited s1) eqn:Hi1; cbn [negb].
  2:{ pose proof (coop_steps_inited _ _ _ _ _ (fold_poll_steps _ _ _ (cs_jobs s) s Hinv)) as Hx.
      cbn in Hx. fold s1 in Hx. congruence. }
  pose proof (fold_kept (cs_jobs s1) s1 id j Hinv1 Hst Hk1) as [Hk|Hk]; [exfalso|done].
  assert (id ∈ cs_jobs s1 ∨ settled s1 id) as Hin.
  { destruct (cs_heap s1 !! id) as [j1|] eqn:E1; [left|right].
    - apply (inv_dom _ _ _ _ Hinv1 id). cbn. by rewrite E1.
    - intros j1. by rewrite E1. }
  by apply (fold_settled (cs_jobs s1) s1 id Hinv1 Ho1 Hin j Hk).
Qed.

End live.
