(* ===== verification/BackendIpc.v ===== *)
(** * Requests to backend servers ([servers/fs/vfs_backend_ipc.c])

    The VFS server asks a backend by a message whose opcode and format depend on
    the operation; the backend decodes it, serves it and answers: a nested call
    of the cooperative server by a transfer to its thread, any other caller on
    its reply port.  The pointers in a request are addresses of the one kernel
    address space. *)

From stdpp Require Import base numbers list strings gmap option relations.
From Stdlib Require Import Ascii.
From S2P Require Import Prelude PageSlice SliceTable VfsPath VfsInode VfsHandle Cpio Mount Namespace PortNames VfsOpen VfsCoop Rpc RpcCoop.

(** [vfs_backend_req_t] as it is sent, with addresses for pointers. *)
Record be_req : Type := BeReq {
  br_port : ptr cstr;
  br_op : vfs_backend_op;
  br_path : ptr cstr;
  br_path2 : ptr cstr;
  br_ino : Z;
  br_ino_out : Z;
  br_offset : Z;
  br_len : Z;
  br_buf : Z;
  br_wbuf : Z;
  br_size_arg : Z;
  br_mode_arg : Z;
  br_dir_index : Z;
  br_dirent_out : Z;
  br_readlink_buf : Z;
  br_readlink_cap : Z;
}.

(** ** Opcodes and formats *)

Section ipc.
Context `{SE : IpcSerial} {E : Type} `{C : Core E}.
(** [VFS_BACKEND_IPC_OPC_FIRST]: the first opcode after those of the core. *)
Context (OPC_FIRST : Z).

Definition vfs_backend_ipc_opcode (op : vfs_backend_op) : Z :=
  match op with
  | VFS_BACKEND_OP_LOOKUP => OPC_FIRST + 0
  | VFS_BACKEND_OP_READ => OPC_FIRST + 1
  | VFS_BACKEND_OP_WRITE => OPC_FIRST + 2
  | VFS_BACKEND_OP_TRUNCATE => OPC_FIRST + 3
  | VFS_BACKEND_OP_FLUSH => OPC_FIRST + 4
  | VFS_BACKEND_OP_READDIR => OPC_FIRST + 5
  | VFS_BACKEND_OP_READLINK => OPC_FIRST + 6
  | VFS_BACKEND_OP_MKDIR => OPC_FIRST + 7
  | VFS_BACKEND_OP_CREATE => OPC_FIRST + 8
  | VFS_BACKEND_OP_UNLINK => OPC_FIRST + 9
  | VFS_BACKEND_OP_RENAME => OPC_FIRST + 10
  | VFS_BACKEND_OP_LINK => OPC_FIRST + 11
  end.

(** [VFS_BE_CASES]: the format and the arguments of a request. *)
Definition vfs_be_cases (req : be_req) : cstr * list ser_arg :=
  match br_op req with
  | VFS_BACKEND_OP_LOOKUP => (str "sp", [AStr (br_path req); APtr (br_ino_out req)])
  | VFS_BACKEND_OP_READ =>
      (str "pqqp", [APtr (br_ino req); AQ (i64 (br_offset req)); AQ (i64 (br_len req)); APtr (br_buf req)])
  | VFS_BACKEND_OP_WRITE =>
      (str "pqqp", [APtr (br_ino req); AQ (i64 (br_offset req)); AQ (i64 (br_len req)); APtr (br_wbuf req)])
  | VFS_BACKEND_OP_TRUNCATE => (str "pq", [APtr (br_ino req); AQ (i64 (br_size_arg req))])
  | VFS_BACKEND_OP_FLUSH => (str "p", [APtr (br_ino req)])
  | VFS_BACKEND_OP_READDIR =>
      (str "sqp", [AStr (br_path req); AQ (i64 (br_dir_index req)); APtr (br_dirent_out req)])
  | VFS_BACKEND_OP_READLINK =>
      (str "spq", [AStr (br_path req); APtr (br_readlink_buf req); AQ (i64 (br_readlink_cap req))])
  | VFS_BACKEND_OP_MKDIR | VFS_BACKEND_OP_CREATE => (str "su", [AStr (br_path req); AU (br_mode_arg req)])
  | VFS_BACKEND_OP_UNLINK => (str "s", [AStr (br_path req)])
  | VFS_BACKEND_OP_RENAME | VFS_BACKEND_OP_LINK => (str "ss", [AStr (br_path req); AStr (br_path2 req)])
  end.

(** ** Sending *)

Definition vfs_backend_ipc_coop_nested (s : coop_queue E) (id : Z) (req : be_req) : error_t * coop_queue E :=
  match br_port req with
  | None => (E_IN_PARAM, s)
  | Some port =>
      let opc := vfs_backend_ipc_opcode (br_op req) in
      if opc =? 0 then (E_IN_PARAM, s)
      else let '(fmt, args) := vfs_be_cases req in ipc_rpc_coop_nested_call s id (Some port) opc fmt args
  end.

(** The tries of [vfs_coop_issue_nested] on the queue: the error of try [i] and
    whether the job is then in a nested state; before each later try other
    threads run, which changes what the core answers ([sched]). *)
Definition in_nested_state (s : coop_queue E) (id : Z) : bool :=
  match cs_heap s !! id with
  | Some j =>
      bool_decide (j_state j = IPC_RPC_COOP_ST_NESTED_SEND) || bool_decide (j_state j = IPC_RPC_COOP_ST_NESTED_RECV)
  | None => false
  end.

Fixpoint after_tries (sched : nat → E) (s : coop_queue E) (id : Z) (req : be_req) (i : nat) : coop_queue E :=
  match i with
  | O => s
  | S i =>
      let s := snd (vfs_backend_ipc_coop_nested (after_tries sched s id req i) id req) in
      set_io s (set_core (cs_io s) (sched i))
  end.

Definition nest_outcome (sched : nat → E) (s : coop_queue E) (id : Z) (req : be_req) (i : nat) : error_t * bool :=
  let '(e, s) := vfs_backend_ipc_coop_nested (after_tries sched s id req i) id req in (e, in_nested_state s id).

(** The blocking call of the thread [tid]; [created] and [registered] say how
    the making of a reply port goes. *)
Definition vfs_backend_ipc_call (ops : rpc_opcodes) (t : thread_io E) (tid : Z) (table registered : bool)
    (created : option message_port) (req : be_req) (signal : bool) (evs : list recv_event)
  : thread_io E * option Z :=
  match br_port req with
  | None => (t, Some (- LINUX_EINVAL))
  | Some port =>
      match vfs_backend_ipc_thread_reply_port tid with
      | None => (t, Some (- LINUX_ENOMEM))
      | Some name =>
          match ipc_rpc_port_lookup_or_create t (Some name) table registered created with
          | (None, t) => (t, Some (- LINUX_ENOMEM))
          | (Some reply, t) =>
              let opc := vfs_backend_ipc_opcode (br_op req) in
              if opc =? 0 then (t, Some (- LINUX_EINVAL))
              else
                let '(fmt, args) := vfs_be_cases req in
                ipc_rpc_call_named_uninterruptible ops t (Some port) (Some reply) opc fmt args signal evs
          end
      end
  end.

(** ** Serving *)

(** A request of which only the path is set. *)
Definition be_path op path : be_req := BeReq None op path None 0 0 0 0 0 0 0 0 0 0 0 0.

(** The operation of an opcode, with the format its request is decoded by. *)
Definition be_decode_fmt (op : vfs_backend_op) : cstr :=
  match op with
  | VFS_BACKEND_OP_LOOKUP => str "spt"
  | VFS_BACKEND_OP_READ => str "pqqpt"
  | VFS_BACKEND_OP_WRITE => str "pqqpt"
  | VFS_BACKEND_OP_TRUNCATE => str "pqt"
  | VFS_BACKEND_OP_FLUSH => str "pt"
  | VFS_BACKEND_OP_READDIR => str "sqpt"
  | VFS_BACKEND_OP_READLINK => str "spt"
  | VFS_BACKEND_OP_MKDIR => str "sut"
  | VFS_BACKEND_OP_CREATE => str "sut"
  | VFS_BACKEND_OP_UNLINK => str "st"
  | VFS_BACKEND_OP_RENAME => str "sst"
  | VFS_BACKEND_OP_LINK => str "sst"
  end.

Definition all_backend_ops : list vfs_backend_op :=
  [VFS_BACKEND_OP_LOOKUP; VFS_BACKEND_OP_READ; VFS_BACKEND_OP_WRITE; VFS_BACKEND_OP_TRUNCATE;
   VFS_BACKEND_OP_FLUSH; VFS_BACKEND_OP_READDIR; VFS_BACKEND_OP_READLINK; VFS_BACKEND_OP_MKDIR;
   VFS_BACKEND_OP_CREATE; VFS_BACKEND_OP_UNLINK; VFS_BACKEND_OP_RENAME; VFS_BACKEND_OP_LINK].

(** The [switch] on the opcode. *)
Definition op_of_opcode (opcode : Z) : option vfs_backend_op :=
  (λ p, p.2) <$> list_find (λ op, vfs_backend_ipc_opcode op = opcode) all_backend_ops.

(** The fields the decoded values are stored in, and the reply port.  The format
    for READLINK names three values and is given four places: the port name
    ends up, as the address [strp], in the place of the capacity, and the reply
    port is not set. *)
Definition be_fill (strp : Z) (op : vfs_backend_op) (vals : list ser_arg) : option (be_req * ptr cstr) :=
  match op, vals with
  | VFS_BACKEND_OP_LOOKUP, [AStr path; APtr ino_out; AStr rp] =>
      Some (BeReq None op path None 0 ino_out 0 0 0 0 0 0 0 0 0 0, rp)
  | VFS_BACKEND_OP_READ, [APtr ino; AQ offset; AQ len; APtr buf; AStr rp] =>
      Some (BeReq None op None None ino 0 (u64 offset) (u64 len) buf 0 0 0 0 0 0 0, rp)
  | VFS_BACKEND_OP_WRITE, [APtr ino; AQ offset; AQ len; APtr wbuf; AStr rp] =>
      Some (BeReq None op None None ino 0 (u64 offset) (u64 len) 0 wbuf 0 0 0 0 0 0, rp)
  | VFS_BACKEND_OP_TRUNCATE, [APtr ino; AQ size; AStr rp] =>
      Some (BeReq None op None None ino 0 0 0 0 0 (u64 size) 0 0 0 0 0, rp)
  | VFS_BACKEND_OP_FLUSH, [APtr ino; AStr rp] =>
      Some (BeReq None op None None ino 0 0 0 0 0 0 0 0 0 0 0, rp)
  | VFS_BACKEND_OP_READDIR, [AStr path; AQ index; APtr dirent_out; AStr rp] =>
      Some (BeReq None op path None 0 0 0 0 0 0 0 0 (u64 index) dirent_out 0 0, rp)
  | VFS_BACKEND_OP_READLINK, [AStr path; APtr buf; AStr _] =>
      Some (BeReq None op path None 0 0 0 0 0 0 0 0 0 0 buf strp, None)
  | (VFS_BACKEND_OP_MKDIR | VFS_BACKEND_OP_CREATE), [AStr path; AU mode; AStr rp] =>
      Some (BeReq None op path None 0 0 0 0 0 0 0 mode 0 0 0 0, rp)
  | VFS_BACKEND_OP_UNLINK, [AStr path; AStr rp] => Some (be_path op path, rp)
  | (VFS_BACKEND_OP_RENAME | VFS_BACKEND_OP_LINK), [AStr path; AStr path2; AStr rp] =>
      Some (BeReq None op path path2 0 0 0 0 0 0 0 0 0 0 0 0, rp)
  | _, _ => None
  end.

(** The result, and the reply port if it was set. *)
Definition vfs_backend_ipc_rpc_handler (strp opcode : Z) (km : kmsg_t) (service : be_req → Z) : ptr cstr * Z :=
  match op_of_opcode opcode with
  | None => (None, - LINUX_ENOSYS)
  | Some op =>
      match ipc_serial_decode (be_decode_fmt op) (km_payload km) ≫= be_fill strp op with
      | None => (None, - LINUX_EINVAL)
      | Some (req, rp) => (rp, service req)
      end
  end.

(** [vfs]: the VFS server's thread is known; [transfer]: how transfers to it
    go.  [None] while the answer is still being sent. *)
Definition vfs_backend_ipc_coop_adapt (fuel : nat) (vfs : bool) (transfer : nat → error_t * bool)
    (strp : Z) (service : option (be_req → Z)) (s : coop_queue E) (id opcode : Z) (km : kmsg_t)
  : option (ipc_rpc_coop_disp * Z * coop_queue E) :=
  match service with
  | None => Some (IPC_RPC_COOP_HANDLED, - LINUX_EIO, s)
  | Some service =>
      let '(rp, result) := vfs_backend_ipc_rpc_handler strp opcode km service in
      let reply := if nonempty rp then rp else j_reply_port <$> cs_heap s !! id in
      if ipc_rpc_is_nest_token reply then
        let cookie := ipc_rpc_nest_token_cookie reply in
        (λ p, (IPC_RPC_COOP_REPLIED, result, set_io s p.2))
          <$> ipc_rpc_nest_reply_transfer fuel (cs_io s) vfs transfer cookie result
      else
        (λ io, (IPC_RPC_COOP_REPLIED, result, set_io s io))
          <$> ipc_rpc_reply fuel (cs_io s) (Some km) reply (km_module km) IPC_RPC_RESP_OPCODE_DEFAULT
                (Some IPC_RPC_RESP_FMT_DEFAULT) result
  end.

(** ** Registration *)

(** The tag of the reply port: [reg_] and as much of the type as fits. *)
Definition register_tag (fstype : ptr cstr) : cstr :=
  let ft := match fstype with Some f => if is_nul f 0 then str "anon" else f | None => str "anon" end in
  str "reg_" ++ take (VFS_BACKEND_FSTYPE_MAX + 4 - 1 - 4) ft.

Definition vfs_backend_ipc_register (ops : rpc_opcodes) (t : thread_io E) (table registered : bool)
    (created : option message_port) (KMSG_OP_VFS_BACKEND_REGISTER : Z) (port_name fstype : ptr cstr)
    (caps reg_flags : Z) (signal : bool) (evs : list recv_event) : thread_io E * option Z :=
  match port_name with
  | None => (t, Some (- LINUX_EINVAL))
  | Some name =>
      if is_nul name 0 then (t, Some (- LINUX_EINVAL))
      else
        match vfs_backend_ipc_cli_port (Some (register_tag fstype)) with
        | None => (t, Some (- LINUX_ENOMEM))
        | Some reply_name =>
            match ipc_rpc_port_lookup_or_create t (Some reply_name) table registered created with
            | (None, t) => (t, Some (- LINUX_ENOMEM))
            | (Some reply, t) =>
                ipc_rpc_call_named_uninterruptible ops t (Some (str "vfs_listen")) (Some reply)
                  KMSG_OP_VFS_BACKEND_REGISTER (str "ssuu")
                  [AStr (Some name); AStr (Some (default [] fstype)); AU caps; AU reg_flags] signal evs
            end
        end
  end.

End ipc.
