(* ===== verification/BackendIpcThm.v ===== *)
(** * Requests to backends arrive as they were sent *)

From stdpp Require Import base numbers list strings gmap option relations.
From Stdlib Require Import Ascii.
From S2P Require Import Prelude PageSlice SliceTable VfsPath VfsInode VfsHandle Cpio Mount Namespace PortNames VfsOpen VfsCoop Rpc RpcCoop RpcThm RpcCoopInv RpcCoopStep RpcCoopThm RpcCoopLive BackendIpc.

(** ** What an operation uses of a request *)

Definition uses_path (op : vfs_backend_op) : bool :=
  negb (bool_decide (op ∈ [VFS_BACKEND_OP_READ; VFS_BACKEND_OP_WRITE; VFS_BACKEND_OP_TRUNCATE; VFS_BACKEND_OP_FLUSH])).
Definition uses_path2 (op : vfs_backend_op) : bool :=
  bool_decide (op ∈ [VFS_BACKEND_OP_RENAME; VFS_BACKEND_OP_LINK]).
Definition is_op (op op' : vfs_backend_op) : bool := bool_decide (op = op').

(** The fields of [req] its operation uses; the others are zero. *)
Definition wire_req (req : be_req) : be_req :=
  let op := br_op req in
  let rw := is_op op VFS_BACKEND_OP_READ || is_op op VFS_BACKEND_OP_WRITE in
  let keep (b : bool) (x : Z) := if b then x else 0 in
  BeReq None op
    (if uses_path op then br_path req else None)
    (if uses_path2 op then br_path2 req else None)
    (keep (negb (uses_path op)) (br_ino req))
    (keep (is_op op VFS_BACKEND_OP_LOOKUP) (br_ino_out req))
    (keep rw (br_offset req))
    (keep rw (br_len req))
    (keep (is_op op VFS_BACKEND_OP_READ) (br_buf req))
    (keep (is_op op VFS_BACKEND_OP_WRITE) (br_wbuf req))
    (keep (is_op op VFS_BACKEND_OP_TRUNCATE) (br_size_arg req))
    (keep (is_op op VFS_BACKEND_OP_MKDIR || is_op op VFS_BACKEND_OP_CREATE) (br_mode_arg req))
    (keep (is_op op VFS_BACKEND_OP_READDIR) (br_dir_index req))
    (keep (is_op op VFS_BACKEND_OP_READDIR) (br_dirent_out req))
    (keep (is_op op VFS_BACKEND_OP_READLINK) (br_readlink_buf req))
    (keep (is_op op VFS_BACKEND_OP_READLINK) (br_readlink_cap req)).

(** The 64-bit fields are in range. *)
Definition be_req_ok (req : be_req) : Prop :=
  Forall (λ x, 0 ≤ x < 2 ^ 64) [br_offset req; br_len req; br_size_arg req; br_dir_index req].

Lemma u64_i64 x : 0 ≤ x < 2 ^ 64 → u64 (i64 x) = x.
Proof.
  intros Hx. unfold uw, iw. change (64 - 1) with 63. rewrite Zminus_mod_idemp_l.
  replace (x + 2 ^ 63 - 2 ^ 63) with x by lia. by apply Z.mod_small.
Qed.

Section backend.
Context `{SE : IpcSerial} `{!IpcSerialLaws} {E : Type} `{C : Core E} `{!CoreLaws E}.
Context (OPC_FIRST : Z).
Implicit Types (req : be_req) (m : kmsg_t) (t : thread_io E).

Lemma op_of_opcode_inv op : op_of_opcode OPC_FIRST (vfs_backend_ipc_opcode OPC_FIRST op) = Some op.
Proof.
  assert (∀ op', vfs_backend_ipc_opcode OPC_FIRST op' = vfs_backend_ipc_opcode OPC_FIRST op → op' = op) as Hinj.
  { intros op' Heq. destruct op', op; cbn in Heq; (reflexivity || lia). }
  unfold op_of_opcode.
  destruct (list_find (λ op', vfs_backend_ipc_opcode OPC_FIRST op' = vfs_backend_ipc_opcode OPC_FIRST op)
    all_backend_ops) as [[i op']|] eqn:Ef; cbn.
  - apply list_find_Some in Ef as (_ & Heq & _). by rewrite (Hinj _ Heq).
  - apply list_find_None in Ef. rewrite list.Forall_forall in Ef. destruct (Ef op); [|done].
    destruct op; set_solver.
Qed.

(** For all operations but one the two formats agree. *)
Lemma decode_fmt_cases req : br_op req ≠ VFS_BACKEND_OP_READLINK →
  be_decode_fmt (br_op req) = (vfs_be_cases req).1 ++ [tag_t].
Proof. unfold vfs_be_cases. by destruct (br_op req). Qed.

Lemma decode_fmt_readlink req : br_op req = VFS_BACKEND_OP_READLINK →
  be_decode_fmt (br_op req) ≠ (vfs_be_cases req).1 ++ [tag_t].
Proof. intros Ho. unfold vfs_be_cases. rewrite Ho. done. Qed.

Lemma fill_cases strp req rp : be_req_ok req → br_op req ≠ VFS_BACKEND_OP_READLINK →
  be_fill strp (br_op req) ((vfs_be_cases req).2 ++ [AStr rp]) = Some (wire_req req, rp).
Proof.
  intros Hok Hne. unfold be_req_ok in Hok. rewrite !Forall_cons in Hok. destruct Hok as (H1 & H2 & H3 & H4 & _).
  destruct req as [port op path path2 ino ino_out offset len buf wbuf size mode index dent rbuf rcap].
  cbn in *. unfold wire_req, vfs_be_cases. destruct op; try done; cbn; by rewrite ?u64_i64.
Qed.

Lemma handler_request strp req mo reply m service : be_req_ok req →
  request_msg mo (vfs_backend_ipc_opcode OPC_FIRST (br_op req)) (vfs_be_cases req).1 reply (vfs_be_cases req).2 m →
  vfs_backend_ipc_rpc_handler OPC_FIRST strp (km_opcode m) m service =
    if is_op (br_op req) VFS_BACKEND_OP_READLINK then (None, - LINUX_EINVAL) else (Some reply, service (wire_req req)).
Proof.
  intros Hok (_ & -> & _ & Hd). unfold vfs_backend_ipc_rpc_handler, is_op. rewrite op_of_opcode_inv, Hd.
  case_bool_decide as Hop.
  - by rewrite decide_False by (by apply decode_fmt_readlink).
  - rewrite decide_True by (by apply decode_fmt_cases). cbn [mbind option_bind]. by rewrite fill_cases.
Qed.

(** ** The answer to a nested call *)

Definition nest_msg (cookie result : Z) m : Prop :=
  ∃ b, ipc_serial_encode IPC_RPC_NEST_RESP_FMT [AQ (i64 cookie); AQ (i64 result)] = Some b
    ∧ m = Kmsg 0 IPC_RPC_NEST_RESP_OPCODE b.

(** Whatever happens on the way, the one message delivered has the cookie and
    the result. *)
Lemma nest_transfer_spec loop transfer cookie r b t' i t :
  (∀ t0 i enq, Forall (nest_msg cookie r) (t_sendq t0) → (enq = true → t_sendq t0 ≠ []) →
     loop t0 i enq = Some (b, t') → b = true ∧ ∃ m, nest_msg cookie r m ∧ t_log t' = t_log t0 ++ [([], m)]) →
  Forall (nest_msg cookie r) (t_sendq t) → t_sendq t ≠ [] → nest_transfer loop transfer i t = Some (b, t') →
  b = true ∧ ∃ m, nest_msg cookie r m ∧ t_log t' = t_log t ++ [([], m)].
Proof.
  intros IH Ha Hne. unfold nest_transfer.
  assert (Forall (nest_msg cookie r) (tail (t_sendq t))) as Ht by (destruct Ha; done).
  destruct (transfer i) as [e kept].
  assert (∀ b0, loop (if (kept : bool) then t else ThreadIo (tail (t_sendq t)) (t_log t) (t_core t)) (S i) b0 = Some (b, t')
    → b0 = false → b = true ∧ ∃ m, nest_msg cookie r m ∧ t_log t' = t_log t ++ [([], m)]) as Hfail.
  { intros b0 Hr ->. eapply IH in Hr; [|by destruct kept|done]. by destruct kept. }
  destruct e; intros Hr; try by eapply Hfail in Hr.
  - destruct (t_sendq t) as [|m q]; [done|]. injection Hr as <- <-. apply Forall_cons in Ha as [Hm _]. eauto.
  - by eapply IH in Hr.
Qed.

Lemma nest_reply_loop_spec fuel transfer cookie r b t' : ∀ t i enq,
  Forall (nest_msg cookie r) (t_sendq t) → (enq = true → t_sendq t ≠ []) →
  nest_reply_loop fuel transfer cookie r t i enq = Some (b, t') →
  b = true ∧ ∃ m, nest_msg cookie r m ∧ t_log t' = t_log t ++ [([], m)].
Proof.
  induction fuel as [|fuel IH]; intros t i enq Hall Henq; [done|]. cbn [nest_reply_loop]. cbv zeta.
  destruct enq; [apply nest_transfer_spec; auto|].
  destruct (kmsg_create t _ _ _ _) as [[m|] t1] eqn:Ek; destruct (kmsg_create_spec _ _ _ _ _ _ _ Ek) as [[Hq1 Hl1] Hm].
  2:{ rewrite <- Hl1. apply IH; [by rewrite Hq1|done]. }
  destruct (alloc_ok t1) as [ok t2] eqn:Ea. destruct (alloc_io_eq _ _ _ Ea) as [Hq2 Hl2]. rewrite Hl1 in Hl2.
  destruct ok; [|rewrite <- Hl2; apply IH; [by rewrite Hq2, Hq1|done]].
  unfold enqueue_msg_for_send. destruct (core_enqueue (t_core t2)) as [err e]. rewrite <- Hl2.
  destruct err; [|by apply (IH (set_core t2 e)); [cbn; rewrite Hq2, Hq1|]..].
  apply (nest_transfer_spec _ _ _ _ _ _ _ (ThreadIo (t_sendq t2 ++ [m]) (t_log t2) e)); [done|cbn..].
  - rewrite Hq2, Hq1. apply Forall_app. split; [done|]. constructor; [by apply Hm|done].
  - by destruct (t_sendq t2).
Qed.

(** ** A busy slot *)

Lemma nested_busy s id j o req : cs_owner s = Some o → o ≠ id → cs_heap s !! id = Some j → is_Some (br_port req) →
  0 < OPC_FIRST → vfs_backend_ipc_coop_nested OPC_FIRST s id req = (E_REND_AGAIN, s).
Proof.
  intros Ho Hne Hj [p Hp] Hf. unfold vfs_backend_ipc_coop_nested. rewrite Hp, (proj2 (Z.eqb_neq _ _)).
  2:{ destruct (br_op req); cbn; lia. }
  destruct (vfs_be_cases req) as [fmt args]. unfold ipc_rpc_coop_nested_call. rewrite Hj, Ho.
  by rewrite !bool_decide_true by congruence.
Qed.

(** Trying again does not help: nothing the tries do gives up the slot. *)
Lemma busy_tries sched s id j o req i : cs_owner s = Some o → o ≠ id → cs_heap s !! id = Some j →
  is_Some (br_port req) → 0 < OPC_FIRST →
  let s' := after_tries OPC_FIRST sched s id req i in
  cs_owner s' = Some o ∧ cs_heap s' = cs_heap s ∧ io_eq (cs_io s) (cs_io s')
  ∧ nest_outcome OPC_FIRST sched s id req i = (E_REND_AGAIN, in_nested_state s id).
Proof.
  intros Ho Hne Hj Hp Hf. cbv zeta.
  assert (cs_owner (after_tries OPC_FIRST sched s id req i) = Some o
    ∧ cs_heap (after_tries OPC_FIRST sched s id req i) = cs_heap s
    ∧ io_eq (cs_io s) (cs_io (after_tries OPC_FIRST sched s id req i))) as (Ho' & Hh & Hio).
  { induction i as [|i (Ho' & Hh & Hio)]; cbn [after_tries]; [done|].
    rewrite (nested_busy _ id j o req) by (done || by rewrite Hh). by split_and!. }
  split_and!; [done..|]. unfold nest_outcome. rewrite (nested_busy _ id j o req) by (done || by rewrite Hh).
  unfold in_nested_state. by rewrite Hh.
Qed.

Lemma issue_tries_again nest i fuel : (∀ i, nest i = (E_REND_AGAIN, false)) → issue_tries nest i fuel = E_RENDEZVOS.
Proof. intros Hn. revert i. induction fuel as [|fuel IH]; intros i; cbn; [done|]. by rewrite Hn. Qed.

End backend.

Section answers.
Context `{SE : IpcSerial} `{!IpcSerialLaws} {E : Type} `{C : Core E} `{!CoreLaws E}.
Context (module resp_opcode : Z) (resp_fmt : ptr cstr).
Implicit Types (s : coop_queue E) (id : Z) (j : ipc_rpc_coop_job) (m : kmsg_t).
Abbreviation inv := (coop_inv module resp_opcode resp_fmt).

(** The cookie of a waiting job finds that job. *)
Lemma find_waiting_unique s id j : inv (vw s) → cs_heap s !! id = Some j →
  j_state j = IPC_RPC_COOP_ST_NESTED_RECV → find_waiting s (j_nest_cookie j) = Some id.
Proof.
  intros Hinv Hj Hst. destruct (find_waiting s (j_nest_cookie j)) as [x|] eqn:Ef.
  - destruct (find_waiting_spec _ _ _ Ef) as (jx & Hx & Hxs & Hxc). f_equal.
    apply (inv_unique _ _ _ _ Hinv x id jx j); try done; by right.
  - unfold find_waiting in Ef. destruct (list_find _ _) as [p|] eqn:El; [done|].
    apply list_find_None in El. rewrite list.Forall_forall in El. exfalso. apply (El id).
    + apply (inv_dom _ _ _ _ Hinv id). cbn. by rewrite Hj.
    + rewrite Hj. unfold waits_for. by rewrite Hst, Z.eqb_refl, bool_decide_true.
Qed.

Lemma apply_nest_answer resume s id j r m : inv (vw s) → cs_heap s !! id = Some j →
  j_state j = IPC_RPC_COOP_ST_NESTED_RECV → nest_msg (ipc_rpc_nest_token_cookie (Some (j_nest_token j))) r m →
  ipc_rpc_coop_try_apply_nest_resp resume s (Some m) =
    (true, match resume with
           | Some f => f id (i64 r) (take_nested s id (i64 r))
           | None => ipc_rpc_coop_job_set_result (take_nested s id (i64 r)) id (i64 r)
           end).
Proof.
  intros Hinv Hj Hst (b & Hb & ->). destruct (inv_cookie _ _ _ _ Hinv id j Hj (or_intror Hst)) as [Hc Htok].
  pose proof (inv_seq _ _ _ _ Hinv) as Hs. cbn in Hs, Hc.
  destruct (nest_token_name (j_nest_cookie j) ltac:(lia)) as (tk & Etok & _ & Hcookie & _).
  assert (tk = j_nest_token j) as -> by congruence. rewrite Hcookie in Hb.
  unfold ipc_rpc_coop_try_apply_nest_resp. cbn [km_opcode km_payload]. rewrite Z.eqb_refl. cbn [negb].
  rewrite (encode_decode _ _ _ Hb), u64_i64 by lia. by rewrite (find_waiting_unique s id j).
Qed.

(** The blocking answer of a refused request when the slot holds a message. *)
Lemma refuse_takes_slot `{!CoreAccepts E} fuel (t : thread_io E) m0 km name r :
  (∀ r, is_Some (ipc_serial_encode (default IPC_RPC_RESP_FMT_DEFAULT resp_fmt) [AQ (i64 r)])) → t_sendq t = [m0] →
  km_reply_port km = Some name → name ≠ [] → (length name < PORT_NAME_LEN_MAX)%nat →
  ∃ t' b, ipc_rpc_reply (S fuel) t (Some km) None module resp_opcode resp_fmt r = Some t'
    ∧ ipc_serial_encode (default IPC_RPC_RESP_FMT_DEFAULT resp_fmt) [AQ (i64 r)] = Some b
    ∧ t_log t' = t_log t ++ [(name, m0)] ∧ t_sendq t' = [Kmsg module resp_opcode b].
Proof.
  intros Henc Hq Hname Hne Hlen. unfold ipc_rpc_reply. cbn [nonempty]. rewrite Hname. cbn [nonempty].
  assert (is_nul name 0 = false) as Hnul by (by destruct name). rewrite Hnul. cbn [negb fmap option_fmap option_map].
  unfold strncpy_term. rewrite take_ge by (unfold PORT_NAME_LEN_MAX in *; lia).
  unfold ipc_rpc_send_reply. rewrite Hnul. cbn [send_reply_loop].
  destruct (thread_lookup_port t name) as [p t1] eqn:El. pose proof (accept_lookup name (t_core t)) as Hacc.
  assert (∃ port, p = Some port ∧ po_name port = name) as (port & -> & Hport).
  { unfold thread_lookup_port in El. destruct (core_lookup name (t_core t)) as [q e] eqn:Ec. cbn in Hacc.
    destruct Hacc as [port ->]. injection El as <- _. exists port. split; [done|by eapply lookup_name]. }
  apply lookup_io_eq in El as [Hq1 Hl1]. destruct (Henc r) as [b Hb]. unfold kmsg_create, alloc_ok. rewrite Hb.
  pose proof (accept_alloc (t_core t1)) as Ha1. destruct (core_alloc (t_core t1)) as [ok e1]. cbn in Ha1. subst ok.
  cbn [t_core set_core]. pose proof (accept_alloc e1) as Ha2. destruct (core_alloc e1) as [ok e2]. cbn in Ha2.
  subst ok. unfold enqueue_msg_for_send. cbn [t_core set_core t_sendq t_log].
  pose proof (accept_enqueue e2) as He. destruct (core_enqueue e2) as [err e3]. cbn in He. subst err.
  unfold send_msg, send_to. cbn [t_core t_sendq t_log].
  pose proof (accept_send true (po_name port) e3) as Hs. destruct (core_send _ _ e3) as [[err k] e4]. cbn in Hs.
  subst err. rewrite Hq1, Hq. cbn [app]. eexists _, b. split_and!; [done|done| |done].
  cbn. by rewrite Hl1, Hport.
Qed.

End answers.
