(* ===== verification/RpcDemo.v ===== *)
(** * A serializer and a core that satisfy the laws

    Concrete instances of the interfaces of [Rpc], on which the theorems about
    messages can be evaluated. *)

From stdpp Require Import base numbers list strings gmap option.
From Stdlib Require Import Ascii.
From S2P Require Import Prelude PortNames Rpc RpcThm RpcCoopLive.

(** ** A serializer *)

Definition demo_param (tag : ascii) (v : list Z) : option ser_arg :=
  if decide (tag = "s"%char ∨ tag = "t"%char) then Some (AStr (Some (nul_prefix v)))
  else if decide (tag = "p"%char) then Some (APtr (le_value v))
  else if decide (tag = "q"%char) then Some (AQ (i64 (le_value v)))
  else if decide (tag = "u"%char ∨ tag = "i"%char) then Some (AU (le_value v))
  else None.

Definition demo_bytes (a : ser_arg) : list Z :=
  match a with
  | AStr s => str_bytes (default [] s) ++ [0]
  | APtr p => le_bytes 8 p
  | AQ q => le_bytes 8 (u64 q)
  | AU u => le_bytes 4 u
  end.

(** An argument that does not fit its letter is refused. *)
Definition demo_value (tag : ascii) (a : ser_arg) : option (list Z) :=
  if decide (demo_param tag (demo_bytes a) = Some a) then Some (demo_bytes a) else None.

Fixpoint demo_values (fmt : cstr) (args : list ser_arg) : option (list (list Z)) :=
  match fmt, args with
  | [], [] => Some []
  | c :: fmt', a :: args' => v ← demo_value c a; vs ← demo_values fmt' args'; Some (v :: vs)
  | _, _ => None
  end.

Definition demo_encode (fmt : cstr) (args : list ser_arg) : option (list Z) :=
  vals ← demo_values fmt args;
  if decide (Z.of_nat (length (tlv fmt vals)) < 2 ^ 32) then Some (tlv fmt vals) else None.

Fixpoint demo_params (fmt : cstr) (bs : list Z) : option (list ser_arg) :=
  match fmt with
  | [] => Some []
  | c :: fmt' =>
      match bs with
      | [] => None
      | tag :: rest =>
          if decide (tag = byte_of c) then
            let n := Z.to_nat (le_value (take 4 rest)) in
            a ← demo_param c (take n (drop 4 rest));
            args ← demo_params fmt' (drop n (drop 4 rest));
            Some (a :: args)
          else None
      end
  end.

Definition demo_decode (fmt : cstr) (bs : list Z) : option (list ser_arg) :=
  if decide (le_value (take 4 bs) = Z.of_nat (length fmt)) then demo_params fmt (drop 4 bs) else None.

#[global] Instance demo_serial : IpcSerial :=
  {| ipc_serial_encode := demo_encode; ipc_serial_decode := demo_decode; ser_param := demo_param;
     KMSG_MAX_PAYLOAD := 4096 |}.

Lemma demo_values_spec fmt args vals : demo_values fmt args = Some vals →
  Forall3 (λ c v a, demo_param c v = Some a) fmt vals args.
Proof.
  revert args vals. induction fmt as [|c fmt IH]; intros [|a args] vals H; try done.
  { injection H as <-. constructor. }
  cbn in H. unfold demo_value in H. destruct (decide _) as [Hp|]; [|done]. cbn in H.
  destruct (demo_values fmt args) as [vs|] eqn:E; [|done]. injection H as <-. constructor; [done|by apply IH].
Qed.

Lemma byte_of_inj a b : byte_of a = byte_of b → a = b.
Proof. intros Hab. by rewrite <- (char_of_byte a), Hab, char_of_byte. Qed.

Lemma demo_params_tlv tags vals : length tags = length vals → Z.of_nat (length (tlv_params tags vals)) < 2 ^ 32 →
  ∀ fmt, length fmt = length tags →
  demo_params fmt (tlv_params tags vals) =
    if decide (fmt = tags) then mapM (λ p, demo_param p.1 p.2) (zip tags vals) else None.
Proof.
  revert vals. induction tags as [|t tags IH]; intros [|v vals] Hl Hlen [|c fmt] Hf; try done.
  injection Hl as Hl. injection Hf as Hf. cbn [tlv_params] in *. rewrite length_app, tlv_param_length in Hlen.
  unfold tlv_param. cbn [app demo_params]. destruct (decide (byte_of t = byte_of c)) as [E|E].
  - apply byte_of_inj in E as ->. rewrite <- app_assoc.
    rewrite (take_app_length' (le_bytes 4 (Z.of_nat (length v)))), (drop_app_length' (le_bytes 4 (Z.of_nat (length v))))
      by (by rewrite le_bytes_length).
    rewrite le_value_bytes by (change (256 ^ Z.of_nat 4) with (2 ^ 32); lia).
    rewrite Nat2Z.id, take_app_length, drop_app_length, IH by (done || lia). cbn.
    destruct (decide (fmt = tags)) as [->|Hne].
    + by rewrite decide_True.
    + rewrite decide_False by congruence. by destruct (demo_param c v).
  - by rewrite decide_False by congruence.
Qed.

#[global] Instance demo_serial_laws : IpcSerialLaws.
Proof.
  split.
  - intros fmt args b H. cbn in H. unfold demo_encode in H.
    destruct (demo_values fmt args) as [vals|] eqn:E; [|done]. cbn in H. destruct (decide _) as [Hl|]; [|done].
    injection H as <-. exists vals. split_and!; [by apply demo_values_spec|done|done].
  - intros fmt tags vals Hlen Hl. cbn -[tlv]. pose proof (tlv_count tags vals Hl). rewrite tlv_length in Hlen.
    unfold demo_decode, tlv.
    rewrite (take_app_length' (le_bytes 4 _)), (drop_app_length' (le_bytes 4 _)) by (by rewrite le_bytes_length).
    rewrite le_value_bytes by (change (256 ^ Z.of_nat 4) with (2 ^ 32); lia).
    destruct (decide (Z.of_nat (length tags) = Z.of_nat (length fmt))) as [Hf|Hf].
    + apply demo_params_tlv; lia || done.
    + rewrite decide_False by congruence. done.
  - intros s _ Hz. cbn [ser_param demo_serial]. unfold demo_param. rewrite decide_True by (by right).
    by rewrite (nul_prefix_str s []).
  - cbn. lia.
Qed.

Lemma demo_encode_result r : is_Some (demo_encode (str "q") [AQ (i64 r)]).
Proof.
  unfold demo_encode. assert (demo_values (str "q") [AQ (i64 r)] = Some [le_bytes 8 (u64 (i64 r))]) as ->.
  { change (str "q") with ["q"%char]. cbn [demo_values]. unfold demo_value. rewrite decide_True; [done|].
    unfold demo_param. rewrite decide_False by (intros [?|?]; done). rewrite decide_False by done.
    rewrite decide_True by done. cbn [demo_bytes]. rewrite le_value_bytes.
    - do 2 f_equal. unfold iw, uw. change (64 - 1) with 63. rewrite Zplus_mod_idemp_l.
      rewrite (Z.mod_small ((r + 2 ^ 63) mod 2 ^ 64 - 2 ^ 63 + 2 ^ 63)); [lia|].
      pose proof (Z.mod_pos_bound (r + 2 ^ 63) (2 ^ 64) ltac:(lia)). lia.
    - change (256 ^ Z.of_nat 8) with (2 ^ 64). apply uw_range. lia. }
  cbn [mbind option_bind]. rewrite decide_True; [done|]. rewrite tlv_length. cbn. lia.
Qed.

(** ** A core where all is well

    Its state says whether ports take messages at once. *)

Definition fresh_addr (l : list Z) : Z := 1 + foldr Z.max 0 l.

Lemma fresh_addr_spec l : fresh_addr l ∉ l.
Proof.
  assert (∀ x, x ∈ l → x < fresh_addr l) as Hlt.
  { unfold fresh_addr. induction l as [|y l IH]; intros x Hx; [by apply not_elem_of_nil in Hx|]. cbn.
    apply elem_of_cons in Hx as [->|Hx]; [lia|]. specialize (IH x Hx). lia. }
  intros Hin. specialize (Hlt _ Hin). lia.
Qed.

#[global] Instance demo_core : Core bool :=
  {| core_lookup n e := (Some (Port n 7), e);
     core_alloc e := (true, e);
     core_job l e := (Some (fresh_addr l), e);
     core_enqueue e := (REND_SUCCESS, e);
     core_send block n e := (if block || e then REND_SUCCESS else E_REND_AGAIN, true, e) |}.

#[global] Instance demo_core_laws : CoreLaws bool.
Proof.
  split.
  - by intros n e p e' [= <- <-].
  - intros l e a e' [= <- <-]. apply fresh_addr_spec.
Qed.

(** The same with ports that always take messages. *)
#[global] Instance ready_core : Core unit :=
  {| core_lookup n e := (Some (Port n 7), e);
     core_alloc e := (true, e);
     core_job l e := (Some (fresh_addr l), e);
     core_enqueue e := (REND_SUCCESS, e);
     core_send block n e := (REND_SUCCESS, true, e) |}.

#[global] Instance ready_core_laws : CoreLaws unit.
Proof.
  split.
  - by intros n e p e' [= <- <-].
  - intros l e a e' [= <- <-]. apply fresh_addr_spec.
Qed.

#[global] Instance ready_core_accepts : CoreAccepts unit.
Proof. split; done. Qed.
