(* ===== verification/RpcProps.v ===== *)
(** * Theorems about message transport *)

From stdpp Require Import base numbers list strings gmap option relations.
From Stdlib Require Import Ascii.
From S2P Require Import Prelude PageSlice SliceTable VfsPath VfsInode VfsHandle Cpio Mount Namespace PortNames VfsOpen VfsCoop Rpc RpcCoop RpcThm RpcCoopInv RpcCoopStep RpcCoopThm RpcCoopLive BackendIpc BackendIpcThm RpcDemo.

Section props.
Context `{SE : IpcSerial} `{!IpcSerialLaws} {E : Type} `{C : Core E} `{!CoreLaws E}.
Implicit Types (s : coop_queue E) (id : Z) (j : ipc_rpc_coop_job) (m : kmsg_t) (t : thread_io E).

(** ** Where delivered messages come from *)

Section sources.
Context (module resp_opcode : Z) (resp_fmt : ptr cstr).
Abbreviation step := (coop_step module resp_opcode resp_fmt).



End sources.


(** C36. Answers are sent as soon as their clients take them: when ports are
    found and take messages, two passes over the queue end every job that has
    a result and deliver its answer to its client, whoever holds the send slot
    at the start. *)
Theorem coop_two_polls_answer `{!CoreAccepts E} module resp_opcode resp_fmt s id j :
  (∀ r, is_Some (ipc_serial_encode (default IPC_RPC_RESP_FMT_DEFAULT resp_fmt) [AQ (i64 r)])) →
  coop_inv module resp_opcode resp_fmt (vw s) → cs_inited s = true → cs_heap s !! id = Some j →
  j_state j = IPC_RPC_COOP_ST_NEED_REPLY →
  let s' := ipc_rpc_coop_queue_poll module resp_opcode resp_fmt
              (ipc_rpc_coop_queue_poll module resp_opcode resp_fmt s) in
  cs_heap s' !! id = None
  ∧ ∃ m, answer_of module resp_opcode resp_fmt j m ∧ (j_reply_port j, m) ∈ t_log (cs_io s').
Proof. intros Henc. by apply two_polls. Qed.


(** A request that needs a backend fails while another job's message waits
    in the send slot.  The 64 tries to send it never give up the slot, which
    only the thread's own pass over the queue could do: whatever the ports
    answer and other threads do meanwhile, nothing is sent and the client gets
    EIO, although its backend may be ready. *)
Theorem busy_slot_fails_requests {T TB TM TH : Type} OPC_FIRST sched s id o j req e
    (sv : vfs_server T TB TM TH) c op stp :
  cs_owner s = Some o → o ≠ id → cs_heap s !! id = Some j → j_state j = IPC_RPC_COOP_ST_NONE →
  is_Some (br_port req) → 0 < OPC_FIRST → ev_nest e = nest_outcome OPC_FIRST sched s id req →
  vfs_coop_park_or_eio e sv c op stp = (sv, Finished (- LINUX_EIO))
  ∧ ∀ i, t_log (cs_io (after_tries OPC_FIRST sched s id req i)) = t_log (cs_io s).
Proof.
  intros Ho Hne Hj Hst Hp Hf He.
  pose proof (λ i, busy_tries OPC_FIRST sched s id j o req i Ho Hne Hj Hp Hf) as Hb. cbv zeta in Hb. split.
  - unfold vfs_coop_park_or_eio, vfs_coop_issue_nested.
    assert (rq_port (park_req c op) = Some (c_port c)) as -> by (by destruct op).
    rewrite issue_tries_again; [done|]. intros i. rewrite He.
    destruct (Hb i) as (_ & _ & _ & ->). f_equal. unfold in_nested_state. rewrite Hj.
    by rewrite !bool_decide_false by (by rewrite Hst).
  - intros i. destruct (Hb i) as (_ & _ & [_ Hl] & _). done.
Qed.

(** A request the cooperative server refuses (one for another service, say)
    is answered at once through the same queue.  If the answer of another job
    waits there, it is that answer which the refused client gets, and the
    refusal stays behind in the slot for the other client. *)
Theorem refused_request_gets_other_answer `{!CoreAccepts E} module resp_opcode resp_fmt fuel closed port handler s o j
    km name :
  (∀ r, is_Some (ipc_serial_encode (default IPC_RPC_RESP_FMT_DEFAULT resp_fmt) [AQ (i64 r)])) →
  coop_inv module resp_opcode resp_fmt (vw s) → cs_owner s = Some o → cs_heap s !! o = Some j →
  j_state j = IPC_RPC_COOP_ST_NEED_REPLY → km_module km ≠ module → po_service_id port = module →
  km_reply_port km = Some name → name ≠ [] → (length name < PORT_NAME_LEN_MAX)%nat →
  ∃ s' m b, ipc_rpc_coop_accept_one module resp_opcode resp_fmt (S fuel) closed port handler s (Some km) = Some (false, s')
    ∧ answer_of module resp_opcode resp_fmt j m
    ∧ t_log (cs_io s') = t_log (cs_io s) ++ [(name, m)]
    ∧ ipc_serial_encode (default IPC_RPC_RESP_FMT_DEFAULT resp_fmt) [AQ (i64 (- LINUX_EIO))] = Some b
    ∧ t_sendq (cs_io s') = [Kmsg module resp_opcode b] ∧ cs_owner s' = Some o.
Proof.
  intros Henc Hinv Ho Hj Hst Hmod Hport Hname Hne Hlen.
  destruct (slot_job _ _ _ (vw s) o j (inv_slot _ _ _ _ Hinv) Hj) as [H1 _].
  destruct (H1 Ho) as (_ & m & Hm & Hp). unfold payload_of in Hp. rewrite Hst in Hp. cbn in Hm.
  destruct (refuse_takes_slot module resp_opcode resp_fmt fuel (cs_io s) m km name (- LINUX_EIO) Henc Hm Hname Hne Hlen)
    as (t' & b & Hr & Hb & Hl & Hq).
  exists (set_io s t'), m, b. split_and!; try done.
  unfold ipc_rpc_coop_accept_one, linux_ipc_kmsg_is_port_closed. rewrite Hport, (proj2 (Z.eqb_neq _ _) Hmod).
  cbn [negb]. by rewrite Hr.
Qed.

(** A call that is not stopped delivers nothing and fails, or delivers its one
    request and waits. *)
Lemma call_cases ops t server reply opc fmt rop rfmt intr args signal evs t' res :
  zero ∉ po_name reply → (length (po_name reply) < PORT_NAME_LEN_MAX)%nat → t_sendq t = [] →
  ipc_rpc_call_va_flags ops t (Some server) (Some reply) opc fmt rop rfmt intr args signal evs = (t', res) →
  if intr && signal then t' = t ∧ res = Some (- LINUX_EINTR)
  else
    t_log t' = t_log t ∧ (∃ e, res = Some (- e) ∧ e ∈ [LINUX_EINVAL; LINUX_ENOMEM; LINUX_EIO])
    ∨ (∃ q, request_msg (po_service_id server) opc fmt (po_name reply) args q
         ∧ t_log t' = t_log t ++ [(po_name server, q)]
         ∧ res = rpc_wait ops reply (po_service_id server) rop (default IPC_RPC_RESP_FMT_DEFAULT rfmt) evs).
Proof.
  intros Hz Hlen Hq0. unfold ipc_rpc_call_va_flags. destruct (intr && signal); [by intros [= <- <-]|].
  assert (∀ e t0, e ∈ [LINUX_EINVAL; LINUX_ENOMEM; LINUX_EIO] → t_log t0 = t_log t → (t0, Some (- e)) = (t', res) →
    t_log t' = t_log t ∧ (∃ e, res = Some (- e) ∧ e ∈ [LINUX_EINVAL; LINUX_ENOMEM; LINUX_EIO])) as Herr.
  { intros e t0 He Hl [= <- <-]. eauto. }
  destruct (ipc_kmsg_create_request _ _ _ _ _ _) as [q t1] eqn:Er.
  destruct (create_request_spec _ _ _ _ _ _ _ _ Hz Hlen Er) as [[Hq1 Hl1] Hm].
  destruct q as [q|]; [|intros Hr; left; eapply Herr; [..|exact Hr]; [set_solver|done]].
  destruct (alloc_ok t1) as [ok t2] eqn:Ea. destruct (alloc_io_eq _ _ _ Ea) as [Hq2 Hl2]. rewrite Hl1 in Hl2.
  destruct ok; [|intros Hr; left; eapply Herr; [..|exact Hr]; [set_solver|done]].
  destruct (enqueue_msg_for_send t2 q) as [err t3] eqn:Een.
  assert (err = REND_SUCCESS ∧ t_sendq t3 = [q] ∧ t_log t3 = t_log t ∨ err ≠ REND_SUCCESS ∧ t_log t3 = t_log t) as Henq.
  { unfold enqueue_msg_for_send in Een. destruct (core_enqueue _) as [err0 e]. rewrite Hq2, Hq1, Hq0 in Een.
    destruct err0; injection Een as <- <-; cbn; auto. }
  destruct Henq as [(-> & Hq3 & Hl3)|[Hne Hl3]].
  2:{ intros Hr. left. destruct err; try done; (eapply Herr; [..|exact Hr]; [set_solver|done]). }
  unfold send_msg. destruct (send_to t3 true server) as [err t4] eqn:Es.
  destruct (send_cases _ _ _ _ _ _ Hq3 Es) as [(-> & _ & Hl4)|[(-> & [_ Hl4])|(Hne & _ & _ & Hl4 & _)]].
  - intros [= <- <-]. right. exists q. split_and!; [by apply Hm|by rewrite Hl4, Hl3|done].
  - intros Hr. left. eapply Herr; [..|exact Hr]; [set_solver|by rewrite Hl4].
  - intros Hr. left. destruct err; try done; (eapply Herr; [..|exact Hr]; [set_solver|by rewrite Hl4]).
Qed.

(** The wait returns the first reply of the server, past other events. *)
Lemma rpc_wait_first ops (server reply : message_port) rop rfmt evs1 evs2 m r :
  rop ≠ op_closed ops → rop ≠ op_interrupt ops →
  Forall (passes ops reply (po_service_id server) rop) evs1 →
  km_module m = po_service_id server → km_opcode m = rop → ipc_serial_decode rfmt (km_payload m) = Some [AQ r] →
  rpc_wait ops reply (po_service_id server) rop rfmt (evs1 ++ RecvMsg (Some m) :: evs2) = Some r.
Proof.
  intros Hc Hi Hpass Hmod Hop Hdec.
  rewrite rpc_wait_passes by done. cbn [rpc_wait]. unfold ipc_rpc_recv_is_interrupt, linux_ipc_kmsg_is_port_closed.
  rewrite Hop, (proj2 (Z.eqb_neq rop _) Hi), (proj2 (Z.eqb_neq rop _) Hc).
  assert ((if negb (km_module m =? po_service_id reply) then false else false) = false) as -> by (by case_match).
  rewrite Hmod, !Z.eqb_refl, Hdec. done.
Qed.

(** C37. A call returns the server's reply.  A pending signal stops an
    interruptible call before anything is sent; otherwise either nothing is
    delivered and the call returns an error, or exactly one request is
    delivered, with the arguments and the name of the reply port, and the call
    returns the value of the first reply of that server, no matter how many
    interrupts, empty wake-ups, transient errors and stale messages come
    first. *)
Theorem rpc_call_returns_reply ops t server reply opc fmt rop rfmt intr args signal evs1 evs2 m r t' res :
  zero ∉ po_name reply → (length (po_name reply) < PORT_NAME_LEN_MAX)%nat → t_sendq t = [] →
  rop ≠ op_closed ops → rop ≠ op_interrupt ops →
  Forall (passes ops reply (po_service_id server) rop) evs1 →
  km_module m = po_service_id server → km_opcode m = rop →
  ipc_serial_decode (default IPC_RPC_RESP_FMT_DEFAULT rfmt) (km_payload m) = Some [AQ r] →
  ipc_rpc_call_va_flags ops t (Some server) (Some reply) opc fmt rop rfmt intr args signal
    (evs1 ++ RecvMsg (Some m) :: evs2) = (t', res) →
  if intr && signal then t' = t ∧ res = Some (- LINUX_EINTR)
  else
    t_log t' = t_log t ∧ (∃ e, res = Some (- e) ∧ e ∈ [LINUX_EINVAL; LINUX_ENOMEM; LINUX_EIO])
    ∨ (∃ q, request_msg (po_service_id server) opc fmt (po_name reply) args q
         ∧ t_log t' = t_log t ++ [(po_name server, q)] ∧ res = Some r).
Proof.
  intros Hz Hlen Hq0 Hc Hi Hpass Hmod Hop Hdec Hcall. pose proof (call_cases _ _ _ _ _ _ _ _ _ _ _ _ _ _ Hz Hlen Hq0 Hcall) as Hcases.
  destruct (intr && signal); [done|]. destruct Hcases as [?|(q & ? & ? & ->)]; [by left|]. right. exists q.
  split_and!; [done..|]. by apply rpc_wait_first.
Qed.

End props.

(** ** Examples *)

Module RpcWit.

Definition listen : message_port := Port (str "vfs_listen") 7.
Definition client : cstr := str "vfs_cli_4".
Definition other : cstr := str "vfs_cli_9".

Definition io0 {E : Type} (e : E) : thread_io E := ThreadIo [] [] e.
Definition q0 {E : Type} (e : E) : coop_queue E := CoopQueue [] ∅ None true 0 (io0 e).

Lemma q0_inv {E : Type} (e : E) : coop_inv 7 0 None (vw (q0 e)).
Proof.
  split; cbn [vw q0 v_jobs v_heap v_seq cs_jobs cs_heap cs_seq].
  - constructor.
  - intros id. rewrite lookup_empty. split; [by intros ?%not_elem_of_nil|by intros [? ?]].
  - split; [done|]. intros id j. cbn. by rewrite lookup_empty.
  - lia.
  - intros id j. by rewrite lookup_empty.
  - intros id1 id2 j1 j2. by rewrite lookup_empty.
Qed.

(** A client's request, and a server that answers 5. *)
Definition request (module : Z) (reply : cstr) : kmsg_t :=
  default (Kmsg 0 0 []) (ipc_kmsg_create_request (io0 tt) module 21 (str "q") reply [AQ 3]).1.
Definition five : handler_t (E := unit) := λ _ _ _ s, (IPC_RPC_COOP_HANDLED, 5, s).


(** A job of the client with the result 5. *)
Definition created : coop_queue unit := (ipc_rpc_coop_job_create (q0 tt) (Some client)).2.
Definition q2 : coop_queue unit := ipc_rpc_coop_job_set_result created 1 5.
Definition job2 : ipc_rpc_coop_job := default (new_job []) (cs_heap q2 !! 1).

Lemma created_inv : coop_inv 7 0 None (vw created).
Proof.
  eapply coop_steps_inv; [apply (q0_inv tt)|].
  eapply (job_create_steps 7 0 None (q0 tt) (Some client)). vm_compute. reflexivity.
Qed.

Lemma q2_inv : coop_inv 7 0 None (vw q2).
Proof.
  eapply job_step_inv; [apply created_inv|]. eapply (set_result_step 7 0 None created 1).
  - apply created_inv.
  - vm_compute. reflexivity.
Qed.

Lemma coop_two_polls_answer_witness :
  let s' := ipc_rpc_coop_queue_poll 7 0 None (ipc_rpc_coop_queue_poll 7 0 None q2) in
  cs_heap s' !! 1 = None ∧ ∃ m, answer_of 7 0 None job2 m ∧ (client, m) ∈ t_log (cs_io s').
Proof.
  apply (coop_two_polls_answer 7 0 None q2 1 job2).
  - intros r. apply demo_encode_result.
  - apply q2_inv.
  - vm_compute. reflexivity.
  - vm_compute. reflexivity.
  - vm_compute. reflexivity.
Defined.

(** A job that asks a backend to make a directory. *)
Definition mkdir_req : be_req :=
  BeReq (Some (str "vfs_ramfs_backend_port")) VFS_BACKEND_OP_MKDIR (Some (str "/d")) None 0 0 0 0 0 0 0 493 0 0 0 0.




(** Job 1 has a result that cannot be sent yet; job 2 needs a backend. *)
Definition q4 : coop_queue bool :=
  let s := (ipc_rpc_coop_job_create (q0 false) (Some client)).2 in
  let s := ipc_rpc_coop_queue_poll 7 0 None (ipc_rpc_coop_job_set_result s 1 5) in
  (ipc_rpc_coop_job_create s (Some other)).2.
Definition job4 : ipc_rpc_coop_job := default (new_job []) (cs_heap q4 !! 2).
Definition env4 : coop_env :=
  CoopEnv (λ _, true) true None (nest_outcome 100 (λ _, true) q4 2 mkdir_req) (λ _, true) (λ _, None)
    (λ _ _ _, true) (λ _ _ _, None) (λ _ _, []) [].
Definition sv4 : vfs_server unit unit unit unit :=
  VfsServer (NsState zero_rec tt true) (BackendState tt None None 0 false) tt tt (VfsReqCred 0 0) [] [].
Definition ctx4 : vfs_coop_ctx :=
  CoopCtx (CoopParams VFS_COOP_KIND_MKDIR 9 0 0 0 0 0 0 0) zero_io VFS_COOP_STEP_NONE (str "/d") []
    (str "vfs_ramfs_backend_port") 493 false false zero_inode.

Lemma busy_slot_fails_requests_witness :
  vfs_coop_park_or_eio env4 sv4 ctx4 VFS_BACKEND_OP_MKDIR VFS_COOP_STEP_MKDIR_BE = (sv4, Finished (- LINUX_EIO))
  ∧ ∀ i, t_log (cs_io (after_tries 100 (λ _, true) q4 2 mkdir_req i)) = t_log (cs_io q4).
Proof.
  apply (busy_slot_fails_requests 100 (λ _, true) q4 2 1 job4 mkdir_req env4 sv4 ctx4).
  - vm_compute. reflexivity.
  - discriminate.
  - vm_compute. reflexivity.
  - vm_compute. reflexivity.
  - by eexists.
  - lia.
  - reflexivity.
Defined.

(** Job 1 with its answer in the slot, and a message for another service. *)
Definition q5 : coop_queue unit := (queue_reply 7 0 None q2 1 job2).2.
Definition job5 : ipc_rpc_coop_job := default (new_job []) (cs_heap q5 !! 1).

Lemma q5_inv : coop_inv 7 0 None (vw q5).
Proof.
  destruct (queue_reply_step 7 0 None q2 1 job2 None q5) as [[Hr _]|(_ & Hs & _)].
  - apply q2_inv.
  - vm_compute. reflexivity.
  - vm_compute. reflexivity.
  - by left.
  - vm_compute. reflexivity.
  - done.
  - eapply job_step_inv; [apply q2_inv|exact Hs].
Qed.

Lemma refused_request_gets_other_answer_witness :
  ∃ s' m b, ipc_rpc_coop_accept_one 7 0 None 1 99 listen five q5 (Some (request 3 other)) = Some (false, s')
    ∧ answer_of 7 0 None job5 m
    ∧ t_log (cs_io s') = t_log (cs_io q5) ++ [(other, m)]
    ∧ ipc_serial_encode (str "q") [AQ (i64 (- LINUX_EIO))] = Some b
    ∧ t_sendq (cs_io s') = [Kmsg 7 0 b] ∧ cs_owner s' = Some 1.
Proof.
  apply (refused_request_gets_other_answer 7 0 None 0 99 listen five q5 1 job5 (request 3 other) other).
  - intros r. apply demo_encode_result.
  - apply q5_inv.
  - vm_compute. reflexivity.
  - vm_compute. reflexivity.
  - vm_compute. reflexivity.
  - vm_compute. discriminate.
  - reflexivity.
  - vm_compute. reflexivity.
  - discriminate.
  - vm_compute. lia.
Defined.

(** A call that is interrupted and woken up for nothing before its reply. *)
Definition ops : rpc_opcodes := RpcOpcodes 99 98.
Definition reply_port : message_port := Port client 12.
Definition reply_msg : kmsg_t := Kmsg 7 0 (default [] (demo_encode (str "q") [AQ 42])).
Definition noise : list recv_event := [RecvNone; RecvMsg (Some (Kmsg 12 98 [])); RecvErr E_REND_AGAIN].
Definition called : thread_io unit * option Z :=
  ipc_rpc_call_va_flags ops (io0 tt) (Some listen) (Some reply_port) 21 (str "q") 0 None true [AQ 3] false
    (noise ++ [RecvMsg (Some reply_msg)]).

Lemma rpc_call_returns_reply_witness :
  called.2 = Some 42
  ∧ (t_log called.1 = [] ∧ (∃ e, called.2 = Some (- e) ∧ e ∈ [LINUX_EINVAL; LINUX_ENOMEM; LINUX_EIO])
     ∨ (∃ q, request_msg 7 21 (str "q") client [AQ 3] q ∧ t_log called.1 = [(str "vfs_listen", q)]
          ∧ called.2 = Some 42)).
Proof.
  split; [vm_compute; reflexivity|].
  apply (rpc_call_returns_reply ops (io0 tt) listen reply_port 21 (str "q") 0 None true [AQ 3] false noise [] reply_msg
    42 called.1 called.2).
  - vm_compute. intros Hz. repeat (apply elem_of_cons in Hz as [Hz|Hz]; [discriminate Hz|]).
    by apply not_elem_of_nil in Hz.
  - vm_compute. lia.
  - reflexivity.
  - discriminate.
  - discriminate.
  - repeat constructor; try discriminate.
  - reflexivity.
  - reflexivity.
  - vm_compute. reflexivity.
  - vm_compute. reflexivity.
Defined.

End RpcWit.
