(* ===== verification/Time.v ===== *)
(** * Time ([linux_layer/time/], [linux_layer/misc/sys_poll.c])

    Clocks, sleeping and polling.  The core kernel counts time in ticks and
    converts between ticks and microseconds ([TimeCore]); a sleeping thread
    waits for a message of a timer on a port of its own.  What a call reads
    from the clock and from its port in each turn of its loop is an argument,
    in the order the code reads it. *)

From stdpp Require Import base numbers list strings option.
From Stdlib Require Import Ascii.
From S2P Require Import Prelude PortNames PageSlice FdSlice Rpc.

Definition LINUX_CLOCK_REALTIME : Z := 0.
Definition LINUX_CLOCK_MONOTONIC : Z := 1.
Definition LINUX_TIMER_ABSTIME : Z := 1.

Record linux_timeval : Type := TimeVal { tv_sec : Z; tv_usec : Z }.
Record linux_timespec : Type := TimeSpec { ts_sec : Z; ts_nsec : Z }.

(** [rendezvos_time_us_to_count], [rendezvos_time_count_to_us], [time_before]. *)
Class TimeCore : Type := {
  us_to_count : Z → Z;
  count_to_us : Z → Z;
  time_before : Z → Z → bool;
}.

(** Times less than half the range apart from zero compare as numbers. *)
Class TimeCoreLaws `{TC : TimeCore} : Prop := {
  time_before_small a b : 0 ≤ a < 2 ^ 63 → 0 ≤ b < 2 ^ 63 → time_before a b = (a <? b);
  us_to_count_nonneg us : 0 ≤ us_to_count us;
}.

Section time.
Context `{TC : TimeCore} `{SE : IpcSerial}.
Implicit Types (ts : linux_timespec) (now us : Z).

(** ** Clocks *)

Definition linux_time_monotonic_us now : Z := count_to_us now.
Definition linux_time_realtime_us (boot_us now : Z) : Z := u64 (boot_us + linux_time_monotonic_us now).

Definition linux_us_to_timeval us : linux_timeval := TimeVal (i64 (us `div` 1000000)) (i64 (us `mod` 1000000)).
Definition linux_us_to_timespec us : linux_timespec :=
  TimeSpec (i64 (us `div` 1000000)) (i64 (u64 (us `mod` 1000000 * 1000))).
Definition linux_ticks_to_timespec (rem : Z) : linux_timespec := linux_us_to_timespec (count_to_us rem).

Definition linux_timespec_to_us ts : Z :=
  let total_ns := u64 (u64 (u64 (ts_sec ts) * 1000000000) + u64 (ts_nsec ts)) in
  let us := total_ns `div` 1000 in
  if total_ns `mod` 1000 =? 0 then us else u64 (us + 1).

(** The deadline and whether it has passed; [now2] is the second reading of the
    clock, for the real-time clock. *)
Definition linux_time_resolve_deadline (boot_us now now2 clockid : Z) ts (absolute : bool) : Z * bool :=
  if negb absolute then (u64 (now + us_to_count (linux_timespec_to_us ts)), false)
  else if clockid =? LINUX_CLOCK_MONOTONIC then
    let deadline := us_to_count (linux_timespec_to_us ts) in
    if negb (time_before now deadline) then (now, true) else (deadline, false)
  else
    let target_us := linux_timespec_to_us ts in
    let current_us := linux_time_realtime_us boot_us now2 in
    if target_us <=? current_us then (now, true)
    else (u64 (now + us_to_count (u64 (target_us - current_us))), false).

(** ** Sleeping *)

Definition linux_time_monotonic_to_arch_expiry (now arch_now deadline : Z) : Z :=
  if negb (time_before now deadline) then arch_now else u64 (arch_now + u64 (deadline - now)).

Definition linux_time_sleep_port_name (bufsize : nat) (tid : Z) : cstr * nat :=
  let prefix := str "linux_sleep_" in
  if (bufsize =? 0)%nat then ([], 0%nat)
  else if (bufsize <=? length prefix)%nat then ([], 0%nat)
  else
    match proc_format_pid (bufsize - length prefix) tid with
    | (_, O) => ([], 0%nat)
    | (digits, _) => (prefix ++ digits, length (prefix ++ digits))
    end.

(** The opcodes and the format of the timer's messages. *)
Record timer_ops : Type := TimerOps {
  op_timer_expire : Z;
  op_timer_cancel : Z;
  op_port_closed : Z;
  fmt_timer : cstr;
}.

Definition linux_time_sleep_parse_kmsg (ops : timer_ops) (port : message_port) (msg : ptr kmsg_t)
    (expect_opcode expect_token : Z) : bool :=
  match msg with
  | None => false
  | Some km =>
      if negb (km_module km =? po_service_id port) || negb (km_opcode km =? expect_opcode) then false
      else
        match ipc_serial_decode (fmt_timer ops) (km_payload km) with
        | Some [AQ token] => u64 token =? expect_token
        | _ => false
        end
  end.

(** What one turn of the loop meets: the clock and the pending signals at its
    start, how setting the timer goes, what the wait returns, and the clock and
    the pending signals after it. *)
Record sleep_turn : Type := SleepTurn {
  st_now : Z;
  st_signal : bool;
  st_init : error_t;
  st_add : error_t;
  st_recv : error_t;
  st_msg : option (ptr kmsg_t);
  st_signal_after : bool;
  st_now_after : Z;
}.

Definition linux_time_sleep_return_eintr (deadline now : Z) : Z * option linux_timespec :=
  (- LINUX_EINTR, Some (linux_ticks_to_timespec (u64 (deadline - now)))).

(** The result, the remaining time and the token of the last timer; [None] while
    the thread sleeps. *)
Fixpoint sleep_loop (ops : timer_ops) (port : message_port) (deadline token : Z) (turns : list sleep_turn)
  : option (Z * option linux_timespec * Z) :=
  match turns with
  | [] => None
  | t :: turns' =>
      if negb (time_before (st_now t) deadline) then Some (0, None, token)
      else if st_signal t then Some (linux_time_sleep_return_eintr deadline (st_now t), token)
      else
        let token := u64 (token + 1) in
        let again := sleep_loop ops port deadline token turns' in
        let eintr := Some (linux_time_sleep_return_eintr deadline (st_now_after t), token) in
        match st_init t, st_add t with
        | REND_SUCCESS, REND_SUCCESS =>
            match st_recv t with
            | E_REND_PORT_CLOSED => eintr
            | REND_SUCCESS =>
                match st_msg t with
                | None => again
                | Some msg =>
                    if st_signal_after t then eintr
                    else if linux_time_sleep_parse_kmsg ops port msg (op_timer_expire ops) token then
                      if negb (time_before (st_now_after t) deadline) then Some (0, None, token) else again
                    else if linux_time_sleep_parse_kmsg ops port msg (op_timer_cancel ops) token then eintr
                    else if linux_ipc_kmsg_is_port_closed (op_port_closed ops) port msg then eintr
                    else again
                end
            | _ => again
            end
        | _, _ => again
        end
  end.

Definition linux_time_sleep_until_count (ops : timer_ops) (port : option message_port) (deadline token : Z)
    (turns : list sleep_turn) : option (Z * option linux_timespec * Z) :=
  match port with
  | None => Some (- LINUX_EAGAIN, None, token)
  | Some port => sleep_loop ops port deadline token turns
  end.

(** ** System calls

    [user]: the caller is a process with a user address space, or the error;
    [load] and [store]: copying from and to its memory. *)

Definition linux_timespec_validate ts : Z :=
  if (ts_sec ts <? 0) || (ts_nsec ts <? 0) || (1000000000 <=? ts_nsec ts) then - LINUX_EINVAL else 0.

Record sleep_env : Type := SleepEnv {
  se_load : Z → option linux_timespec;
  se_store : Z → linux_timespec → bool;
  se_boot_us : Z;
  se_now : Z;
  se_now2 : Z;
  se_port : option message_port;
  se_token : Z;
  se_turns : list sleep_turn;
}.

(** The result, and the remaining time stored for the user. *)
Definition linux_nanosleep_impl (ops : timer_ops) (e : sleep_env) (user : Z) (clockid user_req user_rem : Z)
    (absolute : bool) : option (Z * option linux_timespec) :=
  if negb (user =? 0) then Some (user, None)
  else if user_req =? 0 then Some (- LINUX_EFAULT, None)
  else
    match se_load e user_req with
    | None => Some (- LINUX_EFAULT, None)
    | Some req =>
        let ret := linux_timespec_validate req in
        if ret <? 0 then Some (ret, None)
        else
          let '(deadline, already) :=
            linux_time_resolve_deadline (se_boot_us e) (se_now e) (se_now2 e) clockid req absolute in
          if already then Some (0, None)
          else
            match linux_time_sleep_until_count ops (se_port e) deadline (se_token e) (se_turns e) with
            | None => None
            | Some (ret, rem, _) =>
                if (ret =? - LINUX_EINTR) && negb (user_rem =? 0) then
                  match rem with
                  | Some rem => if se_store e user_rem rem then Some (ret, Some rem) else Some (- LINUX_EFAULT, None)
                  | None => Some (ret, None)
                  end
                else Some (ret, None)
            end
    end.

Definition sys_nanosleep ops e user user_req user_rem :=
  linux_nanosleep_impl ops e user LINUX_CLOCK_MONOTONIC user_req user_rem false.

Definition sys_clock_nanosleep ops e user (clockid flags user_req user_rem : Z) : option (Z * option linux_timespec) :=
  if negb (clockid =? LINUX_CLOCK_REALTIME) && negb (clockid =? LINUX_CLOCK_MONOTONIC) then
    Some (- LINUX_EINVAL, None)
  else if has flags (not32 LINUX_TIMER_ABSTIME) then Some (- LINUX_EINVAL, None)
  else linux_nanosleep_impl ops e user clockid user_req user_rem (has flags LINUX_TIMER_ABSTIME).

(** What is stored for the user, and the result. *)
Definition sys_clock_gettime (user clockid user_tp boot_us now : Z) (store : linux_timespec → bool)
  : Z * option linux_timespec :=
  if negb (clockid =? LINUX_CLOCK_REALTIME) && negb (clockid =? LINUX_CLOCK_MONOTONIC) then (- LINUX_EINVAL, None)
  else if user_tp =? 0 then (- LINUX_EFAULT, None)
  else if negb (user =? 0) then (user, None)
  else
    let us := if clockid =? LINUX_CLOCK_MONOTONIC then linux_time_monotonic_us now
              else linux_time_realtime_us boot_us now in
    let ts := linux_us_to_timespec us in
    if store ts then (0, Some ts) else (- LINUX_EFAULT, None).

(** The time and the time zone stored. *)
Definition sys_gettimeofday (user user_tv user_tz boot_us now : Z) (store_tv store_tz : bool)
  : Z * option linux_timeval * option (Z * Z) :=
  if negb (user =? 0) then (user, None, None)
  else
    let tv := linux_us_to_timeval (linux_time_realtime_us boot_us now) in
    if negb (user_tv =? 0) && negb store_tv then (- LINUX_EFAULT, None, None)
    else
      let out := if user_tv =? 0 then None else Some tv in
      if negb (user_tz =? 0) && negb store_tz then (- LINUX_EFAULT, out, None)
      else (0, out, if user_tz =? 0 then None else Some (0, 0)).

Definition sys_time (user user_tloc boot_us now : Z) (store : bool) : Z * option Z :=
  if negb (user =? 0) then (user, None)
  else
    let secs := i64 (linux_time_realtime_us boot_us now `div` 1000000) in
    if user_tloc =? 0 then (secs, None) else if store then (secs, Some secs) else (- LINUX_EFAULT, None).

(** The four times are zero; the result is the tick counter. *)
Definition sys_times (user user_buf jiffies : Z) (store : bool) : Z * option (list Z) :=
  if negb (user =? 0) then (user, None)
  else if user_buf =? 0 then (jiffies, None)
  else if store then (jiffies, Some [0; 0; 0; 0]) else (- LINUX_EFAULT, None).

(** ** Polling *)

Definition LINUX_POLLIN : Z := 0x0001.
Definition LINUX_POLLPRI : Z := 0x0002.
Definition LINUX_POLLOUT : Z := 0x0004.
Definition LINUX_POLLHUP : Z := 0x0010.
Definition LINUX_POLLNVAL : Z := 0x0020.
Definition LINUX_POLL_MAX_NFDS : Z := 64.
Definition LINUX_POLL_INF_SLICE_MS : Z := 50.

Record linux_pollfd : Type := PollFd { pf_fd : Z; pf_events : Z; pf_revents : Z }.

Definition linux_poll_revents_for (kind : linux_fd_kind) (want : Z) : Z :=
  match kind with
  | LINUX_FD_CONSOLE_IN => if has want (Z.lor LINUX_POLLIN LINUX_POLLPRI) then LINUX_POLLHUP else 0
  | LINUX_FD_CONSOLE_OUT | LINUX_FD_CONSOLE_ERR => if has want LINUX_POLLOUT then LINUX_POLLOUT else 0
  | LINUX_FD_VFS | LINUX_FD_PIPE =>
      let got := if has want (Z.lor LINUX_POLLIN LINUX_POLLPRI) then LINUX_POLLIN else 0 in
      if has want LINUX_POLLOUT then Z.lor got LINUX_POLLOUT else got
  | _ => LINUX_POLLNVAL
  end.

(** [fd_kind]: the kind of an open descriptor ([linux_fd_get]). *)
Definition poll_scan_one (fd_kind : Z → option linux_fd_kind) (p : linux_pollfd) : linux_pollfd :=
  if pf_fd p <? 0 then PollFd (pf_fd p) (pf_events p) 0
  else
    match fd_kind (pf_fd p) with
    | None => PollFd (pf_fd p) (pf_events p) LINUX_POLLNVAL
    | Some kind => PollFd (pf_fd p) (pf_events p) (linux_poll_revents_for kind (pf_events p))
    end.

(** The count of ready descriptors or an error, and what is stored. *)
Definition linux_poll_scan (alloc : bool) (load : option (list linux_pollfd)) (store : bool)
    (fd_kind : Z → option linux_fd_kind) (nfds : Z) : Z * option (list linux_pollfd) :=
  if nfds =? 0 then (0, None)
  else if LINUX_POLL_MAX_NFDS <? nfds then (- LINUX_EINVAL, None)
  else if negb alloc then (- LINUX_ENOMEM, None)
  else
    match load with
    | None => (- LINUX_EFAULT, None)
    | Some kfds =>
        let kfds := poll_scan_one fd_kind <$> kfds in
        if negb store then (- LINUX_EFAULT, None)
        else (Z.of_nat (length (filter (λ p, pf_revents p ≠ 0) kfds)), Some kfds)
    end.

Definition linux_timespec_to_timeout_ms ts : Z :=
  if (ts_sec ts <? 0) || (ts_nsec ts <? 0) || (1000000000 <=? ts_nsec ts) then - LINUX_EINVAL
  else if (ts_sec ts =? 0) && (ts_nsec ts =? 0) then 0
  else if 0x7fffffff `div` 1000 <? ts_sec ts then 0x7fffffff
  else
    let ms := ts_sec ts * 1000 + (ts_nsec ts + 999999) `div` 1000000 in
    if ms <=? 0 then 1 else if 0x7fffffff <? ms then 0x7fffffff else ms.

Definition linux_poll_remaining_ms (now deadline : Z) : Z :=
  if negb (time_before now deadline) then 0
  else
    let rem_us := count_to_us (u64 (deadline - now)) in
    let rem_us := if rem_us =? 0 then 1 else rem_us in
    let rem_ms := i32 (u64 (rem_us + 999) `div` 1000) in
    if 0 <? rem_ms then rem_ms else 1.

Definition linux_poll_sleep_ms (ops : timer_ops) (port : option message_port) (now token timeout_ms : Z)
    (turns : list sleep_turn) : option (Z * Z) :=
  if timeout_ms <=? 0 then Some (0, token)
  else
    (λ p, (p.1.1, p.2)) <$> linux_time_sleep_until_count ops port (u64 (now + us_to_count (u64 (timeout_ms * 1000)))) token turns.

(** One turn of the loop of [sys_poll]: what its scan meets (allocation, the
    array in user memory, whether it can be stored, the descriptors), the clock
    for the remaining time, and the sleep. *)
Record poll_turn : Type := PollTurn {
  pt_alloc : bool;
  pt_load : option (list linux_pollfd);
  pt_store : bool;
  pt_fds : Z → option linux_fd_kind;
  pt_now : Z;
  pt_sleep_now : Z;
  pt_sleep : list sleep_turn;
}.

Definition pt_scan (t : poll_turn) (nfds : Z) : Z * option (list linux_pollfd) :=
  linux_poll_scan (pt_alloc t) (pt_load t) (pt_store t) (pt_fds t) nfds.

(** The result, and what the last scan stored. *)
Fixpoint poll_loop (ops : timer_ops) (port : option message_port) (token nfds timeout_ms : Z) (deadline : option Z)
    (turns : list poll_turn) : option (Z * option (list linux_pollfd)) :=
  match turns with
  | [] => None
  | t :: turns' =>
      let '(ready, out) := pt_scan t nfds in
      if ready <? 0 then Some (ready, out)
      else if 0 <? ready then Some (ready, out)
      else if timeout_ms =? 0 then Some (0, out)
      else
        let wait ms :=
          match linux_poll_sleep_ms ops port (pt_sleep_now t) token ms (pt_sleep t) with
          | None => None
          | Some (wait_ret, token) =>
              if wait_ret <? 0 then Some (wait_ret, out) else poll_loop ops port token nfds timeout_ms deadline turns'
          end in
        match deadline with
        | Some d =>
            let rem_ms := linux_poll_remaining_ms (pt_now t) d in
            if rem_ms =? 0 then Some (0, out) else wait rem_ms
        | None => wait LINUX_POLL_INF_SLICE_MS
        end
  end.

Definition sys_poll ops port token (user ufds nfds timeout_ms now : Z) (turns : list poll_turn)
  : option (Z * option (list linux_pollfd)) :=
  if negb (user =? 0) then Some (user, None)
  else if (ufds =? 0) && negb (nfds =? 0) then Some (- LINUX_EFAULT, None)
  else
    let deadline := if 0 <? timeout_ms then Some (u64 (now + us_to_count (u64 (timeout_ms * 1000)))) else None in
    poll_loop ops port token nfds timeout_ms deadline turns.

Definition sys_ppoll ops port token (user ufds nfds user_tsp : Z) (load : option linux_timespec) (now : Z)
    (turns : list poll_turn) : option (Z * option (list linux_pollfd)) :=
  if user_tsp =? 0 then sys_poll ops port token user ufds nfds (-1) now turns
  else if negb (user =? 0) then Some (user, None)
  else
    match load with
    | None => Some (- LINUX_EFAULT, None)
    | Some ts =>
        let ms := linux_timespec_to_timeout_ms ts in
        if ms <? 0 then Some (ms, None) else sys_poll ops port token user ufds nfds (i32 ms) now turns
    end.

End time.
