(* ===== verification/TimeThm.v ===== *)
(** * Sleeping and polling do not end early *)

From stdpp Require Import base numbers list strings option.
From Stdlib Require Import Ascii.
From S2P Require Import Prelude PortNames PageSlice FdSlice Rpc Time RpcDemo.

(** The time asked for, in nanoseconds. *)
Definition requested_ns (ts : linux_timespec) : Z := ts_sec ts * 1000000000 + ts_nsec ts.

Lemma validate_spec ts : linux_timespec_validate ts = 0 ↔ 0 ≤ ts_sec ts ∧ 0 ≤ ts_nsec ts < 1000000000.
Proof.
  unfold linux_timespec_validate, LINUX_EINVAL.
  destruct (Z.ltb_spec (ts_sec ts) 0), (Z.ltb_spec (ts_nsec ts) 0), (Z.leb_spec 1000000000 (ts_nsec ts)); cbn; lia.
Qed.

(** Without overflow, the microseconds are the request rounded up. *)
Lemma timespec_to_us_ceil ts : linux_timespec_validate ts = 0 → requested_ns ts < 2 ^ 64 →
  1000 * (linux_timespec_to_us ts - 1) < requested_ns ts ≤ 1000 * linux_timespec_to_us ts.
Proof.
  intros [Hs Hn]%validate_spec Hlt. unfold requested_ns in *. unfold linux_timespec_to_us.
  rewrite (uw_small 64 (ts_sec ts)), (uw_small 64 (ts_sec ts * _)), (uw_small 64 (ts_nsec ts)) by lia.
  rewrite (uw_small 64 (_ + _)) by lia. cbv zeta. set (t := ts_sec ts * 1000000000 + ts_nsec ts) in *.
  pose proof (Z.div_mod t 1000 ltac:(lia)). pose proof (Z.mod_pos_bound t 1000 ltac:(lia)).
  destruct (Z.eqb_spec (t mod 1000) 0); [lia|]. rewrite (uw_small 64) by lia. lia.
Qed.

(** A request of 2^55 seconds is taken for none at all. *)
Lemma timespec_to_us_wraps : linux_timespec_validate (TimeSpec (2 ^ 55) 0) = 0
  ∧ linux_timespec_to_us (TimeSpec (2 ^ 55) 0) = 0.
Proof. split; vm_compute; reflexivity. Qed.

(** The timeout of ppoll is the request rounded up, at most [INT_MAX]. *)
Lemma timeout_ms_ceil ts : linux_timespec_validate ts = 0 →
  0 ≤ linux_timespec_to_timeout_ms ts ≤ 0x7fffffff
  ∧ (requested_ns ts ≤ 1000000 * linux_timespec_to_timeout_ms ts ∨ linux_timespec_to_timeout_ms ts = 0x7fffffff).
Proof.
  intros Hv. pose proof Hv as [Hs Hn]%validate_spec. unfold linux_timespec_to_timeout_ms, requested_ns.
  unfold linux_timespec_validate, LINUX_EINVAL in Hv.
  destruct ((ts_sec ts <? 0) || (ts_nsec ts <? 0) || (1000000000 <=? ts_nsec ts)); [done|].
  destruct (Z.eqb_spec (ts_sec ts) 0), (Z.eqb_spec (ts_nsec ts) 0); cbn [andb]; [lia|..].
  all: destruct (Z.ltb_spec (0x7fffffff `div` 1000) (ts_sec ts)); [lia|].
  all: pose proof (Z.div_mod (ts_nsec ts + 999999) 1000000 ltac:(lia)).
  all: pose proof (Z.mod_pos_bound (ts_nsec ts + 999999) 1000000 ltac:(lia)); cbv zeta.
  all: destruct (Z.leb_spec (ts_sec ts * 1000 + (ts_nsec ts + 999999) `div` 1000000) 0); [lia|].
  all: destruct (Z.ltb_spec 0x7fffffff (ts_sec ts * 1000 + (ts_nsec ts + 999999) `div` 1000000)); lia.
Qed.

Section sleep.
Context `{TC : TimeCore} `{!TimeCoreLaws} `{SE : IpcSerial}.
Implicit Types (turns : list sleep_turn).

(** The last reading of the clock in the turn [t] that ends a sleep: the one at
    its start when it shows the deadline or a signal is pending, otherwise the
    one after the wait. *)
Definition end_reading (d : Z) (t : sleep_turn) : Z :=
  if negb (time_before (st_now t) d) || st_signal t then st_now t else st_now_after t.

(** The clock stays in its positive range. *)
Definition clock_ok (t : sleep_turn) : Prop := 0 ≤ st_now t < 2 ^ 63 ∧ 0 ≤ st_now_after t < 2 ^ 63.

Lemma end_reading_ok d t : clock_ok t → 0 ≤ end_reading d t < 2 ^ 63.
Proof. intros [? ?]. unfold end_reading. by destruct (_ || _). Qed.

(** A sleep ends in the first turn that ends it, with 0 when the last reading of
    that turn is at the deadline, or with [EINTR] and the difference to that
    reading. *)
Definition ended_on (d : Z) (t : sleep_turn) (ret : Z) (rem : option linux_timespec) : Prop :=
  ret = 0 ∧ time_before (end_reading d t) d = false
  ∨ ret = - LINUX_EINTR ∧ rem = Some (linux_ticks_to_timespec (u64 (d - end_reading d t))).

Lemma sleep_loop_ends ops port d token turns ret rem tk : sleep_loop ops port d token turns = Some (ret, rem, tk) →
  ∃ pre t post, turns = pre ++ t :: post ∧ sleep_loop ops port d token pre = None
    ∧ sleep_loop ops port d token (pre ++ [t]) = Some (ret, rem, tk) ∧ ended_on d t ret rem.
Proof.
  revert token. induction turns as [|t turns IH]; intros token; [done|].
  assert (∀ tk0, (∀ l, sleep_loop ops port d token (t :: l) = sleep_loop ops port d tk0 l) →
    sleep_loop ops port d tk0 turns = Some (ret, rem, tk) →
    ∃ pre t0 post, t :: turns = pre ++ t0 :: post ∧ sleep_loop ops port d token pre = None
      ∧ sleep_loop ops port d token (pre ++ [t0]) = Some (ret, rem, tk) ∧ ended_on d t0 ret rem) as Hagain.
  { intros tk0 Hl (pre & t0 & post & -> & Hp & Hq & He)%IH. exists (t :: pre), t0, post. cbn [app]. rewrite !Hl. auto. }
  assert (sleep_loop ops port d token [t] = Some (ret, rem, tk) → ended_on d t ret rem →
    ∃ pre t0 post, t :: turns = pre ++ t0 :: post ∧ sleep_loop ops port d token pre = None
      ∧ sleep_loop ops port d token (pre ++ [t0]) = Some (ret, rem, tk) ∧ ended_on d t0 ret rem) as Hnow.
  { intros Hl He. exists [], t, turns. auto. }
  assert (end_reading d t = if negb (time_before (st_now t) d) || st_signal t then st_now t else st_now_after t) as Hend by done.
  unfold ended_on in Hnow at 1. rewrite Hend in Hnow.
  cbn [sleep_loop] in *. unfold linux_time_sleep_return_eintr in *.
  destruct (time_before (st_now t) d) eqn:Hb; cbn [negb orb] in *;
    [|intros [= <- <- <-]; apply Hnow; auto].
  destruct (st_signal t); cbn [negb orb] in *; [intros [= <- <- <-]; apply Hnow; auto|].
  assert (∀ tk0, Some (- LINUX_EINTR, Some (linux_ticks_to_timespec (u64 (d - st_now_after t))), tk0) = Some (ret, rem, tk) →
    ret = - LINUX_EINTR ∧ rem = Some (linux_ticks_to_timespec (u64 (d - st_now_after t)))) as Heintr by (by intros tk0 [= <- <- <-]).
  destruct (st_init t); try (by apply Hagain). destruct (st_add t); try (by apply Hagain).
  destruct (st_recv t); try (by apply Hagain); [|intros H0; apply Hnow; eauto].
  destruct (st_msg t) as [msg|]; [|by apply Hagain]. destruct (st_signal_after t); [intros H0; apply Hnow; eauto|].
  destruct (linux_time_sleep_parse_kmsg ops port msg (op_timer_expire ops) _).
  { destruct (time_before (st_now_after t) d) eqn:Hb2; cbn [negb] in *; [by apply Hagain|].
    intros [= <- <- <-]. apply Hnow; auto. }
  destruct (linux_time_sleep_parse_kmsg ops port msg (op_timer_cancel ops) _); [intros H0; apply Hnow; eauto|].
  destruct (linux_ipc_kmsg_is_port_closed _ _ _); [intros H0; apply Hnow; eauto|by apply Hagain].
Qed.

Definition with_turns (e : sleep_env) turns : sleep_env :=
  SleepEnv (se_load e) (se_store e) (se_boot_us e) (se_now e) (se_now2 e) (se_port e) (se_token e) turns.

(** The call is still asleep when the turns before [t] are over, and returns in
    the turn [t]. *)
Definition returns_in ops e (req rem : Z) (t : sleep_turn) : Prop :=
  ∃ pre post, se_turns e = pre ++ t :: post ∧ sys_nanosleep ops (with_turns e pre) 0 req rem = None
    ∧ is_Some (sys_nanosleep ops (with_turns e (pre ++ [t])) 0 req rem).

Lemma returns_in_turn ops e req rem t : returns_in ops e req rem t → t ∈ se_turns e.
Proof. intros (pre & post & -> & _). apply elem_of_app. right. by left. Qed.

(** A relative sleep: what the call does after its checks. *)
Lemma nanosleep_cases ops e req rem ts ret out : se_load e req = Some ts → linux_timespec_validate ts = 0 → req ≠ 0 →
  sys_nanosleep ops e 0 req rem = Some (ret, out) →
  let d := u64 (se_now e + us_to_count (linux_timespec_to_us ts)) in
  (ret = - LINUX_EAGAIN ∨ ret = - LINUX_EFAULT) ∧ out = None
  ∨ ∃ t, returns_in ops e req rem t
      ∧ (ret = 0 ∧ out = None ∧ time_before (end_reading d t) d = false
         ∨ ret = - LINUX_EINTR ∧ (out = None ∨ out = Some (linux_ticks_to_timespec (u64 (d - end_reading d t))))).
Proof.
  intros Hl Hv Hr Hs d.
  assert (∀ l, sys_nanosleep ops (with_turns e l) 0 req rem =
    match linux_time_sleep_until_count ops (se_port e) d (se_token e) l with
    | Some (ret, rm, _) => if (ret =? - LINUX_EINTR) && negb (rem =? 0) then
        match rm with
        | Some r => if se_store e rem r then Some (ret, Some r) else Some (- LINUX_EFAULT, None)
        | None => Some (ret, None)
        end else Some (ret, None)
    | None => None
    end) as Heq.
  { intros l. unfold sys_nanosleep, linux_nanosleep_impl. cbn [Z.eqb negb with_turns se_load].
    by rewrite (proj2 (Z.eqb_neq _ _) Hr), Hl, Hv. }
  assert (e = with_turns e (se_turns e)) as He by (by destruct e). rewrite He, Heq in Hs.
  unfold linux_time_sleep_until_count in *. destruct (se_port e) as [port|]; [|injection Hs as <- <-; auto].
  destruct (sleep_loop ops port d (se_token e) (se_turns e)) as [[[r rm] tk]|] eqn:Es; [|done].
  destruct (sleep_loop_ends _ _ _ _ _ _ _ _ Es) as (pre & t & post & Ht & Hp & Hq & Hon).
  assert (returns_in ops e req rem t) as Hret.
  { exists pre, post. rewrite !Heq, Hp, Hq, Hs. eauto. }
  destruct Hon as [[-> Hb]|[-> ->]].
  - injection Hs as <- <-. right. exists t. auto 10.
  - rewrite Z.eqb_refl in Hs. destruct (negb (rem =? 0)); cbn [andb] in Hs; [|injection Hs as <- <-; right; exists t; auto 10].
    destruct (se_store e rem _); injection Hs as <- <-; [right; exists t; auto 10|auto].
Qed.

(** C38. nanosleep does not return early.  When a call with a request of less
    than 2^64 nanoseconds reports success, the last reading of the clock before
    it returns is at or after the start plus the time asked for, rounded up to
    microseconds, whatever messages, errors, signals and wake-ups came in
    between.  The clock stays below 2^63 ticks, the deadline included; a larger
    request wraps around ([timespec_to_us_wraps]). *)
Theorem nanosleep_not_early ops e req rem ts out :
  se_load e req = Some ts → linux_timespec_validate ts = 0 → req ≠ 0 → requested_ns ts < 2 ^ 64 →
  0 ≤ se_now e → se_now e + us_to_count (linux_timespec_to_us ts) < 2 ^ 63 →
  Forall clock_ok (se_turns e) →
  sys_nanosleep ops e 0 req rem = Some (0, out) →
  let d := se_now e + us_to_count (linux_timespec_to_us ts) in
  requested_ns ts ≤ 1000 * linux_timespec_to_us ts < requested_ns ts + 1000
  ∧ ∃ t, returns_in ops e req rem t ∧ d ≤ end_reading d t.
Proof.
  intros Hl Hv Hr Hns H0 Hd Hall Hs d. pose proof (timespec_to_us_ceil ts Hv Hns). split; [lia|].
  pose proof (us_to_count_nonneg (linux_timespec_to_us ts)).
  destruct (nanosleep_cases _ _ _ _ _ _ _ Hl Hv Hr Hs) as [[[?|?] _]|(t & Ht & [(_ & _ & Hb)|[? _]])]; [done..| |done].
  exists t. split; [done|]. rewrite list.Forall_forall in Hall. pose proof (Hall t (returns_in_turn _ _ _ _ _ Ht)) as Hok. rewrite (uw_small 64) in Hb by lia. fold d in Hb.
  pose proof (end_reading_ok d t Hok). rewrite time_before_small in Hb by (unfold d in *; lia). apply Z.ltb_ge in Hb. lia.
Qed.

(** The remaining time in full: the last reading of the clock is subtracted from
    the deadline in 64 bits. *)
Lemma nanosleep_remainder_wraps ops e req rem ts r :
  se_load e req = Some ts → linux_timespec_validate ts = 0 → req ≠ 0 →
  0 ≤ se_now e → se_now e + us_to_count (linux_timespec_to_us ts) < 2 ^ 63 →
  Forall clock_ok (se_turns e) →
  sys_nanosleep ops e 0 req rem = Some (- LINUX_EINTR, Some r) →
  let d := se_now e + us_to_count (linux_timespec_to_us ts) in
  ∃ t, returns_in ops e req rem t
    ∧ r = linux_ticks_to_timespec (if end_reading d t <=? d then d - end_reading d t else 2 ^ 64 - (end_reading d t - d)).
Proof.
  intros Hl Hv Hr H0 Hd Hall Hs d. pose proof (us_to_count_nonneg (linux_timespec_to_us ts)).
  destruct (nanosleep_cases _ _ _ _ _ _ _ Hl Hv Hr Hs) as [[[?|?] ?]|(t & Ht & [(? & _)|(_ & [?|Ho])])]; [done..|].
  exists t. split; [done|]. rewrite list.Forall_forall in Hall. pose proof (Hall t (returns_in_turn _ _ _ _ _ Ht)) as Hok. injection Ho as ->.
  rewrite (uw_small 64 (_ + _)) by lia. fold d. pose proof (end_reading_ok d t Hok). f_equal.
  destruct (Z.leb_spec (end_reading d t) d).
  - apply uw_small. unfold d in *. lia.
  - unfold uw. rewrite <- (Z.mod_add _ 1) by lia. rewrite Z.mod_small by (unfold d in *; lia). lia.
Qed.

(** C39. The remaining time of an interrupted nanosleep.  When a call with a
    request of less than 2^64 nanoseconds is interrupted and the last reading of
    the clock before it returns is at or before the deadline, the time it
    stores is that from this reading to the deadline: the start plus the time
    asked for, rounded up to microseconds.  (For an interruption seen after the
    deadline see [nanosleep_remainder_wraps].) *)
Theorem nanosleep_remainder ops e req rem ts r :
  se_load e req = Some ts → linux_timespec_validate ts = 0 → req ≠ 0 → requested_ns ts < 2 ^ 64 →
  0 ≤ se_now e → se_now e + us_to_count (linux_timespec_to_us ts) < 2 ^ 63 →
  Forall clock_ok (se_turns e) →
  sys_nanosleep ops e 0 req rem = Some (- LINUX_EINTR, Some r) →
  let d := se_now e + us_to_count (linux_timespec_to_us ts) in
  requested_ns ts ≤ 1000 * linux_timespec_to_us ts < requested_ns ts + 1000
  ∧ ∃ t, returns_in ops e req rem t ∧ (end_reading d t ≤ d → r = linux_ticks_to_timespec (d - end_reading d t)).
Proof.
  intros Hl Hv Hr Hns H0 Hd Hall Hs d. pose proof (timespec_to_us_ceil ts Hv Hns). split; [lia|].
  destruct (nanosleep_remainder_wraps _ _ _ _ _ _ Hl Hv Hr H0 Hd Hall Hs) as (t & Ht & ->). fold d.
  exists t. split; [done|]. intros Hle. by rewrite (proj2 (Z.leb_le _ _) Hle).
Qed.

(** ** Polling *)

Lemma remaining_zero now d : linux_poll_remaining_ms now d = 0 ↔ time_before now d = false.
Proof.
  unfold linux_poll_remaining_ms. destruct (time_before now d); cbn [negb]; [|done].
  cbv zeta. set (x := i32 _). destruct (Z.ltb_spec 0 x); split; (done || lia).
Qed.

(** The loop of poll ends with 0 only after a scan that found nothing, without a
    timeout or when the clock has been read at or after the deadline. *)
Lemma poll_loop_zero ops port token nfds timeout d (turns : list poll_turn) out : timeout ≠ 0 →
  poll_loop ops port token nfds timeout d turns = Some (0, out) →
  ∃ dl t, d = Some dl ∧ t ∈ turns ∧ time_before (pt_now t) dl = false ∧ pt_scan t nfds = (0, out).
Proof.
  intros Ht. revert token. induction turns as [|t turns IH]; intros token; cbn [poll_loop]; [done|].
  destruct (pt_scan t nfds) as [ready o] eqn:Es.
  destruct (Z.ltb_spec ready 0); [intros [= Hz0 _]; lia|].
  destruct (Z.ltb_spec 0 ready); [intros [= Hz0 _]; lia|]. rewrite (proj2 (Z.eqb_neq _ _) Ht).
  assert (ready = 0) as -> by lia.
  assert (∀ ms, match linux_poll_sleep_ms ops port (pt_sleep_now t) token ms (pt_sleep t) with
    | Some (wait_ret, token0) =>
        if wait_ret <? 0 then Some (wait_ret, o) else poll_loop ops port token0 nfds timeout d turns
    | None => None end = Some (0, out) →
    ∃ dl t0, d = Some dl ∧ t0 ∈ t :: turns ∧ time_before (pt_now t0) dl = false ∧ pt_scan t0 nfds = (0, out)) as Hwait.
  { intros ms. destruct (linux_poll_sleep_ms _ _ _ _ _ _) as [[w tk]|]; [|done].
    destruct (Z.ltb_spec w 0); [intros [= Hw _]; lia|]. intros (dl & t0 & ? & ? & ? & ?)%IH.
    exists dl, t0. rewrite elem_of_cons. auto. }
  destruct d as [dl|]; [|apply Hwait]. destruct (Z.eqb_spec (linux_poll_remaining_ms (pt_now t) dl) 0) as [Hrz|]; [|apply Hwait].
  apply remaining_zero in Hrz. intros [= <-]. exists dl, t. rewrite elem_of_cons. auto.
Qed.

(** A scan reports what it stores: the count is that of the descriptors with
    events, every entry keeps its descriptor and the events asked for. *)
Lemma poll_scan_reports alloc load store fds nfds r out : linux_poll_scan alloc load store fds nfds = (r, Some out) →
  r = Z.of_nat (length (filter (λ p, pf_revents p ≠ 0) out))
  ∧ ∃ l, load = Some l ∧ Forall2 (λ p q, pf_fd q = pf_fd p ∧ pf_events q = pf_events p) l out.
Proof.
  unfold linux_poll_scan. destruct (nfds =? 0); [done|]. destruct (LINUX_POLL_MAX_NFDS <? nfds); [done|].
  destruct alloc; [|done]. destruct load as [l|]; [|done]. destruct store; [|done]. cbn [negb].
  intros [= <- <-]. split; [done|]. exists l. split; [done|].
  induction l as [|p l IH]; constructor; [|done]. unfold poll_scan_one.
  destruct (pf_fd p <? 0); [done|]. destruct (fds (pf_fd p)); done.
Qed.

(** poll with a timeout returns 0 only once the timeout is over. *)
Lemma poll_not_early ops port token ufds nfds timeout now (turns : list poll_turn) out : 0 < timeout < 2 ^ 31 → 0 ≤ now →
  now + us_to_count (timeout * 1000) < 2 ^ 63 → Forall (λ t, 0 ≤ pt_now t < 2 ^ 63) turns → ufds ≠ 0 →
  sys_poll ops port token 0 ufds nfds timeout now turns = Some (0, out) →
  ∃ t, t ∈ turns ∧ now + us_to_count (timeout * 1000) ≤ pt_now t ∧ pt_scan t nfds = (0, out).
Proof.
  intros Ht Hn Hd Hall Hu. unfold sys_poll. cbn [Z.eqb negb]. rewrite (proj2 (Z.eqb_neq _ _) Hu).
  rewrite (proj2 (Z.ltb_lt 0 timeout)), (uw_small 64 (timeout * 1000)) by lia. cbn [andb].
  pose proof (us_to_count_nonneg (timeout * 1000)). rewrite (uw_small 64) by lia.
  intros (dl & t & [= <-] & Hin & Hb & Hscan)%poll_loop_zero; [|lia].
  exists t. split; [done|]. split; [|done]. rewrite list.Forall_forall in Hall. specialize (Hall t Hin).
  rewrite time_before_small in Hb by lia. apply Z.ltb_ge in Hb. lia.
Qed.

End sleep.

(** ** Examples *)

Module TimeWit.

(** A tick is a microsecond. *)
#[local] Instance us_core : TimeCore :=
  {| us_to_count us := Z.max 0 us; count_to_us c := c; time_before a b := a <? b |}.
#[local] Instance us_core_laws : TimeCoreLaws.
Proof.
  split.
  - reflexivity.
  - intros us. cbn. lia.
Qed.

Definition ops : timer_ops := TimerOps 1 2 3 (str "q").
Definition port : message_port := Port (str "linux_sleep_5") 9.
Definition expire (token : Z) : kmsg_t := Kmsg 9 1 (default [] (demo_encode (str "q") [AQ token])).

(** Two milliseconds from 1000: an early expiry, then the real one. *)
Definition turn1 : sleep_turn :=
  SleepTurn 1000 false REND_SUCCESS REND_SUCCESS REND_SUCCESS (Some (Some (expire 1))) false 2500.
Definition turn2 : sleep_turn :=
  SleepTurn 2500 false REND_SUCCESS REND_SUCCESS REND_SUCCESS (Some (Some (expire 2))) false 3001.
Definition env (turns : list sleep_turn) : sleep_env :=
  SleepEnv (λ _, Some (TimeSpec 0 1999001)) (λ _ _, true) 0 1000 1000 (Some port) 0 turns.

Definition ts1 : linux_timespec := TimeSpec 0 1999001.

Lemma nanosleep_not_early_witness :
  let e := env [turn1; turn2] in let d := se_now e + us_to_count (linux_timespec_to_us ts1) in
  requested_ns ts1 ≤ 1000 * linux_timespec_to_us ts1 < requested_ns ts1 + 1000
  ∧ ∃ t, returns_in ops e 4096 0 t ∧ d ≤ end_reading d t.
Proof.
  apply (nanosleep_not_early ops (env [turn1; turn2]) 4096 0 ts1 None).
  - reflexivity.
  - vm_compute. reflexivity.
  - discriminate.
  - vm_compute. reflexivity.
  - vm_compute. discriminate.
  - vm_compute. reflexivity.
  - repeat constructor; vm_compute; congruence.
  - vm_compute. reflexivity.
Defined.

(** The signal is seen 500 ticks before the deadline, or five ticks after it. *)
Definition signalled (now : Z) : sleep_turn :=
  SleepTurn 1000 false REND_SUCCESS REND_SUCCESS REND_SUCCESS (Some (Some (expire 1))) true now.

Lemma nanosleep_remainder_witness :
  let e := env [signalled 2500] in let d := se_now e + us_to_count (linux_timespec_to_us ts1) in
  requested_ns ts1 ≤ 1000 * linux_timespec_to_us ts1 < requested_ns ts1 + 1000
  ∧ ∃ t, returns_in ops e 4096 8192 t
      ∧ (end_reading d t ≤ d → TimeSpec 0 500000 = linux_ticks_to_timespec (d - end_reading d t)).
Proof.
  apply (nanosleep_remainder ops (env [signalled 2500]) 4096 8192 ts1).
  - reflexivity.
  - vm_compute. reflexivity.
  - discriminate.
  - vm_compute. reflexivity.
  - vm_compute. discriminate.
  - vm_compute. reflexivity.
  - repeat constructor; vm_compute; congruence.
  - vm_compute. reflexivity.
Defined.

Example late_remainder_wraps :
  sys_nanosleep ops (env [signalled 3005]) 0 4096 8192 = Some (- LINUX_EINTR, Some (TimeSpec 18446744073709 551611000)).
Proof. vm_compute. reflexivity. Qed.

End TimeWit.
