(* ===== verification/VfsIpc.v ===== *)
(** * Requests to the VFS server

    [linux_layer/fs/fs_ipc.c] (the client side of a request), the formats of
    [include/linux_compat/fs/vfs_protocol.h], the arguments the callers of
    [vfs_ipc_request_response] pass ([sys_fs_impl.c], [sys_mount.c],
    [linux_fd_table.c], [linux_vfs_path.c]) and the decoding of
    [servers/fs/vfs_coop.c]. *)

From stdpp Require Import base numbers list strings option.
From Stdlib Require Import Ascii.
From S2P Require Import Prelude PortNames VfsCoop Rpc.

Definition VFS_SERVER_PORT_NAME : cstr := str "vfs_listen".
Definition KMSG_OP_VFS_RESP : Z := 0.
Definition VFS_KMSG_FMT_RESP : cstr := str "q".

(** What a system call asks of the VFS server. *)
Inductive fs_request : Type :=
  | FsOpen (path : cstr) (flags mode : Z)
  | FsClose (handle : Z)
  | FsRetain (handle : Z)
  | FsRead (handle user_buf count : Z)
  | FsWrite (handle user_buf count : Z)
  | FsFstat (handle user_statbuf : Z)
  | FsLseek (handle offset whence : Z)
  | FsChdir (path : cstr)
  | FsValidateDir (path : cstr)
  | FsMkdirat (path : cstr) (mode : Z)
  | FsUnlinkat (path : cstr) (flags : Z)
  | FsNewfstatat (path : cstr) (user_statbuf flags : Z)
  | FsGetdents64 (handle user_dirp count : Z)
  | FsMount (target fstype : cstr) (flags : Z)
  | FsUmount (target : cstr) (flags : Z)
  | FsRenameat (old new : cstr) (flags : Z)
  | FsLinkat (old new : cstr) (flags : Z)
  | FsReadlinkat (path : cstr) (user_buf bufsiz : Z)
  | FsFaccessat (path : cstr) (mode flags : Z).

(** The opcodes are numbered from [first] on. *)
Definition vfs_opcode_value (first : Z) (op : vfs_opcode) : Z :=
  match op with
  | KMSG_OP_VFS_OPEN => first
  | KMSG_OP_VFS_CLOSE => first + 1
  | KMSG_OP_VFS_READ => first + 2
  | KMSG_OP_VFS_WRITE => first + 3
  | KMSG_OP_VFS_FSTAT => first + 4
  | KMSG_OP_VFS_STAT => first + 5
  | KMSG_OP_VFS_LSEEK => first + 6
  | KMSG_OP_VFS_GETCWD => first + 7
  | KMSG_OP_VFS_CHDIR => first + 8
  | KMSG_OP_VFS_DUP3 => first + 9
  | KMSG_OP_VFS_PIPE2 => first + 10
  | KMSG_OP_VFS_MKDIRAT => first + 11
  | KMSG_OP_VFS_UNLINKAT => first + 12
  | KMSG_OP_VFS_NEWFSTATAT => first + 13
  | KMSG_OP_VFS_GETDENTS64 => first + 14
  | KMSG_OP_VFS_HANDLE_RETAIN => first + 15
  | KMSG_OP_VFS_VALIDATE_DIR => first + 16
  | KMSG_OP_VFS_MOUNT => first + 17
  | KMSG_OP_VFS_UMOUNT => first + 18
  | KMSG_OP_VFS_RENAMEAT => first + 19
  | KMSG_OP_VFS_LINKAT => first + 20
  | KMSG_OP_VFS_BACKEND_REGISTER => first + 21
  | KMSG_OP_VFS_READLINKAT => first + 22
  | KMSG_OP_VFS_FACCESSAT => first + 23
  | KMSG_OP_UNKNOWN => first + 24
  end.

#[global] Instance vfs_opcode_eq_dec : EqDecision vfs_opcode.
Proof. solve_decision. Defined.

Definition all_vfs_opcodes : list vfs_opcode :=
  [KMSG_OP_VFS_OPEN; KMSG_OP_VFS_CLOSE; KMSG_OP_VFS_READ; KMSG_OP_VFS_WRITE; KMSG_OP_VFS_FSTAT; KMSG_OP_VFS_STAT;
   KMSG_OP_VFS_LSEEK; KMSG_OP_VFS_GETCWD; KMSG_OP_VFS_CHDIR; KMSG_OP_VFS_DUP3; KMSG_OP_VFS_PIPE2;
   KMSG_OP_VFS_MKDIRAT; KMSG_OP_VFS_UNLINKAT; KMSG_OP_VFS_NEWFSTATAT; KMSG_OP_VFS_GETDENTS64;
   KMSG_OP_VFS_HANDLE_RETAIN; KMSG_OP_VFS_VALIDATE_DIR; KMSG_OP_VFS_MOUNT; KMSG_OP_VFS_UMOUNT;
   KMSG_OP_VFS_RENAMEAT; KMSG_OP_VFS_LINKAT; KMSG_OP_VFS_BACKEND_REGISTER; KMSG_OP_VFS_READLINKAT;
   KMSG_OP_VFS_FACCESSAT].

(** The case of the server's switches an opcode number takes. *)
Definition vfs_opcode_of (first n : Z) : vfs_opcode :=
  default KMSG_OP_UNKNOWN (snd <$> list_find (λ op, vfs_opcode_value first op = n) all_vfs_opcodes).

(** Opcodes without a format are decoded with the reply port alone. *)
Definition vfs_kmsg_fmt (op : vfs_opcode) : cstr :=
  match op with
  | KMSG_OP_VFS_CLOSE | KMSG_OP_VFS_HANDLE_RETAIN => str "i"
  | KMSG_OP_VFS_READ | KMSG_OP_VFS_WRITE | KMSG_OP_VFS_GETDENTS64 => str "ipp"
  | KMSG_OP_VFS_OPEN => str "siu"
  | KMSG_OP_VFS_FSTAT => str "ip"
  | KMSG_OP_VFS_LSEEK => str "iqi"
  | KMSG_OP_VFS_DUP3 => str "iii"
  | KMSG_OP_VFS_PIPE2 => str "pi"
  | KMSG_OP_VFS_MKDIRAT | KMSG_OP_VFS_UMOUNT => str "su"
  | KMSG_OP_VFS_UNLINKAT => str "si"
  | KMSG_OP_VFS_NEWFSTATAT | KMSG_OP_VFS_READLINKAT => str "spu"
  | KMSG_OP_VFS_CHDIR | KMSG_OP_VFS_VALIDATE_DIR => str "s"
  | KMSG_OP_VFS_MOUNT | KMSG_OP_VFS_RENAMEAT | KMSG_OP_VFS_LINKAT => str "ssu"
  | KMSG_OP_VFS_BACKEND_REGISTER => str "ssuu"
  | KMSG_OP_VFS_FACCESSAT => str "suu"
  | KMSG_OP_VFS_STAT | KMSG_OP_VFS_GETCWD | KMSG_OP_UNKNOWN => []
  end.

(** ** The client *)

(** The opcode and the arguments a caller passes.  The letters [i] and [u] take
    32 bits of the argument. *)
Definition fs_request_call (r : fs_request) : vfs_opcode * list ser_arg :=
  match r with
  | FsOpen path flags mode => (KMSG_OP_VFS_OPEN, [AStr (Some path); AU (u32 flags); AU (u32 mode)])
  | FsClose handle => (KMSG_OP_VFS_CLOSE, [AU (u32 handle)])
  | FsRetain handle => (KMSG_OP_VFS_HANDLE_RETAIN, [AU (u32 handle)])
  | FsRead handle user_buf count => (KMSG_OP_VFS_READ, [AU (u32 handle); APtr user_buf; APtr count])
  | FsWrite handle user_buf count => (KMSG_OP_VFS_WRITE, [AU (u32 handle); APtr user_buf; APtr count])
  | FsFstat handle user_statbuf => (KMSG_OP_VFS_FSTAT, [AU (u32 handle); APtr user_statbuf])
  | FsLseek handle offset whence => (KMSG_OP_VFS_LSEEK, [AU (u32 handle); AQ offset; AU (u32 whence)])
  | FsChdir path => (KMSG_OP_VFS_CHDIR, [AStr (Some path)])
  | FsValidateDir path => (KMSG_OP_VFS_VALIDATE_DIR, [AStr (Some path)])
  | FsMkdirat path mode => (KMSG_OP_VFS_MKDIRAT, [AStr (Some path); AU (u32 mode)])
  | FsUnlinkat path flags => (KMSG_OP_VFS_UNLINKAT, [AStr (Some path); AU (u32 flags)])
  | FsNewfstatat path user_statbuf flags =>
      (KMSG_OP_VFS_NEWFSTATAT, [AStr (Some path); APtr user_statbuf; AU (u32 flags)])
  | FsGetdents64 handle user_dirp count => (KMSG_OP_VFS_GETDENTS64, [AU (u32 handle); APtr user_dirp; APtr count])
  | FsMount target fstype flags => (KMSG_OP_VFS_MOUNT, [AStr (Some target); AStr (Some fstype); AU (u32 flags)])
  | FsUmount target flags => (KMSG_OP_VFS_UMOUNT, [AStr (Some target); AU (u32 flags)])
  | FsRenameat old new flags => (KMSG_OP_VFS_RENAMEAT, [AStr (Some old); AStr (Some new); AU (u32 flags)])
  | FsLinkat old new flags => (KMSG_OP_VFS_LINKAT, [AStr (Some old); AStr (Some new); AU (u32 flags)])
  | FsReadlinkat path user_buf bufsiz =>
      (KMSG_OP_VFS_READLINKAT, [AStr (Some path); APtr user_buf; AU (u32 bufsiz)])
  | FsFaccessat path mode flags =>
      (KMSG_OP_VFS_FACCESSAT, [AStr (Some path); AU (u32 mode); AU (u32 flags)])
  end.

Section client.
Context `{SE : IpcSerial} {E : Type} `{C : Core E}.
Implicit Types (t : thread_io E).

(** How the port of a client is found or made: whether there is a port table,
    whether a new port can be registered, and the port created. *)
Record port_env : Type := PortEnv {
  pe_table : bool;
  pe_registered : bool;
  pe_created : cstr → option message_port;
}.

(** [pid]: of the current process, [None] if there is none. *)
Definition vfs_get_or_create_client_port (pe : port_env) t (pid : option Z) : option message_port * thread_io E :=
  match pid with
  | None => (None, t)
  | Some pid =>
      if pid <=? 0 then (None, t)
      else
        match ipc_rpc_format_port_name PORT_NAME_LEN_MAX (Some VFS_CLIENT_PORT_PREFIX) pid with
        | (_, O) => (None, t)
        | (name, _) =>
            ipc_rpc_port_lookup_or_create t (Some name) (pe_table pe) (pe_registered pe) (pe_created pe name)
        end
  end.

Definition vfs_ipc_request_response (first : Z) ops (pe : port_env) t (pid : option Z) (opcode : vfs_opcode)
    (fmt : cstr) (args : list ser_arg) (signal : bool) (evs : list recv_event) : thread_io E * option Z :=
  match pid with
  | None => (t, Some (- LINUX_ESRCH))
  | Some _ =>
      match vfs_get_or_create_client_port pe t pid with
      | (None, t) => (t, Some (- LINUX_EIO))
      | (Some client_port, t) =>
          match thread_lookup_port t VFS_SERVER_PORT_NAME with
          | (None, t) => (t, Some (- LINUX_ENOSYS))
          | (Some vfs_port, t) =>
              ipc_rpc_call_va_uninterruptible ops t (Some vfs_port) (Some client_port) (vfs_opcode_value first opcode)
                fmt KMSG_OP_VFS_RESP (Some VFS_KMSG_FMT_RESP) args signal evs
          end
      end
  end.

(** A request with the format of its opcode. *)
Definition fs_call first ops pe t pid (r : fs_request) signal evs : thread_io E * option Z :=
  let '(opcode, args) := fs_request_call r in
  vfs_ipc_request_response first ops pe t pid opcode (vfs_kmsg_fmt opcode) args signal evs.

(** ** The server *)

(** The variables the decoder fills; 32-bit values leave the upper half 0. *)
Definition kmsg_fields (op : vfs_opcode) (args : list ser_arg) : option kmsg_args :=
  match op, args with
  | (KMSG_OP_VFS_OPEN | KMSG_OP_VFS_FACCESSAT), [AStr s; AU p1; AU p2; AStr rp] => Some (KmsgArgs s None p1 p2 0 rp)
  | (KMSG_OP_VFS_MKDIRAT | KMSG_OP_VFS_UNLINKAT | KMSG_OP_VFS_UMOUNT), [AStr s; AU p1; AStr rp] =>
      Some (KmsgArgs s None p1 0 0 rp)
  | (KMSG_OP_VFS_NEWFSTATAT | KMSG_OP_VFS_READLINKAT), [AStr s; APtr p1; AU p2; AStr rp] =>
      Some (KmsgArgs s None p1 p2 0 rp)
  | (KMSG_OP_VFS_CHDIR | KMSG_OP_VFS_VALIDATE_DIR), [AStr s; AStr rp] => Some (KmsgArgs s None 0 0 0 rp)
  | (KMSG_OP_VFS_RENAMEAT | KMSG_OP_VFS_LINKAT | KMSG_OP_VFS_MOUNT), [AStr s; AStr s2; AU p1; AStr rp] =>
      Some (KmsgArgs s s2 p1 0 0 rp)
  | (KMSG_OP_VFS_GETDENTS64 | KMSG_OP_VFS_READ | KMSG_OP_VFS_WRITE), [AU p1; APtr p2; APtr p3; AStr rp] =>
      Some (KmsgArgs None None p1 p2 p3 rp)
  | (KMSG_OP_VFS_CLOSE | KMSG_OP_VFS_HANDLE_RETAIN), [AU p1; AStr rp] => Some (KmsgArgs None None p1 0 0 rp)
  | KMSG_OP_VFS_FSTAT, [AU p1; APtr p2; AStr rp] => Some (KmsgArgs None None p1 p2 0 rp)
  | KMSG_OP_VFS_LSEEK, [AU p1; AQ p2; AU p3; AStr rp] => Some (KmsgArgs None None p1 (u64 p2) p3 rp)
  | KMSG_OP_VFS_BACKEND_REGISTER, [AStr s; AStr s2; AU p1; AU p2; AStr rp] => Some (KmsgArgs s s2 p1 p2 0 rp)
  | KMSG_OP_VFS_DUP3, [AU p1; AU p2; AU p3; AStr rp] => Some (KmsgArgs None None p1 p2 p3 rp)
  | KMSG_OP_VFS_PIPE2, [APtr p1; AU p2; AStr rp] => Some (KmsgArgs None None p1 p2 0 rp)
  | (KMSG_OP_VFS_STAT | KMSG_OP_VFS_GETCWD | KMSG_OP_UNKNOWN), [AStr rp] => Some (KmsgArgs None None 0 0 0 rp)
  | _, _ => None
  end.

Definition vfs_kmsg_decode (op : vfs_opcode) (payload : list Z) : option kmsg_args :=
  args ← ipc_serial_decode (vfs_kmsg_fmt op ++ [tag_t]) payload; kmsg_fields op args.
End client.
