(* ===== verification/VfsIpcThm.v ===== *)
(** * Requests arrive at the VFS server as they were made *)

From stdpp Require Import base numbers list strings option sets.
From Stdlib Require Import Ascii.
From S2P Require Import Prelude PortNames VfsCoop Rpc RpcThm RpcDemo RpcProps VfsIpc.

(** What the server is asked: the parameters of the request, with the 32 bits
    their letters keep, and the port of the client. *)
Definition fs_request_args (r : fs_request) (client : cstr) : kmsg_args :=
  let mk s s2 p1 p2 p3 := KmsgArgs s s2 p1 p2 p3 (Some client) in
  match r with
  | FsOpen path flags mode => mk (Some path) None (u32 flags) (u32 mode) 0
  | FsClose handle | FsRetain handle => mk None None (u32 handle) 0 0
  | FsRead handle buf count | FsWrite handle buf count | FsGetdents64 handle buf count =>
      mk None None (u32 handle) buf count
  | FsFstat handle buf => mk None None (u32 handle) buf 0
  | FsLseek handle offset whence => mk None None (u32 handle) (u64 offset) (u32 whence)
  | FsChdir path | FsValidateDir path => mk (Some path) None 0 0 0
  | FsMkdirat path x | FsUnlinkat path x | FsUmount path x => mk (Some path) None (u32 x) 0 0
  | FsNewfstatat path buf x | FsReadlinkat path buf x => mk (Some path) None buf (u32 x) 0
  | FsMount a b x | FsRenameat a b x | FsLinkat a b x => mk (Some a) (Some b) (u32 x) 0 0
  | FsFaccessat path mode flags => mk (Some path) None (u32 mode) (u32 flags) 0
  end.

Lemma vfs_opcode_of_value first op : op ≠ KMSG_OP_UNKNOWN → vfs_opcode_of first (vfs_opcode_value first op) = op.
Proof.
  intros Hop. unfold vfs_opcode_of.
  assert (∀ op', vfs_opcode_value first op' = vfs_opcode_value first op → op' = op) as Hinj.
  { intros op' Heq. destruct op', op; cbn in Heq; (reflexivity || lia). }
  destruct (list_find _ all_vfs_opcodes) as [[i op']|] eqn:Ef; cbn.
  - apply list_find_Some in Ef as (_ & Heq & _). by apply Hinj.
  - apply list_find_None in Ef. rewrite list.Forall_forall in Ef. destruct (Ef op); [|done].
    destruct op; (done || set_solver).
Qed.

Lemma fs_opcode_known r : (fs_request_call r).1 ≠ KMSG_OP_UNKNOWN.
Proof. by destruct r. Qed.

Lemma digits_no_nul ds : Forall (λ c, is_digit c = true) ds → zero ∉ ds.
Proof. intros Hd Hz. rewrite list.Forall_forall in Hd. by specialize (Hd _ Hz). Qed.

Lemma client_name_no_nul pid name : 0 < pid < 2 ^ 31 →
  (ipc_rpc_format_port_name PORT_NAME_LEN_MAX (Some VFS_CLIENT_PORT_PREFIX) pid).1 = name → zero ∉ name.
Proof.
  intros Hp <-. destruct (format_pid_digits 56 pid Hp ltac:(lia)) as (ds & Ed & Hne & _ & Hd & _).
  unfold ipc_rpc_format_port_name. change (PORT_NAME_LEN_MAX - _)%nat with 56%nat. rewrite Ed.
  destruct ds as [|c ds]; [done|]. cbn [length]. cbn -[elem_of].
  change (zero ∉ VFS_CLIENT_PORT_PREFIX ++ c :: ds). rewrite elem_of_app. intros [Hz|Hz].
  - vm_compute in Hz. repeat (apply elem_of_cons in Hz as [Hz|Hz]; [discriminate Hz|]). by apply not_elem_of_nil in Hz.
  - by eapply digits_no_nul.
Qed.

(** The letter of a format an argument is passed for; 32-bit arguments fit. *)
Definition letter_takes (c : ascii) (a : ser_arg) : Prop :=
  match a with
  | AStr s => c = "s"%char ∧ is_Some s
  | APtr _ => c = "p"%char
  | AQ _ => c = "q"%char
  | AU x => (c = "u"%char ∨ c = "i"%char) ∧ 0 ≤ x < 2 ^ 32
  end.

Lemma u32_letter c x : c = "u"%char ∨ c = "i"%char → letter_takes c (AU (u32 x)).
Proof. intros Hc. split; [done|]. apply uw_range. lia. Qed.

Lemma str_letter s : letter_takes "s"%char (AStr (Some s)).
Proof. split; [done|by eexists]. Qed.

Lemma fs_request_letters r : Forall2 letter_takes (vfs_kmsg_fmt (fs_request_call r).1) (fs_request_call r).2.
Proof.
  destruct r; cbn [fs_request_call fst snd vfs_kmsg_fmt];
    match goal with |- Forall2 _ (str ?s) _ => let l := eval vm_compute in (str s) in change (str s) with l end;
    repeat apply Forall2_cons_2; try apply Forall2_nil_2;
    first [exact eq_refl | apply str_letter | apply u32_letter; left; exact eq_refl | apply u32_letter; right; exact eq_refl].
Qed.

Section arrive.
Context `{SE : IpcSerial} `{!IpcSerialLaws} {E : Type} `{C : Core E} `{!CoreLaws E}.
Implicit Types (t : thread_io E).

Lemma fs_fields r client :
  kmsg_fields (fs_request_call r).1 ((fs_request_call r).2 ++ [AStr (Some client)]) = Some (fs_request_args r client).
Proof. by destruct r. Qed.

(** A port made for a name has that name. *)
Definition creates (pe : port_env) : Prop := ∀ n p, pe_created pe n = Some p → po_name p = n.

Lemma client_port_spec pe t pid p t' : creates pe → 0 < pid < 2 ^ 31 →
  vfs_get_or_create_client_port pe t (Some pid) = (p, t') →
  io_eq t t' ∧ ∀ q, p = Some q → vfs_rpc_client_pid (Some (po_name q)) = Some pid
    ∧ (length (po_name q) < PORT_NAME_LEN_MAX)%nat ∧ zero ∉ po_name q.
Proof.
  intros Hcr Hp. unfold vfs_get_or_create_client_port. rewrite (proj2 (Z.leb_gt _ _)) by lia.
  destruct (client_port_name pid Hp) as (name & Ef & Hl & Hpid & _). rewrite Ef.
  assert (zero ∉ name) as Hz by (eapply client_name_no_nul; [done|by rewrite Ef]).
  destruct (length name) eqn:El; [lia|]. unfold ipc_rpc_port_lookup_or_create.
  destruct (is_nul name 0 || negb (pe_table pe)); [by intros [= <- <-]|].
  destruct (thread_lookup_port t name) as [[q|] t1] eqn:E1; pose proof (lookup_io_eq _ _ _ _ E1).
  - intros [= <- <-]. split; [done|]. intros q' [= <-].
    unfold thread_lookup_port in E1. destruct (core_lookup name (t_core t)) as [o e'] eqn:Ec.
    injection E1 as -> <-. rewrite (lookup_name _ _ _ _ Ec). split_and!; [done|lia|done].
  - destruct (pe_created pe name) as [q|] eqn:Eq; [|by intros [= <- <-]].
    intros [= <- <-]. split; [done|]. intros q' Hq. destruct (pe_registered pe); [|done]. injection Hq as <-.
    rewrite (Hcr _ _ Eq). split_and!; [done|lia|done].
Qed.

(** C12. What a file system call asks reaches the VFS server as it was asked, on
    behalf of the process that asked.  The arguments are passed for the letters
    of the format.  Either nothing is delivered and the call
    returns an error, or one message is delivered to the server: the server
    takes the case of the request's opcode, decodes the path names and numbers
    that were passed (32 bits of flags, modes, handles and, for readlinkat, of
    the buffer size), attributes the request to the caller's pid and answers on
    the caller's port; the call returns what the wait there gives, signals or
    not. *)
Theorem fs_request_arrives first ops pe t pid r signal evs t' res : creates pe → 0 < pid < 2 ^ 31 → t_sendq t = [] →
  fs_call first ops pe t (Some pid) r signal evs = (t', res) →
  Forall2 letter_takes (vfs_kmsg_fmt (fs_request_call r).1) (fs_request_call r).2
  ∧ (t_log t' = t_log t ∧ (∃ e, res = Some (- e) ∧ e ∈ [LINUX_EIO; LINUX_ENOSYS; LINUX_EINVAL; LINUX_ENOMEM])
  ∨ ∃ m client server, t_log t' = t_log t ++ [(VFS_SERVER_PORT_NAME, m)]
      ∧ km_reply_port m = Some (po_name client)
      ∧ (∀ rp, request_pid (po_name client) rp = Some pid)
      ∧ vfs_opcode_of first (km_opcode m) = (fs_request_call r).1
      ∧ vfs_kmsg_decode (vfs_opcode_of first (km_opcode m)) (km_payload m) = Some (fs_request_args r (po_name client))
      ∧ res = rpc_wait ops client server KMSG_OP_VFS_RESP VFS_KMSG_FMT_RESP evs).
Proof.
  intros Hcr Hp Hq Hcall. split; [apply fs_request_letters|]. revert Hcall. unfold fs_call. destruct (fs_request_call r) as [op args] eqn:Er. unfold vfs_ipc_request_response.
  destruct (vfs_get_or_create_client_port pe t (Some pid)) as [cp t1] eqn:Ec.
  destruct (client_port_spec _ _ _ _ _ Hcr Hp Ec) as [[Hq1 Hl1] Hcp].
  destruct cp as [cp|]; [|intros [= <- <-]; left; split; [done|]; eexists; split; [done|set_solver]].
  destruct (Hcp cp eq_refl) as (Hpid & Hlen & Hz).
  destruct (thread_lookup_port t1 VFS_SERVER_PORT_NAME) as [sp t2] eqn:Es.
  destruct (lookup_io_eq _ _ _ _ Es) as [Hq2 Hl2].
  destruct sp as [sp|]; [|intros [= <- <-]; left; split; [congruence|]; eexists; split; [done|set_solver]].
  assert (po_name sp = VFS_SERVER_PORT_NAME) as Hsp.
  { unfold thread_lookup_port in Es. destruct (core_lookup _ _) as [o e'] eqn:El. injection Es as -> _.
    by apply lookup_name in El. }
  intros Hcall. apply (call_cases _ _ _ _ _ _ _ _ _ _ _ _ _ _ Hz Hlen) in Hcall; [|congruence].
  cbn [andb] in Hcall. rewrite Hl2, Hl1 in Hcall. destruct Hcall as [[? (e & ? & ?)]|(m & (_ & Ho & Hr & Hd) & Hl & ->)].
  - left. split; [done|]. exists e. split; [done|set_solver].
  - right. exists m, cp, (po_service_id sp). pose proof (fs_opcode_known r) as Hk. pose proof (fs_fields r (po_name cp)) as Hf.
    rewrite Er in Hk, Hf. cbn in Hk, Hf. rewrite Ho, (vfs_opcode_of_value _ _ Hk). rewrite Hsp in Hl. split_and!; try done.
    + intros rp. unfold request_pid. by rewrite Hpid.
    + unfold vfs_kmsg_decode. rewrite Hd, decide_True by done. done.
Qed.
End arrive.

(** ** Examples *)

Module VfsIpcWit.

Definition ops : rpc_opcodes := RpcOpcodes 99 98.
Definition pe : port_env := PortEnv true true (λ n, Some (Port n 12)).
Definition reply : kmsg_t := Kmsg 7 0 (default [] (demo_encode (str "q") [AQ 5])).
Definition asked (r : fs_request) : thread_io unit * option Z :=
  fs_call 200 ops pe (ThreadIo [] [] tt) (Some 42) r true [RecvNone; RecvMsg (Some reply)].
Definition open_req : fs_request := FsOpen (str "/etc/passwd") (-1) 0.

(** With a signal pending and an empty wake-up before the answer. *)
Lemma fs_request_arrives_witness :
  (asked open_req).2 = Some 5
  ∧ Forall2 letter_takes (vfs_kmsg_fmt (fs_request_call open_req).1) (fs_request_call open_req).2
  ∧ (t_log (asked open_req).1 = []
       ∧ (∃ e, (asked open_req).2 = Some (- e) ∧ e ∈ [LINUX_EIO; LINUX_ENOSYS; LINUX_EINVAL; LINUX_ENOMEM])
     ∨ ∃ m client server, t_log (asked open_req).1 = [(VFS_SERVER_PORT_NAME, m)]
         ∧ km_reply_port m = Some (po_name client)
         ∧ (∀ rp, request_pid (po_name client) rp = Some 42)
         ∧ vfs_opcode_of 200 (km_opcode m) = KMSG_OP_VFS_OPEN
         ∧ vfs_kmsg_decode (vfs_opcode_of 200 (km_opcode m)) (km_payload m)
           = Some (fs_request_args open_req (po_name client))
         ∧ (asked open_req).2
           = rpc_wait ops client server KMSG_OP_VFS_RESP VFS_KMSG_FMT_RESP [RecvNone; RecvMsg (Some reply)]).
Proof.
  split; [vm_compute; reflexivity|].
  apply (fs_request_arrives 200 ops pe (ThreadIo [] [] tt) 42 open_req true [RecvNone; RecvMsg (Some reply)]
    (asked open_req).1 (asked open_req).2).
  - by intros n p [= <-].
  - lia.
  - reflexivity.
  - vm_compute. reflexivity.
Defined.

(** A buffer of 2^32 bytes is none at all for readlinkat. *)
Example readlinkat_size_cut :
  km_param2 (fs_request_args (FsReadlinkat (str "/l") 4096 (2 ^ 32)) (str "vfs_cli_42")) = 0.
Proof. reflexivity. Qed.

End VfsIpcWit.
