(* ===== verification/SysFs.v ===== *)
(** * File system calls

    [linux_layer/fs/sys_fs_impl.c], [linux_layer/fs/sys_mount.c] and
    [linux_layer/io/sys_write.c]: the checks, the copies from and to user memory,
    the descriptor table and the requests to the VFS server, on x86_64. *)

From stdpp Require Import base numbers list strings option.
From Stdlib Require Import Ascii.
From S2P Require Import Prelude PageSlice VfsPath VfsInode Pipe FdSlice PortNames SigSet Proc ExecStack Exec VfsOpen Rpc VfsIpc FdTable.

Definition LINUX_ESPIPE : Z := 29.
Definition LINUX_ERANGE : Z := 34.
Definition LINUX_O_DIRECTORY : Z := 0x10000.

(** ** Writing to the console *)

Definition LINUX_WRITE_MAX_CHUNK : Z := 4096.
Definition LINUX_WRITE_TOTAL_CAP : Z := 0x100000.

Section console.
Context (KERNEL_VIRT_OFFSET : Z).

Definition user_buf_range_ok (user_buf count : Z) : bool :=
  if count =? 0 then true
  else if KERNEL_VIRT_OFFSET <=? user_buf then false
  else if u64 (user_buf + count) <? user_buf then false
  else negb (KERNEL_VIRT_OFFSET <? u64 (user_buf + count)).

(** The pieces copied, as addresses and lengths. *)
Fixpoint write_loop (fuel : nat) (user_buf count total : Z) : list (Z * Z) :=
  match fuel with
  | O => []
  | S fuel' =>
      if total <? count then
        let chunk := Z.min (count - total) LINUX_WRITE_MAX_CHUNK in
        (user_buf + total, chunk) :: write_loop fuel' user_buf count (total + chunk)
      else []
  end.

Definition sys_write_impl (fd user_buf count : Z) : Z * list (Z * Z) :=
  if count =? 0 then (0, [])
  else if LINUX_WRITE_TOTAL_CAP <? count then (- LINUX_EINVAL, [])
  else if negb (fd =? 1) && negb (fd =? 2) then (- LINUX_EBADF, [])
  else if negb (user_buf_range_ok user_buf count) then (- LINUX_EFAULT, [])
  else (i64 count, write_loop (Z.to_nat count) user_buf count 0).
End console.

Section sys_fs.
Context {F : Type} `{FS : FdStore F} {M : Type} `{UB : UserBytes M}.
Context (KERNEL_VIRT_OFFSET : Z).
Abbreviation proc := (ptr F).

(** What a call finds: whether there is a current process with an address space,
    whether that is a user address space, its memory, the error of a failing
    load, and the answers of the VFS server. *)
Record fs_env : Type := FsEnv {
  fe_alloc : alloc_oracle;
  fe_vs : bool;
  fe_user : bool;
  fe_mem : M;
  fe_load_err : error_t;
  fe_validate : cstr → bool;
  fe_vfs : fs_request → Z;
}.

(** What a call leaves: the descriptors, user memory, the result, the requests
    made and the console output. *)
Record fs_res : Type := FsRes {
  fr_world : world;
  fr_proc : proc;
  fr_mem : M;
  fr_ret : Z;
  fr_reqs : list fs_request;
  fr_console : list (Z * Z);
}.

Implicit Types (e : fs_env) (w : world) (t : proc).

Definition fs_return e w t (ret : Z) : fs_res := FsRes w t (fe_mem e) ret [] [].
Definition fs_ask e w t (r : fs_request) : fs_res := FsRes w t (fe_mem e) (fe_vfs e r) [r] [].
Definition fs_table e (p : world * proc * Z) : fs_res := FsRes p.1.1 p.1.2 (fe_mem e) p.2 [] [].

Definition linux_open_flags_normalize (flags : Z) : Z := flags.

Definition sys_fs_load_pathname e (user_pathname : Z) : Z * cstr :=
  match linux_mm_load_cstring_from_user (fe_load_err e) (fe_user e) (fe_mem e) user_pathname (Z.of_nat VFS_PATH_MAX) with
  | (REND_SUCCESS, buf) => (0, string_of buf)
  | (E_IN_PARAM, _) => (- LINUX_EINVAL, [])
  | _ => (- LINUX_EFAULT, [])
  end.

(** The checks every call with a path begins with, then [k]. *)
Definition with_user e w t (k : unit → fs_res) : fs_res :=
  if negb (fe_vs e) then fs_return e w t (- LINUX_ESRCH)
  else if negb (fe_user e) then fs_return e w t (- LINUX_EFAULT)
  else k tt.

Definition with_pathname e w t (user_pathname : Z) (k : cstr → fs_res) : fs_res :=
  let '(ret, pathname) := sys_fs_load_pathname e user_pathname in
  if ret <? 0 then fs_return e w t ret else k pathname.

Definition with_abs e w t (dirfd : Z) (pathname : cstr) (k : proc → cstr → fs_res) : fs_res :=
  let '(t', (ret, abs)) := linux_vfs_resolve_path (fe_alloc e) (fe_validate e) t dirfd (Some pathname) VFS_PATH_MAX in
  if ret <? 0 then fs_return e w t' ret else k t' (default [] abs).

(** The beginning of the calls with one path, and of those with two. *)
Definition with_abs_path e w t (dirfd user_pathname : Z) (k : proc → cstr → fs_res) : fs_res :=
  with_user e w t (λ _, with_pathname e w t user_pathname (λ pathname, with_abs e w t dirfd pathname k)).

Definition with_two_paths e w t (olddirfd user_oldpath newdirfd user_newpath : Z)
    (k : proc → cstr → cstr → fs_res) : fs_res :=
  with_user e w t (λ _,
    with_pathname e w t user_oldpath (λ oldpath,
      with_pathname e w t user_newpath (λ newpath,
        with_abs e w t olddirfd oldpath (λ t1 old_abs,
          with_abs e w t1 newdirfd newpath (λ t2 new_abs, k t2 old_abs new_abs))))).

(** An open file, then [k]; EBADF otherwise. *)
Definition with_fd e w t (fd : Z) (k : linux_fd_entry → fs_res) : fs_res :=
  match linux_fd_get t fd with
  | None => fs_return e w t (- LINUX_EBADF)
  | Some ent => k ent
  end.

(** ** Working directory *)

Definition sys_getcwd e w t (user_buf size : Z) : fs_res :=
  if negb (fe_vs e) then fs_return e w t (- LINUX_ESRCH)
  else
    match t with
    | None => fs_return e w t (- LINUX_ESRCH)
    | Some f =>
        if size =? 0 then fs_return e w t (- LINUX_EINVAL)
        else if negb (fe_user e) then fs_return e w t (- LINUX_EFAULT)
        else
          let cwd := fds_cwd f in
          let len := Z.of_nat (length cwd) + 1 in
          if size <? len then fs_return e w t (- LINUX_ERANGE)
          else
            let '(m, ok) := ub_store (fe_mem e) user_buf (str_bytes cwd ++ [0]) in
            FsRes w t m (if ok then i64 user_buf else - LINUX_EFAULT) [] []
    end.

Definition sys_chdir e w t (user_pathname : Z) : fs_res :=
  if negb (fe_vs e) then fs_return e w t (- LINUX_ESRCH)
  else
    match t with
    | None => fs_return e w t (- LINUX_ESRCH)
    | Some _ =>
        with_abs_path e w t LINUX_AT_FDCWD user_pathname (λ t abs,
          let ret := fe_vfs e (FsChdir abs) in
          if ret <? 0 then fs_ask e w t (FsChdir abs)
          else
            FsRes w ((λ f, fds_set_cwd (fe_alloc e) f (Some abs)) <$> t) (fe_mem e) 0 [FsChdir abs] [])
    end.

(** ** Descriptors *)

Definition sys_dup e w t (fd : Z) : fs_res :=
  let '(t1, newfd) := linux_fd_lowest_free (fe_alloc e) t in
  if newfd <? 0 then fs_return e w t1 (- LINUX_EMFILE)
  else fs_table e (linux_fd_dup2 (fe_alloc e) w t1 fd newfd).

Definition sys_dup2 e w t (oldfd newfd : Z) : fs_res := fs_table e (linux_fd_dup2 (fe_alloc e) w t oldfd newfd).

Definition sys_dup3 e w t (oldfd newfd flags : Z) : fs_res :=
  if negb (Z.land flags (Z.lnot LINUX_O_CLOEXEC) =? 0) then fs_return e w t (- LINUX_EINVAL)
  else if oldfd =? newfd then fs_return e w t (- LINUX_EINVAL)
  else
    let '(w1, t1, ret) := linux_fd_dup2 (fe_alloc e) w t oldfd newfd in
    if ret <? 0 then fs_return e w1 t1 ret
    else if has flags LINUX_O_CLOEXEC then
      with_fd e w1 t1 newfd (λ ent,
        match linux_fd_store (fe_alloc e) t1 newfd (with_fd_flags ent (Z.lor (fd_flags ent) LINUX_FD_CLOEXEC)) with
        | (t2, REND_SUCCESS) => fs_return e w1 t2 ret
        | (t2, _) => fs_return e w1 t2 (- LINUX_EBADF)
        end)
    else fs_return e w1 t1 ret.

Definition sys_close e w t (fd : Z) : fs_res := fs_table e (linux_fd_close (fe_alloc e) w t fd).

(** [alloc], [store_ok]: as for [linux_pipe_create2]. *)
Definition sys_pipe2 e (alloc store_ok : bool) w t (flags : Z) : world * proc * (Z * option (Z * Z)) :=
  linux_pipe_create2 (fe_alloc e) (fe_vs e) alloc store_ok w t flags.
Definition sys_pipe e (alloc store_ok : bool) w t : world * proc * (Z * option (Z * Z)) :=
  sys_pipe2 e alloc store_ok w t 0.

(** ** Opening *)

(** The entry of a new descriptor. *)
Definition open_entry (abs : cstr) (flags handle : Z) : linux_fd_entry :=
  LinuxFdEntry LINUX_FD_VFS (u32 (Z.land handle VFS_OPEN_RET_HANDLE_MASK)) (Z.land (u32 flags) (not32 LINUX_O_CLOEXEC))
    (if has flags LINUX_O_CLOEXEC then LINUX_FD_CLOEXEC else 0)
    (has handle VFS_OPEN_RET_IS_DIR_BIT || has flags LINUX_O_DIRECTORY) false (strncpy_term abs (VFS_PATH_MAX - 1)).

Definition sys_openat e w t (dirfd user_pathname flags mode : Z) : fs_res :=
  with_abs_path e w t dirfd user_pathname (λ t abs,
    let flags := linux_open_flags_normalize flags in
    let req := FsOpen abs flags (u32 mode) in
    let handle := fe_vfs e req in
    if handle <=? 0 then FsRes w t (fe_mem e) (if handle <? 0 then handle else - LINUX_EMFILE) [req] []
    else
      let ent := open_entry abs flags handle in
      let '(t1, fd) := linux_fd_alloc (fe_alloc e) t (Some ent) in
      if fd <? 0 then
        FsRes (send w (KMSG_OP_VFS_CLOSE (vfs_handle ent))) t1 (fe_mem e) (- LINUX_EMFILE) [req] []
      else FsRes w t1 (fe_mem e) fd [req] []).

(** ** Reading and writing *)

Definition set_pipe w (id : Z) (p : ptr linux_pipe) : world := set_pipes w (<[Z.to_nat id := p]> (w_pipes w)).

(** [fuel] and [penv]: the turns a pipe call makes and what other tasks do
    meanwhile; [past]: the memory behind the buffer of the pipe; [pstore]: which
    copies to user memory succeed.  The bytes read
    from a pipe are given too. *)
Definition sys_read e (fuel : nat) (penv : linux_pipe → linux_pipe) (past : linux_pipe → Z → Z) (pstore : Z → bool) w t
    (fd user_buf count : Z) : call_result (fs_res * list Z) :=
  match linux_fd_get t fd with
  | None => Done (fs_return e w t (- LINUX_EBADF), [])
  | Some ent =>
      match fd_kind ent with
      | LINUX_FD_CONSOLE_IN => Done (fs_return e w t 0, [])
      | LINUX_FD_PIPE =>
          if negb (pipe_read ent) then Done (fs_return e w t (- LINUX_EBADF), [])
          else
            match linux_pipe_read fuel penv past pstore (fe_vs e) (linux_pipe_from_id (w_pipes w) (vfs_handle ent)) count with
            | Done (p, r, out) => Done (fs_return e (set_pipe w (vfs_handle ent) p) t r, out)
            | Fault => Fault
            | Running => Running
            end
      | LINUX_FD_VFS => Done (fs_ask e w t (FsRead (vfs_handle ent) user_buf count), [])
      | _ => Done (fs_return e w t (- LINUX_EBADF), [])
      end
  end.

Definition sys_write e (fuel : nat) (penv : linux_pipe → linux_pipe) w t (fd user_buf count : Z)
  : call_result fs_res :=
  let console n :=
    let '(ret, out) := sys_write_impl KERNEL_VIRT_OFFSET n user_buf count in
    Done (FsRes w t (fe_mem e) ret [] out) in
  match linux_fd_get t fd with
  | None => Done (fs_return e w t (- LINUX_EBADF))
  | Some ent =>
      match fd_kind ent with
      | LINUX_FD_CONSOLE_OUT => console 1
      | LINUX_FD_CONSOLE_ERR => console 2
      | LINUX_FD_PIPE =>
          if pipe_read ent then Done (fs_return e w t (- LINUX_EBADF))
          else
            match linux_pipe_write fuel penv (λ total n, ub_load (fe_mem e) (u64 (user_buf + total)) (Z.to_nat n)) (fe_vs e)
                    (linux_pipe_from_id (w_pipes w) (vfs_handle ent)) count with
            | Done (p, r) => Done (fs_return e (set_pipe w (vfs_handle ent) p) t r)
            | Fault => Fault
            | Running => Running
            end
      | LINUX_FD_VFS => Done (fs_ask e w t (FsWrite (vfs_handle ent) user_buf count))
      | _ => Done (fs_return e w t (- LINUX_EBADF))
      end
  end.

(** ** Other calls on descriptors *)

Definition sys_fstat e w t (fd user_statbuf : Z) : fs_res :=
  with_fd e w t fd (λ ent,
    if decide (fd_kind ent ≠ LINUX_FD_VFS) then fs_return e w t (- LINUX_EBADF)
    else fs_ask e w t (FsFstat (vfs_handle ent) user_statbuf)).

Definition sys_lseek e w t (fd offset whence : Z) : fs_res :=
  with_fd e w t fd (λ ent,
    if decide (fd_kind ent ≠ LINUX_FD_VFS) then fs_return e w t (- LINUX_ESPIPE)
    else fs_ask e w t (FsLseek (vfs_handle ent) offset whence)).

Definition sys_getdents64 e w t (fd user_dirp count : Z) : fs_res :=
  with_fd e w t fd (λ ent,
    if bool_decide (fd_kind ent ≠ LINUX_FD_VFS) || negb (fd_is_dir ent) then fs_return e w t (- LINUX_ENOTDIR)
    else fs_ask e w t (FsGetdents64 (vfs_handle ent) user_dirp count)).

(** ** Calls with paths *)

Definition sys_stat e w t (user_pathname user_statbuf : Z) : fs_res := fs_return e w t (- LINUX_ENOSYS).
Definition sys_mkdir e w t (user_pathname mode : Z) : fs_res := fs_return e w t (- LINUX_ENOSYS).

Definition sys_mkdirat e w t (dirfd user_pathname mode : Z) : fs_res :=
  with_abs_path e w t dirfd user_pathname (λ t abs, fs_ask e w t (FsMkdirat abs mode)).

Definition sys_unlinkat e w t (dirfd user_pathname flags : Z) : fs_res :=
  with_abs_path e w t dirfd user_pathname (λ t abs, fs_ask e w t (FsUnlinkat abs flags)).

Definition sys_unlink e w t (user_pathname : Z) : fs_res := sys_unlinkat e w t LINUX_AT_FDCWD user_pathname 0.

Definition sys_renameat e w t (olddirfd user_oldpath newdirfd user_newpath flags : Z) : fs_res :=
  with_two_paths e w t olddirfd user_oldpath newdirfd user_newpath (λ t old new, fs_ask e w t (FsRenameat old new flags)).

Definition sys_linkat e w t (olddirfd user_oldpath newdirfd user_newpath flags : Z) : fs_res :=
  with_two_paths e w t olddirfd user_oldpath newdirfd user_newpath (λ t old new, fs_ask e w t (FsLinkat old new flags)).

Definition sys_newfstatat e w t (dirfd user_pathname user_statbuf flags : Z) : fs_res :=
  with_abs_path e w t dirfd user_pathname (λ t abs, fs_ask e w t (FsNewfstatat abs user_statbuf flags)).

Definition sys_readlinkat e w t (dirfd user_pathname user_buf bufsiz : Z) : fs_res :=
  with_abs_path e w t dirfd user_pathname (λ t abs, fs_ask e w t (FsReadlinkat abs user_buf bufsiz)).

Definition sys_faccessat e w t (dirfd user_pathname mode flags : Z) : fs_res :=
  with_abs_path e w t dirfd user_pathname (λ t abs, fs_ask e w t (FsFaccessat abs mode flags)).

(** ** Mounting *)

(** A buffer of [n] bytes, with its last byte set to NUL. *)
Definition load_buffer e (user : Z) (n : nat) : option cstr :=
  (λ l, string_of (take (n - 1) l ++ [0])) <$> ub_load (fe_mem e) user n.

Definition sys_mount e w t (user_source user_target user_fstype flags : Z) : fs_res :=
  with_user e w t (λ _,
    if negb (user_source =? 0) && negb (bool_decide (is_Some (load_buffer e user_source 256)))
    then fs_return e w t (- LINUX_EFAULT)
    else
      match load_buffer e user_target VFS_PATH_MAX with
      | None => fs_return e w t (- LINUX_EFAULT)
      | Some target =>
          match load_buffer e user_fstype 32 with
          | None => fs_return e w t (- LINUX_EFAULT)
          | Some fstype => fs_ask e w t (FsMount target fstype flags)
          end
      end).

Definition sys_umount2 e w t (user_target flags : Z) : fs_res :=
  with_user e w t (λ _,
    match load_buffer e user_target VFS_PATH_MAX with
    | None => fs_return e w t (- LINUX_EFAULT)
    | Some target => fs_ask e w t (FsUmount target flags)
    end).
End sys_fs.

Arguments fs_env : clear implicits.
Arguments fs_res : clear implicits.
