(* ===== verification/SysFsThm.v ===== *)
(** * What the file system calls do to descriptors *)

From stdpp Require Import base numbers list strings option gmap.
From Stdlib Require Import Ascii.
From S2P Require Import Prelude PageSlice VfsPath VfsInode Pipe FdSlice PortNames SigSet Proc ExecStack ExecStackThm Exec VfsOpen Rpc VfsIpc FdTable SysFs.

(** ** Paths keep the characters they are made of *)

Section chars.
Context (P : ascii → Prop) (Pslash : P slash).

Lemma copy_bounded_chars cap out s : Forall P out → Forall P s → Forall P (copy_bounded cap out s).
Proof. intros Ho Hs. rewrite copy_bounded_take. apply Forall_app. split; [done|]. by apply Forall_take. Qed.

Lemma collapse_emit_chars raw cap comps : ∀ out, Forall P raw → Forall P out → Forall P (collapse_emit raw cap comps out).
Proof.
  induction comps as [|[o l] comps IH]; intros out Hr Ho; cbn [collapse_emit]; [done|].
  pose proof (copy_bounded_chars cap out (take (Z.to_nat l) (drop (Z.to_nat o) raw)) Ho
    (Forall_take _ _ _ (Forall_drop _ _ _ Hr))) as H1.
  apply IH; [done|]. destruct comps; [done|]. case_match; [|done]. apply Forall_app. auto.
Qed.

Lemma normalize_chars p cap q : Forall P p → vfs_path_normalize (Some p) cap = Some q → Forall P q.
Proof.
  intros Hp. assert (∀ raw q, Forall P raw → vfs_path_collapse raw cap = Some q → Forall P q) as Hcol.
  { intros raw q0 Hr. unfold vfs_path_collapse. destruct (cap =? 0)%nat; [done|].
    destruct (if is_char raw 0 slash then _ else _) as [off src]. destruct (collapse_scan _ _ _ _).
    - intros [= <-]. auto.
    - intros Hq%(inj Some). rewrite <- Hq. apply collapse_emit_chars; auto. }
  unfold vfs_path_normalize. destruct (cap =? 0)%nat; [done|]. cbn [default].
  assert (∀ s, Forall P s → vfs_path_collapse (copy_bounded VFS_PATH_MAX [slash]
    (if is_char s 0 slash then drop 1 s else s)) cap = Some q → Forall P q) as Hrest.
  { intros s Hs. apply Hcol, copy_bounded_chars; [auto|]. case_match; [by apply Forall_drop|done]. }
  cbv zeta. destruct (_ && _); [apply Hrest; by apply Forall_drop|]. destruct (_ && _); [|by apply Hrest].
  apply Hcol. auto.
Qed.

Lemma path_norm_chars p : Forall P p → Forall P (path_norm p).
Proof.
  intros Hp. pose proof (normalize_wide p VFS_PATH_MAX ltac:(done)). by eapply normalize_chars.
Qed.

Lemma append_loop_chars cap suffix : ∀ s q, Forall P s → Forall P suffix → append_loop cap s suffix = Some q → Forall P q.
Proof.
  induction suffix as [|c suffix IH]; intros s q Hs Hc; cbn [append_loop]; [by intros [= <-]|].
  apply Forall_cons_1 in Hc as [Hx Hr]. case_match; [done|]. apply IH; [|done]. apply Forall_app. auto.
Qed.

Lemma append_chars s cap suffix q : Forall P s → Forall P suffix → vfs_path_append_to_scratch s cap suffix = Some q →
  Forall P q.
Proof.
  intros Hs Hr. unfold vfs_path_append_to_scratch. destruct (_ && _); [case_match; [done|]|]; apply append_loop_chars; auto.
  apply Forall_app. auto.
Qed.

Lemma parent_chars p cap q : Forall P p → vfs_path_parent (Some p) cap = Some q → Forall P q.
Proof.
  intros Hp. unfold vfs_path_parent. repeat (case_match; [done|] || case_match); intros [= <-]; auto.
  by apply Forall_take, path_norm_chars.
Qed.

Lemma join_chars base rel cap q : Forall P base → Forall P rel → vfs_path_join (Some base) (Some rel) cap = Some q →
  Forall P q.
Proof.
  intros Hb Hr. pose proof (path_norm_chars _ Hb) as Hn. unfold vfs_path_join. destruct (cap =? 0)%nat; [done|].
  destruct (is_char rel 0 slash); [by apply normalize_chars|].
  assert (∀ r, Forall P r →
    (let scratch := copy_bounded VFS_PATH_MAX [] (path_norm base) in
     let i := length scratch in
     if (i =? 0)%nat then None
     else
       let scratch := if negb (is_char scratch (i - 1) slash) && (i + 1 <? VFS_PATH_MAX)%nat
                      then scratch ++ [slash] else scratch in
       vfs_path_normalize (Some (copy_bounded VFS_PATH_MAX scratch r)) cap) = Some q → Forall P q) as Hgen.
  { intros r Hrr. cbv zeta. case_match; [done|]. apply normalize_chars, copy_bounded_chars; [|done].
    pose proof (copy_bounded_chars VFS_PATH_MAX [] (path_norm base) (Forall_nil_2 _) Hn).
    case_match; [|done]. apply Forall_app. auto. }
  cbv zeta. destruct (_ && _); [apply Hgen; by apply Forall_drop|].
  destruct (_ && _); [intros [= <-]; by apply Forall_take|]. destruct (_ && _); [|by apply Hgen].
  assert (Forall P (match vfs_path_parent (Some (path_norm base)) VFS_PATH_MAX with
    | Some s => s | None => strncpy_term (path_norm base) (VFS_PATH_MAX - 1) end)) as Hs.
  { destruct (vfs_path_parent _ _) eqn:Ep; [by eapply parent_chars|by apply Forall_take]. }
  destruct (is_char rel 2 slash); [|by apply normalize_chars].
  destruct (vfs_path_append_to_scratch _ _ _) eqn:Ea; [|done]. apply normalize_chars.
  eapply append_chars; [..|exact Ea]; [done|by apply Forall_drop].
Qed.
End chars.

Lemma no_nul_chars s : zero ∉ s ↔ Forall (λ c, c ≠ zero) s.
Proof. rewrite list.Forall_forall. split; [by intros Hz c Hc ->|by intros Hf Hz; apply Hf in Hz]. Qed.

(** ** Resolution *)

Section resolve.
Context {F : Type} `{FS : FdStore F} {FSL : FdStoreLaws F}.
Implicit Types (f : F) (l : list linux_fd_entry).

Lemma set_is_dir_full al f cwd l (n : nat) e d : fds_rep f cwd l → fds_full f → l !! n = Some e →
  fds_full (linux_fd_set_is_dir al f (Z.of_nat n) d).
Proof.
  intros Hr Hf He. pose proof (lookup_lt_Some _ _ _ He). unfold linux_fd_set_is_dir.
  destruct (fds_cap_law f cwd l Hr) as [-> _].
  rewrite (proj2 (Z.ltb_ge _ _)), (proj2 (Z.leb_gt _ _)) by lia. cbn [orb].
  rewrite (fds_load_law f cwd l n e Hr He).
  destruct (fds_store_law al f cwd l n (with_is_dir e d) Hr) as (f' & -> & _ & Hf'); [done| |by apply Hf'].
  apply with_is_dir_wf. by eapply entry_at_wf.
Qed.

(** A path, or an error. *)
Definition resolved (r : Z * ptr cstr) : Prop :=
  r.1 < 0 ∧ r.2 = None ∨ r.1 = 0 ∧ ∃ abs, r.2 = Some abs ∧ zero ∉ abs.

Lemma normalize_resolved p : zero ∉ p → resolved (0, vfs_path_normalize (Some p) VFS_PATH_MAX).
Proof.
  intros Hz. right. split; [done|]. rewrite normalize_wide by done. eexists. split; [done|].
  apply no_nul_chars, path_norm_chars; [done|]. by apply no_nul_chars.
Qed.

(** The last step: the path is joined to its base. *)
Lemma join_resolved (t : ptr F) base path t' r : zero ∉ base → zero ∉ path →
  match vfs_path_join (Some (strncpy_term base (VFS_PATH_MAX - 1))) (Some path) VFS_PATH_MAX with
  | None => (t, (- LINUX_EINVAL, None))
  | Some joined => (t, (0, vfs_path_normalize (Some joined) VFS_PATH_MAX))
  end = (t', r) → t' = t ∧ resolved r.
Proof.
  intros Hb Hz. destruct (vfs_path_join _ _ _) as [j|] eqn:Ej; intros [= <- <-]; (split; [done|]); [|by left].
  apply normalize_resolved, no_nul_chars. eapply join_chars; [done|..|exact Ej]; [|by apply no_nul_chars].
  by apply Forall_take, no_nul_chars.
Qed.

(** Resolution gives a path or an error; the table is as before, except that a
    directory may be recorded as such. *)
Lemma resolve_keeps al validate f cwd l dirfd path t' r : fds_rep f cwd l → fds_full f → zero ∉ path →
  linux_vfs_resolve_path al validate (Some f) dirfd (Some path) VFS_PATH_MAX = (t', r) →
  resolved r ∧ ∃ f' l', t' = Some f' ∧ fds_rep f' cwd l' ∧ fds_full f' ∧ dir_learnt l l' dirfd.
Proof.
  intros Hr Hf Hz. unfold linux_vfs_resolve_path. change (VFS_PATH_MAX =? 0)%nat with false. cbv iota.
  assert (∀ P : Prop, P → P ∧ ∃ f' l', Some f = Some f' ∧ fds_rep f' cwd l' ∧ fds_full f' ∧ dir_learnt l l' dirfd) as Hsame.
  { intros P HP. split; [done|]. exists f, l. split_and!; try done. by left. }
  assert (∀ e, 0 < e → resolved (- e, None)) as Herr by (intros e He; left; cbn; split; [lia|done]).
  assert (∀ base, zero ∉ base → match vfs_path_join (Some (strncpy_term base (VFS_PATH_MAX - 1))) (Some path) VFS_PATH_MAX with
    | None => (Some f, (- LINUX_EINVAL, None))
    | Some joined => (Some f, (0, vfs_path_normalize (Some joined) VFS_PATH_MAX))
    end = (t', r) →
    resolved r ∧ ∃ f' l', t' = Some f' ∧ fds_rep f' cwd l' ∧ fds_full f' ∧ dir_learnt l l' dirfd) as Hjoin.
  { intros base Hb Hj. destruct (join_resolved _ _ _ _ _ Hb Hz Hj) as [-> ?]. by apply Hsame. }
  destruct (is_char path 0 slash); [intros [= <- <-]; by apply Hsame, normalize_resolved|].
  cbv zeta. destruct (fds_cwd_law f cwd l Hr) as [-> [_ Hcz]]. destruct (dirfd =? LINUX_AT_FDCWD); [by apply Hjoin|].
  rewrite (fd_get_spec f cwd l dirfd Hr). destruct (opened l dirfd) as [e|] eqn:Eo; [|intros [= <- <-]; by apply Hsame, Herr].
  apply opened_Some in Eo as (n & -> & He & Hu). pose proof (ew_nul _ (entry_at_wf _ _ _ _ _ Hr He)) as Hez.
  destruct (decide _); [intros [= <- <-]; by apply Hsame, Herr|]. destruct (fd_is_dir e) eqn:Ed.
  - rewrite Ed. cbn [negb]. destruct (is_nul (vfs_abs_path e) 0) eqn:En; cbn [negb mbind option_bind].
    + rewrite (nul_path_lookup f cwd l n e Hr He En). intros [= <- <-]. by apply Hsame, Herr.
    + rewrite En. by apply Hjoin.
  - destruct (is_nul (vfs_abs_path e) 0) eqn:En.
    { rewrite (nul_path_lookup f cwd l n e Hr He En), Ed. cbn [negb]. intros [= <- <-]. by apply Hsame, Herr. }
    rewrite En. cbn [negb andb]. destruct (validate (vfs_abs_path e)); [|rewrite Ed; intros [= <- <-]; by apply Hsame, Herr].
    pose proof (set_is_dir_spec al f cwd l n e true Hr He) as Hr1.
    rewrite (fd_get_spec _ cwd _ _ Hr1), opened_insert, decide_True by (done || by eapply lookup_lt_Some).
    change (is_free (with_is_dir e true)) with (is_free e). rewrite Hu.
    cbn [fd_is_dir with_is_dir vfs_abs_path negb]. rewrite En. cbn [negb]. rewrite En.
    intros Hj. destruct (join_resolved _ _ _ _ _ Hez Hz Hj) as [-> ?]. split; [done|].
    eexists _, _. split_and!; [done|exact Hr1|by eapply set_is_dir_full|]. right. by exists n, e.
Qed.
End resolve.

(** ** Opening *)

Section open.
Context {F : Type} `{FS : FdStore F} {FSL : FdStoreLaws F} {M : Type} `{UB : UserBytes M}.
Implicit Types (f : F) (l : list linux_fd_entry) (e : @fs_env M).

Lemma open_entry_wf abs flags handle : zero ∉ abs → entry_wf (open_entry abs flags handle).
Proof.
  intros Hz. split; cbn.
  - apply uw_range. lia.
  - apply land_bound; [lia|]. apply uw_range. lia.
  - case_match; unfold LINUX_FD_CLOEXEC; lia.
  - unfold strncpy_term. rewrite length_take. unfold VFS_PATH_MAX. lia.
  - apply no_nul_chars, Forall_take, no_nul_chars. done.
Qed.

(** The server's answer to an open is the handle with a mark for directories. *)
Lemma open_entry_handle abs flags h (d : bool) : 0 < h < 2 ^ 31 →
  let e := open_entry abs flags (Z.lor h (if d then VFS_OPEN_RET_IS_DIR_BIT else 0)) in
  vfs_handle e = h ∧ fd_is_dir e = d || has flags LINUX_O_DIRECTORY.
Proof.
  intros Hh. cbn. change VFS_OPEN_RET_HANDLE_MASK with (Z.ones 31). rewrite Z.land_lor_distr_l.
  rewrite Z.land_ones, (Z.mod_small h) by lia. split.
  - replace (Z.land _ (Z.ones 31)) with 0 by (by destruct d). rewrite Z.lor_0_r. apply uw_small. lia.
  - f_equal. unfold has. rewrite Z.land_lor_distr_l. replace (Z.land h VFS_OPEN_RET_IS_DIR_BIT) with 0.
    { by destruct d. }
    symmetry. change VFS_OPEN_RET_IS_DIR_BIT with (2 ^ 31). apply Z.bits_inj'. intros i Hi.
    rewrite Z.land_spec, Z.pow2_bits_eqb, Z.bits_0 by lia. destruct (Z.eqb_spec 31 i) as [<-|]; [|by rewrite andb_false_r].
    rewrite andb_true_r. apply Z.bits_above_log2; [lia|]. apply Z.log2_lt_pow2; lia.
Qed.

Lemma dir_learnt_length l l' dirfd : dir_learnt l l' dirfd → length l' = length l.
Proof. intros [->|(n & x & _ & _ & ->)]; [done|]. by rewrite length_insert. Qed.

(** Reading an open file asks the server for its handle. *)
Lemma read_asks e fuel penv past ps w f cwd l (fd : nat) ent buf n : fds_rep f cwd l → l !! fd = Some ent →
  fd_kind ent = LINUX_FD_VFS →
  sys_read e fuel penv past ps w (Some f) (Z.of_nat fd) buf n = Done (fs_ask e w (Some f) (FsRead (vfs_handle ent) buf n), []).
Proof.
  intros Hr He Hk. unfold sys_read. rewrite (fd_get_spec f cwd l _ Hr).
  assert (opened l (Z.of_nat fd) = Some ent) as ->.
  { apply opened_Some. exists fd. split_and!; [done..|]. unfold is_free. rewrite Hk. done. }
  by rewrite Hk.
Qed.

(** ** The working directory *)

(** A successful chdir sets the working directory to the path the server has
    confirmed; a failing one leaves it. *)
Lemma chdir_sets_cwd e w f cwd l up path : fds_rep f cwd l → fds_full f → fe_vs e = true → fe_user e = true →
  sys_fs_load_pathname e up = (0, path) → zero ∉ path →
  let res := sys_chdir e w (Some f) up in
  ∃ f2 cwd2, fr_proc res = Some f2 ∧ fds_rep f2 cwd2 l ∧ fr_world res = w
    ∧ (fr_ret res < 0 ∧ cwd2 = cwd
       ∨ fr_ret res = 0 ∧ ∃ abs, fr_reqs res = [FsChdir abs] ∧ 0 ≤ fe_vfs e (FsChdir abs)
           ∧ linux_vfs_resolve_path (fe_alloc e) (fe_validate e) (Some f) LINUX_AT_FDCWD (Some path) VFS_PATH_MAX
             = (Some f, (0, Some abs))
           ∧ cwd2 = take (VFS_PATH_MAX - 1) abs).
Proof.
  intros Hr Hf Hv Hu Hp Hz res.
  destruct (linux_vfs_resolve_path (fe_alloc e) (fe_validate e) (Some f) LINUX_AT_FDCWD (Some path) VFS_PATH_MAX)
    as [t1 [ret abs]] eqn:Er.
  assert (t1 = Some f) as ->.
  { unfold linux_vfs_resolve_path in Er. change (VFS_PATH_MAX =? 0)%nat with false in Er. cbv iota zeta in Er.
    rewrite Z.eqb_refl in Er. destruct (is_char path 0 slash); [by injection Er|].
    destruct (vfs_path_join _ _ _); by injection Er. }
  destruct (resolve_keeps _ _ _ _ _ _ _ _ _ Hr Hf Hz Er) as (Hres & _).
  unfold res, sys_chdir, with_abs_path, with_user, with_pathname, with_abs. rewrite Hv, Hu, Hp, Er. cbn [negb].
  change (0 <? 0) with false. cbv iota. destruct Hres as [[Hneg Ha]|[Hret (a & Ha & Haz)]]; cbn in Ha; subst abs.
  { cbn in Hneg. rewrite (proj2 (Z.ltb_lt _ _) Hneg). exists f, cwd. split_and!; try done. by left. }
  cbn in Hret. subst ret. change (default [] (Some a)) with a. change (0 <? 0) with false. cbv iota zeta.
  destruct (Z.ltb_spec (fe_vfs e (FsChdir a)) 0).
  { exists f, cwd. split_and!; try done. by left. }
  destruct (fds_set_cwd_law (fe_alloc e) f cwd l a Hr Haz) as [Hr2 _].
  eexists _, _. split_and!; [done|exact Hr2|done|]. right. split; [done|]. by exists a.
Qed.

(** getcwd stores the working directory and its NUL, if they fit. *)
Lemma getcwd_stores e w f cwd l buf size : fds_rep f cwd l → fe_vs e = true → fe_user e = true → size ≠ 0 →
  let '(m, ok) := ub_store (fe_mem e) buf (str_bytes cwd ++ [0]) in
  sys_getcwd e w (Some f) buf size =
    if size <? Z.of_nat (length cwd) + 1 then fs_return e w (Some f) (- LINUX_ERANGE)
    else FsRes w (Some f) m (if ok then i64 buf else - LINUX_EFAULT) [] [].
Proof.
  intros Hr Hv Hu Hs. destruct (ub_store _ _ _) as [m ok] eqn:Es. unfold sys_getcwd. rewrite Hv, Hu.
  rewrite (proj2 (Z.eqb_neq _ _) Hs). cbn [negb]. destruct (fds_cwd_law f cwd l Hr) as [-> _]. cbv zeta. by rewrite Es.
Qed.

(** What an open leaves, by the result of the resolution: [l1] are the
    descriptors after it. *)
Definition open_outcome e w cwd l1 (r : Z * ptr cstr) (flags mode : Z) (res : @fs_res F M) f2 : Prop :=
  match r.2 with
  | None => fr_ret res = r.1 ∧ r.1 < 0 ∧ fr_reqs res = [] ∧ fr_world res = w ∧ fds_rep f2 cwd l1
  | Some abs =>
      let h := fe_vfs e (FsOpen abs flags (u32 mode)) in
      let handle := u32 (Z.land h VFS_OPEN_RET_HANDLE_MASK) in
      fr_reqs res = [FsOpen abs flags (u32 mode)]
      ∧ (h ≤ 0 ∧ fr_ret res = (if h <? 0 then h else - LINUX_EMFILE) ∧ fr_world res = w ∧ fds_rep f2 cwd l1
         ∨ 0 < h ∧ (∃ (fd : nat) l2, fr_ret res = Z.of_nat fd ∧ fr_world res = w
              ∧ (l2 = l1 ∨ none_free l1 0 ∧ l2 = grown l1 64) ∧ lowest_free l2 0 fd
              ∧ fds_rep f2 cwd (<[fd := open_entry abs flags h]> l2)
              ∧ ∀ e' fuel penv past ps w' buf n, sys_read e' fuel penv past ps w' (Some f2) (Z.of_nat fd) buf n
                  = Done (fs_ask e' w' (Some f2) (FsRead handle buf n), []))
         ∨ 0 < h ∧ none_free l1 0 ∧ fr_ret res = - LINUX_EMFILE
           ∧ fr_world res = send w (KMSG_OP_VFS_CLOSE handle) ∧ fds_rep f2 cwd l1)
  end.

(** C13. Opening a file.  openat resolves the path and sends the VFS server one
    open request, for the resolved path; on its positive answer the lowest free descriptor
    (the first of 64 new ones when none is free) becomes the file with that
    handle, the flags without O_CLOEXEC, the close-on-exec mark and the path,
    and a read of the descriptor asks the server for exactly that handle.  When no
    descriptor can be had, the handle is closed again and the call fails with
    EMFILE; when resolution or the server fails, the call returns their error.
    In all cases every other descriptor stays as it was, except that the
    descriptor [dirfd] may be recorded as a directory: resolution asks the
    server about it in a separate request ([fe_validate]). *)
Theorem openat_spec e w f cwd l dirfd up flags mode path :
  fds_rep f cwd l → fds_full f → Z.of_nat (length l) + 64 < FD_CAP_BOUND →
  fe_vs e = true → fe_user e = true → sys_fs_load_pathname e up = (0, path) → zero ∉ path →
  let res := sys_openat e w (Some f) dirfd up flags mode in
  ∃ f1 l1 f2 r, linux_vfs_resolve_path (fe_alloc e) (fe_validate e) (Some f) dirfd (Some path) VFS_PATH_MAX = (Some f1, r)
    ∧ dir_learnt l l1 dirfd ∧ fr_proc res = Some f2 ∧ fr_mem res = fe_mem e
    ∧ open_outcome e w cwd l1 r flags mode res f2.
Proof.
  intros Hr Hf Hb Hv Hu Hp Hz res.
  destruct (linux_vfs_resolve_path (fe_alloc e) (fe_validate e) (Some f) dirfd (Some path) VFS_PATH_MAX) as [t1 r] eqn:Er.
  destruct (resolve_keeps _ _ _ _ _ _ _ _ _ Hr Hf Hz Er) as (Hres & f1 & l1 & -> & Hr1 & Hf1 & Hd).
  pose proof (dir_learnt_length _ _ _ Hd) as Hlen. unfold res, sys_openat, with_abs_path, with_user, with_pathname, with_abs.
  rewrite Hv, Hu, Hp, Er. cbn [negb]. change (0 <? 0) with false. cbv iota. destruct r as [ret abs]. unfold open_outcome.
  destruct Hres as [[Hneg Ha]|[Hret (a & Ha & Haz)]]; cbn in Ha; subst abs.
  { cbn in Hneg. rewrite (proj2 (Z.ltb_lt _ _) Hneg). exists f1, l1, f1, (ret, None). split_and!; done. }
  cbn in Hret. subst ret. change (default [] (Some a)) with a. change (0 <? 0) with false. cbv iota zeta.
  unfold linux_open_flags_normalize.
  set (h := fe_vfs e (FsOpen a flags (u32 mode))). destruct (Z.leb_spec h 0).
  { exists f1, l1, f1, (0, Some a). split_and!; try done. split; [done|]. by left. }
  destruct (linux_fd_alloc _ _ _) as [t2 fd] eqn:Ea.
  destruct (fd_alloc_spec _ _ _ _ _ _ _ Hr1 Hf1 (open_entry_wf a flags h Haz) ltac:(lia) Ea)
    as (f2 & -> & [(k & -> & Hlow & _ & Hr2)|[(Hnone & -> & _ & Hr2)|(Hnone & -> & Hr2)]]).
  - rewrite (proj2 (Z.ltb_ge _ _)) by lia. exists f1, l1, f2, (0, Some a). split_and!; try done. split; [done|].
    right. left. split; [done|]. exists k, l1. split_and!; try done; [by left|]. intros.
    rewrite (read_asks _ _ _ _ _ _ _ _ _ _ _ _ _ Hr2 (list_lookup_insert_eq _ _ _ ltac:(destruct Hlow as (_ & (x & Hx & _) & _); by eapply lookup_lt_Some)) eq_refl). done.
  - rewrite (proj2 (Z.ltb_ge _ _)) by lia. exists f1, l1, f2, (0, Some a). split_and!; try done. split; [done|].
    right. left. split; [done|]. exists (length l1), (grown l1 64).
    pose proof (lowest_free_grown l1 0 64 Hnone ltac:(lia) ltac:(lia)) as Hlow.
    split_and!; try done; [by right|]. intros.
    rewrite (read_asks _ _ _ _ _ _ _ _ _ _ _ _ _ Hr2 (list_lookup_insert_eq _ _ _ ltac:(destruct Hlow as (_ & (x & Hx & _) & _); by eapply lookup_lt_Some)) eq_refl). done.
  - cbn [Z.ltb Z.compare]. exists f1, l1, f2, (0, Some a). split_and!; try done. split; [done|]. by right; right.
Qed.
End open.

(** ** Writing to the console *)

(** The pieces follow each other from [a] to [b]. *)
Fixpoint contiguous (a b : Z) (pieces : list (Z * Z)) : Prop :=
  match pieces with
  | [] => a = b
  | (x, n) :: rest => x = a ∧ 0 < n ≤ LINUX_WRITE_MAX_CHUNK ∧ contiguous (a + n) b rest
  end.

Lemma write_loop_contiguous fuel buf count : ∀ total, 0 ≤ total ≤ count → (Z.to_nat (count - total) ≤ fuel)%nat →
  contiguous (buf + total) (buf + count) (write_loop fuel buf count total).
Proof.
  induction fuel as [|fuel IH]; intros total Ht Hf; cbn [write_loop].
  { cbn. lia. }
  destruct (Z.ltb_spec total count); [|cbn; lia]. cbn [contiguous]. unfold LINUX_WRITE_MAX_CHUNK.
  split_and!; [done|lia|lia|]. rewrite <- Z.add_assoc. apply IH; lia.
Qed.

(** A console write copies the whole buffer, below the kernel, or nothing. *)
Lemma write_impl_spec KVO fd buf count : 0 ≤ buf < 2 ^ 64 → 0 ≤ count < 2 ^ 64 →
  let r := sys_write_impl KVO fd buf count in
  r.1 = count ∧ contiguous buf (buf + count) r.2 ∧ (0 < count → buf + count ≤ KVO)
  ∨ r.1 < 0 ∧ r.2 = [].
Proof.
  intros Hb Hc. cbv zeta. unfold sys_write_impl. destruct (Z.eqb_spec count 0) as [->|Hn]; [left; cbn; lia|].
  unfold LINUX_WRITE_TOTAL_CAP. destruct (Z.ltb_spec 0x100000 count); [by right|].
  destruct (_ && _); [by right|]. destruct (user_buf_range_ok KVO buf count) eqn:Eo; cbn [negb]; [|by right].
  left. cbn [fst snd]. split_and!.
  - unfold iw. change (64 - 1) with 63. rewrite Z.mod_small by lia. lia.
  - replace buf with (buf + 0) at 1 by lia. apply write_loop_contiguous; lia.
  - intros _. unfold user_buf_range_ok in Eo. rewrite (proj2 (Z.eqb_neq _ _) Hn) in Eo.
    destruct (KVO <=? buf); [done|]. destruct (Z.ltb_spec (u64 (buf + count)) buf); [done|].
    apply negb_true_iff, Z.ltb_ge in Eo. destruct (decide (buf + count < 2 ^ 64)); [rewrite uw_small in Eo by lia; lia|].
    assert (u64 (buf + count) = buf + count - 2 ^ 64); [|lia]. unfold uw.
    rewrite <- (Z.mod_add _ (-1)) by lia. rewrite Z.mod_small; lia.
Qed.

(** ** Examples *)

Module SysFsWit.
Import ListFd FdDemo StackDemo.

(** A page with a path at its end. *)
Definition mem : gmap Z Z :=
  put_bytes (put_bytes ∅ 4096 (replicate 4096 0)) 8185 (str_bytes (str "../bin") ++ [0]).

(** The server opens everything as directory 9. *)
Definition env : fs_env (gmap Z Z) :=
  FsEnv (λ _, true) true true mem E_RENDEZVOS (λ _, false)
    (λ r, match r with FsOpen _ _ _ => 9 + 2 ^ 31 | _ => 0 end).

(** Relative to descriptor 3, which is /usr/lib; close-on-exec. *)
Lemma openat_spec_witness :
  fr_ret (sys_openat env w0 (Some f0) 3 8185 LINUX_O_CLOEXEC 0) = 4
  ∧ ∃ f1 l1 f2 r,
      linux_vfs_resolve_path (fe_alloc env) (fe_validate env) (Some f0) 3 (Some (str "../bin")) VFS_PATH_MAX = (Some f1, r)
      ∧ dir_learnt ents l1 3 ∧ fr_proc (sys_openat env w0 (Some f0) 3 8185 LINUX_O_CLOEXEC 0) = Some f2
      ∧ fr_mem (sys_openat env w0 (Some f0) 3 8185 LINUX_O_CLOEXEC 0) = mem
      ∧ open_outcome env w0 (str "/home") l1 r LINUX_O_CLOEXEC 0 (sys_openat env w0 (Some f0) 3 8185 LINUX_O_CLOEXEC 0) f2.
Proof.
  split; [vm_compute; reflexivity|].
  apply (openat_spec env w0 f0 (str "/home") ents 3 8185 LINUX_O_CLOEXEC 0 (str "../bin")).
  - exact ents_ok.
  - exact I.
  - cbn. unfold FD_CAP_BOUND. lia.
  - reflexivity.
  - reflexivity.
  - vm_compute. reflexivity.
  - vm_compute. intros Hz. repeat (apply elem_of_cons in Hz as [Hz|Hz]; [discriminate Hz|]).
    by apply not_elem_of_nil in Hz.
Defined.

(** The same path as a mount target: 256 bytes are loaded, whatever its length. *)
Example mount_short_path_faults : fr_ret (sys_umount2 env w0 (Some f0) 8185 0) = - LINUX_EFAULT.
Proof. vm_compute. reflexivity. Qed.

End SysFsWit.
